(* ===== verification/_CoqProject ===== *)
-Q . S2P
Prelude.v
JsNum.v
LathModel.v
JsValue.v
LathValidate.v
LathStructure.v
LathWeights.v
LathLayout.v
LathSpans.v
LathOps.v
LathOpsFacts.v
LathGroups.v
LathMove.v
LathValid.v
LathRoundTrip.v
LathTiling.v
LathSpec.v
HitTest.v
LathResize.v
QuiesceDetector.v
QuiesceRuns.v
TerminalState.v
AlertModel.v
AlertManager.v
AlertEntry.v
AlertSteps.v
AlertInvariant.v
AlertAwaits.v
AlertPublish.v
AlertSubscribe.v
AlertRings.v
WallStore.v
WallStoreRuns.v
LathPersistence.v
Bytes.v
Base64.v
Noise.v
NoiseHandshake.v
NoiseSpec.v
Transport.v
TransportFacts.v
TransportSpec.v
TransportSessions.v
PresenceWindow.v
Acl.v
AsyncFiles.v
RelayState.v
RelayCap.v
RelayRecords.v
AsyncLogic.v
RelayEnroll.v
TermText.v
TermControls.v
TermDecode.v
TermCwd.v
ToolOsc.v
OscParse.v
ShellWords.v
WatchKey.v
WatchKeyFacts.v
PaneState.v
PaneFacts.v
CwdLabels.v
ShellQuote.v
ToolTakeover.v
ShellRoundTrip.v
ShellReaders.v
WindowsRoundTrip.v
TermProtocol.v
TermScan.v
TermBounds.v
TermEvents.v
ToolRoundTrip.v
TermPaint.v
PromptInput.v
TerminalStore.v
PendingKills.v
Workspaces.v
AlertDelivery.v
FrameTunnel.v
