(* ===== verification/Prelude.v ===== *)
(** * Dormouse: a verification development

    Dormouse is a tiling terminal: a Wall of panes whose terminals report what
    runs in them, alerts that call the user back to one, and remote control of
    that Wall by paired Clients through a Relay.  This library models the part of
    the TypeScript sources (paths under src/) that holds the program's state and
    decides, and proves what makes each part correct.  Every definition is
    executable: the files end with instances, or hold samples, evaluated by the
    kernel.

    ** The parts, and where they are

    Paths of the first four groups are under src/lib/src/ unless they say more.

    The tiling engine, lib/lath/.
    - [LathModel] (model.ts): the split tree and its constructors; [LathStructure]
      and [LathWeights] prove the two halves of its invariant, [LathValidate] that
      the iterative check of an untrusted tree accepts exactly the valid ones.
    - [LathLayout] (layout.ts), with [LathSpans] on the allocation of a span,
      [LathTiling] on the rectangles of a whole tree.
    - [LathOps] (ops.ts, drop-target.ts): insert, remove, restore, move, swap,
      resize and the rest; [LathOpsFacts], [LathGroups], [LathMove], [LathValid],
      [LathRoundTrip], [LathResize] prove them; [LathSpec] is the
      engine as a state machine over its set of panes, which they refine.
    - [LathPersistence] (persistence.ts) is the boundary of storage.
    - [HitTest] (hit-test.ts): the one drop a dragged pointer would commit.
    - [WallStore] and [WallStoreRuns] (components/wall/lath-wall-store.ts): the one
      authority over a Wall's tree, its panes' metadata and parked documents, and
      histories of calls on it.

    Alerts, lib/.
    - [QuiesceDetector] (quiesce-detector.ts) and [QuiesceRuns]: output and silence.
    - [TerminalState], [AlertModel], [AlertManager] (alert-manager.ts,
      alert-episode.ts): one Session's activity and the manager of them all;
      [AlertEntry] to [AlertRings] prove its invariants, that awaits settle once,
      that what is published is current, and where a ring and a report go.
    - [AlertDelivery] (alert-delivery-scheduler.ts, speech-queue.ts): when a ring is
      spoken or pushed, and the queue that speaks one alarm at a time.

    Terminals, lib/.
    - [TermText] and [TermControls] (terminal-controls.ts): text as UTF-16 units,
      and the grammar of string controls with its streaming filter; [TermPaint]
      the stripping of controls and whether output paints.
    - [TermDecode] (osc-sanitize.ts, the decoders, CSS colours), [TermCwd],
      [ToolOsc] (src/dor-tools-lib/src/osc.ts), [OscParse] and [TermProtocol]
      (terminal-protocol.ts): the parser of a program's output, with [TermScan] and
      [TermBounds] on reads cut anywhere and on what is retained,
      [TermEvents] on its consumers and [ToolRoundTrip] on Tools as writers.
    - [ShellWords] and [WatchKey] (terminal-state.ts): the words of a command line,
      the commands of a list, the key a rule is stored under, the title shown;
      [WatchKeyFacts] proves them.
    - [PaneState] and [PaneFacts] (terminal-state.ts): the reducer over a terminal's
      events and the header drawn from it; [CwdLabels] how panes are told apart.
    - [PromptInput] (terminal-command-input.ts, terminal-prompt-shape.ts) and
      [TerminalStore] (terminal-state-store.ts, tool-dirty-store.ts): the store of
      all panes, and the heuristic that follows a shell which reports nothing.

    The Window, lib/.
    - [PendingKills] (pending-kills.ts): kills that wait, and their one timer.
    - [Workspaces] (workspace-store.ts, id-pool.ts, src/dor/src/protocol.ts): the
      ordered Workspaces with their pinned group, the ids minted for them, and the
      targets that name one.
    - The end of [WatchKeyFacts] (watched-commands.ts): the WATCHING rules a page
      keeps and stores.

    Command lines out.
    - [ShellQuote] (src/dor/src/commands/shell-quote.ts, lib/shell-escape.ts): the
      quoting for POSIX shells, cmd and PowerShell; [ShellRoundTrip] reads the
      POSIX form back with the tokenizer, [ShellReaders] and [WindowsRoundTrip] the
      others with the readers the repository's own tests document.
    - [ToolTakeover] (components/wall/tool-takeover.ts): the take-over gate.

    Security, src/remote-lib-common/src/security/.
    - [Bytes] and [Base64] (bytes.ts); [Noise], [NoiseHandshake] and [NoiseSpec]
      (noise.ts); [Transport] to [TransportSessions] (noise-transport.ts).
    - [PresenceWindow] (with the token bucket) and [Acl]: what bounds a Client, what proves
      a presence, who is authorized.
    - [FrameTunnel] (src/lib/src/remote/burrow/frame-tunnel.ts, frame-wire.ts of
      src/remote-lib-common/src/remote/): the Burrow's half of a session that
      carries embedded pages, as a relation of small steps.

    The Relay, src/relay/src/state.ts.
    - [AsyncFiles]: an async function as the tree of what it awaits; [RelayState]
      the five stores; [RelayCap], [RelayRecords]; [AsyncLogic] and [RelayEnroll]
      reason about calls that interleave.

    [JsNum] is JavaScript arithmetic as an interface with two instances, exact
    rationals and binary64; [JsValue] the untyped values, exceptions and strings.

    ** How the parts meet

    A read of a pty goes through [TermProtocol.process]; [TermEvents] hands its
    events to the alert sink ([AlertManager]) and its semantic events to
    [TerminalStore.applyTerminalSemanticEvents], which reduces them with
    [PaneState.reduceTerminalState]; the text of the read goes to
    [TerminalStore.recordTerminalOutput].  The wall store applies [LathOps] and
    publishes; what it persists comes back through [LathPersistence].  A Client's
    bytes go through a handshake of [NoiseHandshake], then a session of
    [Transport], and are authorized by [Acl]; a session's frames are served by
    [FrameTunnel], whose chunks travel as the base64url of [Base64].  A drag asks
    [HitTest] for the drop [LathOps] then makes.  An episode of the manager arms
    [AlertDelivery.onState], under the overrides of a Workspace of [Workspaces].
    A closed Workspace may wait in [PendingKills],
    which its target then names; its id comes from a pool that skips the ids the
    store holds.  Two models of one piece of terminal-state.ts exist: [TerminalState] is the slice the alert manager calls,
    over strings and with the tokenizer as a parameter, [PaneState] and [WatchKey]
    the whole, over UTF-16 text.

    ** How the code is modelled

    - A closure or object with state is a record; a method takes it and returns
      its result and the next one.  Listeners are a log of what they were told;
      a listener that calls back is not modelled.
    - The clock is an argument, given once where the source reads it once; a
      timer is the time it is due.  A fresh identifier is an argument.
    - Numbers of the layout are a [JSNum]; times and counts are Z, times of
      terminal events Q, and what comes out of [Number()] is binary64.
    - Text is a Coq string where the source treats it whole, and a list of code
      units where it is scanned.  A JS Map or object whose order shows is an
      association list, and a gmap where it does not.
    - What may throw answers an outcome; what awaits is a tree of calls any of
      which may fail.
    - Code not in the repository is a parameter with its documented laws and a
      toy instance that shows they can hold: WebCrypto and the AEAD, UTF-8 and JSON
      of the host, the URL parser, toLowerCase, Unicode classes.

    ** Fuel

    Recursion is structural where it can be.  Elsewhere the fuel is the length of
    what is left (every turn consumes a unit or a word), and a lemma says the
    loop ends for want of input and not of fuel, or that more fuel changes
    nothing: [unwrap_settles], [tok_loop_fuel], [alt_loop_units], [unused_spec] (an id is
    minted within one try for each id in hand or held), [preview_id_fresh],
    [pump_ok] (an alarm's turn takes a job, and one turn more ends),
    [chunks_from_concat] (a unit per byte is enough for a slice of many), and the
    termination theorems of the waterfill, of the filter and of the check of
    untrusted trees.

    ** What the theorems show

    Each listed property is a theorem whose comment begins with its number.
    Round trips: restore after remove, quoting read back, Tool sequences.
    Equivalences: reads cut anywhere, the filter as an automaton, validation.
    Refinements: the engine over its set of panes, the reassembler as a queue,
    authorization as a history.  Invariants of every history of calls: Lath trees,
    the wall store, the alert manager, the pane store.  Safety: rings, awaits,
    enrollments, headers, the take-over gate, a frame's requests answered once
    and its streams kept in order.  Bounds: what parsers and filters retain, and
    the window of a frame tunnel, which never wedges.  Liveness: silence settles,
    typed commands are followed, countdowns end, alarms are kept and a silent
    engine holds none up.  What a report comes to is told in full, the one case
    in which it is dropped included.  A drop shown can be made, and lands where it
    was shown; a tab moves alone; a resize moves one boundary and no other weight;
    rules survive a reload.  Where a theorem needs a hypothesis the code does not
    ensure, the counterexample is an Example beside it ([no_break_space],
    [uncovered_title], [inherited_state_throws], [bell_after_escape],
    [setZoomed_unguarded], [reused_id_leaks_grant]).

    ** Not modelled

    - Rendering and input: the React components, the keyboard and mouse routers,
      the drag controller and animation, themes, the site and the stories.
    - The runtimes that wire the modelled parts together over sockets, processes
      and browsers: the Burrow runtime around its frame tunnel, the Client
      (its half of the tunnel too), the Relay's HTTP application,
      the host service, pty management, the browser and iframe proxies, the
      VS Code extension, the desktop shell.  They are I/O and glue around calls
      of the parts above.
    - The dor command-line interface beyond its quoting.
    - Throws of [JSON.stringify]: a [JsValue] has no cycle and no BigInt.  Two calls
      of one handshake in flight at once are modelled ([NoiseHandshake]) but the
      theorems are about calls that settle in turn.
    - Of modelled files: rectKey; forgetRetiredState and console warnings; the
      guard parseTerminalColors; explainTerminalTitle, titleCandidatesForDisplay
      and buildAppTitleResolver, a debug table and a lookup by object identity. *)
From Stdlib Require Import ZArith QArith Qround Qabs Lqa List Permutation.
From stdpp Require Export base gmap strings list sets sorting.

(** ** Notation

    The development's own notations live in [dormouse_scope]. *)
Declare Scope dormouse_scope.
Delimit Scope dormouse_scope with dm.
Open Scope dormouse_scope.

(** String tests as the source writes them ([a === b]). *)
Notation "a =s? b" := (bool_decide (a = b :> string))
  (at level 70) : dormouse_scope.

(** ** Automation *)

(** The hint database for the list and option facts the components share. *)
Create HintDb dormouse.

(** Split every conjunction of the context and the goal. *)
Ltac split_all :=
  repeat match goal with
  | H : _ /\ _ |- _ => destruct H
  | |- _ /\ _ => split
  end.

(** Case on the scrutinee of the goal's first [match], with its equation. *)
Ltac case_goal :=
  match goal with
  | |- context [match ?x with _ => _ end] => destruct x eqn:?
  end.

(** Case on the scrutinee of a hypothesis' first [match]. *)
Ltac case_in H :=
  match type of H with
  | context [match ?x with _ => _ end] => destruct x eqn:?
  end.

(** ** Lists *)

Section first_at.
  Context {A B : Type} (f : A -> option B).

(** The first element (from index [i] on) on which [f] answers, with its index:
    the early-returning walks over [children] of the source. *)
Fixpoint first_at (i : nat) (l : list A) : option (nat * B) :=
  match l with
  | [] => None
  | x :: l' =>
      match f x with
      | Some b => Some (i, b)
      | None => first_at (S i) l'
      end
  end.

End first_at.

Section fold_zip.
  Context {A B S : Type} (f : nat -> A -> B -> S -> S).

(** Visit two lists in step, with the index: the callback walks of the source. *)
Fixpoint fold_zip (i : nat) (l : list A) (m : list B) (s : S) : S :=
  match l, m with
  | x :: l', y :: m' => fold_zip (Datatypes.S i) l' m' (f i x y s)
  | _, _ => s
  end.

End fold_zip.

Section fold_idx.
  Context {A S : Type} (f : nat -> A -> S -> S).

(** Visit a list in order with the index, threading a state. *)
Fixpoint fold_idx (i : nat) (l : list A) (s : S) : S :=
  match l with
  | x :: l' => fold_idx (Datatypes.S i) l' (f i x s)
  | [] => s
  end.

End fold_idx.

(** The last index whose element satisfies [p]. *)
Fixpoint last_index {A} (p : A -> bool) (l : list A) : option nat :=
  match l with
  | [] => None
  | x :: l' =>
      match last_index p l' with
      | Some j => Some (S j)
      | None => if p x then Some 0%nat else None
      end
  end.

(** [findIndex]: the first index whose element satisfies [p]. *)
Fixpoint find_index {A} (p : A -> bool) (l : list A) : option nat :=
  match l with
  | [] => None
  | x :: l' => if p x then Some 0%nat else option_map S (find_index p l')
  end.

(** [slice(i, j)]. *)
Definition slice {A} (i j : nat) (l : list A) : list A := take (j - i) (drop i l).

(** [Map.prototype.set] on a map kept in insertion order: a known key keeps its
    place, a new one goes last. *)
Fixpoint omap_set {V} (k : string) (v : V) (m : list (string * V)) : list (string * V) :=
  match m with
  | [] => [(k, v)]
  | (k', v') :: m' => if decide (k' = k) then (k, v) :: m' else (k', v') :: omap_set k v m'
  end.

(** [Map.prototype.get]. *)
Fixpoint omap_get {V} (k : string) (m : list (string * V)) : option V :=
  match m with
  | [] => None
  | (k', v) :: m' => if decide (k' = k) then Some v else omap_get k m'
  end.

(** [Map.prototype.delete]. *)
Definition omap_delete {V} (k : string) (m : list (string * V)) : list (string * V) :=
  filter (fun kv => kv.1 <> k) m.

(** [Array.prototype.splice(i, 0, x)]: insert [x] before index [i]. *)
Definition splice_in {A} (i : nat) (x : A) (l : list A) : list A :=
  take i l ++ x :: drop i l.

(** [filter((_, j) => j !== i)]: the list without its element [i]. *)
Definition remove_at {A} (i : nat) (l : list A) : list A :=
  take i l ++ drop (S i) l.

Section first_at_facts.
  Context {A B : Type} (f : A -> option B).

Lemma first_at_Some i l k b :
  first_at f i l = Some (k, b) ->
  exists j x, k = (i + j)%nat /\ l !! j = Some x /\ f x = Some b /\
    Forall (fun y => f y = None) (take j l).
Proof.
  revert i. induction l as [|x l IH]; intros i H; simpl in H; [done|].
  destruct (f x) as [b'|] eqn:Hf.
  - simplify_eq. exists 0%nat, x. split_all; auto with lia.
  - apply IH in H as (j & y & -> & Hj & Hy & Hall).
    exists (S j), y. split_all; [lia|done|done|]. simpl. by constructor.
Qed.

Lemma first_at_None i l : first_at f i l = None <-> Forall (fun y => f y = None) l.
Proof.
  revert i. induction l as [|x l IH]; intros i; simpl; [by split|].
  rewrite Forall_cons. destruct (f x) eqn:Hf.
  - split; [done|]. by intros [? _].
  - rewrite IH. by split; [auto|intros []].
Qed.

Lemma first_at_intro i l j x b :
  l !! j = Some x -> f x = Some b -> Forall (fun y => f y = None) (take j l) ->
  first_at f i l = Some ((i + j)%nat, b).
Proof.
  revert i j. induction l as [|y l IH]; intros i j Hj Hf Hall; [done|].
  destruct j as [|j]; simplify_eq/=.
  - rewrite Hf. by rewrite Nat.add_0_r.
  - apply Forall_cons in Hall as [Hy Hall]. rewrite Hy.
    rewrite (IH (S i) j Hj Hf Hall). do 2 f_equal. lia.
Qed.

End first_at_facts.

Lemma remove_at_middle {A} (l1 l2 : list A) x :
  remove_at (length l1) (l1 ++ x :: l2) = l1 ++ l2.
Proof.
  unfold remove_at. rewrite take_app_length. f_equal.
  rewrite <- Nat.add_1_r, <- drop_drop, drop_app_length. done.
Qed.

Lemma splice_in_middle {A} (l1 l2 : list A) x :
  splice_in (length l1) x (l1 ++ l2) = l1 ++ x :: l2.
Proof. unfold splice_in. by rewrite take_app_length, drop_app_length. Qed.

Lemma splice_in_Permutation {A} i (x : A) l :
  splice_in i x l ≡ₚ x :: l.
Proof.
  unfold splice_in. rewrite <- Permutation_middle. by rewrite take_drop.
Qed.

Lemma concat_map_Permutation {A B} (f : A -> list B) (l1 l2 : list A) :
  l1 ≡ₚ l2 -> concat (map f l1) ≡ₚ concat (map f l2).
Proof.
  induction 1; simpl; [done|by f_equiv| |by etrans].
  rewrite !(assoc_L (++)). f_equiv. apply Permutation_app_comm.
Qed.

Lemma filter_all {A} (P : A -> Prop) `{!forall x, Decision (P x)} (l : list A) :
  (forall x, x ∈ l -> P x) -> filter P l = l.
Proof.
  induction l as [|x l IH]; intros Hall; [done|].
  rewrite filter_cons_True by (apply Hall; by left). f_equal. apply IH.
  intros y Hy. apply Hall. by right.
Qed.

Lemma list_filter_nil_of {A} (P : A -> Prop) `{!forall x, Decision (P x)} (l : list A) :
  (forall x, x ∈ l -> ~ P x) -> filter P l = [].
Proof.
  induction l as [|x l IH]; intros Hall; [done|].
  rewrite filter_cons_False by (apply Hall; by left). apply IH. intros y Hy. apply Hall. by right.
Qed.

(** Extensionality of [map] on the elements of the list. *)
Lemma map_ext_elem {A B} (f g : A -> B) (l : list A) :
  (forall x, x ∈ l -> f x = g x) -> map f l = map g l.
Proof. intros H. apply map_ext_in. intros x Hx. apply H. by apply list_elem_of_In. Qed.

Lemma Forall2_map_l {A B C} (f : A -> B) (P : B -> C -> Prop) l k :
  Forall2 P (map f l) k <-> Forall2 (fun a c => P (f a) c) l k.
Proof. apply (Forall2_fmap_l f). Qed.

Lemma Forall2_map_r {A B C} (f : A -> B) (P : C -> B -> Prop) k l :
  Forall2 P k (map f l) <-> Forall2 (fun c a => P c (f a)) k l.
Proof. apply (Forall2_fmap_r f). Qed.

(** ** Index searches and folds *)

Lemma fold_idx_ind {A S} (I : S -> Prop) (f : nat -> A -> S -> S) i l s :
  I s -> (forall j x s', l !! j = Some x -> I s' -> I (f (i + j)%nat x s')) ->
  I (fold_idx f i l s).
Proof.
  revert i s. induction l as [|x l IH]; intros i s Hs Hf; simpl; [done|].
  apply IH.
  - specialize (Hf 0%nat x s eq_refl Hs). by rewrite Nat.add_0_r in Hf.
  - intros j y s' Hj. rewrite Nat.add_succ_comm. by apply Hf.
Qed.

Lemma fold_idx_app {A S} (f : nat -> A -> S -> S) i l1 l2 s :
  fold_idx f i (l1 ++ l2) s = fold_idx f (i + length l1) l2 (fold_idx f i l1 s).
Proof.
  revert i s. induction l1 as [|x l1 IH]; intros i s; simpl; [by rewrite Nat.add_0_r|].
  by rewrite IH, Nat.add_succ_comm.
Qed.

Lemma find_index_Some {A} (p : A -> bool) l i :
  find_index p l = Some i <->
  exists x, l !! i = Some x /\ p x = true /\ Forall (fun y => p y = false) (take i l).
Proof.
  revert i. induction l as [|x l IH]; intros i; simpl.
  { split; [done|]. by intros (y & ? & _). }
  destruct (p x) eqn:Hx.
  - split.
    + intros [= <-]. exists x. by repeat split.
    + intros (y & Hi & Hy & Hall). destruct i as [|i]; [done|]. simpl in Hall.
      apply Forall_cons in Hall as [? _]. congruence.
  - destruct i as [|i].
    + split; [by destruct (find_index p l)|]. intros (y & Hi & Hy & _). simpl in Hi. congruence.
    + split.
      * intros H. destruct (find_index p l) as [j|] eqn:Ej; [|done]. injection H as ->.
        destruct (proj1 (IH i) eq_refl) as (y & ? & ? & ?). exists y. split_all; try done.
        simpl. by constructor.
      * intros (y & Hi & Hy & Hall). simpl in Hi, Hall. apply Forall_cons in Hall as [_ Hall].
        rewrite (proj2 (IH i)); [done|by exists y].
Qed.

Lemma last_index_None {A} (p : A -> bool) l :
  last_index p l = None <-> Forall (fun y => p y = false) l.
Proof.
  induction l as [|x l IH]; simpl; [by split|]. rewrite Forall_cons, <- IH.
  destruct (last_index p l), (p x); split; try done; by intros [].
Qed.

Lemma last_index_Some {A} (p : A -> bool) l i :
  last_index p l = Some i ->
  exists x, l !! i = Some x /\ p x = true /\ Forall (fun y => p y = false) (drop (S i) l).
Proof.
  revert i. induction l as [|x l IH]; intros i H; simpl in H; [done|].
  destruct (last_index p l) as [j|] eqn:E.
  - injection H as <-. destruct (IH j eq_refl) as (y & ? & ? & ?). by exists y.
  - apply last_index_None in E. destruct (p x) eqn:Hx; [|done]. injection H as <-.
    by exists x.
Qed.

Lemma last_index_intro {A} (p : A -> bool) l1 x l2 :
  p x = true -> Forall (fun y => p y = false) l2 ->
  last_index p (l1 ++ x :: l2) = Some (length l1).
Proof.
  intros Hx H2. induction l1 as [|y l1 IH]; simpl.
  - by rewrite (proj2 (last_index_None p l2)), Hx by done.
  - by rewrite IH.
Qed.

Lemma find_index_intro {A} (p : A -> bool) l1 x l2 :
  p x = true -> Forall (fun y => p y = false) l1 ->
  find_index p (l1 ++ x :: l2) = Some (length l1).
Proof.
  intros Hx H1. induction H1 as [|y l1 Hy H1 IH]; simpl; [by rewrite Hx|]. by rewrite Hy, IH.
Qed.

(** A list of two elements or more has two ends. *)
Lemma list_split_ends {A} (l : list A) :
  (2 <= length l)%nat -> exists x m y, l = x :: m ++ [y].
Proof.
  destruct l as [|x l]; simpl; [lia|]. destruct l as [|z l] using rev_ind; simpl; [lia|].
  intros _. by exists x, l, z.
Qed.

Lemma zip_map_self {A B} (f : A -> B) (l : list A) : zip (map f l) l = map (fun x => (f x, x)) l.
Proof. induction l as [|x l IH]; simpl; [done|]. by f_equal. Qed.

Lemma foldl_add_sum (k : nat) (xs : list nat) : foldl Nat.add k xs = (k + foldl Nat.add 0 xs)%nat.
Proof.
  revert k. induction xs as [|x xs IH]; intros k; simpl; [lia|].
  rewrite IH, (IH x). lia.
Qed.

Lemma foldl_add_app (xs ys : list nat) :
  foldl Nat.add 0%nat (xs ++ ys) = (foldl Nat.add 0 xs + foldl Nat.add 0 ys)%nat.
Proof. rewrite foldl_app. apply foldl_add_sum. Qed.

Lemma slice_middle {A} (l1 l2 l3 : list A) :
  slice (length l1) (length (l1 ++ l2)) (l1 ++ l2 ++ l3) = l2.
Proof.
  unfold slice. rewrite drop_app_length, length_app, Nat.add_comm, Nat.add_sub.
  by rewrite take_app_length.
Qed.

Lemma slice_split {A} (i j : nat) (l : list A) :
  (i <= j)%nat -> l = take i l ++ slice i j l ++ drop j l.
Proof.
  intros H. unfold slice. replace (drop j l) with (drop (j - i) (drop i l)).
  - by rewrite !take_drop.
  - rewrite drop_drop. f_equal. lia.
Qed.

Lemma slice_length {A} (i j : nat) (l : list A) :
  (j <= length l)%nat -> length (slice i j l) = (j - i)%nat.
Proof. intros H. unfold slice. rewrite length_take, length_drop. lia. Qed.

Lemma slice_map {A B} (f : A -> B) i j l : slice i j (map f l) = map f (slice i j l).
Proof. unfold slice. by rewrite !fmap_take, !fmap_drop. Qed.

Lemma filter_length_all {A} (P : A -> Prop) `{!forall x, Decision (P x)} (l : list A) :
  length (filter P l) = length l -> forall x, x ∈ l -> P x.
Proof.
  induction l as [|y l IH]; intros Hlen x Hx; [by apply elem_of_nil in Hx|].
  destruct (decide (P y)) as [Hy|Hy].
  - rewrite filter_cons_True in Hlen by done. injection Hlen as Hlen.
    apply elem_of_cons in Hx as [->|Hx]; [done|]. by apply IH.
  - rewrite filter_cons_False in Hlen by done.
    pose proof (length_filter P l). simpl in Hlen. lia.
Qed.

(** A list of distinct elements of a set, as many as it has, lists the set. *)
Lemma list_lists_set (l : list string) (X : gset string) :
  NoDup l -> length l = size X -> (forall x, x ∈ l -> x ∈ X) -> forall x, x ∈ l <-> x ∈ X.
Proof.
  intros Hnd Hlen Hin x. split; [apply Hin|]. intros Hx.
  assert (E : list_to_set l = X); [|by rewrite <- E in Hx; apply elem_of_list_to_set in Hx].
  apply set_subseteq_size_eq.
  - intros y Hy. apply elem_of_list_to_set in Hy. by apply Hin.
  - rewrite size_list_to_set by done. lia.
Qed.

(** ** Maps in insertion order *)

#[global] Arguments omap_delete : simpl never.

Section omap.
  Context {V : Type}.
  Implicit Types (m : list (string * V)) (k : string) (v : V).

Lemma omap_get_set_eq k v m : omap_get k (omap_set k v m) = Some v.
Proof.
  induction m as [|[k' v'] m IH]; simpl; [by rewrite decide_True|].
  destruct (decide (k' = k)) as [->|]; simpl; [by rewrite decide_True|by rewrite decide_False].
Qed.

Lemma omap_get_set_ne k k' v m : k <> k' -> omap_get k' (omap_set k v m) = omap_get k' m.
Proof.
  intros Hk. induction m as [|[k2 v2] m IH]; simpl; [by rewrite decide_False|].
  destruct (decide (k2 = k)) as [->|]; simpl; [by rewrite !decide_False by done|]. by rewrite IH.
Qed.

Lemma omap_get_delete_eq k m : omap_get k (omap_delete k m) = None.
Proof.
  unfold omap_delete. induction m as [|[k' v'] m IH]; [done|]. rewrite filter_cons. simpl.
  case_decide; [|done]. simpl. by rewrite decide_False.
Qed.

Lemma omap_get_delete_ne k k' m : k <> k' -> omap_get k' (omap_delete k m) = omap_get k' m.
Proof.
  intros Hk. unfold omap_delete. induction m as [|[k2 v2] m IH]; [done|]. rewrite filter_cons. simpl.
  case_decide as Hd; simpl.
  - by rewrite IH.
  - subst. by rewrite decide_False.
Qed.

Lemma omap_get_elem_of k v m : omap_get k m = Some v -> (k, v) ∈ m.
Proof.
  induction m as [|[k' v'] m IH]; simpl; [done|].
  destruct (decide (k' = k)) as [->|]; [intros [= ->]; left|right; by apply IH].
Qed.

Lemma omap_get_is_Some k m : is_Some (omap_get k m) <-> k ∈ map fst m.
Proof.
  split.
  - intros [v Hv%omap_get_elem_of]. apply list_elem_of_fmap. by exists (k, v).
  - intros Hk. induction m as [|[k' v'] m IH]; simpl in *; [by apply elem_of_nil in Hk|].
    destruct (decide (k' = k)); [by eexists|]. apply IH. apply elem_of_cons in Hk as [?|?]; [congruence|done].
Qed.

Lemma omap_set_keys k v m :
  map fst (omap_set k v m) = if decide (k ∈ map fst m) then map fst m else map fst m ++ [k].
Proof.
  induction m as [|[k' v'] m IH]; [done|]. cbn [omap_set map fst].
  destruct (decide (k' = k)) as [->|Hk]; cbn [map fst].
  - rewrite decide_True by left. done.
  - rewrite IH. destruct (decide (k ∈ map fst m)) as [Hin|Hin].
    + rewrite decide_True by (by right). done.
    + rewrite decide_False; [done|]. rewrite not_elem_of_cons. by split.
Qed.

Lemma omap_set_NoDup k v m : NoDup (map fst m) -> NoDup (map fst (omap_set k v m)).
Proof.
  intros Hm. rewrite omap_set_keys. case_decide; [done|]. apply NoDup_app. split_all; [done| |apply NoDup_singleton].
  intros x Hx ->%list_elem_of_singleton. done.
Qed.

Lemma omap_delete_keys k m : map fst (omap_delete k m) = filter (fun x => x <> k) (map fst m).
Proof.
  unfold omap_delete. induction m as [|[k' v'] m IH]; [done|]. simpl. rewrite !filter_cons. simpl.
  case_decide; simpl; by rewrite IH.
Qed.

Lemma omap_delete_NoDup k m : NoDup (map fst m) -> NoDup (map fst (omap_delete k m)).
Proof. intros. rewrite omap_delete_keys. by apply NoDup_filter. Qed.

Lemma omap_delete_none k m : k ∉ map fst m -> omap_delete k m = m.
Proof. intros Hk. apply filter_all. intros [k' v'] Hx E. apply Hk, list_elem_of_fmap. exists (k', v'). by split. Qed.

Lemma omap_get_Permutation k v m :
  NoDup (map fst m) -> omap_get k m = Some v -> m ≡ₚ (k, v) :: omap_delete k m.
Proof.
  induction m as [|[k' v'] m IH]; simpl; [done|]. intros Hnd Hk. apply NoDup_cons in Hnd as [Hn Hnd].
  destruct (decide (k' = k)) as [->|Hne].
  - simplify_eq. unfold omap_delete. rewrite filter_cons_False by (simpl; tauto). f_equiv.
    pose proof (omap_delete_none k m Hn) as E. unfold omap_delete in E. by rewrite E.
  - unfold omap_delete. rewrite filter_cons_True by done. rewrite (IH Hnd Hk) at 1. apply Permutation_swap.
Qed.

Lemma omap_delete_set k v m : omap_delete k (omap_set k v m) = omap_delete k m.
Proof.
  unfold omap_delete. induction m as [|[k' v'] m IH]; simpl.
  - by rewrite filter_cons_False by (simpl; tauto).
  - destruct (decide (k' = k)) as [->|Hne].
    + by rewrite !filter_cons_False by (simpl; tauto).
    + rewrite !filter_cons_True by done. by rewrite IH.
Qed.

Lemma omap_delete_delete k m : omap_delete k (omap_delete k m) = omap_delete k m.
Proof. apply filter_all. intros x Hx. by apply list_elem_of_filter in Hx as [? _]. Qed.

Lemma omap_set_set k v v' m : omap_set k v' (omap_set k v m) = omap_set k v' m.
Proof.
  induction m as [|[k' w] m IH]; simpl; [by rewrite decide_True|].
  destruct (decide (k' = k)) as [->|]; simpl; [by rewrite decide_True|]. rewrite decide_False by done. by rewrite IH.
Qed.

Lemma omap_set_Permutation k v m :
  NoDup (map fst m) -> omap_set k v m ≡ₚ (k, v) :: omap_delete k m.
Proof.
  intros Hnd. rewrite (omap_get_Permutation k v (omap_set k v m)); [|by apply omap_set_NoDup|apply omap_get_set_eq].
  by rewrite omap_delete_set.
Qed.

End omap.
