(* ===== verification/JsNum.v ===== *)
(** * JavaScript numbers

    The arithmetic the layout engine uses, as an interface ([JSNum]) with two
    instances: [binary64_num], the IEEE 754 double format JavaScript computes
    with, and [Q_num], exact rational arithmetic.  Definitions and structural
    theorems are stated for every instance, so they hold of the doubles the
    program runs on; the theorems about proportions and pixels are stated at
    [Q_num], where rounding of the last bit is left out. *)
From Stdlib Require Import ZArith QArith Qround Qabs Qminmax SpecFloat.
From Stdlib Require Import Ascii.
From S2P Require Import Prelude.

(** The operations of [number] the modelled source applies. *)
Class JSNum (W : Type) := {
  nadd : W -> W -> W;
  nsub : W -> W -> W;
  nmul : W -> W -> W;
  ndiv : W -> W -> W;
  nltb : W -> W -> bool;      (** [a < b] *)
  nleb : W -> W -> bool;      (** [a <= b] *)
  neqb : W -> W -> bool;      (** [a === b] *)
  nmax : W -> W -> W;         (** [Math.max(a, b)] *)
  nmin : W -> W -> W;         (** [Math.min(a, b)] *)
  nabs : W -> W;              (** [Math.abs(a)] *)
  nround : W -> W;            (** [Math.round(a)] *)
  nis_nan : W -> bool;        (** [Number.isNaN(a)] *)
  nis_finite : W -> bool;     (** [Number.isFinite(a)] *)
  nlit : Z -> positive -> W   (** the numeral [p / q] *)
}.

Definition n0 {W} `{JSNum W} : W := nlit 0 1.
Definition n1 {W} `{JSNum W} : W := nlit 1 1.
Definition nhalf {W} `{JSNum W} : W := nlit 1 2.
(** [1e-6] and [1e-9]. *)
Definition n1e6 {W} `{JSNum W} : W := nlit 1 1000000.
Definition n1e9 {W} `{JSNum W} : W := nlit 1 1000000000.

Definition nof_nat {W} `{JSNum W} (n : nat) : W := nlit (Z.of_nat n) 1.

(** [xs.reduce((s, x) => s + x, 0)]. *)
Definition nsum {W} `{JSNum W} (xs : list W) : W := foldl nadd n0 xs.

(** ** Exact rationals *)

Definition Qltb (a b : Q) : bool := negb (Qle_bool b a).

(** [Math.round]: the nearest integer, ties upwards. *)
Definition Qround_js (a : Q) : Q := inject_Z (Qfloor (a + (1#2))).

#[export] Instance Q_num : JSNum Q := {
  nadd := Qplus; nsub := Qminus; nmul := Qmult; ndiv := Qdiv;
  nltb := Qltb; nleb := Qle_bool; neqb := Qeq_bool;
  nmax := Qmax; nmin := Qmin; nabs := Qabs; nround := Qround_js;
  nis_nan := fun _ => false; nis_finite := fun _ => true;
  nlit := fun p q => Qmake p q
}.

(** ** IEEE 754 binary64 *)

Module Binary64.

Abbreviation prec := 53%Z.
Abbreviation emax := 1024%Z.

Definition of_Z (z : Z) : spec_float := binary_normalize prec emax z 0 false.

Definition is_nan (f : spec_float) : bool :=
  match f with S754_nan => true | _ => false end.

Definition is_finite (f : spec_float) : bool :=
  match f with S754_zero _ | S754_finite _ _ _ => true | _ => false end.

Definition sign (f : spec_float) : bool :=
  match f with
  | S754_zero s | S754_infinity s | S754_finite s _ _ => s
  | S754_nan => false
  end.

(** [Math.max], which is NaN on a NaN and prefers [+0] to [-0]. *)
Definition max (a b : spec_float) : spec_float :=
  if is_nan a then a else if is_nan b then b
  else if SFltb a b then b
  else if SFeqb a b && sign a then b else a.

Definition min (a b : spec_float) : spec_float :=
  if is_nan a then a else if is_nan b then b
  else if SFltb b a then b
  else if SFeqb a b && sign b then b else a.

(** The exact value of a finite float. *)
Definition to_Q (s : bool) (m : positive) (e : Z) : Q :=
  let z := if s then Zneg m else Zpos m in
  if (0 <=? e)%Z then inject_Z (z * 2 ^ e)
  else Qmake z (Z.to_pos (2 ^ (- e))).

(** [Math.round]: computed on the exact value; a result of zero keeps the
    argument's sign, and values that are no finite number are unchanged. *)
Definition round (f : spec_float) : spec_float :=
  match f with
  | S754_finite s m e =>
      match Qfloor (to_Q s m e + (1#2)) with
      | Z0 => S754_zero s
      | z => of_Z z
      end
  | _ => f
  end.

End Binary64.

#[export] Instance binary64_num : JSNum spec_float := {
  nadd := SFadd 53 1024; nsub := SFsub 53 1024;
  nmul := SFmul 53 1024; ndiv := SFdiv 53 1024;
  nltb := SFltb; nleb := SFleb; neqb := SFeqb;
  nmax := Binary64.max; nmin := Binary64.min; nabs := SFabs;
  nround := Binary64.round;
  nis_nan := Binary64.is_nan; nis_finite := Binary64.is_finite;
  nlit := fun p q =>
    match q with
    | xH => Binary64.of_Z p
    | _ => SFdiv 53 1024 (Binary64.of_Z p) (Binary64.of_Z (Zpos q))
    end
}.

(** ** JSON text of the structure fingerprint

    [JSON.stringify] on the values [structureFingerprint] builds: strings,
    arrays and records with fixed keys.  Strings are sequences of code units
    below 256 ([Ascii.ascii]).  The lemmas show the text determines the value. *)
#[local] Open Scope string_scope.

(** A lower-case hexadecimal digit. *)
Definition hex_digit (n : N) : ascii :=
  ascii_of_N (if (n <? 10)%N then 48 + n else 87 + n).

(** A string of the one code unit [n]. *)
Definition chr (n : N) : string := String (ascii_of_N n) EmptyString.

(** One code unit as [JSON.stringify] writes it inside quotes. *)
Definition json_escape (c : ascii) : string :=
  let n := N_of_ascii c in
  if (n =? 34)%N then chr 92 +:+ chr 34
  else if (n =? 92)%N then chr 92 +:+ chr 92
  else if (n =? 8)%N then chr 92 +:+ "b"
  else if (n =? 9)%N then chr 92 +:+ "t"
  else if (n =? 10)%N then chr 92 +:+ "n"
  else if (n =? 12)%N then chr 92 +:+ "f"
  else if (n =? 13)%N then chr 92 +:+ "r"
  else if (n <? 32)%N then
    chr 92 +:+ "u00" +:+ String (hex_digit (N.div n 16)) (String (hex_digit (N.modulo n 16)) "")
  else String c "".

Fixpoint json_escape_all (s : string) : string :=
  match s with
  | EmptyString => EmptyString
  | String c s' => json_escape c +:+ json_escape_all s'
  end.

(** A JSON string literal. *)
Definition json_string (s : string) : string :=
  chr 34 +:+ json_escape_all s +:+ chr 34.

(** The comma-separated elements of an array. *)
Fixpoint json_commas (xs : list string) : string :=
  match xs with
  | [] => ""
  | [x] => x
  | x :: xs' => x +:+ "," +:+ json_commas xs'
  end.

Definition json_array (xs : list string) : string := "[" +:+ json_commas xs +:+ "]".

(** ** The escaped text determines the string *)

(** Reads one escaped code unit back. *)
Definition json_unescape (s : string) : option (ascii * string) :=
  match s with
  | EmptyString => None
  | String c s1 =>
      if (N_of_ascii c =? 34)%N then None
      else if (N_of_ascii c =? 92)%N then
        match s1 with
        | EmptyString => None
        | String e s2 =>
            if ascii_dec e "b" then Some (ascii_of_N 8, s2)
            else if ascii_dec e "t" then Some (ascii_of_N 9, s2)
            else if ascii_dec e "n" then Some (ascii_of_N 10, s2)
            else if ascii_dec e "f" then Some (ascii_of_N 12, s2)
            else if ascii_dec e "r" then Some (ascii_of_N 13, s2)
            else if ascii_dec e "u" then
              match s2 with
              | String _ (String _ (String h (String l s3))) =>
                  let d c := (if N_of_ascii c <? 58 then N_of_ascii c - 48 else N_of_ascii c - 87)%N in
                  Some (ascii_of_N (16 * d h + d l), s3)
              | _ => None
              end
            else Some (e, s2)
        end
      else Some (c, s1)
  end.

Lemma json_unescape_escape c r : json_unescape (json_escape c +:+ r) = Some (c, r).
Proof. destruct c as [[] [] [] [] [] [] [] []]; reflexivity. Qed.

Lemma string_app_cons x (a b : string) : String x a +:+ b = String x (a +:+ b).
Proof. done. Qed.

Lemma string_app_assoc (a b c : string) : (a +:+ b) +:+ c = a +:+ b +:+ c.
Proof. induction a as [|x a IH]; [done|]. by rewrite !string_app_cons, IH. Qed.

Lemma string_app_nil_r (a : string) : a +:+ "" = a.
Proof. induction a as [|x a IH]; [done|]. by rewrite string_app_cons, IH. Qed.

Lemma json_unescape_quote r : json_unescape (chr 34 +:+ r) = None.
Proof. reflexivity. Qed.

Lemma json_escape_all_inj s1 s2 r1 r2 :
  json_escape_all s1 +:+ chr 34 +:+ r1 = json_escape_all s2 +:+ chr 34 +:+ r2 ->
  s1 = s2 /\ r1 = r2.
Proof.
  revert s2. induction s1 as [|c1 s1 IH]; intros [|c2 s2] H.
  - split; [done|]. by injection H.
  - apply (f_equal json_unescape) in H. cbn [json_escape_all] in H.
    rewrite string_app_assoc, json_unescape_escape in H. discriminate.
  - apply (f_equal json_unescape) in H. cbn [json_escape_all] in H.
    rewrite string_app_assoc, json_unescape_escape in H. discriminate.
  - apply (f_equal json_unescape) in H. cbn [json_escape_all] in H.
    rewrite !string_app_assoc, !json_unescape_escape in H. injection H as -> H.
    apply IH in H as [-> ->]. done.
Qed.

Lemma json_string_inj s1 s2 r1 r2 :
  json_string s1 +:+ r1 = json_string s2 +:+ r2 -> s1 = s2 /\ r1 = r2.
Proof.
  unfold json_string. rewrite !string_app_assoc. intros H. injection H as H.
  by apply json_escape_all_inj.
Qed.

Lemma string_app_inj_l (p r1 r2 : string) : p +:+ r1 = p +:+ r2 -> r1 = r2.
Proof. induction p as [|c p IH]; [done|]. rewrite !string_app_cons. intros H. injection H. auto. Qed.
