(* ===== verification/LathModel.v ===== *)
(** * The Lath split tree (lib/src/lib/lath/model.ts)

    The data model of the tiling engine, its traversals and the
    invariant-preserving constructors every operation builds through. *)
From Stdlib Require Import Ascii ZArith QArith Lqa.
From S2P Require Import Prelude JsNum.
#[local] Open Scope string_scope.
#[local] Set Warnings "-register-all".

Abbreviation LeafId := string.

(** The edge of a pane: the source's ['left' | 'right' | 'top' | 'bottom']. *)
Inductive Edge := ELeft | ERight | ETop | EBottom.

(** A ['row'] split lays its children left to right, a ['col'] split top to bottom. *)
Inductive Dir := Row | Col.

#[export] Instance Edge_eq_dec : EqDecision Edge.
Proof. solve_decision. Defined.

#[export] Instance Dir_eq_dec : EqDecision Dir.
Proof. solve_decision. Defined.

(** [LathNode]; a [LathChild] is the pair of a node and its weight. *)
Inductive LathNode (W : Type) :=
  | Leaf (id : LeafId)
  | Split (dir : Dir) (children : list (LathNode W * W)).
Arguments Leaf {W} id.
Arguments Split {W} dir children.

Abbreviation LathChild W := (LathNode W * W)%type.

(** [root: None] is the empty Wall. *)
Record LathTree (W : Type) := mkTree { root : option (LathNode W) }.
Arguments mkTree {W} root.
Arguments root {W} _.

Definition edgeAxis (edge : Edge) : Dir :=
  match edge with ELeft | ERight => Row | ETop | EBottom => Col end.

Definition edgeIsBefore (edge : Edge) : bool :=
  match edge with ELeft | ETop => true | ERight | EBottom => false end.

Definition oppositeEdge (edge : Edge) : Edge :=
  match edge with
  | ELeft => ERight | ERight => ELeft | ETop => EBottom | EBottom => ETop
  end.

Definition leafTree {W} (id : LeafId) : LathTree W := mkTree (Some (Leaf id)).

(** The weight-free value [structureFingerprint] stringifies. *)
Inductive Shape :=
  | SLeaf (id : LeafId)
  | SSplit (dir : Dir) (children : list Shape).

Definition dir_name (d : Dir) : string := match d with Row => "row" | Col => "col" end.

(** [JSON.stringify] of a stripped node. *)
Fixpoint json_shape (s : Shape) : string :=
  match s with
  | SLeaf id =>
      "{" +:+ json_string "k" +:+ ":" +:+ json_string "leaf" +:+ "," +:+
      json_string "id" +:+ ":" +:+ json_string id +:+ "}"
  | SSplit d ss =>
      "{" +:+ json_string "k" +:+ ":" +:+ json_string "split" +:+ "," +:+
      json_string "dir" +:+ ":" +:+ json_string (dir_name d) +:+ "," +:+
      json_string "children" +:+ ":" +:+ json_array (map json_shape ss) +:+ "}"
  end.

Section Model.
  Context {W : Type} `{N : JSNum W}.
  Implicit Types (n : LathNode W) (t : LathTree W) (cs : list (LathChild W)).

(** The [walk] of [leaves], in pre-order. *)
Fixpoint node_leaves n : list LeafId :=
  match n with
  | Leaf id => [id]
  | Split _ cs => concat (map (fun c => node_leaves c.1) cs)
  end.

Definition leaves t : list LeafId :=
  match root t with Some n => node_leaves n | None => [] end.

(** The [walk] of [findLeafPath]: the first leaf named [id] in pre-order. *)
Fixpoint find_leaf (id : LeafId) n : option (list nat) :=
  match n with
  | Leaf i => if i =s? id then Some [] else None
  | Split _ cs =>
      match first_at (fun c => find_leaf id c.1) 0 cs with
      | Some (i, p) => Some (i :: p)
      | None => None
      end
  end.

Definition findLeafPath t (id : LeafId) : option (list nat) :=
  match root t with Some n => find_leaf id n | None => None end.

(** The loop of [nodeAtPath] from a node. *)
Fixpoint node_at n (path : list nat) : option (LathNode W) :=
  match path with
  | [] => Some n
  | i :: rest =>
      match n with
      | Leaf _ => None
      | Split _ cs =>
          match cs !! i with
          | Some c => node_at c.1 rest
          | None => None
          end
      end
  end.

Definition nodeAtPath t (path : list nat) : option (LathNode W) :=
  match root t with Some n => node_at n path | None => None end.

(** Rescale the weights to sum to 1; equal weights when the sum is not positive. *)
Definition normalizeWeights cs : list (LathChild W) :=
  let sum := nsum (map snd cs) in
  if nleb sum n0 then
    let w := if (0 <? length cs)%nat then ndiv n1 (nof_nat (length cs)) else n0 in
    map (fun c => (c.1, w)) cs
  else map (fun c => (c.1, ndiv c.2 sum)) cs.

(** The children one child contributes to its parent's [collected] list: a
    same-direction split is spliced in, an empty subtree dropped. *)
Definition collect (dir : Dir) (m : option (LathNode W)) (weight : W) : list (LathChild W) :=
  match m with
  | None => []
  | Some (Split d gcs) =>
      if decide (d = dir) then map (fun gc => (gc.1, nmul gc.2 weight)) gcs
      else [(Split d gcs, weight)]
  | Some (Leaf id) => [(Leaf id, weight)]
  end.

Fixpoint normalize n : option (LathNode W) :=
  match n with
  | Leaf _ => Some n
  | Split dir cs =>
      match concat (map (fun c => collect dir (normalize c.1) c.2) cs) with
      | [] => None
      | [c] => Some c.1
      | collected => Some (Split dir (normalizeWeights collected))
      end
  end.

(** The node at [path] becomes [replacement]; a path that leaves the tree
    changes nothing below the point where it leaves. *)
Fixpoint replaceAtPath n (path : list nat) (replacement : LathNode W) : LathNode W :=
  match path with
  | [] => replacement
  | i :: rest =>
      match n with
      | Leaf _ => n
      | Split dir cs =>
          match cs !! i with
          | None => n
          | Some c => Split dir (<[i := (replaceAtPath c.1 rest replacement, c.2)]> cs)
          end
      end
  end.

(** The [strip] of [structureFingerprint]: kinds, directions and ids only. *)
Fixpoint strip n : Shape :=
  match n with
  | Leaf id => SLeaf id
  | Split d cs => SSplit d (map (fun c => strip c.1) cs)
  end.

(** [structureFingerprint]: the JSON text of the weight-free structure. *)
Definition structureFingerprint n : string := json_shape (strip n).

(** ** The invariant *)

(** The direction of a split, [None] on a leaf. *)
Definition split_dir n : option Dir :=
  match n with Leaf _ => None | Split d _ => Some d end.

(** Splits have at least two children and never directly contain a split of
    their own direction. *)
Fixpoint canonical n : bool :=
  match n with
  | Leaf _ => true
  | Split d cs =>
      (2 <=? length cs)%nat &&
      forallb (fun c => canonical c.1 && bool_decide (split_dir c.1 <> Some d)) cs
  end.

(** The structural half of the tree invariant: canonical splits, unique leaf ids. *)
Definition well_formed t : Prop :=
  match root t with
  | Some n => canonical n = true /\ NoDup (node_leaves n)
  | None => True
  end.

End Model.

(** The numerical half, over exact weights: positive, summing to 1 in each split. *)
Fixpoint weights_ok (n : LathNode Q) : bool :=
  match n with
  | Leaf _ => true
  | Split _ cs =>
      forallb (fun c => Qltb 0 c.2) cs && Qeq_bool (nsum (map snd cs)) 1 &&
      forallb (fun c => weights_ok c.1) cs
  end.

(** [validate(tree) = []] on a typed tree, with exact weights. *)
Definition valid_tree (t : LathTree Q) : Prop :=
  well_formed t /\ match root t with Some n => weights_ok n = true | None => True end.

(** ** Induction and the fingerprint *)

Section NodeInd.
  Context {W : Type} (P : LathNode W -> Prop).
  Hypothesis (Hleaf : forall id, P (Leaf id)).
  Hypothesis (Hsplit : forall d cs, Forall (fun c => P c.1) cs -> P (Split d cs)).

Lemma LathNode_ind' : forall n, P n.
Proof.
  fix IH 1. intros [id|d cs]; [apply Hleaf|]. apply Hsplit.
  induction cs as [|[n w] cs IHcs]; constructor; [apply IH|apply IHcs].
Qed.

End NodeInd.

Lemma Shape_ind' (P : Shape -> Prop) :
  (forall id, P (SLeaf id)) ->
  (forall d ss, Forall P ss -> P (SSplit d ss)) -> forall s, P s.
Proof.
  intros Hleaf Hsplit. fix IH 1. intros [id|d ss]; [apply Hleaf|]. apply Hsplit.
  induction ss as [|s ss IHss]; constructor; [apply IH|apply IHss].
Qed.

Lemma json_shape_open s : exists r, json_shape s = String "{"%char r.
Proof. destruct s; eexists; reflexivity. Qed.

Lemma json_commas_inj ss1 ss2 r1 r2 :
  Forall (fun s1 => forall s2 q1 q2,
    json_shape s1 +:+ q1 = json_shape s2 +:+ q2 -> s1 = s2 /\ q1 = q2) ss1 ->
  json_commas (map json_shape ss1) +:+ "]" +:+ r1 =
  json_commas (map json_shape ss2) +:+ "]" +:+ r2 -> ss1 = ss2 /\ r1 = r2.
Proof.
  intros Hall. revert ss2.
  induction Hall as [|s1 ss1 Hs Hall IH]; intros [|s2 ss2] H.
  - split; [done|]. by apply (string_app_inj_l "]") in H.
  - exfalso. destruct (json_shape_open s2) as [q Hq].
    destruct ss2; cbn in H; rewrite Hq in H; discriminate H.
  - exfalso. destruct (json_shape_open s1) as [q Hq].
    destruct ss1; cbn in H; rewrite Hq in H; discriminate H.
  - destruct ss1 as [|s1' ss1], ss2 as [|s2' ss2]; cbn [map json_commas] in H.
    + apply Hs in H as [-> H]. by apply string_app_inj_l in H as ->.
    + rewrite string_app_assoc in H. apply Hs in H as [_ H]. discriminate H.
    + rewrite string_app_assoc in H. apply Hs in H as [_ H]. discriminate H.
    + rewrite !string_app_assoc in H. apply Hs in H as [-> H].
      apply string_app_inj_l, (IH (s2' :: ss2)) in H as [-> ->]. done.
Qed.

Lemma json_shape_inj s1 s2 r1 r2 :
  json_shape s1 +:+ r1 = json_shape s2 +:+ r2 -> s1 = s2 /\ r1 = r2.
Proof.
  revert s2 r1 r2. induction s1 as [id1|d1 ss1 IH] using Shape_ind'; intros [id2|d2 ss2] r1 r2 H.
  - unfold json_shape in H. rewrite !string_app_assoc in H.
    do 7 apply string_app_inj_l in H.
    apply json_string_inj in H as [-> H]. by apply string_app_inj_l in H as ->.
  - exfalso. cbn in H. injection H. discriminate.
  - exfalso. cbn in H. injection H. discriminate.
  - cbn [json_shape] in H. unfold json_array in H. rewrite !string_app_assoc in H.
    do 7 apply string_app_inj_l in H. apply json_string_inj in H as [Hd H].
    assert (d1 = d2) as -> by (destruct d1, d2; done). do 4 apply string_app_inj_l in H.
    apply json_commas_inj in H as [-> H]; [|done]. by apply string_app_inj_l in H as ->.
Qed.

(** The fingerprint text identifies the structure. *)
Lemma structureFingerprint_inj {W} (n1 n2 : LathNode W) :
  structureFingerprint n1 = structureFingerprint n2 <-> strip n1 = strip n2.
Proof.
  unfold structureFingerprint. split; [|by intros ->]. intros H.
  destruct (json_shape_inj (strip n1) (strip n2) "" "") as [? _]; [|done].
  by rewrite H.
Qed.
