(* ===== verification/JsValue.v ===== *)
(** * Untyped JavaScript values and strings

    The values that cross a process or storage boundary before the source
    validates them ([unknown]), and the string operations of the standard
    library the source uses.  Strings are sequences of code units below 256.
    Values whose objects may be shared or cyclic are addresses into a heap. *)
From Stdlib Require Import ZArith Ascii.
From S2P Require Import Prelude JsNum.
#[local] Open Scope string_scope.
#[local] Set Warnings "-register-all".

(** A value of type [unknown] with no methods and no cycles. *)
Inductive JsValue :=
  | JUndefined
  | JNull
  | JBool (b : bool)
  | JNumber (z : Z)
  | JString (s : string)
  | JArray (xs : list JsValue)
  | JObject (fields : list (string * JsValue)).

(** [value?.name]: the field of an object, [undefined] of anything else. *)
Definition js_field (name : string) (v : JsValue) : JsValue :=
  match v with
  | JObject fields => match omap_get name fields with Some x => x | None => JUndefined end
  | _ => JUndefined
  end.

(** [typeof v === 'string' ? v : null]. *)
Definition js_string (v : JsValue) : option string :=
  match v with JString s => Some s | _ => None end.

(** [v === true]. *)
Definition js_is_true (v : JsValue) : bool :=
  match v with JBool true => true | _ => false end.

(** A nullable string as a value. *)
Definition js_nullable (s : option string) : JsValue :=
  match s with Some s => JString s | None => JNull end.

(** The white space [trim] takes off. *)
Definition js_space (c : ascii) : bool :=
  let n := N_of_ascii c in
  ((9 <=? n)%N && (n <=? 13)%N) || (n =? 32)%N || (n =? 160)%N.

Fixpoint trim_start (s : string) : string :=
  match s with
  | String c s' => if js_space c then trim_start s' else s
  | EmptyString => s
  end.

Fixpoint string_rev_app (s acc : string) : string :=
  match s with
  | String c s' => string_rev_app s' (String c acc)
  | EmptyString => acc
  end.

(** [s.trim()]. *)
Definition js_trim (s : string) : string :=
  string_rev_app (trim_start (string_rev_app (trim_start s) "")) "".

(** [s || fallback]. *)
Definition js_or (s fallback : string) : string := if s =s? "" then fallback else s.

(** The characters before the first [c], if there is one: [s.slice(0, s.indexOf(c))]. *)
Fixpoint js_before (c : ascii) (s : string) : option string :=
  match s with
  | EmptyString => None
  | String a s' => if bool_decide (a = c) then Some "" else String a <$> js_before c s'
  end.

Example js_trim_sample : js_trim "  npm run dev  " = "npm run dev". Proof. reflexivity. Qed.

(** ** Objects on a heap *)

Inductive HVal (W : Type) :=
  | HUndefined
  | HNull
  | HBool (b : bool)
  | HNumber (w : W)
  | HString (s : string)
  | HRef (a : nat).
Arguments HUndefined {W}.
Arguments HNull {W}.
Arguments HBool {W} b.
Arguments HNumber {W} w.
Arguments HString {W} s.
Arguments HRef {W} a.

Inductive HObj (W : Type) :=
  | HArray (xs : list (HVal W))
  | HRecord (fields : list (string * HVal W)).
Arguments HArray {W} xs.
Arguments HRecord {W} fields.

Abbreviation Heap W := (gmap nat (HObj W)).

Section heap.
  Context {W : Type}.
  Implicit Types (h : Heap W) (v : HVal W).

(** [isRecord] (lib/src/lib/is-record.ts): the address and fields of a plain object. *)
Definition isRecord h v : option (nat * list (string * HVal W)) :=
  match v with
  | HRef a => match h !! a with Some (HRecord fs) => Some (a, fs) | _ => None end
  | _ => None
  end.

(** [Array.isArray]: the elements. *)
Definition as_array h v : option (list (HVal W)) :=
  match v with
  | HRef a => match h !! a with Some (HArray xs) => Some xs | _ => None end
  | _ => None
  end.

(** [record.name]; and [name in record]. *)
Definition field (name : string) (fs : list (string * HVal W)) : HVal W := default HUndefined (omap_get name fs).
Definition has_field (name : string) (fs : list (string * HVal W)) : bool := bool_decide (is_Some (omap_get name fs)).

Definition as_string v : option string := match v with HString s => Some s | _ => None end.

Lemma isRecord_Some h v a fs : isRecord h v = Some (a, fs) <-> v = HRef a /\ h !! a = Some (HRecord fs).
Proof.
  unfold isRecord. destruct v as [| | | | |b]; split; try done; try (by intros [? _]).
  - destruct (h !! b) as [[]|] eqn:E; try done. by intros [= <- <-].
  - by intros [[= ->] ->].
Qed.

Lemma as_array_Some h v xs : as_array h v = Some xs <-> exists b, v = HRef b /\ h !! b = Some (HArray xs).
Proof.
  unfold as_array. destruct v as [| | | | |b]; split; try done; try (by intros (? & ? & _)).
  - destruct (h !! b) as [[]|] eqn:E; try done. intros [= <-]. by exists b.
  - by intros (c & [= ->] & ->).
Qed.

End heap.

(** ** Exceptions

    A call that may throw returns an [outcome]: its value, or the error it
    throws.  The two classes of error the remote code tells apart with
    [instanceof] are the two constructors of [Exn]. *)

(** A [NoiseError] (or its subclass [NoiseTransportError]), or any other [Error]. *)
Inductive Exn := NoiseErr (message : string) | OtherErr (message : string).

Inductive outcome (A : Type) := Ok (a : A) | Throw (e : Exn).
Arguments Ok {A} a.
Arguments Throw {A} e.

Definition obind {A B} (x : outcome A) (f : A -> outcome B) : outcome B :=
  match x with Ok a => f a | Throw e => Throw e end.

Notation "'let!' x ':=' e 'in' k" := (obind e (fun x => k))
  (at level 10, x pattern, e at level 100, k at level 200,
   format "'[v' 'let!'  x  ':='  e  'in' '/' k ']'") : dormouse_scope.

Definition is_ok {A} (x : outcome A) : bool := match x with Ok _ => true | Throw _ => false end.

(** The [message] of an error. *)
Definition message (e : Exn) : string := match e with NoiseErr m | OtherErr m => m end.

(** [if (guard) throw error;]. *)
Definition throw_if (guard : bool) (e : Exn) : outcome unit := if guard then Throw e else Ok tt.

(** [array.map(f)] with an [f] that may throw. *)
Fixpoint omapM {A B} (f : A -> outcome B) (l : list A) : outcome (list B) :=
  match l with
  | [] => Ok []
  | x :: l' => let! y := f x in let! ys := omapM f l' in Ok (y :: ys)
  end.

Lemma obind_ok {A B} (x : outcome A) (f : A -> outcome B) b :
  obind x f = Ok b <-> exists a, x = Ok a /\ f a = Ok b.
Proof.
  destruct x as [a|e]; simpl; split; try done.
  - intros H. by exists a.
  - by intros (a' & [= <-] & H).
  - by intros (? & ? & _).
Qed.

Lemma throw_if_ok guard e u : throw_if guard e = Ok u <-> guard = false.
Proof. destruct guard, u; split; done. Qed.
