(* ===== verification/LathValidate.v ===== *)
(** * Validation of untrusted trees (lib/src/lib/lath/model.ts, [validate])

    The iterative check of a tree read from storage, on a heap whose objects may
    be shared or cyclic, and the theorem that it accepts exactly the values that
    denote a valid tree with no node shared. *)
From Stdlib Require Import ZArith.
From S2P Require Import Prelude JsNum LathModel JsValue.
#[local] Open Scope string_scope.
#[local] Open Scope list_scope.

(** The error messages, by what they say. *)
Inductive ValidationError (W : Type) :=
  | ENoRoot
  | EInvalidNode (path : list nat)
  | EBadId (path : list nat)
  | EDuplicateId (id : LeafId) (path : list nat)
  | EInvalidSplit (path : list nat)
  | ESameDirection (path : list nat) (dir : Dir)
  | EFewChildren (path : list nat) (count : nat)
  | EBadChild (path : list nat) (i : nat)
  | EBadWeight (path : list nat) (i : nat) (weight : HVal W)
  | EBadSum (path : list nat) (sum : W).
Arguments ENoRoot {W}.
Arguments EInvalidNode {W} path.
Arguments EBadId {W} path.
Arguments EDuplicateId {W} id path.
Arguments EInvalidSplit {W} path.
Arguments ESameDirection {W} path dir.
Arguments EFewChildren {W} path count.
Arguments EBadChild {W} path i.
Arguments EBadWeight {W} path i weight.
Arguments EBadSum {W} path sum.

(** An entry of [pending]. *)
Record Pending (W : Type) := mkPending { p_node : HVal W; p_path : list nat; p_parentDir : option Dir }.
Arguments mkPending {W} _ _ _.
Arguments p_node {W} _.
Arguments p_path {W} _.
Arguments p_parentDir {W} _.

Definition dir_of_name (s : string) : option Dir :=
  if s =s? "row" then Some Row else if s =s? "col" then Some Col else None.

Section validate.
  Context {W : Type} `{N : JSNum W}.
  Implicit Types (h : Heap W) (v : HVal W) (n : LathNode W).

(** A weight [validate] accepts. *)
Definition good_weight (w : W) : bool := nis_finite w && negb (nleb w n0).

Definition child_weight (fs : list (string * HVal W)) : option W :=
  match field "weight" fs with HNumber w => if good_weight w then Some w else None | _ => None end.

(** The body of [node.children.forEach]: its errors, the weight it adds, the
    entry it pushes. *)
Definition visit_child h (path : list nat) (dir : Dir) (i : nat) (child : HVal W)
    : list (ValidationError W) * option W * option (Pending W) :=
  match isRecord h child with
  | None => ([EBadChild path i], None, None)
  | Some (_, fs) =>
      let w := child_weight fs in
      (match w with None => [EBadWeight path i (field "weight" fs)] | Some _ => [] end, w,
       Some (mkPending (field "node" fs) (path ++ [i]) (Some dir)))
  end.

(** A split: its errors and pushes. *)
Definition visit_split h (path : list nat) (parentDir : option Dir) (dir : Dir) (children : list (HVal W))
    : list (ValidationError W) * list (Pending W) :=
  let visited := imap (visit_child h path dir) children in
  let sum := nsum (omap (fun r => r.1.2) visited) in
  ((if decide (parentDir = Some dir) then [ESameDirection path dir] else []) ++
   (if (length children <? 2)%nat then [EFewChildren path (length children)] else []) ++
   concat (map (fun r => r.1.1) visited) ++
   (if (0 <? length children)%nat && nltb n1e6 (nabs (nsub sum n1)) then [EBadSum path sum] else []),
   omap snd visited).

(** The fields that decide what a node is. *)
Definition split_shape h (fs : list (string * HVal W)) : option (Dir * list (HVal W)) :=
  match field "kind" fs, field "dir" fs, as_array h (field "children" fs) with
  | HString k, HString d, Some xs =>
      if k =s? "split" then match dir_of_name d with Some dir => Some (dir, xs) | None => None end else None
  | _, _, _ => None
  end.

(** The body of the [while] loop: errors, pushes in push order, and the two sets. *)
Definition visit h (p : Pending W) (seenIds : gset LeafId) (seenNodes : gset nat)
    : list (ValidationError W) * list (Pending W) * gset LeafId * gset nat :=
  match isRecord h (p_node p) with
  | None => ([EInvalidNode (p_path p)], [], seenIds, seenNodes)
  | Some (a, fs) =>
      if decide (a ∈ seenNodes) then ([EInvalidNode (p_path p)], [], seenIds, seenNodes)
      else
        let seenNodes := {[a]} ∪ seenNodes in
        if bool_decide (as_string (field "kind" fs) = Some "leaf") then
          match field "id" fs with
          | HString id =>
              (if decide (id ∈ seenIds) then [EDuplicateId id (p_path p)] else [], [], {[id]} ∪ seenIds, seenNodes)
          | _ => ([EBadId (p_path p)], [], seenIds, seenNodes)
          end
        else
          match split_shape h fs with
          | None => ([EInvalidSplit (p_path p)], [], seenIds, seenNodes)
          | Some (dir, xs) => (visit_split h (p_path p) (p_parentDir p) dir xs, seenIds, seenNodes)
          end
  end.

(** The loop, last pushed first; [None] when the fuel runs out. *)
Fixpoint validate_loop (fuel : nat) h (pending : list (Pending W)) (seenIds : gset LeafId) (seenNodes : gset nat)
    : option (list (ValidationError W)) :=
  match pending with
  | [] => Some []
  | p :: pending =>
      match fuel with
      | O => None
      | S fuel =>
          let '(errors, pushes, ids, nodes) := visit h p seenIds seenNodes in
          app errors <$> validate_loop fuel h (reverse pushes ++ pending) ids nodes
      end
  end.

(** The children a visit of an object can push. *)
Definition child_count h (o : HObj W) : nat :=
  match o with
  | HRecord fs => match as_array h (field "children" fs) with Some xs => length xs | None => O end
  | HArray _ => O
  end.

(** What the nodes not yet seen can still push. *)
Definition unseen h (seenNodes : gset nat) : nat :=
  sum_list (map (fun ao => if decide (ao.1 ∈ seenNodes) then O else child_count h ao.2) (map_to_list h)).

(** Enough for any heap: every node is expanded once. *)
Definition validate_fuel h : nat := S (unseen h ∅).

Definition validate h (tree : HVal W) : option (list (ValidationError W)) :=
  match isRecord h tree with
  | None => Some [ENoRoot]
  | Some (_, fs) =>
      if negb (has_field "root" fs) then Some [ENoRoot]
      else
        let root := field "root" fs in
        let pending := match root with HNull => [] | _ => [mkPending root [] None] end in
        validate_loop (validate_fuel h) h pending ∅ ∅
  end.

(** ** Termination *)

Lemma unseen_step h a o seen :
  h !! a = Some o -> a ∉ seen -> unseen h seen = (child_count h o + unseen h ({[a]} ∪ seen))%nat.
Proof.
  intros Ha Hs. unfold unseen. pose proof (map_to_list_delete h a o Ha) as Hp.
  assert (G : forall f : nat * HObj W -> nat,
    sum_list (map f (map_to_list h)) = (f (a, o) + sum_list (map f (map_to_list (delete a h))))%nat).
  { intros f. rewrite <- Hp. done. }
  rewrite !G. cbn [fst snd]. rewrite decide_False by done. rewrite decide_True by (apply elem_of_union; left; by apply elem_of_singleton). cbn [Nat.add]. f_equal.
  f_equal. apply map_ext_in. intros [b x] Hin. apply list_elem_of_In, elem_of_map_to_list in Hin.
  apply lookup_delete_Some in Hin as [Hne _]. cbn [fst snd].
  destruct (decide (b ∈ seen)) as [Hb|Hb]; [|].
  - rewrite decide_True; [done|]. apply elem_of_union. by right.
  - rewrite decide_False; [done|]. rewrite elem_of_union, elem_of_singleton. by intros [->|].
Qed.

Lemma split_shape_Some h fs d xs :
  split_shape h fs = Some (d, xs) <->
  field "kind" fs = HString "split" /\ field "dir" fs = HString (dir_name d) /\ as_array h (field "children" fs) = Some xs.
Proof.
  unfold split_shape. split.
  - destruct (field "kind" fs) as [| | | |k|]; try done. destruct (field "dir" fs) as [| | | |dn|]; try done.
    destruct (as_array h (field "children" fs)) as [ys|]; [|done]. destruct (bool_decide_reflect (k = "split")) as [->|]; [|done].
    unfold dir_of_name. destruct (bool_decide_reflect (dn = "row")) as [->|]; [by intros [= <- <-]|].
    destruct (bool_decide_reflect (dn = "col")) as [->|]; [by intros [= <- <-]|done].
  - intros (-> & -> & ->). by destruct d.
Qed.

Lemma visit_split_pushes h path parent d xs : (length (visit_split h path parent d xs).2 <= length xs)%nat.
Proof.
  unfold visit_split. cbn [snd]. rewrite <- (length_imap (visit_child h path d) xs).
  generalize (imap (visit_child h path d) xs). induction l as [|r l IH]; [done|]. cbn. destruct (r.2); cbn; lia.
Qed.

(** A visit pushes no more than it takes from what is unseen. *)
Lemma visit_potential h p ids nodes es pushes ids' nodes' :
  visit h p ids nodes = (es, pushes, ids', nodes') -> (length pushes + unseen h nodes' <= unseen h nodes)%nat.
Proof.
  unfold visit. destruct (isRecord h (p_node p)) as [[a fs]|] eqn:Er; [|intros [= <- <- <- <-]; cbn; lia].
  apply isRecord_Some in Er as [_ Ha]. destruct (decide (a ∈ nodes)) as [|Hn]; [intros [= <- <- <- <-]; cbn; lia|].
  rewrite (unseen_step h a _ nodes Ha Hn).
  destruct (bool_decide _).
  { destruct (field "id" fs); intros [= <- <- <- <-]; cbn [length]; lia. }
  destruct (split_shape h fs) as [[d xs]|] eqn:Es; [|intros [= <- <- <- <-]; cbn [length]; lia].
  apply split_shape_Some in Es as (_ & _ & Hc).
  destruct (visit_split h (p_path p) (p_parentDir p) d xs) as [es0 ps0] eqn:Ev. intros [= <- <- <- <-].
  pose proof (visit_split_pushes h (p_path p) (p_parentDir p) d xs) as Hp. rewrite Ev in Hp. cbn [snd] in Hp.
  unfold child_count. rewrite Hc. lia.
Qed.

Lemma validate_loop_total fuel h pending ids nodes :
  (length pending + unseen h nodes <= fuel)%nat -> is_Some (validate_loop fuel h pending ids nodes).
Proof.
  revert pending ids nodes. induction fuel as [|fuel IH]; intros [|p pending] ids nodes Hf; cbn [validate_loop]; try done.
  { cbn in Hf. lia. }
  destruct (visit h p ids nodes) as [[[es pushes] ids'] nodes'] eqn:Ev. apply visit_potential in Ev.
  apply fmap_is_Some, IH. rewrite length_app, length_reverse. cbn [length] in Hf. lia.
Qed.

Lemma validate_total h v : is_Some (validate h v).
Proof.
  unfold validate. destruct (isRecord h v) as [[a fs]|]; [|done]. destruct (negb _); [done|].
  apply validate_loop_total. unfold validate_fuel. destruct (field "root" fs); cbn [length]; lia.
Qed.

(** ** What a value denotes *)

(** The node a value denotes, with the addresses of the nodes it is made of, in
    pre-order: a node reached twice is listed twice. *)
Fixpoint denotes h n v (addrs : list nat) : Prop :=
  exists a fs, isRecord h v = Some (a, fs) /\
  match n with
  | Leaf id => field "kind" fs = HString "leaf" /\ field "id" fs = HString id /\ addrs = [a]
  | Split d cs =>
      exists xs parts, split_shape h fs = Some (d, xs) /\ addrs = a :: concat parts /\
        (fix children cs xs parts :=
           match cs, xs, parts with
           | [], [], [] => True
           | c :: cs, x :: xs, part :: parts =>
               (exists b gs, isRecord h x = Some (b, gs) /\ field "weight" gs = HNumber c.2 /\
                  denotes h c.1 (field "node" gs) part) /\ children cs xs parts
           | _, _, _ => False
           end) cs xs parts
  end.

Definition child_denotes h (c : LathNode W * W) (x : HVal W) (part : list nat) : Prop :=
  exists b gs, isRecord h x = Some (b, gs) /\ field "weight" gs = HNumber c.2 /\ denotes h c.1 (field "node" gs) part.

Lemma denotes_Split h d cs v addrs :
  denotes h (Split d cs) v addrs <->
  exists a fs xs parts, isRecord h v = Some (a, fs) /\ split_shape h fs = Some (d, xs) /\
    addrs = a :: concat parts /\ Forall3 (child_denotes h) cs xs parts.
Proof.
  assert (G : forall cs xs parts,
    (fix children cs xs parts :=
       match cs, xs, parts with
       | [], [], [] => True
       | c :: cs, x :: xs, part :: parts =>
           (exists b gs, isRecord h x = Some (b, gs) /\ field "weight" gs = HNumber c.2 /\
              denotes h c.1 (field "node" gs) part) /\ children cs xs parts
       | _, _, _ => False
       end) cs xs parts <-> Forall3 (child_denotes h) cs xs parts).
  { clear. intros cs. induction cs as [|c cs IH]; intros [|x xs] [|part parts]; split; try done; try (by inversion 1).
    - intros _. constructor.
    - intros [H1 H2]. constructor; [exact H1|by apply IH].
    - inversion 1; subst. split; [done|by apply IH]. }
  cbn [denotes]. split.
  - intros (a & fs & Hr & xs & parts & Hs & -> & Hc). exists a, fs, xs, parts. by rewrite <- G.
  - intros (a & fs & xs & parts & Hr & Hs & -> & Hc). exists a, fs. split; [done|]. exists xs, parts. by rewrite G.
Qed.

(** The numerical half of the check, on any number type. *)
Fixpoint weights_check n : bool :=
  match n with
  | Leaf _ => true
  | Split _ cs =>
      forallb (fun c => good_weight c.2) cs && negb (nltb n1e6 (nabs (nsub (nsum (map snd cs)) n1))) &&
      forallb (fun c => weights_check c.1) cs
  end.

Definition node_check n : bool := canonical n && weights_check n.

(** A pending entry that denotes a valid node fit for its parent. *)
Definition entry_ok h (p : Pending W) (na : LathNode W * list nat) : Prop :=
  denotes h na.1 (p_node p) na.2 /\ node_check na.1 = true /\
  (forall d, p_parentDir p = Some d -> split_dir na.1 <> Some d).

(** What the loop accepts: valid nodes, unseen and unshared, with new distinct ids. *)
Definition accepts h (pending : list (Pending W)) (ids : gset LeafId) (nodes : gset nat) : Prop :=
  exists nas, Forall2 (entry_ok h) pending nas /\
    NoDup (concat (map snd nas)) /\ (forall a, a ∈ concat (map snd nas) -> a ∉ nodes) /\
    NoDup (concat (map (fun na => node_leaves na.1) nas)) /\
    (forall id, id ∈ concat (map (fun na => node_leaves na.1) nas) -> id ∉ ids).

(** ** The loop accepts exactly these *)

Lemma denotes_head h n v addrs :
  denotes h n v addrs -> exists a fs rest, isRecord h v = Some (a, fs) /\ addrs = a :: rest.
Proof.
  destruct n as [id|d cs].
  - intros (a & fs & Hr & _ & _ & ->). by exists a, fs, [].
  - intros (a & fs & xs & parts & Hr & _ & -> & _)%denotes_Split. by exists a, fs, (concat parts).
Qed.

(** What a good child holds: the value of its node and its weight. *)
Definition good_child h (x : HVal W) : option (HVal W * W) :=
  match isRecord h x with
  | Some (_, fs) => match child_weight fs with Some w => Some (field "node" fs, w) | None => None end
  | None => None
  end.

Lemma good_child_denotes h c x part :
  good_weight c.2 = true /\ child_denotes h c x part <->
  exists v, good_child h x = Some (v, c.2) /\ denotes h c.1 v part.
Proof.
  unfold good_child, child_denotes, child_weight. split.
  - intros (Hw & b & gs & -> & -> & Hd). rewrite Hw. by eexists.
  - intros (v & Hg & Hd). destruct (isRecord h x) as [[b gs]|]; [|done].
    destruct (field "weight" gs) as [| | |w| |] eqn:Ef; try done. destruct (good_weight w) eqn:Ew; [|done].
    injection Hg as <- <-. split; [done|]. by exists b, gs.
Qed.

Lemma visit_child_good h path d i x :
  visit_child h path d i x =
    match good_child h x with
    | Some (v, w) => ([], Some w, Some (mkPending v (path ++ [i]) (Some d)))
    | None => visit_child h path d i x
    end /\
  ((visit_child h path d i x).1.1 = [] <-> is_Some (good_child h x)).
Proof.
  unfold visit_child, good_child. destruct (isRecord h x) as [[b gs]|]; [|split; [done|split; [done|by intros [? ?]]]].
  destruct (child_weight gs) as [w|]; (split; [done|split; [done|by intros [? ?]]]).
Qed.

Definition child_entry (path : list nat) (d : Dir) (i : nat) (vw : HVal W * W) : Pending W :=
  mkPending vw.1 (path ++ [i]) (Some d).

Lemma visit_children h path d xs (f : nat -> nat) :
  let visited := imap (fun i => visit_child h path d (f i)) xs in
  (concat (map (fun r => r.1.1) visited) = [] <-> is_Some (mapM (good_child h) xs)) /\
  (forall vws, mapM (good_child h) xs = Some vws ->
     omap (fun r => r.1.2) visited = map snd vws /\
     omap snd visited = imap (fun i => child_entry path d (f i)) vws).
Proof.
  revert f. induction xs as [|x xs IH]; intros f; cbn [imap map concat mapM].
  { split; [done|]. by intros vws [= <-]. }
  destruct (visit_child_good h path d (f 0%nat) x) as [Hv He]. destruct (IH (f ∘ S)) as [IH1 IH2]. split.
  - rewrite app_nil, He, IH1. destruct (good_child h x) as [vw|]; cbn; [|by split; [intros [[? ?] _]|intros [? ?]]].
    destruct (mapM (good_child h) xs); cbn; (split; [intros [_ [? ?]]|intros [? ?]]); done.
  - intros vws Hm. destruct (good_child h x) as [[v w]|]; [|done]. cbn in Hm.
    destruct (mapM (good_child h) xs) as [vws'|]; [|done]. injection Hm as <-. rewrite Hv. cbn.
    destruct (IH2 vws' eq_refl) as [H1 H2]. by split; f_equal.
Qed.

Lemma visit_split_ok h path parent d xs es pushes :
  visit_split h path parent d xs = (es, pushes) ->
  es = [] <->
  parent <> Some d /\ (2 <= length xs)%nat /\
  exists vws, mapM (good_child h) xs = Some vws /\
    nltb n1e6 (nabs (nsub (nsum (map snd vws)) n1)) = false /\ pushes = imap (child_entry path d) vws.
Proof.
  unfold visit_split. intros [= <- <-]. destruct (visit_children h path d xs id) as [Hc Hs].
  change (imap (fun i => visit_child h path d (id i)) xs) with (imap (visit_child h path d) xs) in Hc, Hs.
  rewrite !app_nil, Hc. destruct (mapM (good_child h) xs) as [vws|].
  - destruct (Hs vws eq_refl) as [-> ->]. destruct (decide (parent = Some d)); [by split; [intros [? _]|intros [? _]]|].
    destruct (Nat.ltb_spec (length xs) 2); [split; [by intros (_ & ? & _)|lia]|].
    destruct (Nat.ltb_spec 0 (length xs)); [cbn [andb]|lia]. split.
    + intros (_ & _ & _ & H4). split; [done|]. split; [done|]. exists vws. by destruct (nltb n1e6 _).
    + intros (_ & _ & vws' & [= <-] & -> & _). by split_and!.
  - split; [by intros (_ & _ & [? ?] & _)|by intros (_ & _ & ? & ? & _)].
Qed.

(** The order of the pending entries does not matter to what is accepted. *)
Lemma accepts_reverse h pushes rest ids nodes :
  accepts h (reverse pushes ++ rest) ids nodes <-> accepts h (pushes ++ rest) ids nodes.
Proof.
  assert (G : forall ps, accepts h (ps ++ rest) ids nodes -> accepts h (reverse ps ++ rest) ids nodes).
  { intros ps (nas & Hf & H1 & H2 & H3 & H4). apply Forall2_app_inv_l in Hf as (l1 & l2 & F1 & F2 & ->).
    exists (reverse l1 ++ l2). split; [apply Forall2_app; [by apply Forall2_reverse|done]|].
    assert (Ep : reverse l1 ++ l2 ≡ₚ l1 ++ l2) by (by rewrite reverse_Permutation).
    assert (E1 : concat (map snd (reverse l1 ++ l2)) ≡ₚ concat (map snd (l1 ++ l2))) by (by rewrite Ep).
    assert (E2 : concat (map (fun na => node_leaves na.1) (reverse l1 ++ l2))
                 ≡ₚ concat (map (fun na => node_leaves na.1) (l1 ++ l2))) by (by rewrite Ep).
    rewrite E1, E2. setoid_rewrite E1. setoid_rewrite E2. by split_and!. }
  split; [|apply G]. intros H. apply G in H. by rewrite reverse_involutive in H.
Qed.

(** A split's entry is accepted when its children's entries are. *)
Lemma Forall3_zip_entries h path d vws cs parts xs (f : nat -> nat) :
  mapM (good_child h) xs = Some vws ->
  (Forall3 (child_denotes h) cs xs parts /\ forallb (fun c => good_weight c.2) cs = true /\
   Forall (fun c => node_check c.1 = true /\ split_dir c.1 <> Some d) cs) <->
  (exists nas, Forall2 (entry_ok h) (imap (fun i => child_entry path d (f i)) vws) nas /\
     parts = map snd nas /\ cs = zip (map fst nas) (map snd vws)).
Proof.
  revert vws cs parts f. induction xs as [|x xs IH]; intros vws cs parts f Hm.
  { injection Hm as <-. split.
    - intros (H & _). inversion H; subst. exists []. by split_and!.
    - intros (nas & H & -> & ->). apply Forall2_nil_inv_l in H as ->. split_and!; constructor. }
  cbn in Hm. destruct (good_child h x) as [[v w]|] eqn:Hg; [|done]. cbn in Hm.
  destruct (mapM (good_child h) xs) as [vws'|]; [|done]. injection Hm as <-. cbn [imap]. split.
  - intros (H & Hw & Hc). inversion H as [|c ? part cs' ? parts' Hd Hr]; subst. cbn [forallb] in Hw.
    apply andb_prop in Hw as [Hw1 Hw2]. apply Forall_cons in Hc as [Hc1 Hc2].
    destruct (proj1 (good_child_denotes h c x part) (conj Hw1 Hd)) as (v' & Hg' & Hd').
    rewrite Hg in Hg'. injection Hg' as <- ->.
    destruct (proj1 (IH vws' cs' parts' (f ∘ S) eq_refl) (conj Hr (conj Hw2 Hc2))) as (nas & Hf & -> & ->).
    exists ((c.1, part) :: nas). split; [|split; [done|by destruct c]]. constructor; [|exact Hf].
    split; [exact Hd'|]. split; [apply Hc1|]. intros d' [= <-]. apply Hc1.
  - intros (nas & Hf & -> & ->). apply Forall2_cons_inv_l in Hf as ([n part] & nas' & He & Hf & ->).
    destruct (proj2 (IH vws' _ _ (f ∘ S) eq_refl) (ex_intro _ nas' (conj Hf (conj eq_refl eq_refl)))) as (H1 & H2 & H3).
    destruct He as (Hd & Hn & Hp). cbn [p_node p_parentDir child_entry fst snd] in *.
    destruct (proj2 (good_child_denotes h (n, w) x part) (ex_intro _ v (conj Hg Hd))) as [Hw Hcd].
    cbn [map zip]. split; [by constructor|]. cbn [snd] in Hw. split; [cbn [forallb snd]; by rewrite Hw|].
    constructor; [|exact H3]. split; [exact Hn|by apply Hp].
Qed.

Lemma node_check_Split d cs :
  node_check (Split d cs) = true <->
  (2 <= length cs)%nat /\ nltb n1e6 (nabs (nsub (nsum (map snd cs)) n1)) = false /\
  forallb (fun c => good_weight c.2) cs = true /\ Forall (fun c => node_check c.1 = true /\ split_dir c.1 <> Some d) cs.
Proof.
  unfold node_check. cbn [canonical weights_check]. rewrite !andb_true_iff, Nat.leb_le, negb_true_iff.
  assert (G : Forall (fun c : LathNode W * W => (canonical c.1 && weights_check c.1 = true) /\ split_dir c.1 <> Some d) cs <->
    forallb (fun c => canonical c.1 && bool_decide (split_dir c.1 <> Some d)) cs = true /\
    forallb (fun c => weights_check c.1) cs = true).
  { rewrite !forallb_forall, Forall_forall. setoid_rewrite list_elem_of_In. setoid_rewrite andb_true_iff.
    setoid_rewrite bool_decide_eq_true. split; [intros H; split; intros c Hc; specialize (H c Hc); tauto|].
    intros [H1 H2] c Hc. specialize (H1 c Hc). specialize (H2 c Hc). tauto. }
  rewrite G. tauto.
Qed.

Lemma accepts_leaf h a fs id path parent rest ids nodes :
  h !! a = Some (HRecord fs) -> field "kind" fs = HString "leaf" -> field "id" fs = HString id ->
  a ∉ nodes -> id ∉ ids ->
  accepts h (mkPending (HRef a) path parent :: rest) ids nodes <-> accepts h rest ({[id]} ∪ ids) ({[a]} ∪ nodes).
Proof.
  intros Ha Hk Hid Hna Hni. assert (Hr : isRecord h (HRef a) = Some (a, fs)) by (by apply isRecord_Some). split.
  - intros (nas & Hf & H1 & H2 & H3 & H4). apply Forall2_cons_inv_l in Hf as ([n addrs] & nas' & (Hd & _) & Hf & ->).
    cbn [fst snd p_node map concat] in *.
    assert (n = Leaf id /\ addrs = [a]) as [-> ->].
    { destruct n as [id'|d cs].
      - destruct Hd as (a' & fs' & Hr' & Hk' & Hid' & ->). rewrite Hr in Hr'. injection Hr' as <- <-. by split; congruence.
      - apply denotes_Split in Hd as (a' & fs' & xs & parts & Hr' & Hs & _). rewrite Hr in Hr'. injection Hr' as <- <-.
        apply split_shape_Some in Hs as [Hk' _]. congruence. }
    apply NoDup_cons in H1 as [Ha1 H1]. apply NoDup_cons in H3 as [Hi1 H3].
    exists nas'. split_and!; [done|done| |done|].
    + intros b Hb [->%elem_of_singleton|Hb']%elem_of_union; [done|]. apply (H2 b); [by right|done].
    + intros b Hb [->%elem_of_singleton|Hb']%elem_of_union; [done|]. apply (H4 b); [by right|done].
  - intros (nas & Hf & H1 & H2 & H3 & H4). exists ((Leaf id, [a]) :: nas). cbn [map concat snd fst node_leaves app].
    split_and!.
    + constructor; [|done]. split; [by exists a, fs|]. split; [done|]. by intros d _.
    + apply NoDup_cons. split; [|done]. intros Hin. apply (H2 a Hin), elem_of_union. left. by apply elem_of_singleton.
    + intros b [->|Hb]%elem_of_cons; [done|]. intros Hb'. apply (H2 b Hb), elem_of_union. by right.
    + apply NoDup_cons. split; [|done]. intros Hin. apply (H4 id Hin), elem_of_union. left. by apply elem_of_singleton.
    + intros b [->|Hb]%elem_of_cons; [done|]. intros Hb'. apply (H4 b Hb), elem_of_union. by right.
Qed.

Lemma concat_zip_leaves (nas : list (LathNode W * list nat)) (ws : list W) :
  length ws = length nas ->
  concat (map (fun c : LathNode W * W => node_leaves c.1) (zip (map fst nas) ws)) =
  concat (map (fun na => node_leaves na.1) nas).
Proof.
  revert ws. induction nas as [|na nas IH]; intros [|w ws]; try done. intros [= Hl]. cbn. by rewrite IH.
Qed.

Lemma accepts_split h a fs d xs vws path parent rest ids nodes :
  h !! a = Some (HRecord fs) -> split_shape h fs = Some (d, xs) -> a ∉ nodes ->
  parent <> Some d -> (2 <= length xs)%nat -> mapM (good_child h) xs = Some vws ->
  nltb n1e6 (nabs (nsub (nsum (map snd vws)) n1)) = false ->
  accepts h (mkPending (HRef a) path parent :: rest) ids nodes <->
  accepts h (imap (child_entry path d) vws ++ rest) ids ({[a]} ∪ nodes).
Proof.
  intros Ha Hs Hna Hpar Hlen Hm Hsum. assert (Hr : isRecord h (HRef a) = Some (a, fs)) by (by apply isRecord_Some).
  assert (Hlv : length vws = length xs) by (symmetry; by eapply Forall2_length, mapM_Some_1). split.
  - intros (nas & Hf & H1 & H2 & H3 & H4). apply Forall2_cons_inv_l in Hf as ([n addrs] & nas' & (Hd & Hc & Hp) & Hf & ->).
    cbn [fst snd p_node p_parentDir map concat] in *. destruct n as [id|d' cs].
    { destruct Hd as (a' & fs' & Hr' & Hk' & _). rewrite Hr in Hr'. injection Hr' as <- <-.
      apply split_shape_Some in Hs as [Hk _]. congruence. }
    apply denotes_Split in Hd as (a' & fs' & xs' & parts & Hr' & Hs' & -> & Hcs). rewrite Hr in Hr'. injection Hr' as <- <-.
    rewrite Hs in Hs'. injection Hs' as <- <-. apply node_check_Split in Hc as (_ & _ & Hw & Hcc).
    destruct (proj1 (Forall3_zip_entries h path d vws cs parts xs id Hm) (conj Hcs (conj Hw Hcc))) as (nas & Hfc & -> & ->).
    change (imap (fun i => child_entry path d (id i)) vws) with (imap (child_entry path d) vws) in Hfc.
    exists (nas ++ nas'). pose proof (Forall2_length _ _ _ Hfc) as Hln. rewrite length_imap in Hln.
    cbn [node_leaves] in *. rewrite concat_zip_leaves in * by (rewrite length_map; lia).
    rewrite !map_app, !concat_app. cbn [app] in H1. apply NoDup_cons in H1 as [Ha1 H1].
    split_and!; [by apply Forall2_app|done| |done|done].
    intros b Hb [->%elem_of_singleton|Hb']%elem_of_union; [done|]. apply (H2 b); [by right|done].
  - intros (nas & Hf & H1 & H2 & H3 & H4). apply Forall2_app_inv_l in Hf as (l1 & l2 & F1 & F2 & ->).
    rewrite !map_app, !concat_app in *. pose proof (Forall2_length _ _ _ F1) as Hln. rewrite length_imap in Hln.
    destruct (proj2 (Forall3_zip_entries h path d vws _ _ xs id Hm) (ex_intro _ l1 (conj F1 (conj eq_refl eq_refl))))
      as (Hcs & Hw & Hcc).
    assert (Hz : map snd (zip (map fst l1) (map snd vws)) = map snd vws).
    { apply (snd_zip (map fst l1)). rewrite !length_fmap || rewrite !length_map. lia. }
    exists ((Split d (zip (map fst l1) (map snd vws)), a :: concat (map snd l1)) :: l2).
    cbn [map concat fst snd node_leaves app]. rewrite concat_zip_leaves by (rewrite length_map; lia).
    split_and!; [|..|done|done].
    + constructor; [|done]. split; [apply denotes_Split; by exists a, fs, xs, (map snd l1)|].
      split; [|by intros d' Hd' [= ->]]. cbn [fst]. apply node_check_Split. rewrite Hz. split_and!; try done.
      rewrite length_zip_with, !length_map. lia.
    + apply NoDup_cons. split; [|done]. intros Hin. apply (H2 a Hin), elem_of_union. left. by apply elem_of_singleton.
    + intros b [->|Hb]%elem_of_cons; [done|]. intros Hb'. apply (H2 b Hb), elem_of_union. by right.
Qed.

Lemma accepts_bad h p rest ids nodes :
  (forall a fs, isRecord h (p_node p) = Some (a, fs) -> a ∉ nodes ->
     (forall id, field "kind" fs = HString "leaf" -> field "id" fs = HString id -> id ∈ ids) /\
     (forall d xs, split_shape h fs = Some (d, xs) -> False)) ->
  ~ accepts h (p :: rest) ids nodes.
Proof.
  intros Hbad (nas & Hf & _ & H2 & _ & H4). apply Forall2_cons_inv_l in Hf as ([n addrs] & nas' & (Hd & _) & _ & ->).
  cbn [fst snd map concat] in *. pose proof Hd as Hd0. apply denotes_head in Hd0 as (a & fs & r & Hr & ->).
  destruct (Hbad a fs Hr (H2 a ltac:(by left))) as [Hleaf Hsplit]. destruct n as [id|d cs].
  - destruct Hd as (a' & fs' & Hr' & Hk & Hid & _). rewrite Hr in Hr'. injection Hr' as <- <-.
    apply (H4 id); [by left|]. by apply Hleaf.
  - apply denotes_Split in Hd as (a' & fs' & xs & parts & Hr' & Hs & _). rewrite Hr in Hr'. injection Hr' as <- <-. by eapply Hsplit.
Qed.

Lemma as_string_eq v s : bool_decide (as_string v = Some s) = true <-> v = HString s.
Proof. rewrite bool_decide_eq_true. destruct v; split; try done; [by intros [= ->]|by intros [= ->]]. Qed.

Lemma children_good h cs xs parts :
  Forall3 (child_denotes h) cs xs parts -> forallb (fun c => good_weight c.2) cs = true ->
  exists vws, mapM (good_child h) xs = Some vws /\ map snd vws = map snd cs.
Proof.
  induction 1 as [|c x part cs xs parts Hd Hr IH]; cbn [forallb]; [by exists []|].
  intros [Hw1 Hw2]%andb_prop. destruct (IH Hw2) as (vws & Hm & Hs).
  destruct (proj1 (good_child_denotes h c x part) (conj Hw1 Hd)) as (v & Hg & _).
  exists ((v, c.2) :: vws). cbn. rewrite Hg. cbn. rewrite Hm. cbn. by rewrite Hs.
Qed.

(** One visit: it reports nothing and what is left is accepted, exactly when the
    entries were. *)
Lemma visit_accepts h p rest ids nodes es pushes ids' nodes' :
  visit h p ids nodes = (es, pushes, ids', nodes') ->
  (es = [] /\ accepts h (reverse pushes ++ rest) ids' nodes') <-> accepts h (p :: rest) ids nodes.
Proof.
  intros Hv. rewrite accepts_reverse. revert Hv. unfold visit.
  destruct (isRecord h (p_node p)) as [[a fs]|] eqn:Hr.
  2:{ intros [= <- <- <- <-]. split; [by intros [? _]|]. intros Ha. exfalso. revert Ha. apply accepts_bad. congruence. }
  destruct p as [v path parent]. cbn [p_node p_path p_parentDir] in *.
  destruct (decide (a ∈ nodes)) as [Hin|Hna].
  { intros [= <- <- <- <-]. split; [by intros [? _]|]. intros Ha. exfalso. revert Ha. apply accepts_bad. cbn. congruence. }
  pose proof Hr as Hr0. apply isRecord_Some in Hr0 as [-> Ha].
  destruct (bool_decide (as_string (field "kind" fs) = Some "leaf")) eqn:Hk.
  - apply as_string_eq in Hk. assert (Hns : forall d xs, split_shape h fs = Some (d, xs) -> False).
    { intros d xs [Hk' _]%split_shape_Some. congruence. }
    destruct (field "id" fs) as [| | | |id|] eqn:Hid;
      try (intros [= <- <- <- <-]; split; [by intros [? _]|]; intros Hacc; exfalso; revert Hacc; apply accepts_bad; cbn [p_node];
           rewrite Hr; intros ? ? [= <- <-] _; split; [intros id' _ Hid'; congruence|exact Hns]).
    destruct (decide (id ∈ ids)) as [Hin|Hni]; intros [= <- <- <- <-].
    + split; [by intros [? _]|]. intros Hacc. exfalso. revert Hacc. apply accepts_bad. cbn [p_node]. rewrite Hr. intros ? ? [= <- <-] _.
      split; [|exact Hns]. intros id' _ Hid'. congruence.
    + rewrite (accepts_leaf h a fs id) by done. cbn [app]. tauto.
  - assert (Hnl : field "kind" fs <> HString "leaf") by (intros E; apply as_string_eq in E; congruence).
    destruct (split_shape h fs) as [[d xs]|] eqn:Hs.
    + destruct (visit_split h path parent d xs) as [es0 ps0] eqn:Hvs. intros [= <- <- <- <-].
      pose proof (visit_split_ok _ _ _ _ _ _ _ Hvs) as Hok. split.
      * intros [He Hacc]. apply Hok in He as (Hp & Hl & vws & Hm & Hsum & ->).
        by apply (accepts_split h a fs d xs vws).
      * intros Hacc. assert (He : es0 = []).
        { apply Hok. destruct Hacc as (nas & Hf & _). apply Forall2_cons_inv_l in Hf as ([n addrs] & nas' & (Hd & Hc & Hp) & _ & _).
          cbn [fst snd p_node p_parentDir] in *. destruct n as [id|d' cs].
          { destruct Hd as (a' & fs' & Hr' & Hk' & _). congruence. }
          apply denotes_Split in Hd as (a' & fs' & xs' & parts & Hr' & Hs' & _ & Hcs). rewrite Hr in Hr'. injection Hr' as <- <-.
          rewrite Hs in Hs'. injection Hs' as <- <-. apply node_check_Split in Hc as (Hl & Hsum & Hw & Hcc).
          pose proof (children_good h cs xs parts Hcs Hw) as (vws & Hm & Hsnd).
          split; [intros E; by apply (Hp d)|]. split; [by rewrite <- (Forall3_length_lm _ _ _ _ Hcs)|].
          exists vws. split; [done|]. rewrite Hsnd. split; [done|].
          unfold visit_split in Hvs. injection Hvs as _ <-. by apply (visit_children h path d xs id). }
        split; [done|]. apply Hok in He as (Hp & Hl & vws & Hm & Hsum & ->). by apply (accepts_split h a fs d xs vws) in Hacc.
    + intros [= <- <- <- <-]. split; [by intros [? _]|]. intros Hacc. exfalso. revert Hacc. apply accepts_bad. cbn [p_node].
      rewrite Hr. intros ? ? [= <- <-] _. split; [intros; congruence|intros; congruence].
Qed.

Lemma loop_accepts fuel h pending ids nodes es :
  validate_loop fuel h pending ids nodes = Some es -> es = [] <-> accepts h pending ids nodes.
Proof.
  revert pending ids nodes es. induction fuel as [|fuel IH]; intros [|p pending] ids nodes es; cbn [validate_loop]; try done.
  1,2: intros [= <-]; split; [intros _|done]; exists []; split_and!; try constructor; by intros ? ?%elem_of_nil.
  destruct (visit h p ids nodes) as [[[es0 pushes] ids'] nodes'] eqn:Hv.
  destruct (validate_loop fuel h (reverse pushes ++ pending) ids' nodes') as [es1|] eqn:Hl; [|done]. intros [= <-].
  apply IH in Hl. rewrite app_nil, Hl. by apply visit_accepts.
Qed.

(** The tree a value denotes. *)
Definition tree_denotes h v (t : LathTree W) (addrs : list nat) : Prop :=
  exists a fs, isRecord h v = Some (a, fs) /\ has_field "root" fs = true /\
  match root t with
  | None => field "root" fs = HNull /\ addrs = []
  | Some n => denotes h n (field "root" fs) addrs
  end.

(** [validate(tree) = []] of a typed tree, on any number type. *)
Definition tree_check (t : LathTree W) : Prop :=
  match root t with Some n => node_check n = true /\ NoDup (node_leaves n) | None => True end.

(** What [validate] accepts. *)
Lemma validate_spec h v :
  exists errors, validate h v = Some errors /\
    (errors = [] <-> exists t addrs, tree_denotes h v t addrs /\ NoDup addrs /\ tree_check t).
Proof.
  destruct (validate_total h v) as [es Hv]. exists es. split; [done|]. revert Hv. unfold validate, tree_denotes.
  destruct (isRecord h v) as [[a fs]|] eqn:Hr.
  2:{ intros [= <-]. split; [done|]. by intros (t & addrs & (a & fs & ? & _) & _). }
  destruct (has_field "root" fs) eqn:Hroot; cbn [negb].
  2:{ intros [= <-]. split; [done|]. intros (t & addrs & (a' & fs' & [= <- <-] & ? & _) & _). congruence. }
  intros Hl%loop_accepts. rewrite Hl. clear Hl. split.
  - intros (nas & Hf & H1 & _ & H3 & _). destruct (field "root" fs) eqn:Ef.
    2:{ apply Forall2_nil_inv_l in Hf as ->. exists (mkTree None), []. split; [|by split; [apply NoDup_nil_2|]]. by exists a, fs. }
    all: apply Forall2_cons_inv_l in Hf as ([n addrs] & ? & (Hd & Hc & _) & ->%Forall2_nil_inv_l & ->);
      cbn [map concat fst snd p_node] in *; rewrite app_nil_r in *; exists (mkTree (Some n)), addrs;
      (split; [exists a, fs; by rewrite Ef|by split]).
  - intros (t & addrs & (a' & fs' & [= <- <-] & _ & Ht) & Hnd & Hc). unfold tree_check in Hc. destruct (root t) as [n|].
    + destruct Hc as [Hc Hnl]. exists [(n, addrs)]. cbn [map concat fst snd]. rewrite !app_nil_r.
      assert (He : forall w, field "root" fs = w -> w <> HNull -> Forall2 (entry_ok h) [mkPending w [] None] [(n, addrs)]).
      { intros w <- _. constructor; [|constructor]. split; [done|]. by split. }
      split_and!; try done; try (by intros ? _ ?%not_elem_of_empty).
      pose proof Ht as Ht0. apply denotes_head in Ht0 as (b & gs & r & Hb & _).
      destruct (field "root" fs) eqn:Ef; try (by apply He). done.
    + destruct Ht as [-> _]. exists []. split_and!; try constructor; by intros ? ?%elem_of_nil.
Qed.

(** C12. [validate] always ends, and accepts an untrusted value exactly when it is
    a tree: when it denotes a typed tree none of whose nodes is shared or part of
    a cycle, and that tree is valid (canonical, with distinct leaf ids, and
    finite positive weights that sum to 1 within the tolerance in each split). *)
Theorem validate_decides h v :
  exists errors, validate h v = Some errors /\
    (errors = [] <-> exists t addrs, tree_denotes h v t addrs /\ NoDup addrs /\ tree_check t).
Proof. apply validate_spec. Qed.

End validate.
