(* ===== verification/LathStructure.v ===== *)
(** * Structure of Lath trees

    Facts about the traversals and constructors of [LathModel] that hold for
    every number type: paths and leaves, the effect of a replacement on the
    leaf sequence, and that [normalize] produces the canonical form with the
    same leaves in the same order. *)
From Stdlib Require Import ZArith List Permutation.
From S2P Require Import Prelude JsNum LathModel.

Section Structure.
  Context {W : Type} `{N : JSNum W}.
  Implicit Types (n m r : LathNode W) (t : LathTree W) (cs : list (LathChild W)) (p q : list nat).

(** ** Children lists *)

(** The leaf sequence of a children list. *)
Definition children_leaves cs : list LeafId := concat (map (fun c => node_leaves c.1) cs).

Lemma children_leaves_app cs1 cs2 :
  children_leaves (cs1 ++ cs2) = children_leaves cs1 ++ children_leaves cs2.
Proof. unfold children_leaves. by rewrite map_app, concat_app. Qed.

Lemma children_leaves_fst cs1 cs2 :
  map fst cs1 = map fst cs2 -> children_leaves cs1 = children_leaves cs2.
Proof.
  intros H. unfold children_leaves.
  rewrite <- !(map_map fst node_leaves). by rewrite H.
Qed.

Lemma normalizeWeights_fst cs : map fst (normalizeWeights cs) = map fst cs.
Proof. unfold normalizeWeights. case_goal; rewrite map_map; by apply map_ext. Qed.

Lemma normalizeWeights_length cs : length (normalizeWeights cs) = length cs.
Proof. by rewrite <- (length_map fst), normalizeWeights_fst, length_map. Qed.

Lemma children_leaves_normalizeWeights cs :
  children_leaves (normalizeWeights cs) = children_leaves cs.
Proof. apply children_leaves_fst, normalizeWeights_fst. Qed.

(** The condition [canonical] puts on a child of a [d] split. *)
Definition child_ok (d : Dir) n : Prop := canonical n = true /\ split_dir n <> Some d.

Lemma canonical_Split d cs :
  canonical (Split d cs) = true <->
  (2 <= length cs)%nat /\ Forall (child_ok d) (map fst cs).
Proof.
  cbn [canonical]. rewrite andb_true_iff, Nat.leb_le, forallb_forall, Forall_map, Forall_forall.
  split; intros [? H]; (split; [done|]); intros c Hc.
  - apply list_elem_of_In in Hc. specialize (H c Hc).
    apply andb_true_iff in H as [? H]. by apply bool_decide_eq_true in H.
  - apply list_elem_of_In in Hc. destruct (H c Hc) as [? Hd]. cbn in Hd.
    apply andb_true_iff. split; [done|]. by apply bool_decide_eq_true.
Qed.

(** ** normalize *)

Lemma children_leaves_collect d om w :
  children_leaves (collect d om w) =
  match om with Some m => node_leaves m | None => [] end.
Proof.
  destruct om as [[id|d' gcs]|]; simpl; [done| |done].
  unfold children_leaves. case_decide; simpl; [|by rewrite app_nil_r].
  by rewrite map_map.
Qed.

Lemma children_leaves_concat (css : list (list (LathChild W))) :
  children_leaves (concat css) = concat (map children_leaves css).
Proof.
  induction css as [|cs css IH]; simpl; [done|]. by rewrite children_leaves_app, IH.
Qed.

(** Normalizing keeps the leaves and their order. *)
Lemma normalize_leaves n :
  match normalize n with Some m => node_leaves m | None => [] end = node_leaves n.
Proof.
  induction n as [id|d cs IH] using LathNode_ind'; [done|].
  cbn [normalize node_leaves].
  set (collected := concat _).
  assert (Hc : children_leaves collected = concat (map (fun c => node_leaves c.1) cs)).
  { unfold collected. rewrite children_leaves_concat, map_map. f_equal.
    apply map_ext_Forall. eapply Forall_impl; [exact IH|]. intros c Hc. simpl.
    by rewrite children_leaves_collect. }
  rewrite <- Hc. clearbody collected. destruct collected as [|c [|c' cs']].
  - done.
  - unfold children_leaves. simpl. by rewrite app_nil_r.
  - apply (children_leaves_normalizeWeights (c :: c' :: cs')).
Qed.

Lemma normalize_Some_leaves n m : normalize n = Some m -> node_leaves m = node_leaves n.
Proof. intros H. rewrite <- (normalize_leaves n). by rewrite H. Qed.

Lemma normalize_total n : node_leaves n <> [] -> is_Some (normalize n).
Proof.
  intros H. rewrite <- normalize_leaves in H. by destruct (normalize n).
Qed.

Lemma collect_child_ok d om w :
  (forall m, om = Some m -> canonical m = true) ->
  Forall (child_ok d) (map fst (collect d om w)).
Proof.
  intros H. destruct om as [[id|d' gcs]|]; simpl; [by repeat constructor| |constructor].
  specialize (H _ eq_refl). case_decide as Hd.
  - subst. apply canonical_Split in H as [_ H]. by rewrite map_map.
  - repeat constructor; [done|]. simpl. congruence.
Qed.

(** Normalizing yields the canonical form. *)
Lemma normalize_canonical n m : normalize n = Some m -> canonical m = true.
Proof.
  revert m. induction n as [id|d cs IH] using LathNode_ind'; intros m H.
  { by simplify_eq/=. }
  cbn [normalize] in H.
  set (collected := concat _) in H.
  assert (Hc : Forall (child_ok d) (map fst collected)).
  { unfold collected. clear H collected. induction IH as [|c cs Hc _ IHcs]; simpl; [done|].
    rewrite map_app, Forall_app. split; [|done]. by apply collect_child_ok. }
  clearbody collected. destruct collected as [|c [|c' cs']]; simplify_eq.
  - by apply Forall_cons in Hc as [[? _] _].
  - apply canonical_Split. rewrite normalizeWeights_length, normalizeWeights_fst.
    split; [simpl; lia|done].
Qed.

Lemma canonical_leaves_pos n : canonical n = true -> (1 <= length (node_leaves n))%nat.
Proof.
  induction n as [id|d cs IH] using LathNode_ind'; intros H; [done|].
  apply canonical_Split in H as [Hlen Hall].
  destruct cs as [|c cs]; [simpl in Hlen; lia|].
  apply Forall_cons in IH as [IHc _]. simpl in Hall. apply Forall_cons in Hall as [[Hc _] _].
  simpl. rewrite length_app. specialize (IHc Hc). lia.
Qed.

Lemma normalize_None_iff n : normalize n = None <-> node_leaves n = [].
Proof.
  split; intros H.
  - rewrite <- normalize_leaves. by rewrite H.
  - destruct (normalize n) as [m|] eqn:E; [|done].
    pose proof (canonical_leaves_pos m (normalize_canonical _ _ E)) as Hp.
    rewrite (normalize_Some_leaves _ _ E), H in Hp. simpl in Hp. lia.
Qed.

Lemma children_leaves_length cs :
  Forall (fun n => canonical n = true) (map fst cs) ->
  (length cs <= length (children_leaves cs))%nat.
Proof.
  induction cs as [|c cs IH]; simpl; [lia|]. rewrite Forall_cons. intros [Hc Hcs].
  unfold children_leaves in *. simpl. rewrite length_app.
  pose proof (canonical_leaves_pos _ Hc). specialize (IH Hcs). lia.
Qed.

(** A canonical split has at least two leaves. *)
Lemma canonical_split_leaves d cs :
  canonical (Split d cs) = true -> (2 <= length (node_leaves (Split d cs)))%nat.
Proof.
  intros H. apply canonical_Split in H as [Hlen Hall].
  transitivity (length cs); [done|]. apply (children_leaves_length cs).
  eapply Forall_impl; [exact Hall|]. by intros n [? _].
Qed.

(** ** Paths *)

Lemma node_at_app n p q :
  node_at n (p ++ q) = match node_at n p with Some m => node_at m q | None => None end.
Proof.
  revert n. induction p as [|i p IH]; intros n; simpl; [done|].
  destruct n as [|d cs]; [done|]. by destruct (cs !! i).
Qed.

Lemma find_leaf_sound id n p : find_leaf id n = Some p -> node_at n p = Some (Leaf id).
Proof.
  revert p. induction n as [i|d cs IH] using LathNode_ind'; intros p H; simpl in H.
  - case_bool_decide; by simplify_eq/=.
  - destruct (first_at _ 0 cs) as [[k q]|] eqn:E; simplify_eq.
    apply first_at_Some in E as (j & c & -> & Hj & Hc & _). simpl.
    rewrite Hj. rewrite Forall_lookup in IH. by apply (IH j c).
Qed.

Lemma find_leaf_None id n : find_leaf id n = None <-> id ∉ node_leaves n.
Proof.
  induction n as [i|d cs IH] using LathNode_ind'; simpl.
  - rewrite list_elem_of_singleton. case_bool_decide; split; congruence.
  - destruct (first_at _ 0 cs) as [[k q]|] eqn:E.
    + split; [done|]. intros H. exfalso. apply H.
      apply first_at_Some in E as (j & c & -> & Hj & Hc & _).
      rewrite Forall_lookup in IH. specialize (IH _ _ Hj).
      destruct (decide (id ∈ node_leaves c.1)) as [Hin|Hn];
        [|apply IH in Hn; congruence].
      apply list_elem_of_In, in_concat. exists (node_leaves c.1).
      split; [|by apply list_elem_of_In].
      apply in_map_iff. exists c. split; [done|].
      by apply list_elem_of_In, (list_elem_of_lookup_2 _ _ _ Hj).
    + split; [|done]. intros _ Hin. apply first_at_None in E.
      apply list_elem_of_In, in_concat in Hin as (l & Hl & Hin).
      apply in_map_iff in Hl as (c & <- & Hc). apply list_elem_of_In in Hc, Hin.
      rewrite Forall_forall in E, IH. apply (IH c Hc) in Hin; [done|]. by apply E.
Qed.

Lemma find_leaf_is_Some id n : is_Some (find_leaf id n) <-> id ∈ node_leaves n.
Proof.
  rewrite <- not_eq_None_Some, find_leaf_None.
  destruct (decide (id ∈ node_leaves n)); tauto.
Qed.

Lemma children_leaves_middle cs i c :
  cs !! i = Some c ->
  children_leaves cs =
    children_leaves (take i cs) ++ node_leaves c.1 ++ children_leaves (drop (S i) cs).
Proof.
  intros Hi. rewrite <- (take_drop_middle _ _ _ Hi) at 1. by rewrite children_leaves_app.
Qed.

Lemma children_leaves_insert cs i c c' :
  cs !! i = Some c ->
  children_leaves (<[i := c']> cs) =
    children_leaves (take i cs) ++ node_leaves c'.1 ++ children_leaves (drop (S i) cs).
Proof.
  intros Hi. rewrite insert_take_drop by by eapply lookup_lt_Some.
  by rewrite children_leaves_app.
Qed.

(** Replacing a subtree replaces exactly its segment of the leaf sequence. *)
Lemma replaceAtPath_leaves n p m :
  node_at n p = Some m ->
  exists l1 l2, node_leaves n = l1 ++ node_leaves m ++ l2 /\
    forall r, node_leaves (replaceAtPath n p r) = l1 ++ node_leaves r ++ l2.
Proof.
  revert n. induction p as [|i p IH]; intros n H; simpl in H.
  - simplify_eq. exists [], []. rewrite app_nil_r. split; [done|].
    intros r. simpl. by rewrite app_nil_r.
  - destruct n as [|d cs]; [done|]. destruct (cs !! i) as [c|] eqn:Hi; [|done].
    apply IH in H as (l1 & l2 & Hm & Hr).
    exists (children_leaves (take i cs) ++ l1), (l2 ++ children_leaves (drop (S i) cs)).
    split.
    + change (children_leaves cs = (children_leaves (take i cs) ++ l1) ++ node_leaves m ++
        l2 ++ children_leaves (drop (S i) cs)).
      rewrite (children_leaves_middle _ _ _ Hi), Hm. by rewrite <- !(assoc_L (++)).
    + intros r. cbn [replaceAtPath]. rewrite Hi.
      change (children_leaves (<[i:=(replaceAtPath c.1 p r, c.2)]> cs)
        = (children_leaves (take i cs) ++ l1) ++ node_leaves r ++
          l2 ++ children_leaves (drop (S i) cs)).
      rewrite (children_leaves_insert _ _ _ _ Hi). simpl. rewrite Hr.
      by rewrite <- !(assoc_L (++)).
Qed.

Lemma node_at_replaceAtPath n p m r :
  node_at n p = Some m -> node_at (replaceAtPath n p r) p = Some r.
Proof.
  revert n. induction p as [|i p IH]; intros n H; simpl in *; [done|].
  destruct n as [|d cs]; [done|]. destruct (cs !! i) as [c|] eqn:Hi; [|done].
  simpl. rewrite list_lookup_insert_eq by by eapply lookup_lt_Some. by apply IH.
Qed.

Lemma replaceAtPath_same n p m : node_at n p = Some m -> replaceAtPath n p m = n.
Proof.
  revert n. induction p as [|i p IH]; intros n H; simpl in *; [congruence|].
  destruct n as [|d cs]; [done|]. destruct (cs !! i) as [c|] eqn:Hi; [|done].
  rewrite (IH _ H). f_equal. destruct c. by apply list_insert_id.
Qed.

Lemma replaceAtPath_twice n p m r r' :
  node_at n p = Some m -> replaceAtPath (replaceAtPath n p r) p r' = replaceAtPath n p r'.
Proof.
  revert n. induction p as [|i p IH]; intros n H; simpl in *; [done|].
  destruct n as [|d cs]; [done|]. destruct (cs !! i) as [c|] eqn:Hi; [|done].
  simpl. rewrite list_lookup_insert_eq by by eapply lookup_lt_Some. simpl.
  rewrite (IH _ H). by rewrite list_insert_insert_eq.
Qed.

Lemma replaceAtPath_app n p q m r :
  node_at n p = Some m -> replaceAtPath n (p ++ q) r = replaceAtPath n p (replaceAtPath m q r).
Proof.
  revert n. induction p as [|i p IH]; intros n H; simpl in *; [congruence|].
  destruct n as [|d cs]; [done|]. destruct (cs !! i) as [c|] eqn:Hi; [|done].
  by rewrite (IH _ H).
Qed.

(** The node at a path contributes a segment of the leaves. *)
Lemma node_at_leaves n p m :
  node_at n p = Some m -> exists l1 l2, node_leaves n = l1 ++ node_leaves m ++ l2.
Proof. intros H. destruct (replaceAtPath_leaves _ _ _ H) as (l1 & l2 & ? & _). eauto. Qed.

Lemma node_at_leaves_subseteq n p m : node_at n p = Some m -> node_leaves m ⊆ node_leaves n.
Proof. intros H. apply node_at_leaves in H as (l1 & l2 & ->). set_solver. Qed.

Lemma node_at_NoDup n p m :
  node_at n p = Some m -> NoDup (node_leaves n) -> NoDup (node_leaves m).
Proof.
  intros H Hn. apply node_at_leaves in H as (l1 & l2 & E). rewrite E in Hn.
  apply NoDup_app in Hn as (_ & _ & Hn). by apply NoDup_app in Hn as (? & _ & _).
Qed.

Lemma node_at_canonical n p m :
  node_at n p = Some m -> canonical n = true -> canonical m = true.
Proof.
  revert n. induction p as [|i p IH]; intros n H Hc; simpl in *; [congruence|].
  destruct n as [|d cs]; [done|]. destruct (cs !! i) as [c|] eqn:Hi; [|done].
  apply (IH _ H). apply canonical_Split in Hc as [_ Hc].
  rewrite Forall_map, Forall_lookup in Hc. apply (Hc _ _ Hi).
Qed.

(** ** Unique leaves *)

Lemma children_NoDup_lt cs i j c1 c2 id :
  NoDup (children_leaves cs) -> (i < j)%nat -> cs !! i = Some c1 -> cs !! j = Some c2 ->
  id ∈ node_leaves c1.1 -> id ∈ node_leaves c2.1 -> False.
Proof.
  intros Hnd Hlt Ei Ej H1 H2. rewrite (children_leaves_middle _ _ _ Ei) in Hnd.
  apply NoDup_app in Hnd as (_ & _ & Hnd). apply NoDup_app in Hnd as (_ & Hnd & _).
  apply (Hnd id H1).
  assert (Ej' : drop (S i) cs !! (j - S i)%nat = Some c2)
    by (rewrite lookup_drop; by replace (S i + (j - S i))%nat with j by lia).
  rewrite (children_leaves_middle _ _ _ Ej'). set_solver.
Qed.

(** With unique leaves, two paths to nodes sharing a leaf are comparable. *)
Lemma node_at_comparable n p q m1 m2 id :
  NoDup (node_leaves n) -> node_at n p = Some m1 -> node_at n q = Some m2 ->
  id ∈ node_leaves m1 -> id ∈ node_leaves m2 ->
  (exists s, q = p ++ s) \/ (exists s, p = q ++ s).
Proof.
  revert n q. induction p as [|i p IH]; intros n q Hnd Hp Hq Hi1 Hi2; [left; by exists q|].
  destruct q as [|j q]; [right; by exists (i :: p)|].
  simpl in Hp, Hq. destruct n as [|d cs]; [done|].
  destruct (cs !! i) as [c1|] eqn:Ei; [|done]. destruct (cs !! j) as [c2|] eqn:Ej; [|done].
  assert (H1 : id ∈ node_leaves c1.1) by by eapply node_at_leaves_subseteq.
  assert (H2 : id ∈ node_leaves c2.1) by by eapply node_at_leaves_subseteq.
  destruct (decide (i = j)) as [->|Hij].
  - assert (c1 = c2) as -> by congruence. assert (Hnd' : NoDup (node_leaves c2.1))
      by (eapply (node_at_NoDup (Split d cs) [j]); [simpl; by rewrite Ej|done]).
    destruct (IH _ _ Hnd' Hp Hq Hi1 Hi2) as [[s ->]|[s ->]]; [left|right]; by exists s.
  - exfalso. change (NoDup (children_leaves cs)) in Hnd.
    destruct (decide (i < j)%nat).
    + by apply (children_NoDup_lt cs i j c1 c2 id).
    + apply (children_NoDup_lt cs j i c2 c1 id); auto with lia.
Qed.

(** On distinct leaves the path found is the leaf's only path. *)
Lemma find_leaf_finds n p id :
  NoDup (node_leaves n) -> node_at n p = Some (Leaf id) -> find_leaf id n = Some p.
Proof.
  intros Hnd Hp. destruct (find_leaf id n) as [q|] eqn:E.
  - apply find_leaf_sound in E.
    destruct (node_at_comparable n p q _ _ id Hnd Hp E) as [[s ->]|[s ->]]; [by left..| |].
    + rewrite node_at_app, Hp in E. destruct s; [by rewrite app_nil_r|done].
    + rewrite node_at_app, E in Hp. destruct s; [by rewrite app_nil_r|done].
  - apply find_leaf_None in E. exfalso. apply E.
    apply (node_at_leaves_subseteq _ _ _ Hp). by left.
Qed.

(** ** Structure without weights *)

(** Two nodes of the same structure: kinds, directions and leaf ids agree. *)
Definition same_shape n m : Prop := strip n = strip m.

#[export] Instance same_shape_equivalence : Equivalence same_shape.
Proof. unfold same_shape. split; repeat intro; congruence. Qed.

(** The structure of a children list. *)
Definition strips cs : list Shape := map (fun c => strip c.1) cs.

Lemma strips_fst cs1 cs2 : map fst cs1 = map fst cs2 -> strips cs1 = strips cs2.
Proof. intros H. unfold strips. rewrite <- !(map_map fst strip). by rewrite H. Qed.

Lemma strips_app cs1 cs2 : strips (cs1 ++ cs2) = strips cs1 ++ strips cs2.
Proof. apply map_app. Qed.

Lemma strips_normalizeWeights cs : strips (normalizeWeights cs) = strips cs.
Proof. apply strips_fst, normalizeWeights_fst. Qed.

Lemma strips_length cs1 cs2 : strips cs1 = strips cs2 -> length cs1 = length cs2.
Proof. intros H. apply (f_equal length) in H. unfold strips in H. by rewrite !length_map in H. Qed.

Lemma strips_lookup cs1 cs2 i c1 :
  strips cs1 = strips cs2 -> cs1 !! i = Some c1 ->
  exists c2, cs2 !! i = Some c2 /\ same_shape c1.1 c2.1.
Proof.
  unfold strips. intros H Hi. apply (f_equal (.!! i)) in H.
  rewrite !list_lookup_fmap, Hi in H. destruct (cs2 !! i) as [c2|]; simplify_eq/=.
  by exists c2.
Qed.

Lemma strips_insert cs i c : strips (<[i := c]> cs) = <[i := strip c.1]> (strips cs).
Proof. apply (list_fmap_insert (fun c => strip c.1)). Qed.

(** [strips] determines everything structural about a children list. *)
Lemma strips_Forall2 cs1 cs2 :
  strips cs1 = strips cs2 <-> Forall2 (fun c1 c2 => same_shape c1.1 c2.1) cs1 cs2.
Proof.
  split.
  - revert cs2. induction cs1 as [|c1 cs1 IH]; intros [|c2 cs2] H; simplify_eq/=; auto.
  - induction 1 as [|c1 c2 cs1 cs2 Hc _ IH]; simpl; [done|]. by rewrite Hc, IH.
Qed.

Lemma same_shape_Leaf id m : same_shape (Leaf id) m -> m = Leaf id.
Proof. destruct m; intros H; unfold same_shape in H; simpl in H; congruence. Qed.

Lemma same_shape_Split d cs m :
  same_shape (Split d cs) m -> exists cs', m = Split d cs' /\ strips cs = strips cs'.
Proof.
  destruct m as [|d' cs']; intros H; unfold same_shape in H; simpl in H; [congruence|].
  injection H as -> H. by exists cs'.
Qed.

Lemma strips_cons_l c cs cs' :
  strips (c :: cs) = strips cs' ->
  exists c' cs'', cs' = c' :: cs'' /\ same_shape c.1 c'.1 /\ strips cs = strips cs''.
Proof. destruct cs' as [|c' cs'']; intros H; [done|]. injection H as ? ?. by exists c', cs''. Qed.

Lemma strips_nil_l cs' : strips [] = strips cs' -> cs' = [].
Proof. by destruct cs'. Qed.

Lemma same_shape_leaves n m : same_shape n m -> node_leaves n = node_leaves m.
Proof.
  revert m. induction n as [id|d cs IH] using LathNode_ind'; intros m H.
  { by apply same_shape_Leaf in H as ->. }
  apply same_shape_Split in H as (cs' & -> & H). simpl. f_equal.
  revert cs' H. induction IH as [|c cs Hc _ IHcs]; intros cs' H.
  - by apply strips_nil_l in H as ->.
  - apply strips_cons_l in H as (c' & cs'' & -> & Hcc & H). simpl. f_equal; auto.
Qed.

Lemma same_shape_split_dir n m : same_shape n m -> split_dir n = split_dir m.
Proof. destruct n, m; intros H; unfold same_shape in H; simpl in *; congruence. Qed.

Lemma same_shape_canonical n m : same_shape n m -> canonical n = canonical m.
Proof.
  revert m. induction n as [id|d cs IH] using LathNode_ind'; intros m H.
  { by apply same_shape_Leaf in H as ->. }
  apply same_shape_Split in H as (cs' & -> & H). cbn [canonical].
  rewrite (strips_length cs cs') by done. f_equal.
  revert cs' H. induction IH as [|c cs Hc _ IHcs]; intros cs' H.
  - by apply strips_nil_l in H as ->.
  - apply strips_cons_l in H as (c' & cs'' & -> & Hcc & H). simpl.
    rewrite (Hc _ Hcc), (IHcs _ H), (same_shape_split_dir _ _ Hcc). done.
Qed.

Lemma same_shape_node_at n1 n2 p m1 :
  same_shape n1 n2 -> node_at n1 p = Some m1 ->
  exists m2, node_at n2 p = Some m2 /\ same_shape m1 m2.
Proof.
  revert n1 n2. induction p as [|i p IH]; intros n1 n2 Hs H; simpl in H.
  { simplify_eq. by exists n2. }
  destruct n1 as [|d1 cs1]; [done|]. destruct (cs1 !! i) as [c1|] eqn:Hi; [|done].
  apply same_shape_Split in Hs as (cs2 & -> & Hs). simpl.
  destruct (strips_lookup cs1 cs2 i c1) as (c2 & -> & Hc); [done..|]. by apply (IH c1.1).
Qed.

Lemma same_shape_find_leaf id n m : same_shape n m -> find_leaf id n = find_leaf id m.
Proof.
  revert m. induction n as [id1|d cs IH] using LathNode_ind'; intros m H.
  { by apply same_shape_Leaf in H as ->. }
  apply same_shape_Split in H as (cs' & -> & H). simpl.
  assert (first_at (fun c => find_leaf id c.1) 0 cs = first_at (fun c => find_leaf id c.1) 0 cs') as ->;
    [|done].
  generalize 0%nat. revert cs' H. induction IH as [|c cs Hc _ IHcs]; intros cs' H k.
  - by apply strips_nil_l in H as ->.
  - apply strips_cons_l in H as (c' & cs'' & -> & Hcc & H). simpl.
    rewrite (Hc c'.1) by done. case_match; [done|]. by apply IHcs.
Qed.

Lemma same_shape_replaceAtPath n1 n2 p r1 r2 :
  same_shape n1 n2 -> same_shape r1 r2 ->
  same_shape (replaceAtPath n1 p r1) (replaceAtPath n2 p r2).
Proof.
  intros Hn Hr. revert n1 n2 Hn. induction p as [|i p IH]; intros n1 n2 Hs; simpl; [done|].
  destruct n1 as [|d1 cs1].
  { by apply same_shape_Leaf in Hs as ->. }
  pose proof Hs as Hs'. apply same_shape_Split in Hs as (cs2 & -> & Hs).
  destruct (cs1 !! i) as [c1|] eqn:Hi.
  - destruct (strips_lookup cs1 cs2 i c1) as (c2 & -> & Hc); [done..|].
    unfold same_shape. cbn [strip]. f_equal.
    change (strips (<[i:=(replaceAtPath c1.1 p r1, c1.2)]> cs1) =
      strips (<[i:=(replaceAtPath c2.1 p r2, c2.2)]> cs2)).
    rewrite !strips_insert. cbn [fst]. f_equal; [|done]. by apply IH.
  - destruct (cs2 !! i) as [c2|] eqn:Hi2; [|done].
    destruct (strips_lookup cs2 cs1 i c2) as (c1 & ? & _); congruence.
Qed.

Lemma strips_collect d om1 om2 w1 w2 :
  strip <$> om1 = strip <$> om2 -> strips (collect d om1 w1) = strips (collect d om2 w2).
Proof.
  destruct om1 as [m1|], om2 as [m2|]; intros H; [|done..]. injection H as H.
  destruct m1 as [id|d1 cs1].
  { by apply same_shape_Leaf in H as ->. }
  apply same_shape_Split in H as (cs2 & -> & H). simpl.
  case_decide; [|by unfold strips; simpl; f_equal; f_equal].
  etrans; [|symmetry; etrans]; [apply strips_fst; by rewrite map_map| |symmetry; exact H].
  apply strips_fst. by rewrite map_map.
Qed.

Lemma strips_concat (css : list (list (LathChild W))) :
  strips (concat css) = concat (map strips css).
Proof. induction css as [|cs css IH]; simpl; [done|]. by rewrite strips_app, IH. Qed.

(** [normalize] computes the structure of its result from structure alone. *)
Lemma same_shape_normalize n1 n2 :
  same_shape n1 n2 -> strip <$> normalize n1 = strip <$> normalize n2.
Proof.
  revert n2. induction n1 as [id|d cs IH] using LathNode_ind'; intros n2 H.
  { by apply same_shape_Leaf in H as ->. }
  apply same_shape_Split in H as (cs' & -> & H). cbn [normalize].
  set (k1 := concat _). set (k2 := concat _).
  assert (Hk : strips k1 = strips k2).
  { unfold k1, k2. rewrite !strips_concat, !map_map. f_equal. clear k1 k2.
    revert cs' H. induction IH as [|c cs Hc _ IHcs]; intros cs' H.
    - by apply strips_nil_l in H as ->.
    - apply strips_cons_l in H as (c' & cs'' & -> & Hcc & H). simpl.
      f_equal; [|by apply IHcs]. by apply strips_collect, Hc. }
  clearbody k1 k2. destruct k1 as [|c1 k1].
  { by apply strips_nil_l in Hk as ->. }
  apply strips_cons_l in Hk as (c2 & k2' & -> & Hc & Hk). destruct k1 as [|c1' k1].
  { apply strips_nil_l in Hk as ->. simpl. by f_equal. }
  apply strips_cons_l in Hk as (c2' & k2'' & -> & Hc' & Hk). cbn [fmap option_fmap option_map strip].
  do 2 f_equal. change (strips (normalizeWeights (c1 :: c1' :: k1)) =
    strips (normalizeWeights (c2 :: c2' :: k2''))).
  rewrite !strips_normalizeWeights. unfold strips in *. simpl. by rewrite Hc, Hc', Hk.
Qed.

Lemma collect_canonical d m w :
  child_ok d m -> collect d (Some m) w = [(m, w)].
Proof. intros [_ H]. destruct m as [|d' cs]; [done|]. simpl in *. case_decide; [congruence|done]. Qed.

(** On a canonical node [normalize] keeps the structure. *)
Lemma normalize_canonical_shape n :
  canonical n = true -> exists m, normalize n = Some m /\ same_shape m n.
Proof.
  induction n as [id|d cs IH] using LathNode_ind'; intros H; [by exists (Leaf id)|].
  apply canonical_Split in H as [Hlen Hall]. cbn [normalize].
  set (k := concat _).
  assert (Hk : strips k = strips cs).
  { unfold k. clear k Hlen. induction IH as [|c cs Hc _ IHcs]; [done|].
    simpl in Hall. apply Forall_cons in Hall as [Hok Hall]. cbn [map concat].
    destruct (Hc (proj1 Hok)) as (m & -> & Hm).
    rewrite strips_app, IHcs by done. rewrite collect_canonical; [simpl; congruence|].
    split; [by rewrite (same_shape_canonical _ _ Hm); apply Hok|].
    rewrite (same_shape_split_dir _ _ Hm). apply Hok. }
  clearbody k. pose proof (strips_length _ _ Hk) as Hl.
  destruct k as [|c1 [|c1' k]]; [simpl in Hl; lia..|].
  eexists. split; [done|]. unfold same_shape. simpl. f_equal.
  change (strips (normalizeWeights (c1 :: c1' :: k)) = strips cs).
  by rewrite strips_normalizeWeights.
Qed.

(** ** Renaming leaves *)

(** The node with every leaf id [x] renamed to [f x]. *)
Fixpoint rename (f : LeafId -> LeafId) n : LathNode W :=
  match n with
  | Leaf id => Leaf (f id)
  | Split d cs => Split d (map (fun c => (rename f c.1, c.2)) cs)
  end.

Lemma rename_leaves f n : node_leaves (rename f n) = map f (node_leaves n).
Proof.
  induction n as [id|d cs IH] using LathNode_ind'; simpl; [done|].
  rewrite concat_map, !map_map. f_equal. apply map_ext_Forall. apply IH.
Qed.

Lemma rename_ext f g n : (forall x, x ∈ node_leaves n -> f x = g x) -> rename f n = rename g n.
Proof.
  induction n as [id|d cs IH] using LathNode_ind'; simpl; intros H.
  { rewrite H; [done|]. by left. }
  f_equal. apply map_ext_elem. intros c Hc. rewrite Forall_forall in IH. f_equal.
  apply (IH c Hc). intros x Hx. apply H. apply list_elem_of_In, in_concat.
  exists (node_leaves c.1). split; [|by apply list_elem_of_In].
  apply in_map_iff. exists c. split; [done|]. by apply list_elem_of_In.
Qed.

Lemma rename_id n : rename id n = n.
Proof.
  induction n as [i|d cs IH] using LathNode_ind'; simpl; [done|]. f_equal.
  etrans; [|apply map_id]. apply map_ext_elem. intros [m w] Hc. rewrite Forall_forall in IH.
  specialize (IH _ Hc). simpl in *. by rewrite IH.
Qed.

Lemma rename_rename f g n : rename f (rename g n) = rename (fun x => f (g x)) n.
Proof.
  induction n as [i|d cs IH] using LathNode_ind'; simpl; [done|]. f_equal.
  rewrite map_map. apply map_ext_elem. intros [m w] Hc. rewrite Forall_forall in IH.
  specialize (IH _ Hc). simpl in *. by rewrite IH.
Qed.

Lemma rename_split_dir f n : split_dir (rename f n) = split_dir n.
Proof. by destruct n. Qed.

Lemma rename_canonical f n : canonical (rename f n) = canonical n.
Proof.
  induction n as [id|d cs IH] using LathNode_ind'; [done|]. cbn [rename canonical].
  rewrite length_map. f_equal. induction IH as [|c cs Hc _ IHcs]; [done|]. simpl.
  by rewrite Hc, rename_split_dir, IHcs.
Qed.

Lemma rename_notin f n : (forall x, x ∈ node_leaves n -> f x = x) -> rename f n = n.
Proof. intros H. rewrite (rename_ext f id) by done. apply rename_id. Qed.

(** A child's leaves are its parent's. *)
Lemma child_leaves_subseteq d cs i c :
  cs !! i = Some c -> node_leaves c.1 ⊆ node_leaves (Split d cs).
Proof. intros Hi. apply (node_at_leaves_subseteq (Split d cs) [i]). simpl. by rewrite Hi. Qed.

Lemma child_NoDup d cs i c :
  cs !! i = Some c -> NoDup (node_leaves (Split d cs)) -> NoDup (node_leaves c.1).
Proof. intros Hi. apply (node_at_NoDup (Split d cs) [i]). simpl. by rewrite Hi. Qed.

(** Children lists after renaming: only those holding a changed leaf change. *)
Lemma rename_children_insert f cs i c :
  cs !! i = Some c ->
  (forall j c', cs !! j = Some c' -> j <> i -> forall x, x ∈ node_leaves c'.1 -> f x = x) ->
  map (fun c => (rename f c.1, c.2)) cs = <[i := (rename f c.1, c.2)]> cs.
Proof.
  intros Hi H. apply list_eq. intros j. rewrite (list_lookup_fmap _ cs).
  destruct (decide (j = i)) as [->|Hne].
  - rewrite Hi, list_lookup_insert_eq by (by eapply lookup_lt_Some). done.
  - rewrite list_lookup_insert_ne by done. destruct (cs !! j) as [[m w]|] eqn:Hj; [|done].
    simpl. rewrite rename_notin; [done|]. intros x Hx. by apply (H j (m, w)).
Qed.

(** Replacing the leaf [a] renames it. *)
Lemma replace_leaf_rename f n p a :
  NoDup (node_leaves n) -> node_at n p = Some (Leaf a) ->
  (forall x, x ∈ node_leaves n -> x <> a -> f x = x) ->
  replaceAtPath n p (Leaf (f a)) = rename f n.
Proof.
  revert n. induction p as [|i p IH]; intros n Hnd H Hf; simpl in H.
  { simplify_eq. done. }
  destruct n as [|d cs]; [done|]. destruct (cs !! i) as [c|] eqn:Hi; [|done].
  cbn [replaceAtPath rename]. rewrite Hi. f_equal.
  rewrite (rename_children_insert f cs i c Hi).
  - f_equal. f_equal. apply IH; [by eapply child_NoDup|done|]. intros x Hx.
    apply Hf. by eapply child_leaves_subseteq.
  - intros j c' Hj Hne x Hx. apply Hf; [by eapply child_leaves_subseteq|]. intros ->.
    assert (Ha : a ∈ node_leaves c.1).
    { eapply node_at_leaves_subseteq; [done|]. by left. }
    destruct (decide (i < j)%nat);
      [eapply (children_NoDup_lt cs i j)|eapply (children_NoDup_lt cs j i)]; eauto; lia.
Qed.

(** Replacing the leaves [a] and [b] one after the other renames both. *)
Lemma replace_two_leaves_rename f n pa pb a b :
  a <> b -> NoDup (node_leaves n) ->
  node_at n pa = Some (Leaf a) -> node_at n pb = Some (Leaf b) ->
  (forall x, x ∈ node_leaves n -> x <> a -> x <> b -> f x = x) ->
  replaceAtPath (replaceAtPath n pa (Leaf (f a))) pb (Leaf (f b)) = rename f n.
Proof.
  intros Hab. revert n pb. induction pa as [|i pa IH]; intros n pb Hnd Ha Hb Hf; simpl in Ha.
  { simplify_eq. destruct pb; simpl in Hb; congruence. }
  destruct n as [|d cs]; [done|]. destruct (cs !! i) as [c|] eqn:Hi; [|done].
  destruct pb as [|j pb]; simpl in Hb; [congruence|].
  destruct (cs !! j) as [c'|] eqn:Hj; [|done].
  assert (Hina : a ∈ node_leaves c.1) by (eapply node_at_leaves_subseteq; [done|by left]).
  assert (Hinb : b ∈ node_leaves c'.1) by (eapply node_at_leaves_subseteq; [done|by left]).
  assert (Hsep : forall k c1 l c2 x, cs !! k = Some c1 -> cs !! l = Some c2 ->
    x ∈ node_leaves c1.1 -> x ∈ node_leaves c2.1 -> k = l).
  { intros k c1 l c2 x Hk Hl H1 H2. destruct (decide (k < l)%nat); [|destruct (decide (l < k)%nat)];
      [exfalso; by eapply (children_NoDup_lt cs k l)|exfalso; by eapply (children_NoDup_lt cs l k)|lia]. }
  cbn [replaceAtPath rename]. rewrite Hi. cbn [replaceAtPath]. f_equal.
  destruct (decide (i = j)) as [->|Hij].
  - assert (c' = c) as -> by congruence.
    rewrite list_lookup_insert_eq by (by eapply lookup_lt_Some). cbn [fst snd].
    rewrite list_insert_insert_eq, (rename_children_insert f cs j c Hi).
    + do 3 f_equal. apply IH; [by eapply child_NoDup|done..|]. intros x Hx.
      apply Hf. by eapply child_leaves_subseteq.
    + intros k ck Hk Hne x Hx. apply Hf; [by eapply child_leaves_subseteq|..]; intros ->;
        apply Hne; [by apply (Hsep k ck j c a)|by apply (Hsep k ck j c b)].
  - rewrite list_lookup_insert_ne, Hj by done. f_equal.
    apply list_eq. intros k. rewrite (list_lookup_fmap _ cs).
    destruct (decide (k = j)) as [->|Hkj].
    + rewrite list_lookup_insert_eq by (rewrite length_insert; by eapply lookup_lt_Some).
      rewrite Hj. simpl. do 2 f_equal.
      apply replace_leaf_rename; [by eapply child_NoDup|done|].
      intros x Hx Hxb. apply Hf; [by eapply child_leaves_subseteq| |done]. intros ->. apply Hij.
      by apply (Hsep i c j c' a).
    + rewrite list_lookup_insert_ne by done. destruct (decide (k = i)) as [->|Hki].
      * rewrite list_lookup_insert_eq by (by eapply lookup_lt_Some). rewrite Hi. simpl. do 2 f_equal.
        apply replace_leaf_rename; [by eapply child_NoDup|done|].
        intros x Hx Hxa. apply Hf; [by apply (child_leaves_subseteq d cs i c)|done|]. intros ->. apply Hij.
        by apply (Hsep i c j c' b).
      * rewrite list_lookup_insert_ne by done. destruct (cs !! k) as [[m w]|] eqn:Hk; [|done].
        simpl. rewrite rename_notin; [done|]. intros x Hx.
        apply Hf; [by eapply (child_leaves_subseteq d cs k (m, w))|..]; intros ->;
          [apply Hki, (Hsep k (m, w) i c a)|apply Hkj, (Hsep k (m, w) j c' b)]; done.
Qed.

End Structure.
