(* ===== verification/LathWeights.v ===== *)
(** * Exact weights

    The numerical half of the tree invariant, over rational weights: the
    constructors produce positive weights summing to 1 in every split, and
    trees that differ only in the representation of their weights are
    identified by [node_eqv]. *)
From Stdlib Require Import ZArith QArith Qround Lqa Lia List.
From S2P Require Import Prelude JsNum LathModel LathStructure.

#[local] Set Warnings "-register-all".

Implicit Types (n m r : LathNode Q) (cs : list (LathChild Q)).

(** Every weight of the node is positive. *)
Fixpoint weights_pos n : bool :=
  match n with
  | Leaf _ => true
  | Split _ cs => forallb (fun c => Qltb 0 c.2 && weights_pos c.1) cs
  end.

(** Equality of children up to the representation of the weights. *)
Definition child_rel (R : LathNode Q -> LathNode Q -> Prop) (c1 c2 : LathChild Q) : Prop :=
  R c1.1 c2.1 /\ (c1.2 == c2.2)%Q.

(** Equal trees, weights compared as rationals. *)
Inductive node_eqv : LathNode Q -> LathNode Q -> Prop :=
  | eqv_Leaf id : node_eqv (Leaf id) (Leaf id)
  | eqv_Split d cs1 cs2 :
      Forall2 (child_rel node_eqv) cs1 cs2 -> node_eqv (Split d cs1) (Split d cs2).

Abbreviation child_eqv := (child_rel node_eqv).

(** ** Sums *)

Lemma Qltb_lt a b : Qltb a b = true <-> (a < b)%Q.
Proof.
  unfold Qltb. rewrite negb_true_iff, <- not_true_iff_false, Qle_bool_iff.
  split; [apply Qnot_le_lt|apply Qlt_not_le].
Qed.

Lemma foldl_Qplus (xs : list Q) a : (foldl nadd a xs == a + foldl nadd n0 xs)%Q.
Proof.
  revert a. induction xs as [|x xs IH]; intros a; cbn; [lra|].
  rewrite IH, (IH (0 + x)%Q). lra.
Qed.

Lemma nsum_cons (x : Q) xs : (nsum (x :: xs) == x + nsum xs)%Q.
Proof. unfold nsum. cbn. rewrite foldl_Qplus. cbn. lra. Qed.

Lemma nsum_nil : (nsum (W:=Q) [] == 0)%Q.
Proof. reflexivity. Qed.

Lemma nsum_app (xs ys : list Q) : (nsum (xs ++ ys) == nsum xs + nsum ys)%Q.
Proof.
  induction xs as [|x xs IH]; simpl; [rewrite nsum_nil; lra|].
  rewrite !nsum_cons, IH. lra.
Qed.

Lemma nsum_pos (xs : list Q) : Forall (fun x => 0 < x)%Q xs -> xs <> [] -> (0 < nsum xs)%Q.
Proof.
  intros H Hne. destruct H as [|x xs Hx H]; [done|]. rewrite nsum_cons.
  assert (0 <= nsum xs)%Q; [|lra]. clear Hne. induction H as [|y ys Hy H IH]; [by rewrite nsum_nil|].
  rewrite nsum_cons. lra.
Qed.

Lemma nsum_scale (k : Q) (xs : list Q) : (nsum (map (fun x => x * k) xs) == nsum xs * k)%Q.
Proof.
  induction xs as [|x xs IH]; simpl; [rewrite nsum_nil; lra|]. rewrite !nsum_cons, IH. lra.
Qed.

Lemma nsum_Permutation (xs ys : list Q) : xs ≡ₚ ys -> (nsum xs == nsum ys)%Q.
Proof.
  induction 1; [reflexivity|by rewrite !nsum_cons, IHPermutation| |by etrans].
  rewrite !nsum_cons. lra.
Qed.

Lemma nsum_eq (xs ys : list Q) : Forall2 Qeq xs ys -> (nsum xs == nsum ys)%Q.
Proof. induction 1; [reflexivity|]. rewrite !nsum_cons. lra. Qed.

(** The weights of a children list. *)
Abbreviation ws cs := (map snd cs : list Q).

(** ** normalizeWeights *)

Definition pos_children cs : Prop := Forall (fun c : LathChild Q => 0 < c.2)%Q cs.

Lemma pos_children_ws cs : pos_children cs <-> Forall (fun w => 0 < w)%Q (ws cs).
Proof. unfold pos_children. by rewrite Forall_map. Qed.

Lemma normalizeWeights_pos cs :
  pos_children cs -> cs <> [] ->
  normalizeWeights cs = map (fun c => (c.1, c.2 / nsum (ws cs))%Q) cs.
Proof.
  intros Hp Hne. unfold normalizeWeights.
  assert (0 < nsum (ws cs))%Q as Hs.
  { apply nsum_pos; [by apply pos_children_ws|]. by destruct cs. }
  destruct (nleb _ _) eqn:E; [|done]. apply Qle_bool_iff in E.
  change (nsum (ws cs) <= 0)%Q in E. lra.
Qed.

Lemma normalizeWeights_pos_children cs :
  pos_children cs -> pos_children (normalizeWeights cs).
Proof.
  intros Hp. destruct cs as [|c cs]; [constructor|].
  rewrite normalizeWeights_pos by done. unfold pos_children. rewrite Forall_map.
  assert (0 < nsum (ws (c :: cs)))%Q as Hs by (apply nsum_pos; [by apply pos_children_ws|done]).
  eapply Forall_impl; [exact Hp|]. intros c' Hc'. cbn [snd].
  cbv beta in Hc'. apply Qlt_shift_div_l; [done|]. lra.
Qed.

Lemma normalizeWeights_sum cs :
  pos_children cs -> cs <> [] -> (nsum (ws (normalizeWeights cs)) == 1)%Q.
Proof.
  intros Hp Hne. rewrite normalizeWeights_pos by done.
  assert (0 < nsum (ws cs))%Q as Hs.
  { apply nsum_pos; [by apply pos_children_ws|]. by destruct cs. }
  rewrite map_map. cbn [snd].
  rewrite <- (map_map snd (fun x => x / nsum (ws cs))%Q). unfold Qdiv.
  rewrite nsum_scale. field. lra.
Qed.

(** ** Positivity and the invariant *)

Lemma weights_pos_Split d cs :
  weights_pos (Split d cs) = true <->
  pos_children cs /\ Forall (fun n => weights_pos n = true) (map fst cs).
Proof.
  cbn [weights_pos]. rewrite forallb_forall. unfold pos_children.
  rewrite Forall_map, !Forall_forall. split.
  - intros H. split; intros c Hc; apply list_elem_of_In in Hc; apply H in Hc;
      apply andb_true_iff in Hc as [? ?]; [by apply Qltb_lt|done].
  - intros [H1 H2] c Hc. apply list_elem_of_In in Hc. apply andb_true_iff.
    split; [apply Qltb_lt; by apply H1|by apply H2].
Qed.

Lemma weights_ok_Split d cs :
  weights_ok (Split d cs) = true <->
  pos_children cs /\ (nsum (ws cs) == 1)%Q /\ Forall (fun n => weights_ok n = true) (map fst cs).
Proof.
  cbn [weights_ok]. rewrite !andb_true_iff, !forallb_forall, Qeq_bool_iff. unfold pos_children.
  rewrite Forall_map, !Forall_forall. split.
  - intros [[H1 H2] H3]. split_all; auto; intros c Hc; apply list_elem_of_In in Hc;
      [apply Qltb_lt|]; auto.
  - intros (H1 & H2 & H3). split_all; auto; intros c Hc; apply list_elem_of_In in Hc;
      [apply Qltb_lt|]; auto.
Qed.

Lemma weights_ok_pos n : weights_ok n = true -> weights_pos n = true.
Proof.
  induction n as [id|d cs IH] using LathNode_ind'; [done|].
  rewrite weights_ok_Split, weights_pos_Split. intros (H1 & _ & H2). split; [done|].
  rewrite Forall_map in *. rewrite Forall_forall in *. auto.
Qed.

Lemma node_at_weights_ok n p m :
  node_at n p = Some m -> weights_ok n = true -> weights_ok m = true.
Proof.
  revert n. induction p as [|i p IH]; intros n H Hc; simpl in H; [congruence|].
  destruct n as [|d cs]; [done|]. destruct (cs !! i) as [c|] eqn:Hi; [|done].
  apply (IH _ H). apply weights_ok_Split in Hc as (_ & _ & Hc).
  rewrite Forall_map, Forall_lookup in Hc. by apply (Hc i).
Qed.

Lemma weights_pos_replaceAtPath n p r :
  weights_pos n = true -> weights_pos r = true -> weights_pos (replaceAtPath n p r) = true.
Proof.
  intros Hn Hr. revert n Hn. induction p as [|i p IH]; intros n Hn; simpl; [done|].
  destruct n as [|d cs]; [done|]. destruct (cs !! i) as [c|] eqn:Hi; [|done].
  apply weights_pos_Split in Hn as [Hp Hall]. apply weights_pos_Split.
  rewrite Forall_map in *. pose proof Hp as Hp'. unfold pos_children in *.
  rewrite !Forall_lookup in *. split; intros j c' Hj;
    apply list_lookup_insert_Some in Hj as [(-> & <- & _)|[_ Hj]]; simpl; eauto.
Qed.

Lemma collect_pos d m w :
  weights_pos m = true -> (0 < w)%Q ->
  pos_children (collect d (Some m) w) /\
  Forall (fun n => weights_pos n = true) (map fst (collect d (Some m) w)).
Proof.
  intros Hm Hw. destruct m as [id|d' cs]; [by repeat constructor|]. simpl.
  case_decide; [|by repeat constructor].
  apply weights_pos_Split in Hm as [Hp Hall]. unfold pos_children in *.
  rewrite !Forall_map in *. split; [|done].
  eapply Forall_impl; [exact Hp|]. intros c Hc. cbn [snd].
  apply Qmult_lt_0_compat; done.
Qed.

(** Normalizing a tree of positive weights establishes the numerical invariant. *)
Lemma normalize_weights_ok n m :
  weights_pos n = true -> normalize n = Some m -> weights_ok m = true.
Proof.
  revert m. induction n as [id|d cs IH] using LathNode_ind'; intros m Hp H.
  { by simplify_eq/=. }
  apply weights_pos_Split in Hp as [Hp Hall]. cbn [normalize] in H.
  set (k := concat _) in H.
  assert (Hk : pos_children k /\ Forall (fun n => weights_ok n = true) (map fst k)).
  { unfold k. clear H k. induction IH as [|c cs Hc _ IHcs]; [by repeat constructor|].
    unfold pos_children in Hp. simpl in Hall. apply Forall_cons in Hp as [Hcp Hp].
    apply Forall_cons in Hall as [Hca Hall]. destruct (IHcs Hp Hall) as [IH1 IH2].
    cbn [map concat]. unfold pos_children. rewrite map_app, !Forall_app.
    destruct (normalize c.1) as [m'|] eqn:Em; [|by repeat split; try constructor].
    specialize (Hc _ Hca eq_refl).
    destruct (collect_pos d m' c.2) as [Hc1 _]; [by apply weights_ok_pos|done|].
    split_all; try done. destruct m' as [id|d' gcs]; [by repeat constructor|]. simpl.
    case_decide; [|by repeat constructor]. rewrite map_map.
    by apply weights_ok_Split in Hc as (_ & _ & Hc). }
  clearbody k. destruct Hk as [Hk1 Hk2]. destruct k as [|c1 [|c2 k]]; simplify_eq.
  - by apply Forall_cons in Hk2 as [? _].
  - apply weights_ok_Split. rewrite normalizeWeights_fst.
    split_all; [by apply normalizeWeights_pos_children|by apply normalizeWeights_sum|done].
Qed.

(** ** Equivalence *)

Lemma node_eqv_ind_Split d cs1 m :
  node_eqv (Split d cs1) m -> exists cs2, m = Split d cs2 /\ Forall2 child_eqv cs1 cs2.
Proof. inversion 1; subst. eauto. Qed.

Lemma node_eqv_Leaf id m : node_eqv (Leaf id) m -> m = Leaf id.
Proof. by inversion 1. Qed.

#[export] Instance node_eqv_equivalence : Equivalence node_eqv.
Proof.
  split.
  - intros n. induction n as [id|d cs IH] using LathNode_ind'; constructor.
    induction IH as [|c cs Hc _ IHcs]; constructor; [|done]. by split.
  - intros n. induction n as [id|d cs IH] using LathNode_ind'; intros m H.
    { apply node_eqv_Leaf in H as ->. constructor. }
    apply node_eqv_ind_Split in H as (cs2 & -> & H). constructor.
    revert cs2 H. induction IH as [|c cs Hc _ IHcs]; intros cs2 H;
      inversion H as [|? c2 ? cs2' [H1 H2] H3]; subst; constructor; [|by apply IHcs].
    split; [by apply Hc|by symmetry].
  - intros n. induction n as [id|d cs IH] using LathNode_ind'; intros m k H K.
    { apply node_eqv_Leaf in H as ->. done. }
    apply node_eqv_ind_Split in H as (cs2 & -> & H).
    apply node_eqv_ind_Split in K as (cs3 & -> & K). constructor.
    revert cs2 cs3 H K. induction IH as [|c cs Hc _ IHcs]; intros cs2 cs3 H K;
      inversion H as [|? c2 ? cs2' [H1 H2] H3]; subst;
      inversion K as [|? c3 ? cs3' [K1 K2] K3]; subst; constructor; [|by eapply IHcs].
    split; [by eapply Hc|by etrans].
Qed.

#[export] Instance child_eqv_equivalence : Equivalence child_eqv.
Proof.
  split; [intros c|intros c1 c2 []|intros c1 c2 c3 [] []]; split; try done; try by etrans.
Qed.

Lemma child_eqv_intro n1 n2 (w1 w2 : Q) :
  node_eqv n1 n2 -> (w1 == w2)%Q -> child_eqv (n1, w1) (n2, w2).
Proof. by split. Qed.

Lemma node_eqv_shape n m : node_eqv n m -> same_shape n m.
Proof.
  revert m. induction n as [id|d cs IH] using LathNode_ind'; intros m H.
  { by apply node_eqv_Leaf in H as ->. }
  apply node_eqv_ind_Split in H as (cs2 & -> & H). unfold same_shape. simpl. f_equal.
  revert cs2 H. induction IH as [|c cs Hc _ IHcs]; intros cs2 H;
    inversion H as [|? c2 ? cs2' [H1 H2] H3]; subst; [done|]. simpl.
  f_equal; [by apply Hc|by apply IHcs].
Qed.

Lemma children_eqv_ws cs1 cs2 : Forall2 child_eqv cs1 cs2 -> Forall2 Qeq (ws cs1) (ws cs2).
Proof. induction 1 as [|c1 c2 ? ? [? ?]]; simpl; auto. Qed.

Lemma normalizeWeights_eqv cs1 cs2 :
  Forall2 child_eqv cs1 cs2 -> Forall2 child_eqv (normalizeWeights cs1) (normalizeWeights cs2).
Proof.
  intros H. unfold normalizeWeights.
  pose proof (nsum_eq _ _ (children_eqv_ws _ _ H)) as Hs.
  pose proof (Forall2_length _ _ _ H) as Hl. rewrite Hl.
  assert (nleb (nsum (ws cs1)) n0 = nleb (nsum (ws cs2)) n0) as ->.
  { cbn. apply eq_true_iff_eq. rewrite !Qle_bool_iff. by rewrite Hs. }
  destruct (nleb _ _); apply Forall2_fmap; (eapply Forall2_impl; [exact H|]);
    intros c1 c2 [H1 H2]; split; cbn [fst snd]; try done.
  cbn. by rewrite H2, Hs.
Qed.

Lemma collect_eqv d m1 m2 (w1 w2 : Q) :
  node_eqv m1 m2 -> (w1 == w2)%Q ->
  Forall2 child_eqv (collect d (Some m1) w1) (collect d (Some m2) w2).
Proof.
  intros H Hw. destruct m1 as [id|d1 cs1].
  { apply node_eqv_Leaf in H as ->. repeat constructor; cbn; done. }
  pose proof H as H'. apply node_eqv_ind_Split in H as (cs2 & -> & H). simpl.
  case_decide; [|repeat constructor; cbn; done].
  apply Forall2_fmap. eapply Forall2_impl; [exact H|].
  intros c1 c2 [H1 H2]. split; cbn; [done|]. by rewrite H2, Hw.
Qed.

(** [normalize] of a split depends only on the normal forms of its children. *)
Lemma normalize_Split_congr d cs1 cs2 :
  Forall2 (fun c1 c2 => option_Forall2 node_eqv (normalize c1.1) (normalize c2.1) /\ (c1.2 == c2.2)%Q)
    cs1 cs2 ->
  option_Forall2 node_eqv (normalize (Split d cs1)) (normalize (Split d cs2)).
Proof.
  intros H. cbn [normalize]. set (k1 := concat _). set (k2 := concat _).
  assert (Hk : Forall2 child_eqv k1 k2).
  { unfold k1, k2. clear k1 k2. induction H as [|c1 c2 cs1 cs2 [Hc Hw] _ IH]; [constructor|].
    cbn [map concat]. apply Forall2_app; [|done].
    inversion Hc as [m1 m2 Hm E1 E2|E1 E2]; [by apply collect_eqv|constructor]. }
  clearbody k1 k2. destruct Hk as [|c1 c2 k1 k2 Hc Hk]; [constructor|].
  destruct Hk as [|c1' c2' k1 k2 Hc' Hk]; constructor; [apply Hc|].
  constructor. apply normalizeWeights_eqv. do 2 (constructor; [done|]). done.
Qed.

#[export] Instance normalize_Proper : Proper (node_eqv ==> option_Forall2 node_eqv) normalize.
Proof.
  intros n. induction n as [id|d cs IH] using LathNode_ind'; intros m H.
  { apply node_eqv_Leaf in H as ->. by constructor. }
  apply node_eqv_ind_Split in H as (cs2 & -> & H). apply normalize_Split_congr.
  revert cs2 H. induction IH as [|c cs Hc _ IHcs]; intros cs2 H;
    inversion H as [|? c2 ? cs2' [H1 H2] H3]; subst; constructor; [|by apply IHcs].
  split; [by apply Hc|done].
Qed.

#[export] Instance replaceAtPath_Proper :
  Proper (node_eqv ==> eq ==> node_eqv ==> node_eqv) (replaceAtPath (W:=Q)).
Proof.
  intros n1 n2 Hn p ? <- r1 r2 Hr. revert n1 n2 Hn.
  induction p as [|i p IH]; intros n1 n2 Hn; simpl; [done|].
  destruct n1 as [|d cs1]; [by apply node_eqv_Leaf in Hn as ->|].
  pose proof Hn as Hn'. apply node_eqv_ind_Split in Hn as (cs2 & -> & H).
  destruct (cs1 !! i) as [c1|] eqn:H1.
  - destruct (Forall2_lookup_l _ _ _ _ _ H H1) as (c2 & -> & [Hc Hw]).
    constructor. apply Forall2_insert; [done|]. split; cbn; [by apply IH|done].
  - destruct (cs2 !! i) as [c2|] eqn:H2; [|done].
    destruct (Forall2_lookup_r _ _ _ _ _ H H2) as (c1 & ? & _). congruence.
Qed.

Lemma weights_ok_eqv n m : node_eqv n m -> weights_ok n = true -> weights_ok m = true.
Proof.
  revert m. induction n as [id|d cs IH] using LathNode_ind'; intros m H Hok.
  { by apply node_eqv_Leaf in H as ->. }
  apply node_eqv_ind_Split in H as (cs2 & -> & H).
  apply weights_ok_Split in Hok as (H1 & H2 & H3). apply weights_ok_Split. split_all.
  - unfold pos_children in *. rewrite Forall_lookup in *. intros i c2 Hi.
    destruct (Forall2_lookup_r _ _ _ _ _ H Hi) as (c1 & Hi1 & [_ Hw]).
    rewrite <- Hw. by apply (H1 i).
  - by rewrite <- (nsum_eq _ _ (children_eqv_ws _ _ H)).
  - rewrite Forall_map, Forall_lookup in *. intros i c2 Hi.
    destruct (Forall2_lookup_r _ _ _ _ _ H Hi) as (c1 & Hi1 & [Hc _]).
    apply (IH i c1); [done..|]. by apply (H3 i).
Qed.

(** On a valid node [normalize] is the identity, up to the representation of weights. *)
Lemma normalize_valid n :
  canonical n = true -> weights_ok n = true -> exists m, normalize n = Some m /\ node_eqv m n.
Proof.
  induction n as [id|d cs IH] using LathNode_ind'; intros Hc Hw; [by exists (Leaf id)|].
  apply canonical_Split in Hc as [Hlen Hall]. apply weights_ok_Split in Hw as (Hp & Hs & Hok).
  cbn [normalize]. set (k := concat _).
  assert (Hk : Forall2 child_eqv k cs).
  { unfold k. clear k Hlen Hs. induction IH as [|c cs Hc _ IHcs]; [constructor|].
    simpl in Hall, Hok. apply Forall_cons in Hall as [Hc1 Hall], Hp as [Hcp Hp], Hok as [Hco Hok].
    cbn [map concat]. destruct (Hc (proj1 Hc1) Hco) as (m & -> & Hm).
    rewrite collect_canonical.
    - constructor; [|by apply IHcs]. split; [done|]. reflexivity.
    - pose proof (node_eqv_shape _ _ Hm) as Hsh. split.
      + rewrite (same_shape_canonical _ _ Hsh). apply Hc1.
      + rewrite (same_shape_split_dir _ _ Hsh). apply Hc1. }
  clearbody k. pose proof (Forall2_length _ _ _ Hk) as Hl.
  destruct k as [|c1 [|c2 k]]; [simpl in Hl; lia..|].
  eexists. split; [done|]. constructor. etrans; [by apply normalizeWeights_eqv|].
  rewrite normalizeWeights_pos by (done || by intros ->).
  apply Forall2_fmap_l. apply Forall_Forall2_diag.
  rewrite Forall_forall. intros c _. split; cbn [fst snd]; [done|]. rewrite Hs. field.
Qed.
