(* ===== verification/LathLayout.v ===== *)
(** * Lath layout (lib/src/lib/lath/layout.ts)

    Geometry over the split tree: minimum extents, the integer allocation of a
    split's span among its children, the rectangles of leaves, interior nodes
    and sashes, and the spatial queries derived from them. *)
From Stdlib Require Import ZArith QArith Qround Qabs Lqa Lia.
From S2P Require Import Prelude JsNum LathModel LathStructure LathWeights.

Record Rect (W : Type) := mkRect { rect_x : W; rect_y : W; rect_width : W; rect_height : W }.
Arguments mkRect {W} _ _ _ _.
Arguments rect_x {W} _.
Arguments rect_y {W} _.
Arguments rect_width {W} _.
Arguments rect_height {W} _.

(** [rectsClose] (lath/model.ts). *)
Definition rectsClose {W} `{JSNum W} (a b : Rect W) (eps : W) : bool :=
  nleb (nabs (nsub (rect_x a) (rect_x b))) eps && nleb (nabs (nsub (rect_y a) (rect_y b))) eps &&
  nleb (nabs (nsub (rect_width a) (rect_width b))) eps && nleb (nabs (nsub (rect_height a) (rect_height b))) eps.

Record LayoutOpts (W : Type) := mkOpts { gap : W; minLeaf_width : W; minLeaf_height : W }.
Arguments mkOpts {W} _ _ _.
Arguments gap {W} _.
Arguments minLeaf_width {W} _.
Arguments minLeaf_height {W} _.

Inductive Direction := DLeft | DRight | DUp | DDown.

#[export] Instance Direction_eq_dec : EqDecision Direction.
Proof. solve_decision. Defined.

(** One child in the waterfill of [allocateChildSpans]: its entries of
    [children], [mins], [clamped] and [frac]. *)
Record Fill (W : Type) := mkFill { f_weight : W; f_min : W; f_clamped : bool; f_frac : W }.
Arguments mkFill {W} _ _ _ _.
Arguments f_weight {W} _.
Arguments f_min {W} _.
Arguments f_clamped {W} _.
Arguments f_frac {W} _.

(** One entry of [sashes]. *)
Record Sash (W : Type) := mkSash {
  sash_path : list nat; sash_boundary : nat; sash_dir : Dir; sash_rect : Rect W }.
Arguments mkSash {W} _ _ _ _.
Arguments sash_path {W} _.
Arguments sash_boundary {W} _.
Arguments sash_dir {W} _.
Arguments sash_rect {W} _.

(** A candidate of [neighbors]. *)
Record Cand (W : Type) := mkCand { c_id : LeafId; c_dist : W; c_overlaps : bool; c_r : Rect W }.
Arguments mkCand {W} _ _ _ _.
Arguments c_id {W} _.
Arguments c_dist {W} _.
Arguments c_overlaps {W} _.
Arguments c_r {W} _.

Section Layout.
  Context {W : Type} `{N : JSNum W}.
  Implicit Types (n : LathNode W) (t : LathTree W) (cs : list (LathChild W))
    (rect : Rect W) (opts : LayoutOpts W) (fs : list (Fill W)).

(** [gap * (n - 1)]. *)
Definition gaps opts cs : W := nmul (gap opts) (nlit (Z.of_nat (length cs) - 1) 1).

Fixpoint minSpan n (axis : Dir) opts : W :=
  match n with
  | Leaf _ => match axis with Row => minLeaf_width opts | Col => minLeaf_height opts end
  | Split d cs =>
      if decide (d = axis) then
        nadd (nsum (map (fun c => minSpan c.1 axis opts) cs)) (gaps opts cs)
      else foldl nmax n0 (map (fun c => minSpan c.1 axis opts) cs)
  end.

(** The waterfill loop, at most [fuel] passes; [None] when they do not suffice. *)
Fixpoint waterfill (fuel : nat) (remaining : W) fs : option (list W) :=
  match fuel with
  | O => None
  | S fuel' =>
      let active := filter (fun f => f_clamped f = false) fs in
      let activeWeight := nsum (map f_weight active) in
      if (length active =? 0)%nat then Some (map f_frac fs)
      else
        let share rem f :=
          if nltb n0 activeWeight then nmul (ndiv (f_weight f) activeWeight) rem
          else ndiv rem (nof_nat (length active)) in
        let pinned f := negb (f_clamped f) && nltb (share remaining f) (nsub (f_min f) n1e9) in
        let remaining' := nsub remaining (nsum (map f_min (filter pinned fs))) in
        if existsb pinned fs then
          waterfill fuel' remaining'
            (map (fun f => if pinned f then mkFill (f_weight f) (f_min f) true (f_min f) else f) fs)
        else Some (map (fun f => if f_clamped f then f_frac f else share remaining' f) fs)
  end.

Fixpoint cumulativeRound_from (fracs : list W) (target cum prevRounded : W) : list W :=
  match fracs with
  | [] => []
  | f :: fracs' =>
      let cum' := nadd cum f in
      let rounded := match fracs' with [] => target | _ => nround cum' end in
      nsub rounded prevRounded :: cumulativeRound_from fracs' target cum' rounded
  end.

Definition cumulativeRound (fracs : list W) (total : W) : list W :=
  cumulativeRound_from fracs (nround total) n0 n0.

(** [available = Math.max(0, span - gap * (n - 1))]. *)
Definition available_span cs (span : W) opts : W := nmax n0 (nsub span (gaps opts cs)).

(** The children as the waterfill starts. *)
Definition fill_init cs opts (dir : Dir) : list (Fill W) :=
  map (fun c => mkFill c.2 (minSpan c.1 dir opts) false n0) cs.

(** The fractional allocation: min-proportional when the minimums do not fit,
    else the waterfill. *)
Definition fractional_spans cs (available : W) opts (dir : Dir) : list W :=
  let mins := map (fun c => minSpan c.1 dir opts) cs in
  let totalMin := nsum mins in
  if nltb available totalMin then
    if nltb n0 totalMin then map (fun m => nmul (ndiv m totalMin) available) mins
    else map (fun _ => ndiv available (nof_nat (length cs))) mins
  else
    match waterfill (S (length cs)) available (fill_init cs opts dir) with
    | Some frac => frac
    | None => []
    end.

Definition allocateChildSpans cs (span : W) opts (dir : Dir) : list W :=
  let available := available_span cs span opts in
  cumulativeRound (fractional_spans cs available opts dir) available.

(** The rectangles of consecutive children from position [pos] on. *)
Fixpoint child_rects_from (dir : Dir) (spans : list W) (pos : W) rect opts : list (Rect W) :=
  match spans with
  | [] => []
  | s :: spans' =>
      (match dir with
       | Row => mkRect pos (rect_y rect) s (rect_height rect)
       | Col => mkRect (rect_x rect) pos (rect_width rect) s
       end) :: child_rects_from dir spans' (nadd pos (nadd s (gap opts))) rect opts
  end.

(** The extent of a rectangle along an axis, and where it starts. *)
Definition rect_span (dir : Dir) rect : W :=
  match dir with Row => rect_width rect | Col => rect_height rect end.
Definition rect_start (dir : Dir) rect : W :=
  match dir with Row => rect_x rect | Col => rect_y rect end.

(** The rectangles [forEachChildRect] passes to its callback, in order. *)
Definition forEachChildRect (dir : Dir) cs rect opts : list (Rect W) :=
  child_rects_from dir (allocateChildSpans cs (rect_span dir rect) opts dir)
    (rect_start dir rect) rect opts.

Definition nonnegativeRect rect : Rect W :=
  mkRect (rect_x rect) (rect_y rect) (nmax n0 (rect_width rect)) (nmax n0 (rect_height rect)).

Fixpoint layoutNode n rect opts (out : list (LeafId * Rect W)) : list (LeafId * Rect W) :=
  match n with
  | Leaf id => omap_set id rect out
  | Split d cs =>
      fold_zip (fun _ c r out => layoutNode c.1 r opts out) 0 cs (forEachChildRect d cs rect opts) out
  end.

Definition layout t rect opts : list (LeafId * Rect W) :=
  match root t with
  | Some n => layoutNode n (nonnegativeRect rect) opts []
  | None => []
  end.

(** The path walk of [nodeRectAtPath]. *)
Fixpoint node_rect n rect opts (path : list nat) : option (Rect W) :=
  match path with
  | [] => Some rect
  | i :: rest =>
      match n with
      | Leaf _ => None
      | Split d cs =>
          match cs !! i, forEachChildRect d cs rect opts !! i with
          | Some c, Some r => node_rect c.1 r opts rest
          | _, _ => None
          end
      end
  end.

Definition nodeRectAtPath t rect opts (path : list nat) : option (Rect W) :=
  match root t with
  | Some n => node_rect n (nonnegativeRect rect) opts path
  | None => None
  end.

(** The far edges [r.x + r.width] and [r.y + r.height]. *)
Definition rect_right rect : W := nadd (rect_x rect) (rect_width rect).
Definition rect_bottom rect : W := nadd (rect_y rect) (rect_height rect).

(** The band between child [i] and the next. *)
Definition sash_band (d : Dir) (childRect : Rect W) rect opts : Rect W :=
  match d with
  | Row => mkRect (rect_right childRect) (rect_y rect) (gap opts) (rect_height rect)
  | Col => mkRect (rect_x rect) (rect_bottom childRect) (rect_width rect) (gap opts)
  end.

(** The [walk] of [sashes]. *)
Fixpoint node_sashes n rect opts (path : list nat) (out : list (Sash W)) : list (Sash W) :=
  match n with
  | Leaf _ => out
  | Split d cs =>
      fold_zip (fun i c r out =>
          let out' :=
            if (i <? length cs - 1)%nat
            then out ++ [mkSash path i d (sash_band d r rect opts)] else out in
          node_sashes c.1 r opts (path ++ [i]) out')
        0 cs (forEachChildRect d cs rect opts) out
  end.

Definition sashes t rect opts : list (Sash W) :=
  match root t with
  | Some n => node_sashes n (nonnegativeRect rect) opts [] []
  | None => []
  end.

(** The first [continue]s of the candidate loop: not beyond the edge of [c]. *)
Definition behind (direction : Direction) (c r : Rect W) : bool :=
  match direction with
  | DLeft => nltb (rect_x c) (rect_right r)
  | DRight => nltb (rect_x r) (rect_right c)
  | DUp => nltb (rect_y c) (rect_bottom r)
  | DDown => nltb (rect_y r) (rect_bottom c)
  end.

Definition cand_of (direction : Direction) (c : Rect W) (pid : LeafId) (r : Rect W) : Cand W :=
  let isHorizontal := bool_decide (direction = DLeft \/ direction = DRight) in
  let overlaps :=
    if isHorizontal
    then nltb (rect_y r) (rect_bottom c) && nltb (rect_y c) (rect_bottom r)
    else nltb (rect_x r) (rect_right c) && nltb (rect_x c) (rect_right r) in
  let dist :=
    match direction with
    | DLeft => nsub (rect_x c) (rect_right r)
    | DRight => nsub (rect_x r) (rect_right c)
    | DUp => nsub (rect_y c) (rect_bottom r)
    | DDown => nsub (rect_y r) (rect_bottom c)
    end in
  mkCand pid dist overlaps r.

(** The sort comparator is negative: a difference that is 0 or NaN is falsy and
    the next key decides. *)
Definition cand_before (a b : Cand W) : bool :=
  let falsy d := neqb d n0 || nis_nan d in
  let d1 := nsub (c_dist a) (c_dist b) in
  if negb (falsy d1) then nltb d1 n0 else
  let d2 := nsub (rect_y (c_r a)) (rect_y (c_r b)) in
  if negb (falsy d2) then nltb d2 n0 else
  let d3 := nsub (rect_x (c_r a)) (rect_x (c_r b)) in
  if negb (falsy d3) then nltb d3 n0 else
  String.ltb (c_id a) (c_id b).

(** The head of [pool] after sorting: the first of its least elements. *)
Definition pool_first (pool : list (Cand W)) : option (Cand W) :=
  match pool with
  | [] => None
  | c :: pool' => Some (foldl (fun best x => if cand_before x best then x else best) c pool')
  end.

Definition neighbors t rect (id : LeafId) (direction : Direction) opts : option LeafId :=
  let rects := layout t rect opts in
  match omap_get id rects with
  | None => None
  | Some c =>
      let cands := omap (fun pr =>
        if decide (pr.1 = id) then None
        else if behind direction c pr.2 then None
        else Some (cand_of direction c pr.1 pr.2)) rects in
      let overlapping := filter (fun cand => c_overlaps cand = true) cands in
      let pool := match overlapping with [] => cands | _ => overlapping end in
      match pool_first pool with Some cand => Some (c_id cand) | None => None end
  end.

Definition autoEdge t rect (id : LeafId) opts : Edge :=
  match omap_get id (layout t rect opts) with
  | None => ERight
  | Some r => if nltb n0 (nsub (rect_width r) (rect_height r)) then ERight else EBottom
  end.

End Layout.

