(* ===== verification/LathSpans.v ===== *)
(** * Span allocation (lib/src/lib/lath/layout.ts)

    The waterfill terminates for every number type; over exact rationals the
    spans are whole pixels that sum to the rounded available extent, and every
    child keeps its minimum when the minimums fit. *)
From Stdlib Require Import ZArith QArith Qround Qabs Qminmax Lqa Lia List.
From S2P Require Import Prelude JsNum LathModel LathStructure LathWeights LathLayout.
#[local] Set Warnings "-register-all".

Section Termination.
  Context {W : Type} `{N : JSNum W}.
  Implicit Types (fs : list (Fill W)) (cs : list (LathChild W)).

Definition active fs : list (Fill W) := filter (fun f => f_clamped f = false) fs.

(** Clamping the pinned children leaves fewer active ones. *)
Lemma clamp_active (pinned : Fill W -> bool) fs :
  (forall f, pinned f = true -> f_clamped f = false) -> existsb pinned fs = true ->
  (length (active (map (fun f => if pinned f then mkFill (f_weight f) (f_min f) true (f_min f) else f) fs))
    < length (active fs))%nat.
Proof.
  intros Hp. set (g := fun f => if pinned f then _ else f).
  assert (Hle : forall fs, (length (active (map g fs)) <= length (active fs))%nat).
  { intros l. induction l as [|f fs' IH]; [done|]. unfold active in *. cbn [map]. unfold g at 1.
    destruct (pinned f) eqn:Ef.
    - rewrite filter_cons_False by (cbn; congruence). rewrite filter_cons_True by by apply Hp. simpl. lia.
    - destruct (f_clamped f) eqn:Ec.
      + rewrite !filter_cons_False by congruence. done.
      + rewrite !filter_cons_True by done. simpl. lia. }
  induction fs as [|f fs' IH]; intros He; [done|]. unfold active in *. cbn [map existsb] in *.
  unfold g at 1. destruct (pinned f) eqn:Ef.
  - rewrite filter_cons_False by (cbn; congruence). rewrite filter_cons_True by by apply Hp.
    specialize (Hle fs'). simpl. lia.
  - specialize (IH He). destruct (f_clamped f) eqn:Ec.
    + by rewrite !filter_cons_False by congruence.
    + rewrite !filter_cons_True by done. simpl. lia.
Qed.

(** More fuel than active children suffices, and the result has one entry a child. *)
Lemma waterfill_total fuel remaining fs :
  (length (active fs) < fuel)%nat ->
  exists l, waterfill fuel remaining fs = Some l /\ length l = length fs.
Proof.
  revert remaining fs. induction fuel as [|fuel IH]; intros remaining fs Hf; [lia|].
  cbn [waterfill]. fold (active fs). destruct (length (active fs) =? 0)%nat eqn:E0.
  { eexists. split; [done|]. by rewrite length_map. }
  cbv zeta. match goal with |- context [existsb ?p fs] => set (pinned := p) end.
  destruct (existsb pinned fs) eqn:Ep.
  - match goal with |- context [waterfill fuel ?r ?l] => destruct (IH r l) as (out & -> & Hl) end.
    + assert (H : forall f, pinned f = true -> f_clamped f = false).
      { intros f Hf'. apply andb_true_iff in Hf' as [Hf' _]. by apply negb_true_iff. }
      apply (clamp_active pinned fs) in H; [|exact Ep]. unfold pinned in *. lia.
    + eexists. split; [done|]. by rewrite Hl, length_map.
  - eexists. split; [done|]. by rewrite length_map.
Qed.

Lemma active_le fs : (length (active fs) <= length fs)%nat.
Proof. apply length_filter. Qed.

Lemma fractional_spans_length cs (available : W) opts dir :
  length (fractional_spans cs available opts dir) = length cs.
Proof.
  unfold fractional_spans. cbv zeta. destruct (nltb available _).
  { destruct (nltb n0 _); by rewrite !length_map. }
  destruct (waterfill_total (S (length cs)) available (fill_init cs opts dir)) as (l & -> & Hl).
  - pose proof (active_le (fill_init cs opts dir)) as H. unfold fill_init in *.
    rewrite length_map in H. lia.
  - rewrite Hl. unfold fill_init. by rewrite length_map.
Qed.

Lemma cumulativeRound_from_length fracs (target cum prev : W) :
  length (cumulativeRound_from fracs target cum prev) = length fracs.
Proof. revert cum prev. induction fracs as [|f fracs IH]; intros; simpl; [done|]. by rewrite IH. Qed.

(** [allocateChildSpans] returns one span a child. *)
Lemma allocateChildSpans_length cs (span : W) opts dir :
  length (allocateChildSpans cs span opts dir) = length cs.
Proof.
  unfold allocateChildSpans, cumulativeRound.
  by rewrite cumulativeRound_from_length, fractional_spans_length.
Qed.

Lemma child_rects_length dir spans (pos : W) rect opts :
  length (child_rects_from dir spans pos rect opts) = length spans.
Proof. revert pos. induction spans as [|s spans IH]; intros; simpl; [done|]. by rewrite IH. Qed.

Lemma forEachChildRect_length dir cs (rect : Rect W) opts :
  length (forEachChildRect dir cs rect opts) = length cs.
Proof. unfold forEachChildRect. by rewrite child_rects_length, allocateChildSpans_length. Qed.

End Termination.

(** ** Rounding *)

Implicit Types (n : LathNode Q) (cs : list (LathChild Q)) (opts : LayoutOpts Q).

(** A whole number of pixels. *)
Definition integral (q : Q) : Prop := exists z : Z, (q == inject_Z z)%Q.

Lemma integral_plus a b : integral a -> integral b -> integral (a + b)%Q.
Proof. intros [x Hx] [y Hy]. exists (x + y)%Z. rewrite Hx, Hy, inject_Z_plus. reflexivity. Qed.

Lemma integral_minus a b : integral a -> integral b -> integral (a - b)%Q.
Proof.
  intros [x Hx] [y Hy]. exists (x - y)%Z. unfold Z.sub. rewrite inject_Z_plus, inject_Z_opp, Hx, Hy.
  reflexivity.
Qed.

Lemma integral_mult a b : integral a -> integral b -> integral (a * b)%Q.
Proof. intros [x Hx] [y Hy]. exists (x * y)%Z. rewrite Hx, Hy, inject_Z_mult. reflexivity. Qed.

Lemma integral_Z z : integral (inject_Z z).
Proof. by exists z. Qed.

#[export] Instance integral_Proper : Proper (Qeq ==> iff) integral.
Proof. intros a b H. unfold integral. split; intros [z Hz]; exists z; by rewrite <- Hz, H. Qed.

#[export] Instance Qround_js_Proper : Proper (Qeq ==> Qeq) Qround_js.
Proof. intros a b H. unfold Qround_js. by rewrite H. Qed.

Lemma round_integral a : integral (Qround_js a).
Proof. apply integral_Z. Qed.

Lemma Qfloor_unique q z : (inject_Z z <= q)%Q -> (q < inject_Z z + 1)%Q -> Qfloor q = z.
Proof.
  intros H1 H2. pose proof (Qfloor_le q) as H3. pose proof (Qlt_floor q) as H4.
  rewrite inject_Z_plus in H4.
  apply Z.le_antisymm; apply Z.lt_succ_r; rewrite Zlt_Qlt, <- Z.add_1_r, inject_Z_plus;
    change (inject_Z 1) with 1%Q in *; lra.
Qed.

Lemma round_of_integral a : integral a -> (Qround_js a == a)%Q.
Proof.
  intros [z Hz]. rewrite Hz. unfold Qround_js. rewrite (Qfloor_unique _ z); [reflexivity|lra..].
Qed.

Lemma round_monotone a b : (a <= b)%Q -> (Qround_js a <= Qround_js b)%Q.
Proof. intros H. unfold Qround_js. rewrite <- Zle_Qle. apply Qfloor_resp_le. lra. Qed.

Lemma round_shift a z : (Qround_js (a + inject_Z z) == Qround_js a + inject_Z z)%Q.
Proof.
  unfold Qround_js. pose proof (Qfloor_le (a + (1 # 2))) as H1.
  pose proof (Qlt_floor (a + (1 # 2))) as H2. rewrite inject_Z_plus in H2.
  change (inject_Z 1) with 1%Q in H2.
  rewrite (Qfloor_unique (a + inject_Z z + (1 # 2)) (Qfloor (a + (1 # 2)) + z));
    rewrite inject_Z_plus; [reflexivity|lra..].
Qed.

(** ** Sums over a list of children *)

Definition total {A} (h : A -> Q) (l : list A) : Q := nsum (map h l).

Lemma total_cons {A} (h : A -> Q) x l : (total h (x :: l) == h x + total h l)%Q.
Proof. unfold total. simpl. apply nsum_cons. Qed.

Lemma total_le {A} (h1 h2 : A -> Q) l :
  Forall (fun x => h1 x <= h2 x)%Q l -> (total h1 l <= total h2 l)%Q.
Proof.
  induction 1 as [|x l Hx _ IH]; [unfold total; simpl; lra|]. rewrite !total_cons. lra.
Qed.

Lemma total_lt {A} (h1 h2 : A -> Q) l :
  l <> [] -> Forall (fun x => h1 x < h2 x)%Q l -> (total h1 l < total h2 l)%Q.
Proof.
  intros Hne H. destruct H as [|x l Hx H]; [done|]. rewrite !total_cons.
  assert (total h1 l <= total h2 l)%Q; [|lra]. apply total_le. eapply Forall_impl; [exact H|].
  intros y Hy. cbn in Hy. lra.
Qed.

Lemma total_ext {A} (h1 h2 : A -> Q) l :
  Forall (fun x => h1 x == h2 x)%Q l -> (total h1 l == total h2 l)%Q.
Proof.
  induction 1 as [|x l Hx _ IH]; [reflexivity|]. by rewrite !total_cons, Hx, IH.
Qed.

Lemma total_plus {A} (h1 h2 : A -> Q) l :
  (total (fun x => h1 x + h2 x)%Q l == total h1 l + total h2 l)%Q.
Proof. induction l as [|x l IH]; [reflexivity|]. rewrite !total_cons, IH. lra. Qed.

Lemma total_scale {A} (k : Q) (h : A -> Q) l : (total (fun x => h x * k)%Q l == total h l * k)%Q.
Proof. unfold total. rewrite <- nsum_scale, map_map. reflexivity. Qed.

Lemma total_filter {A} (h : A -> Q) (P : A -> Prop) `{!forall x, Decision (P x)} l :
  (total h (filter P l) == total (fun x => if decide (P x) then h x else 0)%Q l)%Q.
Proof.
  induction l as [|x l IH]; [reflexivity|]. rewrite total_cons. destruct (decide (P x)).
  - rewrite filter_cons_True, total_cons, IH by done. reflexivity.
  - rewrite filter_cons_False, IH by done. lra.
Qed.

Lemma total_nonneg {A} (h : A -> Q) l : Forall (fun x => 0 <= h x)%Q l -> (0 <= total h l)%Q.
Proof.
  induction 1 as [|x l Hx _ IH]; [apply Qle_refl|]. rewrite total_cons. lra.
Qed.

(** ** The waterfill *)

(** The shape of the loop's state: positive weights, minimums no less than 0,
    clamped children fixed at their minimum. *)
Definition fill_ok (f : Fill Q) : Prop :=
  (0 < f_weight f)%Q /\ (0 <= f_min f)%Q /\ (f_clamped f = true -> f_frac f = f_min f).

(** What the waterfill owes one child. *)
Definition served (f : Fill Q) (x : Q) : Prop :=
  (0 <= x)%Q /\ (f_min f - (1 # 1000000000) <= x)%Q.

(** The part of the span the clamped children take. *)
Definition taken (f : Fill Q) : Q := if f_clamped f then f_min f else 0.

Section Pass.
  Variables (remaining : Q) (fs : list (Fill Q)).
  Hypotheses (Hok : Forall fill_ok fs) (Hact : active fs <> [])
    (Hfit : (total f_min (active fs) <= remaining)%Q).

Let aw := nsum (map f_weight (active fs)).
Let share (f : Fill Q) : Q := (f_weight f / aw * remaining)%Q.
Let pinned (f : Fill Q) : bool := negb (f_clamped f) && nltb (share f) (nsub (f_min f) n1e9).

Lemma active_ok : Forall fill_ok (active fs).
Proof. unfold active. rewrite Forall_forall in *. intros f Hf. apply list_elem_of_filter in Hf as [_ Hf]. auto. Qed.

Lemma active_weight_pos : (0 < aw)%Q.
Proof.
  unfold aw. apply nsum_pos; [|by destruct (active fs)]. rewrite Forall_map.
  eapply Forall_impl; [apply active_ok|]. by intros f [].
Qed.

Lemma remaining_nonneg : (0 <= remaining)%Q.
Proof.
  eapply Qle_trans; [|exact Hfit]. apply total_nonneg. eapply Forall_impl; [apply active_ok|]. by intros f (_ & ? & _).
Qed.

Lemma shares_sum : (total share (active fs) == remaining)%Q.
Proof.
  unfold share. rewrite (total_scale remaining (fun f => f_weight f / aw)%Q).
  rewrite (total_scale (/ aw)%Q f_weight). unfold total. fold aw.
  pose proof active_weight_pos. field. lra.
Qed.

Lemma share_nonneg f : fill_ok f -> (0 <= share f)%Q.
Proof.
  intros (Hw & _ & _). unfold share. pose proof active_weight_pos. pose proof remaining_nonneg.
  apply Qmult_le_0_compat; [|done]. apply Qle_shift_div_l; lra.
Qed.

(** Some active child is not pinned. *)
Lemma not_all_pinned : ~ Forall (fun f => pinned f = true) (active fs).
Proof.
  intros Hall. assert (total share (active fs) < total f_min (active fs))%Q.
  { apply total_lt; [done|]. eapply Forall_impl; [exact Hall|]. intros f Hf.
    apply andb_true_iff in Hf as [_ Hf]. cbn in Hf. apply Qltb_lt in Hf. cbn in Hf. lra. }
  rewrite shares_sum in H. lra.
Qed.

(** The state after the pass. *)
Let pass (f : Fill Q) : Fill Q := if pinned f then mkFill (f_weight f) (f_min f) true (f_min f) else f.

Lemma pass_ok : Forall fill_ok (map pass fs).
Proof.
  rewrite Forall_map. eapply Forall_impl; [exact Hok|]. intros f (H1 & H2 & H3). unfold pass.
  destruct (pinned f); by split_and!.
Qed.

Lemma pinned_unclamped f : pinned f = true -> f_clamped f = false.
Proof. intros H. apply andb_true_iff in H as [H _]. by apply negb_true_iff. Qed.

Lemma active_pass :
  active (map pass fs) = filter (fun f => pinned f = false) (active fs).
Proof.
  unfold active. clear Hok Hact Hfit. set (P := fun f => pinned f = false).
  assert (Hp : forall f, pinned f = true -> f_clamped f = false) by apply pinned_unclamped.
  unfold pass, P. clearbody pinned. induction fs as [|f fs' IH]; [done|]. cbn [map].
  destruct (pinned f) eqn:Ef.
  - specialize (Hp f Ef). rewrite filter_cons_False by (cbn; congruence).
    rewrite (filter_cons_True _ f) by done. rewrite filter_cons_False by congruence. done.
  - destruct (f_clamped f) eqn:Ec.
    + rewrite !filter_cons_False by congruence. done.
    + rewrite !filter_cons_True by done. by rewrite IH.
Qed.

Lemma active_pass_nonempty : active (map pass fs) <> [].
Proof.
  rewrite active_pass. intros E. apply not_all_pinned. rewrite Forall_forall. intros f Hf.
  destruct (pinned f) eqn:Ef; [done|]. exfalso.
  assert (Hin : f ∈ filter (fun f => pinned f = false) (active fs)) by by apply list_elem_of_filter.
  rewrite E in Hin. by apply elem_of_nil in Hin.
Qed.

Lemma pinned_min_split :
  (total f_min (active fs) == total f_min (filter pinned fs) + total f_min (active (map pass fs)))%Q.
Proof.
  rewrite active_pass. unfold active. rewrite !total_filter, <- total_plus.
  apply total_ext. rewrite Forall_forall. intros f _.
  pose proof (pinned_unclamped f) as Hp. destruct (pinned f) eqn:Ef;
    repeat case_decide; simpl in *; try done; try lra; exfalso; auto.
Qed.

Lemma pass_fits : (total f_min (active (map pass fs)) <= remaining - total f_min (filter pinned fs))%Q.
Proof. pose proof pinned_min_split. lra. Qed.

Lemma taken_pass : (total taken (map pass fs) == total taken fs + total f_min (filter pinned fs))%Q.
Proof.
  rewrite total_filter, <- total_plus. unfold total at 1. rewrite map_map.
  change (total (fun f => taken (pass f)) fs == total (fun f => taken f + (if decide (Is_true (pinned f)) then f_min f else 0)) fs)%Q.
  apply total_ext. rewrite Forall_forall. intros f _. unfold pass, taken.
  pose proof (pinned_unclamped f) as Hp. destruct (pinned f) eqn:Ef.
  - rewrite (Hp eq_refl). case_decide; cbn in *; [lra|tauto].
  - case_decide; cbn in *; [tauto|]. destruct (f_clamped f); lra.
Qed.

(** When no child is pinned the active ones get their shares. *)
Lemma last_pass (rem' : Q) :
  (rem' == remaining)%Q -> existsb pinned fs = false ->
  let l := map (fun f => if f_clamped f then f_frac f else (f_weight f / aw * rem')%Q) fs in
  Forall2 served fs l /\ (nsum l == remaining + total taken fs)%Q.
Proof.
  intros Hr Hnp l. unfold l. split.
  - apply Forall2_fmap_r, Forall_Forall2_diag. rewrite Forall_forall. intros f Hf.
    pose proof (proj1 (Forall_forall _ _) Hok f Hf) as Hfok. pose proof Hfok as (Hw & Hm & Hc). unfold served, compose. destruct (f_clamped f) eqn:Ec.
    + rewrite Hc by done. split; lra.
    + rewrite Hr. fold (share f). split; [by apply share_nonneg|].
      assert (Hp : pinned f = false).
      { rewrite <- not_true_iff_false, existsb_exists in Hnp. apply not_true_iff_false. intros Hp.
        apply Hnp. exists f. split; [by apply list_elem_of_In|done]. }
      unfold pinned in Hp. rewrite Ec in Hp. cbn in Hp.
      apply not_true_iff_false in Hp. rewrite Qltb_lt in Hp. lra.
  - rewrite <- shares_sum. unfold active. rewrite total_filter, <- total_plus.
    change (total (fun f => if f_clamped f then f_frac f else (f_weight f / aw * rem')%Q) fs ==
      total (fun f => (if decide (f_clamped f = false) then share f else 0) + taken f)%Q fs)%Q.
    apply total_ext. rewrite Forall_forall. intros f Hf.
    destruct (proj1 (Forall_forall _ _) Hok f Hf) as (_ & _ & Hc).
    unfold taken, share. destruct (f_clamped f) eqn:Ec.
    + rewrite Hc by done. rewrite decide_False by done. lra.
    + rewrite decide_True by done. rewrite Hr. lra.
Qed.

End Pass.

(** The waterfill serves every child and gives out exactly what there is. *)
Lemma waterfill_ok fuel remaining (fs : list (Fill Q)) l :
  Forall fill_ok fs -> active fs <> [] -> (total f_min (active fs) <= remaining)%Q ->
  waterfill fuel remaining fs = Some l ->
  Forall2 served fs l /\ (nsum l == remaining + total taken fs)%Q.
Proof.
  revert remaining fs. induction fuel as [|fuel IH]; intros remaining fs Hok Hact Hfit H; [done|].
  cbn [waterfill] in H. fold (active fs) in H.
  destruct (length (active fs) =? 0)%nat eqn:E0.
  { apply Nat.eqb_eq, length_zero_iff_nil in E0. done. }
  cbv zeta in H. pose proof (active_weight_pos remaining fs Hok Hact Hfit) as Haw.
  assert (Hlt : nltb (W:=Q) n0 (nsum (map f_weight (active fs))) = true) by by apply Qltb_lt.
  rewrite Hlt in H. match type of H with context [existsb ?p fs] => set (pinned := p) in H end.
  destruct (existsb pinned fs) eqn:Ep.
  - apply IH in H; clear IH.
    + destruct H as [H1 H2]. split.
      * rewrite Forall2_map_l in H1. eapply Forall2_impl; [exact H1|]. intros f x Hx. cbn beta in Hx.
        unfold served in *. revert Hx. by destruct (_ && _).
      * rewrite H2. pose proof (taken_pass remaining fs) as Ht. cbv zeta in Ht.
        etransitivity; [apply Qplus_comp; [reflexivity|exact Ht]|].
        change (remaining - total f_min (filter pinned fs) +
          (total taken fs + total f_min (filter pinned fs)) == remaining + total taken fs)%Q. ring.
    + eapply pass_ok; eassumption.
    + eapply active_pass_nonempty; eassumption.
    + eapply pass_fits; eassumption.
  - injection H as <-. apply (last_pass remaining fs Hok Hact Hfit); [|exact Ep].
    assert (Hnil : forall f, f ∈ fs -> pinned f = false).
    { rewrite <- not_true_iff_false, existsb_exists in Ep. intros f Hf. apply not_true_iff_false.
      intros Hp. apply Ep. exists f. split; [by apply list_elem_of_In|done]. }
    match goal with |- context [filter ?P fs] => assert (filter P fs = []) as -> end; [|cbn; ring].
    apply list_filter_nil_of. intros f Hf Hp. apply Is_true_true in Hp. specialize (Hnil f Hf).
    change (pinned f = true) in Hp. congruence.
Qed.

(** ** The fractional allocation *)

Definition mins cs opts dir : list Q := map (fun c => minSpan c.1 dir opts) cs.

Definition opts_ok opts : Prop := (0 <= gap opts)%Q /\ (0 <= minLeaf_width opts)%Q /\ (0 <= minLeaf_height opts)%Q.

Lemma nsum_nonneg (xs : list Q) : Forall (fun x => 0 <= x)%Q xs -> (0 <= nsum xs)%Q.
Proof. intros H. pose proof (total_nonneg (fun x => x) xs H) as G. unfold total in G. by rewrite map_id in G. Qed.

Lemma minSpan_nonneg n dir opts : opts_ok opts -> canonical n = true -> (0 <= minSpan n dir opts)%Q.
Proof.
  intros (Hg & Hmw & Hmh). induction n as [id|d cs IH] using LathNode_ind'; intros Hc; [by destruct dir|].
  apply canonical_Split in Hc as [Hlen Hc].
  assert (Hall : Forall (fun x => 0 <= x)%Q (map (fun c => minSpan c.1 dir opts) cs)).
  { rewrite Forall_map in *. rewrite Forall_forall in *. intros c Hin. apply IH; [done|]. by apply Hc. }
  cbn [minSpan]. case_decide.
  - apply nsum_nonneg in Hall. unfold gaps. cbn. cbn in Hall.
    assert (0 <= gap opts * (Z.of_nat (length cs) - 1 # 1))%Q; [|lra].
    apply Qmult_le_0_compat; [done|]. unfold Qle. cbn. lia.
  - clear -Hall. assert (G : forall a : Q, (0 <= a)%Q ->
      (0 <= foldl nmax a (map (fun c => minSpan c.1 dir opts) cs))%Q).
    { induction Hall as [|x l Hx _ IH]; intros a Ha; [done|]. simpl. apply IH.
      cbn. eapply Qle_trans; [exact Ha|]. apply Q.le_max_l. }
    apply G. apply Qle_refl.
Qed.

(** The children a valid split hands to the allocation. *)
Definition fillable cs : Prop :=
  pos_children cs /\ Forall (fun n => canonical n = true) (map fst cs) /\ cs <> [].

Lemma fill_init_ok cs opts dir :
  fillable cs -> opts_ok opts ->
  let fs := fill_init cs opts dir in
  Forall fill_ok fs /\ active fs = fs /\ fs <> [] /\ (total taken fs == 0)%Q.
Proof.
  intros (Hp & Hc & Hne) Ho fs. unfold fs, fill_init. rewrite Forall_map in Hc. split_and!.
  - rewrite Forall_map. unfold pos_children in Hp. rewrite Forall_forall in *. intros c Hin.
    split_and!; cbn; [by apply Hp|apply minSpan_nonneg; [done|by apply Hc]|done].
  - unfold active. apply filter_all. intros f Hf. apply list_elem_of_fmap in Hf as (c & -> & _). done.
  - by destruct cs.
  - unfold total. rewrite map_map. cbn. clear. induction cs as [|c cs IH]; [reflexivity|].
    simpl. rewrite nsum_cons, IH. reflexivity.
Qed.

Lemma fractional_spans_ok cs (available : Q) opts dir :
  fillable cs -> opts_ok opts -> (0 <= available)%Q ->
  let l := fractional_spans cs available opts dir in
  Forall (fun x => 0 <= x)%Q l /\ (nsum l == available)%Q /\
  ((nsum (mins cs opts dir) <= available)%Q ->
    Forall2 (fun m x => m - (1 # 1000000000) <= x)%Q (mins cs opts dir) l).
Proof.
  intros Hf Ho Ha l. unfold l, fractional_spans. fold (mins cs opts dir). cbv zeta. clear l.
  assert (Hm : Forall (fun m => 0 <= m)%Q (mins cs opts dir)).
  { destruct Hf as (_ & Hc & _). unfold mins. rewrite Forall_map in *. eapply Forall_impl; [exact Hc|].
    intros c Hcc. by apply minSpan_nonneg. }
  destruct (nltb available (nsum (mins cs opts dir))) eqn:Eo; cbn in Eo.
  - apply Qltb_lt in Eo. assert (Hlt : nltb n0 (nsum (mins cs opts dir)) = true).
    { apply Qltb_lt. change (0 < nsum (mins cs opts dir))%Q. lra. }
    rewrite Hlt. set (tm := nsum (mins cs opts dir)) in *. split_and!.
    + rewrite Forall_map. eapply Forall_impl; [exact Hm|]. intros m Hm0. cbn.
      apply Qmult_le_0_compat; [|done]. apply Qle_shift_div_l; cbn in *; lra.
    + change (total (fun m => m / tm * available)%Q (mins cs opts dir) == available)%Q.
      rewrite (total_scale available (fun m => m / tm)%Q), (total_scale (/ tm)%Q (fun m => m)).
      unfold total. rewrite map_id. fold tm. field. lra.
    + intros H. exfalso. lra.
  - apply not_true_iff_false in Eo. rewrite Qltb_lt in Eo. apply Qnot_lt_le in Eo.
    destruct (fill_init_ok cs opts dir Hf Ho) as (Hok & Hact & Hne & Ht).
    destruct (waterfill_total (S (length cs)) available (fill_init cs opts dir)) as (l & Hl & _).
    { pose proof (active_le (fill_init cs opts dir)) as H. unfold fill_init in *. rewrite length_map in H. lia. }
    rewrite Hl. apply waterfill_ok in Hl; [|done|by rewrite Hact|].
    + destruct Hl as [Hs Hsum]. split_and!.
      * apply Forall_forall. intros x Hx. apply list_elem_of_lookup in Hx as [i Hi].
        destruct (Forall2_lookup_r _ _ _ _ _ Hs Hi) as (f & _ & [? _]). done.
      * rewrite Hsum, Ht. lra.
      * intros _. unfold fill_init in Hs. rewrite Forall2_map_l in Hs. unfold mins. apply Forall2_map_l.
        eapply Forall2_impl; [exact Hs|]. by intros c x [_ ?].
    + rewrite Hact. unfold total, fill_init. rewrite map_map. exact Eo.
Qed.

(** ** Whole pixels *)

(** The differences [cumulativeRound] takes: whole, and no further than the
    whole bounds of the fractional entries. *)
Definition pixel_of (f s : Q) : Prop :=
  integral s /\ (forall z, inject_Z z <= f -> inject_Z z <= s)%Q /\ (forall z, f <= inject_Z z -> s <= inject_Z z)%Q.

Lemma round_difference a f : pixel_of f (Qround_js (a + f) - Qround_js a)%Q.
Proof.
  split_and!.
  - apply integral_minus; apply round_integral.
  - intros z Hz. pose proof (round_shift a z). pose proof (round_monotone (a + inject_Z z) (a + f)). lra.
  - intros z Hz. pose proof (round_shift a z). pose proof (round_monotone (a + f) (a + inject_Z z)). lra.
Qed.

#[export] Instance pixel_of_Proper : Proper (Qeq ==> Qeq ==> iff) pixel_of.
Proof.
  intros f1 f2 Hf s1 s2 Hs. unfold pixel_of. rewrite Hs.
  split; intros (H1 & H2 & H3); (split_and!; [done| |]); intros z; specialize (H2 z); specialize (H3 z); lra.
Qed.

Lemma cumulativeRound_from_ok fracs (tgt cum prev : Q) :
  (prev == Qround_js cum)%Q -> (tgt == Qround_js (cum + nsum fracs))%Q -> fracs <> [] ->
  Forall2 pixel_of fracs (cumulativeRound_from fracs tgt cum prev) /\
  (nsum (cumulativeRound_from fracs tgt cum prev) == tgt - prev)%Q.
Proof.
  revert cum prev. induction fracs as [|f fracs IH]; intros cum prev Hp Ht Hne; [done|].
  cbn [cumulativeRound_from]. destruct fracs as [|f' fracs].
  - cbn [cumulativeRound_from]. rewrite nsum_cons, nsum_nil in *. split; [|cbn; lra].
    constructor; [|constructor]. cbn. rewrite Ht, Hp, Qplus_0_r. apply round_difference.
  - destruct (IH (nadd cum f) (nround (nadd cum f))) as [IH1 IH2]; [reflexivity| |done|].
    + rewrite Ht. rewrite (nsum_cons f). cbn [nadd Q_num]. f_equiv. lra.
    + split.
      * constructor; [|exact IH1]. cbn. rewrite Hp. apply round_difference.
      * rewrite nsum_cons, IH2. cbn. lra.
Qed.

Lemma cumulativeRound_ok fracs (tot : Q) :
  (nsum fracs == tot)%Q -> fracs <> [] ->
  Forall2 pixel_of fracs (cumulativeRound fracs tot) /\ (nsum (cumulativeRound fracs tot) == Qround_js tot)%Q.
Proof.
  intros Hs Hne. unfold cumulativeRound. cbn [nround Q_num].
  destruct (cumulativeRound_from_ok fracs (Qround_js tot) n0 n0) as [H1 H2]; [reflexivity| |done|].
  - f_equiv. rewrite Hs. cbn. lra.
  - split; [exact H1|]. rewrite H2. cbn. lra.
Qed.

(** ** What a split's children get *)

Definition available cs (span : Q) opts : Q := available_span cs span opts.

Lemma available_nonneg cs span opts : (0 <= available cs span opts)%Q.
Proof. unfold available, available_span. cbn. apply Q.le_max_l. Qed.

Lemma allocate_ok cs (span : Q) opts dir :
  fillable cs -> opts_ok opts ->
  let spans := allocateChildSpans cs span opts dir in
  let av := available_span cs span opts in
  Forall integral spans /\ Forall (fun s => 0 <= s)%Q spans /\ (nsum spans == Qround_js av)%Q /\
  ((nsum (mins cs opts dir) <= av)%Q ->
    Forall2 (fun m s => forall z, inject_Z z <= m - (1 # 1000000000) -> inject_Z z <= s)%Q (mins cs opts dir) spans).
Proof.
  intros Hf Ho spans av. unfold spans, allocateChildSpans. fold av.
  destruct (fractional_spans_ok cs av opts dir Hf Ho) as (H0 & Hs & Hm); [apply available_nonneg|].
  set (fr := fractional_spans cs av opts dir) in *.
  destruct (cumulativeRound_ok fr av Hs) as [Hp Hsum].
  { intros E. assert (Hl : length fr = length cs) by apply fractional_spans_length.
    destruct Hf as (_ & _ & Hne). rewrite E in Hl. by destruct cs. }
  split_and!; [| |done|].
  - apply Forall_forall. intros s Hin. apply list_elem_of_lookup in Hin as [i Hi].
    destruct (Forall2_lookup_r _ _ _ _ _ Hp Hi) as (f & _ & [? _]). done.
  - apply Forall_forall. intros s Hin. apply list_elem_of_lookup in Hin as [i Hi].
    destruct (Forall2_lookup_r _ _ _ _ _ Hp Hi) as (f & Hif & (_ & Hlo & _)). apply (Hlo 0%Z).
    rewrite Forall_lookup in H0. by apply (H0 i).
  - intros Hfit. specialize (Hm Hfit). apply Forall2_lookup. intros i.
    pose proof (Forall2_length _ _ _ Hm) as L1. pose proof (Forall2_length _ _ _ Hp) as L2.
    destruct (mins cs opts dir !! i) as [m|] eqn:Ei.
    + destruct (Forall2_lookup_l _ _ _ _ _ Hm Ei) as (f & Hif & Hmf).
      destruct (Forall2_lookup_l _ _ _ _ _ Hp Hif) as (s & His & (_ & Hlo & _)). rewrite His.
      constructor. intros z Hz. apply Hlo. lra.
    + apply lookup_ge_None in Ei. rewrite (proj2 (lookup_ge_None _ _)) by lia. constructor.
Qed.

(** The spans [allocateChildSpans] gives the children of a valid split are
    whole pixels, not negative, and with the gaps they add up to the span
    exactly (or to 0 when the gaps alone exceed it) when the span and the gap
    are whole.  When the minimums fit, every child gets at least its minimum,
    up to the last whole pixel below it less 1e-9. *)
Theorem allocateChildSpans_fills cs (span : Q) opts dir :
  fillable cs -> opts_ok opts -> integral span -> integral (gap opts) ->
  let spans := allocateChildSpans cs span opts dir in
  Forall (fun s => integral s /\ 0 <= s)%Q spans /\
  (nsum spans == Qmax 0 (span - gaps opts cs))%Q /\
  ((nsum (mins cs opts dir) <= span - gaps opts cs)%Q ->
    Forall2 (fun m s => inject_Z (Qfloor (m - (1 # 1000000000))) <= s)%Q (mins cs opts dir) spans).
Proof.
  intros Hf Ho Hs Hg spans. destruct (allocate_ok cs span opts dir Hf Ho) as (Hi & H0 & Hsum & Hm).
  fold spans in Hi, H0, Hsum, Hm. split_and!.
  - rewrite Forall_lookup in *. eauto.
  - rewrite Hsum. apply round_of_integral. unfold available_span. cbn [nmax nsub n0 nlit Q_num].
    assert (integral (span - gaps opts cs)%Q).
    { apply integral_minus; [done|]. apply integral_mult; [done|]. apply integral_Z. }
    destruct (Q.max_spec 0 (span - gaps opts cs)) as [[_ E]|[_ E]]; rewrite E; [done|apply (integral_Z 0)].
  - intros Hfit. eapply Forall2_impl; [apply Hm|].
    + eapply Qle_trans; [exact Hfit|]. apply Q.le_max_r.
    + intros m s H. apply H, Qfloor_le.
Qed.

Lemma allocateChildSpans_fills_witness :
  let cs := [(Leaf "a"%string, 1 # 3); (Leaf "b"%string, 2 # 3)] in
  let opts := mkOpts 4%Q 40%Q 30%Q in
  (nsum (allocateChildSpans cs 101 opts Row) == Qmax 0 (101 - gaps opts cs))%Q.
Proof.
  intros cs opts. refine (proj1 (proj2 (allocateChildSpans_fills cs 101 opts Row _ _ _ _))).
  - split; [|split]; [repeat constructor|repeat constructor|discriminate].
  - split; [|split]; vm_compute; discriminate.
  - exists 101%Z. reflexivity.
  - exists 4%Z. reflexivity.
Defined.

(** The waterfill loop of [allocateChildSpans] terminates for every number
    type, NaN and infinities included: one pass more than there are children
    always suffices, and every child gets an entry. *)
Theorem waterfill_terminates {W} `{JSNum W} (cs : list (LathChild W)) (available : W) (opts : LayoutOpts W) dir :
  exists l, waterfill (S (length cs)) available (fill_init cs opts dir) = Some l /\ length l = length cs.
Proof.
  destruct (waterfill_total (S (length cs)) available (fill_init cs opts dir)) as (l & Hl & Hlen).
  - pose proof (active_le (fill_init cs opts dir)) as Ha. unfold fill_init in *. rewrite length_map in Ha. lia.
  - exists l. split; [done|]. rewrite Hlen. unfold fill_init. by rewrite length_map.
Qed.
