(* ===== verification/LathOps.v ===== *)
(** * Lath operations (lib/src/lib/lath/ops.ts, drop-target.ts)

    The pure tree transforms with their restore tokens and drop targets.  Each
    returns the tree and the [ok] flag of the source's [{ tree, ok }] result;
    a rejected operation returns its input tree. *)
From Stdlib Require Import ZArith QArith Qround Qabs Lqa Lia.
From Stdlib Require Import QArith.
From S2P Require Import Prelude JsNum LathModel LathStructure LathWeights LathLayout.

(** [EdgeDropTarget]; [range] is the half-open child range of the split at [path]. *)
Record EdgeDropTarget := mkEdgeTarget {
  et_path : list nat; et_edge : Edge; et_range : option (Z * Z) }.

Inductive DropTarget :=
  | TEdge (target : EdgeDropTarget)
  | TSwap (leaf : LeafId).

(** [InsertSize]: a raw weight, or ['half']. *)
Inductive InsertSize (W : Type) := SizeWeight (w : W) | SizeHalf.
Arguments SizeWeight {W} w.
Arguments SizeHalf {W}.

(** The [share] argument of [insertBesideNode]. *)
Inductive Share := Renormalize | KeepSiblings | Halve.

(** [RestoreToken], after the [typeof] checks of [isRestoreToken]: an absent or
    [null] field is [None]. *)
Record RestoreToken (W : Type) := mkToken {
  tok_leafId : LeafId;
  tok_weight : W;
  tok_siblingId : option LeafId;
  tok_siblingLeafIds : option (list LeafId);
  tok_siblingFingerprint : option string;
  tok_edge : Edge;
  tok_index : Z;
  tok_fingerprint : option string }.
Arguments mkToken {W} _ _ _ _ _ _ _ _.
Arguments tok_leafId {W} _.
Arguments tok_weight {W} _.
Arguments tok_siblingId {W} _.
Arguments tok_siblingLeafIds {W} _.
Arguments tok_siblingFingerprint {W} _.
Arguments tok_edge {W} _.
Arguments tok_index {W} _.
Arguments tok_fingerprint {W} _.

Inductive Tier := Exact | Neighbor | Fallback.

(** The [opts] of [restore]. *)
Record RestoreOpts (W : Type) := mkRestoreOpts {
  ro_fallbackRef : option LeafId;
  ro_rect : option (Rect W);
  ro_layoutOpts : option (LayoutOpts W) }.
Arguments mkRestoreOpts {W} _ _ _.
Arguments ro_fallbackRef {W} _.
Arguments ro_rect {W} _.
Arguments ro_layoutOpts {W} _.

Section DropTargets.
  Context {W : Type} `{N : JSNum W}.
  Implicit Types (n : LathNode W) (t : LathTree W) (cs : list (LathChild W)).

(** The replacement [materializeTarget] puts at the target's path: the children
    from [a] to [b] grouped under a split of their own. *)
Definition grouped (d : Dir) cs (a b : nat) : LathNode W :=
  let selected := slice a b cs in
  Split d (take a cs ++
    (Split d (normalizeWeights selected), nsum (map snd selected)) :: drop b cs).

Definition materializeTarget t (target : EdgeDropTarget) : option (LathTree W * list nat) :=
  match nodeAtPath t (et_path target), root t with
  | Some node, Some r =>
      match et_range target with
      | None => Some (t, et_path target)
      | Some (start, stop) =>
          match node with
          | Leaf _ => None
          | Split d cs =>
              if (start <? 0)%Z || (Z.of_nat (length cs) <? stop)%Z || (stop - start <? 2)%Z
              then None
              else if (stop - start =? Z.of_nat (length cs))%Z then Some (t, et_path target)
              else
                let a := Z.to_nat start in let b := Z.to_nat stop in
                Some (mkTree (Some (replaceAtPath r (et_path target) (grouped d cs a b))),
                      et_path target ++ [a])
          end
      end
  | _, _ => None
  end.

(** What the [walk] of [targetByLeafSet] records at one node, from the leaves of
    its children ([parts]). *)
Definition target_visit (wanted : gset LeafId) (edge : Edge) (is_split : bool)
    (parts : list (list LeafId)) (path : list nat) (found : option EdgeDropTarget)
    : option EdgeDropTarget :=
  let ids := concat parts in
  if (length ids =? size wanted)%nat && forallb (fun id => bool_decide (id ∈ wanted)) ids
  then Some (mkEdgeTarget path edge None)
  else if is_split then
    let counts := map (fun ids => length (filter (fun id => id ∈ wanted) ids)) parts in
    match find_index (fun count => 0 <? count)%nat counts,
          last_index (fun count => 0 <? count)%nat counts with
    | Some first, Some last =>
        if (first <? last)%nat && (foldl Nat.add 0 counts =? size wanted)%nat &&
           forallb (fun cp => (0 <? cp.1)%nat && (cp.1 =? length cp.2)%nat)
             (slice first (S last) (zip counts parts))
        then Some (mkEdgeTarget path edge (Some (Z.of_nat first, Z.of_nat (S last))))
        else found
    | _, _ => found
    end
  else found.

(** The [walk] of [targetByLeafSet], which returns the node's leaves and
    overwrites [found]; here it threads [found] alone. *)
Fixpoint target_walk (wanted : gset LeafId) (edge : Edge) n (path : list nat)
    (found : option EdgeDropTarget) : option EdgeDropTarget :=
  match n with
  | Leaf id => target_visit wanted edge false [[id]] path found
  | Split _ cs =>
      target_visit wanted edge true (map (fun c => node_leaves c.1) cs) path
        (fold_idx (fun i c found => target_walk wanted edge c.1 (path ++ [i]) found) 0 cs found)
  end.

Definition targetByLeafSet t (wanted : gset LeafId) (edge : Edge) : option EdgeDropTarget :=
  if (size wanted =? 0)%nat then None
  else match root t with
       | Some n => target_walk wanted edge n [] None
       | None => None
       end.

Definition targetRect t (rect : Rect W) (opts : LayoutOpts W) (target : EdgeDropTarget)
    : option (Rect W) :=
  match et_range target with
  | None => nodeRectAtPath t rect opts (et_path target)
  | Some (start, stop) =>
      match materializeTarget t target with
      | None => None
      | Some _ =>
          match nodeRectAtPath t rect opts (et_path target ++ [Z.to_nat start]),
                nodeRectAtPath t rect opts (et_path target ++ [Z.to_nat (stop - 1)]) with
          | Some first, Some last =>
              Some (mkRect (rect_x first) (rect_y first)
                (nsub (nadd (rect_x last) (rect_width last)) (rect_x first))
                (nsub (nadd (rect_y last) (rect_height last)) (rect_y first)))
          | _, _ => None
          end
      end
  end.

End DropTargets.

(** The operations of ops.ts under their own names. *)
Module Ops.
Section Ops.
  Context {W : Type} `{N : JSNum W}.
  Implicit Types (n : LathNode W) (t : LathTree W) (cs : list (LathChild W)).

Definition mkLeaf (id : LeafId) : LathNode W := Leaf id.

(** The [walk] of [findSplitPathByFingerprint]: the first split in pre-order. *)
Fixpoint find_split (fingerprint : string) n : option (list nat) :=
  match n with
  | Leaf _ => None
  | Split _ cs =>
      if structureFingerprint n =s? fingerprint then Some []
      else match first_at (fun c => find_split fingerprint c.1) 0 cs with
           | Some (i, p) => Some (i :: p)
           | None => None
           end
  end.

Definition findSplitPathByFingerprint t (fingerprint : string) : option (list nat) :=
  match root t with Some n => find_split fingerprint n | None => None end.

(** The two-child split an edge asks for: [fresh] before or after [old]. *)
Definition edge_pair (edge : Edge) (fresh old : LathChild W) : LathNode W :=
  Split (edgeAxis edge) (if edgeIsBefore edge then [fresh; old] else [old; fresh]).

Definition split t (at_ : LeafId) (edge : Edge) (newId : LeafId) : LathTree W * bool :=
  match root t with
  | None => (t, false)
  | Some r =>
      match findLeafPath t at_ with
      | None => (t, false)
      | Some atPath =>
          match findLeafPath t newId with
          | Some _ => (t, false)
          | None =>
              let nested := edge_pair edge (mkLeaf newId, nhalf) (mkLeaf at_, nhalf) in
              (mkTree (normalize (replaceAtPath r atPath nested)), true)
          end
      end
  end.

(** The edge of its sibling a removed leaf sat on. *)
Definition removed_edge (d : Dir) (before : bool) : Edge :=
  match before, d with
  | true, Row => ERight | true, Col => EBottom
  | false, Row => ELeft | false, Col => ETop
  end.

(** [children[before ? idx - 1 : idx + 1].node]. *)
Definition sibling_index (idx : nat) : nat := if (0 <? idx)%nat then idx - 1 else idx + 1.

(** The token [remove] records for child [idx] of a split. *)
Definition removal_token (id : LeafId) (d : Dir) cs (idx : nat) (weight : W) (sib : LathNode W)
    : RestoreToken W :=
  mkToken id weight
    (head (node_leaves sib)) (Some (node_leaves sib)) (Some (structureFingerprint sib))
    (removed_edge d (0 <? idx)%nat) (Z.of_nat idx)
    (Some (structureFingerprint (Split d (remove_at idx cs)))).

Definition root_token (id : LeafId) : RestoreToken W :=
  mkToken id n1 None None None ERight 0 None.

(** [remove].  A leaf found at a nonempty path has a split parent with at least
    two children; the other cases cannot be reached and reject. *)
Definition remove t (id : LeafId) : LathTree W * bool * option (RestoreToken W) :=
  match root t, findLeafPath t id with
  | Some r, Some [] => (mkTree None, true, Some (root_token id))
  | Some r, Some path =>
      let parentPath := removelast path in
      let idx := List.last path 0%nat in
      match nodeAtPath t parentPath with
      | Some (Split d cs) =>
          match cs !! idx, cs !! sibling_index idx with
          | Some c, Some s =>
              (mkTree (normalize (replaceAtPath r parentPath (Split d (remove_at idx cs)))),
               true, Some (removal_token id d cs idx c.2 s.1))
          | _, _ => (t, false, None)
          end
      | _ => (t, false, None)
      end
  | _, _ => (t, false, None)
  end.

(** The numeric checks of [isRestoreToken]; its [typeof] checks hold of every
    value of the record type. *)
Definition isRestoreToken (token : RestoreToken W) : bool :=
  nis_finite (tok_weight token) && nltb n0 (tok_weight token) &&
  (nltb (tok_weight token) n1 ||
   (neqb (tok_weight token) n1 && bool_decide (tok_siblingId token = None) &&
    bool_decide (tok_fingerprint token = None))) &&
  (0 <=? tok_index token)%Z.

Definition replace t (oldId newId : LeafId) : LathTree W * bool :=
  match root t, findLeafPath t oldId with
  | Some r, Some path =>
      match findLeafPath t newId with
      | Some _ => (t, false)
      | None => (mkTree (Some (replaceAtPath r path (mkLeaf newId))), true)
      end
  | _, _ => (t, false)
  end.

Definition swap t (a b : LeafId) : LathTree W * bool :=
  if a =s? b then (t, false)
  else
    match root t, findLeafPath t a, findLeafPath t b with
    | Some r, Some pa, Some pb =>
        (mkTree (Some (replaceAtPath (replaceAtPath r pa (mkLeaf b)) pb (mkLeaf a))), true)
    | _, _, _ => (t, false)
    end.

(** The sibling list [insertBesideNode] builds at the target's parent level. *)
Definition inserted_children (share : Share) cs (idx : nat) (before : bool) (newId : LeafId) (w : W)
    : list (LathChild W) :=
  let scale := match share with KeepSiblings => nsub n1 w | _ => n1 end in
  let children := map (fun c => (c.1, nmul c.2 scale)) cs in
  let at_ := if before then idx else S idx in
  match share, children !! idx with
  | Halve, Some c =>
      let weight := ndiv c.2 (nlit 2 1) in
      splice_in at_ (mkLeaf newId, weight) (<[idx := (c.1, weight)]> children)
  | _, _ => splice_in at_ (mkLeaf newId, w) children
  end.

Definition insertBesideNode t (targetPath : list nat) (edge : Edge) (newId : LeafId) (w : W)
    (share : Share) : LathTree W :=
  match root t with
  | None => t
  | Some r =>
      let nest node := edge_pair edge (mkLeaf newId, w) (node, nsub n1 w) in
      match targetPath with
      | [] => mkTree (normalize (nest r))
      | _ =>
          let parentPath := removelast targetPath in
          let idx := List.last targetPath 0%nat in
          let nested :=
            match nodeAtPath t targetPath with
            | Some targetNode => mkTree (normalize (replaceAtPath r targetPath (nest targetNode)))
            | None => t
            end in
          match nodeAtPath t parentPath with
          | Some (Split d cs) =>
              if decide (d = edgeAxis edge) then
                mkTree (normalize (replaceAtPath r parentPath
                  (Split d (normalizeWeights
                    (inserted_children share cs idx (edgeIsBefore edge) newId w)))))
              else nested
          | _ => nested
          end
      end
  end.

Definition size_is_nan (size : InsertSize W) : bool :=
  match size with SizeWeight w => nis_nan w | SizeHalf => false end.

(** [size === 'half' ? 0.5 : Math.min(Math.max(size, eps), 1 - eps)]. *)
Definition size_weight (size : InsertSize W) : W :=
  match size with
  | SizeHalf => nhalf
  | SizeWeight w => nmin (nmax w n1e6) (nsub n1 n1e6)
  end.

Definition is_leaf_at t (path : list nat) : bool :=
  match nodeAtPath t path with Some (Leaf _) => true | _ => false end.

Definition insertImpl t (id : LeafId) (target : DropTarget) (size : InsertSize W)
    (keepSiblings : bool) : LathTree W * bool :=
  match target with
  | TSwap _ => (t, false)
  | TEdge et =>
      if size_is_nan size then (t, false)
      else match root t with
      | None => (t, false)
      | Some _ =>
          match findLeafPath t id with
          | Some _ => (t, false)
          | None =>
              match materializeTarget t et with
              | None => (t, false)
              | Some (t', path) =>
                  let halve := match size with SizeHalf => is_leaf_at t' path | _ => false end in
                  let share := if halve then Halve
                    else if keepSiblings then KeepSiblings else Renormalize in
                  (insertBesideNode t' path (et_edge et) id (size_weight size) share, true)
              end
          end
      end
  end.

Definition insert t (id : LeafId) (target : DropTarget) (size : InsertSize W) : LathTree W * bool :=
  insertImpl t id target size false.

Definition sameLeafSet (a b : list LeafId) : bool :=
  let set : gset LeafId := list_to_set b in
  (length a =? size set)%nat && forallb (fun l => bool_decide (l ∈ set)) a.

(** The leaves but [id]. *)
Definition leaves_without (id : LeafId) (ids : list LeafId) : list LeafId :=
  filter (fun l => l <> id) ids.

Definition moveSize t (id : LeafId) (target : EdgeDropTarget) : option (InsertSize W) :=
  match findLeafPath t id, materializeTarget t target with
  | Some idPath, Some (t', path) =>
      let ids := match nodeAtPath t' path with Some n => node_leaves n | None => [] end in
      if (length (leaves_without id ids) =? 1)%nat then Some SizeHalf
      else
        match idPath with
        | [] => Some (SizeWeight n1)
        | _ =>
            match nodeAtPath t (removelast idPath) with
            | Some (Split _ cs) =>
                match cs !! List.last idPath 0%nat with
                | Some c => Some (SizeWeight c.2)
                | None => None
                end
            | _ => None
            end
        end
  | _, _ => None
  end.

(** [ownSplit]: the destination [at_] lies in the leaf's own split [parent]. *)
Definition own_split (parent : option (LathNode W)) (id : LeafId)
    (at_ : option (LathTree W * list nat)) : bool :=
  match parent, at_ with
  | Some (Split pd pcs), Some (t', (_ :: _) as path) =>
      match nodeAtPath t' (removelast path) with
      | Some (Split d cs) =>
          bool_decide (d = pd) &&
          sameLeafSet (node_leaves (Split d cs)) (leaves_without id (node_leaves (Split pd pcs)))
      | _ => false
      end
  | _, _ => false
  end.

Definition same_arrangement t1 t2 : bool :=
  match root t1, root t2 with
  | Some n1, Some n2 => structureFingerprint n1 =s? structureFingerprint n2
  | _, _ => false
  end.

Definition move t (id : LeafId) (target : DropTarget) : LathTree W * bool :=
  match target with
  | TSwap leaf => swap t id leaf
  | TEdge et =>
      match findLeafPath t id, materializeTarget t et with
      | Some idPath, Some (t', path) =>
          let targetLeaves := match nodeAtPath t' path with Some n => node_leaves n | None => [] end in
          if bool_decide (targetLeaves = [id]) then (t, false)
          else
            let parent := match idPath with [] => None | _ => nodeAtPath t (removelast idPath) end in
            match moveSize t id et with
            | None => (t, false)
            | Some size =>
                let t2 := (remove t id).1.1 in
                let targetSet : gset LeafId := list_to_set (leaves_without id targetLeaves) in
                match targetByLeafSet t2 targetSet (et_edge et) with
                | None => (t, false)
                | Some destination =>
                    let ownSplit := own_split parent id (materializeTarget t2 destination) in
                    let r := insertImpl t2 id (TEdge destination) size ownSplit in
                    if negb r.2 then (t, false)
                    else if same_arrangement r.1 t then (t, true) else r
                end
            end
      | _, _ => (t, false)
      end
  end.

(** The exact tier of [restore] at the split found by its fingerprint. *)
Definition restore_children cs (token : RestoreToken W) : list (LathChild W) :=
  let scaled := map (fun c => (c.1, nmul c.2 (nsub n1 (tok_weight token)))) cs in
  let insertAt := Nat.min (Z.to_nat (tok_index token)) (length scaled) in
  splice_in insertAt (mkLeaf (tok_leafId token), tok_weight token) scaled.

(** The exact tier through the surviving sibling subtree, when the removed
    parent collapsed. *)
Definition restore_beside_subtree t (token : RestoreToken W) : option (LathTree W) :=
  match tok_siblingLeafIds token, tok_siblingFingerprint token with
  | Some ids, Some fp =>
      if (1 <? length ids)%nat && negb (fp =s? EmptyString) then
        match targetByLeafSet t (list_to_set ids) (tok_edge token) with
        | None => None
        | Some target =>
            match materializeTarget t target with
            | None => None
            | Some (t', path) =>
                match nodeAtPath t' path with
                | None => None
                | Some sibling =>
                    if structureFingerprint sibling =s? fp then
                      let r := insert t (tok_leafId token) (TEdge target)
                                 (SizeWeight (tok_weight token)) in
                      if r.2 then Some r.1 else None
                    else None
                end
            end
        end
      else None
  | _, _ => None
  end.

(** The exact tier. *)
Definition restore_exact t (token : RestoreToken W) : option (LathTree W) :=
  match tok_siblingId token, tok_fingerprint token, root t with
  | Some _, Some fp, Some r =>
      match findSplitPathByFingerprint t fp with
      | Some parentPath =>
          match nodeAtPath t parentPath with
          | Some (Split d cs) =>
              Some (mkTree (normalize (replaceAtPath r parentPath
                (Split d (normalizeWeights (restore_children cs token))))))
          | _ => None
          end
      | None => restore_beside_subtree t token
      end
  | _, _, _ => None
  end.

(** The neighbor tier. *)
Definition restore_neighbor t (token : RestoreToken W) : option (LathTree W) :=
  match tok_siblingId token with
  | Some sib =>
      match findLeafPath t sib with
      | Some _ => let r := split t sib (tok_edge token) (tok_leafId token) in
                  if r.2 then Some r.1 else None
      | None => None
      end
  | None => None
  end.

(** The fallback tier. *)
Definition restore_fallback t (token : RestoreToken W) (opts : option (RestoreOpts W))
    : option (LathTree W) :=
  match opts with
  | None => None
  | Some o =>
      match ro_fallbackRef o with
      | Some ref =>
          if ref =s? EmptyString then None
          else match findLeafPath t ref with
          | None => None
          | Some _ =>
              let edge :=
                match ro_rect o, ro_layoutOpts o with
                | Some rect, Some lo => autoEdge t rect ref lo
                | _, _ => ERight
                end in
              let r := split t ref edge (tok_leafId token) in
              if r.2 then Some r.1 else None
          end
      | None => None
      end
  end.

Definition restore t (token : RestoreToken W) (opts : option (RestoreOpts W))
    : LathTree W * bool * option Tier :=
  if negb (isRestoreToken token) || bool_decide (is_Some (findLeafPath t (tok_leafId token)))
  then (t, false, None)
  else if bool_decide (root t = None) then (leafTree (tok_leafId token), true, Some Fallback)
  else match restore_exact t token with
  | Some t' => (t', true, Some Exact)
  | None =>
      match restore_neighbor t token with
      | Some t' => (t', true, Some Neighbor)
      | None =>
          match restore_fallback t token opts with
          | Some t' => (t', true, Some Fallback)
          | None => (t, false, None)
          end
      end
  end.

(** The pixel position [resize] gives the first child of the boundary. *)
Definition resized_span (spanA deltaPx lo hi : W) : W :=
  if nleb lo hi then nmin (nmax (nadd spanA deltaPx) lo) hi else spanA.

Definition resize t (splitPath : list nat) (boundary : Z) (deltaPx : W) (rect : Rect W)
    (opts : LayoutOpts W) : LathTree W * bool :=
  match nodeAtPath t splitPath, root t with
  | Some (Split d cs), Some r =>
      if (boundary <? 0)%Z || (Z.of_nat (length cs) - 1 <=? boundary)%Z ||
         negb (nis_finite deltaPx) then (t, false)
      else
        match nodeRectAtPath t rect opts splitPath with
        | None => (t, false)
        | Some splitRect =>
            let span := rect_span d splitRect in
            let available := nsub span (gaps opts cs) in
            if nleb available n0 then (t, false)
            else
              let spans := allocateChildSpans cs span opts d in
              let a := Z.to_nat boundary in
              match spans !! a, spans !! S a, cs !! a, cs !! S a with
              | Some sa, Some sb, Some ca, Some cb =>
                  let pairSpan := nadd sa sb in
                  let lo := minSpan ca.1 d opts in
                  let hi := nsub pairSpan (minSpan cb.1 d opts) in
                  let nextA := resized_span sa deltaPx lo hi in
                  if neqb nextA sa then (t, true)
                  else
                    let spans' := <[S a := nsub pairSpan nextA]> (<[a := nextA]> spans) in
                    let children := normalizeWeights
                      (zip_with (fun c s => (c.1, nmax s n1e6)) cs spans') in
                    (mkTree (normalize (replaceAtPath r splitPath (Split d children))), true)
              | _, _, _, _ => (t, false)
              end
        end
  | _, _ => (t, false)
  end.

End Ops.
End Ops.

(** ** Concrete panes, trees and rectangles

    The inputs on which the theorems about the tiling engine are instantiated. *)
#[local] Open Scope string_scope.

(** [a] beside a column of [b] over [c]. *)
Definition sample_tree : LathTree Q :=
  mkTree (Some (Split Row
    [(Leaf "a", 1 # 2); (Split Col [(Leaf "b", 1 # 4); (Leaf "c", 3 # 4)], 1 # 2)])).

(** Four panes in three levels. *)
Definition sample_deep : LathTree Q :=
  mkTree (Some (Split Col
    [(Leaf "top", 1 # 3);
     (Split Row [(Leaf "a", 1 # 2); (Split Col [(Leaf "b", 1 # 4); (Leaf "c", 3 # 4)], 1 # 2)], 2 # 3)])).

Definition sample_opts : LayoutOpts Q := mkOpts 4%Q 40%Q 30%Q.
Definition sample_rect : Rect Q := mkRect 0%Q 0%Q 800%Q 600%Q.

(** The same over binary64. *)
Definition sample_float : LathTree SpecFloat.spec_float :=
  mkTree (Some (Split Row
    [(Leaf "a", nhalf); (Split Col [(Leaf "b", nlit 1 4); (Leaf "c", nlit 3 4)], nhalf)])).

(** Deciding that concrete trees are valid. *)
Lemma valid_by_computation (t : LathTree Q) :
  match root t with
  | Some n => canonical n && bool_decide (NoDup (node_leaves n)) && weights_ok n
  | None => true
  end = true -> valid_tree t.
Proof.
  unfold valid_tree, well_formed. destruct (root t) as [n|]; [|done].
  rewrite !andb_true_iff, bool_decide_eq_true. tauto.
Qed.

Lemma well_formed_by_computation {W} (t : LathTree W) :
  match root t with
  | Some n => canonical n && bool_decide (NoDup (node_leaves n))
  | None => true
  end = true -> well_formed t.
Proof.
  unfold well_formed. destruct (root t) as [n|]; [|done].
  by rewrite andb_true_iff, bool_decide_eq_true.
Qed.

(** [sample_deep] without its pane [a], and the token that brings it back. *)
Definition sample_removed : LathTree Q := (Ops.remove sample_deep "a").1.1.
Definition sample_token : RestoreToken Q :=
  match (Ops.remove sample_deep "a").2 with Some token => token | None => Ops.root_token "a" end.
