(* ===== verification/LathOpsFacts.v ===== *)
(** * What the Lath operations do to the tree

    Structural correctness of every operation, for any number type: the result
    is well formed and its leaves are the expected rearrangement. *)
From Stdlib Require Import ZArith List Permutation Lia.
From S2P Require Import Prelude JsNum LathModel LathStructure LathLayout LathOps.

(** The leaf [fresh] placed on [edge] of the leaves [tl]. *)
Definition beside (edge : Edge) (fresh : LeafId) (tl : list LeafId) : list LeafId :=
  if edgeIsBefore edge then fresh :: tl else tl ++ [fresh].

(** The renaming a swap performs. *)
Definition swap_id (a b x : LeafId) : LeafId :=
  if decide (x = a) then b else if decide (x = b) then a else x.

Lemma beside_Permutation edge fresh tl : beside edge fresh tl ≡ₚ fresh :: tl.
Proof. unfold beside. destruct (edgeIsBefore edge); [done|]. by rewrite Permutation_app_comm. Qed.

(** Removing the one occurrence of [id]. *)
Lemma leaves_without_middle id l1 l2 :
  NoDup (l1 ++ id :: l2) -> Ops.leaves_without id (l1 ++ id :: l2) = l1 ++ l2.
Proof.
  intros H. unfold Ops.leaves_without. rewrite filter_app, filter_cons_False by by intros [].
  apply NoDup_app in H as (H1 & Hd & H2). apply NoDup_cons in H2 as [Hn H2].
  rewrite !filter_all; [done| |]; intros x Hx ->; [done|].
  apply (Hd id); [done|]. by left.
Qed.

Section OpsFacts.
  Context {W : Type} `{N : JSNum W}.
  Implicit Types (n m r : LathNode W) (t : LathTree W) (cs : list (LathChild W)) (p : list nat).

(** ** Rebuilding through [normalize] *)

Lemma leaves_normalized n : leaves (mkTree (normalize n)) = node_leaves n.
Proof. unfold leaves. simpl. apply normalize_leaves. Qed.

Lemma well_formed_normalized n : NoDup (node_leaves n) -> well_formed (mkTree (normalize n)).
Proof.
  intros H. unfold well_formed. simpl. destruct (normalize n) as [m|] eqn:E; [|done].
  rewrite (normalize_Some_leaves _ _ E). split; [by eapply normalize_canonical|done].
Qed.

Lemma well_formed_NoDup t : well_formed t -> NoDup (leaves t).
Proof. unfold well_formed, leaves. destruct (root t); [by intros []|constructor]. Qed.

Lemma find_root t id :
  is_Some (findLeafPath t id) <-> exists r, root t = Some r /\ id ∈ node_leaves r.
Proof.
  unfold findLeafPath. destruct (root t) as [r|].
  - rewrite find_leaf_is_Some. split; [by exists r|]. by intros (r' & [= <-] & ?).
  - split; [by intros []|]. by intros (r & ? & _).
Qed.

Lemma findLeafPath_is_Some t id : is_Some (findLeafPath t id) <-> id ∈ leaves t.
Proof.
  unfold findLeafPath, leaves. destruct (root t) as [r|]; [apply find_leaf_is_Some|].
  split; [by intros []|set_solver].
Qed.

Lemma findLeafPath_None t id : findLeafPath t id = None <-> id ∉ leaves t.
Proof. rewrite <- findLeafPath_is_Some, eq_None_not_Some. done. Qed.

Lemma findLeafPath_Some t id p :
  findLeafPath t id = Some p -> exists r, root t = Some r /\ node_at r p = Some (Leaf id).
Proof.
  unfold findLeafPath. destruct (root t) as [r|]; [|done]. intros H.
  exists r. split; [done|]. by apply find_leaf_sound.
Qed.

(** A nonempty path as its parent path and last index. *)
Lemma path_snoc p : p <> [] -> p = removelast p ++ [List.last p 0%nat].
Proof. apply app_removelast_last. Qed.

Lemma removelast_snoc p i : removelast (p ++ [i]) = p.
Proof. apply removelast_last. Qed.

Lemma last_snoc p i : List.last (p ++ [i]) 0%nat = i.
Proof. apply last_last. Qed.

(** The node at a nonempty path is a child of the split at its parent path. *)
Lemma node_at_snoc r p i m :
  node_at r (p ++ [i]) = Some m ->
  exists d cs c, node_at r p = Some (Split d cs) /\ cs !! i = Some c /\ c.1 = m.
Proof.
  rewrite node_at_app. destruct (node_at r p) as [[id|d cs]|]; simpl; [done| |done].
  destruct (cs !! i) as [c|] eqn:Hi; [|done]. intros [= <-]. by exists d, cs, c.
Qed.

(** ** split *)

Lemma node_leaves_edge_pair edge id m (w1 w2 : W) :
  node_leaves (Ops.edge_pair edge (Leaf id, w1) (m, w2)) = beside edge id (node_leaves m).
Proof.
  unfold Ops.edge_pair, beside. destruct (edgeIsBefore edge); simpl; [by rewrite app_nil_r|done].
Qed.

Lemma split_ok t at_ edge newId :
  at_ ∈ leaves t -> newId ∉ leaves t ->
  exists l1 l2 t', Ops.split t at_ edge newId = (t', true) /\
    leaves t = l1 ++ at_ :: l2 /\ leaves t' = l1 ++ beside edge newId [at_] ++ l2.
Proof.
  intros Hat Hnew. unfold Ops.split.
  apply findLeafPath_is_Some in Hat as [p Hp]. rewrite Hp.
  apply findLeafPath_Some in Hp as (r & Hr & Hp). rewrite Hr.
  rewrite (proj2 (findLeafPath_None _ _)) by done.
  destruct (replaceAtPath_leaves _ _ _ Hp) as (l1 & l2 & E1 & E2).
  exists l1, l2. eexists. split; [done|]. unfold leaves at 1. rewrite Hr. split; [done|].
  by rewrite leaves_normalized, E2, node_leaves_edge_pair.
Qed.

Lemma split_rejects t at_ edge newId :
  at_ ∉ leaves t \/ newId ∈ leaves t -> Ops.split t at_ edge newId = (t, false).
Proof.
  intros H. unfold Ops.split. destruct (root t) as [r|] eqn:Hr; [|done].
  destruct (findLeafPath t at_) as [p|] eqn:Ea; [|done].
  destruct (findLeafPath t newId) as [q|] eqn:En; [done|].
  apply findLeafPath_None in En.
  destruct H as [H|H]; [|done]. exfalso. apply H, findLeafPath_is_Some. by eexists.
Qed.

(** ** remove *)

Lemma remove_at_leaves cs i c :
  cs !! i = Some c ->
  children_leaves (remove_at i cs) = children_leaves (take i cs) ++ children_leaves (drop (S i) cs).
Proof. intros _. unfold remove_at. apply children_leaves_app. Qed.

Lemma sibling_index_lt cs i c :
  cs !! i = Some c -> (2 <= length cs)%nat -> is_Some (cs !! Ops.sibling_index i).
Proof.
  intros Hi Hl. apply lookup_lt_is_Some. apply lookup_lt_Some in Hi. unfold Ops.sibling_index.
  destruct (Nat.ltb_spec 0 i); lia.
Qed.

(** What [remove] computes for a leaf below the root. *)
Lemma remove_unfold t r p i d cs c id s :
  root t = Some r -> findLeafPath t id = Some (p ++ [i]) ->
  node_at r p = Some (Split d cs) -> cs !! i = Some c -> cs !! Ops.sibling_index i = Some s ->
  Ops.remove t id =
    (mkTree (normalize (replaceAtPath r p (Split d (remove_at i cs)))), true,
     Some (Ops.removal_token id d cs i c.2 s.1)).
Proof.
  intros Hr Hf Hp Hi Hs. unfold Ops.remove. rewrite Hr, Hf.
  destruct (p ++ [i]) eqn:E; [by destruct p|]. rewrite <- E, removelast_snoc, last_snoc.
  unfold nodeAtPath. by rewrite Hr, Hp, Hi, Hs.
Qed.

Lemma remove_cases t id :
  well_formed t -> id ∈ leaves t ->
  (root t = Some (Leaf id) /\ Ops.remove t id = (mkTree None, true, Some (Ops.root_token id))) \/
  (exists r p i d cs w s,
    root t = Some r /\ findLeafPath t id = Some (p ++ [i]) /\
    node_at r p = Some (Split d cs) /\ cs !! i = Some (Leaf id, w) /\
    cs !! Ops.sibling_index i = Some s /\
    Ops.remove t id =
      (mkTree (normalize (replaceAtPath r p (Split d (remove_at i cs)))), true,
       Some (Ops.removal_token id d cs i w s.1))).
Proof.
  intros Hwf Hin. apply findLeafPath_is_Some in Hin as [p Hp].
  destruct (findLeafPath_Some _ _ _ Hp) as (r & Hr & Hat).
  unfold well_formed in Hwf. rewrite Hr in Hwf. destruct Hwf as [Hcan Hnd].
  destruct (decide (p = [])) as [->|Hne].
  - left. simpl in Hat. simplify_eq. split; [done|]. unfold Ops.remove. by rewrite Hr, Hp.
  - right. rewrite (path_snoc p Hne) in Hp, Hat.
    set (q := removelast p) in *. set (i := List.last p 0%nat) in *.
    destruct (node_at_snoc _ _ _ _ Hat) as (d & cs & [m w] & Hq & Hi & Hm). simpl in Hm. subst m.
    assert (Hlen : (2 <= length cs)%nat).
    { apply (node_at_canonical _ _ _ Hq) in Hcan. by apply canonical_Split in Hcan as [? _]. }
    destruct (sibling_index_lt _ _ _ Hi Hlen) as [s Hs].
    exists r, q, i, d, cs, w, s. split_all; try done.
    by rewrite (remove_unfold t r q i d cs (Leaf id, w) id s).
Qed.

Lemma remove_leaves t id :
  well_formed t -> id ∈ leaves t ->
  leaves (Ops.remove t id).1.1 = Ops.leaves_without id (leaves t) /\ (Ops.remove t id).1.2 = true.
Proof.
  intros Hwf Hin. pose proof (well_formed_NoDup _ Hwf) as Hnd.
  destruct (remove_cases t id Hwf Hin) as [[Hr ->]|(r & p & i & d & cs & w & s & Hr & _ & Hp & Hi & _ & ->)].
  - split; [|done]. unfold leaves. rewrite Hr. simpl. unfold Ops.leaves_without.
    by rewrite filter_cons_False by by intros [].
  - split; [|done]. cbn [fst]. rewrite leaves_normalized. unfold leaves in *. rewrite Hr in *.
    destruct (replaceAtPath_leaves _ _ _ Hp) as (l1 & l2 & E1 & E2).
    rewrite E2. change (node_leaves (Split d (remove_at i cs))) with (children_leaves (remove_at i cs)).
    rewrite (remove_at_leaves _ _ _ Hi).
    change (node_leaves (Split d cs)) with (children_leaves cs) in E1.
    rewrite (children_leaves_middle _ _ _ Hi) in E1. cbn [fst node_leaves] in E1.
    assert (E : node_leaves r = (l1 ++ children_leaves (take i cs)) ++ id ::
      (children_leaves (drop (S i) cs) ++ l2)) by (rewrite E1; by rewrite <- !(assoc_L (++))).
    rewrite E in *. rewrite leaves_without_middle by done. by rewrite <- !(assoc_L (++)).
Qed.

Lemma remove_well_formed t id : well_formed t -> well_formed (Ops.remove t id).1.1.
Proof.
  intros Hwf. destruct (decide (id ∈ leaves t)) as [Hin|Hn].
  - pose proof (remove_leaves t id Hwf Hin) as [Hl _].
    pose proof (well_formed_NoDup _ Hwf) as Hnd.
    destruct (remove_cases t id Hwf Hin) as [[Hr E]|(r & p & i & d & cs & w & s & _ & _ & _ & _ & _ & E)];
      rewrite E in *; [done|]. cbn [fst] in *. apply well_formed_normalized.
    rewrite leaves_normalized in Hl. rewrite Hl. by apply NoDup_filter.
  - apply findLeafPath_None in Hn. unfold Ops.remove. rewrite Hn. by destruct (root t).
Qed.

(** ** replace and swap *)

(** [replace] renames one leaf and changes nothing else. *)
Lemma replace_ok t oldId newId :
  well_formed t -> oldId ∈ leaves t -> newId ∉ leaves t ->
  Ops.replace t oldId newId =
    (mkTree (rename (fun x => if decide (x = oldId) then newId else x) <$> root t), true).
Proof.
  intros Hwf Hin Hnew. unfold Ops.replace.
  apply findLeafPath_is_Some in Hin as [p Hp]. rewrite Hp.
  apply findLeafPath_Some in Hp as (r & Hr & Hp). rewrite Hr.
  rewrite (proj2 (findLeafPath_None _ _)) by done.
  apply well_formed_NoDup in Hwf. unfold leaves in Hwf. rewrite Hr in Hwf.
  do 2 f_equal. simpl. f_equal. unfold Ops.mkLeaf.
  rewrite <- (replace_leaf_rename _ r p oldId) by (done || (intros; by rewrite decide_False)).
  by rewrite decide_True.
Qed.

(** [swap] renames two leaves and changes nothing else. *)
Lemma swap_ok t a b :
  well_formed t -> a <> b -> a ∈ leaves t -> b ∈ leaves t ->
  Ops.swap t a b = (mkTree (rename (swap_id a b) <$> root t), true).
Proof.
  intros Hwf Hab Ha Hb. unfold Ops.swap. rewrite bool_decide_false by done.
  apply findLeafPath_is_Some in Ha as [pa Ha], Hb as [pb Hb]. rewrite Ha, Hb.
  apply findLeafPath_Some in Ha as (r & Hr & Ha). rewrite Hr.
  apply findLeafPath_Some in Hb as (r' & Hr' & Hb). assert (r' = r) as -> by congruence.
  apply well_formed_NoDup in Hwf. unfold leaves in Hwf. rewrite Hr in Hwf.
  do 2 f_equal. simpl. f_equal. unfold Ops.mkLeaf.
  rewrite <- (replace_two_leaves_rename _ r pa pb a b); try done.
  - unfold swap_id. by rewrite (decide_True (P:=a=a)), (decide_False (P:=b=a)), (decide_True (P:=b=b)) by done.
  - intros x _ Hxa Hxb. unfold swap_id. by rewrite !decide_False.
Qed.

Lemma swap_id_inj a b x y : swap_id a b x = swap_id a b y -> x = y.
Proof. unfold swap_id. intros. repeat case_decide; congruence. Qed.

Lemma swap_id_swap_id a b x : swap_id a b (swap_id a b x) = x.
Proof. unfold swap_id. repeat case_decide; congruence. Qed.

(** Renaming with a function injective on the leaves keeps a tree well formed. *)
Lemma well_formed_rename f t :
  well_formed t -> NoDup (map f (leaves t)) -> well_formed (mkTree (rename f <$> root t)).
Proof.
  unfold well_formed, leaves. destruct (root t) as [r|]; simpl; [|done].
  intros [Hc _] Hnd. by rewrite rename_canonical, rename_leaves.
Qed.

Lemma leaves_rename f t : leaves (mkTree (rename f <$> root t)) = map f (leaves t).
Proof. unfold leaves. destruct (root t); [apply rename_leaves|done]. Qed.

(** ** Drop targets *)

(** A target resolved in [t]: the rebuilt tree has the same leaves and a node at the path. *)
Definition resolves t (target : EdgeDropTarget) t' p m : Prop :=
  materializeTarget t target = Some (t', p) /\ nodeAtPath t' p = Some m /\
  leaves t' = leaves t.

Lemma children_leaves_slice cs a b :
  (a <= b)%nat ->
  children_leaves cs =
    children_leaves (take a cs) ++ children_leaves (slice a b cs) ++ children_leaves (drop b cs).
Proof. intros H. rewrite <- !children_leaves_app. f_equal. by apply slice_split. Qed.

Lemma grouped_leaves d cs a b :
  (a <= b)%nat -> node_leaves (grouped d cs a b) = children_leaves cs.
Proof.
  intros Hab. unfold grouped.
  change (node_leaves (Split d ?l)) with (children_leaves l). rewrite children_leaves_app.
  rewrite (children_leaves_slice cs a b) by done. f_equal.
  rewrite <- (children_leaves_normalizeWeights (slice a b cs)). done.
Qed.

Lemma materialize_resolves t target t' p :
  materializeTarget t target = Some (t', p) -> exists m, resolves t target t' p m.
Proof.
  intros H. assert (G : exists m, nodeAtPath t' p = Some m /\ leaves t' = leaves t);
    [|destruct G as (m & ? & ?); by exists m].
  unfold materializeTarget in H.
  destruct (nodeAtPath t (et_path target)) as [node|] eqn:Hn; [|done].
  destruct (root t) as [r|] eqn:Hr; [|done].
  destruct (et_range target) as [[start stop]|]; [|simplify_eq; eauto].
  destruct node as [id|d cs]; [done|].
  destruct ((start <? 0)%Z || _ || _) eqn:Hb; [done|].
  apply orb_false_iff in Hb as [Hb Hb3]. apply orb_false_iff in Hb as [Hb1 Hb2].
  destruct (stop - start =? _)%Z eqn:Hfull; simplify_eq; [eauto|].
  unfold nodeAtPath in *. rewrite Hr in Hn. simpl.
  rewrite node_at_app, (node_at_replaceAtPath _ _ _ _ Hn).
  unfold grouped. cbn [node_at]. rewrite lookup_app_r by (rewrite length_take; lia).
  rewrite length_take, Nat.min_l by lia. rewrite Nat.sub_diag. simpl.
  eexists. split; [done|]. unfold leaves. rewrite Hr. simpl.
  destruct (replaceAtPath_leaves _ _ _ Hn) as (l1 & l2 & E1 & E2).
  rewrite E2, E1. do 2 f_equal. apply (grouped_leaves d cs). lia.
Qed.

(** ** insert *)

Lemma inserted_children_fst share cs idx before newId w :
  map fst (Ops.inserted_children share cs idx before newId w) =
  splice_in (if before then idx else S idx) (Leaf newId) (map fst cs).
Proof.
  assert (E : forall scale, map fst (map (fun c : LathChild W => (c.1, nmul c.2 scale)) cs) = map fst cs).
  { intros scale. rewrite map_map. by apply map_ext. }
  unfold Ops.inserted_children.
  assert (G : forall at_ w' (l : list (LathChild W)), map fst (splice_in at_ (Ops.mkLeaf newId, w') l) =
    splice_in at_ (Leaf newId) (map fst l)).
  { intros at_ w' l. unfold splice_in. rewrite map_app. simpl. by rewrite fmap_take, fmap_drop. }
  destruct share; rewrite ?G, ?E; [done..|].
  set (k := map _ cs). destruct (k !! idx) as [c|] eqn:Hc; rewrite G; f_equal; [|apply E].
  rewrite <- (E n1). fold k. rewrite (list_fmap_insert fst). apply list_insert_id.
  by rewrite (list_lookup_fmap fst), Hc.
Qed.

Lemma children_leaves_splice cs cs' at_ newId :
  map fst cs' = splice_in at_ (Leaf newId) (map fst cs) ->
  children_leaves cs' = children_leaves (take at_ cs) ++ newId :: children_leaves (drop at_ cs).
Proof.
  intros H. unfold children_leaves. rewrite <- !(map_map fst node_leaves), H. unfold splice_in.
  rewrite map_app, concat_app. simpl. rewrite <- !fmap_take, <- !fmap_drop. done.
Qed.

Lemma children_leaves_beside cs cs' idx c edge newId :
  cs !! idx = Some c ->
  map fst cs' = splice_in (if edgeIsBefore edge then idx else S idx) (Leaf newId) (map fst cs) ->
  children_leaves cs' =
    children_leaves (take idx cs) ++ beside edge newId (node_leaves c.1) ++
    children_leaves (drop (S idx) cs).
Proof.
  intros Hi H. rewrite (children_leaves_splice _ _ _ _ H). unfold beside.
  destruct (edgeIsBefore edge).
  - f_equal. simpl. f_equal. by rewrite (drop_S _ _ _ Hi).
  - rewrite (take_S_r _ _ _ Hi), children_leaves_app. unfold children_leaves at 2. simpl.
    rewrite app_nil_r, <- !(assoc_L (++)). done.
Qed.

(** The new leaf lands on [edge] of the target's leaves. *)
Lemma insertBesideNode_leaves t p m edge newId w share :
  nodeAtPath t p = Some m ->
  exists l1 l2, leaves t = l1 ++ node_leaves m ++ l2 /\
    leaves (Ops.insertBesideNode t p edge newId w share) = l1 ++ beside edge newId (node_leaves m) ++ l2.
Proof.
  intros Hm. pose proof Hm as Hm0. unfold nodeAtPath in Hm.
  destruct (root t) as [r|] eqn:Hr; [|done].
  unfold leaves at 1. rewrite Hr. unfold Ops.insertBesideNode. rewrite Hr.
  destruct (decide (p = [])) as [->|Hne].
  { simpl in Hm. simplify_eq. exists [], []. rewrite !app_nil_r. split; [done|].
    rewrite leaves_normalized. apply node_leaves_edge_pair. }
  destruct p as [|k q] eqn:Ep; [done|]. rewrite <- Ep in *. clear k q Ep.
  pose proof Hm as Hs. rewrite (path_snoc p Hne) in Hs.
  set (pp := removelast p) in *. set (idx := List.last p 0%nat) in *.
  destruct (node_at_snoc _ _ _ _ Hs) as (d & cs & c & Hpp & Hi & Hc).
  unfold nodeAtPath. rewrite Hr, Hpp, Hm. case_decide.
  - destruct (replaceAtPath_leaves _ _ _ Hpp) as (l1 & l2 & E1 & E2).
    exists (l1 ++ children_leaves (take idx cs)), (children_leaves (drop (S idx) cs) ++ l2).
    rewrite leaves_normalized, E2, E1.
    change (node_leaves (Split d ?l)) with (children_leaves l).
    rewrite children_leaves_normalizeWeights.
    rewrite (children_leaves_beside _ _ _ _ _ _ Hi (inserted_children_fst _ _ _ _ _ _)).
    rewrite (children_leaves_middle _ _ _ Hi), Hc. by rewrite <- !(assoc_L (++)).
  - destruct (replaceAtPath_leaves _ _ _ Hm) as (l1 & l2 & E1 & E2).
    exists l1, l2. split; [done|]. rewrite leaves_normalized, E2. f_equal. f_equal.
    apply node_leaves_edge_pair.
Qed.

Lemma insertBesideNode_well_formed t p m edge newId w share :
  nodeAtPath t p = Some m ->
  NoDup (leaves (Ops.insertBesideNode t p edge newId w share)) ->
  well_formed (Ops.insertBesideNode t p edge newId w share).
Proof.
  intros Hm Hnd. unfold nodeAtPath in Hm. destruct (root t) as [r|] eqn:Hr; [|done].
  unfold Ops.insertBesideNode, nodeAtPath in *. rewrite Hr in *.
  destruct p as [|k q]; [|rewrite Hm in *; repeat case_match];
    rewrite leaves_normalized in Hnd; by apply well_formed_normalized.
Qed.

(** What a successful [insert] does. *)
Lemma insertImpl_ok t id et size keep t' :
  NoDup (leaves t) -> Ops.insertImpl t id (TEdge et) size keep = (t', true) ->
  (id ∉ leaves t) /\ well_formed t' /\
  exists t1 p m l1 l2, resolves t et t1 p m /\
    leaves t = l1 ++ node_leaves m ++ l2 /\
    leaves t' = l1 ++ beside (et_edge et) id (node_leaves m) ++ l2.
Proof.
  intros Hnd H. unfold Ops.insertImpl in H.
  destruct (Ops.size_is_nan size); [done|]. destruct (root t) as [r|] eqn:Hr; [|done].
  destruct (findLeafPath t id) eqn:Hf; [done|]. apply findLeafPath_None in Hf.
  destruct (materializeTarget t et) as [[t1 p]|] eqn:Hmat; [|done].
  destruct (materialize_resolves _ _ _ _ Hmat) as (m & Hres & Hm & Hl). simplify_eq/=.
  match goal with |- context [Ops.insertBesideNode _ _ _ _ _ ?s] => set (share := s) end.
  destruct (insertBesideNode_leaves t1 p m (et_edge et) id (Ops.size_weight size) share Hm)
    as (l1 & l2 & E1 & E2).
  rewrite Hl in E1. split_all; [done| |by exists t1, p, m, l1, l2].
  eapply insertBesideNode_well_formed; [done|]. rewrite E2.
  assert (Ep : l1 ++ beside (et_edge et) id (node_leaves m) ++ l2 ≡ₚ id :: leaves t).
  { rewrite E1, beside_Permutation. simpl. by rewrite <- Permutation_middle. }
  rewrite Ep. by constructor.
Qed.

Lemma insertImpl_false t id target size keep t' :
  Ops.insertImpl t id target size keep = (t', false) -> t' = t.
Proof. unfold Ops.insertImpl. intros H. repeat case_match; by simplify_eq. Qed.

(** ** Finding a target by its leaf set *)

(** A target of [t] whose leaves are the wanted ones. *)
Definition names_set t (wanted : gset LeafId) edge (target : EdgeDropTarget) : Prop :=
  et_edge target = edge /\
  exists t' p m, resolves t target t' p m /\ forall x, x ∈ node_leaves m <-> x ∈ wanted.

Lemma counts_zero (wanted : gset LeafId) (parts : list (list LeafId)) :
  Forall (fun count => (0 <? count)%nat = false)
    (map (fun ids => length (filter (fun id => id ∈ wanted) ids)) parts) ->
  foldl Nat.add 0%nat (map (fun ids => length (filter (fun id => id ∈ wanted) ids)) parts) = 0%nat.
Proof.
  intros H. assert (G : forall k, foldl Nat.add k
    (map (fun ids => length (filter (fun id => id ∈ wanted) ids)) parts) = k); [|apply G].
  induction parts as [|p parts IH]; intros k; [done|].
  simpl in *. apply Forall_cons in H as [H1 H2]. apply Nat.ltb_ge in H1.
  replace (length (filter _ p)) with 0%nat by lia. rewrite Nat.add_0_r. by apply IH.
Qed.

(** In the slice every leaf is wanted, and they are counted once each. *)
Lemma counts_full (wanted : gset LeafId) (parts : list (list LeafId)) :
  forallb (fun cp => (0 <? cp.1)%nat && (cp.1 =? length cp.2)%nat)
    (zip (map (fun ids => length (filter (fun id => id ∈ wanted) ids)) parts) parts) = true ->
  (forall x, x ∈ concat parts -> x ∈ wanted) /\
  foldl Nat.add 0%nat (map (fun ids => length (filter (fun id => id ∈ wanted) ids)) parts) =
    length (concat parts).
Proof.
  induction parts as [|p parts IH]; intros H; simpl in *.
  { split; [|done]. intros x Hx. by apply elem_of_nil in Hx. }
  apply andb_true_iff in H as [H1 H2]. apply andb_true_iff in H1 as [_ H1].
  apply Nat.eqb_eq in H1. destruct (IH H2) as [IH1 IH2]. split.
  - intros x Hx. apply elem_of_app in Hx as [Hx|Hx]; [|by apply IH1].
    by apply (filter_length_all (fun id => id ∈ wanted) p).
  - rewrite foldl_add_sum, IH2, length_app. lia.
Qed.

(** The parts before the first and after the last counted one hold no wanted leaf. *)
Lemma parts_concat_slice (parts : list (list LeafId)) i j :
  (i <= j)%nat -> concat parts = concat (take i parts) ++ concat (slice i j parts) ++ concat (drop j parts).
Proof. intros H. rewrite <- !concat_app. f_equal. by apply slice_split. Qed.

(** A range [target_visit] records covers exactly the wanted leaves. *)
Lemma target_range_names (wanted : gset LeafId) (parts : list (list LeafId)) first last :
  let counts := map (fun ids => length (filter (fun id => id ∈ wanted) ids)) parts in
  NoDup (concat parts) ->
  find_index (fun count => 0 <? count)%nat counts = Some first ->
  last_index (fun count => 0 <? count)%nat counts = Some last ->
  (first < last)%nat ->
  foldl Nat.add 0%nat counts = size wanted ->
  forallb (fun cp => (0 <? cp.1)%nat && (cp.1 =? length cp.2)%nat)
    (slice first (S last) (zip counts parts)) = true ->
  (last < length parts)%nat /\
  forall x, x ∈ concat (slice first (S last) parts) <-> x ∈ wanted.
Proof.
  intros counts Hnd Hf Hl Hlt Hsum Hall. unfold counts in *.
  set (cnt := fun ids => length (filter (fun id => id ∈ wanted) ids)) in *.
  apply find_index_Some in Hf as (cf & _ & _ & Hbefore).
  apply last_index_Some in Hl as (cl & Hil & _ & Hafter).
  pose proof (lookup_lt_Some _ _ _ Hil) as Hlen. rewrite length_map in Hlen. split; [done|].
  rewrite zip_map_self, slice_map in Hall. rewrite <- zip_map_self in Hall.
  destruct (counts_full _ _ Hall) as [Hin Hsz].
  rewrite <- fmap_take in Hbefore. rewrite <- fmap_drop in Hafter.
  assert (Hsplit : map cnt parts = map cnt (take first parts) ++
    map cnt (slice first (S last) parts) ++ map cnt (drop (S last) parts)).
  { rewrite <- !map_app. f_equal. apply slice_split. lia. }
  rewrite Hsplit, !foldl_add_app in Hsum.
  pose proof (counts_zero wanted (take first parts) Hbefore) as Hz1.
  pose proof (counts_zero wanted (drop (S last) parts) Hafter) as Hz2.
  fold cnt in Hz1, Hz2, Hsz. rewrite Hz1, Hz2, Hsz in Hsum.
  apply list_lists_set; [|lia|done].
  rewrite (parts_concat_slice parts first (S last)) in Hnd by lia.
  apply NoDup_app in Hnd as (_ & _ & Hnd). by apply NoDup_app in Hnd as (? & _ & _).
Qed.

(** Resolving a child range of the split at a path. *)
Lemma resolves_range t p d cs edge a b :
  nodeAtPath t p = Some (Split d cs) -> (a + 2 <= b)%nat -> (b <= length cs)%nat ->
  exists t' q m,
    resolves t (mkEdgeTarget p edge (Some (Z.of_nat a, Z.of_nat b))) t' q m /\
    node_leaves m = children_leaves (slice a b cs).
Proof.
  intros Hp Hab Hb.
  set (target := mkEdgeTarget p edge (Some (Z.of_nat a, Z.of_nat b))).
  assert (Hm : is_Some (materializeTarget t target)).
  { unfold materializeTarget, target. cbn [et_path et_range]. rewrite Hp.
    unfold nodeAtPath in Hp. destruct (root t); [|done].
    destruct ((_ <? 0)%Z || _ || _) eqn:Hbad; [|by destruct (_ =? _)%Z].
    apply orb_true_iff in Hbad as [Hbad|Hbad]; [apply orb_true_iff in Hbad as [Hbad|Hbad]|]; lia. }
  destruct Hm as [[t' q] Hm]. destruct (materialize_resolves _ _ _ _ Hm) as (m & Hres).
  exists t', q, m. split; [done|]. destruct Hres as (_ & Hq & _).
  unfold materializeTarget, target in Hm. cbn [et_path et_range] in Hm. rewrite Hp in Hm.
  unfold nodeAtPath in Hp. destruct (root t) as [r|] eqn:Hr; [|done].
  destruct ((_ <? 0)%Z || _ || _); [done|].
  destruct (_ =? _)%Z eqn:Hfull; simplify_eq.
  - unfold nodeAtPath in Hq. rewrite Hr, Hp in Hq. simplify_eq.
    change (node_leaves (Split d cs)) with (children_leaves cs). f_equal.
    apply Z.eqb_eq in Hfull. unfold slice. replace a with 0%nat by lia.
    rewrite drop_0, take_ge; [done|lia].
  - rewrite !Nat2Z.id in Hq. unfold nodeAtPath in Hq. cbn [root] in Hq.
    rewrite node_at_app, (node_at_replaceAtPath _ _ _ _ Hp) in Hq.
    unfold grouped in Hq. cbn [node_at] in Hq.
    rewrite lookup_app_r in Hq by (rewrite length_take; lia).
    rewrite length_take, Nat.min_l, Nat.sub_diag in Hq by lia. simpl in Hq. simplify_eq.
    apply (children_leaves_normalizeWeights (slice a b cs)).
Qed.

Lemma target_visit_names t wanted edge n p found :
  NoDup (leaves t) -> nodeAtPath t p = Some n ->
  (forall d, found = Some d -> names_set t wanted edge d) ->
  forall d, (match n with
    | Leaf id => target_visit wanted edge false [[id]] p found
    | Split _ cs => target_visit wanted edge true (map (fun c => node_leaves c.1) cs) p found
    end) = Some d -> names_set t wanted edge d.
Proof.
  intros Hnd Hp Hfound dest Hd.
  set (parts := match n with Leaf id => [[id]] | Split _ cs => map (fun c => node_leaves c.1) cs end).
  assert (Hparts : concat parts = node_leaves n) by (destruct n; done).
  assert (Hd' : target_visit wanted edge (match n with Leaf _ => false | _ => true end) parts p found
    = Some dest) by (destruct n; done).
  clear Hd. unfold target_visit in Hd'. rewrite Hparts in Hd'.
  assert (Hndn : NoDup (node_leaves n)).
  { unfold nodeAtPath, leaves in *. destruct (root t); [|done]. by eapply node_at_NoDup. }
  destruct ((length _ =? _)%nat && _) eqn:Hwhole.
  { apply andb_true_iff in Hwhole as [Hlen Hall]. apply Nat.eqb_eq in Hlen. simplify_eq.
    split; [done|]. exists t, p, n. split.
    - unfold resolves. split; [|done]. unfold materializeTarget. cbn. rewrite Hp.
      unfold nodeAtPath in Hp. by destruct (root t).
    - apply list_lists_set; [done..|]. intros x Hx. rewrite forallb_forall in Hall.
      apply list_elem_of_In, Hall in Hx. by apply bool_decide_eq_true in Hx. }
  destruct n as [id|dir cs]; [by apply Hfound|].
  destruct (find_index _ _) as [first|] eqn:Hfi; [|by apply Hfound].
  destruct (last_index _ _) as [last|] eqn:Hla; [|by apply Hfound].
  destruct ((first <? last)%nat && _ && _) eqn:Hok; [|by apply Hfound].
  apply andb_true_iff in Hok as [Hok Hall]. apply andb_true_iff in Hok as [Hlt Hsum].
  apply Nat.ltb_lt in Hlt. apply Nat.eqb_eq in Hsum. simplify_eq.
  rewrite <- Hparts in Hndn.
  destruct (target_range_names wanted parts first last Hndn Hfi Hla Hlt Hsum Hall) as [Hll Hset].
  unfold parts in Hll. rewrite length_map in Hll.
  destruct (resolves_range t p dir cs edge first (S last) Hp) as (t' & q & m & Hres & Hm); [lia..|].
  split; [done|]. exists t', q, m. split; [done|]. intros x. rewrite <- Hset, Hm.
  unfold parts. by rewrite slice_map.
Qed.

Lemma target_walk_names t wanted edge n p found :
  NoDup (leaves t) -> nodeAtPath t p = Some n ->
  (forall d, found = Some d -> names_set t wanted edge d) ->
  forall d, target_walk wanted edge n p found = Some d -> names_set t wanted edge d.
Proof.
  intros Hnd. revert p found. induction n as [id|dir cs IH] using LathNode_ind'; intros p found Hp Hfound.
  - exact (target_visit_names t wanted edge (Leaf id) p found Hnd Hp Hfound).
  - apply (target_visit_names t wanted edge (Split dir cs) p); [done|done|].
    apply (fold_idx_ind (fun o => forall d, o = Some d -> names_set t wanted edge d)); [done|].
    intros j c o Hj Ho. rewrite Forall_lookup in IH. apply (IH _ _ Hj); [|done].
    unfold nodeAtPath in *. destruct (root t) as [r|]; [|done].
    rewrite node_at_app, Hp. simpl. by rewrite Hj.
Qed.

(** The target found names exactly the wanted leaves. *)
Lemma targetByLeafSet_names t wanted edge target :
  NoDup (leaves t) -> targetByLeafSet t wanted edge = Some target -> names_set t wanted edge target.
Proof.
  intros Hnd H. unfold targetByLeafSet in H. destruct (size wanted =? 0)%nat; [done|].
  destruct (root t) as [r|] eqn:Hr; [|done]. apply (target_walk_names t wanted edge r [] None); [done| |done|done].
  unfold nodeAtPath. by rewrite Hr.
Qed.

End OpsFacts.
