(* ===== verification/LathGroups.v ===== *)
(** * Groups of panes (lib/src/lib/lath/drop-target.ts)

    A group is what a drop target can name: a whole node, or a proper range of
    the children of one split.  Normalizing a tree keeps every group as a group
    of the result, and [targetByLeafSet] finds a group by its leaf set. *)
From Stdlib Require Import ZArith List Permutation Lia.
From S2P Require Import Prelude JsNum LathModel LathStructure LathLayout LathOps.
#[local] Set Warnings "-register-all".

Section Groups.
  Context {W : Type} `{N : JSNum W}.
  Implicit Types (n m g : LathNode W) (t : LathTree W) (cs k : list (LathChild W)) (p q : list nat).

(** [group n p rng g]: at [p] below [n] the node ([rng] absent) or the child
    range [rng], grouped under a split of its own, is [g]. *)
Inductive group : LathNode W -> list nat -> option (nat * nat) -> LathNode W -> Prop :=
  | group_self n : group n [] None n
  | group_range d l1 l2 l3 :
      l1 <> [] \/ l3 <> [] ->
      group (Split d (l1 ++ l2 ++ l3)) [] (Some (length l1, length (l1 ++ l2))) (Split d l2)
  | group_child d cs i c p rng g :
      cs !! i = Some c -> group c.1 p rng g -> group (Split d cs) (i :: p) rng g.

Definition grp n g : Prop := exists p rng, group n p rng g.

Lemma group_sublist n p rng g : group n p rng g -> node_leaves g `sublist_of` node_leaves n.
Proof.
  induction 1 as [n|d l1 l2 l3 _|d cs i c p rng g Hi _ IH]; [done| |].
  - change (children_leaves l2 `sublist_of` children_leaves (l1 ++ l2 ++ l3)).
    rewrite !children_leaves_app. apply sublist_inserts_l, sublist_inserts_r. done.
  - etrans; [exact IH|]. change (node_leaves c.1 `sublist_of` children_leaves cs).
    rewrite (children_leaves_middle _ _ _ Hi). apply sublist_inserts_l, sublist_inserts_r. done.
Qed.

Lemma group_NoDup n p rng g : group n p rng g -> NoDup (node_leaves n) -> NoDup (node_leaves g).
Proof. intros H Hn. eapply sublist_NoDup; [done|by eapply group_sublist]. Qed.

Lemma group_leaves_subseteq n p rng g x :
  group n p rng g -> x ∈ node_leaves g -> x ∈ node_leaves n.
Proof. intros H Hx. eapply elem_of_sublist; [done|by eapply group_sublist]. Qed.

(** The drop target naming a group. *)
Definition target_of (edge : Edge) p (rng : option (nat * nat)) : EdgeDropTarget :=
  mkEdgeTarget p edge (option_map (fun r => (Z.of_nat r.1, Z.of_nat r.2)) rng).

(** ** Normalizing keeps groups *)

(** The last step of [normalize] on a split. *)
Definition finish (d : Dir) k : option (LathNode W) :=
  match k with [] => None | [c] => Some c.1 | _ => Some (Split d (normalizeWeights k)) end.

Definition collect_all (d : Dir) cs : list (LathChild W) :=
  concat (map (fun c => collect d (normalize c.1) c.2) cs).

Lemma normalize_finish d cs : normalize (Split d cs) = finish d (collect_all d cs).
Proof. cbn [normalize]. unfold collect_all. by destruct (concat _) as [|? [|? ?]]. Qed.

Lemma collect_all_app d cs1 cs2 : collect_all d (cs1 ++ cs2) = collect_all d cs1 ++ collect_all d cs2.
Proof. unfold collect_all. by rewrite map_app, concat_app. Qed.

Lemma finish_many d k : (2 <= length k)%nat -> finish d k = Some (Split d (normalizeWeights k)).
Proof. destruct k as [|? [|? ?]]; simpl; [lia..|done]. Qed.

Lemma finish_is_Some d k : k <> [] -> is_Some (finish d k).
Proof. destruct k as [|? [|? ?]]; done. Qed.

(** [normalizeWeights] keeps the nodes at every index. *)
Lemma normalizeWeights_lookup k i c :
  k !! i = Some c -> exists w, normalizeWeights k !! i = Some (c.1, w).
Proof.
  intros H. assert (E : (map fst (normalizeWeights k)) !! i = Some c.1).
  { rewrite normalizeWeights_fst, (list_lookup_fmap fst), H. done. }
  rewrite (list_lookup_fmap fst) in E.
  destruct (normalizeWeights k !! i) as [[m w]|]; simplify_eq/=. by exists w.
Qed.

(** A rescaled concatenation is a concatenation with the same nodes. *)
Lemma normalizeWeights_split3 k1 k2 k3 :
  exists k1' k2' k3', normalizeWeights (k1 ++ k2 ++ k3) = k1' ++ k2' ++ k3' /\
    map fst k1' = map fst k1 /\ map fst k2' = map fst k2 /\ map fst k3' = map fst k3.
Proof.
  unfold normalizeWeights. destruct (nleb _ _); rewrite !map_app;
    (do 3 eexists; split; [done|]); rewrite !map_map; done.
Qed.

(** Two children lists with the same nodes make splits of the same shape. *)
Lemma same_shape_fst d k1 k2 : map fst k1 = map fst k2 -> same_shape (Split d k1) (Split d k2).
Proof. intros H. unfold same_shape. simpl. f_equal. by apply (strips_fst k1 k2). Qed.

Lemma fst_nil k1 k2 : map fst k1 = map fst k2 -> k2 <> [] -> k1 <> [].
Proof. by destruct k1, k2. Qed.

(** A range of the collected children is a group of the finished split. *)
Lemma finish_range d k1 k2 k3 :
  k2 <> [] ->
  exists n' m0 g, finish d (k1 ++ k2 ++ k3) = Some n' /\ finish d k2 = Some m0 /\
    grp n' g /\ same_shape g m0.
Proof.
  intros Hne. destruct (decide (k1 = [] /\ k3 = [])) as [[-> ->]|Hout].
  { rewrite app_nil_r. destruct (finish_is_Some d k2 Hne) as [m Hm].
    exists m, m, m. split_all; [done..| |done]. exists [], None. constructor. }
  assert (Hlen : (2 <= length (k1 ++ k2 ++ k3))%nat).
  { rewrite !length_app. destruct k2; [done|]. destruct k1, k3; simpl; try lia. by destruct Hout. }
  rewrite (finish_many _ _ Hlen).
  destruct k2 as [|c [|c' k2]]; [done| |].
  - do 3 eexists. split_all; [done|done| |reflexivity].
    destruct (normalizeWeights_lookup (k1 ++ [c] ++ k3) (length k1) c) as [w Hw].
    { rewrite lookup_app_r, Nat.sub_diag by lia. done. }
    exists [length k1], None. apply (group_child _ _ _ (c.1, w)); [done|constructor].
  - destruct (normalizeWeights_split3 k1 (c :: c' :: k2) k3) as (k1' & k2' & k3' & E & E1 & E2 & E3).
    rewrite E. exists (Split d (k1' ++ k2' ++ k3')), (Split d (normalizeWeights (c :: c' :: k2))), (Split d k2').
    split_all; [done|done| |].
    + eexists _, _. constructor. destruct (decide (k1 = [])) as [->|H1].
      * right. apply (fst_nil _ k3); [done|]. intros ->. by destruct Hout.
      * left. by apply (fst_nil _ k1).
    + apply same_shape_fst. by rewrite E2, normalizeWeights_fst.
Qed.

Lemma finish_child d k c g :
  c ∈ k -> grp c.1 g -> exists n', finish d k = Some n' /\ grp n' g.
Proof.
  intros Hc (p & rng & Hg). apply list_elem_of_lookup in Hc as [i Hi].
  destruct k as [|c1 [|c2 k]]; [done| |].
  - destruct i; [|done]. simplify_eq/=. exists c.1. split; [done|]. by exists p, rng.
  - eexists. split; [done|].
    destruct (normalizeWeights_lookup _ _ _ Hi) as [w Hw].
    exists (i :: p), rng. by eapply group_child.
Qed.

(** The group a child's normal form has is one of the finished split. *)
Lemma finish_collect d k1 k3 n1 w g m0 :
  canonical n1 = true -> grp n1 g -> same_shape g m0 -> canonical m0 = true ->
  exists n' g', finish d (k1 ++ collect d (Some n1) w ++ k3) = Some n' /\
    grp n' g' /\ same_shape g' m0.
Proof.
  intros Hcan Hg Hs Hm0.
  destruct n1 as [id|d1 gcs]; simpl.
  { destruct (finish_child d (k1 ++ [(Leaf id, w)] ++ k3) (Leaf id, w) g) as (n' & ? & ?);
      [apply elem_of_app; right; by left|done|]. by exists n', g. }
  case_decide as Hd.
  2:{ destruct (finish_child d (k1 ++ [(Split d1 gcs, w)] ++ k3) (Split d1 gcs, w) g) as (n' & ? & ?);
      [apply elem_of_app; right; by left|done|]. by exists n', g. }
  subst d1. destruct Hg as (p & rng & Hg).
  set (sc := fun gc : LathChild W => (gc.1, nmul gc.2 w)).
  assert (Hfst : forall l, map fst (map sc l) = map fst l) by (intros l; rewrite map_map; done).
  apply canonical_Split in Hcan as [Hlen _].
  assert (Hrange : forall l1 l2 l3, gcs = l1 ++ l2 ++ l3 -> (2 <= length l2)%nat ->
    same_shape (Split d l2) m0 ->
    exists n' g', finish d (k1 ++ map sc gcs ++ k3) = Some n' /\ grp n' g' /\ same_shape g' m0).
  { intros l1 l2 l3 -> Hl2 Hsh. rewrite !map_app.
    destruct (finish_range d (k1 ++ map sc l1) (map sc l2) (map sc l3 ++ k3)) as (n' & m' & g' & E & Em & Hgr & Hsh').
    { destruct l2; [simpl in Hl2; lia|done]. }
    exists n', g'. split_all; [|done|].
    { rewrite <- E. f_equal. by rewrite <- !(assoc_L (++)). }
    etrans; [exact Hsh'|]. rewrite finish_many in Em by (rewrite length_map; lia). simplify_eq.
    etrans; [|exact Hsh]. apply same_shape_fst. by rewrite normalizeWeights_fst, Hfst. }
  inversion Hg as [? E1 E2 E3|d' l1 l2 l3 Hout E1 E2 E3|d' cs' i c q rng' g0 Hi Hsub E1 E2 E3]; subst.
  - apply (Hrange [] gcs []); [by rewrite app_nil_r|done|done].
  - apply (Hrange l1 l2 l3); [done| |done].
    apply same_shape_Split in Hs as (l2' & -> & Hs).
    apply canonical_Split in Hm0 as [Hm0 _]. by rewrite (strips_length _ _ Hs).
  - destruct (finish_child d (k1 ++ map sc gcs ++ k3) (sc c) g) as (n' & ? & ?).
    + apply elem_of_app. right. apply elem_of_app. left. apply (list_elem_of_fmap_2 sc).
      by eapply list_elem_of_lookup_2.
    + by exists q, rng.
    + by exists n', g.
Qed.

(** Every group with leaves survives [normalize] with the shape of its own normal form. *)
Lemma normalize_grp n m :
  grp n m -> node_leaves m <> [] ->
  exists n' m0 g, normalize n = Some n' /\ normalize m = Some m0 /\ grp n' g /\ same_shape g m0.
Proof.
  intros (p & rng & H) Hne. destruct (normalize_total _ Hne) as [m0 Hm0].
  induction H as [n|d l1 l2 l3 Hout|d cs i c p rng g Hi H IH].
  - exists m0, m0, m0. split_all; [done..| |done]. exists [], None. constructor.
  - rewrite !normalize_finish, !collect_all_app in *.
    destruct (finish_range d (collect_all d l1) (collect_all d l2) (collect_all d l3))
      as (n' & m' & g & E1 & E2 & Hg & Hs).
    { intros E. by rewrite E in Hm0. }
    by exists n', m', g.
  - destruct (IH Hne Hm0) as (n1 & m' & g' & E1 & E2 & Hg & Hs).
    rewrite <- (take_drop_middle _ _ _ Hi), normalize_finish, collect_all_app.
    assert (Hc : forall l, collect_all d (c :: l) = collect d (Some n1) c.2 ++ collect_all d l).
    { intros l. unfold collect_all. simpl. by rewrite E1. }
    rewrite Hc. destruct (finish_collect d (collect_all d (take i cs)) (collect_all d (drop (S i) cs))
      n1 c.2 g' m') as (n' & g2 & ? & ? & ?);
      [by eapply normalize_canonical|done|done|by eapply normalize_canonical|].
    by exists n', m', g2.
Qed.

(** ** Finding a group by its leaves *)

Lemma NoDup_middle {A} (l1 l2 l3 : list A) :
  NoDup (l1 ++ l2 ++ l3) ->
  (forall x, x ∈ l1 -> x ∉ l2) /\ (forall x, x ∈ l3 -> x ∉ l2) /\ NoDup l2.
Proof.
  intros H. apply NoDup_app in H as (_ & H13 & H). apply NoDup_app in H as (H2 & H23 & _).
  split_all; [| |done]; intros x Hx Hx2.
  - apply (H13 x Hx). apply elem_of_app. by left.
  - by apply (H23 x Hx2).
Qed.

Lemma count_disjoint (X : gset LeafId) (ids : list LeafId) :
  (forall x, x ∈ ids -> x ∉ X) -> length (filter (fun id => id ∈ X) ids) = 0%nat.
Proof.
  induction ids as [|y ids IH]; intros H; [done|].
  rewrite filter_cons_False by (apply H; by left). apply IH. intros x Hx. apply H. by right.
Qed.

Lemma count_all (X : gset LeafId) (ids : list LeafId) :
  (forall x, x ∈ ids -> x ∈ X) -> length (filter (fun id => id ∈ X) ids) = length ids.
Proof. intros H. by rewrite filter_all. Qed.

(** The per-child counts of [target_visit]. *)
Definition counts (X : gset LeafId) cs : list nat :=
  map (fun ids => length (filter (fun id => id ∈ X) ids)) (map (fun c => node_leaves c.1) cs).

Lemma counts_app X cs1 cs2 : counts X (cs1 ++ cs2) = counts X cs1 ++ counts X cs2.
Proof. unfold counts. by rewrite !map_app. Qed.

Lemma counts_outside X cs :
  (forall x, x ∈ children_leaves cs -> x ∉ X) ->
  Forall (fun v => (0 <? v)%nat = false) (counts X cs) /\ foldl Nat.add 0%nat (counts X cs) = 0%nat.
Proof.
  unfold counts, children_leaves. induction cs as [|c cs IH]; intros H; simpl; [done|].
  simpl in H. rewrite count_disjoint by (intros x Hx; apply H, elem_of_app; by left).
  destruct IH as [IH1 IH2]; [intros x Hx; apply H, elem_of_app; by right|].
  split; [by constructor|done].
Qed.

Lemma counts_inside X cs :
  Forall (fun m => canonical m = true) (map fst cs) ->
  (forall x, x ∈ children_leaves cs -> x ∈ X) ->
  Forall (fun v => (0 <? v)%nat = true) (counts X cs) /\
  (forall s, foldl Nat.add s (counts X cs) = (s + length (children_leaves cs))%nat) /\
  forallb (fun cp => (0 <? cp.1)%nat && (cp.1 =? length cp.2)%nat)
    (zip (counts X cs) (map (fun c => node_leaves c.1) cs)) = true.
Proof.
  unfold counts, children_leaves. induction cs as [|c cs IH]; intros Hc H; simpl.
  { split_all; [done|intros; lia|done]. }
  simpl in H, Hc. apply Forall_cons in Hc as [Hc Hcs].
  destruct IH as (IH1 & IH2 & IH3); [done|intros x Hx; apply H, elem_of_app; by right|].
  pose proof (canonical_leaves_pos _ Hc) as Hp.
  rewrite count_all by (intros x Hx; apply H, elem_of_app; by left).
  assert (Hlt : (0 <? length (node_leaves c.1))%nat = true) by (apply Nat.ltb_lt; lia).
  split_all.
  - by constructor.
  - intros s. rewrite IH2, length_app. lia.
  - by rewrite Hlt, Nat.eqb_refl, IH3.
Qed.

(** A subtree without wanted leaves records nothing. *)
Lemma target_walk_disjoint X edge n p found :
  (0 < size X)%nat -> (forall x, x ∈ node_leaves n -> x ∉ X) -> target_walk X edge n p found = found.
Proof.
  intros HX. assert (Hwhole : forall ids, (forall x : LeafId, x ∈ ids -> x ∉ X) ->
    (length ids =? size X)%nat && forallb (fun id => bool_decide (id ∈ X)) ids = false).
  { intros [|x ids] H; apply andb_false_iff; [left; apply Nat.eqb_neq; simpl; lia|].
    right. simpl. rewrite bool_decide_false; [done|]. apply H. by left. }
  revert p found. induction n as [id|d cs IH] using LathNode_ind'; intros p found H.
  { cbn [target_walk]. unfold target_visit. by rewrite Hwhole. }
  cbn [target_walk]. unfold target_visit.
  change (concat (map (fun c => node_leaves c.1) cs)) with (node_leaves (Split d cs)).
  rewrite Hwhole by done. fold (counts X cs).
  destruct (counts_outside X cs H) as [Hz _].
  assert (find_index (fun v => 0 <? v)%nat (counts X cs) = None) as ->.
  { destruct (find_index _ _) as [i|] eqn:E; [|done].
    apply find_index_Some in E as (k & Hk & Hpos & _). rewrite Forall_lookup in Hz.
    specialize (Hz _ _ Hk). simpl in Hz. congruence. }
  apply (fold_idx_ind (fun o => o = found)); [done|]. intros j c o Hj ->.
  rewrite Forall_lookup in IH. apply (IH _ _ Hj). intros x Hx. apply H. simpl.
  apply list_elem_of_In, in_concat. exists (node_leaves c.1).
  split; [apply in_map_iff; exists c; split; [done|]|by apply list_elem_of_In].
  apply list_elem_of_In. by eapply list_elem_of_lookup_2.
Qed.

(** A list with more leaves than wanted is no whole match. *)
Lemma not_whole (X : gset LeafId) (ids : list LeafId) :
  (size X < length ids)%nat ->
  (length ids =? size X)%nat && forallb (fun id => bool_decide (id ∈ X)) ids = false.
Proof. intros H. rewrite (proj2 (Nat.eqb_neq _ _)) by lia. done. Qed.

Lemma children_canonical d cs :
  canonical (Split d cs) = true -> Forall (fun m => canonical m = true) (map fst cs).
Proof.
  intros H. apply canonical_Split in H as [_ H]. eapply Forall_impl; [exact H|]. by intros ? [].
Qed.

Lemma children_leaves_elem cs c x : c ∈ cs -> x ∈ node_leaves c.1 -> x ∈ children_leaves cs.
Proof.
  intros Hc Hx. apply list_elem_of_In, in_concat. exists (node_leaves c.1).
  split; [apply in_map_iff; exists c; split; [done|]|]; by apply list_elem_of_In.
Qed.

(** At the split whose child range is wanted the range is recorded. *)
Lemma target_visit_range X edge d (l1 l2 l3 : list (LathChild W)) p found :
  canonical (Split d (l1 ++ l2 ++ l3)) = true -> NoDup (children_leaves (l1 ++ l2 ++ l3)) ->
  l1 <> [] \/ l3 <> [] -> (2 <= length l2)%nat ->
  X = list_to_set (children_leaves l2) ->
  target_visit X edge true (map (fun c => node_leaves c.1) (l1 ++ l2 ++ l3)) p found =
    Some (target_of edge p (Some (length l1, length (l1 ++ l2)))).
Proof.
  intros Hcan Hnd Hout Hl2 HX. apply children_canonical in Hcan.
  rewrite !map_app in Hcan. apply Forall_app in Hcan as [Hc1 Hcan].
  apply Forall_app in Hcan as [Hc2 Hc3].
  rewrite !children_leaves_app in Hnd.
  destruct (NoDup_middle _ _ _ Hnd) as (H1 & H3 & Hnd2).
  assert (Hsz : size X = length (children_leaves l2)) by (subst X; by apply size_list_to_set).
  assert (Hin : forall x, x ∈ X <-> x ∈ children_leaves l2).
  { intros x. subst X. by rewrite elem_of_list_to_set. }
  unfold target_visit. fold (counts X (l1 ++ l2 ++ l3)).
  change (concat (map (fun c => node_leaves c.1) (l1 ++ l2 ++ l3)))
    with (children_leaves (l1 ++ l2 ++ l3)).
  rewrite not_whole.
  2:{ rewrite !children_leaves_app, !length_app, Hsz.
      pose proof (children_leaves_length _ Hc1). pose proof (children_leaves_length _ Hc3).
      destruct Hout as [Ho|Ho]; [destruct l1|destruct l3]; simpl in *; try done; lia. }
  destruct (counts_outside X l1) as [Hz1 Hs1]; [intros x Hx; rewrite Hin; by apply H1|].
  destruct (counts_outside X l3) as [Hz3 Hs3]; [intros x Hx; rewrite Hin; by apply H3|].
  destruct (counts_inside X l2 Hc2) as (Hp2 & Hs2 & Hall2); [intros x Hx; by apply Hin|].
  assert (Hlen : forall l, length (counts X l) = length l).
  { intros l. unfold counts. by rewrite !length_map. }
  assert (Hslice : slice (length l1) (length (l1 ++ l2))
    (zip (counts X (l1 ++ l2 ++ l3)) (map (fun c => node_leaves c.1) (l1 ++ l2 ++ l3))) =
    zip (counts X l2) (map (fun c => node_leaves c.1) l2)).
  { unfold counts. rewrite !zip_map_self, slice_map, slice_map, slice_middle. done. }
  assert (Hsum : foldl Nat.add 0%nat (counts X (l1 ++ l2 ++ l3)) = size X).
  { rewrite !counts_app, !foldl_app, Hs1, Hs2. rewrite foldl_add_sum, Hs3. lia. }
  destruct (list_split_ends l2 Hl2) as (c1 & l & c2 & ->).
  assert (Hfi : find_index (fun v => 0 <? v)%nat (counts X (l1 ++ (c1 :: l ++ [c2]) ++ l3)) = Some (length l1)).
  { rewrite !counts_app. unfold counts at 2. simpl. rewrite <- (Hlen l1).
    apply find_index_intro; [|done]. apply Forall_cons in Hp2 as [Hp2 _]. exact Hp2. }
  assert (Hla : last_index (fun v => 0 <? v)%nat (counts X (l1 ++ (c1 :: l ++ [c2]) ++ l3)) =
    Some (length (l1 ++ c1 :: l))).
  { replace (l1 ++ (c1 :: l ++ [c2]) ++ l3) with ((l1 ++ c1 :: l) ++ c2 :: l3) by
      (rewrite <- !(assoc_L (++)); simpl; by rewrite <- !(assoc_L (++))).
    rewrite counts_app, <- Hlen. apply last_index_intro; [|done].
    replace (c1 :: l ++ [c2]) with ((c1 :: l) ++ [c2]) in Hp2 by done.
    rewrite counts_app in Hp2. apply Forall_app in Hp2 as [_ Hp2].
    by apply Forall_cons in Hp2 as [? _]. }
  rewrite Hfi, Hla.
  replace (S (length (l1 ++ c1 :: l))) with (length (l1 ++ c1 :: l ++ [c2])) by
    (rewrite !length_app; simpl; rewrite length_app; simpl; lia).
  rewrite Hslice, Hsum, Hall2, Nat.eqb_refl.
  rewrite (proj2 (Nat.ltb_lt _ _)) by (rewrite length_app; simpl; lia). done.
Qed.

(** At a split with the wanted leaves inside one child nothing is recorded. *)
Lemma target_visit_child X edge d cs i c p found :
  canonical (Split d cs) = true -> NoDup (children_leaves cs) -> cs !! i = Some c ->
  (forall x, x ∈ X -> x ∈ node_leaves c.1) ->
  target_visit X edge true (map (fun c => node_leaves c.1) cs) p found = found.
Proof.
  intros Hcan Hnd Hi HX. pose proof (proj1 (canonical_Split d cs) Hcan) as [Hlen _].
  apply children_canonical in Hcan. pose proof (take_drop_middle _ _ _ Hi) as Ecs.
  pose proof (children_leaves_middle _ _ _ Hi) as E. rewrite E in Hnd.
  destruct (NoDup_middle _ _ _ Hnd) as (H1 & H3 & Hndc).
  assert (Hsz : (size X <= length (node_leaves c.1))%nat).
  { rewrite <- (size_list_to_set (C:=gset LeafId) _ Hndc). apply subseteq_size.
    intros x Hx. by apply elem_of_list_to_set, HX. }
  unfold target_visit. fold (counts X cs).
  change (concat (map (fun c => node_leaves c.1) cs)) with (children_leaves cs).
  rewrite not_whole.
  2:{ rewrite E, !length_app. rewrite <- Ecs in Hcan, Hlen. rewrite map_app in Hcan.
      apply Forall_app in Hcan as [Hc1 Hc3]. apply Forall_cons in Hc3 as [_ Hc3].
      pose proof (children_leaves_length _ Hc1). pose proof (children_leaves_length _ Hc3).
      rewrite length_app in Hlen. simpl in Hlen. lia. }
  assert (Honly : forall j v, counts X cs !! j = Some v -> (0 <? v)%nat = true -> j = i).
  { intros j v Hj Hv. destruct (decide (j = i)) as [|Hne]; [done|exfalso].
    destruct (counts_outside X (take i cs)) as [Hz1 _]; [intros x Hx Hw; exact (H1 x Hx (HX x Hw))|].
    destruct (counts_outside X (drop (S i) cs)) as [Hz3 _]; [intros x Hx Hw; exact (H3 x Hx (HX x Hw))|].
    unfold counts in Hj, Hz1, Hz3. rewrite !fmap_take in Hz1. rewrite !fmap_drop in Hz3.
    rewrite Forall_lookup in Hz1, Hz3.
    destruct (decide (j < i)%nat) as [Hlt|Hge].
    - specialize (Hz1 j v). rewrite lookup_take_lt in Hz1 by done. rewrite (Hz1 Hj) in Hv. done.
    - specialize (Hz3 (j - S i)%nat v). rewrite lookup_drop in Hz3.
      replace (S i + (j - S i))%nat with j in Hz3 by lia. rewrite (Hz3 Hj) in Hv. done. }
  destruct (find_index _ _) as [first|] eqn:Ef; [|done].
  destruct (last_index _ _) as [last|] eqn:El; [|done].
  apply find_index_Some in Ef as (vf & Hf & Hvf & _). apply last_index_Some in El as (vl & Hl & Hvl & _).
  rewrite (Honly _ _ Hf Hvf), (Honly _ _ Hl Hvl), Nat.ltb_irrefl. done.
Qed.

(** The walk finds the group with the wanted leaves, and nothing after it overwrites it. *)
Lemma target_walk_finds X edge n p0 q rng g found :
  canonical n = true -> NoDup (node_leaves n) -> canonical g = true ->
  group n q rng g -> X = list_to_set (node_leaves g) ->
  target_walk X edge n p0 found = Some (target_of edge (p0 ++ q) rng).
Proof.
  intros Hcan Hnd Hg Hgrp HX. revert p0 found.
  induction Hgrp as [n|d l1 l2 l3 Hout|d cs i c q rng g Hi Hgrp IH]; intros p0 found.
  - rewrite app_nil_r. assert (Hw : forall ids, ids = node_leaves n ->
      (length ids =? size X)%nat && forallb (fun id => bool_decide (id ∈ X)) ids = true).
    { intros ids ->. subst X. rewrite size_list_to_set, Nat.eqb_refl by done. apply forallb_forall.
      intros x Hx. apply bool_decide_eq_true. by apply elem_of_list_to_set, list_elem_of_In. }
    unfold target_of. destruct n as [id|d cs]; cbn [target_walk]; unfold target_visit; by rewrite Hw.
  - rewrite app_nil_r. cbn [target_walk]. apply target_visit_range with (d := d); [done|done|done| |done].
    by apply canonical_Split in Hg as [? _].
  - assert (HXc : forall x, x ∈ X -> x ∈ node_leaves c.1).
    { intros x Hx. subst X. apply elem_of_list_to_set in Hx.
      by apply (group_leaves_subseteq _ _ _ _ x Hgrp). }
    cbn [target_walk]. rewrite (target_visit_child X edge d cs i c) by done.
    assert (Hcc : canonical c.1 = true).
    { apply children_canonical in Hcan. rewrite Forall_map, Forall_lookup in Hcan. by apply (Hcan i). }
    assert (Hsz : (0 < size X)%nat).
    { subst X. apply node_at_NoDup with (p := [i]) (m := c.1) in Hnd; [|simpl; by rewrite Hi].
      rewrite size_list_to_set by (by eapply (group_NoDup c.1)).
      pose proof (canonical_leaves_pos _ Hg). lia. }
    change (node_leaves (Split d cs)) with (children_leaves cs) in Hnd.
    rewrite (children_leaves_middle _ _ _ Hi) in Hnd.
    destruct (NoDup_middle _ _ _ Hnd) as (_ & H3 & Hndc).
    rewrite <- (take_drop_middle _ _ _ Hi) at 1. rewrite fold_idx_app. cbn [fold_idx].
    rewrite length_take, Nat.min_l, Nat.add_0_l by (apply lookup_lt_Some in Hi; lia).
    rewrite IH by done. rewrite <- (assoc_L (++)).
    apply (fold_idx_ind (fun o => o = Some (target_of edge (p0 ++ [i] ++ q) rng))); [done|].
    intros j c' o Hj ->. apply target_walk_disjoint; [done|]. intros x Hx Hw.
    apply (H3 x); [|by apply HXc]. eapply children_leaves_elem; [|done].
    by eapply list_elem_of_lookup_2.
Qed.

End Groups.
