(* ===== verification/LathMove.v ===== *)
(** * Moving and removing panes (lib/src/lib/lath/ops.ts)

    [remove] is [normalize] of the tree without the leaf; [move] always lands
    the pane beside what is left of its target. *)
From Stdlib Require Import ZArith List Permutation Lia.
From S2P Require Import Prelude JsNum LathModel LathStructure LathLayout LathOps LathOpsFacts LathGroups.
#[local] Set Warnings "-register-all".

Section Move.
  Context {W : Type} `{N : JSNum W}.
  Implicit Types (n m g : LathNode W) (t : LathTree W) (cs : list (LathChild W)) (p q : list nat).

(** ** The tree without a leaf *)

Definition is_leaf (id : LeafId) n : Prop := n = Leaf id.

#[export] Instance is_leaf_dec id n : Decision (is_leaf id n).
Proof.
  refine (match n with Leaf i => if decide (i = id) then left _ else right _ | Split _ _ => right _ end);
    unfold is_leaf; [by subst|congruence|done].
Defined.

(** Every child that is the leaf [id] is dropped, at every level. *)
Fixpoint without (id : LeafId) n : LathNode W :=
  match n with
  | Leaf i => Leaf i
  | Split d cs =>
      Split d (concat (map (fun c =>
        if decide (is_leaf id c.1) then [] else [(without id c.1, c.2)]) cs))
  end.

Definition without_children (id : LeafId) cs : list (LathChild W) :=
  concat (map (fun c => if decide (is_leaf id c.1) then [] else [(without id c.1, c.2)]) cs).

Lemma without_children_app id cs1 cs2 :
  without_children id (cs1 ++ cs2) = without_children id cs1 ++ without_children id cs2.
Proof. unfold without_children. by rewrite map_app, concat_app. Qed.

Lemma without_children_cons id c cs :
  without_children id (c :: cs) =
    (if decide (is_leaf id c.1) then [] else [(without id c.1, c.2)]) ++ without_children id cs.
Proof. done. Qed.

Lemma without_absent id n : id ∉ node_leaves n -> without id n = n.
Proof.
  induction n as [i|d cs IH] using LathNode_ind'; intros Hn; [done|]. cbn [without]. f_equal.
  induction IH as [|[m w] cs Hm _ IHcs]; [done|]. simpl in Hn. apply not_elem_of_app in Hn as [H1 H2].
  simpl. rewrite decide_False by (intros ->; apply H1; by left). simpl in *.
  by rewrite IHcs, Hm.
Qed.

Lemma without_leaves id n :
  ~ is_leaf id n -> node_leaves (without id n) = Ops.leaves_without id (node_leaves n).
Proof.
  unfold Ops.leaves_without. induction n as [i|d cs IH] using LathNode_ind'; intros Hn.
  { simpl. rewrite filter_cons_True; [done|]. intros ->. by apply Hn. }
  change (children_leaves (without_children id cs) = filter (fun l => l <> id) (children_leaves cs)).
  clear Hn. unfold without_children, children_leaves.
  induction IH as [|[m w] cs Hm _ IHcs]; [done|]. simpl. rewrite filter_app, <- IHcs.
  destruct (decide (is_leaf id m)) as [Hl|Hl].
  - unfold is_leaf in Hl. subst m. simpl. by rewrite filter_cons_False by (intros H; by apply H).
  - simpl in *. by rewrite Hm.
Qed.

(** On a tree with distinct leaves, cutting the child [i] that is the leaf [id]
    is the tree without [id]. *)
Lemma without_children_absent id cs : id ∉ children_leaves cs -> without_children id cs = cs.
Proof.
  intros H. pose proof (without_absent id (Split Row cs) H) as E. cbn [without] in E. by injection E.
Qed.

Lemma cut_without id r pp d cs i w :
  NoDup (node_leaves r) -> node_at r pp = Some (Split d cs) -> cs !! i = Some (Leaf id, w) ->
  replaceAtPath r pp (Split d (remove_at i cs)) = without id r.
Proof.
  revert r. induction pp as [|j pp IH]; intros r Hnd Hpp Hi; simpl in Hpp.
  - simplify_eq. change (Split d (remove_at i cs) = Split d (without_children id cs)). f_equal.
    change (NoDup (children_leaves cs)) in Hnd.
    rewrite (children_leaves_middle _ _ _ Hi) in Hnd.
    destruct (NoDup_middle _ _ _ Hnd) as (H1 & H3 & _).
    unfold remove_at. rewrite <- (take_drop_middle _ _ _ Hi) at 3.
    rewrite without_children_app. f_equal.
    + symmetry. apply without_children_absent. intros Hx. apply (H1 id Hx). by left.
    + rewrite without_children_cons, decide_True by done. simpl. symmetry.
      apply without_children_absent. intros Hx. apply (H3 id Hx). by left.
  - destruct r as [|d0 cs0]; [done|]. destruct (cs0 !! j) as [c|] eqn:Hj; [|done].
    change (replaceAtPath (Split d0 cs0) (j :: pp) (Split d (remove_at i cs)) =
      Split d0 (without_children id cs0)). simpl. rewrite Hj. f_equal.
    change (NoDup (children_leaves cs0)) in Hnd.
    rewrite (children_leaves_middle _ _ _ Hj) in Hnd.
    destruct (NoDup_middle _ _ _ Hnd) as (H1 & H3 & Hndc).
    assert (Hid : id ∈ node_leaves c.1).
    { apply (node_at_leaves_subseteq _ _ _ Hpp). change (id ∈ children_leaves cs).
      eapply children_leaves_elem; [by eapply list_elem_of_lookup_2|]. by left. }
    rewrite (IH c.1 Hndc Hpp Hi), insert_take_drop by (by eapply lookup_lt_Some).
    rewrite <- (take_drop_middle _ _ _ Hj) at 3. rewrite without_children_app. f_equal.
    + symmetry. apply without_children_absent. intros Hx. by apply (H1 id Hx).
    + rewrite without_children_cons, decide_False.
      * simpl. f_equal. symmetry. apply without_children_absent. intros Hx. by apply (H3 id Hx).
      * intros Hl. unfold is_leaf in Hl. rewrite Hl in Hpp. by destruct pp.
Qed.

(** [remove] in terms of [without]. *)
Lemma remove_without t id r :
  well_formed t -> root t = Some r -> id ∈ node_leaves r ->
  (Ops.remove t id).1.1 = mkTree (if decide (is_leaf id r) then None else normalize (without id r)).
Proof.
  intros Hwf Hr Hid.
  assert (Hin : id ∈ leaves t) by (unfold leaves; by rewrite Hr).
  pose proof (well_formed_NoDup _ Hwf) as Hnd. unfold leaves in Hnd. rewrite Hr in Hnd.
  destruct (remove_cases t id Hwf Hin) as [[Hr' ->]|(r' & p & i & d & cs & w & s & Hr' & _ & Hp & Hi & _ & ->)];
    rewrite Hr in Hr'; simplify_eq; simpl.
  - by rewrite decide_True.
  - rewrite decide_False by (intros ->; by destruct p). by rewrite (cut_without id _ _ _ _ _ _ Hnd Hp Hi).
Qed.

(** ** Groups in the tree without a leaf *)

Lemma grp_range d (l1 l2 l3 : list (LathChild W)) : grp (Split d (l1 ++ l2 ++ l3)) (Split d l2).
Proof.
  destruct (decide (l1 = [] /\ l3 = [])) as [[-> ->]|H].
  - rewrite app_nil_r. exists [], None. constructor.
  - do 2 eexists. apply group_range. destruct l1; [right|by left]. intros ->. by apply H.
Qed.

Lemma grp_child d cs c g : c ∈ cs -> grp c.1 g -> grp (Split d cs) g.
Proof.
  intros Hc (p & rng & Hg). apply list_elem_of_lookup in Hc as [i Hi].
  exists (i :: p), rng. by eapply group_child.
Qed.

Lemma group_without id n p rng g :
  group n p rng g -> ~ is_leaf id g -> grp (without id n) (without id g).
Proof.
  induction 1 as [n|d l1 l2 l3 Hout|d cs i c p rng g Hi Hg IH]; intros Hl.
  - exists [], None. constructor.
  - change (grp (Split d (without_children id (l1 ++ l2 ++ l3))) (Split d (without_children id l2))).
    rewrite !without_children_app. apply grp_range.
  - change (grp (Split d (without_children id cs)) (without id g)).
    apply (grp_child _ _ (without id c.1, c.2)); [|by apply IH].
    rewrite <- (take_drop_middle _ _ _ Hi), without_children_app, without_children_cons, decide_False.
    + apply elem_of_app. right. by left.
    + intros Hc. unfold is_leaf in Hc. rewrite Hc in Hg. inversion Hg; subst. by apply Hl.
Qed.

(** ** Drop targets name groups *)

Lemma group_node_at r q n rng g : node_at r q = Some n -> group n [] rng g -> group r q rng g.
Proof.
  revert r. induction q as [|i q IH]; intros r Hq Hg; simpl in Hq; [by simplify_eq|].
  destruct r as [|d cs]; [done|]. destruct (cs !! i) as [c|] eqn:Hi; [|done].
  eapply group_child; [done|]. by apply IH.
Qed.

(** The group a resolved target stands for. *)
Lemma materialize_group t r et t' p m :
  root t = Some r -> materializeTarget t et = Some (t', p) -> nodeAtPath t' p = Some m ->
  exists q rng g, group r q rng g /\ same_shape m g /\ (canonical r = true -> canonical g = true).
Proof.
  intros Hr H Hm. unfold materializeTarget in H.
  destruct (nodeAtPath t (et_path et)) as [node|] eqn:Hn; [|done]. rewrite Hr in H.
  unfold nodeAtPath in *. rewrite Hr in Hn.
  assert (Hwhole : forall q g, node_at r q = Some g ->
    exists q' rng g', group r q' rng g' /\ same_shape g g' /\ (canonical r = true -> canonical g' = true)).
  { intros q g Hg. exists q, None, g. split_all; [|done|].
    - eapply group_node_at; [done|constructor].
    - intros Hc. by eapply node_at_canonical. }
  destruct (et_range et) as [[a b]|].
  2:{ simplify_eq. rewrite Hr, Hn in Hm. simplify_eq. by eapply Hwhole. }
  destruct node as [id|d cs]; [done|].
  destruct ((a <? 0)%Z || _ || _) eqn:Hb; [done|].
  apply orb_false_iff in Hb as [Hb Hb3]. apply orb_false_iff in Hb as [Hb1 Hb2].
  destruct (b - a =? _)%Z eqn:Hfull; simplify_eq.
  { rewrite Hr, Hn in Hm. simplify_eq. by eapply Hwhole. }
  apply Z.eqb_neq in Hfull. cbn [root] in Hm.
  set (i := Z.to_nat a) in *. set (j := Z.to_nat b) in *.
  rewrite node_at_app, (node_at_replaceAtPath _ _ _ _ Hn) in Hm. unfold grouped in Hm.
  cbn [node_at] in Hm. rewrite lookup_app_r in Hm by (rewrite length_take; lia).
  rewrite length_take, Nat.min_l, Nat.sub_diag in Hm by lia. simpl in Hm. simplify_eq.
  assert (Hlen : length (slice i j cs) = (j - i)%nat) by (apply slice_length; lia).
  exists (et_path et), (Some (length (take i cs), length (take i cs ++ slice i j cs))), (Split d (slice i j cs)).
  split_all.
  - eapply group_node_at; [exact Hn|]. rewrite (slice_split i j cs) at 1 by lia. apply group_range.
    rewrite <- !length_zero_iff_nil, length_take, length_drop. lia.
  - apply same_shape_fst, normalizeWeights_fst.
  - intros Hc. apply (node_at_canonical _ _ _ Hn) in Hc. apply canonical_Split in Hc as [_ Hc].
    apply canonical_Split. split; [lia|]. rewrite (slice_split i j cs), !map_app in Hc by lia.
    apply Forall_app in Hc as [_ Hc]. by apply Forall_app in Hc as [? _].
Qed.

(** A group's target resolves, to a node of the group's shape. *)
Lemma target_of_resolves t r edge q rng g :
  root t = Some r -> group r q rng g -> canonical g = true ->
  exists t' p m, resolves t (target_of edge q rng) t' p m /\ same_shape m g.
Proof.
  intros Hr Hg Hc.
  assert (G : exists t' p m, materializeTarget t (target_of edge q rng) = Some (t', p) /\
    nodeAtPath t' p = Some m /\ same_shape m g).
  2:{ destruct G as (t' & p & m & Hmat & Hm & Hs). exists t', p, m. split; [|done].
      destruct (materialize_resolves _ _ _ _ Hmat) as (m' & Hres). pose proof Hres as (_ & Hm' & _).
      rewrite Hm in Hm'. by simplify_eq. }
  assert (Hcases : (rng = None /\ node_at r q = Some g) \/
    exists d l1 l2 l3, node_at r q = Some (Split d (l1 ++ l2 ++ l3)) /\ g = Split d l2 /\
      (l1 <> [] \/ l3 <> []) /\ rng = Some (length l1, length (l1 ++ l2))).
  { clear Hc Hr. induction Hg as [n|d l1 l2 l3 Hout|d cs i c p rng g Hi Hg IH]; [by left| |].
    - right. by exists d, l1, l2, l3.
    - simpl. by rewrite Hi. }
  unfold materializeTarget, target_of, nodeAtPath. rewrite Hr. cbn [et_path et_range].
  destruct Hcases as [[-> Hq]|(d & l1 & l2 & l3 & Hq & -> & Hout & ->)]; rewrite Hq; simpl.
  { exists t, q, g. split_all; [done| |done]. by rewrite Hr. }
  apply canonical_Split in Hc as [Hl2 _].
  destruct ((_ <? 0)%Z || _ || _) eqn:Hb.
  { exfalso. rewrite !length_app in Hb. rewrite !orb_true_iff, !Z.ltb_lt in Hb. lia. }
  rewrite (proj2 (Z.eqb_neq _ _)).
  2:{ rewrite !length_app. destruct Hout as [Ho|Ho]; [destruct l1|destruct l3]; simpl; try done; lia. }
  do 3 eexists. split; [done|]. cbn [root]. rewrite !Nat2Z.id.
  rewrite node_at_app, (node_at_replaceAtPath _ _ _ _ Hq). unfold grouped.
  rewrite slice_middle, take_app_length. cbn [node_at].
  rewrite lookup_app_r, Nat.sub_diag by lia. simpl. split; [done|].
  apply same_shape_fst, normalizeWeights_fst.
Qed.

(** [targetByLeafSet] finds every group of a well-formed tree. *)
Lemma targetByLeafSet_finds t r edge q rng g :
  well_formed t -> root t = Some r -> group r q rng g -> canonical g = true ->
  targetByLeafSet t (list_to_set (node_leaves g)) edge = Some (target_of edge q rng).
Proof.
  intros Hwf Hr Hg Hc. unfold targetByLeafSet. rewrite Hr.
  unfold well_formed in Hwf. rewrite Hr in Hwf. destruct Hwf as [Hcr Hnd].
  rewrite size_list_to_set by (by eapply group_NoDup). pose proof (canonical_leaves_pos _ Hc).
  rewrite (proj2 (Nat.eqb_neq _ _)) by lia.
  by apply (target_walk_finds _ _ _ [] q rng g).
Qed.

(** ** move *)

Lemma insertImpl_succeeds t id et size keep r t' p :
  root t = Some r -> id ∉ leaves t -> Ops.size_is_nan size = false ->
  materializeTarget t et = Some (t', p) ->
  exists t'', Ops.insertImpl t id (TEdge et) size keep = (t'', true).
Proof.
  intros Hr Hid Hnan Hmat. unfold Ops.insertImpl.
  rewrite Hnan, Hr, (proj2 (findLeafPath_None _ _)), Hmat by done. eauto.
Qed.

Lemma moveSize_is_Some t id et t' p :
  well_formed t -> id ∈ leaves t -> materializeTarget t et = Some (t', p) ->
  is_Some (Ops.moveSize t id et).
Proof.
  intros Hwf Hid Hmat. unfold Ops.moveSize. rewrite Hmat.
  apply findLeafPath_is_Some in Hid as [q Hq]. rewrite Hq.
  destruct (findLeafPath_Some _ _ _ Hq) as (r & Hr & Hat).
  case_match; [done|]. destruct q as [|k q']; [done|].
  rewrite (path_snoc (k :: q')) in Hat by done.
  destruct (node_at_snoc _ _ _ _ Hat) as (d & cs & c & Hpp & Hi & _).
  unfold nodeAtPath. by rewrite Hr, Hpp, Hi.
Qed.

Lemma without_empty id (l : list LeafId) :
  NoDup l -> l <> [] -> l <> [id] -> Ops.leaves_without id l <> [].
Proof.
  intros Hnd Hne Hid E. unfold Ops.leaves_without in E.
  assert (Hall : forall x, x ∈ l -> x = id).
  { intros x Hx. destruct (decide (x = id)) as [|Hx']; [done|]. exfalso.
    assert (x ∈ filter (fun l => l <> id) l) as Hf by by apply list_elem_of_filter.
    rewrite E in Hf. by apply elem_of_nil in Hf. }
  destruct l as [|x l]; [done|]. assert (x = id) as -> by (apply Hall; by left).
  destruct l as [|y l]; [done|]. assert (y = id) as -> by (apply Hall; right; by left).
  apply NoDup_cons in Hnd as [Hn _]. apply Hn. by left.
Qed.

(** The node a resolved target names, and what is left of it once [id] is out. *)
Lemma target_survivors t id et t1 p m r :
  well_formed t -> root t = Some r -> id ∈ leaves t -> resolves t et t1 p m ->
  node_leaves m <> [id] ->
  exists r2 q rng g, (Ops.remove t id).1.1 = mkTree (Some r2) /\ group r2 q rng g /\
    canonical g = true /\ node_leaves g = Ops.leaves_without id (node_leaves m).
Proof.
  intros Hwf Hr Hid (Hmat & Hm & _) Hne.
  destruct (materialize_group _ _ _ _ _ _ Hr Hmat Hm) as (q & rng & g & Hg & Hsh & Hcg).
  pose proof Hwf as Hwf'. unfold well_formed in Hwf'. rewrite Hr in Hwf'. destruct Hwf' as [Hcan Hnd].
  specialize (Hcg Hcan). apply same_shape_leaves in Hsh. rewrite Hsh in *.
  assert (Hgl : ~ is_leaf id g) by (intros ->; done).
  assert (Hrl : ~ is_leaf id r) by (intros ->; inversion Hg; subst; by apply Hgl).
  unfold leaves in Hid. rewrite Hr in Hid.
  rewrite (remove_without _ _ _ Hwf Hr Hid), decide_False by done.
  destruct (normalize_grp (without id r) (without id g)) as (r2 & m0 & g' & E & Em & Hg' & Hsh').
  - by eapply group_without.
  - rewrite without_leaves by done. apply without_empty; [by eapply group_NoDup| |done].
    pose proof (canonical_leaves_pos _ Hcg). by destruct (node_leaves g); [simpl in *; lia|].
  - destruct Hg' as (q' & rng' & Hg'). exists r2, q', rng', g'. rewrite E. split_all; [done|done| |].
    + rewrite (same_shape_canonical _ _ Hsh'). by eapply normalize_canonical.
    + rewrite (same_shape_leaves _ _ Hsh'), (normalize_Some_leaves _ _ Em). by apply without_leaves.
Qed.

(** A move onto a resolved target that holds another pane succeeds, and puts the
    pane on the target's edge, beside the target's other panes. *)
Lemma move_edge t id et t1 p m :
  well_formed t -> id ∈ leaves t -> resolves t et t1 p m -> node_leaves m <> [id] ->
  (forall w, Ops.moveSize t id et = Some (SizeWeight w) -> nis_nan w = false) ->
  exists t' l1 l2, Ops.move t id (TEdge et) = (t', true) /\ well_formed t' /\
    Ops.leaves_without id (leaves t) = l1 ++ Ops.leaves_without id (node_leaves m) ++ l2 /\
    leaves t' = l1 ++ beside (et_edge et) id (Ops.leaves_without id (node_leaves m)) ++ l2.
Proof.
  intros Hwf Hid Hres Hne Hnan. pose proof Hres as (Hmat & Hm & _).
  destruct (proj1 (find_root t id) (proj2 (findLeafPath_is_Some t id) Hid)) as (r & Hr & _).
  destruct (target_survivors _ _ _ _ _ _ _ Hwf Hr Hid Hres Hne) as (r2 & q & rng & g & Ht2 & Hg & Hcg & Hlg).
  pose proof (remove_well_formed t id Hwf) as Hwf2.
  pose proof (remove_leaves t id Hwf Hid) as [Hl2 _]. rewrite Ht2 in Hwf2, Hl2.
  destruct (moveSize_is_Some _ _ _ _ _ Hwf Hid Hmat) as [size Hsize].
  pose proof (targetByLeafSet_finds _ _ (et_edge et) q rng g Hwf2 eq_refl Hg Hcg) as Hfind.
  destruct (target_of_resolves (mkTree (Some r2)) r2 (et_edge et) q rng g eq_refl Hg Hcg)
    as (t3 & p3 & m3 & Hres3 & Hsh3).
  assert (Hnan' : Ops.size_is_nan size = false) by (destruct size; [by apply Hnan|done]).
  assert (Hid2 : id ∉ leaves (mkTree (Some r2))).
  { rewrite Hl2. unfold Ops.leaves_without. intros Hx. apply list_elem_of_filter in Hx as [Hx _]. done. }
  unfold Ops.move. apply findLeafPath_is_Some in Hid as [idPath Hpath].
  rewrite Hpath, Hmat, Hm, Hsize, Ht2. rewrite bool_decide_false by done.
  rewrite <- Hlg, Hfind. set (own := Ops.own_split _ _ _).
  destruct (insertImpl_succeeds (mkTree (Some r2)) id (target_of (et_edge et) q rng) size own r2 t3 p3)
    as [t' Ht']; [done..|apply Hres3|]. rewrite Ht'. cbn [fst snd negb].
  destruct (insertImpl_ok _ _ _ _ _ _ (well_formed_NoDup _ Hwf2) Ht') as (_ & Hwf' & t4 & p4 & m4 & l1 & l2 & Hres4 & E1 & E2).
  destruct Hres3 as (Hmat3 & Hm3 & _), Hres4 as (Hmat4 & Hm4 & _).
  rewrite Hmat3 in Hmat4. injection Hmat4 as <- <-. rewrite Hm3 in Hm4. injection Hm4 as <-.
  rewrite (same_shape_leaves _ _ Hsh3) in E1, E2. rewrite Hl2 in E1.
  destruct (Ops.same_arrangement t' t) eqn:Hsame.
  - exists t, l1, l2. split_all; [done..|]. etrans; [|exact E2]. unfold Ops.same_arrangement in Hsame.
    unfold leaves. rewrite Hr in *. destruct (root t') as [r'|]; [|done].
    apply bool_decide_eq_true, structureFingerprint_inj in Hsame. symmetry. by apply same_shape_leaves.
  - by exists t', l1, l2.
Qed.

Lemma move_edge_rejects t id et :
  id ∉ leaves t \/ materializeTarget t et = None \/
    (exists t1 p m, resolves t et t1 p m /\ node_leaves m = [id]) ->
  Ops.move t id (TEdge et) = (t, false).
Proof.
  intros H. unfold Ops.move. destruct (findLeafPath t id) as [q|] eqn:Hq; [|done].
  destruct H as [H|[H|(t1 & p & m & (Hmat & Hm & _) & Hl)]].
  - by apply findLeafPath_None in H; rewrite H in Hq.
  - by rewrite H.
  - rewrite Hmat, Hm, Hl. by rewrite bool_decide_true.
Qed.

End Move.
