(* ===== verification/LathValid.v ===== *)
(** * The numerical invariant under the Lath operations (lib/src/lib/lath/ops.ts)

    With exact weights every operation keeps positive weights that sum to 1 in
    each split. *)
From Stdlib Require Import ZArith QArith Qminmax Lqa Lia List.
From Stdlib Require Import ZArith QArith Qminmax Lqa List Permutation Lia.
From S2P Require Import Prelude JsNum LathModel LathStructure LathWeights LathLayout LathOps LathOpsFacts.
From S2P Require Import LathGroups LathMove.
#[local] Set Warnings "-register-all".

Section exact.
Implicit Types (n m r : LathNode Q) (t : LathTree Q) (cs : list (LathChild Q)) (p q : list nat).

Definition tree_pos t : Prop := match root t with Some n => weights_pos n = true | None => True end.
Definition tree_ok t : Prop := match root t with Some n => weights_ok n = true | None => True end.

Lemma tree_ok_pos t : tree_ok t -> tree_pos t.
Proof. unfold tree_ok, tree_pos. destruct (root t); [apply weights_ok_pos|done]. Qed.

Lemma tree_ok_normalized n : weights_pos n = true -> tree_ok (mkTree (normalize n)).
Proof.
  intros H. unfold tree_ok. cbn [root]. destruct (normalize n) as [m|] eqn:E; [|done].
  by eapply normalize_weights_ok.
Qed.

(** The rebuilt tree after replacing a node by one of positive weights. *)
Lemma tree_ok_rebuild n p x :
  weights_pos n = true -> weights_pos x = true -> tree_ok (mkTree (normalize (replaceAtPath n p x))).
Proof. intros. by apply tree_ok_normalized, weights_pos_replaceAtPath. Qed.

Lemma weights_ok_replaceAtPath n p r :
  weights_ok n = true -> weights_ok r = true -> weights_ok (replaceAtPath n p r) = true.
Proof.
  intros Hn Hr. revert n Hn. induction p as [|i p IH]; intros n Hn; simpl; [done|].
  destruct n as [|d cs]; [done|]. destruct (cs !! i) as [c|] eqn:Hi; [|done].
  apply weights_ok_Split in Hn as (H1 & H2 & H3). apply weights_ok_Split.
  assert (Hws : (map snd (<[i := (replaceAtPath c.1 p r, c.2)]> cs) : list Q) = map snd cs).
  { rewrite (list_fmap_insert snd). apply list_insert_id. by rewrite (list_lookup_fmap snd), Hi. }
  rewrite Forall_map in H3. split_all.
  - apply pos_children_ws. rewrite Hws. by apply pos_children_ws.
  - by rewrite Hws.
  - rewrite Forall_map. apply Forall_insert; [done|]. cbn [fst]. apply IH.
    rewrite Forall_lookup in H3. by apply (H3 i).
Qed.

Lemma node_at_pos n p m : node_at n p = Some m -> weights_pos n = true -> weights_pos m = true.
Proof.
  revert n. induction p as [|i p IH]; intros n H Hc; simpl in H; [congruence|].
  destruct n as [|d cs]; [done|]. destruct (cs !! i) as [c|] eqn:Hi; [|done].
  apply (IH _ H). apply weights_pos_Split in Hc as [_ Hc].
  rewrite Forall_map, Forall_lookup in Hc. by apply (Hc i).
Qed.

(** A children list of positive weights and nodes. *)
Definition cpos cs : Prop := pos_children cs /\ Forall (fun n => weights_pos n = true) (map fst cs).

Lemma cpos_nil : cpos [].
Proof. split; constructor. Qed.

Lemma cpos_cons n (w : Q) cs : weights_pos n = true -> (0 < w)%Q -> cpos cs -> cpos ((n, w) :: cs).
Proof. intros ? ? []. split; by constructor. Qed.

Lemma cpos_app cs1 cs2 : cpos (cs1 ++ cs2) <-> cpos cs1 /\ cpos cs2.
Proof. unfold cpos, pos_children. rewrite map_app, !Forall_app. tauto. Qed.

Lemma cpos_take i cs : cpos cs -> cpos (take i cs).
Proof. intros H. rewrite <- (take_drop i cs) in H. by apply cpos_app in H as [? _]. Qed.

Lemma cpos_drop i cs : cpos cs -> cpos (drop i cs).
Proof. intros H. rewrite <- (take_drop i cs) in H. by apply cpos_app in H as [_ ?]. Qed.

Lemma cpos_splice i n (w : Q) cs :
  weights_pos n = true -> (0 < w)%Q -> cpos cs -> cpos (splice_in i (n, w) cs).
Proof.
  intros. unfold splice_in. apply cpos_app. split; [by apply cpos_take|].
  apply cpos_cons; [done..|]. by apply cpos_drop.
Qed.

Lemma cpos_normalizeWeights cs : cpos cs -> cpos (normalizeWeights cs).
Proof. intros []. split; [by apply normalizeWeights_pos_children|]. by rewrite normalizeWeights_fst. Qed.

Lemma cpos_scale (k : Q) cs : (0 < k)%Q -> cpos cs -> cpos (map (fun c => (c.1, c.2 * k)%Q) cs).
Proof.
  intros Hk [H1 H2]. split; [|by rewrite map_map].
  unfold pos_children in *. rewrite Forall_map. eapply Forall_impl; [exact H1|].
  intros c Hc. cbn in *. nra.
Qed.

Lemma cpos_lookup cs i c : cpos cs -> cs !! i = Some c -> weights_pos c.1 = true /\ (0 < c.2)%Q.
Proof.
  intros [H1 H2] Hi. unfold pos_children in H1. rewrite Forall_map in H2.
  rewrite Forall_lookup in H1, H2. split; [by apply (H2 i)|by apply (H1 i)].
Qed.

Lemma cpos_insert cs i n (w : Q) :
  cpos cs -> weights_pos n = true -> (0 < w)%Q -> cpos (<[i := (n, w)]> cs).
Proof.
  intros [H1 H2] Hn Hw. split.
  - by apply Forall_insert.
  - rewrite (list_fmap_insert fst). by apply Forall_insert.
Qed.

(** A valid split's weights lie in (0, 1]. *)
Lemma weight_le_1 d cs i c : weights_ok (Split d cs) = true -> cs !! i = Some c -> (0 < c.2 <= 1)%Q.
Proof.
  intros H Hi. apply weights_ok_Split in H as (H1 & H2 & _). apply pos_children_ws in H1.
  assert (Hin : (map snd cs : list Q) !! i = Some c.2) by by rewrite (list_lookup_fmap snd), Hi.
  rewrite <- (take_drop_middle _ _ _ Hin) in H1, H2.
  rewrite nsum_app, nsum_cons in H2. apply Forall_app in H1 as [Ha Hb]. apply Forall_cons in Hb as [Hc Hb].
  assert (Hnn : forall xs : list Q, Forall (fun x => 0 < x)%Q xs -> (0 <= nsum xs)%Q).
  { intros [|x xs] Hx; [by rewrite nsum_nil|]. apply Qlt_le_weak, nsum_pos; done. }
  apply Hnn in Ha, Hb. lra.
Qed.

Lemma cpos_ok d cs : weights_pos (Split d cs) = true <-> cpos cs.
Proof. apply weights_pos_Split. Qed.

(** ** The operations *)

Lemma edge_pair_pos edge id n (w1 w2 : Q) :
  weights_pos n = true -> (0 < w1)%Q -> (0 < w2)%Q ->
  weights_pos (Ops.edge_pair edge (Ops.mkLeaf id, w1) (n, w2)) = true.
Proof.
  intros. unfold Ops.edge_pair. apply cpos_ok.
  destruct (edgeIsBefore edge); repeat apply cpos_cons; done || apply cpos_nil.
Qed.

Lemma split_weights t at_ edge newId : tree_ok t -> tree_ok (Ops.split t at_ edge newId).1.
Proof.
  intros H. unfold Ops.split. destruct (root t) as [r|] eqn:Hr; [|done].
  destruct (findLeafPath t at_); [|done]. destruct (findLeafPath t newId); [done|].
  unfold tree_ok in H. rewrite Hr in H. apply tree_ok_rebuild; [by apply weights_ok_pos|].
  by apply edge_pair_pos.
Qed.

Lemma remove_weights t id : tree_ok t -> tree_ok (Ops.remove t id).1.1.
Proof.
  intros H. unfold Ops.remove. pose proof H as H'. unfold tree_ok in H. destruct (root t) as [r|] eqn:Hr; [|done].
  destruct (findLeafPath t id) as [[|k q]|]; [done| |done].
  unfold nodeAtPath. rewrite Hr. destruct (node_at r _) as [[i|d cs]|] eqn:Hn; try done.
  repeat case_match; try done. apply tree_ok_rebuild; [by apply weights_ok_pos|].
  apply weights_ok_pos in H. apply (node_at_pos _ _ _ Hn), cpos_ok in H.
  apply cpos_ok. unfold remove_at. apply cpos_app. split; [by apply cpos_take|by apply cpos_drop].
Qed.

Lemma replace_weights t a b : tree_ok t -> tree_ok (Ops.replace t a b).1.
Proof.
  intros H. unfold Ops.replace. pose proof H as H'. unfold tree_ok in H.
  destruct (root t) as [r|] eqn:Hr; [|done]. repeat case_match; [done| |done].
  unfold tree_ok. cbn [fst root]. by apply weights_ok_replaceAtPath.
Qed.

Lemma swap_weights t a b : tree_ok t -> tree_ok (Ops.swap t a b).1.
Proof.
  intros H. unfold Ops.swap. case_match; [done|]. pose proof H as H'. unfold tree_ok in H.
  destruct (root t) as [r|] eqn:Hr; [|done]. repeat case_match; [|done..].
  unfold tree_ok. cbn [fst root]. by do 2 (apply weights_ok_replaceAtPath; [|done]).
Qed.

Lemma materialize_pos t et t' p : tree_ok t -> materializeTarget t et = Some (t', p) -> tree_pos t'.
Proof.
  intros H Hm. unfold materializeTarget, nodeAtPath in Hm. pose proof (tree_ok_pos _ H) as Hp.
  unfold tree_ok in H. destruct (root t) as [r|] eqn:Hr; [|done].
  destruct (node_at r (et_path et)) as [node|] eqn:Hn; [|done].
  destruct (et_range et) as [[a b]|]; [|by simplify_eq].
  destruct node as [|d cs]; [done|]. destruct ((a <? 0)%Z || _ || _) eqn:Hb; [done|].
  apply orb_false_iff in Hb as [Hb Hb3]. apply orb_false_iff in Hb as [Hb1 Hb2].
  case_match; simplify_eq; [done|]. unfold tree_pos. cbn [root].
  apply weights_ok_pos in H. apply weights_pos_replaceAtPath; [done|].
  apply (node_at_pos _ _ _ Hn), cpos_ok in H. unfold grouped. apply cpos_ok.
  assert (Hs : cpos (slice (Z.to_nat a) (Z.to_nat b) cs)) by by apply cpos_take, cpos_drop.
  apply cpos_app. split; [by apply cpos_take|]. apply cpos_cons; [| |by apply cpos_drop].
  - apply cpos_ok. by apply cpos_normalizeWeights.
  - apply nsum_pos; [apply pos_children_ws, Hs|]. intros E. apply (f_equal length) in E.
    rewrite length_map, slice_length in E by lia. simpl in E. lia.
Qed.

Lemma insertBesideNode_weights t p edge id (w : Q) share :
  tree_pos t -> (0 < w < 1)%Q ->   is_Some (nodeAtPath t p) -> tree_ok (Ops.insertBesideNode t p edge id w share).
Proof.
  intros H [Hw0 Hw1] [x Hx]. unfold Ops.insertBesideNode, nodeAtPath in *. unfold tree_pos in H.
  destruct (root t) as [r|] eqn:Hr; [|done].
  assert (Hnest : forall m, weights_pos m = true ->
    weights_pos (Ops.edge_pair edge (Ops.mkLeaf id, w) (m, (1 - w)%Q)) = true).
  { intros m Hm. apply edge_pair_pos; [done|done|lra]. }
  destruct p as [|k q]; [by apply tree_ok_normalized, Hnest|]. rewrite Hx.
  assert (Hn : tree_ok (mkTree (normalize (replaceAtPath r (k :: q)
    (Ops.edge_pair edge (Ops.mkLeaf id, w) (x, (1 - w)%Q)))))).
  { apply tree_ok_rebuild; [done|]. apply Hnest. by eapply node_at_pos. }
  destruct (node_at r (removelast (k :: q))) as [[|d cs]|] eqn:Hpp; [done| |done].
  case_decide; [|done]. apply tree_ok_rebuild; [done|]. apply cpos_ok, cpos_normalizeWeights.
  apply (node_at_pos _ _ _ Hpp), cpos_ok in H. unfold Ops.inserted_children.
  assert (Hsc : forall k : Q, (0 < k)%Q -> cpos (map (fun c => (c.1, nmul c.2 k)) cs)).
  { intros ? ?. by apply cpos_scale. }
  assert (H1 : (0 < n1 (W:=Q))%Q) by reflexivity.
  destruct share; [by apply cpos_splice, Hsc|apply cpos_splice; [done..|apply Hsc; cbn; lra]|].
  destruct (map _ cs !! _) as [c|] eqn:Hc; [|by apply cpos_splice, Hsc].
  destruct (cpos_lookup _ _ _ (Hsc n1 H1) Hc) as [Hc1 Hc2].
  assert (Hhalf : (0 < c.2 / 2)%Q) by (apply Qlt_shift_div_l; lra).
  apply cpos_splice; [done|exact Hhalf|]. apply cpos_insert; [by apply Hsc|done|exact Hhalf].
Qed.

Lemma size_weight_bounds (size : InsertSize Q) : (0 < Ops.size_weight size < 1)%Q.
Proof.
  destruct size as [w|]; cbn; [|by split]. unfold Qminus. 
  destruct (Q.min_spec (Qmax w (1 # 1000000)) (1 + - (1 # 1000000))) as [[? ->]|[? ->]]; [|by split].
  destruct (Q.max_spec w (1 # 1000000)) as [[? E]|[? E]]; rewrite E in *; lra.
Qed.

Lemma insertImpl_weights t id target size keep :
  tree_ok t -> tree_ok (Ops.insertImpl t id target size keep).1.
Proof.
  intros H. unfold Ops.insertImpl. destruct target as [et|]; [|done].
  destruct (Ops.size_is_nan size); [done|]. destruct (root t); [|done].
  destruct (findLeafPath t id); [done|].
  destruct (materializeTarget t et) as [[t' p]|] eqn:Hm; [|done]. cbn [fst].
  destruct (materialize_resolves _ _ _ _ Hm) as (m & _ & Hm' & _).
  apply insertBesideNode_weights; [by eapply materialize_pos|apply size_weight_bounds|by exists m].
Qed.

Lemma move_weights t id target : tree_ok t -> tree_ok (Ops.move t id target).1.
Proof.
  intros H. unfold Ops.move. destruct target as [et|leaf]; [|by apply swap_weights].
  destruct (findLeafPath t id); [|done]. destruct (materializeTarget t et) as [[t' p]|]; [|done].
  cbv zeta. destruct (bool_decide _); [done|]. destruct (Ops.moveSize t id et); [|done].
  destruct (targetByLeafSet _ _ _); [|done]. destruct (negb _); [done|].
  destruct (Ops.same_arrangement _ _); [done|]. apply insertImpl_weights. by apply remove_weights.
Qed.

(** The weights [resize] reads off the visible spans. *)
Lemma cpos_rebased cs (spans : list Q) :
  Forall (fun n => weights_pos n = true) (map fst cs) ->
  cpos (zip_with (fun c s => (c.1, nmax s n1e6)) cs spans).
Proof.
  revert spans. induction cs as [|c cs IH]; intros [|s spans] H; [apply cpos_nil..|]. simpl in *.
  apply Forall_cons in H as [Hc Hcs]. apply cpos_cons; [done| |by apply IH].
  cbn. assert (0 < (1 # 1000000))%Q by reflexivity.
  destruct (Q.max_spec s (1 # 1000000)) as [[? E]|[? E]]; rewrite E; lra.
Qed.

Lemma resize_weights t p boundary (delta : Q) rect opts :
  tree_ok t -> tree_ok (Ops.resize t p boundary delta rect opts).1.
Proof.
  intros H. unfold Ops.resize, nodeAtPath. pose proof H as H'. unfold tree_ok in H.
  destruct (root t) as [r|] eqn:Hr; [|done].
  destruct (node_at r p) as [[i|d cs]|] eqn:Hn; [done| |done].
  destruct (_ || _ || _); [done|]. destruct (nodeRectAtPath _ _ _ _); [|done]. cbv zeta.
  destruct (nleb _ _); [done|].
  case_goal; [|done]. case_goal; [|done]. case_goal; [|done]. case_goal; [|done].
  destruct (neqb _ _); [done|].
  apply weights_ok_pos in H. apply tree_ok_rebuild; [done|].
  apply (node_at_pos _ _ _ Hn), cpos_ok in H as [_ Hcs]. apply cpos_ok, cpos_normalizeWeights.
  by apply cpos_rebased.
Qed.

End exact.

(** ** Restoring a removed pane (lib/src/lib/lath/ops.ts)

    What [restore] does in each of its tiers, and the round trip with [remove]. *)

Section Restore.
  Context {W : Type} `{N : JSNum W}.
  Implicit Types (n m g : LathNode W) (t : LathTree W) (cs : list (LathChild W)) (p q : list nat).

(** ** Splits by their fingerprint *)

Lemma find_split_sound fp n p :
  Ops.find_split fp n = Some p ->
  exists d cs, node_at n p = Some (Split d cs) /\ structureFingerprint (Split d cs) = fp.
Proof.
  revert p. induction n as [i|d cs IH] using LathNode_ind'; intros p H; [done|].
  cbn [Ops.find_split] in H. case_bool_decide as Hfp; [simplify_eq; by exists d, cs|].
  destruct (first_at _ 0 cs) as [[k q]|] eqn:E; simplify_eq.
  apply first_at_Some in E as (j & c & -> & Hj & Hc & _). rewrite Forall_lookup in IH.
  destruct (IH j c Hj q Hc) as (d' & cs' & Hat & Hf). exists d', cs'. split; [|done].
  simpl. by rewrite Hj.
Qed.

Lemma find_split_leaves fp n p d cs :
  Ops.find_split fp n = Some p -> structureFingerprint (Split d cs) = fp ->
  node_leaves (Split d cs) ⊆ node_leaves n.
Proof.
  intros H <-. apply find_split_sound in H as (d' & cs' & Hat & Hf).
  apply structureFingerprint_inj in Hf. apply same_shape_leaves in Hf. rewrite <- Hf.
  by eapply node_at_leaves_subseteq.
Qed.

(** A split of a canonical tree with distinct leaves is the one its fingerprint finds. *)
Lemma find_split_finds n p d cs :
  canonical n = true -> NoDup (node_leaves n) -> node_at n p = Some (Split d cs) ->
  Ops.find_split (structureFingerprint (Split d cs)) n = Some p.
Proof.
  intros Hcan Hnd Hp. set (fp := structureFingerprint (Split d cs)).
  revert p Hp. induction n as [i|d0 cs0 IH] using LathNode_ind'; intros p Hp; [by destruct p|].
  pose proof (node_at_canonical _ _ _ Hp Hcan) as Hcs.
  cbn [Ops.find_split]. destruct p as [|j p].
  { simpl in Hp. simplify_eq. by rewrite bool_decide_true. }
  simpl in Hp. destruct (cs0 !! j) as [c|] eqn:Hj; [|done].
  pose proof (node_at_leaves_subseteq _ _ _ Hp) as Hsub.
  pose proof Hcan as Hcan'. apply children_canonical in Hcan'.
  apply canonical_Split in Hcan as [Hlen _].
  change (NoDup (children_leaves cs0)) in Hnd.
  pose proof (children_leaves_middle _ _ _ Hj) as E. rewrite E in Hnd.
  destruct (NoDup_middle _ _ _ Hnd) as (H1 & H3 & Hndc).
  pose proof (canonical_leaves_pos _ Hcs) as Hne.
  destruct (node_leaves (Split d cs)) as [|x xs] eqn:Hx; [simpl in Hne; lia|]. clear Hne.
  assert (Hxc : x ∈ node_leaves c.1) by (apply Hsub; by left).
  assert (Hcc : canonical c.1 = true) by (rewrite Forall_map, Forall_lookup in Hcan'; by apply (Hcan' j)).
  rewrite bool_decide_false.
  2:{ intros Hf. apply structureFingerprint_inj in Hf. apply same_shape_leaves in Hf.
      rewrite Hx in Hf. change (children_leaves cs0 = x :: xs) in Hf.
      rewrite <- (take_drop_middle _ _ _ Hj) in Hcan', Hlen. rewrite map_app in Hcan'.
      apply Forall_app in Hcan' as [Hc1 Hc3]. apply Forall_cons in Hc3 as [_ Hc3].
      pose proof (children_leaves_length _ Hc1). pose proof (children_leaves_length _ Hc3).
      pose proof (node_at_leaves _ _ _ Hp) as (a & b & Hab). rewrite Hx, <- Hf, E in Hab.
      apply (f_equal length) in Hab. rewrite !length_app in Hab.
      rewrite length_app in Hlen. simpl in Hlen. lia. }
  rewrite (first_at_intro _ 0 cs0 j c p); [done|done| |].
  - rewrite Forall_lookup in IH. by apply (IH j c Hj).
  - rewrite Forall_forall. intros c' Hc'. destruct (Ops.find_split fp c'.1) as [q|] eqn:Eq; [|done].
    exfalso. apply (H1 x); [|done]. apply (children_leaves_elem _ c'); [done|].
    apply (find_split_leaves _ _ _ d cs Eq eq_refl). rewrite Hx. by left.
Qed.

(** No split of a canonical tree has the fingerprint of a one-child split. *)
Lemma find_split_single n d (c : LathChild W) : canonical n = true ->
  Ops.find_split (structureFingerprint (Split d [c])) n = None.
Proof.
  intros Hcan. destruct (Ops.find_split _ n) as [p|] eqn:E; [|done].
  apply find_split_sound in E as (d' & cs' & Hat & Hf).
  apply (node_at_canonical _ _ _ Hat) in Hcan. apply canonical_Split in Hcan as [Hlen _].
  apply structureFingerprint_inj in Hf. injection Hf as _ Hf. apply (f_equal length) in Hf. rewrite length_map in Hf. simpl in Hf. lia.
Qed.

(** ** What each tier yields *)

Lemma restore_children_leaves cs token :
  children_leaves (normalizeWeights (Ops.restore_children cs token)) ≡ₚ
    tok_leafId token :: children_leaves cs.
Proof.
  rewrite children_leaves_normalizeWeights. unfold Ops.restore_children. cbv zeta.
  set (sc := map _ cs). assert (E : children_leaves sc = children_leaves cs).
  { apply children_leaves_fst. unfold sc. rewrite map_map. by apply map_ext. }
  rewrite <- E. apply (concat_map_Permutation (fun c => node_leaves c.1) _
    ((Ops.mkLeaf (tok_leafId token), tok_weight token) :: sc)), splice_in_Permutation.
Qed.

Lemma replaceAtPath_Permutation r p m m' l :
  node_at r p = Some m -> node_leaves m' ≡ₚ l ++ node_leaves m ->
  node_leaves (replaceAtPath r p m') ≡ₚ l ++ node_leaves r.
Proof.
  intros Hp Hl. destruct (replaceAtPath_leaves _ _ _ Hp) as (l1 & l2 & E1 & E2).
  rewrite E1, E2, Hl. by rewrite <- !(assoc_L (++)), (Permutation_app_swap_app l1 l).
Qed.

(** [t'] is [t] with the leaf [id] added, and well formed. *)
Definition adds t (id : LeafId) t' : Prop := well_formed t' /\ leaves t' ≡ₚ id :: leaves t.

Lemma adds_normalized t id n :
  NoDup (leaves t) -> id ∉ leaves t -> node_leaves n ≡ₚ id :: leaves t ->
  adds t id (mkTree (normalize n)).
Proof.
  intros Hnd Hid Hl. split; [|by rewrite leaves_normalized].
  apply well_formed_normalized. rewrite Hl. by constructor.
Qed.

Lemma split_adds t at_ edge id t' :
  NoDup (leaves t) -> Ops.split t at_ edge id = (t', true) -> adds t id t'.
Proof.
  intros Hnd H. destruct (decide (at_ ∈ leaves t /\ id ∉ leaves t)) as [[Ha Hid]|Hbad].
  - destruct (split_ok t at_ edge id Ha Hid) as (l1 & l2 & t2 & E & E1 & E2).
    rewrite E in H. injection H as ->. unfold Ops.split in E.
    assert (Hl : leaves t' ≡ₚ id :: leaves t).
    { rewrite E1, E2, beside_Permutation. simpl. by rewrite <- Permutation_middle. }
    split; [|done]. destruct (root t) as [r|]; [|done]. repeat case_match; simplify_eq.
    apply well_formed_normalized. rewrite <- leaves_normalized, Hl. by constructor.
  - rewrite split_rejects in H; [done|]. destruct (decide (at_ ∈ leaves t)); [|by left].
    right. destruct (decide (id ∈ leaves t)); [done|]. exfalso. by apply Hbad.
Qed.

Lemma insert_adds t id target size t' :
  NoDup (leaves t) -> Ops.insert t id target size = (t', true) -> adds t id t'.
Proof.
  intros Hnd H. destruct target as [et|]; [|done].
  destruct (insertImpl_ok _ _ _ _ _ _ Hnd H) as (Hid & Hwf & t1 & p & m & l1 & l2 & _ & E1 & E2).
  split; [done|]. rewrite E1, E2, beside_Permutation. simpl. by rewrite <- Permutation_middle.
Qed.

Lemma restore_exact_adds t token t' :
  NoDup (leaves t) -> tok_leafId token ∉ leaves t ->
  Ops.restore_exact t token = Some t' -> adds t (tok_leafId token) t'.
Proof.
  intros Hnd Hid H. unfold Ops.restore_exact in H.
  destruct (tok_siblingId token); [|done]. destruct (tok_fingerprint token) as [fp|]; [|done].
  destruct (root t) as [r|] eqn:Hr; [|done]. unfold Ops.findSplitPathByFingerprint, nodeAtPath in H.
  rewrite Hr in H. destruct (Ops.find_split fp r) as [p|] eqn:Hf.
  - destruct (find_split_sound _ _ _ Hf) as (d & cs & Hp & _). rewrite Hp in H. simplify_eq.
    apply adds_normalized; [done..|].
    assert (El : leaves t = node_leaves r) by (unfold leaves; by rewrite Hr).
    rewrite El. apply (replaceAtPath_Permutation _ _ _ _ [_] Hp). apply restore_children_leaves.
  - unfold Ops.restore_beside_subtree in H.
    do 5 (case_match; [|done]). case_match. do 2 (case_match; [|done]).
    destruct (Ops.insert t _ _ _) as [t1 ok] eqn:Ei. cbn [fst snd] in H.
    destruct ok; simplify_eq. by eapply insert_adds.
Qed.

(** A successful restore adds the pane, in every tier. *)
Lemma restore_adds t token opts t' tier :
  NoDup (leaves t) -> Ops.restore t token opts = (t', true, tier) ->
  (tok_leafId token ∉ leaves t) /\ adds t (tok_leafId token) t'.
Proof.
  intros Hnd H. unfold Ops.restore in H.
  destruct (negb _ || _) eqn:Hg; [done|]. apply orb_false_iff in Hg as [_ Hg].
  apply bool_decide_eq_false in Hg. rewrite findLeafPath_is_Some in Hg. split; [done|].
  case_bool_decide as Hr; simplify_eq.
  { unfold adds, well_formed, leaves. rewrite Hr. simpl. split; [|done].
    split; [done|]. apply NoDup_singleton. }
  destruct (Ops.restore_exact t token) eqn:E1; simplify_eq; [by apply restore_exact_adds|].
  destruct (Ops.restore_neighbor t token) eqn:E2; simplify_eq.
  { unfold Ops.restore_neighbor in E2. do 2 (case_match; [|done]).
    destruct (Ops.split _ _ _ _) as [t1 ok] eqn:Es. cbn [fst snd] in E2.
    destruct ok; simplify_eq. by eapply split_adds. }
  destruct (Ops.restore_fallback t token opts) eqn:E3; simplify_eq.
  unfold Ops.restore_fallback in E3. do 2 (case_match; [|done]).
  case_match; [done|]. case_match; [|done].
  destruct (Ops.split _ _ _ _) as [t1 ok] eqn:Es. cbn [fst snd] in E3.
  destruct ok; simplify_eq. by eapply split_adds.
Qed.

Lemma restore_false t token opts t' tier :
  Ops.restore t token opts = (t', false, tier) -> t' = t /\ tier = None.
Proof. unfold Ops.restore. intros H. repeat case_match; by simplify_eq. Qed.

End Restore.

Lemma restore_weights (t : LathTree Q) token opts : tree_ok t -> tree_ok (Ops.restore t token opts).1.1.
Proof.
  intros H. unfold Ops.restore. destruct (negb _ || _) eqn:Hg; [done|].
  apply orb_false_iff in Hg as [Hg _]. apply negb_false_iff in Hg.
  assert (Hw : (0 < tok_weight token <= 1)%Q /\
    (tok_fingerprint token <> None -> (tok_weight token < 1)%Q)).
  { unfold Ops.isRestoreToken in Hg. cbn in Hg. rewrite !andb_true_iff, orb_true_iff, !Qltb_lt in Hg.
    destruct Hg as [[Hp [Hl|Hl]] _].
    - cbn in *. split; [split; lra|done].
    - rewrite !andb_true_iff, Qeq_bool_iff, !bool_decide_eq_true in Hl.
      destruct Hl as [[Hl _] Hfp]. cbn in *. split; [lra|]. by rewrite Hfp. }
  destruct Hw as [[Hw0 Hw1] Hlt]. case_bool_decide as Hr; [done|].
  destruct (Ops.restore_exact t token) as [t'|] eqn:E1; cbn [fst].
  { unfold Ops.restore_exact in E1. pose proof H as H'. unfold tree_ok in H.
    destruct (tok_siblingId token); [|done]. destruct (tok_fingerprint token) as [fp|] eqn:Hfp; [|done].
    specialize (Hlt ltac:(done)). destruct (root t) as [r|] eqn:Hroot; [|done].
    unfold Ops.findSplitPathByFingerprint, nodeAtPath in E1. rewrite Hroot in E1.
    destruct (Ops.find_split fp r) as [p|] eqn:Hf.
    - destruct (node_at r p) as [[|d cs]|] eqn:Hp; simplify_eq.
      apply weights_ok_pos in H. apply tree_ok_rebuild; [done|].
      apply (node_at_pos _ _ _ Hp), cpos_ok in H.
      apply cpos_ok, cpos_normalizeWeights. unfold Ops.restore_children. cbv zeta.
      apply cpos_splice; [done..|]. apply cpos_scale; [cbn in *; lra|done].
    - unfold Ops.restore_beside_subtree in E1. do 5 (case_match; [|done]). case_match.
      do 2 (case_match; [|done]). case_match; [|done]. simplify_eq. by apply insertImpl_weights. }
  destruct (Ops.restore_neighbor t token) as [t'|] eqn:E2; cbn [fst].
  { unfold Ops.restore_neighbor in E2. repeat case_match; simplify_eq. by apply split_weights. }
  destruct (Ops.restore_fallback t token opts) as [t'|] eqn:E3; cbn [fst]; [|done].
  unfold Ops.restore_fallback in E3. repeat (case_match; try done); simplify_eq; by apply split_weights.
Qed.
