(* ===== verification/LathRoundTrip.v ===== *)
(** * The minimize/restore round trip (lib/src/lib/lath/ops.ts)

    Restoring a pane right after removing it rebuilds the tree it was removed
    from: the same structure always, and the same weights unless the pane's
    parent split collapsed onto a single pane, which the neighbor tier then
    splits in half. *)
From Stdlib Require Import ZArith QArith Qminmax Lqa List Permutation Lia Field.
From S2P Require Import Prelude JsNum LathModel LathStructure LathWeights LathLayout LathOps.
From S2P Require Import LathOps LathOpsFacts LathGroups LathMove LathValid.
#[local] Set Warnings "-register-all".

Implicit Types (n m r : LathNode Q) (t : LathTree Q) (cs : list (LathChild Q)) (p q : list nat).

(** ** Normalizing up to the representation of weights *)

Abbreviation opt_eqv := (option_Forall2 node_eqv).

Lemma opt_eqv_Some o n : opt_eqv o (Some n) -> exists m, o = Some m /\ node_eqv m n.
Proof. inversion 1; subst. eauto. Qed.

Lemma opt_eqv_trans o1 o2 o3 : opt_eqv o1 o2 -> opt_eqv o2 o3 -> opt_eqv o1 o3.
Proof. intros H1 H2. inversion H1; subst; inversion H2; subst; constructor. by etrans. Qed.

Lemma node_eqv_node_at n1 n2 p m1 :
  node_eqv n1 n2 -> node_at n1 p = Some m1 -> exists m2, node_at n2 p = Some m2 /\ node_eqv m1 m2.
Proof.
  revert n1 n2. induction p as [|i p IH]; intros n1 n2 Hn H; simpl in H; [simplify_eq; eauto|].
  destruct n1 as [|d cs1]; [done|]. apply node_eqv_ind_Split in Hn as (cs2 & -> & Hn).
  destruct (cs1 !! i) as [c1|] eqn:H1; [|done].
  destruct (Forall2_lookup_l _ _ _ _ _ Hn H1) as (c2 & H2 & [Hc _]). simpl. rewrite H2.
  by eapply IH.
Qed.

Lemma normalizeWeights_id cs :
  pos_children cs -> cs <> [] -> (nsum (map snd cs : list Q) == 1)%Q ->
  Forall2 child_eqv (normalizeWeights cs) cs.
Proof.
  intros Hp Hne Hs. rewrite normalizeWeights_pos by done.
  apply Forall2_fmap_l, Forall_Forall2_diag.
  rewrite Forall_forall. intros c _. split; cbn [fst snd]; [done|]. rewrite Hs. field.
Qed.

(** Valid children that may sit in a [d] split are collected as they are. *)
Lemma collect_all_valid d cs :
  Forall (child_ok d) (map fst cs) -> Forall (fun n => weights_ok n = true) (map fst cs) ->
  Forall2 child_eqv (collect_all d cs) cs.
Proof.
  unfold collect_all. induction cs as [|c cs IH]; simpl; intros H1 H2; [constructor|].
  apply Forall_cons in H1 as [[Hc Hd] H1], H2 as [Hw H2].
  destruct (normalize_valid _ Hc Hw) as (m & -> & Hm). pose proof (node_eqv_shape _ _ Hm) as Hsh.
  rewrite collect_canonical.
  - constructor; [|by apply IH]. split; [done|reflexivity].
  - split; [by rewrite (same_shape_canonical _ _ Hsh)|by rewrite (same_shape_split_dir _ _ Hsh)].
Qed.

#[export] Instance finish_Proper d : Proper (Forall2 child_eqv ==> opt_eqv) (finish d).
Proof.
  intros k1 k2 Hk. destruct Hk as [|c1 c2 k1 k2 Hc Hk]; [constructor|].
  destruct Hk as [|c1' c2' k1 k2 Hc' Hk]; constructor; [apply Hc|].
  constructor. apply normalizeWeights_eqv. do 2 (constructor; [done|]). done.
Qed.

(** Normalizing a subtree first changes nothing. *)
Lemma normalize_replace n p x x' :
  normalize x = Some x' -> weights_pos x = true ->
  opt_eqv (normalize (replaceAtPath n p x)) (normalize (replaceAtPath n p x')).
Proof.
  intros Hx Hp. revert n. induction p as [|i p IH]; intros n; simpl.
  - destruct (normalize_valid x') as (y & -> & Hy); [by eapply normalize_canonical|by eapply normalize_weights_ok|].
    rewrite Hx. constructor. by symmetry.
  - destruct n as [id|d cs]; [constructor; reflexivity|]. destruct (cs !! i) as [c|] eqn:Hi.
    + apply normalize_Split_congr. apply Forall2_insert; [|split; cbn; [apply IH|reflexivity]].
      apply Forall_Forall2_diag. rewrite Forall_forall. intros c' _. split; [|reflexivity].
      destruct (normalize c'.1); constructor. reflexivity.
    + destruct (normalize (Split d cs)); constructor. reflexivity.
Qed.

(** A replacement that keeps the tree canonical. *)
Lemma canonical_replaceAtPath n p m m' :
  canonical n = true -> node_at n p = Some m -> canonical m' = true ->
  (p <> [] -> split_dir m' = None \/ split_dir m' = split_dir m) ->
  canonical (replaceAtPath n p m') = true.
Proof.
  revert n. induction p as [|i p IH]; intros n Hc Hp Hm' Hd; simpl in *; [done|].
  destruct n as [|d cs]; [done|]. destruct (cs !! i) as [c|] eqn:Hi; [|done].
  apply canonical_Split in Hc as [Hlen Hall]. apply canonical_Split. rewrite length_insert. split; [done|].
  rewrite (list_fmap_insert fst). apply Forall_insert; [done|]. cbn [fst].
  rewrite Forall_map, Forall_lookup in Hall. destruct (Hall i c Hi) as [Hcc Hcd]. split.
  - apply (IH c.1); [done..|]. intros _. by apply Hd.
  - destruct p as [|j p]; simpl in *.
    + injection Hp as <-. destruct (Hd ltac:(done)) as [->| ->]; done.
    + destruct (c.1) as [|d1 cs1]; [done|]. by destruct (cs1 !! j).
Qed.

(** The rebuilt tree, up to the representation of weights. *)
Lemma rebuild_eqv r p m x x' :
  canonical r = true -> weights_ok r = true -> node_at r p = Some m ->
  normalize x = Some x' -> weights_pos x = true ->
  (p <> [] -> split_dir x' = None \/ split_dir x' = split_dir m) ->
  exists y, normalize (replaceAtPath r p x) = Some y /\ node_eqv y (replaceAtPath r p x').
Proof.
  intros Hc Hw Hp Hx Hpos Hd. apply opt_eqv_Some.
  eapply opt_eqv_trans; [by apply normalize_replace|].
  destruct (normalize_valid (replaceAtPath r p x')) as (y & -> & Hy).
  - eapply canonical_replaceAtPath; [done|done| |done]. by eapply normalize_canonical.
  - apply weights_ok_replaceAtPath; [done|]. by eapply normalize_weights_ok.
  - by constructor.
Qed.

(** A tree equivalent to a valid one normalizes to it. *)
Lemma normalize_eqv_valid x r :
  node_eqv x r -> canonical r = true -> weights_ok r = true ->
  exists y, normalize x = Some y /\ node_eqv y r.
Proof.
  intros Hx Hc Hw. apply opt_eqv_Some. eapply opt_eqv_trans; [apply normalize_Proper, Hx|].
  destruct (normalize_valid r Hc Hw) as (y & -> & Hy). by constructor.
Qed.

Lemma dir_third (d1 d2 d3 : Dir) : d1 <> d3 -> d2 <> d3 -> d1 = d2.
Proof. by destruct d1, d2, d3. Qed.

(** Resolving a proper child range groups it in place. *)
Lemma materialize_range t r q d (l1 l2 l3 : list (LathChild Q)) edge :
  root t = Some r -> node_at r q = Some (Split d (l1 ++ l2 ++ l3)) -> (2 <= length l2)%nat ->
  l1 <> [] \/ l3 <> [] ->
  materializeTarget t (target_of edge q (Some (length l1, length (l1 ++ l2)))) =
    Some (mkTree (Some (replaceAtPath r q
      (Split d (l1 ++ (Split d (normalizeWeights l2), nsum (map snd l2)) :: l3)))), q ++ [length l1]).
Proof.
  intros Hr Hq Hl2 Hout. unfold materializeTarget, target_of, nodeAtPath.
  cbn [et_path et_range option_map fst snd]. rewrite Hr, Hq.
  destruct ((_ <? 0)%Z || _ || _) eqn:Hb.
  { exfalso. rewrite !length_app in Hb. rewrite !orb_true_iff, !Z.ltb_lt in Hb. lia. }
  rewrite (proj2 (Z.eqb_neq _ _)).
  2:{ rewrite !length_app. destruct Hout as [Ho|Ho]; [destruct l1|destruct l3]; simpl; try done; lia. }
  rewrite !Nat2Z.id. do 5 f_equal. unfold grouped.
  rewrite slice_middle, take_app_length. do 3 f_equal.
  by rewrite (assoc_L (++)), drop_app_length.
Qed.

(** A scaled children list of total 1 regains its weights. *)
Lemma normalizeWeights_scaled (k : Q) cs cs' :
  pos_children cs -> cs <> [] -> (nsum (map snd cs : list Q) == 1)%Q -> (0 < k)%Q ->
  Forall2 child_eqv cs' (map (fun c => (c.1, c.2 * k)%Q) cs) ->
  Forall2 child_eqv (normalizeWeights cs') cs /\ (nsum (map snd cs' : list Q) == k)%Q.
Proof.
  intros Hp Hne Hs Hk H.
  assert (Hsum : (nsum (map snd (map (fun c : LathChild Q => (c.1, c.2 * k)%Q) cs) : list Q) == k)%Q).
  { rewrite map_map. cbn. rewrite <- (map_map snd (fun x : Q => x * k)%Q), nsum_scale, Hs. lra. }
  split.
  - etrans; [by apply normalizeWeights_eqv|]. rewrite normalizeWeights_pos.
    + rewrite map_map. apply Forall2_fmap_l, Forall_Forall2_diag, Forall_forall. intros c _.
      split; cbn [fst snd]; [done|]. rewrite Hsum. field. lra.
    + unfold pos_children in *. rewrite Forall_map. eapply Forall_impl; [exact Hp|].
      intros c Hc. cbn in *. nra.
    + by destruct cs.
  - by rewrite (nsum_eq _ _ (children_eqv_ws _ _ H)).
Qed.

(** ** A removed pane below the root *)

Section RoundTrip.
  Variables (r : LathNode Q) (id : LeafId) (p : list nat) (i : nat) (d : Dir)
    (cs : list (LathChild Q)) (w : Q) (s : LathChild Q) (opts : option (RestoreOpts Q)).
  Hypotheses (Hcan : canonical r = true) (Hnd : NoDup (node_leaves r)) (Hok : weights_ok r = true)
    (Hp : node_at r p = Some (Split d cs)) (Hi : cs !! i = Some (Leaf id, w))
    (Hs : cs !! Ops.sibling_index i = Some s).

Let tok := Ops.removal_token id d cs i w s.1.
Let rest := remove_at i cs.
Let t2 : LathTree Q := mkTree (normalize (replaceAtPath r p (Split d rest))).
Let edge := Ops.removed_edge d (0 <? i)%nat.

Lemma parent_valid :
  canonical (Split d cs) = true /\ weights_ok (Split d cs) = true.
Proof. split; [by eapply node_at_canonical|by eapply node_at_weights_ok]. Qed.

Lemma sum_rest : (nsum (map snd rest : list Q) == 1 - w)%Q.
Proof.
  destruct parent_valid as [_ H]. apply weights_ok_Split in H as (_ & H & _).
  assert (E : (map snd cs : list Q) !! i = Some w) by by rewrite (list_lookup_fmap snd), Hi.
  rewrite <- (take_drop_middle _ _ _ E), nsum_app, nsum_cons in H.
  assert ((map snd rest : list Q) = take i (map snd cs) ++ drop (S i) (map snd cs)) as ->.
  { unfold rest, remove_at. by rewrite map_app, <- fmap_take, <- fmap_drop. }
  rewrite nsum_app. lra.
Qed.

Lemma rest_length : S (length rest) = length cs.
Proof.
  unfold rest, remove_at. rewrite length_app, length_take, length_drop.
  apply lookup_lt_Some in Hi. lia.
Qed.

(** The other children keep what they need to be a split's children. *)
Lemma rest_valid :
  Forall (child_ok d) (map fst rest) /\ Forall (fun n => weights_ok n = true) (map fst rest) /\
  pos_children rest /\ rest <> [].
Proof.
  destruct parent_valid as [Hc Hw]. apply canonical_Split in Hc as [Hlen Hc].
  apply weights_ok_Split in Hw as (Hpos & _ & Hw).
  rewrite <- (take_drop_middle _ _ _ Hi), map_app, Forall_app in Hc, Hw.
  unfold pos_children in *. rewrite <- (take_drop_middle _ _ _ Hi), Forall_app in Hpos.
  destruct Hc as [Hc1 Hc2], Hw as [Hw1 Hw2], Hpos as [Hp1 Hp2].
  apply Forall_cons in Hc2 as [_ Hc2], Hw2 as [_ Hw2], Hp2 as [_ Hp2].
  unfold rest, remove_at. rewrite map_app, !Forall_app. split_all; try done.
  intros E. apply (f_equal length) in E. pose proof rest_length as Hl. unfold rest, remove_at in Hl.
  rewrite E in Hl. simpl in Hl. lia.
Qed.

Lemma weight_bounds : (0 < w)%Q /\ (w < 1)%Q.
Proof.
  pose proof sum_rest as Hsum. destruct rest_valid as (_ & _ & Hpos & Hne).
  apply pos_children_ws in Hpos.
  assert (0 < nsum (map snd rest : list Q))%Q by (apply nsum_pos; [done|]; by destruct rest).
  destruct parent_valid as [_ H']. apply weight_le_1 with (i := i) (c := (Leaf id, w)) in H'; [|done].
  cbn in H'. split; lra.
Qed.

Lemma token_ok : Ops.isRestoreToken tok = true.
Proof.
  destruct weight_bounds as [H0 H1]. unfold Ops.isRestoreToken, tok, Ops.removal_token. cbn.
  apply Qltb_lt in H0, H1. rewrite H0, H1. cbn. apply Z.leb_le. lia.
Qed.

Lemma rest_pos : weights_pos (Split d rest) = true.
Proof.
  destruct rest_valid as (_ & Hw & Hpos & _). apply cpos_ok. split; [done|].
  eapply Forall_impl; [exact Hw|]. intros n. apply weights_ok_pos.
Qed.

Lemma absent : id ∉ leaves t2.
Proof.
  unfold t2. rewrite leaves_normalized. unfold rest. rewrite (cut_without id _ _ _ _ _ _ Hnd Hp Hi).
  rewrite without_leaves.
  - intros H. apply list_elem_of_filter in H as [H _]. done.
  - intros ->. by destruct p.
Qed.

Lemma t2_NoDup : NoDup (leaves t2).
Proof.
  unfold t2. rewrite leaves_normalized. unfold rest. rewrite (cut_without id _ _ _ _ _ _ Hnd Hp Hi).
  rewrite without_leaves by (intros ->; by destruct p). by apply NoDup_filter.
Qed.

(** [restore] starts at its exact tier. *)
Lemma restore_tiers R2 :
  root t2 = Some R2 ->
  Ops.restore t2 tok opts =
    match Ops.restore_exact t2 tok with
    | Some t' => (t', true, Some Exact)
    | None =>
        match Ops.restore_neighbor t2 tok with
        | Some t' => (t', true, Some Neighbor)
        | None =>
            match Ops.restore_fallback t2 tok opts with
            | Some t' => (t', true, Some Fallback)
            | None => (t2, false, None)
            end
        end
    end.
Proof.
  intros HR. unfold Ops.restore. rewrite token_ok.
  rewrite bool_decide_false by (rewrite findLeafPath_is_Some; apply absent).
  rewrite HR. by rewrite bool_decide_false.
Qed.

(** *** The parent keeps two children or more *)

Lemma restored_children cs2 :
  Forall2 child_eqv cs2 (normalizeWeights rest) ->
  Forall2 child_eqv (Ops.restore_children cs2 tok) cs.
Proof.
  intros H. destruct rest_valid as (_ & _ & Hpos & Hne). destruct weight_bounds as [Hw0 Hw1].
  pose proof sum_rest as Hsum. pose proof rest_length as Hlen.
  unfold Ops.restore_children. cbv zeta. set (sc := map _ cs2).
  assert (Hsc : Forall2 child_eqv sc rest).
  { unfold sc. rewrite normalizeWeights_pos in H by done. apply Forall2_fmap_l.
    eapply Forall2_impl; [exact (proj1 (Forall2_fmap_r (fun c : LathChild Q =>
      (c.1, c.2 / nsum (map snd rest : list Q))%Q) child_eqv cs2 rest) H)|]. intros c1 c2 [H1 H2]. split; [done|]. cbn in *. rewrite H2, Hsum. field. lra. }
  pose proof (lookup_lt_Some _ _ _ Hi) as Hlt. pose proof (Forall2_length _ _ _ Hsc) as Hls.
  assert (Nat.min (Z.to_nat (tok_index tok)) (length sc) = i) as ->.
  { unfold tok, Ops.removal_token. cbn [tok_index]. rewrite Nat2Z.id. lia. }
  unfold splice_in. rewrite <- (take_drop_middle _ _ _ Hi) at 1. apply Forall2_app.
  - replace (take i cs) with (take i rest); [by apply Forall2_take|].
    unfold rest, remove_at. rewrite take_app_le, take_take by (rewrite length_take; lia).
    f_equal. lia.
  - constructor; [split; reflexivity|].
    replace (drop (S i) cs) with (drop i rest); [by apply Forall2_drop|].
    unfold rest, remove_at. rewrite drop_app_ge by (rewrite length_take; lia).
    rewrite length_take, Nat.min_l, Nat.sub_diag by lia. done.
Qed.

Lemma round_trip_wide :
  (3 <= length cs)%nat ->
  exists y, Ops.restore t2 tok opts = (mkTree (Some y), true, Some Exact) /\ node_eqv y r.
Proof.
  intros Hlen. pose proof rest_length as Hrl. destruct rest_valid as (Hrc & Hrw & Hrp & Hrne).
  pose proof (collect_all_valid _ _ Hrc Hrw) as Hk.
  assert (Hkl : (2 <= length (collect_all d rest))%nat) by (rewrite (Forall2_length _ _ _ Hk); lia).
  destruct (rebuild_eqv r p _ (Split d rest) _ Hcan Hok Hp
    ltac:(rewrite normalize_finish; by apply finish_many) rest_pos) as (R2 & HR2 & Heqv); [by right|].
  set (B := replaceAtPath r p (Split d (normalizeWeights (collect_all d rest)))) in *.
  assert (Hroot : root t2 = Some R2) by done.
  assert (HB : node_at B p = Some (Split d (normalizeWeights (collect_all d rest)))).
  { by eapply node_at_replaceAtPath. }
  destruct (node_eqv_node_at B R2 p _ (symmetry Heqv) HB) as (m2 & Hm2 & Hmeqv).
  apply node_eqv_ind_Split in Hmeqv as (cs2 & -> & Hcs2).
  assert (Hcs2' : Forall2 child_eqv cs2 (normalizeWeights rest)).
  { symmetry. etrans; [|exact Hcs2]. apply normalizeWeights_eqv. by symmetry. }
  assert (Hshape : same_shape (Split d rest) (Split d cs2)).
  { etrans; [|apply node_eqv_shape; constructor; symmetry; exact Hcs2'].
    apply same_shape_fst. by rewrite normalizeWeights_fst. }
  assert (Hfind : Ops.findSplitPathByFingerprint t2 (structureFingerprint (Split d rest)) = Some p).
  { unfold Ops.findSplitPathByFingerprint. rewrite Hroot.
    rewrite (proj2 (structureFingerprint_inj _ (Split d cs2))) by done.
    apply find_split_finds; [by eapply normalize_canonical| |done].
    pose proof t2_NoDup as H. unfold leaves in H. by rewrite Hroot in H. }
  rewrite (restore_tiers R2 Hroot). unfold Ops.restore_exact.
  assert (Htok : is_Some (tok_siblingId tok)).
  { unfold tok, Ops.removal_token. cbn [tok_siblingId].
    assert (Hsc : canonical s.1 = true).
    { destruct parent_valid as [Hc _]. apply children_canonical in Hc.
      rewrite Forall_map, Forall_lookup in Hc. by apply (Hc _ _ Hs). }
    apply canonical_leaves_pos in Hsc. destruct (node_leaves s.1); [simpl in Hsc; lia|done]. }
  destruct Htok as [sib ->]. change (tok_fingerprint tok) with (Some (structureFingerprint (Split d rest))).
  rewrite Hroot, Hfind. unfold nodeAtPath. rewrite Hroot, Hm2.
  destruct (normalize_eqv_valid (replaceAtPath R2 p (Split d (normalizeWeights (Ops.restore_children cs2 tok)))) r)
    as (y & -> & Hy); [|done|done|by exists y].
  rewrite <- (replaceAtPath_same r p _ Hp) at 1.
  rewrite <- (replaceAtPath_twice r p _ (Split d (normalizeWeights (collect_all d rest))) (Split d cs) Hp).
  apply replaceAtPath_Proper; [done|done|]. constructor.
  destruct parent_valid as [_ Hwok]. apply weights_ok_Split in Hwok as (Hp1 & Hp2 & _).
  etrans; [apply normalizeWeights_eqv, restored_children, Hcs2'|].
  apply normalizeWeights_id; [done| |done]. intros ->. simpl in Hlen. lia.
Qed.

(** *** The parent collapses onto its other child *)

Lemma removed_edge_axis : edgeAxis edge = d.
Proof. unfold edge. by destruct d, (0 <? i)%nat. Qed.

Lemma pair_form :
  length cs = 2%nat ->
  rest = [s] /\ Split d cs = Ops.edge_pair edge (Ops.mkLeaf id, w) s /\
  child_ok d s.1 /\ weights_ok s.1 = true.
Proof.
  intros Hlen. destruct rest_valid as (Hc & Hw & _ & _).
  assert (Hrest : rest = [s] /\ Split d cs = Ops.edge_pair edge (Ops.mkLeaf id, w) s).
  { clear Hc Hw. unfold rest, edge, Ops.edge_pair, Ops.mkLeaf. clear -Hlen Hi Hs.
    destruct cs as [|a [|b [|]]]; try done.
    destruct i as [|[|k]]; simplify_eq/=; by destruct d. }
  destruct Hrest as [E ?]. rewrite E in Hc, Hw. simpl in Hc, Hw.
  apply Forall_cons in Hc as [? _], Hw as [? _]. done.
Qed.

Lemma sibling_weight : length cs = 2%nat -> (s.2 == 1 - w)%Q.
Proof.
  intros Hlen. destruct (pair_form Hlen) as (E & _). pose proof sum_rest as H. rewrite E in H.
  simpl in H. rewrite nsum_cons, nsum_nil in H. lra.
Qed.

Lemma collapsed : length cs = 2%nat ->
  exists s', normalize (Split d rest) = Some s' /\ node_eqv s' s.1.
Proof.
  intros Hlen. destruct (pair_form Hlen) as (E & _). destruct rest_valid as (Hc & Hw & _ & _).
  apply opt_eqv_Some. rewrite normalize_finish.
  eapply opt_eqv_trans; [apply finish_Proper, collect_all_valid; done|]. rewrite E.
  constructor. reflexivity.
Qed.

(** No split has the fingerprint of the collapsed parent. *)
Lemma no_parent_fingerprint R2 :
  length cs = 2%nat -> root t2 = Some R2 ->
  Ops.findSplitPathByFingerprint t2 (structureFingerprint (Split d rest)) = None.
Proof.
  intros Hlen HR. destruct (pair_form Hlen) as (E & _). rewrite E.
  unfold Ops.findSplitPathByFingerprint. rewrite HR. apply find_split_single.
  apply (normalize_canonical (replaceAtPath r p (Split d rest))). exact HR.
Qed.

(** The tree [t2] around the sibling, when that is a single pane. *)
Lemma leaf_sibling sib :
  length cs = 2%nat -> s.1 = Leaf sib ->
  exists R2, root t2 = Some R2 /\ node_eqv R2 (replaceAtPath r p (Leaf sib)).
Proof.
  intros Hlen Hsib. destruct (collapsed Hlen) as (s' & Hs' & He). rewrite Hsib in He.
  symmetry in He. apply node_eqv_Leaf in He as ->.
  destruct (rebuild_eqv r p _ _ _ Hcan Hok Hp Hs' rest_pos) as (R2 & ? & ?); [by left|]. by exists R2.
Qed.

(** The parent with both weights one half. *)
Definition halved : LathNode Q := Split d (map (fun c => (c.1, 1 # 2)) cs).

Lemma halved_pair sib :
  length cs = 2%nat -> s.1 = Leaf sib ->
  halved = Ops.edge_pair edge (Ops.mkLeaf id, nhalf) (Ops.mkLeaf sib, nhalf).
Proof.
  intros Hlen Hsib. destruct (pair_form Hlen) as (_ & E & _). unfold halved.
  assert (E' : cs = if edgeIsBefore edge then [(Ops.mkLeaf id, w); s] else [s; (Ops.mkLeaf id, w)]).
  { unfold Ops.edge_pair in E. by injection E. }
  unfold Ops.edge_pair. rewrite removed_edge_axis. rewrite E'.
  destruct (edgeIsBefore edge); simpl; by rewrite Hsib.
Qed.

Lemma halved_valid sib :
  length cs = 2%nat -> s.1 = Leaf sib -> canonical halved = true /\ weights_ok halved = true.
Proof.
  intros Hlen Hsib. rewrite (halved_pair sib Hlen Hsib). unfold Ops.edge_pair.
  split; [apply canonical_Split|apply weights_ok_Split]; destruct (edgeIsBefore edge);
    (split_all; [done..|]; repeat constructor; done) ||
    (split_all; repeat constructor; done).
Qed.

Lemma round_trip_neighbor sib :
  length cs = 2%nat -> s.1 = Leaf sib ->
  exists y, Ops.restore t2 tok opts = (mkTree (Some y), true, Some Neighbor) /\
    node_eqv y (replaceAtPath r p halved).
Proof.
  intros Hlen Hsib. destruct (leaf_sibling sib Hlen Hsib) as (R2 & HR & HR2).
  rewrite (restore_tiers R2 HR).
  assert (Htok : tok_siblingId tok = Some sib /\ tok_siblingLeafIds tok = Some [sib]).
  { unfold tok, Ops.removal_token. cbn. by rewrite Hsib. }
  destruct Htok as [Hsid Hsids].
  assert (Hne : Ops.restore_exact t2 tok = None).
  { unfold Ops.restore_exact. rewrite Hsid, HR.
    change (tok_fingerprint tok) with (Some (structureFingerprint (Split d rest))).
    cbn match. rewrite (no_parent_fingerprint R2 Hlen HR). unfold Ops.restore_beside_subtree.
    rewrite Hsids. by destruct (tok_siblingFingerprint tok). }
  rewrite Hne. unfold Ops.restore_neighbor, Ops.split, findLeafPath. rewrite Hsid, HR.
  assert (Hat : node_at R2 p = Some (Leaf sib)).
  { destruct (node_eqv_node_at _ _ p (Leaf sib) (symmetry HR2)) as (m & Hm & Hme).
    - by eapply node_at_replaceAtPath.
    - by apply node_eqv_Leaf in Hme as ->. }
  pose proof t2_NoDup as Hnd2. unfold leaves in Hnd2. rewrite HR in Hnd2.
  rewrite (find_leaf_finds R2 p sib Hnd2 Hat).
  pose proof absent as Habs. unfold leaves in Habs. rewrite HR in Habs.
  change (tok_leafId tok) with id. change (tok_edge tok) with edge.
  rewrite (proj2 (find_leaf_None id R2) Habs). cbn [fst snd].
  destruct (halved_valid sib Hlen Hsib) as [Hhc Hhw].
  rewrite <- (halved_pair sib Hlen Hsib).
  destruct (normalize_eqv_valid (replaceAtPath R2 p halved) (replaceAtPath r p halved))
    as (y & Hy & Hye).
  - rewrite <- (replaceAtPath_twice r p _ (Leaf sib) halved Hp). by apply replaceAtPath_Proper.
  - eapply canonical_replaceAtPath; [done|done|done|]. intros _. by right.
  - by apply weights_ok_replaceAtPath.
  - exists y. by rewrite Hy.
Qed.

(** *** The sibling is a split of its own *)

Hypothesis Hsize : ((1 # 1000000) <= w <= 1 - (1 # 1000000))%Q.

(** The clamped weight [insert] uses. *)
Let w' : Q := Ops.size_weight (SizeWeight w).

Lemma clamped_weight : (w' == w)%Q.
Proof.
  unfold w'. cbn. destruct Hsize as [H1 H2]. rewrite Q.max_l by done. by rewrite Q.min_l.
Qed.

(** The exact tier through the sibling's group. *)
Lemma exact_beside R2 q rng g t' path m :
  length cs = 2%nat -> root t2 = Some R2 -> (2 <= length (node_leaves s.1))%nat ->
  group R2 q rng g -> canonical g = true -> same_shape g s.1 ->
  materializeTarget t2 (target_of edge q rng) = Some (t', path) ->
  nodeAtPath t' path = Some m -> same_shape m g ->
  Ops.restore t2 tok opts =
    (Ops.insertBesideNode t' path edge id w' Renormalize, true, Some Exact).
Proof.
  intros Hlen HR Hsl Hg Hcg Hgs Hmat Hm Hmg. rewrite (restore_tiers R2 HR).
  assert (Hex : Ops.restore_exact t2 tok = Some (Ops.insertBesideNode t' path edge id w' Renormalize));
    [|by rewrite Hex].
  unfold Ops.restore_exact. rewrite HR.
  change (tok_fingerprint tok) with (Some (structureFingerprint (Split d rest))).
  change (tok_siblingId tok) with (head (node_leaves s.1)).
  destruct (node_leaves s.1) as [|sib sibs] eqn:Esl; [simpl in Hsl; lia|]. rewrite <- Esl in Hsl.
  cbn [head]. rewrite (no_parent_fingerprint R2 Hlen HR). unfold Ops.restore_beside_subtree.
  change (tok_siblingLeafIds tok) with (Some (node_leaves s.1)).
  change (tok_siblingFingerprint tok) with (Some (structureFingerprint s.1)).
  change (tok_edge tok) with edge. change (tok_weight tok) with w. change (tok_leafId tok) with id.
  cbn match. rewrite (proj2 (Nat.ltb_lt _ _)) by exact Hsl.
  destruct (json_shape_open (strip s.1)) as [rest' Hjson].
  assert ((structureFingerprint s.1 =s? EmptyString) = false) as ->.
  { unfold structureFingerprint. rewrite Hjson. by apply bool_decide_eq_false. }
  cbn [andb negb].
  assert (Hwf2 : well_formed t2).
  { pose proof t2_NoDup as H. unfold well_formed, leaves in *. rewrite HR in *. split; [|done].
    apply (normalize_canonical (replaceAtPath r p (Split d rest))). exact HR. }
  rewrite <- (same_shape_leaves _ _ Hgs).
  rewrite (targetByLeafSet_finds t2 R2 edge q rng g Hwf2 HR Hg Hcg), Hmat, Hm.
  rewrite bool_decide_true by (apply structureFingerprint_inj; by rewrite Hmg).
  unfold Ops.insert, Ops.insertImpl. cbn [Ops.size_is_nan nis_nan Q_num]. rewrite HR.
  rewrite (proj2 (findLeafPath_None _ _)) by apply absent. by rewrite Hmat.
Qed.

(** The pane put back beside something equivalent to its sibling. *)
Lemma pair_eqv n :
  length cs = 2%nat -> node_eqv n s.1 ->
  node_eqv (Ops.edge_pair edge (Ops.mkLeaf id, w') (n, (1 - w')%Q)) (Split d cs).
Proof.
  intros Hlen Hn. destruct (pair_form Hlen) as (_ & -> & _). pose proof clamped_weight as Hw.
  assert (H1 : child_eqv (Ops.mkLeaf id, w') (Ops.mkLeaf id, w)) by by split.
  assert (H2 : child_eqv (n, (1 - w')%Q) s).
  { split; [done|]. change (1 - w' == s.2)%Q. rewrite (sibling_weight Hlen), Hw. reflexivity. }
  unfold Ops.edge_pair. constructor. destruct (edgeIsBefore edge); repeat constructor; apply H1 || apply H2.
Qed.

Lemma round_trip_root :
  length cs = 2%nat -> (2 <= length (node_leaves s.1))%nat -> p = [] ->
  exists y, Ops.restore t2 tok opts = (mkTree (Some y), true, Some Exact) /\ node_eqv y r.
Proof.
  intros Hlen Hsl Hroot. destruct (collapsed Hlen) as (s' & Hs' & He).
  assert (HR : root t2 = Some s') by (unfold t2; rewrite Hroot; done).
  destruct (pair_form Hlen) as (_ & _ & [Hsc _] & _).
  pose proof (node_eqv_shape _ _ He) as Hsh.
  rewrite (exact_beside s' [] None s' t2 [] s' Hlen HR Hsl); [|constructor| |done| | |done].
  - unfold Ops.insertBesideNode. rewrite HR.
    destruct (normalize_eqv_valid (Ops.edge_pair edge (Ops.mkLeaf id, w') (s', (1 - w')%Q)) r)
      as (y & Hy & Hye); [|done|done|].
    + pose proof Hp as Hr. rewrite Hroot in Hr. injection Hr as Hr. rewrite Hr. by apply pair_eqv.
    + exists y. split; [|done]. do 3 f_equal. exact Hy.
  - by rewrite (same_shape_canonical _ _ Hsh).
  - unfold materializeTarget, target_of, nodeAtPath. cbn [et_path et_range option_map]. by rewrite HR.
  - unfold nodeAtPath. by rewrite HR.
Qed.

(** The collapsed parent's sibling is spliced into the grandparent [gcs] at [q]. *)
Section Nested.
  Variables (q : list nat) (j : nat) (dg ds : Dir) (gcs scs : list (LathChild Q)) (gc : LathChild Q).
  Hypotheses (Hlen : length cs = 2%nat) (Hpq : p = q ++ [j])
    (Hq : node_at r q = Some (Split dg gcs)) (Hgc : gcs !! j = Some gc) (Hgcn : gc.1 = Split d cs)
    (Hss : s.1 = Split ds scs).

Let A := take j gcs.
Let B := map (fun c : LathChild Q => (c.1, c.2 * gc.2)%Q) scs.
Let C := drop (S j) gcs.

Lemma spliced_dir : dg = ds /\ ds <> d.
Proof.
  destruct (pair_form Hlen) as (_ & _ & [_ Hds] & _). rewrite Hss in Hds. simpl in Hds.
  pose proof (node_at_canonical _ _ _ Hq Hcan) as Hg. apply canonical_Split in Hg as [_ Hg].
  rewrite Forall_map, Forall_lookup in Hg. destruct (Hg _ _ Hgc) as [_ Hd]. rewrite Hgcn in Hd.
  simpl in Hd. split; [|congruence]. apply (dir_third _ _ d); congruence.
Qed.

Lemma grandparent_valid : canonical (Split dg gcs) = true /\ weights_ok (Split dg gcs) = true.
Proof. split; [by eapply node_at_canonical|by eapply node_at_weights_ok]. Qed.

Lemma sibling_split_valid :
  pos_children scs /\ (2 <= length scs)%nat /\ (nsum (map snd scs : list Q) == 1)%Q /\ (0 < gc.2)%Q.
Proof.
  destruct (pair_form Hlen) as (_ & _ & [Hc _] & Hw). rewrite Hss in Hc, Hw.
  apply canonical_Split in Hc as [? _]. apply weights_ok_Split in Hw as (? & ? & _).
  destruct grandparent_valid as [_ Hg]. by destruct (weight_le_1 _ _ _ _ Hg Hgc).
Qed.

Lemma outside : A <> [] \/ C <> [].
Proof.
  destruct grandparent_valid as [Hg _]. apply canonical_Split in Hg as [Hg _].
  pose proof (lookup_lt_Some _ _ _ Hgc). unfold A, C.
  rewrite <- !length_zero_iff_nil, length_take, length_drop. lia.
Qed.

Lemma spliced_valid :
  pos_children (A ++ B ++ C) /\ (nsum (map snd (A ++ B ++ C) : list Q) == 1)%Q.
Proof.
  destruct grandparent_valid as [_ Hg]. apply weights_ok_Split in Hg as (Hp1 & Hs1 & _).
  destruct sibling_split_valid as (Hp2 & _ & Hs2 & Hk).
  pose proof (take_drop_middle _ _ _ Hgc) as E. fold A C in E. rewrite <- E in Hp1, Hs1.
  unfold pos_children in *. rewrite !Forall_app in *. rewrite map_app, nsum_app in Hs1.
  rewrite !map_app, !nsum_app. cbn [map] in Hs1. rewrite nsum_cons in Hs1.
  destruct Hp1 as [HA HC]. apply Forall_cons in HC as [_ HC]. split.
  - split; [exact HA|]. split; [|exact HC]. unfold B. rewrite Forall_map. eapply Forall_impl; [exact Hp2|].
    intros c Hc. cbn in *. nra.
  - assert (nsum (map snd B : list Q) == gc.2)%Q as ->; [|done].
    unfold B. rewrite map_map. cbn. rewrite <- (map_map snd (fun x : Q => x * gc.2)%Q), nsum_scale, Hs2. lra.
Qed.

(** What is left of the grandparent, collected. *)
Lemma spliced_collect :
  Forall2 child_eqv (collect_all dg (<[j := (Split d rest, gc.2)]> gcs)) (A ++ B ++ C).
Proof.
  destruct spliced_dir as [Hd _]. destruct grandparent_valid as [Hg Hgw].
  apply canonical_Split in Hg as [_ Hg]. apply weights_ok_Split in Hgw as (_ & _ & Hgw).
  pose proof (take_drop_middle _ _ _ Hgc) as E. fold A C in E. rewrite <- E, map_app, Forall_app in Hg, Hgw.
  destruct Hg as [HgA HgC], Hgw as [HwA HwC]. apply Forall_cons in HgC as [_ HgC], HwC as [_ HwC].
  rewrite insert_take_drop by (by eapply lookup_lt_Some). fold A C.
  rewrite collect_all_app. apply Forall2_app; [by apply collect_all_valid|].
  destruct (collapsed Hlen) as (s' & Hs' & He). rewrite Hss in He.
  symmetry in He. apply node_eqv_ind_Split in He as (scs' & -> & He).
  unfold collect_all. cbn [map concat fst snd]. rewrite Hs'. apply Forall2_app; [|by apply collect_all_valid].
  cbn [collect]. rewrite decide_True by done. unfold B. apply Forall2_fmap.
  symmetry in He. eapply Forall2_impl; [exact He|]. intros c1 c2 [H1 H2]. split; [done|].
  change (c1.2 * gc.2 == c2.2 * gc.2)%Q. by rewrite H2.
Qed.

Lemma spliced_tree :
  exists R2 k, root t2 = Some R2 /\ node_eqv R2 (replaceAtPath r q (Split dg k)) /\
    node_at R2 q = Some (Split dg k) /\ Forall2 child_eqv k (A ++ B ++ C).
Proof.
  destruct spliced_valid as [HpS HsS]. pose proof spliced_collect as Hk.
  destruct sibling_split_valid as (_ & Hl2 & _ & _).
  assert (HneS : A ++ B ++ C <> []).
  { intros E. apply (f_equal length) in E. rewrite !length_app in E. unfold B in E.
    rewrite length_map in E. simpl in E. lia. }
  assert (Hx : opt_eqv (normalize (Split dg (<[j := (Split d rest, gc.2)]> gcs))) (Some (Split dg (A ++ B ++ C)))).
  { rewrite normalize_finish. eapply opt_eqv_trans; [by apply finish_Proper|].
    rewrite finish_many by (rewrite !length_app; unfold B; rewrite length_map; lia).
    constructor. constructor. by apply normalizeWeights_id. }
  apply opt_eqv_Some in Hx as (x' & Hx & Hxe).
  destruct (rebuild_eqv r q _ _ _ Hcan Hok Hq Hx) as (R2 & HR & Heqv).
  { apply cpos_ok, cpos_insert; [|apply rest_pos|].
    - destruct grandparent_valid as [_ Hg]. apply weights_ok_pos in Hg. by apply cpos_ok in Hg.
    - apply sibling_split_valid. }
  { right. by rewrite (same_shape_split_dir _ _ (node_eqv_shape _ _ Hxe)). }
  assert (Hroot : root t2 = Some R2).
  { unfold t2. cbn [root]. rewrite Hpq, (replaceAtPath_app _ _ _ _ _ Hq). cbn [replaceAtPath].
    by rewrite Hgc. }
  destruct (node_eqv_node_at _ R2 q x' (symmetry Heqv)) as (m & Hm & Hme).
  { by eapply node_at_replaceAtPath. }
  assert (Hm2 : node_eqv m (Split dg (A ++ B ++ C))) by (etrans; [symmetry; exact Hme|exact Hxe]).
  symmetry in Hm2. pose proof Hm2 as Hm3. apply node_eqv_ind_Split in Hm2 as (k & -> & Hke).
  exists R2, k. split; [exact Hroot|]. split; [|split; [exact Hm|symmetry; exact Hke]].
  rewrite Heqv. apply replaceAtPath_Proper; [done|done|]. by rewrite Hxe.
Qed.

Lemma round_trip_nested :
  exists y, Ops.restore t2 tok opts = (mkTree (Some y), true, Some Exact) /\ node_eqv y r.
Proof.
  destruct spliced_tree as (R2 & k & HR & HRe & Hat & Hk). destruct spliced_dir as [Hdg Hds].
  destruct sibling_split_valid as (Hsp & Hsl & Hsum & Hgpos).
  apply Forall2_app_inv_r in Hk as (A' & k' & HA & Hk & ->).
  apply Forall2_app_inv_r in Hk as (B' & C' & HB & HC & ->).
  assert (Hout : A' <> [] \/ C' <> []).
  { apply Forall2_length in HA, HC. destruct outside; [left|right]; intros ->; simpl in *;
      [destruct A|destruct C]; done. }
  assert (HlB : length B' = length scs) by (rewrite (Forall2_length _ _ _ HB); unfold B; by rewrite length_map).
  destruct (pair_form Hlen) as (_ & _ & [Hsc _] & _).
  destruct (normalizeWeights_scaled gc.2 scs B' Hsp) as [HnB HsB];
    [by intros ->; simpl in Hsl; lia|done|done|exact HB|].
  assert (HshB : same_shape (Split dg (normalizeWeights B')) s.1).
  { rewrite Hss, Hdg. apply node_eqv_shape. by constructor. }
  assert (HshB' : same_shape (Split dg B') s.1).
  { etrans; [|exact HshB]. apply same_shape_fst. by rewrite normalizeWeights_fst. }
  rewrite (exact_beside R2 q (Some (length A', length (A' ++ B'))) (Split dg B')
    (mkTree (Some (replaceAtPath R2 q (Split dg (A' ++ (Split dg (normalizeWeights B'), nsum (map snd B')) :: C')))))
    (q ++ [length A']) (Split dg (normalizeWeights B')) Hlen HR).
  2:{ rewrite Hss in Hsc |- *. by apply canonical_split_leaves. }
  2:{ eapply group_node_at; [exact Hat|]. by apply group_range. }
  2:{ by rewrite (same_shape_canonical _ _ HshB'). }
  2:{ exact HshB'. }
  2:{ apply materialize_range; [done|done|lia|done]. }
  2:{ unfold nodeAtPath. cbn [root]. rewrite node_at_app, (node_at_replaceAtPath _ _ _ _ Hat).
      cbn [node_at]. by rewrite lookup_app_r, Nat.sub_diag by lia. }
  2:{ by etrans; [exact HshB|]. }
  set (G := (Split dg (normalizeWeights B'), nsum (map snd B') : Q)).
  set (T := replaceAtPath R2 q (Split dg (A' ++ G :: C'))).
  assert (HT : node_at T q = Some (Split dg (A' ++ G :: C'))) by by eapply node_at_replaceAtPath.
  assert (HTl : (A' ++ G :: C') !! length A' = Some G) by by rewrite lookup_app_r, Nat.sub_diag by lia.
  unfold Ops.insertBesideNode. cbn [root].
  destruct (q ++ [length A']) eqn:Eq; [by destruct q|]. rewrite <- Eq. clear Eq.
  rewrite removelast_snoc. unfold nodeAtPath. cbn [root]. fold T. rewrite HT.
  rewrite removed_edge_axis, decide_False by congruence.
  rewrite node_at_app, HT. cbn [node_at]. rewrite HTl. cbn [fst].
  destruct (normalize_eqv_valid (replaceAtPath T (q ++ [length A'])
    (Ops.edge_pair edge (Ops.mkLeaf id, w') (G.1, (1 - w')%Q))) r) as (y & Hy & Hye); [|done|done|].
  2:{ exists y. split; [|done]. do 3 f_equal. exact Hy. }
  rewrite (replaceAtPath_app _ _ _ _ _ HT). cbn [replaceAtPath]. rewrite HTl.
  unfold T. rewrite (replaceAtPath_twice _ _ _ _ _ Hat).
  rewrite <- (replaceAtPath_same r q _ Hq).
  rewrite <- (replaceAtPath_twice r q _ (Split dg (A' ++ B' ++ C')) (Split dg gcs) Hq).
  apply replaceAtPath_Proper; [done|done|]. constructor.
  rewrite insert_app_r_alt, Nat.sub_diag by lia. cbn [list_insert].
  rewrite <- (take_drop_middle _ _ _ Hgc). apply Forall2_app; [done|]. constructor; [|done].
  split; [|exact HsB]. cbn [fst]. rewrite Hgcn. apply pair_eqv; [done|].
  rewrite Hss, <- Hdg. by constructor.
Qed.

End Nested.

End RoundTrip.

(** ** The round trip *)

(** Equal trees, weights compared as rationals. *)
Definition tree_eqv t1 t2 : Prop := opt_eqv (root t1) (root t2).

Lemma tree_eqv_shape t1 t2 : tree_eqv t1 t2 -> strip <$> root t1 = strip <$> root t2.
Proof. inversion 1 as [n1 n2 Hn|]; [|done]. simpl. f_equal. by apply node_eqv_shape. Qed.

Lemma halved_shape r p d cs :
  node_at r p = Some (Split d cs) -> same_shape (replaceAtPath r p (halved d cs)) r.
Proof.
  intros Hp. rewrite <- (replaceAtPath_same r p _ Hp) at 2.
  apply same_shape_replaceAtPath; [done|]. apply same_shape_fst. rewrite map_map. by apply map_ext.
Qed.

(** What a round trip of the pane [id] makes of [t], in each tier. *)
Definition rebuilt t id t3 (tier : Tier) : Prop :=
  strip <$> root t3 = strip <$> root t /\
  match tier with
  | Neighbor => exists r p d cs a b wa wb,
      root t = Some r /\ node_at r p = Some (Split d cs) /\
      cs = [(Leaf a, wa); (Leaf b, wb)] /\ (id = a \/ id = b) /\
      tree_eqv t3 (mkTree (Some (replaceAtPath r p (Split d [(Leaf a, 1 # 2); (Leaf b, 1 # 2)]))))
  | _ => tree_eqv t3 t
  end.

Lemma rebuilt_exact t id r y : root t = Some r -> node_eqv y r -> rebuilt t id (mkTree (Some y)) Exact.
Proof.
  intros Hr Hy. assert (He : tree_eqv (mkTree (Some y)) t) by (unfold tree_eqv; rewrite Hr; by constructor).
  split; [by apply tree_eqv_shape|exact He].
Qed.

(** The pane's parent split has two children, so it collapsed. *)
Lemma round_trip_pair t r id p i d cs w s opts :
  root t = Some r -> canonical r = true -> NoDup (node_leaves r) -> weights_ok r = true ->
  node_at r p = Some (Split d cs) -> cs !! i = Some (Leaf id, w) ->
  cs !! Ops.sibling_index i = Some s -> (1 # 1000000 <= w <= 1 - (1 # 1000000))%Q ->
  length cs = 2%nat ->
  exists t3 tier, Ops.restore (mkTree (normalize (replaceAtPath r p (Split d (remove_at i cs)))))
    (Ops.removal_token id d cs i w s.1) opts = (t3, true, Some tier) /\ rebuilt t id t3 tier.
Proof.
  intros Hr Hcan Hnd Hok Hp Hi Hs Hsz H2.
  destruct (pair_form r id p i d cs w s) as (_ & Hpair & [Hsc _] & _); [done..|].
  destruct (s.1) as [sib|ds scs] eqn:Hsn.
  - destruct (round_trip_neighbor r id p i d cs w s opts Hcan Hnd Hok Hp Hi Hs sib H2 Hsn) as (y & Hy & Hye).
    rewrite Hsn in Hy. exists (mkTree (Some y)), Neighbor. split; [exact Hy|]. split.
    + rewrite Hr. simpl. f_equal. etrans; [by apply node_eqv_shape|]. by apply halved_shape.
    + destruct s as [sn sw]. simpl in Hsn. subst sn. unfold Ops.edge_pair, Ops.mkLeaf in Hpair.
      injection Hpair as Hcs. unfold halved in Hye.
      destruct (edgeIsBefore _); subst cs; do 8 eexists; split_all; try done; eauto; by constructor.
  - assert (Hsl : (2 <= length (node_leaves s.1))%nat) by (rewrite Hsn; by apply canonical_split_leaves).
    assert (G : exists y, Ops.restore
      (mkTree (normalize (replaceAtPath r p (Split d (remove_at i cs)))))
      (Ops.removal_token id d cs i w s.1) opts = (mkTree (Some y), true, Some Exact) /\ node_eqv y r).
    { destruct (decide (p = [])) as [Hroot|Hne]; [by eapply round_trip_root|].
      rewrite (path_snoc p Hne) in Hp. destruct (node_at_snoc _ _ _ _ Hp) as (dg & gcs & gc & Hq & Hgc & Hgn).
      rewrite <- (path_snoc p Hne) in Hp.
      eapply round_trip_nested; [exact Hcan|exact Hnd|exact Hok|exact Hp|exact Hi|exact Hs|exact Hsz|exact H2
        |apply (path_snoc p Hne)|exact Hq|exact Hgc|exact Hgn|exact Hsn]. }
    rewrite Hsn in G. destruct G as (y & Hy & Hye). exists (mkTree (Some y)), Exact.
    split; [exact Hy|]. by apply (rebuilt_exact t id r).
Qed.

Lemma remove_restores t id opts t2 tok :
  valid_tree t -> Ops.remove t id = (t2, true, Some tok) ->
  ((tok_weight tok < 1)%Q -> (1 # 1000000 <= tok_weight tok <= 1 - (1 # 1000000))%Q) ->
  exists t3 tier, Ops.restore t2 tok opts = (t3, true, Some tier) /\ rebuilt t id t3 tier.
Proof.
  intros [Hwf Hok] Hrm Hsz.
  assert (Hid : id ∈ leaves t).
  { destruct (decide (id ∈ leaves t)) as [|Hn]; [done|]. apply findLeafPath_None in Hn.
    unfold Ops.remove in Hrm. rewrite Hn in Hrm. by destruct (root t). }
  destruct (remove_cases t id Hwf Hid) as [[Hr E]|(r & p & i & d & cs & w & s & Hr & _ & Hp & Hi & Hs & E)];
    rewrite E in Hrm; injection Hrm as <- <-.
  { exists (leafTree id), Fallback. unfold rebuilt, tree_eqv. rewrite Hr.
    split_all; [reflexivity|done|]. constructor. reflexivity. }
  unfold well_formed in Hwf. rewrite Hr in Hwf, Hok. destruct Hwf as [Hcan Hnd].
  assert (Hlt : (w < 1)%Q) by (eapply weight_bounds; eassumption). cbn [tok_weight] in Hsz.
  specialize (Hsz Hlt).
  pose proof (node_at_canonical _ _ _ Hp Hcan) as Hcs. apply canonical_Split in Hcs as [Hlen _].
  destruct (decide (length cs = 2%nat)) as [H2|H3]; [by apply round_trip_pair|].
  destruct (round_trip_wide r id p i d cs w s opts) as (y & Hy & Hye); [done..|lia|].
  exists (mkTree (Some y)), Exact. split; [exact Hy|]. by apply (rebuilt_exact t id r).
Qed.

(** C1. Removing any pane from a valid tree and restoring it with the recorded
    token succeeds and brings back the same arrangement.  The weights come back
    too, as exact rationals, in the exact and fallback tiers; only when the
    pane's parent held one other pane and nothing else (the neighbor tier) are
    that split's two weights reset to one half, everything else being kept.
    The recorded weight is assumed to be within the clamp of [insert]. *)
Theorem restore_remove t id opts t2 tok :
  valid_tree t -> Ops.remove t id = (t2, true, Some tok) ->
  ((tok_weight tok < 1)%Q -> (1 # 1000000 <= tok_weight tok <= 1 - (1 # 1000000))%Q) ->
  exists t3 tier, Ops.restore t2 tok opts = (t3, true, Some tier) /\
    strip <$> root t3 = strip <$> root t /\
    match tier with
    | Neighbor => exists r p d cs a b wa wb,
        root t = Some r /\ node_at r p = Some (Split d cs) /\
        cs = [(Leaf a, wa); (Leaf b, wb)] /\ (id = a \/ id = b) /\
        tree_eqv t3 (mkTree (Some (replaceAtPath r p (Split d [(Leaf a, 1 # 2); (Leaf b, 1 # 2)]))))
    | _ => tree_eqv t3 t
    end.
Proof.
  intros Hv Hrm Hsz. destruct (remove_restores t id opts t2 tok Hv Hrm Hsz) as (t3 & tier & H & Hb).
  exists t3, tier. split; [exact H|exact Hb].
Qed.

Lemma restore_remove_witness :
  Ops.remove sample_deep "a"%string = (sample_removed, true, Some sample_token) /\
  exists t3 tier, Ops.restore sample_removed sample_token None = (t3, true, Some tier) /\
    strip <$> root t3 = strip <$> root sample_deep.
Proof.
  assert (E : Ops.remove sample_deep "a"%string = (sample_removed, true, Some sample_token))
    by (vm_compute; reflexivity).
  split; [exact E|].
  destruct (restore_remove sample_deep "a"%string None sample_removed sample_token)
    as (t3 & tier & H1 & H2 & _).
  - apply valid_by_computation. vm_compute. reflexivity.
  - exact E.
  - intros _. split; vm_compute; discriminate.
  - exists t3, tier. split; [exact H1|exact H2].
Defined.
