(* ===== verification/LathTiling.v ===== *)
(** * The tiling theorem (lib/src/lib/lath/layout.ts)

    [layout] gives every leaf one rectangle, the one [nodeRectAtPath] reports;
    over exact rationals the leaf rectangles and the sash bands partition the
    outer rectangle. *)
From Stdlib Require Import ZArith QArith Qround Qabs Qminmax Lqa Lia List.
From S2P Require Import Prelude JsNum LathModel LathStructure LathWeights LathLayout LathSpans LathOps.
From S2P Require Import LathOps LathOpsFacts LathGroups LathRoundTrip.
#[local] Set Warnings "-register-all".

Section Keys.
  Context {W : Type} `{N : JSNum W}.
  Implicit Types (n : LathNode W) (t : LathTree W) (cs : list (LathChild W))
    (rect : Rect W) (opts : LayoutOpts W) (out rs : list (LeafId * Rect W)).

Lemma omap_set_fresh {V} k (v : V) m : k ∉ map fst m -> omap_set k v m = m ++ [(k, v)].
Proof.
  induction m as [|[k' v'] m IH]; intros H; simpl; [done|]. simpl in H.
  apply not_elem_of_cons in H as [H1 H2]. rewrite decide_False by congruence. by rewrite IH.
Qed.

Lemma omap_get_app {V} k (m1 m2 : list (string * V)) :
  omap_get k (m1 ++ m2) = match omap_get k m1 with Some v => Some v | None => omap_get k m2 end.
Proof. induction m1 as [|[k' v'] m1 IH]; simpl; [done|]. by case_decide. Qed.

Lemma omap_get_None {V} k (m : list (string * V)) : k ∉ map fst m -> omap_get k m = None.
Proof.
  induction m as [|[k' v'] m IH]; intros H; simpl in *; [done|].
  apply not_elem_of_cons in H as [H1 H2]. rewrite decide_False by congruence. by apply IH.
Qed.

(** The rectangles of a node's leaves, in order. *)
Fixpoint leaf_rects n rect opts : list (LeafId * Rect W) :=
  match n with
  | Leaf id => [(id, rect)]
  | Split d cs =>
      fold_zip (fun _ c r acc => acc ++ leaf_rects c.1 r opts) 0 cs (forEachChildRect d cs rect opts) []
  end.

(** The children paired with their rectangles. *)
Lemma fold_zip_concat {A B C} (g : A -> B -> list C) i (l : list A) (m : list B) acc :
  fold_zip (fun _ x y acc => acc ++ g x y) i l m acc = acc ++ concat (zip_with g l m).
Proof.
  revert i m acc. induction l as [|x l IH]; intros i m acc; [by rewrite app_nil_r|].
  destruct m as [|y m]; simpl; [by rewrite app_nil_r|]. by rewrite IH, (assoc_L (++)).
Qed.

Lemma leaf_rects_Split d cs rect opts :
  leaf_rects (Split d cs) rect opts =
    concat (zip_with (fun c r => leaf_rects c.1 r opts) cs (forEachChildRect d cs rect opts)).
Proof. apply (fold_zip_concat (fun c r => leaf_rects c.1 r opts) 0 cs _ []). Qed.

Lemma leaf_rects_keys n rect opts : map fst (leaf_rects n rect opts) = node_leaves n.
Proof.
  revert rect. induction n as [id|d cs IH] using LathNode_ind'; intros rect; [done|].
  rewrite leaf_rects_Split. change (node_leaves (Split d cs)) with (concat (map (fun c => node_leaves c.1) cs)).
  assert (Hl : length (forEachChildRect d cs rect opts) = length cs) by apply forEachChildRect_length.
  revert Hl. generalize (forEachChildRect d cs rect opts) as rs.
  induction IH as [|c cs Hc _ IHcs]; intros [|r rs] Hl; try done.
  simpl. rewrite map_app, Hc. f_equal. apply IHcs. simpl in Hl. lia.
Qed.

Lemma layoutNode_leaf_rects n rect opts out :
  NoDup (node_leaves n) -> (forall id, id ∈ node_leaves n -> id ∉ map fst out) ->
  layoutNode n rect opts out = out ++ leaf_rects n rect opts.
Proof.
  revert rect out. induction n as [id|d cs IH] using LathNode_ind'; intros rect out Hnd Hf.
  { simpl. apply omap_set_fresh. apply Hf. by left. }
  rewrite leaf_rects_Split. cbn [layoutNode].
  assert (Hl : length (forEachChildRect d cs rect opts) = length cs) by apply forEachChildRect_length.
  change (NoDup (children_leaves cs)) in Hnd.
  change (forall id, id ∈ children_leaves cs -> id ∉ map fst out) in Hf.
  revert out Hnd Hf Hl. generalize (forEachChildRect d cs rect opts) as rs. generalize 0%nat as i.
  induction IH as [|c cs Hc _ IHcs]; intros i [|r rs] out Hnd Hf Hl; try done.
  { simpl. by rewrite app_nil_r. }
  unfold children_leaves in Hnd. simpl in Hnd. apply NoDup_app in Hnd as (H1 & H12 & H2).
  cbn [fold_zip zip_with concat]. rewrite Hc; [|done|].
  - rewrite IHcs; [by rewrite <- (assoc_L (++))|done| |simpl in Hl; lia].
    intros id Hid Hin. rewrite map_app, leaf_rects_keys in Hin. apply elem_of_app in Hin as [Hin|Hin].
    + apply (Hf id); [|done]. unfold children_leaves. simpl. apply elem_of_app. by right.
    + by apply (H12 id).
  - intros id Hid. apply Hf. unfold children_leaves. simpl. apply elem_of_app. by left.
Qed.

Lemma layout_leaf_rects t rect opts :
  well_formed t ->
  layout t rect opts =
    match root t with Some n => leaf_rects n (nonnegativeRect rect) opts | None => [] end.
Proof.
  intros Hwf. apply well_formed_NoDup in Hwf. unfold layout, leaves in *.
  destruct (root t) as [n|]; [|done]. rewrite layoutNode_leaf_rects; [done|done|].
  intros id _ H. by apply elem_of_nil in H.
Qed.

Lemma omap_get_elem {V} k (v : V) m : NoDup (map fst m) -> (k, v) ∈ m -> omap_get k m = Some v.
Proof.
  induction m as [|[k' v'] m IH]; intros Hnd Hin; simpl in *; [by apply elem_of_nil in Hin|].
  apply NoDup_cons in Hnd as [Hn Hnd]. apply elem_of_cons in Hin as [E|Hin].
  - injection E as -> ->. by rewrite decide_True.
  - rewrite decide_False; [by apply IH|]. intros ->. apply Hn. apply list_elem_of_In, in_map_iff.
    exists (k, v). split; [done|by apply list_elem_of_In].
Qed.

(** [nodeRectAtPath] answers at every path of the tree, and on a leaf it is the
    leaf's own rectangle. *)
Lemma node_rect_leaf n rect opts p id :
  node_at n p = Some (Leaf id) ->
  exists r, node_rect n rect opts p = Some r /\ (id, r) ∈ leaf_rects n rect opts.
Proof.
  revert n rect. induction p as [|i p IH]; intros n rect Hp; simpl in Hp.
  { simplify_eq. exists rect. split; [done|by left]. }
  destruct n as [|d cs]; [done|]. destruct (cs !! i) as [c|] eqn:Hi; [|done].
  assert (Hlt : (i < length (forEachChildRect d cs rect opts))%nat).
  { rewrite forEachChildRect_length. by eapply lookup_lt_Some. }
  apply lookup_lt_is_Some in Hlt as [rc Hrc]. destruct (IH c.1 rc Hp) as (r & Hr & Hin).
  exists r. cbn [node_rect]. rewrite Hi, Hrc. split; [done|]. rewrite leaf_rects_Split.
  apply list_elem_of_In, in_concat. exists (leaf_rects c.1 rc opts). split; [|by apply list_elem_of_In].
  apply list_elem_of_In, list_elem_of_lookup. exists i. by rewrite lookup_zip_with, Hi, Hrc.
Qed.

End Keys.

(** ** The partition *)

Implicit Types (n : LathNode Q) (t : LathTree Q) (cs : list (LathChild Q))
  (rect : Rect Q) (opts : LayoutOpts Q).

(** A point of the plane. *)
Abbreviation Point := (Q * Q)%type.

(** A half-open interval. *)
Definition within (a len x : Q) : bool := Qle_bool a x && Qltb x (a + len).

Definition contains rect (pt : Point) : bool :=
  within (rect_x rect) (rect_width rect) pt.1 && within (rect_y rect) (rect_height rect) pt.2.

(** How many of the rectangles a point lies in. *)
Definition hits (pt : Point) (rs : list (Rect Q)) : nat :=
  length (List.filter (fun r => contains r pt) rs).

(** No split's gaps alone exceed its span. *)
Fixpoint fits n rect opts : bool :=
  match n with
  | Leaf _ => true
  | Split d cs =>
      Qle_bool (gaps opts cs) (rect_span d rect) &&
      fold_zip (fun _ c r b => b && fits c.1 r opts) 0 cs (forEachChildRect d cs rect opts) true
  end.

Lemma within_spec a len x : within a len x = true <-> (a <= x < a + len)%Q.
Proof. unfold within. by rewrite andb_true_iff, Qle_bool_iff, Qltb_lt. Qed.

#[export] Instance within_Proper : Proper (Qeq ==> Qeq ==> eq ==> eq) within.
Proof.
  intros a b Hab l m Hlm x ? <-. apply eq_true_iff_eq. rewrite !within_spec, Hab, Hlm. done.
Qed.

(** Splitting an interval. *)
Lemma within_split a l1 l2 x :
  (0 <= l1)%Q -> (0 <= l2)%Q ->
  (Nat.b2n (within a (l1 + l2) x) = Nat.b2n (within a l1 x) + Nat.b2n (within (a + l1) l2 x))%nat.
Proof.
  intros H1 H2.
  destruct (within a (l1 + l2) x) eqn:E, (within a l1 x) eqn:E1, (within (a + l1) l2 x) eqn:E2; try done;
    exfalso;
    repeat match goal with
    | H : within _ _ _ = true |- _ => apply within_spec in H
    | H : within _ _ _ = false |- _ => apply not_true_iff_false in H; rewrite within_spec in H
    end; lra.
Qed.

Lemma within_empty a x : within a 0 x = false.
Proof. apply not_true_iff_false. rewrite within_spec. lra. Qed.

Lemma hits_app pt rs1 rs2 : hits pt (rs1 ++ rs2) = (hits pt rs1 + hits pt rs2)%nat.
Proof. unfold hits. by rewrite List.filter_app, length_app. Qed.

Lemma hits_cons pt r rs : hits pt (r :: rs) = (Nat.b2n (contains r pt) + hits pt rs)%nat.
Proof. unfold hits. simpl. by destruct (contains r pt). Qed.

(** Pixel coordinates along and across a split. *)
Definition along (d : Dir) (pt : Point) : Q := match d with Row => pt.1 | Col => pt.2 end.
Definition across (d : Dir) (pt : Point) : Q := match d with Row => pt.2 | Col => pt.1 end.
Definition flip (d : Dir) : Dir := match d with Row => Col | Col => Row end.

Lemma contains_along d rect pt :
  contains rect pt = within (rect_start d rect) (rect_span d rect) (along d pt) &&
    within (rect_start (flip d) rect) (rect_span (flip d) rect) (across d pt).
Proof. destruct d; unfold contains; simpl; [done|]. apply andb_comm. Qed.

Lemma b2n_andb (a b : bool) : Nat.b2n (a && b) = (Nat.b2n a * Nat.b2n b)%nat.
Proof. by destruct a, b. Qed.

(** A rectangle's sides are whole pixels, not negative. *)
Definition rect_ok rect : Prop :=
  integral (rect_width rect) /\ integral (rect_height rect) /\
  (0 <= rect_width rect)%Q /\ (0 <= rect_height rect)%Q.

(** The leaf rectangles and sash bands of a node. *)
Definition node_tiles n rect opts path : list (Rect Q) :=
  map snd (leaf_rects n rect opts) ++ map sash_rect (node_sashes n rect opts path []).

(** [node_sashes] only appends. *)
Lemma node_sashes_app n rect opts path out :
  node_sashes n rect opts path out = out ++ node_sashes n rect opts path [].
Proof.
  revert rect path out. induction n as [id|d cs IH] using LathNode_ind'; intros rect path out.
  { simpl. by rewrite app_nil_r. }
  cbn [node_sashes]. set (k := (length cs - 1)%nat). clearbody k.
  generalize (forEachChildRect d cs rect opts) as rs. generalize 0%nat as i.
  assert (G : forall i rs out, fold_zip (fun i c r out =>
      node_sashes c.1 r opts (path ++ [i])
        (if (i <? k)%nat then out ++ [mkSash path i d (sash_band d r rect opts)] else out)) i cs rs out =
    out ++ fold_zip (fun i c r out =>
      node_sashes c.1 r opts (path ++ [i])
        (if (i <? k)%nat then out ++ [mkSash path i d (sash_band d r rect opts)] else out)) i cs rs []).
  { induction IH as [|c cs Hc _ IHcs]; intros i [|r rs] out0; simpl; try by rewrite app_nil_r.
    destruct (i <? k)%nat; etrans; try apply IHcs.
    - match goal with |- context [node_sashes c.1 r opts _ (out0 ++ ?e)] =>
        rewrite (Hc r (path ++ [i]) (out0 ++ e)), (IHcs (S i) rs (node_sashes c.1 r opts (path ++ [i]) e)),
          (Hc r (path ++ [i]) e) end. by rewrite <- !(assoc_L (++)).
    - rewrite (Hc r (path ++ [i]) out0), (IHcs (S i) rs (node_sashes c.1 r opts (path ++ [i]) [])).
      by rewrite <- !(assoc_L (++)). }
  intros i rs. apply G.
Qed.

(** The extent of consecutive children with the gaps between them. *)
Fixpoint strip_extent (g : Q) (spans : list Q) : Q :=
  match spans with
  | [] => 0
  | [s] => s
  | s :: rest => s + (g + strip_extent g rest)
  end.

Lemma strip_extent_nonneg g spans :
  (0 <= g)%Q -> Forall (fun s => 0 <= s)%Q spans -> (0 <= strip_extent g spans)%Q.
Proof.
  intros Hg H. induction H as [|s [|s' spans] Hs H IH]; [apply Qle_refl|done|].
  change (0 <= s + (g + strip_extent g (s' :: spans)))%Q. lra.
Qed.

Lemma strip_extent_sum g spans :
  spans <> [] -> (strip_extent g spans == nsum spans + g * inject_Z (Z.of_nat (length spans) - 1))%Q.
Proof.
  intros Hne. induction spans as [|s [|s' spans] IH]; [done| |].
  - rewrite nsum_cons, nsum_nil. change (inject_Z (Z.of_nat (length [s]) - 1)) with 0%Q.
    change (strip_extent g [s]) with s. ring.
  - change (strip_extent g (s :: s' :: spans)) with (s + (g + strip_extent g (s' :: spans)))%Q.
    rewrite IH by done. rewrite (nsum_cons s).
    replace (Z.of_nat (length (s :: s' :: spans)) - 1)%Z with (Z.of_nat (length (s' :: spans)) - 1 + 1)%Z
      by (simpl length; lia).
    rewrite inject_Z_plus. change (inject_Z 1) with 1%Q. ring.
Qed.

Section Strip.
  Variables (pt : Point) (opts : LayoutOpts Q) (d : Dir) (rect : Rect Q) (path : list nat) (k : nat).
  Hypotheses (Hgap : (0 <= gap opts)%Q) (Hrect : rect_ok rect).

Let cross := within (rect_start (flip d) rect) (rect_span (flip d) rect) (across d pt).

(** The walk of [sashes] over the children from index [i] on. *)
Definition strip_sashes (i : nat) cs (rs : list (Rect Q)) : list (Sash Q) :=
  fold_zip (fun i c r out =>
      node_sashes c.1 r opts (path ++ [i])
        (if (i <? k)%nat then out ++ [mkSash path i d (sash_band d r rect opts)] else out)) i cs rs [].

Lemma strip_sashes_cons i c cs r rs :
  strip_sashes i (c :: cs) (r :: rs) =
    (if (i <? k)%nat then [mkSash path i d (sash_band d r rect opts)] else []) ++
    node_sashes c.1 r opts (path ++ [i]) [] ++ strip_sashes (S i) cs rs.
Proof.
  unfold strip_sashes. cbn [fold_zip].
  set (e := if (i <? k)%nat then _ else _). rewrite (node_sashes_app _ _ _ _ e).
  assert (G : forall i rs out, fold_zip (fun i c r out =>
      node_sashes c.1 r opts (path ++ [i])
        (if (i <? k)%nat then out ++ [mkSash path i d (sash_band d r rect opts)] else out)) i cs rs out =
    out ++ strip_sashes i cs rs).
  { clear. unfold strip_sashes. induction cs as [|c cs IHcs]; intros i [|r rs] out0; simpl; try by rewrite app_nil_r.
    rewrite IHcs. match goal with |- _ = out0 ++ fold_zip _ _ _ _ ?o => rewrite (IHcs _ _ o) end.
    destruct (i <? k)%nat.
    - rewrite (node_sashes_app _ _ _ _ (out0 ++ [mkSash path i d (sash_band d r rect opts)])).
      rewrite (node_sashes_app _ _ _ _ [mkSash path i d (sash_band d r rect opts)]).
      by rewrite <- !(assoc_L (++)).
    - rewrite (node_sashes_app _ _ _ _ out0). by rewrite <- !(assoc_L (++)). }
  rewrite G. unfold e. destruct (i <? k)%nat; simpl; by rewrite <- ?(assoc_L (++)).
Qed.

(** The rectangle of a child that starts at [pos]. *)
Definition child_rect (pos s : Q) : Rect Q :=
  match d with
  | Row => mkRect pos (rect_y rect) s (rect_height rect)
  | Col => mkRect (rect_x rect) pos (rect_width rect) s
  end.

Lemma child_rect_hit pos s : contains (child_rect pos s) pt = within pos s (along d pt) && cross.
Proof. unfold child_rect, cross. destruct d; unfold contains; simpl; [done|apply andb_comm]. Qed.

Lemma band_hit pos s :
  contains (sash_band d (child_rect pos s) rect opts) pt = within (pos + s) (gap opts) (along d pt) && cross.
Proof. unfold child_rect, cross. destruct d; unfold contains; simpl; [done|apply andb_comm]. Qed.

Lemma child_rect_ok pos s : integral s -> (0 <= s)%Q -> rect_ok (child_rect pos s).
Proof. intros. destruct Hrect as (? & ? & ? & ?). unfold child_rect. by destruct d. Qed.

Lemma strip_hits cs spans pos i :
  cs <> [] -> length spans = length cs -> (i + length cs = S k)%nat ->
  Forall (fun s => 0 <= s)%Q spans ->
  Forall2 (fun c r => forall q, hits pt (node_tiles c.1 r opts q) = Nat.b2n (contains r pt))
    cs (child_rects_from d spans pos rect opts) ->
  (hits pt (map snd (concat (zip_with (fun c r => leaf_rects c.1 r opts) cs
      (child_rects_from d spans pos rect opts)))) +
   hits pt (map sash_rect (strip_sashes i cs (child_rects_from d spans pos rect opts))) =
   Nat.b2n (within pos (strip_extent (gap opts) spans) (along d pt) && cross))%nat.
Proof.
  revert spans pos i. induction cs as [|c cs IH]; intros [|s spans] pos i Hne Hl Hk Hs Htiles; try done.
  apply Forall_cons in Hs as [Hs0 Hs]. cbn [child_rects_from] in *. fold (child_rect pos s) in *.
  apply Forall2_cons in Htiles as [Hc Htiles]. specialize (Hc (path ++ [i])).
  unfold node_tiles in Hc. rewrite hits_app in Hc.
  cbn [zip_with concat]. rewrite strip_sashes_cons, !map_app, !hits_app.
  rewrite child_rect_hit in Hc. destruct cs as [|c' cs].
  - destruct spans; [|done]. replace (i <? k)%nat with false by (symmetry; apply Nat.ltb_ge; simpl in Hk; lia).
    unfold strip_sashes. cbn [zip_with concat map fold_zip]. change (hits pt []) with 0%nat.
    change (strip_extent (gap opts) [s]) with s. lia.
  - destruct spans as [|s' spans]; [done|].
    assert (Hik : (i <? k)%nat = true) by (apply Nat.ltb_lt; simpl in Hk; lia). rewrite Hik.
    simpl in Hl, Hk.
    specialize (IH (s' :: spans) (pos + (s + gap opts))%Q (S i) ltac:(done) ltac:(simpl; lia)
      ltac:(simpl; lia) Hs Htiles).
    change (strip_extent (gap opts) (s :: s' :: spans))
      with (s + (gap opts + strip_extent (gap opts) (s' :: spans)))%Q.
    pose proof (strip_extent_nonneg _ _ Hgap Hs) as Hrest.
    cbn [map sash_rect]. rewrite hits_cons. change (hits pt []) with 0%nat. rewrite band_hit.
    cbn [nadd Q_num]. rewrite !b2n_andb in *.
    rewrite within_split by lra. rewrite (within_split (pos + s)) by done.
    assert (E : forall l, within (pos + (s + gap opts)) l (along d pt) = within (pos + s + gap opts) l (along d pt)).
    { intros l. apply within_Proper; [ring|reflexivity|done]. }
    rewrite E in IH.
    nia.
Qed.

End Strip.

(** [fits] of a split, child by child. *)
Lemma fits_children cs rs opts (b : bool) i :
  length rs = length cs ->
  fold_zip (fun _ c r b => b && fits c.1 r opts) i cs rs b = true ->
  b = true /\ Forall2 (fun c r => fits c.1 r opts = true) cs rs.
Proof.
  revert rs b i. induction cs as [|c cs IH]; intros [|r rs] b i Hl H; try done.
  cbn [fold_zip] in H. apply IH in H as [H1 H2]; [|simpl in Hl; lia].
  apply andb_true_iff in H1 as [? ?]. split; [done|]. by constructor.
Qed.

Lemma child_rects_Forall2 (P : Rect Q -> Q -> Prop) d spans (pos : Q) rect opts :
  (forall p s, P (child_rect d rect p s) s) -> Forall2 P (child_rects_from d spans pos rect opts) spans.
Proof. intros H. revert pos. induction spans as [|s spans IH]; intros pos; simpl; constructor; [apply H|apply IH]. Qed.

Lemma gaps_Q opts cs : gaps opts cs = (gap opts * inject_Z (Z.of_nat (length cs) - 1))%Q.
Proof. done. Qed.

(** The children of a split that fits fill its span with their gaps. *)
Lemma spans_fill d cs rect opts :
  fillable cs -> opts_ok opts -> integral (gap opts) -> rect_ok rect ->
  (gaps opts cs <= rect_span d rect)%Q ->
  let spans := allocateChildSpans cs (rect_span d rect) opts d in
  Forall integral spans /\ Forall (fun s => 0 <= s)%Q spans /\
  (strip_extent (gap opts) spans == rect_span d rect)%Q.
Proof.
  intros Hfl Ho Hg (Hw & Hh & _) Hfit spans.
  destruct (allocate_ok cs (rect_span d rect) opts d Hfl Ho) as (Hi & H0 & Hsum & _).
  fold spans in Hi, H0, Hsum. split; [done|]. split; [done|].
  assert (Hlen : length spans = length cs) by apply allocateChildSpans_length.
  assert (Hne : spans <> []).
  { intros E. rewrite E in Hlen. destruct Hfl as (_ & _ & Hne). by destruct cs. }
  rewrite strip_extent_sum, Hlen, <- gaps_Q, Hsum by done.
  assert (Hav : (available_span cs (rect_span d rect) opts == rect_span d rect - gaps opts cs)%Q).
  { unfold available_span. cbn [nmax nsub Q_num]. rewrite Q.max_r; [reflexivity|].
    change (0 <= rect_span d rect - gaps opts cs)%Q. lra. }
  rewrite Hav, round_of_integral; [ring|]. apply integral_minus; [by destruct d|].
  rewrite gaps_Q. apply integral_mult; [done|apply integral_Z].
Qed.

(** Every point of the rectangle lies in exactly one leaf rectangle or sash
    band, and no other point in any. *)
Lemma node_tiles_partition pt opts n rect path :
  canonical n = true -> weights_pos n = true -> opts_ok opts -> integral (gap opts) -> rect_ok rect ->
  fits n rect opts = true ->
  hits pt (node_tiles n rect opts path) = Nat.b2n (contains rect pt).
Proof.
  intros Hc Hw Ho Hg. revert rect path.
  induction n as [id|d cs IH] using LathNode_ind'; intros rect path Hr Hf.
  { unfold node_tiles. simpl. rewrite hits_cons. change (hits pt []) with 0%nat. lia. }
  cbn [fits] in Hf. apply andb_true_iff in Hf as [Hgap Hf]. apply Qle_bool_iff in Hgap.
  apply fits_children in Hf as [_ Hf]; [|apply forEachChildRect_length].
  apply weights_pos_Split in Hw as [Hp Hw]. pose proof Hc as Hcan.
  apply children_canonical in Hc. apply canonical_Split in Hcan as [Hlen _].
  assert (Hfl : fillable cs) by (split_and!; [done|done|intros ->; simpl in Hlen; lia]).
  destruct (spans_fill d cs rect opts Hfl Ho Hg Hr Hgap) as (Hi & H0 & Hfill).
  set (spans := allocateChildSpans cs (rect_span d rect) opts d) in *.
  assert (Hsl : length spans = length cs) by apply allocateChildSpans_length.
  unfold node_tiles. rewrite hits_app, leaf_rects_Split.
  assert (Hss : node_sashes (Split d cs) rect opts path [] =
    strip_sashes opts d rect path (length cs - 1) 0 cs (forEachChildRect d cs rect opts)) by done.
  rewrite Hss. unfold forEachChildRect in *. fold spans in Hf |- *.
  rewrite (strip_hits pt opts d rect path (length cs - 1)).
  - rewrite (contains_along d). f_equal. f_equal. apply within_Proper; [reflexivity|exact Hfill|done].
  - apply Ho.
  - intros ->. simpl in Hlen. lia.
  - done.
  - lia.
  - done.
  - assert (Hrs : Forall2 (fun r s => (integral s /\ (0 <= s)%Q) -> rect_ok r)
      (child_rects_from d spans (rect_start d rect) rect opts) spans).
    { apply child_rects_Forall2. intros p s [? ?]. by apply child_rect_ok. }
    rewrite Forall_map in Hc, Hw. apply Forall2_same_length_lookup_2.
    { rewrite child_rects_length. lia. }
    intros i c r Hic Hir q. rewrite Forall_lookup in Hc, Hw, IH.
    destruct (Forall2_lookup_l _ _ _ _ _ Hrs Hir) as (s & His & Hrok).
    rewrite Forall_lookup in Hi, H0.
    apply (IH i c Hic); [by apply (Hc i)|by apply (Hw i)| |].
    + apply Hrok. split; [by apply (Hi i)|by apply (H0 i)].
    + exact (Forall2_lookup_lr _ _ _ _ _ _ Hf Hic Hir).
Qed.

(** ** The theorems *)

(** C2. [layout] partitions the rectangle it is given: over exact weights and
    whole-pixel geometry, as long as no split's gaps alone exceed its span,
    every point of the rectangle (its negative sides clamped to 0) lies in
    exactly one leaf rectangle or sash band, and no point outside lies in any. *)
Theorem layout_partition t n rect opts pt :
  root t = Some n -> valid_tree t -> opts_ok opts ->
  integral (gap opts) -> integral (rect_width rect) -> integral (rect_height rect) ->
  fits n (nonnegativeRect rect) opts = true ->
  hits pt (map snd (layout t rect opts) ++ map sash_rect (sashes t rect opts)) =
    if contains (nonnegativeRect rect) pt then 1%nat else 0%nat.
Proof.
  intros Hr [Hwf Hw] Ho Hg Hiw Hih Hf. rewrite layout_leaf_rects by done. unfold sashes.
  unfold well_formed in Hwf. rewrite Hr in *. destruct Hwf as [Hc _].
  change (hits pt (node_tiles n (nonnegativeRect rect) opts []) = Nat.b2n (contains (nonnegativeRect rect) pt)).
  apply node_tiles_partition; [done|by apply weights_ok_pos|done|done| |done].
  assert (Hmax : forall q, integral q -> integral (nmax n0 q)).
  { intros q Hq. cbn. destruct (Q.max_spec 0 q) as [[_ E]|[_ E]]; rewrite E; [done|apply (integral_Z 0)]. }
  unfold nonnegativeRect. split_and!; cbn [rect_width rect_height];
    [by apply Hmax|by apply Hmax|apply Q.le_max_l|apply Q.le_max_l].
Qed.

Lemma layout_partition_witness :
  hits (500, 20)%Q (map snd (layout sample_tree sample_rect sample_opts) ++
    map sash_rect (sashes sample_tree sample_rect sample_opts)) = 1%nat.
Proof.
  destruct (root sample_tree) as [n|] eqn:E; [|discriminate E].
  assert (H : contains (nonnegativeRect sample_rect) (500, 20)%Q = true) by (vm_compute; reflexivity).
  pose proof (layout_partition sample_tree n sample_rect sample_opts (500, 20)%Q E) as G.
  rewrite H in G. apply G.
  - apply valid_by_computation. vm_compute. reflexivity.
  - split; [|split]; vm_compute; discriminate.
  - exists 4%Z. reflexivity.
  - exists 800%Z. reflexivity.
  - exists 600%Z. reflexivity.
  - injection E as <-. vm_compute. reflexivity.
Defined.

(** For any number type, [layout] of a well-formed tree has exactly one
    entry for each leaf, in pre-order, and the entry of a leaf is the rectangle
    [nodeRectAtPath] computes at the path [findLeafPath] finds. *)
Theorem layout_finds_leaves {W} `{JSNum W} (t : LathTree W) (rect : Rect W) (opts : LayoutOpts W) :
  well_formed t ->
  map fst (layout t rect opts) = leaves t /\
  forall id path, findLeafPath t id = Some path ->
    is_Some (nodeRectAtPath t rect opts path) /\
    omap_get id (layout t rect opts) = nodeRectAtPath t rect opts path.
Proof.
  intros Hwf. rewrite layout_leaf_rects by done. pose proof (well_formed_NoDup _ Hwf) as Hnd.
  unfold nodeRectAtPath, leaves in *. split.
  - destruct (root t); [apply leaf_rects_keys|done].
  - intros id path Hp. destruct (findLeafPath_Some _ _ _ Hp) as (r & Hr & Hat). rewrite Hr in *.
    destruct (node_rect_leaf r (nonnegativeRect rect) opts path id Hat) as (q & Hq & Hin).
    rewrite Hq. split; [done|]. apply omap_get_elem; [|done]. by rewrite leaf_rects_keys.
Qed.

Lemma layout_finds_leaves_witness :
  map fst (layout sample_float (mkRect n0 n0 (nlit 801 1) (nlit 601 1)) (mkOpts (nlit 4 1) (nlit 40 1) (nlit 30 1))) =
    ["a"; "b"; "c"]%string.
Proof.
  refine (proj1 (layout_finds_leaves sample_float _ _ _)).
  apply well_formed_by_computation. vm_compute. reflexivity.
Defined.
