(* ===== verification/LathSpec.v ===== *)
(** * The tiling engine as a state machine over its set of panes

    Every operation of ops.ts as one step on the tree, refined to what it does
    to the collection of panes, with the tree invariant preserved by every
    sequence of steps. *)
From Stdlib Require Import ZArith QArith List Permutation Lia.
From S2P Require Import Prelude JsNum LathModel LathStructure LathWeights LathLayout LathSpans LathOps.
From S2P Require Import LathOps LathOpsFacts LathGroups LathMove LathValid LathRoundTrip LathTiling.
#[local] Set Warnings "-register-all".

(** A call of an operation. *)
Inductive LathOp (W : Type) :=
  | OSplit (at_ : LeafId) (edge : Edge) (newId : LeafId)
  | ORemove (id : LeafId)
  | ORestore (token : RestoreToken W) (opts : option (RestoreOpts W))
  | OReplace (oldId newId : LeafId)
  | OSwap (a b : LeafId)
  | OInsert (id : LeafId) (target : DropTarget) (size : InsertSize W)
  | OMove (id : LeafId) (target : DropTarget)
  | OResize (splitPath : list nat) (boundary : Z) (deltaPx : W) (rect : Rect W) (opts : LayoutOpts W).
Arguments OSplit {W} _ _ _.
Arguments ORemove {W} _.
Arguments ORestore {W} _ _.
Arguments OReplace {W} _ _.
Arguments OSwap {W} _ _.
Arguments OInsert {W} _ _ _.
Arguments OMove {W} _ _.
Arguments OResize {W} _ _ _ _ _.

Section Spec.
  Context {W : Type} `{N : JSNum W}.
  Implicit Types (n m : LathNode W) (t : LathTree W) (cs : list (LathChild W)) (op : LathOp W).

(** The call, with the [tree] and [ok] of its result. *)
Definition apply_op t op : LathTree W * bool :=
  match op with
  | OSplit at_ edge newId => Ops.split t at_ edge newId
  | ORemove id => (Ops.remove t id).1
  | ORestore token opts => (Ops.restore t token opts).1
  | OReplace oldId newId => Ops.replace t oldId newId
  | OSwap a b => Ops.swap t a b
  | OInsert id target size => Ops.insert t id target size
  | OMove id target => Ops.move t id target
  | OResize path boundary delta rect opts => Ops.resize t path boundary delta rect opts
  end.

(** The panes a call brings in and the panes it takes out. *)
Definition op_adds op : list LeafId :=
  match op with
  | OSplit _ _ newId | OReplace _ newId => [newId]
  | ORestore token _ => [tok_leafId token]
  | OInsert id _ _ => [id]
  | ORemove _ | OSwap _ _ | OMove _ _ | OResize _ _ _ _ _ => []
  end.

Definition op_removes op : list LeafId :=
  match op with
  | ORemove id | OReplace id _ => [id]
  | _ => []
  end.

(** The trees reached from the tree the Wall seeds, and from the empty tree. *)
Inductive lath_step : LathTree W -> LathTree W -> Prop :=
  | step_op t op : lath_step t (apply_op t op).1.

(** ** Facts about the remaining operations *)

Lemma strips_zip_with cs (spans : list W) (f : LathChild W -> W -> W) :
  length spans = length cs -> strips (zip_with (fun c s => (c.1, f c s)) cs spans) = strips cs.
Proof.
  revert spans. induction cs as [|c cs IH]; intros [|s spans] Hl; simpl in *; try done.
  by rewrite IH by lia.
Qed.

(** [resize] keeps the structure. *)
Lemma resize_shape t path boundary (delta : W) rect opts t' :
  well_formed t -> Ops.resize t path boundary delta rect opts = (t', true) ->
  strip <$> root t' = strip <$> root t.
Proof.
  intros Hwf H. unfold Ops.resize, nodeAtPath in H. unfold well_formed in Hwf.
  destruct (root t) as [r|] eqn:Hr; [|done]. destruct Hwf as [Hc _].
  destruct (node_at r path) as [[i|d cs]|] eqn:Hn; [done| |done].
  destruct (_ || _ || _); [done|]. destruct (nodeRectAtPath _ _ _ _); [|done]. cbv zeta in H.
  destruct (nleb _ _); [done|].
  do 4 (case_in H; [|done]). destruct (neqb _ _); simplify_eq; [by rewrite Hr|].
  cbn [root]. match goal with |- context [normalize ?x] => set (x0 := x) end.
  assert (Hs : same_shape x0 r).
  { transitivity (replaceAtPath r path (Split d cs)); [|by rewrite (replaceAtPath_same r path _ Hn)].
    unfold x0. apply same_shape_replaceAtPath; [done|]. unfold same_shape. cbn [strip]. f_equal.
    match goal with |- map _ (normalizeWeights ?k) = _ => change (strips (normalizeWeights k) = strips cs) end.
    rewrite strips_normalizeWeights. apply (strips_zip_with cs _ (fun _ s => nmax s n1e6)).
    by rewrite !length_insert, allocateChildSpans_length. }
  destruct (normalize_canonical_shape r Hc) as (m & Em & Hm).
  pose proof (same_shape_normalize _ _ Hs) as Hn'. rewrite Em in Hn'. rewrite Hn'. simpl. f_equal. exact Hm.
Qed.

Lemma shape_facts t t' :
  strip <$> root t' = strip <$> root t -> well_formed t -> well_formed t' /\ leaves t' = leaves t.
Proof.
  unfold well_formed, leaves. destruct (root t') as [n'|], (root t) as [n|]; intros H Hwf; try done.
  injection H as H. rewrite (same_shape_canonical n' n H), (same_shape_leaves n' n H). done.
Qed.

Lemma resize_false t path boundary (delta : W) rect opts t' :
  Ops.resize t path boundary delta rect opts = (t', false) -> t' = t.
Proof. unfold Ops.resize. intros H. cbv zeta in H. repeat (case_in H; try done); by simplify_eq. Qed.

Lemma swap_false t a b t' : Ops.swap t a b = (t', false) -> t' = t.
Proof. unfold Ops.swap. intros H. repeat (case_in H; try done); by simplify_eq. Qed.

Lemma remove_false t id t' tok : Ops.remove t id = (t', false, tok) -> t' = t /\ tok = None.
Proof. unfold Ops.remove. intros H. repeat (case_in H; try done); by simplify_eq. Qed.

(** A swap that succeeds, on a tree with both panes. *)
Lemma swap_true t a b t' :
  well_formed t -> Ops.swap t a b = (t', true) ->
  a <> b /\ a ∈ leaves t /\ b ∈ leaves t /\ t' = mkTree (rename (swap_id a b) <$> root t).
Proof.
  intros Hwf H. pose proof H as H'. unfold Ops.swap in H. case_bool_decide as Hab; [done|].
  destruct (root t) as [r|] eqn:Hr; [|done].
  destruct (findLeafPath t a) as [pa|] eqn:Ha; [|done]. destruct (findLeafPath t b) as [pb|] eqn:Hb; [|done].
  assert (Hia : a ∈ leaves t) by (apply findLeafPath_is_Some; by exists pa).
  assert (Hib : b ∈ leaves t) by (apply findLeafPath_is_Some; by exists pb).
  rewrite (swap_ok t a b Hwf Hab Hia Hib) in H'. injection H' as <-. by rewrite Hr.
Qed.

Lemma map_swap_id_Permutation a b (l : list LeafId) :
  NoDup l -> a ∈ l -> b ∈ l -> map (swap_id a b) l ≡ₚ l.
Proof.
  intros Hnd Ha Hb. apply NoDup_Permutation.
  - apply NoDup_fmap_2; [|done]. intros x y. apply swap_id_inj.
  - done.
  - intros x. split.
    + intros Hx. apply list_elem_of_fmap in Hx as (y & -> & Hy). unfold swap_id. by repeat case_decide.
    + intros Hx. apply list_elem_of_fmap. exists (swap_id a b x). split; [by rewrite swap_id_swap_id|].
      unfold swap_id. by repeat case_decide.
Qed.

Lemma swap_effect t a b t' :
  well_formed t -> Ops.swap t a b = (t', true) -> well_formed t' /\ leaves t' ≡ₚ leaves t.
Proof.
  intros Hwf H. destruct (swap_true _ _ _ _ Hwf H) as (Hab & Ha & Hb & ->).
  pose proof (well_formed_NoDup _ Hwf) as Hnd.
  assert (Hp : map (swap_id a b) (leaves t) ≡ₚ leaves t) by by apply map_swap_id_Permutation.
  rewrite leaves_rename. split; [|done]. apply well_formed_rename; [done|]. by rewrite Hp.
Qed.

(** A successful edge move, with the facts that made it succeed. *)
Lemma move_true t id et t' :
  well_formed t -> Ops.move t id (TEdge et) = (t', true) ->
  exists t1 p m, id ∈ leaves t /\ resolves t et t1 p m /\ node_leaves m <> [id] /\
    (forall w, Ops.moveSize t id et = Some (SizeWeight w) -> nis_nan w = false).
Proof.
  intros Hwf H. unfold Ops.move in H. destruct (findLeafPath t id) as [ip|] eqn:Hf; [|done].
  destruct (materializeTarget t et) as [[t1 p]|] eqn:Hm; [|done].
  destruct (materialize_resolves _ _ _ _ Hm) as (m & Hres). pose proof Hres as (_ & Hat & _).
  rewrite Hat in H. exists t1, p, m. cbv zeta in H. case_bool_decide as Hl; [done|].
  split_and!; [apply findLeafPath_is_Some; by exists ip|done|done|]. intros w Hw. rewrite Hw in H.
  destruct (targetByLeafSet _ _ _); [|done]. unfold Ops.insertImpl in H. cbn [Ops.size_is_nan] in H.
  by destruct (nis_nan w).
Qed.

Lemma move_false t id target t' : Ops.move t id target = (t', false) -> t' = t.
Proof.
  unfold Ops.move. destruct target as [et|leaf]; [|apply swap_false]. intros H. cbv zeta in H.
  destruct (findLeafPath t id); [|by simplify_eq].
  destruct (materializeTarget t et) as [[t1 p]|]; [|by simplify_eq].
  destruct (bool_decide _); [by simplify_eq|]. destruct (Ops.moveSize t id et); [|by simplify_eq].
  destruct (targetByLeafSet _ _ _); [|by simplify_eq].
  destruct (Ops.insertImpl _ _ _ _ _) as [t2 ok2]. cbn [snd] in H. destruct ok2; cbn [negb] in H; [|by simplify_eq].
  by destruct (Ops.same_arrangement _ _).
Qed.

Lemma leaves_without_id_Permutation t id : id ∈ leaves t -> NoDup (leaves t) ->
  leaves t ≡ₚ id :: Ops.leaves_without id (leaves t).
Proof.
  intros Hin Hnd. apply list_elem_of_split in Hin as (l1 & l2 & E). rewrite E in *.
  rewrite leaves_without_middle by done. by rewrite <- Permutation_middle.
Qed.

Lemma move_effect t id target t' :
  well_formed t -> Ops.move t id target = (t', true) -> well_formed t' /\ leaves t' ≡ₚ leaves t.
Proof.
  intros Hwf H. destruct target as [et|leaf]; [|by apply (swap_effect t id leaf)].
  destruct (move_true _ _ _ _ Hwf H) as (t1 & p & m & Hid & Hres & Hne & Hnan).
  destruct (move_edge t id et t1 p m Hwf Hid Hres Hne Hnan) as (t2 & l1 & l2 & E & Hwf' & E1 & E2).
  rewrite E in H. injection H as <-. split; [done|].
  rewrite (leaves_without_id_Permutation t id Hid (well_formed_NoDup _ Hwf)), E1, E2, beside_Permutation.
  simpl. by rewrite <- Permutation_middle.
Qed.

Lemma replace_true t a b t' :
  well_formed t -> Ops.replace t a b = (t', true) ->
  well_formed t' /\ a ∈ leaves t /\ (b ∉ leaves t) /\ leaves t' ≡ₚ b :: Ops.leaves_without a (leaves t).
Proof.
  intros Hwf H. assert (G : a ∈ leaves t /\ b ∉ leaves t).
  { unfold Ops.replace in H. destruct (root t) as [r|]; [|done].
    destruct (findLeafPath t a) as [p|] eqn:Ha; [|done]. destruct (findLeafPath t b) eqn:Hb; [done|].
    split; [apply findLeafPath_is_Some; by exists p|by apply findLeafPath_None]. }
  destruct G as [Ha Hb]. rewrite (replace_ok t a b Hwf Ha Hb) in H. injection H as <-.
  pose proof (well_formed_NoDup _ Hwf) as Hnd. set (f := fun x => if decide (x = a) then b else x).
  assert (E : map f (leaves t) ≡ₚ b :: Ops.leaves_without a (leaves t)).
  { rewrite (leaves_without_id_Permutation t a Ha Hnd) at 1. simpl. unfold f at 1. rewrite decide_True by done.
    assert (Em : map f (Ops.leaves_without a (leaves t)) = Ops.leaves_without a (leaves t)); [|by rewrite Em].
    rewrite <- (map_id (Ops.leaves_without a (leaves t))) at 2. apply map_ext_elem. intros x Hx.
    unfold f. unfold Ops.leaves_without in Hx.
    apply list_elem_of_filter in Hx as [Hx _]. by rewrite decide_False. }
  split_and!; [|done|done|by rewrite leaves_rename].
  apply well_formed_rename; [done|]. rewrite E. constructor; [|by apply NoDup_filter].
  intros Hx. unfold Ops.leaves_without in Hx. by apply list_elem_of_filter in Hx as [_ Hx].
Qed.

(** What a successful call does to the panes. *)
Definition effect t op t' : Prop :=
  (forall x, x ∈ op_adds op -> x ∉ leaves t) /\ (forall x, x ∈ op_removes op -> x ∈ leaves t) /\
  leaves t' ≡ₚ op_adds op ++ filter (fun x => x ∉ op_removes op) (leaves t).

Lemma filter_none (l : list LeafId) : filter (fun x => x ∉ []) l = l.
Proof. apply filter_all. intros x _ H. by apply elem_of_nil in H. Qed.

Lemma filter_one a (l : list LeafId) : filter (fun x => x ∉ [a]) l = Ops.leaves_without a l.
Proof. unfold Ops.leaves_without. apply list_filter_iff. intros x. by rewrite list_elem_of_singleton. Qed.

Lemma effect_add t op id t' :
  op_adds op = [id] -> op_removes op = [] -> id ∉ leaves t -> leaves t' ≡ₚ id :: leaves t -> effect t op t'.
Proof.
  intros E1 E2 Hid Hl. unfold effect. rewrite E1, E2, filter_none. split_and!; [|set_solver|done].
  intros x Hx. by apply list_elem_of_singleton in Hx as ->.
Qed.

Lemma effect_none t op t' :
  op_adds op = [] -> op_removes op = [] -> leaves t' ≡ₚ leaves t -> effect t op t'.
Proof.
  intros E1 E2 Hl. unfold effect. rewrite E1, E2, filter_none.
  split_and!; [| |done]; intros x Hx; by apply elem_of_nil in Hx.
Qed.

Lemma apply_op_true t op t' :
  well_formed t -> apply_op t op = (t', true) -> well_formed t' /\ effect t op t'.
Proof.
  intros Hwf H. pose proof (well_formed_NoDup _ Hwf) as Hnd. destruct op; simpl in H.
  - destruct (decide (at_ ∈ leaves t /\ newId ∉ leaves t)) as [[Ha Hn]|Hbad].
    + destruct (split_adds _ _ _ _ _ Hnd H) as [Hw Hl]. split; [done|]. by eapply effect_add.
    + rewrite split_rejects in H; [done|]. destruct (decide (at_ ∈ leaves t)); [right|by left].
      destruct (decide (newId ∈ leaves t)); [done|]. exfalso. by apply Hbad.
  - destruct (decide (id ∈ leaves t)) as [Hin|Hn].
    + destruct (remove_leaves t id Hwf Hin) as [Hl _]. pose proof (remove_well_formed t id Hwf) as Hw.
      rewrite H in Hl, Hw. split; [done|]. unfold effect. simpl. rewrite filter_one. split_and!.
      * intros x Hx. by apply elem_of_nil in Hx.
      * intros x Hx. by apply list_elem_of_singleton in Hx as ->.
      * by rewrite <- Hl.
    + apply findLeafPath_None in Hn. unfold Ops.remove in H. rewrite Hn in H. by destruct (root t).
  - destruct (Ops.restore t token opts) as [[t1 ok] tier] eqn:E. simpl in H. injection H as -> ->.
    destruct (restore_adds _ _ _ _ _ Hnd E) as (Hid & Hw & Hl). split; [done|]. by eapply effect_add.
  - destruct (replace_true _ _ _ _ Hwf H) as (Hw & Ha & Hb & Hl). split; [done|].
    unfold effect. simpl. rewrite filter_one. split_and!; [| |done];
      intros x Hx; by apply list_elem_of_singleton in Hx as ->.
  - destruct (swap_effect _ _ _ _ Hwf H). split; [done|]. by apply effect_none.
  - destruct target as [et|]; [|done].
    destruct (insertImpl_ok _ _ _ _ _ _ Hnd H) as (Hid & _). destruct (insert_adds _ _ _ _ _ Hnd H).
    split; [done|]. by eapply effect_add.
  - destruct (move_effect _ _ _ _ Hwf H). split; [done|]. by apply effect_none.
  - pose proof (resize_shape _ _ _ _ _ _ _ Hwf H) as Hs. destruct (shape_facts _ _ Hs Hwf) as [? El].
    split; [done|]. apply effect_none; [done..|]. by rewrite El.
Qed.

Lemma apply_op_false t op t' : apply_op t op = (t', false) -> t' = t.
Proof.
  destruct op; simpl; intros H.
  - unfold Ops.split in H. repeat (case_in H; try done); by simplify_eq.
  - destruct (Ops.remove t id) as [[t1 ok] tok] eqn:E. simpl in H. simplify_eq.
    by apply remove_false in E as [-> _].
  - destruct (Ops.restore t token opts) as [[t1 ok] tier] eqn:E. simpl in H. simplify_eq.
    by apply restore_false in E as [-> _].
  - unfold Ops.replace in H. repeat (case_in H; try done); by simplify_eq.
  - by apply swap_false in H.
  - by apply insertImpl_false in H.
  - by apply move_false in H.
  - by apply resize_false in H.
Qed.

Lemma apply_op_well_formed t op : well_formed t -> well_formed (apply_op t op).1.
Proof.
  intros Hwf. destruct (apply_op t op) as [t' ok] eqn:E. simpl. destruct ok.
  - by destruct (apply_op_true _ _ _ Hwf E).
  - by apply apply_op_false in E as ->.
Qed.

End Spec.

(** ** The theorems *)

(** C27. Every call of an operation refines its effect on the panes, for any
    number type: a rejected call returns its input tree, and a successful one
    returns a well-formed tree whose panes are the old ones without those the
    call takes out, which were there, and with those it brings in, which were not. *)
Theorem apply_op_refines {W} `{JSNum W} (t : LathTree W) (op : LathOp W) :
  well_formed t ->
  let r := apply_op t op in
  if r.2 then well_formed r.1 /\ effect t op r.1 else r.1 = t.
Proof.
  intros Hwf r. destruct (apply_op t op) as [t' ok] eqn:E. unfold r. destruct ok.
  - by apply apply_op_true.
  - by apply apply_op_false in E.
Qed.

Lemma apply_op_refines_witness :
  let op := OMove "a"%string (TEdge (mkEdgeTarget [1%nat] EBottom None)) in
  let r := apply_op sample_float op in
  if r.2 then well_formed r.1 /\ effect sample_float op r.1 else r.1 = sample_float.
Proof.
  intros op. apply (apply_op_refines sample_float op).
  apply well_formed_by_computation. vm_compute. reflexivity.
Defined.

(** The structural invariant holds of every tree any sequence of calls
    reaches, with binary64 weights as with exact ones: at least two children in
    each split, no split directly inside one of its own direction, no pane twice. *)
Theorem reachable_well_formed {W} `{JSNum W} (t0 t : LathTree W) :
  well_formed t0 -> rtc lath_step t0 t -> well_formed t.
Proof.
  intros Hwf Hr. induction Hr as [t|t1 t2 t3 Hs _ IH]; [done|]. apply IH.
  destruct Hs. by apply apply_op_well_formed.
Qed.

Lemma reachable_well_formed_witness :
  well_formed (apply_op (leafTree (W:=SpecFloat.spec_float) "a"%string) (OSplit "a" ELeft "b")%string).1.
Proof.
  apply (reachable_well_formed (leafTree "a"%string)).
  - apply well_formed_by_computation. vm_compute. reflexivity.
  - apply rtc_once. constructor.
Defined.

Lemma apply_op_weights (t : LathTree Q) op : tree_ok t -> tree_ok (apply_op t op).1.
Proof.
  intros H. destruct op; simpl.
  - by apply split_weights.
  - by apply remove_weights.
  - by apply restore_weights.
  - by apply replace_weights.
  - by apply swap_weights.
  - by apply insertImpl_weights.
  - by apply move_weights.
  - by apply resize_weights.
Qed.

(** C34. With exact weights every tree any sequence of calls reaches from a
    valid one is valid: well formed, with positive weights that sum to 1 in
    each split. *)
Theorem reachable_valid (t0 t : LathTree Q) : valid_tree t0 -> rtc lath_step t0 t -> valid_tree t.
Proof.
  intros Hv Hr. induction Hr as [t|t1 t2 t3 Hs _ IH]; [done|]. apply IH. destruct Hs, Hv as [Hwf Hw].
  split; [by apply apply_op_well_formed|]. by apply apply_op_weights.
Qed.

Lemma reachable_valid_witness :
  valid_tree (apply_op sample_deep (OResize [1%nat] 0 30%Q sample_rect sample_opts)).1.
Proof.
  apply (reachable_valid sample_deep).
  - apply valid_by_computation. vm_compute. reflexivity.
  - apply rtc_once. constructor.
Defined.

(** A move onto an edge target is never lost: when the pane is there and
    the target resolves to something other than the pane alone (and the pane's
    weight is a number), the move succeeds, and the pane ends up on the target's
    edge, directly beside the target's other panes, all other panes keeping
    their order.  Every other edge move is rejected and changes nothing. *)
Theorem move_lands {W} `{JSNum W} (t : LathTree W) id et t1 p m :
  well_formed t -> resolves t et t1 p m ->
  (forall w, Ops.moveSize t id et = Some (SizeWeight w) -> nis_nan w = false) ->
  if decide (id ∈ leaves t /\ node_leaves m <> [id]) then
    exists t' l1 l2, Ops.move t id (TEdge et) = (t', true) /\ well_formed t' /\
      Ops.leaves_without id (leaves t) = l1 ++ Ops.leaves_without id (node_leaves m) ++ l2 /\
      leaves t' = l1 ++ beside (et_edge et) id (Ops.leaves_without id (node_leaves m)) ++ l2
  else Ops.move t id (TEdge et) = (t, false).
Proof.
  intros Hwf Hres Hnan. case_decide as Hd.
  - destruct Hd. by eapply move_edge.
  - apply move_edge_rejects. destruct (decide (id ∈ leaves t)); [|by left]. right. right.
    exists t1, p, m. split; [done|]. destruct (decide (node_leaves m = [id])); [done|].
    exfalso. by apply Hd.
Qed.

Lemma move_lands_witness :
  exists t', Ops.move sample_deep "top"%string
    (TEdge (mkEdgeTarget [1%nat] ERight None)) = (t', true) /\ leaves t' = ["a"; "b"; "c"; "top"]%string.
Proof.
  destruct (materializeTarget sample_deep (mkEdgeTarget [1%nat] ERight None)) as [[t1 p]|] eqn:Em;
    [|vm_compute in Em; discriminate Em].
  destruct (materialize_resolves _ _ _ _ Em) as (m & Hres).
  assert (Hl : node_leaves m = ["a"; "b"; "c"]%string).
  { destruct Hres as (_ & Hm & _). vm_compute in Em. injection Em as <- <-.
    vm_compute in Hm. injection Hm as <-. reflexivity. }
  pose proof (move_lands sample_deep "top"%string (mkEdgeTarget [1%nat] ERight None) t1 p m) as G.
  rewrite Hl in G. destruct (decide _) as [_|Hn] in G.
  - destruct G as (t' & l1 & l2 & E & _ & E1 & E2); [|exact Hres|intros w _; reflexivity|].
    + apply well_formed_by_computation. vm_compute. reflexivity.
    + exists t'. split; [exact E|]. rewrite E2.
      assert (E3 : l1 = [] /\ l2 = []).
      { apply (f_equal length) in E1. vm_compute (length (Ops.leaves_without _ _)) in E1.
        rewrite !length_app in E1. change (length (Ops.leaves_without "top" ["a"; "b"; "c"])%string) with 3%nat in E1.
        destruct l1, l2; simpl in E1; try lia. done. }
      destruct E3 as [-> ->]. reflexivity.
  - exfalso. apply Hn. split; [|discriminate]. apply (bool_decide_unpack _). vm_compute. exact I.
Defined.

(** [remove] equals its reference definition: it rejects a pane that is
    not there; it empties the tree of its last pane; otherwise it yields the
    normal form of the tree with that leaf cut out, wherever it sat, and the
    other panes keep their order. *)
Theorem remove_reference {W} `{JSNum W} (t : LathTree W) id :
  well_formed t ->
  match root t with
  | Some r =>
      if decide (id ∈ node_leaves r) then
        (Ops.remove t id).1 = (mkTree (if decide (is_leaf id r) then None else normalize (without id r)), true) /\
        leaves (Ops.remove t id).1.1 = Ops.leaves_without id (leaves t)
      else Ops.remove t id = (t, false, None)
  | None => Ops.remove t id = (t, false, None)
  end.
Proof.
  intros Hwf. destruct (root t) as [r|] eqn:Hr; [|unfold Ops.remove; by rewrite Hr].
  assert (El : leaves t = node_leaves r) by (unfold leaves; by rewrite Hr). case_decide as Hd.
  - pose proof (remove_without t id r Hwf Hr Hd) as E. rewrite <- El in Hd.
    destruct (remove_leaves t id Hwf Hd) as [Hl Hok]. split; [|done].
    destruct (Ops.remove t id) as [[t' ok] tok]. simpl in *. congruence.
  - rewrite <- El in Hd. apply findLeafPath_None in Hd. unfold Ops.remove. by rewrite Hd, Hr.
Qed.

Lemma remove_reference_witness :
  (Ops.remove sample_float "b"%string).1 =
    (mkTree (normalize (without "b" (Split Row
      [(Leaf "a", nhalf); (Split Col [(Leaf "b", nlit 1 4); (Leaf "c", nlit 3 4)], nhalf)])))%string, true).
Proof.
  pose proof (remove_reference sample_float "b"%string) as G. apply G.
  apply well_formed_by_computation. vm_compute. reflexivity.
Defined.

(** [swap] exchanges two panes and nothing else: on two different panes of
    a well-formed tree it renames them in place, so a second swap gives the
    original tree back, weight for weight, whatever the number type. *)
Theorem swap_twice {W} `{JSNum W} (t : LathTree W) a b :
  well_formed t -> a <> b -> a ∈ leaves t -> b ∈ leaves t ->
  exists t', Ops.swap t a b = (t', true) /\ Ops.swap t' a b = (t, true) /\
    leaves t' = map (swap_id a b) (leaves t).
Proof.
  intros Hwf Hab Ha Hb. exists (mkTree (rename (swap_id a b) <$> root t)).
  pose proof (swap_ok t a b Hwf Hab Ha Hb) as E. split; [done|]. split; [|apply leaves_rename].
  destruct (swap_effect t a b _ Hwf E) as [Hwf' Hl].
  rewrite swap_ok; [|done|done|by rewrite Hl|by rewrite Hl]. f_equal.
  destruct t as [[r|]]; simpl; [|done]. do 2 f_equal. rewrite rename_rename.
  etrans; [|apply rename_id]. apply rename_ext. intros x _. apply swap_id_swap_id.
Qed.

Lemma swap_twice_witness :
  exists t', Ops.swap sample_float "a" "c" = (t', true) /\ Ops.swap t' "a" "c" = (sample_float, true) /\
    leaves t' = map (swap_id "a" "c") (leaves sample_float).
Proof.
  apply (swap_twice sample_float "a" "c").
  - apply well_formed_by_computation. vm_compute. reflexivity.
  - discriminate.
  - apply (bool_decide_unpack _). vm_compute. exact I.
  - apply (bool_decide_unpack _). vm_compute. exact I.
Defined.

(** [targetByLeafSet] is sound and complete: a target it returns resolves
    to a node with exactly the wanted leaves, and whenever the wanted leaves are
    those of a node or of a run of at least two children of a split, it returns
    that very node or run. *)
Theorem targetByLeafSet_correct {W} `{JSNum W} (t : LathTree W) (wanted : gset LeafId) edge :
  well_formed t ->
  (forall target, targetByLeafSet t wanted edge = Some target -> names_set t wanted edge target) /\
  (forall r q rng g, root t = Some r -> group r q rng g -> canonical g = true ->
    wanted = list_to_set (node_leaves g) -> targetByLeafSet t wanted edge = Some (target_of edge q rng)).
Proof.
  intros Hwf. split.
  - intros target. apply targetByLeafSet_names. by apply well_formed_NoDup.
  - intros r q rng g Hr Hg Hc ->. by eapply targetByLeafSet_finds.
Qed.

Lemma targetByLeafSet_correct_witness :
  targetByLeafSet sample_deep {["b"; "c"]}%string ETop = Some (mkEdgeTarget [1; 1]%nat ETop None).
Proof.
  refine (proj2 (targetByLeafSet_correct sample_deep {["b"; "c"]}%string ETop _) _ [1; 1]%nat None
    (Split Col [(Leaf "b", 1 # 4); (Leaf "c", 3 # 4)])%string eq_refl _ eq_refl _).
  - apply well_formed_by_computation. vm_compute. reflexivity.
  - eapply group_child; [reflexivity|]. eapply group_child; [reflexivity|]. constructor.
  - apply set_eq. intros x. simpl. set_solver.
Defined.

(** [findLeafPath] and [nodeAtPath] are inverse on a well-formed tree: the
    path found is the one and only path at which that leaf sits, and a pane has
    a path exactly when it is among the leaves. *)
Theorem findLeafPath_correct {W} `{JSNum W} (t : LathTree W) id path :
  well_formed t ->
  (findLeafPath t id = Some path <-> nodeAtPath t path = Some (Leaf id)) /\
  (is_Some (findLeafPath t id) <-> id ∈ leaves t).
Proof.
  intros Hwf. split; [|apply findLeafPath_is_Some]. pose proof (well_formed_NoDup _ Hwf) as Hnd.
  unfold findLeafPath, nodeAtPath, leaves in *. destruct (root t) as [r|]; [|done].
  split; [apply find_leaf_sound|by apply find_leaf_finds].
Qed.

Lemma findLeafPath_correct_witness : nodeAtPath sample_deep [1; 1; 0]%nat = Some (Leaf "b"%string).
Proof.
  refine (proj1 (proj1 (findLeafPath_correct sample_deep "b"%string [1; 1; 0]%nat _)) _).
  - apply well_formed_by_computation. vm_compute. reflexivity.
  - vm_compute. reflexivity.
Defined.

(** [normalize] brings any tree, however nested or empty below its root,
    to a canonical one with the same leaves in the same order, fails only when
    there are none, and is the identity on valid trees up to the representation
    of their weights. *)
Theorem normalize_correct (n : LathNode Q) :
  (forall m, normalize n = Some m -> canonical m = true /\ node_leaves m = node_leaves n /\
    (weights_pos n = true -> weights_ok m = true)) /\
  (normalize n = None <-> node_leaves n = []) /\
  (canonical n = true -> weights_ok n = true -> exists m, normalize n = Some m /\ node_eqv m n).
Proof.
  split_and!.
  - intros m H. split_and!; [by eapply normalize_canonical|by apply normalize_Some_leaves|].
    intros Hp. by eapply normalize_weights_ok.
  - apply normalize_None_iff.
  - apply normalize_valid.
Qed.

(** The fingerprint text identifies the weight-free structure, whatever
    characters the pane ids hold: two trees have the same fingerprint exactly
    when they differ in weights only. *)
Theorem structureFingerprint_identifies {W} (n1 n2 : LathNode W) :
  structureFingerprint n1 = structureFingerprint n2 <-> strip n1 = strip n2.
Proof. apply structureFingerprint_inj. Qed.
