(* ===== verification/HitTest.v ===== *)
(** * Hit-testing a drag (lib/src/lib/lath/hit-test.ts)

    The pointer of a drag over a laid-out Wall becomes the one drop it would
    commit.  The theorems say that a hit's drop always succeeds and lands in the
    rectangle shown, whatever the number type, and that none of the places where
    the source asserts a value is there can fail. *)
From Stdlib Require Import ZArith QArith Lia.
From S2P Require Import Prelude JsNum LathModel LathStructure LathLayout LathOps LathOpsFacts LathGroups LathMove LathSpans LathTiling.

(** [Math.hypot], whose result the language leaves to the implementation. *)
Class JSHypot (W : Type) := { nhypot : W -> W -> W }.

(** ** Data *)

Record DropCandidate (W : Type) := mkCandidate {
  hit_target : DropTarget;
  previewRect : Rect W;
  scopeRect : Rect W;
  scopeLeafCount : nat;
  canWiden : bool;
  swapRect : option (Rect W) }.
Arguments mkCandidate {W} _ _ _ _ _ _.
Arguments hit_target {W} _.
Arguments previewRect {W} _.
Arguments scopeRect {W} _.
Arguments scopeLeafCount {W} _.
Arguments canWiden {W} _.
Arguments swapRect {W} _.

Record DropHit (W : Type) := mkHit { hit_candidate : option (DropCandidate W); anchored : bool }.
Arguments mkHit {W} _ _.
Arguments hit_candidate {W} _.
Arguments anchored {W} _.

Record Point (W : Type) := mkPoint { pt_x : W; pt_y : W }.
Arguments mkPoint {W} _ _.
Arguments pt_x {W} _.
Arguments pt_y {W} _.

Record Hover (W : Type) := mkHover { h_leafId : LeafId; h_leafRect : Rect W; h_bands : list Edge; h_line : option Edge }.
Arguments mkHover {W} _ _ _ _.
Arguments h_leafId {W} _.
Arguments h_leafRect {W} _.
Arguments h_bands {W} _.
Arguments h_line {W} _.

Record Scope (W : Type) := mkScope { sc_target : EdgeDropTarget; sc_start : W; sc_end : W }.
Arguments mkScope {W} _ _ _.
Arguments sc_target {W} _.
Arguments sc_start {W} _.
Arguments sc_end {W} _.

#[export] Instance Edge_eq_dec : EqDecision Edge.
Proof. solve_decision. Defined.

Definition EXTERNAL_ID : LeafId := "__lath_external_drop__".

Section HitTest.
  Context {W : Type} `{N : JSNum W} `{H : JSHypot W}.
  Implicit Types (n : LathNode W) (t : LathTree W) (r rect : Rect W) (opts : LayoutOpts W) (p : Point W).

Definition BAND_FRACTION : W := nlit 1 3.
Definition LINE_PX : W := nlit 8 1.
Definition COINCIDE_EPS : W := nlit 1 2.

Definition edgeCoord r (edge : Edge) : W :=
  match edge with
  | ELeft => rect_x r
  | ERight => nadd (rect_x r) (rect_width r)
  | ETop => rect_y r
  | EBottom => nadd (rect_y r) (rect_height r)
  end.

Definition spanAlong r (edge : Edge) : W * W :=
  match edgeAxis edge with
  | Col => (rect_x r, nadd (rect_x r) (rect_width r))
  | Row => (rect_y r, nadd (rect_y r) (rect_height r))
  end.

Definition alongOf p (edge : Edge) : W := match edgeAxis edge with Col => pt_x p | Row => pt_y p end.

Definition distToRect r (x y : W) : W :=
  let dx := nmax (nmax (nsub (rect_x r) x) n0) (nsub x (nadd (rect_x r) (rect_width r))) in
  let dy := nmax (nmax (nsub (rect_y r) y) n0) (nsub y (nadd (rect_y r) (rect_height r))) in
  nhypot dx dy.

(** The loop over the rectangles: the nearest so far with its distance, none at
    the start, where [best] is [Infinity]; a distance of 0 ends it. *)
Fixpoint nearest (rects : list (LeafId * Rect W)) p (found : option (LeafId * Rect W * W)) : option (LeafId * Rect W * W) :=
  match rects with
  | [] => found
  | (id, r) :: rects =>
      let d := distToRect r (pt_x p) (pt_y p) in
      if match found with Some (_, best) => nltb d best | None => nis_finite d end then
        if neqb d n0 then Some (id, r, d) else nearest rects p (Some (id, r, d))
      else nearest rects p found
  end.

Definition edge_rank (e : Edge) : nat := match e with ELeft => 0 | ERight => 1 | ETop => 2 | EBottom => 3 end.

(** [a.dist - b.dist || rank[a.edge] - rank[b.edge]] is negative. *)
Definition band_before (a b : Edge * W) : bool :=
  let d := nsub a.2 b.2 in
  if neqb d n0 || nis_nan d then (edge_rank a.1 <? edge_rank b.1)%nat else nltb d n0.

Fixpoint insert_band (b : Edge * W) (bs : list (Edge * W)) : list (Edge * W) :=
  match bs with
  | [] => [b]
  | b' :: bs' => if band_before b b' then b :: bs else b' :: insert_band b bs'
  end.

Definition sort_bands (bs : list (Edge * W)) : list (Edge * W) := foldr insert_band [] bs.

Definition hover (rects : list (LeafId * Rect W)) p : option (Hover W) :=
  match nearest rects p None with
  | None => None
  | Some (id, r, _) =>
      let bandX := nmul BAND_FRACTION (rect_width r) in
      let bandY := nmul BAND_FRACTION (rect_height r) in
      let dl := nsub (pt_x p) (rect_x r) in
      let dr := nsub (nadd (rect_x r) (rect_width r)) (pt_x p) in
      let dt := nsub (pt_y p) (rect_y r) in
      let db := nsub (nadd (rect_y r) (rect_height r)) (pt_y p) in
      let bands := sort_bands
        ((if nltb dl bandX then [(ELeft, dl)] else []) ++ (if nltb dr bandX then [(ERight, dr)] else []) ++
         (if nltb dt bandY then [(ETop, dt)] else []) ++ (if nltb db bandY then [(EBottom, db)] else [])) in
      let line :=
        match bands with
        | [] => None
        | (edge, dist) :: _ =>
            let band := match edge with ELeft | ERight => bandX | _ => bandY end in
            let reach := match edge with ETop => n0 | _ => nmin LINE_PX (ndiv band (nlit 2 1)) end in
            if nltb dist reach then Some edge else None
        end in
      Some (mkHover id r (map fst bands) line)
  end.

(** [last] of the [while] loop: from index [i] down to the first span that does
    not start past [hi], or 0. *)
Fixpoint last_reaching (spans : list (W * W)) (hi : W) (i : nat) : nat :=
  match i with
  | O => O
  | S j => match spans !! i with
    | Some s => if nltb (nadd hi COINCIDE_EPS) s.1 then last_reaching spans hi j else i
    | None => i
    end
  end.

(** The scopes one ancestor adds: a range of its children, where they run along
    the line, and the whole of it; [None] where an asserted rectangle is missing. *)
Definition ancestor_scopes t rect opts (path : list nat) (line : W) (edge : Edge) (lo hi : W) : option (list (Scope W)) :=
  match nodeRectAtPath t rect opts path with
  | None => Some []
  | Some ar =>
      if nltb COINCIDE_EPS (nabs (nsub (edgeCoord ar edge) line)) then Some []
      else
        let whole := let '(as_, ae) := spanAlong ar edge in mkScope (mkEdgeTarget path edge None) as_ ae in
        match nodeAtPath t path with
        | Some (Split d cs) =>
            if bool_decide (d = edgeAxis edge) then Some [whole]
            else
              match mapM (fun i => nodeRectAtPath t rect opts (path ++ [i])) (seq 0 (length cs)) with
              | None => None
              | Some rs =>
                  let spans := map (fun r => spanAlong r edge) rs in
                  match find_index (fun s => nleb (nsub lo COINCIDE_EPS) s.2) spans with
                  | Some first =>
                      let last := last_reaching spans hi (length spans - 1) in
                      if (first <? last)%nat && (last - first + 1 <? length spans)%nat then
                        match spans !! first, spans !! last with
                        | Some f, Some l =>
                            Some [mkScope (mkEdgeTarget path edge (Some (Z.of_nat first, Z.of_nat (last + 1)))) f.1 l.2; whole]
                        | _, _ => None
                        end
                      else Some [whole]
                  | None => Some [whole]
                  end
              end
        | _ => Some [whole]
        end
  end.

(** The paths [leafPath.slice(0, k)] for [k] from [leafPath.length - 1] down to 0. *)
Definition ancestor_paths (leafPath : list nat) : list (list nat) :=
  map (fun k => take k leafPath) (reverse (seq 0 (length leafPath))).

Definition scopesOnLine t rect opts (leafPath : list nat) (leafRect : Rect W) (edge : Edge) (lo hi : W) : option (list (Scope W)) :=
  let line := edgeCoord leafRect edge in
  let '(ls, le) := spanAlong leafRect edge in
  match mapM (fun path => ancestor_scopes t rect opts path line edge lo hi) (ancestor_paths leafPath) with
  | Some outs => Some (mkScope (mkEdgeTarget leafPath edge None) ls le :: concat outs)
  | None => None
  end.

(** [while (rects.has(previewId)) previewId += '_']. *)
Fixpoint preview_id (fuel : nat) (rects : list (LeafId * Rect W)) (id : LeafId) : LeafId :=
  match fuel with
  | O => id
  | S fuel => match omap_get id rects with Some _ => preview_id fuel rects (id +:+ "_") | None => id end
  end.

(** [(dragged !== null && moveSize(…)) || 'half']: no size, 0 and NaN are falsy. *)
Definition preview_size t (dragged : option LeafId) (target : EdgeDropTarget) : InsertSize W :=
  match dragged with
  | None => SizeHalf
  | Some id =>
      match Ops.moveSize t id target with
      | Some (SizeWeight w) => if neqb w n0 || nis_nan w then SizeHalf else SizeWeight w
      | _ => SizeHalf
      end
  end.

(** [move] hands back the very tree it was given exactly where the arrangement
    it reached is the tree's own. *)
Definition moves_nothing t (id : LeafId) (target : EdgeDropTarget) : bool :=
  let r := Ops.move t id (TEdge target) in negb r.2 || Ops.same_arrangement r.1 t.

Definition evaluate t rect opts (previewId : LeafId) (dragged : option LeafId) (target : EdgeDropTarget) : option (Rect W) :=
  if match dragged with Some id => moves_nothing t id target | None => false end then None
  else
    let r := Ops.insert t previewId (TEdge target) (preview_size t dragged target) in
    if r.2 then omap_get previewId (layout r.1 rect opts) else None.

(** The smallest scope that spans the slide, the innermost of a tie. *)
Fixpoint smallest (scopes : list (Scope W)) (lo hi : W) (scope : option (Scope W)) : option (Scope W) :=
  match scopes with
  | [] => scope
  | s :: scopes =>
      if nltb (nadd lo COINCIDE_EPS) (sc_start s) || nltb (sc_end s) (nsub hi COINCIDE_EPS) then smallest scopes lo hi scope
      else
        let better := match scope with
          | None => true
          | Some b => nltb (nsub (sc_end s) (sc_start s)) (nsub (nsub (sc_end b) (sc_start b)) COINCIDE_EPS)
          end in
        smallest scopes lo hi (if better then Some s else scope)
  end.

Definition clampTo r p (edge : Edge) : W :=
  let '(s, e) := spanAlong r edge in nmin (nmax (alongOf p edge) s) e.

Definition outside rect p : bool :=
  nltb (pt_x p) (nsub (rect_x rect) LINE_PX) || nltb (nadd (nadd (rect_x rect) (rect_width rect)) LINE_PX) (pt_x p) ||
  nltb (pt_y p) (nsub (rect_y rect) LINE_PX) || nltb (nadd (rect_y rect) (rect_height rect)) (pt_y p).

Definition miss : DropHit W := mkHit None false.

(** What a scope that was chosen answers; [None] where an asserted value is missing. *)
Definition candidate_of t rect opts (dragged : option LeafId) (previewId : LeafId) (scopes : list (Scope W)) (scope : Scope W) (anchored : bool)
    : option (DropHit W) :=
  match evaluate t rect opts previewId dragged (sc_target scope) with
  | None => Some (mkHit None anchored)
  | Some preview =>
      match materializeTarget t (sc_target scope), targetRect t rect opts (sc_target scope) with
      | Some (t', path), Some area =>
          let scopeLeaves := leaves (mkTree (nodeAtPath t' path)) in
          let extent := nsub (sc_end scope) (sc_start scope) in
          Some (mkHit (Some (mkCandidate (TEdge (sc_target scope)) preview area
              (length (filter (fun id => dragged <> Some id) scopeLeaves))
              (existsb (fun s => nltb (nadd extent COINCIDE_EPS) (nsub (sc_end s) (sc_start s))) scopes) None)) anchored)
      | _, _ => None
      end
  end.

(** The center of a leaf: the two trade slots. *)
Definition swap_hit (rects : list (LeafId * Rect W)) (here : Hover W) (dragged : option LeafId) : DropHit W :=
  match dragged with
  | None => miss
  | Some id =>
      match omap_get id rects with
      | None => miss
      | Some slot =>
          if bool_decide (h_leafId here = id) then miss
          else mkHit (Some (mkCandidate (TSwap (h_leafId here)) (h_leafRect here) (h_leafRect here) 1 false (Some slot))) false
      end
  end.

(** The edge a live slide keeps, and where it began, while the hovered leaf has
    that edge in band and on the anchor's line. *)
Definition slide (here : Hover W) (from : option (Hover W)) : option (Edge * Hover W) :=
  match from with
  | None => None
  | Some from =>
      match h_bands from with
      | [] => None
      | edge :: _ =>
          if bool_decide (edge ∈ h_bands here) &&
             nleb (nabs (nsub (edgeCoord (h_leafRect here) edge) (edgeCoord (h_leafRect from) edge))) COINCIDE_EPS
          then Some (edge, from) else None
      end
  end.

Definition hitTest t rect p (dragged : option LeafId) opts (anchor : option (Point W)) : option (DropHit W) :=
  match root t with
  | None => Some miss
  | Some _ =>
      if outside rect p then Some miss
      else
        let rects := layout t rect opts in
        match hover rects p with
        | None => Some miss
        | Some here =>
            match findLeafPath t (h_leafId here) with
            | None => Some miss
            | Some leafPath =>
                let previewId := preview_id (S (length rects)) rects EXTERNAL_ID in
                let from := match anchor with Some a => hover rects a | None => None end in
                let live := slide here from in
                match match live with Some (edge, _) => Some edge | None => head (h_bands here) end with
                | None => Some (swap_hit rects here dragged)
                | Some edge =>
                    let at_ := clampTo (h_leafRect here) p edge in
                    let start := match live, anchor with Some (_, from), Some a => clampTo (h_leafRect from) a edge | _, _ => at_ end in
                    let lo := nmin start at_ in
                    let hi := nmax start at_ in
                    match scopesOnLine t rect opts leafPath (h_leafRect here) edge lo hi with
                    | None => None
                    | Some scopes =>
                        let scope := if bool_decide (h_line here = Some edge) then last scopes else smallest scopes lo hi None in
                        match scope with
                        | None => Some miss
                        | Some scope => candidate_of t rect opts dragged previewId scopes scope (bool_decide (is_Some live))
                        end
                    end
                end
            end
        end
  end.

End HitTest.

(** ** The shape of the outcome does not depend on the new leaf's name *)

Section Renaming.
  Context {W : Type} `{N : JSNum W}.
  Implicit Types (n : LathNode W) (t : LathTree W) (cs : list (LathChild W)) (rect : Rect W) (opts : LayoutOpts W).
  Variable f : LeafId -> LeafId.

(** One child renamed, and a whole tree. *)
Let rc (c : LathChild W) : LathChild W := (rename f c.1, c.2).
Let rt t : LathTree W := mkTree (rename f <$> root t).

Lemma snd_renamed cs : map snd (map rc cs) = map snd cs.
Proof. by rewrite map_map. Qed.

Lemma normalizeWeights_renamed cs : normalizeWeights (map rc cs) = map rc (normalizeWeights cs).
Proof.
  unfold normalizeWeights. rewrite snd_renamed, length_map. destruct (nleb _ n0); by rewrite !map_map.
Qed.

Lemma collect_renamed d om (w : W) : collect d (rename f <$> om) w = map rc (collect d om w).
Proof. destruct om as [[id|d' cs]|]; simpl; [done| |done]. case_decide; [|done]. by rewrite !map_map. Qed.

Lemma normalize_renamed n : normalize (rename f n) = rename f <$> normalize n.
Proof.
  induction n as [id|d cs IH] using LathNode_ind'; [done|]. cbn [rename normalize].
  assert (E : concat (map (fun c => collect d (normalize c.1) c.2) (map rc cs)) =
    map rc (concat (map (fun c => collect d (normalize c.1) c.2) cs))).
  { rewrite concat_map, !map_map. f_equal. apply map_ext_Forall. eapply Forall_impl; [exact IH|].
    intros c Hc. simpl. rewrite Hc. apply collect_renamed. }
  fold rc. rewrite E. generalize (concat (map (fun c => collect d (normalize c.1) c.2) cs)) as l.
  intros [|c [|c2 l]]; [reflexivity..|].
  change (Some (Split d (normalizeWeights (map rc (c :: c2 :: l)))) =
    Some (Split d (map rc (normalizeWeights (c :: c2 :: l))))). by rewrite normalizeWeights_renamed.
Qed.

Lemma node_at_renamed n p : node_at (rename f n) p = rename f <$> node_at n p.
Proof.
  revert n. induction p as [|i p IH]; intros n; [done|]. destruct n as [id|d cs]; [done|].
  cbn [rename node_at]. fold rc. rewrite list_lookup_fmap. destruct (cs !! i) as [c|]; simpl; [apply IH|done].
Qed.

Lemma replaceAtPath_renamed n p m : replaceAtPath (rename f n) p (rename f m) = rename f (replaceAtPath n p m).
Proof.
  revert n. induction p as [|i p IH]; intros n; [done|]. destruct n as [id|d cs]; [done|].
  cbn [rename replaceAtPath]. fold rc. rewrite list_lookup_fmap. destruct (cs !! i) as [c|]; [|done].
  cbn [fmap option_fmap option_map rename]. fold rc. f_equal. rewrite (list_fmap_insert rc). f_equal.
  unfold rc. simpl. by rewrite IH.
Qed.

Lemma minSpan_renamed n d opts : minSpan (rename f n) d opts = minSpan n d opts.
Proof.
  induction n as [id|d' cs IH] using LathNode_ind'; [done|]. cbn [rename minSpan]. fold rc.
  assert (E : map (fun c => minSpan c.1 d opts) (map rc cs) = map (fun c => minSpan c.1 d opts) cs).
  { rewrite map_map. by apply map_ext_Forall. }
  rewrite E. unfold gaps. by rewrite length_map.
Qed.

Lemma forEachChildRect_renamed d cs rect opts : forEachChildRect d (map rc cs) rect opts = forEachChildRect d cs rect opts.
Proof.
  assert (E1 : map (fun c => minSpan c.1 d opts) (map rc cs) = map (fun c => minSpan c.1 d opts) cs).
  { rewrite map_map. apply map_ext. intros c. apply minSpan_renamed. }
  assert (E2 : fill_init (map rc cs) opts d = fill_init cs opts d).
  { unfold fill_init. rewrite map_map. apply map_ext. intros c. simpl. by rewrite minSpan_renamed. }
  unfold forEachChildRect, allocateChildSpans, fractional_spans, available_span, gaps. by rewrite E1, E2, length_map.
Qed.

Lemma leaf_rects_renamed n rect opts :
  leaf_rects (rename f n) rect opts = map (fun e => (f e.1, e.2)) (leaf_rects n rect opts).
Proof.
  revert rect. induction n as [id|d cs IH] using LathNode_ind'; intros rect; [done|].
  cbn [rename]. fold rc. rewrite !leaf_rects_Split, forEachChildRect_renamed, concat_map. f_equal.
  generalize (forEachChildRect d cs rect opts) as rs.
  induction IH as [|c cs Hc _ IHcs]; intros [|r rs]; [done..|]. simpl. by rewrite Hc, IHcs.
Qed.

Lemma inserted_children_renamed share cs idx before id (w : W) :
  Ops.inserted_children share (map rc cs) idx before (f id) w =
  map rc (Ops.inserted_children share cs idx before id w).
Proof.
  unfold Ops.inserted_children, splice_in, Ops.mkLeaf.
  set (scale := match share with KeepSiblings => nsub n1 w | _ => n1 end).
  assert (E : map (fun c => (c.1, nmul c.2 scale)) (map rc cs) = map rc (map (fun c => (c.1, nmul c.2 scale)) cs)).
  { by rewrite !map_map. }
  rewrite E. clear E. generalize (map (fun c => (c.1, nmul c.2 scale)) cs) as l. intros l. clearbody scale. rewrite list_lookup_fmap.
  assert (F : forall k (x : LathChild W) y l', y = rc x -> take k (map rc l') ++ y :: drop k (map rc l') = map rc (take k l' ++ x :: drop k l')).
  { intros k x y l' ->. by rewrite map_app, firstn_map, skipn_map. }
  destruct share; [by apply F..|]. destruct (l !! idx) as [c|]; [|by apply F].
  cbn [fmap option_fmap option_map].
  assert (G : <[idx := ((rc c).1, ndiv (rc c).2 (nlit 2 1))]> (map rc l) = map rc (<[idx := (c.1, ndiv c.2 (nlit 2 1))]> l))
    by (symmetry; apply (list_fmap_insert rc)).
  rewrite G. by apply F.
Qed.

Lemma insertBesideNode_renamed t p edge id (w : W) share :
  Ops.insertBesideNode (rt t) p edge (f id) w share = rt (Ops.insertBesideNode t p edge id w share).
Proof.
  unfold Ops.insertBesideNode, rt, nodeAtPath, Ops.mkLeaf. destruct (root t) as [r|] eqn:Hr; cbn [root fmap option_fmap option_map]; [|by rewrite Hr].
  assert (Hp : forall m, Ops.edge_pair edge (Leaf (f id), w) (rename f m, nsub n1 w) =
    rename f (Ops.edge_pair edge (Leaf id, w) (m, nsub n1 w))).
  { intros m. unfold Ops.edge_pair. by destruct (edgeIsBefore edge). }
  destruct p as [|i p]; [by rewrite Hp, normalize_renamed|].
  rewrite !node_at_renamed.
  assert (G : match rename f <$> node_at r (i :: p) with
     | Some m => mkTree (normalize (replaceAtPath (rename f r) (i :: p) (Ops.edge_pair edge (Leaf (f id), w) (m, nsub n1 w))))
     | None => mkTree (Some (rename f r)) end =
    mkTree (rename f <$> root (match node_at r (i :: p) with
     | Some m => mkTree (normalize (replaceAtPath r (i :: p) (Ops.edge_pair edge (Leaf id, w) (m, nsub n1 w))))
     | None => t end))).
  { destruct (node_at r (i :: p)) as [m|]; [|by rewrite Hr]. cbn [root fmap option_fmap option_map]. f_equal.
    by rewrite Hp, replaceAtPath_renamed, normalize_renamed. }
  destruct (node_at r (removelast (i :: p))) as [[x|d cs]|]; cbn [fmap option_fmap option_map rename]; [exact G| |exact G].
  case_decide; [|exact G]. fold rc. rewrite inserted_children_renamed, normalizeWeights_renamed.
  cbn [root]. rewrite <- normalize_renamed, <- replaceAtPath_renamed. done.
Qed.

End Renaming.

Section Outcome.
  Context {W : Type} `{N : JSNum W}.
  Implicit Types (n : LathNode W) (t : LathTree W) (rect r : Rect W) (opts : LayoutOpts W).

(** A new leaf under another name gives the same tree, renamed. *)
Lemma insert_renamed t a b et size :
  a ∉ leaves t -> b ∉ leaves t ->
  Ops.insert t b (TEdge et) size =
    (mkTree (rename (fun x => if decide (x = a) then b else x) <$> root (Ops.insert t a (TEdge et) size).1),
     (Ops.insert t a (TEdge et) size).2).
Proof.
  intros Ha Hb. set (f := fun x => if decide (x = a) then b else x).
  assert (Hf : forall u : LathTree W, leaves u = leaves t -> mkTree (rename f <$> root u) = u).
  { intros [[m|]] Hl; [|done]. simpl. rewrite rename_notin; [done|]. intros x Hx. unfold f.
    apply decide_False. intros ->. apply Ha. by rewrite <- Hl. }
  assert (Hfa : f a = b) by (by apply decide_True).
  unfold Ops.insert, Ops.insertImpl. destruct (Ops.size_is_nan size); cbn [fst snd]; [by rewrite (Hf t)|].
  pose proof (Hf t eq_refl) as Ht.
  destruct (root t) as [m|] eqn:Hr; [|cbn [fst snd]; by rewrite Hr, Ht].
  rewrite (proj2 (findLeafPath_None t a)), (proj2 (findLeafPath_None t b)) by done.
  destruct (materializeTarget t et) as [[t1 p]|] eqn:Hm; [|cbn [fst snd]; by rewrite Hr, Ht].
  destruct (materialize_resolves _ _ _ _ Hm) as (node & _ & _ & Hl). cbn [fst snd].
  by rewrite <- insertBesideNode_renamed, (Hf t1 Hl), Hfa.
Qed.

(** The rectangles after a renaming are the same, each under the new name. *)
Lemma layout_renamed f t rect opts id r :
  well_formed t -> well_formed (mkTree (rename f <$> root t)) ->
  omap_get id (layout t rect opts) = Some r ->
  omap_get (f id) (layout (mkTree (rename f <$> root t)) rect opts) = Some r.
Proof.
  intros Hwf Hwf' H. pose proof (well_formed_NoDup _ Hwf') as Hnd.
  rewrite layout_leaf_rects in H by done. rewrite layout_leaf_rects by done. unfold leaves in Hnd. simpl in *.
  destruct (root t) as [n|]; simpl in *; [|done]. apply omap_get_elem.
  - by rewrite leaf_rects_keys.
  - rewrite leaf_rects_renamed. apply omap_get_elem_of in H.
    apply list_elem_of_In, in_map_iff. exists (id, r). split; [done|]. by apply list_elem_of_In.
Qed.

Lemma insert_lands t a b et size r rect opts :
  well_formed t -> (Ops.insert t a (TEdge et) size).2 = true ->
  omap_get a (layout (Ops.insert t a (TEdge et) size).1 rect opts) = Some r -> b ∉ leaves t ->
  exists t', Ops.insert t b (TEdge et) size = (t', true) /\ omap_get b (layout t' rect opts) = Some r.
Proof.
  intros Hwf Hok Hr Hb. pose proof (well_formed_NoDup _ Hwf) as Hnd.
  destruct (Ops.insert t a (TEdge et) size) as [ta oka] eqn:Ea. cbn [fst snd] in *. subst oka.
  destruct (insertImpl_ok t a et size false ta Hnd Ea) as (Ha & Hwfa & _).
  pose proof (insert_renamed t a b et size Ha Hb) as Eb. rewrite Ea in Eb. cbn [fst snd] in Eb.
  set (f := fun x => if decide (x = a) then b else x) in Eb.
  destruct (insertImpl_ok t b et size false _ Hnd Eb) as (_ & Hwfb & _).
  eexists. split; [exact Eb|]. replace b with (f a) by (by apply decide_True). by apply layout_renamed.
Qed.

(** The two leaves of a swap take each other's rectangle. *)
Lemma swap_lands t a b ra rb rect opts :
  well_formed t -> a <> b -> omap_get a (layout t rect opts) = Some ra -> omap_get b (layout t rect opts) = Some rb ->
  exists t', Ops.swap t a b = (t', true) /\
    omap_get a (layout t' rect opts) = Some rb /\ omap_get b (layout t' rect opts) = Some ra.
Proof.
  intros Hwf Hab Ha Hb.
  assert (Hk : forall k (v : Rect W), omap_get k (layout t rect opts) = Some v -> k ∈ leaves t).
  { intros k v Hv. assert (Hin : k ∈ map fst (layout t rect opts)) by (apply omap_get_is_Some; by eexists).
    rewrite layout_leaf_rects in Hin by done. unfold leaves. destruct (root t); [by rewrite leaf_rects_keys in Hin|].
    by apply elem_of_nil in Hin. }
  assert (Hwf' : well_formed (mkTree (rename (swap_id a b) <$> root t))).
  { apply well_formed_rename; [done|]. apply NoDup_fmap_2_strong; [|by apply well_formed_NoDup].
    intros x y _ _. apply swap_id_inj. }
  eexists. split; [apply swap_ok; eauto|].
  assert (Ea : swap_id a b a = b) by (unfold swap_id; by rewrite decide_True).
  assert (Eb : swap_id a b b = a) by (unfold swap_id; rewrite decide_False by done; by rewrite decide_True).
  split; [rewrite <- Eb at 1|rewrite <- Ea at 1]; by apply layout_renamed.
Qed.

End Outcome.

(** ** Every asserted value is there *)

Section Answers.
  Context {W : Type} `{N : JSNum W} `{H : JSHypot W}.
  Implicit Types (n : LathNode W) (t : LathTree W) (rect r : Rect W) (opts : LayoutOpts W) (p : Point W).

Lemma node_rect_is_Some n rect opts path : is_Some (node_at n path) -> is_Some (node_rect n rect opts path).
Proof.
  revert n rect. induction path as [|i path IH]; intros n rect Hn; [by eexists|].
  destruct n as [id|d cs]; simpl in *; [by destruct Hn|].
  destruct (cs !! i) as [c|] eqn:Hi; [|by destruct Hn].
  assert (Hr : is_Some (forEachChildRect d cs rect opts !! i)).
  { apply lookup_lt_is_Some. rewrite forEachChildRect_length. by eapply lookup_lt_Some. }
  destruct Hr as [r ->]. by apply IH.
Qed.

Lemma nodeRectAtPath_is_Some t rect opts path :
  is_Some (nodeAtPath t path) -> is_Some (nodeRectAtPath t rect opts path).
Proof. unfold nodeAtPath, nodeRectAtPath. destruct (root t); [apply node_rect_is_Some|by intros []]. Qed.

Lemma child_rect_is_Some t rect opts path d cs i :
  nodeAtPath t path = Some (Split d cs) -> (i < length cs)%nat ->
  is_Some (nodeRectAtPath t rect opts (path ++ [i])).
Proof.
  intros Hn Hi. apply nodeRectAtPath_is_Some. unfold nodeAtPath in *. destruct (root t) as [m|]; [|done].
  rewrite node_at_app, Hn. simpl. apply lookup_lt_is_Some in Hi as [c ->]. by eexists.
Qed.

Lemma last_reaching_le (spans : list (W * W)) hi i : (last_reaching spans hi i <= i)%nat.
Proof.
  induction i as [|i IH]; simpl; [done|]. destruct (spans !! S i); [|done]. destruct (nltb _ _); [lia|done].
Qed.

Lemma ancestor_scopes_is_Some t rect opts path (line : W) edge lo hi :
  is_Some (ancestor_scopes t rect opts path line edge lo hi).
Proof.
  unfold ancestor_scopes. destruct (nodeRectAtPath t rect opts path) as [ar|]; [|by eexists].
  destruct (nltb COINCIDE_EPS _); [by eexists|]. destruct (spanAlong ar edge) as [a b].
  destruct (nodeAtPath t path) as [[id|d cs]|] eqn:Hn; [by eexists| |by eexists].
  case_bool_decide; [by eexists|].
  assert (Hm : is_Some (mapM (fun i => nodeRectAtPath t rect opts (path ++ [i])) (seq 0 (length cs)))).
  { apply mapM_is_Some, Forall_forall. intros i Hi. apply elem_of_seq in Hi.
    eapply child_rect_is_Some; [done|lia]. }
  destruct Hm as [rs Ers]. rewrite Ers. set (spans := map _ rs).
  destruct (find_index _ spans) as [first|] eqn:Ef; [|by eexists].
  set (l := last_reaching spans hi (length spans - 1)).
  pose proof (last_reaching_le spans hi (length spans - 1)) as Hl. fold l in Hl.
  destruct ((first <? l)%nat && _) eqn:E; [|by eexists].
  apply andb_true_iff in E as [E _]. apply Nat.ltb_lt in E.
  assert (H1 : is_Some (spans !! first)) by (apply lookup_lt_is_Some; lia).
  assert (H2 : is_Some (spans !! l)) by (apply lookup_lt_is_Some; lia).
  destruct H1 as [? ->], H2 as [? ->]. by eexists.
Qed.

Lemma scopesOnLine_is_Some t rect opts leafPath r edge (lo hi : W) :
  is_Some (scopesOnLine t rect opts leafPath r edge lo hi).
Proof.
  unfold scopesOnLine. destruct (spanAlong r edge) as [a b].
  assert (Hm : is_Some (mapM (fun path => ancestor_scopes t rect opts path (edgeCoord r edge) edge lo hi)
    (ancestor_paths leafPath))).
  { apply mapM_is_Some, Forall_forall. intros i _. apply ancestor_scopes_is_Some. }
  destruct Hm as [rs ->]. by eexists.
Qed.

(** A target that can be materialized has a rectangle. *)
Lemma targetRect_is_Some t rect opts et :
  is_Some (materializeTarget t et) -> is_Some (targetRect t rect opts et).
Proof.
  intros [[t1 p] Hm]. unfold targetRect. rewrite Hm. unfold materializeTarget in Hm.
  destruct (nodeAtPath t (et_path et)) as [node|] eqn:Hn; [|done]. destruct (root t) as [m|]; [|done].
  destruct (et_range et) as [[start stop]|]; [|apply nodeRectAtPath_is_Some; by rewrite Hn].
  destruct node as [|d cs]; [done|].
  destruct ((start <? 0)%Z || _ || _) eqn:Hb; [done|]. clear Hm.
  apply orb_false_iff in Hb as [Hb Hb3]. apply orb_false_iff in Hb as [Hb1 Hb2].
  destruct (child_rect_is_Some t rect opts (et_path et) d cs (Z.to_nat start) Hn) as [? ->]; [lia|].
  destruct (child_rect_is_Some t rect opts (et_path et) d cs (Z.to_nat (stop - 1)) Hn) as [? ->]; [lia|].
  by eexists.
Qed.

Lemma evaluate_Some t rect opts previewId dragged et preview :
  evaluate t rect opts previewId dragged et = Some preview ->
  is_Some (materializeTarget t et) /\
  (Ops.insert t previewId (TEdge et) (preview_size t dragged et)).2 = true /\
  omap_get previewId (layout (Ops.insert t previewId (TEdge et) (preview_size t dragged et)).1 rect opts) = Some preview /\
  match dragged with Some id => moves_nothing t id et = false | None => True end.
Proof.
  unfold evaluate. intros E.
  assert (Hg : match dragged with Some id => moves_nothing t id et | None => false end = false).
  { by destruct (match dragged with Some id => moves_nothing t id et | None => false end). }
  rewrite Hg in E. destruct (Ops.insert t previewId (TEdge et) _) as [t' ok] eqn:Ei. cbn [fst snd] in *.
  destruct ok; [|done]. split_all; [|done|done|by destruct dragged].
  unfold Ops.insert, Ops.insertImpl in Ei. destruct (Ops.size_is_nan _); [done|]. destruct (root t); [|done].
  destruct (findLeafPath t previewId); [done|]. destruct (materializeTarget t et); [by eexists|done].
Qed.

Lemma candidate_of_is_Some t rect opts dragged previewId scopes scope b :
  is_Some (candidate_of t rect opts dragged previewId scopes scope b).
Proof.
  unfold candidate_of. destruct (evaluate _ _ _ _ _ _) as [preview|] eqn:E; [|by eexists].
  apply evaluate_Some in E as (Hm & _). destruct (targetRect_is_Some t rect opts _ Hm) as [area ->].
  destruct Hm as [[t1 p1] ->]. by eexists.
Qed.

Lemma hitTest_is_Some t rect p dragged opts anchor : is_Some (hitTest t rect p dragged opts anchor).
Proof.
  unfold hitTest. destruct (root t); [|by eexists]. destruct (outside rect p); [by eexists|].
  destruct (hover _ p) as [here|]; [|by eexists]. destruct (findLeafPath t _) as [path|]; [|by eexists].
  set (live := slide here _).
  destruct (match live with Some (edge, _) => Some edge | None => head (h_bands here) end) as [edge|]; [|by eexists].
  set (lo := nmin _ _). set (hi := nmax _ _).
  destruct (scopesOnLine_is_Some t rect opts path (h_leafRect here) edge lo hi) as [scopes ->].
  destruct (if bool_decide _ then last scopes else smallest scopes lo hi None) as [scope|]; [|by eexists].
  apply candidate_of_is_Some.
Qed.

(** The placeholder's name is one no leaf has. *)
Lemma preview_id_taken fuel (rects : list (LeafId * Rect W)) id :
  preview_id fuel rects id ∈ map fst rects ->
  exists l, length l = S fuel /\ NoDup l /\ l ⊆ map fst rects /\ Forall (fun s => (String.length id <= String.length s)%nat) l.
Proof.
  revert id. induction fuel as [|fuel IH]; intros id Hin; simpl in Hin.
  { exists [id]. split_all; [done|apply NoDup_singleton| |by constructor].
    intros x Hx. apply list_elem_of_singleton in Hx as ->. done. }
  destruct (omap_get id rects) as [r|] eqn:E.
  - assert (Hid : id ∈ map fst rects) by (apply omap_get_is_Some; by eexists).
    destruct (IH _ Hin) as (l & Hl & Hnd & Hs & Hlen). assert (E2 : String.length (id +:+ "_") = S (String.length id)) by (clear; induction id as [|a id IH]; simpl in *; [done|by rewrite IH]).
    rewrite E2 in Hlen.
    exists (id :: l). split_all.
    + simpl. by rewrite Hl.
    + constructor; [|done]. intros Hx. rewrite Forall_forall in Hlen. specialize (Hlen _ Hx). simpl in Hlen. lia.
    + intros x Hx. apply elem_of_cons in Hx as [->|Hx]; [done|by apply Hs].
    + constructor; [done|]. eapply Forall_impl; [exact Hlen|]. simpl. intros x Hx. lia.
  - apply omap_get_is_Some in Hin. rewrite E in Hin. by destruct Hin.
Qed.

Lemma preview_id_fresh (rects : list (LeafId * Rect W)) id : preview_id (S (length rects)) rects id ∉ map fst rects.
Proof.
  intros Hin. destruct (preview_id_taken _ _ _ Hin) as (l & Hl & Hnd & Hs & _).
  apply NoDup_submseteq in Hs; [|done]. apply submseteq_length in Hs. rewrite length_map in Hs. lia.
Qed.

End Answers.

(** ** The theorems *)

Section HitTestTheorems.
  Context {W : Type} `{N : JSNum W} `{H : JSHypot W}.
  Implicit Types (t : LathTree W) (rect r : Rect W) (opts : LayoutOpts W) (p : Point W).

Lemma nearest_elem (rects : list (LeafId * Rect W)) p found id r d :
  nearest rects p found = Some (id, r, d) -> (id, r) ∈ rects \/ found = Some (id, r, d).
Proof.
  revert found. induction rects as [|[id' r'] rects IH]; intros found E; simpl in E; [by right|].
  assert (G : forall d', nearest rects p (Some (id', r', d')) = Some (id, r, d) -> (id, r) ∈ (id', r') :: rects).
  { intros d' E'. apply IH in E' as [Hin|E']; [by right|]. simplify_eq. by left. }
  destruct (match found with Some (_, best) => _ | None => _ end).
  - destruct (neqb _ n0); [simplify_eq; left; by left|]. left. by eapply G.
  - apply IH in E as [Hin|E]; [left; by right|by right].
Qed.

Lemma hover_elem (rects : list (LeafId * Rect W)) p here :
  hover rects p = Some here -> (h_leafId here, h_leafRect here) ∈ rects.
Proof.
  unfold hover. destruct (nearest rects p None) as [[[id r] d]|] eqn:E; [|done]. intros E'. simplify_eq. simpl.
  by apply nearest_elem in E as [Hin|E].
Qed.

(** A hit with a candidate is the center of a leaf or a scope of its line. *)
Lemma hitTest_candidate t rect p dragged opts anchor hit c :
  hitTest t rect p dragged opts anchor = Some hit -> hit_candidate hit = Some c ->
  (exists here, hover (layout t rect opts) p = Some here /\ hit = swap_hit (layout t rect opts) here dragged) \/
  (exists scopes scope b, candidate_of t rect opts dragged
     (preview_id (S (length (layout t rect opts))) (layout t rect opts) EXTERNAL_ID) scopes scope b = Some hit).
Proof.
  intros E Hc. unfold hitTest in E. destruct (root t); [|simplify_eq; done].
  destruct (outside rect p); [simplify_eq; done|].
  destruct (hover _ p) as [here|] eqn:Eh; [|simplify_eq; done].
  destruct (findLeafPath t _); [|simplify_eq; done].
  set (live := slide here _) in E.
  destruct (match live with Some (edge, _) => Some edge | None => head (h_bands here) end) as [edge|].
  - destruct (scopesOnLine _ _ _ _ _ _ _ _) as [scopes|]; [|done]. set (scope := if bool_decide _ then _ else _) in E.
    destruct scope as [scope|]; [|simplify_eq; done]. right. eauto.
  - left. simplify_eq. eauto.
Qed.

(** C6. What the preview of a drag shows is what its drop does.  A swap is
    offered between two leaves of the Wall, succeeds, and leaves each in the
    other's rectangle, those shown.  An edge drop can be made: a pane inserted
    there, under any name no leaf has and at the size of the preview, succeeds
    and is laid out exactly in the preview's rectangle; and where a leaf of the
    Wall is dragged, its move succeeds and changes the arrangement. *)
Theorem hit_commits t rect p dragged opts anchor hit c :
  well_formed t -> hitTest t rect p dragged opts anchor = Some hit -> hit_candidate hit = Some c ->
  match hit_target c with
  | TSwap leaf =>
      exists id t' slot, dragged = Some id /\ Ops.swap t id leaf = (t', true) /\ swapRect c = Some slot /\
        omap_get id (layout t' rect opts) = Some (previewRect c) /\ omap_get leaf (layout t' rect opts) = Some slot
  | TEdge et =>
      (forall newId, newId ∉ leaves t ->
        exists t', Ops.insert t newId (TEdge et) (preview_size t dragged et) = (t', true) /\
          omap_get newId (layout t' rect opts) = Some (previewRect c)) /\
      forall id, dragged = Some id ->
        exists t', Ops.move t id (TEdge et) = (t', true) /\ Ops.same_arrangement t' t = false
  end.
Proof.
  intros Hwf E Hc. destruct (hitTest_candidate _ _ _ _ _ _ _ _ E Hc) as [(here & Eh & ->)|(scopes & scope & b & E')]; clear E.
  - unfold swap_hit in Hc. destruct dragged as [id|]; [|done].
    destruct (omap_get id _) as [slot|] eqn:Es; [|done]. destruct (bool_decide _) eqn:Eb; [done|].
    apply bool_decide_eq_false in Eb. simplify_eq/=. apply hover_elem in Eh.
    apply omap_get_elem in Eh; [|rewrite layout_leaf_rects by done; apply well_formed_NoDup in Hwf; unfold leaves in Hwf;
      destruct (root t); [by rewrite leaf_rects_keys|constructor]].
    destruct (swap_lands t id (h_leafId here) slot (h_leafRect here) rect opts) as (t' & E1 & E2 & E3); [done..|].
    by exists id, t', slot.
  - unfold candidate_of in E'. destruct (evaluate _ _ _ _ _ _) as [preview|] eqn:Ee; [|simplify_eq; done].
    apply evaluate_Some in Ee as (_ & Hok & Hr & Hm).
    destruct (materializeTarget _ _) as [[t1 q]|]; [|done]. destruct (targetRect _ _ _ _) as [area|]; [|done].
    injection E' as <-. cbn [hit_candidate] in Hc. injection Hc as <-. cbn [hit_target previewRect]. split.
    + intros newId Hn. by eapply insert_lands.
    + intros id ->. unfold moves_nothing in Hm. destruct (Ops.move t id _) as [t' ok]. simpl in Hm.
      apply orb_false_iff in Hm as [Ho Ha]. destruct ok; [|done]. by exists t'.
Qed.

(** The hit test answers wherever the pointer is: none of the values its
    code asserts to be there (the rectangles of an ancestor's children, the
    materialized target and its rectangle) is ever missing, and the name its
    preview is inserted under is no leaf's. *)
Theorem hit_test_answers t rect p dragged opts anchor :
  (exists hit, hitTest t rect p dragged opts anchor = Some hit) /\
  preview_id (S (length (layout t rect opts))) (layout t rect opts) EXTERNAL_ID ∉ map fst (layout t rect opts).
Proof. split; [apply hitTest_is_Some|apply preview_id_fresh]. Qed.

End HitTestTheorems.

(** ** Examples *)

(** Over exact numbers, a distance by its larger part. *)
#[local] Instance larger_hypot : JSHypot Q :=
  {| nhypot := fun x y => if Qle_bool (Qabs.Qabs x) (Qabs.Qabs y) then Qabs.Qabs y else Qabs.Qabs x |}.

(** Two panes side by side over two panes. *)
Definition quad_tree : LathTree Q :=
  mkTree (Some (Split Row [(Split Col [(Leaf "a", 1#2); (Leaf "c", 1#2)], 1#2); (Split Col [(Leaf "b", 1#2); (Leaf "d", 1#2)], 1#2)])).
Definition quad_rect : Rect Q := mkRect 0%Q 0%Q 204%Q 204%Q.
Definition quad_opts : LayoutOpts Q := mkOpts 4%Q 10%Q 10%Q.

Definition target_at (x y : Q) (dragged : option LeafId) : option DropTarget :=
  h ← hitTest quad_tree quad_rect (mkPoint x y) dragged quad_opts None; c ← hit_candidate h; Some (hit_target c).

Example targets :
  target_at 150 50 (Some "a") = Some (TSwap "b") /\
  target_at 150 20 (Some "a") = Some (TEdge (mkEdgeTarget [1; 0] ETop None)) /\
  target_at 102 50 None = Some (TEdge (mkEdgeTarget [0] ERight None)) /\
  target_at 20 50 (Some "a") = None.
Proof. vm_compute. done. Qed.

(** A pane of another Wall dropped on the gutter goes between the columns, a
    third of the Wall wide. *)
Lemma hit_commits_witness :
  exists t', Ops.insert quad_tree "e" (TEdge (mkEdgeTarget [0] ERight None)) SizeHalf = (t', true) /\
    omap_get "e" (layout t' quad_rect quad_opts) = Some (mkRect 69%Q 0%Q 66%Q 204%Q).
Proof.
  destruct (hitTest quad_tree quad_rect (mkPoint 102%Q 50%Q) None quad_opts None) as [hit|] eqn:E; [|vm_compute in E; discriminate E].
  destruct (hit_candidate hit) as [c|] eqn:Ec; [|vm_compute in E; injection E as <-; discriminate Ec].
  assert (Hwf : well_formed quad_tree) by (apply well_formed_by_computation; vm_compute; reflexivity).
  pose proof (hit_commits _ _ _ _ _ _ _ _ Hwf E Ec) as G.
  vm_compute in E. injection E as <-. injection Ec as <-. apply (proj1 G).
  refine (proj1 (bool_decide_eq_true _) _). vm_compute. reflexivity.
Defined.
