(* ===== verification/LathResize.v ===== *)
(** * Resizing (lib/src/lib/lath/ops.ts, resize)

    The sash lands where it was dragged: after [resize] the split's visible
    spans are the old ones with the dragged boundary moved, and no other. *)
From Stdlib Require Import ZArith QArith Qround Qminmax Lqa Lia List.
From S2P Require Import Prelude JsNum LathModel LathStructure LathWeights LathLayout LathSpans LathOps.
From S2P Require Import LathOps LathOpsFacts LathGroups LathMove LathValid LathRoundTrip LathTiling LathSpec.
#[local] Set Warnings "-register-all".

Section split_drag.

Implicit Types (n r : LathNode Q) (t : LathTree Q) (cs : list (LathChild Q)) (p : list nat).

(** ** Weights read off visible spans reproduce them *)

Lemma waterfill_reads_back fuel (av : Q) (fs : list (Fill Q)) (spans : list Q) (k : Q) :
  Forall (fun f => f_clamped f = false) fs -> fs <> [] -> (0 < k)%Q ->
  Forall2 (fun f s => f_weight f == s * k /\ 0 < s /\ f_min f <= s)%Q fs spans -> (nsum spans == av)%Q ->
  exists l, waterfill (S fuel) av fs = Some l /\ Forall2 Qeq l spans.
Proof.
  intros Hun Hne Hk Hf Hsum. cbn [waterfill]. rewrite filter_all by (by apply Forall_forall).
  destruct (length fs =? 0)%nat eqn:E0.
  { apply Nat.eqb_eq, length_zero_iff_nil in E0. done. }
  assert (Hw : (nsum (map f_weight fs) == av * k)%Q).
  { rewrite <- Hsum, <- nsum_scale. apply nsum_eq. apply Forall2_map_l, Forall2_map_r.
    eapply Forall2_impl; [exact Hf|]. intros f s (? & _ & _). done. }
  assert (Hav : (0 < av)%Q).
  { rewrite <- Hsum. apply nsum_pos.
    - rewrite Forall_forall. intros s Hs. apply list_elem_of_lookup in Hs as [i Hi].
      destruct (Forall2_lookup_r _ _ _ _ _ Hf Hi) as (f & _ & (_ & ? & _)). done.
    - intros ->. apply Forall2_length in Hf. by destruct fs. }
  assert (Hak : (0 < av * k)%Q) by nra.
  assert (Hlt : nltb (W:=Q) n0 (nsum (map f_weight fs)) = true) by (apply Qltb_lt; cbn in *; lra).
  cbv zeta. rewrite Hlt.
  assert (Hshare : forall f s, (f_weight f == s * k)%Q ->
    (nmul (ndiv (f_weight f) (nsum (map f_weight fs))) av == s)%Q).
  { intros f s Hfs. cbn [nmul ndiv Q_num]. rewrite Hw, Hfs. field. split; lra. }
  assert (Hnp : existsb (fun f => negb (f_clamped f) && nltb
    (nmul (ndiv (f_weight f) (nsum (map f_weight fs))) av) (nsub (f_min f) n1e9)) fs = false).
  { apply not_true_iff_false. rewrite existsb_exists. intros (f & Hin & Hp).
    apply list_elem_of_In, list_elem_of_lookup in Hin as [i Hi].
    destruct (Forall2_lookup_l _ _ _ _ _ Hf Hi) as (s & _ & (Hfs & _ & Hmin)).
    apply andb_true_iff in Hp as [_ Hp]. apply Qltb_lt in Hp. rewrite (Hshare f s Hfs) in Hp. cbn in Hp. lra. }
  rewrite Hnp. eexists. split; [done|]. apply Forall2_map_l, Forall2_same_length_lookup_2.
  { by apply Forall2_length in Hf. }
  intros i f s Hi Hs. destruct (Forall2_lookup_lr _ _ _ _ _ _ Hf Hi Hs) as (Hfs & _ & _).
  rewrite Forall_lookup in Hun. rewrite (Hun i f Hi).
  assert (Hnil : forall l : list (Fill Q), (forall f, f ∈ l -> f ∈ fs) ->
    existsb (fun f => negb (f_clamped f) && nltb
      (nmul (ndiv (f_weight f) (nsum (map f_weight fs))) av) (nsub (f_min f) n1e9)) l = false).
  { intros l Hl. apply not_true_iff_false. rewrite existsb_exists. intros (g & Hin & Hp).
    apply not_true_iff_false in Hnp. apply Hnp. rewrite existsb_exists. exists g.
    split; [|done]. by apply list_elem_of_In, Hl, list_elem_of_In. }
  match goal with |- context [filter ?P fs] => assert (Hfil : filter P fs = []) end.
  { apply list_filter_nil_of. intros g Hg Hp. apply Is_true_true in Hp.
    specialize (Hnil [g]). cbn [existsb] in Hnil. rewrite Hp in Hnil.
    discriminate Hnil. intros g' Hg'. by apply list_elem_of_singleton in Hg' as ->. }
  rewrite Hfil. cbn [map nsub Q_num]. rewrite nsum_nil.
  transitivity (nmul (ndiv (f_weight f) (nsum (map f_weight fs))) av); [|by apply Hshare].
  cbn [nmul ndiv Q_num]. apply Qmult_comp; [reflexivity|]. ring.
Qed.

Lemma cumulativeRound_reads_back (fracs spans : list Q) (tot : Q) :
  Forall2 Qeq fracs spans -> Forall integral spans -> (nsum spans == tot)%Q -> spans <> [] ->
  Forall2 Qeq (cumulativeRound fracs tot) spans.
Proof.
  intros Hf Hi Hs Hne. destruct (cumulativeRound_ok fracs tot) as [Hp _].
  - by rewrite (nsum_eq _ _ Hf).
  - intros ->. apply Forall2_length in Hf. by destruct spans.
  - apply Forall2_same_length_lookup_2.
    { apply Forall2_length in Hp, Hf. lia. }
    intros i x s Hx His. destruct (Forall2_lookup_r _ _ _ _ _ Hp Hx) as (f & Hfi & (_ & Hlo & Hhi)).
    pose proof (Forall2_lookup_lr _ _ _ _ _ _ Hf Hfi His) as Hfs. rewrite Forall_lookup in Hi.
    destruct (Hi i s His) as [z Hz]. rewrite Hz in *.
    specialize (Hlo z ltac:(lra)). specialize (Hhi z ltac:(lra)). lra.
Qed.

(** Weights in proportion to whole spans that fill the extent and respect the
    minimums give those spans back. *)
Lemma allocate_reads_back cs (span k : Q) opts d (spans : list Q) :
  cs <> [] -> (0 < k)%Q ->
  Forall2 (fun c s => c.2 == s * k /\ 0 < s /\ minSpan c.1 d opts <= s)%Q cs spans ->
  Forall integral spans -> (nsum spans == span - gaps opts cs)%Q ->
  Forall2 Qeq (allocateChildSpans cs span opts d) spans.
Proof.
  intros Hne Hk Hc Hi Hsum. unfold allocateChildSpans.
  assert (Hsne : spans <> []) by (intros ->; apply Forall2_length in Hc; by destruct cs).
  assert (Hs0 : (0 <= nsum spans)%Q).
  { apply Qlt_le_weak, nsum_pos; [|done]. rewrite Forall_forall. intros s Hs.
    apply list_elem_of_lookup in Hs as [i Hs]. destruct (Forall2_lookup_r _ _ _ _ _ Hc Hs) as (c & _ & (_ & ? & _)). done. }
  assert (Hav : (nsum spans == available_span cs span opts)%Q).
  { rewrite Hsum. unfold available_span. cbn [nmax nsub n0 nlit Q_num]. rewrite Q.max_r; [reflexivity|].
    change (0 <= span - gaps opts cs)%Q. lra. }
  apply cumulativeRound_reads_back; [|done|done|done].
  unfold fractional_spans. cbv zeta.
  assert (Hmin : (nsum (map (fun c => minSpan c.1 d opts) cs) <= available_span cs span opts)%Q).
  { rewrite <- Hav. rewrite <- (map_id spans). clear -Hc.
    induction Hc as [|c s cs spans (_ & _ & ?) _ IH]; [apply Qle_refl|]. simpl. rewrite !nsum_cons.
    rewrite map_id in *. lra. }
  assert (nltb (available_span cs span opts) (nsum (map (fun c => minSpan c.1 d opts) cs)) = false) as ->.
  { apply not_true_iff_false. cbn [nltb Q_num]. rewrite Qltb_lt. lra. }
  destruct (waterfill_reads_back (length cs) (available_span cs span opts) (fill_init cs opts d) spans k)
    as (l & -> & Hl); [| |done| |done|done].
  - unfold fill_init. rewrite Forall_map. by apply Forall_true.
  - by destruct cs.
  - unfold fill_init. apply Forall2_map_l. exact Hc.
Qed.

(** ** The edited spans *)

Lemma minSpan_shape n m axis (opts : LayoutOpts Q) : same_shape n m -> minSpan n axis opts = minSpan m axis opts.
Proof.
  revert m. induction n as [id|d cs IH] using LathNode_ind'; intros m H.
  { by apply same_shape_Leaf in H as ->. }
  apply same_shape_Split in H as (cs' & -> & H). cbn [minSpan].
  assert (E : map (fun c => minSpan c.1 axis opts) cs = map (fun c => minSpan c.1 axis opts) cs').
  { revert cs' H. induction IH as [|c cs Hc _ IHcs]; intros cs' H.
    - by apply strips_nil_l in H as ->.
    - apply strips_cons_l in H as (c' & cs'' & -> & Hc' & H). simpl. by rewrite (Hc _ Hc'), (IHcs _ H). }
  rewrite E. unfold gaps. by rewrite (strips_length cs cs').
Qed.

Lemma nsum_insert (l : list Q) i x y :
  l !! i = Some x -> (nsum (<[i := y]> l) == nsum l - x + y)%Q.
Proof.
  revert i. induction l as [|z l IH]; intros [|i] Hi; simplify_eq/=; rewrite !nsum_cons; [lra|].
  rewrite (IH _ Hi). lra.
Qed.

(** The spans with the boundary after child [a] moved so that child [a] is [nextA] wide. *)
Definition moved_boundary (spans : list Q) (a : nat) (sa sb nextA : Q) : list Q :=
  <[S a := (sa + sb - nextA)%Q]> (<[a := nextA]> spans).

Section Boundary.
  Variables (spans : list Q) (a : nat) (sa sb nextA : Q).
  Hypotheses (Ha : spans !! a = Some sa) (Hb : spans !! S a = Some sb).

Lemma moved_boundary_sum : (nsum (moved_boundary spans a sa sb nextA) == nsum spans)%Q.
Proof.
  unfold moved_boundary. rewrite (nsum_insert _ (S a) sb), (nsum_insert spans a sa); [lra|done|].
  by rewrite list_lookup_insert_ne by lia.
Qed.

Lemma moved_boundary_lookup i s :
  moved_boundary spans a sa sb nextA !! i = Some s ->
  (i = a /\ s = nextA) \/ (i = S a /\ s = (sa + sb - nextA)%Q) \/ (i <> a /\ i <> S a /\ spans !! i = Some s).
Proof.
  unfold moved_boundary. intros H. apply lookup_lt_Some in Hb.
  destruct (decide (i = S a)) as [->|H1].
  - rewrite list_lookup_insert_eq in H by (rewrite length_insert; lia). simplify_eq. auto.
  - rewrite list_lookup_insert_ne in H by done. destruct (decide (i = a)) as [->|H2].
    + rewrite list_lookup_insert_eq in H by lia. simplify_eq. auto.
    + rewrite list_lookup_insert_ne in H by done. auto.
Qed.

Lemma moved_boundary_length : length (moved_boundary spans a sa sb nextA) = length spans.
Proof. unfold moved_boundary. by rewrite !length_insert. Qed.

End Boundary.

(** The clamp of the dragged position: within the pair's minimums. *)
Lemma resized_span_bounds (sa sb delta ma mb : Q) :
  (ma <= sa)%Q -> (mb <= sb)%Q ->
  let nextA := Ops.resized_span sa delta ma (sa + sb - mb)%Q in
  (ma <= nextA)%Q /\ (mb <= sa + sb - nextA)%Q /\
  (integral sa -> integral sb -> integral delta -> integral ma -> integral mb -> integral nextA).
Proof.
  intros H1 H2 nextA. unfold nextA, Ops.resized_span. cbn [nleb nmin nmax nadd Q_num].
  rewrite (proj2 (Qle_bool_iff _ _)) by lra.
  destruct (Q.max_spec (sa + delta) ma) as [[? E1]|[? E1]];
  destruct (Q.min_spec (Qmax (sa + delta) ma) (sa + sb - mb)) as [[? E2]|[? E2]];
  rewrite E2; rewrite ?E1 in *; split_and!; try lra; intros; try done;
  auto using integral_plus, integral_minus.
Qed.

Section Resize.
  Variables (t : LathTree Q) (r : LathNode Q) (p : list nat) (d : Dir) (cs : list (LathChild Q))
    (boundary : Z) (delta : Q) (rect sr : Rect Q) (opts : LayoutOpts Q).
  Hypotheses (Hvalid : valid_tree t) (Hr : root t = Some r) (Hp : node_at r p = Some (Split d cs))
    (Hsr : nodeRectAtPath t rect opts p = Some sr)
    (Hopts : opts_ok opts) (Hgap : integral (gap opts)) (Hspan : integral (rect_span d sr))
    (Hdelta : integral delta) (Hmins : Forall (fun m => integral m /\ 0 < m)%Q (mins cs opts d))
    (Hb : (0 <= boundary < Z.of_nat (length cs) - 1)%Z).

Let spans := allocateChildSpans cs (rect_span d sr) opts d.

Hypothesis (Hfit : Forall2 Qle (mins cs opts d) spans).

Lemma resize_fillable : fillable cs.
Proof.
  destruct Hvalid as [Hwf Hw]. unfold well_formed in Hwf. rewrite Hr in Hwf, Hw. destruct Hwf as [Hc _].
  apply (node_at_canonical _ _ _ Hp) in Hc. apply (node_at_weights_ok _ _ _ Hp) in Hw.
  apply weights_ok_Split in Hw as (Hpos & _ & _). split_and!; [done|by eapply children_canonical|].
  intros ->. simpl in Hb. lia.
Qed.

Lemma spans_positive i s : spans !! i = Some s -> (0 < s)%Q.
Proof.
  intros Hi. destruct (Forall2_lookup_r _ _ _ _ _ Hfit Hi) as (m & Hm & Hms).
  rewrite Forall_lookup in Hmins. destruct (Hmins i m Hm). lra.
Qed.

Lemma span_exceeds_gaps : (gaps opts cs < rect_span d sr)%Q /\ (nsum spans == rect_span d sr - gaps opts cs)%Q.
Proof.
  destruct (allocate_ok cs (rect_span d sr) opts d resize_fillable Hopts) as (_ & _ & Hsum & _).
  fold spans in Hsum.
  assert (Hpos : (0 < nsum spans)%Q).
  { apply nsum_pos.
    - rewrite Forall_forall. intros s Hs. apply list_elem_of_lookup in Hs as [i Hi]. by eapply spans_positive.
    - intros E. pose proof (allocateChildSpans_length cs (rect_span d sr) opts d) as Hl.
      fold spans in Hl. rewrite E in Hl. simpl in Hl. lia. }
  assert (Hint : integral (rect_span d sr - gaps opts cs)%Q).
  { apply integral_minus; [done|]. apply integral_mult; [done|]. apply integral_Z. }
  unfold available_span in Hsum. cbn [nmax nsub n0 nlit Q_num] in Hsum.
  destruct (Q.max_spec 0 (rect_span d sr - gaps opts cs)) as [[H E]|[H E]].
  - rewrite E in Hsum. rewrite (round_of_integral _ Hint) in Hsum. split; [lra|done].
  - rewrite E in Hsum. rewrite (round_of_integral 0 (integral_Z 0)) in Hsum. lra.
Qed.

Lemma spans_integral : Forall integral spans.
Proof. by destruct (allocate_ok cs (rect_span d sr) opts d resize_fillable Hopts) as (? & _). Qed.

Let a := Z.to_nat boundary.

Lemma boundary_lookup :
  exists sa sb ca cb, spans !! a = Some sa /\ spans !! S a = Some sb /\ cs !! a = Some ca /\ cs !! S a = Some cb /\
    (minSpan ca.1 d opts <= sa)%Q /\ (minSpan cb.1 d opts <= sb)%Q /\
    integral (minSpan ca.1 d opts) /\ integral (minSpan cb.1 d opts).
Proof.
  assert (Hl : length spans = length cs) by apply allocateChildSpans_length.
  assert (H1 : (a < length cs)%nat) by (unfold a; lia). assert (H2 : (S a < length cs)%nat) by (unfold a; lia).
  destruct (lookup_lt_is_Some_2 cs _ H1) as [ca Hca]. destruct (lookup_lt_is_Some_2 cs _ H2) as [cb Hcb].
  rewrite <- Hl in H1, H2.
  destruct (lookup_lt_is_Some_2 spans _ H1) as [sa Hsa]. destruct (lookup_lt_is_Some_2 spans _ H2) as [sb Hsb].
  exists sa, sb, ca, cb.
  assert (Ha : mins cs opts d !! a = Some (minSpan ca.1 d opts)).
  { unfold mins. rewrite (list_lookup_fmap (fun c : LathChild Q => minSpan c.1 d opts)), Hca. done. }
  assert (Hb' : mins cs opts d !! S a = Some (minSpan cb.1 d opts)).
  { unfold mins. rewrite (list_lookup_fmap (fun c : LathChild Q => minSpan c.1 d opts)), Hcb. done. }
  rewrite Forall_lookup in Hmins.
  split_and!; try done; try by eapply Forall2_lookup_lr. all: by eapply Hmins.
Qed.

(** Any children whose weights are in proportion to the edited spans show them. *)
Lemma edited_reads_back cs' nextA sa sb ma mb (k : Q) :
  spans !! a = Some sa -> spans !! S a = Some sb ->
  mins cs opts d !! a = Some ma -> mins cs opts d !! S a = Some mb ->
  (ma <= nextA)%Q -> (mb <= sa + sb - nextA)%Q -> integral nextA -> (0 < k)%Q ->
  Forall2 (fun c c' => same_shape c.1 c'.1) cs cs' ->
  Forall2 (fun c' s => c'.2 == s * k)%Q cs' (moved_boundary spans a sa sb nextA) ->
  Forall2 Qeq (allocateChildSpans cs' (rect_span d sr) opts d) (moved_boundary spans a sa sb nextA).
Proof.
  intros Ha Hb' Hma Hmb Hlo Hhi Hint Hk Hsh Hw.
  destruct span_exceeds_gaps as [_ Hsum]. pose proof spans_integral as Hsi.
  assert (Hlen : length cs' = length cs) by (symmetry; by eapply Forall2_length).
  apply (allocate_reads_back _ _ k).
  - intros ->. destruct cs; [simpl in Hb; lia|done].
  - done.
  - apply Forall2_same_length_lookup_2; [by eapply Forall2_length|]. intros i c' s Hc' Hs.
    destruct (Forall2_lookup_r _ _ _ _ _ Hsh Hc') as (c & Hc & Hcc).
    assert (Hm : mins cs opts d !! i = Some (minSpan c'.1 d opts)).
    { unfold mins. rewrite (list_lookup_fmap (fun c : LathChild Q => minSpan c.1 d opts)), Hc. simpl.
      by rewrite (minSpan_shape _ _ _ _ Hcc). }
    assert (Hms : (0 < minSpan c'.1 d opts)%Q) by (rewrite Forall_lookup in Hmins; by apply (Hmins i _ Hm)).
    assert (Hge : (minSpan c'.1 d opts <= s)%Q).
    { destruct (moved_boundary_lookup spans a sa sb nextA Hb' i s Hs) as [[-> ->]|[[-> ->]|(_ & _ & Hsi')]];
        [by simplify_eq|by simplify_eq|by eapply Forall2_lookup_lr]. }
    split_and!; [|lra|done]. exact (Forall2_lookup_lr _ _ _ _ _ _ Hw Hc' Hs).
  - rewrite Forall_lookup in Hsi |- *. intros i s Hs.
    destruct (moved_boundary_lookup spans a sa sb nextA Hb' i s Hs) as [[-> ->]|[[-> ->]|(_ & _ & Hsi')]];
      [done|apply integral_minus; [apply integral_plus|]; eauto|eauto].
  - rewrite (moved_boundary_sum _ _ _ _ _ Ha Hb'), Hsum. unfold gaps. by rewrite Hlen.
Qed.

End Resize.

Lemma max_epsilon (s : Q) : integral s -> (0 < s)%Q -> (nmax s n1e6 == s)%Q.
Proof.
  intros [z Hz] Hs. cbn. rewrite Q.max_l; [reflexivity|]. rewrite Hz in *.
  assert (1 <= z)%Z by (change 0%Q with (inject_Z 0) in Hs; rewrite <- Zlt_Qlt in Hs; lia).
  apply Qle_trans with (inject_Z 1); [discriminate|]. by rewrite <- Zle_Qle.
Qed.

(** The weights [resize] stores are in proportion to the edited spans. *)
Lemma stored_weights cs (spans : list Q) :
  length spans = length cs -> cs <> [] -> Forall (fun s => integral s /\ 0 < s)%Q spans ->
  let children := normalizeWeights (zip_with (fun c s => (c.1, nmax s n1e6)) cs spans) in
  map fst children = map fst cs /\ pos_children children /\ (nsum (map snd children : list Q) == 1)%Q /\
  (0 < / nsum spans)%Q /\ Forall2 (fun c s => c.2 == s * / nsum spans)%Q children spans.
Proof.
  intros Hl Hne Hs. set (zs := zip_with _ cs spans).
  assert (Hz : Forall2 (fun c s => c.2 == s /\ 0 < s)%Q zs spans /\ map fst zs = map fst cs).
  { unfold zs. clear Hne zs. revert spans Hl Hs. induction cs as [|c cs IH]; intros [|s spans] Hl Hs; try done.
    apply Forall_cons in Hs as [[Hi Hs0] Hs]. destruct (IH spans) as [IH1 IH2]; [simpl in Hl; lia|done|].
    cbn [zip_with map fst]. rewrite IH2. split; [|done]. constructor; [|done]. split; [by apply max_epsilon|done]. }
  destruct Hz as [Hz Hfst].
  assert (Hp : pos_children zs).
  { unfold pos_children. rewrite Forall_lookup. intros i c Hi.
    destruct (Forall2_lookup_l _ _ _ _ _ Hz Hi) as (s & _ & [E ?]). by rewrite E. }
  assert (Hzne : zs <> []) by (intros E; rewrite E in Hfst; by destruct cs).
  assert (Hsum : (nsum (map snd zs : list Q) == nsum spans)%Q).
  { apply nsum_eq. apply Forall2_map_l. eapply Forall2_impl; [exact Hz|]. by intros c s []. }
  assert (Hpos : (0 < nsum spans)%Q).
  { rewrite <- Hsum. apply nsum_pos; [by apply pos_children_ws|by destruct zs]. }
  cbv zeta. split_and!.
  - by rewrite normalizeWeights_fst.
  - by apply normalizeWeights_pos_children.
  - by apply normalizeWeights_sum.
  - by apply Qinv_lt_0_compat.
  - rewrite normalizeWeights_pos by done. apply Forall2_map_l. eapply Forall2_impl; [exact Hz|].
    intros c s [E _]. cbn [snd]. rewrite E, Hsum. reflexivity.
Qed.

(** The weights of a split's children. *)
Definition weights_of (n : LathNode Q) : list Q := match n with Leaf _ => [] | Split _ cs => map snd cs end.

Lemma weights_of_eqv n1 n2 : node_eqv n1 n2 -> Forall2 Qeq (weights_of n1) (weights_of n2).
Proof.
  intros H. destruct n1 as [i|d cs1]; [inversion H; subst; constructor|].
  apply node_eqv_ind_Split in H as (cs2 & -> & H). cbn [weights_of].
  apply Forall2_map_l, Forall2_map_r. eapply Forall2_impl; [exact H|]. by intros c1 c2 [_ ?].
Qed.

(** Replacing a split by one with the same children keeps every other split. *)
Lemma replaced_elsewhere r p d cs children q n :
  node_at r p = Some (Split d cs) -> map fst children = map fst cs -> q <> p -> node_at r q = Some n ->
  exists n', node_at (replaceAtPath r p (Split d children)) q = Some n' /\ weights_of n' = weights_of n.
Proof.
  intros Hp Hf. revert r q Hp. induction p as [|i p IH]; intros r q Hp Hne Hq; simpl in Hp.
  - injection Hp as ->. destruct q as [|j q]; [done|]. cbn [replaceAtPath node_at] in *.
    destruct (cs !! j) as [c|] eqn:Ej; [|done]. pose proof (f_equal (fun l => l !! j) Hf) as Hj. cbn beta in Hj.
    rewrite !list_lookup_fmap, Ej in Hj. destruct (children !! j) as [c'|]; [|done]. injection Hj as ->. by exists n.
  - destruct r as [|d0 cs0]; [done|]. destruct (cs0 !! i) as [c|] eqn:Ei; [|done]. cbn [replaceAtPath]. rewrite Ei.
    destruct q as [|j q]; cbn [node_at] in Hq |- *.
    + injection Hq as <-. eexists. split; [reflexivity|]. cbn [weights_of].
      change (map snd ?l) with (snd <$> l). rewrite list_fmap_insert. cbn [snd]. apply list_insert_id.
      by rewrite list_lookup_fmap, Ei.
    + destruct (decide (j = i)) as [->|Hji]; [|rewrite list_lookup_insert_ne by done; by exists n].
      rewrite Ei in Hq. rewrite list_lookup_insert_eq by (by eapply lookup_lt_Some). cbn [fst].
      apply IH; [done|congruence|done].
Qed.

(** Giving a split of a valid tree other weights. *)
Lemma reweighted_tree r p d cs children :
  canonical r = true -> weights_ok r = true -> node_at r p = Some (Split d cs) ->
  map fst children = map fst cs -> pos_children children -> (nsum (map snd children : list Q) == 1)%Q ->
  exists r' cs', normalize (replaceAtPath r p (Split d children)) = Some r' /\ strip r' = strip r /\
    node_at r' p = Some (Split d cs') /\ Forall2 child_eqv children cs' /\
    (forall q n, q <> p -> node_at r q = Some n ->
       exists n', node_at r' q = Some n' /\ Forall2 Qeq (weights_of n) (weights_of n')).
Proof.
  intros Hc Hw Hp Hf Hpos Hs1.
  assert (Hchw : weights_ok (Split d children) = true).
  { apply weights_ok_Split. split_and!; [done|done|]. rewrite Hf.
    apply (node_at_weights_ok _ _ _ Hp) in Hw. by apply weights_ok_Split in Hw as (_ & _ & ?). }
  assert (Hsh : same_shape (Split d children) (Split d cs)) by by apply same_shape_fst.
  destruct (normalize_valid (replaceAtPath r p (Split d children))) as (r' & Hr' & Hre).
  { eapply canonical_replaceAtPath; [done|done| |by right]. rewrite (same_shape_canonical _ _ Hsh).
    by eapply node_at_canonical. }
  { by apply weights_ok_replaceAtPath. }
  destruct (node_eqv_node_at (replaceAtPath r p (Split d children)) r' p (Split d children))
    as (m & Hm & Hme); [by symmetry|by eapply node_at_replaceAtPath|].
  apply node_eqv_ind_Split in Hme as (cs' & -> & Hcs').
  exists r', cs'. split_and!; [done| |done|done|].
  2: { intros q n Hq Hn. destruct (replaced_elsewhere r p d cs children q n Hp Hf Hq Hn) as (n1 & Hn1 & <-).
    destruct (node_eqv_node_at (replaceAtPath r p (Split d children)) r' q n1) as (n2 & Hn2 & He); [by symmetry|done|].
    exists n2. split; [done|by apply weights_of_eqv]. }
  transitivity (strip (replaceAtPath r p (Split d children))); [by apply node_eqv_shape|].
  transitivity (strip (replaceAtPath r p (Split d cs))); [by apply same_shape_replaceAtPath|].
  by rewrite (replaceAtPath_same _ _ _ Hp).
Qed.

(** C33. A resize moves the sash it was asked to move and nothing else.  On a
    valid tree, for whole-pixel geometry in which every child of the split shows
    at least its (positive) minimum, [resize] succeeds; the child before the
    boundary becomes the old width plus the drag, clamped so that neither
    neighbor goes below its minimum, its neighbor takes up the difference, the
    other children keep their spans to the pixel, the structure is unchanged, and
    so are the weights of every other split. *)
Theorem resize_moves_boundary t r p d cs boundary (delta : Q) rect sr opts sa sb ca cb :
  valid_tree t -> root t = Some r -> node_at r p = Some (Split d cs) ->
  nodeRectAtPath t rect opts p = Some sr ->
  opts_ok opts -> integral (gap opts) -> integral (rect_span d sr) -> integral delta ->
  Forall (fun m => integral m /\ 0 < m)%Q (mins cs opts d) ->
  (0 <= boundary < Z.of_nat (length cs) - 1)%Z ->
  let spans := allocateChildSpans cs (rect_span d sr) opts d in
  let a := Z.to_nat boundary in
  Forall2 Qle (mins cs opts d) spans ->
  spans !! a = Some sa -> spans !! S a = Some sb -> cs !! a = Some ca -> cs !! S a = Some cb ->
  let nextA := Qmin (Qmax (sa + delta) (minSpan ca.1 d opts)) (sa + sb - minSpan cb.1 d opts) in
  exists t' r' cs',
    Ops.resize t p boundary delta rect opts = (t', true) /\ root t' = Some r' /\ strip r' = strip r /\
    node_at r' p = Some (Split d cs') /\
    Forall2 Qeq (allocateChildSpans cs' (rect_span d sr) opts d) (moved_boundary spans a sa sb nextA) /\
    (forall q n, q <> p -> node_at r q = Some n ->
       exists n', node_at r' q = Some n' /\ Forall2 Qeq (weights_of n) (weights_of n')).
Proof.
  intros Hvalid Hr Hp Hsr Hopts Hgap Hspan Hdelta Hmins Hb spans a Hfit Hsa Hsb Hca Hcb nextA.
  assert (Hgs : (gaps opts cs < rect_span d sr)%Q /\ (nsum spans == rect_span d sr - gaps opts cs)%Q)
    by (eapply span_exceeds_gaps; eassumption).
  destruct Hgs as [Hgt Hsum].
  assert (Hfl : fillable cs) by (eapply resize_fillable; eassumption).
  assert (Hma : mins cs opts d !! a = Some (minSpan ca.1 d opts)).
  { unfold mins. rewrite (list_lookup_fmap (fun c : LathChild Q => minSpan c.1 d opts)), Hca. done. }
  assert (Hmb : mins cs opts d !! S a = Some (minSpan cb.1 d opts)).
  { unfold mins. rewrite (list_lookup_fmap (fun c : LathChild Q => minSpan c.1 d opts)), Hcb. done. }
  pose proof (Forall2_lookup_lr _ _ _ _ _ _ Hfit Hma Hsa) as Hfa.
  pose proof (Forall2_lookup_lr _ _ _ _ _ _ Hfit Hmb Hsb) as Hfb.
  pose proof (proj1 (Forall_lookup _ _) Hmins) as Hmi. destruct (Hmi _ _ Hma) as [Hia Hpa], (Hmi _ _ Hmb) as [Hib Hpb].
  assert (Hsi : Forall integral spans) by by destruct (allocate_ok cs (rect_span d sr) opts d Hfl Hopts) as (? & _).
  pose proof (proj1 (Forall_lookup _ _) Hsi) as Hsi'.
  assert (En : Ops.resized_span sa delta (minSpan ca.1 d opts) (sa + sb - minSpan cb.1 d opts)%Q = nextA).
  { unfold Ops.resized_span. cbn [nleb nmin nmax nadd Q_num]. by rewrite (proj2 (Qle_bool_iff _ _)) by lra. }
  destruct (resized_span_bounds sa sb delta _ _ Hfa Hfb) as (Hlo & Hhi & Hint). rewrite En in Hlo, Hhi, Hint.
  specialize (Hint (Hsi' _ _ Hsa) (Hsi' _ _ Hsb) Hdelta Hia Hib).
  assert (Hback : forall cs' k, (0 < k)%Q -> Forall2 (fun c c' => same_shape c.1 c'.1) cs cs' ->
    Forall2 (fun c' s => c'.2 == s * k)%Q cs' (moved_boundary spans a sa sb nextA) ->
    Forall2 Qeq (allocateChildSpans cs' (rect_span d sr) opts d) (moved_boundary spans a sa sb nextA)).
  { intros cs' k Hk Hsh Hw. by eapply edited_reads_back. }
  assert (Hmoved : Forall (fun s => integral s /\ 0 < s)%Q (moved_boundary spans a sa sb nextA)).
  { rewrite Forall_lookup. intros i s Hs.
    destruct (moved_boundary_lookup spans a sa sb nextA Hsb i s Hs) as [[-> ->]|[[-> ->]|(_ & _ & Hi)]].
    - split; [done|lra].
    - split; [|lra]. apply integral_minus; [apply integral_plus|]; eauto.
    - split; [eauto|]. eapply spans_positive; eauto. }
  assert (Hlen : length (moved_boundary spans a sa sb nextA) = length cs).
  { rewrite moved_boundary_length. apply allocateChildSpans_length. }
  unfold Ops.resize, nodeAtPath. rewrite Hr, Hp. cbn [nis_finite Q_num negb].
  replace (_ || _ || _) with false by (symmetry; rewrite !orb_false_iff, Z.ltb_ge, Z.leb_gt; split_and!; try done; lia).
  rewrite Hsr. cbv zeta. fold spans a.
  assert (nleb (nsub (rect_span d sr) (gaps opts cs)) n0 = false) as ->.
  { apply not_true_iff_false. cbn [nleb nsub n0 nlit Q_num]. rewrite Qle_bool_iff.
    change (~ (rect_span d sr - gaps opts cs <= 0)%Q). lra. }
  rewrite Hsa, Hsb, Hca, Hcb. cbn [nadd nsub Q_num]. rewrite En.
  destruct Hvalid as [Hwf Hw]. unfold well_formed in Hwf. rewrite Hr in Hwf, Hw. destruct Hwf as [Hc _].
  destruct (neqb nextA sa) eqn:Eq; cbn [neqb Q_num] in Eq.
  - apply Qeq_bool_iff in Eq. exists t, r, cs. split_and!; [done..| |].
    2: { intros q n _ Hn. exists n. split; [done|]. apply weights_of_eqv. reflexivity. }
    apply Forall2_same_length_lookup_2; [by rewrite allocateChildSpans_length|].
    intros i x s Hx Hs. fold spans in Hx.
    destruct (moved_boundary_lookup spans a sa sb nextA Hsb i s Hs) as [[-> ->]|[[-> ->]|(_ & _ & Hi)]];
      simplify_eq; [by rewrite Eq|rewrite Eq; ring|reflexivity].
  - fold (moved_boundary spans a sa sb nextA).
    destruct (stored_weights cs (moved_boundary spans a sa sb nextA) Hlen) as (Hf & Hpos & Hs1 & Hk & Hws);
      [by destruct Hfl as (_ & _ & ?)|done|].
    set (children := normalizeWeights _) in *.
    destruct (reweighted_tree r p d cs children Hc Hw Hp Hf Hpos Hs1) as (r' & cs' & Hr' & Hstrip & Hm & Hcs' & Hother).
    exists (mkTree (Some r')), r', cs'. rewrite Hr'. split_and!; [done|done|done|done| |exact Hother].
    apply (Hback cs' _ Hk).
    + apply strips_Forall2. rewrite <- (strips_fst children cs Hf).
        apply strips_Forall2. eapply Forall2_impl; [exact Hcs'|]. intros c1 c2 [H1 _]. by apply node_eqv_shape.
    + apply Forall2_same_length_lookup_2.
      { apply Forall2_length in Hcs', Hws. lia. }
      intros i c' s Hc' Hs. destruct (Forall2_lookup_r _ _ _ _ _ Hcs' Hc') as (c & Hci & [_ Hcw]).
        rewrite <- Hcw. exact (Forall2_lookup_lr _ _ _ _ _ _ Hws Hci Hs).
Qed.

Lemma resize_moves_boundary_witness :
  let cs := [(Leaf "a"%string, 1 # 2); (Split Col [(Leaf "b"%string, 1 # 4); (Leaf "c"%string, 3 # 4)], 1 # 2)] in
  exists t', Ops.resize sample_tree [] 0 30%Q sample_rect sample_opts = (t', true) /\
    strip <$> root t' = strip <$> root sample_tree.
Proof.
  intros cs.
  destruct (resize_moves_boundary sample_tree (Split Row cs) [] Row cs 0 30%Q sample_rect sample_rect sample_opts
    398%Q 398%Q (Leaf "a"%string, 1 # 2) (Split Col [(Leaf "b"%string, 1 # 4); (Leaf "c"%string, 3 # 4)], 1 # 2))
    as (t' & r' & cs' & E & Hr & Hs & _).
  - apply valid_by_computation. vm_compute. reflexivity.
  - reflexivity.
  - reflexivity.
  - reflexivity.
  - split; [|split]; vm_compute; discriminate.
  - exists 4%Z. reflexivity.
  - exists 800%Z. reflexivity.
  - exists 30%Z. reflexivity.
  - constructor; [|constructor; [|constructor]]; (split; [exists 40%Z; reflexivity|vm_compute; reflexivity]).
  - vm_compute. split; [discriminate|reflexivity].
  - constructor; [|constructor; [|constructor]]; vm_compute; discriminate.
  - vm_compute. reflexivity.
  - vm_compute. reflexivity.
  - reflexivity.
  - reflexivity.
  - exists t'. split; [exact E|]. rewrite Hr. simpl. f_equal. exact Hs.
Defined.

End split_drag.

(** ** Spatial navigation (lib/src/lib/lath/layout.ts, neighbors)

    [neighbors] picks, among the panes beyond the edge, one that overlaps on the
    other axis when any does, at the least distance. *)

Implicit Types (t : LathTree Q) (rect : Rect Q) (opts : LayoutOpts Q) (a b c : Cand Q) (pool : list (Cand Q)).

Lemma cand_before_dist a b :
  (cand_before a b = true -> c_dist a <= c_dist b)%Q /\ (cand_before a b = false -> c_dist b <= c_dist a)%Q.
Proof.
  unfold cand_before. cbn [neqb nis_nan nltb nsub n0 nlit Q_num]. rewrite !orb_false_r.
  destruct (Qeq_bool (c_dist a - c_dist b) (0 # 1)) eqn:E; cbn [negb].
  - apply Qeq_bool_iff in E. change (c_dist a - c_dist b == 0)%Q in E. split; intros _; lra.
  - destruct (Qltb (c_dist a - c_dist b) (0 # 1)) eqn:El.
    + apply Qltb_lt in El. change (c_dist a - c_dist b < 0)%Q in El. split; [intros _; lra|done].
    + apply not_true_iff_false in El. rewrite Qltb_lt in El. change (~ c_dist a - c_dist b < 0)%Q in El.
      split; [done|]. intros _. lra.
Qed.

(** The head of the sorted pool is a member at the least distance. *)
Lemma pool_first_least pool c :
  pool_first pool = Some c -> c ∈ pool /\ forall x, x ∈ pool -> (c_dist c <= c_dist x)%Q.
Proof.
  destruct pool as [|c0 pool]; simpl; [done|]. intros [= <-].
  assert (G : forall pool c0, let r := foldl (fun best x => if cand_before x best then x else best) c0 pool in
    r ∈ c0 :: pool /\ forall x, x ∈ c0 :: pool -> (c_dist r <= c_dist x)%Q); [|apply G].
  clear. induction pool as [|y pool IH]; intros c0; simpl.
  - split; [by left|]. intros x Hx. apply list_elem_of_singleton in Hx as ->. lra.
  - destruct (cand_before y c0) eqn:E; destruct (cand_before_dist y c0) as [H1 H2].
    + destruct (IH y) as [Hin Hle]. split; [right; exact Hin|]. intros x Hx.
      apply elem_of_cons in Hx as [->|Hx]; [|by apply Hle].
      eapply Qle_trans; [apply Hle; by left|auto].
    + destruct (IH c0) as [Hin Hle]. split.
      { apply elem_of_cons in Hin as [->|Hin]; [by left|right; by right]. }
      intros x Hx. apply elem_of_cons in Hx as [->|Hx]; [apply Hle; by left|].
      apply elem_of_cons in Hx as [->|Hx]; [|apply Hle; by right].
      eapply Qle_trans; [apply Hle; by left|auto].
Qed.

Lemma pool_first_None pool : pool_first pool = None <-> pool = [].
Proof. by destruct pool. Qed.

(** How far [r] lies beyond the edge of [c] in a direction, edge to edge;
    negative where it is not beyond it. *)
Definition clearance (direction : Direction) (c r : Rect Q) : Q :=
  match direction with
  | DLeft => rect_x c - (rect_x r + rect_width r)
  | DRight => rect_x r - (rect_x c + rect_width c)
  | DUp => rect_y c - (rect_y r + rect_height r)
  | DDown => rect_y r - (rect_y c + rect_height c)
  end%Q.

(** [r] and [c] overlap on the axis the direction does not move along. *)
Definition abreast (direction : Direction) (c r : Rect Q) : Prop :=
  match direction with
  | DLeft | DRight => rect_y r < rect_y c + rect_height c /\ rect_y c < rect_y r + rect_height r
  | DUp | DDown => rect_x r < rect_x c + rect_width c /\ rect_x c < rect_x r + rect_width r
  end%Q.

(** Another pane, at or beyond the edge of the pane [id] in the direction. *)
Definition beyond t rect opts id direction (c : Rect Q) x (r : Rect Q) : Prop :=
  (x, r) ∈ layout t rect opts /\ x <> id /\ (0 <= clearance direction c r)%Q.

Lemma behind_spec direction (c r : Rect Q) : behind direction c r = false <-> (0 <= clearance direction c r)%Q.
Proof.
  destruct direction; cbn [behind clearance nltb Q_num]; unfold rect_right, rect_bottom; cbn [nadd Q_num];
    rewrite <- not_true_iff_false, Qltb_lt; split; intros ?; lra.
Qed.

Lemma c_dist_spec direction (c : Rect Q) x r : c_dist (cand_of direction c x r) = clearance direction c r.
Proof. by destruct direction. Qed.

Lemma c_overlaps_spec direction (c : Rect Q) x r : c_overlaps (cand_of direction c x r) = true <-> abreast direction c r.
Proof.
  unfold cand_of. cbn [c_overlaps]. unfold rect_right, rect_bottom.
  destruct direction; cbn [nltb nadd Q_num abreast];
    [rewrite bool_decide_true by tauto|rewrite bool_decide_true by tauto
    |rewrite bool_decide_false by (intros [?|?]; done)|rewrite bool_decide_false by (intros [?|?]; done)];
    by rewrite andb_true_iff, !Qltb_lt.
Qed.

(** [neighbors] over exact coordinates: it answers [null] exactly when the
    pane is absent or no other pane lies at or beyond its edge in that
    direction; otherwise it answers such a pane, one that overlaps the pane on
    the other axis if any does, and none of those it was chosen among, the
    overlapping ones or, without any, all, is nearer, edge to edge. *)
Theorem neighbors_nearest t rect id direction opts :
  match neighbors t rect id direction opts with
  | Some x =>
      exists (c r : Rect Q), omap_get id (layout t rect opts) = Some c /\ beyond t rect opts id direction c x r /\
        forall x' r', beyond t rect opts id direction c x' r' ->
          (abreast direction c r' -> abreast direction c r) /\
          ((abreast direction c r' <-> abreast direction c r) -> (clearance direction c r <= clearance direction c r')%Q)
  | None =>
      omap_get id (layout t rect opts) = None \/
      exists c : Rect Q, omap_get id (layout t rect opts) = Some c /\ forall x r, ~ beyond t rect opts id direction c x r
  end.
Proof.
  unfold neighbors. destruct (omap_get id (layout t rect opts)) as [cr|] eqn:Ec; [|by left].
  set (cands := omap _ _).
  assert (Hc : forall k, k ∈ cands <-> exists x r, beyond t rect opts id direction cr x r /\ k = cand_of direction cr x r).
  { intros k. unfold cands. rewrite list_elem_of_omap. split.
    - intros ([x r] & Hin & Hk). simpl in Hk. case_decide; [done|].
      destruct (behind direction cr r) eqn:Eb; [done|]. injection Hk as <-. apply behind_spec in Eb. by exists x, r.
    - intros (x & r & (Hin & Hx & Hb%behind_spec) & ->). exists (x, r). simpl. by rewrite decide_False, Hb by done. }
  clearbody cands. set (ov := filter (fun k => c_overlaps k = true) cands). cbv zeta.
  set (pool := match ov with [] => cands | _ => ov end).
  destruct (pool_first pool) as [k|] eqn:Ep.
  - apply pool_first_least in Ep as [Hin Hle].
    assert (Hk : k ∈ cands /\ (ov <> [] -> c_overlaps k = true)).
    { unfold pool in Hin. destruct ov as [|o l] eqn:Eo; [done|]. unfold ov in Eo. rewrite <- Eo in Hin.
      apply list_elem_of_filter in Hin as [? ?]. done. }
    destruct Hk as [Hkin Hko]. apply Hc in Hkin as (x & r & Hcand & ->). exists cr, r. split; [done|].
    change (c_id (cand_of direction cr x r)) with x.
    split; [done|]. intros x' r' Hcand'.
    rewrite <- (c_overlaps_spec direction cr x r), <- (c_dist_spec direction cr x r).
    rewrite <- (c_overlaps_spec direction cr x' r'), <- (c_dist_spec direction cr x' r').
    assert (Hin' : cand_of direction cr x' r' ∈ cands) by (apply Hc; by exists x', r'). split.
    + intros Ho. apply Hko. intros E. assert (Hf : cand_of direction cr x' r' ∈ ov) by by apply list_elem_of_filter.
      rewrite E in Hf. by apply elem_of_nil in Hf.
    + intros Ho. apply Hle. unfold pool. destruct ov as [|o l] eqn:Eo; [done|].
      unfold ov in Eo. rewrite <- Eo. apply list_elem_of_filter. split; [|done]. rewrite Ho. by apply Hko.
  - right. exists cr. split; [done|]. intros x r Hcand. apply pool_first_None in Ep.
    assert (Hin : cand_of direction cr x r ∈ cands) by (apply Hc; by exists x, r).
    unfold pool in Ep. destruct ov; [|done]. rewrite Ep in Hin. by apply elem_of_nil in Hin.
Qed.
