(* ===== verification/QuiesceDetector.v ===== *)
(** * The output/silence detector

    [QuiesceDetector] of src/lib/src/lib/quiesce-detector.ts.  A detector is
    part of its owner's state: [DetectorHost] is what the owner lends it (the
    place the detector is kept in, and the two callbacks), and every method is a
    function on the owner's state.  Times are milliseconds of [Date.now()], read
    once for each call and passed to it; a pending [setTimeout] is the time it is
    due, and the event loop runs it at that time or later. *)
From Stdlib Require Import ZArith Lia.
From S2P Require Import Prelude.
#[local] Open Scope Z_scope.

(** ** The constants of src/lib/src/cfg.ts the detector reads *)

Definition cfg_busyCandidateGap : Z := 1500.
Definition cfg_busyConfirmGap : Z := 500.
Definition cfg_mightNeedAttention : Z := 2000.
Definition cfg_needsAttentionConfirm : Z := 3000.
Definition cfg_workStartWindow : Z := 5000.

Inductive QuiesceStatus :=
  | NOTHING_TO_SHOW
  | MIGHT_BE_BUSY
  | BUSY
  | MIGHT_NEED_ATTENTION.

#[export] Instance QuiesceStatus_eq_dec : EqDecision QuiesceStatus.
Proof. solve_decision. Defined.

Definition T_BUSY_CANDIDATE_GAP : Z := cfg_busyCandidateGap.
Definition T_BUSY_CONFIRM_GAP : Z := cfg_busyConfirmGap.
Definition T_MIGHT_NEED_ATTENTION : Z := cfg_mightNeedAttention.
Definition T_SETTLED_CONFIRM : Z := cfg_needsAttentionConfirm.
Definition CANDIDATE_HISTORY_TTL_MS : Z := T_BUSY_CANDIDATE_GAP + T_BUSY_CONFIRM_GAP.

Inductive DetectorTimer :=
  | busyCandidate
  | busyConfirm
  | mightNeedAttention
  | settledConfirm.

#[export] Instance DetectorTimer_eq_dec : EqDecision DetectorTimer.
Proof. solve_decision. Defined.

#[export] Instance DetectorTimer_countable : Countable DetectorTimer.
Proof.
  refine (inj_countable'
    (fun k => match k with busyCandidate => 0 | busyConfirm => 1 | mightNeedAttention => 2 | settledConfirm => 3 end)
    (fun z => match z with 0 => busyCandidate | 1 => busyConfirm | 2 => mightNeedAttention | _ => settledConfirm end) _).
  by intros [].
Defined.

(** The fields of the class.  [lastWorkExpectedAt] is [None] for [-Infinity];
    [timers] has the due time of each pending timer. *)
Record Detector := mkDetector {
  status : QuiesceStatus;
  disposed : bool;
  lastWorkExpectedAt : option Z;
  timers : gmap DetectorTimer Z;
  firstOutputAt : option Z;
  lastOutputAt : option Z;
  outputCountSinceReset : nat
}.

Definition new_detector : Detector := mkDetector NOTHING_TO_SHOW false None ∅ None None 0.

Definition with_status (st : QuiesceStatus) (d : Detector) : Detector :=
  mkDetector st (disposed d) (lastWorkExpectedAt d) (timers d) (firstOutputAt d) (lastOutputAt d) (outputCountSinceReset d).
Definition with_timers (ts : gmap DetectorTimer Z) (d : Detector) : Detector :=
  mkDetector (status d) (disposed d) (lastWorkExpectedAt d) ts (firstOutputAt d) (lastOutputAt d) (outputCountSinceReset d).
Definition with_tracking (first last : option Z) (count : nat) (d : Detector) : Detector :=
  mkDetector (status d) (disposed d) (lastWorkExpectedAt d) (timers d) first last count.

(** The detector is ready to be read: [isConfirmedBusy]. *)
Definition isConfirmedBusy (d : Detector) : bool :=
  bool_decide (status d = BUSY) || bool_decide (status d = MIGHT_NEED_ATTENTION).

(** The methods that touch only the detector's own fields. *)
Definition clearTimers (d : Detector) : Detector := with_timers ∅ d.
Definition resetOutputTracking (d : Detector) : Detector := with_tracking None None 0 d.

Definition reset (d : Detector) : Detector :=
  if disposed d then d
  else with_status NOTHING_TO_SHOW (resetOutputTracking (clearTimers d)).

Definition expectWork (now : Z) (d : Detector) : Detector :=
  mkDetector (status d) (disposed d) (Some now) (timers d) (firstOutputAt d) (lastOutputAt d) (outputCountSinceReset d).

Definition dispose (d : Detector) : Detector :=
  clearTimers (mkDetector (status d) true (lastWorkExpectedAt d) (timers d) (firstOutputAt d) (lastOutputAt d) (outputCountSinceReset d)).

(** [schedule]: arm the timer, replacing a pending one of its kind. *)
Definition schedule (now : Z) (kind : DetectorTimer) (delay : Z) (d : Detector) : Detector :=
  with_timers (<[kind := now + delay]> (timers d)) d.

Definition startBusyCandidateTimer (now : Z) (d : Detector) : Detector :=
  match timers d !! busyCandidate with
  | None => schedule now busyCandidate T_BUSY_CANDIDATE_GAP d
  | Some _ => d
  end.

Definition startMightNeedAttentionTimer (now : Z) (d : Detector) : Detector :=
  schedule now mightNeedAttention T_MIGHT_NEED_ATTENTION d.

Definition seedFromLatestOutput (now : Z) (d : Detector) : Detector :=
  match lastOutputAt d with
  | None => resetOutputTracking d
  | Some l => startBusyCandidateTimer now (with_tracking (Some l) (lastOutputAt d) 1 d)
  end.

(** ** What the owner lends the detector *)

Class DetectorHost (S : Type) := {
  get_det : S -> Detector;
  set_det : Detector -> S -> S;
  onChange : QuiesceStatus -> S -> S;
  onSettled : S -> S
}.

Section Detector.
  Context {S : Type} `{H : DetectorHost S}.
  Implicit Types (s : S) (now : Z).

Definition upd (f : Detector -> Detector) s : S := set_det (f (get_det s)) s.

(** The one writer of the status: [beforePublish] runs with the new status
    readable, and the change is published only if the status still stands. *)
Definition setStatus (st : QuiesceStatus) (beforePublish : S -> S) s : S :=
  if bool_decide (status (get_det s) = st) then s
  else
    let s1 := beforePublish (upd (with_status st) s) in
    if bool_decide (status (get_det s1) = st) && negb (disposed (get_det s1)) then onChange st s1 else s1.

Definition enterMightBeBusy now s : S :=
  let s := upd clearTimers s in
  let s := setStatus MIGHT_BE_BUSY id s in
  upd (schedule now busyConfirm T_BUSY_CONFIRM_GAP) s.

Definition enterBusy now s : S :=
  let s := upd clearTimers s in
  let s := upd resetOutputTracking s in
  let s := setStatus BUSY id s in
  upd (startMightNeedAttentionTimer now) s.

Definition handleNothingToShowOutput now s : S :=
  let d := get_det s in
  match firstOutputAt d with
  | None => upd (fun d => startBusyCandidateTimer now (with_tracking (Some now) (lastOutputAt d) 1 d)) s
  | Some first =>
      let s := upd (fun d => with_tracking (firstOutputAt d) (lastOutputAt d) (outputCountSinceReset d + 1) d) s in
      if T_BUSY_CANDIDATE_GAP <=? now - first then enterMightBeBusy now s else s
  end.

(** Unconfirmed history older than its lifetime. *)
Definition history_expired now (d : Detector) : bool :=
  negb (isConfirmedBusy d) &&
  match lastOutputAt d with Some l => CANDIDATE_HISTORY_TTL_MS <? now - l | None => false end.

(** A run would begin, and nothing asked for work recently enough. *)
Definition unasked now (d : Detector) : bool :=
  bool_decide (status d = NOTHING_TO_SHOW) && bool_decide (firstOutputAt d = None) &&
  match lastWorkExpectedAt d with Some e => cfg_workStartWindow <? now - e | None => true end.

(** Candidate history describes one run of output: expire it against the clock
    on arrival, publishing the change. *)
Definition expire now s : S :=
  if history_expired now (get_det s)
  then setStatus NOTHING_TO_SHOW id (upd resetOutputTracking (upd clearTimers s))
  else s.

(** Output arrived; the result says whether it counted. *)
Definition onData now s : S * bool :=
  if disposed (get_det s) then (s, false)
  else
    let s := expire now s in
    if unasked now (get_det s) then (s, false)
    else
      let s := upd (fun d => with_tracking (firstOutputAt d) (Some now) (outputCountSinceReset d) d) s in
      (match status (get_det s) with
       | NOTHING_TO_SHOW => handleNothingToShowOutput now s
       | MIGHT_BE_BUSY => enterBusy now s
       | BUSY => upd (startMightNeedAttentionTimer now) s
       | MIGHT_NEED_ATTENTION => enterBusy now s
       end, true).

(** The callback of a timer that was due at [dueAt], run at [now]. *)
Definition timer_callback now (kind : DetectorTimer) (dueAt : Z) s : S :=
  let s := upd (fun d => with_timers (delete kind (timers d)) d) s in
  let d := get_det s in
  if disposed d then s
  else
    match kind with
    | busyCandidate =>
        if bool_decide (status d = NOTHING_TO_SHOW) && (2 <=? outputCountSinceReset d)%nat
        then enterMightBeBusy now s else s
    | busyConfirm =>
        if negb (bool_decide (status d = MIGHT_BE_BUSY)) then s
        else setStatus NOTHING_TO_SHOW id (upd (seedFromLatestOutput now) s)
    | mightNeedAttention =>
        if negb (bool_decide (status d = BUSY)) then s
        else upd (schedule now settledConfirm (Z.max 0 (dueAt + T_SETTLED_CONFIRM - now)))
                 (setStatus MIGHT_NEED_ATTENTION id s)
    | settledConfirm =>
        if negb (bool_decide (status d = MIGHT_NEED_ATTENTION)) then s
        else setStatus NOTHING_TO_SHOW onSettled (upd resetOutputTracking s)
    end.

(** The event loop runs a pending timer, at its due time or later. *)
Definition fire_timer now (kind : DetectorTimer) s : S :=
  match timers (get_det s) !! kind with
  | Some dueAt => if dueAt <=? now then timer_callback now kind dueAt s else s
  | None => s
  end.

End Detector.

(** ** What the output/silence detector promises

    Its laws over any owner, the runs of a detector on its own (a history of
    calls at increasing times), and the theorems about when a settle is
    announced. *)

(** ** Owners that keep their hands off

    The callbacks of an owner may do anything to the owner's state but leave the
    detector as it is; [live] says the owner still holds the detector. *)
Class HostLaws (S : Type) `{DetectorHost S} (live : S -> Prop) := {
  get_set_det : forall d s, live s -> get_det (set_det d s) = d;
  live_set_det : forall d s, live s -> live (set_det d s);
  onChange_det : forall st s, live s -> get_det (onChange st s) = get_det s;
  onChange_live : forall st s, live s -> live (onChange st s);
  onSettled_det : forall s, live s -> get_det (onSettled s) = get_det s;
  onSettled_live : forall s, live s -> live (onSettled s)
}.

(** A detector with no owner but a log of its callbacks, the latest first. *)
Inductive DetEvent := Changed (st : QuiesceStatus) | Settled.

Definition Solo : Type := Detector * list DetEvent.

#[export] Instance Solo_host : DetectorHost Solo := {
  get_det s := s.1;
  set_det d s := (d, s.2);
  onChange st s := (s.1, Changed st :: s.2);
  onSettled s := (s.1, Settled :: s.2)
}.

#[export] Instance Solo_laws : HostLaws Solo (fun _ => True).
Proof. by split. Qed.

(** ** The detector of any lawful owner runs like one on its own *)
Section Laws.
  Context {S : Type} `{HostLaws S live}.
  Implicit Types (s : S) (x : Solo).

(** The owner's detector is the lone detector [x]. *)
Definition alike s x : Prop := live s /\ get_det s = x.1.

Lemma alike_upd f s x : alike s x -> alike (upd f s) (upd f x).
Proof. intros [Hl E]. unfold upd, alike. rewrite get_set_det, E by done. split; [by apply live_set_det|done]. Qed.

Lemma alike_setStatus st s x :
  alike s x -> alike (setStatus st id s) (setStatus st id x).
Proof.
  intros Ha. unfold setStatus. rewrite (proj2 Ha). cbn [get_det Solo_host]. case_bool_decide; [done|]. cbv zeta. unfold id.
  pose proof (alike_upd (with_status st) s x Ha) as Hu. destruct Hu as [Hl Hd]. rewrite Hd. cbn [get_det Solo_host].
  destruct (_ && _); [|done]. split; [by apply onChange_live|]. rewrite onChange_det by done. by rewrite Hd.
Qed.

Lemma alike_settle st s x :
  alike s x -> alike (setStatus st onSettled s) (setStatus st onSettled x).
Proof.
  intros Ha. unfold setStatus. rewrite (proj2 Ha). cbn [get_det Solo_host]. case_bool_decide; [done|]. cbv zeta.
  pose proof (alike_upd (with_status st) s x Ha) as [Hl Hd]. rewrite (onSettled_det _ Hl), Hd. cbn [get_det onSettled Solo_host].
  destruct (_ && _).
  - pose proof (onSettled_live _ Hl) as Hl'. split; [by apply onChange_live|].
    rewrite (onChange_det _ _ Hl'), (onSettled_det _ Hl). by rewrite Hd.
  - split; [by apply onSettled_live|]. rewrite onSettled_det by done. by rewrite Hd.
Qed.

Lemma alike_enterMightBeBusy now s x :
  alike s x -> alike (enterMightBeBusy now s) (enterMightBeBusy now x).
Proof. intros. unfold enterMightBeBusy. by repeat first [apply alike_upd | apply alike_setStatus]. Qed.

Lemma alike_enterBusy now s x : alike s x -> alike (enterBusy now s) (enterBusy now x).
Proof. intros. unfold enterBusy. by repeat first [apply alike_upd | apply alike_setStatus]. Qed.

Lemma alike_handle now s x :
  alike s x -> alike (handleNothingToShowOutput now s) (handleNothingToShowOutput now x).
Proof.
  intros Ha. unfold handleNothingToShowOutput. rewrite (proj2 Ha). cbn [get_det Solo_host].
  destruct (firstOutputAt x.1); [|by apply alike_upd].
  destruct (_ <=? _); [apply alike_enterMightBeBusy|]; by apply alike_upd.
Qed.

Lemma alike_expire now s x : alike s x -> alike (expire now s) (expire now x).
Proof.
  intros Ha. unfold expire. rewrite (proj2 Ha). cbn [get_det Solo_host].
  destruct (history_expired now x.1); [|done]. apply alike_setStatus. by repeat apply alike_upd.
Qed.

Lemma alike_onData now s x :
  alike s x ->
  alike (onData now s).1 (onData now x).1 /\ (onData now s).2 = (onData now x).2.
Proof.
  intros Ha. unfold onData. rewrite (proj2 Ha). cbn [get_det Solo_host]. destruct (disposed x.1); [done|].
  pose proof (alike_expire now s x Ha) as H1. set (s1 := expire now s) in *. set (x1 := expire now x) in *.
  clearbody s1 x1. cbv zeta. rewrite (proj2 H1). destruct (unasked now x1.1); [done|].
  set (g := fun d : Detector => _). pose proof (alike_upd g _ _ H1) as H2. rewrite (proj2 H2). cbn [get_det Solo_host].
  split; [|done]. cbn [fst]. destruct (status (upd g x1).1).
  - by apply alike_handle.
  - by apply alike_enterBusy.
  - by apply alike_upd.
  - by apply alike_enterBusy.
Qed.

Lemma alike_fire now kind s x :
  alike s x -> alike (fire_timer now kind s) (fire_timer now kind x).
Proof.
  intros Ha. unfold fire_timer. rewrite (proj2 Ha). cbn [get_det Solo_host].
  destruct (timers x.1 !! kind) as [due|]; [|done]. destruct (due <=? now); [|done]. unfold timer_callback. cbv zeta.
  set (g := fun d : Detector => _). pose proof (alike_upd g _ _ Ha) as H2. rewrite (proj2 H2). cbn [get_det Solo_host].
  destruct (disposed (upd g x).1); [done|]. destruct kind.
  - destruct (_ && _); [by apply alike_enterMightBeBusy|done].
  - destruct (negb _); [done|]. apply alike_setStatus. by apply alike_upd.
  - destruct (negb _); [done|]. apply alike_upd. by apply alike_setStatus.
  - destruct (negb _); [done|]. apply alike_settle. by apply alike_upd.
Qed.

(** What every call does to an owner's state is a sequence of changes of the
    detector and of callbacks, so a property these preserve is preserved. *)
Section Preserved.
  Context (P : S -> Prop).
  Hypothesis Pset : forall d s, P s -> P (set_det d s).
  Hypothesis Pchange : forall st s, P s -> P (onChange st s).

Lemma upd_preserves f s : P s -> P (upd f s).
Proof. apply Pset. Qed.

Lemma setStatus_preserves st b s : (forall s, P s -> P (b s)) -> P s -> P (setStatus st b s).
Proof.
  intros Hb HP. unfold setStatus. case_bool_decide; [done|]. cbv zeta.
  destruct (_ && _); [apply Pchange|]; by apply Hb, upd_preserves.
Qed.

Lemma onData_preserves now s : P s -> P (onData now s).1.
Proof.
  intros HP. unfold onData. destruct (disposed _); [done|].
  set (s1 := expire now s). cbv zeta.
  assert (H1 : P s1).
  { subst s1. unfold expire. destruct (history_expired _ _); [|done].
    apply setStatus_preserves; [done|]. by repeat apply upd_preserves. }
  clearbody s1. destruct (unasked _ _); [done|]. cbv zeta. cbn [fst].
  set (s2 := upd _ s1). assert (H2 : P s2) by by apply upd_preserves. clearbody s2.
  assert (Hb : P (enterBusy now s2)).
  { unfold enterBusy. apply upd_preserves, setStatus_preserves; [done|]. by repeat apply upd_preserves. }
  destruct (status _); [|done|by apply upd_preserves|done].
  unfold handleNothingToShowOutput. destruct (firstOutputAt _); [|by apply upd_preserves].
  destruct (_ <=? _); [|by apply upd_preserves].
  unfold enterMightBeBusy. apply upd_preserves, setStatus_preserves; [done|]. by repeat apply upd_preserves.
Qed.

Lemma fire_preserves now kind s :
  (kind = settledConfirm -> forall s, P s -> P (onSettled s)) -> P s -> P (fire_timer now kind s).
Proof.
  intros Hs HP. unfold fire_timer. destruct (timers _ !! kind); [|done]. destruct (_ <=? _); [|done].
  unfold timer_callback. cbv zeta. set (s1 := upd _ s). assert (H1 : P s1) by by apply upd_preserves. clearbody s1.
  destruct (disposed _); [done|]. destruct kind; destruct (_ : bool); try done.
  - unfold enterMightBeBusy. apply upd_preserves, setStatus_preserves; [done|]. by repeat apply upd_preserves.
  - apply setStatus_preserves; [done|]. by apply upd_preserves.
  - apply upd_preserves, setStatus_preserves; done.
  - apply setStatus_preserves; [by apply Hs|]. by apply upd_preserves.
Qed.

End Preserved.
End Laws.
