(* ===== verification/QuiesceRuns.v ===== *)
(** * Runs of the output/silence detector

    A run is a history of calls at times that never go back, on a detector with
    no owner but a log.  The theorems say when a settle is announced, that a
    confirmed run that falls silent always reaches it, and that nothing is
    published without input that asked for work. *)
From Stdlib Require Import ZArith Lia.
From S2P Require Import Prelude QuiesceDetector.
#[local] Open Scope Z_scope.

Inductive DetCall :=
  | CallData
  | CallWork
  | CallReset
  | CallDispose
  | CallTimer (kind : DetectorTimer).

(** One call, and whether it was output that counted. *)
Definition det_call (now : Z) (c : DetCall) (x : Solo) : Solo * bool :=
  match c with
  | CallData => onData now x
  | CallWork => (upd (expectWork now) x, false)
  | CallReset => (upd reset x, false)
  | CallDispose => (upd dispose x, false)
  | CallTimer kind => (fire_timer now kind x, false)
  end.

(** A past call: its time, what it was, and whether it counted. *)
Definition Past : Type := Z * DetCall * bool.

(** The histories of a detector and the states they lead to, the latest call first. *)
Inductive det_reach : list Past -> Solo -> Prop :=
  | reach_new : det_reach [] (new_detector, [])
  | reach_call h x now c :
      det_reach h x -> Forall (fun e : Past => e.1.1 <= now) h ->
      det_reach ((now, c, (det_call now c x).2) :: h) (det_call now c x).1.

(** When output last counted. *)
Fixpoint last_counted (h : list Past) : option Z :=
  match h with
  | [] => None
  | (t, _, counted) :: h' => if counted : bool then Some t else last_counted h'
  end.

(** Output that counted at [f] began a run asked for at most 5s before. *)
Definition began (h : list Past) (f : Z) : Prop :=
  (f, CallData, true) ∈ h /\
  exists e, (e, CallWork, false) ∈ h /\ e <= f <= e + cfg_workStartWindow.

(** Some call was made at [t] or later. *)
Definition reached (h : list Past) (t : Z) : Prop := exists e, e ∈ h /\ t <= e.1.1.

(** The detector agrees with its history. *)
Definition tracks (h : list Past) (d : Detector) : Prop :=
  match status d with
  | NOTHING_TO_SHOW =>
      match firstOutputAt d with
      | None => timers d = ∅ /\ lastOutputAt d = None
      | Some g =>
          (exists f, began h f /\ f <= g) /\
          (exists l, lastOutputAt d = Some l /\ last_counted h = Some l /\ g <= l) /\
          (forall k due, timers d !! k = Some due -> k = busyCandidate /\ g + T_BUSY_CANDIDATE_GAP <= due)
      end
  | MIGHT_BE_BUSY =>
      exists f l due, began h f /\ reached h (f + T_BUSY_CANDIDATE_GAP) /\ f <= l /\
        lastOutputAt d = Some l /\ last_counted h = Some l /\ timers d = {[busyConfirm := due]}
  | BUSY =>
      exists f l, began h f /\ last_counted h = Some l /\ f + T_BUSY_CANDIDATE_GAP <= l /\
        timers d = {[mightNeedAttention := l + T_MIGHT_NEED_ATTENTION]}
  | MIGHT_NEED_ATTENTION =>
      exists f l due, began h f /\ last_counted h = Some l /\ f + T_BUSY_CANDIDATE_GAP <= l /\
        timers d = {[settledConfirm := due]} /\
        l + T_MIGHT_NEED_ATTENTION + T_SETTLED_CONFIRM <= due
  end.

Definition det_inv (h : list Past) (d : Detector) : Prop :=
  (forall e, lastWorkExpectedAt d = Some e -> (e, CallWork, false) ∈ h) /\
  if disposed d then timers d = ∅ else tracks h d.

(** ** The methods of a lone detector, written out *)

Lemma solo_setStatus st (x : Solo) :
  setStatus st id x =
  if bool_decide (status x.1 = st) then x
  else (with_status st x.1, if disposed x.1 then x.2 else Changed st :: x.2).
Proof.
  unfold setStatus. cbn [get_det Solo_host]. case_bool_decide as E; [done|].
  unfold upd. cbn. rewrite bool_decide_true by done. by destruct (disposed x.1).
Qed.

Lemma solo_settle (x : Solo) :
  status x.1 <> NOTHING_TO_SHOW -> disposed x.1 = false ->
  setStatus NOTHING_TO_SHOW onSettled x =
  (with_status NOTHING_TO_SHOW x.1, Changed NOTHING_TO_SHOW :: Settled :: x.2).
Proof.
  intros Hs Hd. unfold setStatus. cbn [get_det Solo_host]. rewrite bool_decide_false by done.
  unfold upd. cbn. by rewrite Hd.
Qed.

Lemma began_cons h f e : began h f -> began (e :: h) f.
Proof. intros (Hf & e' & He & Hb). split; [by right|]. exists e'. split; [by right|done]. Qed.

Lemma reached_cons h t e : reached h t -> reached (e :: h) t.
Proof. intros (e' & He & Ht). exists e'. split; [by right|done]. Qed.

Lemma reached_before h t now :
  reached h t -> Forall (fun e : Past => e.1.1 <= now) h -> t <= now.
Proof. intros (e & He & Ht) Hall. rewrite Forall_forall in Hall. specialize (Hall e He). lia. Qed.

Lemma last_counted_le h l now :
  Forall (fun e : Past => e.1.1 <= now) h -> last_counted h = Some l -> l <= now.
Proof.
  induction 1 as [|[[t c] b] h Ht Hh IH]; [done|]. cbn. destruct b; [|done]. intros [= <-]. done.
Qed.

(** A call that does not count and leaves the detector's record as it is. *)
Lemma tracks_cons h d now c : tracks h d -> tracks ((now, c, false) :: h) d.
Proof.
  unfold tracks. destruct (status d); cbn [last_counted].
  - destruct (firstOutputAt d); [|done]. intros ((f & Hf & Hg) & Hl & Ht). split_all; [|done|done].
    exists f. by split; [apply began_cons|].
  - intros (f & l & due & Hf & Hr & Hrest). exists f, l, due. by split; [apply began_cons|split; [apply reached_cons|]].
  - intros (f & l & Hf & Hrest). exists f, l. by split; [apply began_cons|].
  - intros (f & l & due & Hf & Hrest). exists f, l, due. by split; [apply began_cons|].
Qed.

Lemma tracks_ext h d d' :
  status d' = status d -> firstOutputAt d' = firstOutputAt d -> lastOutputAt d' = lastOutputAt d ->
  timers d' = timers d -> tracks h d -> tracks h d'.
Proof. unfold tracks. by intros -> -> -> ->. Qed.

#[local] Arguments with_status _ _ /.
#[local] Arguments with_timers _ _ /.
#[local] Arguments with_tracking _ _ _ _ /.
#[local] Arguments clearTimers _ /.
#[local] Arguments resetOutputTracking _ /.
#[local] Arguments schedule _ _ _ _ /.
#[local] Arguments startMightNeedAttentionTimer _ _ /.

Ltac solo :=
  repeat first
    [ rewrite solo_setStatus
    | progress cbn [upd id get_det set_det Solo_host fst snd status disposed timers firstOutputAt lastOutputAt
        lastWorkExpectedAt outputCountSinceReset with_status with_timers with_tracking clearTimers
        resetOutputTracking schedule startMightNeedAttentionTimer] ].

(** *** Output *)

(** What the gate lets through: a run under way, or one asked for. *)
Lemma unasked_false now d :
  unasked now d = false ->
  status d <> NOTHING_TO_SHOW \/ (exists g, firstOutputAt d = Some g) \/
  exists e, lastWorkExpectedAt d = Some e /\ now <= e + cfg_workStartWindow.
Proof.
  unfold unasked. intros H. destruct (decide (status d = NOTHING_TO_SHOW)) as [E|]; [|by left].
  right. destruct (firstOutputAt d) as [g|]; [left; by exists g|]. right.
  rewrite !bool_decide_true in H by done. destruct (lastWorkExpectedAt d) as [e|]; [|done].
  exists e. split; [done|]. cbn in H. apply Z.ltb_ge in H. lia.
Qed.

Lemma enterBusy_solo now (x : Solo) :
  disposed x.1 = false -> status x.1 <> BUSY ->
  enterBusy now x =
  (mkDetector BUSY false (lastWorkExpectedAt x.1)
     {[mightNeedAttention := now + T_MIGHT_NEED_ATTENTION]} None None 0, Changed BUSY :: x.2).
Proof.
  destruct x as [d l]. cbn [fst]. intros Hd Hs. unfold enterBusy. solo. rewrite bool_decide_false by done. solo.  by rewrite Hd, insert_empty.
Qed.

Lemma enterMightBeBusy_solo now (x : Solo) :
  disposed x.1 = false -> status x.1 <> MIGHT_BE_BUSY ->
  enterMightBeBusy now x =
  (mkDetector MIGHT_BE_BUSY false (lastWorkExpectedAt x.1)
     {[busyConfirm := now + T_BUSY_CONFIRM_GAP]} (firstOutputAt x.1) (lastOutputAt x.1) (outputCountSinceReset x.1),
   Changed MIGHT_BE_BUSY :: x.2).
Proof.
  destruct x as [d l]. cbn [fst]. intros Hd Hs. unfold enterMightBeBusy. solo. rewrite bool_decide_false by done. solo. by rewrite Hd, insert_empty.
Qed.

(** Output past the gate, in each status. *)
Lemma tracks_counted h d now x' :
  (forall e, lastWorkExpectedAt d = Some e -> (e, CallWork, false) ∈ h) ->
  Forall (fun e : Past => e.1.1 <= now) h ->
  disposed d = false -> tracks h d -> unasked now d = false ->
  let x := (with_tracking (firstOutputAt d) (Some now) (outputCountSinceReset d) d, x') in
  tracks ((now, CallData, true) :: h)
    (match status d with
     | NOTHING_TO_SHOW => handleNothingToShowOutput now x
     | BUSY => upd (startMightNeedAttentionTimer now) x
     | _ => enterBusy now x
     end).1.
Proof.
  intros Hw Hall Hd Ht Hg x. subst x. unfold tracks in Ht. destruct (status d) eqn:Es.
  - unfold handleNothingToShowOutput. solo.
    destruct (firstOutputAt d) as [g|] eqn:Ef.
    + destruct Ht as ((f & Hf & Hgf) & (l & Hl & Hlc & Hgl) & Hts).
      pose proof (last_counted_le _ _ _ Hall Hlc). destruct (_ <=? _) eqn:Ele; [|solo].
      * apply Z.leb_le in Ele. rewrite enterMightBeBusy_solo by (solo; by rewrite ?Es).
        unfold tracks. cbn. exists f, now. eexists. split_all; [by apply began_cons| |lia|done|done|done].
        exists (now, CallData, true). split; [left|cbn; lia].
      * unfold tracks. solo. rewrite Es. split_all; [|by exists now; split_all; [..|lia]|done].
        exists f. by split; [apply began_cons|].
    + destruct Ht as [Hts _]. unfold startBusyCandidateTimer. solo. rewrite Hts, lookup_empty. unfold tracks. solo.
      rewrite Es. split_all; [|by exists now|].
      * exists now. split; [|done]. split; [by left|].
        apply unasked_false in Hg as [?|[[? ?]|(e & He & Hle)]]; [done|congruence|].
        exists e. split; [right; by apply Hw|]. rewrite Forall_forall in Hall. specialize (Hall _ (Hw _ He)). cbn in Hall. lia.
      * intros k due Hk. rewrite lookup_insert_Some in Hk. destruct Hk as [[<- <-]|[_ Hk]]; [by split|done].
  - rewrite enterBusy_solo by (solo; by rewrite ?Es). destruct Ht as (f & l & due & Hf & Hr & Hrest).
    unfold tracks. cbn. exists f, now. split_all; [by apply began_cons|done|by eapply reached_before|done].
  - destruct Ht as (f & l & Hf & Hl & Hfl & Hts). unfold tracks. solo. rewrite Es.
    exists f, now. split_all; [by apply began_cons|done| |by rewrite Hts, insert_singleton].
    eapply last_counted_le in Hl; [|exact Hall]. lia.
  - destruct Ht as (f & l & due & Hf & Hl & Hfl & Hrest). rewrite enterBusy_solo by (solo; by rewrite ?Es).
    unfold tracks. cbn. exists f, now. split_all; [by apply began_cons|done| |done].
    eapply last_counted_le in Hl; [|exact Hall]. lia.
Qed.

(** Expiring old history on a lone detector. *)
Lemma expire_solo now (x : Solo) h :
  disposed x.1 = false -> tracks h x.1 ->
  disposed (expire now x).1 = false /\ tracks h (expire now x).1 /\
  lastWorkExpectedAt (expire now x).1 = lastWorkExpectedAt x.1.
Proof.
  intros Hd Ht. unfold expire. destruct (history_expired now (get_det x)); [|done].
  solo. case_bool_decide as E; [|done]. unfold tracks. solo. by rewrite E.
Qed.

Lemma det_inv_data h (x : Solo) now :
  Forall (fun e : Past => e.1.1 <= now) h -> det_inv h x.1 ->
  det_inv ((now, CallData, (onData now x).2) :: h) (onData now x).1.1.
Proof.
  intros Hall [Hw Hd]. unfold onData. cbn [get_det Solo_host].
  destruct (disposed x.1) eqn:Ed.
  { split; [intros e He; right; by apply Hw|]. cbn [fst]. by rewrite Ed. }
  destruct (expire_solo now x h Ed Hd) as (Hy & Ht & Hwy). set (y := expire now x) in *. clearbody y. cbv zeta.
  destruct (unasked now y.1) eqn:Eu.
  { cbn [fst snd]. split; [rewrite Hwy; intros e He; right; by apply Hw|]. rewrite Hy. by apply tracks_cons. }
  cbn [fst snd]. rewrite <- Hwy in Hw. destruct y as [d lg]. cbn [fst] in *.
  pose proof (tracks_counted h d now lg Hw Hall Hy Ht Eu) as Hc. cbv zeta in Hc.
  unfold upd in Hc |- *. cbn [get_det set_det Solo_host fst snd status with_tracking] in Hc |- *.
  assert (Hrest : forall z : Solo, tracks ((now, CallData, true) :: h) z.1 -> lastWorkExpectedAt z.1 = lastWorkExpectedAt d ->
    disposed z.1 = false -> det_inv ((now, CallData, true) :: h) z.1).
  { intros z Hz Ez Dz. split; [rewrite Ez; intros e He; right; by apply Hw|]. by rewrite Dz. }
  clear Ht Eu. destruct (status d) eqn:Es; (apply Hrest; [exact Hc| |]).
  all: rewrite ?enterBusy_solo by (solo; by rewrite ?Es); try done.
  all: unfold handleNothingToShowOutput; solo; destruct (firstOutputAt d); [destruct (_ <=? _)|];
    rewrite ?enterMightBeBusy_solo by (solo; by rewrite ?Es); try done.
  all: solo; unfold startBusyCandidateTimer; by case_goal.
Qed.

(** A pending timer belongs to the status. *)
Lemma tracks_timer h d kind due :
  tracks h d -> timers d !! kind = Some due ->
  status d = match kind with
             | busyCandidate => NOTHING_TO_SHOW
             | busyConfirm => MIGHT_BE_BUSY
             | mightNeedAttention => BUSY
             | settledConfirm => MIGHT_NEED_ATTENTION
             end.
Proof.
  unfold tracks. intros Ht Hk. destruct (status d).
  - destruct (firstOutputAt d); [by destruct (proj2 (proj2 Ht) _ _ Hk) as [-> _]|].
    destruct Ht as [E _]. by rewrite E in Hk.
  - destruct Ht as (? & ? & ? & _ & _ & _ & _ & _ & E). rewrite E, lookup_singleton_Some in Hk. by destruct Hk as [<- _].
  - destruct Ht as (? & ? & _ & _ & _ & E). rewrite E, lookup_singleton_Some in Hk. by destruct Hk as [<- _].
  - destruct Ht as (? & ? & ? & _ & _ & _ & E & _). rewrite E, lookup_singleton_Some in Hk. by destruct Hk as [<- _].
Qed.

Lemma det_inv_fire h (x : Solo) now kind :
  Forall (fun e : Past => e.1.1 <= now) h -> det_inv h x.1 ->
  det_inv ((now, CallTimer kind, false) :: h) (fire_timer now kind x).1.
Proof.
  intros Hall Hi. assert (Hn : det_inv ((now, CallTimer kind, false) :: h) x.1).
  { destruct Hi as [Hw Hd]. split; [intros e He; right; by apply Hw|]. destruct (disposed x.1); [done|]. by apply tracks_cons. }
  unfold fire_timer. cbn [get_det Solo_host]. destruct (timers x.1 !! kind) as [due|] eqn:Ek; [|done].
  destruct (due <=? now) eqn:Edue; [|done]. apply Z.leb_le in Edue. destruct Hn as [Hw Hd]. clear Hi.
  destruct (disposed x.1) eqn:Edis; [by rewrite Hd, lookup_empty in Ek|].
  pose proof (tracks_timer _ _ _ _ Hd Ek) as Es.
  destruct x as [d lg]. unfold timer_callback. solo. cbn [fst] in *. rewrite Edis. unfold tracks in Hd. rewrite Es in Hd.
  destruct kind.
  - destruct (firstOutputAt d) as [g|] eqn:Ef; [|destruct Hd as [E _]; by rewrite E in Ek].
    destruct Hd as ((f & Hf & Hfg) & (l & Hl & Hlc & Hgl) & Hts). destruct (Hts _ _ Ek) as [_ Hdue].
    destruct (_ && _) eqn:Ec.
    + rewrite enterMightBeBusy_solo by (solo; by rewrite ?Es).
      split; [done|]. unfold tracks. solo. exists f, l. eexists. split_all; [done| |lia|done|done|done]. exists (now, CallTimer busyCandidate, false). split; [left|cbn; lia].
    + split; [done|]. cbn [fst disposed]. unfold tracks. solo. rewrite Es. split_all; [by exists f|by exists l|].
      intros k due' Hk. apply lookup_delete_Some in Hk as [_ Hk]. by apply Hts.
  - rewrite Es. rewrite bool_decide_true by done. cbn [negb]. destruct Hd as (f & l & due' & Hf & Hr & Hfl & Hl & Hlc & E).
    assert (Hln : l <= now) by (eapply last_counted_le; [exact Hall|exact Hlc]).
    unfold seedFromLatestOutput. solo. rewrite Hl. unfold startBusyCandidateTimer. solo.
    rewrite E, delete_singleton_eq, lookup_empty. solo. rewrite bool_decide_false by done.
    split; [done|]. unfold tracks. solo. split_all; [by exists f|by exists l|].
    intros k due2 Hk. rewrite lookup_insert_Some in Hk. destruct Hk as [[<- <-]|[_ Hk]]; [split; [done|lia]|done].
  - rewrite Es. rewrite bool_decide_true by done. cbn [negb]. destruct Hd as (f & l & Hf & Hlc & Hfl & E).
    rewrite E in Ek |- *. apply lookup_singleton_Some in Ek as [_ <-]. rewrite delete_singleton_eq. solo.
    rewrite bool_decide_false by done. split; [done|]. unfold tracks. solo.
    exists f, l. eexists. split_all; [done|done|done|by rewrite insert_empty|lia].
  - rewrite Es. rewrite bool_decide_true by done. cbn [negb]. rewrite solo_settle by (solo; by rewrite ?Es).
    split; [done|]. destruct Hd as (f & l & due' & _ & _ & _ & E & _). unfold tracks. solo. rewrite E, delete_singleton_eq. done.
Qed.

Lemma det_reach_inv h x : det_reach h x -> det_inv h x.1.
Proof.
  induction 1 as [|h x now c Hr IH Hall]; [by split|]. destruct c; cbn [det_call fst snd].
  - by apply det_inv_data.
  - destruct IH as [Hw Hd]. split.
    + intros e [= <-]. by left.
    + unfold upd. cbn. destruct (disposed x.1); [done|]. by apply tracks_cons, (tracks_ext h x.1).
  - destruct IH as [Hw Hd]. unfold upd, reset. cbn [get_det set_det Solo_host fst].
    destruct (disposed x.1) eqn:E; (split; [intros e He; right; by apply Hw|]).
    + by rewrite E.
    + cbn. by rewrite E.
  - destruct IH as [Hw Hd]. split; [intros e He; right; by apply Hw|done].
  - by apply det_inv_fire.
Qed.

(** The callbacks a call makes, the latest first. *)
Definition emitted (now : Z) (c : DetCall) (x : Solo) (new : list DetEvent) : Prop :=
  (det_call now c x).1.2 = new ++ x.2.

(** Only the last timer announces a settle. *)
Lemma emits_settled now c x new :
  emitted now c x new -> Settled ∈ new -> c = CallTimer settledConfirm.
Proof.
  intros He Hs. set (P := fun y : Solo => exists n, y.2 = n ++ x.2 /\ ~ (Settled ∈ n)).
  assert (Px : P x) by (exists []; split; [done|apply not_elem_of_nil]).
  assert (HP : P (det_call now c x).1 -> False).
  { intros (n & En & Hn). unfold emitted in He. rewrite En in He. by apply app_inv_tail in He as ->. }
  assert (Pset : forall d (y : Solo), P y -> P (set_det d y)) by done.
  assert (Pch : forall st (y : Solo), P y -> P (onChange st y)).
  { intros st y (n & En & Hn). exists (Changed st :: n). split; [cbn; by rewrite En|].
    rewrite not_elem_of_cons. by split. }
  destruct c as [| | | |kind]; try (destruct HP; done).
  - destruct HP. by apply (onData_preserves P).
  - destruct (decide (kind = settledConfirm)) as [->|]; [done|]. destruct HP. by apply (fire_preserves P).
Qed.

(** A settle is announced only after work that went silent: input or announced
    work at some [e], output at some [f] within the work window of it, the last
    output that counted at least the candidate gap later, at [l], and then none
    for the two silence periods.  It is announced once,
    with the detector quiet, before the change is published. *)
Theorem settle_confirmed h x now c new :
  det_reach h x -> Forall (fun e : Past => e.1.1 <= now) h ->
  emitted now c x new -> Settled ∈ new ->
  new = [Changed NOTHING_TO_SHOW; Settled] /\
  exists e f l,
    (e, CallWork, false) ∈ h /\ (f, CallData, true) ∈ h /\ e <= f <= e + cfg_workStartWindow /\
    last_counted h = Some l /\ f + cfg_busyCandidateGap <= l /\
    l + cfg_mightNeedAttention + cfg_needsAttentionConfirm <= now.
Proof.
  intros Hr Hall He Hs. pose proof (emits_settled _ _ _ _ He Hs) as ->.
  destruct (det_reach_inv _ _ Hr) as [_ Hd]. unfold emitted in He. cbn [det_call fst] in He.
  assert (Hnil : forall l : list DetEvent, l = new ++ l -> False).
  { intros l El. change l with ([] ++ l) in El at 1. apply app_inv_tail in El. subst. by apply elem_of_nil in Hs. }
  unfold fire_timer in He. cbn [get_det Solo_host] in He.
  destruct (timers x.1 !! settledConfirm) as [due|] eqn:Ek; [|by destruct (Hnil x.2)].
  destruct (due <=? now) eqn:Edue; [|by destruct (Hnil x.2)]. apply Z.leb_le in Edue.
  destruct (disposed x.1) eqn:Edis; [by rewrite Hd in Ek|].
  pose proof (tracks_timer _ _ _ _ Hd Ek) as Es.
  unfold timer_callback in He. cbv zeta in He. unfold upd in He. cbn [get_det set_det Solo_host fst snd disposed status with_timers] in He.
  rewrite Edis, Es, bool_decide_true in He by done. cbn [negb] in He.
  rewrite solo_settle in He by (solo; by rewrite ?Es). cbn [snd] in He.
  change (Changed NOTHING_TO_SHOW :: Settled :: x.2) with ([Changed NOTHING_TO_SHOW; Settled] ++ x.2) in He.
  apply app_inv_tail in He as <-. split; [done|].
  unfold tracks in Hd. rewrite Es in Hd. destruct Hd as (f & l & due' & [Hf (e & Hee & Hef)] & Hlc & Hfl & E & Hdue').
  rewrite E in Ek. apply lookup_singleton_Some in Ek as [_ ->].
  exists e, f, l. split_all; try done. unfold T_MIGHT_NEED_ATTENTION, T_SETTLED_CONFIRM in Hdue'. lia.
Qed.

(** C37. A confirmed run that falls silent settles: its timers, run by the event
    loop at whatever times at or after their deadlines, announce one settle and
    leave the detector quiet with nothing pending.  A late first callback does
    not put the deadline off. *)
Theorem silence_settles h x l t1 t2 :
  det_reach h x -> disposed x.1 = false -> status x.1 = BUSY -> last_counted h = Some l ->
  l + cfg_mightNeedAttention <= t1 ->
  Z.max t1 (l + cfg_mightNeedAttention + cfg_needsAttentionConfirm) <= t2 ->
  let y := fire_timer t2 settledConfirm (fire_timer t1 mightNeedAttention x) in
  y.2 = Changed NOTHING_TO_SHOW :: Settled :: Changed MIGHT_NEED_ATTENTION :: x.2 /\
  status y.1 = NOTHING_TO_SHOW /\ timers y.1 = ∅ /\ firstOutputAt y.1 = None.
Proof.
  intros Hr Hdis Es Hl Ht1 Ht2. destruct (det_reach_inv _ _ Hr) as [_ Hd]. rewrite Hdis in Hd.
  unfold tracks in Hd. rewrite Es in Hd. destruct Hd as (f & l' & _ & Hl' & _ & E). simplify_eq.
  destruct x as [d lg]. cbn [fst snd] in *.
  cbv zeta. assert (H1 : fire_timer (S:=Solo) t1 mightNeedAttention (d, lg) =
    (mkDetector MIGHT_NEED_ATTENTION false (lastWorkExpectedAt d)
       {[settledConfirm := Z.max t1 (l + cfg_mightNeedAttention + cfg_needsAttentionConfirm)]}
       (firstOutputAt d) (lastOutputAt d) (outputCountSinceReset d), Changed MIGHT_NEED_ATTENTION :: lg)).
  { unfold fire_timer. cbn [get_det Solo_host fst]. rewrite E, lookup_singleton_eq.
    rewrite (proj2 (Z.leb_le _ _)) by done. unfold timer_callback. solo.
    rewrite Hdis, Es, bool_decide_true by done. cbn [negb]. rewrite E, delete_singleton_eq. solo.
    rewrite bool_decide_false by done. solo. rewrite insert_empty. do 3 f_equal.
    unfold T_MIGHT_NEED_ATTENTION, T_SETTLED_CONFIRM. lia. }
  rewrite H1. unfold fire_timer. cbn [get_det Solo_host fst timers]. rewrite lookup_singleton_eq.
  rewrite (proj2 (Z.leb_le _ _)) by done. unfold timer_callback. solo.
  rewrite bool_decide_true by done. cbn [negb]. rewrite delete_singleton_eq.
  rewrite solo_settle by done. done.
Qed.

(** ** A run to evaluate *)

(** Makes the calls in order, at times that never go back. *)
Fixpoint det_run (h : list Past) (x : Solo) (cs : list (Z * DetCall)) : option (list Past * Solo) :=
  match cs with
  | [] => Some (h, x)
  | (now, c) :: cs' =>
      if forallb (fun e : Past => e.1.1 <=? now) h
      then det_run ((now, c, (det_call now c x).2) :: h) (det_call now c x).1 cs'
      else None
  end.

Lemma det_run_reach cs h x h' x' :
  det_reach h x -> det_run h x cs = Some (h', x') -> det_reach h' x'.
Proof.
  revert h x. induction cs as [|[now c] cs IH]; intros h x Hr H; cbn in H; [by simplify_eq|].
  destruct (forallb _ _) eqn:E; [|done]. apply (IH _ _) in H; [done|]. apply reach_call; [done|].
  apply Forall_forall. intros e He. rewrite forallb_forall in E. apply Z.leb_le, E. by apply list_elem_of_In.
Qed.

(** A keystroke, three chunks of output, and two silences. *)
Definition sample_calls : list (Z * DetCall) :=
  [(0, CallWork); (100, CallData); (1650, CallData); (1700, CallData); (3705, CallTimer mightNeedAttention)].

Definition sample_busy : list Past * Solo :=
  match det_run [] (new_detector, []) (take 4 sample_calls) with Some r => r | None => ([], (new_detector, [])) end.
Definition sample_quiet : list Past * Solo :=
  match det_run [] (new_detector, []) sample_calls with Some r => r | None => ([], (new_detector, [])) end.

Lemma sample_busy_reach : det_reach sample_busy.1 sample_busy.2.
Proof. apply (det_run_reach (take 4 sample_calls) [] (new_detector, [])); [constructor|reflexivity]. Qed.

Lemma sample_quiet_reach : det_reach sample_quiet.1 sample_quiet.2.
Proof. apply (det_run_reach sample_calls [] (new_detector, [])); [constructor|reflexivity]. Qed.

Lemma settle_confirmed_witness :
  [Changed NOTHING_TO_SHOW; Settled] = [Changed NOTHING_TO_SHOW; Settled] /\
  exists e f l,
    (e, CallWork, false) ∈ sample_quiet.1 /\ (f, CallData, true) ∈ sample_quiet.1 /\ e <= f <= e + cfg_workStartWindow /\
    last_counted sample_quiet.1 = Some l /\ f + cfg_busyCandidateGap <= l /\
    l + cfg_mightNeedAttention + cfg_needsAttentionConfirm <= 6700.
Proof.
  apply (settle_confirmed sample_quiet.1 sample_quiet.2 6700 (CallTimer settledConfirm)).
  - exact sample_quiet_reach.
  - repeat (constructor; [vm_compute; congruence|]). constructor.
  - vm_compute; reflexivity.
  - right. left.
Defined.

Lemma silence_settles_witness :
  let y := fire_timer 6700 settledConfirm (fire_timer 3900 mightNeedAttention sample_busy.2) in
  y.2 = Changed NOTHING_TO_SHOW :: Settled :: Changed MIGHT_NEED_ATTENTION :: sample_busy.2.2 /\
  status y.1 = NOTHING_TO_SHOW /\ timers y.1 = ∅ /\ firstOutputAt y.1 = None.
Proof.
  apply (silence_settles sample_busy.1 sample_busy.2 1700 3900 6700);
    [exact sample_busy_reach|reflexivity|reflexivity|reflexivity|vm_compute; congruence|vm_compute; congruence].
Defined.
