(* ===== verification/TerminalState.v ===== *)
(** * Command starts and watch rules

    The part of src/lib/src/lib/terminal-state.ts the alert manager calls: the
    semantic events of a terminal, the fields of a command run that begins, and
    the rule that covers a watch key. *)
From Stdlib Require Import ZArith Ascii.
From S2P Require Import Prelude JsValue.
#[local] Open Scope string_scope.

Inductive CwdSource := cwd_osc7 | cwd_osc9_9 | cwd_osc633 | cwd_osc1337 | cwd_process | cwd_manual.
Inductive PathKind := posix | windows | path_unknown.

Record CwdState := mkCwd {
  cwd_uri : option string;
  cwd_path : string;
  cwd_host : option string;
  cwd_scheme_file : bool;
  cwd_pathKind : PathKind;
  cwd_isRemote : bool;
  cwd_source : CwdSource;
  cwd_updatedAt : Z
}.

Inductive CommandRunSource :=
  | osc633_E
  | osc633_boundaries
  | osc133_boundaries
  | user_input.

#[export] Instance CommandRunSource_eq_dec : EqDecision CommandRunSource.
Proof. solve_decision. Defined.

Inductive TerminalTitleSource := osc0 | osc2 | osc9 | osc99 | osc777 | title_user.

Record TerminalTitle := mkTitle {
  title_text : string;
  title_source : TerminalTitleSource;
  title_updatedAt : Z
}.

Inductive TerminalSemanticEvent :=
  | EvCwd (cwd : CwdState)
  | EvPromptStart
  | EvPromptEnd
  | EvCommandLine (commandLine : string)
  | EvCommandStart (source : option CommandRunSource) (startedAt : option Z)
  | EvCommandFinish (exitCode : option Z) (finishedAt : option Z)
  | EvTitle (title : TerminalTitle).

Definition DEFAULT_COMMAND_TITLE : string := "shell".

(** The rule that covers a watch key: the key itself, or a bare rule on the
    runner of a [<runner> <script>] key. *)
Definition watchRuleFor (rules : list string) (key : option string) : option string :=
  match key with
  | None => None
  | Some key =>
      if bool_decide (key ∈ rules) then Some key
      else
        match js_before " " key with
        | Some runner => if bool_decide (runner ∈ rules) then Some runner else None
        | None => None
        end
  end.

Record ResolvedCommandStart := mkResolved {
  rawCommandLine : option string;
  res_displayCommand : string;
  res_source : CommandRunSource;
  res_startedAt : Z
}.

Section Resolve.
  Context (summarizeCommandLine : string -> string).

(** [raw] is truthy: a command line was reported, and not an empty one. *)
Definition truthy (raw : option string) : option string :=
  match raw with Some s => if s =s? "" then None else Some s | None => None end.

Definition resolveCommandStart (now : Z) (fallbackTitle : option string)
    (pendingCommandLine : option string) (source : option CommandRunSource) (startedAt : option Z)
    : ResolvedCommandStart :=
  let raw := pendingCommandLine in
  mkResolved raw
    (match truthy raw with
     | Some s => summarizeCommandLine s
     | None => default DEFAULT_COMMAND_TITLE fallbackTitle
     end)
    (if bool_decide (source = Some osc633_boundaries) && bool_decide (is_Some (truthy raw)) then osc633_E
     else default (if bool_decide (is_Some (truthy raw)) then osc633_E else osc133_boundaries) source)
    (default now startedAt).

End Resolve.

(** A rule covers exactly the keys it names and the scripts of the runner it names. *)
Lemma watchRuleFor_covers rules key :
  is_Some (watchRuleFor rules (Some key)) <->
  key ∈ rules \/ exists runner, js_before " " key = Some runner /\ runner ∈ rules.
Proof.
  cbn. case_bool_decide as Hk; [split; [by left|by eexists]|].
  destruct (js_before " " key) as [runner|].
  - case_bool_decide as Hr.
    + split; [right; by exists runner|by eexists].
    + split; [by intros [? ?]|]. intros [?|(r & [= <-] & ?)]; done.
  - split; [by intros [? ?]|]. by intros [?|(r & ? & ?)].
Qed.
