(* ===== verification/AlertModel.v ===== *)
(** * Session activity: the data

    The types of src/lib/src/lib/alert-manager.ts and alert-episode.ts, and the
    functions on them that need no manager: notification details and their rank,
    the sources of a ring, validation of an untyped notification, the cause an
    await wakes on. *)
From Stdlib Require Import ZArith QArith Qround.
From stdpp Require Import pretty.
From S2P Require Import Prelude QuiesceDetector JsValue TerminalState.
#[local] Open Scope string_scope.
#[local] Open Scope Z_scope.

(** ** The constants of src/lib/src/cfg.ts the manager reads *)

Definition cfg_leaveGrace : Z := 1000.
Definition cfg_progressEndGrace : Z := 3000.
Definition cfg_echoWindow : Z := 750.

Inductive SessionStatus :=
  | Quiesce (st : QuiesceStatus)
  | WATCHING_DISABLED
  | ALERT_RINGING
  | OSC_NOTIF_BUSY
  | COMMAND_EXIT_ARMED.

#[export] Instance SessionStatus_eq_dec : EqDecision SessionStatus.
Proof. solve_decision. Defined.

(** ** Notifications *)

Inductive ActivityNotificationSource := OSC_9 | OSC_9_4 | OSC_99 | OSC_777 | BEL | COMMAND_EXIT | WATCHING.

#[export] Instance ActivityNotificationSource_eq_dec : EqDecision ActivityNotificationSource.
Proof. solve_decision. Defined.

Definition source_name (s : ActivityNotificationSource) : string :=
  match s with
  | OSC_9 => "OSC 9" | OSC_9_4 => "OSC 9;4" | OSC_99 => "OSC 99" | OSC_777 => "OSC 777"
  | BEL => "BEL" | COMMAND_EXIT => "COMMAND_EXIT" | WATCHING => "WATCHING"
  end.

Definition ACTIVITY_NOTIFICATION_SOURCES : list ActivityNotificationSource :=
  [OSC_9; OSC_9_4; OSC_99; OSC_777; BEL; COMMAND_EXIT; WATCHING].

Record ActivityNotification := mkNotification {
  n_source : ActivityNotificationSource;
  n_title : option string;
  n_body : option string
}.

#[export] Instance ActivityNotification_eq_dec : EqDecision ActivityNotification.
Proof. solve_decision. Defined.

Definition DETAIL_RANK (s : ActivityNotificationSource) : Z :=
  match s with
  | OSC_9 | OSC_99 | OSC_777 => 4
  | COMMAND_EXIT => 3
  | OSC_9_4 => 2
  | WATCHING => 1
  | BEL => 0
  end.

Definition rank (n : ActivityNotification) : Z := DETAIL_RANK (n_source n).

(** [next], unless [current] says more. *)
Definition richer (current : option ActivityNotification) (next : ActivityNotification) : ActivityNotification :=
  match current with
  | Some c => if rank next <? rank c then c else next
  | None => next
  end.

(** A detail and when it arrived. *)
Record Dated := mkDated { detail : ActivityNotification; arrived : Z }.

(** Keep the richer detail, the later arrival among equals. *)
Definition takeRicher (into : Dated) (d : ActivityNotification) (a : Z) : Dated :=
  let gain := rank d - rank (detail into) in
  if (gain <? 0) || ((gain =? 0) && (a <? arrived into)) then into else mkDated d a.

(** One nullable text field of an untyped notification. *)
Definition normalizeNotificationTextField (v : JsValue) : option string :=
  match js_string v with
  | Some s => let trimmed := js_trim s in if trimmed =s? "" then None else Some trimmed
  | None => None
  end.

Definition source_of_name (s : string) : option ActivityNotificationSource :=
  head (filter (fun src => source_name src = s) ACTIVITY_NOTIFICATION_SOURCES).

Definition normalizeActivityNotification (v : JsValue) : option ActivityNotification :=
  match v with
  | JObject _ =>
      match js_string (js_field "source" v) ≫= source_of_name with
      | None => None
      | Some source =>
          let title := normalizeNotificationTextField (js_field "title" v) in
          let body := normalizeNotificationTextField (js_field "body" v) in
          match title, body with
          | None, None => None
          | _, _ => Some (mkNotification source title body)
          end
      end
  | _ => None
  end.

(** A typed notification as the object it is. *)
Definition notification_value (n : ActivityNotification) : JsValue :=
  JObject [("source", JString (source_name (n_source n)));
           ("title", js_nullable (n_title n)); ("body", js_nullable (n_body n))].

(** ** Progress cycles *)

Inductive ProtocolProgressState := p_clear | p_normal | p_warning | p_indeterminate | p_error.

(** [percent] is a finite number in 0..100. *)
Record ProtocolProgressUpdate := mkUpdate {
  u_state : ProtocolProgressState;
  u_percent : option Q
}.

Inductive ActiveProtocolProgressState := a_normal | a_warning | a_indeterminate.

#[export] Instance ActiveProtocolProgressState_eq_dec : EqDecision ActiveProtocolProgressState.
Proof. solve_decision. Defined.

Inductive ProgressOutcome := complete | po_warning | po_error.

(** [end_timer] is when the grace of a pending end runs out. *)
Record PendingProgressEnd := mkEnd {
  end_outcome : ProgressOutcome;
  end_percent : option Q;
  end_timer : Z
}.

Record ActiveProtocolProgress := mkProgress {
  prog_state : ActiveProtocolProgressState;
  prog_percent : option Q;
  prog_end : option PendingProgressEnd
}.

(** [a === b] on nullable numbers. *)
Definition percent_eqb (a b : option Q) : bool :=
  match a, b with
  | Some x, Some y => Qeq_bool x y
  | None, None => true
  | _, _ => false
  end.

(** The titles of a finished cycle: after the running command, or on its own. *)
Definition PROGRESS_TITLES (o : ProgressOutcome) : string * string :=
  match o with
  | complete => ("finished", "Progress complete")
  | po_warning => ("finished with a warning", "Progress warning")
  | po_error => ("reported an error", "Progress error")
  end.

(** ** Rings *)

Inductive ListedRingSource := exit_ | report.

#[export] Instance ListedRingSource_eq_dec : EqDecision ListedRingSource.
Proof. solve_decision. Defined.

Inductive RingSource := Rwatching | Rlisted (s : ListedRingSource).

(** The listed sources in escalation order. *)
Definition LISTED_RING_SOURCES : list ListedRingSource := [exit_; report].

Record WatchingSource := mkWatching { key : string; workSince : bool }.

(** What joins a ring: [ListedRingSource | WatchingSource]. *)
Inductive Joining := JoinListed (s : ListedRingSource) | JoinWatching (w : WatchingSource).

Record SourceSet := mkSources {
  sources : list ListedRingSource;
  watching : option WatchingSource
}.

Definition addSource (set : SourceSet) (source : Joining) : SourceSet :=
  match source with
  | JoinWatching w => mkSources (sources set) (Some w)
  | JoinListed s => if bool_decide (s ∈ sources set) then set else mkSources (sources set ++ [s]) (watching set)
  end.

(** Every source a set holds, in the order they are visited. *)
Definition eachSource (set : SourceSet) : list Joining :=
  match watching set with Some w => [JoinWatching w] | None => [] end ++
  map JoinListed (filter (fun s => s ∈ sources set) LISTED_RING_SOURCES).

(** Take [watching] off a set; the result says whether that left it empty. *)
Definition dropWatching (set : SourceSet) : SourceSet * bool :=
  (mkSources (sources set) None, bool_decide (sources set = [])).

Record AlertEpisode := mkEpisode { ep_id : string; startedAt : Z }.

#[export] Instance AlertEpisode_eq_dec : EqDecision AlertEpisode.
Proof. solve_decision. Defined.

Record Ring := mkRing { episode : AlertEpisode; ring_set : SourceSet; ring_dated : Dated }.

Record HeldCompletion := mkHeld { held_set : SourceSet; held_dated : Dated }.

Record CommandExitWatch := mkExitWatch {
  displayCommand : string;
  watchKey : option string;
  watch_source : CommandRunSource;
  seen : bool
}.

Inductive EngagementLapse := idle | leave.

(** ** Completions and awaits *)

Inductive CompletionEvent :=
  | Csettled
  | CcommandFinished (displayCommand : string) (watchKey : option string) (exitCode : option Z) (seen : bool)
  | Cnotification (notification : ActivityNotification).

Inductive AwaitUntil := until_quiet | until_exit.

#[export] Instance AwaitUntil_eq_dec : EqDecision AwaitUntil.
Proof. solve_decision. Defined.

Inductive AwaitCause := cause_quiet | cause_exit | cause_bell | cause_idle.

Inductive AwaitOutcome :=
  | resolved (cause : AwaitCause) (waitedMs : Z)
  | timeout (waitedMs : Z)
  | died (waitedMs : Z)
  | cancelled (waitedMs : Z).

Definition AWAIT_GRACE_MS : Z := cfg_busyCandidateGap + cfg_busyConfirmGap.
Definition MAX_AWAIT_TIMEOUT_MS : Z := 24 * 60 * 60 * 1000.

(** A parked await: its number, the caller's condition, when it began, and when
    its grace and its ceiling run out. *)
Record AwaitWaiter := mkWaiter {
  w_id : nat;
  w_until : AwaitUntil;
  w_startedAt : Z;
  w_grace : option Z;
  w_timeout : Z
}.

Definition awaitCauseFor (until : AwaitUntil) (event : CompletionEvent) : option AwaitCause :=
  match event with
  | CcommandFinished _ _ _ _ => Some cause_exit
  | Csettled => match until with until_exit => None | until_quiet => Some cause_quiet end
  | Cnotification _ => match until with until_exit => None | until_quiet => Some cause_bell end
  end.

(** ** The published state *)

Record AlertState := mkState {
  st_episode : option AlertEpisode;
  st_status : SessionStatus;
  st_watchingEnabled : bool;
  st_todo : bool;
  st_notification : option ActivityNotification;
  st_awaited : bool
}.

Definition DEFAULT_ALERT_STATE : AlertState :=
  mkState None WATCHING_DISABLED false false None false.

Definition alertStatesEqual (a b : AlertState) : bool :=
  bool_decide (st_status a = st_status b) && Bool.eqb (st_watchingEnabled a) (st_watchingEnabled b) &&
  Bool.eqb (st_todo a) (st_todo b) && Bool.eqb (st_awaited a) (st_awaited b) &&
  bool_decide (ep_id <$> st_episode a = ep_id <$> st_episode b) &&
  bool_decide (st_notification a = st_notification b).

(** One Session.  [leaveGrace] is when its pending grace runs out. *)
Record AlertEntry := mkEntry {
  detector : Detector;
  ring : option Ring;
  ackedQuiet : bool;
  progress : option ActiveProtocolProgress;
  commandExitWatch : option CommandExitWatch;
  pendingCommandLine : option string;
  todo : bool;
  notification : option ActivityNotification;
  held : option HeldCompletion;
  leaveGrace : option Z;
  echoUntil : Z
}.

Definition new_entry : AlertEntry :=
  mkEntry new_detector None false None None None false None None None 0.

(** ** Assignments to the fields of an entry *)

Definition set_detector (x : Detector) (e : AlertEntry) : AlertEntry :=
  mkEntry x (ring e) (ackedQuiet e) (progress e) (commandExitWatch e) (pendingCommandLine e) (todo e) (notification e) (held e) (leaveGrace e) (echoUntil e).
Definition set_ring (x : option Ring) (e : AlertEntry) : AlertEntry :=
  mkEntry (detector e) x (ackedQuiet e) (progress e) (commandExitWatch e) (pendingCommandLine e) (todo e) (notification e) (held e) (leaveGrace e) (echoUntil e).
Definition set_acked (x : bool) (e : AlertEntry) : AlertEntry :=
  mkEntry (detector e) (ring e) x (progress e) (commandExitWatch e) (pendingCommandLine e) (todo e) (notification e) (held e) (leaveGrace e) (echoUntil e).
Definition set_progress (x : option ActiveProtocolProgress) (e : AlertEntry) : AlertEntry :=
  mkEntry (detector e) (ring e) (ackedQuiet e) x (commandExitWatch e) (pendingCommandLine e) (todo e) (notification e) (held e) (leaveGrace e) (echoUntil e).
Definition set_exitWatch (x : option CommandExitWatch) (e : AlertEntry) : AlertEntry :=
  mkEntry (detector e) (ring e) (ackedQuiet e) (progress e) x (pendingCommandLine e) (todo e) (notification e) (held e) (leaveGrace e) (echoUntil e).
Definition set_pending (x : option string) (e : AlertEntry) : AlertEntry :=
  mkEntry (detector e) (ring e) (ackedQuiet e) (progress e) (commandExitWatch e) x (todo e) (notification e) (held e) (leaveGrace e) (echoUntil e).
Definition set_todo (x : bool) (e : AlertEntry) : AlertEntry :=
  mkEntry (detector e) (ring e) (ackedQuiet e) (progress e) (commandExitWatch e) (pendingCommandLine e) x (notification e) (held e) (leaveGrace e) (echoUntil e).
Definition set_notification (x : option ActivityNotification) (e : AlertEntry) : AlertEntry :=
  mkEntry (detector e) (ring e) (ackedQuiet e) (progress e) (commandExitWatch e) (pendingCommandLine e) (todo e) x (held e) (leaveGrace e) (echoUntil e).
Definition set_held (x : option HeldCompletion) (e : AlertEntry) : AlertEntry :=
  mkEntry (detector e) (ring e) (ackedQuiet e) (progress e) (commandExitWatch e) (pendingCommandLine e) (todo e) (notification e) x (leaveGrace e) (echoUntil e).
Definition set_leaveGrace (x : option Z) (e : AlertEntry) : AlertEntry :=
  mkEntry (detector e) (ring e) (ackedQuiet e) (progress e) (commandExitWatch e) (pendingCommandLine e) (todo e) (notification e) (held e) x (echoUntil e).
Definition set_echoUntil (x : Z) (e : AlertEntry) : AlertEntry :=
  mkEntry (detector e) (ring e) (ackedQuiet e) (progress e) (commandExitWatch e) (pendingCommandLine e) (todo e) (notification e) (held e) (leaveGrace e) x.

(** ** The entry's own methods

    The private methods of the manager that touch one entry and nothing else. *)

(** A report about the state the user just acknowledged. *)
Definition updateReceipt (d : ActivityNotification) (e : AlertEntry) : AlertEntry :=
  if todo e then set_notification (Some (richer (notification e) d)) e else e.

(** Start the detector over: a [watching] source was answered. *)
Definition answeredWatching (e : AlertEntry) : AlertEntry :=
  set_detector (reset (detector e)) e.

Definition withdraw_ring (voids : string -> bool) (e : AlertEntry) : AlertEntry :=
  match ring e with
  | Some r =>
      match watching (ring_set r) with
      | Some w =>
          if voids (key w) then
            let (set, empty) := dropWatching (ring_set r) in
            set_ring (if empty : bool then None else Some (mkRing (episode r) set (ring_dated r))) e
          else e
      | None => e
      end
  | None => e
  end.

Definition withdraw_held (voids : string -> bool) (e : AlertEntry) : AlertEntry :=
  match held e with
  | Some h =>
      match watching (held_set h) with
      | Some w =>
          if voids (key w) then
            let (set, empty) := dropWatching (held_set h) in
            set_held (if empty : bool then None else Some (mkHeld set (held_dated h))) e
          else e
      | None => e
      end
  | None => e
  end.

(** Void the [watching] source whose key [voids] names, ringing or held alike. *)
Definition invalidateWatching (voids : string -> bool) (e : AlertEntry) : AlertEntry :=
  withdraw_held voids (withdraw_ring voids e).

(** An await answers one source, taking it off the ring. *)
Definition withdrawRingSource (source : RingSource) (e : AlertEntry) : AlertEntry * bool :=
  match ring e with
  | None => (e, false)
  | Some r =>
      match source with
      | Rwatching =>
          match watching (ring_set r) with
          | None => (e, false)
          | Some _ =>
              let (set, empty) := dropWatching (ring_set r) in
              (answeredWatching (set_ring (if empty : bool then None else Some (mkRing (episode r) set (ring_dated r))) e), true)
          end
      | Rlisted s =>
          if negb (bool_decide (s ∈ sources (ring_set r))) then (e, false)
          else
            let set := mkSources (filter (fun c => c <> s) (sources (ring_set r))) (watching (ring_set r)) in
            let empty := bool_decide (sources set = []) && bool_decide (watching set = None) in
            (set_ring (if empty : bool then None else Some (mkRing (episode r) set (ring_dated r))) e, true)
      end
  end.

(** Consume the one source an await arriving now would resolve on. *)
Definition consumeAwaitableRing (until : AwaitUntil) (e : AlertEntry) : AlertEntry * option AwaitCause :=
  let quiet := bool_decide (until = until_quiet) in
  let (e1, bell) := if quiet then withdrawRingSource (Rlisted report) e else (e, false) in
  if bell then (e1, Some cause_bell)
  else
    let (e2, exited) := if bool_decide (commandExitWatch e1 = None) then withdrawRingSource (Rlisted exit_) e1 else (e1, false) in
    if exited then (e2, Some cause_exit)
    else
      let since := match ring e2 with Some r => workSince <$> watching (ring_set r) | None => None end in
      let (e3, was_quiet) := if quiet && bool_decide (since = Some false) then withdrawRingSource Rwatching e2 else (e2, false) in
      if was_quiet then (e3, Some cause_quiet) else (e3, None).

(** A user verb stops the summons; the ring it cleared is for the caller. *)
Definition clearRingForUser (e : AlertEntry) : AlertEntry * option Ring :=
  match ring e, held e with
  | None, None => (e, None)
  | r, h =>
      let watched := match r with Some r => bool_decide (is_Some (watching (ring_set r))) | None => false end ||
                     match h with Some h => bool_decide (is_Some (watching (held_set h))) | None => false end in
      let e1 := set_acked true (set_held None (set_ring None e)) in
      (if watched then answeredWatching e1 else e1, r)
  end.

(** A look at a ring: it becomes a TODO showing what the ring showed. *)
Definition ringToTodo (r : option Ring) (e : AlertEntry) : AlertEntry :=
  match r with
  | None => e
  | Some r => set_notification (Some (detail (ring_dated r))) (set_todo true e)
  end.

Definition cancelProgressEnd (e : AlertEntry) : AlertEntry :=
  match progress e with
  | Some p => set_progress (Some (mkProgress (prog_state p) (prog_percent p) None)) e
  | None => e
  end.

(** A run ended: a cycle never closed goes with it, and the detector starts over. *)
Definition endRun (e : AlertEntry) : AlertEntry :=
  let e := cancelProgressEnd e in
  let e := set_progress None e in
  set_detector (reset (detector e)) e.

Definition endLeaveGrace (e : AlertEntry) : AlertEntry := set_leaveGrace None e.

(** Stop everything that could still fire for an entry on its way out. *)
Definition disposeEntry (e : AlertEntry) : AlertEntry :=
  cancelProgressEnd (endLeaveGrace (set_detector (dispose (detector e)) e)).

Definition markSeen (e : AlertEntry) : AlertEntry :=
  match commandExitWatch e with
  | Some w => set_exitWatch (Some (mkExitWatch (displayCommand w) (watchKey w) (watch_source w) true)) e
  | None => e
  end.

(** The user is looking: the completion is a TODO already, kept to ring later. *)
Definition hold (source : Joining) (d : ActivityNotification) (a : Z) (e : AlertEntry) : AlertEntry :=
  let h := default (mkHeld (mkSources [] None) (mkDated d a)) (held e) in
  let h := mkHeld (addSource (held_set h) source) (takeRicher (held_dated h) d a) in
  set_notification (Some (richer (notification e) d)) (set_todo true (set_held (Some h) e)).

(** What work tells the sources that joined before it. *)
Definition mark_work (set : SourceSet) : SourceSet :=
  mkSources (sources set) ((fun w => mkWatching (key w) true) <$> watching set).

Definition note_work_entry (e : AlertEntry) : AlertEntry :=
  set_acked false
    (set_held ((fun h => mkHeld (mark_work (held_set h)) (held_dated h)) <$> held e)
      (set_ring ((fun r => mkRing (episode r) (mark_work (ring_set r)) (ring_dated r)) <$> ring e) e)).

(** ** Messages *)

(** Names the running command when there is one. *)
Definition progressTitle (watch : option CommandExitWatch) (outcome : ProgressOutcome) : string :=
  let titles := PROGRESS_TITLES outcome in
  match watch with
  | None => titles.2
  | Some w => (default (displayCommand w) (watchKey w) +:+ " " +:+ titles.1)%string
  end.

Definition formatCommandExitBody (command : string) (exitCode : option Z) : string :=
  let command := js_or (js_trim command) DEFAULT_COMMAND_TITLE in
  match exitCode with
  | None => command
  | Some c => (command +:+ " exited " +:+ pretty c)%string
  end.

(** [`Progress ${Math.round(percent)}%`]. *)
Definition progress_body (percent : option Q) : option string :=
  (fun p => "Progress " +:+ pretty (Qfloor (p + (1 # 2))) +:+ "%")%string <$> percent.
