(* ===== verification/AlertManager.v ===== *)
(** * The alert manager

    [AlertManager] of src/lib/src/lib/alert-manager.ts.  A method is a function
    from the manager to the manager; [now] is the time it reads from the clock.
    Listeners are told and settled promises are recorded in [effects], the latest
    first; a pending [setTimeout] is the due time kept where the source keeps its
    handle.  Listeners and foreign claimants do not call the manager back. *)
From Stdlib Require Import ZArith QArith.
From stdpp Require Import pretty.
From S2P Require Import Prelude QuiesceDetector JsValue TerminalState AlertModel.
#[local] Open Scope Z_scope.

(** What the manager calls that is not its own: fresh identifiers, the command
    line readers of terminal-state.ts, the input classifier of
    terminal-report-filter.ts, and the answers of claimants other than awaits. *)
Class AlertEnv := {
  randomUUID : nat -> string;
  summarizeCommandLine : string -> string;
  commandWatchKey : string -> option string;
  inputCanStartWork : string -> bool -> bool;
  foreignClaim : nat -> CompletionEvent -> bool
}.

(** A registered claimant: the one the awaits of a Session share, or another. *)
Inductive Claimant := AwaitClaimant | ForeignClaimant (k : nat).

#[export] Instance Claimant_eq_dec : EqDecision Claimant.
Proof. solve_decision. Defined.

(** What the outside sees: a state published to the listeners of that moment, a
    removal told to the remove listeners, an await's promise settled. *)
Inductive Effect :=
  | Published (listeners : list nat) (id : string) (st : AlertState)
  | Removed (listeners : list nat) (id : string)
  | Outcome (waiter : nat) (outcome : AwaitOutcome).

Record Manager := mkManager {
  entries : list (string * AlertEntry);
  removed : gset string;
  claimants : gmap string (list Claimant);
  awaits : list (string * list AwaitWaiter);
  viewers : list (string * option string);
  listeners : list nat;
  removeListeners : list nat;
  lastEmitted : gmap string AlertState;
  watchedCommands : list string;
  arrivals : Z;
  helpers : gset string;
  uuids : nat;
  waiters : nat;
  effects : list Effect
}.

Definition new_manager : Manager :=
  mkManager [] ∅ ∅ [] [] [] [] ∅ [] 0 ∅ 0 0 [].

(** ** Assignments to the fields *)

Definition set_entries x (m : Manager) : Manager :=
  mkManager x (removed m) (claimants m) (awaits m) (viewers m) (listeners m) (removeListeners m) (lastEmitted m) (watchedCommands m) (arrivals m) (helpers m) (uuids m) (waiters m) (effects m).
Definition set_removed x (m : Manager) : Manager :=
  mkManager (entries m) x (claimants m) (awaits m) (viewers m) (listeners m) (removeListeners m) (lastEmitted m) (watchedCommands m) (arrivals m) (helpers m) (uuids m) (waiters m) (effects m).
Definition set_claimants x (m : Manager) : Manager :=
  mkManager (entries m) (removed m) x (awaits m) (viewers m) (listeners m) (removeListeners m) (lastEmitted m) (watchedCommands m) (arrivals m) (helpers m) (uuids m) (waiters m) (effects m).
Definition set_awaits x (m : Manager) : Manager :=
  mkManager (entries m) (removed m) (claimants m) x (viewers m) (listeners m) (removeListeners m) (lastEmitted m) (watchedCommands m) (arrivals m) (helpers m) (uuids m) (waiters m) (effects m).
Definition set_viewers x (m : Manager) : Manager :=
  mkManager (entries m) (removed m) (claimants m) (awaits m) x (listeners m) (removeListeners m) (lastEmitted m) (watchedCommands m) (arrivals m) (helpers m) (uuids m) (waiters m) (effects m).
Definition set_listeners x (m : Manager) : Manager :=
  mkManager (entries m) (removed m) (claimants m) (awaits m) (viewers m) x (removeListeners m) (lastEmitted m) (watchedCommands m) (arrivals m) (helpers m) (uuids m) (waiters m) (effects m).
Definition set_removeListeners x (m : Manager) : Manager :=
  mkManager (entries m) (removed m) (claimants m) (awaits m) (viewers m) (listeners m) x (lastEmitted m) (watchedCommands m) (arrivals m) (helpers m) (uuids m) (waiters m) (effects m).
Definition set_lastEmitted x (m : Manager) : Manager :=
  mkManager (entries m) (removed m) (claimants m) (awaits m) (viewers m) (listeners m) (removeListeners m) x (watchedCommands m) (arrivals m) (helpers m) (uuids m) (waiters m) (effects m).
Definition set_watchedCommands x (m : Manager) : Manager :=
  mkManager (entries m) (removed m) (claimants m) (awaits m) (viewers m) (listeners m) (removeListeners m) (lastEmitted m) x (arrivals m) (helpers m) (uuids m) (waiters m) (effects m).
Definition set_arrivals x (m : Manager) : Manager :=
  mkManager (entries m) (removed m) (claimants m) (awaits m) (viewers m) (listeners m) (removeListeners m) (lastEmitted m) (watchedCommands m) x (helpers m) (uuids m) (waiters m) (effects m).
Definition set_helpers x (m : Manager) : Manager :=
  mkManager (entries m) (removed m) (claimants m) (awaits m) (viewers m) (listeners m) (removeListeners m) (lastEmitted m) (watchedCommands m) (arrivals m) x (uuids m) (waiters m) (effects m).
Definition set_uuids x (m : Manager) : Manager :=
  mkManager (entries m) (removed m) (claimants m) (awaits m) (viewers m) (listeners m) (removeListeners m) (lastEmitted m) (watchedCommands m) (arrivals m) (helpers m) x (waiters m) (effects m).
Definition set_waiters x (m : Manager) : Manager :=
  mkManager (entries m) (removed m) (claimants m) (awaits m) (viewers m) (listeners m) (removeListeners m) (lastEmitted m) (watchedCommands m) (arrivals m) (helpers m) (uuids m) x (effects m).
Definition emit (x : Effect) (m : Manager) : Manager :=
  mkManager (entries m) (removed m) (claimants m) (awaits m) (viewers m) (listeners m) (removeListeners m) (lastEmitted m) (watchedCommands m) (arrivals m) (helpers m) (uuids m) (waiters m) (x :: effects m).

Module Alert.
Section Manager.
  Context `{Env : AlertEnv} (now : Z).
  Implicit Types (m : Manager) (e : AlertEntry) (id : string).

(** The entry kept under [id], and an assignment to it where there is one. *)
Definition entry_at id m : option AlertEntry := omap_get id (entries m).
Definition on_entry id (f : AlertEntry -> AlertEntry) m : Manager :=
  match entry_at id m with
  | Some e => set_entries (omap_set id (f e) (entries m)) m
  | None => m
  end.

(** ** Queries *)

Definition isEngaged id m : bool := existsb (fun v => bool_decide (v.2 = Some id)) (viewers m).
Definition inert id m : bool := bool_decide (id ∈ helpers m).
Definition inEchoWindow e : bool := now <? echoUntil e.
Definition isWatching e m : bool :=
  bool_decide (is_Some (watchRuleFor (watchedCommands m) (commandExitWatch e ≫= watchKey))).

Definition getProjectedStatus id e m : SessionStatus :=
  if bool_decide (ring e = None) then
    if bool_decide (progress e = None) then
      if isWatching e m then Quiesce (status (detector e))
      else if default false (seen <$> commandExitWatch e) && negb (isEngaged id m) then COMMAND_EXIT_ARMED
      else WATCHING_DISABLED
    else OSC_NOTIF_BUSY
  else ALERT_RINGING.

Definition parked id m : list AwaitWaiter := default [] (omap_get id (awaits m)).

Definition getState id m : AlertState :=
  match entry_at id m with
  | Some e =>
      if inert id m then DEFAULT_ALERT_STATE
      else mkState (episode <$> ring e) (getProjectedStatus id e m) (isWatching e m) (todo e)
             (match ring e with Some r => Some (detail (ring_dated r)) | None => notification e end)
             (0 <? length (parked id m))%nat
  | None => DEFAULT_ALERT_STATE
  end.

Definition has id m : bool := bool_decide (is_Some (entry_at id m)) && negb (inert id m).

Definition getAllStates m : list (string * AlertState) :=
  map (fun id => (id, getState id m)) (filter (fun id => id ∉ helpers m) (map fst (entries m))).

Definition viewerIds m : list string := map fst (viewers m).

Definition getWatchedCommands m : list string := merge_sort (fun a b => Is_true (String.leb a b)) (watchedCommands m).

(** Tell the listeners the state of [id], if it changed. *)
Definition notify id m : Manager :=
  let state := getState id m in
  if match lastEmitted m !! id with
     | Some last => alertStatesEqual last state
     | None => inert id m
     end
  then m
  else
    let m := set_lastEmitted
      (if bool_decide (is_Some (entry_at id m)) then <[id := state]> (lastEmitted m) else delete id (lastEmitted m)) m in
    emit (Published (listeners m) id state) m.

(** ** Listeners and helpers *)

Definition onStateChange (k : nat) m : Manager := set_listeners (if bool_decide (k ∈ listeners m) then listeners m else listeners m ++ [k]) m.
Definition offStateChange (k : nat) m : Manager := set_listeners (filter (fun l => l <> k) (listeners m)) m.
Definition onRemove (k : nat) m : Manager := set_removeListeners (if bool_decide (k ∈ removeListeners m) then removeListeners m else removeListeners m ++ [k]) m.
Definition offRemove (k : nat) m : Manager := set_removeListeners (filter (fun l => l <> k) (removeListeners m)) m.

Definition setHelper id (helper : bool) m : Manager :=
  let m := set_helpers (if helper then {[id]} ∪ helpers m else helpers m ∖ {[id]}) m in
  if bool_decide (is_Some (entry_at id m)) then notify id m else m.

(** ** Entries *)

Definition getOrCreateEntry id m : Manager :=
  match entry_at id m with
  | Some _ => m
  | None => set_entries (omap_set id new_entry (entries m)) m
  end.

(** The entry a raw-output event feeds: none once the Session is removed. *)
Definition streamEntry id m : Manager * bool :=
  if bool_decide (id ∈ removed m) then (m, false) else (getOrCreateEntry id m, true).

(** The entry a semantic or protocol event feeds, which retires the tombstone. *)
Definition reportedEntry id m : Manager :=
  getOrCreateEntry id (set_removed (removed m ∖ {[id]}) m).

(** ** Claimants and awaits *)

Definition claimants_of id m : list Claimant := default [] (claimants m !! id).

Definition registerCompletionClaimant id (c : Claimant) m : Manager :=
  let cs := claimants_of id m in
  set_claimants (<[id := if bool_decide (c ∈ cs) then cs else cs ++ [c]]> (claimants m)) m.

Definition unregister id (c : Claimant) m : Manager :=
  match claimants m !! id with
  | None => m
  | Some cs =>
      let cs := filter (fun c' => c' <> c) cs in
      set_claimants (if bool_decide (cs = []) then delete id (claimants m) else <[id := cs]> (claimants m)) m
  end.

Definition addWaiter id (w : AwaitWaiter) m : Manager :=
  match omap_get id (awaits m) with
  | Some group => set_awaits (omap_set id (group ++ [w]) (awaits m)) m
  | None =>
      let m := registerCompletionClaimant id AwaitClaimant m in
      set_awaits (omap_set id [w] (awaits m)) m
  end.

Definition dropWaiter id (k : nat) m : Manager :=
  match omap_get id (awaits m) with
  | None => m
  | Some group =>
      if existsb (fun w => bool_decide (w_id w = k)) group then
        let group := filter (fun w => w_id w <> k) group in
        match group with
        | [] => unregister id AwaitClaimant (set_awaits (omap_delete id (awaits m)) m)
        | _ => set_awaits (omap_set id group (awaits m)) m
        end
      else m
  end.

(** The await numbered [k], while it is parked on [id]. *)
Definition waiter_at id (k : nat) m : option AwaitWaiter :=
  head (filter (fun w => w_id w = k) (parked id m)).

(** Settle a parked await once, with what [outcome] makes of the time it waited. *)
Definition settle id (k : nat) (outcome : Z -> AwaitOutcome) m : Manager :=
  match waiter_at id k m with
  | None => m
  | Some w =>
      let m := dropWaiter id k m in
      let m := emit (Outcome k (outcome (now - w_startedAt w))) m in
      notify id m
  end.

(** The claimant the awaits of [id] share: every await that wakes on the event
    is settled, and any of them claims it. *)
Definition offer id (event : CompletionEvent) (w : AwaitWaiter) (mc : Manager * bool) : Manager * bool :=
  match awaitCauseFor (w_until w) event with
  | Some cause => (settle id (w_id w) (resolved cause) mc.1, true)
  | None => mc
  end.

Definition offer_all id (event : CompletionEvent) m : Manager * bool :=
  foldl (fun mc w => offer id event w mc) (m, false) (parked id m).

Definition claim_one id (event : CompletionEvent) (c : Claimant) m : Manager * bool :=
  match c with
  | AwaitClaimant => offer_all id event m
  | ForeignClaimant k => (m, foreignClaim k event)
  end.

(** [claimants.some((claimant) => claimant(event))]. *)
Fixpoint claim id (event : CompletionEvent) (cs : list Claimant) m : Manager * bool :=
  match cs with
  | [] => (m, false)
  | c :: cs' =>
      let (m, claimed) := claim_one id event c m in
      if claimed : bool then (m, true) else claim id event cs' m
  end.

(** Visit each parked await: the output, and the command start, that answer its grace. *)
Definition eachWaiter id (f : AwaitWaiter -> AwaitWaiter) m : Manager :=
  match omap_get id (awaits m) with
  | Some group => set_awaits (omap_set id (map f group) (awaits m)) m
  | None => m
  end.

Definition clearGrace (w : AwaitWaiter) : AwaitWaiter :=
  mkWaiter (w_id w) (w_until w) (w_startedAt w) None (w_timeout w).

Definition onOutput (w : AwaitWaiter) : AwaitWaiter :=
  if bool_decide (w_until w = until_quiet) then clearGrace w else w.

Definition onCommandStart (w : AwaitWaiter) : AwaitWaiter := clearGrace w.

Definition settleWaiters id (how : Z -> AwaitOutcome) m : Manager :=
  foldl (fun m w => settle id (w_id w) how m) m (parked id m).

(** ** From a completion to a ring *)

Definition raiseRing id (source : Joining) (d : ActivityNotification) (a : Z) m : Manager :=
  match entry_at id m with
  | None => m
  | Some e =>
      match ring e with
      | None =>
          let r := mkRing (mkEpisode (randomUUID (uuids m)) now) (addSource (mkSources [] None) source) (mkDated d a) in
          on_entry id (fun e => set_acked false (set_ring (Some r) e)) (set_uuids (S (uuids m)) m)
      | Some r =>
          on_entry id (set_ring (Some (mkRing (episode r) (addSource (ring_set r) source) (takeRicher (ring_dated r) d a)))) m
      end
  end.

(** The path from a completion that may ring to the ring; an escalated hold
    passes the arrival it kept. *)
Definition holdOrDeliver id (source : Joining) (d : ActivityNotification) (kept : option Z) m : Manager :=
  let m := match kept with Some _ => m | None => set_arrivals (arrivals m + 1) m end in
  let a := default (arrivals m) kept in
  let acked := default false (ackedQuiet <$> entry_at id m) in
  let m :=
    if isEngaged id m then on_entry id (hold source d a) m
    else if match source with JoinListed report => acked | _ => false end then
      match kept with None => on_entry id (updateReceipt d) m | Some _ => m end
    else raiseRing id source d a m in
  notify id m.

(** Observe, claim, ring: the result says whether a claimant took the event. *)
Definition dispatchCompletion id (event : CompletionEvent) m : Manager * bool :=
  if inert id m then (m, false)
  else
    let (m, claimed) := claim id event (claimants_of id m) m in
    if claimed : bool then (m, true)
    else
      match entry_at id m with
      | None => (m, false)
      | Some e =>
          if inEchoWindow e then (notify id m, false)
          else
            (match event with
             | Csettled =>
                 match truthy (commandExitWatch e ≫= watchKey) with
                 | Some k =>
                     if isWatching e m
                     then holdOrDeliver id (JoinWatching (mkWatching k false))
                            (mkNotification WATCHING (Some (k +:+ " went quiet")%string) None) None m
                     else m
                 | None => m
                 end
             | CcommandFinished command _ exitCode was_seen =>
                 if was_seen
                 then holdOrDeliver id (JoinListed exit_)
                        (mkNotification COMMAND_EXIT (Some "Command finished"%string) (Some (formatCommandExitBody command exitCode))) None m
                 else m
             | Cnotification n => holdOrDeliver id (JoinListed report) n None m
             end, false)
      end.

(** A busy Session went quiet. *)
Definition onSettled id m : Manager :=
  match entry_at id m with
  | None => m
  | Some e =>
      if bool_decide (progress e = None) then
        let (m, claimed) := dispatchCompletion id Csettled m in
        if claimed : bool then notify id (on_entry id (invalidateWatching (fun _ => true)) m) else m
      else m
  end.

(** What the manager lends the detector of [id]. *)
Definition host id : DetectorHost Manager := {|
  get_det m := default new_detector (detector <$> entry_at id m);
  set_det d := on_entry id (set_detector d);
  QuiesceDetector.onChange _ := notify id;
  QuiesceDetector.onSettled := onSettled id
|}.

(** ** PTY events *)

(** The program worked. *)
Definition noteWork id m : Manager := eachWaiter id onOutput (on_entry id note_work_entry m).

Definition onData id m : Manager :=
  let (m, live) := streamEntry id m in
  if live : bool then
    match entry_at id m with
    | None => m
    | Some e =>
        if inEchoWindow e then m
        else
          let (m, counted) := QuiesceDetector.onData (H := host id) now m in
          if counted : bool then noteWork id m else m
    end
  else m.

(** ** Command exits and progress cycles *)

(** A pending end counts now: the cycle is cleared before its event is dispatched. *)
Definition settleProgressEnd id m : Manager :=
  match (entry_at id m ≫= progress) ≫= prog_end with
  | None => m
  | Some end_ =>
      let m := on_entry id endRun m in
      let watch := entry_at id m ≫= commandExitWatch in
      let (m, claimed) := dispatchCompletion id
        (Cnotification (mkNotification OSC_9_4 (Some (progressTitle watch (end_outcome end_))) (progress_body (end_percent end_)))) m in
      if claimed : bool then notify id m else m
  end.

(** A command boundary; the result says whether it ended a cycle silently. *)
Definition endRunAtBoundary id m : Manager * bool :=
  let m := settleProgressEnd id m in
  let silent := bool_decide (is_Some (entry_at id m ≫= progress)) in
  (on_entry id endRun m, silent).

Definition startCommandExitWatch id (source : option CommandRunSource) (startedAt : option Z) m : Manager :=
  let (m, _) := endRunAtBoundary id m in
  let resolved := resolveCommandStart summarizeCommandLine now None (entry_at id m ≫= pendingCommandLine) source startedAt in
  let watch := mkExitWatch (res_displayCommand resolved) (rawCommandLine resolved ≫= commandWatchKey)
                 (res_source resolved) (isEngaged id m) in
  let m := on_entry id (fun e => set_exitWatch (Some watch) (set_acked false (set_pending None e))) m in
  eachWaiter id onCommandStart m.

Definition finishCommandExitWatch id (exitCode : option Z) m : Manager * bool :=
  let (m, endedProgress) := endRunAtBoundary id m in
  let watch := entry_at id m ≫= commandExitWatch in
  let m := on_entry id (fun e => set_pending None (set_exitWatch None e)) m in
  match watch with
  | Some w => ((dispatchCompletion id (CcommandFinished (displayCommand w) (watchKey w) exitCode (seen w)) m).1, true)
  | None => (m, endedProgress)
  end.

Definition onExit id (exitCode : option Z) m : Manager :=
  let m :=
    match entry_at id m with
    | Some _ =>
        let (m, changed) := finishCommandExitWatch id exitCode m in
        if changed : bool then notify id m else m
    | None => m
    end in
  settleWaiters id died m.

(** One semantic event; the result says whether anything changed. *)
Definition apply_event id (event : TerminalSemanticEvent) (mc : Manager * bool) : Manager * bool :=
  let (m, changed) := mc in
  match event with
  | EvCommandLine line =>
      if bool_decide ((entry_at id m ≫= pendingCommandLine) = Some line) then (m, changed)
      else (on_entry id (set_pending (Some line)) m, true)
  | EvCommandStart source startedAt => (startCommandExitWatch id source startedAt m, true)
  | EvCommandFinish exitCode _ =>
      let (m, c) := finishCommandExitWatch id exitCode m in (m, c || changed)
  | EvPromptStart | EvPromptEnd =>
      let (m, c) := finishCommandExitWatch id None m in (m, c || changed)
  | EvCwd _ | EvTitle _ => (m, changed)
  end.

Definition applyTerminalSemanticEvents id (events : list TerminalSemanticEvent) m : Manager :=
  match events with
  | [] => m
  | _ =>
      let m := reportedEntry id m in
      let (m, changed) := foldl (fun mc ev => apply_event id ev mc) (m, false) events in
      if changed : bool then notify id m else m
  end.

(** ** Terminal reports *)

Definition notifyFromProtocol id (n : ActivityNotification) m : Manager :=
  if inert id m then m
  else
    let m := reportedEntry id m in
    match normalizeActivityNotification (notification_value n) with
    | None => m
    | Some normalized => (dispatchCompletion id (Cnotification normalized) m).1
    end.

(** An update that ends a cycle. *)
Definition ends_cycle (u : ProtocolProgressUpdate) : bool :=
  match u_state u with
  | p_clear | p_error => true
  | p_normal => percent_eqb (u_percent u) (Some 100%Q)
  | _ => false
  end.

Definition end_of_cycle (u : ProtocolProgressUpdate) (live : ActiveProtocolProgress) : PendingProgressEnd :=
  mkEnd
    (match u_state u with
     | p_error => po_error
     | _ => match prog_state live with a_warning => po_warning | _ => complete end
     end)
    (match u_state u with p_clear => prog_percent live | _ => u_percent u end)
    (now + cfg_progressEndGrace).

(** The state of an update that moves a cycle. *)
Definition active_state (u : ProtocolProgressUpdate) : ActiveProtocolProgressState :=
  match u_state u with p_warning => a_warning | p_indeterminate => a_indeterminate | _ => a_normal end.

Definition updateProtocolProgress id (u : ProtocolProgressUpdate) m : Manager :=
  if inert id m then m
  else
    let m := reportedEntry id m in
    let live := entry_at id m ≫= progress in
    if ends_cycle u then
      match live with
      | Some p =>
          match prog_end p with
          | Some _ => m
          | None => on_entry id (set_progress (Some (mkProgress (prog_state p) (prog_percent p) (Some (end_of_cycle u p))))) m
          end
      | None => m
      end
    else
      let m := on_entry id cancelProgressEnd m in
      let m := noteWork id m in
      let m := on_entry id (fun e => set_detector (expectWork now (detector e)) e) m in
      if match live with
         | Some p => bool_decide (prog_state p = active_state u) && percent_eqb (prog_percent p) (u_percent u)
         | None => false
         end then m
      else notify id (on_entry id (set_progress (Some (mkProgress (active_state u) (u_percent u) None))) m).

(** ** Engagement *)

(** The user went idle, or left the host: each held source takes the path it
    would have taken unengaged. *)
Definition escalateHeld id m : Manager :=
  match entry_at id m ≫= held with
  | None => m
  | Some h =>
      let m := on_entry id (set_held None) m in
      foldl (fun m source => holdOrDeliver id source (detail (held_dated h)) (Some (arrived (held_dated h))) m)
        m (eachSource (held_set h))
  end.

Definition startLeaveGrace id m : Manager :=
  let m := on_entry id endLeaveGrace m in
  match entry_at id m ≫= held with
  | None => m
  | Some _ => on_entry id (set_leaveGrace (Some (now + cfg_leaveGrace))) m
  end.

(** One Session a viewer pointed at or points at, with whether it was engaged. *)
Definition touch (after : option (option string)) (lapse : option EngagementLapse)
    (m : Manager) (t : string * bool) : Manager :=
  let (id, was) := t in
  if negb (bool_decide (is_Some (entry_at id m))) || inert id m || Bool.eqb (isEngaged id m) was then m
  else
    let m :=
      if negb was then on_entry id (fun e => markSeen (endLeaveGrace e)) m
      else
        match after with
        | Some _ => on_entry id (set_held None) m
        | None => match lapse with Some idle => escalateHeld id m | _ => startLeaveGrace id m end
        end in
    notify id m.

(** The Sessions a report moves: [before] and [after], each once. *)
Definition touched_ids (before after : option (option string)) : list string :=
  let b := match before with Some (Some id) => [id] | _ => [] end in
  let a := match after with Some (Some id) => [id] | _ => [] end in
  b ++ filter (fun id => id ∉ b) a.

Definition setViewer (viewerId : string) (state : JsValue) (lapse : option EngagementLapse) m : Manager :=
  let focusId := js_string (js_field "focusId"%string state) in
  let before := omap_get viewerId (viewers m) in
  let after := if js_is_true (js_field "present"%string state) then Some focusId else None in
  if bool_decide (before = after) then m
  else
    let touched := map (fun id => (id, isEngaged id m)) (touched_ids before after) in
    let m := set_viewers (match after with
                          | None => omap_delete viewerId (viewers m)
                          | Some f => omap_set viewerId f (viewers m)
                          end) m in
    foldl (touch after lapse) m touched.

Definition removeViewer (viewerId : string) m : Manager :=
  setViewer viewerId (JObject [("present"%string, JBool false); ("focusId"%string, JNull)]) (Some leave) m.

(** ** The user's verbs *)

(** A TODO verb: on keeps the ring's detail, off drops the notification. *)
Definition setTodoForUser id (on : bool) m : Manager :=
  notify id (on_entry id (fun e =>
    let (e, r) := clearRingForUser e in
    let e := if on then ringToTodo r e else e in
    let e := set_todo on e in
    if on then e else set_notification None e) m).

Definition look_away id m : Manager :=
  notify id (on_entry id (fun e => let (e, r) := clearRingForUser e in ringToTodo r e) m).

Definition acknowledge id (input : bool) m : Manager :=
  match entry_at id m with
  | None => m
  | Some _ =>
      let m := if input then on_entry id (set_echoUntil (now + cfg_echoWindow)) m else m in
      if inert id m then m
      else
        let m := on_entry id markSeen m in
        if input then
          let m := settleProgressEnd id m in
          let m := on_entry id (fun e => (clearRingForUser e).1) m in
          setTodoForUser id false m
        else look_away id m
  end.

Definition onWrite id (data : string) (userInput : bool) m : Manager :=
  let m := if userInput then acknowledge id true m else m in
  if inputCanStartWork data userInput then
    let (m, live) := streamEntry id m in
    if live : bool then on_entry id (fun e => set_detector (expectWork now (detector e)) e) m else m
  else m.

Definition dismissAlert id m : Manager :=
  match entry_at id m with
  | None => m
  | Some _ => look_away id m
  end.

Definition toggleTodo id m : Manager :=
  if inert id m then m
  else
    let m := getOrCreateEntry id m in
    setTodoForUser id (negb (default false (todo <$> entry_at id m))) m.

Definition clearTodo id m : Manager :=
  if inert id m then m else setTodoForUser id false (getOrCreateEntry id m).

(** ** Watch rules *)

(** Drop the [watching] sources no rule covers any more, and publish. *)
Definition recheck_rules m id : Manager :=
  notify id (on_entry id (invalidateWatching (fun k => bool_decide (watchRuleFor (watchedCommands m) (Some k) = None))) m).

Definition setWatchedCommands (names : list string) m : Manager :=
  let next := rev (remove_dups (rev names)) in
  if bool_decide (length next = length (watchedCommands m)) && forallb (fun n => bool_decide (n ∈ watchedCommands m)) next then m
  else
    let m := set_watchedCommands next m in
    foldl recheck_rules m (map fst (entries m)).

Definition setCommandWatched (name : string) (watched : bool) m : Manager :=
  let trimmed := js_trim name in
  if (trimmed =s? ""%string) || Bool.eqb (bool_decide (trimmed ∈ watchedCommands m)) watched then m
  else
    setWatchedCommands
      (if watched then watchedCommands m ++ [trimmed] else filter (fun n => n <> trimmed) (watchedCommands m)) m.

(** ** Awaiting *)

Inductive AwaitHandle := HandleSettled (outcome : AwaitOutcome) | HandleParked (waiter : nat).

(** Park until the Session finishes what it is doing.  [timeoutMs] is [None] for
    a number that is not finite. *)
Definition awaitCompletion id (until : AwaitUntil) (timeoutMs : option Z) m : Manager * AwaitHandle :=
  if inert id m then (m, HandleSettled (cancelled 0))
  else
    match timeoutMs with
    | None => (m, HandleSettled (cancelled 0))
    | Some ms =>
        if (ms <=? 0) || (MAX_AWAIT_TIMEOUT_MS <? ms) then (m, HandleSettled (cancelled 0))
        else if bool_decide (id ∈ removed m) then (m, HandleSettled (died 0))
        else
          let m := getOrCreateEntry id m in
          let e := default new_entry (entry_at id m) in
          let (e', cause) := consumeAwaitableRing until e in
          let m := on_entry id (fun _ => e') m in
          match cause with
          | Some c => (notify id m, HandleSettled (resolved c 0))
          | None =>
              let k := waiters m in
              let grace := if bool_decide (commandExitWatch e' = None) then Some (now + AWAIT_GRACE_MS) else None in
              let m := addWaiter id (mkWaiter k until now grace (now + ms)) (set_waiters (S k) m) in
              (notify id m, HandleParked k)
          end
    end.

(** [handle.cancel()]. *)
Definition cancel_await id (k : nat) m : Manager := settle id k cancelled m.

(** ** The life of a Session *)

Definition silenceRun id m : Manager :=
  match entry_at id m with
  | None => m
  | Some _ => notify id (on_entry id (fun e => endRun (set_pending None (set_exitWatch None e))) m)
  end.

Definition discard id m : Manager :=
  let m := set_removed ({[id]} ∪ removed m) m in
  let m := settleWaiters id died m in
  let m := set_claimants (delete id (claimants m)) m in
  let m :=
    match entry_at id m with
    | Some _ => notify id (set_entries (omap_delete id (entries (on_entry id disposeEntry m))) m)
    | None => m
    end in
  set_helpers (helpers m ∖ {[id]}) m.

Definition remove id m : Manager :=
  let m := discard id m in emit (Removed (removeListeners m) id) m.

Definition restart id m : Manager :=
  let m := discard id m in set_removed (removed m ∖ {[id]}) m.

(** A persisted Session: only the TODO and its detail survive a restart. *)
Definition seed_entry (todo_ notification_ : JsValue) e : AlertEntry :=
  let e := set_todo (js_is_true todo_) e in
  let e := set_notification (if todo e then normalizeActivityNotification notification_ else None) e in
  let e := set_ring None e in
  let e := set_held None e in
  let e := set_acked false e in
  let e := set_exitWatch None e in
  let e := set_pending None e in
  endRun e.

Definition seed id (todo_ notification_ : JsValue) m : Manager :=
  if inert id m then m
  else notify id (on_entry id (seed_entry todo_ notification_) (getOrCreateEntry id m)).

Definition dispose m : Manager :=
  let m := foldl (fun m id => settleWaiters id cancelled m) m (map fst (awaits m)) in
  mkManager [] ∅ ∅ [] [] [] [] ∅ (watchedCommands m) (arrivals m) ∅ (uuids m) (waiters m) (effects m).

(** ** Timers *)

(** The callback of the leave grace. *)
Definition leave_callback id m : Manager :=
  let m := on_entry id (set_leaveGrace None) m in
  if bool_decide (viewers m = []) then escalateHeld id m else on_entry id (set_held None) m.

Definition fire_leaveGrace id m : Manager :=
  match entry_at id m ≫= leaveGrace with
  | Some due => if due <=? now then leave_callback id m else m
  | None => m
  end.

Definition fire_progressEnd id m : Manager :=
  match (entry_at id m ≫= progress) ≫= prog_end with
  | Some end_ => if end_timer end_ <=? now then settleProgressEnd id m else m
  | None => m
  end.

Definition fire_awaitGrace id (k : nat) m : Manager :=
  match waiter_at id k m ≫= w_grace with
  | Some due => if due <=? now then settle id k (resolved cause_idle) m else m
  | None => m
  end.

Definition fire_awaitTimeout id (k : nat) m : Manager :=
  match waiter_at id k m with
  | Some w => if w_timeout w <=? now then settle id k timeout m else m
  | None => m
  end.

Definition fire_detector id (kind : DetectorTimer) m : Manager :=
  match entry_at id m with
  | Some _ => fire_timer (H := host id) now kind m
  | None => m
  end.

End Manager.
End Alert.
