(* ===== verification/AlertEntry.v ===== *)
(** * One Session's entry

    The invariant of an entry and how the entry's own methods keep it. *)
From Stdlib Require Import ZArith QArith.
From S2P Require Import Prelude QuiesceDetector JsValue TerminalState AlertModel.

(** A ring, or a hold, has a source, and lists none twice. *)
Definition sources_ok (s : SourceSet) : Prop :=
  (sources s <> [] \/ is_Some (watching s)) /\ NoDup (sources s).

Record entry_ok (e : AlertEntry) : Prop := {
  ok_ring : forall r, ring e = Some r -> sources_ok (ring_set r);
  ok_held : forall h, held e = Some h -> sources_ok (held_set h);
  (** an acknowledged quiet Session is not ringing *)
  ok_acked : ackedQuiet e = true -> ring e = None;
  (** a held completion is on the TODO *)
  ok_todo : is_Some (held e) -> todo e = true;
  (** only a TODO has a detail *)
  ok_detail : is_Some (notification e) -> todo e = true
}.

(** No ring was opened: a ring that is there is an episode that was. *)
Definition keeps_ring (e e' : AlertEntry) : Prop :=
  forall r', ring e' = Some r' -> exists r, ring e = Some r /\ episode r' = episode r.

Lemma keeps_ring_same e e' : ring e' = ring e -> keeps_ring e e'.
Proof. intros H r' Hr'. exists r'. by rewrite <- H. Qed.

Lemma keeps_ring_refl e : keeps_ring e e.
Proof. by apply keeps_ring_same. Qed.
#[export] Hint Resolve keeps_ring_refl : core.

Lemma keeps_ring_none e e' : ring e' = None -> keeps_ring e e'.
Proof. by intros H r' Hr'; rewrite H in Hr'. Qed.

Lemma keeps_ring_trans e1 e2 e3 : keeps_ring e1 e2 -> keeps_ring e2 e3 -> keeps_ring e1 e3.
Proof. intros H1 H2 r Hr. apply H2 in Hr as (r2 & Hr2 & ->). apply H1 in Hr2 as (r1 & ? & ->). by exists r1. Qed.

Ltac chain_keeps := split; [assumption|split; [eapply keeps_ring_trans; eassumption|auto]].
(** A ring that lost a source is the episode it was. *)
Ltac ring_kept Er :=
  let r := fresh in let Hr := fresh in
  intros r Hr; eexists; split; [exact Er|]; cbn in Hr; repeat case_in Hr; by simplify_eq.
Ltac same_ring := first [by apply keeps_ring_same | by apply keeps_ring_none].

(** A method of an entry that keeps the invariant, opens no ring and starts no command. *)
Definition keeps (f : AlertEntry -> AlertEntry) : Prop :=
  forall e, entry_ok e ->
    entry_ok (f e) /\ keeps_ring e (f e) /\
    (commandExitWatch e = None -> commandExitWatch (f e) = None).

Lemma new_entry_ok : entry_ok new_entry.
Proof. split; cbn; try done; by intros [? ?]. Qed.

Lemma keeps_compose f g : keeps f -> keeps g -> keeps (fun e => g (f e)).
Proof.
  intros Hf Hg e He. destruct (Hf e He) as (H1 & H2 & H3). destruct (Hg _ H1) as (H4 & H5 & H6). chain_keeps.
Qed.

Lemma keeps_if (b : AlertEntry -> bool) f g : keeps f -> keeps g -> keeps (fun e => if b e then f e else g e).
Proof. intros Hf Hg e He. destruct (b e); auto. Qed.

Lemma keeps_id : keeps (fun e => e).
Proof. done. Qed.

(** *** Methods that leave the rings and the TODO alone *)
Ltac keep_simple := let e := fresh in let H := fresh in
  intros e H; split_all; [split; cbn; apply H|same_ring|done].

Lemma keeps_detector (f : Detector -> Detector) : keeps (fun e => set_detector (f (detector e)) e).
Proof. keep_simple. Qed.
Lemma keeps_set_detector d : keeps (set_detector d).
Proof. keep_simple. Qed.
Lemma keeps_progress p : keeps (set_progress p).
Proof. keep_simple. Qed.
Lemma keeps_pending x : keeps (set_pending x).
Proof. keep_simple. Qed.
Lemma keeps_exitWatch_none : keeps (set_exitWatch None).
Proof. keep_simple. Qed.
Lemma keeps_leaveGrace x : keeps (set_leaveGrace x).
Proof. keep_simple. Qed.
Lemma keeps_echoUntil x : keeps (set_echoUntil x).
Proof. keep_simple. Qed.

Lemma keeps_acked_false : keeps (set_acked false).
Proof. intros e H. split_all; [split; cbn; try apply H; done|same_ring|done]. Qed.

Lemma keeps_held_none : keeps (set_held None).
Proof. intros e H. split_all; [split; cbn; try apply H; try done; by intros [? ?]|same_ring|done]. Qed.

Lemma keeps_markSeen : keeps markSeen.
Proof.
  intros e H. unfold markSeen. destruct (commandExitWatch e) eqn:E; [|done].
  split_all; [split; cbn; apply H|same_ring|done].
Qed.

Lemma keeps_cancelProgressEnd : keeps cancelProgressEnd.
Proof. intros e H. unfold cancelProgressEnd. destruct (progress e); [|done]. by apply keeps_progress. Qed.

Lemma keeps_endRun : keeps endRun.
Proof.
  unfold endRun. apply (keeps_compose (fun e => set_progress None (cancelProgressEnd e)) (fun e => set_detector (reset (detector e)) e)).
  - apply (keeps_compose cancelProgressEnd); [apply keeps_cancelProgressEnd|apply keeps_progress].
  - apply keeps_detector.
Qed.

Lemma keeps_endLeaveGrace : keeps endLeaveGrace.
Proof. apply keeps_leaveGrace. Qed.

Lemma keeps_answered : keeps answeredWatching.
Proof. apply keeps_detector. Qed.

(** *** Sources *)

Lemma addSource_ok s x : (s = mkSources [] None \/ sources_ok s) -> sources_ok (addSource s x).
Proof.
  intros Hs. destruct x as [l|w]; cbn.
  - case_bool_decide as Hl; [destruct Hs as [->|?]; [by apply elem_of_nil in Hl|done]|].
    split; cbn; [left; by destruct (sources s)|].
    apply NoDup_app. split_all; [destruct Hs as [->|[_ ?]]; [constructor|done]| |apply NoDup_singleton].
    intros y Hy ->%list_elem_of_singleton. done.
  - split; cbn; [right; by eexists|]. destruct Hs as [->|[_ ?]]; [constructor|done].
Qed.

Lemma mark_work_ok s : sources_ok s -> sources_ok (mark_work s).
Proof. intros [H1 H2]. split; [|done]. cbn. destruct H1 as [?|[w ->]]; [by left|right; by eexists]. Qed.

Lemma dropWatching_ok s : sources_ok s -> (dropWatching s).2 = false -> sources_ok (dropWatching s).1.
Proof. intros [H1 H2] H. cbn in *. apply bool_decide_eq_false in H. split; [by left|done]. Qed.

Lemma eachSource_nonempty s : sources_ok s -> eachSource s <> [].
Proof.
  intros [[H|[w H]] _]; unfold eachSource.
  - intros E. apply app_eq_nil in E as [_ E]. apply map_eq_nil in E.
    assert (Hx : forall x, x ∈ LISTED_RING_SOURCES -> x ∉ sources s).
    { intros x Hx Hs. assert (Hf : x ∈ filter (fun s' => s' ∈ sources s) LISTED_RING_SOURCES) by (by apply list_elem_of_filter).
      rewrite E in Hf. by apply elem_of_nil in Hf. }
    destruct (sources s) as [|[] l]; [done| |]; (eapply Hx; [|by left]); [by left|by right; left].
  - by rewrite H.
Qed.

(** *** Rings and holds *)

Lemma keeps_note_work : keeps note_work_entry.
Proof.
  intros e H. unfold note_work_entry. split_all.
  - split; cbn.
    + intros r Hr. destruct (ring e) eqn:E; [|done]. injection Hr as <-. by apply mark_work_ok, (ok_ring e H).
    + intros h Hh. destruct (held e) eqn:E; [|done]. injection Hh as <-. by apply mark_work_ok, (ok_held e H).
    + done.
    + intros Hh. apply (ok_todo e H). by apply fmap_is_Some in Hh.
    + apply H.
  - intros r' Hr'. cbn in Hr'. destruct (ring e) as [r|]; [|done]. injection Hr' as <-. by exists r.
  - done.
Qed.

Lemma keeps_updateReceipt d : keeps (updateReceipt d).
Proof.
  intros e H. unfold updateReceipt. destruct (todo e) eqn:E; [|done].
  split_all; [split; cbn; try apply H; done|same_ring|done].
Qed.

Lemma withdraw_ring_ok voids : keeps (withdraw_ring voids).
Proof.
  intros e H. unfold withdraw_ring. destruct (ring e) as [r|] eqn:Er; [|done].
  destruct (watching (ring_set r)) as [w|] eqn:Ew; [|done]. destruct (voids _); [|done].
  pose proof (dropWatching_ok (ring_set r) (ok_ring e H r Er)) as Hd.
  destruct (dropWatching (ring_set r)) as [set empty]. cbn in Hd.
  split_all; [split; cbn; try apply H|ring_kept Er|done].
  - intros r'. destruct empty; [done|]. intros [= <-]. by apply Hd.
  - intros Ha. pose proof (ok_acked e H Ha). congruence.
Qed.

Lemma withdraw_held_ok voids : keeps (withdraw_held voids).
Proof.
  intros e H. unfold withdraw_held. destruct (held e) as [h|] eqn:Eh; [|done].
  destruct (watching (held_set h)) as [w|] eqn:Ew; [|done]. destruct (voids _); [|done].
  pose proof (dropWatching_ok (held_set h) (ok_held e H h Eh)) as Hd.
  destruct (dropWatching (held_set h)) as [set empty]. cbn in Hd.
  split_all; [split; cbn; try apply H|same_ring|done].
  - intros h'. destruct empty; [done|]. intros [= <-]. by apply Hd.
  - intros _. apply (ok_todo e H). rewrite Eh. by eexists.
Qed.

Lemma keeps_invalidate voids : keeps (invalidateWatching voids).
Proof. apply (keeps_compose (withdraw_ring voids)); [apply withdraw_ring_ok|apply withdraw_held_ok]. Qed.

Lemma keeps_withdrawRingSource source : keeps (fun e => (withdrawRingSource source e).1).
Proof.
  intros e H. unfold withdrawRingSource. destruct (ring e) as [r|] eqn:Er; [|done]. destruct source as [|s].
  - destruct (watching (ring_set r)); [|done].
    pose proof (dropWatching_ok (ring_set r) (ok_ring e H r Er)) as Hd.
    destruct (dropWatching (ring_set r)) as [set empty]. cbn in Hd |- *.
    split_all; [|ring_kept Er|done]. apply keeps_answered. split; cbn; try apply H.
    + intros r'. destruct empty; [done|]. intros [= <-]. by apply Hd.
    + intros Ha. pose proof (ok_acked e H Ha). congruence.
  - destruct (negb _); [done|]. cbn. split_all; [split; cbn; try apply H|ring_kept Er|done].
    + intros r' Hr'. destruct (ok_ring e H r Er) as [_ Hn].
      case_bool_decide as E1; cbn in Hr'; [case_bool_decide as E2; [done|]|]; injection Hr' as <-; split;
        try (by apply NoDup_filter); [right; by apply not_eq_None_Some|by left].
    + intros Ha. pose proof (ok_acked e H Ha). congruence.
Qed.

Lemma keeps_consume until : keeps (fun e => (consumeAwaitableRing until e).1).
Proof.
  intros e H. unfold consumeAwaitableRing.
  set (p := if bool_decide (until = until_quiet) then withdrawRingSource (Rlisted report) e else (e, false)).
  assert (H1 : entry_ok p.1 /\ keeps_ring e p.1 /\ (commandExitWatch e = None -> commandExitWatch p.1 = None)).
  { subst p. destruct (bool_decide _); [|done]. by apply (keeps_withdrawRingSource (Rlisted report)). }
  clearbody p. destruct p as [e1 bell]. cbn [fst] in H1. destruct bell; [done|].
  set (p := if bool_decide (commandExitWatch e1 = None) then withdrawRingSource (Rlisted exit_) e1 else (e1, false)).
  assert (H2 : entry_ok p.1 /\ keeps_ring e p.1 /\ (commandExitWatch e = None -> commandExitWatch p.1 = None)).
  { subst p. destruct H1 as (K1 & K2 & K3). destruct (bool_decide _); [|done].
    destruct (keeps_withdrawRingSource (Rlisted exit_) e1 K1) as (K4 & K5 & K6). chain_keeps. }
  clearbody p. destruct p as [e2 exited]. cbn [fst] in H2. destruct exited; [done|].
  match goal with |- context [if ?b then withdrawRingSource Rwatching e2 else _] =>
    set (p := if b then withdrawRingSource Rwatching e2 else (e2, false)) end.
  assert (H3 : entry_ok p.1 /\ keeps_ring e p.1 /\ (commandExitWatch e = None -> commandExitWatch p.1 = None)).
  { subst p. destruct H2 as (K1 & K2 & K3). destruct (_ && _); [|done].
    destruct (keeps_withdrawRingSource Rwatching e2 K1) as (K4 & K5 & K6). chain_keeps. }
  clearbody p. destruct p as [e3 []]; done.
Qed.

(** An entry with its ring and hold cleared by a user verb, and the detector
    started over where a [watching] source went. *)
Definition cleared (watched : bool) (e : AlertEntry) : AlertEntry :=
  let e := set_acked true (set_held None (set_ring None e)) in
  if watched then answeredWatching e else e.

Lemma clearRing_cases e :
  (ring e = None /\ held e = None /\ (clearRingForUser e).1 = e) \/
  exists watched, (clearRingForUser e).1 = cleared watched e.
Proof.
  unfold clearRingForUser. destruct (ring e), (held e); [right; by eexists..|by left].
Qed.

Lemma keeps_cleared watched : keeps (cleared watched).
Proof.
  assert (K : keeps (fun e => set_acked true (set_held None (set_ring None e)))).
  { intros e H. split_all; [split; cbn; try apply H; try done; by intros [? ?]|same_ring|done]. }
  destruct watched; [|done]. apply (keeps_compose _ answeredWatching K), keeps_answered.
Qed.

Lemma keeps_clearRingForUser : keeps (fun e => (clearRingForUser e).1).
Proof.
  intros e H. destruct (clearRing_cases e) as [(_ & _ & ->)|[w ->]]; [done|by apply keeps_cleared].
Qed.

Lemma clearRing_held e : held (clearRingForUser e).1 = None.
Proof. destruct (clearRing_cases e) as [(_ & ? & ->)|[[] ->]]; done. Qed.

Lemma clearRing_ring e : ring (clearRingForUser e).1 = None.
Proof. destruct (clearRing_cases e) as [(? & _ & ->)|[[] ->]]; done. Qed.

Lemma clearRing_returns e : (clearRingForUser e).2 = ring e.
Proof. unfold clearRingForUser. by destruct (ring e), (held e). Qed.

Lemma keeps_ringToTodo r : keeps (ringToTodo r).
Proof.
  intros e H. unfold ringToTodo. destruct r; [|done]. split_all; [split; cbn; try apply H; done|same_ring|done].
Qed.

Lemma keeps_look : keeps (fun e => let (e, r) := clearRingForUser e in ringToTodo r e).
Proof.
  intros e H. pose proof (keeps_clearRingForUser e H) as (H1 & H2 & H3).
  destruct (clearRingForUser e) as [e1 r]. cbn in *. destruct (keeps_ringToTodo r e1 H1) as (H4 & H5 & H6). chain_keeps.
Qed.

Lemma keeps_todo_verb (on : bool) : keeps (fun e =>
    let (e, r) := clearRingForUser e in
    let e := if on then ringToTodo r e else e in
    let e := set_todo on e in
    if on then e else set_notification None e).
Proof.
  intros e H. pose proof (keeps_clearRingForUser e H) as (H1 & H2 & H3).
  pose proof (clearRing_held e) as Hh. destruct (clearRingForUser e) as [e1 r]. cbn in *. destruct on.
  - destruct (keeps_ringToTodo r e1 H1) as (H4 & H5 & H6).
    split_all; [split; cbn; try apply H4; done|exact (keeps_ring_trans _ _ _ H2 H5)|by auto].
  - split_all; [split; cbn; try apply H1|exact H2|by auto].
    + rewrite Hh. by intros [? ?].
    + by intros [? ?].
Qed.

Lemma keeps_hold source d a : keeps (hold source d a).
Proof.
  intros e H. unfold hold. split_all; [split; cbn; try apply H; try done|same_ring|done].
  intros h [= <-]. cbn. apply addSource_ok. destruct (held e) as [h|] eqn:Eh; [right; by apply (ok_held e H)|by left].
Qed.

