(* ===== verification/AlertSteps.v ===== *)
(** * The manager's methods as sequences of moves

    A move is one change a method makes to one Session; [moves] is any sequence
    of them.  Every method that concerns one Session is such a sequence, so an
    invariant is checked once for each move. *)
From Stdlib Require Import ZArith QArith.
From stdpp Require Import relations.
From S2P Require Import Prelude QuiesceDetector JsValue TerminalState AlertModel AlertManager AlertEntry.
Import Alert.
#[local] Open Scope Z_scope.

Section Steps.
  Context `{Env : AlertEnv} (now : Z).
  Implicit Types (m : Manager) (e : AlertEntry) (id : string).

(** One change to the Session [id]. *)
Inductive smove id : Manager -> Manager -> Prop :=
  | mv_entry f m : keeps f -> smove id m (on_entry id f m)
  | mv_create m : smove id m (getOrCreateEntry id m)
  | mv_live m : smove id m (set_removed (removed m ∖ {[id]}) m)
  | mv_tomb m : smove id m (set_removed ({[id]} ∪ removed m) m)
  | mv_notify m : smove id m (notify id m)
  | mv_arrive a m : smove id m (set_arrivals a m)
  | mv_raise source d a m : isEngaged id m = false -> smove id m (raiseRing now id source d a m)
  | mv_command w m : smove id m (eachWaiter id onCommandStart (on_entry id (set_exitWatch (Some w)) m))
  | mv_output m : smove id m (eachWaiter id onOutput m)
  | mv_settle k how m : smove id m (settle now id k how m)
  | mv_park w m :
      w_id w = waiters m -> is_Some (entry_at id m) ->
      (is_Some (w_grace w) -> entry_at id m ≫= commandExitWatch = None) ->
      smove id m (addWaiter id w (set_waiters (S (waiters m)) m))
  | mv_register k m : smove id m (registerCompletionClaimant id (ForeignClaimant k) m)
  | mv_unregister k m : smove id m (unregister id (ForeignClaimant k) m)
  | mv_unclaim m : parked id m = [] -> smove id m (set_claimants (delete id (claimants m)) m)
  | mv_delete m : parked id m = [] -> smove id m (set_entries (omap_delete id (entries m)) m)
  | mv_unhelp m : smove id m (set_helpers (helpers m ∖ {[id]}) m)
  | mv_removal ls m : smove id m (emit (Removed ls id) m).

Definition moves id : Manager -> Manager -> Prop := rtc (smove id).

Lemma moves_refl id m : moves id m m.
Proof. apply rtc_refl. Qed.

Lemma moves_trans id m1 m2 m3 : moves id m1 m2 -> moves id m2 m3 -> moves id m1 m3.
Proof. unfold moves. intros H1 H2. by transitivity m2. Qed.

Lemma move_once id m m' : smove id m m' -> moves id m m'.
Proof. apply rtc_once. Qed.

Lemma moves_entry id f m : keeps f -> moves id m (on_entry id f m).
Proof. intros. by apply move_once, mv_entry. Qed.

Lemma moves_notify id m : moves id m (notify id m).
Proof. apply move_once, mv_notify. Qed.

Lemma moves_create id m : moves id m (getOrCreateEntry id m).
Proof. apply move_once, mv_create. Qed.

(** A method run after moves. *)
Lemma moves_entry' id f m m' : keeps f -> moves id m m' -> moves id m (on_entry id f m').
Proof. intros. eapply moves_trans; [done|by apply moves_entry]. Qed.

Lemma moves_notify' id m m' : moves id m m' -> moves id m (notify id m').
Proof. intros. eapply moves_trans; [done|apply moves_notify]. Qed.

Lemma moves_foldl {A} id (f : Manager -> A -> Manager) (l : list A) m :
  (forall m x, moves id m (f m x)) -> moves id m (foldl f m l).
Proof.
  intros Hf. revert m. induction l as [|x l IH]; intros m; [apply moves_refl|]. simpl.
  eapply moves_trans; [apply Hf|apply IH].
Qed.

Lemma moves_foldl_pair {A B} id (f : Manager * B -> A -> Manager * B) (l : list A) mc :
  (forall mc x, moves id mc.1 (f mc x).1) -> moves id mc.1 (foldl f mc l).1.
Proof.
  intros Hf. revert mc. induction l as [|x l IH]; intros mc; [apply moves_refl|]. simpl.
  eapply moves_trans; [apply Hf|apply IH].
Qed.

Lemma keeps_seed t n : keeps (seed_entry t n).
Proof.
  unfold seed_entry. apply (keeps_compose _ endRun); [|apply keeps_endRun].
  intros e H. split_all; [|done|done]. split; cbn; try done.

  destruct (js_is_true t); [done|]. by intros [? ?].
Qed.

(** ** Completions *)

Lemma moves_settle id k how m : moves id m (settle now id k how m).
Proof. apply move_once, mv_settle. Qed.

Lemma moves_settleWaiters id how m : moves id m (settleWaiters now id how m).
Proof. apply moves_foldl. intros. apply moves_settle. Qed.

Lemma moves_offer_all id event m : moves id m (offer_all now id event m).1.
Proof.
  apply (moves_foldl_pair id (fun mc w => offer now id event w mc) _ (m, false)). intros mc w. unfold offer.
  destruct (awaitCauseFor _ _); [apply moves_settle|apply moves_refl].
Qed.

Lemma moves_claim id event cs m : moves id m (claim now id event cs m).1.
Proof.
  revert m. induction cs as [|c cs IH]; intros m; [apply moves_refl|]. cbn.
  assert (Hc : moves id m (claim_one now id event c m).1).
  { destruct c; [apply moves_offer_all|apply moves_refl]. }
  destruct (claim_one now id event c m) as [m' []]; [done|]. eapply moves_trans; [apply Hc|apply IH].
Qed.

Lemma moves_holdOrDeliver id source d kept m : moves id m (holdOrDeliver now id source d kept m).
Proof.
  unfold holdOrDeliver. cbv zeta. apply moves_notify'.
  set (m1 := match kept with Some _ => m | None => _ end).
  assert (H1 : moves id m m1) by (subst m1; destruct kept; [apply moves_refl|apply move_once, mv_arrive]).
  clearbody m1. eapply moves_trans; [exact H1|]. destruct (isEngaged id m1) eqn:E; [apply moves_entry, keeps_hold|].
  match goal with |- context [if ?b then _ else raiseRing _ _ _ _ _ _] => destruct b end.
  - destruct kept; [apply moves_refl|apply moves_entry, keeps_updateReceipt].
  - by apply move_once, mv_raise.
Qed.

Lemma moves_dispatch id event m : moves id m (dispatchCompletion now id event m).1.
Proof.
  unfold dispatchCompletion. destruct (inert id m); [apply moves_refl|].
  pose proof (moves_claim id event (claimants_of id m) m) as Hc.
  destruct (claim _ _ _ _ _) as [m1 []]; [done|]. cbn [fst] in Hc. eapply moves_trans; [exact Hc|].
  destruct (entry_at id m1) as [e|]; [|apply moves_refl]. destruct (inEchoWindow _ _); [apply moves_notify|]. cbn [fst].
  destruct event as [|c k x []|n]; try apply moves_holdOrDeliver; try apply moves_refl.
  destruct (truthy _); [|apply moves_refl]. destruct (isWatching _ _); [apply moves_holdOrDeliver|apply moves_refl].
Qed.

Lemma moves_onSettled id m : moves id m (onSettled now id m).
Proof.
  unfold onSettled. destruct (entry_at id m); [|apply moves_refl]. case_bool_decide; [|apply moves_refl].
  pose proof (moves_dispatch id Csettled m) as Hd. destruct (dispatchCompletion _ _ _ _) as [m1 []]; [|done].
  apply moves_notify', moves_entry'; [apply keeps_invalidate|done].
Qed.

(** ** The detector *)

Lemma moves_detector_data id m : moves id m (QuiesceDetector.onData (H := host now id) now m).1.
Proof.
  apply (onData_preserves (H := host now id) (moves id m)); [| |apply moves_refl].
  - intros d s Hs. apply moves_entry'; [apply keeps_set_detector|done].
  - intros st s Hs. by apply moves_notify'.
Qed.

Lemma moves_fire_detector id kind m : moves id m (fire_detector now id kind m).
Proof.
  unfold fire_detector. destruct (entry_at id m); [|apply moves_refl].
  apply (fire_preserves (H := host now id) (moves id m)); [| | |apply moves_refl].
  - intros d s Hs. apply moves_entry'; [apply keeps_set_detector|done].
  - intros st s Hs. by apply moves_notify'.
  - intros _ s Hs. eapply moves_trans; [exact Hs|]. apply moves_onSettled.
Qed.

(** ** PTY events and command boundaries *)

Lemma moves_noteWork id m : moves id m (noteWork id m).
Proof.
  unfold noteWork. eapply moves_trans; [apply moves_entry, keeps_note_work|]. apply move_once, mv_output.
Qed.

Lemma moves_streamEntry id m : moves id m (streamEntry id m).1.
Proof. unfold streamEntry. case_bool_decide; [apply moves_refl|apply moves_create]. Qed.

Lemma moves_reportedEntry id m : moves id m (reportedEntry id m).
Proof. unfold reportedEntry. eapply moves_trans; [apply move_once, mv_live|apply moves_create]. Qed.

Lemma moves_onData id m : moves id m (Alert.onData now id m).
Proof.
  unfold Alert.onData. pose proof (moves_streamEntry id m) as Hs. destruct (streamEntry id m) as [m1 []]; [|done].
  cbn [fst] in Hs. destruct (entry_at id m1); [|done]. destruct (inEchoWindow _ _); [done|].
  pose proof (moves_detector_data id m1) as Hd. eapply moves_trans; [exact Hs|].
  destruct (QuiesceDetector.onData now m1) as [m2 []]; [|exact Hd].
  eapply moves_trans; [exact Hd|apply moves_noteWork].
Qed.

Lemma moves_settleProgressEnd id m : moves id m (settleProgressEnd now id m).
Proof.
  unfold settleProgressEnd. destruct (_ ≫= prog_end); [|apply moves_refl]. cbv zeta.
  match goal with |- context [dispatchCompletion now id ?ev ?m1] => pose proof (moves_dispatch id ev m1) as Hd;
    destruct (dispatchCompletion now id ev m1) as [m2 b] end.
  assert (H2 : moves id m m2) by (eapply moves_trans; [apply moves_entry, keeps_endRun|exact Hd]).
  destruct b; [by apply moves_notify'|done].
Qed.

Lemma moves_endRunAtBoundary id m : moves id m (endRunAtBoundary now id m).1.
Proof. unfold endRunAtBoundary. apply moves_entry'; [apply keeps_endRun|apply moves_settleProgressEnd]. Qed.

Lemma on_entry_compose id f g m : on_entry id g (on_entry id f m) = on_entry id (fun e => g (f e)) m.
Proof.
  unfold on_entry, entry_at. destruct (omap_get id (entries m)) as [e|] eqn:E; cbn; [|by rewrite E].
  rewrite omap_get_set_eq. unfold set_entries; cbn. f_equal. apply omap_set_set.
Qed.

Lemma moves_start id source startedAt m : moves id m (startCommandExitWatch now id source startedAt m).
Proof.
  unfold startCommandExitWatch. pose proof (moves_endRunAtBoundary id m) as He.
  destruct (endRunAtBoundary now id m) as [m1 b]. cbn [fst] in He. eapply moves_trans; [exact He|]. cbv zeta.
  match goal with |- context [set_exitWatch (Some ?w)] => set (watch := w) end.
  rewrite <- (on_entry_compose id (fun e => set_acked false (set_pending None e)) (set_exitWatch (Some watch)) m1).
  eapply moves_trans; [|apply move_once, (mv_command id watch)].
  apply moves_entry, (keeps_compose (set_pending None) (set_acked false)); [apply keeps_pending|apply keeps_acked_false].
Qed.

Lemma moves_finish id exitCode m : moves id m (finishCommandExitWatch now id exitCode m).1.
Proof.
  unfold finishCommandExitWatch. pose proof (moves_endRunAtBoundary id m) as He.
  destruct (endRunAtBoundary now id m) as [m1 b]. cbn [fst] in He. cbv zeta.
  set (m2 := on_entry id _ m1). assert (H2 : moves id m m2).
  { apply moves_entry'; [|done]. apply (keeps_compose (set_exitWatch None) (set_pending None)); [apply keeps_exitWatch_none|apply keeps_pending]. }
  clearbody m2. destruct (entry_at id m1 ≫= commandExitWatch); [|exact H2].
  eapply moves_trans; [exact H2|apply moves_dispatch].
Qed.

Lemma moves_onExit id exitCode m : moves id m (onExit now id exitCode m).
Proof.
  unfold onExit. eapply moves_trans; [|apply moves_settleWaiters]. destruct (entry_at id m); [|apply moves_refl].
  pose proof (moves_finish id exitCode m) as Hf. destruct (finishCommandExitWatch _ _ _ _) as [m1 []]; [|exact Hf].
  by apply moves_notify'.
Qed.

Lemma moves_apply_event id ev mc : moves id mc.1 (apply_event now id ev mc).1.
Proof.
  destruct mc as [m c]. destruct ev as [| | |l|s t|x t|]; cbn [apply_event fst]; try apply moves_refl.
  - pose proof (moves_finish id None m) as Hf. by destruct (finishCommandExitWatch _ _ _ _).
  - pose proof (moves_finish id None m) as Hf. by destruct (finishCommandExitWatch _ _ _ _).
  - case_bool_decide; [apply moves_refl|]. apply moves_entry, keeps_pending.
  - apply moves_start.
  - pose proof (moves_finish id x m) as Hf. by destruct (finishCommandExitWatch _ _ _ _).
Qed.

Lemma moves_events id events m : moves id m (applyTerminalSemanticEvents now id events m).
Proof.
  unfold applyTerminalSemanticEvents. destruct events as [|ev events]; [apply moves_refl|].
  eapply moves_trans; [apply moves_reportedEntry|]. cbv zeta.
  pose proof (moves_foldl_pair id (fun mc ev => apply_event now id ev mc) (ev :: events) (reportedEntry id m, false)
    (fun mc x => moves_apply_event id x mc)) as Hf.
  destruct (foldl _ _ _) as [m1 []]; [by apply moves_notify'|done].
Qed.

Lemma moves_notifyFromProtocol id n m : moves id m (notifyFromProtocol now id n m).
Proof.
  unfold notifyFromProtocol. destruct (inert id m); [apply moves_refl|]. cbv zeta.
  eapply moves_trans; [apply moves_reportedEntry|]. destruct (normalizeActivityNotification _); [apply moves_dispatch|apply moves_refl].
Qed.

Lemma moves_progress id u m : moves id m (updateProtocolProgress now id u m).
Proof.
  unfold updateProtocolProgress. destruct (inert id m); [apply moves_refl|]. cbv zeta.
  eapply moves_trans; [apply moves_reportedEntry|]. set (m1 := reportedEntry id m). clearbody m1. destruct (ends_cycle u).
  - destruct (entry_at id m1 ≫= progress) as [p|]; [|apply moves_refl].
    destruct (prog_end p); [apply moves_refl|apply moves_entry, keeps_progress].
  - assert (H2 : moves id m1 (on_entry id (fun e => set_detector (expectWork now (detector e)) e)
        (noteWork id (on_entry id cancelProgressEnd m1)))).
    { apply moves_entry'; [apply keeps_detector|]. eapply moves_trans; [apply moves_entry, keeps_cancelProgressEnd|apply moves_noteWork]. }
    match goal with |- context [if ?b then _ else notify _ _] => destruct b end; [exact H2|].
    apply moves_notify', moves_entry'; [apply keeps_progress|exact H2].
Qed.

(** ** Engagement and the user's verbs *)

Lemma moves_escalate id m : moves id m (escalateHeld now id m).
Proof.
  unfold escalateHeld. destruct (entry_at id m ≫= held); [|apply moves_refl]. cbv zeta.
  eapply moves_trans; [apply moves_entry, keeps_held_none|]. apply moves_foldl. intros. apply moves_holdOrDeliver.
Qed.

Lemma moves_startLeaveGrace id m : moves id m (startLeaveGrace now id m).
Proof.
  unfold startLeaveGrace. cbv zeta. eapply moves_trans; [apply moves_entry, keeps_endLeaveGrace|].
  destruct (_ ≫= held); [apply moves_entry, keeps_leaveGrace|apply moves_refl].
Qed.

Lemma moves_touch after lapse id was m : moves id m (touch now after lapse m (id, was)).
Proof.
  unfold touch. destruct (_ || _ || _); [apply moves_refl|]. cbv zeta. apply moves_notify'. destruct (negb was).
  - apply moves_entry, (keeps_compose endLeaveGrace markSeen); [apply keeps_endLeaveGrace|apply keeps_markSeen].
  - destruct after; [apply moves_entry, keeps_held_none|]. destruct lapse as [[]|]; [apply moves_escalate|apply moves_startLeaveGrace..].
Qed.

Lemma moves_setTodoForUser id on m : moves id m (setTodoForUser id on m).
Proof. apply moves_notify', moves_entry, keeps_todo_verb. Qed.

Lemma moves_look id m : moves id m (look_away id m).
Proof. apply moves_notify', moves_entry, keeps_look. Qed.

Lemma moves_acknowledge id input m : moves id m (acknowledge now id input m).
Proof.
  unfold acknowledge. destruct (entry_at id m); [|apply moves_refl]. cbv zeta.
  set (m1 := if input then _ else m).
  assert (H1 : moves id m m1) by (subst m1; destruct input; [apply moves_entry, keeps_echoUntil|apply moves_refl]).
  clearbody m1. eapply moves_trans; [exact H1|]. destruct (inert id m1); [apply moves_refl|].
  eapply moves_trans; [apply moves_entry, keeps_markSeen|]. destruct input; [|apply moves_look].
  eapply moves_trans; [|apply moves_setTodoForUser]. apply moves_entry'; [apply keeps_clearRingForUser|apply moves_settleProgressEnd].
Qed.

Lemma moves_onWrite id data userInput m : moves id m (onWrite now id data userInput m).
Proof.
  unfold onWrite. cbv zeta. set (m1 := if userInput then _ else m).
  assert (H1 : moves id m m1) by (subst m1; destruct userInput; [apply moves_acknowledge|apply moves_refl]).
  clearbody m1. eapply moves_trans; [exact H1|]. destruct (inputCanStartWork _ _); [|apply moves_refl].
  pose proof (moves_streamEntry id m1) as Hs. destruct (streamEntry id m1) as [m2 []]; [|exact Hs].
  apply moves_entry'; [apply keeps_detector|exact Hs].
Qed.

Lemma moves_dismiss id m : moves id m (dismissAlert id m).
Proof. unfold dismissAlert. destruct (entry_at id m); [apply moves_look|apply moves_refl]. Qed.

Lemma moves_toggleTodo id m : moves id m (toggleTodo id m).
Proof.
  unfold toggleTodo. destruct (inert id m); [apply moves_refl|]. eapply moves_trans; [apply moves_create|apply moves_setTodoForUser].
Qed.

Lemma moves_clearTodo id m : moves id m (clearTodo id m).
Proof.
  unfold clearTodo. destruct (inert id m); [apply moves_refl|]. eapply moves_trans; [apply moves_create|apply moves_setTodoForUser].
Qed.

Lemma moves_recheck id m : moves id m (recheck_rules m id).
Proof. apply moves_notify', moves_entry, keeps_invalidate. Qed.

Lemma moves_silence id m : moves id m (silenceRun id m).
Proof.
  unfold silenceRun. destruct (entry_at id m); [|apply moves_refl]. apply moves_notify', moves_entry.
  apply (keeps_compose (fun e => set_pending None (set_exitWatch None e)) endRun); [|apply keeps_endRun].
  apply (keeps_compose (set_exitWatch None) (set_pending None)); [apply keeps_exitWatch_none|apply keeps_pending].
Qed.

Lemma moves_seed id t n m : moves id m (seed id t n m).
Proof.
  unfold seed. destruct (inert id m); [apply moves_refl|]. apply moves_notify', moves_entry'; [apply keeps_seed|apply moves_create].
Qed.

(** ** Awaits *)

Lemma entry_at_create id m : exists e, entry_at id (getOrCreateEntry id m) = Some e.
Proof.
  unfold getOrCreateEntry. destruct (entry_at id m) as [e|] eqn:E; [by exists e|].
  exists new_entry. unfold entry_at. cbn. apply omap_get_set_eq.
Qed.

Lemma entry_at_on id f m : entry_at id (on_entry id f m) = f <$> entry_at id m.
Proof.
  unfold on_entry. destruct (entry_at id m) as [e|] eqn:E; [|by rewrite E]. unfold entry_at. cbn. apply omap_get_set_eq.
Qed.

Lemma on_entry_at id f e m : entry_at id m = Some e -> on_entry id (fun _ => f e) m = on_entry id f m.
Proof. intros E. unfold on_entry. by rewrite E. Qed.

Lemma moves_await id until ms m : moves id m (awaitCompletion now id until ms m).1.
Proof.
  unfold awaitCompletion. destruct (inert id m); [apply moves_refl|]. destruct ms as [ms|]; [|apply moves_refl].
  destruct (_ || _); [apply moves_refl|]. case_bool_decide as Hr; [apply moves_refl|]. cbv zeta.
  destruct (entry_at_create id m) as [e He]. rewrite He. change (default new_entry (Some e)) with e.
  pose proof (on_entry_at id (fun e => (consumeAwaitableRing until e).1) e _ He) as Hon.
  destruct (consumeAwaitableRing until e) as [e' cause] eqn:Ec. cbv beta in Hon. rewrite Ec in Hon. cbn [fst] in Hon.
  assert (H1 : moves id m (on_entry id (fun _ => e') (getOrCreateEntry id m))).
  { rewrite Hon. apply moves_entry'; [apply keeps_consume|apply moves_create]. }
  destruct cause; [by apply moves_notify'|]. cbn [fst]. apply moves_notify'.
  set (m1 := on_entry id _ _) in *. eapply moves_trans; [exact H1|].
  assert (E1 : entry_at id m1 = Some e') by (subst m1; by rewrite entry_at_on, He).
  apply move_once. apply mv_park; [done|by rewrite E1; eexists|]. cbn [w_grace]. intros Hg.
  rewrite E1. cbn. case_bool_decide; [done|]. by destruct Hg.
Qed.

Lemma parked_emit x id m : parked id (emit x m) = parked id m.
Proof. done. Qed.

Lemma parked_notify id' id m : parked id' (notify id m) = parked id' m.
Proof. unfold notify. cbv zeta. by destruct (match _ with Some _ => _ | None => _ end). Qed.

Lemma parked_dropWaiter id k m : parked id (dropWaiter id k m) = filter (fun w => w_id w <> k) (parked id m).
Proof.
  unfold dropWaiter, parked. destruct (omap_get id (awaits m)) as [g|] eqn:E; [|by rewrite E]. cbn [default].
  destruct (existsb _ _) eqn:Ex.
  - cbv zeta. destruct (filter _ g) as [|w g'] eqn:Ef.
    + unfold unregister. destruct (_ !! id); cbn; by rewrite omap_get_delete_eq.
    + cbn. by rewrite omap_get_set_eq.
  - rewrite E. cbn. symmetry. apply filter_all. intros w Hw Hk.
    assert (Ht : existsb (fun w => bool_decide (w_id w = k)) g = true); [|congruence].
    apply existsb_exists. exists w. split; [by apply list_elem_of_In|by apply bool_decide_eq_true].
Qed.

Lemma waiter_at_Some id k m w : waiter_at id k m = Some w -> w ∈ parked id m /\ w_id w = k.
Proof.
  unfold waiter_at. intros H. destruct (filter _ _) as [|w' l] eqn:E; [done|]. injection H as ->.
  assert (Hw : w ∈ filter (fun w => w_id w = k) (parked id m)) by (rewrite E; by left).
  apply list_elem_of_filter in Hw. tauto.
Qed.

Lemma waiter_at_None id k m w : waiter_at id k m = None -> w ∈ parked id m -> w_id w <> k.
Proof.
  unfold waiter_at. intros H Hw Hk. destruct (filter _ _) as [|w' l] eqn:E; [|done].
  assert (Hf : w ∈ filter (fun w => w_id w = k) (parked id m)) by by apply list_elem_of_filter.
  rewrite E in Hf. by apply elem_of_nil in Hf.
Qed.

Lemma parked_settle id k how m : parked id (settle now id k how m) = filter (fun w => w_id w <> k) (parked id m).
Proof.
  unfold settle. destruct (waiter_at id k m) as [w|] eqn:E.
  - cbv zeta. by rewrite parked_notify, parked_emit, parked_dropWaiter.
  - symmetry. apply filter_all. intros w Hw. by eapply waiter_at_None.
Qed.

Lemma parked_settleWaiters id how m : parked id (settleWaiters now id how m) = [].
Proof.
  unfold settleWaiters. assert (H : forall ws m', (forall w, w ∈ parked id m' -> w_id w ∈ map w_id ws) ->
    parked id (foldl (fun m w => settle now id (w_id w) how m) m' ws) = []).
  { induction ws as [|w ws IH]; intros m' Hm; simpl.
    - destruct (parked id m') as [|w l]; [done|]. pose proof (Hm w (list_elem_of_here _ _)) as Hw. by apply elem_of_nil in Hw.
    - apply IH. intros w' Hw'. rewrite parked_settle in Hw'. apply list_elem_of_filter in Hw' as [Hne Hw'].
      apply Hm in Hw'. simpl in Hw'. apply elem_of_cons in Hw' as [?|?]; done. }
  apply H. intros w Hw. by apply list_elem_of_fmap_2.
Qed.

Lemma moves_discard id m : moves id m (discard now id m).
Proof.
  unfold discard. cbv zeta. eapply moves_trans; [|apply move_once, mv_unhelp].
  set (m1 := settleWaiters now id died _).
  assert (H1 : moves id m m1).
  { eapply moves_trans; [apply move_once, mv_tomb|apply moves_settleWaiters]. }
  assert (Hp : parked id m1 = []) by apply parked_settleWaiters.
  assert (H2 : moves id m1 (set_claimants (delete id (claimants m1)) m1)).
  { by apply move_once, mv_unclaim. }
  change (parked id (set_claimants (delete id (claimants m1)) m1) = []) in Hp. set (m2 := set_claimants _ m1) in *. eapply moves_trans; [exact H1|]. eapply moves_trans; [exact H2|].
  clearbody m2. destruct (entry_at id m2) as [e|] eqn:E; [|apply moves_refl]. apply moves_notify'.
  assert (Ed : omap_delete id (entries (on_entry id disposeEntry m2)) = omap_delete id (entries m2)).
  { unfold on_entry. rewrite E. cbn. apply omap_delete_set. }
  rewrite Ed. by apply move_once, mv_delete.
Qed.

Lemma moves_remove id m : moves id m (remove now id m).
Proof. unfold remove. eapply moves_trans; [apply moves_discard|apply move_once, mv_removal]. Qed.

Lemma moves_restart id m : moves id m (restart now id m).
Proof. unfold restart. eapply moves_trans; [apply moves_discard|apply move_once, mv_live]. Qed.

(** ** Timers *)

Lemma moves_fire_leaveGrace id m : moves id m (fire_leaveGrace now id m).
Proof.
  unfold fire_leaveGrace. destruct (_ ≫= leaveGrace) as [due|]; [|apply moves_refl]. destruct (due <=? now); [|apply moves_refl].
  unfold leave_callback. cbv zeta. eapply moves_trans; [apply moves_entry, keeps_leaveGrace|].
  case_bool_decide; [apply moves_escalate|apply moves_entry, keeps_held_none].
Qed.

Lemma moves_fire_progressEnd id m : moves id m (fire_progressEnd now id m).
Proof.
  unfold fire_progressEnd. destruct (_ ≫= prog_end); [|apply moves_refl]. destruct (_ <=? _); [apply moves_settleProgressEnd|apply moves_refl].
Qed.

Lemma moves_fire_awaitGrace id k m : moves id m (fire_awaitGrace now id k m).
Proof.
  unfold fire_awaitGrace. destruct (_ ≫= w_grace); [|apply moves_refl]. destruct (_ <=? _); [apply moves_settle|apply moves_refl].
Qed.

Lemma moves_fire_awaitTimeout id k m : moves id m (fire_awaitTimeout now id k m).
Proof.
  unfold fire_awaitTimeout. destruct (waiter_at _ _ _); [|apply moves_refl]. destruct (_ <=? _); [apply moves_settle|apply moves_refl].
Qed.

End Steps.
