(* ===== verification/AlertInvariant.v ===== *)
(** * Invariants of the alert manager

    The calls of the manager as one step on its state, and the invariants every
    sequence of calls keeps: the entries are well formed, and every await that
    was ever parked is still parked or has settled, exactly once. *)
From Stdlib Require Import ZArith QArith.
From stdpp Require Import relations.
From S2P Require Import Prelude QuiesceDetector JsValue TerminalState AlertModel AlertManager AlertEntry AlertSteps.
Import Alert.
#[local] Open Scope Z_scope.

(** A call of the manager on one Session. *)
Inductive SessionOp :=
  | SData
  | SExit (exitCode : option Z)
  | SWrite (data : string) (userInput : bool)
  | SReport (n : ActivityNotification)
  | SProgress (u : ProtocolProgressUpdate)
  | SEvents (events : list TerminalSemanticEvent)
  | SAcknowledge (input : bool)
  | SDismiss
  | SToggleTodo
  | SClearTodo
  | SAwait (until : AwaitUntil) (timeoutMs : option Z)
  | SCancel (waiter : nat)
  | SSilence
  | SRemove
  | SRestart
  | SSeed (todo notification : JsValue)
  | SClaimant (k : nat)
  | SUnclaim (k : nat)
  | STimerDetector (kind : DetectorTimer)
  | STimerLeave
  | STimerProgress
  | STimerGrace (waiter : nat)
  | STimerAwait (waiter : nat).

(** A call that concerns every Session. *)
Inductive AlertOp :=
  | OpSession (id : string) (op : SessionOp)
  | OpHelper (id : string) (helper : bool)
  | OpWatched (names : list string)
  | OpCommandWatched (name : string) (watched : bool)
  | OpViewer (viewerId : string) (state : JsValue) (lapse : option EngagementLapse)
  | OpRemoveViewer (viewerId : string)
  | OpListen (k : nat)
  | OpUnlisten (k : nat)
  | OpOnRemove (k : nat)
  | OpOffRemove (k : nat).

Section Invariant.
  Context `{Env : AlertEnv}.
  Implicit Types (m : Manager) (e : AlertEntry) (id : string) (now : Z).

Definition session_apply now id (op : SessionOp) m : Manager :=
  match op with
  | SData => Alert.onData now id m
  | SExit code => onExit now id code m
  | SWrite data user => onWrite now id data user m
  | SReport n => notifyFromProtocol now id n m
  | SProgress u => updateProtocolProgress now id u m
  | SEvents evs => applyTerminalSemanticEvents now id evs m
  | SAcknowledge input => acknowledge now id input m
  | SDismiss => dismissAlert id m
  | SToggleTodo => toggleTodo id m
  | SClearTodo => clearTodo id m
  | SAwait until ms => (awaitCompletion now id until ms m).1
  | SCancel k => cancel_await now id k m
  | SSilence => silenceRun id m
  | SRemove => remove now id m
  | SRestart => restart now id m
  | SSeed t n => seed id t n m
  | SClaimant k => registerCompletionClaimant id (ForeignClaimant k) m
  | SUnclaim k => unregister id (ForeignClaimant k) m
  | STimerDetector kind => fire_detector now id kind m
  | STimerLeave => fire_leaveGrace now id m
  | STimerProgress => fire_progressEnd now id m
  | STimerGrace k => fire_awaitGrace now id k m
  | STimerAwait k => fire_awaitTimeout now id k m
  end.

Definition alert_apply now (op : AlertOp) m : Manager :=
  match op with
  | OpSession id op => session_apply now id op m
  | OpHelper id b => setHelper id b m
  | OpWatched names => setWatchedCommands names m
  | OpCommandWatched name b => setCommandWatched name b m
  | OpViewer v st lapse => setViewer now v st lapse m
  | OpRemoveViewer v => removeViewer now v m
  | OpListen k => onStateChange k m
  | OpUnlisten k => offStateChange k m
  | OpOnRemove k => onRemove k m
  | OpOffRemove k => offRemove k m
  end.

(** The managers reached from a new one by calls, each at some time. *)
Inductive alert_reach : Manager -> Prop :=
  | alert_new : alert_reach new_manager
  | alert_call now op m : alert_reach m -> alert_reach (alert_apply now op m).

Lemma session_moves now id op m : moves now id m (session_apply now id op m).
Proof.
  destruct op; cbn; first
    [ apply moves_onData | apply moves_onExit | apply moves_onWrite | apply moves_notifyFromProtocol
    | apply moves_progress | apply moves_events | apply moves_acknowledge | apply moves_dismiss
    | apply moves_toggleTodo | apply moves_clearTodo | apply moves_await | apply moves_settle
    | apply moves_silence | apply moves_remove | apply moves_restart | apply moves_seed
    | apply move_once, mv_register | apply move_once, mv_unregister
    | apply moves_fire_detector | apply moves_fire_leaveGrace | apply moves_fire_progressEnd
    | apply moves_fire_awaitGrace | apply moves_fire_awaitTimeout ].
Qed.

(** A change of what no Session owns. *)
Inductive glob : Manager -> Manager -> Prop :=
  | gl_none m : glob m m
  | gl_helpers x m : glob m (set_helpers x m)
  | gl_rules x m : glob m (set_watchedCommands x m)
  | gl_viewers x m : (NoDup (map fst (viewers m)) -> NoDup (map fst x)) -> glob m (set_viewers x m)
  | gl_listeners x m : glob m (set_listeners x m)
  | gl_removeListeners x m : glob m (set_removeListeners x m).

(** Every call is one such change and then moves of Sessions. *)
Definition any_move now m m' : Prop := exists id, smove now id m m'.

Lemma any_moves now id m m' : moves now id m m' -> rtc (any_move now) m m'.
Proof. apply (rtc_subrel (smove now id)). intros. by exists id. Qed.

Lemma any_moves_foldl {A} now (f : Manager -> A -> Manager) (l : list A) m :
  (forall m x, exists id, moves now id m (f m x)) -> rtc (any_move now) m (foldl f m l).
Proof.
  intros Hf. revert m. induction l as [|x l IH]; intros m; [apply rtc_refl|]. simpl.
  destruct (Hf m x) as [id Hm]. etrans; [by eapply any_moves|apply IH].
Qed.

Lemma setViewer_moves now v st lapse m :
  exists m0, glob m m0 /\ rtc (any_move now) m0 (setViewer now v st lapse m).
Proof.
  unfold setViewer. cbv zeta. case_bool_decide; [by exists m; split; [constructor|]|].
  match goal with |- exists m0, _ /\ rtc _ m0 (foldl _ ?x _) => exists x end. split.
  { apply gl_viewers. intros Hn. case_goal;
      [by apply omap_set_NoDup|by apply omap_delete_NoDup]. }
  apply any_moves_foldl. intros m' [id was]. exists id. apply moves_touch.
Qed.

Lemma setWatched_moves now names m :
  exists m0, glob m m0 /\ rtc (any_move now) m0 (setWatchedCommands names m).
Proof.
  unfold setWatchedCommands. cbv zeta. destruct (_ && _); [by exists m; split; [constructor|]|].
  eexists. split; [apply gl_rules|]. apply any_moves_foldl. intros m' id. exists id. apply moves_recheck.
Qed.

Lemma op_moves now op m :
  exists m0, glob m m0 /\ rtc (any_move now) m0 (alert_apply now op m).
Proof.
  destruct op as [id op|id b|names|name b|v st lapse|v|k|k|k|k]; cbn.
  - exists m. split; [constructor|]. by eapply any_moves, session_moves.
  - unfold setHelper. cbv zeta. eexists. split; [apply gl_helpers|].
    case_bool_decide; [by eapply any_moves, moves_notify|done].
  - apply setWatched_moves.
  - unfold setCommandWatched. cbv zeta. destruct (_ || _); [by exists m; split; [constructor|]|]. apply setWatched_moves.
  - apply setViewer_moves.
  - apply setViewer_moves.
  - eexists. split; [apply gl_listeners|apply rtc_refl].
  - eexists. split; [apply gl_listeners|apply rtc_refl].
  - eexists. split; [apply gl_removeListeners|apply rtc_refl].
  - eexists. split; [apply gl_removeListeners|apply rtc_refl].
Qed.

(** An invariant of the moves is an invariant of the calls. *)
Lemma reach_invariant (P : Manager -> Prop) :
  P new_manager ->
  (forall m m', glob m m' -> P m -> P m') ->
  (forall now id m m', smove now id m m' -> P m -> P m') ->
  forall m, alert_reach m -> P m.
Proof.
  intros H0 Hg Hs m. induction 1 as [|now op m Hr IH]; [done|].
  destruct (op_moves now op m) as (m0 & Hm0 & Hrtc). apply (Hg _ _ Hm0) in IH. clear Hm0 Hr.
  induction Hrtc as [|x y z [id Hxy] _ IHr]; [done|]. apply IHr. by eapply Hs.
Qed.

(** ** What a move does to the entries *)

Lemma entry_at_notify id' id m : entry_at id' (notify id m) = entry_at id' m.
Proof. unfold notify. cbv zeta. by destruct (match _ with Some _ => _ | None => _ end). Qed.

Lemma entry_at_eachWaiter id' id f m : entry_at id' (eachWaiter id f m) = entry_at id' m.
Proof. unfold eachWaiter. by destruct (omap_get _ _). Qed.

Lemma entry_at_unregister id' id c m : entry_at id' (unregister id c m) = entry_at id' m.
Proof. unfold unregister. by destruct (claimants m !! id). Qed.

Lemma entry_at_dropWaiter id' id k m : entry_at id' (dropWaiter id k m) = entry_at id' m.
Proof.
  unfold dropWaiter. destruct (omap_get _ _); [|done]. destruct (existsb _ _); [|done]. cbv zeta.
  destruct (filter _ _); [by rewrite entry_at_unregister|done].
Qed.

Lemma entry_at_settle now id' id k how m : entry_at id' (settle now id k how m) = entry_at id' m.
Proof. unfold settle. destruct (waiter_at _ _ _); [|done]. cbv zeta. rewrite entry_at_notify. apply (entry_at_dropWaiter id'). Qed.

Lemma entry_at_addWaiter id' id w m : entry_at id' (addWaiter id w m) = entry_at id' m.
Proof. unfold addWaiter. by destruct (omap_get _ _). Qed.

Lemma entry_at_on_ne id id' f m : id <> id' -> entry_at id' (on_entry id f m) = entry_at id' m.
Proof. intros. unfold on_entry. destruct (entry_at id m); [|done]. unfold entry_at. cbn. by apply omap_get_set_ne. Qed.

Lemma entry_at_create_ne id id' m : id <> id' -> entry_at id' (getOrCreateEntry id m) = entry_at id' m.
Proof. intros. unfold getOrCreateEntry. destruct (entry_at id m); [done|]. unfold entry_at. cbn. by apply omap_get_set_ne. Qed.

Lemma entry_at_create_eq id m : entry_at id (getOrCreateEntry id m) = Some (default new_entry (entry_at id m)).
Proof.
  unfold getOrCreateEntry. destruct (entry_at id m) eqn:E; [by rewrite E|]. unfold entry_at. cbn. apply omap_get_set_eq.
Qed.

(** What raising a ring makes of the entry. *)
Definition raised now (uuid : string) (source : Joining) (d : ActivityNotification) (a : Z) (e : AlertEntry) : AlertEntry :=
  match ring e with
  | None => set_acked false (set_ring (Some (mkRing (mkEpisode uuid now) (addSource (mkSources [] None) source) (mkDated d a))) e)
  | Some r => set_ring (Some (mkRing (episode r) (addSource (ring_set r) source) (takeRicher (ring_dated r) d a))) e
  end.

Lemma entry_at_raise now id id' source d a m :
  entry_at id' (raiseRing now id source d a m) =
  (if decide (id = id') then raised now (randomUUID (uuids m)) source d a <$> entry_at id' m else entry_at id' m).
Proof.
  unfold raiseRing. destruct (decide (id = id')) as [<-|Hne].
  - destruct (entry_at id m) as [e|] eqn:E; [|by rewrite E]. unfold raised. cbn. destruct (ring e) as [r|] eqn:Er.
    + by rewrite entry_at_on, E.
    + rewrite entry_at_on. change (entry_at id (set_uuids _ m)) with (entry_at id m). by rewrite E.
  - destruct (entry_at id m) as [e|]; [|done]. by destruct (ring e); rewrite entry_at_on_ne.
Qed.

(** A move leaves the other Sessions' entries alone. *)
Lemma smove_frame now id id' m m' : smove now id m m' -> id <> id' -> entry_at id' m' = entry_at id' m.
Proof.
  intros Hm Hne. destruct Hm.
  - by apply entry_at_on_ne.
  - by apply entry_at_create_ne.
  - done.
  - done.
  - apply entry_at_notify.
  - done.
  - rewrite entry_at_raise. by rewrite decide_False.
  - rewrite entry_at_eachWaiter. by apply entry_at_on_ne.
  - apply entry_at_eachWaiter.
  - apply entry_at_settle.
  - by rewrite entry_at_addWaiter.
  - done.
  - apply entry_at_unregister.
  - done.
  - unfold entry_at. cbn. by apply omap_get_delete_ne.
  - done.
  - done.
Qed.

(** What a move other than a command's start makes of its own entry. *)
Inductive entry_change now m (e : option AlertEntry) : option AlertEntry -> Prop :=
  | ch_keep f : keeps f -> entry_change now m e (f <$> e)
  | ch_create : entry_change now m e (Some (default new_entry e))
  | ch_delete : entry_change now m e None
  | ch_raise uuid source d a : entry_change now m e (raised now uuid source d a <$> e).

Lemma smove_entry now id m m' :
  smove now id m m' ->
  (exists w, m' = eachWaiter id onCommandStart (on_entry id (set_exitWatch (Some w)) m)) \/
  entry_change now m (entry_at id m) (entry_at id m').
Proof.
  assert (Hid : forall e : option AlertEntry, entry_change now m e e).
  { intros e. pose proof (ch_keep now m e (fun e => e) keeps_id) as H. by destruct e. }
  intros Hm. destruct Hm; first [by left; eexists | right].
  - rewrite entry_at_on. by apply ch_keep.
  - rewrite entry_at_create_eq. apply ch_create.
  - apply Hid.
  - apply Hid.
  - rewrite entry_at_notify. apply Hid.
  - apply Hid.
  - rewrite entry_at_raise, decide_True by done. apply ch_raise.
  - rewrite entry_at_eachWaiter. apply Hid.
  - rewrite entry_at_settle. apply Hid.
  - rewrite entry_at_addWaiter. apply Hid.
  - apply Hid.
  - rewrite entry_at_unregister. apply Hid.
  - apply Hid.
  - unfold entry_at at 2. cbn. rewrite omap_get_delete_eq. apply ch_delete.
  - apply Hid.
  - apply Hid.
Qed.

Lemma raised_ok now uuid source d a e : entry_ok e -> entry_ok (raised now uuid source d a e).
Proof.
  intros H. unfold raised. destruct (ring e) as [r|] eqn:Er.
  - split; cbn; try apply H.
    + intros r' [= <-]. apply addSource_ok. right. by apply (ok_ring e H).
    + intros Ha. pose proof (ok_acked e H Ha). congruence.
  - split; cbn; try apply H; [|done]. intros r' [= <-]. apply addSource_ok. by left.
Qed.

Definition entries_ok m : Prop := forall id e, entry_at id m = Some e -> entry_ok e.

Lemma entry_change_ok now m (e e' : option AlertEntry) :
  entry_change now m e e' -> (forall x, e = Some x -> entry_ok x) -> forall x, e' = Some x -> entry_ok x.
Proof.
  intros Hc Hok x Hx. destruct Hc as [f Hf| | |uuid source d a].
  - destruct e as [y|]; [|done]. injection Hx as <-. by apply Hf, Hok.
  - injection Hx as <-. destruct e as [y|]; [by apply Hok|apply new_entry_ok].
  - done.
  - destruct e as [y|]; [|done]. injection Hx as <-. by apply raised_ok, Hok.
Qed.

Lemma smove_entries_ok now id m m' : smove now id m m' -> entries_ok m -> entries_ok m'.
Proof.
  intros Hm Hok id' e' He'. destruct (decide (id = id')) as [<-|Hne].
  - destruct (smove_entry now id m m' Hm) as [[w ->]|Hc].
    + rewrite entry_at_eachWaiter, entry_at_on in He'. destruct (entry_at id m) as [e|] eqn:E; [|done].
      injection He' as <-. destruct (Hok id e E). by split.
    + eapply (entry_change_ok now m (entry_at id m)); [exact Hc|apply Hok|exact He'].
  - rewrite (smove_frame now id id' m m' Hm Hne) in He'. by eapply Hok.
Qed.

(** In every state any calls reach, a ring or a hold has a source and lists
    none twice, an acknowledged quiet Session is not ringing, a held completion
    is on the TODO, and only a TODO keeps a notification of its own. *)
Theorem entries_invariant m id e : alert_reach m -> entry_at id m = Some e -> entry_ok e.
Proof.
  intros Hr. revert id e. apply (reach_invariant entries_ok); [done| |exact smove_entries_ok|exact Hr].
  intros m1 m2 []; done.
Qed.

End Invariant.
