(* ===== verification/AlertAwaits.v ===== *)
(** * Awaits settle exactly once

    The bookkeeping of parked awaits: which are parked where, which claimant
    they share, which have settled; kept by every call. *)
From Stdlib Require Import ZArith QArith Permutation.
From stdpp Require Import relations.
From S2P Require Import Prelude QuiesceDetector JsValue TerminalState AlertModel AlertManager AlertEntry AlertSteps AlertInvariant.
Import Alert.
#[local] Open Scope nat_scope.

Section Awaits.
  Context `{Env : AlertEnv}.
  Implicit Types (m : Manager) (id : string) (now : Z).

(** Every parked await, and those that settled. *)
Definition all_waiters m : list AwaitWaiter := concat (map snd (awaits m)).
Definition others id m : list AwaitWaiter := concat (map snd (omap_delete id (awaits m))).
Definition settled_ids (fx : list Effect) : list nat :=
  omap (fun x => match x with Outcome k _ => Some k | _ => None end) fx.

Record awaits_ok m : Prop := {
  aw_keys : NoDup (map fst (awaits m));
  aw_groups : forall id g, omap_get id (awaits m) = Some g -> g <> [];
  (** the claimant of a Session's awaits is registered while there are any *)
  aw_claim : forall id, AwaitClaimant ∈ claimants_of id m <-> is_Some (omap_get id (awaits m));
  (** every await ever parked is parked or has settled, once *)
  aw_once : map w_id (all_waiters m) ++ settled_ids (effects m) ≡ₚ seq 0 (waiters m);
  (** an await's grace runs only while no command does *)
  aw_grace : forall id w e, w ∈ parked id m -> is_Some (w_grace w) -> entry_at id m = Some e -> commandExitWatch e = None
}.

(** ** The parked awaits of one Session and of the others *)

Lemma all_waiters_split id m : NoDup (map fst (awaits m)) -> all_waiters m ≡ₚ parked id m ++ others id m.
Proof.
  intros Hk. unfold all_waiters, parked, others. destruct (omap_get id (awaits m)) as [g|] eqn:E.
  - rewrite (concat_map_Permutation snd _ _ (omap_get_Permutation id g (awaits m) Hk E)). done.
  - rewrite omap_delete_none; [done|]. rewrite <- omap_get_is_Some, E. by intros [? ?].
Qed.

Lemma parked_elem id m w : w ∈ parked id m -> w ∈ all_waiters m.
Proof.
  unfold parked, all_waiters. destruct (omap_get id (awaits m)) as [g|] eqn:E; [|by intros ?%elem_of_nil].
  intros Hw. apply omap_get_elem_of in E. apply list_elem_of_In, in_concat. exists g. split.
  - apply list_elem_of_In, list_elem_of_fmap. by exists (id, g).
  - by apply list_elem_of_In.
Qed.

Lemma awaits_ok_NoDup m : awaits_ok m -> NoDup (map w_id (all_waiters m)).
Proof.
  intros H. assert (Hn : NoDup (map w_id (all_waiters m) ++ settled_ids (effects m))).
  { rewrite (aw_once m H). apply NoDup_seq. }
  by apply NoDup_app in Hn as [? _].
Qed.

Lemma settled_ids_notify id m : settled_ids (effects (notify id m)) = settled_ids (effects m).
Proof. unfold notify. cbv zeta. by destruct (match _ with Some _ => _ | None => _ end). Qed.

(** A change that leaves the awaits, their claimants and their commands alone. *)
Lemma awaits_ok_ext m m' :
  awaits m' = awaits m -> (forall id, claimants_of id m' = claimants_of id m) ->
  settled_ids (effects m') = settled_ids (effects m) -> waiters m' = waiters m ->
  (forall id e', entry_at id m' = Some e' -> is_Some (commandExitWatch e') ->
     exists e, entry_at id m = Some e /\ is_Some (commandExitWatch e)) ->
  awaits_ok m -> awaits_ok m'.
Proof.
  intros Ha Hc Hs Hw He H. split.
  - rewrite Ha. apply H.
  - rewrite Ha. apply H.
  - intros id. rewrite Hc, Ha. apply H.
  - unfold all_waiters. rewrite Ha, Hs, Hw. apply H.
  - intros id w e' Hp Hg He'. unfold parked in Hp. rewrite Ha in Hp. apply eq_None_not_Some. intros Hex.
    destruct (He id e' He' Hex) as (e & E & Hx). rewrite (aw_grace m H id w e Hp Hg E) in Hx. by destruct Hx.
Qed.

(** ** Settling *)

Lemma notify_fields id m :
  awaits (notify id m) = awaits m /\ claimants (notify id m) = claimants m /\ waiters (notify id m) = waiters m /\
  entries (notify id m) = entries m.
Proof. unfold notify. cbv zeta. by destruct (match _ with Some _ => _ | None => _ end). Qed.

Lemma claimants_unregister id id' c m :
  c ∈ claimants_of id' (unregister id c m) <-> c ∈ claimants_of id' m /\ id <> id'.
Proof.
  unfold unregister, claimants_of. destruct (claimants m !! id) as [cs|] eqn:E; cbn.
  - case_bool_decide as Hf; cbn; (destruct (decide (id = id')) as [<-|Hne]).
    + rewrite lookup_delete_eq. cbn. split; [by intros ?%elem_of_nil|tauto].
    + rewrite lookup_delete_ne by done. tauto.
    + rewrite lookup_insert_eq. cbn. rewrite list_elem_of_filter. tauto.
    + rewrite lookup_insert_ne by done. tauto.
  - destruct (decide (id = id')) as [<-|Hne]; [|tauto]. rewrite E. cbn. split; [by intros ?%elem_of_nil|tauto].
Qed.

Lemma claimants_unregister_other id id' c c' m :
  c <> c' -> (c' ∈ claimants_of id' (unregister id c m) <-> c' ∈ claimants_of id' m).
Proof.
  intros Hc. unfold unregister, claimants_of. destruct (claimants m !! id) as [cs|] eqn:E; cbn; [|done].
  case_bool_decide as Hf; cbn; (destruct (decide (id = id')) as [<-|Hne]).
  - rewrite lookup_delete_eq, E. cbn. split; [by intros ?%elem_of_nil|]. intros Hin.
    assert (Hx : c' ∈ filter (fun x => x <> c) cs) by (apply list_elem_of_filter; auto).
    rewrite Hf in Hx. by apply elem_of_nil in Hx.
  - by rewrite lookup_delete_ne.
  - rewrite lookup_insert_eq, E. cbn. rewrite list_elem_of_filter. intuition congruence.
  - by rewrite lookup_insert_ne.
Qed.

Lemma dropWaiter_fields id k m :
  waiters (dropWaiter id k m) = waiters m /\ effects (dropWaiter id k m) = effects m /\
  entries (dropWaiter id k m) = entries m.
Proof.
  unfold dropWaiter. destruct (omap_get id (awaits m)); [|done]. destruct (existsb _ _); [|done]. cbv zeta.
  destruct (filter _ _); [|done]. unfold unregister. by destruct (claimants _ !! id).
Qed.

Lemma awaits_unregister id c m : awaits (unregister id c m) = awaits m.
Proof. unfold unregister. by destruct (claimants m !! id). Qed.

Lemma others_dropWaiter id k m : others id (dropWaiter id k m) = others id m.
Proof.
  unfold dropWaiter, others. destruct (omap_get id (awaits m)); [|done]. destruct (existsb _ _); [|done]. cbv zeta.
  destruct (filter _ _); [rewrite awaits_unregister|]; cbn; [by rewrite omap_delete_delete|by rewrite omap_delete_set].
Qed.

Lemma dropWaiter_keys id k m : NoDup (map fst (awaits m)) -> NoDup (map fst (awaits (dropWaiter id k m))).
Proof.
  intros H. unfold dropWaiter. destruct (omap_get id (awaits m)); [|done]. destruct (existsb _ _); [|done]. cbv zeta.
  destruct (filter _ _); [rewrite awaits_unregister|]; cbn; [by apply omap_delete_NoDup|by apply omap_set_NoDup].
Qed.

(** The groups and their claimant after one await goes. *)
Lemma dropWaiter_groups id k m :
  awaits_ok m ->
  (forall id' g, omap_get id' (awaits (dropWaiter id k m)) = Some g -> g <> []) /\
  (forall id', AwaitClaimant ∈ claimants_of id' (dropWaiter id k m) <-> is_Some (omap_get id' (awaits (dropWaiter id k m)))).
Proof.
  intros H. unfold dropWaiter. destruct (omap_get id (awaits m)) as [g|] eqn:E; [|split; apply H].
  destruct (existsb _ _); [|split; apply H]. cbv zeta. destruct (filter _ g) as [|w g'] eqn:Ef.
  - rewrite !awaits_unregister. cbn. split.
    + intros id' g' Hg. destruct (decide (id = id')) as [<-|Hne]; [by rewrite omap_get_delete_eq in Hg|].
      rewrite omap_get_delete_ne in Hg by done. by eapply aw_groups.
    + intros id'. rewrite claimants_unregister. change (claimants_of id' (set_awaits _ m)) with (claimants_of id' m).
      rewrite (aw_claim m H). destruct (decide (id = id')) as [<-|Hne].
      * rewrite omap_get_delete_eq. split; [tauto|by intros [? ?]].
      * rewrite omap_get_delete_ne by done. tauto.
  - cbn. split.
    + intros id' g2 Hg. destruct (decide (id = id')) as [<-|Hne].
      * rewrite omap_get_set_eq in Hg. injection Hg as <-. done.
      * rewrite omap_get_set_ne in Hg by done. by eapply aw_groups.
    + intros id'. change (claimants_of id' (set_awaits _ m)) with (claimants_of id' m).
      rewrite (aw_claim m H). destruct (decide (id = id')) as [<-|Hne].
      * rewrite omap_get_set_eq, E. split; by eexists.
      * by rewrite omap_get_set_ne.
Qed.

(** Taking one number out of a list that has it once. *)
Lemma filter_ids k (ws : list AwaitWaiter) :
  NoDup (map w_id ws) -> k ∈ map w_id ws ->
  map w_id ws ≡ₚ k :: map w_id (filter (fun w => w_id w <> k) ws).
Proof.
  induction ws as [|w ws IH]; simpl; [by intros _ ?%elem_of_nil|]. intros [Hn Hnd]%NoDup_cons Hk.
  destruct (decide (w_id w = k)) as [<-|Hne].
  - rewrite filter_cons_False by tauto. rewrite filter_all; [done|]. intros x Hx Heq. apply Hn. rewrite <- Heq.
    by apply list_elem_of_fmap_2.
  - rewrite filter_cons_True by done. apply elem_of_cons in Hk as [?|Hk]; [done|]. rewrite (IH Hnd Hk). simpl.
    apply Permutation_swap.
Qed.

Lemma parked_dropWaiter_ne id id' k m : id <> id' -> parked id' (dropWaiter id k m) = parked id' m.
Proof.
  intros Hne. unfold dropWaiter, parked. destruct (omap_get id (awaits m)); [|done]. destruct (existsb _ _); [|done]. cbv zeta.
  destruct (filter _ _); [rewrite awaits_unregister|]; cbn; [by rewrite omap_get_delete_ne|by rewrite omap_get_set_ne].
Qed.

Lemma settle_awaits_ok now id k how m : awaits_ok m -> awaits_ok (settle now id k how m).
Proof.
  intros H. unfold settle. destruct (waiter_at id k m) as [w|] eqn:E; [|done]. cbv zeta.
  apply waiter_at_Some in E as [Hw Hk].
  pose proof (dropWaiter_fields id k m) as (Hwt & Hfx & Hen). pose proof (dropWaiter_groups id k m H) as [Hg Hc].
  set (m1 := dropWaiter id k m) in *. set (m2 := emit _ m1).
  apply (awaits_ok_ext m2); try apply notify_fields; try apply settled_ids_notify.
  { intros id'. unfold claimants_of. by rewrite (proj1 (proj2 (notify_fields id m2))). }
  { intros id' e' He'. rewrite entry_at_notify in He'. eauto. }
  split; cbn.
  - apply dropWaiter_keys, H.
  - exact Hg.
  - exact Hc.
  - change (all_waiters m2) with (all_waiters m1). rewrite (all_waiters_split id m1) by apply dropWaiter_keys, H.
    rewrite Hfx, Hwt. unfold m1. rewrite parked_dropWaiter, others_dropWaiter.
    change (omap _ (effects m)) with (settled_ids (effects m)).
    rewrite <- (aw_once m H), (all_waiters_split id m) by apply H. rewrite !map_app.
    rewrite (filter_ids k (parked id m)).
    + simpl. rewrite <- Permutation_middle. done.
    + pose proof (awaits_ok_NoDup m H) as Hnd. rewrite (all_waiters_split id m), map_app in Hnd by apply H.
      by apply NoDup_app in Hnd as [? _].
    + rewrite <- Hk. by apply list_elem_of_fmap_2.
  - intros id' w' e Hp Hgr He. unfold entry_at in He. cbn in He. rewrite Hen in He.
    change (w' ∈ parked id' m1) in Hp. destruct (decide (id = id')) as [<-|Hne].
    + unfold m1 in Hp. rewrite parked_dropWaiter in Hp. apply list_elem_of_filter in Hp as [_ Hp]. by eapply aw_grace.
    + unfold m1 in Hp. rewrite parked_dropWaiter_ne in Hp by done. by eapply aw_grace.
Qed.

(** ** Parking *)

Lemma claimants_register id id' c c' m :
  c' ∈ claimants_of id' (registerCompletionClaimant id c m) <-> c' ∈ claimants_of id' m \/ (c' = c /\ id' = id).
Proof.
  unfold registerCompletionClaimant, claimants_of at 1. cbn. destruct (decide (id = id')) as [<-|Hne].
  - rewrite lookup_insert_eq. cbn. case_bool_decide as Hc; [intuition congruence|]. rewrite elem_of_app, list_elem_of_singleton. intuition congruence.
  - rewrite lookup_insert_ne by done. unfold claimants_of. intuition congruence.
Qed.

Lemma others_addWaiter id w m : others id (addWaiter id w m) = others id m.
Proof. unfold addWaiter, others. destruct (omap_get id (awaits m)); cbn; by rewrite omap_delete_set. Qed.

Lemma parked_addWaiter id w m : parked id (addWaiter id w m) = parked id m ++ [w].
Proof. unfold addWaiter, parked. destruct (omap_get id (awaits m)) eqn:E; cbn; by rewrite omap_get_set_eq. Qed.

Lemma parked_addWaiter_ne id id' w m : id <> id' -> parked id' (addWaiter id w m) = parked id' m.
Proof. intros. unfold addWaiter, parked. destruct (omap_get id (awaits m)); cbn; by rewrite omap_get_set_ne. Qed.

Lemma addWaiter_fields id w m :
  waiters (addWaiter id w m) = waiters m /\ effects (addWaiter id w m) = effects m.
Proof. unfold addWaiter. by destruct (omap_get id (awaits m)). Qed.

Lemma addWaiter_keys id w m : NoDup (map fst (awaits m)) -> NoDup (map fst (awaits (addWaiter id w m))).
Proof. intros. unfold addWaiter. destruct (omap_get id (awaits m)); cbn; by apply omap_set_NoDup. Qed.

Lemma addWaiter_groups id w m :
  awaits_ok m ->
  (forall id' g, omap_get id' (awaits (addWaiter id w m)) = Some g -> g <> []) /\
  (forall id', AwaitClaimant ∈ claimants_of id' (addWaiter id w m) <-> is_Some (omap_get id' (awaits (addWaiter id w m)))).
Proof.
  intros H. unfold addWaiter. destruct (omap_get id (awaits m)) as [g0|] eqn:E; cbn; split; intros id'.
  - intros g Hg. destruct (decide (id = id')) as [<-|Hne].
    + rewrite omap_get_set_eq in Hg. injection Hg as <-. by destruct g0.
    + rewrite omap_get_set_ne in Hg by done. by eapply aw_groups.
  - change (claimants_of id' (set_awaits _ m)) with (claimants_of id' m). rewrite (aw_claim m H).
    destruct (decide (id = id')) as [<-|Hne]; [rewrite omap_get_set_eq, E; split; by eexists|by rewrite omap_get_set_ne].
  - intros g Hg. destruct (decide (id = id')) as [<-|Hne].
    + rewrite omap_get_set_eq in Hg. by injection Hg as <-.
    + rewrite omap_get_set_ne in Hg by done. by eapply aw_groups.
  - change (claimants_of id' (set_awaits ?a ?x)) with (claimants_of id' x). rewrite claimants_register, (aw_claim m H).
    destruct (decide (id = id')) as [<-|Hne]; [rewrite omap_get_set_eq; split; [by eexists|by right]|].
    rewrite omap_get_set_ne by done. intuition congruence.
Qed.

Lemma park_awaits_ok id w m :
  w_id w = waiters m -> (is_Some (w_grace w) -> entry_at id m ≫= commandExitWatch = None) ->
  awaits_ok m -> awaits_ok (addWaiter id w (set_waiters (S (waiters m)) m)).
Proof.
  intros Hid Hgr H. set (m0 := set_waiters (S (waiters m)) m).
  pose proof (addWaiter_fields id w m0) as [Hw Hfx]. pose proof (addWaiter_groups id w m H) as [Hg Hc].
  assert (Ea : awaits (addWaiter id w m0) = awaits (addWaiter id w m)).
  { unfold addWaiter. cbn. by destruct (omap_get id (awaits m)). }
  assert (Ec : forall id', claimants_of id' (addWaiter id w m0) = claimants_of id' (addWaiter id w m)).
  { intros id'. unfold addWaiter. cbn. by destruct (omap_get id (awaits m)). }
  split.
  - apply addWaiter_keys, H.
  - rewrite Ea. exact Hg.
  - intros id'. rewrite Ea, Ec. apply Hc.
  - rewrite (all_waiters_split id) by apply addWaiter_keys, H. rewrite parked_addWaiter, others_addWaiter, Hw, Hfx.
    unfold m0. cbn [waiters effects set_waiters]. rewrite seq_S, <- (aw_once m H), (all_waiters_split id m) by apply H.
    rewrite !map_app. simpl. change (parked id (set_waiters _ m)) with (parked id m). change (others id (set_waiters _ m)) with (others id m).
    rewrite Hid, <- !(assoc_L (++)). f_equiv. by rewrite (Permutation_app_comm [_]), <- (assoc_L (++)).
  - intros id' w' e Hp Hg' He. rewrite entry_at_addWaiter in He. change (entry_at id' m0) with (entry_at id' m) in He.
    destruct (decide (id = id')) as [<-|Hne].
    + rewrite parked_addWaiter in Hp. apply elem_of_app in Hp as [Hp| ->%list_elem_of_singleton]; [by eapply (aw_grace m)|].
      specialize (Hgr Hg'). by rewrite He in Hgr.
    + rewrite parked_addWaiter_ne in Hp by done. by eapply (aw_grace m).
Qed.

(** ** Graces answered *)

Lemma parked_eachWaiter id f m : parked id (eachWaiter id f m) = map f (parked id m).
Proof.
  unfold eachWaiter, parked. destruct (omap_get id (awaits m)) eqn:E; cbn; [by rewrite omap_get_set_eq|by rewrite E].
Qed.

Lemma parked_eachWaiter_ne id id' f m : id <> id' -> parked id' (eachWaiter id f m) = parked id' m.
Proof. intros. unfold eachWaiter, parked. destruct (omap_get id (awaits m)); cbn; [by rewrite omap_get_set_ne|done]. Qed.

Lemma eachWaiter_awaits_ok id f m :
  (forall w, w_id (f w) = w_id w) -> (forall w, is_Some (w_grace (f w)) -> is_Some (w_grace w)) ->
  awaits_ok m -> awaits_ok (eachWaiter id f m).
Proof.
  intros Hf Hg H. assert (Hm : forall ws, map w_id (map f ws) = map w_id ws).
  { intros ws. rewrite map_map. by apply map_ext. }
  assert (Hn : NoDup (map fst (awaits (eachWaiter id f m)))).
  { unfold eachWaiter. destruct (omap_get id (awaits m)); [apply omap_set_NoDup|]; apply H. }
  assert (Hfx : effects (eachWaiter id f m) = effects m /\ waiters (eachWaiter id f m) = waiters m).
  { unfold eachWaiter. by destruct (omap_get id (awaits m)). }
  assert (Ho : others id (eachWaiter id f m) = others id m).
  { unfold eachWaiter, others. destruct (omap_get id (awaits m)); [|done]. cbn. by rewrite omap_delete_set. }
  split.
  - exact Hn.
  - intros id' g Hgr. unfold eachWaiter in Hgr. destruct (omap_get id (awaits m)) as [g0|] eqn:E; [|by eapply aw_groups].
    cbn in Hgr. destruct (decide (id = id')) as [<-|Hne].
    + rewrite omap_get_set_eq in Hgr. injection Hgr as <-. pose proof (aw_groups m H id g0 E). by destruct g0.
    + rewrite omap_get_set_ne in Hgr by done. by eapply aw_groups.
  - intros id'. unfold eachWaiter. destruct (omap_get id (awaits m)) as [g0|] eqn:E; [|apply H].
    change (claimants_of id' (set_awaits _ m)) with (claimants_of id' m). rewrite (aw_claim m H). cbn.
    destruct (decide (id = id')) as [<-|Hne]; [rewrite omap_get_set_eq, E; split; by eexists|by rewrite omap_get_set_ne].
  - rewrite (all_waiters_split id) by done. rewrite parked_eachWaiter, Ho, map_app, Hm, (proj1 Hfx), (proj2 Hfx).
    rewrite <- (aw_once m H), (all_waiters_split id m), map_app by apply H. done.
  - intros id' w e Hp Hgr He. rewrite entry_at_eachWaiter in He. destruct (decide (id = id')) as [<-|Hne].
    + rewrite parked_eachWaiter in Hp. apply list_elem_of_fmap in Hp as (w' & -> & Hp). eapply aw_grace; [done|exact Hp|by apply Hg|done].
    + rewrite parked_eachWaiter_ne in Hp by done. by eapply (aw_grace m).
Qed.

Lemma clearGrace_none w : w_grace (clearGrace w) = None.
Proof. done. Qed.

(** ** Every move *)

(** A move that keeps a commandless entry commandless. *)
Lemma entry_change_quiet now m (e e' : option AlertEntry) :
  entry_change now m e e' -> (forall x, e = Some x -> entry_ok x) ->
  forall x', e' = Some x' -> is_Some (commandExitWatch x') -> exists x, e = Some x /\ is_Some (commandExitWatch x).
Proof.
  intros Hc Hok. destruct Hc as [f Hf| | |uuid source d a]; intros x' Hx' Hs.
  - destruct e as [x|]; [|done]. injection Hx' as <-. exists x. split; [done|].
    destruct (commandExitWatch x) eqn:E; [by eexists|]. destruct (Hf x (Hok x eq_refl)) as (_ & _ & Hq). rewrite Hq in Hs by done.
    by destruct Hs.
  - injection Hx' as <-. destruct e as [x|]; [by exists x|]. by destruct Hs.
  - done.
  - destruct e as [x|]; [|done]. injection Hx' as <-. exists x. split; [done|]. unfold raised in Hs. by destruct (ring x).
Qed.

Lemma on_entry_fields id f m :
  awaits (on_entry id f m) = awaits m /\ claimants (on_entry id f m) = claimants m /\
  waiters (on_entry id f m) = waiters m /\ effects (on_entry id f m) = effects m.
Proof. unfold on_entry. by destruct (entry_at id m). Qed.

(** The fields of the awaits after a move that does not concern them. *)
Definition same_awaits m m' : Prop :=
  awaits m' = awaits m /\ (forall id, AwaitClaimant ∈ claimants_of id m' <-> AwaitClaimant ∈ claimants_of id m) /\
  settled_ids (effects m') = settled_ids (effects m) /\ waiters m' = waiters m.

Lemma same_awaits_ok m m' :
  same_awaits m m' ->
  (forall id e', entry_at id m' = Some e' -> is_Some (commandExitWatch e') ->
     exists e, entry_at id m = Some e /\ is_Some (commandExitWatch e)) ->
  awaits_ok m -> awaits_ok m'.
Proof.
  intros (Ha & Hc & Hs & Hw) He H. split.
  - rewrite Ha. apply H.
  - rewrite Ha. apply H.
  - intros id. rewrite Hc, Ha. apply H.
  - unfold all_waiters. rewrite Ha, Hs, Hw. apply H.
  - intros id w e' Hp Hg He'. unfold parked in Hp. rewrite Ha in Hp. apply eq_None_not_Some. intros Hex.
    destruct (He id e' He' Hex) as (e & E & Hx). rewrite (aw_grace m H id w e Hp Hg E) in Hx. by destruct Hx.
Qed.

Lemma raise_fields now id source d a m : same_awaits m (raiseRing now id source d a m).
Proof.
  unfold raiseRing. destruct (entry_at id m) as [e|]; [|by split_all].
  destruct (ring e); [|change (same_awaits m (on_entry id (fun e => set_acked false (set_ring
    (Some (mkRing (mkEpisode (randomUUID (uuids m)) now) (addSource (mkSources [] None) source) (mkDated d a))) e))
    (set_uuids (S (uuids m)) m)))];
  match goal with |- same_awaits m (on_entry id ?f ?x) => destruct (on_entry_fields id f x) as (E1 & E2 & E3 & E4);
    unfold same_awaits, claimants_of; by rewrite E1, E2, E3, E4 end.
Qed.

(** The command that starts answers every grace before anything else sees it. *)
Lemma command_awaits_ok id w m :
  awaits_ok m -> awaits_ok (eachWaiter id onCommandStart (on_entry id (set_exitWatch (Some w)) m)).
Proof.
  intros H.
  assert (H1 : awaits_ok (eachWaiter id onCommandStart m)) by (apply eachWaiter_awaits_ok; [done|intros w'; by intros [? ?]|done]).
  assert (Ec : forall x, awaits x = awaits m -> claimants x = claimants m -> waiters x = waiters m -> effects x = effects m ->
    same_awaits (eachWaiter id onCommandStart m) (eachWaiter id onCommandStart x)).
  { intros x E1 E2 E3 E4. unfold same_awaits, eachWaiter, claimants_of. rewrite E1.
    destruct (omap_get id (awaits m)); cbn; rewrite ?E1, ?E2, ?E3, ?E4; done. }
  destruct (on_entry_fields id (set_exitWatch (Some w)) m) as (E1 & E2 & E3 & E4).
  destruct (Ec _ E1 E2 E3 E4) as (Ha & Hc & Hs & Hw). split.
  - rewrite Ha. apply H1.
  - rewrite Ha. apply H1.
  - intros id'. rewrite Hc, Ha. apply H1.
  - unfold all_waiters. rewrite Ha, Hs, Hw. apply H1.
  - intros id' w' e Hp Hg He. unfold parked in Hp. rewrite Ha in Hp. change (w' ∈ parked id' (eachWaiter id onCommandStart m)) in Hp.
    destruct (decide (id = id')) as [<-|Hne].
    + rewrite parked_eachWaiter in Hp. apply list_elem_of_fmap in Hp as (w2 & -> & _). by destruct Hg.
    + rewrite entry_at_eachWaiter, entry_at_on_ne in He by done. rewrite parked_eachWaiter_ne in Hp by done. by eapply (aw_grace m).
Qed.

Lemma smove_awaits_ok now id m m' : smove now id m m' -> entries_ok m -> awaits_ok m -> awaits_ok m'.
Proof.
  intros Hm Hok H. destruct (smove_entry now id m m' Hm) as [[w ->]|Hch]; [by apply command_awaits_ok|].
  pose proof (entry_change_quiet now m _ _ Hch (Hok id)) as Hq.
  assert (Hext : same_awaits m m' -> awaits_ok m').
  { intros Hs. apply (same_awaits_ok m); [done| |done]. intros id' e' He' Hx.
    destruct (decide (id = id')) as [<-|Hne]; [by eapply Hq|].
    rewrite (smove_frame now id id' m m' Hm Hne) in He'. eauto. }
  clear Hq Hch. destruct Hm as [f m Hf|m|m|m|m|a m|source d a m Heng|w m|m|k how m|w m Hid _ Hgr|k m|k m|m Hp|m _|m|ls m];
    try (by apply Hext; unfold same_awaits; split_all).
  - apply Hext. destruct (on_entry_fields id f m) as (E1 & E2 & E3 & E4). unfold same_awaits, claimants_of. by rewrite E1, E2, E3, E4.
  - apply Hext. unfold getOrCreateEntry. by destruct (entry_at id m).
  - apply Hext. destruct (notify_fields id m) as (E1 & E2 & E3 & _). unfold same_awaits, claimants_of. by rewrite E1, E2, E3, settled_ids_notify.
  - apply Hext, raise_fields.
  - by apply command_awaits_ok.
  - apply eachWaiter_awaits_ok; [| |done].
    + intros w. unfold onOutput. by destruct (bool_decide _).
    + intros w. unfold onOutput. destruct (bool_decide _); [by intros [? ?]|done].
  - by apply settle_awaits_ok.
  - by apply park_awaits_ok.
  - apply Hext. unfold same_awaits. split_all; try done. intros id'. rewrite claimants_register. intuition congruence.
  - apply Hext. unfold same_awaits. split_all; [apply awaits_unregister| | |].
    + intros id'. by apply claimants_unregister_other.
    + unfold unregister. by destruct (claimants m !! id).
    + unfold unregister. by destruct (claimants m !! id).
  - apply Hext. unfold same_awaits. split_all; try done. intros id'. unfold claimants_of. cbn. destruct (decide (id = id')) as [<-|Hne].
    + rewrite lookup_delete_eq. split; [by intros ?%elem_of_nil|]. intros Hc. change (AwaitClaimant ∈ claimants_of id m) in Hc.
      apply (aw_claim m H) in Hc as [g Hg]. unfold parked in Hp. rewrite Hg in Hp. by destruct (aw_groups m H id g Hg).
    + by rewrite lookup_delete_ne.
Qed.

Lemma reach_awaits_ok m : alert_reach m -> entries_ok m /\ awaits_ok m.
Proof.
  apply (reach_invariant (fun m => entries_ok m /\ awaits_ok m)).
  - split; [done|]. split; cbn; try done; [apply NoDup_nil_2|].
    intros id. split; [by intros ?%elem_of_nil|by intros [? ?]].
  - intros m1 m2 Hg [H1 H2]. split; [by destruct Hg|]. apply (same_awaits_ok m1); [by destruct Hg| |done].
    intros id e' He Hx. exists e'. by destruct Hg.
  - intros now id m1 m2 Hs [H1 H2]. split; [by eapply smove_entries_ok|by eapply smove_awaits_ok].
Qed.

(** In every state any calls reach, every await that was ever parked is
    either still parked, on one Session, or has settled, and then once: the
    numbers of the parked awaits and of the outcomes delivered are together
    exactly the numbers handed out. *)
Theorem awaits_settle_once m :
  alert_reach m -> map w_id (all_waiters m) ++ settled_ids (effects m) ≡ₚ seq 0 (waiters m).
Proof. intros Hr. apply aw_once, (reach_awaits_ok m Hr). Qed.

(** An await's grace, whose end answers that nothing was running, is pending
    only while no command runs in its Session. *)
Theorem grace_needs_no_command m id w e :
  alert_reach m -> w ∈ parked id m -> is_Some (w_grace w) -> entry_at id m = Some e -> commandExitWatch e = None.
Proof. intros Hr. apply (aw_grace m), (reach_awaits_ok m Hr). Qed.

End Awaits.
