(* ===== verification/AlertPublish.v ===== *)
(** * Every visible change is published

    What subscribers last heard of a Session is its state, after every call.
    [clean] says so of one Session; moves of other Sessions keep it, [notify]
    brings it about, and the rest of a method either ends in [notify] or leaves
    the visible part of the entry as it was. *)
From Stdlib Require Import ZArith QArith.
From stdpp Require Import relations.
From S2P Require Import Prelude QuiesceDetector JsValue TerminalState AlertModel AlertManager.
From S2P Require Import AlertEntry AlertSteps AlertInvariant AlertAwaits.
Import Alert.
#[local] Open Scope Z_scope.

(** ** Equality of published states *)

Lemma alertStatesEqual_refl a : alertStatesEqual a a = true.
Proof. unfold alertStatesEqual. by rewrite !bool_decide_true, !eqb_reflx. Qed.

(** States that say the same, field by field; of an episode, whether it is the
    same one. *)
Definition same_state (a b : AlertState) : Prop :=
  st_status a = st_status b /\ st_watchingEnabled a = st_watchingEnabled b /\ st_todo a = st_todo b /\
  st_awaited a = st_awaited b /\ ep_id <$> st_episode a = ep_id <$> st_episode b /\ st_notification a = st_notification b.

Lemma alertStatesEqual_spec a b :
  alertStatesEqual a b = true <-> same_state a b.
Proof. unfold alertStatesEqual, same_state. rewrite !andb_true_iff, !bool_decide_eq_true, !eqb_true_iff. tauto. Qed.

#[export] Instance AlertState_equiv : Equiv AlertState := same_state.

#[export] Instance AlertState_equivalence : Equivalence (≡@{AlertState}).
Proof.
  split.
  - intros a. by repeat split.
  - intros a b (? & ? & ? & ? & ? & ?). by repeat split.
  - intros a b c (? & ? & ? & ? & ? & ?) (? & ? & ? & ? & ? & ?). unfold equiv, AlertState_equiv, same_state.
    split_all; congruence.
Qed.

Section Publish.
  Context `{Env : AlertEnv}.
  Implicit Types (m : Manager) (e : AlertEntry) (id : string) (now : Z).

(** What is visible of an entry. *)
Definition view e :=
  ((episode <$> ring e, (fun r => detail (ring_dated r)) <$> ring e, bool_decide (progress e = None)),
   (commandExitWatch e ≫= watchKey, seen <$> commandExitWatch e, status (detector e), todo e, notification e)).

Lemma getState_view id m m' :
  view <$> entry_at id m' = view <$> entry_at id m -> inert id m' = inert id m -> isEngaged id m' = isEngaged id m ->
  watchedCommands m' = watchedCommands m -> length (parked id m') = length (parked id m) ->
  getState id m' = getState id m.
Proof.
  intros Hv Hi He Hw Hp. unfold getState. rewrite Hi, Hp.
  destruct (entry_at id m') as [e'|], (entry_at id m) as [e|]; cbn in Hv; try done.
  injection Hv as Hep Hd Hpr Hk Hs Hst Ht Hn. destruct (inert id m); [done|].
  assert (HW : isWatching e' m' = isWatching e m) by (unfold isWatching; by rewrite Hk, Hw).
  assert (HR : bool_decide (ring e' = None) = bool_decide (ring e = None)).
  { apply bool_decide_ext. by destruct (ring e'), (ring e). }
  unfold getProjectedStatus. rewrite HW, HR, Hpr, Hs, Hst, He, Hep, Ht. f_equal.
  destruct (ring e'), (ring e); cbn in Hd; congruence.
Qed.

(** Subscribers have heard the state of [id]. *)
Definition clean id m : Prop := default DEFAULT_ALERT_STATE (lastEmitted m !! id) ≡ getState id m.

Lemma clean_view id m m' :
  lastEmitted m' !! id = lastEmitted m !! id ->
  view <$> entry_at id m' = view <$> entry_at id m -> inert id m' = inert id m -> isEngaged id m' = isEngaged id m ->
  watchedCommands m' = watchedCommands m -> length (parked id m') = length (parked id m) ->
  clean id m -> clean id m'.
Proof. intros Hl Hv Hi He Hw Hp Hc. unfold clean. rewrite Hl, (getState_view id m m') by done. exact Hc. Qed.

(** What a listener sees of a manager, apart from the entries. *)
Definition same_context id m m' : Prop :=
  lastEmitted m' !! id = lastEmitted m !! id /\ inert id m' = inert id m /\ isEngaged id m' = isEngaged id m /\
  watchedCommands m' = watchedCommands m /\ length (parked id m') = length (parked id m).

Lemma clean_context id m m' :
  same_context id m m' -> view <$> entry_at id m' = view <$> entry_at id m -> clean id m -> clean id m'.
Proof. intros (H1 & H2 & H3 & H4 & H5) Hv. by apply clean_view. Qed.

Lemma same_context_refl id m : same_context id m m.
Proof. by split_all. Qed.

Lemma same_context_on_entry id id' f m : same_context id' m (on_entry id f m).
Proof. unfold on_entry. by destruct (entry_at id m). Qed.

Lemma same_context_create id id' m : same_context id' m (getOrCreateEntry id m).
Proof. unfold getOrCreateEntry. by destruct (entry_at id m). Qed.

(** A method that changes nothing visible. *)
Lemma clean_on_entry id f m : (forall e, entry_at id m = Some e -> view (f e) = view e) -> clean id m -> clean id (on_entry id f m).
Proof.
  intros Hf. apply clean_context; [apply same_context_on_entry|]. rewrite entry_at_on.
  destruct (entry_at id m) as [e|]; [|done]. simpl. by rewrite Hf.
Qed.

Lemma clean_notify id m : clean id (notify id m).
Proof.
  unfold notify. cbv zeta. destruct (match _ with Some _ => _ | None => _ end) eqn:E.
  - unfold clean. destruct (lastEmitted m !! id) as [l|]; [by apply alertStatesEqual_spec|]. cbn. unfold getState. rewrite E. by destruct (entry_at id m).
  - unfold clean. cbn [emit set_lastEmitted lastEmitted].
    match goal with |- _ ≡ getState id ?x => change (getState id x) with (getState id m) end.
    case_bool_decide as He; [by rewrite lookup_insert_eq|]. rewrite lookup_delete_eq. cbn. unfold getState.
    destruct (entry_at id m); [by destruct He|done].
Qed.

Lemma clean_settle now id k how m : clean id m -> clean id (settle now id k how m).
Proof. intros H. unfold settle. destruct (waiter_at _ _ _); [apply clean_notify|done]. Qed.

(** ** Moves of one Session leave what is heard of another alone *)

Lemma lastEmitted_notify_ne id id' m : id <> id' -> lastEmitted (notify id m) !! id' = lastEmitted m !! id'.
Proof.
  intros Hne. unfold notify. cbv zeta. destruct (match _ with Some _ => _ | None => _ end); [done|]. cbn.
  case_bool_decide; [by rewrite lookup_insert_ne|by rewrite lookup_delete_ne].
Qed.

Lemma notify_context id id' m : id <> id' -> same_context id' m (notify id m).
Proof.
  intros Hne. split; [by apply lastEmitted_notify_ne|]. unfold notify. cbv zeta.
  by destruct (match _ with Some _ => _ | None => _ end).
Qed.

Lemma dropWaiter_context id id' k m : id <> id' -> same_context id' m (dropWaiter id k m).
Proof.
  intros Hne. unfold same_context. rewrite (parked_dropWaiter_ne id id' k m Hne).
  unfold dropWaiter. destruct (omap_get id (awaits m)); [|done]. destruct (existsb _ _); [|done]. cbv zeta.
  destruct (filter _ _); [|done]. unfold unregister. by destruct (claimants _ !! id).
Qed.

Lemma same_context_trans id m1 m2 m3 : same_context id m1 m2 -> same_context id m2 m3 -> same_context id m1 m3.
Proof. unfold same_context. intuition congruence. Qed.

Lemma settle_context now id id' k how m : id <> id' -> same_context id' m (settle now id k how m).
Proof.
  intros Hne. unfold settle. destruct (waiter_at _ _ _) as [w|]; [|apply same_context_refl]. cbv zeta.
  eapply same_context_trans; [apply (dropWaiter_context id id' k m Hne)|].
  eapply same_context_trans; [|by apply notify_context]. by split_all.
Qed.

Lemma smove_context now id id' m m' : smove now id m m' -> id <> id' -> same_context id' m m'.
Proof.
  intros Hm Hne. destruct Hm as [f m Hf|m|m|m|m|a m|source d a m Heng|w m|m|k how m|w m Hid Hex Hgr|k m|k m|m Hp|m Hp|m|ls m];
    try (by unfold same_context; split_all).
  - apply same_context_on_entry.
  - apply same_context_create.
  - by apply notify_context.
  - unfold raiseRing. destruct (entry_at id m); [|by apply same_context_refl].
    destruct (ring _); [apply same_context_on_entry|].
    eapply same_context_trans; [|apply same_context_on_entry]. by split_all.
  - eapply same_context_trans; [apply same_context_on_entry|]. unfold same_context. rewrite parked_eachWaiter_ne by done.
    unfold eachWaiter. by destruct (omap_get _ _).
  - unfold same_context. rewrite parked_eachWaiter_ne by done. unfold eachWaiter. by destruct (omap_get _ _).
  - by apply settle_context.
  - unfold same_context. rewrite parked_addWaiter_ne by done. unfold addWaiter. by destruct (omap_get _ _).
  - unfold unregister. by destruct (claimants m !! id).
  - unfold same_context, inert. cbn. split_all; try done. apply bool_decide_ext. set_solver.
Qed.

Lemma smove_clean_ne now id id' m m' : smove now id m m' -> id <> id' -> clean id' m -> clean id' m'.
Proof.
  intros Hm Hne. apply clean_context; [by eapply smove_context|]. by rewrite (smove_frame now id id' m m' Hm Hne).
Qed.

Lemma moves_clean_ne now id id' m m' : moves now id m m' -> id <> id' -> clean id' m -> clean id' m'.
Proof. induction 1 as [|m1 m2 m3 H1 _ IH]; [done|]. intros Hne Hc. apply IH; [done|]. by eapply smove_clean_ne. Qed.

(** ** A Session without an entry has no parked await *)

Definition no_orphans m : Prop := forall id, entry_at id m = None -> parked id m = [].

Lemma smove_no_orphans now id m m' : smove now id m m' -> no_orphans m -> no_orphans m'.
Proof.
  intros Hm H id' He'. destruct (decide (id = id')) as [<-|Hne].
  - destruct Hm as [f m Hf|m|m|m|m|a m|source d a m Heng|w m|m|k how m|w m Hid Hex Hgr|k m|k m|m Hp|m Hp|m|ls m];
      try (by apply H).
    + rewrite entry_at_on in He'. change (parked id (on_entry id f m)) with (parked id (on_entry id f m)).
      unfold on_entry. destruct (entry_at id m) eqn:E; [done|]. by apply H.
    + rewrite entry_at_create_eq in He'. done.
    + rewrite parked_notify. rewrite entry_at_notify in He'. by apply H.
    + rewrite entry_at_raise, decide_True in He' by done. unfold raiseRing. destruct (entry_at id m) eqn:E; [done|]. by apply H.
    + rewrite entry_at_eachWaiter, entry_at_on in He'. rewrite parked_eachWaiter. unfold on_entry.
      destruct (entry_at id m) eqn:E; [done|]. by rewrite H.
    + rewrite entry_at_eachWaiter in He'. rewrite parked_eachWaiter. by rewrite H.
    + rewrite entry_at_settle in He'. rewrite parked_settle. by rewrite H.
    + rewrite entry_at_addWaiter in He'. change (entry_at id (set_waiters _ m)) with (entry_at id m) in He'.
      rewrite He' in Hex. by destruct Hex.
    + rewrite entry_at_unregister in He'. unfold parked. rewrite awaits_unregister. by apply H.
    + exact Hp.
  - rewrite (smove_frame now id id' m m' Hm Hne) in He'. pose proof (H id' He') as Hp.
    pose proof (smove_context now id id' m m' Hm Hne) as (_ & _ & _ & _ & Hl). rewrite Hp in Hl.
    by apply length_zero_iff_nil in Hl.
Qed.

Lemma moves_no_orphans now id m m' : moves now id m m' -> no_orphans m -> no_orphans m'.
Proof. induction 1 as [|m1 m2 m3 H1 _ IH]; [done|]. intros H. apply IH. by eapply smove_no_orphans. Qed.

End Publish.

(** ** Every method leaves its Session's state published

    The detector's owner laws for the manager, and that each method of one
    Session ends with what subscribers heard equal to the state. *)

Section Heard.
  Context `{Env : AlertEnv} (now : Z).
  Implicit Types (m : Manager) (e : AlertEntry) (id : string).

(** ** The manager keeps the detector's contract *)

Lemma entry_at_offer_all id id' event m : entry_at id' (offer_all now id event m).1 = entry_at id' m.
Proof.
  unfold offer_all. generalize (parked id m). intros ws. change m with (m, false).1 at 2. generalize (m, false).
  induction ws as [|w ws IH]; intros mc; [done|]. simpl. rewrite IH. unfold offer.
  destruct (awaitCauseFor _ _); [apply entry_at_settle|done].
Qed.

Lemma entry_at_claim id id' event cs m : entry_at id' (claim now id event cs m).1 = entry_at id' m.
Proof.
  revert m. induction cs as [|c cs IH]; intros m; [done|]. cbn.
  assert (Hc : entry_at id' (claim_one now id event c m).1 = entry_at id' m) by (destruct c; [apply entry_at_offer_all|done]).
  destruct (claim_one now id event c m) as [m1 []]; cbn in *; [done|]. by rewrite IH.
Qed.

(** A part of an entry that rings, holds and receipts leave alone. *)
Section Part.
  Context {T : Type} (part : AlertEntry -> T).
  Hypothesis part_hold : forall source d a e, part (hold source d a e) = part e.
  Hypothesis part_receipt : forall d e, part (updateReceipt d e) = part e.
  Hypothesis part_raised : forall t uuid source d a e, part (raised t uuid source d a e) = part e.

Lemma part_on_entry id f m :
  (forall e, part (f e) = part e) -> part <$> entry_at id (on_entry id f m) = part <$> entry_at id m.
Proof using. intros Hf. rewrite entry_at_on. destruct (entry_at id m); [|done]. simpl. by rewrite Hf. Qed.

Lemma part_holdOrDeliver id source d kept m :
  part <$> entry_at id (holdOrDeliver now id source d kept m) = part <$> entry_at id m.
Proof.
  unfold holdOrDeliver. cbv zeta. rewrite entry_at_notify.
  set (m1 := match kept with Some _ => m | None => _ end).
  assert (E1 : entry_at id m1 = entry_at id m) by (subst m1; by destruct kept). rewrite <- E1. clearbody m1.
  destruct (isEngaged id m1); [by apply part_on_entry|].
  match goal with |- context [if ?b then _ else raiseRing _ _ _ _ _ _] => destruct b end.
  - destruct kept; [done|]. by apply part_on_entry.
  - rewrite entry_at_raise, decide_True by done. destruct (entry_at id m1) as [e|]; [|done]. simpl. by rewrite part_raised.
Qed.

Lemma part_dispatch id event m :
  part <$> entry_at id (dispatchCompletion now id event m).1 = part <$> entry_at id m.
Proof.
  unfold dispatchCompletion. destruct (inert id m); [done|].
  pose proof (entry_at_claim id id event (claimants_of id m) m) as Hc.
  destruct (claim _ _ _ _ _) as [m1 []]; cbn [fst] in Hc |- *; [by rewrite Hc|]. rewrite <- Hc.
  destruct (entry_at id m1) as [e|] eqn:E; cbn [fst]; [|by rewrite E]. destruct (inEchoWindow now e); cbn [fst].
  { by rewrite entry_at_notify, E. }
  rewrite <- E. destruct event as [|c k x []|n]; cbn [fst]; try apply part_holdOrDeliver; try done.
  destruct (truthy _); [|done]. destruct (isWatching e m1); [apply part_holdOrDeliver|done].
Qed.

End Part.

Lemma detector_dispatch id event m :
  detector <$> entry_at id (dispatchCompletion now id event m).1 = detector <$> entry_at id m.
Proof.
  apply part_dispatch; [done| |].
  - intros d e. unfold updateReceipt. by destruct (todo e).
  - intros t u s d a e. unfold raised. by destruct (ring e).
Qed.

Lemma detector_onSettled id m : detector <$> entry_at id (onSettled now id m) = detector <$> entry_at id m.
Proof.
  unfold onSettled. destruct (entry_at id m) as [e|] eqn:E; [|by rewrite E]. rewrite <- E. case_bool_decide; [|done].
  pose proof (detector_dispatch id Csettled m) as Hd. destruct (dispatchCompletion _ _ _ _) as [m1 []]; [|exact Hd].
  rewrite entry_at_notify. cbn [fst] in Hd. rewrite <- Hd. apply part_on_entry. intros x.
  unfold invalidateWatching, withdraw_held, withdraw_ring.
  repeat (destruct (dropWatching _) || case_goal); done.
Qed.

#[export] Instance host_laws id : @HostLaws Manager (host now id) (fun m => is_Some (entry_at id m)).
Proof.
  split.
  - intros d m [e E]. cbn. by rewrite entry_at_on, E.
  - intros d m [e E]. cbn. rewrite entry_at_on, E. by eexists.
  - intros st m _. cbn. by rewrite entry_at_notify.
  - intros st m Hm. cbn. by rewrite entry_at_notify.
  - intros m _. cbn. by rewrite detector_onSettled.
  - intros m Hm. cbn. apply (fmap_is_Some detector). rewrite detector_onSettled. by apply fmap_is_Some.
Qed.

(** ** The detector's methods *)

Lemma view_detector d e : status d = status (detector e) -> view (set_detector d e) = view e.
Proof. intros H. unfold view. cbn. by rewrite H. Qed.

(** Published, with a live detector. *)
Definition heard id m : Prop :=
  is_Some (entry_at id m) /\ disposed (get_det (DetectorHost := host now id) m) = false /\ clean id m.

Lemma heard_upd id f m :
  (forall d, status (f d) = status d /\ disposed (f d) = disposed d) -> heard id m -> heard id (upd (H := host now id) f m).
Proof.
  intros Hf ([e E] & Hd & Hc). unfold heard, upd. cbn in Hd |- *. rewrite entry_at_on, E in *. cbn in *. split_all.
  - by eexists.
  - by rewrite (proj2 (Hf _)).
  - apply clean_on_entry; [|done]. intros e' E'. rewrite E in E'. injection E' as <-. apply view_detector, Hf.
Qed.

Lemma heard_setStatus id st m : heard id m -> heard id (setStatus (H := host now id) st (fun s => s) m).
Proof.
  intros ([e E] & Hd & Hc). unfold setStatus. case_bool_decide; [done|]. cbv zeta. unfold upd. cbn in Hd |- *.
  rewrite entry_at_on, E in *. cbn in *. rewrite bool_decide_true by done. rewrite Hd. cbn. unfold heard. cbn.
  rewrite entry_at_notify, entry_at_on, E. cbn. split_all; [by eexists|done|apply clean_notify].
Qed.

Lemma heard_enterMightBeBusy id m : heard id m -> heard id (enterMightBeBusy (H := host now id) now m).
Proof. intros. unfold enterMightBeBusy. apply heard_upd; [done|]. apply heard_setStatus. by apply heard_upd. Qed.

Lemma heard_enterBusy id m : heard id m -> heard id (enterBusy (H := host now id) now m).
Proof. intros. unfold enterBusy. apply heard_upd; [done|]. apply heard_setStatus. by repeat apply heard_upd. Qed.

Lemma status_startCandidate d :
  status (startBusyCandidateTimer now d) = status d /\ disposed (startBusyCandidateTimer now d) = disposed d.
Proof. unfold startBusyCandidateTimer. by destruct (timers d !! _). Qed.

Lemma clean_detector_data id m :
  is_Some (entry_at id m) -> clean id m -> clean id (QuiesceDetector.onData (H := host now id) now m).1.
Proof.
  intros He Hc. unfold QuiesceDetector.onData. destruct (disposed (get_det m)) eqn:Hd; [done|]. cbv zeta.
  assert (H1 : heard id (expire (H := host now id) now m)).
  { unfold expire. destruct (history_expired _ _); [|by split_all]. apply heard_setStatus. by repeat apply heard_upd. }
  set (m1 := expire now m) in *. clearbody m1. destruct (unasked _ _); [apply H1|].
  set (f := fun d : Detector => _). pose proof (heard_upd id f m1 (fun d => conj eq_refl eq_refl) H1) as H2.
  set (m2 := upd f m1) in *. clearbody m2. cbn [fst].
  match goal with |- clean id ?x => cut (heard id x); [by intros (_ & _ & ?)|] end.
  destruct (status _).
  - unfold handleNothingToShowOutput. destruct (firstOutputAt _).
    + cbv zeta. destruct (_ <=? _); [apply heard_enterMightBeBusy|]; by apply heard_upd.
    + apply heard_upd; [|done]. intros d. exact (status_startCandidate (with_tracking (Some now) (lastOutputAt d) 1 d)).
  - by apply heard_enterBusy.
  - by apply heard_upd.
  - by apply heard_enterBusy.
Qed.

#[local] Abbreviation gd id := (get_det (DetectorHost := host now id)).
#[local] Abbreviation hupd id := (upd (H := host now id)).

Lemma clean_settled id m :
  heard id m -> status (gd id m) <> NOTHING_TO_SHOW ->
  clean id (setStatus (H := host now id) NOTHING_TO_SHOW (QuiesceDetector.onSettled (DetectorHost := host now id)) m).
Proof.
  intros ([e E] & Hd & Hc) Hs. unfold setStatus. rewrite bool_decide_false by done. cbv zeta.
  set (m1 := hupd id (with_status NOTHING_TO_SHOW) m).
  assert (E2 : gd id m1 = with_status NOTHING_TO_SHOW (gd id m)).
  { subst m1. unfold upd. apply (get_set_det (HostLaws := host_laws id)). by eexists. }
  assert (E1 : gd id (QuiesceDetector.onSettled (DetectorHost := host now id) m1) = with_status NOTHING_TO_SHOW (gd id m)).
  { rewrite <- E2. apply (onSettled_det (HostLaws := host_laws id)). subst m1. cbn. rewrite entry_at_on, E. by eexists. }
  rewrite E1, bool_decide_true by done. change (disposed (with_status ?a ?b)) with (disposed b). rewrite Hd.
  apply clean_notify.
Qed.

Lemma seed_keeps d : status (seedFromLatestOutput now d) = status d /\ disposed (seedFromLatestOutput now d) = disposed d.
Proof. unfold seedFromLatestOutput. destruct (lastOutputAt d) as [l|]; [|done]. exact (status_startCandidate (with_tracking (Some l) (Some l) 1 d)). Qed.

Lemma clean_fire_detector id kind m : clean id m -> clean id (fire_detector now id kind m).
Proof.
  intros Hc. unfold fire_detector. destruct (entry_at id m) as [e|] eqn:E; [|done]. unfold fire_timer.
  destruct (timers _ !! kind) as [due|]; [|done]. destruct (due <=? now); [|done]. unfold timer_callback. cbv zeta.
  set (f := fun d : Detector => _).
  assert (E1 : gd id (hupd id f m) = f (gd id m)) by (unfold upd; apply (get_set_det (HostLaws := host_laws id)); by eexists).
  rewrite E1. change (disposed (f ?d)) with (disposed d). destruct (disposed (gd id m)) eqn:Hd.
  - unfold upd. cbn. apply clean_on_entry; [|done]. intros e' E'. rewrite E in E'. injection E' as <-.
    apply view_detector. cbn. by rewrite E.
  - assert (H1 : heard id m) by (split; [by eexists|by split]).
    pose proof (heard_upd id f m (fun d => conj eq_refl eq_refl) H1) as H2.
    assert (Hs : status (gd id (hupd id f m)) = status (gd id m)) by by rewrite E1.
    change (status (f ?d)) with (status d). rewrite <- Hs. clear Hs E1. set (m1 := hupd id f m) in *. clearbody m1.
    destruct kind.
    + destruct (_ && _); [apply heard_enterMightBeBusy|]; apply H2.
    + destruct (negb _); [apply H2|]. apply heard_setStatus, heard_upd; [apply seed_keeps|done].
    + destruct (negb _); [apply H2|]. apply heard_upd; [done|]. by apply heard_setStatus.
    + destruct (negb _) eqn:Es; [apply H2|]. apply negb_false_iff, bool_decide_eq_true in Es.
      apply clean_settled; [by apply heard_upd|]. unfold upd. rewrite (get_set_det (HostLaws := host_laws id)); [|apply H2].
      change (status (resetOutputTracking ?d)) with (status d). by rewrite Es.
Qed.

End Heard.
