(* ===== verification/AlertSubscribe.v ===== *)
(** * Subscribers are never behind

    Every call leaves what subscribers heard of every Session equal to its
    state, and the log of publications says the same. *)
From Stdlib Require Import ZArith QArith.
From stdpp Require Import relations.
From S2P Require Import Prelude QuiesceDetector JsValue TerminalState AlertModel AlertManager.
From S2P Require Import AlertEntry AlertSteps AlertInvariant AlertAwaits AlertPublish.
Import Alert.
#[local] Open Scope Z_scope.

Section Subscribe.
  Context `{Env : AlertEnv}.
  Implicit Types (m : Manager) (e : AlertEntry) (id : string) (now : Z).

(** ** Parts of the methods that show nothing *)

Lemma clean_create id m : no_orphans m -> clean id m -> clean id (getOrCreateEntry id m).
Proof.
  intros Ho Hc. unfold getOrCreateEntry. destruct (entry_at id m) as [e|] eqn:E; [done|].
  set (m' := set_entries _ m).
  assert (E' : entry_at id m' = Some new_entry) by (subst m'; unfold entry_at; cbn; apply omap_get_set_eq).
  unfold clean, getState in Hc |- *. rewrite E in Hc. rewrite E'.
  change (inert id m') with (inert id m). destruct (inert id m); [exact Hc|].
  change (parked id m') with (parked id m). rewrite (Ho id E). exact Hc.
Qed.

Lemma clean_eachWaiter id f m : clean id m -> clean id (eachWaiter id f m).
Proof.
  apply clean_context; [|by rewrite entry_at_eachWaiter]. unfold same_context. rewrite parked_eachWaiter, length_map.
  unfold eachWaiter. by destruct (omap_get id (awaits m)).
Qed.

Lemma view_note_work e : view (note_work_entry e) = view e.
Proof. unfold view, note_work_entry. cbn. by destruct (ring e). Qed.

Lemma clean_noteWork id m : clean id m -> clean id (noteWork id m).
Proof. intros. apply clean_eachWaiter, clean_on_entry; [|done]. intros e _. apply view_note_work. Qed.

Lemma clean_expectWork now id m : clean id m -> clean id (on_entry id (fun e => set_detector (expectWork now (detector e)) e) m).
Proof. intros. apply clean_on_entry; [|done]. intros e _. by apply view_detector. Qed.

Lemma clean_streamEntry id m : no_orphans m -> clean id m -> clean id (streamEntry id m).1.
Proof. intros. unfold streamEntry. case_bool_decide; [done|]. by apply clean_create. Qed.

Lemma clean_reportedEntry id m : no_orphans m -> clean id m -> clean id (reportedEntry id m).
Proof. intros Ho Hc. unfold reportedEntry. by apply clean_create. Qed.

(** ** Completions *)

Lemma clean_offer_all now id event m : clean id m -> clean id (offer_all now id event m).1.
Proof.
  unfold offer_all. generalize (parked id m). intros ws. change m with (m, false).1 at 1. generalize (m, false).
  induction ws as [|w ws IH]; intros mc Hc; [done|]. simpl. apply IH. unfold offer.
  destruct (awaitCauseFor _ _); [by apply clean_settle|done].
Qed.

Lemma clean_claim now id event cs m : clean id m -> clean id (claim now id event cs m).1.
Proof.
  revert m. induction cs as [|c cs IH]; intros m Hm; [done|]. cbn.
  assert (Hc : clean id (claim_one now id event c m).1) by (destruct c; [by apply clean_offer_all|done]).
  destruct (claim_one now id event c m) as [m1 []]; cbn in *; [done|]. by apply IH.
Qed.

Lemma clean_holdOrDeliver now id source d kept m : clean id (holdOrDeliver now id source d kept m).
Proof. apply clean_notify. Qed.

Lemma clean_dispatch now id event m : clean id m -> clean id (dispatchCompletion now id event m).1.
Proof.
  intros Hm. unfold dispatchCompletion. destruct (inert id m); [done|].
  pose proof (clean_claim now id event (claimants_of id m) m Hm) as Hc.
  destruct (claim _ _ _ _ _) as [m1 []]; cbn [fst] in Hc |- *; [done|].
  destruct (entry_at id m1) as [e|]; [|done]. destruct (inEchoWindow now e); cbn [fst]; [apply clean_notify|].
  destruct event as [|c k x []|n]; cbn [fst]; try apply clean_holdOrDeliver; try done.
  destruct (truthy _); [|done]. destruct (isWatching e m1); [apply clean_holdOrDeliver|done].
Qed.

(** A helper shows nothing. *)
Lemma clean_helper id m m' :
  lastEmitted m' !! id = lastEmitted m !! id -> inert id m = true -> inert id m' = true -> clean id m -> clean id m'.
Proof.
  unfold clean, getState. intros Hl H1 H2 Hc. rewrite Hl. rewrite H1 in Hc. rewrite H2.
  by destruct (entry_at id m), (entry_at id m').
Qed.

(** A report is published even if the Session was not before: the cycle's end. *)
Lemma clean_report now id n m :
  clean id m \/ inert id m = false ->
  clean id (let (m, claimed) := dispatchCompletion now id (Cnotification n) m in if claimed : bool then notify id m else m) \/
  entry_at id m = None.
Proof.
  intros Hm. destruct (inert id m) eqn:Ei.
  { left. destruct Hm as [Hm|]; [|done]. unfold dispatchCompletion. by rewrite Ei. }
  unfold dispatchCompletion. rewrite Ei. pose proof (entry_at_claim now id id (Cnotification n) (claimants_of id m) m) as Hc.
  destruct (claim _ _ _ _ _) as [m1 []]; [left; apply clean_notify|]. cbn [fst] in Hc. rewrite <- Hc.
  destruct (entry_at id m1) as [e|]; [|by right]. left. destruct (inEchoWindow now e); [apply clean_notify|apply clean_holdOrDeliver].
Qed.

Lemma clean_settleProgressEnd now id m : clean id m -> clean id (settleProgressEnd now id m).
Proof.
  intros Hm. unfold settleProgressEnd. destruct (_ ≫= prog_end) as [en|] eqn:E; [|done]. cbv zeta.
  destruct (entry_at id m) as [e|] eqn:Ee; [|done].
  match goal with |- context [dispatchCompletion now id (Cnotification ?n) ?m1] =>
    destruct (clean_report now id n m1) as [H|H]; [|exact H|] end.
  - destruct (inert id m) eqn:Ei; [left|right].
    + eapply (clean_helper id m); [|done| |done]; unfold on_entry; by rewrite Ee.
    + unfold on_entry. by rewrite Ee.
  - by rewrite entry_at_on, Ee in H.
Qed.

Lemma cancel_view e : view (cancelProgressEnd e) = view e.
Proof. unfold cancelProgressEnd. destruct (progress e) eqn:E; [|done]. unfold view. cbn [ring progress set_progress commandExitWatch todo notification detector]. by rewrite E, !bool_decide_false. Qed.

(** A boundary with no command and no cycle shows nothing. *)
Lemma view_endRun m e :
  progress e = None -> commandExitWatch e = None ->
  ring (endRun e) = ring e /\ progress (endRun e) = None /\ commandExitWatch (endRun e) = None /\
  todo (endRun e) = todo e /\ notification (endRun e) = notification e.
Proof. unfold endRun, cancelProgressEnd. intros Hp Hc. by rewrite Hp. Qed.

(** Without a command the detector is not shown. *)
Lemma getState_no_command id m m' e e' :
  entry_at id m = Some e -> entry_at id m' = Some e' -> same_context id m m' ->
  commandExitWatch e = None -> commandExitWatch e' = None -> ring e' = ring e -> progress e' = progress e ->
  todo e' = todo e -> notification e' = notification e -> getState id m' = getState id m.
Proof.
  intros E E' (_ & Hi & _ & Hw & Hp) Hc Hc' Hr Hpr Ht Hn. unfold getState, getProjectedStatus, isWatching.
  rewrite E, E', Hi, Hp, Hw, Hc, Hc', Hr, Hpr, Ht, Hn. done.
Qed.

Lemma clean_finish now id exitCode m :
  clean id m -> (finishCommandExitWatch now id exitCode m).2 = false -> clean id (finishCommandExitWatch now id exitCode m).1.
Proof.
  intros Hm. unfold finishCommandExitWatch, endRunAtBoundary.
  pose proof (clean_settleProgressEnd now id m Hm) as H1. set (m1 := settleProgressEnd now id m) in *. clearbody m1.
  cbv zeta. rewrite entry_at_on. destruct (entry_at id m1) as [e|] eqn:E.
  2:{ cbn. intros _. unfold on_entry. by rewrite E, E. }
  cbn [fmap option_fmap option_map mbind option_bind].
  assert (Ec : commandExitWatch (endRun e) = commandExitWatch e) by (unfold endRun, cancelProgressEnd; by destruct (progress e)).
  rewrite Ec. destruct (commandExitWatch e) as [w|] eqn:Ew; [done|]. cbn [fst snd]. intros Hp.
  apply bool_decide_eq_false in Hp. apply eq_None_not_Some in Hp.
  destruct (view_endRun m1 e Hp Ew) as (V1 & V2 & V3 & V4 & V5).
  rewrite on_entry_compose. unfold clean.
  assert (Hl : lastEmitted (on_entry id (fun e => set_pending None (set_exitWatch None (endRun e))) m1) !! id = lastEmitted m1 !! id)
    by apply same_context_on_entry.
  rewrite Hl. rewrite (getState_no_command id m1 _ e (set_pending None (set_exitWatch None (endRun e)))); try done.
  - by rewrite entry_at_on, E.
  - apply same_context_on_entry.
Qed.

(** ** Every call on one Session *)

Lemma clean_apply_event now id ev mc :
  (mc.2 = false -> clean id mc.1) -> (apply_event now id ev mc).2 = false -> clean id (apply_event now id ev mc).1.
Proof.
  destruct mc as [m c]. cbn [fst snd]. intros Hm.
  assert (Hf : forall x, let r := (let (m, c') := finishCommandExitWatch now id x m in (m, c' || c)) in
    r.2 = false -> clean id r.1).
  { intros x. pose proof (clean_finish now id x m) as Hf. destruct (finishCommandExitWatch now id x m) as [m1 b]. cbn in *.
    intros [-> ->]%orb_false_iff. auto. }
  destruct ev as [| | |l|s t|x t|]; cbn [apply_event]; try exact Hm; try apply Hf.
  - case_bool_decide; [exact Hm|done].
  - done.
Qed.

Lemma clean_events now id events m : no_orphans m -> clean id m -> clean id (applyTerminalSemanticEvents now id events m).
Proof.
  intros Ho Hm. unfold applyTerminalSemanticEvents. destruct events as [|ev events]; [done|]. cbv zeta.
  assert (Hf : forall evs mc, (mc.2 = false -> clean id mc.1) ->
    (foldl (fun mc ev => apply_event now id ev mc) mc evs).2 = false -> clean id (foldl (fun mc ev => apply_event now id ev mc) mc evs).1).
  { induction evs as [|x evs IH]; intros mc Hmc; [exact Hmc|]. simpl. apply IH. intros Hx. by apply clean_apply_event. }
  specialize (Hf (ev :: events) (reportedEntry id m, false) (fun _ => clean_reportedEntry id m Ho Hm)).
  destruct (foldl _ _ _) as [m1 []]; [apply clean_notify|]. by apply Hf.
Qed.

Lemma clean_settleWaiters now id how m : clean id m -> clean id (settleWaiters now id how m).
Proof.
  unfold settleWaiters. generalize (parked id m). intros ws. revert m. induction ws as [|w ws IH]; intros m Hm; [done|].
  simpl. by apply IH, clean_settle.
Qed.

Lemma clean_onExit now id x m : clean id m -> clean id (onExit now id x m).
Proof.
  intros Hm. unfold onExit. apply clean_settleWaiters. destruct (entry_at id m); [|done].
  pose proof (clean_finish now id x m Hm) as Hf. destruct (finishCommandExitWatch now id x m) as [m1 []]; [apply clean_notify|by apply Hf].
Qed.

Lemma clean_onData now id m : no_orphans m -> clean id m -> clean id (Alert.onData now id m).
Proof.
  intros Ho Hm. unfold Alert.onData. pose proof (clean_streamEntry id m Ho Hm) as Hs.
  destruct (streamEntry id m) as [m1 []]; cbn [fst] in Hs; [|done]. destruct (entry_at id m1) as [e|] eqn:E; [|done].
  destruct (inEchoWindow now e); [done|].
  pose proof (clean_detector_data now id m1 ltac:(by rewrite E; eexists) Hs) as Hd.
  destruct (QuiesceDetector.onData now m1) as [m2 []]; cbn [fst] in Hd; [by apply clean_noteWork|done].
Qed.

Lemma clean_progress now id u m : no_orphans m -> clean id m -> clean id (updateProtocolProgress now id u m).
Proof.
  intros Ho Hm. unfold updateProtocolProgress. destruct (inert id m); [done|]. cbv zeta.
  pose proof (clean_reportedEntry id m Ho Hm) as H1. set (m1 := reportedEntry id m) in *. clearbody m1. destruct (ends_cycle u).
  - destruct (entry_at id m1) as [e|] eqn:E; [|done]. cbn. destruct (progress e) as [p|] eqn:Ep; [|done].
    destruct (prog_end p); [done|]. apply clean_on_entry; [|done]. intros e' E'. rewrite E in E'. injection E' as <-.
    unfold view. cbn. by rewrite Ep.
  - match goal with |- context [if ?b then _ else notify _ _] => destruct b end; [|apply clean_notify].
    apply clean_expectWork, clean_noteWork, clean_on_entry; [|done]. intros e _. apply cancel_view.
Qed.

Lemma clean_acknowledge now id input m : clean id m -> clean id (acknowledge now id input m).
Proof.
  intros Hm. unfold acknowledge. destruct (entry_at id m); [|done]. cbv zeta.
  destruct (inert id _); [|destruct input; apply clean_notify]. destruct input; [|done]. by apply clean_on_entry.
Qed.

Lemma clean_onWrite now id data user m : no_orphans m -> clean id m -> clean id (onWrite now id data user m).
Proof.
  intros Ho Hm. unfold onWrite. cbv zeta. set (m1 := if user then _ else m).
  assert (H1 : no_orphans m1 /\ clean id m1).
  { subst m1. destruct user; [|done]. split; [eapply moves_no_orphans; [apply moves_acknowledge|done]|by apply clean_acknowledge]. }
  clearbody m1. destruct H1 as [Ho1 Hc1]. destruct (inputCanStartWork _ _); [|done].
  pose proof (clean_streamEntry id m1 Ho1 Hc1) as Hs. destruct (streamEntry id m1) as [m2 []]; [|done]. by apply clean_expectWork.
Qed.

Lemma clean_await now id until ms m : clean id m -> clean id (awaitCompletion now id until ms m).1.
Proof.
  intros Hm. unfold awaitCompletion. destruct (inert id m); [done|]. destruct ms; [|done]. destruct (_ || _); [done|].
  case_bool_decide; [done|]. cbv zeta. destruct (consumeAwaitableRing _ _) as [e' []]; apply clean_notify.
Qed.

Lemma clean_no_entry id m : entry_at id m = None -> lastEmitted m !! id = None -> clean id m.
Proof. unfold clean, getState. by intros -> ->. Qed.

Lemma clean_discard now id m : no_orphans m -> clean id m -> clean id (discard now id m).
Proof.
  intros Ho Hm. unfold discard. cbv zeta. set (m1 := settleWaiters now id died _).
  assert (Hc1 : clean id m1) by (subst m1; by apply clean_settleWaiters).
  set (m2 := set_claimants _ m1). assert (Hc2 : clean id m2) by exact Hc1. clearbody m2. clear m1 Hc1.
  set (m3 := match entry_at id m2 with Some _ => _ | None => m2 end).
  assert (H3 : clean id m3 /\ entry_at id m3 = None).
  { subst m3. destruct (entry_at id m2) eqn:E; [|done]. split; [apply clean_notify|].
    rewrite entry_at_notify. unfold entry_at. cbn. apply omap_get_delete_eq. }
  clearbody m3. destruct H3 as [H3 E3]. unfold clean, getState in H3 |- *.
  change (entry_at id (set_helpers _ m3)) with (entry_at id m3). rewrite E3 in H3 |- *. exact H3.
Qed.

Lemma clean_remove now id m : no_orphans m -> clean id m -> clean id (remove now id m).
Proof. intros. unfold remove. cbv zeta. pose proof (clean_discard now id m). auto. Qed.

Lemma clean_restart now id m : no_orphans m -> clean id m -> clean id (restart now id m).
Proof. intros. unfold restart. cbv zeta. pose proof (clean_discard now id m). auto. Qed.

Lemma clean_escalate now id m : clean id m -> clean id (escalateHeld now id m).
Proof.
  intros Hm. unfold escalateHeld. destruct (entry_at id m ≫= held) as [h|]; [|done]. cbv zeta.
  assert (H1 : clean id (on_entry id (set_held None) m)) by by apply clean_on_entry.
  revert H1. generalize (on_entry id (set_held None) m). induction (eachSource (held_set h)) as [|x l IH]; intros m1 H1; [done|].
  simpl. apply IH, clean_holdOrDeliver.
Qed.

Lemma clean_fire_leaveGrace now id m : clean id m -> clean id (fire_leaveGrace now id m).
Proof.
  intros Hm. unfold fire_leaveGrace. destruct (_ ≫= leaveGrace); [|done]. destruct (_ <=? _); [|done].
  unfold leave_callback. cbv zeta. assert (H1 : clean id (on_entry id (set_leaveGrace None) m)) by by apply clean_on_entry.
  case_bool_decide; [by apply clean_escalate|]. by apply clean_on_entry.
Qed.

Lemma clean_session now id op m : no_orphans m -> clean id m -> clean id (session_apply now id op m).
Proof.
  intros Ho Hm. destruct op; cbn.
  - by apply clean_onData.
  - by apply clean_onExit.
  - by apply clean_onWrite.
  - unfold notifyFromProtocol. destruct (inert id m); [done|]. cbv zeta. pose proof (clean_reportedEntry id m Ho Hm).
    destruct (normalizeActivityNotification _); [by apply clean_dispatch|done].
  - by apply clean_progress.
  - by apply clean_events.
  - by apply clean_acknowledge.
  - unfold dismissAlert. destruct (entry_at id m); [apply clean_notify|done].
  - unfold toggleTodo. destruct (inert id m); [done|apply clean_notify].
  - unfold clearTodo. destruct (inert id m); [done|apply clean_notify].
  - by apply clean_await.
  - by apply clean_settle.
  - unfold silenceRun. destruct (entry_at id m); [apply clean_notify|done].
  - by apply clean_remove.
  - by apply clean_restart.
  - unfold seed. destruct (inert id m); [done|apply clean_notify].
  - exact Hm.
  - unfold unregister. by destruct (claimants m !! id).
  - by apply clean_fire_detector.
  - by apply clean_fire_leaveGrace.
  - unfold fire_progressEnd. destruct (_ ≫= prog_end); [|done]. destruct (_ <=? _); [by apply clean_settleProgressEnd|done].
  - unfold fire_awaitGrace. destruct (_ ≫= w_grace); [|done]. destruct (_ <=? _); [by apply clean_settle|done].
  - unfold fire_awaitTimeout. destruct (waiter_at _ _ _); [|done]. destruct (_ <=? _); [by apply clean_settle|done].
Qed.

(** ** Every call *)

Definition all_clean m : Prop := forall id, clean id m.

Lemma smove_viewers now id m m' : smove now id m m' -> viewers m' = viewers m.
Proof.
  assert (Hn : forall x, viewers (notify id x) = viewers x).
  { intros x. unfold notify. cbv zeta. by destruct (match _ with Some _ => _ | None => _ end). }
  assert (Hon : forall f x, viewers (on_entry id f x) = viewers x) by (intros f x; unfold on_entry; by destruct (entry_at id x)).
  assert (Hun : forall c x, viewers (unregister id c x) = viewers x) by (intros c x; unfold unregister; by destruct (claimants x !! id)).
  assert (He : forall f x, viewers (eachWaiter id f x) = viewers x) by (intros f x; unfold eachWaiter; by destruct (omap_get id _)).
  intros Hm. destruct Hm; try done; try apply Hn; try apply Hon; try apply Hun; try apply He.
  - unfold getOrCreateEntry. by destruct (entry_at id m).
  - unfold raiseRing. destruct (entry_at id m); [|done]. destruct (ring _); by rewrite Hon.
  - by rewrite He, Hon.
  - unfold settle. destruct (waiter_at _ _ _); [|done]. cbv zeta. rewrite Hn. cbn. unfold dropWaiter.
    destruct (omap_get id _); [|done]. destruct (existsb _ _); [|done]. cbv zeta. destruct (filter _ _); [by rewrite Hun|done].
  - unfold addWaiter. by destruct (omap_get id _).
Qed.

Lemma any_moves_viewers now m m' : rtc (any_move now) m m' -> viewers m' = viewers m.
Proof. induction 1 as [|x y z [id H] _ IH]; [done|]. rewrite IH. by eapply smove_viewers. Qed.

(** What subscribers and viewers rely on in every reachable state. *)
Definition base m : Prop := no_orphans m /\ NoDup (map fst (viewers m)).

Lemma reach_base m : alert_reach m -> base m.
Proof.
  apply reach_invariant.
  - split; [done|apply NoDup_nil_2].
  - intros m1 m2 Hg [H1 H2]. destruct Hg; split; try done. by auto.
  - intros now id m1 m2 Hs [H1 H2]. split; [by eapply smove_no_orphans|]. by rewrite (smove_viewers _ _ _ _ Hs).
Qed.

Lemma clean_no_entry_any id m m' :
  lastEmitted m' = lastEmitted m -> entry_at id m = None -> entry_at id m' = None -> clean id m -> clean id m'.
Proof. unfold clean, getState. by intros -> -> ->. Qed.

Lemma setHelper_all_clean id b m : all_clean m -> all_clean (setHelper id b m).
Proof.
  intros Hm id'. unfold setHelper. cbv zeta. set (m1 := set_helpers _ m).
  destruct (decide (id = id')) as [<-|Hne].
  - case_bool_decide as He; [apply clean_notify|]. apply eq_None_not_Some in He. by apply (clean_no_entry_any id m).
  - assert (H1 : clean id' m1).
    { apply (clean_context id' m); [|done|apply Hm]. unfold same_context, inert. subst m1. cbn. split_all; try done.
      apply bool_decide_ext. destruct b; [rewrite elem_of_union, elem_of_singleton|rewrite elem_of_difference, elem_of_singleton]; intuition congruence. }
    case_bool_decide; [|done]. eapply clean_context; [by apply notify_context|by rewrite entry_at_notify|exact H1].
Qed.

Lemma recheck_keys id m : map fst (entries (recheck_rules m id)) = map fst (entries m).
Proof.
  unfold recheck_rules. rewrite (proj2 (proj2 (proj2 (notify_fields id _)))). unfold on_entry.
  destruct (entry_at id m) as [e|] eqn:E; [|done]. cbn. rewrite omap_set_keys, decide_True; [done|].
  apply omap_get_is_Some. unfold entry_at in E. rewrite E. by eexists.
Qed.

Lemma setWatched_all_clean names m : all_clean m -> all_clean (setWatchedCommands names m).
Proof.
  intros Hm. unfold setWatchedCommands. cbv zeta. destruct (_ && _); [done|]. set (m1 := set_watchedCommands _ m).
  assert (Hf : forall ids m2, (forall id, id ∉ ids -> clean id m2) -> all_clean (foldl recheck_rules m2 ids)).
  { induction ids as [|i ids IH]; intros m2 H2; [intros id; apply H2, not_elem_of_nil|]. simpl. apply IH. intros id Hid.
    destruct (decide (i = id)) as [<-|Hne]; [apply clean_notify|].
    eapply (moves_clean_ne 0); [apply moves_recheck|done|]. apply H2. rewrite not_elem_of_cons. by split. }
  apply Hf. intros id Hid. assert (E : entry_at id m = None).
  { destruct (entry_at id m) eqn:E; [|done]. destruct Hid. apply omap_get_is_Some. unfold entry_at in E. cbn. rewrite E. by eexists. }
  apply (clean_no_entry_any id m); [done|exact E|exact E|apply Hm].
Qed.

(** Only the Sessions a report moved can change engagement. *)
Lemma engaged_elem id m : isEngaged id m = true <-> exists v, (v, Some id) ∈ viewers m.
Proof.
  unfold isEngaged. rewrite existsb_exists. split.
  - intros ([v f] & Hin & Hf%bool_decide_eq_true). cbn in Hf. subst. exists v. by apply list_elem_of_In.
  - intros [v Hin]. exists (v, Some id). split; [by apply list_elem_of_In|]. by apply bool_decide_eq_true.
Qed.

Lemma engaged_untouched id v before after m x :
  NoDup (map fst (viewers m)) -> before = omap_get v (viewers m) ->
  x = match after with None => omap_delete v (viewers m) | Some f => omap_set v f (viewers m) end ->
  id ∉ touched_ids before after -> isEngaged id (set_viewers x m) = isEngaged id m.
Proof.
  intros Hn -> -> Hid.
  assert (Hb : omap_get v (viewers m) <> Some (Some id) /\ after <> Some (Some id)).
  { split; intros E; apply Hid; unfold touched_ids; rewrite E; apply elem_of_app.
    - left. by left.
    - destruct (decide (id ∈ match omap_get v (viewers m) with Some (Some i) => [i] | _ => [] end)); [by left|right].
      apply list_elem_of_filter. split; [done|by left]. }
  destruct Hb as [Hb Ha]. apply eq_true_iff_eq. rewrite !engaged_elem. cbn [viewers set_viewers].
  assert (Hin : forall w, (w, Some id) ∈ viewers m <-> (w, Some id) ∈ omap_delete v (viewers m)).
  { intros w. unfold omap_delete. rewrite list_elem_of_filter. cbn. split; [|tauto]. intros Hw. split; [|done]. intros ->.
    apply Hb. assert (Hs : is_Some (omap_get v (viewers m))).
    { apply omap_get_is_Some, list_elem_of_fmap. by exists (v, Some id). }
    destruct Hs as [f Ef]. rewrite (omap_get_Permutation v f (viewers m) Hn Ef) in Hw. apply elem_of_cons in Hw as [[= <-]|Hw]; [done|].
    apply list_elem_of_filter in Hw as [[] _]. done. }
  destruct after as [f|].
  - setoid_rewrite Hin. setoid_rewrite (omap_set_Permutation v f (viewers m) Hn). setoid_rewrite elem_of_cons.
    split; intros [w Hw]; exists w; [|by right]. destruct Hw as [Hw|Hw]; [|done]. injection Hw as _ Hf. congruence.
  - by setoid_rewrite <- Hin.
Qed.

(** What a viewer's report leaves of one Session before it is visited. *)
Definition pending_touch id (was : bool) m : Prop :=
  (entry_at id m = None \/ inert id m = true -> clean id m) /\ (isEngaged id m = was -> clean id m).

Lemma touch_clean now after lapse id was m : pending_touch id was m -> clean id (touch now after lapse m (id, was)).
Proof.
  intros [Hh He]. unfold touch. destruct (bool_decide (is_Some (entry_at id m))) eqn:Ee; cbn [negb orb].
  - destruct (inert id m) eqn:Ei; cbn [orb]; [by apply Hh; right|].
    destruct (Bool.eqb (isEngaged id m) was) eqn:Ew; [apply He; by apply eqb_prop|apply clean_notify].
  - apply Hh. left. apply bool_decide_eq_false in Ee. by apply eq_None_not_Some.
Qed.

Lemma pending_touch_ne now id id' was m m' :
  moves now id m m' -> id <> id' -> pending_touch id' was m -> pending_touch id' was m'.
Proof.
  induction 1 as [|m1 m2 m3 H1 _ IH]; [done|]. intros Hne [Hh He]. apply IH; [done|].
  pose proof (smove_context _ _ _ _ _ H1 Hne) as Hc. pose proof (smove_frame _ _ _ _ _ H1 Hne) as Hf.
  assert (Hcl : clean id' m1 -> clean id' m2) by by eapply smove_clean_ne.
  destruct Hc as (_ & Hi & Hen & _ & _). split; rewrite ?Hf, ?Hi, ?Hen; auto.
Qed.

Lemma touch_all_clean now after lapse ts m :
  NoDup (map fst ts) -> (forall id, id ∉ map fst ts -> clean id m) ->
  (forall id was, (id, was) ∈ ts -> pending_touch id was m) -> all_clean (foldl (touch now after lapse) m ts).
Proof.
  revert m. induction ts as [|[id was] ts IH]; intros m Hn Hc Hp; [intros id; apply Hc, not_elem_of_nil|].
  simpl in *. apply NoDup_cons in Hn as [Hid Hn].
  assert (Hm : moves now id m (touch now after lapse m (id, was))) by apply moves_touch. apply IH; [done| |].
  - intros id' Hid'. destruct (decide (id = id')) as [<-|Hne]; [apply touch_clean, Hp; left|].
    eapply moves_clean_ne; [exact Hm|done|]. apply Hc. rewrite not_elem_of_cons. by split.
  - intros id' was' Hin. eapply pending_touch_ne; [exact Hm| |apply Hp; by right].
    intros <-. apply Hid, list_elem_of_fmap. by exists (id, was').
Qed.

Lemma touched_NoDup before after : NoDup (touched_ids before after).
Proof.
  unfold touched_ids. apply NoDup_app. split_all.
  - destruct before as [[b|]|]; [apply NoDup_singleton|constructor..].
  - intros x Hx Hf. apply list_elem_of_filter in Hf as [? _]. done.
  - apply NoDup_filter. destruct after as [[a|]|]; [apply NoDup_singleton|constructor..].
Qed.

Lemma setViewer_all_clean now v st lapse m : base m -> all_clean m -> all_clean (setViewer now v st lapse m).
Proof.
  intros [_ Hn] Hm. unfold setViewer. cbv zeta. case_bool_decide; [done|].
  set (after := if js_is_true _ then _ else _). set (before := omap_get v (viewers m)).
  match goal with |- all_clean (foldl _ (set_viewers ?a m) _) => set (x := a) end.
  assert (Hsame : forall id, isEngaged id (set_viewers x m) = isEngaged id m -> clean id (set_viewers x m)).
  { intros id He. apply (clean_context id m); [by split_all|done|apply Hm]. }
  apply touch_all_clean.
  - rewrite map_map. cbn. rewrite map_id. apply touched_NoDup.
  - intros id Hid. apply Hsame. rewrite map_map in Hid. cbn in Hid. rewrite map_id in Hid.
    by apply (engaged_untouched id v before after m x).
  - intros id was Hin. apply list_elem_of_fmap in Hin as (i & [= <- ->] & _). split; [|apply Hsame].
    intros Hh. unfold clean. pose proof (Hm id) as Hc. unfold clean, getState in Hc |- *.
    change (entry_at id (set_viewers x m)) with (entry_at id m) in *. change (inert id (set_viewers x m)) with (inert id m) in *.
    destruct (entry_at id m); [|exact Hc]. destruct Hh as [?|Hh]; [done|]. by rewrite Hh in Hc |- *.
Qed.

Lemma apply_all_clean now op m : base m -> all_clean m -> all_clean (alert_apply now op m).
Proof.
  intros Hb Hm. destruct op as [id op|id b|names|name b|v st lapse|v|k|k|k|k]; cbn.
  - intros id'. destruct (decide (id = id')) as [<-|Hne]; [apply clean_session; [apply Hb|apply Hm]|].
    eapply moves_clean_ne; [apply session_moves|done|apply Hm].
  - by apply setHelper_all_clean.
  - by apply setWatched_all_clean.
  - unfold setCommandWatched. cbv zeta. destruct (_ || _); [done|]. by apply setWatched_all_clean.
  - by apply setViewer_all_clean.
  - by apply setViewer_all_clean.
  - exact Hm.
  - exact Hm.
  - exact Hm.
  - exact Hm.
Qed.

(** ** The log of publications *)

Fixpoint last_published id (fx : list Effect) : option AlertState :=
  match fx with
  | [] => None
  | Published _ id' st :: fx' => if decide (id' = id) then Some st else last_published id fx'
  | _ :: fx' => last_published id fx'
  end.

(** What the log says of a Session is what the manager remembers having said. *)
Definition log_ok m : Prop :=
  forall id, match lastEmitted m !! id with
             | Some st => last_published id (effects m) = Some st
             | None => default DEFAULT_ALERT_STATE (last_published id (effects m)) = DEFAULT_ALERT_STATE
             end.

Lemma log_ok_ext m m' :
  lastEmitted m' = lastEmitted m -> (forall id, last_published id (effects m') = last_published id (effects m)) ->
  log_ok m -> log_ok m'.
Proof. intros Hl Hp H id. rewrite Hl, Hp. apply H. Qed.

Lemma notify_log_ok id m : log_ok m -> log_ok (notify id m).
Proof.
  intros H. unfold notify. cbv zeta. destruct (match _ with Some _ => _ | None => _ end); [done|]. intros id'. cbn.
  case_bool_decide as He.
  - destruct (decide (id = id')) as [<-|Hne]; [by rewrite lookup_insert_eq|]. rewrite lookup_insert_ne by done. apply H.
  - destruct (decide (id = id')) as [<-|Hne].
    + rewrite lookup_delete_eq. cbn. unfold getState. destruct (entry_at id m); [by destruct He|done].
    + rewrite lookup_delete_ne by done. apply H.
Qed.

Lemma raise_log now id source d a m :
  lastEmitted (raiseRing now id source d a m) = lastEmitted m /\ effects (raiseRing now id source d a m) = effects m.
Proof.
  assert (Hon : forall f x, lastEmitted (on_entry id f x) = lastEmitted x /\ effects (on_entry id f x) = effects x).
  { intros f x. unfold on_entry. by destruct (entry_at id x). }
  unfold raiseRing. destruct (entry_at id m); [|done]. destruct (ring _); [apply Hon|].
  match goal with |- context [on_entry id ?f ?x] => apply (Hon f x) end.
Qed.

Lemma smove_log_ok now id m m' : smove now id m m' -> log_ok m -> log_ok m'.
Proof.
  intros Hm. destruct Hm; try (apply log_ok_ext; done).
  - apply log_ok_ext; unfold on_entry; by destruct (entry_at id m).
  - apply log_ok_ext; unfold getOrCreateEntry; by destruct (entry_at id m).
  - apply notify_log_ok.
  - destruct (raise_log now id source d a m) as [E1 E2]. apply log_ok_ext; [done|by rewrite E2].
  - apply log_ok_ext; unfold eachWaiter, on_entry; destruct (entry_at id m); cbn; by destruct (omap_get id (awaits m)).
  - apply log_ok_ext; unfold eachWaiter; by destruct (omap_get id (awaits m)).
  - unfold settle. destruct (waiter_at _ _ _); [|done]. cbv zeta. intros H. apply notify_log_ok.
    revert H. apply log_ok_ext.
    + cbn. unfold dropWaiter. destruct (omap_get id _); [|done]. destruct (existsb _ _); [|done]. cbv zeta.
      destruct (filter _ _); [|done]. unfold unregister. by destruct (claimants _ !! id).
    + intros id'. cbn. by rewrite (proj1 (proj2 (dropWaiter_fields id k m))).
  - apply log_ok_ext; unfold addWaiter; by destruct (omap_get id _).
  - apply log_ok_ext; unfold unregister; by destruct (claimants m !! id).
Qed.

(** C3. After any calls, the last state published of every Session, or the
    default state where none was, is what the manager would answer if asked:
    the same status, watching, TODO, await and notification, and the episode of
    the same id or none.  So every visible change reaches the subscribers. *)
Theorem published_current m id :
  alert_reach m ->
  let told := default DEFAULT_ALERT_STATE (last_published id (effects m)) in
  let asked := getState id m in
  st_status told = st_status asked /\ st_watchingEnabled told = st_watchingEnabled asked /\
  st_todo told = st_todo asked /\ st_awaited told = st_awaited asked /\
  ep_id <$> st_episode told = ep_id <$> st_episode asked /\ st_notification told = st_notification asked.
Proof.
  intros Hr. cbv zeta. change (default DEFAULT_ALERT_STATE (last_published id (effects m)) ≡ getState id m). assert (Hc : all_clean m).
  { induction Hr as [|now op m Hr IH]; [intros i; by repeat split|]. apply apply_all_clean; [by apply reach_base|done]. }
  assert (Hl : log_ok m).
  { revert m Hr Hc. intros m Hr _. revert m Hr. apply reach_invariant; [done| |exact smove_log_ok].
    intros m1 m2 Hg. by apply log_ok_ext; destruct Hg. }
  pose proof (Hc id) as H. unfold clean in H. specialize (Hl id).
  destruct (lastEmitted m !! id) as [st|]; rewrite Hl; exact H.
Qed.

End Subscribe.
