(* ===== verification/AlertRings.v ===== *)
(** * When a ring opens, and what becomes of a completion

    A ring opens only in a Session no present viewer points at.  The theorems
    then follow one completion: claimed by an await, held for a user who is
    looking, noted where it was just acknowledged, or rung. *)
From Stdlib Require Import ZArith QArith.
From stdpp Require Import relations.
From stdpp Require Import pretty.
From S2P Require Import Prelude QuiesceDetector JsValue TerminalState AlertModel AlertManager.
From S2P Require Import AlertEntry AlertSteps AlertInvariant AlertAwaits AlertPublish AlertSubscribe.
Import Alert.
#[local] Open Scope Z_scope.

Section Rings.
  Context `{Env : AlertEnv}.
  Implicit Types (m : Manager) (e : AlertEntry) (id : string) (now : Z).

(** The episode ringing in a Session. *)
Definition ringing id m : option AlertEpisode := entry_at id m ≫= fun e => episode <$> ring e.

Lemma ringing_frame now id id' m m' : smove now id m m' -> id <> id' -> ringing id' m' = ringing id' m.
Proof. intros Hm Hne. unfold ringing. by rewrite (smove_frame now id id' m m' Hm Hne). Qed.

(** A move that puts a ring where that episode was not ringing is a raise. *)
Lemma smove_ringing now id m m' ep :
  smove now id m m' -> entries_ok m -> ringing id m' = Some ep -> ringing id m = Some ep \/ isEngaged id m' = false.
Proof.
  intros Hm Hok Hr. pose proof (smove_viewers now id m m' Hm) as Hv.
  assert (Hen : isEngaged id m' = isEngaged id m) by (unfold isEngaged; by rewrite Hv).
  destruct (smove_entry now id m m' Hm) as [[w ->]|Hc].
  { left. unfold ringing in Hr |- *. rewrite entry_at_eachWaiter, entry_at_on in Hr. by destruct (entry_at id m). }
  unfold ringing in Hr |- *. destruct (entry_at id m) as [e|] eqn:E.
  - destruct Hm as [f m Hf|m|m|m|m|a m|source d a m Heng|w m|m|k how m|w m Hid Hex Hgr|k m|k m|m Hp|m Hp|m|ls m];
      try (left; cbn; unfold entry_at in *; cbn in *; by rewrite E in Hr).
    + left. rewrite entry_at_on, E in Hr. cbn in Hr |- *. destruct (ring (f e)) as [r'|] eqn:Er; [|done].
      destruct (Hf e (Hok id e E)) as (_ & Hk & _). destruct (Hk r' Er) as (r & -> & Hep). cbn in Hr |- *. congruence.
    + left. rewrite entry_at_create_eq, E in Hr. exact Hr.
    + left. rewrite entry_at_notify, E in Hr. exact Hr.
    + right. by rewrite Hen.
    + left. rewrite entry_at_eachWaiter, entry_at_on, E in Hr. exact Hr.
    + left. rewrite entry_at_eachWaiter, E in Hr. exact Hr.
    + left. rewrite entry_at_settle, E in Hr. exact Hr.
    + left. rewrite entry_at_addWaiter in Hr. change (entry_at id (set_waiters _ m)) with (entry_at id m) in Hr. by rewrite E in Hr.
    + left. rewrite entry_at_unregister, E in Hr. exact Hr.
    + unfold entry_at in Hr. cbn in Hr. by rewrite omap_get_delete_eq in Hr.
  - exfalso. inversion Hc as [f Hf He|He|He|uuid source d a He]; rewrite <- He in Hr; by cbn in Hr.
Qed.

(** C35. A ring opens only in a Session nobody is engaged with: if after a call a
    Session rings for an episode it was not ringing for before, then no present
    viewer points at it. *)
Theorem ring_needs_absence m now op id ep :
  alert_reach m -> ringing id (alert_apply now op m) = Some ep -> ringing id m <> Some ep ->
  isEngaged id (alert_apply now op m) = false.
Proof.
  intros Hr Hring Hnot. destruct (op_moves now op m) as (m0 & Hg & Hrtc).
  assert (Hok : entries_ok m0).
  { intros i e He. apply (entries_invariant m i e Hr). by destruct Hg. }
  assert (Hn0 : ringing id m0 <> Some ep) by by destruct Hg.
  clear Hg Hnot Hr. revert Hok Hn0. induction Hrtc as [x|x y z [i Hxy] Hyz IH]; intros Hok Hn0; [done|].
  destruct (decide (ringing id y = Some ep)) as [Hy|Hy].
  - destruct (decide (i = id)) as [->|Hne].
    + destruct (smove_ringing now id x y ep Hxy Hok Hy) as [?|He]; [done|].
      unfold isEngaged in He |- *. by rewrite (any_moves_viewers now _ _ Hyz).
    + by rewrite (ringing_frame now i id x y Hxy Hne) in Hy.
  - apply IH; [done|by eapply smove_entries_ok|done].
Qed.

(** ** The user's verbs *)

(** What no completion changes: the running command and the echo window. *)
Definition steady e : option CommandExitWatch * Z := (commandExitWatch e, echoUntil e).

Lemma steady_dispatch now id event m :
  steady <$> entry_at id (dispatchCompletion now id event m).1 = steady <$> entry_at id m.
Proof.
  apply part_dispatch; [done| |].
  - intros d e. unfold updateReceipt. by destruct (todo e).
  - intros t u s d a e. unfold raised. by destruct (ring e).
Qed.

Lemma steady_settleProgressEnd now id m :
  steady <$> entry_at id (settleProgressEnd now id m) = steady <$> entry_at id m.
Proof.
  unfold settleProgressEnd. destruct (_ ≫= prog_end) as [en|]; [|done]. cbv zeta.
  match goal with |- context [dispatchCompletion now id ?ev ?m1] => pose proof (steady_dispatch now id ev m1) as Hd;
    destruct (dispatchCompletion now id ev m1) as [m2 b] end. cbn [fst] in Hd.
  assert (He : steady <$> entry_at id (on_entry id endRun m) = steady <$> entry_at id m).
  { apply part_on_entry. intros e. unfold endRun, cancelProgressEnd. by destruct (progress e). }
  rewrite He in Hd. destruct b; [by rewrite entry_at_notify|done].
Qed.

(** A completion in the echo window changes no entry: it neither rings nor holds. *)
Lemma echo_mutes now id event m e id' :
  entry_at id m = Some e -> inEchoWindow now e = true ->
  entry_at id' (dispatchCompletion now id event m).1 = entry_at id' m.
Proof.
  intros E Hecho. unfold dispatchCompletion. destruct (inert id m); [done|].
  pose proof (entry_at_claim now id id event (claimants_of id m) m) as Hc.
  pose proof (entry_at_claim now id id' event (claimants_of id m) m) as Hc'.
  destruct (claim _ _ _ _ _) as [m1 []]; cbn [fst] in *; [done|]. rewrite Hc, E, Hecho. cbn [fst]. by rewrite entry_at_notify.
Qed.

(** Input to a Session that is no helper answers everything it asked:
    nothing rings or is held, the TODO and its detail are gone, the running
    command counts as seen, and until the echo window ends no completion of any
    kind changes any entry. *)
Theorem input_acknowledges m now id e :
  entry_at id m = Some e -> inert id m = false ->
  exists e', entry_at id (acknowledge now id true m) = Some e' /\
    ring e' = None /\ held e' = None /\ todo e' = false /\ notification e' = None /\
    (fun w => displayCommand w) <$> commandExitWatch e' = (fun w => displayCommand w) <$> commandExitWatch e /\
    (forall w, commandExitWatch e' = Some w -> seen w = true) /\
    forall later event, later < now + cfg_echoWindow ->
      forall id', entry_at id' (dispatchCompletion later id event (acknowledge now id true m)).1 =
                  entry_at id' (acknowledge now id true m).
Proof.
  intros E Hi. set (ma := acknowledge now id true m).
  assert (Ha : exists e1, steady e1 = (commandExitWatch (markSeen e), now + cfg_echoWindow) /\
    entry_at id ma = Some (set_notification None (set_todo false (clearRingForUser (clearRingForUser e1).1).1))).
  { subst ma. unfold acknowledge. rewrite E. cbv zeta. set (m0 := on_entry id (set_echoUntil _) m).
    assert (Hi0 : inert id m0 = false) by (subst m0; unfold on_entry; by rewrite E). rewrite Hi0.
    set (m1 := on_entry id markSeen m0).
    assert (E1 : entry_at id m1 = Some (markSeen (set_echoUntil (now + cfg_echoWindow) e))).
    { subst m1 m0. by rewrite !entry_at_on, E. }
    pose proof (steady_settleProgressEnd now id m1) as Hs. rewrite E1 in Hs.
    destruct (entry_at id (settleProgressEnd now id m1)) as [e1|] eqn:E2; [|done]. injection Hs as Hs1 Hs2.
    exists e1. split.
    - unfold steady. rewrite Hs1, Hs2. unfold markSeen. cbn [commandExitWatch set_echoUntil]. destruct (commandExitWatch e) eqn:Ec; cbn; by rewrite ?Ec.
    - unfold setTodoForUser. rewrite entry_at_notify, !entry_at_on, E2. cbn. by destruct (clearRingForUser _) as [e2 r]. }
  destruct Ha as (e1 & Hst & Ea). injection Hst as Hc Hecho.
  pose proof (clearRing_ring (clearRingForUser e1).1) as Hr. pose proof (clearRing_held (clearRingForUser e1).1) as Hh.
  set (e2 := (clearRingForUser (clearRingForUser e1).1).1) in *.
  assert (Hst2 : steady e2 = steady e1).
  { assert (Hx : forall x, steady (clearRingForUser x).1 = steady x).
    { intros x. destruct (clearRing_cases x) as [(_ & _ & ->)|[[] ->]]; done. }
    subst e2. by rewrite !Hx. }
  clearbody e2. injection Hst2 as Hc2 He2.
  eexists. split; [exact Ea|]. cbn. rewrite Hc2, Hc. split_all; try done.
  - unfold markSeen. by destruct (commandExitWatch e) eqn:Ec; cbn; rewrite ?Ec.
  - unfold markSeen. intros w. destruct (commandExitWatch e) eqn:Ec; cbn; [intros [= <-]; done|]. by rewrite Ec.
  - intros later event Hl id'. eapply echo_mutes; [exact Ea|]. unfold inEchoWindow. cbn. rewrite He2, Hecho. by apply Z.ltb_lt.
Qed.

(** ** A report reaches someone *)

Lemma offer_fold_claims now id event ws mc :
  (foldl (fun mc w => offer now id event w mc) mc ws).2 = true ->
  mc.2 = true \/ exists w, w ∈ ws /\ is_Some (awaitCauseFor (w_until w) event).
Proof.
  revert mc. induction ws as [|w ws IH]; intros mc H; [by left|]. simpl in H. apply IH in H as [H|(w' & Hw' & Hc)].
  - unfold offer in H. destruct (awaitCauseFor (w_until w) event) eqn:E; [|by left]. right. exists w. rewrite E. split; [left|by eexists].
  - right. exists w'. split; [by right|done].
Qed.

Lemma offer_fold_parked now id event ws mc w :
  w ∈ parked id (foldl (fun mc w => offer now id event w mc) mc ws).1 -> w ∈ parked id mc.1.
Proof.
  revert mc. induction ws as [|x ws IH]; intros mc H; [done|]. simpl in H. apply IH in H. unfold offer in H.
  destruct (awaitCauseFor _ _); [|done]. cbn [fst] in H. rewrite parked_settle in H. by apply list_elem_of_filter in H as [_ ?].
Qed.

Lemma offer_fold_wakes now id event ws mc w :
  w ∈ ws -> is_Some (awaitCauseFor (w_until w) event) ->
  w ∉ parked id (foldl (fun mc w => offer now id event w mc) mc ws).1.
Proof.
  revert mc. induction ws as [|x ws IH]; intros mc Hw [c Hc]; [by apply elem_of_nil in Hw|]. simpl.
  apply elem_of_cons in Hw as [<-|Hw]; [|by apply IH; [|eexists]].
  intros Hf. apply offer_fold_parked in Hf. unfold offer in Hf. rewrite Hc in Hf. cbn [fst] in Hf. rewrite parked_settle in Hf.
  by apply list_elem_of_filter in Hf as [? _].
Qed.

(** Who took an event: an await that is no longer parked, or a foreign claimant. *)
Definition taken_by id (event : CompletionEvent) m m' : Prop :=
  (exists w, w ∈ parked id m /\ is_Some (awaitCauseFor (w_until w) event) /\ w ∉ parked id m') \/
  (exists k, ForeignClaimant k ∈ claimants_of id m /\ foreignClaim k event = true).

Lemma claim_taken now id event cs m m0 :
  (forall w, w ∈ parked id m -> w ∈ parked id m0) -> (forall c, c ∈ cs -> c ∈ claimants_of id m0) ->
  (claim now id event cs m).2 = true -> taken_by id event m0 (claim now id event cs m).1.
Proof.
  revert m. induction cs as [|c cs IH]; intros m Hp Hc H; [done|]. cbn in H |- *. destruct c as [|k]; cbn in H |- *.
  - unfold offer_all in H |- *. set (r := foldl _ _ _) in *. destruct (r.2) eqn:Er.
    + pose proof (offer_fold_claims now id event (parked id m) (m, false) Er) as [?|(w & Hw & Hcw)]; [done|].
      pose proof (offer_fold_wakes now id event (parked id m) (m, false) w Hw Hcw) as Hout.
      change (w ∉ parked id r.1) in Hout. clearbody r. destruct r as [m1 []]; [|done]. left. exists w. split_all; [by apply Hp|done|exact Hout].
    + assert (Hsub : forall w, w ∈ parked id r.1 -> w ∈ parked id m0).
      { intros w Hw. apply Hp. exact (offer_fold_parked now id event (parked id m) (m, false) w Hw). }
      clearbody r. destruct r as [m1 []]; [done|]. cbn in *. apply IH; [done| |done]. intros c Hin. apply Hc. by right.
  - destruct (foreignClaim k event) eqn:Ek.
    + right. exists k. split; [apply Hc; left|done].
    + apply IH; [done| |done]. intros c Hin. apply Hc. by right.
Qed.

Lemma rank_richer c d : rank d <= rank (richer c d).
Proof. unfold richer. destruct c as [c|]; [|lia]. destruct (Z.ltb_spec (rank d) (rank c)); lia. Qed.

Lemma rank_takeRicher x d a : rank d <= rank (detail (takeRicher x d a)).
Proof.
  unfold takeRicher. cbv zeta. destruct (Z.ltb_spec (rank d - rank (detail x)) 0); cbn [orb]; [lia|].
  destruct (Z.eqb_spec (rank d - rank (detail x)) 0); cbn [andb]; [|cbn; lia]. destruct (a <? arrived x); cbn; lia.
Qed.

Lemma addSource_elem s x : x ∈ sources (addSource s (JoinListed x)).
Proof. cbn. case_bool_decide; [done|]. cbn. apply elem_of_app. right. by left. Qed.

(** What is shown is the completion, or what was there before and says as much. *)
Definition shown (n : ActivityNotification) (before after : option ActivityNotification) : Prop :=
  exists d, after = Some d /\ (d = n \/ before = Some d) /\ rank n <= rank d.

(** What a report comes to in a Session outside its echo window: held on the
    TODO while somebody is engaged with it; in a Session just acknowledged, noted
    on the TODO that is there, and nothing where there is none; else a ring. *)
Inductive report_outcome (engaged : bool) (n : ActivityNotification) e e' : Prop :=
  | out_held h :
      engaged = true -> held e' = Some h -> report ∈ sources (held_set h) -> ring e' = ring e -> todo e' = true ->
      shown n (notification e) (notification e') -> report_outcome engaged n e e'
  | out_receipt :
      engaged = false -> ackedQuiet e = true -> todo e = true -> e' = set_notification (notification e') e ->
      shown n (notification e) (notification e') -> report_outcome engaged n e e'
  | out_nothing :
      engaged = false -> ackedQuiet e = true -> todo e = false -> e' = e -> report_outcome engaged n e e'
  | out_ring r :
      engaged = false -> ackedQuiet e = false -> held e' = held e -> ring e' = Some r -> report ∈ sources (ring_set r) ->
      shown n ((fun r => detail (ring_dated r)) <$> ring e) (Some (detail (ring_dated r))) -> report_outcome engaged n e e'.

Lemma shown_richer n before : shown n before (Some (richer before n)).
Proof.
  exists (richer before n). split_all; [done| |apply rank_richer]. unfold richer.
  destruct before as [c|]; [|by left]. destruct (_ <? _); [by right|by left].
Qed.

Lemma shown_takeRicher n x a : shown n (Some (detail x)) (Some (detail (takeRicher x n a))).
Proof.
  exists (detail (takeRicher x n a)). split_all; [done| |apply rank_takeRicher]. unfold takeRicher. cbv zeta.
  destruct (_ || _); [by right|by left].
Qed.

Lemma raised_outcome now uuid n a e :
  ackedQuiet e = false -> report_outcome false n e (raised now uuid (JoinListed report) n a e).
Proof.
  intros Ha. unfold raised. destruct (ring e) as [r|] eqn:Er; eapply out_ring; try done; try apply addSource_elem.
  - rewrite Er. apply shown_takeRicher.
  - exists n. split_all; [done|by left|done].
Qed.

Lemma holdOrDeliver_reports now id n m e :
  entry_at id m = Some e ->
  exists e', entry_at id (holdOrDeliver now id (JoinListed report) n None m) = Some e' /\
    report_outcome (isEngaged id m) n e e'.
Proof.
  intros E. unfold holdOrDeliver. cbv zeta. rewrite entry_at_notify. set (m1 := set_arrivals _ m).
  change (isEngaged id m1) with (isEngaged id m). change (entry_at id m1) with (entry_at id m). rewrite E.
  cbn [fmap option_fmap option_map default from_option].
  destruct (isEngaged id m) eqn:He; [|destruct (ackedQuiet e) eqn:Ea]; cbv [Datatypes.id].
  - rewrite entry_at_on. change (entry_at id m1) with (entry_at id m). rewrite E. eexists. split; [reflexivity|].
    eapply out_held; cbn; [done|reflexivity|apply addSource_elem|done|done|apply shown_richer].
  - rewrite entry_at_on. change (entry_at id m1) with (entry_at id m). rewrite E. eexists. split; [reflexivity|].
    unfold updateReceipt. destruct (todo e) eqn:Et; [|by apply out_nothing]. apply out_receipt; try done. apply shown_richer.
  - rewrite entry_at_raise, decide_True by done. change (entry_at id m1) with (entry_at id m). rewrite E.
    eexists. split; [reflexivity|]. by apply raised_outcome.
Qed.

Lemma isEngaged_claim now id event cs m : isEngaged id (claim now id event cs m).1 = isEngaged id m.
Proof.
  unfold isEngaged. by rewrite (any_moves_viewers now m _ ltac:(eapply any_moves, moves_claim)).
Qed.

(** C5. What becomes of a terminal report to a Session that is no helper: an
    await that was parked on it wakes, or a foreign claimant takes it; or it
    falls in the echo window of the user's own input and changes nothing; or it
    reaches the user with its own text or one already there that ranks as high.
    While a viewer points at the Session it is held on the TODO; in a Session
    just acknowledged it is noted on the TODO, and dropped where no TODO is on;
    and in any other it rings. *)
Theorem report_delivered now id n n' m :
  inert id m = false -> normalizeActivityNotification (notification_value n) = Some n' ->
  let m0 := reportedEntry id m in
  let m' := notifyFromProtocol now id n m in
  taken_by id (Cnotification n') m0 m' \/
  exists e e', entry_at id m0 = Some e /\ entry_at id m' = Some e' /\
    (inEchoWindow now e = true /\ e' = e \/ report_outcome (isEngaged id m) n' e e').
Proof.
  intros Hi Hn. cbv zeta. unfold notifyFromProtocol. rewrite Hi. cbv zeta. set (m0 := reportedEntry id m). rewrite Hn.
  assert (Hi0 : inert id m0 = false /\ isEngaged id m0 = isEngaged id m).
  { subst m0. unfold reportedEntry, getOrCreateEntry. by destruct (entry_at id _). }
  destruct Hi0 as [Hi0 <-].
  destruct (entry_at_create id (set_removed (removed m ∖ {[id]}) m)) as [e Ee]. change (entry_at id m0 = Some e) in Ee. clearbody m0.
  unfold dispatchCompletion. rewrite Hi0.
  pose proof (claim_taken now id (Cnotification n') (claimants_of id m0) m0 m0 ltac:(done) ltac:(done)) as Ht.
  pose proof (entry_at_claim now id id (Cnotification n') (claimants_of id m0) m0) as Hc.
  pose proof (isEngaged_claim now id (Cnotification n') (claimants_of id m0) m0) as Hg.
  destruct (claim _ _ _ _ _) as [m1 []]; cbn [fst snd] in *; [left; by apply Ht|]. right. exists e. rewrite Hc, Ee, <- Hg.
  destruct (inEchoWindow now e) eqn:Hecho; cbn [fst].
  - exists e. rewrite entry_at_notify, Hc. split_all; [done|done|by left].
  - destruct (holdOrDeliver_reports now id n' m1 e ltac:(congruence)) as (e' & E' & Hr).
    exists e'. split_all; [done|done|by right].
Qed.

(** ** A hold rings when the user goes idle *)

(** The ring shows at least [d], and holds the source. *)
Definition rings_with (d : ActivityNotification) (x : Joining) e : Prop :=
  exists r, ring e = Some r /\ rank d <= rank (detail (ring_dated r)) /\
    match x with
    | JoinListed s => s ∈ sources (ring_set r)
    | JoinWatching w => watching (ring_set r) = Some w
    end.

Lemma raised_joins now uuid x d a e : rings_with d x (raised now uuid x d a e).
Proof.
  unfold raised, rings_with. destruct (ring e) as [r|]; eexists; (split; [reflexivity|]); (split; [first [apply rank_takeRicher|cbn; lia]|]);
    (destruct x; [apply addSource_elem|done]).
Qed.

Lemma raised_keeps now uuid s d d' a e x :
  rank d' <= rank d -> rings_with d' x e -> rings_with d' x (raised now uuid (JoinListed s) d a e).
Proof.
  intros Hd (r & Hr & Hrk & Hx). unfold raised, rings_with. rewrite Hr. eexists. split; [reflexivity|]. split.
  - cbn. pose proof (rank_takeRicher (ring_dated r) d a). lia.
  - destruct x as [s'|w]; cbn; case_bool_decide; cbn; try done. apply elem_of_app. by left.
Qed.

Lemma raised_rest now uuid x d a e :
  held (raised now uuid x d a e) = held e /\ (ackedQuiet e = false -> ackedQuiet (raised now uuid x d a e) = false).
Proof. unfold raised. by destruct (ring e). Qed.

Lemma deliver_unengaged now id x d kept m e :
  entry_at id m = Some e -> isEngaged id m = false -> ackedQuiet e = false ->
  exists uuid a, entry_at id (holdOrDeliver now id x d kept m) = Some (raised now uuid x d a e) /\
    isEngaged id (holdOrDeliver now id x d kept m) = false.
Proof.
  intros E He Ha. assert (Hv : viewers (holdOrDeliver now id x d kept m) = viewers m).
  { apply (any_moves_viewers now). by eapply any_moves, moves_holdOrDeliver. }
  assert (Hen : isEngaged id (holdOrDeliver now id x d kept m) = false) by (unfold isEngaged in *; by rewrite Hv).
  exists (randomUUID (uuids m)), (default (arrivals m + 1) kept). split; [|exact Hen]. clear Hv Hen. unfold holdOrDeliver. cbv zeta. rewrite entry_at_notify.
  set (m1 := match kept with Some _ => m | None => _ end).
  assert (E1 : entry_at id m1 = Some e) by (subst m1; by destruct kept).
  assert (Hg : isEngaged id m1 = false) by (subst m1; by destruct kept).
  assert (Hu : uuids m1 = uuids m /\ default (arrivals m1) kept = default (arrivals m + 1) kept) by (subst m1; by destruct kept).
  clearbody m1. destruct Hu as [Hu Har].
  rewrite Hg, E1. cbn [fmap option_fmap option_map default from_option]. rewrite Ha.
  assert (Hif : forall (b : bool) (y z : Manager), b = false -> (if b then y else z) = z) by (by intros [] y z).
  rewrite Hif by (by destruct x as [[]|]).
  rewrite entry_at_raise, decide_True, E1, Hu, Har by done. reflexivity.
Qed.

Lemma deliver_listed now id d a ls m e :
  entry_at id m = Some e -> isEngaged id m = false -> ackedQuiet e = false ->
  let m' := foldl (fun m x => holdOrDeliver now id x d (Some a) m) m (map JoinListed ls) in
  exists e', entry_at id m' = Some e' /\ held e' = held e /\ (forall s, s ∈ ls -> rings_with d (JoinListed s) e') /\
    (forall x, rings_with d x e -> rings_with d x e').
Proof.
  revert m e. induction ls as [|s ls IH]; intros m e E He Ha; cbv zeta; simpl.
  - exists e. split_all; try done. by intros s ?%elem_of_nil.
  - destruct (deliver_unengaged now id (JoinListed s) d (Some a) m e E He Ha) as (uuid & a' & E' & He').
    destruct (raised_rest now uuid (JoinListed s) d a' e) as [Hh Ha'].
    destruct (IH _ _ E' He' (Ha' Ha)) as (e' & Ee & Hh' & Hls & Hk). exists e'. split_all; [done|congruence| |].
    + intros s' [->|Hs]%elem_of_cons; [apply Hk, raised_joins|by apply Hls].
    + intros x Hx. apply Hk. by apply raised_keeps.
Qed.

Lemma escalate_rings now id m e h :
  entry_at id m = Some e -> held e = Some h -> isEngaged id m = false -> ackedQuiet e = false ->
  exists e', entry_at id (escalateHeld now id m) = Some e' /\ held e' = None /\
    forall x, x ∈ eachSource (held_set h) -> rings_with (detail (held_dated h)) x e'.
Proof.
  intros E Hh He Ha. unfold escalateHeld. rewrite E. cbn [mbind option_bind]. rewrite Hh. cbv zeta.
  set (m0 := on_entry id (set_held None) m). assert (E0 : entry_at id m0 = Some (set_held None e)) by (subst m0; by rewrite entry_at_on, E).
  assert (He0 : isEngaged id m0 = false) by (subst m0; unfold on_entry; by rewrite E). clearbody m0.
  set (d := detail (held_dated h)). set (a := arrived (held_dated h)).
  unfold eachSource. set (ls := filter _ LISTED_RING_SOURCES). rewrite foldl_app.
  destruct (watching (held_set h)) as [w|].
  - simpl. destruct (deliver_unengaged now id (JoinWatching w) d (Some a) m0 _ E0 He0 Ha) as (uuid & a' & E1 & He1).
    destruct (raised_rest now uuid (JoinWatching w) d a' (set_held None e)) as [Hh1 Ha1].
    destruct (deliver_listed now id d a ls _ _ E1 He1 (Ha1 Ha)) as (e' & Ee & Hh' & Hls & Hk).
    exists e'. split_all; [done|by rewrite Hh', Hh1|]. intros x [->|Hx]%elem_of_cons; [apply Hk, raised_joins|].
    apply list_elem_of_fmap in Hx as (s & -> & Hs). by apply Hls.
  - simpl. destruct (deliver_listed now id d a ls _ _ E0 He0 Ha) as (e' & Ee & Hh' & Hls & Hk).
    exists e'. split_all; [done|done|]. intros x Hx. apply list_elem_of_fmap in Hx as (s & -> & Hs). by apply Hls.
Qed.

(** When the last viewer that pointed at a Session goes idle, every
    completion the Session held rings, unless it was just acknowledged: each held
    source joins the ring, whose detail ranks no lower than the hold's, and
    nothing stays held.  (In a Session just acknowledged a held report stays on
    the TODO alone.) *)
Theorem idle_rings_held now v id m e h st :
  alert_reach m -> omap_get v (viewers m) = Some (Some id) -> js_is_true (js_field "present" st) = false ->
  isEngaged id (set_viewers (omap_delete v (viewers m)) m) = false ->
  entry_at id m = Some e -> inert id m = false -> held e = Some h -> ackedQuiet e = false ->
  exists e', entry_at id (setViewer now v st (Some idle) m) = Some e' /\ held e' = None /\
    eachSource (held_set h) <> [] /\
    forall x, x ∈ eachSource (held_set h) -> rings_with (detail (held_dated h)) x e'.
Proof.
  intros Hr Hv Hst Heng E Hi Hh Ha. unfold setViewer. cbv zeta. rewrite Hst, Hv. rewrite bool_decide_false by done.
  assert (Hwas : isEngaged id m = true).
  { apply engaged_elem. exists v. by apply omap_get_elem_of. }
  unfold touched_ids. cbn [app filter list_filter map foldl]. rewrite Hwas. set (m1 := set_viewers _ m) in *.
  unfold touch. change (entry_at id m1) with (entry_at id m). change (inert id m1) with (inert id m).
  rewrite E, Hi, Heng. rewrite bool_decide_true by by eexists. cbn [negb orb Bool.eqb].
  destruct (escalate_rings now id m1 e h E Hh Heng Ha) as (e' & Ee & Hhe & Hall).
  exists e'. rewrite entry_at_notify. split_all; try done.
  apply eachSource_nonempty, (ok_held e); [by apply (entries_invariant m id)|done].
Qed.

End Rings.

(** ** A run of the alert manager to evaluate

    A concrete environment and a run: a command starts in one Session while a
    viewer points at it, a report arrives and is held, and an await is parked on
    another Session.  The theorems are applied to the states it reaches. *)

#[export] Instance sample_env : AlertEnv := {|
  randomUUID n := pretty n;
  summarizeCommandLine s := s;
  commandWatchKey s := Some s;
  inputCanStartWork data _ := negb (data =s? "");
  foreignClaim _ _ := false
|}.

Fixpoint alert_run (m : Manager) (calls : list (Z * AlertOp)) : Manager :=
  match calls with
  | [] => m
  | (now, op) :: calls' => alert_run (alert_apply now op m) calls'
  end.

Lemma alert_run_reach m calls : alert_reach m -> alert_reach (alert_run m calls).
Proof. revert m. induction calls as [|[now op] calls IH]; intros m Hm; [done|]. by apply IH, alert_call. Qed.

Definition sample_report : ActivityNotification := mkNotification OSC_9 None (Some "done"%string).
Definition looking (id : string) : JsValue := JObject [("present"%string, JBool true); ("focusId"%string, JString id)].
Definition absent : JsValue := JObject [("present"%string, JBool false)].

Definition held_run : list (Z * AlertOp) :=
  [(0, OpListen 0);
   (10, OpSession "a" (SEvents [EvCommandLine "make"; EvCommandStart None None]));
   (20, OpViewer "v" (looking "a") None);
   (2000, OpSession "a" (SReport sample_report));
   (2100, OpSession "b" (SAwait until_quiet (Some 60000)))].

Definition held_state : Manager := alert_run new_manager held_run.
Definition rung_state : Manager := alert_apply 20000 (OpViewer "v" absent (Some idle)) held_state.

Lemma held_state_reach : alert_reach held_state.
Proof. apply alert_run_reach. constructor. Qed.

Lemma rung_state_reach : alert_reach rung_state.
Proof. apply alert_call, held_state_reach. Qed.

(** The entry of a Session that is known to be there. *)
Definition entry_of (id : string) (m : Manager) : AlertEntry := default new_entry (entry_at id m).

Lemma entries_invariant_witness : entry_ok (entry_of "a" held_state).
Proof. apply (entries_invariant held_state "a"); [exact held_state_reach|vm_compute; reflexivity]. Defined.

Lemma awaits_settle_once_witness :
  map w_id (all_waiters held_state) = [0%nat] /\
  map w_id (all_waiters held_state) ++ settled_ids (effects held_state) ≡ₚ seq 0 (waiters held_state).
Proof. split; [vm_compute; reflexivity|]. apply (awaits_settle_once held_state). exact held_state_reach. Defined.

Lemma grace_needs_no_command_witness : commandExitWatch (entry_of "b" held_state) = None.
Proof.
  apply (grace_needs_no_command held_state "b" (mkWaiter 0 until_quiet 2100 (Some 4100) 62100)).
  - exact held_state_reach.
  - vm_compute. left.
  - by eexists.
  - vm_compute. reflexivity.
Defined.

Lemma published_current_witness :
  st_status (default DEFAULT_ALERT_STATE (last_published "a" (effects rung_state))) = ALERT_RINGING /\
  st_status (default DEFAULT_ALERT_STATE (last_published "a" (effects rung_state))) = st_status (getState "a" rung_state).
Proof. split; [vm_compute; reflexivity|]. apply (published_current rung_state "a"). exact rung_state_reach. Defined.

Lemma ring_needs_absence_witness :
  isEngaged "a" (alert_apply 20000 (OpViewer "v" absent (Some idle)) held_state) = false.
Proof.
  apply (ring_needs_absence held_state 20000 (OpViewer "v" absent (Some idle)) "a" (mkEpisode "0" 20000)).
  - exact held_state_reach.
  - vm_compute. reflexivity.
  - vm_compute. discriminate.
Defined.

Lemma rung_entry : entry_at "a" rung_state = Some (entry_of "a" rung_state).
Proof. vm_compute. reflexivity. Qed.

Lemma rung_no_helper : inert "a" rung_state = false.
Proof. vm_compute. reflexivity. Qed.

Lemma input_acknowledges_witness :
  exists e', entry_at "a" (acknowledge 21000 "a" true rung_state) = Some e' /\
    ring e' = None /\ held e' = None /\ todo e' = false /\ notification e' = None /\
    (fun w => displayCommand w) <$> commandExitWatch e' = (fun w => displayCommand w) <$> commandExitWatch (entry_of "a" rung_state) /\
    (forall w, commandExitWatch e' = Some w -> seen w = true) /\
    forall later event, later < 21000 + cfg_echoWindow ->
      forall id', entry_at id' (dispatchCompletion later "a" event (acknowledge 21000 "a" true rung_state)).1 =
                  entry_at id' (acknowledge 21000 "a" true rung_state).
Proof.
  exact (input_acknowledges rung_state 21000 "a" (entry_of "a" rung_state) rung_entry rung_no_helper).
Defined.

Lemma report_delivered_witness :
  taken_by "b" (Cnotification sample_report) (reportedEntry "b" held_state) (notifyFromProtocol 3000 "b" sample_report held_state) \/
  exists e e', entry_at "b" (reportedEntry "b" held_state) = Some e /\
    entry_at "b" (notifyFromProtocol 3000 "b" sample_report held_state) = Some e' /\
    (inEchoWindow 3000 e = true /\ e' = e \/ report_outcome (isEngaged "b" held_state) sample_report e e').
Proof. apply (report_delivered 3000 "b" sample_report sample_report held_state); vm_compute; reflexivity. Defined.

Lemma idle_rings_held_witness :
  exists e', entry_at "a" (setViewer 20000 "v" absent (Some idle) held_state) = Some e' /\ held e' = None /\
    eachSource (mkSources [report] None) <> [] /\
    forall x, x ∈ eachSource (mkSources [report] None) -> rings_with sample_report x e'.
Proof.
  apply (idle_rings_held 20000 "v" "a" held_state (entry_of "a" held_state)
    (mkHeld (mkSources [report] None) (mkDated sample_report 1)) absent);
    [exact held_state_reach|vm_compute; reflexivity..].
Defined.
