(* ===== verification/WallStore.v ===== *)
(** * The wall store (lib/src/components/wall/lath-wall-store.ts)

    The sole authority over a Wall's split tree and its panes' metadata: each
    mutator applies one operation of the tiling engine and commits at most one
    snapshot.  The closure of [createLathWallStore] is the record [Store]; a
    mutator takes it and returns its result and the next store.  A listener is
    named by a number, and [notified] is the log of the calls made to them. *)
From Stdlib Require Import ZArith.
From Stdlib Require Import ZArith Permutation.
From S2P Require Import Prelude JsNum JsValue LathModel LathStructure LathLayout LathOps.
From S2P Require Import LathOpsFacts LathValid LathSpec.
#[local] Set Warnings "-register-all".

(** [LeafMeta] (lib/src/lib/lath/persistence.ts). *)
Record LeafMeta := mkMeta {
  component : string;
  tabComponent : string;
  title : string;
  params : option (list (string * JsValue)) }.

(** [EnterFrom] (lib/src/lib/lath/animator.ts). *)
Inductive EnterFrom (W : Type) :=
  | FromEdge (edge : Edge)
  | FromTopLeft
  | FromRect (rect : Rect W).
Arguments FromEdge {W} edge.
Arguments FromTopLeft {W}.
Arguments FromRect {W} rect.

(** [LathWallSnapshot]. *)
Record LathWallSnapshot (W : Type) := mkSnapshot {
  tree : LathTree W;
  leafMeta : list (string * LeafMeta);
  parked : list (string * option (Rect W));
  zoomedId : option LeafId;
  revision : Z }.
Arguments mkSnapshot {W} _ _ _ _ _.
Arguments tree {W} _.
Arguments leafMeta {W} _.
Arguments parked {W} _.
Arguments zoomedId {W} _.
Arguments revision {W} _.

(** [AddLeafPosition], when it is not [null]. *)
Record AddLeafPosition := mkPosition { refId : LeafId; pos_edge : Edge }.

(** The variables [createLathWallStore] closes over. *)
Record Store (W : Type) := mkStore {
  snapshot : LathWallSnapshot W;
  geometry : option (Rect W * LayoutOpts W);
  enterHints : list (string * EnterFrom W);
  listeners : list Z;
  notified : list (Z * Z) }.
Arguments mkStore {W} _ _ _ _ _.
Arguments snapshot {W} _.
Arguments geometry {W} _.
Arguments enterHints {W} _.
Arguments listeners {W} _.
Arguments notified {W} _.

(** The argument of [commit]: an absent field keeps the snapshot's. *)
Record Commit (W : Type) := mkCommit {
  c_tree : option (LathTree W);
  c_leafMeta : option (list (string * LeafMeta));
  c_parked : option (list (string * option (Rect W)));
  c_zoomedId : option (option LeafId) }.
Arguments mkCommit {W} _ _ _ _.
Arguments c_tree {W} _.
Arguments c_leafMeta {W} _.
Arguments c_parked {W} _.
Arguments c_zoomedId {W} _.

(** [map.has(k)]. *)
Definition omap_has {V} (k : string) (m : list (string * V)) : bool :=
  bool_decide (is_Some (omap_get k m)).

(** The wall store's methods under their own names. *)
Module Wall.
Section Wall.
  Context {W : Type} `{N : JSNum W}.
  Implicit Types (s : Store W) (t : LathTree W) (id : LeafId).

Definition PANE_GUTTER_PX : W := nlit 7 1.

Definition LATH_LAYOUT_OPTS : LayoutOpts W := mkOpts PANE_GUTTER_PX (nlit 100 1) (nlit 60 1).

Definition EMPTY_TREE : LathTree W := mkTree None.

(** The store [createLathWallStore] returns. *)
Definition createLathWallStore : Store W :=
  mkStore (mkSnapshot EMPTY_TREE [] [] None 0) None [] [] [].

Definition with_hints (h : list (string * EnterFrom W)) s : Store W :=
  mkStore (snapshot s) (geometry s) h (listeners s) (notified s).

Definition deriveEnterHint id (placementEdge : Edge) s : Store W :=
  if omap_has id (enterHints s) then s
  else with_hints (omap_set id (FromEdge (oppositeEdge placementEdge)) (enterHints s)) s.

(** The listeners run in insertion order; each reads the snapshot it is called for. *)
Definition notify s : Store W :=
  mkStore (snapshot s) (geometry s) (enterHints s) (listeners s)
    (rev (map (fun l => (l, revision (snapshot s))) (listeners s)) ++ notified s).

Definition commit (next : Commit W) s : Store W :=
  let cur := snapshot s in
  notify (mkStore
    (mkSnapshot (default (tree cur) (c_tree next)) (default (leafMeta cur) (c_leafMeta next))
      (default (parked cur) (c_parked next)) (default (zoomedId cur) (c_zoomedId next))
      (revision cur + 1))
    (geometry s) (enterHints s) (listeners s) (notified s)).

(** One id of [admit_ids], from the park and the hints so far. *)
Definition admit_one (ph : list (string * option (Rect W)) * list (string * EnterFrom W)) id
    : list (string * option (Rect W)) * list (string * EnterFrom W) :=
  match omap_get id ph.1 with
  | None => ph
  | Some held =>
      (omap_delete id ph.1,
       match held with
       | Some r => omap_set id (FromRect r) ph.2
       | None => omap_delete id ph.2
       end)
  end.

(** [admit_ids]: the [parked] of the commit it is spread into, if any id was parked,
    and the store with its hints updated. *)
Definition admit_ids (ids : list LeafId) s : option (list (string * option (Rect W))) * Store W :=
  let ph := foldl admit_one (parked (snapshot s), enterHints s) ids in
  (if existsb (fun id => omap_has id (parked (snapshot s))) ids then Some ph.1 else None,
   with_hints ph.2 s).

Definition leafRect id s : option (Rect W) :=
  match geometry s with
  | None => None
  | Some (rect, opts) =>
      match findLeafPath (tree (snapshot s)) id with
      | Some path => nodeRectAtPath (tree (snapshot s)) rect opts path
      | None => None
      end
  end.

Definition detachLeaf id (keepMeta park : bool) s : bool * option (RestoreToken W) * Store W :=
  let cur := snapshot s in
  match Ops.remove (tree cur) id with
  | (t, true, token) =>
      let leafMeta' := if keepMeta then leafMeta cur else omap_delete id (leafMeta cur) in
      (true, token,
       commit (mkCommit (Some t) (Some leafMeta')
         (if park && omap_has id leafMeta' then Some (omap_set id (leafRect id s) (parked cur)) else None)
         (if bool_decide (zoomedId cur = Some id) then Some None else None)) s)
  | (_, false, _) => (false, None, s)
  end.

(** [subscribe] and the unsubscribe it returns. *)
Definition subscribe (listener : Z) s : Store W :=
  mkStore (snapshot s) (geometry s) (enterHints s)
    (if bool_decide (listener ∈ listeners s) then listeners s else listeners s ++ [listener]) (notified s).

Definition unsubscribe (listener : Z) s : Store W :=
  mkStore (snapshot s) (geometry s) (enterHints s)
    (filter (fun l => l <> listener) (listeners s)) (notified s).

Definition getSnapshot s : LathWallSnapshot W := snapshot s.

Definition restoreSnapshot (saved : LathWallSnapshot W) s : Store W :=
  commit (mkCommit (Some (tree saved)) (Some (leafMeta saved)) (Some (parked saved))
    (Some (zoomedId saved))) s.

(** The metadata [seed] starts from: that of the parked ids. *)
Definition parked_meta (sn : LathWallSnapshot W) : list (string * LeafMeta) :=
  foldl (fun m id => match omap_get id (leafMeta sn) with Some h => omap_set id h m | None => m end)
    [] (map fst (parked sn)).

Definition seed t (meta : list (LeafId * LeafMeta)) s : Store W :=
  let next := foldl (fun m im => omap_set im.1 im.2 m) (parked_meta (snapshot s)) meta in
  let a := admit_ids (leaves t) s in
  commit (mkCommit (Some t) (Some next) a.1 (Some None)) a.2.

(** The commit of a tree a leaf [id] entered, with its metadata. *)
Definition commit_entered t id (meta : LeafMeta) (m : list (string * LeafMeta))
    (zoom : option (option LeafId)) s : Store W :=
  let a := admit_ids [id] s in
  commit (mkCommit (Some t) (Some (omap_set id meta m)) a.1 zoom) a.2.

(** The leaf [addLeaf] splits beside, and on which edge. *)
Definition add_beside (position : option AddLeafPosition) s : option LeafId * Edge :=
  let t := tree (snapshot s) in
  let last_leaf :=
    match last (leaves t) with
    | Some ref => (Some ref, match geometry s with
                             | Some (rect, opts) => autoEdge t rect ref opts
                             | None => ERight
                             end)
    | None => (None, ERight)
    end in
  match position with
  | Some pos =>
      match findLeafPath t (refId pos) with
      | Some _ => (Some (refId pos), pos_edge pos)
      | None => last_leaf
      end
  | None => last_leaf
  end.

Definition addLeaf id (meta : LeafMeta) (position : option AddLeafPosition) s : bool * Store W :=
  let t := tree (snapshot s) in
  match root t with
  | None => (true, commit_entered (leafTree id) id meta (leafMeta (snapshot s)) None s)
  | Some _ =>
      match add_beside position s with
      | (None, _) => (false, s)
      | (Some ref, edge) =>
          match Ops.split t ref edge id with
          | (t', true) =>
              (true, commit_entered t' id meta (leafMeta (snapshot s)) None (deriveEnterHint id edge s))
          | (_, false) => (false, s)
          end
      end
  end.

Definition removeLeaf id s : bool * option (RestoreToken W) * Store W := detachLeaf id false false s.

Definition doorLeaf id (park : bool) s : bool * option (RestoreToken W) * Store W :=
  detachLeaf id true park s.

Definition addDoor id (meta : LeafMeta) s : Store W :=
  if omap_has id (leafMeta (snapshot s)) then s
  else commit (mkCommit None (Some (omap_set id meta (leafMeta (snapshot s)))) None None) s.

Definition forgetLeaf id s : Store W :=
  let cur := snapshot s in
  match findLeafPath (tree cur) id with
  | Some _ => s
  | None =>
      if negb (omap_has id (leafMeta cur)) && negb (omap_has id (parked cur)) then s
      else commit (mkCommit None (Some (omap_delete id (leafMeta cur)))
                     (Some (omap_delete id (parked cur))) None)
             (with_hints (omap_delete id (enterHints s)) s)
  end.

Definition replaceLeaf (oldId newId : LeafId) (meta : LeafMeta) s : bool * Store W :=
  let cur := snapshot s in
  match Ops.replace (tree cur) oldId newId with
  | (t, true) =>
      (true, commit_entered t newId meta (omap_delete oldId (leafMeta cur))
               (if bool_decide (zoomedId cur = Some oldId) then Some (Some newId) else None) s)
  | (_, false) => (false, s)
  end.

Definition restoreLeaf (meta : LeafMeta) (token : RestoreToken W) (fallbackRef : option LeafId) s
    : bool * option Tier * Store W :=
  let cur := snapshot s in
  match Ops.restore (tree cur) token
          (Some (mkRestoreOpts fallbackRef (fst <$> geometry s) (snd <$> geometry s))) with
  | (t, true, tier) =>
      (true, tier, commit_entered t (tok_leafId token) meta (leafMeta cur) None
                     (deriveEnterHint (tok_leafId token) (tok_edge token) s))
  | (_, false, tier) => (false, tier, s)
  end.

(** A commit of the tree alone, when the operation succeeded. *)
Definition commit_tree (r : LathTree W * bool) s : bool * Store W :=
  match r with
  | (t, true) => (true, commit (mkCommit (Some t) None None None) s)
  | (_, false) => (false, s)
  end.

Definition swapLeaves (a b : LeafId) s : bool * Store W :=
  commit_tree (Ops.swap (tree (snapshot s)) a b) s.

Definition moveLeaf id (target : DropTarget) s : bool * Store W :=
  commit_tree (Ops.move (tree (snapshot s)) id target) s.

Definition insertLeaf id (meta : LeafMeta) (target : DropTarget) s : bool * Store W :=
  match Ops.insert (tree (snapshot s)) id target SizeHalf with
  | (t, true) =>
      (true, commit_entered t id meta (leafMeta (snapshot s)) None
               (match target with
                | TEdge et => deriveEnterHint id (et_edge et) s
                | TSwap _ => s
                end))
  | (_, false) => (false, s)
  end.

Definition resizeBoundary (splitPath : list nat) (boundary : Z) (deltaPx : W) s : bool * Store W :=
  match geometry s with
  | None => (false, s)
  | Some (rect, opts) =>
      commit_tree (Ops.resize (tree (snapshot s)) splitPath boundary deltaPx rect opts) s
  end.

(** The commit that replaces the metadata of [id]. *)
Definition write_meta id (meta : LeafMeta) s : Store W :=
  commit (mkCommit None (Some (omap_set id meta (leafMeta (snapshot s)))) None None) s.

Definition setTitle id (new_title : string) s : Store W :=
  match omap_get id (leafMeta (snapshot s)) with
  | None => s
  | Some cur =>
      if title cur =s? new_title then s
      else write_meta id (mkMeta (component cur) (tabComponent cur) new_title (params cur)) s
  end.

(** [{ ...(cur.params ?? {}), ...patch }]. *)
Definition merge_params (cur : option (list (string * JsValue))) (patch : list (string * JsValue))
    : list (string * JsValue) :=
  foldl (fun p kv => omap_set kv.1 kv.2 p) (default [] cur) patch.

Definition updateParams id (patch : list (string * JsValue)) s : Store W :=
  match omap_get id (leafMeta (snapshot s)) with
  | None => s
  | Some cur =>
      write_meta id (mkMeta (component cur) (tabComponent cur) (title cur)
                       (Some (merge_params (params cur) patch))) s
  end.

Definition setMeta id (meta : LeafMeta) s : Store W :=
  if omap_has id (leafMeta (snapshot s)) then write_meta id meta s else s.

Definition setZoomed (id : option LeafId) s : Store W :=
  if bool_decide (zoomedId (snapshot s) = id) then s
  else commit (mkCommit None None None (Some id)) s.

Definition setLayoutGeometry (rect : Rect W) (opts : LayoutOpts W) s : Store W :=
  if nleb (rect_width rect) n0 || nleb (rect_height rect) n0 then s
  else mkStore (snapshot s) (Some (rect, opts)) (enterHints s) (listeners s) (notified s).

Definition setEnterHint id (enterFrom : EnterFrom W) s : Store W :=
  with_hints (omap_set id enterFrom (enterHints s)) s.

Definition consumeEnterHints s : list (string * EnterFrom W) * Store W :=
  (enterHints s, with_hints [] s).

Definition leafIds s : list LeafId := leaves (tree (snapshot s)).

Definition parkedIds s : list LeafId := map fst (parked (snapshot s)).

Definition has id s : bool := bool_decide (is_Some (findLeafPath (tree (snapshot s)) id)).

Definition neighborOf id (direction : Direction) s : option LeafId :=
  match geometry s with
  | None => None
  | Some (rect, opts) => neighbors (tree (snapshot s)) rect id direction opts
  end.

Definition autoEdgeFor id s : Edge :=
  match geometry s with
  | None => ERight
  | Some (rect, opts) => autoEdge (tree (snapshot s)) rect id opts
  end.

End Wall.
End Wall.

(** ** The snapshots of the wall store

    What the pieces of a commit do, and the invariant of every snapshot a
    store publishes: the tree is well formed, every pane and every parked id has
    metadata, a parked id is not in the tree, and the zoomed id is, unless it is
    one of [strays]: [setZoomed] does not check what it is asked for. *)

(** The rendered leaves: placed in the tree, or mounted while detached. *)
Definition mounted {W} (sn : LathWallSnapshot W) (id : LeafId) : Prop :=
  id ∈ leaves (tree sn) \/ is_Some (omap_get id (parked sn)).

(** ** The invariant of a snapshot *)
Record snap_ok {W} (strays : list LeafId) (sn : LathWallSnapshot W) : Prop := {
  ok_tree : well_formed (tree sn);
  ok_meta : forall id, mounted sn id -> is_Some (omap_get id (leafMeta sn));
  ok_parked : forall id, is_Some (omap_get id (parked sn)) -> id ∉ leaves (tree sn);
  ok_zoom : forall id, zoomedId sn = Some id -> id ∈ leaves (tree sn) \/ id ∈ strays }.
#[global] Arguments ok_tree {W strays} sn _.
#[global] Arguments ok_meta {W strays} sn _ _ _.
#[global] Arguments ok_parked {W strays} sn _ _ _ _.
#[global] Arguments ok_zoom {W strays} sn _ _ _.

Section maps.
  Context {V : Type}.
  Implicit Types (m : list (string * V)).

Lemma omap_has_true k m : omap_has k m = true <-> is_Some (omap_get k m).
Proof. unfold omap_has. by rewrite bool_decide_eq_true. Qed.

Lemma omap_has_false k m : omap_has k m = false <-> omap_get k m = None.
Proof. unfold omap_has. rewrite bool_decide_eq_false, eq_None_not_Some. done. Qed.

Lemma omap_get_set k k' v m : omap_get k' (omap_set k v m) = if decide (k' = k) then Some v else omap_get k' m.
Proof. case_decide; subst; [apply omap_get_set_eq|by apply omap_get_set_ne]. Qed.

Lemma omap_get_delete k k' m : omap_get k' (omap_delete k m) = if decide (k' = k) then None else omap_get k' m.
Proof. case_decide; subst; [apply omap_get_delete_eq|by apply omap_get_delete_ne]. Qed.

Lemma omap_set_is_Some k k' v m : is_Some (omap_get k' m) -> is_Some (omap_get k' (omap_set k v m)).
Proof. rewrite omap_get_set. by case_decide. Qed.

(** Setting one key after another keeps those already there. *)
Lemma foldl_set_is_Some k (kvs : list (string * V)) m :
  is_Some (omap_get k (foldl (fun m im => omap_set im.1 im.2 m) m kvs)) <->
  k ∈ map fst kvs \/ is_Some (omap_get k m).
Proof.
  revert m. induction kvs as [|[k' v] kvs IH]; intros m; simpl.
  - rewrite elem_of_nil. tauto.
  - rewrite IH, elem_of_cons, omap_get_set. case_decide as E; [|tauto]. subst. split; [tauto|eauto].
Qed.

End maps.

Section Facts.
  Context {W : Type} `{N : JSNum W}.
  Implicit Types (s : Store W) (t : LathTree W) (id : LeafId) (sn : LathWallSnapshot W).

(** ** Admission *)

Lemma admit_fold ids (p : list (string * option (Rect W))) h id :
  omap_get id (foldl Wall.admit_one (p, h) ids).1 = if decide (id ∈ ids) then None else omap_get id p.
Proof.
  revert p h. induction ids as [|i ids IH]; intros p h; simpl.
  - done.
  - assert (E : forall h', omap_get id (foldl Wall.admit_one (omap_delete i p, h') ids).1 =
      if decide (id ∈ i :: ids) then None else omap_get id p).
    { intros h'. rewrite IH, omap_get_delete. rewrite (decide_ext (id ∈ i :: ids) (id = i \/ id ∈ ids)) by apply elem_of_cons.
      repeat case_decide; intuition congruence. }
    unfold Wall.admit_one. cbn [fst snd]. destruct (omap_get i p) as [[r|]|] eqn:Hi; [apply E..|].
    rewrite IH. rewrite (decide_ext (id ∈ i :: ids) (id = i \/ id ∈ ids)) by apply elem_of_cons.
    repeat case_decide; intuition congruence.
Qed.

(** After an admission no admitted id is parked, and the others are as before. *)
Lemma admit_parked ids s id :
  omap_get id (default (parked (snapshot s)) (Wall.admit_ids ids s).1) =
  if decide (id ∈ ids) then None else omap_get id (parked (snapshot s)).
Proof.
  unfold Wall.admit_ids. cbn [fst]. destruct (existsb _ ids) eqn:E; cbn [default]; [apply admit_fold|].
  case_decide as Hin; [|done]. destruct (omap_get id (parked (snapshot s))) eqn:Hg; [|done].
  rewrite <- Bool.not_true_iff_false, existsb_exists in E. destruct E. exists id.
  split; [by apply list_elem_of_In|]. apply omap_has_true. by rewrite Hg.
Qed.

Lemma admit_snapshot ids s : snapshot (Wall.admit_ids ids s).2 = snapshot s.
Proof. done. Qed.

Lemma deriveEnterHint_snapshot id e s : snapshot (Wall.deriveEnterHint id e s) = snapshot s.
Proof. unfold Wall.deriveEnterHint. by destruct (omap_has _ _). Qed.

(** ** Commits *)

(** The snapshot a commit publishes. *)
Lemma commit_snapshot (next : Commit W) s :
  snapshot (Wall.commit next s) =
  mkSnapshot (default (tree (snapshot s)) (c_tree next)) (default (leafMeta (snapshot s)) (c_leafMeta next))
    (default (parked (snapshot s)) (c_parked next)) (default (zoomedId (snapshot s)) (c_zoomedId next))
    (revision (snapshot s) + 1).
Proof. done. Qed.

(** The fields of the snapshot after a leaf entered the tree. *)
Lemma entered_fields t id meta m zoom s :
  let sn := snapshot (Wall.commit_entered t id meta m zoom s) in
  tree sn = t /\ leafMeta sn = omap_set id meta m /\ zoomedId sn = default (zoomedId (snapshot s)) zoom.
Proof. done. Qed.

Lemma entered_parked t id meta m zoom s x :
  omap_get x (parked (snapshot (Wall.commit_entered t id meta m zoom s))) =
  if decide (x = id) then None else omap_get x (parked (snapshot s)).
Proof.
  unfold Wall.commit_entered. rewrite commit_snapshot, admit_snapshot. cbn [c_parked parked]. rewrite admit_parked.
  rewrite (decide_ext (x ∈ [id]) (x = id)); [done|apply list_elem_of_singleton].
Qed.

(** The snapshot after a leaf entered the tree is coherent. *)
Lemma entered_ok strays t id meta m zoom s :
  snap_ok strays (snapshot s) -> well_formed t ->
  (forall x, x ∈ leaves t -> x = id \/ x ∈ leaves (tree (snapshot s))) ->
  (forall x, x <> id -> x ∈ leaves t \/ is_Some (omap_get x (parked (snapshot s))) ->
    is_Some (omap_get x (leafMeta (snapshot s))) -> is_Some (omap_get x m)) ->
  (forall z, default (zoomedId (snapshot s)) zoom = Some z -> z ∈ leaves t \/ z ∈ strays) ->
  snap_ok strays (snapshot (Wall.commit_entered t id meta m zoom s)).
Proof.
  intros Hok Hwf Hl Hm Hz. unfold Wall.commit_entered. rewrite commit_snapshot, admit_snapshot.
  cbn [c_tree c_leafMeta c_parked c_zoomedId default]. cbv [Datatypes.id].
  split; cbn [tree leafMeta parked zoomedId]; [done| | |done].
  - intros x Hx. rewrite omap_get_set. case_decide as E; [done|].
    destruct Hx as [Hx|Hx]; cbn [tree parked] in Hx.
    + destruct (Hl x Hx) as [|Hx']; [done|]. apply Hm; [done|by left|]. apply Hok. by left.
    + rewrite admit_parked in Hx. case_decide; [by destruct Hx|].
      apply Hm; [done|by right|]. apply Hok. by right.
  - intros x Hx. rewrite admit_parked in Hx. case_decide as E; [by destruct Hx|].
    intros Hin. destruct (Hl x Hin) as [->|Hin']; [apply E; by left|]. by apply (ok_parked _ Hok) in Hx.
Qed.

End Facts.
