(* ===== verification/WallStoreRuns.v ===== *)
(** * Histories of the wall store

    A call of any method as one step of the store, the snapshots a history of
    calls publishes, and what every call guarantees: the invariant, one commit
    with one round of notifications, and no unmounted document. *)
From Stdlib Require Import ZArith Permutation.
From Stdlib Require Import ZArith QArith Permutation.
From S2P Require Import Prelude JsNum JsValue LathModel LathStructure LathLayout LathOps LathOpsFacts LathValid LathSpec.
From S2P Require Import LathOps WallStore.
From S2P Require Import LathRoundTrip.
#[local] Set Warnings "-register-all".

(** A call of a method that changes the store. *)
Inductive StoreOp (W : Type) :=
  | SSubscribe (listener : Z)
  | SUnsubscribe (listener : Z)
  | SRestoreSnapshot (saved : LathWallSnapshot W)
  | SSeed (t : LathTree W) (meta : list (LeafId * LeafMeta))
  | SAddLeaf (id : LeafId) (meta : LeafMeta) (position : option AddLeafPosition)
  | SRemoveLeaf (id : LeafId)
  | SDoorLeaf (id : LeafId) (park : bool)
  | SAddDoor (id : LeafId) (meta : LeafMeta)
  | SForgetLeaf (id : LeafId)
  | SReplaceLeaf (oldId newId : LeafId) (meta : LeafMeta)
  | SRestoreLeaf (meta : LeafMeta) (token : RestoreToken W) (fallbackRef : option LeafId)
  | SSwapLeaves (a b : LeafId)
  | SMoveLeaf (id : LeafId) (target : DropTarget)
  | SInsertLeaf (id : LeafId) (meta : LeafMeta) (target : DropTarget)
  | SResizeBoundary (splitPath : list nat) (boundary : Z) (deltaPx : W)
  | SSetTitle (id : LeafId) (new_title : string)
  | SUpdateParams (id : LeafId) (patch : list (string * JsValue))
  | SSetMeta (id : LeafId) (meta : LeafMeta)
  | SSetZoomed (id : option LeafId)
  | SSetLayoutGeometry (rect : Rect W) (opts : LayoutOpts W)
  | SSetEnterHint (id : LeafId) (enterFrom : EnterFrom W)
  | SConsumeEnterHints.
Arguments SSubscribe {W} _.
Arguments SUnsubscribe {W} _.
Arguments SRestoreSnapshot {W} _.
Arguments SSeed {W} _ _.
Arguments SAddLeaf {W} _ _ _.
Arguments SRemoveLeaf {W} _.
Arguments SDoorLeaf {W} _ _.
Arguments SAddDoor {W} _ _.
Arguments SForgetLeaf {W} _.
Arguments SReplaceLeaf {W} _ _ _.
Arguments SRestoreLeaf {W} _ _ _.
Arguments SSwapLeaves {W} _ _.
Arguments SMoveLeaf {W} _ _.
Arguments SInsertLeaf {W} _ _ _.
Arguments SResizeBoundary {W} _ _ _.
Arguments SSetTitle {W} _ _.
Arguments SUpdateParams {W} _ _.
Arguments SSetMeta {W} _ _.
Arguments SSetZoomed {W} _.
Arguments SSetLayoutGeometry {W} _ _.
Arguments SSetEnterHint {W} _ _.
Arguments SConsumeEnterHints {W}.

Section Runs.
  Context {W : Type} `{N : JSNum W}.
  Implicit Types (s : Store W) (t : LathTree W) (id : LeafId) (sn : LathWallSnapshot W) (op : StoreOp W).

(** The call, with the [ok] of its result ([true] for a method without one). *)
Definition apply_store op s : bool * Store W :=
  match op with
  | SSubscribe l => (true, Wall.subscribe l s)
  | SUnsubscribe l => (true, Wall.unsubscribe l s)
  | SRestoreSnapshot saved => (true, Wall.restoreSnapshot saved s)
  | SSeed t meta => (true, Wall.seed t meta s)
  | SAddLeaf id meta position => Wall.addLeaf id meta position s
  | SRemoveLeaf id => let r := Wall.removeLeaf id s in (r.1.1, r.2)
  | SDoorLeaf id park => let r := Wall.doorLeaf id park s in (r.1.1, r.2)
  | SAddDoor id meta => (true, Wall.addDoor id meta s)
  | SForgetLeaf id => (true, Wall.forgetLeaf id s)
  | SReplaceLeaf oldId newId meta => Wall.replaceLeaf oldId newId meta s
  | SRestoreLeaf meta token ref => let r := Wall.restoreLeaf meta token ref s in (r.1.1, r.2)
  | SSwapLeaves a b => Wall.swapLeaves a b s
  | SMoveLeaf id target => Wall.moveLeaf id target s
  | SInsertLeaf id meta target => Wall.insertLeaf id meta target s
  | SResizeBoundary path boundary delta => Wall.resizeBoundary path boundary delta s
  | SSetTitle id new_title => (true, Wall.setTitle id new_title s)
  | SUpdateParams id patch => (true, Wall.updateParams id patch s)
  | SSetMeta id meta => (true, Wall.setMeta id meta s)
  | SSetZoomed id => (true, Wall.setZoomed id s)
  | SSetLayoutGeometry rect opts => (true, Wall.setLayoutGeometry rect opts s)
  | SSetEnterHint id from => (true, Wall.setEnterHint id from s)
  | SConsumeEnterHints => (true, (Wall.consumeEnterHints s).2)
  end.

(** What the callers of two unguarded methods owe: a seeded tree is well formed
    and its panes come with metadata, and a restored snapshot is one the store
    published. *)
Definition legal (hist : list (LathWallSnapshot W)) op : Prop :=
  match op with
  | SSeed t meta => well_formed t /\ forall id, id ∈ leaves t -> id ∈ map fst meta
  | SRestoreSnapshot saved => saved ∈ hist
  | _ => True
  end.

(** The id a zoom request asks for, where it is no pane. *)
Definition stray_zoom s op : list LeafId :=
  match op with
  | SSetZoomed (Some id) => if decide (id ∈ leaves (tree (snapshot s))) then [] else [id]
  | _ => []
  end.

(** A store and the snapshots it has published, latest first, with the strays
    its zoom requests asked for. *)
Inductive store_reach : list LeafId -> Store W -> list (LathWallSnapshot W) -> Prop :=
  | reach_created : store_reach [] Wall.createLathWallStore [snapshot Wall.createLathWallStore]
  | reach_call strays s hist op :
      store_reach strays s hist -> legal hist op ->
      store_reach (stray_zoom s op ++ strays) (apply_store op s).2 (snapshot (apply_store op s).2 :: hist).

(** ** The invariant *)

Lemma snap_ok_meta strays m sn :
  snap_ok strays sn -> (forall id, is_Some (omap_get id (leafMeta sn)) -> is_Some (omap_get id m)) ->
  snap_ok strays (mkSnapshot (tree sn) m (parked sn) (zoomedId sn) (revision sn + 1)).
Proof. intros [? Hm ? ?] H. split; [done| |done|done]. intros id Hid. by apply H, Hm. Qed.

Lemma write_meta_ok strays id meta s : snap_ok strays (snapshot s) -> snap_ok strays (snapshot (Wall.write_meta id meta s)).
Proof.
  intros H. unfold Wall.write_meta. rewrite commit_snapshot. apply snap_ok_meta; [done|].
  intros x. apply omap_set_is_Some.
Qed.

(** An operation that keeps the panes. *)
Lemma commit_tree_ok strays (op : LathOp W) s :
  snap_ok strays (snapshot s) -> op_adds op = [] -> op_removes op = [] ->
  snap_ok strays (snapshot (Wall.commit_tree (apply_op (tree (snapshot s)) op) s).2).
Proof.
  intros Hok Ha Hr. unfold Wall.commit_tree. destruct (apply_op _ op) as [t ok] eqn:E.
  destruct ok; [|done]. apply (apply_op_true _ _ _ (ok_tree _ Hok)) in E as [Hwf (_ & _ & Hl)].
  rewrite Ha, Hr, filter_none in Hl. simpl in Hl. cbn [snd]. rewrite commit_snapshot.
  assert (Hin : forall x, x ∈ leaves t <-> x ∈ leaves (tree (snapshot s))) by (intros x; by rewrite Hl).
  split; cbn; [done| | |].
  - intros x [Hx|Hx]; apply Hok; [left; by apply Hin|by right].
  - intros x Hx. rewrite Hin. by apply Hok.
  - intros x Hx. rewrite Hin. by apply Hok.
Qed.

(** An operation that brings in one leaf. *)
Lemma enter_ok strays (op : LathOp W) t id meta s s' :
  snap_ok strays (snapshot s) -> snapshot s' = snapshot s ->
  op_adds op = [id] -> op_removes op = [] ->
  apply_op (tree (snapshot s)) op = (t, true) ->
  snap_ok strays (snapshot (Wall.commit_entered t id meta (leafMeta (snapshot s)) None s')).
Proof.
  intros Hok Es Ha Hr E. apply (apply_op_true _ _ _ (ok_tree _ Hok)) in E as [Hwf (_ & _ & Hl)].
  rewrite Ha, Hr, filter_none in Hl. simpl in Hl.
  apply entered_ok; rewrite ?Es; [done|done| |done|].
  - intros x Hx. rewrite Hl in Hx. by apply elem_of_cons in Hx.
  - intros z Hz. rewrite Hl, elem_of_cons. destruct (ok_zoom _ Hok z Hz); tauto.
Qed.

Lemma replaceLeaf_ok strays oldId newId meta s :
  snap_ok strays (snapshot s) -> snap_ok strays (snapshot (Wall.replaceLeaf oldId newId meta s).2).
Proof.
  intros Hok. unfold Wall.replaceLeaf. destruct (Ops.replace _ _ _) as [t [|]] eqn:E; [|done]. cbn [snd].
  apply (apply_op_true _ (OReplace oldId newId) _ (ok_tree _ Hok)) in E as [Hwf (Hn & Ho & Hl)].
  cbn [op_adds op_removes] in *. rewrite filter_one in Hl. simpl in Hl.
  assert (Hin : forall x, x ∈ leaves t <-> x = newId \/ (x <> oldId /\ x ∈ leaves (tree (snapshot s)))).
  { intros x. rewrite Hl, elem_of_cons. unfold Ops.leaves_without. by rewrite list_elem_of_filter. }
  assert (Hpo : omap_get oldId (parked (snapshot s)) = None).
  { destruct (omap_get oldId _) eqn:Hp; [|done]. destruct (ok_parked _ Hok oldId); [by rewrite Hp|]. apply Ho. by left. }
  apply entered_ok; [done|done| | |].
  - intros x Hx. apply Hin in Hx. tauto.
  - intros x Hx Hor Hm. rewrite omap_get_delete. case_decide; [|done]. subst. exfalso.
    destruct Hor as [Hor|Hor]; [apply Hin in Hor; tauto|]. rewrite Hpo in Hor. by destruct Hor.
  - intros z Hz. rewrite Hin. case_bool_decide as Hzo; simpl in Hz; [left; left; congruence|].
    destruct (ok_zoom _ Hok z Hz); [|tauto]. left. right. split; [congruence|done].
Qed.

Lemma detachLeaf_ok strays id keep park s :
  snap_ok strays (snapshot s) -> snap_ok strays (snapshot (Wall.detachLeaf id keep park s).2).
Proof.
  intros Hok. unfold Wall.detachLeaf. destruct (Ops.remove _ _) as [[t [|]] token] eqn:E; [|done]. cbn [snd].
  assert (E' : apply_op (tree (snapshot s)) (ORemove id) = (t, true)) by (simpl; by rewrite E).
  apply (apply_op_true _ _ _ (ok_tree _ Hok)) in E' as [Hwf (_ & Hid & Hl)].
  cbn [op_adds op_removes app] in *. rewrite filter_one in Hl.
  assert (Hin : forall x, x ∈ leaves t <-> x <> id /\ x ∈ leaves (tree (snapshot s))).
  { intros x. rewrite Hl. unfold Ops.leaves_without. by rewrite list_elem_of_filter. }
  specialize (Hid id (list_elem_of_here _ _)).
  set (m := if keep then _ else _).
  assert (Hm : forall x, is_Some (omap_get x (leafMeta (snapshot s))) -> x <> id -> is_Some (omap_get x m)).
  { intros x Hx Hne. unfold m. destruct keep; [done|]. by rewrite omap_get_delete, decide_False. }
  assert (Hp : forall x, is_Some (omap_get x (parked (snapshot s))) -> x <> id).
  { intros x Hx ->. by apply (ok_parked _ Hok) in Hx. }
  rewrite commit_snapshot. cbn [c_tree c_leafMeta c_parked c_zoomedId]. split; cbn [tree leafMeta parked zoomedId].
  - done.
  - intros x [Hx|Hx]; cbn [tree parked] in Hx; simpl.
    + apply Hin in Hx as [Hne Hx]. apply Hm; [|done]. apply Hok. by left.
    + destruct (park && omap_has id m) eqn:Hpm; simpl in Hx.
      * rewrite omap_get_set in Hx. case_decide as Hxi; [|apply Hm; [apply Hok; by right|done]].
        apply andb_prop in Hpm as [_ Hpm]. apply omap_has_true in Hpm. by subst.
      * apply Hm; [apply Hok; by right|by apply Hp].
  - intros x Hx Hxt. apply Hin in Hxt as [Hne Hxt]. destruct (park && _); simpl in Hx.
    + rewrite omap_get_set, decide_False in Hx by done. by apply (ok_parked _ Hok) in Hx.
    + by apply (ok_parked _ Hok) in Hx.
  - intros z Hz. rewrite Hin. case_bool_decide as Hzi; simpl in Hz; [done|].
    destruct (ok_zoom _ Hok z Hz); [|tauto]. left. split; [congruence|done].
Qed.

Lemma parked_meta_has strays sn id :
  snap_ok strays sn -> is_Some (omap_get id (parked sn)) -> is_Some (omap_get id (Wall.parked_meta sn)).
Proof.
  intros Hok Hp. unfold Wall.parked_meta.
  assert (Hm : is_Some (omap_get id (leafMeta sn))) by (apply Hok; by right).
  apply omap_get_is_Some in Hp. revert Hp. generalize (@nil (string * LeafMeta)).
  set (f := fun m i => match omap_get i (leafMeta sn) with Some h => omap_set i h m | None => m end).
  assert (Hkeep : forall ids m, is_Some (omap_get id m) -> is_Some (omap_get id (foldl f m ids))).
  { induction ids as [|i ids IH]; intros m Hi; simpl; [done|]. apply IH. unfold f.
    destruct (omap_get i (leafMeta sn)); [by apply omap_set_is_Some|done]. }
  induction (map fst (parked sn)) as [|i ids IH]; intros m Hp; simpl; [by apply elem_of_nil in Hp|].
  apply elem_of_cons in Hp as [->|Hp]; [|by apply IH].
  apply Hkeep. unfold f. destruct Hm as [h ->]. by rewrite omap_get_set_eq.
Qed.

Lemma seed_ok strays t meta s :
  snap_ok strays (snapshot s) -> well_formed t -> (forall id, id ∈ leaves t -> id ∈ map fst meta) ->
  snap_ok strays (snapshot (Wall.seed t meta s)).
Proof.
  intros Hok Hwf Hm. unfold Wall.seed. rewrite commit_snapshot, admit_snapshot.
  cbn [c_tree c_leafMeta c_parked c_zoomedId default]. cbv [Datatypes.id].
  split; cbn [tree leafMeta parked zoomedId]; [done| | |done].
  - intros x [Hx|Hx]; cbn [tree parked leafMeta] in *; apply foldl_set_is_Some; [left; by apply Hm|right].
    rewrite admit_parked in Hx. case_decide; [by destruct Hx|]. by apply (parked_meta_has strays).
  - intros x Hx. rewrite admit_parked in Hx. case_decide; [by destruct Hx|done].
Qed.

(** The calls that leave the tree and the park alone. *)
Lemma metadata_ok strays op s :
  snap_ok strays (snapshot s) ->
  match op with SAddDoor _ _ | SSetTitle _ _ | SUpdateParams _ _ | SSetMeta _ _ => True | _ => False end ->
  snap_ok strays (snapshot (apply_store op s).2).
Proof.
  intros Hok. destruct op; intros Hop; try done; cbn [apply_store snd].
  - unfold Wall.addDoor. destruct (omap_has _ _); [done|]. by apply write_meta_ok.
  - unfold Wall.setTitle. destruct (omap_get _ _); [|done]. case_bool_decide; [done|by apply write_meta_ok].
  - unfold Wall.updateParams. destruct (omap_get _ _); [by apply write_meta_ok|done].
  - unfold Wall.setMeta. destruct (omap_has _ _); [by apply write_meta_ok|done].
Qed.

Lemma forgetLeaf_ok strays id s : snap_ok strays (snapshot s) -> snap_ok strays (snapshot (Wall.forgetLeaf id s)).
Proof.
  intros Hok. unfold Wall.forgetLeaf. destruct (findLeafPath _ id) eqn:Hf; [done|].
  destruct (_ && _); [done|]. rewrite commit_snapshot. apply findLeafPath_None in Hf.
  cbn [c_tree c_leafMeta c_parked c_zoomedId default Wall.with_hints snapshot]. cbv [Datatypes.id].
  split; cbn [tree leafMeta parked zoomedId]; [apply Hok| | |apply Hok].
  - intros x [Hx|Hx]; cbn [tree parked leafMeta] in *; rewrite omap_get_delete.
    + case_decide; [by subst|]. apply Hok. by left.
    + rewrite omap_get_delete in Hx. case_decide; [by destruct Hx|]. apply Hok. by right.
  - intros x Hx. rewrite omap_get_delete in Hx. case_decide; [by destruct Hx|]. by apply Hok.
Qed.

(** The calls that bring a leaf in. *)
Lemma entering_ok strays op s :
  snap_ok strays (snapshot s) ->
  match op with SAddLeaf _ _ _ | SRestoreLeaf _ _ _ | SInsertLeaf _ _ _ => True | _ => False end ->
  snap_ok strays (snapshot (apply_store op s).2).
Proof.
  intros Hok. destruct op; intros Hop; try done; cbn [apply_store].
  - unfold Wall.addLeaf. destruct (root _) eqn:Hr.
    + destruct (Wall.add_beside _ _) as [[ref|] edge]; [|done].
      destruct (Ops.split _ _ _ _) as [t [|]] eqn:E; [|done].
      apply (enter_ok strays (OSplit ref edge id)); [done|apply deriveEnterHint_snapshot|done..].
    + apply entered_ok; [done|(split; [done|apply NoDup_singleton])| |done|].
      * intros x Hx. left. by apply list_elem_of_singleton in Hx.
      * intros z Hz. right. apply (ok_zoom _ Hok) in Hz as [Hz|?]; [|done]. unfold leaves in Hz. rewrite Hr in Hz. by apply elem_of_nil in Hz.
  - unfold Wall.restoreLeaf. destruct (Ops.restore _ _ _) as [[t [|]] tier] eqn:E; [|done].
    eapply (enter_ok strays (ORestore token _)); [done|apply deriveEnterHint_snapshot|done..|].
    simpl. by rewrite E.
  - unfold Wall.insertLeaf. destruct (Ops.insert _ _ _ _) as [t [|]] eqn:E; [|done].
    apply (enter_ok strays (OInsert id target SizeHalf)); [done| |done..].
    destruct target; [apply deriveEnterHint_snapshot|done].
Qed.

Lemma snap_ok_strays strays strays' sn : snap_ok strays sn -> strays ⊆ strays' -> snap_ok strays' sn.
Proof. intros [? ? ? Hz] Hs. split; try done. intros z Hid. destruct (Hz z Hid); [by left|right; by apply Hs]. Qed.

Lemma setZoomed_ok strays z s :
  snap_ok strays (snapshot s) -> snap_ok (stray_zoom s (SSetZoomed z) ++ strays) (snapshot (Wall.setZoomed z s)).
Proof.
  intros Hok. unfold Wall.setZoomed. case_bool_decide; [eapply snap_ok_strays; [done|set_solver]|].
  rewrite commit_snapshot. destruct Hok. split; cbn; [done..|]. intros z' ->. case_decide; [by left|right; left].
Qed.

Lemma apply_store_ok strays hist s op :
  Forall (snap_ok strays) hist -> snap_ok strays (snapshot s) -> legal hist op ->
  snap_ok (stray_zoom s op ++ strays) (snapshot (apply_store op s).2).
Proof.
  intros Hh Hok Hlegal. assert (Hz : (exists z, op = SSetZoomed z) \/ ~ exists z, op = SSetZoomed z) by (destruct op; first [by left; eexists|right; by intros [? [=]]]).
  destruct Hz as [[z ->]|Hne]; [by apply setZoomed_ok|].
  apply (snap_ok_strays strays); [|set_solver].
  destruct op; try (by apply metadata_ok); try (by apply entering_ok); cbn [apply_store snd] in *.
  - done.
  - done.
  - rewrite Forall_forall in Hh. specialize (Hh saved Hlegal). destruct Hh as [? ? ? ?].
    unfold Wall.restoreSnapshot. rewrite commit_snapshot. by split.
  - destruct Hlegal. by apply seed_ok.
  - by apply detachLeaf_ok.
  - by apply detachLeaf_ok.
  - by apply forgetLeaf_ok.
  - by apply replaceLeaf_ok.
  - by apply (commit_tree_ok strays (OSwap a b)).
  - by apply (commit_tree_ok strays (OMove id target)).
  - unfold Wall.resizeBoundary. destruct (geometry s) as [[rect opts]|]; [|done].
    by apply (commit_tree_ok strays (OResize splitPath boundary deltaPx rect opts)).
  - destruct Hne. by eexists.
  - unfold Wall.setLayoutGeometry. by destruct (_ || _).
  - done.
  - done.
Qed.

(** ** One commit and one round of notifications *)

(** Nothing was published, or exactly one snapshot to every listener. *)
Definition commits_at_most_once s s' : Prop :=
  (snapshot s' = snapshot s /\ notified s' = notified s) \/
  (revision (snapshot s') = revision (snapshot s) + 1 /\
   notified s' = rev (map (fun l => (l, revision (snapshot s'))) (listeners s)) ++ notified s)%Z.

Lemma commit_once (next : Commit W) s s' :
  snapshot s' = snapshot s -> listeners s' = listeners s -> notified s' = notified s ->
  commits_at_most_once s (Wall.commit next s').
Proof. intros E1 E2 E3. right. unfold Wall.commit, Wall.notify. cbn. by rewrite E1, E2, E3. Qed.

Lemma commits_refl s : commits_at_most_once s s.
Proof. by left. Qed.

Lemma deriveEnterHint_frame id e s :
  listeners (Wall.deriveEnterHint id e s) = listeners s /\ notified (Wall.deriveEnterHint id e s) = notified s.
Proof. unfold Wall.deriveEnterHint. by destruct (omap_has _ _). Qed.

Lemma entered_once t id meta m zoom s s' :
  snapshot s' = snapshot s -> listeners s' = listeners s -> notified s' = notified s ->
  commits_at_most_once s (Wall.commit_entered t id meta m zoom s').
Proof. intros. by apply commit_once. Qed.

Lemma detachLeaf_once id keep park s : commits_at_most_once s (Wall.detachLeaf id keep park s).2.
Proof.
  unfold Wall.detachLeaf. destruct (Ops.remove _ _) as [[t [|]] token]; [by apply commit_once|apply commits_refl].
Qed.

Lemma commit_tree_once r s : commits_at_most_once s (Wall.commit_tree r s).2.
Proof. unfold Wall.commit_tree. destruct r as [t [|]]; [by apply commit_once|apply commits_refl]. Qed.

Lemma derived_once t id e meta m zoom s :
  commits_at_most_once s (Wall.commit_entered t id meta m zoom (Wall.deriveEnterHint id e s)).
Proof.
  destruct (deriveEnterHint_frame id e s). apply entered_once; [apply deriveEnterHint_snapshot|done..].
Qed.

Lemma apply_store_once op s : commits_at_most_once s (apply_store op s).2.
Proof.
  destruct op; cbn [apply_store snd]; try apply commits_refl; try apply detachLeaf_once;
    try apply commit_tree_once; try (by apply commit_once); try (by left).
  - unfold Wall.addLeaf. destruct (root _); [|by apply entered_once].
    destruct (Wall.add_beside _ _) as [[ref|] edge]; [|apply commits_refl].
    destruct (Ops.split _ _ _ _) as [t [|]]; [apply derived_once|apply commits_refl].
  - unfold Wall.addDoor. destruct (omap_has _ _); [apply commits_refl|by apply commit_once].
  - unfold Wall.forgetLeaf. destruct (findLeafPath _ _); [apply commits_refl|].
    destruct (_ && _); [apply commits_refl|by apply commit_once].
  - unfold Wall.replaceLeaf. destruct (Ops.replace _ _ _) as [t [|]]; [by apply entered_once|apply commits_refl].
  - unfold Wall.restoreLeaf. destruct (Ops.restore _ _ _) as [[t [|]] tier]; [apply derived_once|apply commits_refl].
  - unfold Wall.insertLeaf. destruct (Ops.insert _ _ _ _) as [t [|]]; [|apply commits_refl].
    destruct target; [apply derived_once|by apply entered_once].
  - unfold Wall.resizeBoundary. destruct (geometry s) as [[rect opts]|]; [apply commit_tree_once|apply commits_refl].
  - unfold Wall.setTitle. destruct (omap_get _ _); [|apply commits_refl].
    case_bool_decide; [apply commits_refl|by apply commit_once].
  - unfold Wall.updateParams. destruct (omap_get _ _); [by apply commit_once|apply commits_refl].
  - unfold Wall.setMeta. destruct (omap_has _ _); [by apply commit_once|apply commits_refl].
  - unfold Wall.setZoomed. case_bool_decide; [apply commits_refl|by apply commit_once].
  - unfold Wall.setLayoutGeometry. destruct (_ || _); by left.
Qed.

Lemma commit_tree_rejects r s : (Wall.commit_tree r s).1 = false -> (Wall.commit_tree r s).2 = s.
Proof. unfold Wall.commit_tree. by destruct r as [t [|]]. Qed.

Lemma detachLeaf_rejects id keep park s :
  (Wall.detachLeaf id keep park s).1.1 = false -> (Wall.detachLeaf id keep park s).2 = s.
Proof. unfold Wall.detachLeaf. by destruct (Ops.remove _ _) as [[t [|]] token]. Qed.

Lemma apply_store_rejects op s : (apply_store op s).1 = false -> (apply_store op s).2 = s.
Proof.
  destruct op; cbn [apply_store fst snd]; try done; try apply detachLeaf_rejects; try apply commit_tree_rejects.
  - unfold Wall.addLeaf. destruct (root _); [|done].
    destruct (Wall.add_beside _ _) as [[ref|] edge]; [|done]. by destruct (Ops.split _ _ _ _) as [t [|]].
  - unfold Wall.replaceLeaf. by destruct (Ops.replace _ _ _) as [t [|]].
  - unfold Wall.restoreLeaf. by destruct (Ops.restore _ _ _) as [[t [|]] tier].
  - unfold Wall.insertLeaf. by destruct (Ops.insert _ _ _ _) as [t [|]].
  - unfold Wall.resizeBoundary. destruct (geometry s) as [[rect opts]|]; [apply commit_tree_rejects|done].
Qed.

(** ** Mounted documents *)

(** The calls that may take the document of [id] off the page. *)
Definition unmounts op id sn : Prop :=
  match op with
  | SRestoreSnapshot _ => True
  | SRemoveLeaf i | SDoorLeaf i false | SReplaceLeaf i _ _ | SForgetLeaf i => i = id
  | SSeed _ _ => id ∈ leaves (tree sn)
  | _ => False
  end.

(** A leaf that enters leaves every mounted document mounted, one of [gone] apart. *)
Lemma entered_mounted t id meta m zoom s x :
  (forall y, y ∈ leaves (tree (snapshot s)) -> y <> x \/ y ∈ leaves t) -> id ∈ leaves t ->
  mounted (snapshot s) x -> mounted (snapshot (Wall.commit_entered t id meta m zoom s)) x.
Proof.
  intros Hl Hid Hx. unfold Wall.commit_entered, mounted. rewrite commit_snapshot, admit_snapshot.
  cbn [c_tree c_leafMeta c_parked c_zoomedId default tree parked]. cbv [Datatypes.id].
  rewrite admit_parked. case_decide as Hc; [left; by apply list_elem_of_singleton in Hc as ->|].
  destruct Hx as [Hx|Hx]; [left|by right]. by destruct (Hl x Hx).
Qed.

Lemma enter_mounted (op : LathOp W) t id meta s s' x :
  well_formed (tree (snapshot s)) -> snapshot s' = snapshot s ->
  op_adds op = [id] -> op_removes op = [] -> apply_op (tree (snapshot s)) op = (t, true) ->
  mounted (snapshot s) x ->
  mounted (snapshot (Wall.commit_entered t id meta (leafMeta (snapshot s)) None s')) x.
Proof.
  intros Hwf Es Ha Hr E Hx. apply (apply_op_true _ _ _ Hwf) in E as [_ (_ & _ & Hl)].
  rewrite Ha, Hr, filter_none in Hl. simpl in Hl.
  apply entered_mounted; rewrite ?Es; [|rewrite Hl; by left|done].
  intros y Hy. right. rewrite Hl. by right.
Qed.

Lemma commit_tree_mounted (op : LathOp W) s x :
  well_formed (tree (snapshot s)) -> op_adds op = [] -> op_removes op = [] ->
  mounted (snapshot s) x ->
  mounted (snapshot (Wall.commit_tree (apply_op (tree (snapshot s)) op) s).2) x.
Proof.
  intros Hwf Ha Hr Hx. unfold Wall.commit_tree. destruct (apply_op _ op) as [t [|]] eqn:E; [|done].
  apply (apply_op_true _ _ _ Hwf) in E as [_ (_ & _ & Hl)]. rewrite Ha, Hr, filter_none in Hl. simpl in Hl.
  destruct Hx as [Hx|Hx]; [left; cbn; by rewrite Hl|by right].
Qed.

Lemma detachLeaf_mounted strays id keep park s x :
  snap_ok strays (snapshot s) -> (x = id -> keep = true /\ park = true) ->
  mounted (snapshot s) x -> mounted (snapshot (Wall.detachLeaf id keep park s).2) x.
Proof.
  intros Hok Hxi Hx. unfold Wall.detachLeaf. destruct (Ops.remove _ _) as [[t [|]] token] eqn:E; [|done].
  assert (E' : apply_op (tree (snapshot s)) (ORemove id) = (t, true)) by (simpl; by rewrite E).
  apply (apply_op_true _ _ _ (ok_tree _ Hok)) in E' as [_ (_ & Hid & Hl)].
  cbn [op_adds op_removes app snd] in *. rewrite filter_one in Hl. unfold mounted. rewrite commit_snapshot.
  cbn [c_tree c_leafMeta c_parked c_zoomedId default tree parked]. cbv [Datatypes.id].
  destruct (decide (x = id)) as [->|Hne].
  - destruct (Hxi eq_refl) as [-> ->]. right.
    rewrite (proj2 (omap_has_true _ _)) by (apply Hok; by left; apply Hid; left).
    cbn. by rewrite omap_get_set_eq.
  - destruct Hx as [Hx|Hx]; [left|right].
    + rewrite Hl. unfold Ops.leaves_without. by rewrite list_elem_of_filter.
    + destruct (park && _); [|done]. cbn. by apply omap_set_is_Some.
Qed.

Lemma replaceLeaf_mounted strays oldId newId meta s x :
  snap_ok strays (snapshot s) -> oldId <> x ->
  mounted (snapshot s) x -> mounted (snapshot (Wall.replaceLeaf oldId newId meta s).2) x.
Proof.
  intros Hok Hne Hx. unfold Wall.replaceLeaf. destruct (Ops.replace _ _ _) as [t [|]] eqn:E; [|done]. cbn [snd].
  apply (apply_op_true _ (OReplace oldId newId) _ (ok_tree _ Hok)) in E as [_ (_ & _ & Hl)].
  cbn [op_adds op_removes] in Hl. rewrite filter_one in Hl. simpl in Hl.
  apply entered_mounted; [|rewrite Hl; by left|done].
  intros y Hy. destruct (decide (y = oldId)) as [->|Hyo]; [by left|right].
  rewrite Hl. right. unfold Ops.leaves_without. by rewrite list_elem_of_filter.
Qed.

(** The calls that bring a leaf in. *)
Lemma entering_mounted strays op s x :
  snap_ok strays (snapshot s) ->
  match op with SAddLeaf _ _ _ | SRestoreLeaf _ _ _ | SInsertLeaf _ _ _ => True | _ => False end ->
  mounted (snapshot s) x -> mounted (snapshot (apply_store op s).2) x.
Proof.
  intros [Hwf _ _ _] Hop Hx. destruct op; try done; cbn [apply_store].
  - unfold Wall.addLeaf. destruct (root _) eqn:Hr.
    + destruct (Wall.add_beside _ _) as [[ref|] edge]; [|done].
      destruct (Ops.split _ _ _ _) as [t [|]] eqn:E; [|done].
      by apply (enter_mounted (OSplit ref edge id)); [|apply deriveEnterHint_snapshot|..].
    + apply entered_mounted; [|by left|done]. intros y Hy. unfold leaves in Hy. rewrite Hr in Hy.
      by apply elem_of_nil in Hy.
  - unfold Wall.restoreLeaf. destruct (Ops.restore _ _ _) as [[t [|]] tier] eqn:E; [|done].
    eapply (enter_mounted (ORestore token _)); [done|apply deriveEnterHint_snapshot|done..| |done].
    simpl. by rewrite E.
  - unfold Wall.insertLeaf. destruct (Ops.insert _ _ _ _) as [t [|]] eqn:E; [|done].
    apply (enter_mounted (OInsert id target SizeHalf)); [done| |done..].
    destruct target; [apply deriveEnterHint_snapshot|done].
Qed.

(** A commit of metadata or zoom alone. *)
Lemma commit_mounted m z s x :
  mounted (snapshot s) x -> mounted (snapshot (Wall.commit (mkCommit None m None z) s)) x.
Proof. done. Qed.

Lemma apply_store_mounted strays op s x :
  snap_ok strays (snapshot s) -> mounted (snapshot s) x -> ~ unmounts op x (snapshot s) ->
  mounted (snapshot (apply_store op s).2) x.
Proof.
  intros Hok Hx Hu. destruct op; try (by apply (entering_mounted strays)); cbn [apply_store snd unmounts] in *; try done.
  - destruct Hx as [Hx|Hx]; [done|]. unfold Wall.seed, mounted. rewrite commit_snapshot, admit_snapshot.
    cbn [c_tree c_parked default tree parked]. cbv [Datatypes.id]. rewrite admit_parked.
    case_decide; [by left|by right].
  - by apply (detachLeaf_mounted strays).
  - apply (detachLeaf_mounted strays); [done| |done]. intros ->. by destruct park.
  - unfold Wall.addDoor. by destruct (omap_has _ _).
  - unfold Wall.forgetLeaf. destruct (findLeafPath _ _); [done|]. destruct (_ && _); [done|].
    destruct Hx as [Hx|Hx]; [by left|right]. cbn. by rewrite omap_get_delete_ne.
  - by apply (replaceLeaf_mounted strays).
  - by apply (commit_tree_mounted (OSwap a b)); [apply (ok_tree _ Hok)|..].
  - by apply (commit_tree_mounted (OMove id target)); [apply (ok_tree _ Hok)|..].
  - unfold Wall.resizeBoundary. destruct (geometry s) as [[rect opts]|]; [|done].
    by apply (commit_tree_mounted (OResize splitPath boundary deltaPx rect opts)); [apply (ok_tree _ Hok)|..].
  - unfold Wall.setTitle. destruct (omap_get _ _); [|done]. by case_bool_decide.
  - unfold Wall.updateParams. by destruct (omap_get _ _).
  - unfold Wall.setMeta. by destruct (omap_has _ _).
  - unfold Wall.setZoomed. by case_bool_decide.
  - unfold Wall.setLayoutGeometry. by destruct (_ || _).
Qed.

(** ** Histories *)

Lemma reach_ok strays s hist :
  store_reach strays s hist -> head hist = Some (snapshot s) /\ Forall (snap_ok strays) hist.
Proof.
  induction 1 as [|strays s hist op Hr [Hh IH] Hlegal]; split; try done.
  - constructor; [|done]. split; cbn; try done; intros id [Hx|Hx]; [by apply elem_of_nil in Hx|by destruct Hx].
  - constructor; [|eapply Forall_impl; [exact IH|]; intros sn Hsn; eapply snap_ok_strays; [done|set_solver]].
    apply (apply_store_ok strays hist); [done| |done].
    destruct hist as [|sn hist]; [done|]. injection Hh as <-. by apply Forall_cons in IH as [? _].
Qed.

Lemma reach_snapshot_ok strays s hist : store_reach strays s hist -> snap_ok strays (snapshot s).
Proof.
  intros Hr. destruct (reach_ok strays s hist Hr) as [Hh Hf]. destruct hist as [|sn hist]; [done|].
  injection Hh as <-. by apply Forall_cons in Hf as [? _].
Qed.

(** ** Minimizing and reattaching a pane *)

Lemma doorLeaf_inv id park s tok s1 :
  Wall.doorLeaf id park s = (true, Some tok, s1) ->
  exists t, Ops.remove (tree (snapshot s)) id = (t, true, Some tok) /\
    s1 = Wall.commit (mkCommit (Some t) (Some (leafMeta (snapshot s)))
           (if park && omap_has id (leafMeta (snapshot s))
            then Some (omap_set id (Wall.leafRect id s) (parked (snapshot s))) else None)
           (if bool_decide (zoomedId (snapshot s) = Some id) then Some None else None)) s.
Proof.
  unfold Wall.doorLeaf, Wall.detachLeaf. destruct (Ops.remove _ _) as [[t [|]] token]; [|done].
  intros [= -> <-]. by exists t.
Qed.

Lemma remove_token_id t id t' tok : Ops.remove t id = (t', true, Some tok) -> tok_leafId tok = id.
Proof.
  unfold Ops.remove. intros H. repeat (case_in H; try done); by simplify_eq.
Qed.

Lemma remove_present t id t' tok : Ops.remove t id = (t', true, tok) -> id ∈ leaves t.
Proof.
  intros H. destruct (decide (id ∈ leaves t)) as [|Hn]; [done|]. apply findLeafPath_None in Hn.
  unfold Ops.remove in H. rewrite Hn in H. by destruct (root t).
Qed.

Lemma restoreLeaf_eq meta tok ref s t tier :
  Ops.restore (tree (snapshot s)) tok
    (Some (mkRestoreOpts ref (fst <$> geometry s) (snd <$> geometry s))) = (t, true, Some tier) ->
  Wall.restoreLeaf meta tok ref s =
    (true, Some tier, Wall.commit_entered t (tok_leafId tok) meta (leafMeta (snapshot s)) None
                        (Wall.deriveEnterHint (tok_leafId tok) (tok_edge tok) s)).
Proof. intros H. unfold Wall.restoreLeaf. by rewrite H. Qed.

(** The hint of an admitted leaf is the rectangle it was parked with. *)
Lemma admitted_hint id r s :
  omap_get id (parked (snapshot s)) = Some (Some r) ->
  omap_get id (enterHints (Wall.admit_ids [id] s).2) = Some (FromRect r).
Proof. intros H. unfold Wall.admit_ids, Wall.admit_one. cbn. rewrite H. apply omap_get_set_eq. Qed.

End Runs.

(** ** What the wall store promises

    The theorems about histories of the store: the invariant of every published
    snapshot, rejection and publication, documents that stay mounted, and the
    minimize/reattach round trip; with concrete stores that instantiate them. *)

(** ** Concrete stores *)

Definition sample_meta (name : string) : LeafMeta := mkMeta "terminal" "terminal" name None.

(** Two panes side by side, the second one zoomed, laid out at 800 by 600. *)
Definition two_panes : Store Q :=
  Wall.setZoomed (Some "b"%string)
    (Wall.setLayoutGeometry (mkRect 0 0 800 600)%Q Wall.LATH_LAYOUT_OPTS
      (Wall.addLeaf "b" (sample_meta "two") (Some (mkPosition "a" ERight))
        (Wall.addLeaf "a" (sample_meta "one") None (Wall.subscribe 7 Wall.createLathWallStore)).2).2).

Definition two_panes_ops : list (StoreOp Q) :=
  [SSubscribe 7; SAddLeaf "a" (sample_meta "one") None;
   SAddLeaf "b" (sample_meta "two") (Some (mkPosition "a" ERight));
   SSetLayoutGeometry (mkRect 0 0 800 600)%Q Wall.LATH_LAYOUT_OPTS; SSetZoomed (Some "b"%string)].

(** The snapshots of a list of calls, latest first. *)
Definition run_store {W} `{JSNum W} (ops : list (StoreOp W)) (s : Store W) : Store W * list (LathWallSnapshot W) :=
  foldl (fun sh op => let s' := (apply_store op sh.1).2 in (s', snapshot s' :: sh.2)) (s, [snapshot s]) ops.

Example two_panes_run : (run_store two_panes_ops Wall.createLathWallStore).1 = two_panes.
Proof. vm_compute. reflexivity. Qed.

Example two_panes_notified :
  notified two_panes = [(7, 3); (7, 2); (7, 1)]%Z /\ leaves (tree (snapshot two_panes)) = ["a"; "b"]%string.
Proof. vm_compute. done. Qed.

Lemma two_panes_reached :
  store_reach [] two_panes (run_store two_panes_ops Wall.createLathWallStore).2.
Proof.
  rewrite <- two_panes_run at 1. unfold run_store, two_panes_ops. cbn [foldl fst snd].
  assert (E : forall s op strays hist, legal hist op -> store_reach strays s hist -> stray_zoom s op = [] ->
    store_reach strays (apply_store (W:=Q) op s).2 (snapshot (apply_store op s).2 :: hist)).
  { intros s op strays hist Hl Hr Hz. change strays with ([] ++ strays). rewrite <- Hz. by apply reach_call. }
  do 5 (apply E; [exact I| |vm_compute; reflexivity]). apply reach_created.
Qed.

(** ** The invariant *)

(** C13. Every snapshot a store ever publishes is coherent: its tree is well
    formed; every pane and every parked document has metadata; a parked id is
    not in the tree; and a zoom names a pane of the tree, or else an id that a
    zoom request named while it was no pane, which [setZoomed] does not check:
    no other call makes a zoom that names nothing.  The calls are any sequence
    of the store's methods, where a seeded tree is well formed and comes with its
    metadata, and a restored snapshot was published before. *)
Theorem published_snapshots_ok {W} `{JSNum W} strays (s : Store W) hist :
  store_reach strays s hist ->
  head hist = Some (snapshot s) /\
  Forall (fun sn =>
    well_formed (tree sn) /\
    (forall id, id ∈ leaves (tree sn) \/ is_Some (omap_get id (parked sn)) -> is_Some (omap_get id (leafMeta sn))) /\
    (forall id, is_Some (omap_get id (parked sn)) -> id ∉ leaves (tree sn)) /\
    (forall id, zoomedId sn = Some id -> id ∈ leaves (tree sn) \/ id ∈ strays)) hist.
Proof.
  intros Hr. destruct (reach_ok strays s hist Hr) as [Hh Hok]. split; [exact Hh|].
  eapply Forall_impl; [exact Hok|]. intros sn [? ? ? ?]. split_all; done.
Qed.

Lemma published_snapshots_ok_witness :
  store_reach [] two_panes (run_store two_panes_ops Wall.createLathWallStore).2 /\
  (zoomedId (snapshot two_panes) = Some "b" -> "b" ∈ leaves (tree (snapshot two_panes)))%string.
Proof.
  pose proof two_panes_reached as Hr. split; [exact Hr|].
  destruct (published_snapshots_ok [] two_panes _ Hr) as [Hh Hf].
  destruct (run_store two_panes_ops Wall.createLathWallStore).2 as [|sn hist]; [discriminate Hh|].
  injection Hh as ->. apply Forall_cons in Hf as [(_ & _ & _ & Hz) _]. intros E.
  destruct (Hz "b"%string E) as [H|H]; [exact H|by apply elem_of_nil in H].
Defined.

(** A zoom on an id that is no pane is committed: the method does not check. *)
Example setZoomed_unguarded :
  zoomedId (snapshot (Wall.setZoomed (Some "ghost"%string) two_panes)) = Some "ghost"%string /\
  Wall.has "ghost"%string two_panes = false.
Proof. vm_compute. done. Qed.

(** ** Publication *)

(** A rejected call changes nothing at all in the store, and every call
    publishes at most one snapshot, with the next revision, to each listener
    exactly once and in order; a call that publishes nothing leaves the
    snapshot it found. *)
Theorem call_publishes_once {W} `{JSNum W} (op : StoreOp W) (s : Store W) :
  let r := apply_store op s in
  (r.1 = false -> r.2 = s) /\
  ((snapshot r.2 = snapshot s /\ notified r.2 = notified s) \/
   (revision (snapshot r.2) = (revision (snapshot s) + 1)%Z /\
    notified r.2 = rev (map (fun l => (l, revision (snapshot r.2))) (listeners s)) ++ notified s)).
Proof. split; [apply apply_store_rejects|apply apply_store_once]. Qed.

Lemma call_publishes_once_witness :
  (apply_store (SAddLeaf "a" (sample_meta "again") None) two_panes).2 = two_panes.
Proof.
  apply (call_publishes_once (SAddLeaf "a" (sample_meta "again") None) two_panes).
  vm_compute. reflexivity.
Defined.

(** ** Documents stay mounted *)

(** A document that is on the page, in a pane or parked, stays on the page
    through every call but those that destroy it: removing, unparked minimizing
    or replacing its pane, forgetting its Door, seeding over its pane, and
    rolling back to a snapshot.  Minimizing with a park, reattaching, and
    seeding over a parked document never unmount it, at any commit. *)
Theorem documents_stay_mounted {W} `{JSNum W} strays (s : Store W) hist (op : StoreOp W) id :
  store_reach strays s hist -> mounted (snapshot s) id -> ~ unmounts op id (snapshot s) ->
  mounted (snapshot (apply_store op s).2) id.
Proof.
  intros Hr Hm Hu. apply (apply_store_mounted strays); [|exact Hm|exact Hu].
  by eapply reach_snapshot_ok.
Qed.

Lemma documents_stay_mounted_witness :
  mounted (snapshot (apply_store (SDoorLeaf "b" true) two_panes).2) "b"%string.
Proof.
  apply (documents_stay_mounted [] two_panes _ (SDoorLeaf "b"%string true) "b"%string two_panes_reached).
  - left. apply (bool_decide_unpack _). vm_compute. exact I.
  - intros [].
Defined.

(** ** Minimize and reattach *)

(** Minimizing a pane and reattaching it with the recorded token and its own
    metadata puts it back: the arrangement is rebuilt (weights included, except
    that the two panes of a collapsed split come back as halves), every title
    and parameter and every other parked document is as it was, nothing is left
    parked for it, the zoom survives unless it was this pane's, and a document
    that was parked re-enters from the rectangle it was laid out in. *)
Theorem minimize_reattach strays (s s1 : Store Q) hist id park tok meta ref :
  store_reach strays s hist -> valid_tree (tree (snapshot s)) ->
  Wall.doorLeaf id park s = (true, Some tok, s1) ->
  omap_get id (leafMeta (snapshot s)) = Some meta ->
  ((tok_weight tok < 1)%Q -> (1 # 1000000 <= tok_weight tok <= 1 - (1 # 1000000))%Q) ->
  exists tier s2, Wall.restoreLeaf meta tok ref s1 = (true, Some tier, s2) /\
    rebuilt (tree (snapshot s)) id (tree (snapshot s2)) tier /\
    (forall x, omap_get x (leafMeta (snapshot s2)) = omap_get x (leafMeta (snapshot s))) /\
    (forall x, omap_get x (parked (snapshot s2)) = omap_get x (parked (snapshot s))) /\
    zoomedId (snapshot s2) = (if decide (zoomedId (snapshot s) = Some id) then None else zoomedId (snapshot s)) /\
    (park = true -> forall r, Wall.leafRect id s = Some r -> omap_get id (enterHints s2) = Some (FromRect r)).
Proof.
  intros Hr Hv Hd Hm Hw. destruct (doorLeaf_inv _ _ _ _ _ Hd) as (t & Hrm & ->).
  destruct (remove_restores _ id (Some (mkRestoreOpts ref (fst <$> geometry s) (snd <$> geometry s)))
    t tok Hv Hrm Hw) as (t3 & tier & Hrs & Hb).
  pose proof (remove_token_id _ _ _ _ Hrm) as Hid. pose proof (remove_present _ _ _ _ Hrm) as Hin.
  assert (Hp : omap_get id (parked (snapshot s)) = None).
  { destruct (omap_get id (parked (snapshot s))) eqn:E; [|done]. destruct (ok_parked _ (reach_snapshot_ok strays s hist Hr) id); [by rewrite E|done]. }
  exists tier. eexists. split; [by apply restoreLeaf_eq|]. rewrite Hid.
  set (s1 := Wall.commit _ s). set (s2 := Wall.commit_entered _ _ _ _ _ _).
  destruct (entered_fields t3 id meta (leafMeta (snapshot s1)) None (Wall.deriveEnterHint id (tok_edge tok) s1))
    as (Et & Em & Ez). fold s2 in Et, Em, Ez. rewrite Et, Em, Ez, deriveEnterHint_snapshot.
  assert (Hpark : parked (snapshot s1) =
    if park then omap_set id (Wall.leafRect id s) (parked (snapshot s)) else parked (snapshot s)).
  { unfold s1. rewrite commit_snapshot. cbn [parked c_parked].
    rewrite (proj2 (omap_has_true id (leafMeta (snapshot s)))) by by rewrite Hm. by destruct park. }
  split; [exact Hb|]. split_and!.
  - intros x. destruct (decide (x = id)) as [->|Hne]; [by rewrite omap_get_set_eq, Hm|by rewrite omap_get_set_ne].
  - intros x. unfold s2. rewrite entered_parked, deriveEnterHint_snapshot, Hpark.
    destruct (decide (x = id)) as [->|Hne]; [done|]. destruct park; [by rewrite omap_get_set_ne|done].
  - unfold s1. rewrite commit_snapshot. cbn [zoomedId c_zoomedId].
    destruct (decide (zoomedId (snapshot s) = Some id)); [by rewrite bool_decide_true|by rewrite bool_decide_false].
  - intros -> r Hr'. apply admitted_hint. by rewrite deriveEnterHint_snapshot, Hpark, omap_get_set_eq, Hr'.
Qed.

Lemma minimize_reattach_witness :
  exists tier s2, Wall.restoreLeaf (sample_meta "two")
      (default (Ops.root_token "b"%string) (Wall.doorLeaf "b" true two_panes).1.2) None
      (Wall.doorLeaf "b" true two_panes).2 = (true, Some tier, s2) /\
    omap_get "b"%string (enterHints s2) = Some (FromRect (default (mkRect 0 0 0 0)%Q (Wall.leafRect "b" two_panes))).
Proof.
  assert (E : Wall.doorLeaf "b" true two_panes =
    (true, Some (default (Ops.root_token "b"%string) (Wall.doorLeaf "b" true two_panes).1.2),
     (Wall.doorLeaf "b" true two_panes).2)) by (vm_compute; reflexivity).
  assert (Hv : valid_tree (tree (snapshot two_panes))) by (apply valid_by_computation; vm_compute; reflexivity).
  destruct (minimize_reattach [] two_panes _ _ "b"%string true _ (sample_meta "two") None two_panes_reached
    Hv E) as (tier & s2 & H & _ & _ & _ & _ & Hh).
  - vm_compute. reflexivity.
  - intros _. split; vm_compute; discriminate.
  - exists tier, s2. split; [exact H|]. apply Hh; [reflexivity|vm_compute; reflexivity].
Defined.
