(* ===== verification/LathPersistence.v ===== *)
(** * The persisted layout (lib/src/lib/lath/persistence.ts)

    What the wall store writes to storage, the check at the boundary where an
    untrusted blob is read back, and the theorems that the check is exact and
    takes every layout the store can write. *)
From Stdlib Require Import ZArith QArith.
From S2P Require Import Prelude JsNum JsValue LathModel LathValidate LathOpsFacts WallStore WallStoreRuns.
#[local] Open Scope string_scope.
#[local] Open Scope list_scope.

(** [LathPersistedLayout]; the version is the constant 1. *)
Record LathPersistedLayout (W : Type) := mkLayout { l_tree : LathTree W; l_leafMeta : list (string * LeafMeta) }.
Arguments mkLayout {W} _ _.
Arguments l_tree {W} _.
Arguments l_leafMeta {W} _.

Definition lathLayoutFromStore {W} (sn : LathWallSnapshot W) : LathPersistedLayout W :=
  mkLayout (tree sn)
    (foldl (fun meta id => match omap_get id (leafMeta sn) with Some m => omap_set id m meta | None => meta end)
       [] (leaves (tree sn))).

Section persistence.
  Context {W : Type} `{N : JSNum W}.
  Implicit Types (h : Heap W) (v : HVal W) (n : LathNode W).

(** The walk of [leaves] on a value that passed [validate]; [None] where the
    source would throw, or when the fuel runs out. *)
Fixpoint heap_leaves (fuel : nat) h v : option (list LeafId) :=
  match fuel, isRecord h v with
  | S fuel, Some (_, fs) =>
      if bool_decide (as_string (field "kind" fs) = Some "leaf") then
        match field "id" fs with HString id => Some [id] | _ => None end
      else
        match as_array h (field "children" fs) with
        | None => None
        | Some xs =>
            (@concat LeafId) <$>
              mapM (fun x => match isRecord h x with Some (_, gs) => heap_leaves fuel h (field "node" gs) | None => None end) xs
        end
  | _, _ => None
  end.

Definition heap_tree_leaves h v : option (list LeafId) :=
  match isRecord h v with
  | None => None
  | Some (_, fs) => match field "root" fs with HNull => Some [] | root => heap_leaves (S (size h)) h root end
  end.

Definition is_string v : bool := match v with HString _ => true | _ => false end.
Definition is_undefined v : bool := match v with HUndefined => true | _ => false end.
Definition is_record h v : bool := match isRecord h v with Some _ => true | None => false end.

(** The test of one entry's value. *)
Definition is_leaf_meta h v : bool :=
  match isRecord h v with
  | None => false
  | Some (_, m) =>
      is_string (field "component" m) && is_string (field "tabComponent" m) && is_string (field "title" m) &&
      (is_undefined (field "params" m) || is_record h (field "params" m))
  end.

Definition isLathPersistedLayout h (blob : HVal W) : option bool :=
  match isRecord h blob with
  | None => Some false
  | Some (_, fs) =>
      if negb (match field "version" fs with HNumber w => neqb w n1 | _ => false end) then Some false
      else
        match validate h (field "tree" fs) with
        | None => None
        | Some (_ :: _) => Some false
        | Some [] =>
            match isRecord h (field "leafMeta" fs) with
            | None => Some false
            | Some (_, entries) =>
                match heap_tree_leaves h (field "tree" fs) with
                | None => None
                | Some ls =>
                    let ids : gset LeafId := list_to_set ls in
                    if negb (length entries =? size ids)%nat then Some false
                    else Some (forallb (fun e => bool_decide (e.1 ∈ ids) && is_leaf_meta h e.2) entries)
                end
            end
        end
  end.

(** ** What a blob denotes *)

(** The metadata a value denotes; nothing is said of the contents of [params]. *)
Definition meta_denotes h v (m : LeafMeta) : Prop :=
  exists a fs, isRecord h v = Some (a, fs) /\
    field "component" fs = HString (component m) /\ field "tabComponent" fs = HString (tabComponent m) /\
    field "title" fs = HString (title m) /\
    match params m with None => field "params" fs = HUndefined | Some _ => is_record h (field "params" fs) = true end.

Definition layout_denotes h v (l : LathPersistedLayout W) (addrs : list nat) : Prop :=
  exists a fs b entries, isRecord h v = Some (a, fs) /\
    (exists w, field "version" fs = HNumber w /\ neqb w n1 = true) /\
    tree_denotes h (field "tree" fs) (l_tree l) addrs /\
    isRecord h (field "leafMeta" fs) = Some (b, entries) /\
    Forall2 (fun e im => e.1 = im.1 /\ meta_denotes h e.2 im.2) entries (l_leafMeta l).

(** A layout fit to be read: a valid tree, and metadata of exactly its leaves. *)
Definition layout_valid (l : LathPersistedLayout W) : Prop :=
  tree_check (l_tree l) /\ map fst (l_leafMeta l) ≡ₚ leaves (l_tree l).

(** The keys of a JavaScript object are distinct. *)
Definition heap_ok h : Prop := forall a fs, h !! a = Some (HRecord fs) -> NoDup (map fst fs).

(** ** Reading the leaves *)

Lemma denotes_in_heap h n v addrs a : denotes h n v addrs -> a ∈ addrs -> a ∈ dom h.
Proof.
  revert v addrs. induction n as [id|d cs IH] using LathNode_ind'; intros v addrs Hd Hin.
  - destruct Hd as (b & fs & Hr & _ & _ & ->). apply list_elem_of_singleton in Hin as ->. apply isRecord_Some in Hr as [_ Ha].
    by eapply elem_of_dom_2.
  - apply denotes_Split in Hd as (b & fs & xs & parts & Hr & _ & -> & Hcs). apply elem_of_cons in Hin as [->|Hin].
    { apply isRecord_Some in Hr as [_ Ha]. by eapply elem_of_dom_2. }
    clear Hr. induction Hcs as [|c x part cs xs parts (e & gs & _ & _ & Hd) Hcs IHc]; [by apply elem_of_nil in Hin|].
    apply Forall_cons in IH as [IH1 IH2]. cbn [concat] in Hin. apply elem_of_app in Hin as [Hin|Hin]; [by eapply IH1|by apply IHc].
Qed.

Lemma heap_leaves_denotes fuel h n v addrs :
  denotes h n v addrs -> (length addrs <= fuel)%nat -> heap_leaves fuel h v = Some (node_leaves n).
Proof.
  revert fuel v addrs. induction n as [id|d cs IH] using LathNode_ind'; intros fuel v addrs Hd Hf.
  - destruct Hd as (b & fs & Hr & Hk & Hid & ->). destruct fuel as [|fuel]; [cbn in Hf; lia|].
    cbn [heap_leaves]. by rewrite Hr, Hk, Hid.
  - apply denotes_Split in Hd as (b & fs & xs & parts & Hr & Hs & -> & Hcs). destruct fuel as [|fuel]; [cbn in Hf; lia|].
    cbn [heap_leaves node_leaves]. rewrite Hr. apply split_shape_Some in Hs as (Hk & _ & ->). rewrite Hk. cbn [as_string].
    rewrite bool_decide_false by done.
    enough (mapM (fun x => match isRecord h x with Some (_, gs) => heap_leaves fuel h (field "node" gs) | None => None end) xs =
      Some (map (fun c => node_leaves c.1) cs)) as -> by done.
    cbn [length] in Hf. assert (Hf' : (length (concat parts) <= fuel)%nat) by lia. clear Hf Hr Hk.
    induction Hcs as [|c x part cs xs parts (e & gs & He & _ & Hd) Hcs IHc]; [done|].
    apply Forall_cons in IH as [IH1 IH2]. cbn [concat] in Hf'. rewrite length_app in Hf'. cbn [mapM]. rewrite He.
    rewrite (IH1 fuel _ part Hd) by lia. cbn. rewrite IHc by (done || lia). done.
Qed.

Lemma heap_tree_leaves_denotes h v t addrs :
  tree_denotes h v t addrs -> NoDup addrs -> heap_tree_leaves h v = Some (leaves t).
Proof.
  intros (a & fs & Hr & _ & Ht) Hnd. unfold heap_tree_leaves, leaves. rewrite Hr.
  destruct (root t) as [n|]; [|by destruct Ht as [-> _]].
  assert (E : heap_leaves (S (size h)) h (field "root" fs) = Some (node_leaves n)).
  { apply (heap_leaves_denotes _ _ _ _ addrs Ht). rewrite <- size_dom.
    assert (Hs : list_to_set (C:=gset nat) addrs ⊆ dom h).
    { intros b Hb%elem_of_list_to_set. by eapply denotes_in_heap. }
    apply subseteq_size in Hs. rewrite size_list_to_set in Hs by done. lia. }
  apply denotes_head in Ht as (b & gs & r & Hb & _). destruct (field "root" fs); done.
Qed.

(** ** The check *)

Lemma is_leaf_meta_spec h v : is_leaf_meta h v = true <-> exists m, meta_denotes h v m.
Proof.
  unfold is_leaf_meta, meta_denotes. split.
  - destruct (isRecord h v) as [[a fs]|]; [|done]. intros [[[H1 H2]%andb_prop H3]%andb_prop H4]%andb_prop.
    destruct (field "component" fs) as [| | | |c|] eqn:Ec; try done.
    destruct (field "tabComponent" fs) as [| | | |tc|] eqn:Et; try done.
    destruct (field "title" fs) as [| | | |ti|] eqn:Eti; try done.
    apply orb_prop in H4 as [H4|H4].
    + exists (mkMeta c tc ti None), a, fs. split_and!; try done. by destruct (field "params" fs).
    + exists (mkMeta c tc ti (Some [])), a, fs. by split_and!.
  - intros (m & a & fs & -> & -> & -> & -> & Hp). cbn. destruct (params m); [by rewrite Hp, orb_true_r|by rewrite Hp].
Qed.

Lemma NoDup_incl_Permutation (l k : list LeafId) :
  NoDup l -> length l = length k -> (forall x, x ∈ l -> x ∈ k) -> l ≡ₚ k.
Proof.
  intros Hl Hlen Hin. apply submseteq_length_Permutation; [|lia]. apply NoDup_submseteq; [done|]. exact Hin.
Qed.

Lemma leaves_NoDup (t : LathTree W) : tree_check t -> NoDup (leaves t).
Proof. unfold tree_check, leaves. destruct (root t); [by intros []|intros _; apply NoDup_nil_2]. Qed.

(** The entries of an accepted [leafMeta], against the leaves of the tree. *)
Lemma entries_spec h (entries : list (string * HVal W)) (ls : list LeafId) :
  NoDup (map fst entries) -> NoDup ls ->
  negb (length entries =? size (list_to_set (C:=gset LeafId) ls))%nat = false /\
  forallb (fun e => bool_decide (e.1 ∈ list_to_set (C:=gset LeafId) ls) && is_leaf_meta h e.2) entries = true <->
  exists metas, Forall2 (fun e im => e.1 = im.1 /\ meta_denotes h e.2 im.2) entries metas /\ map fst metas ≡ₚ ls.
Proof.
  intros He Hl. rewrite negb_false_iff, Nat.eqb_eq, size_list_to_set by done. rewrite forallb_forall. split.
  - intros [Hlen Hall]. assert (Hm : exists metas, Forall2 (fun e im => e.1 = im.1 /\ meta_denotes h e.2 im.2) entries metas).
    { clear He Hlen. induction entries as [|[k v] entries IH]; [by exists []|].
      destruct IH as [metas Hm]; [intros e Hin; apply Hall; by right|].
      pose proof (Hall (k, v) ltac:(by left)) as [_ Hv]%andb_prop. apply is_leaf_meta_spec in Hv as [m Hv].
      exists ((k, m) :: metas). by constructor. }
    destruct Hm as [metas Hm]. exists metas. split; [exact Hm|].
    assert (Hk : map fst metas = map fst entries).
    { clear -Hm. induction Hm as [|e im entries metas [E _] _ IH]; [done|]. cbn. by rewrite E, IH. }
    rewrite Hk. apply NoDup_incl_Permutation; [done|by rewrite length_map|].
    intros x Hx. apply list_elem_of_fmap in Hx as (e & -> & Hin). apply list_elem_of_In in Hin. specialize (Hall e Hin).
    apply andb_prop in Hall as [Hx _]. apply bool_decide_eq_true in Hx. by apply elem_of_list_to_set in Hx.
  - intros (metas & Hm & Hp). assert (Hk : map fst metas = map fst entries).
    { clear -Hm. induction Hm as [|e im entries metas [E _] _ IH]; [done|]. cbn. by rewrite E, IH. }
    rewrite Hk in Hp. split; [by rewrite <- Hp, length_map|]. intros e Hin%list_elem_of_In. apply andb_true_intro. split.
    + apply bool_decide_eq_true, elem_of_list_to_set. rewrite <- Hp. by apply list_elem_of_fmap_2.
    + apply is_leaf_meta_spec. clear -Hm Hin. induction Hm as [|e' im entries metas [_ Hd] _ IH]; [by apply elem_of_nil in Hin|].
      apply elem_of_cons in Hin as [->|Hin]; [by exists im.2|by apply IH].
Qed.

(** What the boundary check accepts. *)
Lemma boundary_spec h (blob : HVal W) :
  heap_ok h ->
  exists b, isLathPersistedLayout h blob = Some b /\
    (b = true <-> exists l addrs, layout_denotes h blob l addrs /\ NoDup addrs /\ layout_valid l).
Proof.
  intros Hh. unfold isLathPersistedLayout, layout_denotes.
  destruct (isRecord h blob) as [[a fs]|].
  2:{ exists false. split; [done|]. split; [done|]. by intros (l & addrs & (a & fs & b & entries & ? & _) & _). }
  destruct (match field "version" fs with HNumber w => neqb w n1 | _ => false end) eqn:Hv; cbn [negb].
  2:{ exists false. split; [done|]. split; [done|]. intros (l & addrs & (a' & fs' & b & entries & [= <- <-] & (w & E & Hw) & _) & _).
      rewrite E in Hv. congruence. }
  destruct (validate_spec h (field "tree" fs)) as (es & -> & Hes). destruct es as [|e es].
  2:{ exists false. split; [done|]. split; [done|].
      intros (l & addrs & (a' & fs' & b & entries & [= <- <-] & _ & Ht & _) & Hnd & Hc & _).
      discriminate (proj2 Hes). by exists (l_tree l), addrs. }
  destruct (proj1 Hes eq_refl) as (t & addrs & Ht & Hnd & Hc). clear Hes.
  destruct (isRecord h (field "leafMeta" fs)) as [[b entries]|] eqn:Hb.
  2:{ exists false. split; [done|]. split; [done|].
      intros (l & addrs' & (a' & fs' & b & entries & [= <- <-] & _ & _ & ? & _) & _). congruence. }
  rewrite (heap_tree_leaves_denotes h _ t addrs Ht Hnd). cbv zeta.
  assert (Hke : NoDup (map fst entries)) by (apply isRecord_Some in Hb as [_ Hb]; by eapply Hh).
  pose proof (entries_spec h entries (leaves t) Hke (leaves_NoDup t Hc)) as Hs.
  exists (negb (negb (length entries =? size (list_to_set (C:=gset LeafId) (leaves t)))%nat) &&
          forallb (fun e => bool_decide (e.1 ∈ list_to_set (C:=gset LeafId) (leaves t)) && is_leaf_meta h e.2) entries).
  split; [by destruct (negb (_ =? _)%nat)|]. rewrite andb_true_iff, negb_true_iff, Hs. split.
  - intros (metas & Hm & Hp). exists (mkLayout t metas), addrs. split; [|split; [done|by split]].
    exists a, fs, b, entries. split; [done|]. split; [|by split_and!].
    destruct (field "version" fs) as [| | |w| |]; try done. by exists w.
  - intros (l & addrs' & (a' & fs' & b' & entries' & [= <- <-] & _ & Ht' & Hb' & Hm) & Hnd' & _ & Hp).
    rewrite Hb in Hb'. injection Hb' as <- <-.
    exists (l_leafMeta l). split; [exact Hm|]. pose proof (heap_tree_leaves_denotes h _ _ _ Ht' Hnd') as E1.
    rewrite (heap_tree_leaves_denotes h _ t addrs Ht Hnd) in E1. injection E1 as ->. exact Hp.
Qed.

(** The boundary check always answers, and takes a blob exactly when it is a
    persisted layout: version 1, a tree that denotes a valid typed tree with no
    node shared or cyclic, and one well-typed metadata record for each of its
    leaves and no other. *)
Theorem isLathPersistedLayout_decides h (blob : HVal W) :
  heap_ok h ->
  exists b, isLathPersistedLayout h blob = Some b /\
    (b = true <-> exists l addrs, layout_denotes h blob l addrs /\ NoDup addrs /\ layout_valid l).
Proof. apply boundary_spec. Qed.

(** ** What the store writes *)

Lemma layout_meta_keys (sn : LathWallSnapshot W) ids acc :
  (forall id, id ∈ ids -> is_Some (omap_get id (leafMeta sn))) -> NoDup ids -> (forall id, id ∈ ids -> id ∉ map fst acc) ->
  map fst (foldl (fun meta id => match omap_get id (leafMeta sn) with Some m => omap_set id m meta | None => meta end) acc ids)
  = map fst acc ++ ids.
Proof.
  revert acc. induction ids as [|id ids IH]; intros acc Hm Hnd Hacc; [by rewrite app_nil_r|]. cbn [foldl].
  destruct (Hm id ltac:(by left)) as [m ->]. apply NoDup_cons in Hnd as [Hid Hnd].
  assert (Hk : map fst (omap_set id m acc) = map fst acc ++ [id]).
  { rewrite omap_set_keys, decide_False by (apply Hacc; by left). done. }
  rewrite IH.
  - by rewrite Hk, <- app_assoc.
  - intros x Hx. apply Hm. by right.
  - done.
  - intros x Hx. rewrite Hk. intros [Hin|Hin]%elem_of_app; [by eapply Hacc; [right|]|].
    apply list_elem_of_singleton in Hin as ->. done.
Qed.

Lemma layout_meta_get (sn : LathWallSnapshot W) ids acc id :
  id ∈ ids -> is_Some (omap_get id (leafMeta sn)) ->
  omap_get id (foldl (fun meta id => match omap_get id (leafMeta sn) with Some m => omap_set id m meta | None => meta end) acc ids)
  = omap_get id (leafMeta sn).
Proof.
  intros Hin [m Em]. induction ids as [|x ids IH] using rev_ind; [by apply elem_of_nil in Hin|]. rewrite foldl_snoc.
  destruct (decide (id = x)) as [->|Hx]; [rewrite Em; apply omap_get_set_eq|].
  apply elem_of_app in Hin as [Hin|Hin]; [|apply list_elem_of_singleton in Hin; congruence].
  destruct (omap_get x (leafMeta sn)); [rewrite omap_get_set_ne by congruence|]; by apply IH.
Qed.

(** Every layout the store can write is read back: for any snapshot a history
    of the store published, whose weights are in order, any faithful copy of the
    persisted layout (such as the fresh objects [JSON.parse] builds) passes the
    boundary check; and whatever layout the accepted blob denotes has the
    snapshot's panes, with one metadata record each. *)
Theorem store_layout_accepted strays (s : Store W) hist h (blob : HVal W) addrs :
  store_reach strays s hist -> tree_check (tree (snapshot s)) -> heap_ok h ->
  layout_denotes h blob (lathLayoutFromStore (snapshot s)) addrs -> NoDup addrs ->
  isLathPersistedLayout h blob = Some true /\
  map fst (l_leafMeta (lathLayoutFromStore (snapshot s))) = leaves (tree (snapshot s)) /\
  (forall id, id ∈ leaves (tree (snapshot s)) ->
     omap_get id (l_leafMeta (lathLayoutFromStore (snapshot s))) = omap_get id (leafMeta (snapshot s))).
Proof.
  intros Hr Hc Hh Hd Hnd. apply reach_snapshot_ok in Hr as [_ Hm _ _]. set (sn := snapshot s) in *.
  pose proof (leaves_NoDup _ Hc) as Hl.
  assert (Hk : map fst (l_leafMeta (lathLayoutFromStore sn)) = leaves (tree sn)).
  { unfold lathLayoutFromStore. cbn [l_leafMeta]. rewrite layout_meta_keys; [done| |done|intros ? _; apply not_elem_of_nil].
    intros id Hid. apply Hm. by left. }
  split_and!; [|exact Hk|intros id Hid; apply layout_meta_get; [exact Hid|apply Hm; by left]].
  destruct (boundary_spec h blob Hh) as (b & -> & Hb). f_equal. apply Hb.
  exists (lathLayoutFromStore sn), addrs. split; [done|]. split; [done|]. split; [done|]. by rewrite Hk.
Qed.

End persistence.

(** ** Concrete blobs *)

(** The layout of [two_panes] as [JSON.parse] builds it, at address 0. *)
Definition two_panes_heap : Heap Q :=
  list_to_map [
    (0, HRecord [("version", HNumber 1%Q); ("tree", HRef 1); ("leafMeta", HRef 6)]);
    (1, HRecord [("root", HRef 2)]);
    (2, HRecord [("kind", HString "split"); ("dir", HString "row"); ("children", HRef 3)]);
    (3, HArray [HRef 4; HRef 5]);
    (4, HRecord [("node", HRef 7); ("weight", HNumber (4 # 8)%Q)]);
    (5, HRecord [("node", HRef 8); ("weight", HNumber (4 # 8)%Q)]);
    (6, HRecord [("a", HRef 9); ("b", HRef 10)]);
    (7, HRecord [("kind", HString "leaf"); ("id", HString "a")]);
    (8, HRecord [("kind", HString "leaf"); ("id", HString "b")]);
    (9, HRecord [("component", HString "terminal"); ("tabComponent", HString "terminal"); ("title", HString "one")]);
    (10, HRecord [("component", HString "terminal"); ("tabComponent", HString "terminal"); ("title", HString "two")])].

Example two_panes_accepted : isLathPersistedLayout two_panes_heap (HRef 0) = Some true.
Proof. vm_compute. reflexivity. Qed.

(** The same heap with both panes one shared object, or with the tree inside itself. *)
Example shared_rejected :
  isLathPersistedLayout (<[5 := HRecord [("node", HRef 7); ("weight", HNumber (4 # 8)%Q)]]> two_panes_heap) (HRef 0) = Some false.
Proof. vm_compute. reflexivity. Qed.

Example cyclic_rejected :
  isLathPersistedLayout (<[5 := HRecord [("node", HRef 2); ("weight", HNumber (4 # 8)%Q)]]> two_panes_heap) (HRef 0) = Some false.
Proof. vm_compute. reflexivity. Qed.

(** Metadata of a pane that is not in the tree. *)
Example stray_meta_rejected :
  isLathPersistedLayout (<[6 := HRecord [("a", HRef 9); ("c", HRef 10)]]> two_panes_heap) (HRef 0) = Some false.
Proof. vm_compute. reflexivity. Qed.

Lemma two_panes_heap_ok : heap_ok two_panes_heap.
Proof.
  intros a fs Ha. apply elem_of_list_to_map_2 in Ha.
  repeat (apply elem_of_cons in Ha as [Ha|Ha]; [first [discriminate Ha|
    injection Ha as -> ->; apply (bool_decide_unpack _); vm_compute; exact I]|]).
  by apply elem_of_nil in Ha.
Qed.

Lemma isLathPersistedLayout_decides_witness :
  heap_ok two_panes_heap /\
  exists b, isLathPersistedLayout two_panes_heap (HRef 0) = Some b /\
    (b = true <-> exists l addrs, layout_denotes two_panes_heap (HRef 0) l addrs /\ NoDup addrs /\ layout_valid l).
Proof. split; [apply two_panes_heap_ok|]. apply isLathPersistedLayout_decides, two_panes_heap_ok. Defined.

Lemma two_panes_denoted :
  layout_denotes two_panes_heap (HRef 0) (lathLayoutFromStore (snapshot two_panes)) [2; 7; 8].
Proof.
  assert (E : lathLayoutFromStore (snapshot two_panes) =
    mkLayout (mkTree (Some (Split Row [(Leaf "a", 4 # 8); (Leaf "b", 4 # 8)])))%Q
      [("a", sample_meta "one"); ("b", sample_meta "two")]) by (vm_compute; reflexivity).
  rewrite E. clear E. eexists _, _, _, _. split; [reflexivity|]. split; [by eexists|]. split; [|split; [reflexivity|]].
  - eexists _, _. split; [reflexivity|]. split; [reflexivity|]. cbn.
    eexists _, _. split; [reflexivity|]. eexists _, [[7]; [8]]. split; [reflexivity|]. split; [reflexivity|].
    repeat (split; [eexists _, _; split; [reflexivity|]; split; [reflexivity|]; eexists _, _; by repeat (split; [reflexivity|])|]).
    exact I.
  - repeat constructor; eexists _, _; by repeat (split; [reflexivity|]).
Qed.

Lemma store_layout_accepted_witness :
  (store_reach [] two_panes (run_store two_panes_ops Wall.createLathWallStore).2 /\
   layout_denotes two_panes_heap (HRef 0) (lathLayoutFromStore (snapshot two_panes)) [2; 7; 8]) /\
  isLathPersistedLayout two_panes_heap (HRef 0) = Some true.
Proof.
  split; [split; [apply two_panes_reached|apply two_panes_denoted]|].
  eapply (store_layout_accepted [] two_panes _ two_panes_heap (HRef 0) [2; 7; 8]);
    [apply two_panes_reached| |apply two_panes_heap_ok|apply two_panes_denoted|].
  - split; [vm_compute; reflexivity|]. apply (bool_decide_unpack _). vm_compute. exact I.
  - apply (bool_decide_unpack _). vm_compute. exact I.
Defined.
