(* ===== verification/Bytes.v ===== *)
(** * Byte-level helpers (remote-lib-common/src/security/bytes.ts)

    Big-endian lengths, length-prefixed concatenation and base64url.  A
    [Uint8Array] is a list of bytes: reading past its end gives [undefined],
    and writing past its end does nothing, as list insertion does. *)
From Stdlib Require Import ZArith Ascii.
From Stdlib Require Strings.Byte.
From coqutil Require Import Byte.
From stdpp Require Import pretty.
From Stdlib Require Import ZArith Ascii Lia.
From S2P Require Import Prelude JsValue.
#[local] Open Scope Z_scope.

Abbreviation bytes := (list byte).

#[export] Instance byte_eq_dec : EqDecision byte.
Proof. intros x y. exact (Stdlib.Strings.Byte.byte_eq_dec x y). Defined.

Definition blen (b : bytes) : Z := Z.of_nat (length b).

(** [new Uint8Array(n)]. *)
Definition zeros (n : Z) : bytes := replicate (Z.to_nat n) (byte.of_Z 0).

(** [b.subarray(from, to)], for indices that are not negative. *)
Definition subarray (from to : Z) (b : bytes) : bytes := slice (Z.to_nat from) (Z.to_nat to) b.

(** [out[offset] = value], and [out.set(part, offset)] for a part that fits. *)
Definition put (out : bytes) (offset : Z) (value : Z) : bytes := <[Z.to_nat offset := byte.of_Z value]> out.
Definition set_at (out : bytes) (offset : Z) (part : bytes) : bytes :=
  list_inserts (Z.to_nat offset) part out.

(** [b[i]], read as a number; the source reads only indices in range. *)
Definition byte_at (b : bytes) (i : Z) : Z :=
  match b !! Z.to_nat i with Some x => byte.unsigned x | None => 0 end.

(** ** The 32-bit operators *)

(** [ToInt32]. *)
Definition to_int32 (z : Z) : Z := (z + 2 ^ 31) mod 2 ^ 32 - 2 ^ 31.

Definition js_shl (a k : Z) : Z := to_int32 (Z.shiftl (to_int32 a) k).
Definition js_shr (a k : Z) : Z := Z.shiftr (to_int32 a) k.
Definition js_ushr (a k : Z) : Z := Z.shiftr (a mod 2 ^ 32) k.
Definition js_and (a b : Z) : Z := Z.land (to_int32 a) (to_int32 b).
Definition js_bor (a b : Z) : Z := Z.lor (to_int32 a) (to_int32 b).

(** ** Concatenation and lengths *)

Definition concatBytes (parts : list bytes) : bytes := concat parts.

Definition UINT32_SIZE : Z := 4.

Definition writeUint32BE (out : bytes) (offset value : Z) : bytes :=
  put (put (put (put out offset (js_and (js_ushr value 24) 255))
    (offset + 1) (js_and (js_ushr value 16) 255))
    (offset + 2) (js_and (js_ushr value 8) 255))
    (offset + 3) (js_and value 255).

Definition readUint32BE (b : bytes) (offset : Z) : Z :=
  js_ushr (js_shl (byte_at b offset) 24) 0 +
  js_shl (byte_at b (offset + 1)) 16 +
  js_shl (byte_at b (offset + 2)) 8 +
  byte_at b (offset + 3).

(** The loop of [lengthPrefixedConcat], from [offset] on. *)
Fixpoint prefix_parts (parts : list bytes) (out : bytes) (offset : Z) : bytes :=
  match parts with
  | [] => out
  | part :: parts' =>
      prefix_parts parts'
        (set_at (writeUint32BE out offset (blen part)) (offset + UINT32_SIZE) part)
        (offset + (UINT32_SIZE + blen part))
  end.

Definition lengthPrefixedConcat (parts : list bytes) : bytes :=
  let total := foldl (fun total part => total + (UINT32_SIZE + blen part)) 0 parts in
  prefix_parts parts (zeros total) 0.

(** [constantTimeEqual]: no early exit on the first difference. *)
Definition constantTimeEqual (a b : bytes) : bool :=
  if negb (blen a =? blen b) then false
  else foldl (fun diff ab => js_bor diff (Z.lxor (byte.unsigned ab.1) (byte.unsigned ab.2))) 0 (zip a b) =? 0.

(** ** Base64url *)

Definition B64U_ALPHABET : string :=
  "ABCDEFGHIJKLMNOPQRSTUVWXYZabcdefghijklmnopqrstuvwxyz0123456789-_"%string.

(** A string as its code units, and bytes below 128 as the string they decode to. *)
Definition units (s : string) : list Z := map (fun c => Z.of_N (N_of_ascii c)) (String.list_ascii_of_string s).
Definition ascii_text (b : bytes) : string :=
  String.string_of_list_ascii (map (fun x => ascii_of_N (Z.to_N (byte.unsigned x))) b).

Definition B64U_CODES : bytes := map byte.of_Z (units B64U_ALPHABET).

(** [B64U_REVERSE]: the table filled from the alphabet, [-1] elsewhere. *)
Definition B64U_REVERSE : list Z :=
  (foldl (fun ti code => (<[Z.to_nat code := ti.2]> ti.1, ti.2 + 1))
     (replicate 128 (-1), 0) (units B64U_ALPHABET)).1.

Definition base64UrlLength (byteLength : Z) : Z :=
  let remainder := byteLength mod 3 in
  byteLength / 3 * 4 + (if remainder =? 0 then 0 else remainder + 1).

(** [out[at++] = B64U_CODES[i]]. *)
Definition emit_code (oa : bytes * Z) (i : Z) : bytes * Z :=
  (<[Z.to_nat oa.2 := default (byte.of_Z 0) (B64U_CODES !! Z.to_nat i)]> oa.1, oa.2 + 1).

(** One round of [toBase64Url]'s loop: the codes of up to three bytes. *)
Definition encode_group (b0 : byte) (b1 b2 : option byte) (oa : bytes * Z) : bytes * Z :=
  let u (b : option byte) := match b with Some x => byte.unsigned x | None => 0 end in
  let oa := emit_code oa (js_shr (byte.unsigned b0) 2) in
  let oa := emit_code oa (js_bor (js_shl (js_and (byte.unsigned b0) 3) 4) (js_shr (u b1) 4)) in
  let oa := match b1 with
            | Some x1 => emit_code oa (js_bor (js_shl (js_and (byte.unsigned x1) 15) 2) (js_shr (u b2) 6))
            | None => oa
            end in
  match b2 with
  | Some x2 => emit_code oa (js_and (byte.unsigned x2) 63)
  | None => oa
  end.

Fixpoint encode_from (b : bytes) (oa : bytes * Z) : bytes * Z :=
  match b with
  | b0 :: b1 :: b2 :: b' => encode_from b' (encode_group b0 (Some b1) (Some b2) oa)
  | [b0; b1] => encode_group b0 (Some b1) None oa
  | [b0] => encode_group b0 None None oa
  | [] => oa
  end.

(** The codes are ASCII, which [utf8Decode] maps to themselves. *)
Definition toBase64Url (b : bytes) : string :=
  ascii_text (encode_from b (zeros (base64UrlLength (blen b)), 0)).1.

(** [while (end > 0 && text[end - 1] === '=') end--]. *)
Fixpoint unpadded_end (us : list Z) (stop : nat) : nat :=
  match stop with
  | O => O
  | S k => if bool_decide (us !! k = Some 61) then unpadded_end us k else stop
  end.

(** The variables of [fromBase64Url]'s loop. *)
Record Decoding := mkDecoding { d_bits : Z; d_bitCount : Z; d_outIndex : Z; d_out : bytes }.

(** The digit a code unit stands for, [-1] when it is none. *)
Definition digit_value (code : Z) : Z :=
  if code <? 128 then default (-1) (B64U_REVERSE !! Z.to_nat code) else -1.

(** One round of the loop, for a digit. *)
Definition decode_digit (value : Z) (d : Decoding) : Decoding :=
  let bits := js_bor (js_shl (d_bits d) 6) value in
  let bitCount := d_bitCount d + 6 in
  if 8 <=? bitCount then
    mkDecoding bits (bitCount - 8) (d_outIndex d + 1)
      (put (d_out d) (d_outIndex d) (js_and (js_shr bits (bitCount - 8)) 255))
  else mkDecoding bits bitCount (d_outIndex d) (d_out d).

Fixpoint decode_digits (i : N) (us : list Z) (d : Decoding) : outcome Decoding :=
  match us with
  | [] => Ok d
  | code :: us' =>
      let! _ := throw_if (digit_value code <? 0)
                  (OtherErr ("invalid base64url character at index " +:+ pretty i)) in
      decode_digits (i + 1) us' (decode_digit (digit_value code) d)
  end.

Definition fromBase64Url (text : string) : outcome bytes :=
  let us := units text in
  let stop := unpadded_end us (length us) in
  let rem := Z.of_nat stop mod 4 in
  let! _ := throw_if (rem =? 1) (OtherErr "invalid base64url: impossible length") in
  let outLength := js_shr (Z.of_nat stop) 2 * 3 + (if rem =? 0 then 0 else rem - 1) in
  let! d := decode_digits 0 (take stop us) (mkDecoding 0 0 0 (zeros outLength)) in
  let! _ := throw_if (negb (js_and (d_bits d) (js_shl 1 (d_bitCount d) - 1) =? 0))
              (OtherErr "invalid base64url: nonzero trailing bits") in
  Ok (d_out d).

(** ** Wire guards *)

(** [/^[A-Za-z0-9_-]+$/.test(value)] on a string that is not empty. *)
Definition b64_unit (u : Z) : bool :=
  (65 <=? u) && (u <=? 90) || (97 <=? u) && (u <=? 122) || (48 <=? u) && (u <=? 57) || (u =? 95) || (u =? 45).

Definition isBoundedBase64Url (value : JsValue) (limit : Z) : bool :=
  match value with
  | JString s =>
      let len := Z.of_nat (String.length s) in
      (0 <? len) && (len <=? limit) && forallb b64_unit (units s)
  | _ => false
  end.

Definition isExactBase64Url (value : JsValue) (len : Z) : bool :=
  isBoundedBase64Url value len &&
  match value with JString s => Z.of_nat (String.length s) =? len | _ => false end.

Definition isBoundedString (value : JsValue) (limit : Z) : bool :=
  match value with JString s => Z.of_nat (String.length s) <=? limit | _ => false end.

Example b64_hello : toBase64Url (map byte.of_Z [104; 101; 108; 108; 111]) = "aGVsbG8"%string.
Proof. vm_compute. reflexivity. Qed.

Example b64_back : fromBase64Url "aGVsbG8=="%string = Ok (map byte.of_Z [104; 101; 108; 108; 111]).
Proof. vm_compute. reflexivity. Qed.

Example b64_trailing : fromBase64Url "aGVsbG9"%string = Throw (OtherErr "invalid base64url: nonzero trailing bits").
Proof. vm_compute. reflexivity. Qed.

Example lp_sample :
  lengthPrefixedConcat [map byte.of_Z [1; 2]; []] = map byte.of_Z [0; 0; 0; 2; 1; 2; 0; 0; 0; 0].
Proof. vm_compute. reflexivity. Qed.

(** ** Facts about the byte helpers

    The big-endian lengths read back, length-prefixed concatenation keeps its
    field boundaries, and base64url decodes to one byte string and back. *)

Ltac zdiv := Z.div_mod_to_equations; lia.

(** ** Bytes *)

Lemma unsigned_byte z : 0 <= z < 256 -> byte.unsigned (byte.of_Z z) = z.
Proof. intros H. rewrite byte.unsigned_of_Z. unfold byte.wrap. apply Z.mod_small. exact H. Qed.

Lemma unsigned_bounds b : 0 <= byte.unsigned b < 256.
Proof. apply (byte.unsigned_range b). Qed.

Lemma blen_nonneg b : 0 <= blen b.
Proof. unfold blen. lia. Qed.

Lemma blen_app b1 b2 : blen (b1 ++ b2) = blen b1 + blen b2.
Proof. unfold blen. rewrite length_app. lia. Qed.

Lemma length_zeros n : length (zeros n) = Z.to_nat n.
Proof. unfold zeros. apply length_replicate. Qed.

Lemma zeros_add n m : 0 <= n -> 0 <= m -> zeros (n + m) = zeros n ++ zeros m.
Proof. intros. unfold zeros. by rewrite Z2Nat.inj_add, replicate_add by lia. Qed.

(** Writing in the middle of an array. *)
Lemma insert_middle {A} (pre : list A) x y post :
  <[length pre := y]> (pre ++ x :: post) = pre ++ y :: post.
Proof. rewrite insert_app_r_alt by lia. by rewrite Nat.sub_diag. Qed.

Lemma put_at pre x post v :
  put (pre ++ x :: post) (blen pre) v = pre ++ byte.of_Z v :: post.
Proof. unfold put, blen. rewrite Nat2Z.id. apply insert_middle. Qed.

Lemma set_at_middle pre mid part post :
  length mid = length part -> set_at (pre ++ mid ++ post) (blen pre) part = pre ++ part ++ post.
Proof.
  intros H. unfold set_at, blen. rewrite Nat2Z.id.
  replace (length pre) with (length pre + 0)%nat by lia.
  rewrite list_inserts_app_r. by rewrite list_inserts_0_r.
Qed.

(** ** The 32-bit operators on small numbers *)

Lemma to_int32_small z : - 2 ^ 31 <= z < 2 ^ 31 -> to_int32 z = z.
Proof. intros H. unfold to_int32. rewrite Z.mod_small; lia. Qed.

Lemma to_int32_shift z : exists q, to_int32 z = z + 2 ^ 32 * q.
Proof. exists (- ((z + 2 ^ 31) / 2 ^ 32)). unfold to_int32. zdiv. Qed.

Lemma js_and_mask z k : 0 <= k <= 30 -> js_and z (2 ^ k - 1) = z mod 2 ^ k.
Proof.
  intros Hk. unfold js_and. pose proof (Z.pow_pos_nonneg 2 k ltac:(lia) ltac:(lia)) as Hp.
  pose proof (Z.pow_le_mono_r 2 k 30 ltac:(lia) ltac:(lia)) as Hle.
  rewrite (to_int32_small (2 ^ k - 1)) by lia.
  replace (2 ^ k - 1) with (Z.ones k) by (rewrite Z.ones_equiv; lia). rewrite Z.land_ones by lia.
  destruct (to_int32_shift z) as [q ->].
  replace (2 ^ 32) with (2 ^ (32 - k) * 2 ^ k) by (rewrite <- Z.pow_add_r by lia; f_equal; lia).
  replace (z + 2 ^ (32 - k) * 2 ^ k * q) with (z + (2 ^ (32 - k) * q) * 2 ^ k) by lia.
  apply Z.mod_add. lia.
Qed.

Lemma js_and_255 z : js_and z 255 = z mod 256.
Proof. apply (js_and_mask z 8). lia. Qed.

Lemma js_ushr_small z k : 0 <= z < 2 ^ 32 -> 0 <= k -> js_ushr z k = z / 2 ^ k.
Proof. intros Hz Hk. unfold js_ushr. rewrite Z.mod_small by lia. by apply Z.shiftr_div_pow2. Qed.

Lemma js_shr_small z k : 0 <= z < 2 ^ 31 -> 0 <= k -> js_shr z k = z / 2 ^ k.
Proof. intros Hz Hk. unfold js_shr. rewrite to_int32_small by lia. by apply Z.shiftr_div_pow2. Qed.

Lemma js_shl_eq z k : 0 <= k -> js_shl z k = to_int32 (z * 2 ^ k).
Proof.
  intros Hk. unfold js_shl. rewrite Z.shiftl_mul_pow2 by done.
  destruct (to_int32_shift z) as [q ->]. unfold to_int32. f_equal.
  replace ((z + 2 ^ 32 * q) * 2 ^ k + 2 ^ 31) with (z * 2 ^ k + 2 ^ 31 + (q * 2 ^ k) * 2 ^ 32) by lia.
  apply Z.mod_add. lia.
Qed.

(** ** Big-endian lengths *)

(** The four bytes of a big-endian [u32]. *)
Definition be32 (v : Z) : bytes :=
  [byte.of_Z (v / 2 ^ 24); byte.of_Z (v / 2 ^ 16); byte.of_Z (v / 2 ^ 8); byte.of_Z v].

Lemma byte_of_mod z : byte.of_Z (z mod 256) = byte.of_Z z.
Proof.
  apply byte.unsigned_inj. rewrite !byte.unsigned_of_Z. unfold byte.wrap. change (2 ^ 8) with 256.
  apply Z.mod_mod. lia.
Qed.

Lemma writeUint32BE_at pre a b c d post v :
  0 <= v < 2 ^ 32 -> writeUint32BE (pre ++ a :: b :: c :: d :: post) (blen pre) v = pre ++ be32 v ++ post.
Proof.
  intros Hv. unfold writeUint32BE. rewrite !js_and_255, !js_ushr_small by lia. rewrite put_at.
  assert (Hn : forall x y rest w,
    put (pre ++ x :: y :: rest) (blen pre + 1) w = pre ++ x :: byte.of_Z w :: rest).
  { intros x y rest w. pose proof (put_at (pre ++ [x]) y rest w) as E. rewrite blen_app in E.
    by rewrite <- !(app_assoc pre) in E. }
  assert (Hn2 : forall x y z rest w,
    put (pre ++ x :: y :: z :: rest) (blen pre + 2) w = pre ++ x :: y :: byte.of_Z w :: rest).
  { intros x y z rest w. pose proof (put_at (pre ++ [x; y]) z rest w) as E. rewrite blen_app in E.
    by rewrite <- !(app_assoc pre) in E. }
  assert (Hn3 : forall x y z u rest w,
    put (pre ++ x :: y :: z :: u :: rest) (blen pre + 3) w = pre ++ x :: y :: z :: byte.of_Z w :: rest).
  { intros x y z u rest w. pose proof (put_at (pre ++ [x; y; z]) u rest w) as E. rewrite blen_app in E.
    by rewrite <- !(app_assoc pre) in E. }
  rewrite Hn, Hn2, Hn3. unfold be32. by rewrite !byte_of_mod.
Qed.

Lemma byte_at_app pre x post k :
  0 <= k -> byte_at (pre ++ x :: post) (blen pre) = byte.unsigned x.
Proof.
  intros _. unfold byte_at, blen. rewrite Nat2Z.id. by rewrite list_lookup_middle.
Qed.

Lemma readUint32BE_at pre v post :
  0 <= v < 2 ^ 32 -> readUint32BE (pre ++ be32 v ++ post) (blen pre) = v.
Proof.
  intros Hv. unfold readUint32BE, be32. cbn [app].
  rewrite (byte_at_app pre _ _ 0) by lia.
  assert (H1 : forall a b rest, byte_at (pre ++ a :: b :: rest) (blen pre + 1) = byte.unsigned b).
  { intros a b rest. pose proof (byte_at_app (pre ++ [a]) b rest 0) as E. rewrite blen_app, <- app_assoc in E.
    apply E. lia. }
  assert (H2 : forall a b c rest, byte_at (pre ++ a :: b :: c :: rest) (blen pre + 2) = byte.unsigned c).
  { intros a b c rest. pose proof (byte_at_app (pre ++ [a; b]) c rest 0) as E. rewrite blen_app, <- app_assoc in E.
    apply E. lia. }
  assert (H3 : forall a b c d rest, byte_at (pre ++ a :: b :: c :: d :: rest) (blen pre + 3) = byte.unsigned d).
  { intros a b c d rest. pose proof (byte_at_app (pre ++ [a; b; c]) d rest 0) as E.
    rewrite blen_app, <- app_assoc in E. apply E. lia. }
  rewrite H1, H2, H3, !byte.unsigned_of_Z. unfold byte.wrap. rewrite !js_shl_eq by lia.
  unfold js_ushr, to_int32. rewrite Z.shiftr_0_r. zdiv.
Qed.

(** The reference definition of the framing: each part after its length. *)
Definition prefixed (parts : list bytes) : bytes := concat (map (fun p => be32 (blen p) ++ p) parts).

Lemma prefixed_length parts :
  blen (prefixed parts) = foldl (fun total part => total + (UINT32_SIZE + blen part)) 0 parts.
Proof.
  assert (G : forall k, k + blen (prefixed parts) =
    foldl (fun total part => total + (UINT32_SIZE + blen part)) k parts); [|by rewrite <- G].
  induction parts as [|p parts IH]; intros k; [unfold prefixed, blen; simpl; lia|].
  cbn [foldl]. rewrite <- IH. unfold prefixed. cbn [map concat]. rewrite !blen_app.
  unfold UINT32_SIZE. change (blen (be32 (blen p))) with 4. lia.
Qed.

Lemma prefix_parts_eq parts pre :
  Forall (fun p => blen p < 2 ^ 32) parts ->
  prefix_parts parts (pre ++ zeros (blen (prefixed parts))) (blen pre) = pre ++ prefixed parts.
Proof.
  intros Hs. revert pre. induction Hs as [|p parts Hp Hs IH]; intros pre; [done|].
  assert (El : blen (prefixed (p :: parts)) = 4 + (blen p + blen (prefixed parts))).
  { unfold prefixed. cbn [map concat]. rewrite !blen_app. change (blen (be32 (blen p))) with 4. lia. }
  cbn [prefix_parts]. rewrite El. pose proof (blen_nonneg p). pose proof (blen_nonneg (prefixed parts)).
  rewrite (zeros_add 4), (zeros_add (blen p)) by lia. change (zeros 4) with [byte.of_Z 0; byte.of_Z 0; byte.of_Z 0; byte.of_Z 0].
  cbn [app]. rewrite writeUint32BE_at by lia. unfold UINT32_SIZE.
  pose proof (set_at_middle (pre ++ be32 (blen p)) (zeros (blen p)) p (zeros (blen (prefixed parts)))) as E.
  rewrite blen_app, <- !app_assoc in E. change (blen (be32 (blen p))) with 4 in E.
  rewrite E by (rewrite length_zeros; unfold blen; by rewrite Nat2Z.id).
  specialize (IH (pre ++ be32 (blen p) ++ p)). rewrite !blen_app, <- !app_assoc in IH.
  change (blen (be32 (blen p))) with 4 in IH. rewrite IH.
  unfold prefixed. cbn [map concat]. by rewrite <- !app_assoc.
Qed.

Lemma lengthPrefixedConcat_eq parts :
  Forall (fun p => blen p < 2 ^ 32) parts -> lengthPrefixedConcat parts = prefixed parts.
Proof.
  intros Hs. unfold lengthPrefixedConcat. rewrite <- prefixed_length.
  apply (prefix_parts_eq parts []). exact Hs.
Qed.

Lemma be32_inj v w : 0 <= v < 2 ^ 32 -> 0 <= w < 2 ^ 32 -> be32 v = be32 w -> v = w.
Proof.
  intros Hv Hw E. rewrite <- (readUint32BE_at [] v [] Hv), <- (readUint32BE_at [] w [] Hw). by rewrite E.
Qed.

Lemma prefixed_inj ps qs :
  Forall (fun p => blen p < 2 ^ 32) ps -> Forall (fun p => blen p < 2 ^ 32) qs ->
  prefixed ps = prefixed qs -> ps = qs.
Proof.
  intros Hp. revert qs. induction Hp as [|p ps Hp _ IH]; intros qs Hq E.
  - destruct qs as [|q qs]; [done|]. by apply (f_equal length) in E.
  - destruct Hq as [|q qs Hq Hqs]; [by apply (f_equal length) in E|].
    unfold prefixed in E. cbn [map concat] in E. rewrite <- !app_assoc in E.
    apply app_inj_1 in E as [E1 E2]; [|done].
    apply be32_inj in E1; [|pose proof (blen_nonneg p); lia|pose proof (blen_nonneg q); lia].
    apply app_inj_1 in E2 as [-> E2]; [|unfold blen in E1; lia]. f_equal. by apply IH.
Qed.
