(* ===== verification/Base64.v ===== *)
(** * Base64url round trip (remote-lib-common/src/security/bytes.ts)

    The reference reading of base64url as lists of six-bit digits, and the
    theorem that the texts [fromBase64Url] accepts for a byte string are its
    [toBase64Url] with any trailing padding. *)
From Stdlib Require Import ZArith Ascii Lia.
From coqutil Require Import Byte.
From stdpp Require Import pretty.
From S2P Require Import Prelude JsValue Bytes.
#[local] Open Scope Z_scope.

(** ** The alphabet *)

(** The code unit of a digit. *)
Definition digit_unit (d : Z) : Z := nth (Z.to_nat d) (units B64U_ALPHABET) 0.

Definition is_digit (d : Z) : Prop := 0 <= d < 64.

Lemma forall_below (n : nat) (P : Z -> bool) :
  forallb (fun i => P (Z.of_nat i)) (seq 0 n) = true -> forall z, 0 <= z < Z.of_nat n -> P z = true.
Proof.
  intros H z Hz. rewrite forallb_forall in H. specialize (H (Z.to_nat z)).
  rewrite Z2Nat.id in H by lia. apply H. apply in_seq. lia.
Qed.

Lemma digit_value_unit d : is_digit d -> digit_value (digit_unit d) = d.
Proof.
  intros Hd. apply Z.eqb_eq. revert d Hd. apply (forall_below 64). vm_compute. reflexivity.
Qed.

(** The digits are exactly the code units of the alphabet. *)
Lemma digit_value_inv u : 0 <= u -> 0 <= digit_value u -> is_digit (digit_value u) /\ digit_unit (digit_value u) = u.
Proof.
  intros Hu Hd. destruct (Z.ltb_spec u 128) as [Hlt|Hge].
  - assert (E : (digit_value u <? 0) || ((digit_value u <? 64) && (digit_unit (digit_value u) =? u)) = true).
    { assert (G : 0 <= u < 128) by lia. revert G. clear. revert u.
      apply (forall_below 128). vm_compute. reflexivity. }
    apply orb_prop in E as [E|E]; [lia|]. apply andb_prop in E as [E1 E2]. unfold is_digit. lia.
  - unfold digit_value in Hd. destruct (Z.ltb_spec u 128); lia.
Qed.

Lemma digit_unit_ascii d : is_digit d -> 0 <= digit_unit d < 128 /\ digit_unit d <> 61.
Proof.
  intros Hd. assert (E : (0 <=? digit_unit d) && (digit_unit d <? 128) && negb (digit_unit d =? 61) = true).
  { revert d Hd. apply (forall_below 64). vm_compute. reflexivity. }
  apply andb_prop in E as [E E3]. apply andb_prop in E as [E1 E2]. apply negb_true_iff in E3. lia.
Qed.

(** ** Digits of a byte string *)

Fixpoint digits (b : bytes) : list Z :=
  let u := byte.unsigned in
  match b with
  | b0 :: b1 :: b2 :: b' =>
      [u b0 / 4; u b0 mod 4 * 16 + u b1 / 16; u b1 mod 16 * 4 + u b2 / 64; u b2 mod 64] ++ digits b'
  | [b0; b1] => [u b0 / 4; u b0 mod 4 * 16 + u b1 / 16; u b1 mod 16 * 4]
  | [b0] => [u b0 / 4; u b0 mod 4 * 16]
  | [] => []
  end.

(** The bytes of a list of digits: the reference decoder. *)
Fixpoint bytes_of (ds : list Z) : option bytes :=
  match ds with
  | v1 :: v2 :: v3 :: v4 :: ds' =>
      app [byte.of_Z (v1 * 4 + v2 / 16); byte.of_Z (v2 * 16 + v3 / 4); byte.of_Z (v3 * 64 + v4)] <$> bytes_of ds'
  | [v1; v2; v3] =>
      if v3 mod 4 =? 0 then Some [byte.of_Z (v1 * 4 + v2 / 16); byte.of_Z (v2 * 16 + v3 / 4)] else None
  | [v1; v2] => if v2 mod 16 =? 0 then Some [byte.of_Z (v1 * 4 + v2 / 16)] else None
  | [_] => None
  | [] => Some []
  end.

(** Induction on byte strings three at a time, and on digits four at a time. *)
Lemma bytes_ind3 (P : bytes -> Prop) :
  P [] -> (forall a, P [a]) -> (forall a b, P [a; b]) -> (forall a b c l, P l -> P (a :: b :: c :: l)) ->
  forall l, P l.
Proof.
  intros H0 H1 H2 H3 l. assert (G : P l /\ (forall a, P (a :: l)) /\ (forall a b, P (a :: b :: l))); [|tauto].
  induction l as [|c l (I0 & I1 & I2)]; split_and!; auto.
Qed.

Lemma digits_ind4 (P : list Z -> Prop) :
  P [] -> (forall a, P [a]) -> (forall a b, P [a; b]) -> (forall a b c, P [a; b; c]) ->
  (forall a b c d l, P l -> P (a :: b :: c :: d :: l)) -> forall l, P l.
Proof.
  intros H0 H1 H2 H3 H4 l.
  assert (G : P l /\ (forall a, P (a :: l)) /\ (forall a b, P (a :: b :: l)) /\ (forall a b c, P (a :: b :: c :: l)));
    [|tauto].
  induction l as [|c l (I0 & I1 & I2 & I3)]; split_and!; auto.
Qed.

Lemma digits_are_digits b : Forall is_digit (digits b).
Proof.
  induction b as [|a|a b|a b c l IH] using bytes_ind3; cbn [digits app].
  1: constructor.
  all: pose proof (unsigned_bounds a); try (pose proof (unsigned_bounds b)); try (pose proof (unsigned_bounds c)).
  all: repeat constructor; try exact IH; zdiv.
Qed.

Lemma byte_of_eq z b : byte.unsigned b = z mod 256 -> byte.of_Z z = b.
Proof. intros E. apply byte.unsigned_inj. rewrite byte.unsigned_of_Z. by unfold byte.wrap. Qed.

Lemma bytes_of_digits b : bytes_of (digits b) = Some b.
Proof.
  induction b as [|a|a b|a b c l IH] using bytes_ind3; cbn [digits app bytes_of]; [done| | |].
  all: pose proof (unsigned_bounds a); try (pose proof (unsigned_bounds b)); try (pose proof (unsigned_bounds c)).
  - rewrite (proj2 (Z.eqb_eq _ 0)) by zdiv. do 2 f_equal. apply byte_of_eq. zdiv.
  - rewrite (proj2 (Z.eqb_eq _ 0)) by zdiv. f_equal. f_equal; [|f_equal]; apply byte_of_eq; zdiv.
  - rewrite IH. cbn. f_equal. f_equal; [|f_equal; [|f_equal]]; apply byte_of_eq; zdiv.
Qed.

Lemma digits_bytes_of ds b : Forall is_digit ds -> bytes_of ds = Some b -> digits b = ds.
Proof.
  unfold is_digit. revert b. induction ds as [|v1|v1 v2|v1 v2 v3|v1 v2 v3 v4 ds IH] using digits_ind4; intros b Hd H;
    cbn [bytes_of] in H; [by simplify_eq|done| | |]; rewrite ?Forall_cons in Hd; split_all.
  - destruct (Z.eqb_spec (v2 mod 16) 0); [|done]. injection H as <-. cbn [digits].
    rewrite unsigned_byte by zdiv. repeat (f_equal; try zdiv).
  - destruct (Z.eqb_spec (v3 mod 4) 0); [|done]. injection H as <-. cbn [digits].
    rewrite !byte.unsigned_of_Z. unfold byte.wrap. repeat (f_equal; try zdiv).
  - destruct (bytes_of ds) as [b'|]; [|done]. cbn in H. injection H as <-. cbn [app digits].
    rewrite !byte.unsigned_of_Z. unfold byte.wrap. rewrite (IH b') by done. cbn [app].
    repeat (f_equal; try zdiv).
Qed.

(** ** The decoder's loop *)

Lemma to_int32_idem z : to_int32 (to_int32 z) = to_int32 z.
Proof. unfold to_int32. zdiv. Qed.

(** Appending a digit to the accumulated bits. *)
Lemma append_digit bits v : is_digit v -> js_bor (js_shl bits 6) v = to_int32 (bits * 64 + v).
Proof.
  unfold is_digit. intros Hv. rewrite js_shl_eq by lia. unfold js_bor. rewrite to_int32_idem.
  rewrite (to_int32_small v) by lia. change (2 ^ 6) with 64.
  assert (Hx : exists y, to_int32 (bits * 64) = y * 2 ^ 6).
  { destruct (to_int32_shift (bits * 64)) as [q ->]. exists (bits + 2 ^ 26 * q). lia. }
  destruct Hx as [y Hy]. rewrite Hy. rewrite <- Z.shiftl_mul_pow2 by lia.
  assert (E : Z.land (Z.shiftl y 6) v = 0).
  { apply Z.bits_inj'. intros n Hn. rewrite Z.land_spec, Z.bits_0. destruct (Z.ltb_spec n 6).
    - by rewrite Z.shiftl_spec_low.
    - rewrite (Z.bits_above_log2 v n), andb_false_r; [done|lia|].
      destruct (decide (v = 0)) as [->|]; [simpl; lia|]. apply Z.log2_lt_pow2; [lia|].
      pose proof (Z.pow_le_mono_r 2 6 n ltac:(lia) ltac:(lia)). lia. }
  rewrite <- Z.lxor_lor by done. rewrite <- Z.add_nocarry_lxor by done.
  rewrite Z.shiftl_mul_pow2, <- Hy by lia. unfold to_int32. zdiv.
Qed.

(** The byte the loop takes out of the accumulated bits. *)
Lemma taken_byte x k :
  k = 0 \/ k = 2 \/ k = 4 -> js_and (js_shr (to_int32 x) k) 255 = (x / 2 ^ k) mod 256.
Proof.
  intros Hk. rewrite js_and_255. unfold js_shr. rewrite to_int32_idem, Z.shiftr_div_pow2 by lia.
  unfold to_int32. destruct Hk as [->|[->| ->]]; zdiv.
Qed.

Definition run_digits (ds : list Z) (d : Decoding) : Decoding := foldl (fun d v => decode_digit v d) d ds.

Lemma decode_digit_6 v B idx out :
  is_digit v -> decode_digit v (mkDecoding B 0 idx out) = mkDecoding (to_int32 (B * 64 + v)) 6 idx out.
Proof. intros Hv. unfold decode_digit. cbn. by rewrite append_digit. Qed.

Lemma decode_digit_take v x k pre y post :
  is_digit v -> k = 2 \/ k = 4 \/ k = 6 ->
  decode_digit v (mkDecoding (to_int32 x) k (blen pre) (pre ++ y :: post)) =
  mkDecoding (to_int32 (x * 64 + v)) (k - 2) (blen (pre ++ [byte.of_Z ((x * 64 + v) / 2 ^ (k - 2))]))
    ((pre ++ [byte.of_Z ((x * 64 + v) / 2 ^ (k - 2))]) ++ post).
Proof.
  intros Hv Hk. unfold decode_digit. cbn [d_bits d_bitCount d_outIndex d_out].
  rewrite append_digit by done.
  assert (E : to_int32 (to_int32 x * 64 + v) = to_int32 (x * 64 + v)) by (unfold to_int32; zdiv). rewrite E.
  rewrite (proj2 (Z.leb_le 8 (k + 6))) by lia. replace (k + 6 - 8) with (k - 2) by lia.
  rewrite put_at, taken_byte by lia. rewrite byte_of_mod, <- app_assoc, blen_app. done.
Qed.

Lemma byte_of_congr z w : z mod 256 = w mod 256 -> byte.of_Z z = byte.of_Z w.
Proof. intros H. rewrite <- byte_of_mod, H. apply byte_of_mod. Qed.

(** Two digits give a byte, three give two, and four give three. *)
Lemma run_two v1 v2 B pre x1 post :
  is_digit v1 -> is_digit v2 ->
  run_digits [v1; v2] (mkDecoding B 0 (blen pre) (pre ++ x1 :: post)) =
  (let out := pre ++ [byte.of_Z (v1 * 4 + v2 / 16)] in
   mkDecoding (to_int32 ((B * 64 + v1) * 64 + v2)) 4 (blen out) (out ++ post)).
Proof.
  unfold is_digit. intros H1 H2. unfold run_digits. cbn [foldl].
  rewrite decode_digit_6, decode_digit_take by (done || lia).
  rewrite (byte_of_congr (((B * 64 + v1) * 64 + v2) / 2 ^ (6 - 2)) (v1 * 4 + v2 / 16)) by (cbn; zdiv).
  done.
Qed.

Lemma run_three v1 v2 v3 B pre x1 x2 post :
  is_digit v1 -> is_digit v2 -> is_digit v3 ->
  run_digits [v1; v2; v3] (mkDecoding B 0 (blen pre) (pre ++ x1 :: x2 :: post)) =
  (let out := pre ++ [byte.of_Z (v1 * 4 + v2 / 16); byte.of_Z (v2 * 16 + v3 / 4)] in
   mkDecoding (to_int32 (((B * 64 + v1) * 64 + v2) * 64 + v3)) 2 (blen out) (out ++ post)).
Proof.
  unfold is_digit. intros H1 H2 H3.
  change [v1; v2; v3] with ([v1; v2] ++ [v3]). unfold run_digits. rewrite foldl_app.
  pose proof (run_two v1 v2 B pre x1 (x2 :: post) H1 H2) as E. unfold run_digits in E. rewrite E. cbn zeta.
  cbn [foldl]. rewrite decode_digit_take by (done || lia). rewrite <- !(app_assoc pre [_]). cbn [app].
  rewrite (byte_of_congr ((((B * 64 + v1) * 64 + v2) * 64 + v3) / 2 ^ (4 - 2)) (v2 * 16 + v3 / 4)) by (cbn; zdiv).
  done.
Qed.

Lemma run_four v1 v2 v3 v4 ds B pre x1 x2 x3 post :
  is_digit v1 -> is_digit v2 -> is_digit v3 -> is_digit v4 ->
  exists B', run_digits (v1 :: v2 :: v3 :: v4 :: ds) (mkDecoding B 0 (blen pre) (pre ++ x1 :: x2 :: x3 :: post)) =
    (let out := pre ++ [byte.of_Z (v1 * 4 + v2 / 16); byte.of_Z (v2 * 16 + v3 / 4); byte.of_Z (v3 * 64 + v4)] in
     run_digits ds (mkDecoding B' 0 (blen out) (out ++ post))).
Proof.
  unfold is_digit. intros H1 H2 H3 H4. eexists.
  change (v1 :: v2 :: v3 :: v4 :: ds) with ([v1; v2; v3] ++ v4 :: ds). unfold run_digits. rewrite foldl_app.
  pose proof (run_three v1 v2 v3 B pre x1 x2 (x3 :: post) H1 H2 H3) as E. unfold run_digits in E. rewrite E. cbn zeta.
  cbn [foldl]. rewrite decode_digit_take by (done || lia).
  rewrite (byte_of_congr (((((B * 64 + v1) * 64 + v2) * 64 + v3) * 64 + v4) / 2 ^ (2 - 2)) (v3 * 64 + v4)) by (cbn; zdiv).
  by rewrite <- !(app_assoc pre [_; _]).
Qed.

(** The number of bytes the decoder makes room for. *)
Definition out_length (n : nat) : Z :=
  js_shr (Z.of_nat n) 2 * 3 + (if Z.of_nat n mod 4 =? 0 then 0 else Z.of_nat n mod 4 - 1).

(** What the loop leaves for the check after it. *)
Definition leftover (d : Decoding) : Z := js_and (d_bits d) (js_shl 1 (d_bitCount d) - 1).

Lemma leftover_eq x k out n :
  k = 2 \/ k = 4 -> leftover (mkDecoding (to_int32 x) k n out) = x mod 2 ^ k.
Proof.
  intros Hk. unfold leftover. cbn [d_bits d_bitCount].
  assert (E : js_shl 1 k - 1 = 2 ^ k - 1) by (destruct Hk as [->| ->]; vm_compute; reflexivity).
  rewrite E, js_and_mask by lia. unfold to_int32. destruct Hk as [->| ->]; zdiv.
Qed.

(** The loop decodes as the reference does, and the last check fails on the
    texts the reference has no bytes for. *)
Lemma run_digits_spec ds B pre :
  Forall is_digit ds -> Z.of_nat (length ds) < 2 ^ 31 -> Z.of_nat (length ds) mod 4 <> 1 ->
  let d := run_digits ds (mkDecoding B 0 (blen pre) (pre ++ zeros (out_length (length ds)))) in
  match bytes_of ds with
  | Some b => leftover d = 0 /\ d_out d = pre ++ b
  | None => leftover d <> 0
  end.
Proof.
  revert B pre. induction ds as [|v1|v1 v2|v1 v2 v3|v1 v2 v3 v4 ds IH] using digits_ind4;
    intros B pre Hd Hlen Hmod d; rewrite ?Forall_cons in Hd; split_all; cbn [bytes_of].
  - split; [|done]. unfold d, leftover. cbn [run_digits foldl d_bits d_bitCount].
    change (js_shl 1 0 - 1) with (2 ^ 0 - 1). rewrite js_and_mask by lia. apply Z.mod_1_r.
  - by destruct Hmod.
  - assert (Ed : d = _) by (apply run_two; done). rewrite Ed. cbn zeta. rewrite leftover_eq by lia.
    destruct (Z.eqb_spec (v2 mod 16) 0); [|zdiv]. split; [zdiv|]. cbn [d_out]. by rewrite app_nil_r.
  - assert (Ed : d = _) by (apply run_three; done). rewrite Ed. cbn zeta. rewrite leftover_eq by lia.
    destruct (Z.eqb_spec (v3 mod 4) 0); [|zdiv]. split; [zdiv|]. cbn [d_out]. by rewrite app_nil_r.
  - assert (El : out_length (length (v1 :: v2 :: v3 :: v4 :: ds)) = 3 + out_length (length ds)).
    { cbn [length] in *. unfold out_length. rewrite !js_shr_small by lia.
      replace (Z.of_nat (S (S (S (S (length ds)))))) with (Z.of_nat (length ds) + 1 * 4) by lia.
      rewrite Z.mod_add by lia. change (2 ^ 2) with 4. rewrite Z.div_add by lia. lia. }
    assert (Hge : 0 <= out_length (length ds)).
    { unfold out_length. cbn [length] in Hlen. rewrite js_shr_small by lia. destruct (_ =? 0) eqn:?; zdiv. }
    unfold d. rewrite El, zeros_add by lia. change (zeros 3) with [byte.of_Z 0; byte.of_Z 0; byte.of_Z 0].
    cbn [app]. destruct (run_four v1 v2 v3 v4 ds B pre (byte.of_Z 0) (byte.of_Z 0) (byte.of_Z 0)
      (zeros (out_length (length ds)))) as [B' ->]; [done..|]. cbn zeta.
    cbn [length] in Hlen, Hmod.
    specialize (IH B' (pre ++ [byte.of_Z (v1 * 4 + v2 / 16); byte.of_Z (v2 * 16 + v3 / 4); byte.of_Z (v3 * 64 + v4)])).
    specialize (IH ltac:(done) ltac:(lia)).
    assert (Hm : Z.of_nat (length ds) mod 4 <> 1).
    { replace (Z.of_nat (S (S (S (S (length ds)))))) with (Z.of_nat (length ds) + 1 * 4) in Hmod by lia.
      by rewrite Z.mod_add in Hmod by lia. }
    specialize (IH Hm). cbn zeta in IH. destruct (bytes_of ds) as [b|]; cbn; [|exact IH].
    destruct IH as [-> ->]. by rewrite <- app_assoc.
Qed.

(** ** The encoder's loop *)

Lemma forall_below2 (n : nat) (P : Z -> Z -> bool) :
  forallb (fun i => forallb (fun j => P (Z.of_nat i) (Z.of_nat j)) (seq 0 n)) (seq 0 n) = true ->
  forall y z, 0 <= y < Z.of_nat n -> 0 <= z < Z.of_nat n -> P y z = true.
Proof.
  intros H y z Hy Hz. rewrite forallb_forall in H.
  specialize (H (Z.to_nat y) ltac:(apply in_seq; lia)). rewrite Z2Nat.id in H by lia.
  by apply (forall_below n (P y) H).
Qed.

(** The index expressions of the loop. *)
Lemma code_index_0 u : 0 <= u < 256 -> js_shr u 2 = u / 4.
Proof. intros H. rewrite js_shr_small by lia. done. Qed.

Lemma bor_16 a b : 0 <= a < 16 -> 0 <= b < 16 -> js_bor (a * 16) b = a * 16 + b.
Proof. intros Ha Hb. apply Z.eqb_eq. revert a b Ha Hb. apply (forall_below2 16). vm_compute. reflexivity. Qed.

Lemma bor_4 a b : 0 <= a < 16 -> 0 <= b < 4 -> js_bor (a * 4) b = a * 4 + b.
Proof.
  intros Ha Hb. assert (E : (4 <=? b) || (js_bor (a * 4) b =? a * 4 + b) = true); [|lia].
  assert (Hb' : 0 <= b < 16) by lia. clear Hb. revert a b Ha Hb'. apply (forall_below2 16). vm_compute. reflexivity.
Qed.

Lemma and_3 u : js_and u 3 = u mod 4.
Proof. apply (js_and_mask u 2). lia. Qed.

Lemma and_15 u : js_and u 15 = u mod 16.
Proof. apply (js_and_mask u 4). lia. Qed.

Lemma code_index_1 u v :
  0 <= u < 256 -> 0 <= v < 256 -> js_bor (js_shl (js_and u 3) 4) (js_shr v 4) = u mod 4 * 16 + v / 16.
Proof.
  intros Hu Hv. rewrite and_3, js_shl_eq, to_int32_small, js_shr_small by zdiv. apply bor_16; zdiv.
Qed.

Lemma code_index_2 u v :
  0 <= u < 256 -> 0 <= v < 256 -> js_bor (js_shl (js_and u 15) 2) (js_shr v 6) = u mod 16 * 4 + v / 64.
Proof.
  intros Hu Hv. rewrite and_15, js_shl_eq, to_int32_small, js_shr_small by zdiv. apply bor_4; zdiv.
Qed.

Lemma code_index_3 u : js_and u 63 = u mod 64.
Proof. apply (js_and_mask u 6). lia. Qed.

(** The byte written for a digit. *)
Definition digit_byte (d : Z) : byte := byte.of_Z (digit_unit d).

Lemma code_byte d : is_digit d -> default (byte.of_Z 0) (B64U_CODES !! Z.to_nat d) = digit_byte d.
Proof.
  intros Hd. apply byte.unsigned_inj. apply Z.eqb_eq. revert d Hd. apply (forall_below 64). vm_compute. reflexivity.
Qed.

Lemma emit_code_at d pre y post :
  is_digit d ->
  emit_code (pre ++ y :: post, blen pre) d = ((pre ++ [digit_byte d]) ++ post, blen (pre ++ [digit_byte d])).
Proof.
  intros Hd. unfold emit_code. cbn [fst snd]. rewrite code_byte by done.
  unfold blen at 1. rewrite Nat2Z.id, insert_middle, <- app_assoc, blen_app. done.
Qed.

Lemma code_length n : 0 <= n -> base64UrlLength (n + 3) = 4 + base64UrlLength n.
Proof.
  intros Hn. unfold base64UrlLength. replace (n + 3) with (n + 1 * 3) by lia.
  rewrite Z.mod_add, Z.div_add by lia. destruct (_ =? 0); lia.
Qed.

Lemma code_length_nonneg n : 0 <= n -> 0 <= base64UrlLength n.
Proof. intros Hn. unfold base64UrlLength. destruct (_ =? 0) eqn:?; zdiv. Qed.

(** The loop writes the codes of the digits. *)
Lemma encode_from_spec b pre :
  encode_from b (pre ++ zeros (base64UrlLength (blen b)), blen pre) =
  (pre ++ map digit_byte (digits b), blen (pre ++ map digit_byte (digits b))).
Proof.
  revert pre. induction b as [|a|a b|a b c l IH] using bytes_ind3; intros pre.
  - cbn. by rewrite !app_nil_r.
  - pose proof (unsigned_bounds a). change (base64UrlLength (blen [a])) with 2.
    change (zeros 2) with [byte.of_Z 0; byte.of_Z 0]. cbn [encode_from digits map]. unfold encode_group.
    rewrite code_index_0, code_index_1 by lia. change (0 / 16) with 0. rewrite Z.add_0_r.
    rewrite !emit_code_at by (unfold is_digit; zdiv). by rewrite <- !(app_assoc pre), app_nil_r.
  - pose proof (unsigned_bounds a). pose proof (unsigned_bounds b). change (base64UrlLength (blen [a; b])) with 3.
    change (zeros 3) with [byte.of_Z 0; byte.of_Z 0; byte.of_Z 0]. cbn [encode_from digits map]. unfold encode_group.
    rewrite code_index_0, code_index_1, code_index_2 by lia. change (0 / 64) with 0. rewrite Z.add_0_r.
    rewrite !emit_code_at by (unfold is_digit; zdiv). by rewrite <- !(app_assoc pre), app_nil_r.
  - pose proof (unsigned_bounds a). pose proof (unsigned_bounds b). pose proof (unsigned_bounds c).
    assert (El : blen (a :: b :: c :: l) = blen l + 3) by (unfold blen; cbn [length]; lia).
    rewrite El, code_length, zeros_add by (apply blen_nonneg || apply code_length_nonneg, blen_nonneg || lia).
    change (zeros 4) with [byte.of_Z 0; byte.of_Z 0; byte.of_Z 0; byte.of_Z 0]. cbn [encode_from app]. unfold encode_group.
    rewrite code_index_0, code_index_1, code_index_2, code_index_3 by lia.
    rewrite !emit_code_at by (unfold is_digit; zdiv). rewrite IH. cbn [digits app map].
    by rewrite <- !(app_assoc pre).
Qed.

(** ** Texts *)

Lemma units_ascii_text b : Forall (fun x => byte.unsigned x < 256) b -> units (ascii_text b) = map byte.unsigned b.
Proof.
  intros Hb. unfold units, ascii_text. rewrite String.list_ascii_of_string_of_list_ascii, !map_map.
  apply map_ext_in. intros x _. pose proof (unsigned_bounds x). rewrite N_ascii_embedding by lia.
  apply Z2N.id. lia.
Qed.

Lemma units_inj s t : units s = units t -> s = t.
Proof.
  intros H. rewrite <- (String.string_of_list_ascii_of_string s), <- (String.string_of_list_ascii_of_string t).
  f_equal. unfold units in H. revert H. generalize (String.list_ascii_of_string t).
  induction (String.list_ascii_of_string s) as [|a l IH]; intros [|b l'] H; try done.
  injection H as H1 H2. apply N2Z.inj in H1. f_equal; [|by apply IH].
  rewrite <- (ascii_N_embedding a), <- (ascii_N_embedding b). by f_equal.
Qed.

Lemma units_app s t : units (s +:+ t) = units s ++ units t.
Proof. induction s as [|a s IH]; [done|]. change (units (String a s)) with (Z.of_N (N_of_ascii a) :: units s). simpl. rewrite <- IH. done. Qed.

(** The code units of [toBase64Url] are those of the digits. *)
Lemma units_toBase64Url b : units (toBase64Url b) = map digit_unit (digits b).
Proof.
  unfold toBase64Url. pose proof (encode_from_spec b []) as E. cbn [app] in E. change (blen []) with 0 in E.
  rewrite E. cbn [fst]. rewrite units_ascii_text.
  - rewrite map_map. apply map_ext_in. intros d Hd. apply list_elem_of_In in Hd.
    pose proof (digits_are_digits b) as Hf. rewrite Forall_forall in Hf. apply Hf in Hd.
    pose proof (digit_unit_ascii d Hd). apply unsigned_byte. lia.
  - apply Forall_forall. intros x _. apply unsigned_bounds.
Qed.

(** [n] padding characters. *)
Definition padding (n : nat) : string := String.string_of_list_ascii (replicate n "="%char).

Lemma units_padding n : units (padding n) = replicate n 61.
Proof.
  unfold padding, units. rewrite String.list_ascii_of_string_of_list_ascii.
  induction n as [|n IH]; [done|]. cbn. f_equal. exact IH.
Qed.

Lemma unpadded_end_spec us stop :
  (stop <= length us)%nat ->
  let e := unpadded_end us stop in
  (e <= stop)%nat /\ take stop us = take e us ++ replicate (stop - e) 61 /\
  (forall k, e = S k -> us !! k <> Some 61).
Proof.
  induction stop as [|k IH]; intros Hs; cbn [unpadded_end]; [done|].
  case_bool_decide as Hk.
  - destruct IH as (H1 & H2 & H3); [lia|]. split_and!; [lia| |exact H3].
    rewrite (take_S_r _ _ 61) by done. rewrite H2, <- app_assoc. f_equal.
    replace (S k - unpadded_end us k)%nat with ((k - unpadded_end us k) + 1)%nat by lia.
    by rewrite replicate_add.
  - split_and!; [lia| |by intros ? [= ->]]. rewrite Nat.sub_diag. cbn [replicate]. by rewrite app_nil_r.
Qed.

Lemma unpadded_end_app us w stop : (stop <= length us)%nat -> unpadded_end (us ++ w) stop = unpadded_end us stop.
Proof.
  induction stop as [|k IH]; intros Hs; cbn [unpadded_end]; [done|]. rewrite lookup_app_l by lia.
  rewrite IH by lia. done.
Qed.

(** Digits followed by padding end where the digits do. *)
Lemma unpadded_end_digits ds n :
  Forall is_digit ds ->
  unpadded_end (map digit_unit ds ++ replicate n 61) (length ds + n) = length ds.
Proof.
  intros Hd. induction n as [|n IH].
  - rewrite Nat.add_0_r, app_nil_r. destruct ds as [|d ds _] using rev_ind; [done|].
    rewrite length_app. cbn [length]. rewrite Nat.add_1_r. cbn [unpadded_end].
    rewrite bool_decide_false; [done|]. rewrite map_app. cbn [map].
    rewrite <- (length_map digit_unit ds), list_lookup_middle by done.
    apply Forall_app in Hd as [_ Hd]. apply Forall_cons in Hd as [Hd _].
    pose proof (digit_unit_ascii d Hd) as [_ Hn]. congruence.
  - rewrite Nat.add_succ_r. cbn [unpadded_end]. rewrite bool_decide_true.
    + rewrite replicate_S_end, app_assoc, unpadded_end_app; [exact IH|].
      rewrite length_app, length_map, length_replicate. lia.
    + rewrite lookup_app_r by (rewrite length_map; lia). rewrite length_map.
      replace (length ds + n - length ds)%nat with n by lia. apply lookup_replicate_2. lia.
Qed.

(** ** The round trip *)

Lemma decode_digits_ok i us d d' :
  decode_digits i us d = Ok d' <->
  Forall (fun u => 0 <= digit_value u) us /\ d' = run_digits (map digit_value us) d.
Proof.
  revert i d. induction us as [|u us IH]; intros i d; cbn [decode_digits].
  - split; [by intros [= <-]|]. by intros [_ ->].
  - rewrite obind_ok, Forall_cons. split.
    + intros (x & Hx & H). apply throw_if_ok in Hx. apply IH in H as [H ->]. split; [split; [lia|done]|done].
    + intros [[H1 H2] ->]. exists tt. split; [apply throw_if_ok; lia|]. apply IH. done.
Qed.

Lemma units_nonneg s : Forall (fun u => 0 <= u) (units s).
Proof. unfold units. rewrite Forall_map. apply Forall_forall. intros c _. lia. Qed.

Lemma digit_values us :
  Forall (fun u => 0 <= u) us -> Forall (fun u => 0 <= digit_value u) us ->
  Forall is_digit (map digit_value us) /\ us = map digit_unit (map digit_value us).
Proof.
  induction 1 as [|u us Hu _ IH]; intros Hd; [by split|]. apply Forall_cons in Hd as [Hd Hds].
  destruct (digit_value_inv u Hu Hd) as [H1 H2]. destruct (IH Hds) as [H3 H4].
  split; [by constructor|]. cbn [map]. by rewrite H2, <- H4.
Qed.

Lemma digit_values_unit ds : Forall is_digit ds -> map digit_value (map digit_unit ds) = ds.
Proof. induction 1 as [|d ds Hd _ IH]; [done|]. cbn [map]. by rewrite digit_value_unit, IH. Qed.

(** What [fromBase64Url] makes of digits and padding. *)
Lemma fromBase64Url_digits text ds n :
  units text = map digit_unit ds ++ replicate n 61 -> Forall is_digit ds -> Z.of_nat (length ds) < 2 ^ 31 ->
  forall b, fromBase64Url text = Ok b <-> bytes_of ds = Some b.
Proof.
  intros Hu Hd Hl b. unfold fromBase64Url. rewrite Hu, length_app, length_map, length_replicate.
  rewrite unpadded_end_digits by done. rewrite take_app_length' by (by rewrite length_map).
  assert (Hrun : forall e, decode_digits 0 (map digit_unit ds) (mkDecoding 0 0 0 (zeros e)) =
    Ok (run_digits ds (mkDecoding 0 0 0 (zeros e)))).
  { intros e. apply decode_digits_ok. rewrite digit_values_unit by done. split; [|done].
    rewrite Forall_map. eapply Forall_impl; [exact Hd|]. intros d Hdd. cbv beta.
    rewrite digit_value_unit by done. unfold is_digit in Hdd. lia. }
  rewrite Hrun. cbn [obind]. destruct (Z.eqb_spec (Z.of_nat (length ds) mod 4) 1) as [E|E].
  - cbn. split; [done|]. intros Hb. exfalso. revert E. clear -Hb. revert b Hb.
    induction ds as [|v1|v1 v2|v1 v2 v3|v1 v2 v3 v4 ds IH] using digits_ind4; intros b Hb E; try done.
    cbn [bytes_of] in Hb. destruct (bytes_of ds); [|done]. eapply IH; [done|].
    cbn [length] in E. replace (Z.of_nat (S (S (S (S (length ds)))))) with (Z.of_nat (length ds) + 1 * 4) in E by lia.
    by rewrite Z.mod_add in E by lia.
  - cbn [throw_if obind]. pose proof (run_digits_spec ds 0 [] Hd Hl E) as Hr. cbn [app] in Hr. change (blen []) with 0 in Hr.
    cbn zeta in Hr. fold (out_length (length ds)). set (d := run_digits _ _) in *. fold (leftover d).
    destruct (bytes_of ds) as [b'|].
    + destruct Hr as [-> ->]. cbn. split; by intros [= ->].
    + rewrite (proj2 (Z.eqb_neq _ _) Hr). cbn. by split.
Qed.

Lemma digits_length b : Z.of_nat (length (digits b)) <= 2 * blen b.
Proof.
  unfold blen. induction b as [|a|a b|a b c l IH] using bytes_ind3; cbn [digits length app]; lia.
Qed.

(** [fromBase64Url] and [toBase64Url] are inverse: among the texts of a
    length a string can have, the ones that decode to the bytes [b] are exactly
    [toBase64Url b] and its extensions by trailing padding characters, in any
    number; every other text is rejected. *)
Theorem base64Url_round_trip (text : string) (b : bytes) :
  Z.of_nat (String.length text) < 2 ^ 31 ->
  (fromBase64Url text = Ok b <-> exists n, text = toBase64Url b +:+ padding n).
Proof.
  intros Hlen. assert (Hu : length (units text) = String.length text).
  { unfold units. rewrite length_map. clear. induction text as [|a s IH]; [done|]. simpl. by rewrite IH. }
  split.
  - intros H. pose proof H as H0. unfold fromBase64Url in H.
    destruct (unpadded_end_spec (units text) (length (units text)) ltac:(done)) as (He & Ht & _).
    set (e := unpadded_end _ _) in *. rewrite take_ge in Ht by done. cbv zeta in H.
    apply obind_ok in H as (_ & _ & H). apply obind_ok in H as (d & Hd & _).
    apply decode_digits_ok in Hd as [Hd _].
    assert (Hnn : Forall (fun u => 0 <= u) (take e (units text))) by (apply Forall_take, units_nonneg).
    destruct (digit_values _ Hnn Hd) as [Hds Hus]. rewrite Hus in Ht.
    apply (fromBase64Url_digits text _ _ Ht Hds) in H0; [|rewrite length_map, length_take; lia].
    apply (digits_bytes_of _ _ Hds) in H0. exists (length (units text) - e)%nat. apply units_inj.
    by rewrite units_app, units_padding, units_toBase64Url, H0.
  - intros [n ->]. pose proof (units_toBase64Url b) as E.
    apply (fromBase64Url_digits _ (digits b) n); [|apply digits_are_digits| |apply bytes_of_digits].
    + by rewrite units_app, units_padding, E.
    + rewrite <- Hu, units_app, length_app, E, length_map in Hlen. lia.
Qed.

Lemma base64Url_round_trip_witness :
  fromBase64Url "aGVsbG8="%string = Ok (map byte.of_Z [104; 101; 108; 108; 111]).
Proof.
  apply (base64Url_round_trip "aGVsbG8="%string); [reflexivity|]. exists 1%nat. vm_compute. reflexivity.
Defined.
