(* ===== verification/Noise.v ===== *)
(** * The Noise IK handshake (remote-lib-common/src/security/noise.ts)

    [Noise_IK_25519_ChaChaPoly_SHA256]: the cipher state with its counter, the
    symmetric state, and the two-message handshake of each role.  The primitives
    (WebCrypto and the ChaChaPoly package) are the parameter [NoiseCrypto].  A
    method of an object that may throw is a function of the object's state that
    returns its outcome and the next state, so what a failed call has already
    changed stays changed. *)
From Stdlib Require Import ZArith.
From coqutil Require Import Byte Word.LittleEndianList.
From S2P Require Import Prelude JsValue Bytes.
#[local] Open Scope Z_scope.

(** The primitives.  A [None] is a rejected or throwing call. *)
Class NoiseCrypto := {
  PrivateKey : Type;
  sha256 : bytes -> bytes;
  hmac : bytes -> bytes -> bytes;
  deriveBits : PrivateKey -> bytes -> option bytes;
  exportPkcs8 : PrivateKey -> option bytes;
  importPkcs8 : bytes -> option PrivateKey;
  exportJwkX : PrivateKey -> option JsValue;
  seal : bytes -> bytes -> bytes -> bytes -> bytes;
  unseal : bytes -> bytes -> bytes -> bytes -> option bytes }.

Definition NOISE_PROTOCOL_NAME : string := "Noise_IK_25519_ChaChaPoly_SHA256".
Definition NOISE_MAX_MESSAGE_LENGTH : Z := 65535.
Definition NOISE_KEY_LENGTH : Z := 32.
Definition NOISE_TAG_LENGTH : Z := 16.
Definition MESSAGE_1_OVERHEAD : Z := NOISE_KEY_LENGTH * 2 + NOISE_TAG_LENGTH * 2.
Definition MESSAGE_2_OVERHEAD : Z := NOISE_KEY_LENGTH + NOISE_TAG_LENGTH.
Definition RESERVED_NONCE : Z := 2 ^ 64 - 1.
Definition NOISE_STATIC_PKCS8_MIN_LENGTH : Z := 48.
Definition NOISE_STATIC_PKCS8_MAX_LENGTH : Z := 128.
Definition EMPTY : bytes := [].
Definition ZERO_KEY : bytes := zeros NOISE_KEY_LENGTH.

(** [utf8Encode] of an ASCII text. *)
Definition ascii_bytes (s : string) : bytes := map byte.of_Z (units s).

Definition NOISE_PROTOCOL_NAME_BYTES : bytes := ascii_bytes NOISE_PROTOCOL_NAME.

Definition requireKey (key : bytes) (what : string) : outcome unit :=
  throw_if (negb (blen key =? NOISE_KEY_LENGTH)) (NoiseErr (what +:+ " must be 32 bytes")).

Definition copyKey (source : bytes) (offset : Z) : bytes := subarray offset (offset + NOISE_KEY_LENGTH) source.

Definition requireMaxMessageLength (len : Z) : outcome unit :=
  throw_if (NOISE_MAX_MESSAGE_LENGTH <? len) (NoiseErr "message exceeds the Noise maximum").

(** [`handshake message ${message} is too short`]; the message is 1 or 2. *)
Definition requireMessageLength (len : Z) (first : bool) : outcome unit :=
  let overhead := if first then MESSAGE_1_OVERHEAD else MESSAGE_2_OVERHEAD in
  let! _ := throw_if (len <? overhead)
    (NoiseErr (if first then "handshake message 1 is too short" else "handshake message 2 is too short")) in
  requireMaxMessageLength len.

Definition isNoisePublicKey (value : JsValue) : bool :=
  isExactBase64Url value (base64UrlLength NOISE_KEY_LENGTH).

Definition isNoiseStaticMaterial (publicKey privateKeyPkcs8 : string) : bool :=
  match fromBase64Url privateKeyPkcs8 with
  | Ok pkcs8 =>
      match fromBase64Url publicKey with
      | Ok pub => (blen pub =? NOISE_KEY_LENGTH) &&
          (NOISE_STATIC_PKCS8_MIN_LENGTH <=? blen pkcs8) && (blen pkcs8 <=? NOISE_STATIC_PKCS8_MAX_LENGTH)
      | Throw _ => false
      end
  | Throw _ => false
  end.

(** ** The cipher state *)

(** The twelve nonce bytes: four zeros, then the counter little-endian. *)
Definition noiseNonceBytes (n : Z) : outcome bytes :=
  let! _ := throw_if (n <? 0) (NoiseErr "nonce counter must not be negative") in
  let! _ := throw_if (RESERVED_NONCE <=? n) (NoiseErr "nonce counter exhausted") in
  Ok (zeros 4 ++ le_split 8 n).

Record NoiseCipherState := mkCipher { cipher_key : option bytes; nonce : Z }.

Definition new_cipher (key : option bytes) : outcome NoiseCipherState :=
  let! _ := throw_if (match key with Some k => negb (blen k =? NOISE_KEY_LENGTH) | None => false end)
    (NoiseErr "ChaChaPoly key must be 32 bytes") in
  Ok (mkCipher key 0).

Definition hasKey (c : NoiseCipherState) : bool := bool_decide (cipher_key c <> None).

(** The two directional cipher states and the transcript hash of [Split]. *)
Record NoiseSession := mkSession {
  send : NoiseCipherState; receive : NoiseCipherState; handshakeHash : bytes }.

Inductive Role := Initiator | Responder.

Section Noise.
  Context `{C : NoiseCrypto}.

(** [encryptWithAd]: the counter moves only when a ciphertext is returned. *)
Definition encryptWithAd (ad plaintext : bytes) (c : NoiseCipherState) : outcome (bytes * NoiseCipherState) :=
  let! _ := requireMaxMessageLength
    (blen plaintext + match cipher_key c with None => 0 | Some _ => NOISE_TAG_LENGTH end) in
  match cipher_key c with
  | None => Ok (plaintext, c)
  | Some key =>
      let! n := noiseNonceBytes (nonce c) in
      Ok (seal key n ad plaintext, mkCipher (cipher_key c) (nonce c + 1))
  end.

Definition decryptWithAd (ad ciphertext : bytes) (c : NoiseCipherState) : outcome (bytes * NoiseCipherState) :=
  let! _ := requireMaxMessageLength (blen ciphertext) in
  match cipher_key c with
  | None => Ok (ciphertext, c)
  | Some key =>
      let! n := noiseNonceBytes (nonce c) in
      match unseal key n ad ciphertext with
      | None => Throw (NoiseErr "ChaChaPoly authentication failed")
      | Some plaintext => Ok (plaintext, mkCipher (cipher_key c) (nonce c + 1))
      end
  end.

(** HKDF with two outputs, the chaining key being the HMAC key. *)
Definition noiseHkdf (chainingKey inputKeyMaterial : bytes) : bytes * bytes :=
  let tempKey := hmac chainingKey inputKeyMaterial in
  let output1 := hmac tempKey [byte.of_Z 1] in
  (output1, hmac tempKey (concatBytes [output1; [byte.of_Z 2]])).

(** ** Keys *)

Record NoiseKeyPair := mkKeyPair { privateKey : PrivateKey; publicKey : bytes }.

(** [generateX25519], from what [generateKey] and the raw export answered. *)
Definition generateX25519 (generated : option NoiseKeyPair) : outcome NoiseKeyPair :=
  match generated with
  | None => Throw (NoiseErr "X25519 key generation failed")
  | Some kp =>
      let! _ := throw_if (negb (blen (publicKey kp) =? NOISE_KEY_LENGTH))
        (NoiseErr "X25519 public key is not 32 bytes") in
      Ok kp
  end.

Definition generateNoiseKeyPair (generated : option NoiseKeyPair) : outcome NoiseKeyPair :=
  generateX25519 generated.

Definition probeNoiseSupport (generated : option NoiseKeyPair) : bool :=
  match generateX25519 generated with
  | Ok kp =>
      match deriveBits (privateKey kp) (publicKey kp) with
      | Some shared => blen shared =? NOISE_KEY_LENGTH
      | None => false
      end
  | Throw _ => false
  end.

(** The pair [(privateKeyPkcs8, publicKey)] of base64url texts. *)
Definition mintNoiseStaticKeyPair (generated : option NoiseKeyPair) : outcome (string * string) :=
  let! kp := generateX25519 generated in
  match exportPkcs8 (privateKey kp) with
  | None => Throw (NoiseErr "X25519 static key generation failed")
  | Some pkcs8 => Ok (toBase64Url pkcs8, toBase64Url (publicKey kp))
  end.

(** [importKey('pkcs8', fromBase64Url(text))]. *)
Definition import_static (text : string) : option PrivateKey :=
  match fromBase64Url text with Ok b => importPkcs8 b | Throw _ => None end.

Definition deriveNoiseStaticPublicKey (privateKeyPkcs8 : string) : outcome string :=
  let failed := Throw (NoiseErr "X25519 static public key could not be derived") in
  match import_static privateKeyPkcs8 with
  | None => failed
  | Some temporary =>
      match exportJwkX temporary with
      | Some (JString x) =>
          match fromBase64Url x with
          | Ok point => if blen point =? NOISE_KEY_LENGTH then Ok (toBase64Url point) else failed
          | Throw _ => failed
          end
      | _ => failed
      end
  end.

Definition importNoiseStaticPrivateKey (pkcs8Base64Url : string) : outcome PrivateKey :=
  match import_static pkcs8Base64Url with
  | None => Throw (NoiseErr "X25519 static private key could not be imported")
  | Some key => Ok key
  end.

Definition x25519Agree (key : PrivateKey) (public : bytes) : outcome bytes :=
  let! _ := requireKey public "X25519 public key" in
  match deriveBits key public with
  | None => Throw (NoiseErr "X25519 agreement failed")
  | Some shared =>
      if negb (blen shared =? NOISE_KEY_LENGTH) || constantTimeEqual shared ZERO_KEY
      then Throw (NoiseErr "X25519 agreement failed") else Ok shared
  end.

(** ** The symmetric state *)

Record SymmetricState := mkSymmetric {
  chainingKey : bytes; hash : bytes; cipher : NoiseCipherState }.

(** [SymmetricState.initialize]: the protocol name, zero-padded to a hash. *)
Definition initialize : outcome SymmetricState :=
  let! _ := throw_if (NOISE_KEY_LENGTH <? blen NOISE_PROTOCOL_NAME_BYTES)
    (NoiseErr "protocol name exceeds HASHLEN") in
  let h := set_at (zeros NOISE_KEY_LENGTH) 0 NOISE_PROTOCOL_NAME_BYTES in
  Ok (mkSymmetric h h (mkCipher None 0)).

Definition mixHash (data : bytes) (s : SymmetricState) : SymmetricState :=
  mkSymmetric (chainingKey s) (sha256 (concatBytes [hash s; data])) (cipher s).

Definition mixKey (inputKeyMaterial : bytes) (s : SymmetricState) : outcome SymmetricState :=
  let ct := noiseHkdf (chainingKey s) inputKeyMaterial in
  let! c := new_cipher (Some ct.2) in
  Ok (mkSymmetric ct.1 (hash s) c).

Definition encryptAndHash (plaintext : bytes) (s : SymmetricState) : outcome (bytes * SymmetricState) :=
  let! (ciphertext, c) := encryptWithAd (hash s) plaintext (cipher s) in
  Ok (ciphertext, mixHash ciphertext (mkSymmetric (chainingKey s) (hash s) c)).

Definition decryptAndHash (ciphertext : bytes) (s : SymmetricState) : outcome (bytes * SymmetricState) :=
  let! (plaintext, c) := decryptWithAd (hash s) ciphertext (cipher s) in
  Ok (plaintext, mixHash ciphertext (mkSymmetric (chainingKey s) (hash s) c)).

(** [SymmetricState.split]. *)
Definition split_state (initiator : bool) (s : SymmetricState) : outcome NoiseSession :=
  let k := noiseHkdf (chainingKey s) EMPTY in
  let! c_send := new_cipher (Some (if initiator then k.1 else k.2)) in
  let! c_receive := new_cipher (Some (if initiator then k.2 else k.1)) in
  Ok (mkSession c_send c_receive (hash s)).

End Noise.
