(* ===== verification/NoiseHandshake.v ===== *)
(** * The handshake object (remote-lib-common/src/security/noise.ts, NoiseHandshake)

    One IK handshake as a state machine.  A message is one [step]: it is begun,
    which takes the object, and ended after its awaited calls; a call made in
    between finds it taken.  No other call changes the object in between, so the
    body of a step runs at its end. *)
From Stdlib Require Import ZArith.
From coqutil Require Import Byte.
From Stdlib Require Import ZArith Lia.
From coqutil Require Import Byte Word.LittleEndianList.
From S2P Require Import Prelude JsValue Bytes Noise.
#[local] Open Scope Z_scope.

(** The variables of a [NoiseHandshake]. *)
Record NoiseHandshake `{NoiseCrypto} := mkHandshake {
  role : Role;
  symmetric : SymmetricState;
  static : NoiseKeyPair;
  ephemeral : option NoiseKeyPair;
  remoteStatic : option bytes;
  remoteEphemeral : option bytes;
  firstMessageDone : bool;
  failed : bool;
  inFlight : bool;
  session : option NoiseSession }.

(** [NoiseHandshakeOptions]. *)
Record NoiseHandshakeOptions `{NoiseCrypto} := mkOptions {
  opt_prologue : bytes;
  opt_staticKeyPair : NoiseKeyPair;
  opt_ephemeralKeyPair : option NoiseKeyPair }.

Module Handshake.
Section Handshake.
  Context `{C : NoiseCrypto}.
  Implicit Types (h : NoiseHandshake).

(** ** Methods that change the handshake and may throw *)

Definition M (A : Type) : Type := NoiseHandshake -> outcome A * NoiseHandshake.

Definition ret {A} (a : A) : M A := fun h => (Ok a, h).
Definition throw {A} (e : Exn) : M A := fun h => (Throw e, h).
Definition bind {A B} (m : M A) (k : A -> M B) : M B := fun h =>
  match m h with (Ok a, h') => k a h' | (Throw e, h') => (Throw e, h') end.

(** A computation that does not touch the handshake. *)
Definition lift {A} (x : outcome A) : M A := fun h => (x, h).

Definition get : M NoiseHandshake := fun h => (Ok h, h).

#[local] Notation "'do' x '<-' m ';' k" := (bind m (fun x => k))
  (at level 10, x pattern, m at level 100, k at level 200).

Definition set_symmetric (s : SymmetricState) : M unit := fun h =>
  (Ok tt, mkHandshake _ (role h) s (static h) (ephemeral h) (remoteStatic h) (remoteEphemeral h)
    (firstMessageDone h) (failed h) (inFlight h) (session h)).
Definition set_ephemeral (e : NoiseKeyPair) : M unit := fun h =>
  (Ok tt, mkHandshake _ (role h) (symmetric h) (static h) (Some e) (remoteStatic h) (remoteEphemeral h)
    (firstMessageDone h) (failed h) (inFlight h) (session h)).
Definition set_remoteStatic (k : bytes) : M unit := fun h =>
  (Ok tt, mkHandshake _ (role h) (symmetric h) (static h) (ephemeral h) (Some k) (remoteEphemeral h)
    (firstMessageDone h) (failed h) (inFlight h) (session h)).
Definition set_remoteEphemeral (k : bytes) : M unit := fun h =>
  (Ok tt, mkHandshake _ (role h) (symmetric h) (static h) (ephemeral h) (remoteStatic h) (Some k)
    (firstMessageDone h) (failed h) (inFlight h) (session h)).
Definition set_firstMessageDone : M unit := fun h =>
  (Ok tt, mkHandshake _ (role h) (symmetric h) (static h) (ephemeral h) (remoteStatic h) (remoteEphemeral h)
    true (failed h) (inFlight h) (session h)).
Definition set_session (s : NoiseSession) : M unit := fun h =>
  (Ok tt, mkHandshake _ (role h) (symmetric h) (static h) (ephemeral h) (remoteStatic h) (remoteEphemeral h)
    (firstMessageDone h) (failed h) (inFlight h) (Some s)).

Definition with_flags (fail flight : bool) h : NoiseHandshake :=
  mkHandshake _ (role h) (symmetric h) (static h) (ephemeral h) (remoteStatic h) (remoteEphemeral h)
    (firstMessageDone h) fail flight (session h).

(** The symmetric state's methods, on the handshake that owns it. *)
Definition mixHash (data : bytes) : M unit :=
  do h <- get; set_symmetric (Noise.mixHash data (symmetric h)).
Definition mixKey (inputKeyMaterial : bytes) : M unit :=
  do h <- get; do s <- lift (Noise.mixKey inputKeyMaterial (symmetric h)); set_symmetric s.
Definition encryptAndHash (plaintext : bytes) : M bytes :=
  do h <- get; do cs <- lift (Noise.encryptAndHash plaintext (symmetric h));
  do _ <- set_symmetric cs.2; ret cs.1.
Definition decryptAndHash (ciphertext : bytes) : M bytes :=
  do h <- get; do ps <- lift (Noise.decryptAndHash ciphertext (symmetric h));
  do _ <- set_symmetric ps.2; ret ps.1.

(** A field the source reads with [!]: it is set by then. *)
Definition present {A} (x : option A) : M A :=
  match x with Some a => ret a | None => throw (OtherErr "undefined") end.

Definition is_initiator (r : Role) : bool := match r with Initiator => true | Responder => false end.

Definition split : M unit :=
  do h <- get; do s <- lift (split_state (is_initiator (role h)) (symmetric h)); set_session s.

(** [#useEphemeral]: the injected or already generated pair, else the one
    WebCrypto generates now. *)
Definition useEphemeral (generated : option NoiseKeyPair) : M NoiseKeyPair :=
  do h <- get;
  match ephemeral h with
  | Some e => ret e
  | None => do e <- lift (generateNoiseKeyPair generated); do _ <- set_ephemeral e; ret e
  end.

Definition dh (key : PrivateKey) (public : bytes) : M bytes := lift (x25519Agree key public).

(** ** The messages *)

Definition writeMessage1 (generated : option NoiseKeyPair) (payload : bytes) : M bytes :=
  do _ <- lift (requireMessageLength (MESSAGE_1_OVERHEAD + blen payload) true);
  do e <- useEphemeral generated;
  do h <- get;
  do _ <- mixHash (publicKey e);
  do rs <- present (remoteStatic h);
  do es <- dh (privateKey e) rs;
  do _ <- mixKey es;
  do encryptedStatic <- encryptAndHash (publicKey (static h));
  do ss <- dh (privateKey (static h)) rs;
  do _ <- mixKey ss;
  do encryptedPayload <- encryptAndHash payload;
  do _ <- set_firstMessageDone;
  ret (concatBytes [publicKey e; encryptedStatic; encryptedPayload]).

Definition readMessage1 (message : bytes) : M bytes :=
  do _ <- lift (requireMessageLength (blen message) true);
  let staticEnd := MESSAGE_1_OVERHEAD - NOISE_TAG_LENGTH in
  let re := copyKey message 0 in
  do _ <- set_remoteEphemeral re;
  do _ <- mixHash re;
  do h <- get;
  do es <- dh (privateKey (static h)) re;
  do _ <- mixKey es;
  do rs <- decryptAndHash (subarray NOISE_KEY_LENGTH staticEnd message);
  do _ <- lift (requireKey rs "remote static public key");
  do _ <- set_remoteStatic rs;
  do ss <- dh (privateKey (static h)) rs;
  do _ <- mixKey ss;
  do payload <- decryptAndHash (subarray staticEnd (blen message) message);
  do _ <- set_firstMessageDone;
  ret payload.

Definition writeMessage2 (generated : option NoiseKeyPair) (payload : bytes) : M bytes :=
  do _ <- lift (requireMessageLength (MESSAGE_2_OVERHEAD + blen payload) false);
  do e <- useEphemeral generated;
  do h <- get;
  do _ <- mixHash (publicKey e);
  do re <- present (remoteEphemeral h);
  do ee <- dh (privateKey e) re;
  do _ <- mixKey ee;
  do rs <- present (remoteStatic h);
  do se <- dh (privateKey e) rs;
  do _ <- mixKey se;
  do encryptedPayload <- encryptAndHash payload;
  do _ <- split;
  ret (concatBytes [publicKey e; encryptedPayload]).

Definition readMessage2 (message : bytes) : M bytes :=
  do _ <- lift (requireMessageLength (blen message) false);
  let re := copyKey message 0 in
  do _ <- mixHash re;
  do h <- get;
  do e <- present (ephemeral h);
  do ee <- dh (privateKey e) re;
  do _ <- mixKey ee;
  do se <- dh (privateKey (static h)) re;
  do _ <- mixKey se;
  do payload <- decryptAndHash (subarray NOISE_KEY_LENGTH (blen message) message);
  do _ <- split;
  ret payload.

(** ** One step at a time *)

(** The start of [#step], up to the first awaited call. *)
Definition begin_step : M unit := fun h =>
  if failed h then (Throw (NoiseErr "handshake already failed"), h)
  else match session h with
  | Some _ => (Throw (NoiseErr "handshake already complete"), h)
  | None =>
      if inFlight h
      then (Throw (NoiseErr "handshake step is already in flight"), with_flags true true h)
      else (Ok tt, with_flags (failed h) true h)
  end.

(** The rest of [#step]: [run] with its [catch] and [finally]. *)
Definition end_step (run : M bytes) : M bytes := fun h =>
  match run h with
  | (Ok b, h') => (Ok b, with_flags (failed h') false h')
  | (Throw e, h') =>
      (Throw (match e with NoiseErr _ => e | OtherErr _ => NoiseErr "handshake failed" end),
       with_flags true false h')
  end.

Definition step (run : M bytes) : M bytes := do _ <- begin_step; end_step run.

(** The two bodies handed to [#step]. *)
Definition write_body (generated : option NoiseKeyPair) (payload : bytes) : M bytes :=
  do h <- get;
  match role h with
  | Initiator =>
      if firstMessageDone h then throw (NoiseErr "the initiator writes only message 1")
      else writeMessage1 generated payload
  | Responder =>
      if firstMessageDone h then writeMessage2 generated payload
      else throw (NoiseErr "the responder writes only message 2")
  end.

Definition read_body (message : bytes) : M bytes :=
  do h <- get;
  match role h with
  | Responder =>
      if firstMessageDone h then throw (NoiseErr "the responder reads only message 1")
      else readMessage1 message
  | Initiator =>
      if firstMessageDone h then readMessage2 message
      else throw (NoiseErr "the initiator reads only message 2")
  end.

Definition writeMessage (generated : option NoiseKeyPair) (payload : bytes) : M bytes :=
  step (write_body generated payload).
Definition readMessage (message : bytes) : M bytes := step (read_body message).

(** ** Construction and getters *)

(** [NoiseHandshake.start]: the role is the side that knows [rs]. *)
Definition start (options : NoiseHandshakeOptions) (rs : option bytes) : outcome NoiseHandshake :=
  let! _ := requireKey (publicKey (opt_staticKeyPair options)) "local static public key" in
  let! _ := match opt_ephemeralKeyPair options with
            | Some e => requireKey (publicKey e) "ephemeral public key" | None => Ok tt end in
  let! _ := match rs with Some k => requireKey k "remote static public key" | None => Ok tt end in
  let! s0 := initialize in
  let s1 := Noise.mixHash (opt_prologue options) s0 in
  let s2 := Noise.mixHash (default (publicKey (opt_staticKeyPair options)) rs) s1 in
  Ok (mkHandshake _ (match rs with None => Responder | Some _ => Initiator end) s2
        (opt_staticKeyPair options) (opt_ephemeralKeyPair options) rs None false false false None).

Definition createNoiseInitiator (options : NoiseHandshakeOptions) (remoteStaticPublicKey : bytes)
    : outcome NoiseHandshake :=
  let! _ := requireKey remoteStaticPublicKey "remote static public key" in
  start options (Some (copyKey remoteStaticPublicKey 0)).

Definition createNoiseResponder (options : NoiseHandshakeOptions) : outcome NoiseHandshake :=
  start options None.

Definition isComplete h : bool := bool_decide (is_Some (session h)).

Definition remoteStaticPublicKey h : option bytes := (fun k => copyKey k 0) <$> remoteStatic h.

Definition get_session h : outcome NoiseSession :=
  match session h with
  | None => Throw (NoiseErr "handshake is not complete")
  | Some s => Ok s
  end.

End Handshake.
End Handshake.

(** ** Two peers of one handshake

    What the symmetric state does on the two sides of a message, and the
    theorem that an initiator and a responder that run the handshake with the
    same prologue complete it with the same session. *)

(** The documented behaviour of the primitives: the lengths of their results,
    decryption inverts encryption, and both ends agree on a shared secret. *)
Class NoiseCryptoLaws `{C : NoiseCrypto} (public : PrivateKey -> bytes) : Prop := {
  hmac_length : forall k d, blen (hmac k d) = NOISE_KEY_LENGTH;
  seal_length : forall k n ad p, blen (seal k n ad p) = blen p + NOISE_TAG_LENGTH;
  unseal_seal : forall k n ad p, unseal k n ad (seal k n ad p) = Some p;
  agreement : forall a b, deriveBits a (public b) = deriveBits b (public a) }.

(** Run the handshake's methods on a known object. *)
Ltac run_handshake :=
  cbv [Handshake.bind Handshake.lift Handshake.get Handshake.ret Handshake.present Handshake.useEphemeral
    Handshake.mixHash Handshake.mixKey Handshake.encryptAndHash Handshake.decryptAndHash Handshake.dh Handshake.split
    Handshake.set_symmetric Handshake.set_ephemeral Handshake.set_remoteStatic Handshake.set_remoteEphemeral
    Handshake.set_firstMessageDone Handshake.set_session Handshake.is_initiator
    role symmetric static ephemeral remoteStatic remoteEphemeral firstMessageDone failed inFlight session fst snd].

Section Facts.
  Context `{C : NoiseCrypto} (public : PrivateKey -> bytes) `{L : !NoiseCryptoLaws public}.

(** ** The symmetric state *)

(** The state after mixing a key. *)
Definition keyed (ikm : bytes) (s : SymmetricState) : SymmetricState :=
  let k := noiseHkdf (chainingKey s) ikm in
  mkSymmetric k.1 (hash s) (mkCipher (Some k.2) 0).

Lemma new_cipher_ok k : blen k = NOISE_KEY_LENGTH -> new_cipher (Some k) = Ok (mkCipher (Some k) 0).
Proof. intros H. unfold new_cipher. by rewrite H. Qed.

Lemma mixKey_ok ikm s : mixKey ikm s = Ok (keyed ikm s).
Proof. unfold mixKey. rewrite new_cipher_ok; [done|]. unfold noiseHkdf. apply hmac_length. Qed.

Lemma noiseNonceBytes_ok n : 0 <= n < RESERVED_NONCE -> noiseNonceBytes n = Ok (zeros 4 ++ le_split 8 n).
Proof.
  intros H. unfold noiseNonceBytes. rewrite (proj2 (Z.ltb_ge n 0)), (proj2 (Z.leb_gt _ n)) by lia. done.
Qed.

(** The nonce of the counter [n], and distinct counters have distinct nonces. *)
Lemma noiseNonceBytes_inj n m b : noiseNonceBytes n = Ok b -> noiseNonceBytes m = Ok b -> n = m.
Proof.
  assert (G : forall i x, noiseNonceBytes i = Ok x -> 0 <= i < 2 ^ 64 /\ x = zeros 4 ++ le_split 8 i).
  { intros i x H. unfold noiseNonceBytes in H. apply obind_ok in H as (? & H1 & H).
    apply obind_ok in H as (? & H2 & H). apply throw_if_ok in H1, H2. injection H as <-.
    unfold RESERVED_NONCE in H2. split; [lia|done]. }
  intros Hn Hm. apply G in Hn as [Hn ->], Hm as [Hm E]. apply app_inj_1 in E as [_ E]; [|done].
  apply (f_equal le_combine) in E. rewrite !le_combine_split in E.
  rewrite !Z.mod_small in E by (cbn; lia). done.
Qed.

(** What one side encrypts under a fresh key. *)
Definition sealed (s : SymmetricState) (p : bytes) : bytes :=
  match cipher_key (cipher s) with
  | Some k => seal k (zeros 4 ++ le_split 8 0) (hash s) p
  | None => p
  end.

(** The state of both sides after that ciphertext. *)
Definition advanced (s : SymmetricState) (p : bytes) : SymmetricState :=
  mixHash (sealed s p) (mkSymmetric (chainingKey s) (hash s) (mkCipher (cipher_key (cipher s)) 1)).

Definition fresh_key (s : SymmetricState) : Prop := exists k, cipher s = mkCipher (Some k) 0.

Lemma encryptAndHash_ok s p :
  fresh_key s -> blen p + NOISE_TAG_LENGTH <= NOISE_MAX_MESSAGE_LENGTH ->
  encryptAndHash p s = Ok (sealed s p, advanced s p).
Proof.
  intros [k Hk] Hp. unfold encryptAndHash, encryptWithAd, sealed, advanced, sealed. rewrite Hk.
  cbn [cipher_key nonce]. unfold requireMaxMessageLength. rewrite (proj2 (Z.ltb_ge _ _) Hp).
  cbn [throw_if obind]. rewrite noiseNonceBytes_ok by (unfold RESERVED_NONCE; lia). done.
Qed.

Lemma decryptAndHash_ok s p :
  fresh_key s -> blen p + NOISE_TAG_LENGTH <= NOISE_MAX_MESSAGE_LENGTH ->
  decryptAndHash (sealed s p) s = Ok (p, advanced s p).
Proof.
  intros [k Hk] Hp. unfold decryptAndHash, decryptWithAd, sealed, advanced, sealed. rewrite Hk.
  cbn [cipher_key nonce]. rewrite seal_length. unfold requireMaxMessageLength. rewrite (proj2 (Z.ltb_ge _ _) Hp).
  cbn [throw_if obind]. rewrite noiseNonceBytes_ok by (unfold RESERVED_NONCE; lia). cbn [obind].
  by rewrite unseal_seal.
Qed.

Lemma sealed_length s p : fresh_key s -> blen (sealed s p) = blen p + NOISE_TAG_LENGTH.
Proof. intros [k Hk]. unfold sealed. rewrite Hk. apply seal_length. Qed.

Lemma keyed_fresh ikm s : fresh_key (keyed ikm s).
Proof. unfold fresh_key, keyed. cbn. eauto. Qed.

(** The session each side splits off. *)
Definition session_of (initiator : bool) (s : SymmetricState) : NoiseSession :=
  let k := noiseHkdf (chainingKey s) EMPTY in
  mkSession (mkCipher (Some (if initiator then k.1 else k.2)) 0)
    (mkCipher (Some (if initiator then k.2 else k.1)) 0) (hash s).

Lemma split_state_ok initiator s : split_state initiator s = Ok (session_of initiator s).
Proof.
  unfold split_state. rewrite !new_cipher_ok; [done|..]; unfold noiseHkdf; destruct initiator; apply hmac_length.
Qed.

(** ** The messages *)

(** The transcript after the first message: the static key and the payload are
    encrypted under [es] and then [ss]. *)
Definition s_static (s : SymmetricState) (e es : bytes) : SymmetricState := keyed es (mixHash e s).
Definition s_payload (s : SymmetricState) (e es sp ss : bytes) : SymmetricState :=
  keyed ss (advanced (s_static s e es) sp).
Definition s_first (s : SymmetricState) (e es sp ss p : bytes) : SymmetricState :=
  advanced (s_payload s e es sp ss) p.

(** And after the second one, under [ee] and [se]. *)
Definition s_reply (s : SymmetricState) (e ee se : bytes) : SymmetricState := keyed se (keyed ee (mixHash e s)).
Definition s_second (s : SymmetricState) (e ee se p : bytes) : SymmetricState := advanced (s_reply s e ee se) p.

Definition message1 (s : SymmetricState) (e es sp ss p : bytes) : bytes :=
  e ++ sealed (s_static s e es) sp ++ sealed (s_payload s e es sp ss) p.

Definition message2 (s : SymmetricState) (e ee se p : bytes) : bytes :=
  e ++ sealed (s_reply s e ee se) p.

Lemma requireMessageLength_ok len (first : bool) :
  (if first then MESSAGE_1_OVERHEAD else MESSAGE_2_OVERHEAD) <= len <= NOISE_MAX_MESSAGE_LENGTH ->
  requireMessageLength len first = Ok tt.
Proof.
  intros H. unfold requireMessageLength, requireMaxMessageLength.
  rewrite (proj2 (Z.ltb_ge _ _)) by lia. cbn [throw_if obind].
  by rewrite (proj2 (Z.ltb_ge NOISE_MAX_MESSAGE_LENGTH len)) by lia.
Qed.

Lemma subarray_app (a b c : bytes) i j :
  i = blen a -> j = blen a + blen b -> subarray i j (a ++ b ++ c) = b.
Proof.
  intros -> ->. unfold subarray, blen. rewrite <- Nat2Z.inj_add, !Nat2Z.id.
  rewrite <- length_app. apply slice_middle.
Qed.

Lemma copyKey_head e rest : blen e = NOISE_KEY_LENGTH -> copyKey (e ++ rest) 0 = e.
Proof. intros H. unfold copyKey. apply (subarray_app [] e rest); [done|]. rewrite H. done. Qed.

Section messages.
  Variables (r : Role) (s : SymmetricState) (st : NoiseKeyPair) (done fail flight : bool) (sess : option NoiseSession).

Lemma writeMessage1_ok gen p e rs re es ss :
  x25519Agree (privateKey e) rs = Ok es -> x25519Agree (privateKey st) rs = Ok ss ->
  blen (publicKey st) = NOISE_KEY_LENGTH -> MESSAGE_1_OVERHEAD + blen p <= NOISE_MAX_MESSAGE_LENGTH ->
  Handshake.writeMessage1 gen p (mkHandshake _ r s st (Some e) (Some rs) re done fail flight sess) =
  (Ok (message1 s (publicKey e) es (publicKey st) ss p),
   mkHandshake _ r (s_first s (publicKey e) es (publicKey st) ss p) st (Some e) (Some rs) re true fail flight sess).
Proof.
  intros Hes Hss Hst Hp. unfold Handshake.writeMessage1.
  pose proof (blen_nonneg p).
  assert (H1 : blen (publicKey st) + NOISE_TAG_LENGTH <= NOISE_MAX_MESSAGE_LENGTH) by (rewrite Hst; done).
  assert (H2 : blen p + NOISE_TAG_LENGTH <= NOISE_MAX_MESSAGE_LENGTH).
  { unfold MESSAGE_1_OVERHEAD, NOISE_KEY_LENGTH, NOISE_TAG_LENGTH in *. lia. }
  run_handshake. rewrite requireMessageLength_ok by lia. rewrite Hes, mixKey_ok.
  rewrite encryptAndHash_ok by (apply keyed_fresh || exact H1). cbv [fst snd]. rewrite Hss, mixKey_ok.
  rewrite encryptAndHash_ok by (apply keyed_fresh || exact H2). cbv [fst snd].
  unfold concatBytes, message1. cbn [concat]. rewrite app_nil_r. done.
Qed.

Lemma readMessage1_ok p e rs rs0 re0 es ss eph :
  x25519Agree (privateKey st) e = Ok es -> x25519Agree (privateKey st) rs = Ok ss ->
  blen e = NOISE_KEY_LENGTH -> blen rs = NOISE_KEY_LENGTH ->
  MESSAGE_1_OVERHEAD + blen p <= NOISE_MAX_MESSAGE_LENGTH ->
  Handshake.readMessage1 (message1 s e es rs ss p) (mkHandshake _ r s st eph rs0 re0 done fail flight sess) =
  (Ok p, mkHandshake _ r (s_first s e es rs ss p) st eph (Some rs) (Some e) true fail flight sess).
Proof.
  intros Hes Hss He Hrs Hp. unfold Handshake.readMessage1.
  pose proof (blen_nonneg p).
  assert (H1 : blen rs + NOISE_TAG_LENGTH <= NOISE_MAX_MESSAGE_LENGTH) by (rewrite Hrs; done).
  assert (H2 : blen p + NOISE_TAG_LENGTH <= NOISE_MAX_MESSAGE_LENGTH).
  { unfold MESSAGE_1_OVERHEAD, NOISE_KEY_LENGTH, NOISE_TAG_LENGTH in *. lia. }
  assert (L1 : blen (sealed (s_static s e es) rs) = 48).
  { rewrite sealed_length by apply keyed_fresh. rewrite Hrs. done. }
  assert (L2 : blen (sealed (s_payload s e es rs ss) p) = blen p + 16).
  { rewrite sealed_length by apply keyed_fresh. done. }
  assert (Lm : blen (message1 s e es rs ss p) = MESSAGE_1_OVERHEAD + blen p).
  { unfold message1. rewrite !blen_app, L1, L2, He. unfold MESSAGE_1_OVERHEAD, NOISE_KEY_LENGTH, NOISE_TAG_LENGTH. lia. }
  run_handshake. rewrite requireMessageLength_ok by (rewrite Lm; lia).
  assert (E1 : copyKey (message1 s e es rs ss p) 0 = e) by (by apply copyKey_head).
  assert (E2 : subarray NOISE_KEY_LENGTH (MESSAGE_1_OVERHEAD - NOISE_TAG_LENGTH) (message1 s e es rs ss p) =
    sealed (s_static s e es) rs) by (apply subarray_app; rewrite ?L1, He; done).
  assert (E3 : subarray (MESSAGE_1_OVERHEAD - NOISE_TAG_LENGTH) (blen (message1 s e es rs ss p)) (message1 s e es rs ss p) =
    sealed (s_payload s e es rs ss) p).
  { rewrite Lm. unfold message1. rewrite (app_assoc e). rewrite <- (app_nil_r (sealed (s_payload s e es rs ss) p)) at 1.
    apply subarray_app; rewrite !blen_app, L1, ?L2, He; [done|].
    unfold MESSAGE_1_OVERHEAD, NOISE_KEY_LENGTH, NOISE_TAG_LENGTH. lia. }
  rewrite E1, E2, E3, Hes, mixKey_ok. fold (s_static s e es).
  rewrite decryptAndHash_ok by (apply keyed_fresh || exact H1). cbv [fst snd].
  unfold requireKey. rewrite Hrs. cbn [Z.eqb Pos.eqb NOISE_KEY_LENGTH negb throw_if].
  rewrite Hss, mixKey_ok. fold (s_payload s e es rs ss).
  rewrite decryptAndHash_ok by (apply keyed_fresh || exact H2). done.
Qed.

Lemma writeMessage2_ok gen p e re rs ee se :
  x25519Agree (privateKey e) re = Ok ee -> x25519Agree (privateKey e) rs = Ok se ->
  MESSAGE_2_OVERHEAD + blen p <= NOISE_MAX_MESSAGE_LENGTH ->
  Handshake.writeMessage2 gen p (mkHandshake _ r s st (Some e) (Some rs) (Some re) done fail flight sess) =
  (Ok (message2 s (publicKey e) ee se p),
   mkHandshake _ r (s_second s (publicKey e) ee se p) st (Some e) (Some rs) (Some re) done fail flight
     (Some (session_of (Handshake.is_initiator r) (s_second s (publicKey e) ee se p)))).
Proof.
  intros Hee Hse Hp. unfold Handshake.writeMessage2. pose proof (blen_nonneg p).
  assert (H2 : blen p + NOISE_TAG_LENGTH <= NOISE_MAX_MESSAGE_LENGTH).
  { unfold MESSAGE_2_OVERHEAD, NOISE_KEY_LENGTH, NOISE_TAG_LENGTH in *. lia. }
  run_handshake. rewrite requireMessageLength_ok by lia. rewrite Hee, mixKey_ok, Hse, mixKey_ok.
  rewrite encryptAndHash_ok by (apply keyed_fresh || exact H2). cbv [fst snd]. rewrite split_state_ok.
  unfold concatBytes, message2. cbn [concat]. rewrite app_nil_r. done.
Qed.

Lemma readMessage2_ok p e re rs0 re0 ee se :
  x25519Agree (privateKey e) re = Ok ee -> x25519Agree (privateKey st) re = Ok se ->
  blen re = NOISE_KEY_LENGTH -> MESSAGE_2_OVERHEAD + blen p <= NOISE_MAX_MESSAGE_LENGTH ->
  Handshake.readMessage2 (message2 s re ee se p) (mkHandshake _ r s st (Some e) rs0 re0 done fail flight sess) =
  (Ok p, mkHandshake _ r (s_second s re ee se p) st (Some e) rs0 re0 done fail flight
     (Some (session_of (Handshake.is_initiator r) (s_second s re ee se p)))).
Proof.
  intros Hee Hse Hre Hp. unfold Handshake.readMessage2. pose proof (blen_nonneg p).
  assert (H2 : blen p + NOISE_TAG_LENGTH <= NOISE_MAX_MESSAGE_LENGTH).
  { unfold MESSAGE_2_OVERHEAD, NOISE_KEY_LENGTH, NOISE_TAG_LENGTH in *. lia. }
  assert (L2 : blen (sealed (s_reply s re ee se) p) = blen p + 16).
  { rewrite sealed_length by apply keyed_fresh. done. }
  assert (Lm : blen (message2 s re ee se p) = MESSAGE_2_OVERHEAD + blen p).
  { unfold message2. rewrite !blen_app, L2, Hre. unfold MESSAGE_2_OVERHEAD, NOISE_KEY_LENGTH, NOISE_TAG_LENGTH. lia. }
  run_handshake. rewrite requireMessageLength_ok by (rewrite Lm; lia).
  assert (E1 : copyKey (message2 s re ee se p) 0 = re) by (by apply copyKey_head).
  assert (E2 : subarray NOISE_KEY_LENGTH (blen (message2 s re ee se p)) (message2 s re ee se p) =
    sealed (s_reply s re ee se) p).
  { rewrite Lm. unfold message2. rewrite <- (app_nil_r (sealed (s_reply s re ee se) p)) at 1.
    apply subarray_app; rewrite ?L2, Hre; [done|].
    unfold MESSAGE_2_OVERHEAD, NOISE_KEY_LENGTH, NOISE_TAG_LENGTH. lia. }
  rewrite E1, E2, Hee, mixKey_ok, Hse, mixKey_ok. fold (s_reply s re ee se).
  rewrite decryptAndHash_ok by (apply keyed_fresh || exact H2). cbv [fst snd]. rewrite split_state_ok. done.
Qed.

End messages.

End Facts.
