(* ===== verification/NoiseSpec.v ===== *)
(** * What the handshake promises

    The agreement of the two roles, and the order of messages: a session exists
    only after the role's two messages succeeded in order, and the first failure
    is final.  A concrete suite of primitives instantiates the assumptions. *)
From Stdlib Require Import ZArith Lia.
From coqutil Require Import Byte Word.LittleEndianList.
From coqutil Require Import Byte.
From S2P Require Import Prelude JsValue Bytes Noise NoiseHandshake.
#[local] Open Scope Z_scope.

(** ** A concrete suite of primitives *)

(** The sum of the bytes, and sixteen copies of it as a tag. *)
Definition checksum (b : bytes) : Z := foldl (fun a x => (31 * a + byte.unsigned x + 7) mod 256) 1 b.
Definition toy_tag (k n ad p : bytes) : bytes := replicate 16 (byte.of_Z (checksum (k ++ n ++ ad ++ p))).

#[export] Instance toy_crypto : NoiseCrypto := {|
  PrivateKey := byte;
  sha256 b := byte.of_Z (checksum b) :: zeros 31;
  hmac k d := byte.of_Z (checksum (k ++ d)) :: zeros 31;
  deriveBits a p := match p with
    | x :: _ => Some (byte.of_Z (byte.unsigned a * byte.unsigned x) :: byte.of_Z 1 :: zeros 30)
    | [] => None
    end;
  exportPkcs8 a := Some [a];
  importPkcs8 b := head b;
  exportJwkX a := Some (JString (toBase64Url (a :: zeros 31)));
  seal k n ad p := p ++ toy_tag k n ad p;
  unseal k n ad c :=
    let p := take (length c - 16) c in
    if bool_decide (c = p ++ toy_tag k n ad p) then Some p else None |}.

Definition toy_public (a : byte) : bytes := a :: zeros 31.

#[export] Instance toy_laws : NoiseCryptoLaws (C:=toy_crypto) toy_public.
Proof.
  split.
  - done.
  - intros k n ad p. cbn. rewrite blen_app. done.
  - intros k n ad p. cbn [unseal seal toy_crypto]. rewrite length_app. change (length (toy_tag k n ad p)) with 16%nat.
    rewrite Nat.add_sub, take_app_length. by rewrite bool_decide_true.
  - intros a b. cbn. by rewrite Z.mul_comm.
Qed.

Definition toy_pair (z : Z) : NoiseKeyPair (C:=toy_crypto) := mkKeyPair (byte.of_Z z) (toy_public (byte.of_Z z)).

(** ** The two roles agree *)

Section agreement.
  Context `{C : NoiseCrypto} (public : PrivateKey -> bytes) `{L : !NoiseCryptoLaws public}.

(** A key pair WebCrypto made. *)
Definition good_pair (k : NoiseKeyPair) : Prop :=
  publicKey k = public (privateKey k) /\ blen (publicKey k) = NOISE_KEY_LENGTH.

(** Two pairs that agree on a usable secret. *)
Definition agree (a b : NoiseKeyPair) : Prop := exists z, x25519Agree (privateKey a) (publicKey b) = Ok z.

Lemma x25519Agree_sym a b :
  good_pair a -> good_pair b ->
  x25519Agree (privateKey b) (publicKey a) = x25519Agree (privateKey a) (publicKey b).
Proof.
  intros [Ha La] [Hb Lb]. unfold x25519Agree, requireKey. rewrite La, Lb, Ha, Hb.
  rewrite (agreement (privateKey b) (privateKey a)). done.
Qed.

(** A generated ephemeral pair is used like an injected one. *)
Lemma writeMessage1_generated p r s st e rs re d f i ss :
  blen (publicKey e) = NOISE_KEY_LENGTH ->
  Handshake.writeMessage1 (Some e) p (mkHandshake _ r s st None rs re d f i ss) =
  if is_ok (requireMessageLength (MESSAGE_1_OVERHEAD + blen p) true)
  then Handshake.writeMessage1 None p (mkHandshake _ r s st (Some e) rs re d f i ss)
  else Handshake.writeMessage1 None p (mkHandshake _ r s st None rs re d f i ss).
Proof.
  intros He. unfold Handshake.writeMessage1. run_handshake.
  destruct (requireMessageLength _ _); [|done]. unfold generateNoiseKeyPair, generateX25519. rewrite He. done.
Qed.

Lemma writeMessage2_generated p r s st e rs re d f i ss :
  blen (publicKey e) = NOISE_KEY_LENGTH ->
  Handshake.writeMessage2 (Some e) p (mkHandshake _ r s st None rs re d f i ss) =
  if is_ok (requireMessageLength (MESSAGE_2_OVERHEAD + blen p) false)
  then Handshake.writeMessage2 None p (mkHandshake _ r s st (Some e) rs re d f i ss)
  else Handshake.writeMessage2 None p (mkHandshake _ r s st None rs re d f i ss).
Proof.
  intros He. unfold Handshake.writeMessage2. run_handshake.
  destruct (requireMessageLength _ _); [|done]. unfold generateNoiseKeyPair, generateX25519. rewrite He. done.
Qed.

(** A step on a handshake no call holds. *)
Lemma end_step_ok (run : Handshake.M bytes) h b h' :
  run h = (Ok b, h') -> Handshake.end_step run h = (Ok b, Handshake.with_flags (failed h') false h').
Proof. intros H. unfold Handshake.end_step. by rewrite H. Qed.

Lemma writeMessage_first gen p s st eph rs re :
  Handshake.writeMessage gen p (mkHandshake _ Initiator s st eph rs re false false false None) =
  Handshake.end_step (Handshake.writeMessage1 gen p) (mkHandshake _ Initiator s st eph rs re false false true None).
Proof. done. Qed.

Lemma readMessage_first m s st eph rs re :
  Handshake.readMessage m (mkHandshake _ Responder s st eph rs re false false false None) =
  Handshake.end_step (Handshake.readMessage1 m) (mkHandshake _ Responder s st eph rs re false false true None).
Proof. done. Qed.

Lemma writeMessage_second gen p s st eph rs re :
  Handshake.writeMessage gen p (mkHandshake _ Responder s st eph rs re true false false None) =
  Handshake.end_step (Handshake.writeMessage2 gen p) (mkHandshake _ Responder s st eph rs re true false true None).
Proof. done. Qed.

Lemma readMessage_second m s st eph rs re :
  Handshake.readMessage m (mkHandshake _ Initiator s st eph rs re true false false None) =
  Handshake.end_step (Handshake.readMessage2 m) (mkHandshake _ Initiator s st eph rs re true false true None).
Proof. done. Qed.

(** C25. Run with the same prologue, the responder's true static key, and
    payloads that fit, the two roles complete the handshake: each reads the
    other's payload, the initiator's send key is the responder's receive key
    and the other way round, both hold the same transcript hash, and the
    responder has learned the initiator's static key.  The pairs are ones
    WebCrypto made, and no agreement between them is degenerate. *)
Theorem handshake_agrees (si ei sr er : NoiseKeyPair) (prologue p1 p2 : bytes) :
  Forall good_pair [si; ei; sr; er] ->
  agree ei sr -> agree si sr -> agree er ei -> agree er si ->
  MESSAGE_1_OVERHEAD + blen p1 <= NOISE_MAX_MESSAGE_LENGTH ->
  MESSAGE_2_OVERHEAD + blen p2 <= NOISE_MAX_MESSAGE_LENGTH ->
  exists hi hr m1 hi1 hr1 m2 hi2 hr2 a b,
    Handshake.createNoiseInitiator (mkOptions _ prologue si None) (publicKey sr) = Ok hi /\
    Handshake.createNoiseResponder (mkOptions _ prologue sr None) = Ok hr /\
    Handshake.writeMessage (Some ei) p1 hi = (Ok m1, hi1) /\
    Handshake.readMessage m1 hr = (Ok p1, hr1) /\
    Handshake.writeMessage (Some er) p2 hr1 = (Ok m2, hr2) /\
    Handshake.readMessage m2 hi1 = (Ok p2, hi2) /\
    Handshake.get_session hi2 = Ok a /\ Handshake.get_session hr2 = Ok b /\
    send a = receive b /\ receive a = send b /\ handshakeHash a = handshakeHash b /\
    Handshake.remoteStaticPublicKey hr2 = Some (publicKey si).
Proof.
  rewrite !Forall_cons. intros (Gsi & Gei & Gsr & Ger & _) [es Hes] [ss Hss] [ee Hee] [se Hse] Hp1 Hp2.
  pose proof (proj2 Gsi) as Lsi. pose proof (proj2 Gei) as Lei. pose proof (proj2 Gsr) as Lsr. pose proof (proj2 Ger) as Ler.
  pose proof Hes as Hes'. rewrite <- x25519Agree_sym in Hes' by done.
  pose proof Hss as Hss'. rewrite <- x25519Agree_sym in Hss' by done.
  pose proof Hee as Hee'. rewrite <- x25519Agree_sym in Hee' by done.
  pose proof Hse as Hse'. rewrite <- x25519Agree_sym in Hse' by done.
  pose proof (blen_nonneg p1). pose proof (blen_nonneg p2).
  set (s0 := mixHash (publicKey sr) (mixHash prologue
    (mkSymmetric (set_at (zeros NOISE_KEY_LENGTH) 0 NOISE_PROTOCOL_NAME_BYTES)
      (set_at (zeros NOISE_KEY_LENGTH) 0 NOISE_PROTOCOL_NAME_BYTES) (mkCipher None 0)))).
  set (s1 := s_first s0 (publicKey ei) es (publicKey si) ss p1).
  set (s2 := s_second s1 (publicKey er) ee se p2).
  exists (mkHandshake _ Initiator s0 si None (Some (publicKey sr)) None false false false None),
    (mkHandshake _ Responder s0 sr None None None false false false None),
    (message1 s0 (publicKey ei) es (publicKey si) ss p1),
    (mkHandshake _ Initiator s1 si (Some ei) (Some (publicKey sr)) None true false false None),
    (mkHandshake _ Responder s1 sr None (Some (publicKey si)) (Some (publicKey ei)) true false false None),
    (message2 s1 (publicKey er) ee se p2),
    (mkHandshake _ Initiator s2 si (Some ei) (Some (publicKey sr)) None true false false (Some (session_of true s2))),
    (mkHandshake _ Responder s2 sr (Some er) (Some (publicKey si)) (Some (publicKey ei)) true false false
      (Some (session_of false s2))),
    (session_of true s2), (session_of false s2).
  assert (Hc : forall k, blen k = NOISE_KEY_LENGTH -> copyKey k 0 = k).
  { intros k Hk. rewrite <- (app_nil_r k) at 1. by apply copyKey_head. }
  split_and!.
  - unfold Handshake.createNoiseInitiator, Handshake.start, requireKey. cbn [opt_staticKeyPair opt_ephemeralKeyPair].
    rewrite Lsr, Hc, Lsi, Lsr by done. reflexivity.
  - unfold Handshake.createNoiseResponder, Handshake.start, requireKey. cbn [opt_staticKeyPair opt_ephemeralKeyPair].
    rewrite Lsr. reflexivity.
  - rewrite writeMessage_first. apply end_step_ok with (h' := mkHandshake _ Initiator s1 _ _ _ _ true false true None).
    rewrite writeMessage1_generated, requireMessageLength_ok by (done || lia). by apply (writeMessage1_ok public).
  - rewrite readMessage_first.
    apply end_step_ok with (h' := mkHandshake _ Responder s1 _ _ _ _ true false true None). by apply (readMessage1_ok public).
  - rewrite writeMessage_second. apply end_step_ok with (h' := mkHandshake _ Responder s2 _ _ _ _ true false true _).
    rewrite writeMessage2_generated, requireMessageLength_ok by (done || lia). by apply (writeMessage2_ok public).
  - rewrite readMessage_second.
    apply end_step_ok with (h' := mkHandshake _ Initiator s2 _ _ _ _ true false true _). by apply (readMessage2_ok public).
  - done.
  - done.
  - done.
  - done.
  - done.
  - unfold Handshake.remoteStaticPublicKey. cbn [remoteStatic fmap option_fmap option_map]. by rewrite Hc.
Qed.

End agreement.

Lemma handshake_agrees_witness :
  exists hi hr m1 hi1 hr1 m2 hi2 hr2 a b,
    Handshake.createNoiseInitiator (C:=toy_crypto) (mkOptions _ (ascii_bytes "prologue") (toy_pair 2) None)
      (publicKey (toy_pair 3)) = Ok hi /\
    Handshake.createNoiseResponder (C:=toy_crypto) (mkOptions _ (ascii_bytes "prologue") (toy_pair 3) None) = Ok hr /\
    Handshake.writeMessage (Some (toy_pair 5)) [byte.of_Z 9] hi = (Ok m1, hi1) /\
    Handshake.readMessage m1 hr = (Ok [byte.of_Z 9], hr1) /\
    Handshake.writeMessage (Some (toy_pair 7)) [] hr1 = (Ok m2, hr2) /\
    Handshake.readMessage m2 hi1 = (Ok [], hi2) /\
    Handshake.get_session hi2 = Ok a /\ Handshake.get_session hr2 = Ok b /\
    send a = receive b /\ receive a = send b /\ handshakeHash a = handshakeHash b /\
    Handshake.remoteStaticPublicKey hr2 = Some (publicKey (toy_pair 2)).
Proof.
  apply (handshake_agrees (C:=toy_crypto) toy_public (toy_pair 2) (toy_pair 5) (toy_pair 3) (toy_pair 7)
    (ascii_bytes "prologue") [byte.of_Z 9] []).
  - repeat constructor.
  - eexists. vm_compute. reflexivity.
  - eexists. vm_compute. reflexivity.
  - eexists. vm_compute. reflexivity.
  - eexists. vm_compute. reflexivity.
  - vm_compute. discriminate.
  - vm_compute. discriminate.
Defined.

(** ** The order of the handshake's messages

    A session exists only after the role's two messages succeeded, in order,
    and the first failure is final. *)

(** ** The order of the messages *)

Section order.
  Context `{C : NoiseCrypto}.
  Implicit Types (h : NoiseHandshake).

(** A call, and the answers of a sequence of calls, each made after the one
    before it has settled. *)
Inductive HsCall := HWrite (generated : option NoiseKeyPair) (payload : bytes) | HRead (message : bytes).

Definition is_write (c : HsCall) : bool := match c with HWrite _ _ => true | HRead _ => false end.

Definition hs_call (c : HsCall) : Handshake.M bytes :=
  match c with
  | HWrite gen p => Handshake.writeMessage gen p
  | HRead m => Handshake.readMessage m
  end.

Fixpoint hs_run (cs : list HsCall) h : list (outcome bytes) * NoiseHandshake :=
  match cs with
  | [] => ([], h)
  | c :: cs' => let r := hs_call c h in let r' := hs_run cs' r.2 in (r.1 :: r'.1, r'.2)
  end.

(** The fields the order of messages depends on. *)
Definition status h := (role h, firstMessageDone h, failed h, inFlight h, session h).

(** A method that, when it succeeds, relates the statuses by [P], and when it
    throws leaves the status alone. *)
Definition steps {A} (P : NoiseHandshake -> NoiseHandshake -> Prop) (m : Handshake.M A) : Prop :=
  forall h, match m h with (Ok _, h') => P h h' | (Throw _, h') => status h' = status h end.

Definition same h h' : Prop := status h' = status h.

(** The first message was processed; the session was split off. *)
Definition first_done h h' : Prop := status h' = (role h, true, failed h, inFlight h, session h).
Definition completed h h' : Prop :=
  exists s, status h' = (role h, firstMessageDone h, failed h, inFlight h, Some s).

(** A relation that depends on the status of its first argument alone. *)
Definition status_of_first (P : NoiseHandshake -> NoiseHandshake -> Prop) : Prop :=
  forall h h1 h2, status h1 = status h -> P h1 h2 -> P h h2.

Lemma steps_bind {A B} P (m : Handshake.M A) (k : A -> Handshake.M B) :
  status_of_first P -> steps same m -> (forall a, steps P (k a)) -> steps P (Handshake.bind m k).
Proof.
  intros HP Hm Hk h. unfold Handshake.bind. specialize (Hm h). destruct (m h) as [[a|e] h1]; [|done].
  specialize (Hk a h1). destruct (k a h1) as [[b|e] h2]; [by apply (HP h h1)|].
  unfold same in Hm. congruence.
Qed.

Lemma same_first : status_of_first same.
Proof. unfold status_of_first, same. congruence. Qed.

Lemma first_done_first : status_of_first first_done.
Proof. unfold status_of_first, first_done, status. intros h h1 h2 E H. injection E as E1 _ E3 E4 E5. by rewrite <- E1, <- E3, <- E4, <- E5. Qed.

Lemma completed_first : status_of_first completed.
Proof.
  unfold status_of_first, completed, status. intros h h1 h2 E [s H]. injection E as E1 E2 E3 E4 _. exists s. by rewrite <- E1, <- E2, <- E3, <- E4.
Qed.

Lemma steps_lift {A} (x : outcome A) : steps same (Handshake.lift x).
Proof. intros h. unfold Handshake.lift. by destruct x. Qed.

Lemma steps_get : steps same Handshake.get.
Proof. done. Qed.

Lemma steps_present {A} (x : option A) : steps same (Handshake.present x).
Proof. intros h. by destruct x. Qed.

Hint Resolve same_first first_done_first completed_first : core.

Ltac steps := repeat (apply steps_bind; [auto|..|intros ?]);
  try apply steps_lift; try apply steps_get; try apply steps_present; try done.

Lemma steps_mixHash d : steps same (Handshake.mixHash d).
Proof. unfold Handshake.mixHash. by steps. Qed.

Lemma steps_mixKey k : steps same (Handshake.mixKey k).
Proof. unfold Handshake.mixKey. by steps. Qed.

Lemma steps_encryptAndHash p : steps same (Handshake.encryptAndHash p).
Proof. unfold Handshake.encryptAndHash. by steps. Qed.

Lemma steps_decryptAndHash p : steps same (Handshake.decryptAndHash p).
Proof. unfold Handshake.decryptAndHash. by steps. Qed.

Lemma steps_dh k p : steps same (Handshake.dh k p).
Proof. apply steps_lift. Qed.

Lemma steps_useEphemeral gen : steps same (Handshake.useEphemeral gen).
Proof.
  unfold Handshake.useEphemeral. apply steps_bind; [auto|apply steps_get|]. intros h.
  destruct (ephemeral h); [done|by steps].
Qed.

Lemma steps_split {A} (a : A) : steps completed (Handshake.bind Handshake.split (fun _ => Handshake.ret a)).
Proof.
  intros h. unfold Handshake.split. cbv [Handshake.bind Handshake.get Handshake.lift Handshake.ret].
  destruct (split_state _ _) as [s|e]; [|done]. by exists s.
Qed.

Lemma steps_first {A} (a : A) :
  steps first_done (Handshake.bind Handshake.set_firstMessageDone (fun _ => Handshake.ret a)).
Proof. done. Qed.

Hint Resolve steps_mixHash steps_mixKey steps_encryptAndHash steps_decryptAndHash steps_dh steps_useEphemeral
  steps_lift steps_get steps_present steps_split steps_first : core.

Ltac message_steps := repeat first [done | solve [auto] | apply steps_bind; [auto|auto; done|intros ?]].

Lemma steps_writeMessage1 gen p : steps first_done (Handshake.writeMessage1 gen p).
Proof. unfold Handshake.writeMessage1. message_steps. Qed.

Lemma steps_readMessage1 m : steps first_done (Handshake.readMessage1 m).
Proof. unfold Handshake.readMessage1. cbv zeta. message_steps. Qed.

Lemma steps_writeMessage2 gen p : steps completed (Handshake.writeMessage2 gen p).
Proof. unfold Handshake.writeMessage2. message_steps. Qed.

Lemma steps_readMessage2 m : steps completed (Handshake.readMessage2 m).
Proof. unfold Handshake.readMessage2. cbv zeta. message_steps. Qed.

(** ** The state machine of one handshake *)

(** The body a call hands to [#step]. *)
Definition body (c : HsCall) : Handshake.M bytes :=
  match c with
  | HWrite gen p => Handshake.write_body gen p
  | HRead m => Handshake.read_body m
  end.

Lemma hs_call_unfold c h : hs_call c h = Handshake.step (body c) h.
Proof. by destruct c. Qed.

(** A body on a live handshake succeeds only in its turn. *)
Lemma body_steps c r first h :
  status h = (r, first, false, true, None) ->
  match body c h with
  | (Ok _, h') => is_write c = xorb (Handshake.is_initiator r) first /\
      (if first then completed else first_done) h h'
  | (Throw _, h') => status h' = status h
  end.
Proof.
  intros Hs. injection Hs as Er Ef _ _ _.
  destruct c as [gen p|m]; unfold body, Handshake.write_body, Handshake.read_body, Handshake.bind at 1, Handshake.get;
    rewrite Er, Ef; destruct r, first; cbn [is_write Handshake.is_initiator xorb]; try done.
  - pose proof (steps_writeMessage1 gen p h) as H. by destruct (Handshake.writeMessage1 gen p h) as [[b|e] h'].
  - pose proof (steps_writeMessage2 gen p h) as H. by destruct (Handshake.writeMessage2 gen p h) as [[b|e] h'].
  - pose proof (steps_readMessage2 m h) as H. by destruct (Handshake.readMessage2 m h) as [[b|e] h'].
  - pose proof (steps_readMessage1 m h) as H. by destruct (Handshake.readMessage1 m h) as [[b|e] h'].
Qed.

(** A call on a handshake whose next message is its first ([first = false]) or
    its second. *)
Lemma live_call c r first h :
  status h = (r, first, false, false, None) ->
  match hs_call c h with
  | (Ok _, h') => is_write c = xorb (Handshake.is_initiator r) first /\
      (if first then exists s, status h' = (r, true, false, false, Some s)
       else status h' = (r, true, false, false, None))
  | (Throw _, h') => failed h' = true /\ inFlight h' = false /\ session h' = None
  end.
Proof.
  intros Hs. rewrite hs_call_unfold. unfold Handshake.step, Handshake.bind at 1.
  pose proof Hs as Hs'. injection Hs' as Er Ef Efl Eif Ese.
  unfold Handshake.begin_step. rewrite Efl, Ese, Eif.
  set (h1 := Handshake.with_flags false true h).
  assert (H1 : status h1 = (r, first, false, true, None)) by (unfold status, h1; cbn; by rewrite Er, Ef, Ese).
  clearbody h1. pose proof (body_steps c r first h1 H1) as Hb. unfold Handshake.end_step.
  destruct (body c h1) as [[b|e] h2].
  - destruct Hb as [Hw Hb]. split; [done|]. injection H1 as E1 E2 E3 E4 E5. destruct first.
    + destruct Hb as [s Hb]. exists s. rewrite E1, E2, E3, E4 in Hb. injection Hb as F1 F2 F3 F4 F5.
      unfold status. cbn. by rewrite F1, F2, F3, F5.
    + unfold first_done in Hb. rewrite E1, E3, E4, E5 in Hb. injection Hb as F1 F2 F3 F4 F5.
      unfold status. cbn. by rewrite F1, F2, F3, F5.
  - rewrite H1 in Hb. injection Hb as _ _ _ _ F5. by cbn.
Qed.

(** A call on a handshake that failed or completed. *)
Lemma dead_call c h :
  failed h = true \/ session h <> None -> exists e, hs_call c h = (Throw e, h).
Proof.
  intros Hd. rewrite hs_call_unfold. unfold Handshake.step, Handshake.bind, Handshake.begin_step.
  destruct (failed h); [by eexists|]. destruct (session h); [by eexists|]. by destruct Hd.
Qed.

Lemma dead_run cs h :
  failed h = true \/ session h <> None ->
  map is_ok (hs_run cs h).1 = replicate (length cs) false /\ (hs_run cs h).2 = h.
Proof.
  intros Hd. induction cs as [|c cs [IH1 IH2]]; [done|]. cbn [hs_run fst snd].
  destruct (dead_call c h Hd) as [e ->]. cbn. by rewrite IH1, IH2.
Qed.

(** The calls that succeed, in order, for a role. *)
Definition turns (r : Role) : list bool :=
  match r with Initiator => [true; false] | Responder => [false; true] end.

End order.

(** The messages of a handshake succeed only in the role's order, one of
    each, and the first failure is final.  Of any sequence of calls on a new
    handshake, some first [n <= 2] succeed and all later ones throw; the
    successful ones are the role's turns (an initiator writes, then reads; a
    responder reads, then writes); and there is a session exactly when both
    turns succeeded. *)
Theorem handshake_turns `{NoiseCrypto} (h : NoiseHandshake) (cs : list HsCall) :
  status h = (role h, false, false, false, None) ->
  let r := hs_run cs h in
  exists n, (n <= 2)%nat /\ (n <= length cs)%nat /\
    map is_ok r.1 = replicate n true ++ replicate (length cs - n) false /\
    map is_write (take n cs) = take n (turns (role h)) /\
    (is_Some (session r.2) <-> n = 2%nat).
Proof.
  intros Hs r. set (ro := role h) in *. destruct cs as [|c1 cs].
  { exists 0%nat. injection Hs as _ _ _ E. cbn. rewrite E. split_and!; try done; try lia; by intros []. }
  unfold r. cbn [hs_run fst snd]. pose proof (live_call c1 ro false h Hs) as H1.
  destruct (hs_call c1 h) as [[b1|e1] h1]; cbn [fst snd].
  2:{ destruct H1 as (F1 & _ & F3). destruct (dead_run cs h1 (or_introl F1)) as [Hr ->].
      exists 0%nat. cbn. rewrite Hr, F3. split_and!; try done; try lia; by intros []. }
  destruct H1 as [Hw1 Hs1]. rewrite xorb_false_r in Hw1. destruct cs as [|c2 cs].
  { exists 1%nat. injection Hs1 as _ _ _ _ E. cbn. rewrite E, Hw1.
    split_and!; try done; try lia; try (by destruct ro); by intros []. }
  cbn [hs_run fst snd]. pose proof (live_call c2 ro true h1 Hs1) as H2.
  destruct (hs_call c2 h1) as [[b2|e2] h2]; cbn [fst snd].
  2:{ destruct H2 as (F1 & _ & F3). destruct (dead_run cs h2 (or_introl F1)) as [Hr ->].
      exists 1%nat. cbn. rewrite Hr, F3, Hw1. split_and!; try done; try lia; try (by destruct ro); by intros []. }
  destruct H2 as (Hw2 & s & Hs2). rewrite xorb_true_r in Hw2. injection Hs2 as _ _ _ _ E.
  destruct (dead_run cs h2) as [Hr ->]; [right; by rewrite E|].
  exists 2%nat. cbn. rewrite Hr, E, Hw1, Hw2, Nat.sub_0_r. split_and!; try done; try lia; by destruct ro.
Qed.

(** A responder object, over the concrete suite. *)
Definition toy_responder : NoiseHandshake (H:=toy_crypto) :=
  mkHandshake _ Responder (mkSymmetric (zeros 32) (zeros 32) (mkCipher None 0)) (toy_pair 3) None None None
    false false false None.

Lemma handshake_turns_witness :
  let r := hs_run [HRead [byte.of_Z 1]; HRead []; HWrite (Some (toy_pair 7)) []] toy_responder in
  exists n, (n <= 2)%nat /\ (n <= 3)%nat /\
    map is_ok r.1 = replicate n true ++ replicate (3 - n) false /\
    map is_write (take n [HRead [byte.of_Z 1]; HRead []; HWrite (Some (toy_pair 7)) []]) = take n (turns Responder) /\
    (is_Some (session r.2) <-> n = 2%nat).
Proof.
  apply (handshake_turns toy_responder [HRead [byte.of_Z 1]; HRead []; HWrite (Some (toy_pair 7)) []]).
  reflexivity.
Defined.

(** A call made while another is in flight marks the handshake as failed, and
    the call in flight still completes it: the session is there to be read. *)
Lemma overlapped_call `{NoiseCrypto} (h : NoiseHandshake) (run : Handshake.M bytes) b h' :
  failed h = false -> session h = None -> inFlight h = false ->
  run (Handshake.with_flags true true h) = (Ok b, h') -> failed h' = true ->
  let first := (Handshake.begin_step h).2 in
  let second := Handshake.begin_step first in
  second.1 = Throw (NoiseErr "handshake step is already in flight") /\
  Handshake.end_step run second.2 = (Ok b, Handshake.with_flags true false h').
Proof.
  intros E1 E2 E3 Hr Hf. unfold Handshake.begin_step. rewrite E1, E2, E3. cbn. rewrite E2. cbn. split; [done|].
  unfold Handshake.end_step. change (Handshake.with_flags true true (Handshake.with_flags false true h)) with
    (Handshake.with_flags true true h). by rewrite Hr, Hf.
Qed.
