(* ===== verification/Transport.v ===== *)
(** * Transport framing (remote-lib-common/src/security/noise-transport.ts)

    What rides inside a Noise transport message: the plaintext kinds, the
    application byte stream with its reassembler, and the established session.
    UTF-8 and JSON text are the host's ([HostText]). *)
From Stdlib Require Import ZArith.
From coqutil Require Import Byte.
From S2P Require Import Prelude JsValue Bytes Noise.
#[local] Open Scope Z_scope.

(** [TextEncoder], the fatal [TextDecoder], [String.isWellFormed] (no surrogate
    is unpaired) and [JSON]; a [None] is a throw.  [JSON.stringify] is total on
    [JsValue], which has no cycle and no BigInt. *)
Class HostText := {
  isWellFormed : string -> bool;
  utf8Encode : string -> bytes;
  utf8Decode : bytes -> option string;
  json_stringify : JsValue -> string;
  json_parse : string -> option JsValue }.

Definition E2E_PROLOGUE_DOMAIN : string := "dormouse/e2e/v1".
Definition TRANSPORT_KIND_KEEPALIVE : Z := 0.
Definition TRANSPORT_KIND_STREAM : Z := 1.
Definition TRANSPORT_KIND_CONTROL : Z := 2.
Definition KEEPALIVE_BODY_SIZE : Z := 32.
Definition CONTROL_PAYLOAD_SIZE : Z := 4096.
Definition APP_LENGTH_PREFIX_SIZE : Z := 4.
Definition MAX_APP_MESSAGE_LENGTH : Z := 1024 * 1024.
Definition MAX_STREAM_BODY_LENGTH : Z := NOISE_MAX_MESSAGE_LENGTH - NOISE_TAG_LENGTH - 1.
Definition RETAINED_BUFFER_CAPACITY : Z := MAX_STREAM_BODY_LENGTH + APP_LENGTH_PREFIX_SIZE.
Definition MAX_BUFFER_CAPACITY : Z := APP_LENGTH_PREFIX_SIZE + MAX_APP_MESSAGE_LENGTH + MAX_STREAM_BODY_LENGTH.
Definition INITIAL_BUFFER_CAPACITY : Z := 1024.

(** The kinds of transcript a prologue binds. *)
Inductive PrologueKind := KConnection | KPairing | KOneTime.

Definition kind_name (k : PrologueKind) : string :=
  match k with KConnection => "connection" | KPairing => "pairing" | KOneTime => "one-time" end.

Inductive TransportPlaintext :=
  | PKeepalive
  | PControl (value : JsValue)
  | PStream (body : bytes).

(** [typeof parsed === 'object' && parsed !== null && !Array.isArray(parsed)]. *)
Definition is_object (v : JsValue) : bool := match v with JObject _ => true | _ => false end.

Section framing.
  Context `{T : HostText}.

(** ** Prologues *)

Definition e2ePrologue (kind : PrologueKind) (burrowId : string) (extra : list string) : bytes :=
  lengthPrefixedConcat
    (utf8Encode E2E_PROLOGUE_DOMAIN :: utf8Encode (kind_name kind) :: utf8Encode burrowId :: map utf8Encode extra).

Definition e2eConnectionPrologue (burrowId connectionId : string) : bytes :=
  e2ePrologue KConnection burrowId [connectionId].
Definition e2ePairingPrologue (burrowId : string) (invitationFields : list string) : bytes :=
  e2ePrologue KPairing burrowId invitationFields.
Definition e2eOneTimePrologue (roomId : string) (linkFields : list string) : bytes :=
  e2ePrologue KOneTime roomId linkFields.

(** ** Transport plaintexts *)

Definition encodeControlBody (value : JsValue) : outcome bytes :=
  let json := utf8Encode (json_stringify value) in
  let! _ := throw_if (CONTROL_PAYLOAD_SIZE <? blen json)
    (NoiseErr "control message exceeds the control payload size") in
  Ok (set_at (zeros CONTROL_PAYLOAD_SIZE) 0 json).

(** [while (end > 0 && body[end - 1] === 0) end--]. *)
Fixpoint unpadded_length (body : bytes) (stop : nat) : nat :=
  match stop with
  | O => O
  | S k => if byte_at body (Z.of_nat k) =? 0 then unpadded_length body k else stop
  end.

Definition decodeControlBody (body : bytes) : outcome JsValue :=
  let! _ := throw_if (negb (blen body =? CONTROL_PAYLOAD_SIZE))
    (NoiseErr "control body is not the control payload size") in
  let stop := unpadded_length body (length body) in
  match (match utf8Decode (subarray 0 (Z.of_nat stop) body) with Some text => json_parse text | None => None end) with
  | None => Throw (NoiseErr "control message is not JSON")
  | Some parsed =>
      let! _ := throw_if (negb (is_object parsed)) (NoiseErr "control message is not an object") in
      Ok parsed
  end.

Definition encodeTransportPlaintext (frame : TransportPlaintext) : outcome bytes :=
  match frame with
  | PKeepalive => Ok (concatBytes [[byte.of_Z TRANSPORT_KIND_KEEPALIVE]; zeros KEEPALIVE_BODY_SIZE])
  | PControl value =>
      let! body := encodeControlBody value in
      Ok (concatBytes [[byte.of_Z TRANSPORT_KIND_CONTROL]; body])
  | PStream body =>
      let! _ := throw_if (MAX_STREAM_BODY_LENGTH <? blen body) (NoiseErr "stream body exceeds one Noise message") in
      Ok (concatBytes [[byte.of_Z TRANSPORT_KIND_STREAM]; body])
  end.

Definition decodeTransportPlaintext (plaintext : bytes) : outcome TransportPlaintext :=
  let! _ := throw_if (blen plaintext =? 0) (NoiseErr "transport plaintext is empty") in
  let body := subarray 1 (blen plaintext) plaintext in
  let kind := byte_at plaintext 0 in
  if kind =? TRANSPORT_KIND_KEEPALIVE then
    let! _ := throw_if (negb (blen body =? KEEPALIVE_BODY_SIZE)) (NoiseErr "keepalive body must be 32 bytes") in
    let! _ := throw_if (existsb (fun b => negb (byte.unsigned b =? 0)) body)
      (NoiseErr "keepalive body must be zero") in
    Ok PKeepalive
  else if kind =? TRANSPORT_KIND_STREAM then
    let! _ := throw_if (MAX_STREAM_BODY_LENGTH <? blen body) (NoiseErr "stream body exceeds one Noise message") in
    Ok (PStream body)
  else if kind =? TRANSPORT_KIND_CONTROL then
    let! value := decodeControlBody body in
    Ok (PControl value)
  else Throw (NoiseErr "unknown transport kind").

End framing.

(** ** The application byte stream *)

(** The loop of [chunkAppMessage]; [fuel] bounds the bodies it yields. *)
Fixpoint chunk_from (fuel : nat) (framed : bytes) (offset : Z) : list bytes :=
  match fuel with
  | O => []
  | S fuel =>
      if offset <? blen framed
      then subarray offset (offset + MAX_STREAM_BODY_LENGTH) framed
             :: chunk_from fuel framed (offset + MAX_STREAM_BODY_LENGTH)
      else []
  end.

(** One more body than fits is never asked for. *)
Definition chunk_fuel (framed : bytes) : nat := S (Z.to_nat (blen framed / MAX_STREAM_BODY_LENGTH)).

Definition chunkAppMessage (message : bytes) : outcome (list bytes) :=
  let! _ := throw_if (MAX_APP_MESSAGE_LENGTH <? blen message)
    (NoiseErr "application message exceeds the 1 MiB cap") in
  let framed := writeUint32BE (zeros (APP_LENGTH_PREFIX_SIZE + blen message)) 0 (blen message) in
  let framed := set_at framed APP_LENGTH_PREFIX_SIZE message in
  Ok (chunk_from (chunk_fuel framed) framed 0).

(** The fields of [StreamReassembler]. *)
Record StreamReassembler := mkReassembler {
  buffer : bytes; r_start : Z; r_end : Z; r_failed : bool }.

Definition new_reassembler : StreamReassembler := mkReassembler [] 0 0 false.

Module Reassembler.

Definition capacity (r : StreamReassembler) : Z := blen (buffer r).
Definition queued (r : StreamReassembler) : Z := r_end r - r_start r.

(** [buffer.copyWithin(0, start, end)]. *)
Definition copyWithin (b : bytes) (from to : Z) : bytes := set_at b 0 (subarray from to b).

Definition append (body : bytes) (r : StreamReassembler) : StreamReassembler :=
  let r1 :=
    if capacity r <? r_end r + blen body then
      let live := queued r in
      let needed := live + blen body in
      let b :=
        if needed <=? capacity r then copyWithin (buffer r) (r_start r) (r_end r)
        else
          set_at (zeros (Z.min MAX_BUFFER_CAPACITY
                    (Z.max (Z.max needed (capacity r * 2)) INITIAL_BUFFER_CAPACITY)))
            0 (subarray (r_start r) (r_end r) (buffer r)) in
      mkReassembler b 0 live (r_failed r)
    else r in
  mkReassembler (set_at (buffer r1) (r_end r1) body) (r_start r1) (r_end r1 + blen body) (r_failed r1).

(** [#fail]: the error, with the buffer released. *)
Definition fail {A} (why : string) : outcome A * StreamReassembler :=
  (Throw (NoiseErr why), mkReassembler EMPTY 0 0 true).

Definition drain (r : StreamReassembler) : StreamReassembler :=
  mkReassembler (if RETAINED_BUFFER_CAPACITY <? capacity r then EMPTY else buffer r) 0 0 (r_failed r).

(** The loop of [push], with the messages completed so far; each round takes
    at least the four bytes of a length. *)
Fixpoint take_messages (fuel : nat) (r : StreamReassembler) (messages : list bytes)
    : outcome (list bytes) * StreamReassembler :=
  match fuel with
  | O => (Ok messages, r)
  | S fuel =>
      if queued r <? APP_LENGTH_PREFIX_SIZE then (Ok messages, r)
      else
        let len := readUint32BE (buffer r) (r_start r) in
        if MAX_APP_MESSAGE_LENGTH <? len then fail "application message exceeds the 1 MiB cap"
        else if queued r <? APP_LENGTH_PREFIX_SIZE + len then (Ok messages, r)
        else
          let from := r_start r + APP_LENGTH_PREFIX_SIZE in
          take_messages fuel (mkReassembler (buffer r) (from + len) (r_end r) (r_failed r))
            (messages ++ [subarray from (from + len) (buffer r)])
  end.

Definition push (body : bytes) (r : StreamReassembler) : outcome (list bytes) * StreamReassembler :=
  if r_failed r then (Throw (NoiseErr "reassembly already failed"), r)
  else if MAX_STREAM_BODY_LENGTH <? blen body then fail "stream body exceeds one Noise message"
  else
    let r1 := if 0 <? blen body then append body r else r in
    match take_messages (S (Z.to_nat (queued r1 / APP_LENGTH_PREFIX_SIZE))) r1 [] with
    | (Ok messages, r2) => (Ok messages, if r_start r2 =? r_end r2 then drain r2 else r2)
    | (Throw e, r2) => (Throw e, r2)
    end.

End Reassembler.

(** ** The session *)

(** [TransportReceipt]. *)
Inductive TransportReceipt :=
  | RKeepalive
  | RControl (value : JsValue)
  | RApp (messages : list bytes).

(** The fields of [NoiseTransportSession]. *)
Record NoiseTransportSession := mkTransport {
  t_send : NoiseCipherState;
  t_receive : NoiseCipherState;
  t_handshakeHash : bytes;
  t_reassembler : StreamReassembler;
  t_poison : option string }.

Module Session.
Section Session.
  Context `{C : NoiseCrypto} `{T : HostText}.
  Implicit Types (t : NoiseTransportSession).

Definition M (A : Type) : Type := NoiseTransportSession -> outcome A * NoiseTransportSession.

Definition new_session (s : NoiseSession) : NoiseTransportSession :=
  mkTransport (send s) (receive s) (handshakeHash s) new_reassembler None.

Definition with_send (c : NoiseCipherState) t : NoiseTransportSession :=
  mkTransport c (t_receive t) (t_handshakeHash t) (t_reassembler t) (t_poison t).
Definition with_receive (c : NoiseCipherState) t : NoiseTransportSession :=
  mkTransport (t_send t) c (t_handshakeHash t) (t_reassembler t) (t_poison t).
Definition with_reassembler (r : StreamReassembler) t : NoiseTransportSession :=
  mkTransport (t_send t) (t_receive t) (t_handshakeHash t) r (t_poison t).
Definition poisoned (why : string) t : NoiseTransportSession :=
  mkTransport (t_send t) (t_receive t) (t_handshakeHash t) (t_reassembler t) (Some why).

Definition isPoisoned t : bool := bool_decide (is_Some (t_poison t)).
Definition receiveNonce t : Z := nonce (t_receive t).

Definition requireLive t : outcome unit :=
  match t_poison t with
  | Some why => Throw (NoiseErr ("session is destroyed: " +:+ why))
  | None => Ok tt
  end.

(** [#guarded]: the first failure poisons the session. *)
Definition guarded {A} (run : M A) : M A := fun t =>
  match requireLive t with
  | Throw e => (Throw e, t)
  | Ok _ =>
      match run t with
      | (Ok a, t') => (Ok a, t')
      | (Throw e, t') =>
          (Throw (match e with NoiseErr _ => e | OtherErr _ => NoiseErr "transport failure" end),
           poisoned (message e) t')
      end
  end.

(** [send.encryptWithAd(EMPTY, plaintext)]. *)
Definition encrypt_plaintext (plaintext : bytes) : M bytes := fun t =>
  match encryptWithAd EMPTY plaintext (t_send t) with
  | Ok (ciphertext, c) => (Ok ciphertext, with_send c t)
  | Throw e => (Throw e, t)
  end.

Definition encrypt (frame : TransportPlaintext) : M bytes := fun t =>
  match encodeTransportPlaintext frame with
  | Ok plaintext => encrypt_plaintext plaintext t
  | Throw e => (Throw e, t)
  end.

Definition sendKeepalive : M bytes := guarded (encrypt PKeepalive).

Definition sendControl (value : JsValue) : M bytes := fun t =>
  match requireLive t with
  | Throw e => (Throw e, t)
  | Ok _ =>
      match encodeTransportPlaintext (PControl value) with
      | Throw e => (Throw e, t)
      | Ok plaintext => guarded (encrypt_plaintext plaintext) t
      end
  end.

(** [bodies.map((body) => this.#encrypt({ kind: 'stream', body }))]. *)
Fixpoint encrypt_all (bodies : list bytes) : M (list bytes) := fun t =>
  match bodies with
  | [] => (Ok [], t)
  | body :: bodies' =>
      match encrypt (PStream body) t with
      | (Throw e, t') => (Throw e, t')
      | (Ok c, t') =>
          match encrypt_all bodies' t' with
          | (Ok cs, t'') => (Ok (c :: cs), t'')
          | (Throw e, t'') => (Throw e, t'')
          end
      end
  end.

Definition sendApp (message : bytes) : M (list bytes) := fun t =>
  match requireLive t with
  | Throw e => (Throw e, t)
  | Ok _ =>
      match chunkAppMessage message with
      | Throw e => (Throw e, t)
      | Ok bodies => guarded (encrypt_all bodies) t
      end
  end.

(** The body of [receive]. *)
Definition receive_frame (ciphertext : bytes) : M TransportReceipt := fun t =>
  match decryptWithAd EMPTY ciphertext (t_receive t) with
  | Throw e => (Throw e, t)
  | Ok (plaintext, c) =>
      let t1 := with_receive c t in
      match decodeTransportPlaintext plaintext with
      | Throw e => (Throw e, t1)
      | Ok PKeepalive => (Ok RKeepalive, t1)
      | Ok (PControl value) => (Ok (RControl value), t1)
      | Ok (PStream body) =>
          match Reassembler.push body (t_reassembler t1) with
          | (Ok messages, r) => (Ok (RApp messages), with_reassembler r t1)
          | (Throw e, r) => (Throw e, with_reassembler r t1)
          end
      end
  end.

Definition receive (ciphertext : bytes) : M TransportReceipt := guarded (receive_frame ciphertext).

End Session.
End Session.
