(* ===== verification/TransportFacts.v ===== *)
(** * The byte stream and its reassembler

    An abstract queue of bytes with a one-shot parser, the refinement of it by
    the compacting buffer of [StreamReassembler], and the bound on that buffer. *)
From Stdlib Require Import ZArith Lia.
From coqutil Require Import Byte.
From S2P Require Import Prelude JsValue Bytes Noise NoiseHandshake Transport.
#[local] Open Scope Z_scope.

(** ** The specification *)

(** Take the complete messages off a queue; [None] when a length is over the cap. *)
Fixpoint parse (fuel : nat) (q : bytes) : option (list bytes * bytes) :=
  match fuel with
  | O => Some ([], q)
  | S fuel =>
      if blen q <? 4 then Some ([], q)
      else
        let len := readUint32BE q 0 in
        if MAX_APP_MESSAGE_LENGTH <? len then None
        else if blen q <? 4 + len then Some ([], q)
        else match parse fuel (drop (Z.to_nat (4 + len)) q) with
             | Some (ms, q') => Some (subarray 4 (4 + len) q :: ms, q')
             | None => None
             end
  end.

(** The state of the specification: the queued bytes, or [None] once it failed. *)
Definition queue_push (body : bytes) (q : option bytes) : outcome (list bytes) * option bytes :=
  match q with
  | None => (Throw (NoiseErr "reassembly already failed"), None)
  | Some q =>
      if MAX_STREAM_BODY_LENGTH <? blen body then (Throw (NoiseErr "stream body exceeds one Noise message"), None)
      else match parse (S (Z.to_nat (blen (q ++ body) / 4))) (q ++ body) with
           | Some (ms, q') => (Ok ms, Some q')
           | None => (Throw (NoiseErr "application message exceeds the 1 MiB cap"), None)
           end
  end.

(** ** The buffer *)

(** The undrained bytes. *)
Definition content (r : StreamReassembler) : bytes := subarray (r_start r) (r_end r) (buffer r).

(** What holds of a live reassembler at any time. *)
Record in_bounds (r : StreamReassembler) : Prop := {
  ib_start : 0 <= r_start r <= r_end r;
  ib_end : r_end r <= Reassembler.capacity r;
  ib_capacity : Reassembler.capacity r <= MAX_BUFFER_CAPACITY;
  ib_live : r_failed r = false }.

(** What holds of it between pushes. *)
Definition settled (r : StreamReassembler) : Prop :=
  in_bounds r /\ Reassembler.queued r < APP_LENGTH_PREFIX_SIZE + MAX_APP_MESSAGE_LENGTH.

Lemma blen_subarray i j b : 0 <= i <= j -> j <= blen b -> blen (subarray i j b) = j - i.
Proof. intros Hi Hj. unfold subarray, slice, blen in *. rewrite length_take, length_drop. lia. Qed.

Lemma subarray_self i b : subarray i i b = [].
Proof. unfold subarray, slice. by rewrite Nat.sub_diag. Qed.

Lemma subarray_split i j b :
  0 <= i <= j -> j <= blen b ->
  exists pre post, b = pre ++ subarray i j b ++ post /\ blen pre = i.
Proof.
  intros Hi Hj. unfold blen in *. exists (take (Z.to_nat i) b), (drop (Z.to_nat j) b). unfold subarray, slice. split.
  - rewrite <- (take_drop (Z.to_nat i) b) at 1. f_equal.
    rewrite <- (take_drop (Z.to_nat j - Z.to_nat i) (drop (Z.to_nat i) b)) at 1. f_equal.
    rewrite drop_drop. f_equal. lia.
  - unfold blen. rewrite length_take. lia.
Qed.

Lemma content_length r : in_bounds r -> blen (content r) = Reassembler.queued r.
Proof. intros [H1 H2 _ _]. unfold content, Reassembler.queued. by apply blen_subarray. Qed.

Lemma set_at_here pre mid part post i :
  i = blen pre -> blen mid = blen part -> set_at (pre ++ mid ++ post) i part = pre ++ part ++ post.
Proof. intros -> H. apply set_at_middle. unfold blen in H. lia. Qed.

Lemma blen_set_at b i part : blen (set_at b i part) = blen b.
Proof. unfold blen, set_at. by rewrite length_inserts. Qed.

Lemma blen_zeros n : 0 <= n -> blen (zeros n) = n.
Proof. intros H. unfold blen. rewrite length_zeros. lia. Qed.

(** Writing a part into a large enough array puts it there. *)
Lemma set_at_reads b i part :
  0 <= i -> i + blen part <= blen b ->
  exists pre post, b = pre ++ subarray i (i + blen part) b ++ post /\ blen pre = i /\
    set_at b i part = pre ++ part ++ post.
Proof.
  intros Hi Hb. pose proof (blen_nonneg part).
  destruct (subarray_split i (i + blen part) b ltac:(lia) Hb) as (pre & post & E & Hpre).
  exists pre, post. split; [exact E|]. split; [done|]. rewrite E at 1. apply set_at_here; [done|].
  rewrite blen_subarray; lia.
Qed.

(** Compacting or growing keeps the content, at the front of the buffer. *)
Lemma moved_content b part :
  blen part <= blen b -> subarray 0 (blen part) (set_at b 0 part) = part.
Proof.
  intros H. destruct (set_at_reads b 0 part ltac:(lia) ltac:(lia)) as (pre & post & _ & Hp & ->).
  assert (pre = []) as -> by (apply length_zero_iff_nil; unfold blen in Hp; lia).
  apply (subarray_app [] part post); [done|]. change (blen []) with 0. lia.
Qed.

Lemma append_spec body r :
  in_bounds r -> Reassembler.queued r + blen body <= MAX_BUFFER_CAPACITY ->
  in_bounds (Reassembler.append body r) /\ content (Reassembler.append body r) = content r ++ body.
Proof.
  intros Hr Hq. pose proof (content_length r Hr) as Hc. pose proof (blen_nonneg body) as Hbn.
  destruct Hr as [H1 H2 H3 H4]. unfold Reassembler.append.
  match goal with |- context [if Reassembler.capacity r <? _ then ?a else ?b] =>
    set (r1 := if Reassembler.capacity r <? r_end r + blen body then a else b) end.
  assert (G : in_bounds r1 /\ content r1 = content r /\ r_end r1 + blen body <= Reassembler.capacity r1).
  { unfold r1. destruct (Z.ltb_spec (Reassembler.capacity r) (r_end r + blen body)) as [Hlt|Hge].
    2:{ split; [by split|]. by split. }
    assert (Hmoved : forall b, Reassembler.queued r + blen body <= blen b -> blen b <= MAX_BUFFER_CAPACITY ->
      let r' := mkReassembler (set_at b 0 (content r)) 0 (Reassembler.queued r) (r_failed r) in
      in_bounds r' /\ content r' = content r /\ r_end r' + blen body <= Reassembler.capacity r').
    { intros b Hb1 Hb2 r'. unfold r', content at 2. cbn [r_start r_end buffer]. unfold Reassembler.capacity.
      cbn [buffer r_end r_start]. rewrite blen_set_at. split; [split; cbn; unfold Reassembler.capacity; cbn; rewrite ?blen_set_at|].
      - unfold Reassembler.queued in *. lia.
      - lia.
      - done.
      - done.
      - split; [|done]. rewrite <- Hc. apply moved_content. lia. }
    destruct (Z.leb_spec (Reassembler.queued r + blen body) (Reassembler.capacity r)) as [Hfit|Hgrow].
    - apply (Hmoved (buffer r)); [done|done].
    - set (n := Z.min _ _). assert (Hn : Reassembler.queued r + blen body <= n <= MAX_BUFFER_CAPACITY) by lia.
      assert (0 <= n) by (unfold Reassembler.queued in *; lia).
      apply (Hmoved (zeros n)); rewrite blen_zeros; lia. }
  destruct G as ([G1 G2 G3 G4] & Gc & Gfit).
  destruct (set_at_reads (buffer r1) (r_end r1) body) as (pre & post & Eb & Hpre & Es); [lia|exact Gfit|].
  split.
  - split; cbn; unfold Reassembler.capacity in *; cbn; rewrite ?blen_set_at; try done; lia.
  - rewrite <- Gc. unfold content. cbn [buffer r_start r_end]. rewrite Es.
    destruct (subarray_split (r_start r1) (r_end r1) pre ltac:(lia) ltac:(lia)) as (p1 & p2 & Ep & Hp1).
    assert (p2 = []) as ->.
    { apply (f_equal blen) in Ep. rewrite !blen_app, blen_subarray in Ep by lia.
      apply length_zero_iff_nil. unfold blen in *. lia. }
    rewrite app_nil_r in Ep. set (c := subarray (r_start r1) (r_end r1) pre) in *.
    assert (Lc : blen c = r_end r1 - r_start r1) by (unfold c; rewrite blen_subarray; lia).
    transitivity (c ++ body).
    + rewrite Ep, <- app_assoc, (app_assoc c body). apply subarray_app; rewrite ?blen_app; lia.
    + f_equal. rewrite Eb, Ep, <- app_assoc. symmetry. apply subarray_app; lia.
Qed.

(** ** The loop *)

Lemma byte_at_bounds b i : 0 <= byte_at b i < 256.
Proof. unfold byte_at. destruct (b !! _); [apply unsigned_bounds|lia]. Qed.

Lemma readUint32BE_bounds b i : 0 <= readUint32BE b i < 2 ^ 32.
Proof.
  unfold readUint32BE. rewrite !js_shl_eq by lia. unfold js_ushr, to_int32. rewrite Z.shiftr_0_r.
  pose proof (byte_at_bounds b i). pose proof (byte_at_bounds b (i + 1)).
  pose proof (byte_at_bounds b (i + 2)). pose proof (byte_at_bounds b (i + 3)). zdiv.
Qed.

Lemma byte_at_subarray b i j k :
  0 <= i -> 0 <= k -> i + k < j -> byte_at (subarray i j b) k = byte_at b (i + k).
Proof.
  intros Hi Hk Hj. unfold byte_at, subarray, slice.
  rewrite lookup_take_lt by lia. rewrite lookup_drop. by replace (Z.to_nat i + Z.to_nat k)%nat with (Z.to_nat (i + k)) by lia.
Qed.

Lemma readUint32BE_content r :
  in_bounds r -> 4 <= Reassembler.queued r -> readUint32BE (content r) 0 = readUint32BE (buffer r) (r_start r).
Proof.
  intros [H1 H2 _ _] Hq. unfold Reassembler.queued in Hq. unfold readUint32BE, content.
  rewrite !byte_at_subarray by lia. by rewrite !Z.add_0_r.
Qed.

Lemma subarray_subarray b i j k l :
  0 <= i -> 0 <= k <= l -> i + l <= j -> subarray k l (subarray i j b) = subarray (i + k) (i + l) b.
Proof.
  intros Hi Hk Hj. unfold subarray, slice. rewrite skipn_firstn_comm, take_take, drop_drop.
  f_equal; [lia|]. f_equal. lia.
Qed.

Lemma drop_subarray b i j k :
  0 <= i -> 0 <= k -> drop (Z.to_nat k) (subarray i j b) = subarray (i + k) j b.
Proof.
  intros Hi Hk. unfold subarray, slice. rewrite skipn_firstn_comm, drop_drop. f_equal; [lia|]. f_equal. lia.
Qed.

Lemma take_messages_spec fuel r acc :
  in_bounds r ->
  match parse fuel (content r) with
  | Some (ms, q) => exists r', Reassembler.take_messages fuel r acc = (Ok (acc ++ ms), r') /\
      in_bounds r' /\ content r' = q
  | None => Reassembler.take_messages fuel r acc = Reassembler.fail "application message exceeds the 1 MiB cap"
  end.
Proof.
  revert r acc. induction fuel as [|fuel IH]; intros r acc Hr; cbn [parse Reassembler.take_messages].
  { exists r. by rewrite app_nil_r. }
  rewrite (content_length r Hr). change APP_LENGTH_PREFIX_SIZE with 4.
  destruct (Z.ltb_spec (Reassembler.queued r) 4) as [|Hq]; [exists r; by rewrite app_nil_r|].
  rewrite (readUint32BE_content r Hr Hq). cbv zeta. set (len := readUint32BE (buffer r) (r_start r)).
  pose proof (readUint32BE_bounds (buffer r) (r_start r)) as Hlen. fold len in Hlen.
  destruct (Z.ltb_spec MAX_APP_MESSAGE_LENGTH len); [done|].
  destruct (Z.ltb_spec (Reassembler.queued r) (4 + len)) as [|Hq2]; [exists r; by rewrite app_nil_r|].
  destruct Hr as [H1 H2 H3 H4]. unfold Reassembler.queued in Hq2.
  set (r1 := mkReassembler (buffer r) (r_start r + 4 + len) (r_end r) (r_failed r)).
  assert (Hr1 : in_bounds r1) by (split; cbn; unfold Reassembler.capacity in *; cbn; done || lia).
  assert (Ec : drop (Z.to_nat (4 + len)) (content r) = content r1).
  { unfold content. rewrite drop_subarray by lia. unfold r1. cbn. f_equal. lia. }
  assert (Em : subarray 4 (4 + len) (content r) = subarray (r_start r + 4) (r_start r + 4 + len) (buffer r)).
  { unfold content. rewrite subarray_subarray by lia. f_equal. lia. }
  rewrite Ec, Em. specialize (IH r1 (acc ++ [subarray (r_start r + 4) (r_start r + 4 + len) (buffer r)]) Hr1).
  destruct (parse fuel (content r1)) as [[ms q]|]; [|exact IH].
  destruct IH as (r' & E & Hb & Hc). exists r'. split; [|done]. rewrite <- app_assoc in E. exact E.
Qed.

(** What the parser leaves: less than a message, whose length is within the cap. *)
Definition stopped (q : bytes) : Prop :=
  blen q < 4 \/ readUint32BE q 0 <= MAX_APP_MESSAGE_LENGTH /\ blen q < 4 + readUint32BE q 0.

Lemma stopped_short q : stopped q -> blen q < 4 + MAX_APP_MESSAGE_LENGTH.
Proof. unfold stopped, MAX_APP_MESSAGE_LENGTH. lia. Qed.

(** With fuel to spare, the parser stops inside a message. *)
Lemma parse_stops fuel q ms q' :
  parse fuel q = Some (ms, q') -> (Z.to_nat (blen q / 4) < fuel)%nat -> stopped q'.
Proof.
  revert q ms. induction fuel as [|fuel IH]; intros q ms H Hf; [lia|]. cbn [parse] in H.
  destruct (Z.ltb_spec (blen q) 4) as [|Hq]; [simplify_eq; by left|].
  cbv zeta in H. set (len := readUint32BE q 0) in *.
  pose proof (readUint32BE_bounds q 0) as Hlen. fold len in Hlen.
  destruct (Z.ltb_spec MAX_APP_MESSAGE_LENGTH len); [done|].
  destruct (Z.ltb_spec (blen q) (4 + len)); [simplify_eq; right; fold len; lia|].
  destruct (parse fuel _) as [[ms1 q1]|] eqn:E; [|done]. injection H as _ ->.
  apply (IH _ _ E). assert (Hd : blen (drop (Z.to_nat (4 + len)) q) = blen q - (4 + len)).
  { unfold blen in *. rewrite length_drop. lia. }
  rewrite Hd. assert ((blen q - (4 + len)) / 4 < blen q / 4) by zdiv. pose proof (Z.div_pos (blen q - (4 + len)) 4). lia.
Qed.

(** ** The refinement *)

(** The reassembler stands for a queue. *)
Definition stands_for (r : StreamReassembler) (q : option bytes) : Prop :=
  match q with
  | None => r = mkReassembler EMPTY 0 0 true
  | Some q => settled r /\ content r = q
  end.

Lemma drain_spec r :
  in_bounds r -> r_start r = r_end r ->
  settled (Reassembler.drain r) /\ content (Reassembler.drain r) = content r.
Proof.
  intros [H1 H2 H3 H4] He. unfold Reassembler.drain. split.
  - split; [|done]. destruct (Z.ltb_spec RETAINED_BUFFER_CAPACITY (Reassembler.capacity r));
      split; cbn; unfold Reassembler.capacity in *; cbn; done || lia.
  - unfold content. cbn [r_start r_end buffer]. by rewrite He, !subarray_self.
Qed.

Lemma push_stands_for body r q :
  stands_for r q ->
  (Reassembler.push body r).1 = (queue_push body q).1 /\
  stands_for (Reassembler.push body r).2 (queue_push body q).2.
Proof.
  intros Hr. unfold Reassembler.push, queue_push. destruct q as [q|]; [|by rewrite Hr].
  destruct Hr as [[Hb Hq] Hc]. rewrite (ib_live _ Hb).
  destruct (Z.ltb_spec MAX_STREAM_BODY_LENGTH (blen body)) as [|Hlen]; [done|].
  set (r1 := if 0 <? blen body then _ else r).
  assert (H1 : in_bounds r1 /\ content r1 = q ++ body).
  { unfold r1. destruct (Z.ltb_spec 0 (blen body)).
    - rewrite <- Hc. apply append_spec; [done|]. unfold MAX_BUFFER_CAPACITY. lia.
    - assert (body = []) as -> by (apply length_zero_iff_nil; unfold blen in *; lia). by rewrite app_nil_r. }
  destruct H1 as [Hb1 Hc1]. rewrite <- Hc1. rewrite (content_length r1 Hb1). change APP_LENGTH_PREFIX_SIZE with 4.
  pose proof (take_messages_spec (S (Z.to_nat (Reassembler.queued r1 / 4))) r1 [] Hb1) as Ht.
  destruct (parse _ (content r1)) as [[ms q']|] eqn:Hp; [|by rewrite Ht].
  destruct Ht as (r2 & -> & Hb2 & Hc2). cbn [app fst snd]. split; [done|]. cbn [stands_for].
  apply parse_stops, stopped_short in Hp; [|rewrite (content_length r1 Hb1); lia].
  destruct (Z.eqb_spec (r_start r2) (r_end r2)) as [He|].
  - destruct (drain_spec r2 Hb2 He). split; [done|congruence].
  - split; [|done]. split; [done|]. rewrite <- (content_length r2 Hb2), Hc2. exact Hp.
Qed.

Lemma new_stands_for : stands_for new_reassembler (Some []).
Proof. split; [|done]. split; [|done]. split; done. Qed.

(** The answers of a sequence of pushes, and the state after them. *)
Fixpoint pushes (bodies : list bytes) (r : StreamReassembler) : list (outcome (list bytes)) * StreamReassembler :=
  match bodies with
  | [] => ([], r)
  | b :: bodies => let p := Reassembler.push b r in let ps := pushes bodies p.2 in (p.1 :: ps.1, ps.2)
  end.

Fixpoint queue_pushes (bodies : list bytes) (q : option bytes) : list (outcome (list bytes)) * option bytes :=
  match bodies with
  | [] => ([], q)
  | b :: bodies => let p := queue_push b q in let ps := queue_pushes bodies p.2 in (p.1 :: ps.1, ps.2)
  end.

Lemma pushes_stand_for bodies r q :
  stands_for r q ->
  (pushes bodies r).1 = (queue_pushes bodies q).1 /\ stands_for (pushes bodies r).2 (queue_pushes bodies q).2.
Proof.
  revert r q. induction bodies as [|b bodies IH]; intros r q Hr; [done|]. cbn [pushes queue_pushes fst snd].
  destruct (push_stands_for b r q Hr) as [H1 H2]. destruct (IH _ _ H2) as [H3 H4]. split; [congruence|done].
Qed.

Lemma stands_for_bounds r q :
  stands_for r q -> Reassembler.capacity r <= MAX_BUFFER_CAPACITY /\
    0 <= Reassembler.queued r < APP_LENGTH_PREFIX_SIZE + MAX_APP_MESSAGE_LENGTH /\
    r_failed r = bool_decide (q = None).
Proof.
  destruct q as [q|]; [|by intros ->]. intros [[[H1 H2 H3 H4] Hq] _].
  unfold Reassembler.queued in *. rewrite bool_decide_false by done. split; [done|]. split; [lia|done].
Qed.

(** C26. The compacting buffer of [StreamReassembler] refines a plain byte queue:
    for any bodies pushed into a new one, every push answers as the queue that
    parses everything it holds, the two fail at the same push and stay failed,
    and the buffer never outgrows its stated capacity nor holds a whole
    maximal message after a push. *)
Theorem reassembler_refines_queue (bodies : list bytes) :
  let r := pushes bodies new_reassembler in
  let s := queue_pushes bodies (Some []) in
  r.1 = s.1 /\
  (r_failed r.2 = true <-> s.2 = None) /\
  (forall q, s.2 = Some q -> content r.2 = q) /\
  Reassembler.capacity r.2 <= MAX_BUFFER_CAPACITY /\
  0 <= Reassembler.queued r.2 < APP_LENGTH_PREFIX_SIZE + MAX_APP_MESSAGE_LENGTH.
Proof.
  intros r s. destruct (pushes_stand_for bodies new_reassembler (Some []) new_stands_for) as [H1 H2].
  fold r s in H1, H2. destruct (stands_for_bounds _ _ H2) as (Hc & Hq & Hf). split_and!; try done; try lia.
  - rewrite Hf. apply bool_decide_eq_true.
  - intros q Hs. rewrite Hs in H2. by destruct H2.
Qed.
