(* ===== verification/TransportSpec.v ===== *)
(** * What the transport framing promises

    The codec of transport plaintexts, the delivery of application messages
    through any cut of their byte stream, two linked sessions end to end, and
    the permanence of the first failure. *)
From Stdlib Require Import ZArith Lia Ascii.
From coqutil Require Import Byte.
From S2P Require Import Prelude JsValue Bytes Noise NoiseHandshake NoiseSpec Transport TransportFacts.
#[local] Open Scope Z_scope.

(** ** The stream *)

(** The chunks of a message put together are its length and itself. *)
Lemma chunk_from_concat fuel framed offset :
  0 <= offset -> Z.max 0 (blen framed - offset) <= Z.of_nat fuel * MAX_STREAM_BODY_LENGTH ->
  concat (chunk_from fuel framed offset) = drop (Z.to_nat offset) framed /\
  Forall (fun b => 0 < blen b <= MAX_STREAM_BODY_LENGTH) (chunk_from fuel framed offset).
Proof.
  revert offset. induction fuel as [|fuel IH]; intros offset Ho Hf; cbn [chunk_from concat].
  { split; [|done]. symmetry. apply drop_ge. unfold blen in *. lia. }
  destruct (Z.ltb_spec offset (blen framed)) as [Hlt|Hge].
  2:{ split; [|done]. symmetry. apply drop_ge. unfold blen in *. lia. }
  assert (0 < MAX_STREAM_BODY_LENGTH) by done.
  destruct (IH (offset + MAX_STREAM_BODY_LENGTH)) as [IH1 IH2]; [lia|lia|]. split.
  - cbn [concat]. rewrite IH1. unfold subarray, slice.
    rewrite <- (take_drop (Z.to_nat (offset + MAX_STREAM_BODY_LENGTH) - Z.to_nat offset) (drop (Z.to_nat offset) framed)) at 2.
    rewrite drop_drop. do 2 f_equal. lia.
  - constructor; [|exact IH2]. unfold subarray, slice, blen in *. rewrite length_take, length_drop. lia.
Qed.

Lemma set_at_zeros_tail pre n part :
  blen part = n -> set_at (pre ++ zeros n) (blen pre) part = pre ++ part.
Proof.
  intros H. rewrite <- (app_nil_r (pre ++ zeros n)), <- app_assoc, set_at_here; [by rewrite app_nil_r|done|].
  pose proof (blen_nonneg part). rewrite blen_zeros; lia.
Qed.

Lemma chunkAppMessage_ok m :
  blen m <= MAX_APP_MESSAGE_LENGTH ->
  exists bodies, chunkAppMessage m = Ok bodies /\ concat bodies = prefixed [m] /\
    Forall (fun b => 0 < blen b <= MAX_STREAM_BODY_LENGTH) bodies.
Proof.
  intros Hm. pose proof (blen_nonneg m) as Hn. unfold chunkAppMessage.
  destruct (Z.ltb_spec MAX_APP_MESSAGE_LENGTH (blen m)) as [|_]; [lia|]. cbn [throw_if obind].
  assert (E : set_at (writeUint32BE (zeros (APP_LENGTH_PREFIX_SIZE + blen m)) 0 (blen m)) APP_LENGTH_PREFIX_SIZE m
              = be32 (blen m) ++ m).
  { rewrite zeros_add by done. set (z := byte.of_Z 0).
    change (zeros APP_LENGTH_PREFIX_SIZE ++ zeros (blen m)) with ([] ++ z :: z :: z :: z :: zeros (blen m)).
    rewrite (writeUint32BE_at [] z z z z) by (unfold MAX_APP_MESSAGE_LENGTH in *; lia). cbn [app].
    apply (set_at_zeros_tail (be32 (blen m))). done. }
  rewrite E. clear E. set (framed := be32 (blen m) ++ m).
  destruct (chunk_from_concat (chunk_fuel framed) framed 0) as [H1 H2]; [lia| |].
  { unfold chunk_fuel. rewrite Nat2Z.inj_succ, Z2Nat.id by (apply Z.div_pos; [apply blen_nonneg|done]).
    pose proof (blen_nonneg framed). unfold MAX_STREAM_BODY_LENGTH, NOISE_MAX_MESSAGE_LENGTH, NOISE_TAG_LENGTH. zdiv. }
  eexists. split; [reflexivity|]. split; [|exact H2]. rewrite H1. unfold prefixed, framed. cbn [map concat].
  by rewrite app_nil_r.
Qed.

(** ** Delivery of the stream *)

Lemma prefixed_cons m ms : prefixed (m :: ms) = be32 (blen m) ++ m ++ prefixed ms.
Proof. unfold prefixed. cbn [map concat]. by rewrite <- app_assoc. Qed.

Lemma prefixed_app ms1 ms2 : prefixed (ms1 ++ ms2) = prefixed ms1 ++ prefixed ms2.
Proof. unfold prefixed. by rewrite map_app, concat_app. Qed.

Lemma readUint32BE_be32 v post : 0 <= v < 2 ^ 32 -> readUint32BE (be32 v ++ post) 0 = v.
Proof. apply (readUint32BE_at []). Qed.

(** The head of a queue that is the beginning of framed messages. *)
Lemma framed_head q rest ms :
  q ++ rest = prefixed ms -> 4 <= blen q ->
  exists m ms' q', ms = m :: ms' /\ q = be32 (blen m) ++ q' /\ q' ++ rest = m ++ prefixed ms'.
Proof.
  intros E Hq. destruct ms as [|m ms].
  { apply (f_equal blen) in E. rewrite blen_app in E. pose proof (blen_nonneg rest). change (blen (prefixed [])) with 0 in E. lia. }
  rewrite prefixed_cons in E. exists m, ms, (drop 4 q). split; [done|].
  assert (Hl : (length (be32 (blen m)) <= length q)%nat) by (unfold blen in Hq; cbn; lia).
  assert (Ht : take 4 q = be32 (blen m)).
  { apply (f_equal (take 4)) in E. rewrite take_app_le in E by (unfold blen in Hq; lia). by rewrite E. }
  rewrite <- Ht at 1. split; [by rewrite take_drop|].
  rewrite <- (take_drop 4 q), Ht, <- app_assoc in E. by apply app_inv_head in E.
Qed.

Definition under_cap (m : bytes) : Prop := blen m <= MAX_APP_MESSAGE_LENGTH.

Lemma under_cap_32 m : under_cap m -> 0 <= blen m < 2 ^ 32.
Proof. unfold under_cap, MAX_APP_MESSAGE_LENGTH. pose proof (blen_nonneg m). lia. Qed.

(** The parser takes a prefix of the messages and leaves the frames of the rest. *)
Lemma parse_framed fuel q rest ms :
  q ++ rest = prefixed ms -> Forall under_cap ms ->
  exists ms1 ms2 q', parse fuel q = Some (ms1, q') /\ ms = ms1 ++ ms2 /\ q' ++ rest = prefixed ms2.
Proof.
  revert q ms. induction fuel as [|fuel IH]; intros q ms E Hms; cbn [parse]; [by exists [], ms, q|].
  destruct (Z.ltb_spec (blen q) 4) as [|Hq]; [by exists [], ms, q|].
  destruct (framed_head q rest ms E Hq) as (m & ms' & q1 & -> & -> & E1). clear E Hq.
  apply Forall_cons in Hms as [Hm Hms]. rewrite readUint32BE_be32 by (by apply under_cap_32). cbv zeta.
  pose proof (blen_nonneg m) as Hn. unfold under_cap in Hm.
  destruct (Z.ltb_spec MAX_APP_MESSAGE_LENGTH (blen m)); [lia|]. rewrite blen_app. change (blen (be32 _)) with 4.
  destruct (Z.ltb_spec (4 + blen q1) (4 + blen m)) as [|Hq1].
  { exists [], (m :: ms'), (be32 (blen m) ++ q1). split_and!; [done|done|]. by rewrite prefixed_cons, <- E1, app_assoc. }
  destruct (subarray_split (blen m) (blen q1) q1 ltac:(lia) ltac:(lia)) as (m' & post & Eq & Hm').
  set (q2 := subarray (blen m) (blen q1) q1 ++ post) in *. clearbody q2. subst q1.
  rewrite <- app_assoc in E1. apply app_inj_1 in E1 as [-> E1]; [|unfold blen in Hm'; lia].
  destruct (IH q2 ms' E1 Hms) as (ms1 & ms2 & q' & Hp & -> & E2).
  assert (drop (Z.to_nat (4 + blen m)) (be32 (blen m) ++ m ++ q2) = q2) as ->.
  { rewrite app_assoc. apply drop_app_length'. rewrite length_app. unfold blen. cbn [be32 length]. lia. }
  assert (subarray 4 (4 + blen m) (be32 (blen m) ++ m ++ q2) = m) as -> by (by apply subarray_app).
  rewrite Hp. by exists (m :: ms1), ms2, q'.
Qed.

(** A stopped queue of whole messages is empty. *)
Lemma stopped_whole q ms : q = prefixed ms -> Forall under_cap ms -> stopped q -> q = [] /\ ms = [].
Proof.
  intros -> Hms Hs. destruct ms as [|m ms]; [done|]. exfalso. apply Forall_cons in Hms as [Hm _].
  unfold stopped in Hs. rewrite prefixed_cons, readUint32BE_be32, !blen_app in Hs by (by apply under_cap_32).
  change (blen (be32 _)) with 4 in Hs. pose proof (blen_nonneg m). pose proof (blen_nonneg (prefixed ms)). lia.
Qed.

Definition body_ok (b : bytes) : Prop := blen b <= MAX_STREAM_BODY_LENGTH.

Lemma queue_pushes_framed bodies q ms :
  stopped q -> q ++ concat bodies = prefixed ms -> Forall under_cap ms -> Forall body_ok bodies ->
  exists outs, queue_pushes bodies (Some q) = (map Ok outs, Some []) /\ concat outs = ms.
Proof.
  revert q ms. induction bodies as [|b bodies IH]; intros q ms Hq E Hms Hb.
  { cbn in E. rewrite app_nil_r in E. destruct (stopped_whole _ _ E Hms Hq) as [-> ->]. by exists []. }
  apply Forall_cons in Hb as [Hb Hbs]. cbn [concat] in E. rewrite app_assoc in E.
  cbn [queue_pushes]. unfold queue_push. destruct (Z.ltb_spec MAX_STREAM_BODY_LENGTH (blen b)) as [Hlt|_].
  { unfold body_ok in Hb. lia. }
  destruct (parse_framed (S (Z.to_nat (blen (q ++ b) / 4))) (q ++ b) _ ms E Hms) as (ms1 & ms2 & q' & Hp & -> & E2).
  rewrite Hp. apply parse_stops in Hp; [|lia]. apply Forall_app in Hms as [_ Hms2].
  destruct (IH q' ms2 Hp E2 Hms2 Hbs) as (outs & H1 & <-). exists (ms1 :: outs). cbn [fst snd]. by rewrite H1.
Qed.

Lemma stopped_nil : stopped [].
Proof. by left. Qed.

Lemma stand_for_delivers bodies r q ms :
  stands_for r (Some q) -> stopped q -> q ++ concat bodies = prefixed ms ->
  Forall under_cap ms -> Forall body_ok bodies ->
  exists outs, (pushes bodies r).1 = map Ok outs /\ concat outs = ms /\ stands_for (pushes bodies r).2 (Some []).
Proof.
  intros Hr Hq E Hms Hb. destruct (queue_pushes_framed bodies q ms Hq E Hms Hb) as (outs & Hp & <-).
  destruct (pushes_stand_for bodies r (Some q) Hr) as [H1 H2]. rewrite Hp in H1, H2. by exists outs.
Qed.

Lemma drained r : stands_for r (Some []) -> Reassembler.queued r = 0 /\ r_failed r = false.
Proof. intros [[Hb _] Hc]. split; [|apply Hb]. by rewrite <- content_length, Hc. Qed.

Lemma chunks_ok ms :
  Forall under_cap ms ->
  exists css, omapM chunkAppMessage ms = Ok css /\ concat (map (@concat _) css) = prefixed ms /\
    Forall (Forall (fun b => 0 < blen b <= MAX_STREAM_BODY_LENGTH)) css.
Proof.
  induction 1 as [|m ms Hm Hms (css & E & Hc & Hf)]; [by exists []|].
  destruct (chunkAppMessage_ok m Hm) as (bodies & Eb & Hcb & Hfb). exists (bodies :: css).
  cbn [omapM]. rewrite Eb, E. split; [done|]. split; [|by constructor].
  cbn [map concat]. rewrite Hc, Hcb, prefixed_cons. unfold prefixed. cbn [map concat]. by rewrite app_nil_r, <- app_assoc.
Qed.

(** The application stream delivers: messages within the cap are chunked
    into non-empty bodies that each fit one Noise message, and however the
    bytes of those chunks are cut again into bodies that fit, pushing them into
    a new reassembler never throws, yields exactly the messages, in order, and
    leaves nothing queued. *)
Theorem stream_delivers (messages bodies : list bytes) :
  Forall under_cap messages -> Forall body_ok bodies ->
  (forall css, omapM chunkAppMessage messages = Ok css -> concat bodies = concat (concat css)) ->
  exists css outs,
    omapM chunkAppMessage messages = Ok css /\
    Forall (Forall (fun b => 0 < blen b <= MAX_STREAM_BODY_LENGTH)) css /\
    (pushes bodies new_reassembler).1 = map Ok outs /\ concat outs = messages /\
    Reassembler.queued (pushes bodies new_reassembler).2 = 0.
Proof.
  intros Hms Hb Hcut. destruct (chunks_ok messages Hms) as (css & Ec & Hc & Hf).
  destruct (stand_for_delivers bodies new_reassembler [] messages) as (outs & H1 & H2 & H3);
    [apply new_stands_for|apply stopped_nil| |done|done|].
  { cbn [app]. rewrite (Hcut css Ec), <- Hc. clear. induction css as [|c css IH]; [done|]. cbn. by rewrite concat_app, IH. }
  exists css, outs. split_and!; try done. by apply drained.
Qed.

Lemma stream_delivers_witness :
  let messages := [ascii_bytes "hello"; []; ascii_bytes "w"] in
  let bodies := [ascii_bytes ""; take 6 (prefixed messages); drop 6 (prefixed messages)] in
  exists css outs,
    omapM chunkAppMessage messages = Ok css /\
    Forall (Forall (fun b => 0 < blen b <= MAX_STREAM_BODY_LENGTH)) css /\
    (pushes bodies new_reassembler).1 = map Ok outs /\ concat outs = messages /\
    Reassembler.queued (pushes bodies new_reassembler).2 = 0.
Proof.
  intros messages bodies. apply (stream_delivers messages bodies).
  - repeat constructor; vm_compute; discriminate.
  - repeat constructor; vm_compute; discriminate.
  - intros css H. vm_compute in H. injection H as <-. vm_compute. reflexivity.
Defined.

(** ** The codec *)

(** UTF-8 decodes what it encodes, of text without unpaired surrogates (which it
    replaces), and the text of JSON, which escapes them, has none. *)
Class HostTextLaws `{T : HostText} : Prop := {
  utf8_round_trip : forall s, isWellFormed s = true -> utf8Decode (utf8Encode s) = Some s;
  json_well_formed : forall v, isWellFormed (json_stringify v) = true }.

Section codec.
  Context `{T : HostText} `{L : !HostTextLaws}.

Definition json_bytes (v : JsValue) : bytes := utf8Encode (json_stringify v).

(** A control value that JSON carries: an object that parses back to itself,
    whose text fits the payload and does not end in a NUL. *)
Record sendable (v : JsValue) : Prop := {
  s_object : is_object v = true;
  s_json : json_parse (json_stringify v) = Some v;
  s_fits : blen (json_bytes v) <= CONTROL_PAYLOAD_SIZE;
  s_last : last (json_bytes v) <> Some (byte.of_Z 0) }.

Definition frame_ok (f : TransportPlaintext) : Prop :=
  match f with
  | PKeepalive => True
  | PControl v => sendable v
  | PStream body => body_ok body
  end.

Lemma byte_at_snoc b x : byte_at (b ++ [x]) (Z.of_nat (length b)) = byte.unsigned x.
Proof. apply (byte_at_app b x [] 0). done. Qed.

Lemma byte_at_app_l b c i : 0 <= i < blen b -> byte_at (b ++ c) i = byte_at b i.
Proof. intros H. unfold byte_at, blen in *. by rewrite lookup_app_l by lia. Qed.

Lemma unpadded_app b c k : (k <= length b)%nat -> unpadded_length (b ++ c) k = unpadded_length b k.
Proof.
  induction k as [|k IH]; intros Hk; [done|]. cbn [unpadded_length].
  rewrite byte_at_app_l, IH by (unfold blen; lia). done.
Qed.

(** The padding is cut off, and nothing else when the text ends in no NUL. *)
Lemma unpadded_length_zeros b n :
  last b <> Some (byte.of_Z 0) ->
  unpadded_length (b ++ replicate n (byte.of_Z 0)) (length b + n) = length b.
Proof.
  intros Hb. induction n as [|n IH].
  - rewrite app_nil_r, Nat.add_0_r. destruct b as [|x b _] using rev_ind; [done|].
    rewrite length_app, Nat.add_1_r. cbn [unpadded_length]. rewrite byte_at_snoc.
    destruct (Z.eqb_spec (byte.unsigned x) 0) as [E|]; [|done]. exfalso. apply Hb. rewrite last_snoc. f_equal.
    by apply byte.unsigned_inj.
  - rewrite Nat.add_succ_r. cbn [unpadded_length].
    assert (E : b ++ replicate (S n) (byte.of_Z 0) = (b ++ replicate n (byte.of_Z 0)) ++ [byte.of_Z 0]).
    { by rewrite replicate_S_end, app_assoc. }
    rewrite E. assert (El : (length b + n = length (b ++ replicate n (byte.of_Z 0)))%nat) by (rewrite length_app, length_replicate; lia).
    rewrite El at 1. rewrite byte_at_snoc. change (byte.unsigned (byte.of_Z 0) =? 0) with true. cbv iota.
    rewrite unpadded_app by lia. exact IH.
Qed.

Lemma control_body_round_trip v :
  sendable v -> exists body, encodeControlBody v = Ok body /\ blen body = CONTROL_PAYLOAD_SIZE /\ decodeControlBody body = Ok v.
Proof.
  intros [Ho Hj Hf Hl]. unfold json_bytes in *. set (json := utf8Encode (json_stringify v)) in *.
  pose proof (blen_nonneg json) as Hn.
  assert (E : encodeControlBody v = Ok (json ++ zeros (CONTROL_PAYLOAD_SIZE - blen json))).
  { unfold encodeControlBody. fold json. destruct (Z.ltb_spec CONTROL_PAYLOAD_SIZE (blen json)) as [|_]; [lia|].
    cbn [throw_if obind]. f_equal.
    replace CONTROL_PAYLOAD_SIZE with (blen json + (CONTROL_PAYLOAD_SIZE - blen json)) at 1 by lia.
    rewrite zeros_add by lia. apply (set_at_here [] (zeros (blen json))); [done|]. apply blen_zeros. lia. }
  eexists. split; [exact E|]. assert (Hlen : blen (json ++ zeros (CONTROL_PAYLOAD_SIZE - blen json)) = CONTROL_PAYLOAD_SIZE).
  { rewrite blen_app, blen_zeros; lia. }
  split; [exact Hlen|]. unfold decodeControlBody. rewrite Hlen, Z.eqb_refl. cbn [negb throw_if obind].
  rewrite length_app. unfold zeros. rewrite length_replicate, (unpadded_length_zeros json _ Hl). cbv zeta.
  assert (Hs : subarray 0 (Z.of_nat (length json)) (json ++ replicate (Z.to_nat (CONTROL_PAYLOAD_SIZE - blen json)) (byte.of_Z 0)) = json).
  { apply (subarray_app [] json); [done|]. unfold blen. cbn. lia. }
  rewrite Hs. unfold json. rewrite utf8_round_trip, Hj, Ho by apply json_well_formed. done.
Qed.

Lemma subarray_tail x b : subarray 1 (blen (x :: b)) (x :: b) = b.
Proof. rewrite <- (app_nil_r b) at 2. apply (subarray_app [x] b []); [done|]. unfold blen. cbn [length]. lia. Qed.

Lemma blen_cons_eqb x b : (blen (x :: b) =? 0) = false.
Proof. apply Z.eqb_neq. unfold blen. cbn [length]. lia. Qed.

Lemma zero_bytes b : existsb (fun x => negb (byte.unsigned x =? 0)) b = false <-> b = replicate (length b) (byte.of_Z 0).
Proof.
  induction b as [|x b IH]; [done|]. cbn [existsb length replicate]. rewrite orb_false_iff, negb_false_iff, Z.eqb_eq, IH. split.
  - intros [Hx Hb]. f_equal; [|done]. by apply byte.unsigned_inj.
  - intros [= Hx Hb]. by rewrite Hx.
Qed.

Lemma kind_at k b : 0 <= k < 256 -> byte_at (byte.of_Z k :: b) 0 = k.
Proof. intros Hk. unfold byte_at. cbn. by apply unsigned_byte. Qed.

Lemma frame_decodes f :
  frame_ok f -> exists p, encodeTransportPlaintext f = Ok p /\
    blen p + NOISE_TAG_LENGTH <= NOISE_MAX_MESSAGE_LENGTH /\ decodeTransportPlaintext p = Ok f.
Proof.
  intros Hf. destruct f as [|v|body]; cbn [frame_ok encodeTransportPlaintext] in *.
  + eexists. split; [reflexivity|]. split; [done|]. reflexivity.
  + destruct (control_body_round_trip v Hf) as (body & E & Hl & Hd). rewrite E. cbn [obind]. eexists.
    split; [reflexivity|]. unfold concatBytes. cbn [concat app]. rewrite app_nil_r. split.
    { change (blen (?x :: body)) with (blen ([x] ++ body)). rewrite blen_app, Hl. done. }
    unfold decodeTransportPlaintext. rewrite subarray_tail, kind_at by done. cbn [Z.eqb].
    rewrite blen_cons_eqb.
    cbn. by rewrite Hd.
  + unfold body_ok in Hf. destruct (Z.ltb_spec MAX_STREAM_BODY_LENGTH (blen body)) as [|_]; [lia|].
    cbn [throw_if obind]. eexists. split; [reflexivity|]. unfold concatBytes. cbn [concat app]. rewrite app_nil_r. split.
    { change (blen (?x :: body)) with (blen ([x] ++ body)). rewrite blen_app.
      unfold MAX_STREAM_BODY_LENGTH in Hf. change (blen [_]) with 1. lia. }
    unfold decodeTransportPlaintext. rewrite subarray_tail, kind_at by done. cbn [Z.eqb].
    rewrite blen_cons_eqb.
    cbn. destruct (Z.ltb_spec MAX_STREAM_BODY_LENGTH (blen body)); [lia|done].
Qed.

Lemma frame_canonical f p :
  decodeTransportPlaintext p = Ok f -> match f with PControl _ => True | _ => encodeTransportPlaintext f = Ok p end.
Proof.
  unfold decodeTransportPlaintext. destruct p as [|x p]; [done|].
  rewrite subarray_tail. destruct (Z.eqb_spec (blen (x :: p)) 0) as [|_]; [done|]. cbn [throw_if obind].
  assert (Hx : byte_at (x :: p) 0 = byte.unsigned x) by done. rewrite Hx.
  destruct (Z.eqb_spec (byte.unsigned x) TRANSPORT_KIND_KEEPALIVE) as [Ek|_].
  { destruct (Z.eqb_spec (blen p) KEEPALIVE_BODY_SIZE) as [Hl|]; [|done]. cbn [negb throw_if obind].
    destruct (existsb _ p) eqn:Ez; [done|]. cbn [throw_if obind]. intros [= <-]. apply zero_bytes in Ez.
    cbn [encodeTransportPlaintext]. f_equal. unfold concatBytes. cbn [concat app]. f_equal; [by apply byte.unsigned_inj|].
    rewrite app_nil_r, Ez. unfold zeros. f_equal. unfold blen in Hl. lia. }
  destruct (Z.eqb_spec (byte.unsigned x) TRANSPORT_KIND_STREAM) as [Ek|_].
  { destruct (Z.ltb_spec MAX_STREAM_BODY_LENGTH (blen p)) as [|Hl]; [done|]. cbn [throw_if obind]. intros [= <-].
    cbn [encodeTransportPlaintext]. destruct (Z.ltb_spec MAX_STREAM_BODY_LENGTH (blen p)); [lia|]. cbn [throw_if obind].
    unfold concatBytes. cbn [concat app]. rewrite app_nil_r. do 2 f_equal. by apply byte.unsigned_inj. }
  destruct (Z.eqb_spec (byte.unsigned x) TRANSPORT_KIND_CONTROL) as [Ek|_]; [|done].
  destruct (decodeControlBody p); [|done]. cbn [obind]. by intros [= <-].
Qed.

(** The codec of transport plaintexts: every frame that may be sent encodes
    to a plaintext that fits one Noise message and decodes to the frame; a
    keepalive or stream plaintext that decodes is the one encoding of its frame. *)
Theorem plaintext_round_trip (f : TransportPlaintext) :
  (frame_ok f -> exists p, encodeTransportPlaintext f = Ok p /\
     blen p + NOISE_TAG_LENGTH <= NOISE_MAX_MESSAGE_LENGTH /\ decodeTransportPlaintext p = Ok f) /\
  (forall p, decodeTransportPlaintext p = Ok f ->
     match f with PControl _ => True | _ => encodeTransportPlaintext f = Ok p end).
Proof. split; [apply frame_decodes|apply frame_canonical]. Qed.

Lemma e2ePrologue_inj (k1 k2 : PrologueKind) (id1 id2 : string) (fields1 fields2 : list string) :
  Forall (fun s => isWellFormed s = true /\ blen (utf8Encode s) < 2 ^ 32) (id1 :: id2 :: fields1 ++ fields2) ->
  e2ePrologue k1 id1 fields1 = e2ePrologue k2 id2 fields2 ->
  blen (utf8Encode E2E_PROLOGUE_DOMAIN) < 2 ^ 32 ->
  (forall k, isWellFormed (kind_name k) = true /\ blen (utf8Encode (kind_name k)) < 2 ^ 32) ->
  k1 = k2 /\ id1 = id2 /\ fields1 = fields2.
Proof.
  rewrite !Forall_cons, Forall_app. intros ([W1 H1] & [W2 H2] & F1 & F2) E Hd Hk. unfold e2ePrologue in E.
  assert (Hinj : forall s t, isWellFormed s = true -> isWellFormed t = true -> utf8Encode s = utf8Encode t -> s = t).
  { intros s t Hs Ht Est. apply (f_equal utf8Decode) in Est. rewrite !utf8_round_trip in Est by done. by injection Est. }
  assert (Hf : forall l, Forall (fun s => isWellFormed s = true /\ blen (utf8Encode s) < 2 ^ 32) l ->
    Forall (fun p => blen p < 2 ^ 32) (map utf8Encode l)).
  { intros l Hl. apply Forall_fmap. eapply Forall_impl; [exact Hl|]. by intros s []. }
  rewrite !lengthPrefixedConcat_eq in E by (repeat (constructor; [first [done|apply Hk]|]); by apply Hf).
  apply prefixed_inj in E; [|repeat (constructor; [first [done|apply Hk]|]); by apply Hf..].
  injection E as Ek Eid Ef. apply Hinj in Ek, Eid; [|done || apply Hk..].
  split_and!; [by destruct k1, k2|done|].
  clear -Ef Hinj F1 F2. revert fields2 Ef F2. induction F1 as [|s l [Ws _] F1 IH]; intros [|s' l'] Ef F2; try done.
  cbn [map] in Ef. injection Ef as Es El. apply Forall_cons in F2 as [[Ws' _] F2]. f_equal; [by apply Hinj|by apply IH].
Qed.

(** A prologue binds its ceremony: whatever text without unpaired surrogates the
    fields hold (each under 4 GiB), ceremonies that differ in kind, in the
    [burrowId] or room, or in any field or their order have different
    prologues.  (UTF-8 replaces every unpaired surrogate alike.) *)
Theorem prologue_binds (k1 k2 : PrologueKind) (id1 id2 : string) (fields1 fields2 : list string) :
  Forall (fun s => isWellFormed s = true /\ blen (utf8Encode s) < 2 ^ 32)
    (E2E_PROLOGUE_DOMAIN :: map kind_name [KConnection; KPairing; KOneTime] ++ id1 :: id2 :: fields1 ++ fields2) ->
  (k1, id1, fields1) <> (k2, id2, fields2) ->
  e2ePrologue k1 id1 fields1 <> e2ePrologue k2 id2 fields2.
Proof.
  cbn [map app]. rewrite !Forall_cons. intros ([_ Hd] & Hc & Hp & Ho & Hf) Hne E. apply Hne.
  apply e2ePrologue_inj in E as (-> & -> & ->); [done|by rewrite !Forall_cons|done|by intros []].
Qed.

End codec.

(** ** A host for the samples *)

(** Latin-1 for UTF-8, and objects with one text field for JSON. *)
#[export] Instance toy_text : HostText := {|
  isWellFormed _ := true;
  utf8Encode := ascii_bytes;
  utf8Decode b := Some (ascii_text b);
  json_stringify v := match v with JObject [(_, JString text)] => text +:+ "}" | _ => "" end;
  json_parse s := Some (JObject [("op", JString (String.substring 0 (String.length s - 1) s))]) |}.

Lemma ascii_text_bytes s : ascii_text (ascii_bytes s) = s.
Proof.
  unfold ascii_text.
  rewrite <- (String.string_of_list_ascii_of_string s) at 2. f_equal.
  unfold ascii_bytes, units. rewrite !map_map. rewrite <- (map_id (String.list_ascii_of_string s)) at 2.
  apply map_ext. intros c. pose proof (N_ascii_bounded c). rewrite unsigned_byte by lia.
  by rewrite N2Z.id, ascii_N_embedding.
Qed.

#[export] Instance toy_text_laws : HostTextLaws (T:=toy_text).
Proof. constructor; [|done]. intros s _. cbn [utf8Decode utf8Encode toy_text]. by rewrite ascii_text_bytes. Qed.

Definition toy_value : JsValue := JObject [("op", JString "ping")].

Lemma toy_sendable : sendable toy_value.
Proof. split; vm_compute; done. Qed.

Lemma plaintext_round_trip_witness :
  (exists p, encodeTransportPlaintext (PControl toy_value) = Ok p /\
     blen p + NOISE_TAG_LENGTH <= NOISE_MAX_MESSAGE_LENGTH /\
     decodeTransportPlaintext p = Ok (PControl toy_value)) /\
  encodeTransportPlaintext (PStream [byte.of_Z 5]) = Ok [byte.of_Z 1; byte.of_Z 5].
Proof.
  split.
  - apply (proj1 (plaintext_round_trip (PControl toy_value))). apply toy_sendable.
  - apply (proj2 (plaintext_round_trip (PStream [byte.of_Z 5])) [byte.of_Z 1; byte.of_Z 5]). reflexivity.
Defined.

Lemma prologue_binds_witness :
  e2ePrologue (T:=toy_text) KPairing "ab" ["c"; "d"] <> e2ePrologue (T:=toy_text) KPairing "a" ["bc"; "d"].
Proof.
  apply (prologue_binds (T:=toy_text) KPairing KPairing "ab" "a" ["c"; "d"] ["bc"; "d"]).
  - repeat constructor; vm_compute; reflexivity.
  - discriminate.
Defined.
