(* ===== verification/TransportSessions.v ===== *)
(** * Sessions end to end

    What one established session sends its peer receives, whole and in order;
    and the first failure of a session is its last. *)
From Stdlib Require Import ZArith Lia.
From coqutil Require Import Byte.
From S2P Require Import Prelude JsValue Bytes Noise NoiseHandshake NoiseSpec Transport TransportFacts TransportSpec.
#[local] Open Scope Z_scope.

(** What a caller asks a session to send. *)
Inductive Sending :=
  | SKeepalive
  | SControl (value : JsValue)
  | SApp (message : bytes).

Section sessions.
  Context `{C : NoiseCrypto} `{T : HostText}.
  Implicit Types t a b : NoiseTransportSession.

(** The ciphertexts of one call. *)
Definition send_one (s : Sending) : Session.M (list bytes) := fun t =>
  match s with
  | SKeepalive => match Session.sendKeepalive t with (Ok c, t') => (Ok [c], t') | (Throw e, t') => (Throw e, t') end
  | SControl v => match Session.sendControl v t with (Ok c, t') => (Ok [c], t') | (Throw e, t') => (Throw e, t') end
  | SApp m => Session.sendApp m t
  end.

(** A sequence of calls up to the first that throws. *)
Fixpoint run_calls {A B} (f : A -> Session.M B) (l : list A) : Session.M (list B) := fun t =>
  match l with
  | [] => (Ok [], t)
  | x :: l =>
      match f x t with
      | (Throw e, t') => (Throw e, t')
      | (Ok y, t') => match run_calls f l t' with (Ok ys, t'') => (Ok (y :: ys), t'') | (Throw e, t'') => (Throw e, t'') end
      end
  end.

Definition send_all : list Sending -> Session.M (list (list bytes)) := run_calls send_one.
Definition receive_all : list bytes -> Session.M (list TransportReceipt) := run_calls Session.receive.

(** What a receipt hands its caller. *)
Definition delivered (r : TransportReceipt) : list Sending :=
  match r with RKeepalive => [SKeepalive] | RControl v => [SControl v] | RApp ms => map SApp ms end.

Definition sending_ok (s : Sending) : Prop :=
  match s with SKeepalive => True | SControl v => sendable v | SApp m => under_cap m end.

(** The most Noise messages one call makes: a 1 MiB message and its length. *)
Definition MAX_FRAMES : Z := 17.

Lemma run_calls_app {A B} (f : A -> Session.M B) l1 l2 t ys t1 :
  run_calls f l1 t = (Ok ys, t1) ->
  run_calls f (l1 ++ l2) t =
    match run_calls f l2 t1 with (Ok zs, t2) => (Ok (ys ++ zs), t2) | (Throw e, t2) => (Throw e, t2) end.
Proof.
  revert t ys. induction l1 as [|x l1 IH]; intros t ys; cbn [run_calls app].
  - intros [= <- <-]. by destruct (run_calls f l2 t) as [[]].
  - destruct (f x t) as [[y|] t']; [|done]. destruct (run_calls f l1 t') as [[ys'|] t''] eqn:E; [|done].
    intros [= <- <-]. rewrite (IH t' ys' E). by destruct (run_calls f l2 t'') as [[]].
Qed.

Lemma guarded_live {A} (f : Session.M A) t x t' :
  t_poison t = None -> f t = (Ok x, t') -> Session.guarded f t = (Ok x, t').
Proof. intros H E. unfold Session.guarded, Session.requireLive. by rewrite H, E. Qed.

End sessions.

Section delivery.
  Context `{C : NoiseCrypto} (public : PrivateKey -> bytes) `{!NoiseCryptoLaws public} `{T : HostText} `{!HostTextLaws}.
  Implicit Types t a b : NoiseTransportSession.

(** A live sender and a live receiver whose ciphers agree. *)
Record linked (key : bytes) (n : Z) (a b : NoiseTransportSession) : Prop := {
  l_send : t_send a = mkCipher (Some key) n;
  l_receive : t_receive b = mkCipher (Some key) n;
  l_live_a : t_poison a = None;
  l_live_b : t_poison b = None }.

Definition next_send key n a := Session.with_send (mkCipher (Some key) (n + 1)) a.
Definition next_receive key n b := Session.with_receive (mkCipher (Some key) (n + 1)) b.

Lemma linked_next key n a b r :
  linked key n a b -> linked key (n + 1) (next_send key n a) (Session.with_reassembler r (next_receive key n b)).
Proof. by intros []. Qed.

(** One frame crosses. *)
Lemma frame_crosses key n a b f p :
  linked key n a b -> 0 <= n < RESERVED_NONCE -> encodeTransportPlaintext f = Ok p ->
  blen p + NOISE_TAG_LENGTH <= NOISE_MAX_MESSAGE_LENGTH ->
  exists c, Session.encrypt f a = (Ok c, next_send key n a) /\ Session.encrypt_plaintext p a = (Ok c, next_send key n a) /\
    decryptWithAd EMPTY c (t_receive b) = Ok (p, mkCipher (Some key) (n + 1)) /\ blen c <= NOISE_MAX_MESSAGE_LENGTH.
Proof.
  intros [Hs Hr _ _] Hn Hp Hlen. exists (seal key (zeros 4 ++ LittleEndianList.le_split 8 n) EMPTY p).
  assert (E : Session.encrypt_plaintext p a = (Ok (seal key (zeros 4 ++ LittleEndianList.le_split 8 n) EMPTY p), next_send key n a)).
  { unfold Session.encrypt_plaintext, encryptWithAd, requireMaxMessageLength. rewrite Hs. cbn [cipher_key nonce].
    destruct (Z.ltb_spec NOISE_MAX_MESSAGE_LENGTH (blen p + NOISE_TAG_LENGTH)); [lia|]. cbn [throw_if obind].
    by rewrite noiseNonceBytes_ok. }
  split; [|split; [exact E|]].
  - unfold Session.encrypt. by rewrite Hp.
  - rewrite Hr. unfold decryptWithAd, requireMaxMessageLength. rewrite seal_length.
    destruct (Z.ltb_spec NOISE_MAX_MESSAGE_LENGTH (blen p + NOISE_TAG_LENGTH)); [lia|]. cbn [throw_if obind cipher_key nonce].
    rewrite noiseNonceBytes_ok by done. cbn [obind]. by rewrite unseal_seal.
Qed.

(** A stream body crosses and is pushed. *)
Lemma body_crosses key n a b body ms r :
  linked key n a b -> 0 <= n < RESERVED_NONCE -> body_ok body ->
  Reassembler.push body (t_reassembler b) = (Ok ms, r) ->
  exists c, Session.encrypt (PStream body) a = (Ok c, next_send key n a) /\
    Session.receive c b = (Ok (RApp ms), Session.with_reassembler r (next_receive key n b)) /\
    blen c <= NOISE_MAX_MESSAGE_LENGTH.
Proof.
  intros Hl Hn Hb Hp. destruct (frame_decodes (PStream body) Hb) as (p & E & Hlen & Hd).
  destruct (frame_crosses key n a b _ p Hl Hn E Hlen) as (c & Hc & _ & Hdec & Hcl).
  exists c. split; [exact Hc|]. split; [|exact Hcl]. apply guarded_live; [apply Hl|].
  unfold Session.receive_frame. rewrite Hdec, Hd. cbn [t_reassembler Session.with_receive]. by rewrite Hp.
Qed.

Lemma bodies_cross key n a b bodies outs :
  linked key n a b -> 0 <= n -> n + Z.of_nat (length bodies) <= RESERVED_NONCE -> Forall body_ok bodies ->
  (pushes bodies (t_reassembler b)).1 = map Ok outs ->
  exists cs a' b',
    Session.encrypt_all bodies a = (Ok cs, a') /\ receive_all cs b = (Ok (map RApp outs), b') /\
    linked key (n + Z.of_nat (length bodies)) a' b' /\ t_reassembler b' = (pushes bodies (t_reassembler b)).2 /\
    Forall (fun c => blen c <= NOISE_MAX_MESSAGE_LENGTH) cs.
Proof.
  revert n a b outs. induction bodies as [|body bodies IH]; intros n a b outs Hl Hn Hm Hb Hp.
  { destruct outs; [|done]. exists [], a, b. cbn. by rewrite Z.add_0_r. }
  destruct outs as [|ms outs]; [done|]. cbn [pushes fst snd map] in Hp. injection Hp as Hp1 Hp2.
  apply Forall_cons in Hb as [Hb Hbs]. cbn [length] in Hm. rewrite Nat2Z.inj_succ in Hm.
  destruct (Reassembler.push body (t_reassembler b)) as [o r] eqn:Ep. cbn [fst snd] in Hp1, Hp2. subst o.
  destruct (body_crosses key n a b body ms r Hl ltac:(lia) Hb Ep) as (c & Hc & Hr & Hcl).
  destruct (IH (n + 1) _ _ outs (linked_next key n a b r Hl) ltac:(lia) ltac:(lia) Hbs Hp2)
    as (cs & a' & b' & H1 & H2 & H3 & H4 & H5).
  exists (c :: cs), a', b'. cbn [Session.encrypt_all]. rewrite Hc, H1. split; [done|].
  unfold receive_all in *. cbn [run_calls map]. rewrite Hr, H2. split; [done|].
  cbn [length pushes snd]. rewrite Ep. cbn [snd]. rewrite Nat2Z.inj_succ.
  replace (n + Z.succ (Z.of_nat (length bodies))) with (n + 1 + Z.of_nat (length bodies)) by lia.
  split_and!; try done. by constructor.
Qed.

Lemma chunk_count m bodies :
  under_cap m -> chunkAppMessage m = Ok bodies -> Z.of_nat (length bodies) <= MAX_FRAMES.
Proof.
  unfold under_cap, chunkAppMessage. intros Hm. destruct (Z.ltb_spec MAX_APP_MESSAGE_LENGTH (blen m)); [lia|].
  cbn [throw_if obind]. set (framed := set_at _ _ m). intros E.
  assert (bodies = chunk_from (chunk_fuel framed) framed 0) as -> by congruence. clear E.
  assert (Hlen : blen framed = APP_LENGTH_PREFIX_SIZE + blen m).
  { unfold framed, writeUint32BE, put. rewrite blen_set_at. unfold blen at 1. rewrite !length_insert, length_zeros.
    pose proof (blen_nonneg m). unfold APP_LENGTH_PREFIX_SIZE. lia. }
  assert (Hf : forall fuel off, (length (chunk_from fuel framed off) <= fuel)%nat).
  { induction fuel as [|fuel IH]; intros off; cbn [chunk_from]; [done|]. destruct (off <? blen framed); cbn [length]; [|lia].
    specialize (IH (off + MAX_STREAM_BODY_LENGTH)). lia. }
  apply Z.le_trans with (Z.of_nat (chunk_fuel framed)); [specialize (Hf (chunk_fuel framed) 0); lia|]. unfold chunk_fuel, MAX_FRAMES. rewrite Hlen.
  assert ((APP_LENGTH_PREFIX_SIZE + blen m) / MAX_STREAM_BODY_LENGTH < 17); [|lia].
  apply Z.div_lt_upper_bound; [done|]. unfold MAX_APP_MESSAGE_LENGTH in Hm.
  change MAX_STREAM_BODY_LENGTH with 65518. change APP_LENGTH_PREFIX_SIZE with 4. lia.
Qed.

Lemma control_crosses key n a b v :
  linked key n a b -> 0 <= n < RESERVED_NONCE -> sendable v ->
  exists c, Session.sendControl v a = (Ok c, next_send key n a) /\
    Session.receive c b = (Ok (RControl v), next_receive key n b) /\ blen c <= NOISE_MAX_MESSAGE_LENGTH.
Proof.
  intros Hl Hn Hv. destruct (frame_decodes (PControl v) Hv) as (p & E & Hlen & Hd).
  destruct (frame_crosses key n a b _ p Hl Hn E Hlen) as (c & _ & Hc & Hdec & Hcl). destruct Hl as [_ _ Ha Hb].
  exists c. split; [|split; [|exact Hcl]].
  - unfold Session.sendControl, Session.requireLive. rewrite Ha, E. by apply guarded_live.
  - apply guarded_live; [done|]. unfold Session.receive_frame. by rewrite Hdec, Hd.
Qed.

Lemma keepalive_crosses key n a b :
  linked key n a b -> 0 <= n < RESERVED_NONCE ->
  exists c, Session.sendKeepalive a = (Ok c, next_send key n a) /\
    Session.receive c b = (Ok RKeepalive, next_receive key n b) /\ blen c <= NOISE_MAX_MESSAGE_LENGTH.
Proof.
  intros Hl Hn. destruct (frame_decodes PKeepalive I) as (p & E & Hlen & Hd).
  destruct (frame_crosses key n a b _ p Hl Hn E Hlen) as (c & Hc & _ & Hdec & Hcl). destruct Hl as [_ _ Ha Hb].
  exists c. split; [by apply guarded_live|]. split; [|exact Hcl].
  apply guarded_live; [done|]. unfold Session.receive_frame. by rewrite Hdec, Hd.
Qed.

(** One call crosses: the peer is handed exactly what was sent. *)
Lemma sending_crosses key n a b s :
  linked key n a b -> stands_for (t_reassembler b) (Some []) -> sending_ok s ->
  0 <= n -> n + MAX_FRAMES <= RESERVED_NONCE ->
  exists cs a' rs b' n',
    send_one s a = (Ok cs, a') /\ receive_all cs b = (Ok rs, b') /\ concat (map delivered rs) = [s] /\
    linked key n' a' b' /\ n <= n' <= n + MAX_FRAMES /\ stands_for (t_reassembler b') (Some []) /\
    Forall (fun c => blen c <= NOISE_MAX_MESSAGE_LENGTH) cs.
Proof.
  intros Hl Hr Hs Hn Hm. assert (Hn1 : 0 <= n < RESERVED_NONCE) by (unfold MAX_FRAMES in Hm; lia).
  destruct s as [|v|m]; cbn [sending_ok send_one] in *.
  - destruct (keepalive_crosses key n a b Hl Hn1) as (c & Hc & Hrc & Hcl). rewrite Hc.
    exists [c], (next_send key n a), [RKeepalive], (next_receive key n b), (n + 1).
    unfold receive_all. cbn [run_calls]. rewrite Hrc. split_and!; try done; [by destruct Hl|lia|unfold MAX_FRAMES; lia|].
    by repeat constructor.
  - destruct (control_crosses key n a b v Hl Hn1 Hs) as (c & Hc & Hrc & Hcl). rewrite Hc.
    exists [c], (next_send key n a), [RControl v], (next_receive key n b), (n + 1).
    unfold receive_all. cbn [run_calls]. rewrite Hrc. split_and!; try done; [by destruct Hl|lia|unfold MAX_FRAMES; lia|].
    by repeat constructor.
  - destruct (chunkAppMessage_ok m Hs) as (bodies & Eb & Hc & Hf).
    pose proof (chunk_count m bodies Hs Eb) as Hcount.
    assert (Hb : Forall body_ok bodies) by (eapply Forall_impl; [exact Hf|]; unfold body_ok; cbn; lia).
    destruct (stand_for_delivers bodies _ [] [m] Hr stopped_nil Hc ltac:(by constructor) Hb) as (outs & Hp & Ho & Hd).
    destruct (bodies_cross key n a b bodies outs Hl Hn ltac:(lia) Hb Hp) as (cs & a' & b' & H1 & H2 & H3 & H4 & H5).
    exists cs, a', (map RApp outs), b', (n + Z.of_nat (length bodies)). split.
    { unfold Session.sendApp, Session.requireLive. rewrite (l_live_a _ _ _ _ Hl), Eb. apply guarded_live; [apply Hl|done]. }
    split_and!; try done; try lia; [|by rewrite H4].
    rewrite map_map. change (map _ outs) with (map (map SApp) outs). rewrite <- concat_map, Ho. done.
Qed.

Lemma sendings_cross key n a b l :
  linked key n a b -> stands_for (t_reassembler b) (Some []) -> Forall sending_ok l ->
  0 <= n -> n + MAX_FRAMES * Z.of_nat (length l) <= RESERVED_NONCE ->
  exists css a' rs b' n',
    send_all l a = (Ok css, a') /\ receive_all (concat css) b = (Ok rs, b') /\ concat (map delivered rs) = l /\
    linked key n' a' b' /\ Forall (fun c => blen c <= NOISE_MAX_MESSAGE_LENGTH) (concat css).
Proof.
  revert n a b. induction l as [|s l IH]; intros n a b Hl Hr Hs Hn Hm; [by exists [], a, [], b, n|].
  apply Forall_cons in Hs as [Hs Hls]. cbn [length] in Hm. rewrite Nat2Z.inj_succ in Hm. unfold MAX_FRAMES in Hm.
  destruct (sending_crosses key n a b s Hl Hr Hs Hn) as (cs & a1 & rs & b1 & n1 & H1 & H2 & H3 & H4 & H5 & H6 & H7);
    [unfold MAX_FRAMES; lia|].
  destruct (IH n1 a1 b1 H4 H6 Hls) as (css & a' & rs' & b' & n' & I1 & I2 & I3 & I4 & I5);
    [lia|unfold MAX_FRAMES in *; lia|].
  exists (cs :: css), a', (rs ++ rs'), b', n'. unfold send_all, receive_all in *. cbn [run_calls concat].
  rewrite H1, I1, (run_calls_app _ _ _ _ _ _ H2), I2, map_app, concat_app, H3, I3.
  split_and!; try done. by apply Forall_app.
Qed.

(** C9. End to end: of two sessions whose opposite ciphers agree, as a completed
    handshake leaves them, everything one side sends (keepalives, control
    values, application messages of any permitted size) is sent without an
    error in ciphertexts that each fit one Noise message; received in order,
    they hand the peer exactly those values and messages in that order, with
    both sessions live and their ciphers in step. *)
Theorem session_delivers (sa sb : NoiseSession) (key : bytes) (n : Z) (l : list Sending) :
  send sa = receive sb -> send sa = mkCipher (Some key) n -> 0 <= n ->
  n + MAX_FRAMES * Z.of_nat (length l) <= RESERVED_NONCE -> Forall sending_ok l ->
  exists css a' rs b',
    send_all l (Session.new_session sa) = (Ok css, a') /\
    receive_all (concat css) (Session.new_session sb) = (Ok rs, b') /\
    concat (map delivered rs) = l /\
    Forall (fun c => blen c <= NOISE_MAX_MESSAGE_LENGTH) (concat css) /\
    Session.isPoisoned a' = false /\ Session.isPoisoned b' = false /\ t_send a' = t_receive b'.
Proof.
  intros Hab Hk Hn Hm Hl.
  destruct (sendings_cross key n (Session.new_session sa) (Session.new_session sb) l)
    as (css & a' & rs & b' & n' & H1 & H2 & H3 & [L1 L2 L3 L4] & H5); try done.
  { split; cbn; try done. by rewrite <- Hab. }
  exists css, a', rs, b'. unfold Session.isPoisoned. rewrite L1, L2, L3, L4. by split_and!.
Qed.

End delivery.

Lemma session_delivers_witness :
  let cipher k := mkCipher (Some (replicate 32 (byte.of_Z k))) 0 in
  let l := [SApp (ascii_bytes "hello"); SKeepalive; SControl toy_value; SApp []] in
  exists css a' rs b',
    send_all (C:=toy_crypto) l (Session.new_session (mkSession (cipher 1) (cipher 2) [])) = (Ok css, a') /\
    receive_all (C:=toy_crypto) (concat css) (Session.new_session (mkSession (cipher 2) (cipher 1) [])) = (Ok rs, b') /\
    concat (map delivered rs) = l /\
    Forall (fun c => blen c <= NOISE_MAX_MESSAGE_LENGTH) (concat css) /\
    Session.isPoisoned a' = false /\ Session.isPoisoned b' = false /\ t_send a' = t_receive b'.
Proof.
  intros cipher l.
  apply (session_delivers (C:=toy_crypto) toy_public (mkSession (cipher 1) (cipher 2) [])
    (mkSession (cipher 2) (cipher 1) []) (replicate 32 (byte.of_Z 1)) 0 l); try reflexivity.
  - vm_compute. discriminate.
  - repeat constructor; vm_compute; done.
Defined.

(** ** The first failure *)

(** Any call on a session. *)
Inductive Call := CSend (s : Sending) | CReceive (ciphertext : bytes).

Section failure.
  Context `{C : NoiseCrypto} `{T : HostText}.
  Implicit Types t : NoiseTransportSession.

Definition call (c : Call) (t : NoiseTransportSession) : outcome (list bytes + TransportReceipt) * NoiseTransportSession :=
  match c with
  | CSend s => match send_one s t with (Ok cs, t') => (Ok (inl cs), t') | (Throw e, t') => (Throw e, t') end
  | CReceive x => match Session.receive x t with (Ok r, t') => (Ok (inr r), t') | (Throw e, t') => (Throw e, t') end
  end.

(** The answers of a history of calls, whatever each answered. *)
Fixpoint history (cs : list Call) t : list (outcome (list bytes + TransportReceipt)) * NoiseTransportSession :=
  match cs with
  | [] => ([], t)
  | c :: cs => let p := call c t in let ps := history cs p.2 in (p.1 :: ps.1, ps.2)
  end.

(** A value or message too big for its framing. *)
Definition oversize (c : Call) : bool :=
  match c with
  | CSend (SControl v) => CONTROL_PAYLOAD_SIZE <? blen (json_bytes v)
  | CSend (SApp m) => MAX_APP_MESSAGE_LENGTH <? blen m
  | _ => false
  end.

(** A computation that leaves the poison alone. *)
Definition calm {A} (f : Session.M A) : Prop := forall t, t_poison (f t).2 = t_poison t.

Lemma encrypt_calm p : calm (Session.encrypt_plaintext p).
Proof. intros t. unfold Session.encrypt_plaintext. by destruct (encryptWithAd EMPTY p (t_send t)) as [[]|]. Qed.

Lemma encrypt_frame_calm f : calm (Session.encrypt f).
Proof.
  intros t. unfold Session.encrypt. destruct (encodeTransportPlaintext f); [apply encrypt_calm|done].
Qed.

Lemma encrypt_all_calm bodies : calm (Session.encrypt_all bodies).
Proof.
  induction bodies as [|b bodies IH]; intros t; [done|]. cbn [Session.encrypt_all].
  pose proof (encrypt_frame_calm (PStream b) t) as H.
  destruct (Session.encrypt (PStream b) t) as [[c|e] t']; [|exact H]. cbn [snd] in H. rewrite <- H, <- (IH t').
  by destruct (Session.encrypt_all bodies t') as [[]].
Qed.

Lemma receive_frame_calm x : calm (Session.receive_frame x).
Proof.
  intros t. unfold Session.receive_frame. destruct (decryptWithAd EMPTY x (t_receive t)) as [[p c]|]; [|done].
  destruct (decodeTransportPlaintext p) as [[]|]; try done. cbn [t_reassembler Session.with_receive].
  by destruct (Reassembler.push body (t_reassembler t)) as [[]].
Qed.

(** A guarded call fails exactly when it poisons. *)
Lemma guarded_spec {A} (f : Session.M A) t :
  calm f -> t_poison t = None ->
  is_ok (Session.guarded f t).1 = negb (Session.isPoisoned (Session.guarded f t).2).
Proof.
  intros Hc H. specialize (Hc t). unfold Session.guarded, Session.requireLive, Session.isPoisoned. rewrite H in *.
  destruct (f t) as [[a|e] t']; cbn [fst snd is_ok Session.poisoned t_poison] in *; [by rewrite Hc|done].
Qed.

Lemma guarded_dead {A} (f : Session.M A) t why :
  t_poison t = Some why -> Session.guarded f t = (Throw (NoiseErr ("session is destroyed: " +:+ why)), t).
Proof. intros H. unfold Session.guarded, Session.requireLive. by rewrite H. Qed.

Lemma call_dead c t why :
  t_poison t = Some why -> call c t = (Throw (NoiseErr ("session is destroyed: " +:+ why)), t).
Proof.
  intros H. destruct c as [[|v|m]|x]; cbn [call send_one].
  - unfold Session.sendKeepalive. by rewrite (guarded_dead _ _ _ H).
  - unfold Session.sendControl, Session.requireLive. by rewrite H.
  - unfold Session.sendApp, Session.requireLive. by rewrite H.
  - unfold Session.receive. by rewrite (guarded_dead _ _ _ H).
Qed.

Lemma call_oversize c t :
  t_poison t = None -> oversize c = true -> exists why, call c t = (Throw (NoiseErr why), t).
Proof.
  intros H Hc. destruct c as [[|v|m]|x]; try done; cbn [call send_one oversize] in *.
  - unfold Session.sendControl, Session.requireLive. rewrite H. cbn [encodeTransportPlaintext].
    unfold encodeControlBody. fold (json_bytes v). rewrite Hc. by eexists.
  - unfold Session.sendApp, Session.requireLive. rewrite H. unfold chunkAppMessage. rewrite Hc. by eexists.
Qed.

Lemma call_live c t :
  t_poison t = None -> oversize c = false -> is_ok (call c t).1 = negb (Session.isPoisoned (call c t).2).
Proof.
  assert (Hg : forall A B (f : Session.M A) (g : A -> B), calm f -> t_poison t = None ->
    forall o t', (match Session.guarded f t with (Ok a, t') => (Ok (g a), t') | (Throw e, t') => (Throw e, t') end) = (o, t') ->
    is_ok o = negb (Session.isPoisoned t')).
  { intros A B f g Hf Ht o t'. pose proof (guarded_spec f t Hf Ht) as E. destruct (Session.guarded f t) as [[a|e] t1];
      intros [= <- <-]; exact E. }
  intros H Hc. destruct (call c t) as [o t'] eqn:E. cbn [fst snd].
  destruct c as [[|v|m]|x]; cbn [call send_one oversize] in *.
  - apply (Hg _ _ _ (fun c => inl [c]) (encrypt_frame_calm PKeepalive) H). rewrite <- E. unfold Session.sendKeepalive.
    by destruct (Session.guarded (Session.encrypt PKeepalive) t) as [[]].
  - unfold Session.sendControl, Session.requireLive in E. rewrite H in E. cbn [encodeTransportPlaintext] in E.
    unfold encodeControlBody in E. fold (json_bytes v) in E. rewrite Hc in E. cbn [throw_if obind] in E.
    match type of E with context [Session.encrypt_plaintext ?p] => set (plaintext := p) in E end.
    apply (Hg _ _ _ (fun c => inl [c]) (encrypt_calm plaintext) H). rewrite <- E.
    by destruct (Session.guarded (Session.encrypt_plaintext plaintext) t) as [[]].
  - unfold Session.sendApp, Session.requireLive in E. rewrite H in E. unfold chunkAppMessage in E. rewrite Hc in E.
    cbn [throw_if obind] in E. eapply (Hg _ _ _ inl); [apply encrypt_all_calm|exact H|exact E].
  - eapply (Hg _ _ _ inr); [apply (receive_frame_calm x)|exact H|exact E].
Qed.

Lemma history_dead cs t why :
  t_poison t = Some why ->
  history cs t = (replicate (length cs) (Throw (NoiseErr ("session is destroyed: " +:+ why))), t).
Proof.
  intros H. induction cs as [|c cs IH]; [done|]. cbn [history length replicate].
  rewrite (call_dead c t why H). cbn [fst snd]. by rewrite IH.
Qed.

(** C36. The first failure of a session is its last: a call on a live session
    either is refused for its size, which throws and changes nothing, or throws
    exactly when it poisons the session; and once poisoned every later call, of
    any kind, throws the same error and leaves the whole session as it was. *)
Theorem first_failure_is_last (c : Call) (later : list Call) (t : NoiseTransportSession) :
  let t' := (call c t).2 in
  (t_poison t = None ->
     if oversize c then exists why, call c t = (Throw (NoiseErr why), t)
     else is_ok (call c t).1 = negb (Session.isPoisoned t')) /\
  (Session.isPoisoned t' = true ->
     exists e, history later t' = (replicate (length later) (Throw (NoiseErr e)), t')).
Proof.
  intros t'. split.
  - intros H. destruct (oversize c) eqn:Hc; [by apply call_oversize|by apply call_live].
  - unfold Session.isPoisoned. rewrite bool_decide_eq_true. intros [why Hw]. eexists. by apply history_dead.
Qed.

End failure.
