(* ===== verification/PresenceWindow.v ===== *)
(** * Presence windows and the token bucket (remote-lib-common/src/security/presence-window.ts, token-bucket.ts)

    The two bounds on what a Client may ask.  The Burrow's memory of the presence proofs it verified, keyed by the Client
    static, with the clock as an argument of the calls that read it. *)
From Stdlib Require Import ZArith Lia.
From stdpp Require Import sorting.
From S2P Require Import Prelude JsValue.
#[local] Open Scope Z_scope.

(** security/e2e-bounds.ts. *)
Definition PRESENCE_WINDOW_IDLE_MS : Z := 300000.
Definition PRESENCE_WINDOW_MAX_MS : Z := 12 * 60 * 60 * 1000.

Record PresenceWindowRecord := mkPresence {
  accountId : string; passkeyCredentialId : string; passkeyPublicKeyHash : string }.

Record PresenceWindowEntry := mkEntry {
  entry_record : PresenceWindowRecord; provedAt : Z; activeAt : Z }.

(** [#entries]: a Map, oldest key first. *)
Definition PresenceWindows : Type := list (string * PresenceWindowEntry).

Module Windows.

(** [#sweepCapped]. *)
Definition sweepCapped (now : Z) (w : PresenceWindows) : PresenceWindows :=
  filter (fun e => now - provedAt e.2 < PRESENCE_WINDOW_MAX_MS) w.

Definition seed (now : Z) (key : string) (record : PresenceWindowRecord) (at_ : Z) (w : PresenceWindows) : PresenceWindows :=
  omap_set key (mkEntry record at_ at_) (sweepCapped now w).

Definition noteActivity (key : string) (at_ : Z) (w : PresenceWindows) : PresenceWindows :=
  match omap_get key w with
  | None => w
  | Some entry => if at_ <=? activeAt entry then w else omap_set key (mkEntry (entry_record entry) (provedAt entry) at_) w
  end.

Definition is_open (now : Z) (entry : PresenceWindowEntry) : bool :=
  (now - activeAt entry <? PRESENCE_WINDOW_IDLE_MS) && (now - provedAt entry <? PRESENCE_WINDOW_MAX_MS).

Definition open (now : Z) (key : string) (w : PresenceWindows) : option PresenceWindowEntry * PresenceWindows :=
  match omap_get key w with
  | None => (None, w)
  | Some entry => if is_open now entry then (Some entry, w) else (None, omap_delete key w)
  end.

Definition clear (w : PresenceWindows) : PresenceWindows := [].
Definition forget (key : string) (w : PresenceWindows) : PresenceWindows := omap_delete key w.
Definition size (w : PresenceWindows) : nat := length w.

End Windows.

(** ** Histories *)

Inductive WindowCall :=
  | WSeed (key : string) (record : PresenceWindowRecord) (at_ : Z)
  | WNote (key : string) (at_ : Z)
  | WOpen (key : string)
  | WClear
  | WForget (key : string).

(** A call at a clock reading; the answer is that of [open]. *)
Definition window_call (c : Z * WindowCall) (w : PresenceWindows) : option PresenceWindowEntry * PresenceWindows :=
  match c.2 with
  | WSeed k r t => (None, Windows.seed c.1 k r t w)
  | WNote k t => (None, Windows.noteActivity k t w)
  | WOpen k => Windows.open c.1 k w
  | WClear => (None, Windows.clear w)
  | WForget k => (None, Windows.forget k w)
  end.

Definition window_after (cs : list (Z * WindowCall)) : PresenceWindows := foldl (fun w c => (window_call c w).2) [] cs.

(** What one key's window is after a history, were nothing ever swept: the last
    proof, with the activity folded in since. *)
Definition key_call (key : string) (e : option PresenceWindowEntry) (c : Z * WindowCall) : option PresenceWindowEntry :=
  match c.2 with
  | WSeed k r t => if decide (k = key) then Some (mkEntry r t t) else e
  | WNote k t =>
      if decide (k = key) then
        match e with
        | Some x => Some (mkEntry (entry_record x) (provedAt x) (Z.max (activeAt x) t))
        | None => None
        end
      else e
  | WOpen k =>
      if decide (k = key) then match e with Some x => if Windows.is_open c.1 x then e else None | None => None end else e
  | WClear => None
  | WForget k => if decide (k = key) then None else e
  end.

Definition key_after (key : string) (cs : list (Z * WindowCall)) : option PresenceWindowEntry :=
  foldl (key_call key) None cs.

(** A key the table no longer holds has, at most, an entry past its cap. *)
Definition agrees (now : Z) (key : string) (w : PresenceWindows) (e : option PresenceWindowEntry) : Prop :=
  omap_get key w = e \/
  omap_get key w = None /\ exists x, e = Some x /\ PRESENCE_WINDOW_MAX_MS <= now - provedAt x.

Lemma omap_get_filter (P : string * PresenceWindowEntry -> Prop) `{forall e, Decision (P e)} key w :
  NoDup (map fst w) ->
  omap_get key (filter P w) =
    match omap_get key w with Some e => if decide (P (key, e)) then Some e else None | None => None end.
Proof.
  induction w as [|[k e] w IH]; intros Hnd; [done|]. cbn [map fst] in Hnd. apply NoDup_cons in Hnd as [Hk Hnd].
  rewrite filter_cons. cbn [omap_get]. destruct (decide (k = key)) as [->|Hne].
  - destruct (decide (P (key, e))); cbn [omap_get]; [by rewrite decide_True|]. rewrite (IH Hnd).
    destruct (omap_get key w) eqn:E; [|done]. exfalso. apply Hk. apply omap_get_is_Some. by rewrite E.
  - destruct (decide (P (k, e))); cbn [omap_get]; rewrite ?(decide_False _ _ Hne); by apply IH.
Qed.

Lemma filter_NoDup_keys (P : string * PresenceWindowEntry -> Prop) `{forall e, Decision (P e)} w :
  NoDup (map fst w) -> NoDup (map fst (filter P w)).
Proof.
  induction w as [|[k e] w IH]; [done|]. cbn [map fst]. rewrite NoDup_cons. intros [Hk Hw]. rewrite filter_cons.
  destruct (decide (P (k, e))); [|by apply IH]. cbn [map fst]. apply NoDup_cons. split; [|by apply IH].
  intros ([k' e'] & -> & Hin%list_elem_of_filter)%list_elem_of_fmap. apply Hk. apply list_elem_of_fmap. exists (k', e'). by destruct Hin.
Qed.

Lemma window_NoDup cs : NoDup (map fst (window_after cs)).
Proof.
  unfold window_after. assert (G : forall w, NoDup (map fst w) -> NoDup (map fst (foldl (fun w c => (window_call c w).2) w cs))).
  { induction cs as [|[now c] cs IH]; intros w Hw; [done|]. cbn [foldl]. apply IH.
    destruct c as [k r t|k t|k| |k]; cbn [window_call fst snd].
    - by apply omap_set_NoDup, filter_NoDup_keys.
    - unfold Windows.noteActivity. destruct (omap_get k w); [|done]. destruct (_ <=? _); [done|]. by apply omap_set_NoDup.
    - unfold Windows.open. destruct (omap_get k w) as [e|]; [|done].
      destruct (Windows.is_open now e); [done|]. by apply omap_delete_NoDup.
    - apply NoDup_nil_2.
    - by apply omap_delete_NoDup. }
  apply G, NoDup_nil_2.
Qed.

(** One call, seen from one key: the call on that key, with the sweep. *)
Lemma window_call_get key now c w :
  NoDup (map fst w) ->
  omap_get key (window_call (now, c) w).2 = key_call key (omap_get key w) (now, c) \/
  omap_get key (window_call (now, c) w).2 = None /\
  exists x, omap_get key w = Some x /\ key_call key (Some x) (now, c) = Some x /\ PRESENCE_WINDOW_MAX_MS <= now - provedAt x.
Proof.
  intros Hw. unfold window_call, key_call. destruct c as [k r t|k t|k| |k]; cbn [fst snd].
  - unfold Windows.seed. case_decide as Hk; [subst; left; by rewrite omap_get_set_eq|].
    rewrite omap_get_set_ne by done. unfold Windows.sweepCapped. rewrite omap_get_filter by done.
    destruct (omap_get key w) as [x|]; [|by left]. cbn [snd].
    destruct (decide (now - provedAt x < PRESENCE_WINDOW_MAX_MS)); [by left|]. right. split; [done|]. exists x. split_and!; [done|done|lia].
  - left. unfold Windows.noteActivity. case_decide as Hk; [subst k|].
    + destruct (omap_get key w) as [x|] eqn:E; [|done]. destruct (Z.leb_spec t (activeAt x)).
      * rewrite E, Z.max_l by done. by destruct x.
      * rewrite omap_get_set_eq, Z.max_r by lia. done.
    + destruct (omap_get k w); [|done]. destruct (_ <=? _); [done|]. by rewrite omap_get_set_ne.
  - left. unfold Windows.open. case_decide as Hk; [subst k|].
    + destruct (omap_get key w) as [x|] eqn:E; [|done].
      destruct (Windows.is_open now x); [done|]. cbn [snd]. by rewrite omap_get_delete_eq.
    + destruct (omap_get k w) as [x|]; [|done]. destruct (Windows.is_open now x); [done|]. cbn [snd].
      by rewrite omap_get_delete_ne.
  - by left.
  - left. unfold Windows.forget. case_decide as Hk; [subst; by rewrite omap_get_delete_eq|by rewrite omap_get_delete_ne].
Qed.

Definition open_of (now : Z) (e : option PresenceWindowEntry) : option PresenceWindowEntry :=
  match e with Some x => if Windows.is_open now x then Some x else None | None => None end.

Lemma open_answer now key w : (Windows.open now key w).1 = open_of now (omap_get key w).
Proof. unfold Windows.open, open_of. destruct (omap_get key w) as [x|]; [|done]. by destruct (Windows.is_open now x). Qed.

(** A capped entry never opens and keeps its proof, or is replaced or dropped. *)
Lemma capped_call key x now c :
  PRESENCE_WINDOW_MAX_MS <= now - provedAt x ->
  key_call key (Some x) (now, c) = key_call key None (now, c) \/
  exists x', key_call key (Some x) (now, c) = Some x' /\ provedAt x' = provedAt x /\ key_call key None (now, c) = None.
Proof.
  intros Hx. unfold key_call. destruct c as [k r t|k t|k| |k]; cbn [fst snd]; try (by left).
  - case_decide; [by left|]. right. by exists x.
  - case_decide; right; eexists; by split_and!.
  - case_decide; [|right; by exists x]. unfold Windows.is_open.
    destruct (Z.ltb_spec (now - provedAt x) PRESENCE_WINDOW_MAX_MS); [lia|]. rewrite andb_false_r. by left.
  - case_decide; [by left|]. right. by exists x.
Qed.

Lemma agrees_call key now c w e :
  NoDup (map fst w) -> agrees now key w e -> agrees now key (window_call (now, c) w).2 (key_call key e (now, c)).
Proof.
  intros Hw [He|(Hn & x & -> & Hx)].
  - subst e. destruct (window_call_get key now c w Hw) as [H|(H & x & Hx & Hc & Hm)]; [by left|].
    right. split; [done|]. exists x. by rewrite Hx.
  - destruct (window_call_get key now c w Hw) as [H|(_ & y & Hy & _)]; [|congruence]. rewrite Hn in H.
    destruct (capped_call key x now c Hx) as [E|(x' & E & Ep & En)]; [left; congruence|].
    right. split; [congruence|]. exists x'. split; [done|]. by rewrite Ep.
Qed.

Lemma agrees_later now now' key w e : now <= now' -> agrees now key w e -> agrees now' key w e.
Proof. intros Hle [H|(H & x & Hx & Hm)]; [by left|]. right. split; [done|]. exists x. split; [done|lia]. Qed.

Lemma agrees_open now key w e : agrees now key w e -> open_of now (omap_get key w) = open_of now e.
Proof.
  intros [->|(-> & x & -> & Hx)]; [done|]. cbn. unfold Windows.is_open.
  destruct (Z.ltb_spec (now - provedAt x) PRESENCE_WINDOW_MAX_MS); [lia|]. by rewrite andb_false_r.
Qed.

Lemma agrees_after key cs now :
  StronglySorted Z.le (map fst cs) -> Forall (fun c => c.1 <= now) cs -> agrees now key (window_after cs) (key_after key cs).
Proof.
  revert now. induction cs as [|[t c] cs IH] using rev_ind; intros now Hs Hf; [by left|].
  rewrite map_app in Hs. apply Forall_app in Hf as [_ Ht]. apply Forall_cons in Ht as [Ht _]. cbn [fst] in Ht.
  unfold window_after, key_after. rewrite !foldl_snoc. fold (window_after cs). fold (key_after key cs).
  apply (agrees_later t); [done|]. apply agrees_call; [apply window_NoDup|]. apply IH.
  - by eapply StronglySorted_app_1_l.
  - apply Forall_forall. intros x Hx. apply (StronglySorted_app_1_elem_of _ _ _ x.1 t Hs); [|by left]. by apply (list_elem_of_fmap_2 fst).
Qed.

(** Under a clock that never goes back, a Client's window is its own: after
    any history of seeds, activity, questions and revocations of any keys, the
    window of a key is open exactly when the record kept for that key alone is,
    so neither the sweep of capped entries nor another Client's calls can open,
    close or change it. *)
Theorem window_independent (key : string) (cs : list (Z * WindowCall)) (now : Z) :
  StronglySorted Z.le (map fst cs) -> Forall (fun c => c.1 <= now) cs ->
  (Windows.open now key (window_after cs)).1 = open_of now (key_after key cs).
Proof. intros Hs Hf. rewrite open_answer. by apply agrees_open, agrees_after. Qed.

(** The calls that replace or drop a key's entry, and the activity noted for it. *)
Definition resets (key : string) (c : Z * WindowCall) : bool :=
  match c.2 with WSeed k _ _ | WForget k => bool_decide (k = key) | WClear => true | _ => false end.

Definition noted (key : string) (cs : list (Z * WindowCall)) : list Z :=
  omap (fun c => match c.2 with WNote k t => if decide (k = key) then Some t else None | _ => None end) cs.

Definition backed (key : string) (cs : list (Z * WindowCall)) (x : PresenceWindowEntry) : Prop :=
  exists pre t post,
    cs = pre ++ (t, WSeed key (entry_record x) (provedAt x)) :: post /\
    Forall (fun c => resets key c = false) post /\ activeAt x = foldl Z.max (provedAt x) (noted key post).

Lemma backed_snoc key cs c x :
  backed key cs x -> resets key c = false ->
  backed key (cs ++ [c]) (mkEntry (entry_record x) (provedAt x) (foldl Z.max (activeAt x) (noted key [c]))).
Proof.
  intros (pre & t & post & -> & Hf & Ha) Hc. exists pre, t, (post ++ [c]). cbn [entry_record provedAt activeAt].
  split; [by rewrite <- app_assoc|]. split; [by apply Forall_app; split; [|constructor]|].
  unfold noted in *. by rewrite omap_app, foldl_app, <- Ha.
Qed.

Lemma window_backed key cs x : omap_get key (window_after cs) = Some x -> backed key cs x.
Proof.
  revert x. induction cs as [|[now c] cs IH] using rev_ind; intros x; [done|].
  unfold window_after. rewrite foldl_snoc. fold (window_after cs). intros Hx.
  destruct (window_call_get key now c _ (window_NoDup cs)) as [E|(E & _)]; [|congruence]. rewrite E in Hx. clear E.
  assert (Hkeep : forall y, omap_get key (window_after cs) = Some y -> resets key (now, c) = false ->
    x = mkEntry (entry_record y) (provedAt y) (foldl Z.max (activeAt y) (noted key [(now, c)])) -> backed key (cs ++ [(now, c)]) x).
  { intros y Hy Hr ->. apply backed_snoc; [by apply IH|done]. }
  unfold key_call in Hx. unfold resets, noted in Hkeep. destruct c as [k r t|k t|k| |k]; cbn [fst snd omap list_omap] in Hx, Hkeep.
  - case_decide as Hk; [subst; injection Hx as <-; by exists cs, now, []|]. eapply Hkeep; [exact Hx|by apply bool_decide_eq_false|by destruct x].
  - case_decide as Hk; [|eapply Hkeep; [exact Hx|done|by destruct x]].
    destruct (omap_get key (window_after cs)) as [y|]; [|done]. injection Hx as <-. by apply (Hkeep y).
  - apply (Hkeep x); [|done|by destruct x]. case_decide; [|exact Hx].
    destruct (omap_get key (window_after cs)) as [y|]; [|done]. by destruct (Windows.is_open now y).
  - done.
  - case_decide as Hk; [done|]. eapply Hkeep; [exact Hx|by apply bool_decide_eq_false|by destruct x].
Qed.

(** An open window is always backed by a proof, whatever the clock does: it
    names the identities and the time of the last proof the Burrow verified for
    that key, which nothing has revoked since; its activity is the latest noted
    after that proof; and neither bound has run out. *)
Theorem window_backed_by_proof (key : string) (cs : list (Z * WindowCall)) (now : Z) (x : PresenceWindowEntry) :
  (Windows.open now key (window_after cs)).1 = Some x ->
  backed key cs x /\ now - provedAt x < PRESENCE_WINDOW_MAX_MS /\ now - activeAt x < PRESENCE_WINDOW_IDLE_MS.
Proof.
  rewrite open_answer. unfold open_of. destruct (omap_get key (window_after cs)) as [y|] eqn:E; [|done].
  unfold Windows.is_open. destruct (_ && _) eqn:Ho; [|done]. intros [= ->]. split; [by apply window_backed|lia].
Qed.

Lemma window_independent_witness :
  let r := mkPresence "a" "b" "c" in
  let cs := [(0, WSeed "k" r 0); (5, WSeed "j" r 5); (200000, WNote "k" 200000); (400000, WOpen "j")] in
  (Windows.open 450000 "k" (window_after cs)).1 = open_of 450000 (key_after "k" cs).
Proof.
  intros r cs. apply (window_independent "k" cs 450000).
  - repeat constructor; vm_compute; discriminate.
  - repeat constructor; vm_compute; discriminate.
Defined.

Lemma window_backed_by_proof_witness :
  let r := mkPresence "a" "b" "c" in
  let x := mkEntry r 0 200000 in
  let cs := [(0, WSeed "k" r 0); (200000, WNote "k" 200000)] in
  backed "k" cs x /\ 450000 - provedAt x < PRESENCE_WINDOW_MAX_MS /\ 450000 - activeAt x < PRESENCE_WINDOW_IDLE_MS.
Proof. intros r x cs. apply (window_backed_by_proof "k" cs 450000 x). vm_compute. reflexivity. Defined.

(** ** The token bucket (remote-lib-common/src/security/token-bucket.ts)

    The bucket with its clock as an argument of each call, the bound on the
    calls it lets through in any window, and the wait it answers.  Times and
    counts are the integers [Date.now] and safe integers are; the quotient of
    two of them is far enough from the next integer for [Math.floor] to be
    exact. *)

Record TokenBucket := mkBucket {
  capacity : Z; refillIntervalMs : Z; tokens : Z; lastRefillAt : Z }.

(** [Number.isSafeInteger] of an integer. *)
Definition is_safe_integer (z : Z) : bool := Z.abs z <=? 2 ^ 53 - 1.

(** The constructor; [now] is what the clock answers. *)
Definition new_bucket (cap interval now : Z) : outcome TokenBucket :=
  let! _ := throw_if (negb (is_safe_integer cap) || (cap <? 1))
    (OtherErr "token bucket capacity must be a positive safe integer") in
  let! _ := throw_if (negb (is_safe_integer interval) || (interval <? 1))
    (OtherErr "token bucket refill interval must be a positive safe integer") in
  Ok (mkBucket cap interval cap now).

(** [take]: [None] for a token spent, else the wait; [now] is the clock's answer. *)
Definition take_token (now : Z) (b : TokenBucket) : option Z * TokenBucket :=
  let elapsed := Z.max 0 (now - lastRefillAt b) in
  let refill := elapsed / refillIntervalMs b in
  let b1 :=
    if 0 <? refill then
      mkBucket (capacity b) (refillIntervalMs b) (Z.min (capacity b) (tokens b + refill))
        (lastRefillAt b + refill * refillIntervalMs b)
    else b in
  if 0 <? tokens b1
  then (None, mkBucket (capacity b1) (refillIntervalMs b1) (tokens b1 - 1) (lastRefillAt b1))
  else (Some (Z.max 1 (refillIntervalMs b - elapsed)), b1).

(** The answers at a sequence of clock readings, in any order. *)
Fixpoint take_tokens (times : list Z) (b : TokenBucket) : list (option Z) * TokenBucket :=
  match times with
  | [] => ([], b)
  | now :: times => let p := take_token now b in let ps := take_tokens times p.2 in (p.1 :: ps.1, ps.2)
  end.

Definition spent (answers : list (option Z)) : Z := Z.of_nat (length (filter (fun o => o = None) answers)).

Record bucket_ok (cap interval : Z) (b : TokenBucket) : Prop := {
  bo_capacity : capacity b = cap;
  bo_interval : refillIntervalMs b = interval;
  bo_positive : 1 <= interval /\ 1 <= cap;
  bo_tokens : 0 <= tokens b <= cap }.

Lemma new_bucket_ok cap interval now b :
  new_bucket cap interval now = Ok b -> bucket_ok cap interval b /\ lastRefillAt b = now /\ tokens b = cap.
Proof.
  unfold new_bucket. destruct (_ || (cap <? 1)) eqn:Hc; [done|]. destruct (_ || (interval <? 1)) eqn:Hi; [done|].
  intros [= <-]. split; [split; cbn; lia|done].
Qed.

(** One call: what it refills and spends is paid for by the time it consumes. *)
Lemma take_token_step cap interval now b o b' :
  bucket_ok cap interval b -> take_token now b = (o, b') ->
  bucket_ok cap interval b' /\ lastRefillAt b <= lastRefillAt b' <= Z.max (lastRefillAt b) now /\
  now - interval < lastRefillAt b' /\
  (spent [o] + tokens b') * interval + lastRefillAt b <= tokens b * interval + lastRefillAt b' /\
  spent [o] + tokens b' <= cap.
Proof.
  intros [Hc Hi [Hp Hcap] Ht]. unfold take_token. rewrite Hc, Hi. set (e := Z.max 0 (now - lastRefillAt b)).
  pose proof (Z.div_mod e interval ltac:(lia)) as Hdm. pose proof (Z.mod_pos_bound e interval ltac:(lia)) as Hm.
  set (q := e / interval) in *. assert (0 <= q) by (apply Z.div_pos; lia).
  destruct (Z.ltb_spec 0 q) as [Hq|Hq]; cbn [tokens capacity refillIntervalMs lastRefillAt].
  - destruct (Z.ltb_spec 0 (Z.min cap (tokens b + q))) as [Hs|Hs]; intros [= <- <-]; cbn; [|lia].
    change (spent [None]) with 1. split; [split; cbn; lia|]. split_and!; nia.
  - assert (q = 0) as -> by lia.
    destruct (Z.ltb_spec 0 (tokens b)) as [Hs|Hs]; intros [= <- <-]; cbn [tokens capacity refillIntervalMs lastRefillAt].
    + change (spent [None]) with 1. split; [by split; cbn; lia|]. split_and!; nia.
    + change (spent [Some _]) with 0. split; [by split|]. split_and!; nia.
Qed.

Lemma spent_cons o answers : spent (o :: answers) = spent [o] + spent answers.
Proof. unfold spent. rewrite !filter_cons, filter_nil. destruct (decide (o = None)); cbn [length]; lia. Qed.

Lemma take_tokens_ok cap interval times b :
  bucket_ok cap interval b -> bucket_ok cap interval (take_tokens times b).2.
Proof.
  revert b. induction times as [|now times IH]; intros b Hb; [done|]. cbn [take_tokens snd]. apply IH.
  destruct (take_token now b) as [o b'] eqn:E. by apply (take_token_step _ _ _ _ _ _ Hb E).
Qed.

Lemma take_tokens_step cap interval times b hi :
  bucket_ok cap interval b -> Forall (fun t => t <= hi) times ->
  let p := take_tokens times b in
  bucket_ok cap interval p.2 /\ lastRefillAt b <= lastRefillAt p.2 <= Z.max (lastRefillAt b) hi /\
  (spent p.1 + tokens p.2) * interval + lastRefillAt b <= tokens b * interval + lastRefillAt p.2.
Proof.
  intros Hb Hf. revert b Hb. induction Hf as [|now times Hn Hf IH]; intros b Hb; cbn [take_tokens fst snd].
  { change (spent []) with 0. split; [done|]. lia. }
  destruct (take_token now b) as [o b'] eqn:E. cbn [fst snd].
  destruct (take_token_step _ _ _ _ _ _ Hb E) as (Hb' & Hl & _ & Hpay & _).
  destruct (IH b' Hb') as (H1 & H2 & H3). split; [done|]. rewrite spent_cons. split; [lia|].
  rewrite Z.mul_add_distr_r in *. lia.
Qed.

(** The bucket bounds the calls it lets through: after any history of calls,
    whatever the clock read (rewinding or jumping), the calls that succeed among
    any later ones whose clock readings all lie in a window are at most the
    capacity and one more for each refill interval the window begins. *)
Theorem bucket_rate (cap interval now lo hi : Z) (before times : list Z) (b : TokenBucket) :
  new_bucket cap interval now = Ok b -> lo <= hi -> Forall (fun t => lo <= t <= hi) times ->
  spent (take_tokens times (take_tokens before b).2).1 <= cap + (hi - lo + interval - 1) / interval.
Proof.
  intros Hn Hlh Hf. apply new_bucket_ok in Hn as (Hb & _ & _).
  apply (take_tokens_ok _ _ before) in Hb. revert Hb. generalize (take_tokens before b).2. clear b. intros b Hb.
  pose proof (bo_positive _ _ _ Hb) as [Hp Hc]. pose proof (Z.div_pos (hi - lo + interval - 1) interval ltac:(lia) ltac:(lia)).
  destruct Hf as [|now1 times Hn1 Hf]; [change (spent _) with 0; lia|]. cbn [take_tokens fst].
  destruct (take_token now1 b) as [o b1] eqn:E. cbn [fst snd].
  destruct (take_token_step _ _ _ _ _ _ Hb E) as (Hb1 & _ & Hl & _ & Ht1).
  destruct (take_tokens_step cap interval times b1 hi Hb1) as (Hb2 & Hl2 & Hpay).
  { eapply Forall_impl; [exact Hf|]. cbn. lia. }
  pose proof (bo_tokens _ _ _ Hb2). rewrite spent_cons.
  set (n := spent (take_tokens times b1).1) in *. apply Z.sub_le_mono_r with (p := cap).
  rewrite Z.add_simpl_l. apply Z.div_le_lower_bound; [lia|]. nia.
Qed.

Lemma bucket_rate_witness :
  exists b, new_bucket 3 10 100 = Ok b /\
    spent (take_tokens [205; 206; 215; 214; 216; 220; 225] (take_tokens [100; 50; 101] b).2).1 <= 3 + (225 - 205 + 10 - 1) / 10.
Proof.
  eexists. split; [reflexivity|].
  apply (bucket_rate 3 10 100 205 225 [100; 50; 101] [205; 206; 215; 214; 216; 220; 225]); [reflexivity|lia|].
  repeat constructor; lia.
Defined.

(** The wait [take] answers is exact: when the clock has not been set back
    behind the last refill, a refused call changes nothing, answers a wait of at
    least one millisecond and at most an interval, and a repeated call is refused
    at every earlier reading and succeeds when the wait is over. *)
Theorem wait_exact (cap interval start now wait : Z) (before : list Z) (b : TokenBucket) :
  new_bucket cap interval start = Ok b ->
  let b1 := (take_tokens before b).2 in
  lastRefillAt b1 <= now -> (take_token now b1).1 = Some wait ->
  (take_token now b1).2 = b1 /\ 1 <= wait <= interval /\
  (take_token (now + wait) b1).1 = None /\
  (forall earlier, earlier < now + wait -> is_Some (take_token earlier b1).1).
Proof.
  intros Hn b1. apply new_bucket_ok in Hn as (Hb & _ & _). apply (take_tokens_ok _ _ before) in Hb. fold b1 in Hb.
  generalize dependent b1. clear b. intros b [Hc Hi [Hp Hcap] Ht] Hl. unfold take_token. rewrite Hc, Hi.
  rewrite (Z.max_r 0 (now - lastRefillAt b)) by lia. set (e := now - lastRefillAt b).
  destruct (Z.ltb_spec 0 (e / interval)) as [Hq|Hq]; cbn [tokens capacity refillIntervalMs lastRefillAt].
  { destruct (Z.ltb_spec 0 (Z.min cap (tokens b + e / interval))); [done|lia]. }
  assert (Hlt : e < interval).
  { destruct (Z.lt_ge_cases e interval); [done|]. assert (1 <= e / interval) by (apply Z.div_le_lower_bound; lia). lia. }
  destruct (Z.ltb_spec 0 (tokens b)) as [|Hs]; [done|]. cbn [fst snd]. intros [= <-].
  assert (He0 : 0 <= e) by (unfold e; lia). rewrite Z.max_r by lia. split; [done|]. split; [lia|]. split.
  - rewrite (Z.max_r 0) by (unfold e; lia). replace (now + (interval - e) - lastRefillAt b) with interval by (unfold e; lia).
    rewrite Z.div_same by lia. cbn [Z.ltb Z.compare tokens]. destruct (Z.ltb_spec 0 (Z.min cap (tokens b + 1))); [done|lia].
  - intros earlier He. rewrite (Z.div_small (Z.max 0 (earlier - lastRefillAt b))) by (unfold e in *; lia). cbn [Z.ltb Z.compare].
    destruct (Z.ltb_spec 0 (tokens b)); [lia|done].
Qed.

Lemma wait_exact_witness :
  exists b, new_bucket 1 10 100 = Ok b /\
    let b1 := (take_tokens [104] b).2 in
    (take_token 107 b1).2 = b1 /\ 1 <= 3 <= 10 /\ (take_token (107 + 3) b1).1 = None /\
    (forall earlier, earlier < 107 + 3 -> is_Some (take_token earlier b1).1).
Proof.
  eexists. split; [reflexivity|].
  apply (wait_exact 1 10 100 107 3 [104]); [reflexivity|vm_compute; discriminate|reflexivity].
Defined.
