(* ===== verification/Acl.v ===== *)
(** * The Burrow's access list (remote-lib-common/src/security/acl.ts)

    The records of approved Clients, the calls that add and revoke them, and
    the lookup a connection is authorized by; then the theorems about histories
    of calls.  A record object never leaves the list (every call returns
    copies), so the list is a plain value; the clock's answer is an argument of
    each call that reads it. *)
From Stdlib Require Import ZArith.
From S2P Require Import Prelude JsValue Bytes Noise.
#[local] Open Scope string_scope.
#[local] Open Scope list_scope.

Module Acl.

(** [CLIENT_STATIC_PUBLIC_KEY_LENGTH] and [DELIVERY_ID_LENGTH]. *)
Definition CLIENT_STATIC_PUBLIC_KEY_LENGTH : Z := base64UrlLength NOISE_KEY_LENGTH.
Definition DELIVERY_ID_BYTE_LENGTH : Z := 32.
Definition DELIVERY_ID_LENGTH : Z := base64UrlLength DELIVERY_ID_BYTE_LENGTH.

(** Everything the pairing ceremony supplies. *)
Record ApprovedClient := mkClient {
  accountId : string;
  passkeyCredentialId : string;
  passkeyPublicKeyHash : string;
  clientStaticPublicKey : string;
  deliveryId : string;
  approvedBy : string;
  label : string }.

(** [BurrowAclRecord]: [{...client, burrowId, approvedAt, revokedAt}]. *)
Record BurrowAclRecord := mkRecord {
  client : ApprovedClient;
  burrowId : string;
  approvedAt : Z;
  revokedAt : option Z }.

(** The structural check of a record off disk. *)
Definition isBurrowAclRecord (record : JsValue) : bool :=
  let str name := match js_field name record with JString _ => true | _ => false end in
  let num name := match js_field name record with JNumber _ => true | _ => false end in
  match record with
  | JObject _ =>
      str "burrowId" && str "accountId" && str "passkeyCredentialId" && str "passkeyPublicKeyHash" &&
      isExactBase64Url (js_field "clientStaticPublicKey" record) CLIENT_STATIC_PUBLIC_KEY_LENGTH &&
      isExactBase64Url (js_field "deliveryId" record) DELIVERY_ID_LENGTH &&
      num "approvedAt" && str "approvedBy" && str "label" &&
      (match js_field "revokedAt" record with JNull => true | _ => false end || num "revokedAt")
  | _ => false
  end.

Inductive AclAuthorizationMiss := PasskeyNotPaired | ClientNotPaired | PairingMismatch.

(** The single matching record, or the reasons there is none. *)
Inductive AclAuthorization :=
  | Authorized (record : BurrowAclRecord)
  | Missed (reasons : list AclAuthorizationMiss).

Record BurrowAcl := mkAcl { acl_burrowId : string; acl_records : list BurrowAclRecord }.

Definition new_acl (id : string) : BurrowAcl := mkAcl id [].

(** The loop of [fromRecords], from the records already taken. *)
Fixpoint load_records (id : string) (taken rs : list BurrowAclRecord) : outcome BurrowAcl :=
  match rs with
  | [] => Ok (mkAcl id taken)
  | r :: rs =>
      let! _ := throw_if (negb (burrowId r =s? id))
        (OtherErr ("ACL record for burrow " +:+ burrowId r +:+ " cannot be loaded into " +:+ id)) in
      load_records id (taken ++ [r]) rs
  end.

Definition fromRecords (id : string) (rs : list BurrowAclRecord) : outcome BurrowAcl := load_records id [] rs.

Definition is_active (r : BurrowAclRecord) : bool := match revokedAt r with None => true | Some _ => false end.

(** The test of [#findActive]. *)
Definition is_active_pair (passkey key : string) (r : BurrowAclRecord) : bool :=
  is_active r && (passkeyCredentialId (client r) =s? passkey) && (clientStaticPublicKey (client r) =s? key).

(** [record.revokedAt = now]. *)
Definition revoke_at (now : Z) (r : BurrowAclRecord) : BurrowAclRecord :=
  mkRecord (client r) (burrowId r) (approvedAt r) (Some now).

(** [approve]; a known pair's record is revoked in place before the new one goes last. *)
Definition approve (now : Z) (c : ApprovedClient) (acl : BurrowAcl) : BurrowAclRecord * BurrowAcl :=
  let rs := acl_records acl in
  let rs1 :=
    match find_index (is_active_pair (passkeyCredentialId c) (clientStaticPublicKey c)) rs with
    | Some i => alter (revoke_at now) i rs
    | None => rs
    end in
  let record := mkRecord c (acl_burrowId acl) now None in
  (record, mkAcl (acl_burrowId acl) (rs1 ++ [record])).

Definition records (acl : BurrowAcl) : list BurrowAclRecord := acl_records acl.

Definition activeRecords (acl : BurrowAcl) : list BurrowAclRecord := List.filter is_active (acl_records acl).

(** [findActive] and [#findActive]. *)
Definition findActive (passkey key : string) (acl : BurrowAcl) : option BurrowAclRecord :=
  List.find (is_active_pair passkey key) (acl_records acl).

Definition hasActivePasskey (passkey : string) (acl : BurrowAcl) : bool :=
  existsb (fun r => is_active r && (passkeyCredentialId (client r) =s? passkey)) (acl_records acl).

Definition hasActiveClient (key : string) (acl : BurrowAcl) : bool :=
  existsb (fun r => is_active r && (clientStaticPublicKey (client r) =s? key)) (acl_records acl).

Definition authorize (passkey key : string) (acl : BurrowAcl) : AclAuthorization :=
  match findActive passkey key acl with
  | Some found => Authorized found
  | None =>
      let passkeyPaired := hasActivePasskey passkey acl in
      let clientPaired := hasActiveClient key acl in
      Missed ((if negb passkeyPaired then [PasskeyNotPaired] else []) ++
              (if negb clientPaired then [ClientNotPaired] else []) ++
              (if passkeyPaired && clientPaired then [PairingMismatch] else []))
  end.

(** The loop of [#revokeMatching]: the count and the records. *)
Fixpoint revoke_loop (now : Z) (matches : BurrowAclRecord -> bool) (rs : list BurrowAclRecord) : Z * list BurrowAclRecord :=
  match rs with
  | [] => (0%Z, [])
  | r :: rs =>
      let cr := revoke_loop now matches rs in
      if is_active r && matches r then ((cr.1 + 1)%Z, revoke_at now r :: cr.2) else (cr.1, r :: cr.2)
  end.

Definition revokeMatching (now : Z) (matches : BurrowAclRecord -> bool) (acl : BurrowAcl) : Z * BurrowAcl :=
  let cr := revoke_loop now matches (acl_records acl) in (cr.1, mkAcl (acl_burrowId acl) cr.2).

(** Revoke every active record of a Client static, or of a passkey. *)
Definition revokeClient (now : Z) (key : string) : BurrowAcl -> Z * BurrowAcl :=
  revokeMatching now (fun r => clientStaticPublicKey (client r) =s? key).

Definition revokePasskey (now : Z) (passkey : string) : BurrowAcl -> Z * BurrowAcl :=
  revokeMatching now (fun r => passkeyCredentialId (client r) =s? passkey).

(** ** Histories *)

(** The calls that change the list; a restart is [fromRecords] of what [records] persisted. *)
Inductive AclOp :=
  | OApprove (now : Z) (c : ApprovedClient)
  | ORevokeClient (now : Z) (key : string)
  | ORevokePasskey (now : Z) (passkey : string)
  | ORestart.

Definition run_op (op : AclOp) (acl : BurrowAcl) : outcome BurrowAcl :=
  match op with
  | OApprove now c => Ok (approve now c acl).2
  | ORevokeClient now key => Ok (revokeClient now key acl).2
  | ORevokePasskey now passkey => Ok (revokePasskey now passkey acl).2
  | ORestart => fromRecords (acl_burrowId acl) (records acl)
  end.

Fixpoint run_acl (ops : list AclOp) (acl : BurrowAcl) : outcome BurrowAcl :=
  match ops with
  | [] => Ok acl
  | op :: ops => let! acl' := run_op op acl in run_acl ops acl'
  end.

(** The calls after which the pair's authorization may differ. *)
Definition touches (passkey key : string) (op : AclOp) : bool :=
  match op with
  | OApprove _ c => (passkeyCredentialId c =s? passkey) && (clientStaticPublicKey c =s? key)
  | ORevokeClient _ k => k =s? key
  | ORevokePasskey _ p => p =s? passkey
  | ORestart => false
  end.

(** The pair was approved, as [r] says, and no later call touched it. *)
Definition granted (id passkey key : string) (ops : list AclOp) (r : BurrowAclRecord) : Prop :=
  exists ops1 now c ops2, ops = ops1 ++ OApprove now c :: ops2 /\
    touches passkey key (OApprove now c) = true /\ Forall (fun op => touches passkey key op = false) ops2 /\
    r = mkRecord c id now None.

(** What is kept of a record from one moment to any later one. *)
Definition keeps (r r' : BurrowAclRecord) : Prop :=
  client r' = client r /\ burrowId r' = burrowId r /\ approvedAt r' = approvedAt r /\
  (is_active r = false -> revokedAt r' = revokedAt r).

(** The approvals of a history, in order. *)
Definition approvals (ops : list AclOp) : list (ApprovedClient * Z) :=
  omap (fun op => match op with OApprove now c => Some (c, now) | _ => None end) ops.

(** Records of this Burrow, with at most one active per pair. *)
Record acl_ok (acl : BurrowAcl) : Prop := {
  ok_burrow : Forall (fun r => burrowId r = acl_burrowId acl) (acl_records acl);
  ok_single : forall p k, (length (List.filter (is_active_pair p k) (acl_records acl)) <= 1)%nat }.

Lemma find_filter {A} (f : A -> bool) l : List.find f l = head (List.filter f l).
Proof. induction l as [|x l IH]; [done|]. cbn. by destruct (f x). Qed.

Lemma existsb_filter {A} (f : A -> bool) l : existsb f l = negb (length (List.filter f l) =? 0)%nat.
Proof. induction l as [|x l IH]; [done|]. cbn. by destruct (f x). Qed.

Lemma is_active_pair_revoked p k now r : is_active_pair p k (revoke_at now r) = false.
Proof. done. Qed.

Lemma revoke_loop_filter now m p k rs :
  List.filter (is_active_pair p k) (revoke_loop now m rs).2 = List.filter (fun r => is_active_pair p k r && negb (m r)) rs.
Proof.
  induction rs as [|r rs IH]; [done|]. cbn [revoke_loop List.filter]. destruct (is_active r) eqn:Ha; cbn [andb].
  - destruct (m r) eqn:Hm; cbn [List.filter snd negb]; [by rewrite is_active_pair_revoked, andb_false_r|]. by rewrite andb_true_r, IH.
  - assert (E : is_active_pair p k r = false) by (unfold is_active_pair; by rewrite Ha).
    cbn [List.filter snd]. by rewrite E.
Qed.

Lemma supersede_filter now p k f i rs :
  find_index f rs = Some i -> (forall r, f r = true -> is_active_pair p k r = false) ->
  List.filter (is_active_pair p k) (alter (revoke_at now) i rs) = List.filter (is_active_pair p k) rs.
Proof.
  intros Hi Hf. revert i Hi. induction rs as [|r rs IH]; [done|]. cbn [find_index]. destruct (f r) eqn:Hr.
  - intros i [= <-]. cbn. by rewrite Hf by done.
  - destruct (find_index f rs) as [j|]; [|done]. intros i [= <-]. cbn. rewrite IH by done. by destruct (is_active_pair p k r).
Qed.

Lemma supersede_pair now p k i rs :
  find_index (is_active_pair p k) rs = Some i ->
  List.filter (is_active_pair p k) (alter (revoke_at now) i rs) = tail (List.filter (is_active_pair p k) rs).
Proof.
  revert i. induction rs as [|r rs IH]; [done|]. cbn [find_index]. destruct (is_active_pair p k r) eqn:Hr.
  - intros i [= <-]. cbn. by rewrite Hr.
  - destruct (find_index _ rs) as [j|]; [|done]. intros i [= <-]. cbn. rewrite Hr. by apply IH.
Qed.

Lemma find_index_none {A} (f : A -> bool) l : find_index f l = None -> List.filter f l = [].
Proof. induction l as [|x l IH]; [done|]. cbn. destruct (f x); [done|]. by destruct (find_index f l); [|intros _; apply IH]. Qed.

Lemma is_active_pair_spec p k r :
  is_active_pair p k r = true <-> is_active r = true /\ passkeyCredentialId (client r) = p /\ clientStaticPublicKey (client r) = k.
Proof. unfold is_active_pair. rewrite !andb_true_iff, !bool_decide_eq_true. tauto. Qed.

Lemma approve_filter now c p k acl :
  acl_ok acl ->
  List.filter (is_active_pair p k) (acl_records (approve now c acl).2) =
    if touches p k (OApprove now c) then [(approve now c acl).1] else List.filter (is_active_pair p k) (acl_records acl).
Proof.
  intros [_ Hs]. unfold approve. cbn [acl_records snd fst]. rewrite List.filter_app. cbn [List.filter].
  set (new := mkRecord c (acl_burrowId acl) now None).
  change (is_active_pair p k new) with (touches p k (OApprove now c)). destruct (touches p k (OApprove now c)) eqn:Ht.
  - cbn [touches] in Ht. apply andb_prop in Ht as [->%bool_decide_eq_true ->%bool_decide_eq_true].
    specialize (Hs p k). destruct (find_index _ _) as [i|] eqn:Hi.
    + rewrite supersede_pair by done. by destruct (List.filter _ _) as [|r [|]]; cbn in *; try lia.
    + by rewrite find_index_none.
  - rewrite app_nil_r. destruct (find_index _ _) as [i|] eqn:Hi; [|done]. apply (supersede_filter _ _ _ _ _ _ Hi).
    intros r (Ha & E1 & E2)%is_active_pair_spec. unfold is_active_pair. rewrite Ha, E1, E2. cbn [andb].
    cbn [touches] in Ht. rewrite andb_false_iff in *. rewrite !bool_decide_eq_false in *.
    destruct Ht; [left|right]; congruence.
Qed.

Lemma alter_revoke_Forall (P : BurrowAclRecord -> Prop) now i rs :
  (forall r, P r -> P (revoke_at now r)) -> Forall P rs -> Forall P (alter (revoke_at now) i rs).
Proof. intros HP H. apply Forall_alter; [done|]. intros r _. apply HP. Qed.

Lemma revoke_filter now m p k acl b :
  (forall r, is_active_pair p k r = true -> m r = b) ->
  List.filter (is_active_pair p k) (acl_records (revokeMatching now m acl).2) =
    if b then [] else List.filter (is_active_pair p k) (acl_records acl).
Proof.
  intros Hm. unfold revokeMatching. cbn [snd acl_records]. rewrite revoke_loop_filter.
  induction (acl_records acl) as [|r rs IH]; [by destruct b|]. cbn [List.filter].
  destruct (is_active_pair p k r) eqn:Hr; cbn [andb]; [rewrite (Hm r Hr)|done].
  destruct b; cbn [negb]; [done|]. by rewrite IH.
Qed.

Lemma revoke_burrow now m id rs :
  Forall (fun r => burrowId r = id) rs -> Forall (fun r => burrowId r = id) (revoke_loop now m rs).2.
Proof.
  induction 1 as [|r rs Hr _ IH]; [constructor|]. cbn [revoke_loop]. by destruct (is_active r && m r); constructor.
Qed.

(** The active records of a pair after a call, given those before. *)
Definition pair_after (id : string) (op : AclOp) (p k : string) (before : list BurrowAclRecord) : list BurrowAclRecord :=
  if touches p k op then match op with OApprove now c => [mkRecord c id now None] | _ => [] end else before.

Lemma load_records_all id rs : forall taken, Forall (fun r => burrowId r = id) rs -> load_records id taken rs = Ok (mkAcl id (taken ++ rs)).
Proof.
  induction rs as [|r rs IH]; intros taken Hb; [by rewrite app_nil_r|]. apply Forall_cons in Hb as [Hr Hb].
  cbn [load_records]. rewrite (bool_decide_true (burrowId r = id)) by done. cbn. rewrite IH by done. by rewrite <- app_assoc.
Qed.

Lemma acl_ok_after op acl acl' :
  acl_ok acl -> Forall (fun r => burrowId r = acl_burrowId acl') (acl_records acl') ->
  (forall p k, List.filter (is_active_pair p k) (acl_records acl') =
     pair_after (acl_burrowId acl) op p k (List.filter (is_active_pair p k) (acl_records acl))) ->
  acl_ok acl'.
Proof.
  intros [_ Hs] Hb Hf. split; [done|]. intros p k. rewrite Hf. unfold pair_after.
  destruct (touches p k op); [destruct op; cbn; lia|apply Hs].
Qed.

(** What each call does to the active records of a pair. *)
Lemma run_op_pair op acl :
  acl_ok acl -> exists acl', run_op op acl = Ok acl' /\ acl_burrowId acl' = acl_burrowId acl /\ acl_ok acl' /\
    forall p k, List.filter (is_active_pair p k) (acl_records acl') =
      pair_after (acl_burrowId acl) op p k (List.filter (is_active_pair p k) (acl_records acl)).
Proof.
  intros Hok. pose proof Hok as [Hb _]. destruct op as [now c|now key|now passkey|]; cbn [run_op].
  - eexists. do 2 (split; [reflexivity|]). apply (and_comm _ _). refine ((fun H => conj H (acl_ok_after _ _ _ Hok _ H)) _).
    + unfold approve. cbn [snd acl_records acl_burrowId]. apply Forall_app. split; [|by constructor].
      destruct (find_index _ _); [by apply alter_revoke_Forall|done].
    + intros p k. by apply approve_filter.
  - eexists. do 2 (split; [reflexivity|]). apply (and_comm _ _). refine ((fun H => conj H (acl_ok_after _ _ _ Hok _ H)) _).
    + by apply revoke_burrow.
    + intros p k. apply revoke_filter. intros r (_ & _ & E)%is_active_pair_spec. rewrite E.
      apply bool_decide_ext. split; congruence.
  - eexists. do 2 (split; [reflexivity|]). apply (and_comm _ _). refine ((fun H => conj H (acl_ok_after _ _ _ Hok _ H)) _).
    + by apply revoke_burrow.
    + intros p k. apply revoke_filter. intros r (_ & E & _)%is_active_pair_spec. rewrite E.
      apply bool_decide_ext. split; congruence.
  - exists acl. split; [unfold fromRecords; rewrite load_records_all by done; by destruct acl|]. by split_and!.
Qed.

Lemma run_acl_app ops1 ops2 acl : run_acl (ops1 ++ ops2) acl = let! acl1 := run_acl ops1 acl in run_acl ops2 acl1.
Proof. revert acl. induction ops1 as [|op ops1 IH]; intros acl; [done|]. cbn. by destruct (run_op op acl); cbn. Qed.

Lemma new_acl_ok id : acl_ok (new_acl id).
Proof. split; [constructor|cbn; lia]. Qed.

Lemma run_acl_ok ops acl :
  acl_ok acl -> exists acl', run_acl ops acl = Ok acl' /\ acl_burrowId acl' = acl_burrowId acl /\ acl_ok acl'.
Proof.
  revert acl. induction ops as [|op ops IH]; intros acl Hok; [by exists acl|].
  destruct (run_op_pair op acl Hok) as (a1 & E1 & Hid & Hok1 & _). cbn [run_acl]. rewrite E1. cbn [obind].
  rewrite <- Hid. by apply IH.
Qed.

(** The active records of a pair are the one its history grants, or none. *)
Lemma run_acl_pair id ops acl p k :
  run_acl ops (new_acl id) = Ok acl ->
  (forall r, List.filter (is_active_pair p k) (acl_records acl) = [r] <-> granted id p k ops r) /\
  (List.filter (is_active_pair p k) (acl_records acl) = [] \/ exists r, granted id p k ops r).
Proof.
  revert acl. induction ops as [|op ops IH] using rev_ind; intros acl.
  - intros [= <-]. cbn. split; [|by left]. intros r. split; [done|]. intros (ops1 & now & c & ops2 & E & _). by destruct ops1.
  - rewrite run_acl_app. destruct (run_acl_ok ops (new_acl id) (new_acl_ok id)) as (a1 & E1 & Hid & Hok). rewrite E1. cbn [obind].
    destruct (run_op_pair op a1 Hok) as (a2 & E2 & _ & _ & Hf). cbn [run_acl]. rewrite E2. cbn [obind]. intros [= <-].
    rewrite Hf, Hid. cbn [acl_burrowId new_acl]. specialize (IH a1 E1) as [IH1 IH2]. unfold pair_after.
    assert (Hg : forall r, granted id p k (ops ++ [op]) r <->
      if touches p k op then exists now c, op = OApprove now c /\ r = mkRecord c id now None else granted id p k ops r).
    { intros r. split.
      - intros (ops1 & now & c & ops2 & E & Ht & Hn & ->). destruct ops2 as [|op2 ops2 _] using rev_ind.
        + apply app_inj_tail in E as [_ ->]. rewrite Ht. by eexists _, _.
        + rewrite app_comm_cons, app_assoc in E. apply app_inj_tail in E as [-> ->].
          apply Forall_app in Hn as [Hn Hop]. apply Forall_singleton in Hop as ->. by eexists _, _, _, _.
      - destruct (touches p k op) eqn:Ht.
        + intros (now & c & -> & ->). exists ops, now, c, []. by split_and!.
        + intros (ops1 & now & c & ops2 & -> & Ht' & Hn & ->). exists ops1, now, c, (ops2 ++ [op]).
          split_and!; try done; [by rewrite <- app_assoc|]. apply Forall_app. by split; [|constructor]. }
    setoid_rewrite Hg. destruct (touches p k op); [|done].
    destruct op as [now c| | |]; (split; [intros r; split; [intros [=]|intros (? & ? & [=] & ?)]|]); subst; try done; eauto 6.
Qed.

Lemma hasActivePasskey_spec p acl :
  hasActivePasskey p acl = true <-> exists k, List.filter (is_active_pair p k) (acl_records acl) <> [].
Proof.
  unfold hasActivePasskey. rewrite existsb_exists. split.
  - intros (r & Hin & [Ha Hp]%andb_prop). exists (clientStaticPublicKey (client r)).
    apply bool_decide_eq_true in Hp. assert (Hf : In r (List.filter (is_active_pair p (clientStaticPublicKey (client r))) (acl_records acl))).
    { apply filter_In. split; [done|]. by apply is_active_pair_spec. }
    by intros E; rewrite E in Hf.
  - intros (k & Hk). destruct (List.filter _ _) as [|r l] eqn:E; [done|].
    assert (Hin : In r (r :: l)) by (by left). rewrite <- E in Hin. apply filter_In in Hin as [Hin (Ha & Hp & _)%is_active_pair_spec].
    exists r. rewrite Ha, Hp. split; [done|]. by apply bool_decide_eq_true.
Qed.

Lemma hasActiveClient_spec k acl :
  hasActiveClient k acl = true <-> exists p, List.filter (is_active_pair p k) (acl_records acl) <> [].
Proof.
  unfold hasActiveClient. rewrite existsb_exists. split.
  - intros (r & Hin & [Ha Hk]%andb_prop). exists (passkeyCredentialId (client r)).
    apply bool_decide_eq_true in Hk. assert (Hf : In r (List.filter (is_active_pair (passkeyCredentialId (client r)) k) (acl_records acl))).
    { apply filter_In. split; [done|]. by apply is_active_pair_spec. }
    by intros E; rewrite E in Hf.
  - intros (p & Hp). destruct (List.filter _ _) as [|r l] eqn:E; [done|].
    assert (Hin : In r (r :: l)) by (by left). rewrite <- E in Hin. apply filter_In in Hin as [Hin (Ha & _ & Hk)%is_active_pair_spec].
    exists r. rewrite Ha, Hk. split; [done|]. by apply bool_decide_eq_true.
Qed.

Lemma granted_active id ops acl p k :
  run_acl ops (new_acl id) = Ok acl ->
  List.filter (is_active_pair p k) (acl_records acl) <> [] <-> exists r, granted id p k ops r.
Proof.
  intros E. destruct (run_acl_pair id ops acl p k E) as [H1 H2]. split.
  - intros Hne. by destruct H2.
  - intros [r Hr]. apply H1 in Hr. by rewrite Hr.
Qed.

Lemma paired_spec id ops acl p k :
  run_acl ops (new_acl id) = Ok acl ->
  (hasActivePasskey p acl = true <-> exists k' r, granted id p k' ops r) /\
  (hasActiveClient k acl = true <-> exists p' r, granted id p' k ops r).
Proof.
  intros E. rewrite hasActivePasskey_spec, hasActiveClient_spec. by setoid_rewrite (granted_active id ops acl _ _ E).
Qed.

(** The reasons of a miss, by which half is paired. *)
Lemma miss_reasons (pp kp : bool) reasons :
  reasons = (if negb pp then [PasskeyNotPaired] else []) ++ (if negb kp then [ClientNotPaired] else []) ++
            (if pp && kp then [PairingMismatch] else []) ->
  (PasskeyNotPaired ∈ reasons <-> pp <> true) /\ (ClientNotPaired ∈ reasons <-> kp <> true) /\
  (PairingMismatch ∈ reasons <-> pp = true /\ kp = true).
Proof.
  intros ->. rewrite !elem_of_app. destruct pp, kp; cbn; rewrite ?elem_of_nil, ?list_elem_of_singleton;
    split_and!; intuition (congruence || discriminate).
Qed.

(** C11. The Burrow authorizes a pair exactly as its history says. After any
    sequence of approvals, revocations and restarts: a passkey and a Client key
    are authorized if and only if they were approved together and neither was
    revoked since, nor the pair approved again, and by the record of that very
    approval; otherwise the reasons tell exactly which half is paired at all. *)
Theorem authorize_history id ops :
  exists acl, run_acl ops (new_acl id) = Ok acl /\ forall p k,
    (forall r, authorize p k acl = Authorized r <-> granted id p k ops r) /\
    (forall reasons, authorize p k acl = Missed reasons ->
      (PasskeyNotPaired ∈ reasons <-> ~ exists k' r, granted id p k' ops r) /\
      (ClientNotPaired ∈ reasons <-> ~ exists p' r, granted id p' k ops r) /\
      (PairingMismatch ∈ reasons <-> (exists k' r, granted id p k' ops r) /\ exists p' r, granted id p' k ops r)).
Proof.
  destruct (run_acl_ok ops (new_acl id) (new_acl_ok id)) as (acl & E & _ & Hok). exists acl. split; [done|]. intros p k.
  destruct (run_acl_pair id ops acl p k E) as [H1 H2]. unfold authorize, findActive. rewrite find_filter.
  pose proof (ok_single _ Hok p k) as Hs. split.
  - intros r. rewrite <- H1. destruct (List.filter _ _) as [|r' [|]]; cbn in *; [done| |lia]. split; congruence.
  - intros reasons. destruct (paired_spec id ops acl p k E) as [Hp Hk]. rewrite <- Hp, <- Hk.
    destruct (head _); [done|]. intros [= Hr]. apply miss_reasons. by symmetry.
Qed.

(** ** The audit trail *)

Lemma revoke_loop_keeps now m rs : Forall2 keeps rs (revoke_loop now m rs).2.
Proof.
  induction rs as [|r rs IH]; [constructor|]. cbn [revoke_loop]. destruct (is_active r) eqn:Ha; cbn [andb snd]; [|by constructor].
  destruct (m r); constructor; try done. split_and!; try done. by rewrite Ha.
Qed.

Lemma keeps_refl rs : Forall2 keeps rs rs.
Proof. induction rs; constructor; by try split_and!. Qed.

Lemma keeps_trans rs1 rs2 rs3 : Forall2 keeps rs1 rs2 -> Forall2 keeps rs2 rs3 -> Forall2 keeps rs1 rs3.
Proof.
  intros H. revert rs3. induction H as [|r1 r2 rs1 rs2 (A1 & A2 & A3 & A4) _ IH]; intros rs3 H3; [exact H3|].
  apply Forall2_cons_inv_l in H3 as (r3 & rs3' & (B1 & B2 & B3 & B4) & H3 & ->). constructor; [|by apply IH].
  split_and!; try congruence. intros Hr. specialize (A4 Hr). rewrite B4; [done|]. unfold is_active in *. by rewrite A4.
Qed.

Lemma supersede_keeps now f i rs :
  find_index f rs = Some i -> (forall r, f r = true -> is_active r = true) -> Forall2 keeps rs (alter (revoke_at now) i rs).
Proof.
  intros Hi Hf. revert i Hi. induction rs as [|r rs IH]; [done|]. cbn [find_index]. destruct (f r) eqn:Hr.
  - intros i [= <-]. cbn. constructor; [|apply keeps_refl]. split_and!; try done. by rewrite Hf.
  - destruct (find_index f rs) as [j|]; [|done]. intros i [= <-]. cbn. constructor; [by split_and!|by apply IH].
Qed.

Lemma run_op_keeps op acl acl' :
  run_op op acl = Ok acl' -> acl_ok acl ->
  exists kept, Forall2 keeps (acl_records acl) kept /\
    acl_records acl' = kept ++ match op with OApprove now c => [mkRecord c (acl_burrowId acl) now None] | _ => [] end.
Proof.
  intros E [Hb _]. destruct op as [now c|now key|now passkey|]; cbn [run_op] in E.
  - injection E as <-. unfold approve. cbn [snd acl_records]. eexists. split; [|reflexivity].
    destruct (find_index _ _) eqn:Hi; [|apply keeps_refl]. apply (supersede_keeps _ _ _ _ Hi). by intros r (? & _)%is_active_pair_spec.
  - injection E as <-. eexists. split; [apply revoke_loop_keeps|]. by rewrite app_nil_r.
  - injection E as <-. eexists. split; [apply revoke_loop_keeps|]. by rewrite app_nil_r.
  - unfold fromRecords in E. rewrite load_records_all in E by done. injection E as <-. exists (acl_records acl).
    split; [apply keeps_refl|]. by rewrite app_nil_r.
Qed.

Lemma run_acl_keeps ops acl acl' :
  run_acl ops acl = Ok acl' -> acl_ok acl ->
  exists kept, Forall2 keeps (acl_records acl) kept /\
    exists added, acl_records acl' = kept ++ added /\ map (fun r => (client r, approvedAt r)) added = approvals ops.
Proof.
  revert acl. induction ops as [|op ops IH]; intros acl.
  - intros [= <-] _. eexists. split; [apply keeps_refl|]. exists []. by rewrite app_nil_r.
  - cbn [run_acl]. intros E Hok. destruct (run_op_pair op acl Hok) as (a1 & E1 & Hid & Hok1 & _). rewrite E1 in E. cbn [obind] in E.
    destruct (run_op_keeps op acl a1 E1 Hok) as (kept1 & Hk1 & Ea1). destruct (IH a1 E Hok1) as (kept2 & Hk2 & added & Ea & Hadd).
    rewrite Ea1 in Hk2. apply Forall2_app_inv_l in Hk2 as (kept & new & Hk & Hnew & ->).
    exists kept. split; [by eapply keeps_trans|]. exists (new ++ added). split; [by rewrite Ea, app_assoc|].
    rewrite map_app, Hadd. destruct op as [now c| | |]; try (by apply Forall2_nil_inv_l in Hnew as ->).
    apply Forall2_cons_inv_l in Hnew as (r & ? & (Hc & _ & Ha & _) & ->%Forall2_nil_inv_l & ->). cbn. by rewrite Hc, Ha.
Qed.

(** The list is an audit trail. It holds one record for every approval ever
    made, in order, with the time it was made; a later call may set a record's
    revocation time once, and changes nothing else of it; restarts included. *)
Theorem records_audit_trail id ops more :
  exists acl acl', run_acl ops (new_acl id) = Ok acl /\ run_acl (ops ++ more) (new_acl id) = Ok acl' /\
    map (fun r => (client r, approvedAt r)) (records acl) = approvals ops /\
    Forall2 keeps (records acl) (take (length (records acl)) (records acl')).
Proof.
  destruct (run_acl_ok ops (new_acl id) (new_acl_ok id)) as (acl & E & _ & Hok).
  destruct (run_acl_ok more acl Hok) as (acl' & E' & _). exists acl, acl'. rewrite run_acl_app, E. cbn [obind].
  split; [done|]. split; [done|]. split.
  - destruct (run_acl_keeps ops _ acl E (new_acl_ok id)) as (kept & ->%Forall2_nil_inv_l & added & Ea & <-). unfold records. by rewrite Ea.
  - destruct (run_acl_keeps more _ acl' E' Hok) as (kept & Hk & added & Ea & _). unfold records. rewrite Ea.
    pose proof (Forall2_length _ _ _ Hk) as ->. by rewrite take_app_length.
Qed.

(** ** Examples *)

Definition sample_client (passkey key : string) : ApprovedClient := mkClient "a" passkey "h" key "d" "owner" "phone".

(** A pair approved twice has one active record; its revocation leaves none. *)
Example approve_twice :
  (fun acl => (length (records acl), authorize "p" "k" acl, authorize "p" "k2" acl)) <$>
    (match run_acl [OApprove 1 (sample_client "p" "k"); OApprove 2 (sample_client "p" "k")] (new_acl "b") with
     | Ok acl => Some acl | Throw _ => None end)
  = Some (2%nat, Authorized (mkRecord (sample_client "p" "k") "b" 2 None), Missed [ClientNotPaired]).
Proof. vm_compute. reflexivity. Qed.

Example mismatch :
  (authorize "p" "k2") <$>
    (match run_acl [OApprove 1 (sample_client "p" "k"); OApprove 2 (sample_client "p2" "k2")] (new_acl "b") with
     | Ok acl => Some acl | Throw _ => None end)
  = Some (Missed [PairingMismatch]).
Proof. vm_compute. reflexivity. Qed.

(** Records of another Burrow are refused. *)
Example foreign_record :
  fromRecords "b" [mkRecord (sample_client "p" "k") "c" 1 None] =
    Throw (OtherErr "ACL record for burrow c cannot be loaded into b").
Proof. vm_compute. reflexivity. Qed.

End Acl.
