(* ===== verification/AsyncFiles.v ===== *)
(** * Asynchronous file operations (relay/src/state.ts)

    An [async] function as the tree of what it awaits: each node is one call to
    the file system, the clock, the random source or a callback, and its
    children are what the function does with each answer.  The world answers by
    a relation, so that any call may fail; [respond] is one world that never
    does.  A file is the JSON value its text parses to, or malformed text, with
    the identity [stat] reports of it. *)
From Stdlib Require Import ZArith.
From coqutil Require Import Byte.
From S2P Require Import Prelude JsValue Bytes.
#[local] Open Scope string_scope.
#[local] Set Warnings "-register-all".

(** The errors a store's promise may reject with. *)
Inductive StateError :=
  | ESyntax                               (** [SyntaxError] of [JSON.parse] *)
  | EType                                 (** [TypeError] of a property of [null] *)
  | EIo (code : string)                   (** a file-system error *)
  | ECorrupt (path what : string)         (** [CorruptStateError] *)
  | EDuplicateCredential (id : string)    (** [DuplicateCredentialError] *)
  | EBurrowLimitReached                   (** [BurrowLimitReachedError] *)
  | EGenerated (what : string)            (** a generator's record failed its own check *)
  | ECallback (reason : string).          (** what a callback rejected with *)

(** A settled promise. *)
Inductive settled (A : Type) := Resolved (a : A) | Rejected (e : StateError).
Arguments Resolved {A} a.
Arguments Rejected {A} e.

(** The text of a file, up to [JSON.parse]; and the [ino:size:mtimeMs] of one. *)
Inductive Text := Malformed | Encodes (v : JsValue).
Abbreviation StatKey := string.

(** What a function awaits, or reads of its store; the type is that of the answer. *)
Inductive Call : Type -> Type :=
  | ReadFile (path : string) : Call (settled Text)
  | Stat (path : string) : Call (settled StatKey)
  | Mkdir : Call (settled unit)
  | WriteFile (path : string) (text : Text) : Call (settled unit)
  | Rename (from to : string) : Call (settled unit)
  | RandomUUID : Call string
  | RandomBytes (n : Z) : Call bytes
  | Now : Call Z
  | GetCache (path : string) : Call (option (StatKey * JsValue))
  | SetCache (path : string) (c : option (StatKey * JsValue)) : Call unit
  | BeforeEnroll (first : bool) : Call (settled unit).

Inductive Prog (A : Type) : Type :=
  | Done (r : settled A)
  | Vis {X : Type} (e : Call X) (k : X -> Prog A).
Arguments Done {A} r.
Arguments Vis {A X} e k.

Definition ret {A} (a : A) : Prog A := Done (Resolved a).
Definition throw {A} (e : StateError) : Prog A := Done (Rejected e).
Definition call {X} (e : Call X) : Prog X := Vis e ret.

(** [try] and [catch] in one: go on with the settled result. *)
Fixpoint try_ {A B} (p : Prog A) (k : settled A -> Prog B) : Prog B :=
  match p with
  | Done r => k r
  | Vis e c => Vis e (fun x => try_ (c x) k)
  end.

(** [await]: a rejection is thrown on. *)
Definition await {A B} (p : Prog A) (k : A -> Prog B) : Prog B :=
  try_ p (fun r => match r with Resolved a => k a | Rejected e => throw e end).

Notation "'let*' x ':=' p 'in' k" := (await p (fun x => k))
  (at level 10, x pattern, p at level 100, k at level 200,
   format "'[v' 'let*'  x  ':='  p  'in' '/' k ']'") : dormouse_scope.

(** A call whose own answer is settled. *)
Definition unsettle {A} (r : settled A) : Prog A := Done r.

(** ** The world *)

(** Files with their identity, the caches of the stores, and what happened so
    far: every text a stat key was ever given to, the keys whose file is gone,
    the callbacks answered and the files put in place by a rename. *)
Inductive Event :=
  | Called (first : bool) (answer : settled unit)
  | Placed (path : string) (text : Text).

Record World := mkWorld {
  files : gmap string (StatKey * Text);
  caches : gmap string (StatKey * JsValue);
  keys : gmap StatKey Text;
  gone : gset StatKey;
  trace : list Event }.

Definition set_files fs w := mkWorld fs (caches w) (keys w) (gone w) (trace w).
Definition set_caches cs w := mkWorld (files w) cs (keys w) (gone w) (trace w).
Definition add_event ev w := mkWorld (files w) (caches w) (keys w) (gone w) (trace w ++ [ev]).

(** The keys of the files a path loses. *)
Definition key_at (path : string) (w : World) : gset StatKey :=
  match files w !! path with Some (k, _) => {[k]} | None => ∅ end.

(** Put a text at a path under a new identity. *)
Definition put_file (path : string) (key : StatKey) (text : Text) (w : World) : World :=
  mkWorld (<[path := (key, text)]> (files w)) (caches w) (<[key := text]> (keys w)) (gone w ∪ key_at path w) (trace w).

(** Take a file from a path. *)
Definition drop_file (path : string) (w : World) : World :=
  mkWorld (delete path (files w)) (caches w) (keys w) (gone w ∪ key_at path w) (trace w).

(** Move a file over another; it keeps its identity. *)
Definition move_file (from to : string) (f : StatKey * Text) (w : World) : World :=
  mkWorld (<[to := f]> (delete from (files w))) (caches w) (keys w) (gone w ∪ key_at to w) (trace w ++ [Placed to f.2]).

Definition ENOENT {A} : settled A := Rejected (EIo "ENOENT").

(** The answers a call may get, and the world after it: any call to the file
    system may fail, a write that fails may leave any text, and an identity once
    given is never given again. *)
Definition answers {X} (e : Call X) (w : World) : X -> World -> Prop :=
  match e with
  | ReadFile path => fun r w' => w' = w /\
      match r with
      | Resolved t => exists k, files w !! path = Some (k, t)
      | Rejected (EIo code) => code = "ENOENT" -> files w !! path = None
      | Rejected _ => False
      end
  | Stat path => fun r w' => w' = w /\
      match r with
      | Resolved k => exists t, files w !! path = Some (k, t)
      | Rejected (EIo code) => code = "ENOENT" -> files w !! path = None
      | Rejected _ => False
      end
  | Mkdir => fun r w' => w' = w /\ match r with Resolved _ => True | Rejected e => exists code, e = EIo code end
  | WriteFile path t => fun r w' =>
      match r with
      | Resolved _ => exists k, keys w !! k = None /\ w' = put_file path k t w
      | Rejected e => (exists code, e = EIo code) /\
          (w' = w \/ exists k t', keys w !! k = None /\ w' = put_file path k t' w)
      end
  | Rename from to => fun r w' =>
      match r with
      | Resolved _ => from <> to /\ exists f, files w !! from = Some f /\ w' = move_file from to f w
      | Rejected e => (exists code, e = EIo code) /\ w' = w
      end
  | RandomUUID | Now => fun _ w' => w' = w
  | RandomBytes n => fun b w' => w' = w /\ blen b = Z.of_nat (Z.to_nat n)
  | GetCache path => fun c w' => w' = w /\ c = caches w !! path
  | SetCache path c => fun _ w' => w' = set_caches (partial_alter (fun _ => c) path (caches w)) w
  | BeforeEnroll first => fun r w' => w' = add_event (Called first r) w
  end.

(** A run of a function with nothing in between its calls. *)
Fixpoint runs {A} (p : Prog A) (w : World) (r : settled A) (w' : World) : Prop :=
  match p with
  | Done r0 => r = r0 /\ w' = w
  | Vis e k => exists x w1, answers e w x w1 /\ runs (k x) w1 r w'
  end.

(** ** The store's own calls *)

Section store.
  Variable path : string.   (** [#path] *)

Definition readIfExists : Prog (option JsValue) :=
  try_ (Vis (ReadFile path) Done) (fun r =>
    match r with
    | Rejected (EIo code) => if code =s? "ENOENT" then ret None else throw (EIo code)
    | Rejected e => throw e
    | Resolved Malformed => throw ESyntax
    | Resolved (Encodes v) => ret (Some v)
    end).

(** [null] and absence are one answer. *)
Definition readIfPresent : Prog (option JsValue) :=
  let* v := readIfExists in
  ret (match v with Some JNull => None | _ => v end).

Definition read (fallback : JsValue) : Prog JsValue :=
  let* v := readIfPresent in ret (default fallback v).

(** The read of [readCached] after the cache missed. *)
Definition refresh (key : StatKey) : Prog (option JsValue) :=
  let* value := readIfPresent in
  let* _ := call (SetCache path (option_map (pair key) value)) in
  ret value.

Definition readCached : Prog (option JsValue) :=
  try_ (Vis (Stat path) Done) (fun r =>
    match r with
    | Rejected (EIo code) =>
        if code =s? "ENOENT" then let* _ := call (SetCache path None) in ret None else throw (EIo code)
    | Rejected e => throw e
    | Resolved key =>
        let* cached := call (GetCache path) in
        match cached with
        | Some (key', value) => if key' =s? key then ret (Some value) else refresh key
        | None => refresh key
        end
    end).

Definition tmp_path (uuid : string) : string := path +:+ "." +:+ uuid +:+ ".tmp".

Definition writeAtomic (value : JsValue) : Prog unit :=
  let* _ := Vis Mkdir Done in
  let* uuid := call RandomUUID in
  let* _ := Vis (WriteFile (tmp_path uuid) (Encodes value)) Done in
  let* _ := Vis (Rename (tmp_path uuid) path) Done in
  call (SetCache path None).

(** [exists]. *)
Definition file_exists : Prog bool :=
  try_ (Vis (Stat path) Done) (fun r =>
    match r with
    | Resolved _ => ret true
    | Rejected (EIo code) => if code =s? "ENOENT" then ret false else throw (EIo code)
    | Rejected e => throw e
    end).

(** A singleton record: absent, or whole. *)
Definition loadRecord (what : string) (isValid : JsValue -> bool) : Prog (option JsValue) :=
  try_ readIfExists (fun r =>
    match r with
    | Rejected ESyntax => throw (ECorrupt path what)
    | Rejected e => throw e
    | Resolved None => ret None
    | Resolved (Some stored) => if negb (isValid stored) then throw (ECorrupt path what) else ret (Some stored)
    end).

(** The body [loadOrCreateRecord] runs under the mutex; [create] is what the
    generator answers, the fields of the record but [createdAt]. *)
Definition loadOrCreateRecord (what : string) (isValid : JsValue -> bool)
    (create : list (string * JsValue)) : Prog JsValue :=
  let* existing := loadRecord what isValid in
  match existing with
  | Some stored => ret stored
  | None =>
      let* now := call Now in
      let created := JObject (omap_set "createdAt" (JNumber now) create) in
      if negb (isValid created) then throw (EGenerated what)
      else
        let* _ := writeAtomic created in
        ret created
  end.

End store.

(** ** One world that never fails *)

(** The answer of a world whose clock stands still; fresh identities and random
    bytes are made from the number of texts written so far. *)
Definition fresh_key (w : World) : StatKey := fresh (dom (keys w) : gset StatKey).

Definition respond (now : Z) {X} (e : Call X) (w : World) : X * World :=
  match e with
  | ReadFile path => (match files w !! path with Some (_, t) => Resolved t | None => ENOENT end, w)
  | Stat path => (match files w !! path with Some (k, _) => Resolved k | None => ENOENT end, w)
  | Mkdir => (Resolved tt, w)
  | WriteFile path t => (Resolved tt, put_file path (fresh_key w) t w)
  | Rename from to =>
      match files w !! from with
      | Some f => if from =s? to then (ENOENT, w) else (Resolved tt, move_file from to f w)
      | None => (ENOENT, w)
      end
  | RandomUUID => ("u", w)
  | RandomBytes n => (replicate (Z.to_nat n) (byte.of_Z (Z.of_nat (size (keys w)))), w)
  | Now => (now, w)
  | GetCache path => (caches w !! path, w)
  | SetCache path c => (tt, set_caches (partial_alter (fun _ => c) path (caches w)) w)
  | BeforeEnroll first => (Resolved tt, add_event (Called first (Resolved tt)) w)
  end.

Fixpoint run_prog (now : Z) {A} (p : Prog A) (w : World) : settled A * World :=
  match p with
  | Done r => (r, w)
  | Vis e k => let xw := respond now e w in run_prog now (k xw.1) xw.2
  end.

Definition empty_world : World := mkWorld ∅ ∅ ∅ ∅ [].

(** ** What runs do *)

Lemma runs_try {A B} (p : Prog A) (k : settled A -> Prog B) w r w' :
  runs (try_ p k) w r w' <-> exists r1 w1, runs p w r1 w1 /\ runs (k r1) w1 r w'.
Proof.
  revert w. induction p as [r0|X e c IH]; intros w; cbn [try_ runs].
  - split; [intros H; by exists r0, w|by intros (? & ? & [-> ->] & H)].
  - setoid_rewrite IH. split.
    + intros (x & w1 & Ha & r1 & w2 & H1 & H2). exists r1, w2. split; [by exists x, w1|done].
    + intros (r1 & w2 & (x & w1 & Ha & H1) & H2). exists x, w1. split; [done|]. by exists r1, w2.
Qed.

Lemma runs_await {A B} (p : Prog A) (k : A -> Prog B) w r w' :
  runs (await p k) w r w' <->
  (exists a w1, runs p w (Resolved a) w1 /\ runs (k a) w1 r w') \/ (exists e, runs p w (Rejected e) w' /\ r = Rejected e).
Proof.
  unfold await. rewrite runs_try. split.
  - intros ([a|e] & w1 & H1 & H2); [left; by exists a, w1|]. destruct H2 as [-> ->]. right. by exists e.
  - intros [(a & w1 & H1 & H2)|(e & H1 & ->)]; [by exists (Resolved a), w1|by exists (Rejected e), w'].
Qed.

Lemma runs_call {X} (e : Call X) w r w' : runs (call e) w r w' <-> exists x, answers e w x w' /\ r = Resolved x.
Proof.
  cbn. split.
  - intros (x & w1 & Ha & -> & ->). by exists x.
  - intros (x & Ha & ->). by exists x, w'.
Qed.

Lemma fresh_key_unused w : keys w !! fresh_key w = None.
Proof. apply (not_elem_of_dom (D:=gset StatKey)). unfold fresh_key. exact (is_fresh (dom (keys w) : gset StatKey)). Qed.

(** [respond] answers as a world may. *)
Lemma respond_answers now {X} (e : Call X) w : answers e w (respond now e w).1 (respond now e w).2.
Proof.
  pose proof (fresh_key_unused w) as Hk. destruct e; cbn; try done.
  - split; [done|]. destruct (files w !! path) as [[k t]|] eqn:E; cbn; [by exists k|done].
  - split; [done|]. destruct (files w !! path) as [[k t]|] eqn:E; cbn; [by exists t|done].
  - by exists (fresh_key w).
  - destruct (files w !! from) as [f|] eqn:E; [case_bool_decide|]; cbn; try (split; [by exists "ENOENT"|done]). split; [done|]. by exists f.
  - split; [done|]. unfold blen. by rewrite length_replicate.
Qed.

Lemma run_prog_runs now {A} (p : Prog A) w : runs p w (run_prog now p w).1 (run_prog now p w).2.
Proof. revert w. induction p as [r|X e k IH]; intros w; cbn; [done|]. eexists _, _. split; [apply respond_answers|apply IH]. Qed.
