(* ===== verification/RelayState.v ===== *)
(** * The Relay's state stores (relay/src/state.ts)

    The setup password, the account, the enrolled Burrows, the push
    subscriptions and the VAPID keys: each store's calls as trees of what they
    await, over the files of AsyncFiles.v.  What a mutation runs under the mutex
    is its body here; RelayEnroll.v models the mutex.  A row keeps the fields the
    store does not read, as the source's objects do. *)
From Stdlib Require Import ZArith Ascii.
From coqutil Require Import Byte.
From S2P Require Import Prelude JsValue Bytes AsyncFiles.
#[local] Open Scope string_scope.
#[local] Open Scope list_scope.

(** remote-lib-common/src/remote/wire.ts and relay-common.ts. *)
Definition RELAY_BEARER_BYTE_LENGTH : Z := 32.
Definition RELAY_BEARER_LENGTH : Z := base64UrlLength RELAY_BEARER_BYTE_LENGTH.
Definition E2E_ID_BYTE_LENGTH : Z := 16.
Definition E2E_ID_LENGTH : Z := base64UrlLength E2E_ID_BYTE_LENGTH.
Definition SELFHOST_ACCOUNT_ID : string := "owner".
Definition MAX_ENROLLED_BURROWS : nat := 32.
Definition MAX_PUSH_SUBSCRIPTIONS_PER_BURROW : nat := 32.
Definition MAX_PUSH_SUBSCRIPTIONS_PER_ACCOUNT : nat := 256.

Definition isRelayBearer (value : JsValue) : bool := isExactBase64Url value RELAY_BEARER_LENGTH.
Definition isE2eId (value : JsValue) : bool := isExactBase64Url value E2E_ID_LENGTH.

Definition js_is_string (v : JsValue) : bool := match v with JString _ => true | _ => false end.
Definition js_is_number (v : JsValue) : bool := match v with JNumber _ => true | _ => false end.
Definition js_is_object (v : JsValue) : bool := match v with JObject _ | JArray _ => true | _ => false end.

(** The string or the number a checked field holds. *)
Definition text_at (name : string) (row : JsValue) : string := default "" (js_string (js_field name row)).
Definition number_at (name : string) (row : JsValue) : Z := match js_field name row with JNumber z => z | _ => 0%Z end.

(** ** The setup password *)
Module SetupPasswordStore.

Definition path : string := "setup-password.json".

(** [HEX_ENCODED_32_BYTES_PATTERN]. *)
Definition hex_unit (u : Z) : bool := ((48 <=? u) && (u <=? 57) || (97 <=? u) && (u <=? 102))%Z.

Definition isSetupPassword (value : JsValue) : bool :=
  match value with JString s => (String.length s =? 64)%nat && forallb hex_unit (units s) | _ => false end.

Definition isStoredSetupPassword (value : JsValue) : bool :=
  js_is_object value && isSetupPassword (js_field "password" value) && js_is_number (js_field "createdAt" value).

Definition load : Prog (option JsValue) := loadRecord path "setup password" isStoredSetupPassword.

(** [generate] is the password the generator answers. *)
Definition loadOrCreate (generate : string) : Prog string :=
  let* stored := loadOrCreateRecord path "setup password" isStoredSetupPassword [("password", JString generate)] in
  ret (text_at "password" stored).

End SetupPasswordStore.

(** ** The account *)
Module AccountStore.

Definition path : string := "account.json".

Definition isAccount (value : JsValue) : bool :=
  js_is_object value && js_is_string (js_field "accountId" value) &&
  match js_field "passkeys" value with JArray _ => true | _ => false end.

Definition load : Prog (option JsValue) := loadRecord path "account record" isAccount.

Definition passkeys (account : JsValue) : list JsValue :=
  match js_field "passkeys" account with JArray rows => rows | _ => [] end.

(** [rows.find((p) => p.credentialId === id)]: a row that is [null] throws. *)
Fixpoint find_row (id : string) (rows : list JsValue) : settled (option JsValue) :=
  match rows with
  | [] => Resolved None
  | JNull :: _ | JUndefined :: _ => Rejected EType
  | row :: rows => if bool_decide (js_string (js_field "credentialId" row) = Some id) then Resolved (Some row) else find_row id rows
  end.

Definition findPasskey (id : string) : Prog (option JsValue) :=
  let* account := load in
  match account with
  | None => ret None
  | Some account => unsettle (find_row id (passkeys account))
  end.

(** Under the mutex; [passkey] is the record without [createdAt]. *)
Definition appendPasskey (passkey : list (string * JsValue)) : Prog JsValue :=
  let id := text_at "credentialId" (JObject passkey) in
  let* loaded := load in
  let account := match loaded with
    | Some (JObject fields) => fields
    | _ => [("accountId", JString SELFHOST_ACCOUNT_ID); ("passkeys", JArray [])]
    end in
  let* dup := unsettle (find_row id (passkeys (JObject account))) in
  match dup with
  | Some _ => throw (EDuplicateCredential id)
  | None =>
      let* now := call Now in
      let rows := passkeys (JObject account) ++ [JObject (omap_set "createdAt" (JNumber now) passkey)] in
      let account := JObject (omap_set "passkeys" (JArray rows) account) in
      let* _ := writeAtomic path account in
      ret account
  end.

End AccountStore.

(** ** The enrolled Burrows *)
Module BurrowStore.

Definition path : string := "burrows.json".

Definition isStoredBurrow (row : JsValue) : bool :=
  js_is_object row && isE2eId (js_field "burrowId" row) && js_is_string (js_field "burrowToken" row) &&
  js_is_number (js_field "enrolledAt" row).

(** The rows a file's value enrolls. *)
Definition enrolled_rows (rows : JsValue) : list JsValue :=
  match rows with JArray rows => List.filter isStoredBurrow rows | _ => [] end.

Definition listIfPresent : Prog (option (list JsValue)) :=
  let* rows := readCached path in ret (option_map enrolled_rows rows).

(** [list]. *)
Definition list_burrows : Prog (list JsValue) := let* rows := listIfPresent in ret (default [] rows).

Section secrets.
  Variable sha256 : string -> bytes.   (** the digest of node:crypto, over UTF-16LE *)

(** relay/src/secrets.ts. *)
Definition secretEquals (a b : string) : bool := bool_decide (sha256 a = sha256 b).

Definition findByToken (burrowToken : string) : Prog (option JsValue) :=
  if negb (isRelayBearer (JString burrowToken)) then ret None
  else
    let* burrows := list_burrows in
    ret (foldl (fun match_ h => if secretEquals (text_at "burrowToken" h) burrowToken then Some h else match_) None burrows).

End secrets.

(** [find] and [has]. *)
Definition find_burrow (burrowId : string) : Prog (option JsValue) :=
  let* burrows := list_burrows in
  ret (List.find (fun h => text_at "burrowId" h =s? burrowId) burrows).

Definition has (burrowId : string) : Prog bool :=
  let* found := find_burrow burrowId in ret (bool_decide (is_Some found)).

Definition new_burrow (id token : bytes) (now : Z) : JsValue :=
  JObject [("burrowId", JString (toBase64Url id)); ("burrowToken", JString (toBase64Url token)); ("enrolledAt", JNumber now)].

(** Under the mutex. *)
Definition enroll : Prog JsValue :=
  let* present := file_exists path in
  let* _ := Vis (BeforeEnroll (negb present)) Done in
  let* burrows := list_burrows in
  if (MAX_ENROLLED_BURROWS <=? length burrows)%nat then throw EBurrowLimitReached
  else
    let* id := call (RandomBytes E2E_ID_BYTE_LENGTH) in
    let* token := call (RandomBytes RELAY_BEARER_BYTE_LENGTH) in
    let* now := call Now in
    let burrow := new_burrow id token now in
    let* _ := writeAtomic path (JArray (burrows ++ [burrow])) in
    ret burrow.

End BurrowStore.

(** ** The push subscriptions *)
Module PushSubscriptionStore.

Definition path : string := "push-subscriptions.json".

Definition isStoredPushSubscription (row : JsValue) : bool :=
  js_is_string (js_field "burrowId" row) && js_is_string (js_field "deliveryId" row) &&
  js_is_string (js_field "endpoint" row) && js_is_string (js_field "p256dh" (js_field "keys" row)) &&
  js_is_string (js_field "auth" (js_field "keys" row)) && js_is_string (js_field "vapidPublicKey" row) &&
  js_is_number (js_field "subscribedAt" row).

(** [list]; the warning about dropped rows goes to the console. *)
Definition list_subs : Prog (list JsValue) :=
  let* rows := read path (JArray []) in
  match rows with
  | JArray rows =>
      let kept := List.filter isStoredPushSubscription rows in
      let* burrows := BurrowStore.listIfPresent in
      match burrows with
      | None => ret kept
      | Some burrows =>
          let enrolled := list_to_set (C:=gset string) (map (text_at "burrowId") burrows) in
          ret (List.filter (fun s => bool_decide (text_at "burrowId" s ∈ enrolled)) kept)
      end
  | _ => ret []
  end.

Definition listForBurrow (burrowId : string) : Prog (list JsValue) :=
  let* all := list_subs in ret (List.filter (fun s => text_at "burrowId" s =s? burrowId) all).

Definition listForDeliveryIds (deliveryIds : list string) : Prog (list JsValue) :=
  let named := list_to_set (C:=gset string) deliveryIds in
  let* all := list_subs in ret (List.filter (fun s => bool_decide (text_at "deliveryId" s ∈ named)) all).

(** A stable sort by a number, smallest first. *)
Fixpoint insert_by {A} (key : A -> Z) (x : A) (l : list A) : list A :=
  match l with
  | [] => [x]
  | y :: l' => if (key x <? key y)%Z then x :: l else y :: insert_by key x l'
  end.
Definition sort_by {A} (key : A -> Z) (l : list A) : list A := foldl (fun acc x => insert_by key x acc) [] l.

(** The counts of [perBurrow]. *)
Definition count_of (burrowId : string) (perBurrow : list (string * nat)) : nat := default 0%nat (omap_get burrowId perBurrow).

(** The eviction loop over the rows, oldest first, each with its index in
    [all]; [keep] is the last index.  It answers the indices dropped. *)
Fixpoint evict (keep : nat) (rows : list (nat * JsValue)) (perBurrow : list (string * nat)) (total : nat) : list nat :=
  match rows with
  | [] => []
  | (i, row) :: rows =>
      if (i =? keep)%nat then evict keep rows perBurrow total
      else
        let burrowId := text_at "burrowId" row in
        let forBurrow := count_of burrowId perBurrow in
        if (total <=? MAX_PUSH_SUBSCRIPTIONS_PER_ACCOUNT)%nat && (forBurrow <=? MAX_PUSH_SUBSCRIPTIONS_PER_BURROW)%nat
        then evict keep rows perBurrow total
        else i :: evict keep rows (omap_set burrowId (forBurrow - 1)%nat perBurrow) (total - 1)
  end.

Definition capSubscriptions (rows : list JsValue) (keep : JsValue) : list JsValue :=
  let all := rows ++ [keep] in
  if (length all <=? MAX_PUSH_SUBSCRIPTIONS_PER_BURROW)%nat then all
  else
    let perBurrow := foldl (fun m row => let b := text_at "burrowId" row in omap_set b (S (count_of b m)) m) [] all in
    let indexed := imap pair all in
    let dropped := evict (length rows) (sort_by (fun ir => number_at "subscribedAt" ir.2) indexed) perBurrow (length all) in
    map snd (List.filter (fun ir => negb (bool_decide (ir.1 ∈ dropped))) indexed).

(** [[...new Set(xs)]]. *)
Fixpoint uniq (seen xs : list string) : list string :=
  match xs with
  | [] => []
  | x :: xs => if bool_decide (x ∈ seen) then uniq seen xs else x :: uniq (x :: seen) xs
  end.

(** The rows [upsert] commits for a stored record. *)
Definition upsert_rows (stored : JsValue) (all : list JsValue) : list JsValue :=
  let replaced := list_to_set (C:=gset string)
    (map (text_at "endpoint")
      (List.filter (fun s => (text_at "deliveryId" s =s? text_at "deliveryId" stored) &&
                             negb (text_at "endpoint" s =s? text_at "endpoint" stored)) all)) in
  capSubscriptions
    (List.filter (fun s =>
       negb ((text_at "burrowId" s =s? text_at "burrowId" stored) && (text_at "deliveryId" s =s? text_at "deliveryId" stored)) &&
       negb (bool_decide (text_at "endpoint" s ∈ replaced))) all)
    stored.

(** The Burrows whose rows carry the presented endpoint under the same key. *)
Definition endpoint_burrows (stored : JsValue) (kept : list JsValue) : list string :=
  uniq [] (map (text_at "burrowId")
    (List.filter (fun s => (text_at "endpoint" s =s? text_at "endpoint" stored) &&
                           (text_at "vapidPublicKey" s =s? text_at "vapidPublicKey" stored)) kept)).

(** Under the mutex, with [removeDelivery] and [removeEndpoints]; [record] lacks [subscribedAt]. *)
Definition upsert (record : list (string * JsValue)) : Prog (JsValue * list string) :=
  let* all := list_subs in
  let* now := call Now in
  let stored := JObject (omap_set "subscribedAt" (JNumber now) record) in
  let kept := upsert_rows stored all in
  let* _ := writeAtomic path (JArray kept) in
  ret (stored, endpoint_burrows stored kept).

(** The shared end of the two removals. *)
Definition remove_rows (keeps : JsValue -> bool) : Prog nat :=
  let* all := list_subs in
  let kept := List.filter keeps all in
  if (length kept =? length all)%nat then ret 0%nat
  else
    let* _ := writeAtomic path (JArray kept) in
    ret (length all - length kept)%nat.

Definition removeDelivery (deliveryId : string) : Prog nat :=
  remove_rows (fun s => negb (text_at "deliveryId" s =s? deliveryId)).

Definition removeEndpoints (endpoints : list string) : Prog nat :=
  let gone := list_to_set (C:=gset string) endpoints in
  remove_rows (fun s => negb (bool_decide (text_at "endpoint" s ∈ gone))).

End PushSubscriptionStore.

(** ** The VAPID keys *)
Module VapidStore.

Definition path : string := "vapid.json".

Definition non_empty_string (v : JsValue) : bool := match v with JString s => (0 <? String.length s)%nat | _ => false end.

Definition isStoredVapidKeys (value : JsValue) : bool :=
  js_is_object value && non_empty_string (js_field "publicKey" value) && non_empty_string (js_field "privateKey" value) &&
  js_is_number (js_field "createdAt" value).

Definition load : Prog (option JsValue) := loadRecord path "VAPID keypair" isStoredVapidKeys.

Definition loadOrCreate (publicKey privateKey : string) : Prog JsValue :=
  loadOrCreateRecord path "VAPID keypair" isStoredVapidKeys
    [("publicKey", JString publicKey); ("privateKey", JString privateKey)].

End VapidStore.
