(* ===== verification/RelayCap.v ===== *)
(** * The caps on push subscriptions (relay/src/state.ts, [capSubscriptions])

    The eviction loop leaves at most the permitted rows, never drops the row just
    committed, drops nothing when nothing must go, and keeps the newest rows of
    each Burrow. *)
From Stdlib Require Import ZArith Sorted Permutation Lia.
From S2P Require Import Prelude JsValue AsyncFiles RelayState.
Import PushSubscriptionStore.
#[local] Open Scope string_scope.
#[local] Open Scope list_scope.

Abbreviation item := (nat * JsValue)%type.
Implicit Types (L : list item) (pb : list (string * nat)) (b : string).

Definition burrow_of (ir : item) : string := text_at "burrowId" ir.2.
Definition age_of (ir : item) : Z := number_at "subscribedAt" ir.2.

(** The rows of a Burrow. *)
Definition of_burrow b (rows : list JsValue) : list JsValue := List.filter (fun r => text_at "burrowId" r =s? b) rows.
Definition nb b L : nat := length (of_burrow b (map snd L)).

(** ** The sort *)

Lemma insert_by_perm {A} (key : A -> Z) x l : insert_by key x l ≡ₚ x :: l.
Proof.
  induction l as [|y l IH]; [done|]. cbn. destruct (_ <? _)%Z; [done|]. rewrite IH. apply Permutation_swap.
Qed.

Lemma insert_by_sorted {A} (key : A -> Z) x l :
  StronglySorted (fun u v => (key u <= key v)%Z) l -> StronglySorted (fun u v => (key u <= key v)%Z) (insert_by key x l).
Proof.
  induction 1 as [|y l Hl IH Hy]; [by repeat constructor|]. cbn. destruct (Z.ltb_spec (key x) (key y)) as [Hlt|Hge].
  - constructor; [by constructor|]. constructor; [lia|]. eapply Forall_impl; [exact Hy|]. cbn. lia.
  - constructor; [done|]. rewrite insert_by_perm. by constructor.
Qed.

Lemma sort_by_spec {A} (key : A -> Z) l :
  sort_by key l ≡ₚ l /\ StronglySorted (fun u v => (key u <= key v)%Z) (sort_by key l).
Proof.
  unfold sort_by. enough (H : forall acc, StronglySorted (fun u v => (key u <= key v)%Z) acc ->
    foldl (fun acc x => insert_by key x acc) acc l ≡ₚ acc ++ l /\
    StronglySorted (fun u v => (key u <= key v)%Z) (foldl (fun acc x => insert_by key x acc) acc l)) by (apply (H []); constructor).
  induction l as [|x l IH]; intros acc Hacc; cbn [foldl]; [by rewrite app_nil_r|].
  destruct (IH (insert_by key x acc)) as [IH1 IH2]; [by apply insert_by_sorted|]. split; [|done].
  rewrite IH1, insert_by_perm. apply Permutation_middle.
Qed.

(** ** The loop *)

Lemma count_of_set b b' n pb : count_of b (omap_set b' n pb) = if decide (b = b') then n else count_of b pb.
Proof.
  unfold count_of. case_decide as E; [subst; by rewrite omap_get_set_eq|by rewrite omap_get_set_ne].
Qed.

Lemma nb_cons b ir L : nb b (ir :: L) = ((if decide (b = burrow_of ir) then 1 else 0) + nb b L)%nat.
Proof.
  unfold nb, of_burrow, burrow_of. cbn. case_decide as E; [by rewrite bool_decide_true|by rewrite bool_decide_false].
Qed.

Lemma nb_perm b L L' : L ≡ₚ L' -> nb b L = nb b L'.
Proof. induction 1; rewrite ?nb_cons; try lia. Qed.

(** What the loop drops is among the rows it visits. *)
Lemma evict_incl keep L pb total i : i ∈ evict keep L pb total -> i <> keep /\ i ∈ map fst L.
Proof.
  revert pb total. induction L as [|[j row] L IH]; intros pb total; cbn [evict map fst]; [by intros ?%elem_of_nil|].
  assert (Hin : forall pb total, i ∈ evict keep L pb total -> i <> keep /\ i ∈ j :: map fst L).
  { intros ? ? [? ?]%IH. split; [done|by right]. }
  destruct (Nat.eqb_spec j keep) as [->|Hj]; [apply Hin|]. destruct (_ && _); [apply Hin|].
  intros [->|Hi]%elem_of_cons; [split; [done|by left]|by eapply Hin].
Qed.

Definition survivors (D : list nat) L : list item := List.filter (fun ir => negb (bool_decide (ir.1 ∈ D))) L.

Lemma survivors_cons_out i D L : i ∉ map fst L -> survivors (i :: D) L = survivors D L.
Proof.
  intros Hi. unfold survivors. apply filter_ext_in. intros [j row] Hin. cbn. f_equal. apply bool_decide_ext.
  rewrite elem_of_cons. split; [|tauto]. intros [->|]; [|done]. exfalso. apply Hi.
  apply list_elem_of_fmap. exists (i, row). split; [done|]. by apply list_elem_of_In.
Qed.

(** The loop invariant: [kb] and [K] count the rows already kept. *)
Lemma evict_caps keep L pb total kb K :
  NoDup (map fst L) -> keep ∉ map fst L ->
  (forall b, count_of b pb = kb b + nb b L)%nat -> (total = K + length L)%nat ->
  (forall b, kb b <= MAX_PUSH_SUBSCRIPTIONS_PER_BURROW)%nat -> (K <= MAX_PUSH_SUBSCRIPTIONS_PER_ACCOUNT)%nat ->
  (forall b, kb b + nb b (survivors (evict keep L pb total) L) <= MAX_PUSH_SUBSCRIPTIONS_PER_BURROW)%nat /\
  (K + length (survivors (evict keep L pb total) L) <= MAX_PUSH_SUBSCRIPTIONS_PER_ACCOUNT)%nat.
Proof.
  revert pb total kb K. induction L as [|[i row] L IH]; intros pb total kb K Hnd Hk Hpb Ht Hkb HK.
  { split; [intros b; specialize (Hkb b)|]; cbn; lia. }
  cbn [map fst] in Hnd, Hk. apply NoDup_cons in Hnd as [Hi Hnd]. apply not_elem_of_cons in Hk as [Hki Hk].
  cbn [evict]. destruct (Nat.eqb_spec i keep) as [->|_]; [done|]. set (bi := text_at "burrowId" row) in *.
  pose proof (Hpb bi) as Hbi. rewrite nb_cons, decide_True in Hbi by done. cbn [length] in Ht.
  destruct ((total <=? _)%nat && _) eqn:E.
  - apply andb_prop in E as [E1%Nat.leb_le E2%Nat.leb_le].
    assert (Hni : i ∉ evict keep L pb total) by (intros Hin; apply evict_incl in Hin; tauto).
    assert (Es : survivors (evict keep L pb total) ((i, row) :: L) = (i, row) :: survivors (evict keep L pb total) L).
    { unfold survivors at 1. cbn. by rewrite bool_decide_false. }
    rewrite Es. destruct (IH pb total (fun b => if decide (b = bi) then S (kb b) else kb b) (S K)) as [H1 H2]; try done; try lia.
    + intros b. rewrite Hpb, nb_cons. change (burrow_of (i, row)) with bi. case_decide; subst; lia.
    + intros b. case_decide; subst; [lia|apply Hkb].
    + split; [|cbn [length]; lia]. intros b. specialize (H1 b). rewrite nb_cons. change (burrow_of (i, row)) with bi.
      case_decide; subst; lia.
  - set (D := evict keep L _ _). assert (Es : survivors (i :: D) ((i, row) :: L) = survivors D L).
    { unfold survivors at 1. cbn [List.filter fst]. rewrite bool_decide_true by (by left). cbn [negb]. by apply survivors_cons_out. }
    rewrite Es. apply IH; try done; try lia. intros b. rewrite count_of_set. case_decide as Eb; [subst b; lia|].
    rewrite Hpb, nb_cons. change (burrow_of (i, row)) with bi. by rewrite decide_False.
Qed.

(** Once a Burrow is within both caps the loop drops none of its rows. *)
Lemma evict_stops keep L pb total b :
  (total <= MAX_PUSH_SUBSCRIPTIONS_PER_ACCOUNT)%nat -> (count_of b pb <= MAX_PUSH_SUBSCRIPTIONS_PER_BURROW)%nat ->
  NoDup (map fst L) -> forall ir, ir ∈ L -> burrow_of ir = b -> ir.1 ∉ evict keep L pb total.
Proof.
  revert pb total. induction L as [|[i row] L IH]; intros pb total Ht Hb Hnd ir Hin Hir; [by apply elem_of_nil in Hin|].
  cbn [map fst] in Hnd. apply NoDup_cons in Hnd as [Hi Hnd]. cbn [evict].
  assert (Hhead : ir = (i, row) \/ ir ∈ L) by (by apply elem_of_cons in Hin). clear Hin.
  assert (Hout : ir = (i, row) -> forall pb total, ir.1 ∉ evict keep L pb total).
  { intros -> ? ? Hin%evict_incl. by destruct Hin. }
  destruct (i =? keep)%nat; [destruct Hhead; [by apply Hout|by apply IH]|].
  destruct ((total <=? _)%nat && _) eqn:E; [destruct Hhead; [by apply Hout|by apply IH]|].
  assert (Hbi : text_at "burrowId" row <> b).
  { intros Ebi. rewrite Ebi in E. apply andb_false_iff in E as [E|E]; apply Nat.leb_gt in E; lia. }
  destruct Hhead as [->|Hin]; [done|]. apply not_elem_of_cons. split.
  - intros <-. apply Hi. apply list_elem_of_fmap. by exists ir.
  - apply IH; try done; [lia|]. rewrite count_of_set. by rewrite decide_False by done.
Qed.

(** A dropped row is no newer than a kept row of the same Burrow. *)
Lemma evict_oldest keep L pb total ir jr :
  NoDup (map fst L) -> StronglySorted (fun x y => (age_of x <= age_of y)%Z) L ->
  ir ∈ L -> jr ∈ L -> burrow_of ir = burrow_of jr -> jr.1 <> keep ->
  ir.1 ∈ evict keep L pb total -> jr.1 ∉ evict keep L pb total -> (age_of ir <= age_of jr)%Z.
Proof.
  revert pb total. induction L as [|[k row] L IH]; intros pb total Hnd Hs Hi Hj Hb Hjk; [by apply elem_of_nil in Hi|].
  cbn [map fst] in Hnd. apply NoDup_cons in Hnd as [Hk Hnd]. apply StronglySorted_inv in Hs as [Hs Hall]. rewrite Forall_forall in Hall.
  assert (Hout : forall x pb total, x ∉ map fst L -> x ∉ evict keep L pb total) by (intros ? ? ? Hx Hin%evict_incl; by destruct Hin).
  apply elem_of_cons in Hi as [->|Hi], Hj as [->|Hj]; [lia|by intros; apply Hall| |].
  - cbn [evict fst]. destruct (Nat.eqb_spec k keep); [done|]. cbn [fst] in Hjk. change (text_at "burrowId" row) with (burrow_of (k, row)).
    destruct ((total <=? _)%nat && _) eqn:E; [|by intros _ []%not_elem_of_cons].
    apply andb_prop in E as [E1%Nat.leb_le E2%Nat.leb_le]. intros Hin _. exfalso. revert Hin.
    eapply evict_stops; [exact E1|exact E2|done|done|done].
  - assert (ir.1 <> k) by (intros <-; apply Hk, list_elem_of_fmap; by exists ir). cbn [evict].
    destruct (k =? keep)%nat; [by apply IH|]. destruct (_ && _); [by apply IH|].
    intros [?|Hin]%elem_of_cons [_ Hnin]%not_elem_of_cons; [done|]. by eapply IH.
Qed.

Lemma evict_skip keep L pb total :
  evict keep L pb total = evict keep (List.filter (fun ir => negb (ir.1 =? keep)%nat) L) pb total.
Proof.
  revert pb total. induction L as [|[i row] L IH]; intros pb total; [done|]. cbn [evict List.filter fst].
  destruct (i =? keep)%nat eqn:E; cbn [negb]; [done|]. cbn [evict]. rewrite E. by rewrite !IH.
Qed.

Lemma filter_perm {A} (f : A -> bool) l l' : l ≡ₚ l' -> List.filter f l ≡ₚ List.filter f l'.
Proof.
  induction 1 as [|x l l' _ IH|x y l|l1 l2 l3 _ IH1 _ IH2]; cbn; [done|by destruct (f x); rewrite IH| |by rewrite IH1].
  destruct (f x), (f y); by try apply Permutation_swap.
Qed.

Lemma filter_id_in {A} (f : A -> bool) l : (forall x, In x l -> f x = true) -> List.filter f l = l.
Proof.
  induction l as [|x l IH]; intros H; [done|]. cbn. rewrite H by (by left). f_equal. apply IH. intros y Hy. apply H. by right.
Qed.

Lemma filter_StronglySorted {A} (R : A -> A -> Prop) (f : A -> bool) l :
  StronglySorted R l -> StronglySorted R (List.filter f l).
Proof.
  induction 1 as [|x l _ IH Hx]; [constructor|]. cbn. destruct (f x); [|done]. constructor; [done|].
  rewrite Forall_forall in *. intros y Hy%list_elem_of_In%filter_In. apply Hx, list_elem_of_In, Hy.
Qed.

Lemma indexed_fst (rows : list JsValue) : map fst (imap pair rows) = seq 0 (length rows).
Proof.
  apply list_eq. intros i. rewrite list_lookup_fmap, list_lookup_imap. destruct (rows !! i) as [r|] eqn:E; cbn.
  - symmetry. apply lookup_seq. split; [done|]. by eapply lookup_lt_Some.
  - symmetry. apply lookup_seq_ge. by apply lookup_ge_None.
Qed.

Lemma indexed_snd (rows : list JsValue) : map snd (imap pair rows) = rows.
Proof. apply list_eq. intros i. rewrite list_lookup_fmap, list_lookup_imap. by destruct (rows !! i). Qed.

Lemma indexed_in (rows : list JsValue) i r : (i, r) ∈ imap pair rows <-> rows !! i = Some r.
Proof.
  rewrite elem_of_lookup_imap. split; [by intros (j & x & [= -> ->] & ?)|]. intros H. by exists i, r.
Qed.

(** The counts of [perBurrow] and the rows the loop may drop. *)
Lemma counts_spec rows pb b :
  count_of b (foldl (fun m row => let b := text_at "burrowId" row in omap_set b (S (count_of b m)) m) pb rows) =
  (count_of b pb + length (of_burrow b rows))%nat.
Proof.
  revert pb. induction rows as [|r rows IH]; intros pb; [exact (eq_sym (Nat.add_0_r _))|]. cbn [foldl]. cbv zeta. rewrite IH, count_of_set.
  unfold of_burrow. cbn [List.filter]. case_decide as E.
  - rewrite <- E, bool_decide_true by done. cbn. lia.
  - by rewrite bool_decide_false by congruence.
Qed.

Section cap.
  Variables (rows : list JsValue) (keep : JsValue).

Let all := rows ++ [keep].
Let n := length rows.
Let pb0 := foldl (fun m row => let b := text_at "burrowId" row in omap_set b (S (count_of b m)) m) [] all.
Let sorted := sort_by (fun ir => number_at "subscribedAt" ir.2) (imap pair all).
Let L := List.filter (fun ir => negb (ir.1 =? n)%nat) sorted.
Let D := evict n sorted pb0 (length all).

Lemma cap_indexed : imap pair all = imap pair rows ++ [(n, keep)].
Proof. unfold all. rewrite imap_app. cbn. by rewrite Nat.add_0_r. Qed.

Lemma cap_perm : L ≡ₚ imap pair rows.
Proof.
  unfold L, sorted. rewrite (filter_perm _ _ _ (proj1 (sort_by_spec _ _))), cap_indexed, List.filter_app. cbn.
  rewrite Nat.eqb_refl. cbn. rewrite app_nil_r, filter_id_in; [done|]. intros [i r] Hin%list_elem_of_In%indexed_in. cbn.
  apply negb_true_iff, Nat.eqb_neq. apply lookup_lt_Some in Hin. unfold n. lia.
Qed.

Lemma cap_NoDup : NoDup (map fst L) /\ n ∉ map fst L.
Proof.
  assert (E : map fst L ≡ₚ seq 0 n) by (rewrite cap_perm; by rewrite indexed_fst). split; rewrite E; [apply NoDup_seq|].
  intros ?%elem_of_seq. lia.
Qed.

Lemma cap_drops : D = evict n L pb0 (length all).
Proof. apply evict_skip. Qed.

Lemma cap_older :
  map snd (survivors D (imap pair all)) = map snd (survivors D (imap pair rows)) ++ [keep].
Proof.
  rewrite cap_indexed. unfold survivors. rewrite List.filter_app, map_app. f_equal. cbn.
  rewrite bool_decide_false; [done|]. intros [? _]%evict_incl. done.
Qed.

Lemma survivors_perm D' L1 L2 : L1 ≡ₚ L2 -> survivors D' L1 ≡ₚ survivors D' L2.
Proof. apply filter_perm. Qed.

Lemma cap_counts :
  (forall b, length (of_burrow b (map snd (survivors D (imap pair all)))) <= MAX_PUSH_SUBSCRIPTIONS_PER_BURROW)%nat /\
  (length (map snd (survivors D (imap pair all))) <= MAX_PUSH_SUBSCRIPTIONS_PER_ACCOUNT)%nat.
Proof.
  destruct cap_NoDup as [Hnd Hn].
  destruct (evict_caps n L pb0 (length all) (fun b => length (of_burrow b [keep])) 1 Hnd Hn) as [H1 H2].
  - intros b. unfold pb0. rewrite counts_spec. cbn [count_of]. rewrite (nb_perm _ _ _ cap_perm). unfold nb. rewrite indexed_snd.
    unfold all, of_burrow. rewrite List.filter_app, length_app. cbn. lia.
  - rewrite cap_perm, length_imap. unfold all. rewrite length_app. cbn. lia.
  - intros b. unfold of_burrow. cbn. by case_match; cbn; unfold MAX_PUSH_SUBSCRIPTIONS_PER_BURROW; lia.
  - unfold MAX_PUSH_SUBSCRIPTIONS_PER_ACCOUNT. lia.
  - rewrite <- cap_drops in H1, H2. rewrite cap_older. split.
    + intros b. specialize (H1 b). rewrite (nb_perm _ _ _ (survivors_perm D _ _ cap_perm)) in H1.
      unfold of_burrow. rewrite List.filter_app, length_app. unfold nb, of_burrow in H1. lia.
    + rewrite length_app, length_map. rewrite (Permutation_length (survivors_perm D _ _ cap_perm)) in H2. cbn. lia.
Qed.

Lemma cap_newest i j r r' :
  rows !! i = Some r -> rows !! j = Some r' -> text_at "burrowId" r = text_at "burrowId" r' ->
  i ∈ D -> j ∉ D -> (number_at "subscribedAt" r <= number_at "subscribedAt" r')%Z.
Proof.
  intros Hi%indexed_in Hj Hb Hd Hk. pose proof (lookup_lt_Some _ _ _ Hj) as Hlt. apply indexed_in in Hj.
  rewrite <- cap_perm in Hi, Hj. rewrite cap_drops in Hd, Hk.
  apply (evict_oldest n L pb0 (length all) (i, r) (j, r')); try done; [apply cap_NoDup| |cbn; unfold n; lia].
  apply filter_StronglySorted. apply sort_by_spec.
Qed.

Lemma cap_nothing :
  (length all <= MAX_PUSH_SUBSCRIPTIONS_PER_ACCOUNT)%nat ->
  (forall b, length (of_burrow b all) <= MAX_PUSH_SUBSCRIPTIONS_PER_BURROW)%nat -> D = [].
Proof.
  intros Ht Hb. destruct D as [|i D'] eqn:E; [done|]. exfalso.
  assert (Hi : i ∈ D) by (rewrite E; by left). rewrite cap_drops in Hi. pose proof Hi as [_ Hin]%evict_incl.
  apply list_elem_of_fmap in Hin as (ir & -> & Hin). revert Hi.
  apply (evict_stops n L pb0 (length all) (burrow_of ir)); try done; [|apply cap_NoDup].
  unfold pb0. rewrite counts_spec. cbn. apply Hb.
Qed.

End cap.

(** Capping keeps the row just committed, as the last, and of the others a
    selection in their order: at most 32 rows of any Burrow and 256 in all; every
    row when both caps already held; and of each Burrow the newest, for no row
    kept is older than a row dropped of the same Burrow. *)
Theorem capSubscriptions_correct rows keep :
  exists dropped : list nat,
    capSubscriptions rows keep = map snd (survivors dropped (imap pair rows)) ++ [keep] /\
    (length (capSubscriptions rows keep) <= 256)%nat /\
    (forall b, length (of_burrow b (capSubscriptions rows keep)) <= 32)%nat /\
    ((length (rows ++ [keep]) <= 256)%nat -> (forall b, length (of_burrow b (rows ++ [keep])) <= 32)%nat ->
       capSubscriptions rows keep = rows ++ [keep]) /\
    (forall i j r r', rows !! i = Some r -> rows !! j = Some r' -> text_at "burrowId" r = text_at "burrowId" r' ->
       i ∈ dropped -> j ∉ dropped -> (number_at "subscribedAt" r <= number_at "subscribedAt" r')%Z).
Proof.
  unfold capSubscriptions. destruct (Nat.leb_spec (length (rows ++ [keep])) MAX_PUSH_SUBSCRIPTIONS_PER_BURROW) as [Hs|_].
  - exists []. unfold survivors. rewrite filter_id_in by done. rewrite indexed_snd. unfold MAX_PUSH_SUBSCRIPTIONS_PER_BURROW in Hs.
    split_and!; try done; [lia| |by intros ? ? ? ? ? ? ? ?%elem_of_nil]. intros b. unfold of_burrow.
    pose proof (List.filter_length_le (fun r => text_at "burrowId" r =s? b) (rows ++ [keep])). lia.
  - set (D := evict _ _ _ _). exists D. destruct (cap_counts rows keep) as [H1 H2].
    fold (survivors D (imap pair (rows ++ [keep]))).
    split; [apply cap_older|]. split; [apply H2|]. split; [apply H1|]. split; [|intros ? ? ? ?; apply cap_newest].
    intros Ht Hb. rewrite (cap_nothing rows keep Ht Hb : D = []). unfold survivors. rewrite filter_id_in by done. apply indexed_snd.
Qed.
