(* ===== verification/RelayRecords.v ===== *)
(** * Singleton records of the Relay (relay/src/state.ts)

    Runs of the record calls in a world where any call may fail: a present file is
    never written over by minting, and what the account store appends is found
    again. *)
From Stdlib Require Import ZArith.
From S2P Require Import Prelude JsValue AsyncFiles RelayState.
#[local] Open Scope string_scope.
#[local] Open Scope list_scope.

(** A failure of the file system other than absence. *)
Definition io_failure {A} (r : settled A) : Prop := exists code, code <> "ENOENT" /\ r = Rejected (EIo code).

Lemma string_length_app (s1 s2 : string) : String.length (s1 +:+ s2) = (String.length s1 + String.length s2)%nat.
Proof. induction s1 as [|c s1 IH]; [done|]. exact (f_equal S IH). Qed.

Section record.
  Variable path : string.

(** What reading the file answers when it does not fail. *)
Definition file_value (w : World) : settled (option JsValue) :=
  match files w !! path with
  | None => Resolved None
  | Some (_, Malformed) => Rejected ESyntax
  | Some (_, Encodes v) => Resolved (Some v)
  end.

Lemma runs_readIfExists w r w' : runs (readIfExists path) w r w' -> w' = w /\ (r = file_value w \/ io_failure r).
Proof.
  unfold readIfExists, file_value. cbn. intros (x & w1 & [-> Ha] & H). destruct x as [t|e].
  - destruct Ha as [k ->]. destruct t as [|v]; cbn in H; destruct H as [-> ->]; (split; [done|by left]).
  - destruct e as [| |code| | | | |]; try done. destruct (decide (code = "ENOENT")) as [->|Hc].
    + rewrite Ha by done. rewrite bool_decide_true in H by done. destruct H as [-> ->]. split; [done|by left].
    + rewrite bool_decide_false in H by done. destruct H as [-> ->]. split; [done|]. right. by exists code.
Qed.

Lemma tmp_path_ne uuid : tmp_path path uuid <> path.
Proof.
  unfold tmp_path. intros E. apply (f_equal String.length) in E. rewrite !string_length_app in E. cbn in E. lia.
Qed.

(** Only the rename at the end of a write changes the file. *)
Lemma runs_writeAtomic v w r w' :
  runs (writeAtomic path v) w r w' ->
  (r = Resolved tt /\ exists k, files w' !! path = Some (k, Encodes v)) \/
  ((exists code, r = Rejected (EIo code)) /\ files w' !! path = files w !! path).
Proof.
  unfold writeAtomic. cbn. intros (r1 & w1 & [-> H1] & H). destruct r1 as [[]|e1].
  2:{ destruct H1 as [code ->]. cbn in H. destruct H as [-> ->]. right. split; [by exists code|done]. }
  cbn in H. destruct H as (uuid & w1 & -> & r2 & w2 & H2 & H). destruct r2 as [[]|e2].
  2:{ destruct H2 as [[code ->] H2]. cbn in H. destruct H as [-> ->]. right. split; [by exists code|].
      destruct H2 as [->|(k & t' & _ & ->)]; [done|]. cbn. by rewrite lookup_insert_ne by apply tmp_path_ne. }
  destruct H2 as (k & _ & ->). cbn in H. destruct H as (r3 & w3 & H3 & H). destruct r3 as [[]|e3].
  2:{ destruct H3 as [[code ->] ->]. cbn in H. destruct H as [-> ->]. right. split; [by exists code|]. cbn.
      by rewrite lookup_insert_ne by apply tmp_path_ne. }
  destruct H3 as (_ & f & Hf & ->). cbn in Hf. rewrite lookup_insert_eq in Hf. injection Hf as <-.
  cbn in H. destruct H as ([] & w4 & -> & -> & ->). left. split; [done|]. exists k. cbn. by rewrite lookup_insert_eq.
Qed.

Section shape.
  Variables (what : string) (isValid : JsValue -> bool).

(** What loading answers when the file system does not fail. *)
Definition loaded (w : World) : settled (option JsValue) :=
  match files w !! path with
  | None => Resolved None
  | Some (_, Malformed) => Rejected (ECorrupt path what)
  | Some (_, Encodes v) => if isValid v then Resolved (Some v) else Rejected (ECorrupt path what)
  end.

Lemma runs_loadRecord w r w' :
  runs (loadRecord path what isValid) w r w' -> w' = w /\ (r = loaded w \/ io_failure r).
Proof.
  unfold loadRecord. rewrite runs_try. intros (r1 & w1 & H1 & H). apply runs_readIfExists in H1 as [-> H1].
  unfold loaded, file_value in *. destruct H1 as [->|(code & Hc & ->)].
  - destruct (files w !! path) as [[k [|v]]|]; [destruct H as [-> ->]; split; [done|by left]| |destruct H as [-> ->]; split; [done|by left]].
    destruct (isValid v); destruct H as [-> ->]; (split; [done|by left]).
  - destruct H as [-> ->]. split; [done|]. right. by exists code.
Qed.

(** The branches of [loadOrCreateRecord]. *)
Definition minted_or_kept (w : World) (r : settled JsValue) (w' : World) : Prop :=
  match loaded w with
  | Resolved None =>
      (exists v k, r = Resolved v /\ isValid v = true /\ files w' !! path = Some (k, Encodes v)) \/
      ((exists e, r = Rejected e) /\ files w' !! path = None)
  | Resolved (Some v) => (r = Resolved v \/ io_failure r) /\ w' = w
  | Rejected e => (r = Rejected e \/ io_failure r) /\ w' = w
  end.

Lemma runs_loadOrCreate create w r w' :
  runs (loadOrCreateRecord path what isValid create) w r w' -> minted_or_kept w r w'.
Proof.
  unfold loadOrCreateRecord, minted_or_kept. rewrite runs_await. intros [(a & w1 & H1 & H)|(e & H1 & ->)]; apply runs_loadRecord in H1 as [-> H1].
  2:{ destruct H1 as [<-|(code & Hc & [= ->])]; [split; [by left|done]|].
      assert (Hio : io_failure (Rejected (A:=JsValue) (EIo code))) by (by exists code).
      destruct (loaded w) as [[v|]|e'] eqn:El; [split; [by right|done]| |split; [by right|done]].
      right. split; [by eexists|]. unfold loaded in El. destruct (files w !! path) as [[k [|v]]|]; try done. by destruct (isValid v). }
  destruct H1 as [E1|(code & _ & [=])]. rewrite <- E1. destruct a as [v|]; [destruct H as [-> ->]; split; [by left|done]|].
  assert (Hn : loaded w = Resolved None -> files w !! path = None).
  { unfold loaded. destruct (files w !! path) as [[k [|v]]|]; try done. by destruct (isValid v). }
  specialize (Hn (eq_sym E1)). apply runs_await in H as [(now & w1 & H1 & H)|(e & H1 & ->)];
    apply runs_call in H1 as (x & -> & H1); [|done]. injection H1 as ->. cbv zeta in H.
  set (v := JObject _) in H. destruct (isValid v) eqn:Hv; cbn [negb] in H.
  2:{ destruct H as [-> ->]. right. split; [by eexists|done]. }
  apply runs_await in H as [([] & w1 & H1 & H)|(e & H1 & ->)]; apply runs_writeAtomic in H1.
  - destruct H as [-> ->]. destruct H1 as [(_ & k & Hk)|((code & [=]) & _)]. left. by exists v, k.
  - destruct H1 as [([=] & _)|(_ & Hf)]. right. split; [by eexists|congruence].
Qed.

End shape.
End record.

(** Minting never writes over what is there. Whatever fails on the way: a
    present record is answered as it is with the file untouched; a corrupt file
    is refused as such and left untouched; over an absent file a valid record is
    put in place, or the call rejects and the file is still absent; and a record
    once answered is what every later call answers, whatever its generator would
    have made. *)
Theorem loadOrCreate_never_overwrites path what isValid create w r w' :
  runs (loadOrCreateRecord path what isValid create) w r w' ->
  minted_or_kept path what isValid w r w' /\
  (forall v create' r2 w2, r = Resolved v -> runs (loadOrCreateRecord path what isValid create') w' r2 w2 ->
     (r2 = Resolved v \/ io_failure r2) /\ w2 = w').
Proof.
  intros Hr%runs_loadOrCreate. split; [done|]. intros v create' r2 w2 -> Hr2%runs_loadOrCreate.
  assert (Hl : loaded path what isValid w' = Resolved (Some v)).
  { unfold minted_or_kept in Hr. destruct (loaded path what isValid w) as [[v'|]|e] eqn:El.
    - destruct Hr as [[[= ->]|(code & _ & [=])] ->]. exact El.
    - destruct Hr as [(v' & k & [= ->] & Hv & Hf)|([e [=]] & _)]. unfold loaded. by rewrite Hf, Hv.
    - destruct Hr as [[[=]|(code & _ & [=])] _]. }
  unfold minted_or_kept in Hr2. by rewrite Hl in Hr2.
Qed.

Definition sample_password : string := "0123456789abcdef0123456789abcdef0123456789abcdef0123456789abcdef".

Definition minted_world : World := (run_prog 7 (SetupPasswordStore.loadOrCreate sample_password) empty_world).2.

Lemma loadOrCreate_never_overwrites_witness :
  exists r w',
    runs (loadOrCreateRecord "vapid.json" "VAPID keypair" VapidStore.isStoredVapidKeys []) (put_file "vapid.json" "k" Malformed empty_world) r w' /\
    minted_or_kept "vapid.json" "VAPID keypair" VapidStore.isStoredVapidKeys (put_file "vapid.json" "k" Malformed empty_world) r w'.
Proof.
  exists (Rejected (ECorrupt "vapid.json" "VAPID keypair")), (put_file "vapid.json" "k" Malformed empty_world).
  assert (H : runs (loadOrCreateRecord "vapid.json" "VAPID keypair" VapidStore.isStoredVapidKeys [])
    (put_file "vapid.json" "k" Malformed empty_world) (Rejected (ECorrupt "vapid.json" "VAPID keypair"))
    (put_file "vapid.json" "k" Malformed empty_world)).
  { exists (Resolved Malformed), (put_file "vapid.json" "k" Malformed empty_world). split; [|done]. split; [done|]. by exists "k". }
  split; [exact H|]. apply (loadOrCreate_never_overwrites _ _ _ _ _ _ _ H).
Defined.

(** The password is minted once, and a second boot with another generator keeps it. *)
Example minted_once :
  (run_prog 7 (SetupPasswordStore.loadOrCreate sample_password) empty_world).1 = Resolved sample_password /\
  (run_prog 8 (SetupPasswordStore.loadOrCreate "other") minted_world).1 = Resolved sample_password.
Proof. by vm_compute. Qed.

(** ** The account *)

Import AccountStore.

Lemma find_row_app id rows row :
  find_row id rows = Resolved None -> js_string (js_field "credentialId" row) = Some id ->
  find_row id (rows ++ [row]) = Resolved (Some row).
Proof.
  intros Hn Hrow. induction rows as [|r rows IH]; cbn [app find_row] in *.
  - rewrite bool_decide_true by done. by destruct row.
  - destruct r; try done; cbn in Hn |- *; try (by apply IH). all: case_bool_decide; try done; by apply IH.
Qed.

Lemma isAccount_inv account :
  isAccount account = true -> exists fields rows, account = JObject fields /\ js_field "passkeys" account = JArray rows /\
    js_is_string (js_field "accountId" account) = true.
Proof.
  unfold isAccount. intros [[Ho Hs]%andb_prop Hp]%andb_prop. destruct account; try done. destruct (js_field "passkeys" _) eqn:E; try done.
  by eexists _, _.
Qed.

Lemma js_field_set_eq name v fields : js_field name (JObject (omap_set name v fields)) = v.
Proof. cbn. by rewrite omap_get_set_eq. Qed.

Lemma js_field_set_ne name name' v fields :
  name <> name' -> js_field name (JObject (omap_set name' v fields)) = js_field name (JObject fields).
Proof. intros. cbn. by rewrite omap_get_set_ne. Qed.

(** The rows a loaded account holds; none on first registration. *)
Definition account_rows (a : option JsValue) : list JsValue := from_option passkeys [] a.

Definition appended (a : option JsValue) (id : string) (r : settled JsValue) (w' : World) : Prop :=
  exists row account k, r = Resolved account /\ files w' !! path = Some (k, Encodes account) /\ isAccount account = true /\
    passkeys account = account_rows a ++ [row] /\ find_row id (account_rows a) = Resolved None /\
    find_row id (passkeys account) = Resolved (Some row).

Lemma runs_appendPasskey passkey id w r w' :
  js_string (js_field "credentialId" (JObject passkey)) = Some id ->
  runs (appendPasskey passkey) w r w' ->
  match loaded path "account record" isAccount w with
  | Rejected e => (r = Rejected e \/ io_failure r) /\ w' = w
  | Resolved a => appended a id r w' \/ (exists e, r = Rejected e) /\ files w' !! path = files w !! path
  end.
Proof.
  intros Hid. unfold appendPasskey. rewrite runs_await. unfold text_at. rewrite Hid. cbn [default].
  intros [(a & w1 & H1 & H)|(e & H1 & ->)]; apply runs_loadRecord in H1 as [-> H1].
  2:{ destruct H1 as [<-|(code & Hc & [= ->])]; [split; [by left|done]|].
      assert (Hio : io_failure (Rejected (A:=JsValue) (EIo code))) by (by exists code).
      destruct (loaded _ _ _ w); [|split; [by right|done]]. right. split; [by eexists|done]. }
  destruct H1 as [E1|(code & _ & [=])]. rewrite <- E1.
  set (fields := match a with Some (JObject fields) => fields | _ => _ end) in H. cbv zeta in H.
  assert (Hf : passkeys (JObject fields) = account_rows a /\ js_is_string (js_field "accountId" (JObject fields)) = true).
  { destruct a as [account|]; [|done]. unfold loaded in E1. destruct (files w !! path) as [[k [|v]]|]; try done.
    destruct (isAccount v) eqn:Ha; [|done]. injection E1 as ->. by apply isAccount_inv in Ha as (fs & rows & -> & _ & Ha). }
  destruct Hf as [Hf Hacc]. rewrite Hf in H.
  apply runs_await in H as [(dup & w1 & H1 & H)|(e & H1 & ->)]; destruct H1 as [H1 ->]; [|right; split; [by eexists|done]].
  destruct dup as [row|]; [destruct H as [-> ->]; right; split; [by eexists|done]|].
  apply runs_await in H as [(now & w1 & H2 & H)|(e & H2 & ->)]; apply runs_call in H2 as (x & -> & H2); [|done].
  injection H2 as ->. cbv zeta in H. set (row := JObject (omap_set "createdAt" _ _)) in H. set (account := JObject _) in H.
  apply runs_await in H as [([] & w1 & H2 & H)|(e & H2 & ->)]; apply runs_writeAtomic in H2.
  - destruct H as [-> ->]. destruct H2 as [(_ & k & Hk)|((code & [=]) & _)]. left. exists row, account, k.
    assert (Ep : passkeys account = account_rows a ++ [row]) by (unfold passkeys, account; by rewrite js_field_set_eq).
    split_and!; try done.
    + unfold isAccount, account. rewrite js_field_set_eq, js_field_set_ne by done. by rewrite Hacc.
    + rewrite Ep. apply find_row_app; [done|]. unfold row. by rewrite js_field_set_ne.
  - destruct H2 as [([=] & _)|(_ & Hw)]. right. split; [by eexists|done].
Qed.

(** Appending a passkey. A corrupt account file is refused and left as it is;
    otherwise, whatever fails on the way, the file either keeps its text, or holds
    the account with the passkey added after the others, none of which had its
    id; and then a lookup of that id finds this passkey. *)
Theorem appendPasskey_correct passkey id w r w' :
  js_string (js_field "credentialId" (JObject passkey)) = Some id ->
  runs (appendPasskey passkey) w r w' ->
  match loaded path "account record" isAccount w with
  | Rejected e => (r = Rejected e \/ io_failure r) /\ w' = w
  | Resolved a => appended a id r w' \/ (exists e, r = Rejected e) /\ files w' !! path = files w !! path
  end /\
  (forall account r2 w2, r = Resolved account -> runs (findPasskey id) w' r2 w2 ->
     (exists row, r2 = find_row id (passkeys account) /\ r2 = Resolved (Some row)) \/ io_failure r2).
Proof.
  intros Hid Hr%(runs_appendPasskey _ id); [|done]. split; [exact Hr|]. intros account r2 w2 -> Hr2.
  destruct (loaded _ _ _ w) as [a|e]; [|by destruct Hr as [[[=]|(code & _ & [=])] _]].
  destruct Hr as [(row & acc & k & [= <-] & Hk & Hacc & _ & _ & Hrow)|[[e [=]] _]].
  unfold findPasskey in Hr2. apply runs_await in Hr2 as [(a2 & w3 & H1 & H2)|(e & H1 & ->)]; apply runs_loadRecord in H1 as [-> H1];
    unfold loaded in H1; rewrite Hk, Hacc in H1; destruct H1 as [H1|(code & Hc & H1)]; try done.
  - injection H1 as ->. destruct H2 as [-> ->]. left. by exists row.
  - injection H1 as ->. right. by exists code.
Qed.

Definition sample_passkey (id : string) : list (string * JsValue) :=
  [("credentialId", JString id); ("publicKey", JString "pk"); ("label", JString "phone")].

Definition registered_world : World := (run_prog 7 (appendPasskey (sample_passkey "c1")) empty_world).2.

(** A second passkey is appended, the same one is refused, and a row a hand edit
    left as [null] makes every lookup past it throw. *)
Example passkeys_found :
  (run_prog 9 (findPasskey "c1") registered_world).1 =
    Resolved (Some (JObject (sample_passkey "c1" ++ [("createdAt", JNumber 7)]))) /\
  (run_prog 9 (appendPasskey (sample_passkey "c1")) registered_world).1 = Rejected (EDuplicateCredential "c1") /\
  (run_prog 9 (findPasskey "c1")
     (put_file path "k" (Encodes (JObject [("accountId", JString "owner"); ("passkeys", JArray [JNull])])) empty_world)).1 = Rejected EType.
Proof. by vm_compute. Qed.

Lemma appendPasskey_correct_witness :
  exists r w', runs (appendPasskey (sample_passkey "c1")) (put_file path "k" Malformed empty_world) r w' /\
    r = Rejected (ECorrupt path "account record") /\ w' = put_file path "k" Malformed empty_world.
Proof.
  set (w := put_file path "k" Malformed empty_world).
  exists (Rejected (ECorrupt path "account record")), w.
  assert (H : runs (appendPasskey (sample_passkey "c1")) w (Rejected (ECorrupt path "account record")) w).
  { exists (Resolved Malformed), w. split; [|done]. split; [done|]. by exists "k". }
  split; [exact H|]. destruct (appendPasskey_correct (sample_passkey "c1") "c1" w _ w eq_refl H) as [H1 _].
  split; [done|]. exact (proj2 H1).
Defined.
