(* ===== verification/AsyncLogic.v ===== *)
(** * Reasoning about interleaved functions

    A rely/guarantee logic for the trees of AsyncFiles.v: between two calls of a
    function the rest of the process may change the world as [rely] says; each
    call keeps [ok] and changes the world as [guar] says. *)
From Stdlib Require Import ZArith.
From S2P Require Import Prelude JsValue AsyncFiles.
#[local] Open Scope string_scope.

Section wp.
  Variables (rely : World -> World -> Prop) (ok : World -> Prop) (guar : World -> World -> Prop).
  Context (rely_refl : forall w, rely w w) (rely_trans : forall w1 w2 w3, rely w1 w2 -> rely w2 w3 -> rely w1 w3).

(** The function may go on from a world; [Q] holds of its result. *)
Fixpoint wp {A} (Q : settled A -> World -> Prop) (p : Prog A) (w : World) : Prop :=
  match p with
  | Done r => forall w1, rely w w1 -> ok w1 -> Q r w1
  | Vis e k => forall w1, rely w w1 -> ok w1 -> forall x w2, answers e w1 x w2 -> ok w2 /\ guar w1 w2 /\ wp Q (k x) w2
  end.

Lemma wp_rely {A} (Q : settled A -> World -> Prop) p w w' : rely w w' -> wp Q p w -> wp Q p w'.
Proof. intros Hr. destruct p; cbn; intros H w1 H1; apply H; by eapply rely_trans. Qed.

(** What holds after any interference holds now. *)
Lemma wp_later {A} (Q : settled A -> World -> Prop) p w : (forall w1, rely w w1 -> ok w1 -> wp Q p w1) -> wp Q p w.
Proof. intros H. destruct p; cbn in *; intros w1 H1 Hok; by eapply H. Qed.

Lemma wp_try {A B} (Q : settled B -> World -> Prop) (p : Prog A) (k : settled A -> Prog B) w :
  wp (fun r w1 => wp Q (k r) w1) p w -> wp Q (try_ p k) w.
Proof.
  revert w. induction p as [r|X e c IH]; intros w; cbn [wp try_]; intros H; [by apply wp_later|].
  intros w1 H1 Hok x w2 Ha. destruct (H w1 H1 Hok x w2 Ha) as (Hok2 & Hg & Hw). split; [done|]. split; [done|]. by apply IH.
Qed.

Lemma wp_mono {A} (Q Q' : settled A -> World -> Prop) p w :
  (forall r w1, ok w1 -> Q r w1 -> Q' r w1) -> wp Q p w -> wp Q' p w.
Proof.
  intros HQ. revert w. induction p as [r|X e c IH]; intros w; cbn [wp]; intros H w1 H1 Hok; [by apply HQ, H|].
  intros x w2 Ha. destruct (H w1 H1 Hok x w2 Ha) as (? & ? & ?). split; [done|]. split; [done|]. by apply IH.
Qed.

(** [await]: a rejection ends the function. *)
Lemma wp_await {A B} (Q : settled B -> World -> Prop) (p : Prog A) (k : A -> Prog B) w :
  wp (fun r w1 => match r with Resolved a => wp Q (k a) w1 | Rejected e => wp Q (throw e) w1 end) p w -> wp Q (await p k) w.
Proof. intros H. apply wp_try. eapply wp_mono; [|exact H]. intros [a|e] w1 _; done. Qed.

Lemma wp_call {X} (Q : settled X -> World -> Prop) (e : Call X) w :
  (forall w1, rely w w1 -> ok w1 -> forall x w2, answers e w1 x w2 -> ok w2 /\ guar w1 w2 /\
     forall w3, rely w2 w3 -> ok w3 -> Q (Resolved x) w3) -> wp Q (call e) w.
Proof. done. Qed.

(** A call whose answer is settled. *)
Lemma wp_settled {A} (Q : settled A -> World -> Prop) (e : Call (settled A)) w :
  (forall w1, rely w w1 -> ok w1 -> forall r w2, answers e w1 r w2 -> ok w2 /\ guar w1 w2 /\
     forall w3, rely w2 w3 -> ok w3 -> Q r w3) -> wp Q (Vis e Done) w.
Proof. done. Qed.

Lemma wp_done {A} (Q : settled A -> World -> Prop) r w : (forall w1, rely w w1 -> ok w1 -> Q r w1) -> wp Q (Done r) w.
Proof. done. Qed.

End wp.

(** ** A store's file, its temporary files and its cache *)

Section store_ok.
  Variable path : string.

Definition own (q : string) : Prop := q = path \/ exists u, q = tmp_path path u.

(** The identity was at the path and either still is, or is gone for good. *)
Definition seen (w : World) (k : StatKey) : Prop := (exists t, files w !! path = Some (k, t)) \/ k ∈ gone w.

(** What a cache entry says is so: of the text of that identity, unless it is gone. *)
Definition coherent (w : World) (k : StatKey) (v : JsValue) : Prop :=
  v <> JNull /\ (keys w !! k = Some (Encodes v) \/ k ∈ gone w).

Record store_ok (w : World) : Prop := {
  so_files : forall q k t, own q -> files w !! q = Some (k, t) -> keys w !! k = Some t /\ k ∉ gone w;
  so_distinct : forall q1 q2 k t1 t2, own q1 -> own q2 -> files w !! q1 = Some (k, t1) -> files w !! q2 = Some (k, t2) -> q1 = q2;
  so_gone : gone w ⊆ dom (keys w);
  so_cache : forall k v, caches w !! path = Some (k, v) -> coherent w k v }.

(** What no step of the process ever undoes. *)
Definition evolves (w w' : World) : Prop :=
  keys w ⊆ keys w' /\ gone w ⊆ gone w' /\ forall k, seen w k -> seen w' k.

Lemma evolves_refl w : evolves w w.
Proof. by split_and!. Qed.

Lemma evolves_trans w1 w2 w3 : evolves w1 w2 -> evolves w2 w3 -> evolves w1 w3.
Proof. intros (A1 & A2 & A3) (B1 & B2 & B3). split_and!; [by etrans|by etrans|auto]. Qed.

Lemma coherent_evolves w w' k v : coherent w k v -> evolves w w' -> coherent w' k v.
Proof. intros [Hv H] (Hk & Hg & _). split; [done|]. destruct H as [H|H]; [left; by eapply lookup_weaken|right; by apply Hg]. Qed.

(** The calls a function of this store may make. *)
Definition call_ok {X} (e : Call X) (w : World) : Prop :=
  match e with
  | WriteFile q _ => exists u, q = tmp_path path u
  | Rename from to => (exists u, from = tmp_path path u) /\ to = path
  | SetCache q (Some (k, v)) => q = path /\ coherent w k v
  | SetCache q None => q = path
  | _ => True
  end.

Lemma key_at_elem q w k : k ∈ key_at q w <-> exists t, files w !! q = Some (k, t).
Proof.
  unfold key_at. destruct (files w !! q) as [[k' t]|]; [rewrite elem_of_singleton|rewrite elem_of_empty]; split.
  - intros ->. by exists t.
  - by intros (? & [= -> _]).
  - done.
  - by intros [? ?].
Qed.

(** A file that a step takes from one of the store's paths. *)
Lemma key_at_known w q k : store_ok w -> own q -> k ∈ key_at q w -> is_Some (keys w !! k).
Proof. intros Hok Hq (t & Hf)%key_at_elem. destruct (so_files _ Hok q k t Hq Hf) as [-> _]. by eexists. Qed.

Lemma gone_after w q : store_ok w -> own q -> gone w ∪ key_at q w ⊆ dom (keys w).
Proof.
  intros Hok Hq k [Hk|Hk]%elem_of_union; [by apply (so_gone _ Hok)|]. apply elem_of_dom. by eapply key_at_known.
Qed.

Lemma put_file_evolves q k t w : keys w !! k = None -> evolves w (put_file q k t w).
Proof.
  intros Hk. split_and!; cbn; [by apply insert_subseteq|set_unfold; tauto|]. intros k' [[t' Hf]|Hg]; [|right; cbn; set_unfold; tauto].
  destruct (decide (q = path)) as [->|Hq].
  - right. cbn. apply elem_of_union_r, key_at_elem. by exists t'.
  - left. exists t'. cbn. by rewrite lookup_insert_ne.
Qed.

Lemma put_file_ok q k t w : store_ok w -> keys w !! k = None -> own q -> store_ok (put_file q k t w).
Proof.
  intros Hok Hk Hq. pose proof (gone_after w q Hok Hq) as Hg. assert (Hkg : k ∉ gone w ∪ key_at q w).
  { intros Hin%Hg. apply elem_of_dom in Hin as [? ?]. congruence. }
  assert (Hother : forall q' k' t', q' <> q -> own q' -> files w !! q' = Some (k', t') ->
    k' <> k /\ keys w !! k' = Some t' /\ k' ∉ gone w ∪ key_at q w).
  { intros q' k' t' Hne Hq' Hf. destruct (so_files _ Hok q' k' t' Hq' Hf) as [Hk' Hg']. split_and!; [congruence|done|].
    intros [?|(t'' & Hf')%key_at_elem]%elem_of_union; [done|]. apply Hne. by eapply (so_distinct _ Hok). }
  split; cbn.
  - intros q' k' t' Hq' Hf. destruct (decide (q' = q)) as [->|Hne].
    + rewrite lookup_insert_eq in Hf. injection Hf as <- <-. by rewrite lookup_insert_eq.
    + rewrite lookup_insert_ne in Hf by done. destruct (Hother q' k' t' Hne Hq' Hf) as (H1 & H2 & H3).
      by rewrite lookup_insert_ne.
  - intros q1 q2 k' t1 t2 H1 H2. destruct (decide (q1 = q)) as [->|N1], (decide (q2 = q)) as [->|N2];
      rewrite ?lookup_insert_eq, ?lookup_insert_ne by done; [done| | |by apply (so_distinct _ Hok)].
    + intros [= -> _] Hf. by destruct (Hother q2 k' t2 N2 H2 Hf).
    + intros Hf [= -> _]. by destruct (Hother q1 k' t1 N1 H1 Hf).
  - rewrite dom_insert. set_solver.
  - intros k' v Hc. eapply coherent_evolves; [by apply (so_cache _ Hok)|by apply put_file_evolves].
Qed.

(** A step that only loses a file of the store, or moves one over another. *)
Lemma fewer_files_ok w fs q c tr :
  store_ok w -> own q ->
  (forall q' f, own q' -> fs !! q' = Some f -> (f.1 ∉ key_at q w) /\ exists q0, own q0 /\ files w !! q0 = Some f) ->
  (forall q1 q2 k t1 t2, own q1 -> own q2 -> fs !! q1 = Some (k, t1) -> fs !! q2 = Some (k, t2) -> q1 = q2) ->
  (forall k v, c !! path = Some (k, v) -> coherent (mkWorld fs c (keys w) (gone w ∪ key_at q w) tr) k v) ->
  store_ok (mkWorld fs c (keys w) (gone w ∪ key_at q w) tr).
Proof.
  intros Hok Hq Hfs Hd Hc. split; cbn; [|done|by apply gone_after|done]. intros q' k t Hq' Hf.
  destruct (Hfs q' (k, t) Hq' Hf) as [Hn (q0 & Hq0 & H0)]. destruct (so_files _ Hok q0 k t Hq0 H0) as [Hk Hg]. split; [done|].
  cbn in Hn. set_solver.
Qed.

Lemma seen_evolves w w' :
  keys w ⊆ keys w' -> gone w ⊆ gone w' -> (forall k t, files w !! path = Some (k, t) -> (exists t', files w' !! path = Some (k, t')) \/ k ∈ gone w') ->
  evolves w w'.
Proof. intros Hk Hg Hf. split_and!; [done|done|]. intros k [[t Hs]|Hs]; [by eapply Hf|right; by apply Hg]. Qed.

Lemma drop_file_evolves w : evolves w (drop_file path w).
Proof.
  apply seen_evolves; cbn; [done|set_solver|]. intros k t Hf. right. apply elem_of_union_r, key_at_elem. by exists t.
Qed.

Lemma own_path : own path.
Proof. by left. Qed.

Lemma drop_file_ok w : store_ok w -> store_ok (drop_file path w).
Proof.
  intros Hok. apply fewer_files_ok; [done|apply own_path| | |].
  - intros q' [k t] Hq' Hf. apply lookup_delete_Some in Hf as [Hne Hf]. split; [|by exists q'].
    intros (t' & Hf')%key_at_elem. apply Hne. by eapply (so_distinct _ Hok path q'); [apply own_path| |exact Hf'|exact Hf].
  - intros q1 q2 k t1 t2 H1 H2 [_ F1]%lookup_delete_Some [_ F2]%lookup_delete_Some. by eapply (so_distinct _ Hok).
  - intros k v Hc. eapply coherent_evolves; [by apply (so_cache _ Hok)|apply drop_file_evolves].
Qed.

Lemma move_file_evolves from f w : from <> path -> evolves w (move_file from path f w).
Proof.
  intros Hne. apply seen_evolves; cbn; [done|set_solver|]. intros k t Hf. right. apply elem_of_union_r, key_at_elem. by exists t.
Qed.

Lemma move_file_ok from f w :
  store_ok w -> own from -> from <> path -> files w !! from = Some f -> store_ok (move_file from path f w).
Proof.
  intros Hok Hfrom Hne Hf. assert (Hsrc : forall q' f', own q' -> (<[path:=f]> (delete from (files w))) !! q' = Some f' ->
    exists q0, own q0 /\ q0 <> path /\ files w !! q0 = Some f' /\ q0 = if decide (q' = path) then from else q').
  { intros q' f' Hq'. case_decide as E; [subst; rewrite lookup_insert_eq; intros [= <-]; by exists from|].
    rewrite lookup_insert_ne by done. intros [_ ?]%lookup_delete_Some. by exists q'. }
  apply fewer_files_ok; [done|apply own_path| | |].
  - intros q' [k t] Hq' Hq. destruct (Hsrc _ _ Hq' Hq) as (q0 & H0 & Hn & Hf0 & _). split; [|by exists q0].
    intros (t' & Hf')%key_at_elem. apply Hn. by eapply (so_distinct _ Hok q0 path); [|apply own_path|exact Hf0|exact Hf'].
  - intros q1 q2 k t1 t2 H1 H2 F1 F2. destruct (Hsrc _ _ H1 F1) as (p1 & O1 & _ & G1 & E1), (Hsrc _ _ H2 F2) as (p2 & O2 & _ & G2 & E2).
    pose proof (so_distinct _ Hok p1 p2 k t1 t2 O1 O2 G1 G2) as Ep. rewrite Ep in E1.
    destruct (decide (q1 = path)) as [->|N1], (decide (q2 = path)) as [->|N2]; [done| | |congruence].
    + rewrite lookup_insert_ne in F2 by done. apply lookup_delete_Some in F2 as [? _]. congruence.
    + rewrite lookup_insert_ne in F1 by done. apply lookup_delete_Some in F1 as [? _]. congruence.
  - intros k v Hc. eapply coherent_evolves; [by apply (so_cache _ Hok)|by apply (move_file_evolves from f w)].
Qed.

Lemma set_cache_ok c w :
  store_ok w -> (forall k v, c = Some (k, v) -> coherent w k v) ->
  store_ok (set_caches (partial_alter (fun _ => c) path (caches w)) w).
Proof. intros [H1 H2 H3 H4] Hc. split; [exact H1|exact H2|exact H3|]. intros k v. cbn. rewrite lookup_partial_alter_eq. apply Hc. Qed.

(** Each call of the store keeps its invariant. *)
Lemma answers_ok {X} (e : Call X) w x w' :
  store_ok w -> call_ok e w -> answers e w x w' -> store_ok w' /\ evolves w w'.
Proof.
  intros Hok Hc Ha. assert (Hsame : w' = w -> store_ok w' /\ evolves w w') by (intros ->; split; [done|apply evolves_refl]).
  destruct e; cbn in Hc, Ha; try (by apply Hsame, Ha); try (by apply Hsame).
  - assert (Hput : forall k t, keys w !! k = None -> store_ok (put_file path0 k t w) /\ evolves w (put_file path0 k t w)).
    { intros k t Hk. destruct Hc as [u ->]. split; [apply put_file_ok; [done|done|by right; exists u]|by apply put_file_evolves]. }
    destruct x as [u|err]; [destruct Ha as (k & Hk & ->); by apply Hput|].
    destruct Ha as [_ [->|(k & t' & Hk & ->)]]; [by apply Hsame|by apply Hput].
  - destruct Hc as [[u ->] ->]. destruct x as [y|err]; [|by apply Hsame, Ha]. destruct Ha as (Hne & f & Hf & ->).
    split; [apply move_file_ok; try done; by right; exists u|by apply move_file_evolves].
  - subst w'. destruct c as [[k v]|].
    + destruct Hc as [-> Hc]. split; [apply set_cache_ok; [done|by intros ? ? [= <- <-]]|by split_and!].
    + subst. split; [by apply set_cache_ok|by split_and!].
  - subst w'. destruct Hok as [H1 H2 H3 H4]. by split; [split|split_and!].
Qed.

End store_ok.
