(* ===== verification/RelayEnroll.v ===== *)
(** * Concurrent enrollments (relay/src/state.ts, [BurrowStore] and [mutate])

    The Burrow store in a running process: enrollments queue on the promise
    chain [#tail] and run one at a time, lookups run at any moment between their
    calls, other stores work beside them, calls fail, and the file may be edited
    by hand.  Then what the mutex and the cache are for: no enrollment is lost,
    and a lookup answers from the file as it is. *)
From Stdlib Require Import ZArith Ascii.
From coqutil Require Import Byte.
From S2P Require Import Prelude JsValue Bytes Base64 AsyncFiles RelayState RelayRecords AsyncLogic.
Import BurrowStore.
#[local] Open Scope string_scope.
#[local] Open Scope list_scope.

(** ** Reading through the cache *)

(** The answer of a read of a file that does not fail; [null] is absence. *)
Definition present_value (f : option (StatKey * Text)) : settled (option JsValue) :=
  match f with
  | None => Resolved None
  | Some (_, Malformed) => Rejected ESyntax
  | Some (_, Encodes JNull) => Resolved None
  | Some (_, Encodes v) => Resolved (Some v)
  end.

(** Nothing but caches differs. *)
Definition quiet (w w' : World) : Prop :=
  files w' = files w /\ keys w' = keys w /\ gone w' = gone w /\ trace w' = trace w.

Section cached.
  Variables (path : string) (rely guar : World -> World -> Prop).
  (** The file during the read, when nothing may change it. *)
  Variable expected : option (option (StatKey * Text)).

  (** What is known of the world throughout. *)
  Variable P : World -> Prop.

Definition good (r : settled (option JsValue)) : Prop :=
  match expected with Some f => r = present_value f \/ io_failure r | None => True end.

  Context (rely_refl : forall w, rely w w) (rely_trans : forall w1 w2 w3, rely w1 w2 -> rely w2 w3 -> rely w1 w3).
  Context (rely_evolves : forall w w', rely w w' -> evolves path w w').
  Context (P_rely : forall w w', P w -> rely w w' -> P w') (P_quiet : forall w w', P w -> quiet w w' -> P w').
  Context (P_expected : forall w f, P w -> expected = Some f -> files w !! path = f).
  Context (guar_quiet : forall w w', quiet w w' -> guar w w').

Lemma quiet_refl w : quiet w w.
Proof. done. Qed.

Lemma quiet_cache p c w : quiet w (set_caches (partial_alter (fun _ => c) p (caches w)) w).
Proof. done. Qed.

Lemma good_value w : P w -> good (present_value (files w !! path)).
Proof. unfold good. intros H. destruct expected as [f|] eqn:E; [|done]. rewrite (P_expected w f H) by done. by left. Qed.

Lemma good_failure code : code <> "ENOENT" -> good (Rejected (EIo code)).
Proof. unfold good. destruct expected; [|done]. intros Hc. right. by exists code. Qed.

(** The store's cache after a read of a file seen under [key]. *)
Lemma wp_set_cache (Q : settled (option JsValue) -> World -> Prop) c value w :
  P w -> (forall k v, c = Some (k, v) -> coherent w k v) ->
  (forall w', P w' -> Q (Resolved value) w') ->
  wp rely (store_ok path) guar Q (let* _ := call (SetCache path c) in ret value) w.
Proof.
  intros He Hc HQ. apply wp_await; [done|]. apply wp_call. intros w1 H1 Hok x w2 Ha.
  assert (Hco : call_ok path (SetCache path c) w1).
  { cbn. destruct c as [[k v]|]; [|done]. split; [done|]. eapply coherent_evolves; [by apply Hc|by apply rely_evolves]. }
  destruct (answers_ok path _ _ _ _ Hok Hco Ha) as [Hok2 _]. cbn in Ha. subst w2. split; [done|].
  split; [by apply guar_quiet|]. intros w3 H3 _. cbn. intros w4 H4 _. apply HQ.
  eapply P_rely; [|exact H4]. eapply P_rely; [|exact H3]. eapply P_quiet; [|apply (quiet_cache path c)]. by eapply P_rely.
Qed.

(** What a present file's text gives a reader that saw it under [k]. *)
Lemma coherent_read w k k' t v :
  store_ok path w -> seen path w k -> files w !! path = Some (k', t) -> present_value (Some (k', t)) = Resolved (Some v) ->
  coherent w k v.
Proof.
  intros Hok Hs Hf Hv. destruct t as [|v']; [done|]. assert (E : v' = v /\ v <> JNull) by (destruct v'; cbn in Hv; split; congruence).
  destruct E as [-> Hn]. split; [done|]. destruct Hs as [[t' Hk]|Hg]; [|by right]. left.
  rewrite Hf in Hk. injection Hk as -> _. by destruct (so_files _ _ Hok path k (Encodes v) (own_path path) Hf).
Qed.

(** [readIfPresent] is one call and what it makes of the answer. *)
Definition read_answer (r : settled Text) : settled (option JsValue) :=
  match r with
  | Rejected (EIo code) => if code =s? "ENOENT" then Resolved None else Rejected (EIo code)
  | Rejected e => Rejected e
  | Resolved t => present_value (Some ("", t))
  end.

Lemma readIfPresent_vis : exists k, readIfPresent path = Vis (ReadFile path) k /\ forall r, k r = Done (read_answer r).
Proof.
  eexists. split; [reflexivity|]. intros [[|v]|e]; [done|by destruct v|]. destruct e; cbn; by try case_bool_decide.
Qed.

Lemma wp_read_present (Q : settled (option JsValue) -> World -> Prop) key w :
  P w -> (forall k, key = Some k -> seen path w k) ->
  (forall r w', P w' -> good r -> (forall k v, key = Some k -> r = Resolved (Some v) -> coherent w' k v) -> Q r w') ->
  wp rely (store_ok path) guar Q (readIfPresent path) w.
Proof.
  intros He Hk HQ. destruct readIfPresent_vis as (c & -> & Hc). intros w1 H1 Hok r w2 [-> Ha]. split; [done|].
  split; [by apply guar_quiet|]. rewrite Hc. intros w3 H3 _.
  assert (He1 : P w1) by (by eapply P_rely).
  assert (He3 : P w3) by (by eapply P_rely).
  destruct r as [t|e]; cbn [read_answer].
  - destruct Ha as [k' Hf]. pose proof (good_value w1 He1) as Hg. rewrite Hf in Hg.
    change (present_value (Some ("", t))) with (present_value (Some (k', t))). apply HQ; [done|done|].
    intros k v E1 E2. eapply coherent_evolves; [|by apply rely_evolves].
    eapply coherent_read; [done|by apply (rely_evolves _ _ H1), Hk|done|done].
  - destruct e; try done. apply HQ; [done| |by case_bool_decide].
    case_bool_decide as Hcode; [|by apply good_failure]. pose proof (good_value w1 He1) as Hg. by rewrite (Ha Hcode) in Hg.
Qed.

Lemma wp_refresh (Q : settled (option JsValue) -> World -> Prop) key w :
  P w -> seen path w key -> (forall r w', P w' -> good r -> Q r w') ->
  wp rely (store_ok path) guar Q (refresh path key) w.
Proof.
  intros He Hk HQ. unfold refresh. apply wp_await; [done|]. apply (wp_read_present _ (Some key)); [done|by intros ? [= <-]|].
  intros r w' He' Hg Hc. destruct r as [value|e].
  - apply wp_set_cache; [done| |intros w2 He2; by apply HQ]. intros k v E. destruct value as [v'|]; [|done].
    injection E as <- <-. by apply Hc.
  - intros w1 H1 _. apply HQ; [by eapply P_rely|done].
Qed.

(** A read through the cache is a read of the file. *)
Lemma wp_readCached (Q : settled (option JsValue) -> World -> Prop) w :
  P w -> (forall r w', P w' -> good r -> Q r w') ->
  wp rely (store_ok path) guar Q (readCached path) w.
Proof.
  intros He HQ. unfold readCached. apply wp_try; [done|]. intros w1 H1 Hok r w2 [-> Ha]. split; [done|].
  split; [by apply guar_quiet|]. assert (He1 : P w1) by (by eapply P_rely).
  intros w3 H3 Hok3. assert (He3 : P w3) by (by eapply P_rely). destruct r as [key|e].
  - destruct Ha as [t Hf]. assert (Hs3 : seen path w3 key) by (apply (rely_evolves _ _ H3); left; by exists t).
    apply wp_await; [done|]. apply wp_call. intros w4 H4 Hok4 c w5 [-> ->]. split; [done|]. split; [by apply guar_quiet|].
    intros w6 H6 _. assert (He4 : P w4) by (by eapply P_rely). assert (He6 : P w6) by (by eapply P_rely).
    assert (Hs6 : seen path w6 key) by (apply (rely_evolves _ _ H6), (rely_evolves _ _ H4), Hs3).
    destruct (caches w4 !! path) as [[key' value]|] eqn:Ec; [|by apply wp_refresh].
    case_bool_decide as Ek; [|by apply wp_refresh]. subst key'. intros w7 H7 _. apply HQ; [by eapply P_rely|].
    unfold good. destruct expected as [f|] eqn:Eexp; [|done]. left.
    pose proof (P_expected w1 f He1 eq_refl) as Hf1. pose proof (P_expected w4 f He4 eq_refl) as Hf4.
    rewrite Hf in Hf1. rewrite <- Hf1 in Hf4 |- *.
    destruct (so_files _ _ Hok4 path key t (own_path path) Hf4) as [Hk Hng].
    destruct (so_cache _ _ Hok4 key value Ec) as [Hn [Hv|Hv]]; [|done]. rewrite Hk in Hv. injection Hv as ->. by destruct value.
  - destruct e as [| |code| | | | |]; try done. case_bool_decide as Hc.
    + apply wp_set_cache; [done|done|]. intros w4 He4. apply HQ; [done|]. pose proof (good_value w1 He1) as Hg. by rewrite (Ha Hc) in Hg.
    + intros w4 H4 _. apply HQ; [by eapply P_rely|]. by apply good_failure.
Qed.

End cached.

(** ** Enrollment *)

(** A fresh Burrow is a row the store keeps. *)
Lemma digits_exact b : Z.of_nat (length (digits b)) = base64UrlLength (blen b).
Proof.
  induction b as [|a|a b|a b c l IH] using bytes_ind3; [done|done|done|].
  replace (blen (a :: b :: c :: l)) with (blen l + 3)%Z by (unfold blen; cbn; lia).
  rewrite code_length by (unfold blen; lia). cbn [digits]. rewrite length_app, Nat2Z.inj_add, IH. done.
Qed.

Lemma b64_digit d : is_digit d -> b64_unit (digit_unit d) = true.
Proof. revert d. apply (forall_below 64). vm_compute. reflexivity. Qed.

Lemma toBase64Url_exact b : (0 < blen b)%Z -> isExactBase64Url (JString (toBase64Url b)) (base64UrlLength (blen b)) = true.
Proof.
  intros Hb. assert (Hlen : Z.of_nat (String.length (toBase64Url b)) = base64UrlLength (blen b)).
  { rewrite <- digits_exact, <- (length_map digit_unit), <- units_toBase64Url. f_equal. unfold units. rewrite length_map.
    generalize (toBase64Url b). intros s. induction s as [|c s IH]; [done|]. cbn. by rewrite IH. }
  unfold isExactBase64Url, isBoundedBase64Url. rewrite Hlen, Z.eqb_refl, Z.leb_refl, !andb_true_r. apply andb_true_intro. split.
  - apply Z.ltb_lt. unfold base64UrlLength. destruct (blen b mod 3 =? 0)%Z eqn:E; [apply Z.eqb_eq in E; zdiv|]. zdiv.
  - rewrite units_toBase64Url. apply forallb_forall. intros u (d & <- & Hd)%in_map_iff. apply b64_digit.
    pose proof (digits_are_digits b) as Hall. rewrite Forall_forall in Hall. by apply Hall, list_elem_of_In.
Qed.

Lemma new_burrow_stored id token now :
  blen id = E2E_ID_BYTE_LENGTH -> isStoredBurrow (new_burrow id token now) = true.
Proof.
  intros Hid. unfold isStoredBurrow, isE2eId, E2E_ID_LENGTH. cbn [js_is_object new_burrow js_field].
  change (omap_get "burrowId" _) with (Some (JString (toBase64Url id))). cbv iota. rewrite <- Hid.
  rewrite toBase64Url_exact by (rewrite Hid; done). done.
Qed.

(** The rows the file enrolls. *)
Definition rows_of (f : option (StatKey * Text)) : list JsValue :=
  match f with Some (_, Encodes v) => enrolled_rows v | _ => [] end.
Definition rows_at (w : World) : list JsValue := rows_of (files w !! path).

Lemma rows_of_placed f b : isStoredBurrow b = true -> enrolled_rows (JArray (rows_of f ++ [b])) = rows_of f ++ [b].
Proof.
  intros Hb. cbn. rewrite List.filter_app. cbn. rewrite Hb. f_equal. unfold rows_of. destruct f as [[k [|v]]|]; try done.
  unfold enrolled_rows. destruct v; try done. apply forallb_filter_id, forallb_forall. by intros x [_ ?]%filter_In.
Qed.

(** What a call of an enrollment may do to the file and the history. *)
Definition enroll_step (w w' : World) : Prop :=
  (files w' !! path = files w !! path /\
    (trace w' = trace w \/ exists r, trace w' = trace w ++ [Called (bool_decide (files w !! path = None)) r])) \/
  exists b k, isStoredBurrow b = true /\ (length (rows_at w) < MAX_ENROLLED_BURROWS)%nat /\
    files w' !! path = Some (k, Encodes (JArray (rows_at w ++ [b]))) /\
    trace w' = trace w ++ [Placed path (Encodes (JArray (rows_at w ++ [b])))].

Definition same_store (w w' : World) : Prop :=
  (forall q, own path q -> files w' !! q = files w !! q) /\ trace w' = trace w.

Section enroll.
  (** Whether the file is left alone but by enrollments. *)
  Variable alone : bool.

Definition rely (w w' : World) : Prop := evolves path w w' /\ (alone = true -> same_store w w').
Definition guar (w w' : World) : Prop := evolves path w w' /\ (alone = true -> enroll_step w w').

(** The file and the history, when nothing else may change them. *)
Definition at_file (f : option (StatKey * Text)) (T : list Event) (w : World) : Prop :=
  alone = true -> files w !! path = f /\ trace w = T.

Lemma rely_refl w : rely w w.
Proof. split; [apply evolves_refl|]. by intros _. Qed.

Lemma rely_trans w1 w2 w3 : rely w1 w2 -> rely w2 w3 -> rely w1 w3.
Proof.
  intros [A1 A2] [B1 B2]. split; [by eapply evolves_trans|]. intros Ha. destruct (A2 Ha) as [A3 A4], (B2 Ha) as [B3 B4].
  split; [|congruence]. intros q Hq. by rewrite B3, A3.
Qed.

Lemma at_file_rely f T w w' : at_file f T w -> rely w w' -> at_file f T w'.
Proof.
  intros H [_ Hr] Ha. destruct (H Ha) as [Hf HT], (Hr Ha) as [Hs Ht]. split; [|congruence]. by rewrite Hs by apply own_path.
Qed.

Lemma guar_quiet w w' : quiet w w' -> guar w w'.
Proof.
  intros (Hf & Hk & Hg & Ht). split.
  - apply seen_evolves; [by rewrite Hk|by rewrite Hg|]. intros k t. rewrite Hf. intros H. left. by exists t.
  - intros _. left. rewrite Hf, Ht. split; [done|by left].
Qed.

(** A call that leaves file and history alone. *)
Lemma guar_same w w' :
  evolves path w w' -> files w' !! path = files w !! path -> trace w' = trace w -> guar w w'.
Proof. intros He Hf Ht. split; [done|]. intros _. left. split; [done|by left]. Qed.

Abbreviation wpe := (wp rely (store_ok path) guar).

(** The rename that puts the text in place, and the cache dropped after it. *)
Lemma wp_commit (Q : settled unit -> World -> Prop) uuid key v f T w :
  at_file f T w -> (alone = true -> files w !! tmp_path path uuid = Some (key, Encodes v)) ->
  (alone = true -> forall w1 w2 k, files w1 !! path = f -> files w2 !! path = Some (k, Encodes v) ->
     trace w2 = trace w1 ++ [Placed path (Encodes v)] -> enroll_step w1 w2) ->
  (forall w' k, at_file (Some (k, Encodes v)) (T ++ [Placed path (Encodes v)]) w' -> Q (Resolved tt) w') ->
  (forall w' code, at_file f T w' -> Q (Rejected (EIo code)) w') ->
  wpe Q (let* _ := Vis (Rename (tmp_path path uuid) path) Done in call (SetCache path None)) w.
Proof.
  intros Hw Htmp Hstep HQ1 HQ2. apply wp_await; [apply rely_refl|]. apply wp_settled. intros w1 H1 Hok1 r w2 Ha.
  assert (A1 : at_file f T w1) by (by eapply at_file_rely).
  destruct (answers_ok path (Rename (tmp_path path uuid) path) _ _ _ Hok1 (conj (ex_intro _ uuid eq_refl) eq_refl) Ha) as [Hok2 He2].
  split; [done|]. destruct r as [[]|e].
  2:{ destruct Ha as [[code ->] ->]. split; [by apply guar_quiet|]. intros w3 H3 _ w4 H4 _. apply HQ2.
      eapply at_file_rely; [|exact H4]. by eapply at_file_rely. }
  destruct Ha as (_ & f' & Hf' & ->). assert (Ef : alone = true -> f' = (key, Encodes v)).
  { intros E. destruct H1 as [_ H1]. destruct (H1 E) as [H1' _]. specialize (Htmp E).
    rewrite <- (H1' (tmp_path path uuid)) in Htmp by (right; by exists uuid). congruence. }
  set (w2 := move_file _ _ _ _) in *. assert (Hp : alone = true -> files w2 !! path = Some (key, Encodes v) /\
    trace w2 = trace w1 ++ [Placed path (Encodes v)]).
  { intros E. unfold w2. rewrite (Ef E). cbn. by rewrite lookup_insert_eq. }
  split; [split; [done|]; intros E; destruct (Hp E), (A1 E); by eapply Hstep|]. intros w3 H3 _.
  assert (A3 : at_file (Some (key, Encodes v)) (T ++ [Placed path (Encodes v)]) w3).
  { eapply at_file_rely; [|exact H3]. intros E. destruct (Hp E) as [Hf2 Ht2], (A1 E) as [_ Ht1]. by rewrite Hf2, Ht2, Ht1. }
  apply wp_call. intros w4 H4 Hok4 [] w5 Ha5. destruct (answers_ok path (SetCache path None) _ _ _ Hok4 eq_refl Ha5) as [Hok5 _].
  cbn in Ha5. subst w5. split; [done|]. split; [by apply guar_quiet|]. intros w5 H5 _. apply (HQ1 _ key).
  eapply at_file_rely; [|exact H5]. change (at_file (Some (key, Encodes v)) (T ++ [Placed path (Encodes v)]) w4). by eapply at_file_rely.
Qed.

Lemma wp_writeAtomic (Q : settled unit -> World -> Prop) v f T w :
  at_file f T w ->
  (alone = true -> forall w1 w2 k, files w1 !! path = f -> files w2 !! path = Some (k, Encodes v) ->
     trace w2 = trace w1 ++ [Placed path (Encodes v)] -> enroll_step w1 w2) ->
  (forall w' k, at_file (Some (k, Encodes v)) (T ++ [Placed path (Encodes v)]) w' -> Q (Resolved tt) w') ->
  (forall w' code, at_file f T w' -> Q (Rejected (EIo code)) w') ->
  wpe Q (writeAtomic path v) w.
Proof.
  intros Hw Hstep HQ1 HQ2. unfold writeAtomic.
  assert (Hrej : forall e w1, at_file f T w1 -> (exists code, e = EIo code) -> wpe Q (throw e) w1).
  { intros e w1 H1 [code ->] w2 H2 _. apply HQ2. by eapply at_file_rely. }
  apply wp_await; [apply rely_refl|]. apply wp_settled. intros w1 H1 Hok1 r w2 [-> Hr]. split; [done|]. split; [by apply guar_quiet|].
  intros w2 H2 _. assert (A2 : at_file f T w2) by (eapply at_file_rely; [|exact H2]; by eapply at_file_rely).
  destruct r as [[]|e]; [clear Hr|by apply Hrej].
  apply wp_await; [apply rely_refl|]. apply wp_call. intros w3 H3 Hok3 uuid w4 Ha. cbn in Ha. subst w4.
  split; [done|]. split; [by apply guar_quiet|]. intros w4 H4 _. assert (A4 : at_file f T w4) by (eapply at_file_rely; [|exact H4]; by eapply at_file_rely).
  apply wp_await; [apply rely_refl|]. apply wp_settled. intros w5 H5 Hok5 r w6 Ha.
  assert (A5 : at_file f T w5) by (by eapply at_file_rely).
  destruct (answers_ok path _ _ _ _ Hok5 (ex_intro _ uuid eq_refl : call_ok path (WriteFile (tmp_path path uuid) (Encodes v)) w5) Ha) as [Hok6 He6].
  assert (Hput : forall k t, files (put_file (tmp_path path uuid) k t w5) !! path = files w5 !! path).
  { intros k t. cbn. by rewrite lookup_insert_ne by apply tmp_path_ne. }
  split; [done|]. assert (Hsame : files w6 !! path = files w5 !! path /\ trace w6 = trace w5).
  { cbn in Ha. destruct r as [u|e]; [destruct Ha as (k & _ & ->); by rewrite Hput|].
    destruct Ha as [_ [->|(k & t & _ & ->)]]; [done|by rewrite Hput]. }
  destruct Hsame as [Hf6 Ht6]. split; [by apply guar_same|].
  assert (A6 : at_file f T w6) by (intros E; rewrite Hf6, Ht6; by apply A5).
  intros w7 H7 Hok7. assert (A7 : at_file f T w7) by (by eapply at_file_rely).
  destruct r as [u|e]; [|apply Hrej; [done|by destruct Ha]]. destruct Ha as (key & Hkey & E6).
  apply (wp_commit _ uuid key v f T); [done| |done|done|done].
  intros E. destruct H7 as [_ H7]. destruct (H7 E) as [H7' _]. rewrite H7' by (right; by exists uuid).
  rewrite E6. cbn. by rewrite lookup_insert_eq.
Qed.

Lemma at_file_quiet f T w w' : at_file f T w -> quiet w w' -> at_file f T w'.
Proof. intros H (Hf & _ & _ & Ht) Ha. rewrite Hf, Ht. by apply H. Qed.

Lemma wp_file_exists (Q : settled bool -> World -> Prop) f T w :
  at_file f T w ->
  (forall b w', at_file f T w' -> (alone = true -> b = bool_decide (f <> None)) -> Q (Resolved b) w') ->
  (forall w' code, at_file f T w' -> Q (Rejected (EIo code)) w') ->
  wpe Q (file_exists path) w.
Proof.
  intros Hw HQ1 HQ2. unfold file_exists. apply wp_try; [apply rely_refl|]. apply wp_settled.
  intros w1 H1 Hok1 r w2 [-> Ha]. split; [done|]. split; [by apply guar_quiet|]. intros w3 H3 _.
  assert (A1 : at_file f T w1) by (by eapply at_file_rely). assert (A3 : at_file f T w3) by (by eapply at_file_rely).
  destruct r as [k|e].
  - intros w4 H4 _. apply HQ1; [by eapply at_file_rely|]. intros E. destruct Ha as [t Hf], (A1 E) as [<- _].
    symmetry. apply bool_decide_eq_true. by rewrite Hf.
  - destruct e as [| |code| | | | |]; try done. destruct (bool_decide_reflect (code = "ENOENT")) as [Hc|Hc]; intros w4 H4 _;
      [apply HQ1|apply HQ2]; try (by eapply at_file_rely). intros E. destruct (A1 E) as [<- _]. symmetry. apply bool_decide_eq_false.
    intros Hne. by apply Hne, Ha.
Qed.

(** The rows a lookup answers. *)
Lemma wp_list_burrows (Q : settled (list JsValue) -> World -> Prop) f T w :
  at_file f T w ->
  (forall rows w', at_file f T w' -> (alone = true -> rows = rows_of f) -> Q (Resolved rows) w') ->
  (forall w' e, at_file f T w' -> Q (Rejected e) w') ->
  wpe Q list_burrows w.
Proof.
  intros Hw HQ1 HQ2. unfold list_burrows, listIfPresent. do 2 (apply wp_await; [apply rely_refl|]).
  apply (wp_readCached path rely guar (if alone then Some f else None) (at_file f T)).
  - apply rely_refl.
  - by intros ? ? [? _].
  - intros ? ?. apply at_file_rely.
  - intros ? ?. apply at_file_quiet.
  - intros w' f' H E. unfold at_file in H. destruct alone; [|done]. injection E as <-. by apply H.
  - apply guar_quiet.
  - done.
  - intros r w1 A1 Hg. destruct r as [v|e]; intros w2 H2 _; (assert (A2 : at_file f T w2) by (by eapply at_file_rely)).
    + intros w3 H3 _. apply HQ1; [by eapply at_file_rely|]. intros E. unfold good in Hg. rewrite E in Hg.
      destruct Hg as [Hg|(code & _ & [=])]. destruct f as [[k [|v']]|]; cbn in Hg; [done| |by injection Hg as ->].
      by destruct v'; injection Hg as ->.
    + intros w3 H3 _. apply HQ2. by eapply at_file_rely.
Qed.

(** The rows put in place, in order: the last row of each file placed. *)
Definition placed (T : list Event) : list JsValue :=
  omap (fun ev => match ev with Placed _ (Encodes (JArray rows)) => last rows | _ => None end) T.

Definition enrolled (f : option (StatKey * Text)) (T : list Event) (r : settled JsValue) (w : World) : Prop :=
  alone = true -> placed (trace w) = placed T ++ match r with Resolved b => [b] | Rejected _ => [] end.

Lemma placed_called T first r : placed (T ++ [Called first r]) = placed T.
Proof. unfold placed. rewrite omap_app. by rewrite app_nil_r. Qed.

Lemma placed_rows T rows b : placed (T ++ [Placed path (Encodes (JArray (rows ++ [b])))]) = placed T ++ [b].
Proof. unfold placed. rewrite omap_app. cbn. by rewrite last_snoc. Qed.

(** A call that answers and changes nothing. *)
Lemma wp_answer {X} (Q : settled X -> World -> Prop) (e : Call X) f T w :
  (forall w1 x w2, answers e w1 x w2 -> w2 = w1) ->
  at_file f T w -> (forall x w1 w2, at_file f T w2 -> answers e w1 x w1 -> Q (Resolved x) w2) -> wpe Q (call e) w.
Proof.
  intros He Hw HQ. apply wp_call. intros w1 H1 Hok x w2 Ha. pose proof (He _ _ _ Ha) as ->. split; [done|].
  split; [by apply guar_quiet|]. intros w3 H3 _. eapply HQ; [|exact Ha]. eapply at_file_rely; [|exact H3]. by eapply at_file_rely.
Qed.

(** From the rows read on: the check of the limit, the new row and the write. *)
Lemma wp_add_row f T rows w :
  at_file f T w -> (alone = true -> rows = rows_of f) ->
  wpe (enrolled f T)
    (if (MAX_ENROLLED_BURROWS <=? length rows)%nat then throw EBurrowLimitReached
     else
       let* id := call (RandomBytes E2E_ID_BYTE_LENGTH) in
       let* token := call (RandomBytes RELAY_BEARER_BYTE_LENGTH) in
       let* now := call Now in
       let burrow := new_burrow id token now in
       let* _ := writeAtomic path (JArray (rows ++ [burrow])) in
       ret burrow) w.
Proof.
  intros Hw Hrows. assert (Hrej : forall w1 e, at_file f T w1 -> enrolled f T (Rejected e) w1).
  { intros w1 e A1 E. destruct (A1 E) as [_ ->]. by rewrite app_nil_r. }
  destruct (Nat.leb_spec MAX_ENROLLED_BURROWS (length rows)) as [_|Hmax]; [intros w1 H1 _; apply Hrej; by eapply at_file_rely|].
  apply wp_await; [apply rely_refl|]. apply (wp_answer _ _ f T); [by intros ? ? ? [-> _]|done|]. intros id w0 w1 A1 [_ Hid].
  apply wp_await; [apply rely_refl|]. apply (wp_answer _ _ f T); [by intros ? ? ? [-> _]|done|]. intros token _ w2 A2 _.
  apply wp_await; [apply rely_refl|]. apply (wp_answer _ _ f T); [by intros ? ? ? ?|done|]. intros now _ w3 A3 _. cbv zeta.
  pose proof (new_burrow_stored id token now Hid) as Hb. set (b := new_burrow id token now) in *.
  apply wp_await; [apply rely_refl|]. apply (wp_writeAtomic _ _ f T); [done| | |].
  - intros E w4 w5 k Hf4 Hf5 Ht5. right. exists b, k. rewrite (Hrows E) in *.
    assert (Er : rows_at w4 = rows_of f) by (unfold rows_at; by rewrite Hf4). by rewrite Er.
  - intros w4 k A4 w5 H5 _ E. destruct (at_file_rely _ _ _ _ A4 H5 E) as [_ ->]. apply placed_rows.
  - intros w4 code A4 w5 H5 _. apply Hrej. by eapply at_file_rely.
Qed.

Lemma wp_enroll f T w : at_file f T w -> wpe (enrolled f T) enroll w.
Proof.
  intros Hw. unfold enroll. assert (Hrej : forall T' e w1, placed T' = placed T -> at_file f T' w1 -> wpe (enrolled f T) (throw e) w1).
  { intros T' e w1 HT A1 w2 H2 _ E. destruct (at_file_rely _ _ _ _ A1 H2 E) as [_ ->]. by rewrite app_nil_r. }
  apply wp_await; [apply rely_refl|]. apply (wp_file_exists _ f T); [done| |by intros; apply (Hrej T)].
  intros present w1 A1 Hp. apply wp_await; [apply rely_refl|]. apply wp_settled. intros w2 H2 Hok2 r w3 Ha.
  destruct (answers_ok path (BeforeEnroll (negb present)) _ _ _ Hok2 I Ha) as [Hok3 He3]. cbn in Ha. subst w3.
  assert (A2 : at_file f T w2) by (by eapply at_file_rely). set (T1 := T ++ [Called (negb present) r]).
  assert (A3 : at_file f T1 (add_event (Called (negb present) r) w2)).
  { intros E. destruct (A2 E) as [Hf Ht]. cbn. by rewrite Hf, Ht. }
  assert (HT1 : placed T1 = placed T) by apply placed_called. split; [done|]. split.
  { split; [done|]. intros E. destruct (A2 E) as [Hf Ht]. left. split; [done|]. right. exists r. cbn. do 3 f_equal.
    rewrite Hf, Hp by done. by destruct f. }
  intros w4 H4 _. assert (A4 : at_file f T1 w4) by (by eapply at_file_rely). destruct r as [[]|e]; [|by apply (Hrej T1)].
  apply wp_await; [apply rely_refl|]. apply (wp_list_burrows _ f T1); [done| |by intros; apply (Hrej T1)].
  intros rows w5 A5 Hrows. eapply wp_mono; [|by apply (wp_add_row f T1 rows w5)].
  intros r w6 _ Hr E. rewrite <- HT1. by apply Hr.
Qed.

End enroll.

(** ** The running process *)

Section process.
  Variable sha256 : string -> bytes.

(** The calls that do not mutate. *)
Inductive Lookup := LList | LFindByToken (burrowToken : string) | LFind (burrowId : string) | LHas (burrowId : string).

Definition discard {A} (p : Prog A) : Prog unit := try_ p (fun _ => ret tt).

Definition lookup_prog (l : Lookup) : Prog unit :=
  match l with
  | LList => discard list_burrows
  | LFindByToken burrowToken => discard (findByToken sha256 burrowToken)
  | LFind burrowId => discard (find_burrow burrowId)
  | LHas burrowId => discard (has burrowId)
  end.

(** [tail]: the enrollments on the promise chain, the first one running;
    [results]: what the finished ones settled with; and the lookups under way. *)
Record Relay := mkRelay {
  world : World;
  tail : list (Prog JsValue);
  results : list (settled JsValue);
  lookups : list (Prog unit) }.

Definition boot (w : World) : Relay := mkRelay w [] [] [].

(** What the other stores of the process do to the world. *)
Definition foreign (w w' : World) : Prop :=
  same_store w w' /\ caches w' !! path = caches w !! path /\ keys w ⊆ keys w' /\ gone w ⊆ gone w' /\
  gone w' ⊆ dom (keys w') /\ (forall q k t, own path q -> files w !! q = Some (k, t) -> k ∉ gone w').

(** One step: an enrollment joins the chain, the running one makes a call or
    settles, which starts the next whatever it settled with; a lookup starts,
    makes a call or ends; other stores work; or, if [edits], the file is
    replaced or removed by hand. *)
Inductive relay_step (edits : bool) : Relay -> Relay -> Prop :=
  | step_enroll w t rs ls : relay_step edits (mkRelay w t rs ls) (mkRelay w (t ++ [enroll]) rs ls)
  | step_run w X (e : Call X) k t rs ls x w' : answers e w x w' ->
      relay_step edits (mkRelay w (Vis e k :: t) rs ls) (mkRelay w' (k x :: t) rs ls)
  | step_settle w r t rs ls : relay_step edits (mkRelay w (Done r :: t) rs ls) (mkRelay w t (rs ++ [r]) ls)
  | step_lookup w t rs ls l : relay_step edits (mkRelay w t rs ls) (mkRelay w t rs (ls ++ [lookup_prog l]))
  | step_lookup_run w t rs l1 X (e : Call X) k l2 x w' : answers e w x w' ->
      relay_step edits (mkRelay w t rs (l1 ++ Vis e k :: l2)) (mkRelay w' t rs (l1 ++ k x :: l2))
  | step_lookup_end w t rs l1 r l2 : relay_step edits (mkRelay w t rs (l1 ++ Done r :: l2)) (mkRelay w t rs (l1 ++ l2))
  | step_foreign w w' t rs ls : foreign w w' -> relay_step edits (mkRelay w t rs ls) (mkRelay w' t rs ls)
  | step_edit w key text t rs ls : edits = true -> keys w !! key = None ->
      relay_step edits (mkRelay w t rs ls) (mkRelay (put_file path key text w) t rs ls)
  | step_remove w t rs ls : edits = true -> relay_step edits (mkRelay w t rs ls) (mkRelay (drop_file path w) t rs ls).

(** ** Its invariant *)

Abbreviation wpl := (wp (evolves path) (store_ok path) quiet (fun _ _ => True)).

Lemma quiet_evolves w w' : quiet w w' -> evolves path w w'.
Proof. intros H. by apply (guar_quiet false) in H as [? _]. Qed.

Lemma wpl_done {A} (r : settled A) w : wpl (Done r) w.
Proof. by intros w1 _ _. Qed.

Lemma wpl_try {A B} (p : Prog A) (k : settled A -> Prog B) w : wpl p w -> (forall r w', wpl (k r) w') -> wpl (try_ p k) w.
Proof. intros Hp Hk. apply wp_try; [apply evolves_refl|]. eapply wp_mono; [|exact Hp]. intros r w1 _ _. apply Hk. Qed.

Lemma wpl_readCached w : wpl (readCached path) w.
Proof. apply (wp_readCached path (evolves path) quiet None (fun _ => True)); done. Qed.

Lemma wpl_list w : wpl list_burrows w.
Proof.
  unfold list_burrows, listIfPresent, await. apply wpl_try; [apply wpl_try; [apply wpl_readCached|]|]; intros [?|?] ?; apply wpl_done.
Qed.

Lemma wpl_lookup l w : wpl (lookup_prog l) w.
Proof.
  destruct l as [|token|id|id]; cbn [lookup_prog]; unfold discard; apply wpl_try; try (intros ? ?; apply wpl_done).
  - apply wpl_list.
  - unfold findByToken. case_match; [apply wpl_done|]. apply wpl_try; [apply wpl_list|intros [?|?] ?; apply wpl_done].
  - apply wpl_try; [apply wpl_list|intros [?|?] ?; apply wpl_done].
  - apply wpl_try; [apply wpl_try; [apply wpl_list|]|]; intros [?|?] ?; apply wpl_done.
Qed.

(** The rows the finished enrollments added. *)
Definition resolved (rs : list (settled JsValue)) : list JsValue :=
  omap (fun r => match r with Resolved b => Some b | Rejected _ => None end) rs.

(** The history of the file since it was [w0]. *)
Record history (w0 w : World) : Prop := {
  hi_rows : rows_at w = rows_at w0 ++ placed (trace w);
  hi_limit : (length (rows_at w) <= Nat.max MAX_ENROLLED_BURROWS (length (rows_at w0)))%nat;
  hi_first : forall T1 r T2, trace w = T1 ++ Called true r :: T2 -> files w0 !! path = None /\ placed T1 = [];
  hi_absent : files w !! path = None -> files w0 !! path = None /\ placed (trace w) = [] }.

Lemma history_same w0 w w' : files w' !! path = files w !! path -> trace w' = trace w -> history w0 w -> history w0 w'.
Proof. intros Hf Ht [H1 H2 H3 H4]. split; unfold rows_at in *; rewrite ?Hf, ?Ht; done. Qed.

Lemma history_step w0 w w' : enroll_step w w' -> history w0 w -> history w0 w'.
Proof.
  intros [[Hf [Ht|[r Ht]]]|(b & k & Hb & Hmax & Hf & Ht)] H; [by eapply history_same| |]; destruct H as [H1 H2 H3 H4].
  - split; unfold rows_at in *; rewrite ?Hf, ?Ht, ?placed_called; try done. intros T1 r' T2 E.
    destruct T2 as [|ev T2 _] using rev_ind.
    + apply app_inj_tail in E as [<- E]. injection E as E _. apply bool_decide_eq_true in E. by apply H4.
    + rewrite app_comm_cons, app_assoc in E. apply app_inj_tail in E as [E _]. by eapply H3.
  - assert (Er : rows_at w' = rows_at w ++ [b]) by (unfold rows_at at 1; rewrite Hf; by apply rows_of_placed).
    split.
    + by rewrite Er, Ht, placed_rows, H1, app_assoc.
    + rewrite Er, length_app. cbn. lia.
    + rewrite Ht. intros T1 r' T2 E. destruct T2 as [|ev T2 _] using rev_ind; [by apply app_inj_tail in E as [_ [=]]|].
      rewrite app_comm_cons, app_assoc in E. apply app_inj_tail in E as [E _]. by eapply H3.
    + by rewrite Hf.
Qed.

(** The chain: what the finished enrollments added is in the history, the running
    one will add what it settles with, and the others have not begun. *)
Definition chain_ok (alone : bool) (w : World) (t : list (Prog JsValue)) (rs : list (settled JsValue)) : Prop :=
  exists f T, (alone = true -> resolved rs = placed T /\ T `prefix_of` trace w) /\
  match t with
  | [] => alone = true -> trace w = T
  | p :: t => wp (rely alone) (store_ok path) (guar alone) (enrolled alone f T) p w /\ Forall (fun p => p = enroll) t
  end.

Record relay_ok (alone : bool) (w0 : World) (s : Relay) : Prop := {
  ro_store : store_ok path (world s);
  ro_lookups : Forall (fun p => wpl p (world s)) (lookups s);
  ro_chain : chain_ok alone (world s) (tail s) (results s);
  ro_history : alone = true -> history w0 (world s) }.

Lemma chain_rely alone w w' t rs : chain_ok alone w t rs -> rely alone w w' -> chain_ok alone w' t rs.
Proof.
  intros (f & T & HT & Ht) Hr. exists f, T. split.
  - intros E. destruct Hr as [_ Hr]. destruct (Hr E) as [_ ->]. by apply HT.
  - destruct t as [|p t]; [intros E; destruct Hr as [_ Hr]; destruct (Hr E) as [_ ->]; by apply Ht|].
    destruct Ht as [Hp Ht]. split; [|done]. eapply wp_rely; [|exact Hr|exact Hp]. apply rely_trans.
Qed.

Lemma lookups_evolve w w' (ls : list (Prog unit)) : Forall (fun p => wpl p w) ls -> evolves path w w' -> Forall (fun p => wpl p w') ls.
Proof.
  intros H He. eapply Forall_impl; [exact H|]. cbn. intros p Hp. eapply wp_rely; [|exact He|exact Hp]. apply evolves_trans.
Qed.

(** A change of the world that is not the running enrollment's own. *)
Lemma relay_ok_rely alone w0 w w' t rs ls :
  relay_ok alone w0 (mkRelay w t rs ls) -> store_ok path w' -> rely alone w w' -> relay_ok alone w0 (mkRelay w' t rs ls).
Proof.
  intros [H1 H2 H3 H4] Hok Hr. pose proof Hr as [He Hs]. split; cbn in *; [done|by eapply lookups_evolve|by eapply chain_rely|].
  intros E. destruct (Hs E) as [Hf Ht]. eapply history_same; [|exact Ht|by apply H4]. apply Hf, own_path.
Qed.

Lemma quiet_rely alone w w' : quiet w w' -> rely alone w w'.
Proof.
  intros Hq. split; [by apply quiet_evolves|]. intros _. destruct Hq as (Hf & _ & _ & Ht). split; [intros q _; by rewrite Hf|done].
Qed.

Lemma foreign_ok w w' : store_ok path w -> foreign w w' -> store_ok path w' /\ evolves path w w'.
Proof.
  intros Hok ([Hf Ht] & Hc & Hk & Hg & Hd & Hn). assert (He : evolves path w w').
  { apply seen_evolves; [done|done|]. intros k t H. left. exists t. by rewrite Hf by apply own_path. }
  split; [|done]. split.
  - intros q k t Hq H. rewrite Hf in H by done. destruct (so_files _ _ Hok q k t Hq H) as [H1 _].
    split; [by eapply lookup_weaken|by eapply Hn].
  - intros q1 q2 k t1 t2 H1 H2. rewrite !Hf by done. by apply (so_distinct _ _ Hok).
  - done.
  - intros k v. rewrite Hc. intros H. eapply coherent_evolves; [by apply (so_cache _ _ Hok)|done].
Qed.

Lemma chain_fresh alone w rs p :
  (alone = true -> resolved rs = placed (trace w)) -> p = enroll -> forall t, Forall (fun p => p = enroll) t ->
  chain_ok alone w (p :: t) rs.
Proof.
  intros Hr -> t Ht. exists (files w !! path), (trace w). split; [intros E; split; [by apply Hr|done]|].
  split; [|done]. by apply wp_enroll.
Qed.

Lemma chain_enroll alone w t rs : chain_ok alone w t rs -> chain_ok alone w (t ++ [enroll]) rs.
Proof.
  intros (f & T & HT & Ht). destruct t as [|p t]; cbn [app].
  - apply chain_fresh; [|done|constructor]. intros E. rewrite (Ht E). by apply HT.
  - exists f, T. split; [done|]. destruct Ht as [Hp Ht]. split; [done|]. apply Forall_app. by split; [|constructor].
Qed.

Lemma chain_settle alone w r t rs :
  store_ok path w -> chain_ok alone w (Done r :: t) rs -> chain_ok alone w t (rs ++ [r]).
Proof.
  intros Hok (f & T & HT & Hp & Ht). specialize (Hp w (rely_refl alone w) Hok).
  assert (Hr : alone = true -> resolved (rs ++ [r]) = placed (trace w)).
  { intros E. unfold resolved. rewrite omap_app. fold (resolved rs). destruct (HT E) as [-> _]. rewrite (Hp E). by destruct r. }
  destruct t as [|p t]; [|apply Forall_cons in Ht as [Hp' Ht]; by apply chain_fresh].
  exists (files w !! path), (trace w). split; [|done]. intros E. split; [by apply Hr|done].
Qed.

Lemma guar_trace alone w w' T : guar alone w w' -> alone = true -> T `prefix_of` trace w -> T `prefix_of` trace w'.
Proof.
  intros [_ Hg] E HT. destruct (Hg E) as [[_ [->|[r ->]]]|(b & k & _ & _ & _ & ->)]; [done| |]; by apply prefix_app_r.
Qed.

Lemma relay_ok_run alone w0 w X (e : Call X) k t rs ls x w' :
  relay_ok alone w0 (mkRelay w (Vis e k :: t) rs ls) -> answers e w x w' ->
  relay_ok alone w0 (mkRelay w' (k x :: t) rs ls).
Proof.
  intros [H1 H2 (f & T & HT & Hp & Ht) H4] Ha. cbn in *. destruct (Hp w (rely_refl alone w) H1 x w' Ha) as (Hok & Hg & Hp').
  split; cbn; [done|eapply lookups_evolve; [done|apply Hg]| |].
  - exists f, T. split; [|done]. intros E. destruct (HT E) as [? Hpre]. split; [done|]. by eapply guar_trace.
  - intros E. eapply history_step; [by apply Hg|by apply H4].
Qed.

Lemma relay_ok_lookup alone w0 w t rs l1 X (e : Call X) k l2 x w' :
  relay_ok alone w0 (mkRelay w t rs (l1 ++ Vis e k :: l2)) -> answers e w x w' ->
  relay_ok alone w0 (mkRelay w' t rs (l1 ++ k x :: l2)).
Proof.
  intros H Ha. pose proof H as [H1 H2 _ _]. cbn in *. apply Forall_app in H2 as [Hl1 Hl2]. apply Forall_cons in Hl2 as [Hp Hl2].
  destruct (Hp w (evolves_refl path w) H1 x w' Ha) as (Hok & Hq & Hp').
  pose proof (relay_ok_rely alone w0 w w' t rs _ H Hok (quiet_rely alone _ _ Hq)) as [A1 A2 A3 A4]. split; cbn in *; try done.
  apply Forall_app in A2 as [B1 B2]. apply Forall_cons in B2 as [_ B2]. apply Forall_app. by split; [|constructor].
Qed.

Lemma relay_step_ok edits w0 s s' : relay_step edits s s' -> relay_ok (negb edits) w0 s -> relay_ok (negb edits) w0 s'.
Proof.
  intros Hs Hok. pose proof Hok as [H1 H2 H3 H4]. destruct Hs; cbn in *.
  - split; cbn; try done. by apply chain_enroll.
  - by eapply relay_ok_run.
  - split; cbn; try done. by apply chain_settle.
  - split; cbn; try done. apply Forall_app. split; [done|]. constructor; [|constructor]. apply wpl_lookup.
  - by eapply relay_ok_lookup.
  - split; cbn; try done. apply Forall_app in H2 as [Hl1 Hl2]. apply Forall_cons in Hl2 as [_ Hl2]. apply Forall_app. by split.
  - destruct (foreign_ok _ _ H1 H) as [Hok' He]. eapply relay_ok_rely; [done|done|]. split; [done|]. intros _. apply H.
  - subst edits. eapply relay_ok_rely; [done|apply put_file_ok; [done|done|apply own_path]|]. split; [by apply put_file_evolves|done].
  - subst edits. eapply relay_ok_rely; [done|by apply drop_file_ok|]. split; [apply drop_file_evolves|done].
Qed.

Lemma boot_ok alone w0 : store_ok path w0 -> trace w0 = [] -> relay_ok alone w0 (boot w0).
Proof.
  intros Hok Ht. split; cbn; [done|constructor| |].
  - exists (files w0 !! path), []. split; [intros _; split; [done|apply prefix_nil]|done].
  - intros _. split; rewrite ?Ht; [by rewrite app_nil_r|lia| |done]. intros T1 r T2 E. by destruct T1.
Qed.

Lemma relay_reach_ok edits w0 s :
  store_ok path w0 -> trace w0 = [] -> rtc (relay_step edits) (boot w0) s -> relay_ok (negb edits) w0 s.
Proof.
  intros Hok Ht Hr. remember (boot w0) as s0 eqn:E0. assert (H : relay_ok (negb edits) w0 s0) by (subst; by apply boot_ok).
  clear E0. induction Hr as [|s1 s2 s3 H12 _ IH]; [done|]. apply IH. by eapply relay_step_ok.
Qed.

(** C10. No enrollment is lost. Over any interleaving of enrollments, lookups and
    the work of other stores, with calls failing anywhere, and no hand edit of
    the file: the file enrolls what it did at boot and after that one row per
    enrollment, in the order they ran, among them every one that resolved, and
    no other when none is under way; never more than the limit, unless it held
    more at boot; and no enrollment is told it is the first one ever once a
    Burrow was put in place, or if the file was there at boot. *)
Theorem enrollments_serialized w0 s :
  store_ok path w0 -> trace w0 = [] -> rtc (relay_step false) (boot w0) s ->
  (exists added, rows_at (world s) = rows_at w0 ++ added /\ resolved (results s) `prefix_of` added /\
     (tail s = [] -> added = resolved (results s))) /\
  (length (rows_at (world s)) <= Nat.max MAX_ENROLLED_BURROWS (length (rows_at w0)))%nat /\
  (forall T1 r T2, trace (world s) = T1 ++ Called true r :: T2 -> files w0 !! path = None /\ placed T1 = []).
Proof.
  intros Hok Ht Hr. destruct (relay_reach_ok _ _ _ Hok Ht Hr) as [_ _ (f & T & HT & Hc) Hh]. destruct (Hh eq_refl) as [H1 H2 H3 _].
  destruct (HT eq_refl) as [Er Hp]. split; [|done]. exists (placed (trace (world s))). split; [done|]. rewrite Er. split.
  - destruct Hp as [T2 ->]. unfold placed. rewrite omap_app. by apply prefix_app_r.
  - intros E. rewrite E in Hc. by rewrite (Hc eq_refl).
Qed.

(** ** The cache is transparent *)

Lemma wp_runs {A} rel okk gua (Q : settled A -> World -> Prop) p w r w' :
  (forall w, rel w w) -> wp rel okk gua Q p w -> okk w -> runs p w r w' -> Q r w'.
Proof.
  intros Hrefl. revert w. induction p as [r0|X e k IH]; intros w Hp Hok; cbn [runs].
  - intros [-> ->]. by apply Hp.
  - intros (x & w1 & Ha & Hr). destruct (Hp w (Hrefl w) Hok x w1 Ha) as (Hok1 & _ & Hp1). by eapply IH.
Qed.

(** A lookup with nothing in between reads the file. *)
Lemma runs_list w r w' :
  store_ok path w -> runs list_burrows w r w' -> (r = Resolved (rows_at w) \/ exists e, r = Rejected e).
Proof.
  intros Hok Hr. set (f := files w !! path). assert (Hw : at_file true f (trace w) w) by done.
  refine (wp_runs (rely true) (store_ok path) (guar true) (fun r _ => r = Resolved (rows_of f) \/ exists e, r = Rejected e) _ w r w'
    (rely_refl true) _ Hok Hr).
  apply (wp_list_burrows true _ f (trace w)); [done| |intros w1 e _; right; by exists e].
  intros rows w1 _ Hrows. left. by rewrite (Hrows eq_refl).
Qed.

(** The cache is transparent. After any interleaving of enrollments, lookups,
    failures, other stores' work and hand edits of the file, races between a
    read and a replacement included: a lookup then made answers from the file
    as it is now.  So a row deleted by hand is revoked at once. *)
Theorem lookups_current w0 s id w' r :
  store_ok path w0 -> trace w0 = [] -> rtc (relay_step true) (boot w0) s ->
  runs (has id) (world s) r w' ->
  match r with
  | Resolved b => b = true <-> exists row, row ∈ rows_at (world s) /\ text_at "burrowId" row = id
  | Rejected _ => True
  end.
Proof.
  intros Hok Ht Hr Hrun. destruct (relay_reach_ok _ _ _ Hok Ht Hr) as [Hs _ _ _]. unfold has, find_burrow in Hrun.
  apply runs_await in Hrun as [(found & w1 & H1 & [-> _])|(e & _ & ->)]; [|done].
  apply runs_await in H1 as [(rows & w2 & H1 & [[= ->] _])|(e & _ & [=])].
  apply runs_list in H1 as [[= ->]|[e [=]]]; [|done]. rewrite bool_decide_eq_true. split.
  - intros [row Hrow]. apply find_some in Hrow as [Hin E%bool_decide_eq_true]. exists row. by rewrite list_elem_of_In.
  - intros (row & Hin & E). destruct (List.find _ _) as [row'|] eqn:Ef; [by exists row'|].
    apply list_elem_of_In in Hin. eapply find_none in Hin; [|exact Ef]. by rewrite bool_decide_eq_false in Hin.
Qed.

(** ** Concrete processes *)

(** The running enrollment may run to its end. *)
Lemma relay_run_head edits now p w t rs ls :
  rtc (relay_step edits) (mkRelay w (p :: t) rs ls)
    (mkRelay (run_prog now p w).2 t (rs ++ [(run_prog now p w).1]) ls).
Proof.
  revert w. induction p as [r|X e k IH]; intros w; cbn [run_prog fst snd].
  - apply rtc_once. constructor.
  - eapply rtc_l; [apply step_run, (respond_answers now e)|apply IH].
Qed.

End process.

(** A stand-in for the digest: the text itself. *)
Definition sample_digest (s : string) : bytes := map byte.of_Z (units s).
Abbreviation sample_step := (relay_step sample_digest).

(** Two enrollments called at once. *)
Definition two_enrolled : Relay :=
  let a := run_prog 5 enroll empty_world in
  let b := run_prog 6 enroll a.2 in
  mkRelay b.2 [] [a.1; b.1] [].

Lemma two_enrolled_reached edits : rtc (sample_step edits) (boot empty_world) two_enrolled.
Proof.
  eapply rtc_l; [apply step_enroll|]. eapply rtc_l; [apply step_enroll|].
  etrans; [apply (relay_run_head sample_digest edits 5)|]. apply (relay_run_head sample_digest edits 6).
Qed.

Lemma empty_world_ok : store_ok path empty_world.
Proof. split; cbn; try done; set_solver. Qed.

Example two_enrolled_rows : length (rows_at (world two_enrolled)) = 2%nat /\ length (resolved (results two_enrolled)) = 2%nat.
Proof. vm_compute. done. Qed.

Lemma enrollments_serialized_witness :
  tail two_enrolled = [] /\ rows_at (world two_enrolled) = rows_at empty_world ++ resolved (results two_enrolled).
Proof.
  split; [reflexivity|].
  destruct (enrollments_serialized sample_digest empty_world two_enrolled empty_world_ok eq_refl (two_enrolled_reached false)) as ((added & E & _ & Ha) & _).
  rewrite E. f_equal. apply Ha. reflexivity.
Defined.

(** After the file is emptied by hand neither Burrow is found, without a restart. *)
Definition emptied : Relay :=
  mkRelay (put_file path "edited" (Encodes (JArray [])) (world two_enrolled)) [] (results two_enrolled) [].

Example emptied_found :
  (run_prog 7 (has "AAAAAAAAAAAAAAAAAAAAAA") (world two_enrolled)).1 = Resolved true /\
  (run_prog 7 (has "AAAAAAAAAAAAAAAAAAAAAA") (world emptied)).1 = Resolved false.
Proof. vm_compute. done. Qed.

Lemma lookups_current_witness :
  rtc (sample_step true) (boot empty_world) emptied /\
  match (run_prog 7 (has "x") (world emptied)).1 with
  | Resolved b => b = true <-> exists row, row ∈ rows_at (world emptied) /\ text_at "burrowId" row = "x"
  | Rejected _ => True
  end.
Proof.
  assert (H : rtc (sample_step true) (boot empty_world) emptied).
  { eapply rtc_r; [apply two_enrolled_reached|]. unfold emptied. apply step_edit; [done|]. vm_compute. reflexivity. }
  split; [exact H|]. eapply (lookups_current sample_digest empty_world emptied "x"); [apply empty_world_ok|reflexivity|exact H|].
  apply run_prog_runs.
Defined.
