(* ===== verification/TermText.v ===== *)
(** * Terminal text

    The output of a program as the sequence of its UTF-16 code units, and the
    string operations the terminal parsers use on it. *)
From Stdlib Require Import ZArith Ascii Lia.
From S2P Require Import Prelude.
#[local] Open Scope Z_scope.

Abbreviation text := (list Z).

(** A literal of the source as code units. *)
Definition lit (s : string) : text := map (fun c => Z.of_N (N_of_ascii c)) (String.list_ascii_of_string s).

Definition BEL : Z := 7.
Definition CAN : Z := 24.
Definition SUB : Z := 26.
Definition ESC : Z := 27.
Definition C1_CSI : Z := 155.
Definition C1_ST : Z := 156.

(** [text.startsWith(prefix)]. *)
Definition starts_with (prefix t : text) : bool := bool_decide (take (length prefix) t = prefix).

(** [text.endsWith(suffix)]. *)
Definition ends_with (suffix t : text) : bool := bool_decide (drop (length t - length suffix) t = suffix).

(** [text.endsWith(c)] of a single code unit, and the text without it. *)
Definition ends_in (c : Z) (t : text) : bool := bool_decide (last t = Some c).

(** The index of the first unit that satisfies [p]. *)
Definition index_where (p : Z -> bool) (t : text) : option nat := find_index p t.

(** [text.split(sep)]. *)
Fixpoint split_on (sep : Z) (t : text) : list text :=
  match t with
  | [] => [[]]
  | c :: t =>
      if c =? sep then [] :: split_on sep t
      else match split_on sep t with w :: ws => (c :: w) :: ws | [] => [[c]] end
  end.

Definition is_digit_unit (c : Z) : bool := (48 <=? c) && (c <=? 57).

(** White space of [\s] and [trim]. *)
Definition js_ws (c : Z) : bool :=
  (9 <=? c) && (c <=? 13) || (c =? 32) || (c =? 160) || (c =? 5760) || (8192 <=? c) && (c <=? 8202) ||
  (c =? 8232) || (c =? 8233) || (c =? 8239) || (c =? 8287) || (c =? 12288) || (c =? 65279).

Fixpoint drop_ws (t : text) : text :=
  match t with c :: t' => if js_ws c then drop_ws t' else t | [] => [] end.

(** [trim]. *)
Definition trim (t : text) : text := reverse (drop_ws (reverse (drop_ws t))).

(** [text.replace(/[class]+/g, by)]: each run of the class becomes [f run]. *)
Fixpoint replace_runs (class : Z -> bool) (f : text -> text) (run t : text) : text :=
  match t with
  | [] => if bool_decide (run = []) then [] else f (reverse run)
  | c :: t =>
      if class c then replace_runs class f (c :: run) t
      else (if bool_decide (run = []) then [] else f (reverse run)) ++ c :: replace_runs class f [] t
  end.

(** The code points of a text: a high surrogate takes the low one after it. *)
Fixpoint points (t : text) : list text :=
  match t with
  | c :: ((d :: t') as t1) =>
      if (55296 <=? c) && (c <=? 56319) && ((56320 <=? d) && (d <=? 57343)) then [c; d] :: points t'
      else [c] :: points t1
  | [c] => [[c]]
  | [] => []
  end.

Lemma points_cons c d t :
  points (c :: d :: t) =
    if (55296 <=? c) && (c <=? 56319) && ((56320 <=? d) && (d <=? 57343)) then [c; d] :: points t else [c] :: points (d :: t).
Proof. done. Qed.

(** ** Trimming *)

Lemma drop_ws_spec t : exists pre, t = pre ++ drop_ws t /\ match drop_ws t with c :: _ => js_ws c = false | [] => True end.
Proof.
  induction t as [|c t (pre & E & H)]; [by exists []|]. cbn. destruct (js_ws c) eqn:Ew.
  - exists (c :: pre). cbn. by rewrite <- E.
  - by exists [].
Qed.

Lemma drop_ws_fixed t : match t with c :: _ => js_ws c = false | [] => True end -> drop_ws t = t.
Proof. destruct t as [|c t]; [done|]. cbn. by intros ->. Qed.

Lemma trim_units (P : Z -> Prop) t : Forall P t -> Forall P (trim t).
Proof.
  assert (H : forall u, Forall P u -> Forall P (drop_ws u)).
  { intros u Hu. destruct (drop_ws_spec u) as (pre & E & _). rewrite E in Hu. by apply Forall_app in Hu as [_ ?]. }
  intros Ht. unfold trim. by apply Forall_reverse, H, Forall_reverse, H.
Qed.

Lemma trim_idem t : trim (trim t) = trim t.
Proof.
  unfold trim at 2 3. destruct (drop_ws_spec t) as (_ & _ & Hu). set (u := drop_ws t) in *.
  destruct (drop_ws_spec (reverse u)) as (p & E & Hd). set (d := drop_ws (reverse u)) in *.
  assert (Eu : u = reverse d ++ reverse p) by (rewrite <- (reverse_involutive u), E; by rewrite reverse_app).
  unfold trim. rewrite (drop_ws_fixed (reverse d)); [by rewrite reverse_involutive, drop_ws_fixed|].
  destruct (reverse d) as [|c l] eqn:Er; [done|]. rewrite Eu in Hu. done.
Qed.
