(* ===== verification/TermControls.v ===== *)
(** * The string-control grammar and the stream filter (lib/src/lib/terminal-controls.ts)

    Where an OSC, DCS, SOS, PM or APC string starts and stops, and the filter
    that removes such strings from a stream read in chunks; the filter is the
    automaton that reads one unit at a time, so how the stream is cut into
    chunks does not matter. *)
From Stdlib Require Import ZArith Lia.
From S2P Require Import Prelude TermText.
#[local] Open Scope Z_scope.
#[local] Open Scope list_scope.

Inductive StringControlKind := osc | other.

#[export] Instance StringControlKind_eq_dec : EqDecision StringControlKind.
Proof. solve_decision. Defined.

(** The kind a two-unit introducer [ESC c] opens, and a C1 introducer [c]. *)
Definition esc_opener (c : Z) : option StringControlKind :=
  if c =? 93 then Some osc
  else if (c =? 80) || (c =? 88) || (c =? 94) || (c =? 95) then Some other
  else None.

Definition c1_opener (c : Z) : option StringControlKind :=
  if c =? 157 then Some osc
  else if (c =? 144) || (c =? 152) || (c =? 158) || (c =? 159) then Some other
  else None.

(** [STRING_CONTROL_INTRODUCER] at the head of a text: its length and kind. *)
Definition introducer_at (t : text) : option (nat * StringControlKind) :=
  match t with
  | c :: t' =>
      if c =? ESC then
        match t' with d :: _ => option_map (pair 2%nat) (esc_opener d) | [] => None end
      else option_map (pair 1%nat) (c1_opener c)
  | [] => None
  end.

(** The first introducer of a text: its index, length and kind. *)
Fixpoint find_introducer (t : text) : option (nat * nat * StringControlKind) :=
  match t with
  | [] => None
  | _ :: t' =>
      match introducer_at t with
      | Some (n, k) => Some (0%nat, n, k)
      | None => match find_introducer t' with Some (i, n, k) => Some (S i, n, k) | None => None end
      end
  end.

(** The units that can end a string: [OSC_END_SCAN], [STRING_END_SCAN]. *)
Definition ends_string (k : StringControlKind) (c : Z) : bool :=
  (c =? CAN) || (c =? SUB) || (c =? ESC) || (c =? C1_ST) || (match k with osc => c =? BEL | other => false end).

(** ** TerminalControlStreamFilter *)

Inductive FilterState := Ground | Escape | InString (k : StringControlKind) | StringEscape.

#[export] Instance FilterState_eq_dec : EqDecision FilterState.
Proof. solve_decision. Defined.

(** One turn of the [while] loop from the unread text: what it emits, the state
    after it and the text still unread. *)
Definition filter_turn (s : FilterState) (t : text) : text * FilterState * text :=
  match s with
  | Ground =>
      match find_introducer t with
      | None => if ends_in ESC t then (take (length t - 1) t, Escape, []) else (t, Ground, [])
      | Some (i, n, k) => (take i t, InString k, drop (i + n) t)
      end
  | Escape =>
      match t with
      | c :: t' =>
          match esc_opener c with
          | Some k => ([], InString k, t')
          | None => ([ESC], Ground, t)
          end
      | [] => ([], Escape, [])
      end
  | InString k =>
      match index_where (ends_string k) t with
      | None => ([], InString k, [])
      | Some i => ([], if bool_decide (t !! i = Some ESC) then StringEscape else Ground, drop (S i) t)
      end
  | StringEscape =>
      match t with
      | c :: t' => if c =? 92 then ([], Ground, t') else ([], Escape, t)
      | [] => ([], StringEscape, [])
      end
  end.

Fixpoint filter_loop (fuel : nat) (s : FilterState) (t out : text) : text * FilterState :=
  match t, fuel with
  | [], _ => (out, s)
  | _, O => (out, s)
  | _, S fuel => let '(emitted, s', t') := filter_turn s t in filter_loop fuel s' t' (out ++ emitted)
  end.

(** Each unit takes at most three turns. *)
Definition filter_fuel (t : text) : nat := (3 * length t + 2)%nat.

(** [process]; the fast path returns the chunk untouched. *)
Definition filter_process (s : FilterState) (input : text) : text * FilterState :=
  if bool_decide (s = Ground) && negb (ends_in ESC input) && match find_introducer input with None => true | Some _ => false end
  then (input, s)
  else filter_loop (filter_fuel input) s input [].

(** The chunks of a stream, from one state on: the outputs joined. *)
Fixpoint filter_chunks (s : FilterState) (chunks : list text) : text * FilterState :=
  match chunks with
  | [] => ([], s)
  | c :: chunks =>
      let os := filter_process s c in
      let os' := filter_chunks os.2 chunks in
      (os.1 ++ os'.1, os'.2)
  end.

(** ** The automaton *)

(** One unit at a time: what is emitted and the next state. *)
Definition unit_step (s : FilterState) (c : Z) : text * FilterState :=
  let ground c :=
    if c =? ESC then ([], Escape)
    else match c1_opener c with Some k => ([], InString k) | None => ([c], Ground) end in
  let escape c :=
    match esc_opener c with
    | Some k => ([], InString k)
    | None => let p := ground c in (ESC :: p.1, p.2)
    end in
  match s with
  | Ground => ground c
  | Escape => escape c
  | InString k => if ends_string k c then ([], if c =? ESC then StringEscape else Ground) else ([], InString k)
  | StringEscape => if c =? 92 then ([], Ground) else escape c
  end.

Fixpoint units_run (s : FilterState) (t : text) : text * FilterState :=
  match t with
  | [] => ([], s)
  | c :: t =>
      let p := unit_step s c in
      let q := units_run p.2 t in
      (p.1 ++ q.1, q.2)
  end.

Lemma units_run_app s t1 t2 :
  units_run s (t1 ++ t2) = ((units_run s t1).1 ++ (units_run (units_run s t1).2 t2).1, (units_run (units_run s t1).2 t2).2).
Proof.
  revert s. induction t1 as [|c t1 IH]; intros s; [cbn; by destruct (units_run s t2)|]. cbn [app units_run fst snd].
  rewrite IH. cbn. by rewrite app_assoc.
Qed.

(** What [units_run] emits from a state, after what was emitted before. *)
Definition emits (e : text) (p : text * FilterState) : text * FilterState := (e ++ p.1, p.2).

Lemma emits_nil p : emits [] p = p.
Proof. by destruct p. Qed.

Lemma emits_emits e1 e2 p : emits e1 (emits e2 p) = emits (e1 ++ e2) p.
Proof. unfold emits. cbn. by rewrite app_assoc. Qed.

Lemma units_run_cons s c t : units_run s (c :: t) = emits (unit_step s c).1 (units_run (unit_step s c).2 t).
Proof. done. Qed.

(** An escape that opens nothing is text, as is what follows it. *)
Lemma escape_ground c t :
  esc_opener c = None -> units_run Escape (c :: t) = emits [ESC] (units_run Ground (c :: t)).
Proof. intros Hc. rewrite !units_run_cons. cbn [unit_step]. rewrite Hc. by rewrite emits_emits. Qed.

Lemma unit_step_text c : c <> ESC -> c1_opener c = None -> unit_step Ground c = ([c], Ground).
Proof. intros Hc Hk. cbn. rewrite Hk. by destruct (Z.eqb_spec c ESC). Qed.

Lemma ends_in_cons c d t : ends_in ESC (c :: d :: t) = ends_in ESC (d :: t).
Proof. done. Qed.

Lemma ground_none t :
  find_introducer t = None ->
  units_run Ground t = if ends_in ESC t then (take (length t - 1) t, Escape) else (t, Ground).
Proof.
  induction t as [|c t IH]; [done|]. cbn [find_introducer]. destruct (introducer_at (c :: t)) as [[n k]|] eqn:Ei; [done|].
  destruct (find_introducer t) as [[[i n] k]|] eqn:Et; [done|]. intros _. specialize (IH eq_refl). cbn [introducer_at] in Ei.
  destruct (Z.eqb_spec c ESC) as [->|Hc].
  - destruct t as [|d t]; [done|]. destruct (esc_opener d) eqn:Ed; [done|].
    rewrite units_run_cons. cbn [unit_step]. rewrite Z.eqb_refl. cbn [fst snd]. rewrite emits_nil, escape_ground, IH, ends_in_cons by done.
    cbn [length Nat.sub]. rewrite ?Nat.sub_0_r. by destruct (ends_in ESC (d :: t)).
  - destruct (c1_opener c) eqn:Ec; [done|]. rewrite units_run_cons, unit_step_text by done. cbn [fst snd]. rewrite IH.
    destruct t as [|d t]; [unfold ends_in; rewrite !bool_decide_false by (cbn; congruence); done|].
    rewrite ends_in_cons. cbn [length Nat.sub]. rewrite ?Nat.sub_0_r. by destruct (ends_in ESC (d :: t)).
Qed.

Lemma ground_some t i n k :
  find_introducer t = Some (i, n, k) ->
  units_run Ground t = emits (take i t) (units_run (InString k) (drop (i + n) t)) /\ (0 < n)%nat /\ (i + n <= length t)%nat.
Proof.
  revert i. induction t as [|c t IH]; intros i; [done|]. cbn [find_introducer].
  destruct (introducer_at (c :: t)) as [[n' k']|] eqn:Ei.
  - intros [= <- <- <-]. cbn [take]. rewrite emits_nil. cbn [introducer_at] in Ei. rewrite units_run_cons. cbn [unit_step].
    destruct (Z.eqb_spec c ESC) as [->|Hc].
    + destruct t as [|d t]; [done|]. destruct (esc_opener d) as [k|] eqn:Ed; [|done]. injection Ei as <- <-. cbn [fst snd].
      rewrite emits_nil, units_run_cons. cbn [unit_step]. rewrite Ed. cbn. rewrite emits_nil. split; [done|lia].
    + destruct (c1_opener c) as [k|] eqn:Ec; [|done]. injection Ei as <- <-. cbn. rewrite emits_nil. by split; [|lia].
  - destruct (find_introducer t) as [[[j n'] k']|] eqn:Et; [|done]. intros [= <- <- <-]. destruct (IH j eq_refl) as (IH1 & Hn & Hl).
    cbn [take plus drop length]. split; [|lia]. cbn [introducer_at] in Ei. destruct (Z.eqb_spec c ESC) as [->|Hc].
    + destruct t as [|d t]; [done|]. destruct (esc_opener d) as [k|] eqn:Ed; [done|].
      rewrite units_run_cons. cbn [unit_step]. rewrite Z.eqb_refl. cbn [fst snd]. rewrite emits_nil, escape_ground, IH1 by done.
      by rewrite emits_emits.
    + destruct (c1_opener c) as [k|] eqn:Ec; [done|]. rewrite units_run_cons, unit_step_text by done. cbn [fst snd].
      by rewrite IH1, emits_emits.
Qed.

Lemma in_string k t :
  units_run (InString k) t =
    match index_where (ends_string k) t with
    | None => ([], InString k)
    | Some i => units_run (if bool_decide (t !! i = Some ESC) then StringEscape else Ground) (drop (S i) t)
    end.
Proof.
  induction t as [|c t IH]; [done|]. unfold index_where in *. cbn [find_index]. rewrite units_run_cons. cbn [unit_step].
  destruct (ends_string k c) eqn:Ec; cbn [fst snd].
  - rewrite emits_nil. cbn. destruct (Z.eqb_spec c ESC) as [->|Hc]; [by rewrite bool_decide_true|by rewrite bool_decide_false by congruence].
  - rewrite emits_nil, IH. by destruct (find_index (ends_string k) t).
Qed.

(** ** The loop is the automaton *)

Definition turn_rank (s : FilterState) : nat := match s with StringEscape => 2 | Escape => 1 | _ => 0 end.

Lemma filter_turn_spec s t :
  t <> [] -> let '(emitted, s', t') := filter_turn s t in
  units_run s t = emits emitted (units_run s' t') /\ (3 * length t' + turn_rank s' < 3 * length t + turn_rank s)%nat.
Proof.
  intros Ht. destruct s as [| |k|]; cbn [filter_turn].
  - destruct (find_introducer t) as [[[i n] k]|] eqn:Ei.
    + destruct (ground_some t i n k Ei) as (E & Hn & Hl). split; [done|]. rewrite length_drop. cbn. lia.
    + rewrite (ground_none t Ei). destruct t as [|c t]; [done|]. unfold emits.
      destruct (ends_in ESC (c :: t)); cbn [units_run fst snd]; rewrite app_nil_r; (split; [done|]); cbn; lia.
  - destruct t as [|c t]; [done|]. destruct (esc_opener c) eqn:Ec.
    + rewrite units_run_cons. cbn [unit_step]. rewrite Ec. split; [done|]. cbn. lia.
    + rewrite escape_ground by done. split; [done|]. cbn. lia.
  - rewrite in_string. destruct (index_where (ends_string k) t) as [i|] eqn:Ei.
    + rewrite emits_nil. split; [done|]. assert (i < length t)%nat.
      { unfold index_where in Ei. clear Ht. revert i Ei. induction t as [|c t IH]; intros i; [done|]. cbn.
        destruct (ends_string k c); [intros [= <-]; lia|]. destruct (find_index _ t) as [j|]; [|done]. intros [= <-].
        specialize (IH j eq_refl). lia. }
      rewrite length_drop. case_bool_decide; cbn; lia.
    + split; [done|]. destruct t; [done|]. cbn. lia.
  - destruct t as [|c t]; [done|]. rewrite units_run_cons. cbn [unit_step]. destruct (c =? 92) eqn:Ec.
    + split; [done|]. cbn. lia.
    + split; [by rewrite emits_nil|]. cbn. lia.
Qed.

Lemma filter_loop_spec fuel s t out :
  (3 * length t + turn_rank s <= fuel)%nat -> filter_loop fuel s t out = emits out (units_run s t).
Proof.
  revert s t out. induction fuel as [|fuel IH]; intros s t out Hf.
  - destruct t; [|cbn in Hf; lia]. cbn. unfold emits. cbn. by rewrite app_nil_r.
  - destruct t as [|c t]; [cbn; unfold emits; cbn; by rewrite app_nil_r|]. cbn [filter_loop].
    pose proof (filter_turn_spec s (c :: t) ltac:(done)) as H. destruct (filter_turn s (c :: t)) as [[e s'] t'].
    destruct H as [-> Hm]. rewrite IH by lia. by rewrite emits_emits.
Qed.

Lemma filter_process_spec s input : filter_process s input = units_run s input.
Proof.
  unfold filter_process. destruct (bool_decide (s = Ground) && _ && _) eqn:E.
  - apply andb_prop in E as [[->%bool_decide_eq_true Hl%negb_true_iff]%andb_prop Hi].
    destruct (find_introducer input) eqn:Ef; [done|]. by rewrite ground_none, Hl.
  - rewrite filter_loop_spec; [apply emits_nil|]. unfold filter_fuel. destruct s; cbn [turn_rank]; lia.
Qed.

(** C28. The filter is the automaton that reads one unit at a time, its fast path
    and its loop over runs included; so a stream is filtered alike however it
    is cut into chunks. *)
Theorem filter_chunks_automaton s chunks :
  filter_chunks s chunks = units_run s (concat chunks).
Proof.
  revert s. induction chunks as [|c chunks IH]; intros s; [done|]. cbn [filter_chunks concat].
  rewrite filter_process_spec, IH, units_run_app. done.
Qed.

(** A title split inside its introducer and its terminator is removed. *)
Example split_title :
  filter_chunks Ground [lit "a" ++ [ESC]; lit "]0;t" ++ [ESC]; [92] ++ lit "b"] = (lit "ab", Ground).
Proof. reflexivity. Qed.
