(* ===== verification/TermDecode.v ===== *)
(** * Text that comes off the wire (lib/src/lib/osc-sanitize.ts and the decoders of terminal-protocol.ts; css-color.ts)

    The sanitizers of untrusted payload text; UTF-8, base64 and [Number] as the
    platform decodes them; and the encodings of the command lines a shell
    reports: percent-encoded, quoted by [printf %q], and escaped for OSC 633. *)
From Stdlib Require Import ZArith SpecFloat Lia.
From S2P Require Import Prelude JsNum TermText.
#[local] Open Scope Z_scope.
#[local] Open Scope list_scope.

(** ** Sanitizers *)

Definition truncateText (input : text) (limit : nat) : text :=
  if (length input <=? limit)%nat then input else concat (take limit (points input)).

(** [[\x00-\x1f\x7f-\x9f]]. *)
Definition is_control (c : Z) : bool := (c <=? 31) || (127 <=? c) && (c <=? 159).

Definition to_space (run : text) : text := [32].

Definition null_if_empty (t : text) : option text := if bool_decide (t = []) then None else Some t.

Definition sanitizeText (input : text) (limit : nat) : option text :=
  let collapsed := trim (replace_runs js_ws to_space [] (replace_runs is_control to_space [] input)) in
  if bool_decide (collapsed = []) then None else Some (truncateText collapsed limit).

(** [replace(/\r\n?/g, '\n')]. *)
Fixpoint normalize_newlines (t : text) : text :=
  match t with
  | c :: t' =>
      if c =? 13 then 10 :: match t' with d :: t'' => if d =? 10 then normalize_newlines t'' else normalize_newlines t' | [] => [] end
      else c :: normalize_newlines t'
  | [] => []
  end.

Definition sanitizeCommandLine (input : text) (limit : nat) : option text :=
  let control c := is_control c && negb (c =? 10) in
  let collapsed := trim
    (replace_runs js_ws (fun run => if bool_decide (10 ∈ run) then [10] else [32]) []
      (replace_runs control to_space [] (normalize_newlines input))) in
  if bool_decide (collapsed = []) then None else Some (truncateText collapsed limit).

Definition sanitizeClipboardText (input : text) : option text :=
  null_if_empty (List.filter (fun c => negb ((c <=? 8) || (11 <=? c) && (c <=? 31) || (127 <=? c) && (c <=? 159))) (normalize_newlines input)).

Example sanitized : sanitizeText (lit "  a" ++ [7; 10; 9] ++ lit "b  ") 10 = Some (lit "a b").
Proof. reflexivity. Qed.

(** ** Decoders *)

Definition hex_value (c : Z) : option Z :=
  if (48 <=? c) && (c <=? 57) then Some (c - 48)
  else if (65 <=? c) && (c <=? 70) then Some (c - 55)
  else if (97 <=? c) && (c <=? 102) then Some (c - 87)
  else None.

Definition oct_value (c : Z) : option Z := if (48 <=? c) && (c <=? 55) then Some (c - 48) else None.

(** Up to [n] digits of a base at the head of a text: their value and count. *)
Fixpoint digits_at (digit : Z -> option Z) (base : Z) (n : nat) (t : text) (acc : Z) (count : nat) : Z * nat :=
  match n, t with
  | S n, c :: t => match digit c with Some d => digits_at digit base n t (acc * base + d) (S count) | None => (acc, count) end
  | _, _ => (acc, count)
  end.

(** [String.fromCodePoint]. *)
Definition fromCodePoint (code : Z) : text :=
  if code <=? 65535 then [code] else [55296 + (code - 65536) / 1024; 56320 + (code - 65536) mod 1024].

(** ** UTF-8: [new TextDecoder().decode(bytes)] *)

(** Inside a sequence: the bytes still needed, the bits so far, and the range the
    next byte must lie in; [None] between sequences. *)
Abbreviation Utf8State := (option (nat * Z * Z * Z)).

Definition REPLACEMENT : Z := 65533.

Definition utf8_start (b : Z) : text * Utf8State :=
  if b <=? 127 then ([b], None)
  else if (194 <=? b) && (b <=? 223) then ([], Some (1%nat, Z.land b 31, 128, 191))
  else if (224 <=? b) && (b <=? 239) then
    ([], Some (2%nat, Z.land b 15, if b =? 224 then 160 else 128, if b =? 237 then 159 else 191))
  else if (240 <=? b) && (b <=? 244) then
    ([], Some (3%nat, Z.land b 7, if b =? 240 then 144 else 128, if b =? 244 then 143 else 191))
  else ([REPLACEMENT], None).

Definition utf8_byte (s : Utf8State) (b : Z) : text * Utf8State :=
  match s with
  | None => utf8_start b
  | Some (needed, acc, lower, upper) =>
      if (lower <=? b) && (b <=? upper) then
        let acc' := Z.lor (Z.shiftl acc 6) (Z.land b 63) in
        match needed with
        | S (S n) => ([], Some (S n, acc', 128, 191))
        | _ => (fromCodePoint acc', None)
        end
      else let p := utf8_start b in (REPLACEMENT :: p.1, p.2)
  end.

Fixpoint utf8_bytes (s : Utf8State) (bytes : list Z) : text :=
  match bytes with
  | [] => match s with None => [] | Some _ => [REPLACEMENT] end
  | b :: bytes => let p := utf8_byte s b in p.1 ++ utf8_bytes p.2 bytes
  end.

(** The byte order mark at the head is dropped. *)
Definition utf8_decode (bytes : list Z) : text :=
  match utf8_bytes None bytes with
  | c :: t => if c =? 65279 then t else c :: t
  | [] => []
  end.

(** ** Shell-reported command lines *)

(** [decodePercentEncoded], from the bytes of the run being read. *)
Definition flush (run : list Z) : text := if bool_decide (run = []) then [] else utf8_decode (reverse run).

Fixpoint decode_percent (run : list Z) (t : text) : text :=
  match t with
  | [] => flush run
  | c :: t' =>
      match t' with
      | h :: l :: t'' =>
          match (if c =? 37 then hex_value h else None), hex_value l with
          | Some a, Some b => decode_percent (a * 16 + b :: run) t''
          | _, _ => flush run ++ c :: decode_percent [] t'
          end
      | _ => flush run ++ c :: decode_percent [] t'
      end
  end.

Definition decodePercentEncoded (value : text) : text := decode_percent [] value.

(** [ANSI_C_ESCAPES]. *)
Definition ansi_escape (c : Z) : option Z :=
  if c =? 97 then Some 7 else if c =? 98 then Some 8 else if (c =? 101) || (c =? 69) then Some 27
  else if c =? 102 then Some 12 else if c =? 110 then Some 10 else if c =? 114 then Some 13
  else if c =? 116 then Some 9 else if c =? 118 then Some 11 else None.

Definition of_code (code : Z) : text := if code <=? 1114111 then fromCodePoint code else [].

(** [ANSI_C_NUMERIC_ESCAPE] at the head of a text: the code and the width. *)
Definition numeric_escape (rest : text) : option (Z * nat) :=
  let hex n t := let p := digits_at hex_value 16 n t 0 0 in if (p.2 =? 0)%nat then None else Some (p.1, S p.2) in
  match rest with
  | c :: t =>
      if c =? 120 then hex 2%nat t
      else if c =? 117 then hex 4%nat t
      else if c =? 85 then hex 8%nat t
      else let p := digits_at oct_value 8 3 rest 0 0 in if (p.2 =? 0)%nat then None else Some p
  | [] => None
  end.

Definition decodeAnsiCEscape (rest : text) : text * nat :=
  match numeric_escape rest with
  | Some (code, width) => (of_code code, width)
  | None =>
      match rest with
      | c :: d :: _ => if c =? 99 then ([Z.land d 31], 2%nat) else ([default c (ansi_escape c)], 1%nat)
      | [c] => ([default c (ansi_escape c)], 1%nat)
      | [] => ([], 1%nat)
      end
  end.

(** [decodeAnsiCQuote] from the text past the [$']: the body and what follows the closing quote. *)
Fixpoint decodeAnsiCQuote (fuel : nat) (t : text) : text * text :=
  match fuel, t with
  | S fuel, c :: t' =>
      if c =? 39 then ([], t')
      else if c =? 92 then
        let e := decodeAnsiCEscape (take 9 t') in
        let r := decodeAnsiCQuote fuel (drop e.2 t') in (e.1 ++ r.1, r.2)
      else let r := decodeAnsiCQuote fuel t' in (c :: r.1, r.2)
  | _, _ => ([], [])
  end.

Fixpoint shell_word (fuel : nat) (t : text) : text :=
  match fuel, t with
  | S fuel, c :: t' =>
      if c =? 92 then match t' with d :: t'' => d :: shell_word fuel t'' | [] => [] end
      else if c =? 39 then
        match index_where (fun d => d =? 39) t' with
        | Some i => take i t' ++ shell_word fuel (drop (S i) t')
        | None => t'
        end
      else if (c =? 36) && bool_decide (head t' = Some 39) then
        let q := decodeAnsiCQuote (length t') (tail t') in q.1 ++ shell_word fuel q.2
      else c :: shell_word fuel t'
  | _, _ => []
  end.

Definition decodeShellQuotedWord (value : text) : text := shell_word (length value) value.

(** [decodeOsc633Value]. *)
Fixpoint decodeOsc633Value (t : text) : text :=
  match t with
  | c :: t' =>
      if c =? 92 then
        match t' with
        | d :: t'' =>
            if d =? 92 then 92 :: decodeOsc633Value t''
            else
              match t'' with
              | h :: l :: t3 =>
                  match (if d =? 120 then hex_value h else None), hex_value l with
                  | Some a, Some b => a * 16 + b :: decodeOsc633Value t3
                  | _, _ => c :: decodeOsc633Value t'
                  end
              | _ => c :: decodeOsc633Value t'
              end
        | [] => [c]
        end
      else c :: decodeOsc633Value t'
  | [] => []
  end.

(** ** Base64 *)

Definition base64_value (c : Z) : option Z :=
  if (65 <=? c) && (c <=? 90) then Some (c - 65)
  else if (97 <=? c) && (c <=? 122) then Some (c - 71)
  else if (48 <=? c) && (c <=? 57) then Some (c + 4)
  else if c =? 43 then Some 62
  else if c =? 47 then Some 63
  else None.

(** The bytes of the six-bit values, four at a time; leftover bits are dropped. *)
Fixpoint sextets (vs : list Z) : list Z :=
  match vs with
  | a :: b :: c :: d :: vs =>
      a * 4 + b / 16 :: (b mod 16) * 16 + c / 4 :: (c mod 4) * 64 + d :: sextets vs
  | [a; b; c] => [a * 4 + b / 16; (b mod 16) * 16 + c / 4]
  | [a; b] => [a * 4 + b / 16]
  | _ => []
  end.

(** The body of [/^[A-Za-z0-9+\/]*={0,2}$/] as values, and the number of [=] after it. *)
Fixpoint base64_body (t : text) : option (list Z * nat) :=
  match t with
  | [] => Some ([], 0%nat)
  | c :: t' =>
      match base64_value c with
      | Some v => match base64_body t' with Some (vs, n) => Some (v :: vs, n) | None => None end
      | None => if bool_decide (t = [61]) then Some ([], 1%nat) else if bool_decide (t = [61; 61]) then Some ([], 2%nat) else None
      end
  end.

(** [decodeBase64]: [atob] throws on padding that does not fill the last group. *)
Definition decodeBase64 (input : text) : option text :=
  let normalized := trim input in
  match base64_body normalized with
  | None => None
  | Some (vs, padding) =>
      if (length normalized mod 4 =? 1)%nat then None
      else if negb (padding =? 0)%nat && negb (length normalized mod 4 =? 0)%nat then None
      else Some (utf8_decode (sextets vs))
  end.

Example quoted_word : decodeShellQuotedWord (lit "a\ b$'\x41\n'" ++ lit "'c d'") = lit "a bA" ++ [10] ++ lit "c d".
Proof. reflexivity. Qed.

Example osc633_value : decodeOsc633Value (lit "echo \x3b \\x41 \q") = lit "echo ; \x41 \q".
Proof. reflexivity. Qed.

Example base64_text : decodeBase64 (lit " aGkg4oKs ") = Some (lit "hi " ++ [8364]).
Proof. reflexivity. Qed.

Example base64_padding : (decodeBase64 (lit "aGk="), decodeBase64 (lit "aGk"), decodeBase64 (lit "aA="), decodeBase64 (lit "a"))
  = (Some (lit "hi"), Some (lit "hi"), None, None).
Proof. reflexivity. Qed.

Example percent_text : decodePercentEncoded (lit "a%20%e2%82%acb%zz%80") = lit "a " ++ [8364] ++ lit "b%zz" ++ [REPLACEMENT].
Proof. reflexivity. Qed.

(** ** [Number(text)]: decimal literals, correctly rounded, [Infinity] and the three radix prefixes *)

(** The digits at the head of a text, as a value, with their count. *)
Fixpoint digits_run (digit : Z -> option Z) (base : Z) (t : text) (acc : Z) (count : nat) : Z * nat * text :=
  match t with
  | c :: t' => match digit c with Some d => digits_run digit base t' (acc * base + d) (S count) | None => (acc, count, t) end
  | [] => (acc, count, [])
  end.

Definition dec_value (c : Z) : option Z := if is_digit_unit c then Some (c - 48) else None.
Definition bin_value (c : Z) : option Z := if (48 <=? c) && (c <=? 49) then Some (c - 48) else None.

(** The double nearest to [m * 10 ^ e]. *)
Definition decimal_double (m e : Z) : spec_float :=
  match m with
  | Zpos p =>
      if 0 <=? e then Binary64.of_Z (m * 10 ^ e)
      else SFdiv 53 1024 (S754_finite false p 0) (S754_finite false (Z.to_pos (10 ^ (- e))) 0)
  | _ => S754_zero false
  end.

(** The exponent part, or 0 at the end of the text. *)
Definition exponent (t : text) : option Z :=
  match t with
  | [] => Some 0
  | c :: t' =>
      if (c =? 101) || (c =? 69) then
        let neg := starts_with (lit "-") t' in
        let ds := if neg || starts_with (lit "+") t' then tail t' else t' in
        match digits_run dec_value 10 ds 0 0 with
        | (_, O, _) => None
        | (v, _, []) => Some (if neg then - v else v)
        | _ => None
        end
      else None
  end.

(** [digits [. digits] [exponent]], with a digit on one side of the point. *)
Definition unsigned_decimal (t : text) : spec_float :=
  if bool_decide (t = lit "Infinity") then S754_infinity false
  else
    let '(m, n, rest) := digits_run dec_value 10 t 0 0 in
    let '(m', k, rest') := if starts_with (lit ".") rest then digits_run dec_value 10 (tail rest) m 0 else (m, 0%nat, rest) in
    if (n + k =? 0)%nat then S754_nan
    else match exponent rest' with Some e => decimal_double m' (e - Z.of_nat k) | None => S754_nan end.

Definition radix_literal (digit : Z -> option Z) (base : Z) (t : text) : spec_float :=
  match digits_run digit base t 0 0 with
  | (_, O, _) => S754_nan
  | (v, _, []) => Binary64.of_Z v
  | _ => S754_nan
  end.

Definition js_Number (raw : text) : spec_float :=
  let t := trim raw in
  match t with
  | [] => S754_zero false
  | c :: t' =>
      if c =? 43 then unsigned_decimal t'
      else if c =? 45 then SFopp (unsigned_decimal t')
      else
        match t with
        | 48 :: d :: t'' =>
            if (d =? 120) || (d =? 88) then radix_literal hex_value 16 t''
            else if (d =? 111) || (d =? 79) then radix_literal oct_value 8 t''
            else if (d =? 98) || (d =? 66) then radix_literal bin_value 2 t''
            else unsigned_decimal t
        | _ => unsigned_decimal t
        end
  end.

(** The integer a double is, if [Number.isInteger] holds of it. *)
Definition integer_of (f : spec_float) : option Z :=
  match f with
  | S754_zero _ => Some 0
  | S754_finite s m e =>
      let z := if 0 <=? e then Some (Zpos m * 2 ^ e)
               else if Zpos m mod 2 ^ (- e) =? 0 then Some (Zpos m / 2 ^ (- e)) else None in
      option_map (fun z => if s then - z else z) z
  | _ => None
  end.

Example numbers :
  map (fun s => integer_of (js_Number (lit s))) ["130"; " -1 "; "0x1F"; "1e2"; "12.50e1"; ""; "5.5"; "x"; "Infinity"; "1e-400"]%string
  = [Some 130; Some (-1); Some 31; Some 100; Some 125; Some 0; None; None; None; Some 0].
Proof. by vm_compute. Qed.

(** ** CSS colours (lib/src/lib/css-color.ts) and the colour replies of terminal-protocol.ts *)

Record Rgba := mkRgba { red : spec_float; green : spec_float; blue : spec_float; alpha : spec_float }.

(** The longest prefix of a text in a class, and the rest. *)
Fixpoint span_of (class : Z -> bool) (t : text) : text * text :=
  match t with
  | c :: t' => if class c then let p := span_of class t' in (c :: p.1, p.2) else ([], t)
  | [] => ([], [])
  end.

(** The values of a text of hexadecimal digits. *)
Fixpoint hex_values (t : text) : option (list Z) :=
  match t with
  | [] => Some []
  | c :: t => match hex_value c, hex_values t with Some v, Some vs => Some (v :: vs) | _, _ => None end
  end.

Definition byte_double (z : Z) : spec_float := Binary64.of_Z z.

(** An alpha byte as a fraction of 255. *)
Definition alpha_double (z : Z) : spec_float := SFdiv 53 1024 (byte_double z) (byte_double 255).

(** [HEX_SHORT] and [HEX_LONG]. *)
Definition parse_hex (t : text) : option Rgba :=
  match t with
  | 35 :: ds =>
      match hex_values ds with
      | Some [r; g; b] => Some (mkRgba (byte_double (17 * r)) (byte_double (17 * g)) (byte_double (17 * b)) (byte_double 1))
      | Some [r; g; b; a] =>
          Some (mkRgba (byte_double (17 * r)) (byte_double (17 * g)) (byte_double (17 * b)) (alpha_double (17 * a)))
      | Some [r; r'; g; g'; b; b'] =>
          Some (mkRgba (byte_double (16 * r + r')) (byte_double (16 * g + g')) (byte_double (16 * b + b')) (byte_double 1))
      | Some [r; r'; g; g'; b; b'; a; a'] =>
          Some (mkRgba (byte_double (16 * r + r')) (byte_double (16 * g + g')) (byte_double (16 * b + b'))
                  (alpha_double (16 * a + a')))
      | _ => None
      end
  | _ => None
  end.

(** [parseFloat] on digits and points. *)
Definition parseFloat (t : text) : spec_float :=
  let '(m, n, rest) := digits_run dec_value 10 t 0 0 in
  let '(m', k, _) := if starts_with (lit ".") rest then digits_run dec_value 10 (tail rest) m 0 else (m, 0%nat, rest) in
  if (n + k =? 0)%nat then S754_nan else decimal_double m' (- Z.of_nat k).

Definition is_number_unit (c : Z) : bool := is_digit_unit c || (c =? 46).

(** [([0-9.]+)] at the head of a text. *)
Definition number_at (t : text) : option (text * text) :=
  let p := span_of is_number_unit t in if bool_decide (p.1 = []) then None else Some p.

(** [\s*[, ]\s*]: white space around a comma, or white space with a space in it. *)
Definition separator_at (t : text) : option text :=
  let p := span_of (fun c => js_ws c || (c =? 44)) t in
  match length (List.filter (fun c => c =? 44) p.1) with
  | 1%nat => Some p.2
  | O => if bool_decide (32 ∈ p.1) then Some p.2 else None
  | _ => None
  end.

(** What may follow the third channel: an alpha, white space and the closing bracket. *)
Definition rgb_tail (t : text) : option spec_float :=
  let closes u := bool_decide ((span_of js_ws u).2 = lit ")") in
  match (span_of js_ws t).2 with
  | c :: u =>
      if (c =? 44) || (c =? 47) then
        match number_at (span_of js_ws u).2 with
        | Some (n, v) =>
            if starts_with (lit "%") v then
              if closes (tail v) then Some (SFdiv 53 1024 (parseFloat n) (byte_double 100)) else None
            else if closes v then Some (parseFloat n) else None
        | None => None
        end
      else if closes t then Some (byte_double 1) else None
  | [] => None
  end.

(** [RGB_FN]. *)
Definition parse_rgb (t : text) : option Rgba :=
  let lower c := if (65 <=? c) && (c <=? 90) then c + 32 else c in
  let body :=
    if bool_decide (map lower (take 4 t) = lit "rgb(") then Some (drop 4 t)
    else if bool_decide (map lower (take 5 t) = lit "rgba(") then Some (drop 5 t) else None in
  match body with
  | None => None
  | Some u =>
      match number_at (span_of js_ws u).2 with
      | None => None
      | Some (r, u1) =>
          match option_map number_at (separator_at u1) with
          | Some (Some (g, u2)) =>
              match option_map number_at (separator_at u2) with
              | Some (Some (b, u3)) =>
                  match rgb_tail u3 with
                  | Some a => Some (mkRgba (parseFloat r) (parseFloat g) (parseFloat b) a)
                  | None => None
                  end
              | _ => None
              end
          | _ => None
          end
      end
  end.

Definition parseColor (value : text) : option Rgba :=
  let v := trim value in
  match parse_hex v with Some c => Some c | None => parse_rgb v end.

(** A hexadecimal digit of [toString(16)]. *)
Definition hex_unit (n : Z) : Z := if n <? 10 then 48 + n else 87 + n.

(** [Math.max(0, Math.min(255, Math.round(n))).toString(16).padStart(2, '0')]. *)
Definition channel_hex (f : spec_float) : text :=
  match Binary64.max (byte_double 0) (Binary64.min (byte_double 255) (Binary64.round f)) with
  | S754_nan => lit "NaN"
  | g => let z := default 0 (integer_of g) in [hex_unit (z / 16); hex_unit (z mod 16)]
  end.

Definition toHex (c : Rgba) : text := lit "#" ++ channel_hex (red c) ++ channel_hex (green c) ++ channel_hex (blue c).

Definition parseColorRgb (value : text) : option (spec_float * spec_float * spec_float) :=
  option_map (fun c => (red c, green c, blue c)) (parseColor value).

(** [formatOscColorResponse]. *)
Definition formatOscColorResponse (code : text) (color : option text) : option text :=
  match color with
  | Some t =>
      if bool_decide (t = []) then None
      else
        match parseColor t with
        | Some rgb =>
            let channel f := channel_hex f ++ channel_hex f in
            Some ([ESC] ++ lit "]" ++ code ++ lit ";rgb:" ++ channel (red rgb) ++ lit "/" ++ channel (green rgb) ++ lit "/" ++
                  channel (blue rgb) ++ [ESC; 92])
        | None => None
        end
  | None => None
  end.

Example colors :
  map (fun s => option_map toHex (parseColor (lit s)))
    [" #1e1e1e "; "#abc8"; "rgb(12, 300 0.5)"; "RGBA( 1,2 , 3 / 50%)"; "rgb(1,,2,3)"; "rgb(1 2 3"; "red"]%string
  = [Some (lit "#1e1e1e"); Some (lit "#aabbcc"); Some (lit "#0cff01"); Some (lit "#010203"); None; None; None].
Proof. by vm_compute. Qed.

Example color_reply : formatOscColorResponse (lit "11") (Some (lit "#0c1")) = Some ([ESC] ++ lit "]11;rgb:0000/cccc/1111" ++ [ESC; 92]).
Proof. by vm_compute. Qed.
