(* ===== verification/TermCwd.v ===== *)
(** * Reported working directories (lib/src/lib/terminal-state.ts)

    The readers of the directories a shell reports: an OSC 7 URI, and the plain
    paths of OSC 9;9, OSC 633 and OSC 1337.  The WHATWG URL parser and
    [toLowerCase] are the platform's, a parameter. *)
From Stdlib Require Import ZArith QArith Lia.
From S2P Require Import Prelude JsValue TerminalState TermText TermDecode.
#[local] Open Scope Z_scope.
#[local] Open Scope list_scope.

Record UrlParts := mkUrl { protocol : text; pathname : text; hostname : text }.

Class UrlHost := {
  URL : text -> option UrlParts;     (** [new URL(s)], [None] where it throws *)
  toLowerCase : text -> text
}.

Record Cwd := mkCwdText {
  uri : option text;
  cwdPath : text;
  host : option text;
  scheme : bool;                      (** [scheme: 'file'] is present *)
  pathKind : PathKind;
  isRemote : bool;
  cwdSource : CwdSource;
  cwdUpdatedAt : Q                    (** a time of the wall clock, or one put in order *)
}.

Definition MAX_CWD_LENGTH : nat := 4096.

Definition boundedCwdValue (value : text) : text :=
  let stripped := List.filter (fun c => negb (is_control c)) value in
  if (length stripped <=? MAX_CWD_LENGTH)%nat then stripped else concat (take MAX_CWD_LENGTH (points stripped)).

Definition is_letter (c : Z) : bool := (65 <=? c) && (c <=? 90) || (97 <=? c) && (c <=? 122).
Definition is_slash (c : Z) : bool := (c =? 47) || (c =? 92).

(** [isUncOrDevicePath] of dor-lib-common/src/browser-providers.ts. *)
Definition isUncOrDevicePath (path : text) : bool :=
  match path with a :: b :: _ => is_slash a && is_slash b | _ => false end.

Definition isWindowsPath (path : text) : bool :=
  match path with
  | [a; b] => is_letter a && (b =? 58)
  | a :: b :: c :: _ => is_letter a && (b =? 58) && is_slash c
  | _ => false
  end || isUncOrDevicePath path.

Definition inferPathKind (path : text) : PathKind :=
  if isWindowsPath path then windows
  else if starts_with (lit "/") path || starts_with (lit "~/") path then posix
  else path_unknown.

Definition normalizeFileUriPath (path : text) : text :=
  match path with
  | a :: b :: c :: d :: _ => if (a =? 47) && is_letter b && (c =? 58) && (d =? 47) then tail path else path
  | _ => path
  end.

(** ** decodeURIComponent *)

(** A byte the sequence being read may hold: no overlong form, surrogate or value past U+10FFFF. *)
Definition utf8_valid (s : Utf8State) (b : Z) : bool :=
  match s with
  | None => (b <=? 127) || (194 <=? b) && (b <=? 244)
  | Some (_, _, lower, upper) => (lower <=? b) && (b <=? upper)
  end.

(** [None] is the [URIError] it throws. *)
Fixpoint decode_uri (s : Utf8State) (t : text) : option text :=
  match t with
  | [] => match s with None => Some [] | Some _ => None end
  | c :: t' =>
      if c =? 37 then
        match t' with
        | h :: l :: t'' =>
            match hex_value h, hex_value l with
            | Some a, Some b =>
                if utf8_valid s (a * 16 + b) then
                  let p := utf8_byte s (a * 16 + b) in
                  match decode_uri p.2 t'' with Some r => Some (p.1 ++ r) | None => None end
                else None
            | _, _ => None
            end
        | _ => None
        end
      else
        match s with
        | None => match decode_uri None t' with Some r => Some (c :: r) | None => None end
        | Some _ => None
        end
  end.

Definition safeDecodeURIComponent (value : text) : text := default value (decode_uri None value).

Section readers.
  Context {U : UrlHost}.

(** The host of a [file://host] text up to the first slash, [?] or [#], if it is not empty. *)
Definition extractFileUriHost (u : text) : option text :=
  let ascii_lower c := if (65 <=? c) && (c <=? 90) then c + 32 else c in
  if bool_decide (map ascii_lower (take 7 u) = lit "file://") then
    let rest := drop 7 u in
    let h := match index_where (fun c => (c =? 47) || (c =? 63) || (c =? 35)) rest with
             | Some i => take i rest
             | None => rest
             end in
    if bool_decide (h = []) then None else Some (safeDecodeURIComponent h)
  else None.

Definition fileUriHost (u parsedHostname : text) : text :=
  match extractFileUriHost u with
  | None => parsedHostname
  | Some sliced =>
      if bool_decide (sliced = []) then parsedHostname
      else if bool_decide (toLowerCase sliced = parsedHostname) then sliced
      else if bool_decide (parsedHostname = []) && bool_decide (toLowerCase sliced = lit "localhost") then sliced
      else parsedHostname
  end.

Definition isRemoteFileHost (h : option text) : bool :=
  match h with
  | Some h => negb (bool_decide (h = [])) && negb (bool_decide (toLowerCase h = lit "localhost"))
  | None => false
  end.

Definition cwdFromOsc7 (rawUriInput : text) (now : Z) : option Cwd :=
  let rawUri := boundedCwdValue rawUriInput in
  match URL rawUri with
  | None => None
  | Some parsed =>
      if negb (bool_decide (protocol parsed = lit "file:")) then None
      else
        let decodedPath := boundedCwdValue (normalizeFileUriPath (safeDecodeURIComponent (pathname parsed))) in
        let h := null_if_empty (boundedCwdValue (fileUriHost rawUri (hostname parsed))) in
        Some (mkCwdText (Some rawUri) decodedPath h true (inferPathKind decodedPath)
                (isRemoteFileHost h || isUncOrDevicePath decodedPath) cwd_osc7 (inject_Z now))
  end.

Definition cwdFromOsc9_9 (rawPath : text) (now : Z) : option Cwd :=
  let path := boundedCwdValue rawPath in
  if bool_decide (path = []) then None
  else Some (mkCwdText None path None false (if isWindowsPath path then windows else path_unknown)
               (isUncOrDevicePath path) cwd_osc9_9 (inject_Z now)).

Definition cwdFromDecodedPath (rawPath : text) (source : CwdSource) (now : Z) : option Cwd :=
  let path := boundedCwdValue rawPath in
  if bool_decide (path = []) then None
  else Some (mkCwdText None path None false (inferPathKind path) (isUncOrDevicePath path) source (inject_Z now)).

Definition cwdFromOsc633 (rawPath : text) (now : Z) : option Cwd := cwdFromDecodedPath rawPath cwd_osc633 now.
Definition cwdFromOsc1337 (rawPath : text) (now : Z) : option Cwd := cwdFromDecodedPath rawPath cwd_osc1337 now.

(** [cwdIdentity]. *)
Definition pathKind_text (k : PathKind) : text :=
  match k with posix => lit "posix" | windows => lit "windows" | path_unknown => lit "unknown" end.

Definition cwdIdentity (c : Cwd) : text :=
  (if scheme c then lit "file" else lit "path") ++ lit "|" ++ default [] (host c) ++ lit "|" ++
  pathKind_text (pathKind c) ++ lit "|" ++ cwdPath c.

End readers.

Example decoded_uri : decode_uri None (lit "/a%20b/%e2%82%ac") = Some (lit "/a b/" ++ [8364]) /\ decode_uri None (lit "%e2%82") = None
  /\ decode_uri None (lit "%c0%80") = None.
Proof. by vm_compute. Qed.
