(* ===== verification/ToolOsc.v ===== *)
(** * OSC 367: Tool announcements (dor-tools-lib/src/osc.ts)

    What a Tool writes to its terminal and what its host reads back: the
    parsers of the four verbs, and the writers, which refuse what the host would
    ignore.  [JSON.parse] and [JSON.stringify] are a parameter. *)
From Stdlib Require Import ZArith SpecFloat Lia.
From S2P Require Import Prelude JsValue JsNum TermText TermDecode TermCwd.
#[local] Open Scope Z_scope.
#[local] Open Scope list_scope.
#[local] Set Warnings "-register-all".

(** A JSON value. *)
Inductive Json :=
  | TNull
  | TBool (b : bool)
  | TNum (f : spec_float)
  | TStr (t : text)
  | TArr (vs : list Json)
  | TObj (fields : list (text * Json)).

Class JsonHost := {
  json_parse : text -> option Json;      (** [None] where it throws *)
  json_stringify : Json -> text
}.

(** [record.name]; [None] is [undefined]. *)
Definition field (name : string) (record : list (text * Json)) : option Json :=
  match List.find (fun kv => bool_decide (kv.1 = lit name)) record with
  | Some kv => Some kv.2
  | None => None
  end.

Definition one : spec_float := Binary64.of_Z 1.

(** [v === 1]. *)
Definition is_one (v : option Json) : bool := match v with Some (TNum f) => SFeqb f one | _ => false end.

Definition str_of (v : option Json) : option text := match v with Some (TStr t) => Some t | _ => None end.

(** [value === 'text']. *)
Definition is_text (s : string) (v : option Json) : bool := bool_decide (str_of v = Some (lit s)).

Definition TOOL_PAYLOAD_LIMIT : nat := 4096.
Definition NAME_LIMIT : nat := 200.
Definition KEY_ELEMENT_LIMIT : nat := 512.
Definition KEY_ELEMENTS_LIMIT : nat := 8.
Definition OPEN_PATH_LIMIT : nat := 2048.

Inductive Persist := respawn | never.
Inductive Disposition := current | other_surface.

Record ToolAnnounce := mkAnnounce {
  ta_port : option Z;
  ta_path : option text;
  ta_name : option text;
  ta_key : option (list text);
  ta_dehydrate : bool;
  ta_persist : option Persist
}.

Record ToolOpen := mkOpen {
  to_path : text;
  to_preview : bool;
  to_disposition : option Disposition;
  to_fragment : option text
}.

#[export] Instance Persist_eq_dec : EqDecision Persist.
Proof. solve_decision. Defined.
#[export] Instance Disposition_eq_dec : EqDecision Disposition.
Proof. solve_decision. Defined.

(** ** Guards *)

(** [sanitize]. *)
Definition sanitize (v : option Json) (limit : nat) : option text :=
  match v with Some (TStr t) => sanitizeText t limit | _ => None end.

Definition port_of (f : spec_float) : option Z :=
  match integer_of f with
  | Some z => if (1 <=? z) && (z <=? 65535) then Some z else None
  | None => None
  end.

Definition readPort (v : option Json) : option Z := match v with Some (TNum f) => port_of f | _ => None end.

(** The cleaned elements, unless one of them cleans to nothing. *)
Fixpoint clean_elements (vs : list Json) : option (list text) :=
  match vs with
  | [] => Some []
  | v :: vs =>
      match sanitize (Some v) KEY_ELEMENT_LIMIT, clean_elements vs with
      | Some t, Some ts => Some (t :: ts)
      | _, _ => None
      end
  end.

Definition readKey (v : option Json) : option (list text) :=
  match v with
  | Some (TArr vs) => if (length vs =? 0)%nat || (KEY_ELEMENTS_LIMIT <? length vs)%nat then None else clean_elements vs
  | _ => None
  end.

(** [[\\\u0000-\u0020\u007f-\u009f]]. *)
Definition path_control (c : Z) : bool := (c =? 92) || (c <=? 32) || (127 <=? c) && (c <=? 159).

Definition validToolServePath (t : text) : bool :=
  (length t <=? 2048)%nat && starts_with (lit "/") t && negb (starts_with (lit "//") t) && negb (existsb path_control t).

(** [CONTROLS]. *)
Definition has_controls (t : text) : bool := existsb is_control t.

Definition validToolFragment (t : text) : bool := (length t <=? 2048)%nat && negb (has_controls t).

Definition disposition_of (v : Json) : option Disposition :=
  if is_text "current" (Some v) then Some current else if is_text "other" (Some v) then Some other_surface else None.

(** [validOpenNavigation] on what the fields read as. *)
Definition validOpenNavigation (preview disposition fragment : option Json) : bool :=
  match disposition with
  | Some d => negb (match preview with Some (TBool true) => true | _ => false end) && bool_decide (is_Some (disposition_of d))
  | None => true
  end &&
  match fragment with
  | None => true
  | Some f => bool_decide (is_Some disposition) && match f with TStr t => validToolFragment t | _ => false end
  end.

(** [validToolOpenPath] of a string. *)
Definition validToolOpenPath (t : text) : bool :=
  (length t <=? OPEN_PATH_LIMIT)%nat &&
  (starts_with (lit "/") t || match t with a :: b :: c :: _ => is_letter a && (b =? 58) && is_slash c | _ => false end) &&
  negb (has_controls t).

(** ** Reading *)

Section read.
  Context {J : JsonHost}.

Definition parseToolPayload (content : text) (verb : string) : option (list (text * Json)) :=
  if negb (starts_with (lit verb ++ [59]) content) then None
  else
    let raw := drop (S (length (lit verb))) content in
    if (length raw =? 0)%nat || (TOOL_PAYLOAD_LIMIT <? length raw)%nat then None
    else match json_parse raw with Some (TObj fields) => Some fields | _ => None end.

Definition parseToolAnnounce (content : text) : option ToolAnnounce :=
  match parseToolPayload content "serve" with
  | None => None
  | Some record =>
      if bool_decide (is_Some (field "v" record)) && negb (is_one (field "v" record)) then None
      else
        let announce := mkAnnounce (readPort (field "port" record))
          (match str_of (field "path" record) with Some p => if validToolServePath p then Some p else None | None => None end)
          (sanitize (field "name" record) NAME_LIMIT) (readKey (field "key" record))
          (match field "dehydrate" record with Some (TBool b) => b | _ => false end)
          (if is_text "never" (field "persist" record) then Some never
           else if is_text "respawn" (field "persist" record) then Some respawn else None) in
        if negb (bool_decide (is_Some (ta_port announce))) && negb (bool_decide (is_Some (ta_name announce))) &&
           negb (bool_decide (is_Some (ta_key announce))) && negb (ta_dehydrate announce) &&
           negb (bool_decide (is_Some (ta_persist announce)))
        then None else Some announce
  end.

(** [parseToolState]: the [dirty] it reports. *)
Definition parseToolState (content : text) : option bool :=
  match parseToolPayload content "state" with
  | Some record =>
      if is_one (field "v" record) then match field "dirty" record with Some (TBool b) => Some b | _ => None end else None
  | None => None
  end.

Definition parseToolOpen (content : text) : option ToolOpen :=
  match parseToolPayload content "open" with
  | None => None
  | Some record =>
      match is_one (field "v" record), str_of (field "path" record) with
      | true, Some path =>
          if negb (validToolOpenPath path) then None
          else if match field "preview" record with None | Some (TBool _) => false | Some _ => true end then None
          else if negb (validOpenNavigation (field "preview" record) (field "disposition" record) (field "fragment" record)) then None
          else Some (mkOpen path (match field "preview" record with Some (TBool b) => b | _ => false end)
                 (match field "disposition" record with Some d => disposition_of d | None => None end)
                 (str_of (field "fragment" record)))
      | _, _ => None
      end
  end.

(** [dehydratedState]; a [null] state is none. *)
Definition dehydratedState (content : text) : option Json :=
  match parseToolPayload content "dehydrate" with
  | Some record => if is_one (field "v" record) then match field "state" record with Some TNull => None | v => v end else None
  | None => None
  end.

(** [parseToolDehydrate]: the payload, verbatim. *)
Definition parseToolDehydrate (content : text) : option text :=
  match dehydratedState content with Some _ => Some (drop (length (lit "dehydrate;")) content) | None => None end.

(** [readDehydrated]. *)
Definition readDehydrated (value : option text) : option Json :=
  match value with Some v => dehydratedState (lit "dehydrate;" ++ v) | None => None end.

(** ** Writing *)

Record ServeOptions := mkServe {
  so_port : option spec_float;
  so_path : option text;
  so_dehydrate : option bool;
  so_persist : option Persist
}.

Definition persist_text (p : Persist) : text := match p with respawn => lit "respawn" | never => lit "never" end.
Definition disposition_text (d : Disposition) : text := match d with current => lit "current" | other_surface => lit "other" end.

Definition range_error : Exn := OtherErr "RangeError".
Definition type_error : Exn := OtherErr "TypeError".

(** A field a literal spreads in, or [JSON.stringify] drops, when it is [undefined]. *)
Definition opt_field {A} (name : string) (f : A -> Json) (v : option A) : list (text * Json) :=
  match v with Some a => [(lit name, f a)] | None => [] end.

(** [escapeC1]. *)
Definition escapeC1 (raw : text) : text :=
  concat (map (fun c => if (127 <=? c) && (c <=? 159) then lit "\u00" ++ [(if c / 16 <? 10 then 48 + c / 16 else 87 + c / 16);
    (if c mod 16 <? 10 then 48 + c mod 16 else 87 + c mod 16)] else [c]) raw).

(** [sequence]. *)
Definition sequence (verb : string) (payload : list (text * Json)) (encode : text -> text) : outcome text :=
  let raw := encode (json_stringify (TObj payload)) in
  let! _ := throw_if (TOOL_PAYLOAD_LIMIT <? length raw)%nat range_error in
  Ok ([ESC] ++ lit "]367;" ++ lit verb ++ [59] ++ raw ++ [BEL]).

Definition serveSequence (o : ServeOptions) : outcome text :=
  let! _ := throw_if (match so_port o with Some p => negb (bool_decide (is_Some (port_of p))) | None => false end) range_error in
  let! _ := throw_if (match so_path o with
                      | Some p => negb (bool_decide (is_Some (so_port o))) || negb (validToolServePath p)
                      | None => false end) range_error in
  let! _ := throw_if (negb (bool_decide (is_Some (so_port o))) && negb (bool_decide (so_dehydrate o = Some true)) &&
                      negb (bool_decide (is_Some (so_persist o)))) range_error in
  sequence "serve" (opt_field "port" TNum (so_port o) ++ opt_field "path" TStr (so_path o) ++
    opt_field "dehydrate" TBool (so_dehydrate o) ++ opt_field "persist" (fun p => TStr (persist_text p)) (so_persist o) ++
    [(lit "v", TNum one)]) (fun raw => raw).

Definition stateSequence (dirty : bool) : outcome text :=
  sequence "state" [(lit "v", TNum one); (lit "dirty", TBool dirty)] (fun raw => raw).

Definition openSequence (o : ToolOpen) : outcome text :=
  let! _ := throw_if (negb (validToolOpenPath (to_path o))) range_error in
  let disposition := option_map (fun d => TStr (disposition_text d)) (to_disposition o) in
  let! _ := throw_if (negb (validOpenNavigation (Some (TBool (to_preview o))) disposition (option_map TStr (to_fragment o)))) type_error in
  sequence "open" ([(lit "v", TNum one); (lit "path", TStr (to_path o)); (lit "preview", TBool (to_preview o))] ++
    opt_field "disposition" (fun d => d) disposition ++ opt_field "fragment" TStr (to_fragment o)) (fun raw => raw).

Definition dehydrateSequence (state : Json) : outcome text :=
  let! _ := throw_if (match state with TNull => true | _ => false end) type_error in
  sequence "dehydrate" [(lit "v", TNum one); (lit "state", state)] escapeC1.

End read.
