(* ===== verification/OscParse.v ===== *)
(** * The OSC sequences a terminal reports with (lib/src/lib/terminal-protocol.ts)

    What each OSC payload means: the events the parser reports, and the
    payloads it leaves to xterm.js.  [parseOsc] threads the pending chunks of
    kitty notifications; the clock is read once per call. *)
From Stdlib Require Import ZArith QArith SpecFloat Lia.
From S2P Require Import Prelude JsValue JsNum TerminalState TermText TermDecode TermCwd ToolOsc.
#[local] Open Scope Z_scope.
#[local] Open Scope list_scope.
#[local] Set Warnings "-abstract-large-number".

(** ** Events *)

Inductive NotificationSource := src_BEL | src_OSC9 | src_OSC99 | src_OSC777.

#[export] Instance NotificationSource_eq_dec : EqDecision NotificationSource.
Proof. solve_decision. Defined.

Record Notification := mkNote { n_source : NotificationSource; n_title : option text; n_body : option text }.

Inductive ProgressState := progress_clear | progress_normal | progress_error | progress_indeterminate | progress_warning.

Record Progress := mkProgressReport { pr_state : ProgressState; pr_percent : option spec_float }.

(** What [parseOsc94] passes on as a progress report: the table answers with a
    report, or [Object.prototype] answers with an object of its own. *)
Inductive ProgressReport :=
  | report (p : Progress)
  | boxed (raw : option text)        (** [Object(raw)] *)
  | undefined_tag.                   (** ["[object Undefined]"] *)

Inductive SemanticEvent :=
  | sem_cwd (cwd : Cwd)
  | sem_promptStart
  | sem_promptEnd
  | sem_commandLine (commandLine : text)
  | sem_commandStart (source : CommandRunSource) (startedAt : option Q)
  | sem_commandFinish (exitCode : option Z) (finishedAt : option Q)
  | sem_title (title : text) (source : TerminalTitleSource) (updatedAt : Q).

Inductive TerminalProtocolEvent :=
  | notification (n : Notification)
  | clipboardOffer (t : text)
  | toolAnnounce (announce : ToolAnnounce)
  | toolState (dirty : bool)
  | toolOpen (open : ToolOpen)
  | toolDehydrate (payload : text)
  | progress (p : ProgressReport)
  | response (data : text)
  | semantic (event : SemanticEvent).

Inductive TerminalColorTarget := foreground | background | cursor.

(** ** Limits *)

Definition OSC99_PENDING_TTL_MS : Z := 60000.
Definition OSC99_MAX_PENDING_IDS : nat := 64.
Definition TITLE_LIMIT : nat := 256.
Definition BODY_LIMIT : nat := 4096.
Definition COMMAND_LINE_LIMIT : nat := 2048.
Definition CLIPBOARD_OFFER_LIMIT : nat := 16000.
Definition OSC99_PENDING_TITLE_LIMIT : nat := 2048.
Definition OSC99_PENDING_BODY_LIMIT : nat := 16384.

(** ** Pending kitty notifications, in insertion order *)

Record Osc99Pending := mkPending { p_title : text; p_body : text; p_updatedAt : Z }.

Abbreviation Osc99Map := (list (text * Osc99Pending)).

Definition pending_get (id : text) (m : Osc99Map) : option Osc99Pending :=
  match List.find (fun kv => bool_decide (kv.1 = id)) m with Some kv => Some kv.2 | None => None end.

Definition pending_delete (id : text) (m : Osc99Map) : Osc99Map :=
  List.filter (fun kv => negb (bool_decide (kv.1 = id))) m.

(** A write to the entry of an id through its alias. *)
Definition pending_update (id : text) (p : Osc99Pending) (m : Osc99Map) : Osc99Map :=
  map (fun kv => if bool_decide (kv.1 = id) then (id, p) else kv) m.

Definition expireOsc99Pending (now : Z) (m : Osc99Map) : Osc99Map :=
  List.filter (fun kv => negb (p_updatedAt kv.2 <? now - OSC99_PENDING_TTL_MS)) m.

(** The oldest ids go until the cap is met. *)
Definition enforceOsc99PendingCap (m : Osc99Map) : Osc99Map := drop (length m - OSC99_MAX_PENDING_IDS) m.

Definition parseOsc99Metadata (rawMetadata : text) : list (Z * text) :=
  omap (fun part => match part with
                    | key :: sep :: value => if is_letter key && (sep =? 61) then Some (key, value) else None
                    | _ => None
                    end) (split_on 58 rawMetadata).

(** [metadata.get(key)]: the last one set. *)
Definition metadata_get (key : string) (metadata : list (Z * text)) : option text :=
  match List.find (fun kv => bool_decide ([kv.1] = lit key)) (reverse metadata) with Some kv => Some kv.2 | None => None end.

Definition sanitizeOsc99Id (id : option text) : option text :=
  match id with Some t => if bool_decide (t = []) then None else sanitizeText t TITLE_LIMIT | None => None end.

Definition OSC99_SUPPORT_PAYLOAD : text := lit "o=always:p=title,body".

(** [OSC99_RESPONSE_ID_RE]. *)
Definition response_id (t : text) : bool :=
  (1 <=? length t)%nat && (length t <=? 64)%nat &&
  forallb (fun c => is_letter c || is_digit_unit c || existsb (Z.eqb c) (lit "_+.-")) t.

Definition formatOsc99SupportResponse (id : option text) : text :=
  let metadata := match id with
                  | Some t => if negb (bool_decide (t = [])) && response_id t then lit "i=" ++ t ++ lit ":p=?" else lit "p=?"
                  | None => lit "p=?"
                  end in
  [ESC] ++ lit "]99;" ++ metadata ++ [59] ++ OSC99_SUPPORT_PAYLOAD ++ [ESC; 92].

Definition appendLimited (existing next : text) (limit : nat) : text := truncateText (existing ++ next) limit.

(** The notification two texts make, if either survives the sanitizer. *)
Definition notify (source : NotificationSource) (rawTitle rawBody : text) : list TerminalProtocolEvent :=
  let title := sanitizeText rawTitle TITLE_LIMIT in
  let body := sanitizeText rawBody BODY_LIMIT in
  match title, body with None, None => [] | _, _ => [notification (mkNote source title body)] end.

(** The two sides of the first [sep]; all of the text and nothing, if there is none. *)
Definition cut_at (sep : Z) (t : text) : text * text :=
  match index_where (fun c => c =? sep) t with Some i => (take i t, drop (S i) t) | None => (t, []) end.

(** The entry of an id, made if there is none. *)
Definition claim_pending (id : option text) (fresh : Osc99Pending) (m : Osc99Map) : Osc99Map :=
  match id with
  | Some id => match pending_get id m with Some _ => m | None => enforceOsc99PendingCap (m ++ [(id, fresh)]) end
  | None => m
  end.

(** The entries a chunk leaves pending, after expiry, and its events. *)
Definition parseOsc99 (now : Z) (m : Osc99Map) (content : text) : Osc99Map * list TerminalProtocolEvent :=
  let m := expireOsc99Pending now m in
  if negb (starts_with (lit "99;") content) then (m, [])
  else
    let '(rawMetadata, rawPayload) := cut_at 59 (drop 3 content) in
    let metadata := parseOsc99Metadata rawMetadata in
    let payloadType := default (lit "title") (metadata_get "p" metadata) in
    if bool_decide (payloadType = lit "?") then (m, [response (formatOsc99SupportResponse (metadata_get "i" metadata))])
    else if bool_decide (payloadType = lit "close") || bool_decide (payloadType = lit "alive") then (m, [])
    else
      let id := sanitizeOsc99Id (metadata_get "i" metadata) in
      let done := negb (bool_decide (metadata_get "d" metadata = Some (lit "0"))) in
      let encoding := default (lit "0") (metadata_get "e" metadata) in
      let decoded := if bool_decide (encoding = lit "1") then decodeBase64 rawPayload
                     else if bool_decide (encoding = lit "0") then Some rawPayload else None in
      match decoded with
      | None => (m, [])
      | Some payload =>
          let fresh := mkPending [] [] now in
          let target := default fresh (match id with Some id => pending_get id m | None => None end) in
          let m := claim_pending id fresh m in
          let write p := match id with Some id => pending_update id p m | None => m end in
          let titled := bool_decide (payloadType = lit "title") in
          let bodied := bool_decide (payloadType = lit "body") in
          let target := mkPending
            (if titled then appendLimited (p_title target) payload OSC99_PENDING_TITLE_LIMIT else p_title target)
            (if negb titled && bodied then appendLimited (p_body target) payload OSC99_PENDING_BODY_LIMIT else p_body target) now in
          if negb done then (write target, [])
          else (match id with Some id => pending_delete id m | None => m end,
                notify src_OSC99 (p_title target) (p_body target))
      end.

(** ** The other sequences *)

(** [text.indexOf(pattern)]. *)
Fixpoint index_of (pattern t : text) : option nat :=
  if starts_with pattern t then Some 0%nat
  else match t with _ :: t => option_map S (index_of pattern t) | [] => None end.

(** [content === id || content.startsWith(id + ';')]. *)
Definition claims (id : string) (content : text) : bool :=
  bool_decide (content = lit id) || starts_with (lit id ++ [59]) content.

(** The disposition of an OSC from its id, once enough of it has arrived. *)
Inductive OscDisposition := consume | forward.

#[export] Instance OscDisposition_eq_dec : EqDecision OscDisposition.
Proof. solve_decision. Defined.

Definition OSC_CONSUMED_IDS : list string :=
  ["0"; "2"; "7"; "9"; "10"; "11"; "12"; "50"; "52"; "99"; "133"; "367"; "633"; "777"]%string.

Definition OSC1337_FORWARDED : list string :=
  ["File="; "MultipartFile="; "FilePart="; "FileEnd"; "ReportCellSize"]%string.

(** [matchesPrefix] on a text shorter than the command. *)
Definition partial_command (t : text) (command : string) : bool :=
  (length t <? length (lit command))%nat && starts_with t (lit command).

Definition osc1337DispositionAt (t : text) : option OscDisposition :=
  if existsb (fun command => starts_with (lit command) t) OSC1337_FORWARDED then Some forward
  else if existsb (partial_command t) OSC1337_FORWARDED then None
  else Some consume.

Definition oscDispositionAt (t : text) : option OscDisposition :=
  let p := span_of is_digit_unit t in
  match p.2 with
  | [] => None
  | c :: rest =>
      if bool_decide (p.1 = []) || negb (c =? 59) then Some forward
      else if bool_decide (p.1 = lit "1337") then osc1337DispositionAt rest
      else Some (if existsb (fun id => bool_decide (p.1 = lit id)) OSC_CONSUMED_IDS then consume else forward)
  end.

(** [truncateText(encoded, COMMAND_LINE_LIMIT * encodedWidth)], decoded, then sanitized. *)
Definition commandLineEvents (encoded : text) (encodedWidth : nat) (decode : text -> text) : list TerminalProtocolEvent :=
  match sanitizeCommandLine (decode (truncateText encoded (COMMAND_LINE_LIMIT * encodedWidth))) COMMAND_LINE_LIMIT with
  | Some commandLine => [semantic (sem_commandLine commandLine)]
  | None => []
  end.

Definition parseOsc133CommandLine (params : text) : list TerminalProtocolEvent :=
  let quoted := index_of (lit ";cmdline=") params in
  let before := match quoted with Some i => take i params | None => params end in
  match List.find (starts_with (lit "cmdline_url=")) (split_on 59 before) with
  | Some url => commandLineEvents (drop (length (lit "cmdline_url=")) url) 12 decodePercentEncoded
  | None =>
      match quoted with
      | Some i => commandLineEvents (drop (i + length (lit ";cmdline=")) params) 4 decodeShellQuotedWord
      | None => []
      end
  end.

(** [parseExitCode]. *)
Definition parseExitCode (raw : option text) : option Z :=
  match raw with
  | Some t => if bool_decide (t = []) then None else integer_of (js_Number t)
  | None => None
  end.

Definition parsePromptBoundary (fields : list text) (source : CommandRunSource) : list TerminalProtocolEvent :=
  match fields !! 1%nat with
  | Some f =>
      if bool_decide (f = lit "A") then [semantic sem_promptStart]
      else if bool_decide (f = lit "B") then [semantic sem_promptEnd]
      else if bool_decide (f = lit "C") then [semantic (sem_commandStart source None)]
      else if bool_decide (f = lit "D") then [semantic (sem_commandFinish (parseExitCode (fields !! 2%nat)) None)]
      else []
  | None => []
  end.

Definition parseOsc133 (content : text) : list TerminalProtocolEvent :=
  let fields := split_on 59 content in
  if negb (bool_decide (fields !! 0%nat = Some (lit "133"))) then []
  else
    let boundary := parsePromptBoundary fields osc133_boundaries in
    if bool_decide (fields !! 1%nat = Some (lit "C")) then parseOsc133CommandLine (drop 5 content) ++ boundary else boundary.

Definition cwd_event (cwd : option Cwd) : list TerminalProtocolEvent :=
  match cwd with Some c => [semantic (sem_cwd c)] | None => [] end.

(** [parseOsc633Property]. *)
Definition parseOsc633Property (now : Z) (rawProperties : text) : list TerminalProtocolEvent :=
  if starts_with (lit "Cwd=") rawProperties then cwd_event (cwdFromOsc633 (drop 4 rawProperties) now) else [].

Definition parseOsc633 (now : Z) (content : text) : list TerminalProtocolEvent :=
  let fields := split_on 59 content in
  if negb (bool_decide (fields !! 0%nat = Some (lit "633"))) then []
  else if bool_decide (fields !! 1%nat = Some (lit "E")) then
    if negb (starts_with (lit "633;E;") content) then []
    else commandLineEvents (default [] (head (split_on 59 (drop 6 content)))) 4 decodeOsc633Value
  else if bool_decide (fields !! 1%nat = Some (lit "P")) then parseOsc633Property now (drop 6 content)
  else parsePromptBoundary fields osc633_boundaries.

(** [parseOsc1337]; [None] passes the sequence through. *)
Definition parseOsc1337 (now : Z) (content : text) : option (list TerminalProtocolEvent) :=
  if bool_decide (oscDispositionAt content = Some forward) then None
  else if starts_with (lit "1337;CurrentDir=") content then
    Some (cwd_event (cwdFromOsc1337 (drop (length (lit "1337;CurrentDir=")) content) now))
  else Some [].

Definition parseOscTitle (content : text) (source : TerminalTitleSource) : list TerminalProtocolEvent :=
  let prefix := match source with osc0 => lit "0;" | _ => lit "2;" end in
  if negb (starts_with prefix content) then []
  else match sanitizeText (drop 2 content) TITLE_LIMIT with
       | Some t => [semantic (sem_title t source 0)]
       | None => []
       end.

Definition parseOsc777 (content : text) : list TerminalProtocolEvent :=
  if negb (starts_with (lit "777;notify;") content) then []
  else let '(rawTitle, rawBody) := cut_at 59 (drop (length (lit "777;notify;")) content) in notify src_OSC777 rawTitle rawBody.

Definition parseOsc52 (content : text) : list TerminalProtocolEvent :=
  let fields := split_on 59 content in
  let data := if (length fields =? 3)%nat then List.filter (fun c => negb (js_ws c)) (default [] (fields !! 2%nat)) else [] in
  if (CLIPBOARD_OFFER_LIMIT <? length data)%nat then []
  else
    match decodeBase64 data with
    | Some decoded => match sanitizeClipboardText decoded with Some t => [clipboardOffer t] | None => [] end
    | None => []
    end.

(** ** OSC 9 *)

Definition parsePercent (raw : option text) : option spec_float :=
  match raw with
  | Some t =>
      if bool_decide (t = []) then None
      else
        let value := js_Number t in
        if negb (Binary64.is_finite value) || SFltb value (Binary64.of_Z 0) || SFltb (Binary64.of_Z 100) value then None
        else Some value
  | None => None
  end.

(** The methods of [Object.prototype] the state table inherits: called with no
    receiver, some throw, one answers [false], two answer an object. *)
Inductive Inherited := throws | answers_false | answers_object | answers_tag.

Definition inherited (key : text) : option Inherited :=
  if bool_decide (key = lit "constructor") then Some answers_object
  else if bool_decide (key = lit "toString") then Some answers_tag
  else if bool_decide (key = lit "isPrototypeOf") then Some answers_false
  else if existsb (fun k => bool_decide (key = lit k))
            ["__proto__"; "hasOwnProperty"; "valueOf"; "toLocaleString"; "propertyIsEnumerable";
             "__defineGetter__"; "__defineSetter__"; "__lookupGetter__"; "__lookupSetter__"]%string then Some throws
  else None.

(** [OSC94_STATE_TABLE[key]] applied to [raw]. *)
Definition osc94_state (key : text) (raw : option text) : outcome (option ProgressReport) :=
  let percented state := option_map (fun p => report (mkProgressReport state (Some p))) (parsePercent raw) in
  if bool_decide (key = []) || bool_decide (key = lit "0") then Ok (Some (report (mkProgressReport progress_clear None)))
  else if bool_decide (key = lit "1") then Ok (percented progress_normal)
  else if bool_decide (key = lit "2") then Ok (Some (report (mkProgressReport progress_error (parsePercent raw))))
  else if bool_decide (key = lit "3") then Ok (Some (report (mkProgressReport progress_indeterminate None)))
  else if bool_decide (key = lit "4") then Ok (percented progress_warning)
  else
    match inherited key with
    | None | Some answers_false => Ok None
    | Some answers_object => Ok (Some (boxed raw))
    | Some answers_tag => Ok (Some undefined_tag)
    | Some throws => Throw type_error
    end.

Definition parseOsc94 (content : text) : outcome (option ProgressReport) :=
  let fields := split_on 59 content in
  osc94_state (default [] (fields !! 2%nat)) (fields !! 3%nat).

(** [/^9;(\d+)(?:;|$)/]: the subcommand, and what follows the match. *)
Definition osc9_subcommand (content : text) : option (text * text) :=
  if negb (starts_with (lit "9;") content) then None
  else
    let p := span_of is_digit_unit (drop 2 content) in
    if bool_decide (p.1 = []) then None
    else match p.2 with [] => Some (p.1, []) | c :: rest => if c =? 59 then Some (p.1, rest) else None end.

Definition parseOsc9 (now : Z) (content : text) : outcome (list TerminalProtocolEvent) :=
  match osc9_subcommand content with
  | None =>
      Ok (match sanitizeText (drop 2 content) BODY_LIMIT with
          | Some body => [notification (mkNote src_OSC9 None (Some body))]
          | None => []
          end)
  | Some (subcommand, rest) =>
      if bool_decide (subcommand = lit "4") then
        let! p := parseOsc94 content in
        Ok (match p with Some p => [progress p] | None => [] end)
      else if bool_decide (subcommand = lit "9") then Ok (cwd_event (cwdFromOsc9_9 rest now))
      else Ok []
  end.

(** ** The dispatch *)

Section parse.
  Context {U : UrlHost} {J : JsonHost}.
  Variable colorProvider : option (TerminalColorTarget -> option text).

Definition parseOsc7 (now : Z) (content : text) : list TerminalProtocolEvent :=
  if starts_with (lit "7;") content then cwd_event (cwdFromOsc7 (drop 2 content) now) else [].

Definition parseOsc367 (payload : text) : list TerminalProtocolEvent :=
  match parseToolAnnounce payload with
  | Some announce => [toolAnnounce announce]
  | None =>
      match parseToolState payload with
      | Some dirty => [toolState dirty]
      | None =>
          match parseToolOpen payload with
          | Some open => [toolOpen open]
          | None => match parseToolDehydrate payload with Some payload => [toolDehydrate payload] | None => [] end
          end
      end
  end.

Definition parseColorQuery (content : text) : option (list TerminalProtocolEvent) :=
  let query code := bool_decide (content = lit code ++ lit ";?") in
  let answer code target :=
    match colorProvider with
    | Some provider => option_map (fun data => [response data]) (formatOscColorResponse (lit code) (provider target))
    | None => None
    end in
  if query "10"%string then answer "10"%string foreground
  else if query "11"%string then answer "11"%string background
  else if query "12"%string then answer "12"%string cursor
  else None.

(** [parseOsc]: [None] passes the sequence through to xterm.js. *)
Definition parseOsc (now : Z) (m : Osc99Map) (content : text) : Osc99Map * outcome (option (list TerminalProtocolEvent)) :=
  let same x := (m, Ok (Some x)) in
  if claims "7" content then same (parseOsc7 now content)
  else if claims "9" content then (m, let! evs := parseOsc9 now content in Ok (Some evs))
  else if claims "133" content then same (parseOsc133 content)
  else if claims "633" content then same (parseOsc633 now content)
  else if claims "1337" content then (m, Ok (parseOsc1337 now content))
  else if claims "0" content then same (parseOscTitle content osc0)
  else if claims "2" content then same (parseOscTitle content osc2)
  else if claims "99" content then let r := parseOsc99 now m content in (r.1, Ok (Some r.2))
  else if claims "777" content then same (parseOsc777 content)
  else if bool_decide (content = lit "367") then same []
  else if starts_with (lit "367;") content then same (parseOsc367 (drop 4 content))
  else if claims "52" content then same (parseOsc52 content)
  else match parseColorQuery content with
       | Some evs => same evs
       | None => if claims "50" content then same [] else (m, Ok None)
       end.

End parse.
