(* ===== verification/ShellWords.v ===== *)
(** * Words of a command line (lib/src/lib/terminal-state.ts, posix-escape.ts)

    [tokenizeCommand]: a command line split into words the way a shell reads it,
    its separators as tokens of their own.  The loop over [input[i]] works on
    what is left of the input; [before] is [input[i - 1]], and a turn answers how
    many units it consumed. *)
From Stdlib Require Import ZArith Lia.
From S2P Require Import Prelude TermText TermCwd.
#[local] Open Scope Z_scope.
#[local] Open Scope list_scope.

(** [POSIX_ESCAPABLE.test(c)]. *)
Definition POSIX_ESCAPABLE (c : Z) : bool :=
  bool_decide (c ∈ [32; 9; 33; 34; 35; 36; 38; 39; 40; 41; 42; 59; 60; 62; 63; 91; 92; 93; 96; 123; 124; 125; 126]).

Record HereDocument := mkHere { delimiter : text; stripTabs : bool }.

Definition is_quote (c : Z) : bool := (c =? 34) || (c =? 39).

(** [; & | ( ) < >] *)
Definition is_metachar (c : Z) : bool := bool_decide (c ∈ lit ";&|()<>").

(** The delimiter word of a [<<], quotes removed, from where it starts. *)
Fixpoint delimiter_word (quote : option Z) (t : text) : text :=
  match t with
  | [] => []
  | c :: t' =>
      match quote with
      | Some q => if c =? q then delimiter_word None t' else c :: delimiter_word quote t'
      | None =>
          if is_quote c then delimiter_word (Some c) t'
          else if (c =? 92) && negb (bool_decide (t' = [])) then
            match t' with d :: t'' => d :: delimiter_word None t'' | [] => [] end
          else if js_ws c || is_metachar c then []
          else c :: delimiter_word None t'
      end
  end.

Fixpoint drop_blanks (t : text) : text :=
  match t with c :: t' => if (c =? 32) || (c =? 9) then drop_blanks t' else t | [] => [] end.

(** [t] is the input after the [<<]. *)
Definition readHereDocumentDelimiter (t : text) : option HereDocument :=
  let strip := starts_with (lit "-") t in
  let word := delimiter_word None (drop_blanks (if strip then tail t else t)) in
  if bool_decide (word = []) then None else Some (mkHere word strip).

Fixpoint drop_tabs (t : text) : text :=
  match t with c :: t' => if c =? 9 then drop_tabs t' else t | [] => [] end.

(** What follows one body: past its delimiter line, or nothing. *)
Fixpoint after_body (doc : HereDocument) (line : text) (t : text) : text :=
  match t with
  | [] => []
  | c :: t' =>
      if c =? 10 then
        let body := reverse line in
        if bool_decide ((if stripTabs doc then drop_tabs body else body) = delimiter doc) then t' else after_body doc [] t'
      else after_body doc (c :: line) t'
  end.

(** How much of [t] the bodies of [docs] take, one after another. *)
Definition skipHereDocumentBodies (t : text) (docs : list HereDocument) : nat :=
  (length t - length (fold_left (fun rest doc => after_body doc [] rest) docs t))%nat.

Definition is_name_start (c : Z) : bool := is_letter c || (c =? 95).
Definition is_name_unit (c : Z) : bool := is_name_start c || is_digit_unit c.

(** What follows the longest name at the head of [t], if one starts there. *)
Fixpoint drop_name (t : text) : text :=
  match t with c :: t' => if is_name_unit c then drop_name t' else t | [] => [] end.
Definition after_name (t : text) : option text :=
  match t with c :: t' => if is_name_start c then Some (drop_name t') else None | [] => None end.

(** [ARRAY_ASSIGNMENT_PREFIX.test(current)]: a name, then [=] or [+=], and no more. *)
Definition array_assignment_prefix (current : text) : bool :=
  match after_name current with Some rest => bool_decide (rest = lit "=") || bool_decide (rest = lit "+=") | None => false end.

(** [isEnvAssignment]. *)
Definition isEnvAssignment (token : option text) : bool :=
  match token with
  | Some t => match after_name t with Some rest => starts_with (lit "=") rest | None => false end
  | None => false
  end.

(** The variables of the loop. *)
Record Tok := mkTok {
  tokens : list text;
  current : text;
  quote : option Z;
  escaping : bool;
  wordParens : nat;
  operatorPrefix : option Z;
  hereDocuments : list HereDocument
}.

Definition tok_start : Tok := mkTok [] [] None false 0 None [].

Definition push (k : Tok) : Tok :=
  if bool_decide (current k = []) then k
  else mkTok (tokens k ++ [current k]) [] (quote k) (escaping k) (wordParens k) (operatorPrefix k) (hereDocuments k).

Definition emit (t : text) (k : Tok) : Tok :=
  mkTok (tokens k ++ [t]) (current k) (quote k) (escaping k) (wordParens k) (operatorPrefix k) (hereDocuments k).
Definition add (c : Z) (k : Tok) : Tok :=
  mkTok (tokens k) (current k ++ [c]) (quote k) (escaping k) (wordParens k) (operatorPrefix k) (hereDocuments k).
Definition set_quote (q : option Z) (k : Tok) : Tok :=
  mkTok (tokens k) (current k) q (escaping k) (wordParens k) (operatorPrefix k) (hereDocuments k).
Definition set_escaping (e : bool) (k : Tok) : Tok :=
  mkTok (tokens k) (current k) (quote k) e (wordParens k) (operatorPrefix k) (hereDocuments k).
Definition set_parens (n : nat) (k : Tok) : Tok :=
  mkTok (tokens k) (current k) (quote k) (escaping k) n (operatorPrefix k) (hereDocuments k).
Definition set_prefix (p : option Z) (k : Tok) : Tok :=
  mkTok (tokens k) (current k) (quote k) (escaping k) (wordParens k) p (hereDocuments k).
Definition set_docs (ds : list HereDocument) (k : Tok) : Tok :=
  mkTok (tokens k) (current k) (quote k) (escaping k) (wordParens k) (operatorPrefix k) ds.

(** [current = c], the start of a word of its own. *)
Definition start_word (c : Z) (k : Tok) : Tok := add c (push k).

(** An operator of its own after the word before it. *)
Definition operator (t : text) (k : Tok) : Tok := emit t (push k).

Definition next_is (d : Z) (t : text) : bool := bool_decide (head t = Some d).

(** A character outside quotes that is not part of a substitution. *)
Definition plain_turn (before : option Z) (prefix : option Z) (c : Z) (t : text) (k : Tok) : Tok * nat :=
  if c =? 10 then
    let k := operator (lit ";") k in
    match hereDocuments k with
    | [] => (k, 1%nat)
    | docs => (set_docs [] k, S (skipHereDocumentBodies t docs))
    end
  else if js_ws c then (push k, 1%nat)
  else if (c =? 40) || (c =? 41) then (operator [c] k, 1%nat)
  else if (c =? 38) && (bool_decide (prefix = Some 60) || bool_decide (prefix = Some 62)) || (c =? 124) && bool_decide (prefix = Some 62)
  then (add c k, 1%nat)
  else if (c =? 38) && next_is 62 t then (start_word c k, 1%nat)
  else if (c =? 124) && next_is 38 t || (c =? 38) && next_is 124 t then (operator (lit "|") k, 2%nat)
  else if (c =? 38) && next_is 38 t then (operator (lit "&&") k, 2%nat)
  else if (c =? 124) && next_is 124 t then (operator (lit "||") k, 2%nat)
  else if (c =? 59) && (next_is 59 t || next_is 38 t) then
    let end_ := if starts_with (lit ";;&") (c :: t) then lit ";;&" else take 2 (c :: t) in
    (operator end_ k, length end_)
  else if (c =? 124) || (c =? 59) || (c =? 38) then (operator [c] k, 1%nat)
  else if (c =? 35) && bool_decide (current k = []) &&
          match before with None => true | Some b => js_ws b || bool_decide (b ∈ lit ";&|()") end
  then (k, match index_where (Z.eqb 10) (c :: t) with Some i => i | None => S (length t) end)
  else
    let k :=
      if (c =? 60) && next_is 60 t && negb (next_is 60 (tail t)) && negb (bool_decide (before = Some 60)) then
        match readHereDocumentDelimiter (tail t) with
        | Some doc => set_docs (hereDocuments k ++ [doc]) k
        | None => k
        end
      else k in
    let k := add c k in
    ((if (c =? 36) || (c =? 60) || (c =? 62) then set_prefix (Some c) k else k), 1%nat).

(** One turn of the loop at [c], with [t] the input after it. *)
Definition turn (before : option Z) (c : Z) (t : text) (k0 : Tok) : Tok * nat :=
  let prefix := operatorPrefix k0 in
  let k := set_prefix None k0 in
  if escaping k then (set_escaping false (add c k), 1%nat)
  else if (c =? 92) && negb (bool_decide (quote k = Some 39)) then
    match t with
    | n :: _ =>
        if n =? 10 then (k, 2%nat)
        else if POSIX_ESCAPABLE n then (set_escaping true k, 1%nat)
        else (add c k, 1%nat)
    | [] => (add c k, 1%nat)
    end
  else
    match quote k with
    | Some q => (if c =? q then set_quote None k else add c k, 1%nat)
    | None =>
        if is_quote c then (set_quote (Some c) k, 1%nat)
        else if (0 <? wordParens k)%nat ||
                (c =? 40) && (bool_decide (is_Some prefix) || array_assignment_prefix (current k))
        then
          let n := if c =? 40 then S (wordParens k) else if c =? 41 then (wordParens k - 1)%nat else wordParens k in
          (add c (set_parens n k), 1%nat)
        else plain_turn before prefix c t k
    end.

(** The loop; a turn consumes at least one unit, so the length of the input is fuel enough. *)
Fixpoint tok_loop (fuel : nat) (before : option Z) (t : text) (k : Tok) : Tok :=
  match fuel, t with
  | S fuel, c :: t' =>
      let '(k, n) := turn before c t' k in
      tok_loop fuel (last (take n t)) (drop n t) k
  | _, _ => k
  end.

Definition tokenizeCommand (input : text) : list text :=
  tokens (push (tok_loop (length input) None input tok_start)).

(** [list.join(' ')]. *)
Fixpoint join_spaces (l : list text) : text :=
  match l with
  | [] => []
  | [w] => w
  | w :: l => w ++ [32] ++ join_spaces l
  end.

(** ** The primary command of a line *)

Definition CASE_ITEM_ENDS : list text := [lit ";;"; lit ";&"; lit ";;&"].
Definition LIST_SEPARATORS : list text := [lit "&&"; lit "||"; lit ";"; lit "&"] ++ CASE_ITEM_ENDS.
Definition GROUPING_TOKENS : list text := [lit "("; lit ")"; lit "{"; lit "}"].

Definition is_separator (t : text) : bool := bool_decide (t ∈ LIST_SEPARATORS).
Definition is_grouping (t : text) : bool := bool_decide (t ∈ GROUPING_TOKENS).

(** [list.slice(0, list.findIndex(p))], the whole list where there is none. *)
Fixpoint before_first {A} (p : A -> bool) (l : list A) : list A :=
  match l with [] => [] | x :: l => if p x then [] else x :: before_first p l end.

Fixpoint drop_assignments (ws : list text) : list text :=
  match ws with w :: ws' => if isEnvAssignment (Some w) then drop_assignments ws' else ws | [] => [] end.

Definition takePrimaryCommandTokens (toks : list text) : list text :=
  let words := if bool_decide (head toks = Some (lit "&")) then tail toks else toks in
  let command := List.filter (fun t => negb (is_grouping t))
                   (before_first (fun t => bool_decide (t = lit "|") || is_separator t) words) in
  let command := drop_assignments command in
  match command with
  | w :: ws => if bool_decide (w = lit "env") then drop_assignments ws else command
  | [] => []
  end.

Definition primaryCommandTokens (raw : text) : list text := takePrimaryCommandTokens (tokenizeCommand (trim raw)).
