(* ===== verification/WatchKey.v ===== *)
(** * Watch keys and command titles (lib/src/lib/terminal-state.ts)

    The simple commands of a line, the program each one runs once wrappers,
    assignments and redirections are set aside, the key its WATCHING rule is
    stored under, and the title a pane shows for it. *)
From Stdlib Require Import ZArith Lia.
From S2P Require Import Prelude TermText TermCwd ShellWords.
#[local] Open Scope Z_scope.
#[local] Open Scope list_scope.

Definition word_in (w : text) (names : list string) : bool := existsb (fun s => bool_decide (w = lit s)) names.

(** ** The simple commands of a list *)

Definition CLOSING_WORDS : list string := ["done"; "fi"; "esac"; "end"; "}"; ")"]%string.
Definition OPENING_WORDS : list string :=
  ["if"; "elif"; "then"; "else"; "while"; "until"; "do"; "!"; "("; "{"; "begin"; "and"; "or"; "not"]%string.
Definition LOOP_HEADERS : list string := ["for"; "select"]%string.

Inductive CaseNext := case_pattern | case_in.
#[export] Instance CaseNext_eq_dec : EqDecision CaseNext.
Proof. solve_decision. Defined.

(** [words.indexOf(w)]. *)
Definition word_index (w : text) (words : list text) : option nat := find_index (fun t => bool_decide (t = w)) words.

(** A turn of the loop over the reserved words in front of a segment's command:
    it goes on with other words, or stops with the command, if there is one. *)
Inductive ClauseTurn :=
  | go_on (caseNext : option CaseNext) (words : list text)
  | stop (caseNext : option CaseNext) (command : option (list text)).

Definition clause_turn (caseNext : option CaseNext) (words : list text) : ClauseTurn :=
  match words with
  | [] => stop caseNext None
  | first :: rest =>
      if bool_decide (caseNext = Some case_in) then
        if bool_decide (first = lit "in") then go_on (Some case_pattern) rest else go_on None words
      else if word_in first OPENING_WORDS then go_on caseNext rest
      else if bool_decide (caseNext = Some case_pattern) then
        match word_index (lit ")") words with
        | None => stop None (Some words)
        | Some close => go_on None (drop (S close) words)
        end
      else if bool_decide (first = lit "case") then
        match word_index (lit "in") (drop 2 words) with
        | None => go_on (Some case_in) []
        | Some inAt => go_on (Some case_pattern) (drop (S (2 + inAt)) words)
        end
      else if word_in first LOOP_HEADERS then stop caseNext None
      else stop caseNext (Some words)
  end.

Fixpoint clause (fuel : nat) (caseNext : option CaseNext) (words : list text) : option CaseNext * option (list text) :=
  match fuel with
  | O => (caseNext, None)
  | S fuel =>
      match clause_turn caseNext words with
      | go_on caseNext words => clause fuel caseNext words
      | stop caseNext command => (caseNext, command)
      end
  end.

Definition clause_fuel (words : list text) : nat := (2 * length words + 2)%nat.

Record Listing := mkListing { commands : list (list text); caseNext : option CaseNext; segment : list text }.

(** [end]. *)
Definition end_segment (l : Listing) : Listing :=
  match segment l with
  | [] => l
  | first :: _ =>
      if word_in first CLOSING_WORDS then
        mkListing (commands l) (if bool_decide (first = lit "esac") then None else caseNext l) []
      else
        let '(next, command) := clause (clause_fuel (segment l)) (caseNext l) (segment l) in
        match command with
        | Some words => mkListing (commands l ++ [List.filter (fun t => negb (is_grouping t)) words]) next []
        | None => mkListing (commands l) next []
        end
  end.

Definition list_token (l : Listing) (token : text) : Listing :=
  if is_separator token then
    let l := end_segment l in
    if bool_decide (token ∈ CASE_ITEM_ENDS) then mkListing (commands l) (Some case_pattern) (segment l) else l
  else mkListing (commands l) (caseNext l) (segment l ++ [token]).

Definition listCommands (tokens : list text) : list (list text) :=
  List.filter (fun words => negb (bool_decide (words = [])))
    (commands (end_segment (fold_left list_token tokens (mkListing [] None [])))).

(** ** Wrappers and runners *)

Record WrapperSpec := mkWrapper {
  w_value : list string;
  w_bool : list string;
  w_boolPattern : text -> bool;
  w_assignments : bool;
  w_operands : nat;
  w_packageSpec : bool
}.

Definition never (_ : text) : bool := false.
(** [/^-\d+$/]. *)
Definition minus_number (w : text) : bool :=
  match w with c :: ds => (c =? 45) && negb (bool_decide (ds = [])) && forallb is_digit_unit ds | [] => false end.

Definition PNPM_DLX : WrapperSpec := mkWrapper ["--package"] ["-s"; "--silent"] never false 0 true.
Definition BUN_X : WrapperSpec := mkWrapper ["-p"; "--package"] ["--bun"; "-y"] never false 0 true.

Definition TRANSPARENT_WRAPPERS : list (string * WrapperSpec) := [
  ("env", mkWrapper ["-u"; "--unset"; "-C"; "--chdir"] ["-"; "-i"; "--ignore-environment"; "-0"; "--null"; "-v"; "--debug"] never true 0 false);
  ("sudo", mkWrapper
    ["-u"; "--user"; "-g"; "--group"; "-p"; "--prompt"; "-C"; "--close-from"; "-D"; "--chdir"; "-r"; "--role"; "-t"; "--type"; "-T"; "--command-timeout"; "-U"; "--other-user"]
    ["-E"; "--preserve-env"; "-H"; "--set-home"; "-n"; "--non-interactive"; "-S"; "--stdin"; "-b"; "--background"; "-k"; "--reset-timestamp"; "-P"; "--preserve-groups"; "-A"; "--askpass"; "-B"; "--bell"; "-i"; "--login"; "-s"; "--shell"]
    never true 0 false);
  ("doas", mkWrapper ["-u"] ["-n"] never false 0 false);
  ("time", mkWrapper ["-o"; "--output"; "-f"; "--format"] ["-p"; "--portability"; "-v"; "--verbose"; "-a"; "--append"; "-l"] never false 0 false);
  ("nice", mkWrapper ["-n"; "--adjustment"] [] minus_number false 0 false);
  ("nohup", mkWrapper [] [] never false 0 false);
  ("caffeinate", mkWrapper ["-t"; "-w"] ["-d"; "-i"; "-m"; "-s"; "-u"] never false 0 false);
  ("command", mkWrapper [] ["-p"] never false 0 false);
  ("builtin", mkWrapper [] [] never false 0 false);
  ("exec", mkWrapper ["-a"] ["-c"; "-l"] never false 0 false);
  ("stdbuf", mkWrapper ["-i"; "--input"; "-o"; "--output"; "-e"; "--error"] [] never false 0 false);
  ("timeout", mkWrapper ["-k"; "--kill-after"; "-s"; "--signal"] ["-v"; "--verbose"; "--foreground"; "--preserve-status"] never false 1 false);
  ("npx", mkWrapper ["-p"; "--package"] ["-y"; "--yes"; "--no"; "-q"; "--quiet"] never false 0 true);
  ("pnpx", PNPM_DLX);
  ("bunx", BUN_X);
  ("uvx", mkWrapper ["--from"; "--with"; "-p"; "--python"] ["-q"; "--quiet"; "-v"; "--verbose"; "--isolated"; "--offline"] never false 0 true);
  ("pnpm dlx", PNPM_DLX);
  ("yarn dlx", mkWrapper ["-p"; "--package"] ["-q"; "--quiet"] never false 0 true);
  ("npm exec", mkWrapper ["-p"; "--package"; "-w"; "--workspace"] ["-y"; "--yes"; "--no"; "-q"; "--quiet"; "-ws"; "--workspaces"] never false 0 true);
  ("bun x", BUN_X)]%string.

Record RunnerSpec := mkRunner {
  r_value : list string;
  r_numeric : list string;
  r_drop : list string;
  r_assignments : bool;
  r_toolchain : bool
}.

Definition SCRIPT_RUNNERS : list (string * RunnerSpec) := [
  ("npm", mkRunner ["-C"; "--prefix"; "-w"; "--workspace"] [] ["run"; "run-script"] false false);
  ("pnpm", mkRunner ["-C"; "--dir"; "-F"; "--filter"] [] ["run"] false false);
  ("yarn", mkRunner ["--cwd"] [] ["run"] false false);
  ("bun", mkRunner ["--cwd"; "-F"; "--filter"; "-c"; "--config"] [] ["run"] false false);
  ("cargo", mkRunner ["-C"; "--color"; "--config"; "-Z"] [] [] false true);
  ("make", mkRunner ["-C"; "--directory"; "-f"; "--file"; "--makefile"; "-I"; "--include-dir"; "-o"; "--old-file"; "-W"; "--what-if"]
    ["-j"; "--jobs"; "-l"; "--load-average"] [] true false);
  ("just", mkRunner ["-f"; "--justfile"; "-d"; "--working-directory"; "--shell"; "--dotenv-path"; "--dotenv-filename"; "--color"] [] [] true false)]%string.

(** [map.get(name)]. *)
Definition table_get {S} (table : list (string * S)) (name : text) : option S :=
  option_map snd (List.find (fun e => bool_decide (name = lit e.1)) table).

(** How many words a wrapper's flag occupies, 0 where it is not one it knows. *)
Definition flagWidth (word : text) (spec : WrapperSpec) : nat :=
  if word_in word (w_bool spec) || w_boolPattern spec word then 1
  else if word_in word (w_value spec) then 2
  else
    let equals := index_where (Z.eqb 61) word in
    if starts_with (lit "--") word then
      match equals with
      | Some (S i) => if word_in (take (S i) word) (w_value spec) || word_in (take (S i) word) (w_bool spec) then 1 else 0
      | _ => 0
      end
    else if (2 <? length word)%nat then
      if word_in (take 2 word) (w_value spec) then 1
      else if forallb (fun letter => word_in (45 :: letter) (w_bool spec)) (points (tail word)) then 1
      else 0
    else 0.

(** ** Programs *)

Definition line_terminator (c : Z) : bool := (c =? 10) || (c =? 13) || (c =? 8232) || (c =? 8233).

(** [command.replace(/^.*[\\/]/, '')]: up to the last slash of its first line. *)
Definition commandBasename (command : text) : text :=
  match last_index is_slash (before_first line_terminator command) with Some i => drop (S i) command | None => command end.

Definition ascii_lower (c : Z) : Z := if (65 <=? c) && (c <=? 90) then c + 32 else c.

Definition WINDOWS_EXECUTABLE_SUFFIX (t : text) : bool :=
  word_in (map ascii_lower (drop (length t - 4) t)) [".exe"; ".cmd"; ".bat"; ".com"; ".ps1"]%string.

Definition commandProgramName (command : text) : text :=
  let base := commandBasename command in
  if WINDOWS_EXECUTABLE_SUFFIX base then take (length base - 4) base else base.

(** [/[\\/\s]/]. *)
Definition key_break (c : Z) : bool := is_slash c || js_ws c.

Definition drive_prefix (t : text) : bool := match t with a :: b :: _ => is_letter a && (b =? 58) | _ => false end.

Definition isWatchKey (name : text) : bool :=
  let parts := split_on 32 name in
  (length parts <=? 2)%nat && forallb (fun part => negb (bool_decide (part = [])) && negb (existsb key_break part)) parts &&
  match parts with first :: _ => negb (drive_prefix first) && negb (WINDOWS_EXECUTABLE_SUFFIX first) | [] => false end.

(** [program.replace(/^(.+?)@[^@]*$/, '$1')]. *)
Definition strip_version (program : text) : text :=
  match last_index (Z.eqb 64) program with
  | Some (S i) => if existsb line_terminator (take (S i) program) then program else take (S i) program
  | _ => program
  end.

(** What is left after a wrapper's flags, [None] where one is not understood. *)
Fixpoint wrapper_flags (spec : WrapperSpec) (ws : list text) : option (list text) :=
  match ws with
  | [] => Some []
  | w :: ws' =>
      if bool_decide (w = lit "--") then Some ws'
      else if w_assignments spec && isEnvAssignment (Some w) then wrapper_flags spec ws'
      else if negb (starts_with (lit "-") w) then Some ws
      else match flagWidth w spec with
        | O => None
        | S O => wrapper_flags spec ws'
        | _ => match ws' with _ :: ws'' => wrapper_flags spec ws'' | [] => Some [] end
        end
  end.

(** [wrappedCommandIndex]: the words of the command a wrapper at the head of
    [words] runs, and whether it is a package spec. *)
Definition wrappedCommand (words : list text) : option (list text * bool) :=
  let program := commandProgramName (default [] (head words)) in
  let launcher := table_get TRANSPARENT_WRAPPERS (program ++ lit " " ++ default [] (words !! 1%nat)) in
  match (match launcher with Some s => Some s | None => table_get TRANSPARENT_WRAPPERS program end) with
  | None => None
  | Some spec =>
      match wrapper_flags spec (drop (if launcher then 2 else 1) words) with
      | None => None
      | Some rest =>
          match drop (w_operands spec) rest with
          | [] => None
          | rest => Some (rest, w_packageSpec spec)
          end
      end
  end.

(** The alternatives of [REDIRECTION], in order; none is followed by a parenthesis. *)
Definition REDIRECTIONS : list string := ["&>>"; "&>"; "<&"; ">&"; ">|"; "<>"; ">>"; ">"; "<<<"; "<<-"; "<<"; "<"]%string.

Fixpoint drop_digits (t : text) : text :=
  match t with c :: t' => if is_digit_unit c then drop_digits t' else t | [] => [] end.

(** [REDIRECTION.exec(word)?.[0]]. *)
Definition redirection (word : text) : option text :=
  let rest := drop_digits word in
  match List.find (fun op => starts_with (lit op) rest && negb (next_is 40 (drop (length (lit op)) rest))) REDIRECTIONS with
  | Some op => Some (take (length word - length rest) word ++ lit op)
  | None => None
  end.

Fixpoint withoutRedirections (words : list text) : list text :=
  match words with
  | [] => []
  | word :: words =>
      match redirection word with
      | None => word :: withoutRedirections words
      | Some operator =>
          if bool_decide (operator = word) then match words with _ :: words => withoutRedirections words | [] => [] end
          else withoutRedirections words
      end
  end.

(** [/^\d+(?:\.\d+)?$/]. *)
Definition decimal (t : text) : bool :=
  let rest := drop_digits t in
  (length rest <? length t)%nat &&
  match rest with
  | [] => true
  | c :: ds => (c =? 46) && negb (bool_decide (ds = [])) && forallb is_digit_unit ds
  end.

Fixpoint script_word (dropped : bool) (spec : RunnerSpec) (ws : list text) : option text :=
  match ws with
  | [] => None
  | word :: ws' =>
      if starts_with (lit "-") word && negb (bool_decide (word = lit "-")) then
        if word_in word (r_value spec) || word_in word (r_numeric spec) && decimal (default [] (head ws')) then
          match ws' with _ :: ws'' => script_word dropped spec ws'' | [] => None end
        else script_word dropped spec ws'
      else if r_assignments spec && isEnvAssignment (Some word) then script_word dropped spec ws'
      else if negb dropped && word_in word (r_drop spec) then script_word true spec ws'
      else Some word
  end.

Definition runnerScript (ws : list text) (spec : RunnerSpec) : option text :=
  let ws := match ws with w :: ws' => if r_toolchain spec && starts_with (lit "+") w then ws' else ws | [] => [] end in
  script_word false spec ws.

(** ** The key *)

(** The loop over wrappers: the words left, and whether a package spec leads them. *)
Fixpoint unwrap (fuel : nat) (packageSpec : bool) (words : list text) : list text * bool :=
  let words := drop_assignments words in
  match fuel with
  | O => (words, packageSpec)
  | S fuel =>
      match wrappedCommand words with
      | Some (rest, packageSpec) => unwrap fuel packageSpec rest
      | None => (words, packageSpec)
      end
  end.

Definition watchKeyOfCommand (command : list text) : option text :=
  let words := withoutRedirections command in
  let '(words, packageSpec) := unwrap (length words) false words in
  let program := commandProgramName (default [] (head words)) in
  let program := if packageSpec then strip_version program else program in
  if bool_decide (32 ∈ program) || negb (isWatchKey program) then None
  else
    match table_get SCRIPT_RUNNERS program with
    | None => Some program
    | Some runner =>
        match runnerScript (tail words) runner with
        | Some script => if isWatchKey (program ++ lit " " ++ script) then Some (program ++ lit " " ++ script) else Some program
        | None => Some program
        end
    end.

Definition commandWatchKey (raw : text) : option text :=
  let words := default [] (last (listCommands (tokenizeCommand (trim raw)))) in
  watchKeyOfCommand (before_first (fun t => bool_decide (t = lit "|")) words).

(** The rule that covers a key: itself, or a bare rule on its runner. *)
Definition watchRuleFor (rules : list text) (key : option text) : option text :=
  match key with
  | None => None
  | Some key =>
      if bool_decide (key ∈ rules) then Some key
      else match index_where (Z.eqb 32) key with
        | Some i => if bool_decide (take i key ∈ rules) then Some (take i key) else None
        | None => None
        end
  end.

(** ** Titles *)

Definition DEFAULT_COMMAND_TITLE : text := lit "shell".
Definition COMMAND_TITLE_LIMIT : nat := 48.

Definition commandTitleTokens (tokens : list text) : list text :=
  match tokens with
  | [] => []
  | command :: rest =>
      if bool_decide (command = []) then []
      else
        let program := commandProgramName command in
        let rest0 := default [] (head rest) in
        if word_in program ["npm"]%string && bool_decide (rest0 = lit "run") then program :: take 2 rest
        else if word_in program ["pnpm"; "yarn"; "bun"]%string then program :: take 2 rest
        else if word_in program ["docker"]%string && bool_decide (rest0 = lit "compose") then program :: take 2 rest
        else if word_in program ["cargo"]%string && bool_decide (rest0 = lit "watch") then program :: take 3 rest
        else if word_in program ["ssh"]%string then program :: take 1 rest
        else if word_in program ["vim"; "nvim"; "vi"; "pytest"]%string then [program]
        else program :: take 2 rest
  end.

Definition trim_end (t : text) : text := reverse (drop_ws (reverse t)).

Definition truncateCommandTitle (title : text) : text :=
  if (length title <=? COMMAND_TITLE_LIMIT)%nat then title
  else trim_end (concat (take (COMMAND_TITLE_LIMIT - 3) (points title))) ++ lit "...".

(** [title.replace(/\s*\n\s*/g, ' ')]. *)
Definition one_line (title : text) : text := replace_runs js_ws (fun run => if bool_decide (10 ∈ run) then [32] else run) [] title.

Definition summarizeCommandLine (raw : text) : text :=
  let toks := tokenizeCommand (trim raw) in
  let commandTokens := takePrimaryCommandTokens toks in
  if bool_decide (toks = []) || bool_decide (commandTokens = []) then DEFAULT_COMMAND_TITLE
  else
    let hasPipeline := bool_decide (lit "|" ∈ toks) in
    let hasCompound := existsb (fun t => negb (bool_decide (t = lit "&")) && is_separator t) toks in
    let suffix := if hasPipeline then lit " | ..." else if hasCompound then lit " ..." else [] in
    truncateCommandTitle (one_line (join_spaces (commandTitleTokens commandTokens) ++ suffix)).
