(* ===== verification/WatchKeyFacts.v ===== *)
(** * What watch keys promise

    The loops of the key end; every key can be a rule, and a bare rule on a
    runner covers its scripts; a wrapper is seen through; the commands of a list
    are its words in order, without its grammar. *)
From Stdlib Require Import ZArith Lia.
From S2P Require Import Prelude TermText TermCwd ShellWords WatchKey.
#[local] Open Scope Z_scope.
#[local] Open Scope list_scope.

(** ** The loops *)

Lemma drop_assignments_suffix ws : exists pre, ws = pre ++ drop_assignments ws.
Proof.
  induction ws as [|w ws [pre IH]]; [by exists []|]. cbn [drop_assignments].
  destruct (isEnvAssignment _); [exists (w :: pre); by rewrite IH at 1|by exists []].
Qed.

Lemma drop_assignments_idem ws : drop_assignments (drop_assignments ws) = drop_assignments ws.
Proof. induction ws as [|w ws IH]; [done|]. cbn [drop_assignments]. destruct (isEnvAssignment _) eqn:E; [done|]. cbn [drop_assignments]. by rewrite E. Qed.

Lemma drop_assignments_length ws : (length (drop_assignments ws) <= length ws)%nat.
Proof. destruct (drop_assignments_suffix ws) as [pre E]. rewrite E at 2. rewrite length_app. lia. Qed.

Lemma wrapper_flags_length spec ws rest : wrapper_flags spec ws = Some rest -> (length rest <= length ws)%nat.
Proof.
  induction ws as [ws IH] using (induction_ltof1 _ (@length text)); unfold ltof in IH.
  destruct ws as [|w ws]; [intros [= <-]; done|]. cbn [wrapper_flags].
  case_bool_decide; [intros [= <-]; cbn; lia|].
  destruct (_ && _); [intros Hr; apply IH in Hr; cbn in *; lia|]. destruct (negb _); [intros [= <-]; done|].
  destruct (flagWidth w spec) as [|[|n]]; [done|intros Hr; apply IH in Hr; cbn in *; lia|].
  destruct ws as [|w' ws]; [intros [= <-]; cbn; lia|intros Hr; apply IH in Hr; cbn in *; lia].
Qed.

(** What a wrapper runs is shorter than what it stands at, so the skip ends. *)
Lemma wrappedCommand_shorter ws rest p : wrappedCommand ws = Some (rest, p) -> (length rest < length ws)%nat.
Proof.
  unfold wrappedCommand. intros H. destruct ws as [|w ws]; [by vm_compute in H|].
  destruct (match table_get _ (_ ++ _) with Some s => Some s | None => _ end) as [spec|]; [|done].
  destruct (wrapper_flags spec _) as [r|] eqn:E; [|done]. apply wrapper_flags_length in E.
  rewrite length_drop in E. destruct (drop (w_operands spec) r) as [|x l] eqn:Ed; [done|]. injection H as <- <-.
  pose proof (f_equal length Ed) as El. rewrite length_drop in El. cbn in *. destruct (table_get _ _); lia.
Qed.

(** The loop stops where no wrapper stands, not because its fuel is used up. *)
Lemma unwrap_settles f p ws : (length ws <= f)%nat ->
  let r := (unwrap f p ws).1 in drop_assignments r = r /\ wrappedCommand r = None.
Proof.
  revert p ws. induction f as [|f IH]; intros p ws Hf; cbn [unwrap fst].
  - destruct ws; [done|cbn in Hf; lia].
  - destruct (wrappedCommand (drop_assignments ws)) as [[rest p']|] eqn:E; [|split; [apply drop_assignments_idem|done]].
    apply IH. apply wrappedCommand_shorter in E. pose proof (drop_assignments_length ws). lia.
Qed.

Definition clause_rank (c : option CaseNext) (ws : list text) : nat := (2 * length ws + (if bool_decide (c = Some case_in) then 1 else 0))%nat.

Lemma clause_turn_rank c ws c' ws' : clause_turn c ws = go_on c' ws' -> (clause_rank c' ws' < clause_rank c ws)%nat.
Proof.
  unfold clause_turn, clause_rank. destruct ws as [|first rest]; [done|]. cbn [length].
  repeat case_match; intros [= <- <-]; simplify_eq; cbn [length]; rewrite ?length_drop; cbn [length];
    repeat case_bool_decide; simplify_eq; try lia.
Qed.

Lemma clause_more f c ws : (clause_rank c ws < f)%nat -> clause (S f) c ws = clause f c ws.
Proof.
  revert c ws. induction f as [|f IH]; intros c ws Hf; [lia|]. remember (S f) as g eqn:Eg. cbn [clause]. subst g. cbn [clause].
  destruct (clause_turn c ws) as [c' ws'|] eqn:E; [|done]. apply IH. apply clause_turn_rank in E. lia.
Qed.

(** Any fuel beyond the one chosen reads a segment alike. *)
Lemma clause_enough f c ws : (clause_fuel ws <= f)%nat -> clause f c ws = clause (clause_fuel ws) c ws.
Proof.
  induction 1 as [|f Hf IH]; [done|]. rewrite clause_more; [done|]. unfold clause_fuel, clause_rank in *.
  destruct (bool_decide _); lia.
Qed.

(** The loops of the key end by themselves: the fuel given to the reading of a
    segment's reserved words and to the skip over wrappers is never what stops
    them, and the skip stops at a word that is no assignment and no wrapper. *)
Theorem watch_key_loops_end :
  (forall f c ws, (clause_fuel ws <= f)%nat -> clause f c ws = clause (clause_fuel ws) c ws) /\
  (forall ws f p, (length ws <= f)%nat -> unwrap f p ws = unwrap (length ws) p ws) /\
  (forall ws p, let r := (unwrap (length ws) p ws).1 in drop_assignments r = r /\ wrappedCommand r = None).
Proof.
  split; [exact clause_enough|]. split; [|intros ws p; by apply unwrap_settles].
  intros ws f. revert ws. induction f as [f IH] using lt_wf_ind. intros ws p Hf.
  destruct ws as [|w ws]; [by destruct f|]. destruct f as [|f]; [cbn in Hf; lia|]. cbn [length] in *. cbn [unwrap].
  destruct (wrappedCommand _) as [[rest p']|] eqn:E; [|done]. apply wrappedCommand_shorter in E.
  pose proof (drop_assignments_length (w :: ws)) as Hl. cbn [length] in Hl.
  rewrite (IH f) by lia. symmetry. destruct (decide (length ws < S f)%nat); [|lia]. rewrite (IH (length ws)) by lia. done.
Qed.

(** ** Keys *)

Lemma table_get_in {S} (table : list (string * S)) name s : table_get table name = Some s -> exists n, (n, s) ∈ table /\ name = lit n.
Proof.
  unfold table_get. destruct (List.find _ table) as [[n s']|] eqn:E; [|done]. intros [= <-].
  apply List.find_some in E as [Hin Hn]. exists n. split; [by apply list_elem_of_In|]. by apply bool_decide_eq_true in Hn.
Qed.

Lemma index_where_cons p (a : text) c b : Forall (fun x => p x = false) a -> p c = true -> index_where p (a ++ c :: b) = Some (length a).
Proof.
  intros Ha Hc. unfold index_where. induction Ha as [|x a Hx _ IH]; cbn; [by rewrite Hc|]. by rewrite Hx, IH.
Qed.

Lemma runner_names : forallb (fun e => forallb (fun c => negb (c =? 32)) (lit e.1)) SCRIPT_RUNNERS = true.
Proof. by vm_compute. Qed.

Lemma key_shape command key : watchKeyOfCommand command = Some key ->
  isWatchKey key = true /\
  (32 ∉ key \/ exists runner script spec, (runner, spec) ∈ SCRIPT_RUNNERS /\ key = lit runner ++ lit " " ++ script /\ isWatchKey (lit runner) = true).
Proof.
  unfold watchKeyOfCommand. destruct (unwrap _ _ _) as [words packageSpec].
  set (program := if packageSpec then _ else _). destruct (bool_decide (32 ∈ program) || _) eqn:Hg; [done|].
  apply orb_false_iff in Hg as [Hs%bool_decide_eq_false Hk%negb_false_iff].
  destruct (table_get SCRIPT_RUNNERS program) as [spec|] eqn:Ht; [|intros [= <-]; by split; [|left]].
  apply table_get_in in Ht as (runner & Hin & En).
  destruct (runnerScript (tail words) spec) as [script|]; [|intros [= <-]; by split; [|left]].
  destruct (isWatchKey (program ++ lit " " ++ script)) eqn:Hks; intros [= <-]; split; auto.
  right. exists runner, script, spec. by rewrite <- En.
Qed.

(** Every key a command line gives can be a rule, a bare program or a runner and
    its script; a rule on the key covers it, and so does a bare rule on the
    runner of a script's key. *)
Theorem commandWatchKey_valid raw key : commandWatchKey raw = Some key ->
  isWatchKey key = true /\
  (forall rules, key ∈ rules -> watchRuleFor rules (Some key) = Some key) /\
  (32 ∉ key \/ exists runner script spec, (runner, spec) ∈ SCRIPT_RUNNERS /\ key = lit runner ++ lit " " ++ script /\
    isWatchKey (lit runner) = true /\
    forall rules, lit runner ∈ rules -> key ∉ rules -> watchRuleFor rules (Some key) = Some (lit runner)).
Proof.
  intros (Hk & Hs)%key_shape. split; [done|]. split; [intros rules H; cbn; by rewrite bool_decide_true|].
  destruct Hs as [?|(runner & script & spec & Hin & -> & Hr)]; [by left|right]. exists runner, script, spec.
  do 3 (split; [done|]). intros rules Hrule Hno. cbn [watchRuleFor]. rewrite bool_decide_false by done.
  change (lit runner ++ lit " " ++ script) with (lit runner ++ 32 :: script).
  rewrite (index_where_cons (Z.eqb 32)).
  - rewrite take_app_length. by rewrite bool_decide_true.
  - pose proof (proj1 (forallb_forall _ _) runner_names _ (proj1 (list_elem_of_In _ _) Hin)) as Hn. cbn in Hn.
    rewrite Forall_forall. intros c Hc%list_elem_of_In. apply (proj1 (forallb_forall _ _) Hn) in Hc.
    rewrite Z.eqb_sym. by apply negb_true_iff in Hc.
  - done.
Qed.

(** ** The commands of a list *)

Lemma clause_turn_suffix c ws :
  match clause_turn c ws with
  | go_on _ ws' => exists pre, ws = pre ++ ws'
  | stop _ (Some ws') => ws' = ws
  | stop _ None => True
  end.
Proof.
  unfold clause_turn. destruct ws as [|first rest]; [done|].
  repeat case_match; simplify_eq; try done; try (by exists []); try (by exists [first]).
  - exists (first :: take n rest). cbn. by rewrite take_drop.
  - exists (first :: take (S (S n)) rest). cbn [app]. by rewrite take_drop.
  - exists (first :: rest). by rewrite app_nil_r.
Qed.

Lemma clause_suffix f c ws c' ws' : clause f c ws = (c', Some ws') -> exists pre, ws = pre ++ ws'.
Proof.
  revert c ws. induction f as [|f IH]; intros c ws; [done|]. cbn [clause]. pose proof (clause_turn_suffix c ws) as Ht.
  destruct (clause_turn c ws) as [c1 ws1|c1 [ws1|]]; [|intros [= _ <-]; by exists []; subst|done].
  intros (pre' & ->)%IH. destruct Ht as [pre ->]. exists (pre ++ pre'). by rewrite app_assoc.
Qed.

(** A word of a command: no separator and no grouping token. *)
Definition command_word (w : text) : Prop := is_separator w = false /\ is_grouping w = false.

(** What the reading of a list has so far. *)
Definition listing_ok (seen : list text) (l : Listing) : Prop :=
  Forall (Forall command_word) (commands l) /\ Forall (fun w => is_separator w = false) (segment l) /\
  sublist (concat (commands l) ++ segment l) seen.

Lemma end_segment_ok seen l : listing_ok seen l -> listing_ok seen (end_segment l) /\ segment (end_segment l) = [].
Proof.
  intros (Hc & Hs & Hl). unfold end_segment. destruct (segment l) as [|first rest] eqn:Es.
  { split; [|done]. by rewrite <- Es in Hl, Hs. }
  assert (Hnone : listing_ok seen (mkListing (commands l) None [])).
  { split; [done|]. split; [done|]. cbn. rewrite app_nil_r. etrans; [|exact Hl]. by apply sublist_inserts_r. }
  destruct (word_in first CLOSING_WORDS); [by split; [|done]|].
  destruct (clause _ _ _) as [next [words|]] eqn:Ec; [|by split; [|done]]. split; [|done].
  apply clause_suffix in Ec as (pre & Ew). rewrite Ew in Hs, Hl. apply Forall_app in Hs as [_ Hs].
  split; [|split; [done|]]; cbn [commands segment].
  - apply Forall_app. split; [done|]. constructor; [|done]. rewrite Forall_forall in Hs |- *.
    intros w Hw%list_elem_of_In. apply List.filter_In in Hw as [Hw%list_elem_of_In Hg]. split; [by apply Hs|].
    by apply negb_true_iff in Hg.
  - rewrite concat_app, app_nil_r. cbn [concat]. rewrite app_nil_r. etrans; [|exact Hl].
    apply sublist_app; [done|]. apply sublist_inserts_l. clear. induction words as [|w ws IH]; [constructor|]. cbn.
    destruct (negb _); by constructor.
Qed.

Lemma list_token_ok seen l token : listing_ok seen l -> listing_ok (seen ++ [token]) (list_token l token).
Proof.
  intros Hl. unfold list_token. destruct (is_separator token) eqn:E.
  - destruct (end_segment_ok seen l Hl) as [(H1 & H2 & H3) _].
    case_bool_decide; (split; [done|split; [done|]]); cbn [commands segment]; by apply sublist_inserts_r.
  - destruct Hl as (H1 & H2 & H3). split; [done|]. split; [apply Forall_app; by repeat constructor|]. cbn [commands segment].
    rewrite app_assoc. by apply sublist_app.
Qed.

Lemma listing_of tokens : listing_ok tokens (fold_left list_token tokens (mkListing [] None [])).
Proof.
  assert (H : forall ts seen l, listing_ok seen l -> listing_ok (seen ++ ts) (fold_left list_token ts l)).
  { induction ts as [|t ts IH]; intros seen l Hl; cbn; [by rewrite app_nil_r|].
    rewrite (assoc_L (++) seen [t] ts : seen ++ t :: ts = (seen ++ [t]) ++ ts). by apply IH, list_token_ok. }
  apply (H tokens [] (mkListing [] None [])). split; [done|]. split; [done|]. constructor.
Qed.

Lemma filter_sublist {A} (p : A -> bool) l : sublist (List.filter p l) l.
Proof. induction l as [|x l IH]; [constructor|]. cbn. destruct (p x); by constructor. Qed.

Lemma concat_filter_nonempty (ls : list (list text)) :
  concat (List.filter (fun ws => negb (bool_decide (ws = []))) ls) = concat ls.
Proof. induction ls as [|l ls IH]; [done|]. cbn. case_bool_decide; subst; cbn; by rewrite IH. Qed.

(** The commands of a list are made of the line's words, in their order, each of
    them once at most, and hold neither a separator nor a grouping token; none is
    empty. *)
Theorem listCommands_words tokens :
  sublist (concat (listCommands tokens)) tokens /\
  Forall (fun words => words <> [] /\ Forall command_word words) (listCommands tokens).
Proof.
  destruct (end_segment_ok tokens _ (listing_of tokens)) as [(Hc & _ & Hs) Hn]. unfold listCommands.
  rewrite concat_filter_nonempty. rewrite Hn, app_nil_r in Hs. split; [done|].
  rewrite Forall_forall in Hc |- *. intros ws Hws%list_elem_of_In. apply List.filter_In in Hws as [Hw Hne].
  split; [by apply negb_true_iff, bool_decide_eq_false in Hne|]. by apply Hc, list_elem_of_In.
Qed.

(** ** Wrappers *)

(** No wrapper's name and a word after it name a launcher of two words but the
    launcher itself, and no name is an assignment or a redirection. *)
Definition plain_wrapper (e : string * WrapperSpec) : Prop :=
  (w_operands e.2 = 0)%nat /\ w_packageSpec e.2 = false.

Lemma wrapper_names : Forall (fun e => w_operands e.2 = 0%nat -> w_packageSpec e.2 = false ->
    isEnvAssignment (Some (lit e.1)) = false /\ redirection (lit e.1) = None /\ commandProgramName (lit e.1) = lit e.1 /\
    table_get TRANSPARENT_WRAPPERS (lit e.1) = Some e.2 /\
    Forall (fun e' => take (length (lit e.1) + 1) (lit e'.1) <> lit e.1 ++ lit " ") TRANSPARENT_WRAPPERS) TRANSPARENT_WRAPPERS.
Proof. unfold TRANSPARENT_WRAPPERS. repeat (apply Forall_cons; split); [..|by constructor]. all: cbn [fst snd w_operands w_packageSpec]; intros H1 H2; try discriminate.
  all: repeat split; try by vm_compute.
  all: repeat (apply Forall_cons; split); try by vm_compute. all: by constructor.
Qed.

Lemma no_launcher (a b : text) : Forall (fun e => take (length a + 1) (lit e.1) <> a ++ lit " ") TRANSPARENT_WRAPPERS ->
  table_get TRANSPARENT_WRAPPERS (a ++ lit " " ++ b) = None.
Proof.
  intros H. destruct (table_get _ _) as [s|] eqn:E; [|done]. apply table_get_in in E as (n & Hin & En).
  rewrite Forall_forall in H. specialize (H _ Hin). cbn [fst] in H. exfalso. apply H. rewrite <- En, app_assoc.
  apply (take_app_length' (a ++ lit " ")). by rewrite length_app.
Qed.

(** A wrapper that takes no operand and runs no package is seen through: the
    command it runs keys as it would alone. *)
Theorem wrapper_transparent name spec w ws :
  (name, spec) ∈ TRANSPARENT_WRAPPERS -> plain_wrapper (name, spec) ->
  starts_with (lit "-") w = false -> isEnvAssignment (Some w) = false -> redirection w = None ->
  watchKeyOfCommand (lit name :: w :: ws) = watchKeyOfCommand (w :: ws).
Proof.
  intros Hin [Ho Hp] Hw Ha Hr. pose proof wrapper_names as Hn. rewrite Forall_forall in Hn.
  destruct (Hn _ Hin Ho Hp) as (Hna & Hnr & Hnp & Hget & Hno). cbn [fst snd] in *.
  unfold watchKeyOfCommand. cbn [withoutRedirections]. rewrite Hnr, Hr. set (rest := withoutRedirections ws).
  cbn [length unwrap drop_assignments]. rewrite Hna.
  replace (wrappedCommand (lit name :: w :: rest)) with (Some (w :: rest, false)); [done|].
  unfold wrappedCommand. change (default [] (head (lit name :: w :: rest))) with (lit name).
  change (default [] ((lit name :: w :: rest) !! 1%nat)) with w. rewrite Hnp.
  rewrite no_launcher by done. rewrite Hget. cbn [drop wrapper_flags]. rewrite Ha, Hw, andb_false_r.
  rewrite bool_decide_false by (by intros ->). cbn [negb]. by rewrite Ho, Hp.
Qed.

Lemma commandWatchKey_valid_witness :
  commandWatchKey (lit "cd web && sudo npm run dev") = Some (lit "npm dev") /\ isWatchKey (lit "npm dev") = true.
Proof. split; [by vm_compute|]. apply (commandWatchKey_valid (lit "cd web && sudo npm run dev")). by vm_compute. Defined.

Lemma wrapper_transparent_witness :
  watchKeyOfCommand [lit "nohup"; lit "make"; lit "all"] = watchKeyOfCommand [lit "make"; lit "all"] /\
  watchKeyOfCommand [lit "make"; lit "all"] = Some (lit "make all").
Proof.
  split; [|by vm_compute].
  apply (wrapper_transparent "nohup" (mkWrapper [] [] never false 0 false)); [|by vm_compute..].
  apply list_elem_of_In. cbn. tauto.
Defined.

(** The keys of the rows lib/src/lib/terminal-state.test.ts gives, one of a kind. *)
Example keys :
  map (fun raw => commandWatchKey (lit raw))
    ["FOO=1 env BAR=2 claude"; "cd web && pnpm dev"; "(cd web && pnpm dev) | tee log"; "GH_TOKEN=$(gh auth token) claude";
     "for f in *; do make; done | tee log"; "case $x in a|b) make;; esac"; "make 2>&1 | tee build.log"; "claude # fix auth; then deploy";
     "2>/dev/null make all"; "make -f <(gen) all"; "sudo -u root FOO=1 make install"; "builtin exec -a agent claude";
     "npx -y claude@latest"; "sudo --bogus make"; "cargo +nightly build"; "make -j 8 all"; "pnpm run"; "done"]%string =
  map (fun k => if bool_decide (k = ""%string) then None else Some (lit k))
    ["claude"; "pnpm dev"; "pnpm dev"; "claude"; "make"; "make"; "make"; "claude"; "make all"; "make all"; "make install"; "claude";
     "claude"; "sudo"; "cargo build"; "make all"; "pnpm"; ""]%string.
Proof. by vm_compute. Qed.

(** ** The WATCHING rule set (lib/src/lib/watched-commands.ts, coding-agents.ts)

    The page's copy of the rules, what it persists, and what it tells its host. *)

Record CodingAgent := mkAgent { agent_commands : list text; watchByDefault : bool }.

Definition CODING_AGENTS : list CodingAgent :=
  [mkAgent [lit "claude"] true; mkAgent [lit "codex"] true; mkAgent [lit "pi"] false; mkAgent [lit "copilot"] true;
   mkAgent [lit "agy"] true; mkAgent [lit "warp"] true; mkAgent [lit "agent"; lit "cursor-agent"] true; mkAgent [lit "muse"] false].

(** The order of [sort()]: by code units. *)
Fixpoint text_leb (a b : text) : bool :=
  match a, b with
  | [], _ => true
  | _ :: _, [] => false
  | c :: a, d :: b => (c <? d) || ((c =? d) && text_leb a b)
  end.

Fixpoint insert_text (t : text) (ts : list text) : list text :=
  match ts with [] => [t] | t' :: ts' => if text_leb t t' then t :: ts else t' :: insert_text t ts' end.

Definition sort_texts (ts : list text) : list text := foldr insert_text [] ts.

Definition DEFAULT_WATCHED_COMMANDS : list text := sort_texts (concat (map agent_commands (filter (fun a => watchByDefault a = true) CODING_AGENTS))).

(** [new Set(names)] in its order: each name where it first is. *)
Fixpoint first_uses (seen ts : list text) : list text :=
  match ts with
  | [] => []
  | t :: ts => if decide (t ∈ seen) then first_uses seen ts else t :: first_uses (t :: seen) ts
  end.

Definition can_be_rule (t : text) : bool := negb (bool_decide (t = [])) && isWatchKey t.

Definition normalizeRules (names : list text) : list text :=
  sort_texts (first_uses [] (filter (fun t => can_be_rule t = true) (map trim names))).

(** What [localStorage] has under the key. *)
Inductive SavedRules := storage_missing | storage_blocked | rules_absent | rules_malformed | rules_saved (names : list text).

Definition readStored (saved : SavedRules) : list text :=
  match saved with
  | storage_missing | rules_absent => normalizeRules DEFAULT_WATCHED_COMMANDS
  | storage_blocked | rules_malformed => []
  | rules_saved names => normalizeRules names
  end.

(** The module's variables, with the storage it writes, the deltas it sent its
    host and the snapshots its listeners were told of. *)
Record Watching := mkWatching {
  watched : list text;
  watched_saved : SavedRules;
  watched_sent : list (text * bool);
  watched_told : list (list text)
}.

Definition load_watching (saved : SavedRules) : Watching := mkWatching (readStored saved) saved [] [].

(** [saveJson], whose failure is swallowed. *)
Definition save_rules (written : bool) (names : list text) (saved : SavedRules) : SavedRules :=
  match saved with
  | storage_missing | storage_blocked => saved
  | _ => if written then rules_saved names else saved
  end.

Definition replaceWatched (written : bool) (next : list text) (w : Watching) : Watching :=
  mkWatching next (save_rules written next (watched_saved w)) (watched_sent w) (watched_told w).

Definition tell_watching (w : Watching) : Watching := mkWatching (watched w) (watched_saved w) (watched_sent w) (watched_told w ++ [watched w]).

Definition setCommandWatched (written : bool) (name : text) (on : bool) (w : Watching) : Watching :=
  let trimmed := trim name in
  if bool_decide (trimmed = []) || negb (isWatchKey trimmed) then w
  else if Bool.eqb (bool_decide (trimmed ∈ watched w)) on then w
  else
    let w1 := replaceWatched written (if on then sort_texts (watched w ++ [trimmed]) else filter (fun entry => entry <> trimmed) (watched w)) w in
    tell_watching (mkWatching (watched w1) (watched_saved w1) (watched_sent w1 ++ [(trimmed, on)]) (watched_told w1)).

Definition applyWatchedCommandsFromHost (written : bool) (names : list text) (w : Watching) : Watching :=
  let next := normalizeRules names in
  if bool_decide (next = watched w) then w else tell_watching (replaceWatched written next w).

(** [key] is [getRunningCommandWatchKey] of the Session. *)
Definition getRunningCommandWatchRule (key : option text) (w : Watching) : option text := watchRuleFor (watched w) key.

(** *** The rules kept *)

Definition text_lt (a b : text) : Prop := text_leb a b = true /\ a <> b.

Lemma text_leb_total a b : text_leb a b = true \/ text_leb b a = true.
Proof.
  revert b. induction a as [|c a IH]; intros [|d b]; simpl; [by left..|by right|].
  destruct (IH b) as [H|H]; destruct (Z.lt_total c d) as [|[|]]; [left|left|right|left|right|right]; rewrite ?H; lia.
Qed.

Lemma text_leb_antisym a b : text_leb a b = true -> text_leb b a = true -> a = b.
Proof.
  revert b. induction a as [|c a IH]; intros [|d b]; simpl; [done..|]. intros H1 H2.
  assert (c = d) as -> by lia. rewrite Z.ltb_irrefl, Z.eqb_refl in H1, H2. f_equal. by apply IH.
Qed.

Lemma text_leb_trans a b c : text_leb a b = true -> text_leb b c = true -> text_leb a c = true.
Proof.
  revert b c. induction a as [|x a IH]; intros [|y b] [|z c]; simpl; try done. intros H1 H2.
  destruct (Z.lt_total x z) as [Hlt|[->|]]; [by rewrite (proj2 (Z.ltb_lt x z) Hlt)| |lia].
  assert (y = z) as -> by lia. rewrite Z.ltb_irrefl, Z.eqb_refl in *. by apply (IH b).
Qed.

Lemma insert_text_Permutation t ts : insert_text t ts ≡ₚ t :: ts.
Proof. induction ts as [|t' ts IH]; simpl; [done|]. destruct (text_leb _ _); [done|]. rewrite IH. constructor. Qed.

Lemma sort_texts_Permutation ts : sort_texts ts ≡ₚ ts.
Proof. induction ts as [|t ts IH]; [done|]. change (insert_text t (sort_texts ts) ≡ₚ t :: ts). by rewrite insert_text_Permutation, IH. Qed.

Lemma insert_text_sorted t ts : (t ∉ ts) -> StronglySorted text_lt ts -> StronglySorted text_lt (insert_text t ts).
Proof.
  induction 2 as [|t' ts Hs IH Ht]; simpl; [by repeat constructor|]. apply not_elem_of_cons in H as [Hne Hn].
  destruct (text_leb t t') eqn:E.
  - constructor; [by constructor|]. constructor; [done|]. eapply Forall_impl; [exact Ht|]. intros x [Hx Hx'].
    split; [by eapply text_leb_trans|]. intros ->. apply Hne. by apply text_leb_antisym.
  - constructor; [by apply IH|]. rewrite insert_text_Permutation. constructor; [|done].
    split; [|done]. destruct (text_leb_total t t'); congruence.
Qed.

Lemma sort_texts_sorted ts : NoDup ts -> StronglySorted text_lt (sort_texts ts).
Proof.
  induction 1 as [|t ts Hn _ IH]; [constructor|]. change (StronglySorted text_lt (insert_text t (sort_texts ts))).
  apply insert_text_sorted; [by rewrite sort_texts_Permutation|done].
Qed.

Lemma sort_texts_fixed ts : StronglySorted text_lt ts -> sort_texts ts = ts.
Proof.
  induction 1 as [|t ts _ IH Ht]; [done|]. change (insert_text t (sort_texts ts) = t :: ts). rewrite IH.
  destruct ts as [|t' ts]; [done|]. simpl. apply Forall_cons in Ht as [[-> _] _]. done.
Qed.

Lemma sorted_NoDup ts : StronglySorted text_lt ts -> NoDup ts.
Proof.
  induction 1 as [|t ts _ IH Ht]; constructor; [|done]. intros Hin. rewrite Forall_forall in Ht. by destruct (Ht t Hin).
Qed.

Lemma first_uses_spec seen ts :
  NoDup (first_uses seen ts) /\ (forall t, t ∈ first_uses seen ts <-> t ∈ ts /\ t ∉ seen).
Proof.
  revert seen. induction ts as [|t ts IH]; intros seen; simpl.
  { split; [constructor|]. intros t. split; [by intros ?%elem_of_nil|by intros [?%elem_of_nil _]]. }
  case_decide as Hd.
  - destruct (IH seen) as [H1 H2]. split; [done|]. intros x. rewrite H2, elem_of_cons. split; [tauto|].
    intros [[->|Hx] Hs]; [done|tauto].
  - destruct (IH (t :: seen)) as [H1 H2]. split.
    + constructor; [|done]. rewrite H2, not_elem_of_cons. tauto.
    + intros x. rewrite !elem_of_cons, H2, not_elem_of_cons. destruct (decide (x = t)); naive_solver.
Qed.

Lemma first_uses_fixed seen ts : NoDup ts -> (forall t, t ∈ ts -> t ∉ seen) -> first_uses seen ts = ts.
Proof.
  intros Hnd. revert seen. induction Hnd as [|t ts Hn _ IH]; intros seen Hs; [done|]. simpl.
  rewrite decide_False by (apply Hs; by left). f_equal. apply IH. intros x Hx. apply not_elem_of_cons.
  split; [by intros ->|]. apply Hs. by right.
Qed.

(** A set of rules as the module keeps it. *)
Definition rules_ok (ts : list text) : Prop :=
  StronglySorted text_lt ts /\ Forall (fun t => can_be_rule t = true /\ trim t = t) ts.

Lemma normalizeRules_ok names : rules_ok (normalizeRules names).
Proof.
  unfold normalizeRules. split; [apply sort_texts_sorted, first_uses_spec|]. rewrite sort_texts_Permutation.
  apply Forall_forall. intros t Ht. apply first_uses_spec in Ht as [Ht _]. apply list_elem_of_filter in Ht as [Hc Ht].
  split; [done|]. apply list_elem_of_fmap in Ht as (u & -> & _). apply trim_idem.
Qed.

Lemma normalizeRules_fixed ts : rules_ok ts -> normalizeRules ts = ts.
Proof.
  intros [Hs Hf]. rewrite Forall_forall in Hf. unfold normalizeRules.
  assert (E : map trim ts = ts) by (etrans; [|apply map_id]; apply map_ext_elem; intros t Ht; by apply Hf).
  rewrite E, filter_all by (intros t Ht; by apply Hf).
  rewrite first_uses_fixed; [by apply sort_texts_fixed|by apply sorted_NoDup|]. intros t _. apply not_elem_of_nil.
Qed.

Lemma sublist_sorted (P : text -> Prop) `{!forall t, Decision (P t)} ts : StronglySorted text_lt ts -> StronglySorted text_lt (filter P ts).
Proof.
  induction 1 as [|t ts _ IH Ht]; [constructor|]. rewrite filter_cons. case_decide; [|done]. constructor; [done|].
  rewrite Forall_forall in *. intros x Hx. apply list_elem_of_filter in Hx as [_ Hx]. by apply Ht.
Qed.

Inductive WatchOp := watch_set (written : bool) (name : text) (on : bool) | watch_from_host (written : bool) (names : list text).

Definition apply_watch_op (op : WatchOp) (w : Watching) : Watching :=
  match op with
  | watch_set written name on => setCommandWatched written name on w
  | watch_from_host written names => applyWatchedCommandsFromHost written names w
  end.

Definition watching_after (saved : SavedRules) (ops : list WatchOp) : Watching := foldl (fun w op => apply_watch_op op w) (load_watching saved) ops.

Definition op_written (op : WatchOp) : bool := match op with watch_set written _ _ | watch_from_host written _ => written end.

Lemma apply_watch_ok op w : rules_ok (watched w) -> rules_ok (watched (apply_watch_op op w)).
Proof.
  intros [Hs Hf]. destruct op as [written name on|written names]; simpl.
  - unfold setCommandWatched. destruct (bool_decide (trim name = []) || negb (isWatchKey (trim name))) eqn:Eg; [done|].
    destruct (Bool.eqb _ on) eqn:Eo; [done|]. simpl. destruct on.
    + apply orb_false_iff in Eg as [E1 E2]. assert (Hn : trim name ∉ watched w).
      { intros Hin. by rewrite bool_decide_true in Eo by done. }
      split; [apply sort_texts_sorted|rewrite sort_texts_Permutation].
      * apply NoDup_app. split_all; [by apply sorted_NoDup| |apply NoDup_singleton]. intros x Hx Hx2.
        apply list_elem_of_singleton in Hx2. by subst.
      * apply Forall_app. split; [done|]. constructor; [|done]. split; [|apply trim_idem]. unfold can_be_rule.
        rewrite E1. by destruct (isWatchKey (trim name)).
    + split; [by apply sublist_sorted|]. rewrite Forall_forall in *. intros x Hx. apply list_elem_of_filter in Hx as [_ Hx]. by apply Hf.
  - unfold applyWatchedCommandsFromHost. case_bool_decide; [done|]. apply normalizeRules_ok.
Qed.

Lemma apply_watch_saved op w :
  rules_ok (watched w) -> op_written op = true -> watched_saved w <> storage_blocked -> watched_saved w <> storage_missing ->
  readStored (watched_saved w) = watched w ->
  readStored (watched_saved (apply_watch_op op w)) = watched (apply_watch_op op w) /\
  watched_saved (apply_watch_op op w) <> storage_blocked /\ watched_saved (apply_watch_op op w) <> storage_missing.
Proof.
  intros Hok Hw Hb Hm Hr. pose proof (apply_watch_ok op w Hok) as Hok'. revert Hok'.
  destruct op as [written name on|written names]; simpl in *; subst written.
  - unfold setCommandWatched. destruct (_ || _); [done|]. destruct (Bool.eqb _ on); [done|]. simpl. intros Hok'.
    destruct (watched_saved w); [done|done|..]; simpl; split_all; try done; by apply normalizeRules_fixed.
  - unfold applyWatchedCommandsFromHost. case_bool_decide; [done|]. simpl. intros Hok'.
    destruct (watched_saved w); [done|done|..]; simpl; split_all; try done; by apply normalizeRules_fixed.
Qed.

(** The page's WATCHING rules are at every moment distinct and in order, and
    each is a trimmed key a command can have.  Where the page's storage takes
    what is written, what it holds is read back as exactly these rules: nothing
    matches for a session and is gone after a reload. *)
Theorem rules_survive_reload saved ops :
  let w := watching_after saved ops in
  rules_ok (watched w) /\
  (saved <> storage_blocked -> saved <> storage_missing -> Forall (fun op => op_written op = true) ops ->
   watched (load_watching (watched_saved w)) = watched w).
Proof.
  assert (H0 : rules_ok (readStored saved)).
  { destruct saved; try apply normalizeRules_ok; split; constructor. }
  assert (G : rules_ok (watched (watching_after saved ops)) /\
    (saved <> storage_blocked -> saved <> storage_missing -> Forall (fun op => op_written op = true) ops ->
     readStored (watched_saved (watching_after saved ops)) = watched (watching_after saved ops) /\
     watched_saved (watching_after saved ops) <> storage_blocked /\ watched_saved (watching_after saved ops) <> storage_missing)).
  { unfold watching_after. induction ops as [|op ops [IH1 IH2]] using rev_ind; [by split|]. rewrite foldl_app. simpl. split; [by apply apply_watch_ok|].
    intros Hb Hm Hw. apply Forall_app in Hw as [Hw Hop]. apply Forall_cons in Hop as [Hop _].
    destruct (IH2 Hb Hm Hw) as (H1 & H2 & H3). by apply apply_watch_saved. }
  destruct G as [G1 G2]. split; [exact G1|]. intros Hb Hm Hw. apply (G2 Hb Hm Hw).
Qed.

Lemma rules_survive_reload_witness :
  watched (load_watching (watched_saved (watching_after rules_absent [watch_set true (lit " npm test ") true; watch_set true (lit "claude") false]))) =
    [lit "agent"; lit "agy"; lit "codex"; lit "copilot"; lit "cursor-agent"; lit "npm test"; lit "warp"].
Proof.
  etrans; [apply (rules_survive_reload rules_absent [watch_set true (lit " npm test ") true; watch_set true (lit "claude") false]);
    [discriminate|discriminate|repeat constructor]|]. vm_compute. reflexivity.
Defined.
