(* ===== verification/PaneState.v ===== *)
(** * The state of a terminal pane (lib/src/lib/terminal-state.ts)

    The reducer over the semantic events of a terminal, and what is shown of
    its state: the command's label, the header and its title.  The URL parser and
    [toLowerCase] are the platform's ([UrlHost]). *)
From Stdlib Require Import ZArith QArith Lia.
From S2P Require Import Prelude JsNum TerminalState TermText TermCwd OscParse ShellWords WatchKey.
#[local] Open Scope Z_scope.
#[local] Open Scope list_scope.

Inductive ShellActivity := unknown | prompt | editing | running | finished (exitCode : option Z).

#[export] Instance ShellActivity_eq_dec : EqDecision ShellActivity.
Proof. solve_decision. Defined.
#[export] Instance TerminalTitleSource_eq_dec : EqDecision TerminalTitleSource.
Proof. solve_decision. Defined.
#[export] Instance CwdSource_eq_dec : EqDecision CwdSource.
Proof. solve_decision. Defined.

Record PaneTitle := mkPaneTitle { title : text; titleSource : TerminalTitleSource; titleUpdatedAt : Q }.

Record CommandRun := mkRun {
  id : text;
  rawCommandLine : option text;
  displayCommand : text;
  cwdAtStart : option Cwd;
  startedAt : Q;
  finishedAt : option Q;
  exitCode : option Z;
  source : CommandRunSource;
  finalTerminalTitle : option PaneTitle
}.

(** [titleCandidates], an object: its keys in the order they were first written. *)
Definition TitleCandidates : Type := list (TerminalTitleSource * PaneTitle).

Definition candidate_get (s : TerminalTitleSource) (cs : TitleCandidates) : option PaneTitle :=
  option_map snd (List.find (fun e => bool_decide (e.1 = s)) cs).

Fixpoint candidate_set (t : PaneTitle) (cs : TitleCandidates) : TitleCandidates :=
  match cs with
  | [] => [(titleSource t, t)]
  | e :: cs => if bool_decide (e.1 = titleSource t) then (e.1, t) :: cs else e :: candidate_set t cs
  end.

Record Pane := mkPane {
  cwd : option Cwd;
  activity : ShellActivity;
  pendingCommandLine : option text;
  currentCommand : option CommandRun;
  lastCommand : option CommandRun;
  titleCandidates : TitleCandidates
}.

Definition createTerminalPaneState : Pane := mkPane None unknown None None None [].

Definition DEFAULT_IDLE_TITLE : text := lit "<idle>".
Definition COMMAND_FAIL_GLYPH : text := [10007].
Definition UNNAMED_PANEL_TITLE : text := lit "<unnamed>".
Definition DEFAULT_DIRECTORY_LABEL : text := lit "Unknown directory".

(** ** Titles *)

Definition HEADER_APP_TITLE_SOURCES : list TerminalTitleSource := [osc0; osc2; osc9].

(** The later of two titles, the first where their times are equal. *)
Definition later_title (best : option PaneTitle) (c : PaneTitle) : option PaneTitle :=
  match best with
  | None => Some c
  | Some b => if Qltb (titleUpdatedAt b) (titleUpdatedAt c) then Some c else Some b
  end.

Definition latestTerminalTitleCandidate (p : Pane) : option PaneTitle :=
  fold_left (fun best e => if bool_decide (titleSource e.2 ∈ HEADER_APP_TITLE_SOURCES) then later_title best e.2 else best)
    (titleCandidates p) None.

Definition deriveFallbackCommandTitle (p : Pane) : text :=
  match latestTerminalTitleCandidate p with
  | Some t => if bool_decide (trim (title t) = []) then DEFAULT_COMMAND_TITLE else trim (title t)
  | None => DEFAULT_COMMAND_TITLE
  end.

(** The best title of the window from [from] to [to], unbounded where [to] is absent. *)
Definition title_within (from : Q) (to : option Q) (cs : TitleCandidates) : option PaneTitle :=
  fold_left (fun best s =>
      match candidate_get s cs with
      | None => best
      | Some c =>
          if Qltb (titleUpdatedAt c) from then best
          else if match to with Some f => Qltb f (titleUpdatedAt c) | None => false end then best
          else later_title best c
      end) HEADER_APP_TITLE_SOURCES None.

Definition snapshotInRunTerminalTitle (p : Pane) (command : CommandRun) (finishedAt : Q) : option PaneTitle :=
  title_within (startedAt command) (Some finishedAt) (titleCandidates p).

Definition findInRunTerminalTitle (p : Pane) (command : CommandRun) : option PaneTitle :=
  title_within (startedAt command) (finishedAt command) (titleCandidates p).

(** ** The reducer *)

Definition sameCwd (a b : Cwd) : bool := bool_decide (cwdIdentity a = cwdIdentity b) && bool_decide (cwdSource a = cwdSource b).

Definition sameTitle (a b : PaneTitle) : bool :=
  bool_decide (title a = title b) && bool_decide (titleSource a = titleSource b) && Qeq_bool (titleUpdatedAt a) (titleUpdatedAt b).

Definition sameActivity (a b : ShellActivity) : bool := bool_decide (a = b).

(** [raw ? … : …]: a command line that is not empty. *)
Definition nonempty_line (raw : option text) : option text :=
  match raw with Some s => if bool_decide (s = []) then None else Some s | None => None end.

(** [resolveCommandStart], as the fields of the run that begins. *)
Definition resolveCommandStart (now : Q) (fallbackTitle : text) (pendingLine : option text)
    (src : option CommandRunSource) (started : option Q) : option text * text * CommandRunSource * Q :=
  let raw := nonempty_line pendingLine in
  (pendingLine,
   match raw with Some s => summarizeCommandLine s | None => fallbackTitle end,
   (if bool_decide (src = Some osc633_boundaries) && bool_decide (is_Some raw) then osc633_E
    else default (if bool_decide (is_Some raw) then osc633_E else osc133_boundaries) src),
   default now started).

Definition with_cwd (c : option Cwd) (p : Pane) : Pane :=
  mkPane c (activity p) (pendingCommandLine p) (currentCommand p) (lastCommand p) (titleCandidates p).
Definition with_activity (a : ShellActivity) (p : Pane) : Pane :=
  mkPane (cwd p) a (pendingCommandLine p) (currentCommand p) (lastCommand p) (titleCandidates p).
Definition with_titles (cs : TitleCandidates) (p : Pane) : Pane :=
  mkPane (cwd p) (activity p) (pendingCommandLine p) (currentCommand p) (lastCommand p) cs.

(** A prompt: the command line and the command before it are gone. *)
Definition at_prompt (a : ShellActivity) (p : Pane) : option Pane :=
  if bool_decide (activity p = a) && bool_decide (pendingCommandLine p = None) && match currentCommand p with None => true | _ => false end
  then None
  else Some (mkPane (cwd p) a None None (lastCommand p) (titleCandidates p)).

Definition finish_run (exit : option Z) (at_ : Q) (final : option PaneTitle) (c : CommandRun) : CommandRun :=
  mkRun (id c) (rawCommandLine c) (displayCommand c) (cwdAtStart c) (startedAt c) (Some at_) exit (source c)
    (match final with Some t => Some t | None => finalTerminalTitle c end).

(** An event, applied at [now] with [newId] for a run it begins; [None] is the
    state itself, unchanged, which the store tells by its identity.  [src] is the
    source of a command start, absent from one no shell reported. *)
Inductive PaneEvent :=
  | ev (e : SemanticEvent)
  | ev_start (src : option CommandRunSource) (started : option Q).

Definition start_command (now : Q) (newId : text) (src : option CommandRunSource) (started : option Q) (p : Pane) : Pane :=
  let '(raw, display, src, at_) := resolveCommandStart now (deriveFallbackCommandTitle p) (pendingCommandLine p) src started in
  mkPane (cwd p) running None (Some (mkRun newId raw display (cwd p) at_ None None src None)) (lastCommand p) (titleCandidates p).

Definition reduce (now : Q) (newId : text) (p : Pane) (e : PaneEvent) : option Pane :=
  match e with
  | ev (sem_cwd c) =>
      if match cwd p with Some c0 => sameCwd c0 c | None => false end then None else Some (with_cwd (Some c) p)
  | ev sem_promptStart => at_prompt prompt p
  | ev sem_promptEnd => at_prompt editing p
  | ev (sem_commandLine line) =>
      if bool_decide (pendingCommandLine p = Some line) then None
      else Some (mkPane (cwd p) (activity p) (Some line) (currentCommand p) (lastCommand p) (titleCandidates p))
  | ev (sem_commandStart src started) => Some (start_command now newId (Some src) started p)
  | ev_start src started => Some (start_command now newId src started p)
  | ev (sem_commandFinish exit at_) =>
      match currentCommand p with
      | None => if sameActivity (activity p) (finished exit) then None else Some (with_activity (finished exit) p)
      | Some c =>
          let at_ := default now at_ in
          let done := finish_run exit at_ (snapshotInRunTerminalTitle p c at_) c in
          Some (mkPane (cwd p) (finished exit) (pendingCommandLine p) None (Some done) (titleCandidates p))
      end
  | ev (sem_title t s at_) =>
      let new := mkPaneTitle t s at_ in
      if match candidate_get s (titleCandidates p) with Some old => sameTitle old new | None => false end then None
      else Some (with_titles (candidate_set new (titleCandidates p)) p)
  end.

Definition reduceTerminalState (now : Q) (newId : text) (p : Pane) (e : PaneEvent) : Pane := default p (reduce now newId p e).

(** ** Labels *)

Definition GENERIC_PROCESS_TITLE_NAMES : list string :=
  ["cmd"; "powershell"; "pwsh"; "bash"; "sh"; "zsh"; "fish"; "dash"; "ksh"; "csh"; "tcsh"; "wsl"; "conhost"]%string.

Section labels.
  Context {U : UrlHost}.
  (** The title the alert manager's notification gives a pane, if any. *)
  Context (appTitleForPane : Pane -> option text).

Definition isGenericProcessTitle (t : text) : bool :=
  let trimmed := trim t in
  if bool_decide (trimmed = []) then false
  else
    let basename := commandBasename trimmed in
    if existsb js_ws basename then false
    else WINDOWS_EXECUTABLE_SUFFIX basename || word_in (toLowerCase basename) GENERIC_PROCESS_TITLE_NAMES.

(** [text.indexOf(pattern)]. *)
Fixpoint text_index (pattern t : text) : option nat :=
  if starts_with pattern t then Some O
  else match t with [] => None | _ :: t => option_map S (text_index pattern t) end.

Definition nonempty_text (t : text) : option text := if bool_decide (t = []) then None else Some t.

Definition meaningfulTerminalTitle (t : text) : option text :=
  let trimmed := trim t in
  if bool_decide (trimmed = []) || isGenericProcessTitle trimmed then None
  else
    match text_index (lit " - ") trimmed with
    | Some (S i) =>
        if isGenericProcessTitle (take (S i) trimmed) then nonempty_text (trim (drop (S i + 3) trimmed)) else Some trimmed
    | _ => Some trimmed
    end.

Definition terminalTitleForCommand (p : Pane) (c : CommandRun) : option text :=
  let snapshot :=
    match finishedAt c, finalTerminalTitle c with
    | Some _, Some t => meaningfulTerminalTitle (title t)
    | _, _ => None
    end in
  match snapshot with
  | Some t => Some t
  | None =>
      match findInRunTerminalTitle p c with
      | Some t => if bool_decide (title t = []) then None else meaningfulTerminalTitle (title t)
      | None => None
      end
  end.

Definition isAppTitleFreshFor (p : Pane) (c : CommandRun) : bool :=
  match candidate_get osc9 (titleCandidates p) with
  | None => true
  | Some t =>
      negb (Qltb (titleUpdatedAt t) (startedAt c)) &&
      match finishedAt c with Some f => negb (Qltb f (titleUpdatedAt t)) | None => true end
  end.

(** [text?.trim()] where it is not empty. *)
Definition trimmed_text (t : option text) : option text := match t with Some t => nonempty_text (trim t) | None => None end.

Definition commandHeaderLabel (p : Pane) (c : CommandRun) : text :=
  match trimmed_text (appTitleForPane p) with
  | Some app => if isAppTitleFreshFor p c then app else default (displayCommand c) (terminalTitleForCommand p c)
  | None => default (displayCommand c) (terminalTitleForCommand p c)
  end.

Definition lastCommandFailed (c : CommandRun) : bool := match exitCode c with Some n => negb (n =? 0) | None => false end.

Definition userTitle (p : Pane) : option text := trimmed_text (option_map title (candidate_get title_user (titleCandidates p))).

Definition headerPrimary (p : Pane) : text * bool :=
  match userTitle p with
  | Some t => (t, false)
  | None =>
      match currentCommand p with
      | Some c => (commandHeaderLabel p c, false)
      | None =>
          match lastCommand p with
          | Some c =>
              let idle := DEFAULT_IDLE_TITLE ++ lit " " ++ commandHeaderLabel p c in
              let failed := lastCommandFailed c in
              (if failed then idle ++ lit " " ++ COMMAND_FAIL_GLYPH else idle, failed)
          | None => (DEFAULT_IDLE_TITLE, false)
          end
      end
  end.

Definition idleLabel (p : Pane) : text := default DEFAULT_IDLE_TITLE (userTitle p).

Definition resolveDisplayPrimary (derivedPrimary : text) (fallbackTitle : option text) : text :=
  if bool_decide (derivedPrimary = DEFAULT_COMMAND_TITLE) then
    match trimmed_text fallbackTitle with
    | Some t => if bool_decide (t = UNNAMED_PANEL_TITLE) then derivedPrimary else t
    | None => derivedPrimary
    end
  else derivedPrimary.

(** [deriveHeader] of no siblings, whose secondary label is absent. *)
Definition deriveSurfaceLabel (p : Pane) (fallbackTitle : option text) : text :=
  resolveDisplayPrimary (headerPrimary p).1 fallbackTitle.

(** [effectiveCwd]. *)
Definition effectiveCwd (p : Pane) : option Cwd :=
  match currentCommand p with
  | Some c => match cwdAtStart c with Some d => Some d | None => cwd p end
  | None => cwd p
  end.

End labels.

(** ** Matching directories and commands *)

(** [path.replace(/^\/([A-Za-z])\//, '$1:/')]. *)
Definition msys_drive (path : text) : text :=
  match path with
  | a :: b :: c :: rest => if (a =? 47) && is_letter b && (c =? 47) then b :: 58 :: 47 :: rest else path
  | _ => path
  end.

Definition ascii_upper (c : Z) : Z := if (97 <=? c) && (c <=? 122) then c - 32 else c.

Definition canonicalizeCwdForMatch (path : text) : text :=
  match msys_drive path with
  | a :: b :: c :: rest =>
      if is_letter a && (b =? 58) && is_slash c then
        ascii_upper a :: map (fun u => if u =? 47 then 92 else u) (b :: c :: rest)
      else path
  | _ => path
  end.

Definition cwdPathsEqual (a b : option text) : bool :=
  match nonempty_line a, nonempty_line b with
  | Some a, Some b => bool_decide (canonicalizeCwdForMatch a = canonicalizeCwdForMatch b)
  | _, _ => false
  end.

Definition surfaceRunsCommand (p : Pane) (command cwdPath : text) : bool :=
  match currentCommand p with
  | Some run =>
      bool_decide (rawCommandLine run = Some command) &&
      cwdPathsEqual (match cwdAtStart run with Some c => Some (TermCwd.cwdPath c) | None => option_map TermCwd.cwdPath (cwd p) end) (Some cwdPath)
  | None => false
  end.

Definition processCwdMayReplace (s : option CwdSource) : bool :=
  match s with None | Some cwd_process | Some cwd_manual => true | _ => false end.
