(* ===== verification/PaneFacts.v ===== *)
(** * What a pane's state promises

    The invariant of every state events lead to; the titles a header may show;
    the idle header after a command; and when two directories are one. *)
From Stdlib Require Import ZArith QArith Lia Lqa.
From S2P Require Import Prelude JsNum TerminalState TermText TermDecode TermCwd OscParse ShellWords WatchKey PaneState.
#[local] Open Scope Z_scope.
#[local] Open Scope list_scope.

(** ** Comparisons of times *)

Lemma Qltb_true a b : Qltb a b = true <-> (a < b)%Q.
Proof. unfold Qltb. rewrite negb_true_iff. split; [intros H; apply Qnot_le_lt; intros L%Qle_bool_iff; congruence|].
  intros H. apply not_true_iff_false. rewrite Qle_bool_iff. apply Qlt_not_le, H. Qed.

Lemma Qltb_false a b : Qltb a b = false <-> (b <= a)%Q.
Proof. unfold Qltb. rewrite negb_false_iff. apply Qle_bool_iff. Qed.

(** ** Title candidates *)

(** Each title is stored under its own source, and a source once. *)
Definition candidates_ok (cs : TitleCandidates) : Prop := Forall (fun e => titleSource e.2 = e.1) cs /\ NoDup (map fst cs).

Lemma candidate_get_set s t cs :
  candidate_get s (candidate_set t cs) = if bool_decide (titleSource t = s) then Some t else candidate_get s cs.
Proof.
  unfold candidate_get. induction cs as [|e cs IH]; cbn [candidate_set].
  - cbn. by case_bool_decide.
  - destruct (bool_decide (e.1 = titleSource t)) eqn:E.
    + apply bool_decide_eq_true in E. cbn [List.find fst]. rewrite E. by case_bool_decide.
    + apply bool_decide_eq_false in E. cbn [List.find]. destruct (bool_decide (e.1 = s)) eqn:Es; [|done].
      apply bool_decide_eq_true in Es. rewrite bool_decide_false; [done|]. congruence.
Qed.

Lemma candidate_set_keys t cs s : s ∈ map fst (candidate_set t cs) <-> s = titleSource t \/ s ∈ map fst cs.
Proof.
  induction cs as [|e cs IH]; cbn [candidate_set].
  - cbn. by rewrite elem_of_cons.
  - case_bool_decide as E; cbn [map fst]; rewrite !elem_of_cons; [rewrite <- E; tauto|rewrite IH; tauto].
Qed.

Lemma candidate_set_ok t cs : candidates_ok cs -> candidates_ok (candidate_set t cs).
Proof.
  intros [Hs Hn]. induction cs as [|e cs IH]; cbn [candidate_set]; [split; [by repeat constructor|cbn; apply NoDup_singleton]|].
  apply Forall_cons in Hs as [He Hs]. cbn in Hn. apply NoDup_cons in Hn as [Hni Hn]. destruct (IH Hs Hn) as [IH1 IH2].
  case_bool_decide as E; [split; [by constructor|by apply NoDup_cons]|]. split; [by constructor|]. cbn [map]. apply NoDup_cons.
  split; [|done]. rewrite candidate_set_keys. tauto.
Qed.

Lemma candidate_get_source s t cs : candidates_ok cs -> candidate_get s cs = Some t -> titleSource t = s.
Proof.
  intros [Hs _]. unfold candidate_get. destruct (List.find _ cs) as [e|] eqn:E; [|done]. intros [= <-].
  apply List.find_some in E as [Hin Hk%bool_decide_eq_true]. rewrite Forall_forall in Hs. rewrite <- Hk. by apply Hs, list_elem_of_In.
Qed.

(** A title of the window: sent after the command started, and not after it ended. *)
Definition within (from : Q) (to : option Q) (t : PaneTitle) : Prop :=
  (from <= titleUpdatedAt t)%Q /\ match to with Some f => (titleUpdatedAt t <= f)%Q | None => True end.

Lemma title_within_spec from to cs t : title_within from to cs = Some t ->
  within from to t /\ exists s, s ∈ HEADER_APP_TITLE_SOURCES /\ candidate_get s cs = Some t.
Proof.
  unfold title_within.
  assert (H : forall l best, (forall t, best = Some t -> within from to t /\ exists s, s ∈ HEADER_APP_TITLE_SOURCES /\ candidate_get s cs = Some t) ->
    (forall s, s ∈ l -> s ∈ HEADER_APP_TITLE_SOURCES) -> forall r,
    fold_left (fun best s => match candidate_get s cs with None => best | Some c =>
      if Qltb (titleUpdatedAt c) from then best
      else if match to with Some f => Qltb f (titleUpdatedAt c) | None => false end then best else later_title best c end) l best = Some r ->
    within from to r /\ exists s, s ∈ HEADER_APP_TITLE_SOURCES /\ candidate_get s cs = Some r).
  { induction l as [|s l IH]; intros best Hb Hl r; cbn [fold_left]; [apply Hb|]. apply IH; [|intros; apply Hl; by right].
    destruct (candidate_get s cs) as [c|] eqn:Ec; [|done]. destruct (Qltb (titleUpdatedAt c) from) eqn:E1; [done|].
    destruct (match to with Some f => _ | None => _ end) eqn:E2; [done|]. intros t' Ht'.
    assert (t' = c \/ best = Some t') as [->|?]; [|split; [|exists s; split; [apply Hl; by left|done]]|by apply Hb].
    { unfold later_title in Ht'. repeat case_match; simplify_eq; auto. }
    split; [by apply Qltb_false|]. destruct to; [by apply Qltb_false|done]. }
  apply H; [done|auto].
Qed.

Lemma title_within_none from to cs :
  (forall s c, s ∈ HEADER_APP_TITLE_SOURCES -> candidate_get s cs = Some c -> ~ within from to c) -> title_within from to cs = None.
Proof.
  intros H. destruct (title_within from to cs) as [t|] eqn:E; [|done].
  apply title_within_spec in E as (Hw & s & Hs & Hg). by destruct (H s t Hs Hg).
Qed.

Lemma later_title_some b c : is_Some (later_title b c).
Proof. unfold later_title. repeat case_match; by eexists. Qed.

(** The converse: nothing of the window is passed over. *)
Lemma title_within_some from to cs s c : s ∈ HEADER_APP_TITLE_SOURCES -> candidate_get s cs = Some c -> within from to c ->
  is_Some (title_within from to cs).
Proof.
  intros Hs Hc [H1 H2]. unfold title_within.
  assert (Hkeep : forall l best, is_Some best -> is_Some (fold_left (fun best s => match candidate_get s cs with None => best | Some c =>
      if Qltb (titleUpdatedAt c) from then best
      else if match to with Some f => Qltb f (titleUpdatedAt c) | None => false end then best else later_title best c end) l best)).
  { induction l as [|s' l IH]; intros best Hb; [done|]. cbn [fold_left]. apply IH. destruct Hb as [b ->].
    repeat case_match; (apply later_title_some || by eexists). }
  apply Qltb_false in H1.
  assert (H2' : match to with Some f => Qltb f (titleUpdatedAt c) | None => false end = false) by (destruct to; [by apply Qltb_false|done]).
  unfold HEADER_APP_TITLE_SOURCES in *. rewrite !elem_of_cons, elem_of_nil in Hs. destruct_or! Hs; subst; cbn [fold_left].
  - rewrite Hc, H1, H2'. apply (Hkeep [osc2; osc9]), later_title_some.
  - rewrite Hc, H1, H2'. apply (Hkeep [osc9]), later_title_some.
  - rewrite Hc, H1, H2'. apply later_title_some.
Qed.

(** ** The invariant *)

(** A command that has ended, with the title it was showing. *)
Definition ended_ok (c : CommandRun) : Prop :=
  exists f, finishedAt c = Some f /\
    forall t, finalTerminalTitle c = Some t -> within (startedAt c) (Some f) t /\ titleSource t ∈ HEADER_APP_TITLE_SOURCES.

Record pane_ok (p : Pane) : Prop := {
  running_iff : activity p = running <-> is_Some (currentCommand p);
  current_ok : forall c, currentCommand p = Some c -> finishedAt c = None /\ finalTerminalTitle c = None;
  last_ok : forall c, lastCommand p = Some c -> ended_ok c;
  titles_ok : candidates_ok (titleCandidates p)
}.

Lemma initial_ok : pane_ok createTerminalPaneState.
Proof. split; cbn; [split; [done|by intros []]|done|done|split; [done|constructor]]. Qed.

Lemma at_prompt_ok a p : a <> running -> pane_ok p -> pane_ok (default p (at_prompt a p)).
Proof.
  intros Ha Hp. unfold at_prompt. destruct (_ && _); [done|]. destruct Hp as [_ _ Hl Ht]. split; cbn; [|done|done|done].
  split; [done|by intros []].
Qed.

Lemma start_command_ok now newId src started p : pane_ok p -> pane_ok (start_command now newId src started p).
Proof.
  intros [_ _ Hl Ht]. unfold start_command. destruct (resolveCommandStart _ _ _ _ _) as [[[raw display] s] at_].
  split; cbn; [split; [by eexists|done]|by intros c [= <-]|done|done].
Qed.

Lemma reduce_ok now newId p e : pane_ok p -> pane_ok (reduceTerminalState now newId p e).
Proof.
  intros Hp. unfold reduceTerminalState. destruct e as [[c| | |line|src st|exit at_|t s at_]|src st]; cbn [reduce].
  - destruct (match cwd p with Some _ => _ | None => _ end); [done|]. by destruct Hp; split.
  - by apply at_prompt_ok.
  - by apply at_prompt_ok.
  - case_bool_decide; [done|]. by destruct Hp; split.
  - by apply start_command_ok.
  - destruct Hp as [Hr Hc Hl Ht]. destruct (currentCommand p) as [c|] eqn:Ec.
    + split; cbn [activity currentCommand lastCommand titleCandidates]; [split; [done|by intros []]|done| |done]. intros c' [= <-].
      destruct (Hc c eq_refl) as [_ Hf]. exists (default now at_). split; [done|]. intros t. cbn [finish_run finalTerminalTitle startedAt]. rewrite Hf.
      destruct (snapshotInRunTerminalTitle p c (default now at_)) as [t'|] eqn:Et; [|done]. intros [= <-].
      apply title_within_spec in Et as (Hw & s & Hs & Hg). split; [done|]. by rewrite (candidate_get_source _ _ _ Ht Hg).
    + destruct (sameActivity _ _); [by split; cbn; rewrite ?Ec|]. split; cbn; rewrite ?Ec; [split; [done|by intros []]|done|done|done].
  - destruct (match candidate_get s _ with Some _ => _ | None => _ end); [done|]. destruct Hp; split; try done. by apply candidate_set_ok.
  - by apply start_command_ok.
Qed.

(** The state after a sequence of events, each with the time and the id it is
    applied with. *)
Fixpoint run_events (p : Pane) (evs : list (Q * text * PaneEvent)) : Pane :=
  match evs with [] => p | (now, newId, e) :: evs => run_events (reduceTerminalState now newId p e) evs end.

Lemma run_events_ok evs p : pane_ok p -> pane_ok (run_events p evs).
Proof. revert p. induction evs as [|[[now newId] e] evs IH]; intros p Hp; [done|]. by apply IH, reduce_ok. Qed.

(** Whatever a terminal reports, in whatever order, its pane is running exactly
    while it has a command, that command has not ended, and the last command has
    ended, with a title of its own run if it kept one. *)
Theorem panes_consistent evs : pane_ok (run_events createTerminalPaneState evs).
Proof. apply run_events_ok, initial_ok. Qed.

(** ** The header *)

Section header.
  Context {U : UrlHost}.

(** A label read from a title comes from one an app sent while the command ran. *)
Lemma title_of_its_run p c t : candidates_ok (titleCandidates p) ->
  (forall f, finalTerminalTitle c = Some f -> exists at_, finishedAt c = Some at_ /\ within (startedAt c) (Some at_) f /\ titleSource f ∈ HEADER_APP_TITLE_SOURCES) ->
  terminalTitleForCommand p c = Some t ->
  exists T, meaningfulTerminalTitle (title T) = Some t /\ within (startedAt c) (finishedAt c) T /\ titleSource T ∈ HEADER_APP_TITLE_SOURCES.
Proof.
  intros Ht Hf. unfold terminalTitleForCommand.
  destruct (match finishedAt c, finalTerminalTitle c with Some _, Some f => _ | _, _ => None end) as [t'|] eqn:Es.
  - intros [= <-]. destruct (finishedAt c) as [at_|] eqn:Ea; [|done]. destruct (finalTerminalTitle c) as [f|]; [|done].
    destruct (Hf f eq_refl) as (at' & [= <-] & Hw & Hs). by exists f.
  - destruct (findInRunTerminalTitle p c) as [T|] eqn:E; [|done]. case_bool_decide; [done|]. intros Hm.
    apply title_within_spec in E as (Hw & s & Hs & Hg). exists T. do 2 (split; [done|]).
    by rewrite (candidate_get_source _ _ _ Ht Hg).
Qed.

(** No title sent before a command started or after it ended is read as its
    label, whatever the terminal sent and in whatever order: the label of the
    running or the last command is its own command line's, or the meaningful
    part of a title an app sent during the run. *)
Theorem label_of_the_run evs c :
  let p := run_events createTerminalPaneState evs in
  currentCommand p = Some c \/ lastCommand p = Some c ->
  commandHeaderLabel (fun _ => None) p c = displayCommand c \/
  exists T, meaningfulTerminalTitle (title T) = Some (commandHeaderLabel (fun _ => None) p c) /\
    within (startedAt c) (finishedAt c) T /\ titleSource T ∈ HEADER_APP_TITLE_SOURCES.
Proof.
  intros p Hc. pose proof (run_events_ok evs _ initial_ok) as Hp. fold p in Hp.
  unfold commandHeaderLabel. cbn [trimmed_text]. destruct (terminalTitleForCommand p c) as [t|] eqn:Et; [right|by left].
  apply (title_of_its_run p c t (titles_ok p Hp)); [|done]. intros f Hf. destruct Hc as [Hc|Hc].
  - destruct (current_ok p Hp c Hc) as [_ Hn]. congruence.
  - destruct (last_ok p Hp c Hc) as (at_ & Ha & Hw). exists at_. split; [done|by apply Hw].
Qed.

(** What a shell may send once a command has ended: a title, a directory or a
    line being typed, after it in time. *)
Inductive afterwards (f : Q) : PaneEvent -> Prop :=
  | after_title t s at_ : s <> title_user -> (f < at_)%Q -> afterwards f (ev (sem_title t s at_))
  | after_cwd c : afterwards f (ev (sem_cwd c))
  | after_line l : afterwards f (ev (sem_commandLine l)).

(** What they leave as it was. *)
Record keeps (p q : Pane) (from f : Q) : Prop := {
  keeps_current : currentCommand q = currentCommand p;
  keeps_last : lastCommand q = lastCommand p;
  keeps_user : userTitle q = userTitle p;
  keeps_window : (forall s t, s ∈ HEADER_APP_TITLE_SOURCES -> candidate_get s (titleCandidates p) = Some t -> ~ within from (Some f) t) ->
    forall s t, s ∈ HEADER_APP_TITLE_SOURCES -> candidate_get s (titleCandidates q) = Some t -> ~ within from (Some f) t
}.

Lemma kept_refl p from f : keeps p p from f.
Proof. by split. Qed.

Lemma kept_trans p q r from f : keeps p q from f -> keeps q r from f -> keeps p r from f.
Proof.
  intros [H1 H2 H3 H4] [I1 I2 I3 I4]. split; [congruence..|]. intros Hw. apply I4, H4, Hw.
Qed.

Lemma afterwards_keeps now newId p e from f : afterwards f e -> keeps p (reduceTerminalState now newId p e) from f.
Proof.
  intros He. unfold reduceTerminalState. destruct He as [t s at_ Hs Hf|c|l]; cbn [reduce].
  - destruct (match candidate_get s _ with Some _ => _ | None => _ end); [apply kept_refl|].
    cbn [default from_option id]. set (new := mkPaneTitle t s at_).
    assert (Hg : forall k, candidate_get k (candidate_set new (titleCandidates p)) = if bool_decide (s = k) then Some new else candidate_get k (titleCandidates p)).
    { intros k. by rewrite candidate_get_set. }
    split; cbn; [done|done| |].
    + unfold userTitle. cbn. by rewrite Hg, bool_decide_false.
    + intros Hp k c Hk. rewrite Hg. case_bool_decide; [intros [= <-] [_ Hw]; cbn in Hw; lra|by apply Hp].
  - destruct (match cwd p with Some _ => _ | None => _ end); [apply kept_refl|by split].
  - case_bool_decide; [apply kept_refl|by split].
Qed.

Lemma run_afterwards evs p from f : Forall (fun e => afterwards f e.2) evs -> keeps p (run_events p evs) from f.
Proof.
  intros He. revert p. induction He as [|[[now newId] e] evs He _ IH]; intros p; [apply kept_refl|].
  cbn [run_events]. eapply kept_trans; [by apply afterwards_keeps|apply IH].
Qed.

(** Once a command has ended, its idle header stays: what the shell sends
    afterwards, a title of its own for the prompt included, changes neither the
    text nor the mark of a failure — where the title the command was showing said
    something, or it was showing none. *)
Theorem idle_header_stays p c now newId exit at_ evs :
  let f := default now at_ in
  let q := reduceTerminalState now newId p (ev (sem_commandFinish exit at_)) in
  pane_ok p -> currentCommand p = Some c ->
  (forall t, snapshotInRunTerminalTitle p c f = Some t -> is_Some (meaningfulTerminalTitle (title t))) ->
  Forall (fun e => afterwards f e.2) evs ->
  headerPrimary (fun _ => None) (run_events q evs) = headerPrimary (fun _ => None) q.
Proof.
  intros f q Hp Hc Hm He. destruct (run_afterwards evs q (startedAt c) f He) as [Kc Kl Ku Kw].
  assert (Hl : lastCommand q = Some (finish_run exit f (snapshotInRunTerminalTitle p c f) c) /\ currentCommand q = None
    /\ titleCandidates q = titleCandidates p).
  { unfold q, reduceTerminalState. cbn [reduce]. by rewrite Hc. }
  destruct Hl as (Hl & Hn & Hcs). unfold headerPrimary. rewrite Ku, Kc, Kl, Hn, Hl. destruct (userTitle q); [done|].
  set (c' := finish_run _ _ _ _). assert (E : terminalTitleForCommand (run_events q evs) c' = terminalTitleForCommand q c').
  { unfold terminalTitleForCommand, c'. cbn [finish_run finishedAt finalTerminalTitle].
    destruct (current_ok p Hp c Hc) as [_ Hf]. rewrite Hf.
    destruct (snapshotInRunTerminalTitle p c f) as [t|] eqn:Es; [by destruct (Hm t eq_refl) as [m ->]|].
    assert (Hno : forall s t, s ∈ HEADER_APP_TITLE_SOURCES -> candidate_get s (titleCandidates q) = Some t -> ~ within (startedAt c) (Some f) t).
    { intros s t Hs Hg Hw. rewrite Hcs in Hg. destruct (title_within_some _ _ _ _ _ Hs Hg Hw) as [x Hx].
      unfold snapshotInRunTerminalTitle in Es. congruence. }
    unfold findInRunTerminalTitle. cbn [finish_run startedAt finishedAt].
    rewrite !title_within_none; [done|done|by apply Kw]. }
  unfold commandHeaderLabel. cbn [trimmed_text]. by rewrite E.
Qed.

End header.

(** ** Directories *)

(** A path under a drive, in Windows' spelling or MSYS's. *)
Definition drive_form (path : text) : bool :=
  match path with
  | a :: b :: c :: _ => is_letter a && (b =? 58) && is_slash c || (a =? 47) && is_letter b && (c =? 47)
  | _ => false
  end.

Lemma canonical_plain path : drive_form path = false -> canonicalizeCwdForMatch path = path.
Proof.
  unfold drive_form, canonicalizeCwdForMatch, msys_drive. destruct path as [|a [|b [|c rest]]]; try done.
  intros [H1 H2]%orb_false_iff. by rewrite H2, H1.
Qed.

Lemma is_letter_upper c : is_letter c = true -> is_letter (ascii_upper c) = true.
Proof. unfold is_letter, ascii_upper. destruct ((97 <=? c) && (c <=? 122)) eqn:E; lia. Qed.

Lemma canonical_drive path : drive_form path = true -> drive_form (canonicalizeCwdForMatch path) = true.
Proof.
  unfold drive_form, canonicalizeCwdForMatch, msys_drive. destruct path as [|a [|b [|c rest]]]; try done.
  destruct ((a =? 47) && is_letter b && (c =? 47)) eqn:Em; intros H.
  - apply andb_true_iff in Em as [[_ Hb]%andb_true_iff _]. cbn. rewrite Hb. cbn. by rewrite is_letter_upper.
  - rewrite orb_false_r in H. rewrite H. apply andb_true_iff in H as [[Ha ->%Z.eqb_eq]%andb_true_iff Hc]. cbn.
    rewrite is_letter_upper by done. unfold is_slash in *. destruct (c =? 47) eqn:E; cbn in *; [done|]. by rewrite ?E, Hc.
Qed.

(** Matching is an equivalence of nonempty paths; a path under no drive matches
    itself alone, so POSIX paths are compared as they are; and the MSYS spelling
    of a directory under a drive matches Windows' own. *)
Theorem cwdPathsEqual_equivalence :
  (forall a, a <> [] -> cwdPathsEqual (Some a) (Some a) = true) /\
  (forall a b, cwdPathsEqual a b = cwdPathsEqual b a) /\
  (forall a b c, cwdPathsEqual a b = true -> cwdPathsEqual b c = true -> cwdPathsEqual a c = true) /\
  (forall a b, drive_form a = false -> cwdPathsEqual (Some a) (Some b) = true -> a = b) /\
  (forall d rest, is_letter d = true -> cwdPathsEqual (Some (47 :: d :: 47 :: rest)) (Some (d :: 58 :: 92 :: rest)) = true).
Proof.
  unfold cwdPathsEqual. split; [|split; [|split; [|split]]].
  - intros a Ha. cbn. rewrite bool_decide_false by done. by rewrite bool_decide_true.
  - intros a b. destruct (nonempty_line a), (nonempty_line b); [|done..]. apply bool_decide_ext. split; congruence.
  - intros a b c. destruct (nonempty_line a), (nonempty_line b), (nonempty_line c); try done.
    rewrite !bool_decide_eq_true. congruence.
  - intros a b Ha. cbn. repeat case_bool_decide; try done. intros _.
    rewrite (canonical_plain a Ha) in *. destruct (drive_form b) eqn:Hb; [|by rewrite (canonical_plain b Hb) in *].
    apply canonical_drive in Hb. congruence.
  - intros d rest Hd. cbn. apply bool_decide_eq_true. unfold canonicalizeCwdForMatch, msys_drive. cbn [Z.eqb Pos.eqb]. rewrite Hd.
    replace (d =? 47) with false by (symmetry; apply Z.eqb_neq; intros ->; done). cbn. by rewrite Hd.
Qed.

(** ** Instances *)

Section samples.
#[local] Instance ascii_host : UrlHost := { URL := fun _ => None; toLowerCase := map ascii_lower }.

(** A run of vim, its title, and the shell's title after it. *)
Definition vim_events : list (Q * text * PaneEvent) := [
  (1%Q, lit "cmd-1", ev sem_promptEnd);
  (2%Q, lit "cmd-1", ev (sem_commandLine (lit "vim notes.md")));
  (3%Q, lit "cmd-1", ev (sem_commandStart osc633_boundaries (Some 3%Q)));
  (4%Q, lit "cmd-2", ev (sem_title (lit "notes.md - VIM") osc2 4%Q))].

Definition vim_pane : Pane := run_events createTerminalPaneState vim_events.
Definition shell_title : list (Q * text * PaneEvent) := [(6%Q, lit "cmd-2", ev (sem_title (lit "zsh") osc0 6%Q)); (7%Q, lit "cmd-2", ev (sem_title (lit "~/work") osc2 7%Q))].

Lemma label_of_the_run_witness :
  exists c, currentCommand vim_pane = Some c /\ commandHeaderLabel (fun _ => None) vim_pane c = lit "notes.md - VIM" /\
  (commandHeaderLabel (fun _ => None) vim_pane c = displayCommand c \/
   exists T, meaningfulTerminalTitle (title T) = Some (commandHeaderLabel (fun _ => None) vim_pane c) /\
     within (startedAt c) (finishedAt c) T /\ titleSource T ∈ HEADER_APP_TITLE_SOURCES).
Proof.
  eexists. split; [by vm_compute|]. split; [by vm_compute|].
  apply (label_of_the_run vim_events). left. by vm_compute.
Defined.

Lemma idle_header_stays_witness :
  let q := reduceTerminalState 5 (lit "cmd-2") vim_pane (ev (sem_commandFinish (Some 1) (Some 5%Q))) in
  headerPrimary (fun _ => None) (run_events q shell_title) = headerPrimary (fun _ => None) q /\
  headerPrimary (fun _ => None) q = (lit "<idle> notes.md - VIM " ++ COMMAND_FAIL_GLYPH, true).
Proof.
  intros q. split; [|by vm_compute]. destruct (currentCommand vim_pane) as [c|] eqn:Ec; [|by vm_compute in Ec].
  apply (idle_header_stays vim_pane c 5 (lit "cmd-2") (Some 1) (Some 5%Q) shell_title).
  - apply run_events_ok, initial_ok.
  - done.
  - intros t. vm_compute in Ec. injection Ec as <-. intros Ht. vm_compute in Ht. injection Ht as <-. vm_compute. by eexists.
  - repeat constructor; first [done | by vm_compute].
Defined.

(** Two titles in a run, the later a bare shell name: the label is the command's,
    until the shell's title after the run uncovers the earlier one. *)
Definition covered_title : list (Q * text * PaneEvent) := [
  (1%Q, lit "cmd-1", ev (sem_commandLine (lit "make")));
  (2%Q, lit "cmd-1", ev (sem_commandStart osc633_boundaries (Some 2%Q)));
  (3%Q, lit "cmd-1", ev (sem_title (lit "building") osc2 3%Q));
  (4%Q, lit "cmd-1", ev (sem_title (lit "zsh") osc0 4%Q));
  (5%Q, lit "cmd-1", ev (sem_commandFinish (Some 0) (Some 5%Q)))].

Example uncovered_title :
  let q := run_events createTerminalPaneState covered_title in
  (headerPrimary (fun _ => None) q).1 = lit "<idle> make" /\
  (headerPrimary (fun _ => None) (run_events q [(6%Q, [], ev (sem_title (lit "~/work") osc0 6%Q))])).1 = lit "<idle> building".
Proof. by vm_compute. Qed.

End samples.
