(* ===== verification/CwdLabels.v ===== *)
(** * Directory labels, headers and groups (lib/src/lib/terminal-state.ts)

    How the directories of several panes are told apart: the shortest trailing
    path that is unique, the second line of a header, and the grouping of panes.
    A JS [Map] is its entries in the order of their first insertion. *)
From Stdlib Require Import ZArith QArith Lia.
From S2P Require Import Prelude JsNum TerminalState TermText TermDecode TermCwd ShellWords WatchKey PaneState.
#[local] Open Scope Z_scope.
#[local] Open Scope list_scope.

(** ** Maps keyed by text *)

Section map.
  Context {V : Type}.
Fixpoint map_set (k : text) (v : V) (m : list (text * V)) : list (text * V) :=
  match m with
  | [] => [(k, v)]
  | (k', v') :: m => if bool_decide (k' = k) then (k, v) :: m else (k', v') :: map_set k v m
  end.
Definition map_get (k : text) (m : list (text * V)) : option V :=
  option_map snd (List.find (fun e => bool_decide (e.1 = k)) m).
End map.

(** ** Paths *)

Inductive HostMode := host_auto | host_always | host_never.
Inductive DisplayStyle := style_basename | style_short | style_full.

Record DisplayOptions := mkDisplay {
  includeHost : HostMode;
  style : DisplayStyle;
  maxSegments : nat;
  homePath : option text
}.

(** [{}]. *)
Definition default_display : DisplayOptions := mkDisplay host_auto style_short 2 None.

(** [segments.join(separator)]. *)
Fixpoint join_with (sep : Z) (l : list text) : text :=
  match l with [] => [] | [w] => w | w :: l => w ++ [sep] ++ join_with sep l end.

(** [path.split(sep).filter(Boolean)]. *)
Definition split_nonempty (sep : Z) (t : text) : list text := List.filter (fun w => negb (bool_decide (w = []))) (split_on sep t).

Record PathParts := mkParts { root : text; segments : list text; separator : Z }.

(** The [\\server\share] of a UNC path and what follows it on its one line. *)
Definition unc_parts (normalized : text) : option (text * text * text) :=
  match normalized with
  | a :: b :: rest =>
      if (a =? 92) && (b =? 92) then
        let server := before_first (Z.eqb 92) rest in
        match drop (length server) rest with
        | _ :: rest' =>
            let share := before_first (Z.eqb 92) rest' in
            let tail_ := tail (drop (length share) rest') in
            if bool_decide (server = []) || bool_decide (share = []) || existsb line_terminator tail_ then None
            else Some (server, share, tail_)
        | [] => None
        end
      else None
  | _ => None
  end.

Definition pathParts (path : text) (kind : PathKind) : PathParts :=
  match kind with
  | windows =>
      let normalized := map (fun c => if c =? 47 then 92 else c) path in
      match unc_parts normalized with
      | Some (server, share, rest) => mkParts ([92; 92] ++ server ++ [92] ++ share ++ [92]) (split_nonempty 92 rest) 92
      | None =>
          match normalized with
          | a :: b :: rest =>
              let tail_ := if next_is 92 rest then tail rest else rest in
              if is_letter a && (b =? 58) && negb (existsb line_terminator tail_) then mkParts [a; b; 92] (split_nonempty 92 tail_) 92
              else mkParts [] (split_nonempty 92 normalized) 92
          | _ => mkParts [] (split_nonempty 92 normalized) 92
          end
      end
  | _ => mkParts (if starts_with (lit "/") path then lit "/" else []) (split_nonempty 47 path) 47
  end.

Definition formatTrailingPath (path : text) (kind : PathKind) (depth : nat) : text :=
  let parts := pathParts path kind in
  match segments parts with
  | [] => default DEFAULT_DIRECTORY_LABEL (match nonempty_text (root parts) with Some r => Some r | None => nonempty_text path end)
  | segs =>
      let tail_ := join_with (separator parts) (drop (length segs - Nat.max 1 depth) segs) in
      match kind with
      | windows => if negb (bool_decide (root parts = [])) && (length segs <=? depth)%nat then root parts ++ tail_ else tail_
      | _ => tail_
      end
  end.

Abbreviation Labels := (list (text * text)).

Section labels.
  Context {U : UrlHost}.

Definition formatFullPath (path : text) (home : option text) : text :=
  match home with
  | None => path
  | Some home =>
      if bool_decide (home = []) then path
      else
        let normalize v := if isWindowsPath home then toLowerCase (map (fun c => if c =? 92 then 47 else c) v) else v in
        let h := normalize home in
        let h := if ends_in 47 h then take (length h - 1) h else h in
        let candidate := normalize path in
        if bool_decide (candidate = h) || starts_with (h ++ lit "/") candidate then lit "~" ++ drop (length h) path else path
  end.

(** A host that is there and not empty. *)
Definition some_host (c : Cwd) : option text := nonempty_line (host c).

Definition with_host (b : bool) (c : Cwd) (label : text) : text :=
  match some_host c with Some h => if b then h ++ lit ":" ++ label else label | None => label end.

Definition cwdDisplay (c : Cwd) (o : DisplayOptions) : text :=
  let pathLabel :=
    match style o with
    | style_full => formatFullPath (cwdPath c) (homePath o)
    | style_basename => formatTrailingPath (cwdPath c) (pathKind c) 1
    | style_short => formatTrailingPath (cwdPath c) (pathKind c) (maxSegments o)
    end in
  let shouldIncludeHost :=
    match includeHost o with host_always => true | host_auto => isRemote c && bool_decide (is_Some (some_host c)) | host_never => false end in
  with_host shouldIncludeHost c pathLabel.

(** ** The shortest unique labels *)

Fixpoint unique_from (seen : list text) (cwds : list Cwd) : list Cwd :=
  match cwds with
  | [] => []
  | c :: cwds =>
      if bool_decide (cwdIdentity c ∈ seen) then unique_from seen cwds else c :: unique_from (seen ++ [cwdIdentity c]) cwds
  end.
Definition uniqueByIdentity (cwds : list Cwd) : list Cwd := unique_from [] cwds.

Definition label_of (m : Labels) (c : Cwd) : option text := nonempty_line (map_get (cwdIdentity c) m).

(** The labels more than one directory has. *)
Definition findLabelCollisions (cwds : list Cwd) (m : Labels) : list text :=
  let counts := fold_left (fun counts c =>
      match label_of m c with None => counts | Some l => map_set l (S (default O (map_get l counts))) counts end) cwds [] in
  map fst (List.filter (fun e => (1 <? e.2)%nat) counts).

(** The directories of each label, in order. *)
Definition label_groups (cwds : list Cwd) (m : Labels) : list (text * list Cwd) :=
  fold_left (fun groups c =>
      match label_of m c with None => groups | Some l => map_set l (default [] (map_get l groups) ++ [c]) groups end) cwds [].

Fixpoint distinct (l : list text) : list text :=
  match l with [] => [] | x :: l => if bool_decide (x ∈ l) then distinct l else x :: distinct l end.

Definition withRequiredHostPrefixes (cwds : list Cwd) (base : Labels) (o : DisplayOptions) : Labels :=
  fold_left (fun result (g : text * list Cwd) =>
      let '(label, group) := g in
      let hasCollision := (1 <? length group)%nat in
      let samePathDifferentHosts :=
        (length (distinct (map cwdPath group)) <? length group)%nat && (1 <? length (distinct (map (fun c => default [] (host c)) group)))%nat in
      fold_left (fun result c =>
          match some_host c with
          | Some h =>
              if match includeHost o with
                 | host_always => true
                 | host_auto => isRemote c || hasCollision && samePathDifferentHosts
                 | host_never => false
                 end
              then map_set (cwdIdentity c) (h ++ lit ":" ++ label) result else result
          | None => result
          end) group result) (label_groups cwds base) base.

Definition labels_at (cwds : list Cwd) (o : DisplayOptions) (depth : nat) : Labels :=
  withRequiredHostPrefixes cwds
    (fold_left (fun m c => map_set (cwdIdentity c) (formatTrailingPath (cwdPath c) (pathKind c) depth) m) cwds []) o.

(** The loop over the depths; the labels of the last one where none is enough. *)
Fixpoint find_depth (cwds : list Cwd) (o : DisplayOptions) (depth : nat) (todo : nat) (labels : Labels) : Labels * bool :=
  match todo with
  | O => (labels, false)
  | S todo =>
      let labels := labels_at cwds o depth in
      match findLabelCollisions cwds labels with
      | [] => (labels, true)
      | _ => find_depth cwds o (S depth) todo labels
      end
  end.

Definition maxDepth (cwds : list Cwd) : nat :=
  fold_right Nat.max 1%nat (map (fun c => length (segments (pathParts (cwdPath c) (pathKind c)))) cwds).

Definition shortestUniqueCwdLabels (cwds : list Cwd) (o : DisplayOptions) : Labels :=
  let uniqueCwds := uniqueByIdentity cwds in
  match uniqueCwds with
  | [] => []
  | _ =>
      let '(labels, found) := find_depth uniqueCwds o 1 (maxDepth uniqueCwds) [] in
      if found then labels
      else
        let remaining := findLabelCollisions uniqueCwds labels in
        fold_left (fun m c =>
            let label := default (cwdDisplay c o) (map_get (cwdIdentity c) m) in
            let needsHost :=
              match includeHost o with
              | host_always => true
              | host_auto => isRemote c || bool_decide (label ∈ remaining)
              | host_never => false
              end in
            map_set (cwdIdentity c) (with_host needsHost c label) m) uniqueCwds labels
  end.

(** ** Headers and groups *)

Context (appTitleForPane : Pane -> option text).

Record DerivedHeader := mkHeader { primary : text; secondary : option text; failed : bool }.

Definition deriveHeader (p : Pane) (visiblePanes : list Pane) (o : DisplayOptions) : DerivedHeader :=
  let prim := headerPrimary appTitleForPane p in
  let samePrimary := List.filter (fun q => bool_decide ((headerPrimary appTitleForPane q).1 = prim.1)) visiblePanes in
  let secondary :=
    if (1 <? length samePrimary)%nat then
      Some match effectiveCwd p with
           | Some c => default (cwdDisplay c o) (map_get (cwdIdentity c) (shortestUniqueCwdLabels (omap effectiveCwd samePrimary) o))
           | None => DEFAULT_DIRECTORY_LABEL
           end
    else None in
  mkHeader prim.1 secondary prim.2.

Record Group := mkGroup { g_label : text; g_panes : list Pane }.

(** [groupBy]: the groups in the order their first pane came, each with the
    label of that pane. *)
Definition groupBy (panes : list Pane) (keyForPane : Pane -> text * text) : list (text * Group) :=
  fold_left (fun groups p =>
      let '(key, label) := keyForPane p in
      match map_get key groups with
      | Some g => map_set key (mkGroup (g_label g) (g_panes g ++ [p])) groups
      | None => map_set key (mkGroup label [p]) groups
      end) panes [].

Inductive GroupingMode := group_none | group_directory | group_command | group_status.

Definition statusBucket (a : ShellActivity) : text :=
  match a with running => lit "running" | finished _ => lit "finished" | unknown => lit "unknown" | _ => lit "idle" end.

Definition groupTerminalPanes (panes : list Pane) (mode : GroupingMode) (o : DisplayOptions) : list (text * Group) :=
  match mode with
  | group_none => [(lit "all", mkGroup (lit "All") panes)]
  | group_directory =>
      let labels := shortestUniqueCwdLabels (omap effectiveCwd panes) o in
      groupBy panes (fun p =>
        match effectiveCwd p with
        | None => (lit "unknown", DEFAULT_DIRECTORY_LABEL)
        | Some c => (cwdIdentity c, default (cwdDisplay c o) (map_get (cwdIdentity c) labels))
        end)
  | group_command =>
      groupBy panes (fun p => let label := match currentCommand p with Some c => displayCommand c | None => idleLabel p end in (label, label))
  | group_status => groupBy panes (fun p => (statusBucket (activity p), statusBucket (activity p)))
  end.

End labels.

(** ** Facts about the maps *)

Lemma map_get_set {V} k k' (v : V) m : map_get k (map_set k' v m) = if bool_decide (k' = k) then Some v else map_get k m.
Proof.
  unfold map_get. induction m as [|[k0 v0] m IH]; cbn [map_set].
  - cbn. by case_bool_decide.
  - destruct (bool_decide (k0 = k')) eqn:E; [apply bool_decide_eq_true in E as ->|apply bool_decide_eq_false in E];
      cbn [List.find fst]; [by destruct (bool_decide (k' = k))|].
    destruct (bool_decide (k0 = k)) eqn:Ek; [|done]. apply bool_decide_eq_true in Ek as ->. by rewrite bool_decide_false.
Qed.

Lemma map_set_keys {V} k (v : V) m : NoDup (map fst m) -> NoDup (map fst (map_set k v m)) /\ forall k', k' ∈ map fst (map_set k v m) <-> k' = k \/ k' ∈ map fst m.
Proof.
  induction m as [|[k0 v0] m IH]; cbn [map_set map fst].
  - intros _. split; [apply NoDup_singleton|]. intros k'. by rewrite elem_of_cons.
  - intros [Hn Hd]%NoDup_cons. destruct (IH Hd) as [IH1 IH2]. case_bool_decide as E; cbn [map fst].
    + subst. split; [by apply NoDup_cons|]. intros k'. rewrite !elem_of_cons. tauto.
    + split; [apply NoDup_cons; split; [rewrite IH2; naive_solver|done]|]. intros k'. rewrite !elem_of_cons, IH2. tauto.
Qed.

Lemma map_get_entry {V} k (v : V) m : NoDup (map fst m) -> (k, v) ∈ m -> map_get k m = Some v.
Proof.
  unfold map_get. induction m as [|[k0 v0] m IH]; cbn [map fst]; [by intros _ ?%not_elem_of_nil|].
  intros [Hn Hd]%NoDup_cons [[= <- <-]|Hin]%elem_of_cons; cbn [List.find fst]; [by rewrite bool_decide_true|].
  rewrite bool_decide_false; [by apply IH|]. intros ->. apply Hn. by apply (list_elem_of_fmap_2 fst) in Hin.
Qed.

Lemma map_get_in {V} k (v : V) m : map_get k m = Some v -> (k, v) ∈ m.
Proof.
  unfold map_get. destruct (List.find _ m) as [[k' v']|] eqn:E; [|done]. intros [= <-].
  apply List.find_some in E as [Hin Hk%bool_decide_eq_true]. cbn in Hk. subst. by apply list_elem_of_In.
Qed.

(** ** Told apart *)

Section told_apart.
  Context {U : UrlHost} (o : DisplayOptions).

Lemma unique_from_spec seen cwds :
  (forall c, c ∈ unique_from seen cwds -> c ∈ cwds /\ cwdIdentity c ∉ seen) /\
  NoDup (map cwdIdentity (unique_from seen cwds)) /\
  (forall c, c ∈ cwds -> cwdIdentity c ∈ seen \/ exists c', c' ∈ unique_from seen cwds /\ cwdIdentity c' = cwdIdentity c).
Proof.
  revert seen. induction cwds as [|c cwds IH]; intros seen; cbn [unique_from].
  { split; [by intros c ?%not_elem_of_nil|]. split; [constructor|by intros c ?%not_elem_of_nil]. }
  case_bool_decide as E.
  - destruct (IH seen) as (H1 & H2 & H3). split; [intros c' Hc'; split; [right|]; by apply H1|]. split; [done|].
    intros c' [->|Hc']%elem_of_cons; [by left|by apply H3].
  - destruct (IH (seen ++ [cwdIdentity c])) as (H1 & H2 & H3). split; [|split].
    + intros c' [->|Hc']%elem_of_cons; [split; [left|done]|]. destruct (H1 c' Hc') as [? Hn]. split; [by right|].
      intros Hs. apply Hn, elem_of_app. by left.
    + cbn [map]. apply NoDup_cons. split; [|done]. intros (c' & Ec & Hc')%list_elem_of_fmap. destruct (H1 c' Hc') as [_ Hn].
      apply Hn. rewrite <- Ec. apply elem_of_app. right. by left.
    + intros c' [->|Hc']%elem_of_cons; [right; exists c; split; [by left|done]|].
      destruct (H3 c' Hc') as [Hs|(c2 & Hc2 & E2)].
      * apply elem_of_app in Hs as [?|Hs]; [by left|]. apply list_elem_of_singleton in Hs. right. exists c. split; [by left|done].
      * right. exists c2. split; [by right|done].
Qed.

(** A directory of this machine, its path absolute and in normal form. *)
Definition plain_posix (c : Cwd) : Prop :=
  pathKind c = posix /\ host c = None /\ cwdPath c = [47] ++ join_with 47 (split_nonempty 47 (cwdPath c)).

Definition trailing (d : nat) (c : Cwd) : text := formatTrailingPath (cwdPath c) (pathKind c) d.

Lemma plain_identity c c' : plain_posix c -> plain_posix c' -> cwdIdentity c = cwdIdentity c' -> cwdPath c = cwdPath c'.
Proof.
  intros (Hk & Hh & _) (Hk' & Hh' & _). unfold cwdIdentity. rewrite Hk, Hh, Hk', Hh'. intros E.
  apply (f_equal (drop 12)) in E. by destruct (scheme c), (scheme c').
Qed.

Lemma split_on_free sep t : Forall (fun w => sep ∉ w) (split_on sep t).
Proof.
  induction t as [|c t IH]; cbn; [repeat constructor; apply not_elem_of_nil|].
  destruct (Z.eqb_spec c sep) as [->|Hc]; [constructor; [apply not_elem_of_nil|done]|].
  destruct (split_on sep t) as [|w ws]; [constructor; [|constructor]; intros [->|?%not_elem_of_nil]%elem_of_cons; done|].
  apply Forall_cons in IH as [Hw Hws]. constructor; [|done]. intros [->|?]%elem_of_cons; done.
Qed.

(** A part of a path between two slashes. *)
Definition segment_text (w : text) : Prop := w <> [] /\ 47 ∉ w.

Lemma segments_ok path : Forall segment_text (split_nonempty 47 path).
Proof.
  pose proof (split_on_free 47 path) as Hf. rewrite Forall_forall in Hf |- *. intros w Hw%list_elem_of_In.
  apply List.filter_In in Hw as [Hin%list_elem_of_In Hn]. split; [|by apply Hf]. by apply negb_true_iff, bool_decide_eq_false in Hn.
Qed.

(** What is joined of such parts starts with no slash. *)
Lemma joined_head segs : Forall segment_text segs -> segs <> [] -> exists c w, join_with 47 segs = c :: w /\ c <> 47.
Proof.
  destruct 1 as [|w segs [Hn Hs] _]; [done|]. intros _. destruct w as [|c w]; [done|].
  assert (c <> 47) by (intros ->; apply Hs; by left). destruct segs; by eexists _, _.
Qed.

Lemma trailing_plain c d : plain_posix c -> trailing d c =
  match split_nonempty 47 (cwdPath c) with
  | [] => lit "/"
  | segs => join_with 47 (drop (length segs - Nat.max 1 d) segs)
  end.
Proof.
  intros (Hk & _ & Hp). unfold trailing, formatTrailingPath. rewrite Hk. cbn [pathParts segments separator root].
  destruct (split_nonempty 47 (cwdPath c)); [by rewrite Hp|done].
Qed.

Lemma trailing_nonempty c d : plain_posix c -> trailing d c <> [].
Proof.
  intros Hc. rewrite trailing_plain by done. pose proof (segments_ok (cwdPath c)) as Hs.
  destruct (split_nonempty 47 (cwdPath c)) as [|w ws] eqn:E; [done|]. cbv beta iota zeta. set (n := (length (w :: ws) - Nat.max 1 d)%nat).
  destruct (joined_head (drop n (w :: ws))) as (x & y & -> & _); [by apply Forall_drop| |done].
  intros Hd. apply (f_equal length) in Hd. rewrite length_drop in Hd. cbn [length] in *. lia.
Qed.

(** All of its segments name a directory. *)
Lemma full_trailing c c' d : plain_posix c -> plain_posix c' ->
  (length (split_nonempty 47 (cwdPath c)) <= d)%nat -> (length (split_nonempty 47 (cwdPath c')) <= d)%nat ->
  trailing d c = trailing d c' -> cwdPath c = cwdPath c'.
Proof.
  intros Hc Hc' Hl Hl'. rewrite !trailing_plain by done. destruct Hc as (_ & _ & Hp), Hc' as (_ & _ & Hp').
  pose proof (segments_ok (cwdPath c)) as Hs. pose proof (segments_ok (cwdPath c')) as Hs'.
  destruct (split_nonempty 47 (cwdPath c)) as [|w ws] eqn:E, (split_nonempty 47 (cwdPath c')) as [|w' ws'] eqn:E'; cbv beta iota zeta; [congruence|..].
  - replace (length (w' :: ws') - Nat.max 1 d)%nat with 0%nat by (cbn [length] in *; lia).
    destruct (joined_head (w' :: ws')) as (x & y & Hj & Hx); [done..|]. cbn [drop]. rewrite Hj. change (lit "/") with ([47] : text). congruence.
  - replace (length (w :: ws) - Nat.max 1 d)%nat with 0%nat by (cbn [length] in *; lia).
    destruct (joined_head (w :: ws)) as (x & y & Hj & Hx); [done..|]. cbn [drop]. rewrite Hj. change (lit "/") with ([47] : text). congruence.
  - replace (length (w :: ws) - Nat.max 1 d)%nat with 0%nat by (cbn [length] in *; lia).
    replace (length (w' :: ws') - Nat.max 1 d)%nat with 0%nat by (cbn [length] in *; lia). cbn [drop]. intros Hj. by rewrite Hp, Hp', Hj.
Qed.

(** ** Labels at one depth *)

(** A label per directory, the same for the same identity. *)
Definition labelled (m : Labels) (f : Cwd -> text) (cwds : list Cwd) : Prop := forall c, c ∈ cwds -> map_get (cwdIdentity c) m = Some (f c).

Lemma set_labels f cwds m : (forall c c', c ∈ cwds -> c' ∈ cwds -> cwdIdentity c = cwdIdentity c' -> f c = f c') ->
  labelled (fold_left (fun m c => map_set (cwdIdentity c) (f c) m) cwds m) f cwds.
Proof.
  intros Hf. assert (H : forall l m, (forall c, c ∈ l -> c ∈ cwds) -> forall c, c ∈ cwds -> c ∈ l \/ map_get (cwdIdentity c) m = Some (f c) ->
      map_get (cwdIdentity c) (fold_left (fun m c => map_set (cwdIdentity c) (f c) m) l m) = Some (f c)).
  { clear m. induction l as [|x l IH]; intros m Hl c Hc Hor; cbn [fold_left]; [by destruct Hor as [?%not_elem_of_nil|?]|].
    apply IH; [intros; apply Hl; by right|done|]. rewrite map_get_set. case_bool_decide as E.
    - right. f_equal. apply Hf; [apply Hl; by left|done|done].
    - destruct Hor as [[->|?]%elem_of_cons|?]; [done|by left|by right]. }
  intros c Hc. by apply H; [|done|left].
Qed.

Lemma groups_from (P : Cwd -> Prop) cwds m : Forall P cwds -> Forall (fun g : text * list Cwd => Forall P g.2) (label_groups cwds m).
Proof.
  unfold label_groups. intros Hc. assert (H : forall groups : list (text * list Cwd), Forall (fun g => Forall P g.2) groups ->
    Forall (fun g : text * list Cwd => Forall P g.2) (fold_left (fun groups c =>
      match label_of m c with None => groups | Some l => map_set l (default [] (map_get l groups) ++ [c]) groups end) cwds groups)); [|by apply H].
  induction Hc as [|c cwds Hc _ IH]; intros groups Hg; [done|]. cbn [fold_left]. apply IH.
  destruct (label_of m c) as [l|]; [|done].
  assert (Hnew : Forall P (default [] (map_get l groups) ++ [c])).
  { apply Forall_app. split; [|by repeat constructor]. destruct (map_get l groups) as [g|] eqn:E; [|done].
    apply map_get_in in E. rewrite Forall_forall in Hg. by apply (Hg _ E). }
  clear - Hg Hnew. set (new := _ ++ [c]) in *. clearbody new. induction Hg as [|[k v] g Hv Hg IH]; cbn [map_set]; [by repeat constructor|].
  case_bool_decide; by constructor.
Qed.

(** Without hosts, no label takes one. *)
Lemma no_host_prefix cwds base : Forall (fun c => some_host c = None) cwds -> withRequiredHostPrefixes cwds base o = base.
Proof.
  intros Hc. unfold withRequiredHostPrefixes. pose proof (groups_from _ cwds base Hc) as Hg.
  assert (H : forall r, fold_left (fun result (g : text * list Cwd) => let '(label, group) := g in
      fold_left (fun result c => match some_host c with
        | Some h => if match includeHost o with host_always => true
            | host_auto => isRemote c || (1 <? length group)%nat && ((length (distinct (map cwdPath group)) <? length group)%nat && (1 <? length (distinct (map (fun c => default [] (host c)) group)))%nat)
            | host_never => false end then map_set (cwdIdentity c) (h ++ lit ":" ++ label) result else result
        | None => result end) group result) (label_groups cwds base) r = r); [|apply H].
  induction Hg as [|[label group] gs Hgr _ IH]; intros r; [done|]. cbn [fold_left].
  replace (fold_left _ group r) with r; [apply IH|]. cbn in Hgr. clear - Hgr.
  match goal with |- _ = fold_left ?f _ _ => set (step := f) end.
  assert (Hs : forall c r, some_host c = None -> step r c = r) by (intros c r' E; unfold step; by rewrite E).
  clearbody step. revert r. induction Hgr as [|c group Hc _ IH]; intros r; [done|]. cbn [fold_left]. rewrite Hs by done. apply IH.
Qed.

(** ** Collisions *)

Definition shares (m : Labels) (l : text) (c : Cwd) : bool := bool_decide (label_of m c = Some l).

Lemma tallies_spec m cwds (counts : list (text * nat)) : NoDup (map fst counts) ->
  let r := fold_left (fun counts c =>
      match label_of m c with None => counts | Some l => map_set l (S (default O (map_get l counts))) counts end) cwds counts in
  NoDup (map fst r) /\ forall l, default O (map_get l r) = (default O (map_get l counts) + length (List.filter (shares m l) cwds))%nat.
Proof.
  revert counts. induction cwds as [|c cwds IH]; intros counts Hn; cbn [fold_left List.filter length]; [split; [done|intros; lia]|].
  destruct (label_of m c) as [l0|] eqn:El.
  - destruct (IH (map_set l0 (S (default O (map_get l0 counts))) counts)) as [H1 H2]; [by apply map_set_keys|].
    split; [done|]. intros l. rewrite H2, map_get_set. unfold shares at 2. rewrite El. repeat case_bool_decide; simplify_eq; cbn; lia.
  - destruct (IH counts Hn) as [H1 H2]. split; [done|]. intros l. rewrite H2. unfold shares at 2. rewrite El. by rewrite bool_decide_false.
Qed.

Lemma two_of_filter {A} (p : A -> bool) l : (1 < length (List.filter p l))%nat ->
  exists l1 x l2 y l3, l = l1 ++ x :: l2 ++ y :: l3 /\ p x = true /\ p y = true.
Proof.
  induction l as [|a l IH]; [cbn; lia|]. cbn [List.filter]. destruct (p a) eqn:Ea.
  - cbn [length]. intros Hl. destruct (List.filter p l) as [|y f] eqn:Ef; [cbn in Hl; lia|].
    assert (Hy : y ∈ List.filter p l) by (rewrite Ef; by left). apply list_elem_of_In, List.filter_In in Hy as [Hin Hy].
    apply list_elem_of_In, list_elem_of_split in Hin as (l2 & l3 & ->). by exists [], a, l2, y, l3.
  - intros (l1 & x & l2 & y & l3 & -> & Hx & Hy)%IH. by exists (a :: l1), x, l2, y, l3.
Qed.

(** No collision: two of the directories never share a label. *)
Lemma no_collision cwds m : NoDup (map cwdIdentity cwds) -> findLabelCollisions cwds m = [] ->
  forall c c' l, c ∈ cwds -> c' ∈ cwds -> label_of m c = Some l -> label_of m c' = Some l -> cwdIdentity c = cwdIdentity c'.
Proof.
  intros Hn. unfold findLabelCollisions. destruct (tallies_spec m cwds [] (NoDup_nil_2)) as [_ Hc]. cbn zeta in Hc.
  set (counts := fold_left _ cwds []) in *. intros Hf%map_eq_nil c c' l Hin Hin' Hl Hl'.
  assert (Hle : (length (List.filter (shares m l) cwds) <= 1)%nat).
  { specialize (Hc l). cbn in Hc. rewrite <- Hc. destruct (map_get l counts) as [n|] eqn:E; cbn; [|lia].
    apply map_get_in, list_elem_of_In in E. destruct (Nat.ltb_spec 1 n); [|done].
    assert (Hi : In (l, n) (List.filter (fun e : text * nat => (1 <? e.2)%nat) counts)); [|by rewrite Hf in Hi].
    apply List.filter_In. split; [done|]. by apply Nat.ltb_lt. }
  assert (Hs : forall x, x ∈ cwds -> label_of m x = Some l -> x ∈ List.filter (shares m l) cwds).
  { intros x Hx E. apply list_elem_of_In, List.filter_In. split; [by apply list_elem_of_In|]. unfold shares. by rewrite bool_decide_true. }
  pose proof (Hs c Hin Hl) as H1. pose proof (Hs c' Hin' Hl') as H2.
  destruct (List.filter (shares m l) cwds) as [|x [|y f]]; [by apply not_elem_of_nil in H1| |cbn in Hle; lia].
  apply list_elem_of_singleton in H1, H2. congruence.
Qed.

(** A collision: two different directories share one. *)
Lemma a_collision cwds m l : l ∈ findLabelCollisions cwds m -> NoDup (map cwdIdentity cwds) ->
  exists c c', c ∈ cwds /\ c' ∈ cwds /\ cwdIdentity c <> cwdIdentity c' /\ label_of m c = Some l /\ label_of m c' = Some l.
Proof.
  unfold findLabelCollisions. destruct (tallies_spec m cwds [] (NoDup_nil_2)) as [Hk Hc]. cbn zeta in Hk, Hc.
  set (counts := fold_left _ cwds []) in *. intros ([l' n] & -> & Hin%list_elem_of_In)%list_elem_of_fmap Hn.
  apply List.filter_In in Hin as [Hin%list_elem_of_In Hlt%Nat.ltb_lt]. cbn in *.
  specialize (Hc l'). rewrite (map_get_entry l' n) in Hc by done. cbn in Hc. rewrite Hc in Hlt.
  destruct (two_of_filter _ _ Hlt) as (l1 & x & l2 & y & l3 & -> & Hx%bool_decide_eq_true & Hy%bool_decide_eq_true).
  exists x, y. split; [rewrite elem_of_app; right; by left|]. split; [rewrite elem_of_app, elem_of_cons, elem_of_app; do 3 right; by left|].
  split; [|done]. rewrite map_app in Hn. cbn [map] in Hn. rewrite map_app in Hn. apply NoDup_app in Hn as (_ & _ & Hn).
  apply NoDup_cons in Hn as [Hn _]. intros E. apply Hn. rewrite E, elem_of_app. right. by left.
Qed.

(** ** The labels *)

Section these.
  Context (cwds : list Cwd) (Hplain : Forall plain_posix cwds).

Let unique := uniqueByIdentity cwds.

Lemma unique_sub c : c ∈ unique -> c ∈ cwds.
Proof. apply (unique_from_spec [] cwds). Qed.

Lemma unique_all c : c ∈ cwds -> exists c', c' ∈ unique /\ cwdIdentity c' = cwdIdentity c.
Proof. intros Hc. destruct (unique_from_spec [] cwds) as (_ & _ & H). destruct (H c Hc) as [?%not_elem_of_nil|?]; done. Qed.

Lemma unique_nodup : NoDup (map cwdIdentity unique).
Proof. apply (unique_from_spec [] cwds). Qed.

Lemma is_plain c : c ∈ cwds -> plain_posix c.
Proof. intros Hc. rewrite Forall_forall in Hplain. by apply Hplain. Qed.

Lemma same_trailing d c c' : c ∈ cwds -> c' ∈ cwds -> cwdIdentity c = cwdIdentity c' -> trailing d c = trailing d c'.
Proof.
  intros Hc Hc' E. pose proof (plain_identity c c' (is_plain c Hc) (is_plain c' Hc') E) as Ep.
  rewrite !trailing_plain by (by apply is_plain). by rewrite Ep.
Qed.

Lemma labels_at_spec d : labelled (labels_at unique o d) (trailing d) unique.
Proof.
  unfold labels_at. rewrite no_host_prefix.
  - apply (set_labels (trailing d)). intros c c' Hc Hc'. apply same_trailing; by apply unique_sub.
  - rewrite Forall_forall. intros c Hc%unique_sub%is_plain. unfold some_host. destruct Hc as (_ & -> & _). done.
Qed.

Lemma label_of_at d c m : labelled m (trailing d) unique -> c ∈ unique -> label_of m c = Some (trailing d c).
Proof.
  intros Hm Hc. unfold label_of. rewrite (Hm c Hc). cbn. rewrite bool_decide_false; [done|].
  by apply trailing_nonempty, is_plain, unique_sub.
Qed.

(** Two directories share the label of a depth. *)
Definition shared_at (d : nat) : Prop :=
  exists c c', c ∈ cwds /\ c' ∈ cwds /\ cwdIdentity c <> cwdIdentity c' /\ trailing d c = trailing d c'.

Lemma find_depth_spec depth todo m0 : (1 <= depth)%nat ->
  match find_depth unique o depth todo m0 with
  | (m, true) => exists d, (depth <= d < depth + todo)%nat /\ m = labels_at unique o d /\ findLabelCollisions unique m = [] /\
      forall d', (depth <= d' < d)%nat -> shared_at d'
  | (m, false) => (todo = 0%nat /\ m = m0) \/ (m = labels_at unique o (depth + todo - 1) /\ forall d', (depth <= d' < depth + todo)%nat -> shared_at d')
  end.
Proof.
  revert depth m0. induction todo as [|todo IH]; intros depth m0 Hd; cbn [find_depth]; [by left|].
  destruct (findLabelCollisions unique (labels_at unique o depth)) as [|l ls] eqn:E.
  - exists depth. split; [lia|]. split; [done|]. split; [done|]. intros; lia.
  - assert (Hs : shared_at depth).
    { destruct (a_collision unique (labels_at unique o depth) l) as (c & c' & Hc & Hc' & Hne & Hl & Hl'); [rewrite E; by left|apply unique_nodup|].
      exists c, c'. rewrite (label_of_at depth) in Hl, Hl' by (done || apply labels_at_spec).
      split; [by apply unique_sub|]. split; [by apply unique_sub|]. split; [done|congruence]. }
    specialize (IH (S depth) (labels_at unique o depth) ltac:(lia)).
    destruct (find_depth unique o (S depth) todo (labels_at unique o depth)) as [m [|]].
    + destruct IH as (d & Hr & Hm & Hc & Hall). exists d. split; [lia|]. do 2 (split; [done|]). intros d' Hd'.
      destruct (decide (d' = depth)) as [->|]; [done|]. apply Hall. lia.
    + right. destruct IH as [[-> ->]|[-> Hall]].
      * split; [by replace (depth + 1 - 1)%nat with depth by lia|]. intros d' Hd'. by replace d' with depth by lia.
      * split; [f_equal; lia|]. intros d' Hd'. destruct (decide (d' = depth)) as [->|]; [done|]. apply Hall. lia.
Qed.

Lemma maxDepth_bound c : c ∈ unique -> (length (split_nonempty 47 (cwdPath c)) <= maxDepth unique)%nat.
Proof.
  intros Hc. pose proof (is_plain c (unique_sub c Hc)) as (Hk & _ & _).
  assert (E : length (split_nonempty 47 (cwdPath c)) = length (segments (pathParts (cwdPath c) (pathKind c)))) by (by rewrite Hk).
  rewrite E. clear E Hk. unfold maxDepth. induction unique as [|x l IH]; [by apply not_elem_of_nil in Hc|]. cbn [map fold_right].
  apply elem_of_cons in Hc as [->|Hc]; [lia|]. specialize (IH Hc). lia.
Qed.

Lemma kept_labels d m (remaining : list text) : labelled m (trailing d) unique ->
  labelled (fold_left (fun m c =>
      let label := default (cwdDisplay c o) (map_get (cwdIdentity c) m) in
      let needsHost := match includeHost o with host_always => true | host_auto => isRemote c || bool_decide (label ∈ remaining) | host_never => false end in
      map_set (cwdIdentity c) (with_host needsHost c label) m) unique m) (trailing d) unique.
Proof.
  assert (H : forall l m, (forall c, c ∈ l -> c ∈ unique) -> labelled m (trailing d) unique -> labelled (fold_left (fun m c =>
      let label := default (cwdDisplay c o) (map_get (cwdIdentity c) m) in
      let needsHost := match includeHost o with host_always => true | host_auto => isRemote c || bool_decide (label ∈ remaining) | host_never => false end in
      map_set (cwdIdentity c) (with_host needsHost c label) m) l m) (trailing d) unique); [|by apply H].
  clear m. induction l as [|c l IH]; intros m Hl Hm; [done|]. cbn [fold_left]. apply IH; [intros; apply Hl; by right|].
  assert (Hc : c ∈ unique) by (apply Hl; by left). intros x Hx. rewrite map_get_set. case_bool_decide as E; [|by apply Hm].
  rewrite (Hm c Hc). unfold with_host, some_host. destruct (is_plain c (unique_sub c Hc)) as (_ & -> & _). cbn. f_equal.
  apply same_trailing; [by apply unique_sub..|done].
Qed.

(** The labels are the trailing paths of one depth, the first at which no two
    directories share one, or a depth at which a label is the whole path. *)
Lemma labels_depth : exists d, (1 <= d)%nat /\
  labelled (shortestUniqueCwdLabels cwds o) (trailing d) cwds /\
  (forall c c', c ∈ cwds -> c' ∈ cwds -> trailing d c = trailing d c' -> cwdPath c = cwdPath c') /\
  (forall d', (1 <= d' < d)%nat -> shared_at d').
Proof.
  assert (Hup : forall m d, labelled m (trailing d) unique -> labelled m (trailing d) cwds).
  { intros m d Hm c Hc. destruct (unique_all c Hc) as (c' & Hc' & E). rewrite <- E, (Hm c' Hc'). f_equal.
    apply same_trailing; [by apply unique_sub|done|done]. }
  unfold shortestUniqueCwdLabels. fold unique. destruct (decide (unique = [])) as [Eu|Eu].
  { exists 1%nat. split; [lia|]. rewrite Eu. assert (Hno : forall c, c ∉ cwds).
    { intros c Hc. destruct (unique_all c Hc) as (c' & Hc' & _). rewrite Eu in Hc'. by apply not_elem_of_nil in Hc'. }
    split; [intros c Hc; by apply Hno in Hc|]. split; [intros c c' Hc; by apply Hno in Hc|lia]. }
  assert (Hif : forall A (x y : A), match unique with [] => x | _ :: _ => y end = y) by (intros; by destruct unique).
  rewrite Hif. clear Hif Eu.
  pose proof (find_depth_spec 1 (maxDepth unique) [] ltac:(lia)) as Hf.
  assert (Hmax : (1 <= maxDepth unique)%nat).
  { unfold maxDepth. generalize (map (fun c => length (segments (pathParts (cwdPath c) (pathKind c)))) unique). induction l; cbn; lia. }
  destruct (find_depth unique o 1 (maxDepth unique) []) as [m [|]].
  - destruct Hf as (d & Hr & -> & Hc & Hall). exists d. split; [lia|]. split; [apply Hup, labels_at_spec|]. split; [|done].
    intros c c' Hc1 Hc2 Et. destruct (unique_all c Hc1) as (x & Hx & Ex), (unique_all c' Hc2) as (y & Hy & Ey).
    apply plain_identity; [by apply is_plain..|]. rewrite <- Ex, <- Ey.
    apply (no_collision unique (labels_at unique o d) unique_nodup Hc x y (trailing d c)); [done|done| |].
    + rewrite (label_of_at d) by (done || apply labels_at_spec). f_equal. apply same_trailing; [by apply unique_sub|done|done].
    + rewrite (label_of_at d) by (done || apply labels_at_spec). rewrite Et. f_equal. apply same_trailing; [by apply unique_sub|done|done].
  - destruct Hf as [[Hz _]|[-> Hall]]; [lia|]. replace (1 + maxDepth unique - 1)%nat with (maxDepth unique) in * by lia.
    exists (maxDepth unique). split; [done|]. split; [apply Hup, kept_labels, labels_at_spec|]. split; [|intros d' ?; apply Hall; lia].
    assert (Hlen : forall c, c ∈ cwds -> (length (split_nonempty 47 (cwdPath c)) <= maxDepth unique)%nat).
    { intros c Hc. destruct (unique_all c Hc) as (x & Hx & Ex).
      rewrite <- (plain_identity x c (is_plain x (unique_sub x Hx)) (is_plain c Hc) Ex). by apply maxDepth_bound. }
    intros c c' Hc Hc'. apply full_trailing; by auto using is_plain.
Qed.

End these.

End told_apart.

(** ** What is shown *)

(** Directories of this machine are told apart by the shortest trailing paths
    that can: every one is labelled, two have one label only where their paths
    are equal, and at every lesser depth some two would have shared a label. *)
Theorem labels_tell_apart {U : UrlHost} o cwds : Forall plain_posix cwds ->
  exists d, (1 <= d)%nat /\
    (forall c, c ∈ cwds -> map_get (cwdIdentity c) (shortestUniqueCwdLabels cwds o) = Some (trailing d c)) /\
    (forall c c', c ∈ cwds -> c' ∈ cwds -> trailing d c = trailing d c' -> cwdPath c = cwdPath c') /\
    (forall d', (1 <= d' < d)%nat -> exists c c', c ∈ cwds /\ c' ∈ cwds /\ cwdIdentity c <> cwdIdentity c' /\ trailing d' c = trailing d' c').
Proof. intros Hp. apply (labels_depth o cwds Hp). Qed.

Lemma two_in_list {A} (x y : A) l : x ∈ l -> y ∈ l -> x <> y -> (1 < length l)%nat.
Proof.
  intros Hx Hy Hne. destruct l as [|a [|b l]]; [by apply not_elem_of_nil in Hx| |cbn; lia].
  apply list_elem_of_singleton in Hx, Hy. congruence.
Qed.

(** Panes that show the same primary label in different directories show them
    apart in their second lines. *)
Theorem headers_told_apart {U : UrlHost} app o visible p q c c' :
  p ∈ visible -> q ∈ visible -> (headerPrimary app p).1 = (headerPrimary app q).1 ->
  effectiveCwd p = Some c -> effectiveCwd q = Some c' -> cwdPath c <> cwdPath c' ->
  (forall r d, r ∈ visible -> effectiveCwd r = Some d -> plain_posix d) ->
  exists s s', secondary (deriveHeader app p visible o) = Some s /\ secondary (deriveHeader app q visible o) = Some s' /\ s <> s'.
Proof.
  intros Hp Hq Heq Hc Hc' Hne Hplain. unfold deriveHeader. cbn [secondary]. rewrite <- Heq, Hc, Hc'.
  set (same := List.filter _ visible).
  assert (Hin : forall r, r ∈ visible -> (headerPrimary app r).1 = (headerPrimary app p).1 -> r ∈ same).
  { intros r Hr E. apply list_elem_of_In, List.filter_In. split; [by apply list_elem_of_In|]. by apply bool_decide_eq_true. }
  assert (Hlen : (1 < length same)%nat) by (apply (two_in_list p q); [by apply Hin..|congruence]).
  apply Nat.ltb_lt in Hlen. rewrite Hlen.
  assert (Hf : Forall plain_posix (omap effectiveCwd same)).
  { rewrite Forall_forall. intros d (r & Hr & Hd)%list_elem_of_omap. apply (Hplain r d); [|done].
    apply list_elem_of_In, List.filter_In in Hr as [Hr _]. by apply list_elem_of_In. }
  destruct (labels_depth o _ Hf) as (d & _ & Hl & Hd & _).
  assert (Hcp : c ∈ omap effectiveCwd same) by (apply list_elem_of_omap; exists p; auto).
  assert (Hcq : c' ∈ omap effectiveCwd same) by (apply list_elem_of_omap; exists q; auto).
  rewrite (Hl c Hcp), (Hl c' Hcq). eexists _, _. split; [done|]. split; [done|]. cbn. intros E. by apply Hne, Hd.
Qed.

(** ** Groups *)

Definition grouped (groups : list (text * Group)) : list Pane := concat (map (fun g => g_panes g.2) groups).

Lemma map_set_grouped key p (groups : list (text * Group)) :
  let g := match map_get key groups with Some g => mkGroup (g_label g) (g_panes g ++ [p]) | None => mkGroup key [p] end in
  forall label, let groups' := match map_get key groups with
    | Some g => map_set key (mkGroup (g_label g) (g_panes g ++ [p])) groups
    | None => map_set key (mkGroup label [p]) groups end in
  grouped groups' ≡ₚ grouped groups ++ [p].
Proof.
  cbn zeta. intros label. unfold map_get. induction groups as [|[k g] groups IH]; [done|]. cbn [List.find fst].
  destruct (bool_decide (k = key)) eqn:E; cbn [option_map map_set].
  - cbn [snd]. rewrite E. unfold grouped. cbn. rewrite <- !app_assoc. f_equiv. apply Permutation_app_comm.
  - destruct (option_map snd (List.find _ groups)) as [g'|]; cbn [map_set]; rewrite E; unfold grouped in *; cbn [map concat];
      rewrite IH; by rewrite app_assoc.
Qed.

Lemma groupBy_spec panes f : grouped (groupBy panes f) ≡ₚ panes /\ NoDup (map fst (groupBy panes f)) /\
  Forall (fun g => g_panes g.2 <> []) (groupBy panes f) /\
  forall k g p, (k, g) ∈ groupBy panes f -> p ∈ g_panes g -> (f p).1 = k.
Proof.
  unfold groupBy. assert (H : forall groups : list (text * Group), NoDup (map fst groups) -> Forall (fun g => g_panes g.2 <> []) groups ->
    (forall k g p, (k, g) ∈ groups -> p ∈ g_panes g -> (f p).1 = k) ->
    let r := fold_left (fun groups p => let '(key, label) := f p in
      match map_get key groups with
      | Some g => map_set key (mkGroup (g_label g) (g_panes g ++ [p])) groups
      | None => map_set key (mkGroup label [p]) groups end) panes groups in
    grouped r ≡ₚ grouped groups ++ panes /\ NoDup (map fst r) /\ Forall (fun g => g_panes g.2 <> []) r /\
    forall k g p, (k, g) ∈ r -> p ∈ g_panes g -> (f p).1 = k).
  2:{ apply (H []); [constructor|done|by intros ? ? ? ?%not_elem_of_nil]. }
  induction panes as [|p panes IH]; intros groups Hn Hne Hk; cbn [fold_left]; [by rewrite app_nil_r|].
  destruct (f p) as [key label] eqn:Ef. pose proof (map_set_grouped key p groups label) as Hg. cbn zeta in Hg.
  set (groups' := match map_get key groups with Some _ => _ | None => _ end) in *.
  assert (Hs : exists g', groups' = map_set key g' groups /\ g_panes g' <> [] /\ forall x, x ∈ g_panes g' -> (f x).1 = key).
  { unfold groups'. destruct (map_get key groups) as [g|] eqn:E; eexists; (split; [done|]); cbn [g_panes].
    - split; [by destruct (g_panes g)|]. intros x [Hx| ->%list_elem_of_singleton]%elem_of_app; [|by rewrite Ef].
      apply map_get_in in E. by apply (Hk key g).
    - split; [done|]. intros x ->%list_elem_of_singleton. by rewrite Ef. }
  destruct Hs as (g' & Eg & Hne' & Hk'). destruct (map_set_keys key g' groups Hn) as [Hn' _]. rewrite <- Eg in Hn'.
  assert (Hsub : forall e, e ∈ groups' -> e = (key, g') \/ e ∈ groups).
  { rewrite Eg. clear. induction groups as [|[k0 g0] groups IH]; cbn [map_set]; intros e.
    - intros ->%list_elem_of_singleton. by left.
    - case_bool_decide; intros [->|He]%elem_of_cons; rewrite elem_of_cons; auto. destruct (IH e He); auto. }
  destruct (IH groups') as (H1 & H2 & H3 & H4); [done| | |].
  - rewrite Forall_forall in Hne |- *. intros e [->|He]%Hsub; [done|by apply Hne].
  - intros k g x [[= -> ->]|He]%Hsub Hx; [by apply Hk'|by apply (Hk k g)].
  - split; [|done]. rewrite H1, Hg. by rewrite <- app_assoc.
Qed.

(** However panes are grouped, each is in one group, no group is empty and no
    two have one key. *)
Theorem groups_partition {U : UrlHost} panes mode o : panes <> [] ->
  grouped (groupTerminalPanes panes mode o) ≡ₚ panes /\ NoDup (map fst (groupTerminalPanes panes mode o)) /\
  Forall (fun g => g_panes g.2 <> []) (groupTerminalPanes panes mode o).
Proof.
  intros Hp. destruct mode; cbn [groupTerminalPanes].
  2-4: match goal with |- context [groupBy ?ps ?f] => by destruct (groupBy_spec ps f) as (? & ? & ? & _) end.
  unfold grouped. cbn. rewrite app_nil_r. split; [done|]. split; [apply NoDup_singleton|by repeat constructor].
Qed.

(** ** Instances *)

Section samples.
#[local] Instance sample_host : UrlHost := { URL := fun _ => None; toLowerCase := map ascii_lower }.

Definition at_path (path : string) : Cwd := mkCwdText None (lit path) None false posix false cwd_osc633 0.
Definition pane_at (path : string) : Pane := mkPane (Some (at_path path)) prompt None None None [].
Definition sample_panes : list Pane := [pane_at "/work/a/web"; pane_at "/work/b/web"; pane_at "/srv"]%string.

Lemma sample_plain r d : r ∈ sample_panes -> effectiveCwd r = Some d -> plain_posix d.
Proof. unfold sample_panes. rewrite !elem_of_cons, elem_of_nil. intros [->|[->|[->|[]]]] [= <-]; by vm_compute. Qed.

Lemma labels_tell_apart_witness :
  let cwds := map at_path ["/work/a/web"; "/work/b/web"; "/srv"]%string in
  map snd (shortestUniqueCwdLabels cwds default_display) = [lit "a/web"; lit "b/web"; lit "srv"] /\
  exists d, (1 <= d)%nat /\ forall c, c ∈ cwds -> map_get (cwdIdentity c) (shortestUniqueCwdLabels cwds default_display) = Some (trailing d c).
Proof.
  intros cwds. split; [by vm_compute|]. destruct (labels_tell_apart default_display cwds) as (d & Hd & Hl & _); [|by exists d].
  repeat constructor.
Defined.

Lemma headers_told_apart_witness :
  exists s s', secondary (deriveHeader (fun _ => None) (pane_at "/work/a/web") sample_panes default_display) = Some s /\
    secondary (deriveHeader (fun _ => None) (pane_at "/work/b/web") sample_panes default_display) = Some s' /\ s <> s'.
Proof.
  apply (headers_told_apart (fun _ => None) default_display sample_panes (pane_at "/work/a/web") (pane_at "/work/b/web")
    (at_path "/work/a/web") (at_path "/work/b/web")).
  - by left.
  - by right; left.
  - done.
  - done.
  - done.
  - by vm_compute.
  - exact sample_plain.
Defined.

Lemma groups_partition_witness :
  grouped (groupTerminalPanes sample_panes group_directory default_display) ≡ₚ sample_panes.
Proof. by apply (groups_partition sample_panes group_directory default_display). Defined.

End samples.
