(* ===== verification/ShellQuote.v ===== *)
(** * Quoting for a shell (dor/src/commands/shell-quote.ts, lib/src/lib/shell-escape.ts)

    How an argument vector becomes one command line for a POSIX shell, for cmd
    and for PowerShell, and how a pasted path is escaped. *)
From Stdlib Require Import ZArith Lia.
From S2P Require Import Prelude TermText TermDecode TermCwd ShellWords.
#[local] Open Scope Z_scope.
#[local] Open Scope list_scope.

Inductive ShellCommandKind := cmd | posix_shell | powershell.

(** The Unicode classes of [FORMAT_CHARACTERS] and the platform's lower case. *)
Class UnicodeHost := {
  format_point : text -> bool;   (** [\p{Cf}] or [\p{Default_Ignorable_Code_Point}], of one code point *)
  lower : text -> text           (** [toLowerCase] *)
}.

Definition hasShellInputControls (value : text) : bool := existsb is_control value.

(** The separators [FORMAT_CHARACTERS] lists by number. *)
Definition format_separator (c : Z) : bool :=
  (c =? 160) || (c =? 5760) || (8192 <=? c) && (c <=? 8202) || (c =? 8232) || (c =? 8233) || (c =? 8239) || (c =? 8287) || (c =? 12288).

Definition hasControlOrFormatCharacters `{UnicodeHost} (value : text) : bool :=
  existsb (fun p => match p with [c] => is_control c || format_separator c | _ => false end || format_point p) (points value).

Definition alphanumeric_unit (c : Z) : bool := is_letter c || is_digit_unit c.

(** The character classes of [POSIX_SAFE_ARG] and [WINDOWS_SAFE_ARG]. *)
Definition posix_first (c : Z) : bool := alphanumeric_unit c || bool_decide (c ∈ lit "_@%+:,./-").
Definition posix_rest (c : Z) : bool := posix_first c || (c =? 61).
Definition windows_safe (c : Z) : bool := alphanumeric_unit c || bool_decide (c ∈ lit "_+=:./\-").

Definition POSIX_SAFE_ARG (arg : text) : bool :=
  match arg with c :: rest => posix_first c && forallb posix_rest rest | [] => false end.
Definition WINDOWS_SAFE_ARG (arg : text) : bool := negb (bool_decide (arg = [])) && forallb windows_safe arg.

(** [value.replace(/\\/g, '/').split('/').pop()]. *)
Definition shell_name (value : text) : text :=
  default [] (last (split_on 47 (map (fun c => if c =? 92 then 47 else c) value))).

(** [/win/i.test(s)]. *)
Fixpoint mentions_win (t : text) : bool :=
  match t with
  | [] => false
  | _ :: t' => bool_decide (map (fun c => if (65 <=? c) && (c <=? 90) then c + 32 else c) (take 3 t) = lit "win") || mentions_win t'
  end.

Definition shellCommandKind `{UnicodeHost} (shell : option text) (platformString : text) : ShellCommandKind :=
  let normalizedShell := lower (shell_name (default [] shell)) in
  if bool_decide (normalizedShell = []) && mentions_win platformString then cmd
  else if bool_decide (normalizedShell ∈ [lit "cmd.exe"; lit "cmd"]) then cmd
  else if bool_decide (normalizedShell ∈ [lit "powershell.exe"; lit "powershell"; lit "pwsh.exe"; lit "pwsh"]) then powershell
  else posix_shell.

(** ** POSIX *)

(** [arg.replace(/['\\]/g, (c) => `'\\${c}'`)]. *)
Fixpoint step_outside (arg : text) : text :=
  match arg with
  | [] => []
  | c :: arg => (if (c =? 39) || (c =? 92) then [39; 92; c; 39] else [c]) ++ step_outside arg
  end.

Definition quotePosixArg (arg : text) : text :=
  if bool_decide (arg = []) then lit "''"
  else if POSIX_SAFE_ARG arg then arg
  else [39] ++ step_outside arg ++ [39].

(** [input.replace(POSIX_UNSAFE, '\\$1')]. *)
Fixpoint backslash_escape (input : text) : text :=
  match input with
  | [] => []
  | c :: input => (if POSIX_ESCAPABLE c then [92; c] else [c]) ++ backslash_escape input
  end.

Definition shellEscapePosix (input : text) : text :=
  if bool_decide (input = []) then lit "''"
  else if existsb (fun c => (c =? 10) || (c =? 13)) input then quotePosixArg input
  else backslash_escape input.

(** ** Windows *)

(** [quoteMsvcrtArg] between its quotes; [n] backslashes were read and not yet written. *)
Fixpoint msvcrt_body (n : nat) (arg : text) : text :=
  match arg with
  | [] => replicate (n + n) 92
  | c :: arg =>
      if c =? 92 then msvcrt_body (S n) arg
      else if c =? 34 then replicate (n + n) 92 ++ [92; 34] ++ msvcrt_body 0 arg
      else replicate n 92 ++ [c] ++ msvcrt_body 0 arg
  end.

Definition quoteMsvcrtArg (arg : text) : text := [34] ++ msvcrt_body 0 arg ++ [34].

(** [POWERSHELL_SINGLE_QUOTES]. *)
Definition powershell_quote (c : Z) : bool := (c =? 39) || (8216 <=? c) && (c <=? 8219).

Fixpoint double_quotes (arg : text) : text :=
  match arg with
  | [] => []
  | c :: arg => (if powershell_quote c then [c; c] else [c]) ++ double_quotes arg
  end.

Definition quotePowerShellArg (arg : text) : text :=
  if bool_decide (arg = []) then lit "''"
  else if WINDOWS_SAFE_ARG arg then arg
  else [39] ++ double_quotes arg ++ [39].

Definition legacyBinderLoses (arg : text) : bool :=
  bool_decide (arg = []) || existsb (fun c => (c =? 34) || bool_decide (c ∈ lit "&|<>^")) arg ||
  existsb (fun c => js_ws c || (c =? 133)) arg && ends_in 92 arg.

Definition LEGACY_PREFIX : text := lit "& { $PSNativeCommandArgumentPassing = 'Legacy'; ".

Definition quotePowerShellCommand (args : list text) : text :=
  match args with
  | [] => []
  | command :: rest =>
      let quotedCommand := quotePowerShellArg command in
      let commandPrefix := if starts_with [39] quotedCommand then lit "& " else [] in
      let legacy := existsb legacyBinderLoses rest in
      let quotedRest := map (fun arg => quotePowerShellArg (if legacy && legacyBinderLoses arg then quoteMsvcrtArg arg else arg)) rest in
      let line := commandPrefix ++ join_spaces (quotedCommand :: quotedRest) in
      if legacy then LEGACY_PREFIX ++ line ++ lit " }" else line
  end.

(** [WINDOWS_PORTABLE_UNSAFE]. *)
Fixpoint portable_unsafe (arg : text) : bool :=
  match arg with
  | [] => false
  | c :: rest =>
      (c =? 34) || (8220 <=? c) && (c <=? 8222) || bool_decide (c ∈ lit "`%!") ||
      (c =? 36) && negb (next_is 92 rest) || portable_unsafe rest
  end.

Definition quoteWindowsPortableArg (arg : text) : option text :=
  if bool_decide (arg = []) then None
  else if WINDOWS_SAFE_ARG arg then Some arg
  else if portable_unsafe arg || hasShellInputControls arg then None
  else if negb (bool_decide (32 ∈ arg)) && existsb (fun c => bool_decide (c ∈ lit "&|<>^")) arg || ends_in 92 arg then None
  else Some ([34] ++ arg ++ [34]).

Definition buildWindowsPortableCommand (args : list text) : option text :=
  match args with
  | [] => None
  | command :: rest =>
      if WINDOWS_SAFE_ARG command then
        match mapM quoteWindowsPortableArg rest with
        | Some quoted => Some (join_spaces (command :: quoted))
        | None => None
        end
      else None
  end.

Definition quoteCmdProgram (program : text) : text :=
  if bool_decide (program = []) then [34; 34]
  else if WINDOWS_SAFE_ARG program then program
  else [34] ++ program ++ [34].

(** What cmd reads outside quotes: its operators, the caret, the bang and the double quote. *)
Definition cmd_special (c : Z) : bool := (c =? 34) || bool_decide (c ∈ lit "^&|<>()!").

(** The loop of [caretEscapeCmd] runs over code points; a lone surrogate or a
    pair takes a caret only after [%], in front of the whole of it. *)
Fixpoint caret_loop (afterPercent : bool) (ps : list text) : text :=
  match ps with
  | [] => []
  | p :: ps =>
      (if afterPercent || match p with [c] => cmd_special c | _ => false end then [94] ++ p else p)
      ++ caret_loop (bool_decide (p = [37])) ps
  end.

Definition caretEscapeCmd (t : text) : text := caret_loop false (points t).

Definition quoteCmdArg (arg : text) : text :=
  if bool_decide (arg = []) then [34; 34]
  else if WINDOWS_SAFE_ARG arg then arg
  else
    let quoted := quoteMsvcrtArg arg in
    if existsb (fun c => (c =? 34) || (c =? 37)) arg then caretEscapeCmd quoted else quoted.

(** ** One command line for an argument vector *)

Definition buildShellCommandForKind (kind : ShellCommandKind) (args : list text) : text :=
  match kind with
  | cmd => match args with [] => [] | a :: rest => join_spaces (quoteCmdProgram a :: map quoteCmdArg rest) end
  | powershell => quotePowerShellCommand args
  | posix_shell => join_spaces (map quotePosixArg args)
  end.

Definition shellEscapePath (input : text) (shellKind : ShellCommandKind) : option text :=
  match shellKind with
  | posix_shell => Some (shellEscapePosix input)
  | _ => quoteWindowsPortableArg input
  end.

Example quoted_posix : buildShellCommandForKind posix_shell [lit "a\"; lit ";x;#"; lit "=sh"; lit "a=b"] = lit "'a'\\'' ';x;#' '=sh' a=b".
Proof. by vm_compute. Qed.

Example quoted_cmd : buildShellCommandForKind cmd [lit "C:\Program Files\x.exe"; lit "a b\"; lit "100%"; lit "x^"]
  = [34] ++ lit "C:\Program Files\x.exe" ++ [34; 32; 34] ++ lit "a b\\" ++ [34; 32; 94; 34] ++ lit "100%" ++ [94; 34; 32; 34] ++ lit "x^" ++ [34].
Proof. by vm_compute. Qed.
