(* ===== verification/ToolTakeover.v ===== *)
(** * The take-over gate (lib/src/components/wall/tool-takeover.ts)

    Whether a [dor tool] or [dor open] typed alone at a prompt runs in the pane
    it was typed in.  A line the gate takes for such an invocation is one
    command, whatever it holds. *)
From Stdlib Require Import ZArith Lia.
From S2P Require Import Prelude TermText TermCwd ShellWords ShellQuote WatchKey WatchKeyFacts.
#[local] Open Scope Z_scope.
#[local] Open Scope list_scope.

Inductive Verb := verb_tool | verb_open.
Definition verb_name (v : Verb) : text := match v with verb_tool => lit "tool" | verb_open => lit "open" end.

(** [canonicalDorVerb] of dor/src/protocol.ts. *)
Definition canonicalDorVerb (verb : text) : text := if bool_decide (verb = lit "o") then lit "open" else verb.

(** The characters of [COMPOUND_SYNTAX]. *)
Definition COMPOUND_SYNTAX (c : Z) : bool := bool_decide (c ∈ lit ";&|<>()`") || (c =? 10) || (c =? 13).

Inductive SurfaceKind := terminal | browser | other_surface.

Record ToolTakeoverGate := mkGate {
  verb : Verb;
  explicitSurface : bool;
  minimized : bool;
  preview : bool;
  workspaceActive : bool;
  visible : bool;
  kind : SurfaceKind;
  oscDriven : bool;
  rawCommandLine : option text;
  cwdMatches : bool;
  helperPresent : bool
}.

Section gate.
  Context {UH : UnicodeHost}.

Definition isNakedToolInvocation (raw : option text) (verb : Verb) : bool :=
  match raw with
  | None => false
  | Some raw =>
      let line := trim raw in
      if bool_decide (line = []) || existsb COMPOUND_SYNTAX line then false
      else
        let toks := primaryCommandTokens line in
        bool_decide (canonicalDorVerb (default [] (toks !! 1%nat)) = verb_name verb) &&
        bool_decide (lower (commandProgramName (default [] (head toks))) = lit "dor")
  end.

Definition callerTypedTool (g : ToolTakeoverGate) : bool := oscDriven g && isNakedToolInvocation (rawCommandLine g) (verb g).

Definition callerStillPlaceable (g : ToolTakeoverGate) : bool :=
  visible g && cwdMatches g && match kind g with terminal => true | _ => false end && negb (helperPresent g).

Definition toolTakesOverCaller (g : ToolTakeoverGate) : bool :=
  workspaceActive g && negb (explicitSurface g) && negb (minimized g) && negb (preview g) &&
  callerStillPlaceable g && callerTypedTool g.

End gate.

(** ** Units of tokens *)

Section units.
  Context (P : Z -> Prop).
  (** No unit of the line separates commands. *)
  Context (plain : forall c, P c -> c <> 10 /\ c <> 38 /\ c <> 40 /\ c <> 41 /\ c <> 59 /\ c <> 124).

Definition all_units (k : Tok) : Prop := Forall (Forall P) (tokens k) /\ Forall P (current k).

Lemma all_units_add c k : P c -> all_units k -> all_units (add c k).
Proof. intros Hc [H1 H2]. split; [done|]. apply Forall_app. by repeat constructor. Qed.

Lemma all_units_push k : all_units k -> all_units (push k).
Proof.
  intros [H1 H2]. unfold push. case_bool_decide; [done|]. split; [|done]. apply Forall_app. by repeat constructor.
Qed.

Lemma plain_turn_units before prefix c t k : P c -> all_units k -> all_units (plain_turn before prefix c t k).1.
Proof.
  intros Hc Hk. unfold plain_turn. destruct (plain c Hc) as (H1 & H2 & H3 & H4 & H5 & H6).
  apply Z.eqb_neq in H1, H2, H3, H4, H5, H6. rewrite H1, H2, H3, H4, H5, H6. cbn [andb orb].
  destruct (js_ws c); [by apply all_units_push|]. destruct (_ && _ && _); [done|]. cbn [fst].
  assert (H : forall d, all_units (add c (match d with Some doc => set_docs (hereDocuments k ++ [doc]) k | None => k end))).
  { intros d. apply all_units_add; [done|]. by destruct d. }
  destruct (_ && next_is 60 t && _ && _); [specialize (H (readHereDocumentDelimiter (tail t)))|specialize (H None)];
    by destruct (_ || (c =? 62)).
Qed.

Lemma turn_units before c t k : P c -> all_units k -> all_units (turn before c t k).1.
Proof.
  intros Hc Hk. unfold turn. assert (Hk' : all_units (set_prefix None k)) by done.
  destruct (escaping _); [by apply all_units_add|]. destruct (_ && negb _).
  - destruct t as [|n t]; [by apply all_units_add|]. destruct (n =? 10); [done|].
    destruct (POSIX_ESCAPABLE n); [done|by apply all_units_add].
  - destruct (quote _); [destruct (c =? _); [done|by apply all_units_add]|]. destruct (is_quote c); [done|].
    destruct (_ || _); [by apply all_units_add|by apply plain_turn_units].
Qed.

Lemma tok_loop_units f before t k : Forall P t -> all_units k -> all_units (tok_loop f before t k).
Proof.
  revert before t k. induction f as [|f IH]; intros before t k Ht Hk; [done|]. destruct Ht as [|c t Hc Ht]; [done|].
  cbn [tok_loop]. pose proof (turn_units before c t k Hc Hk) as Hk'. destruct (turn before c t k) as [k' n]. apply IH; [|done].
  apply Forall_drop. by constructor.
Qed.

Lemma tokenize_units t : Forall P t -> Forall (Forall P) (tokenizeCommand t).
Proof. intros Ht. apply all_units_push, tok_loop_units; [done|]. by split. Qed.

End units.

(** ** One command *)

Lemma no_separator_one_command toks : Forall (fun w => is_separator w = false) toks -> (length (listCommands toks) <= 1)%nat.
Proof.
  intros H. unfold listCommands.
  assert (Hf : forall l, fold_left list_token toks l = mkListing (commands l) (caseNext l) (segment l ++ toks)).
  { induction H as [|w ws Hw _ IH]; intros l; cbn; [rewrite app_nil_r; by destruct l|]. rewrite IH. unfold list_token. rewrite Hw.
    cbn. by rewrite <- app_assoc. }
  rewrite Hf. cbn. unfold end_segment. cbn [segment commands].
  destruct toks as [|w ws]; [cbn; lia|]. destruct (word_in w CLOSING_WORDS); [cbn; lia|].
  destruct (clause _ _ _) as [c [words|]]; cbn; [|lia]. destruct (negb _); cbn; lia.
Qed.

Lemma compound_free c : COMPOUND_SYNTAX c = false -> c <> 10 /\ c <> 38 /\ c <> 40 /\ c <> 41 /\ c <> 59 /\ c <> 124.
Proof.
  unfold COMPOUND_SYNTAX. rewrite !orb_false_iff, bool_decide_eq_false, !Z.eqb_neq. intros ((H & ?) & ?).
  repeat split; try done; intros ->; apply H; by apply (bool_decide_unpack _); vm_compute.
Qed.

Lemma compound_free_word w : Forall (fun c => COMPOUND_SYNTAX c = false) w -> is_separator w = false /\ w <> lit "|".
Proof.
  intros Hw. split; [apply bool_decide_eq_false; intros Hin|intros ->; by apply Forall_cons in Hw as [? _]].
  unfold LIST_SEPARATORS, CASE_ITEM_ENDS in Hin. cbn [app] in Hin. rewrite !elem_of_cons, elem_of_nil in Hin.
  destruct_or! Hin; subst; try done; by apply Forall_cons in Hw as [? _].
Qed.

(** A line the gate takes for a naked invocation is one command: the tokenizer
    finds no separator and no pipe in it, and the words of its command start with
    a program named [dor], whatever its path and suffix, and the verb. *)
Theorem naked_is_one_command {UH : UnicodeHost} raw v : isNakedToolInvocation (Some raw) v = true ->
  Forall (fun w => is_separator w = false /\ w <> lit "|") (tokenizeCommand (trim raw)) /\
  (length (listCommands (tokenizeCommand (trim raw))) <= 1)%nat /\
  exists launcher typed rest, primaryCommandTokens raw = launcher :: typed :: rest /\
    lower (commandProgramName launcher) = lit "dor" /\ canonicalDorVerb typed = verb_name v.
Proof.
  unfold isNakedToolInvocation, primaryCommandTokens. rewrite trim_idem.
  destruct (bool_decide _ || existsb _ _) eqn:Hg; [done|]. apply orb_false_iff in Hg as [_ Hc].
  intros [Hv%bool_decide_eq_true Hl%bool_decide_eq_true]%andb_true_iff.
  assert (Hu : Forall (fun c => COMPOUND_SYNTAX c = false) (trim raw)).
  { rewrite Forall_forall. intros c Hin%list_elem_of_In. apply not_true_iff_false. intros E.
    apply not_true_iff_false in Hc. apply Hc, existsb_exists. by exists c. }
  assert (Hw : Forall (fun w => is_separator w = false /\ w <> lit "|") (tokenizeCommand (trim raw))).
  { eapply Forall_impl; [apply (tokenize_units _ compound_free _ Hu)|]. apply compound_free_word. }
  split; [done|]. split; [apply no_separator_one_command; eapply Forall_impl; [exact Hw|]; by intros w []|].
  destruct (takePrimaryCommandTokens _) as [|launcher [|typed rest]]; [by destruct v|by destruct v|]. by exists launcher, typed, rest.
Qed.

(** A launcher by its Windows path, and a line of two commands. *)
Lemma naked_is_one_command_witness :
  let ascii := {| format_point := fun _ => false; lower := map ascii_lower |} in
  isNakedToolInvocation (Some (lit "C:\tools\Dor.CMD o notes.md")) verb_open = true /\
  isNakedToolInvocation (Some (lit "dor tool x; rm y")) verb_tool = false /\
  (length (listCommands (tokenizeCommand (trim (lit "C:\tools\Dor.CMD o notes.md")))) <= 1)%nat.
Proof.
  intros ascii. split; [by vm_compute|]. split; [by vm_compute|].
  apply (@naked_is_one_command ascii (lit "C:\tools\Dor.CMD o notes.md") verb_open). by vm_compute.
Defined.
