(* ===== verification/ShellRoundTrip.v ===== *)
(** * POSIX quoting read back

    The loop of the tokenizer ends for every input; what it makes of each kind
    of character; and the command lines and pasted paths the quoting writes are
    read back as the words they were made of. *)
From Stdlib Require Import ZArith Lia.
From S2P Require Import Prelude TermText TermDecode TermCwd ShellWords ShellQuote.
#[local] Open Scope Z_scope.
#[local] Open Scope list_scope.
#[local] Set Warnings "-clear-no-such-hyp".

(** Membership in a literal, unit by unit. *)
Ltac lit_units :=
  repeat match goal with
    | H : context [lit ?s] |- _ => let l := eval vm_compute in (lit s) in change (lit s) with l in H
    | |- context [lit ?s] => let l := eval vm_compute in (lit s) in change (lit s) with l
    end;
  rewrite ?elem_of_cons, ?elem_of_nil in *.

(** ** The loop *)

Lemma index_beyond p c t n : index_where p (c :: t) = Some n -> p c = false -> (1 <= n)%nat.
Proof. unfold index_where. cbn. intros H Hc. rewrite Hc in H. destruct (find_index p t); simplify_eq/=; lia. Qed.

(** A turn consumes a unit at least, so [length] turns are enough. *)
Lemma turn_consumes b c t k : (1 <= (turn b c t k).2)%nat.
Proof.
  unfold turn, plain_turn.
  repeat first [lia | progress cbn [snd length take] | case_match]; simplify_eq; try lia; try (vm_compute; lia).
  all: eapply index_beyond; [done|]; apply Z.eqb_neq; rewrite -> Z.eqb_neq in *; congruence.
Qed.

Lemma tok_loop_fuel f b t k : (length t <= f)%nat -> tok_loop f b t k = tok_loop (length t) b t k.
Proof.
  revert b t k. induction f as [f IH] using lt_wf_ind. intros b t k Hf.
  destruct t as [|c t]; [by destruct f|]. destruct f as [|f]; [cbn in Hf; lia|].
  cbn [length tok_loop] in *. pose proof (turn_consumes b c t k) as Hn.
  destruct (turn b c t k) as [k' n]; cbn [snd] in Hn.
  assert (Hd : (length (drop n (c :: t)) <= length t)%nat) by (rewrite length_drop; cbn [length]; lia).
  rewrite (IH f) by lia. symmetry. destruct (decide (length t < S f)%nat); [|lia].
  apply (IH (length t)); lia.
Qed.

(** The tokenizer on what is left of its input. *)
Definition run (b : option Z) (t : text) (k : Tok) : Tok := tok_loop (length t) b t k.

Lemma run_turn b c t k k' n :
  turn b c t k = (k', n) -> run b (c :: t) k = run (last (take n (c :: t))) (drop n (c :: t)) k'.
Proof.
  intros E. unfold run at 1. cbn [length tok_loop]. rewrite E.
  pose proof (turn_consumes b c t k) as Hn. rewrite E in Hn; cbn [snd] in Hn.
  apply tok_loop_fuel. rewrite length_drop; cbn [length]; lia.
Qed.

(** [t], whatever stands before and after it, takes the tokenizer from [k] to [k']. *)
Definition reads (k : Tok) (t : text) (k' : Tok) : Prop :=
  forall b rest, exists b', run b (t ++ rest) k = run b' rest k'.

Lemma reads_nil k : reads k [] k.
Proof. intros b rest. by exists b. Qed.

Lemma reads_app k t1 k1 t2 k2 : reads k t1 k1 -> reads k1 t2 k2 -> reads k (t1 ++ t2) k2.
Proof.
  intros H1 H2 b rest. rewrite <- app_assoc. destruct (H1 b (t2 ++ rest)) as [b1 ->]. apply H2.
Qed.

Lemma reads_unit k c k' : (forall b t, turn b c t k = (k', 1%nat)) -> reads k [c] k'.
Proof. intros H b rest. exists (Some c). cbn [app]. by rewrite (run_turn _ _ _ _ _ _ (H b rest)). Qed.

Lemma run_reads k t k' b : reads k t k' -> run b t k = k'.
Proof. intros H. destruct (H b []) as [b' E]. rewrite app_nil_r in E. by rewrite E. Qed.

(** ** Words *)

(** In a word, between quotes or not. *)
Abbreviation at_word toks w q e := (mkTok toks w q e 0 None []).

(** Neither white space nor anything a shell reads. *)
Definition inert (c : Z) : Prop := POSIX_ESCAPABLE c = false /\ js_ws c = false.

Lemma escapable_meaning c : POSIX_ESCAPABLE c = false ->
  c <> 34 /\ c <> 35 /\ c <> 36 /\ c <> 38 /\ c <> 39 /\ c <> 40 /\ c <> 41 /\ c <> 59 /\ c <> 60 /\ c <> 62 /\ c <> 92 /\ c <> 124.
Proof.
  unfold POSIX_ESCAPABLE. rewrite bool_decide_eq_false. intros H.
  repeat split; intros ->; apply H; set_solver.
Qed.

Ltac off := repeat match goal with |- context [?a =? ?b] => replace (a =? b) with false by (symmetry; apply Z.eqb_neq; congruence || lia) end.

Lemma reads_inert toks w c : inert c -> reads (at_word toks w None false) [c] (at_word toks (w ++ [c]) None false).
Proof.
  intros [He Hw]. apply reads_unit. intros b t. apply escapable_meaning in He.
  assert (c <> 10) by (intros ->; done).
  unfold turn, plain_turn, is_quote; cbn. rewrite Hw. off. reflexivity.
Qed.

Lemma reads_space toks w : reads (at_word toks w None false) [32] (push (at_word toks w None false)).
Proof. apply reads_unit. intros b t. done. Qed.

(** A backslash and what it escapes. *)
Lemma reads_escaped toks w c : POSIX_ESCAPABLE c = true ->
  reads (at_word toks w None false) [92; c] (at_word toks (w ++ [c]) None false).
Proof.
  intros He b rest. exists (Some c). cbn [app].
  rewrite (run_turn _ _ _ _ (at_word toks w None true) 1).
  2:{ unfold turn; cbn. case_eq (c =? 10); [intros ->%Z.eqb_eq; done|]. by rewrite He. }
  cbn [take drop]. by rewrite (run_turn _ _ _ _ (at_word toks (w ++ [c]) None false) 1).
Qed.

Lemma reads_open toks w : reads (at_word toks w None false) [39] (at_word toks w (Some 39) false).
Proof. by apply reads_unit. Qed.

Lemma reads_close toks w : reads (at_word toks w (Some 39) false) [39] (at_word toks w None false).
Proof. by apply reads_unit. Qed.

Lemma reads_literal toks w c : c <> 39 -> reads (at_word toks w (Some 39) false) [c] (at_word toks (w ++ [c]) (Some 39) false).
Proof.
  intros Hc. apply reads_unit. intros b t. unfold turn; cbn. rewrite andb_false_r.
  by off.
Qed.

(** Reading a text one piece a unit, in a state indexed by the word so far. *)
Lemma reads_pieces (st : text -> Tok) (piece : Z -> text) (ok : Z -> Prop) :
  (forall w c, ok c -> reads (st w) (piece c) (st (w ++ [c]))) ->
  forall a w, Forall ok a -> reads (st w) (concat (map piece a)) (st (w ++ a)).
Proof.
  intros H a. induction a as [|c a IH]; intros w Ha; cbn; [rewrite app_nil_r; apply reads_nil|].
  apply Forall_cons in Ha as [Hc Ha]. eapply reads_app; [by apply H|].
  rewrite (assoc_L (++) w [c] a : w ++ c :: a = (w ++ [c]) ++ a). by apply IH.
Qed.

Lemma posix_rest_inert c : posix_rest c = true -> inert c.
Proof.
  unfold posix_rest, posix_first, alphanumeric_unit, is_letter, is_digit_unit, inert, POSIX_ESCAPABLE, js_ws.
  rewrite bool_decide_eq_false. intros H.
  assert (Hc : 48 <= c <= 57 \/ 65 <= c <= 90 \/ 97 <= c <= 122 \/ c ∈ lit "_@%+:,./-=").
  { rewrite !orb_true_iff, !andb_true_iff, !Z.leb_le, bool_decide_eq_true, Z.eqb_eq in H.
    change (lit "_@%+:,./-=") with (lit "_@%+:,./-" ++ [61]). set_solver. }
  clear H. split; [|repeat (apply orb_false_iff; split); try apply andb_false_iff]; rewrite ?Z.leb_gt, ?Z.eqb_neq.
  all: lit_units; lia.
Qed.

Lemma safe_arg_inert a : POSIX_SAFE_ARG a = true -> Forall inert a.
Proof.
  destruct a as [|c a]; [done|]. cbn. intros [Hc Ha]%andb_true_iff.
  constructor; [apply posix_rest_inert; unfold posix_rest; by rewrite Hc|].
  rewrite Forall_forall. intros x Hx%list_elem_of_In. apply posix_rest_inert.
  by apply (proj1 (forallb_forall _ _) Ha).
Qed.

Lemma reads_inert_text toks w a : Forall inert a -> reads (at_word toks w None false) a (at_word toks (w ++ a) None false).
Proof.
  intros Ha. pose proof (reads_pieces (fun w => at_word toks w None false) (fun c => [c]) inert) as H.
  specialize (H (fun w c => reads_inert toks w c) a w Ha). cbn in H.
  by replace (concat (map (fun c => [c]) a)) with a in H by (clear; induction a; cbn; congruence).
Qed.

Lemma step_outside_pieces a :
  step_outside a = concat (map (fun c => if (c =? 39) || (c =? 92) then [39; 92; c; 39] else [c]) a).
Proof. induction a as [|c a IH]; cbn; [done|]. by rewrite IH. Qed.

(** A quoted argument is a piece of a word. *)
Lemma reads_quoted toks w a : reads (at_word toks w None false) (quotePosixArg a) (at_word toks (w ++ a) None false).
Proof.
  unfold quotePosixArg. case_bool_decide as Hn; [subst; rewrite app_nil_r|].
  { change (lit "''") with ([39] ++ [39] : text). eapply reads_app; [apply reads_open|apply reads_close]. }
  destruct (POSIX_SAFE_ARG a) eqn:Hs; [by apply reads_inert_text, safe_arg_inert|].
  eapply reads_app; [apply reads_open|]. eapply reads_app; [|apply reads_close].
  rewrite step_outside_pieces.
  apply (reads_pieces (fun w => at_word toks w (Some 39) false) _ (fun _ => True)); [|by apply Forall_true].
  intros w' c _. destruct ((c =? 39) || (c =? 92)) eqn:Hc.
  - change [39; 92; c; 39] with ([39] ++ [92; c] ++ [39] : text).
    eapply reads_app; [apply reads_close|]. eapply reads_app; [apply reads_escaped|apply reads_open].
    by apply orb_true_iff in Hc as [->%Z.eqb_eq| ->%Z.eqb_eq].
  - apply orb_false_iff in Hc as [?%Z.eqb_neq _]. by apply reads_literal.
Qed.

(** ** Command lines and pasted paths *)

Definition nonempty (t : text) : bool := negb (bool_decide (t = [])).

Lemma push_word toks w : push (at_word toks w None false) = at_word (toks ++ List.filter nonempty [w]) [] None false.
Proof. unfold push, nonempty; cbn. case_bool_decide; subst; cbn; [by rewrite app_nil_r|done]. Qed.

Lemma joined_words args toks :
  exists k, reads (at_word toks [] None false) (join_spaces (map quotePosixArg args)) k /\ tokens (push k) = toks ++ List.filter nonempty args.
Proof.
  revert toks. induction args as [|a [|a' args] IH]; intros toks.
  - exists (at_word toks [] None false). split; [apply reads_nil|]. by rewrite push_word.
  - exists (at_word toks a None false). split; [apply reads_quoted|]. by rewrite push_word.
  - destruct (IH (toks ++ List.filter nonempty [a])) as (k & Hk & Et). exists k.
    change (join_spaces _) with (quotePosixArg a ++ [32] ++ join_spaces (map quotePosixArg (a' :: args))).
    split; [|rewrite Et, <- app_assoc; f_equal; cbn; by destruct (nonempty a)].
    eapply reads_app; [apply reads_quoted|]. eapply reads_app; [apply reads_space|].
    rewrite push_word. apply Hk.
Qed.

Lemma tokenize_reads t k : reads tok_start t k -> tokenizeCommand t = tokens (push k).
Proof. intros H. unfold tokenizeCommand. change (tok_loop _ None t tok_start) with (run None t tok_start). by rewrite (run_reads _ _ _ _ H). Qed.

(** C7. An argument vector quoted for a POSIX shell is read back word for word,
    empty arguments apart, which the tokenizer drops: no argument, whatever it
    holds, becomes two words, an operator, a comment or a here-document. *)
Theorem posix_command_round_trip args :
  tokenizeCommand (buildShellCommandForKind posix_shell args) = List.filter nonempty args.
Proof. destruct (joined_words args []) as (k & Hk & Et). cbn [buildShellCommandForKind]. by rewrite (tokenize_reads _ k Hk). Qed.

Lemma backslash_escape_pieces a :
  backslash_escape a = concat (map (fun c => if POSIX_ESCAPABLE c then [92; c] else [c]) a).
Proof. induction a as [|c a IH]; cbn; [done|]. by rewrite IH. Qed.

(** A pasted path is read back as one word, itself, if a line break makes it
    quoted or it holds no white space but spaces and tabs. *)
Theorem pasted_path_round_trip path :
  path <> [] -> existsb (fun c => (c =? 10) || (c =? 13)) path = true \/ Forall (fun c => js_ws c = true -> c = 32 \/ c = 9) path ->
  tokenizeCommand (shellEscapePosix path) = [path].
Proof.
  intros Hn Hw. rewrite (tokenize_reads _ (at_word [] path None false)); [rewrite push_word; unfold nonempty; cbn; by rewrite bool_decide_false|].
  unfold shellEscapePosix. rewrite bool_decide_false by done.
  destruct (existsb _ path) eqn:Hb; [apply reads_quoted|]. destruct Hw as [|Hw]; [done|].
  rewrite backslash_escape_pieces.
  apply (reads_pieces (fun w => at_word [] w None false) _ (fun c => js_ws c = true -> c = 32 \/ c = 9) ) with (w := []); [|done].
  intros w c Hc. destruct (POSIX_ESCAPABLE c) eqn:He; [by apply reads_escaped|]. apply reads_inert. split; [done|].
  destruct (js_ws c); [|done]. by destruct Hc as [-> | ->].
Qed.

(** The white space the escaping leaves bare splits a path the tokenizer reads. *)
Example no_break_space : tokenizeCommand (shellEscapePosix (lit "/a" ++ [160] ++ lit "b")) = [lit "/a"; lit "b"].
Proof. by vm_compute. Qed.
