(* ===== verification/ShellReaders.v ===== *)
(** * The documented readers of a command line (dor/test/shell-quote.test.mjs)

    What cmd, the MSVCRT argument split and PowerShell make of a line, as the
    tests of the quoting write it down, and cmd's round trip.  [None] is a line
    the reader refuses: an operator outside quotes, a trailing caret, a doubled
    quote two runtimes read differently, an unclosed quote. *)
From Stdlib Require Import ZArith Lia.
From S2P Require Import Prelude TermText TermDecode TermCwd ShellWords ShellQuote ShellRoundTrip.
#[local] Open Scope Z_scope.
#[local] Open Scope list_scope.

(** Something read, in front of what else is. *)
Definition in_front (w : text) (r : option (text * text)) : option (text * text) :=
  match r with Some (x, rest) => Some (w ++ x, rest) | None => None end.

(** ** cmd *)

Section cmd.
  (** The variable a name names, whatever the case of its letters. *)
  Context (vars : text -> option text).

(** [name.split(':')[0]]. *)
Definition before_colon (t : text) : text := default [] (head (split_on 58 t)).

Fixpoint expand (fuel : nat) (t : text) : text :=
  match fuel, t with
  | S fuel, c :: t' =>
      match (if c =? 37 then index_where (Z.eqb 37) t' else None) with
      | Some j =>
          let name := before_colon (take j t') in
          match (if bool_decide (name = []) then None else vars name) with
          | Some v => v ++ expand fuel (drop (S j) t')
          | None => c :: expand fuel t'
          end
      | None => c :: expand fuel t'
      end
  | _, _ => []
  end.

Fixpoint cmd_reads (operators : Z -> bool) (quoted : bool) (t : text) : option text :=
  match t with
  | [] => Some []
  | c :: t' =>
      if c =? 34 then option_map (cons c) (cmd_reads operators (negb quoted) t')
      else if quoted then option_map (cons c) (cmd_reads operators quoted t')
      else if c =? 94 then
        match t' with d :: t'' => option_map (cons d) (cmd_reads operators quoted t'') | [] => None end
      else if operators c then None
      else option_map (cons c) (cmd_reads operators quoted t')
  end.

Definition cmdReads (operators : Z -> bool) (line : text) : option text := cmd_reads operators false (expand (length line) line).

End cmd.

Definition cmd_operator (c : Z) : bool := bool_decide (c ∈ lit "&|<>()").

(** ** The argument split of MSVCRT and CommandLineToArgvW *)

Definition blank (c : Z) : bool := (c =? 32) || (c =? 9).

Fixpoint program_part (quoted : bool) (t : text) : text * text :=
  match t with
  | [] => ([], [])
  | c :: t' =>
      if negb quoted && blank c then ([], t)
      else if c =? 34 then program_part (negb quoted) t'
      else let '(p, rest) := program_part quoted t' in (c :: p, rest)
  end.

(** One argument; [n] backslashes were read just before. *)
Fixpoint arg_part (n : nat) (quoted : bool) (t : text) : option (text * text) :=
  match t with
  | [] => Some (replicate n 92, [])
  | c :: t' =>
      if c =? 92 then arg_part (S n) quoted t'
      else if c =? 34 then
        if Nat.odd n then in_front (replicate (Nat.div2 n) 92 ++ [34]) (arg_part 0 quoted t')
        else if quoted && next_is 34 t' then None
        else in_front (replicate (Nat.div2 n) 92) (arg_part 0 (negb quoted) t')
      else if quoted || negb (blank c) then in_front (replicate n 92 ++ [c]) (arg_part 0 quoted t')
      else Some (replicate n 92, t)
  end.

Fixpoint skip_blank (t : text) : text :=
  match t with c :: t' => if blank c then skip_blank t' else t | [] => [] end.

Fixpoint args_part (fuel : nat) (t : text) : option (list text) :=
  match fuel, skip_blank t with
  | _, [] => Some []
  | S fuel, c :: t' =>
      match arg_part 0 false (c :: t') with
      | Some (arg, rest) => option_map (cons arg) (args_part fuel rest)
      | None => None
      end
  | O, _ => None
  end.

Definition msvcrtArgv (line : text) : option (list text) :=
  let '(program, rest) := program_part false line in
  option_map (cons program) (args_part (length rest) rest).

(** ** PowerShell *)

(** The single quotes PowerShell reads, and a word it takes bare. *)
Definition ps_single_quote (c : Z) : bool := bool_decide (c ∈ [39; 8216; 8217; 8218; 8219]).

Definition ps_bare (c : Z) : bool := is_letter c || is_digit_unit c || bool_decide (c ∈ lit "_+=:./\-").
Definition ps_word (w : text) : bool := negb (bool_decide (w = [])) && forallb ps_bare w.

(** The inside of a quoted string and what follows its closing quote. *)
Fixpoint ps_string (t : text) : option (text * text) :=
  match t with
  | [] => None
  | c :: t' =>
      if ps_single_quote c then
        match t' with
        | d :: t'' => if ps_single_quote d then in_front [d] (ps_string t'') else Some ([], t')
        | [] => Some ([], [])
        end
      else in_front [c] (ps_string t')
  end.

Definition until_space (t : text) : text := before_first (Z.eqb 32) t.

Fixpoint ps_values (fuel : nat) (t : text) : option (list text) :=
  match fuel, t with
  | _, [] => Some []
  | S fuel, c :: t' =>
      if c =? 32 then ps_values fuel t'
      else if ps_single_quote c then
        match ps_string t' with
        | Some (value, rest) => option_map (cons value) (ps_values fuel rest)
        | None => None
        end
      else
        let word := until_space t in
        if ps_word word then option_map (cons word) (ps_values fuel (drop (length word) t)) else None
  | O, _ => None
  end.

Definition is_legacy (line : text) : bool := starts_with LEGACY_PREFIX line && ends_with (lit " }") line.

Definition powerShellValues (line : text) : bool * option (list text) :=
  let legacy := is_legacy line in
  let rest := if legacy then slice (length LEGACY_PREFIX) (length line - 2) line else line in
  let rest := if starts_with (lit "& ") rest then drop 2 rest else rest in
  (legacy, ps_values (length rest) rest).

(** [needQuotes]: white space outside the value's own quotes; [before] is the unit before. *)
Fixpoint needs_quotes (before : Z) (odd : bool) (value : text) : bool :=
  match value with
  | [] => false
  | c :: value =>
      if (c =? 34) && negb (before =? 92) then needs_quotes c (negb odd) value
      else if js_ws c && negb odd then true
      else needs_quotes c odd value
  end.

Definition legacyNativeLine (values : list text) : text :=
  match values with
  | [] => []
  | program :: values =>
      join_spaces (program :: map (fun v => if needs_quotes 0 false v then [34] ++ v ++ [34] else v) (List.filter nonempty values))
  end.

Definition standardNativeLine (values : list text) : text :=
  match values with
  | [] => []
  | program :: values => join_spaces (program :: map quoteMsvcrtArg values)
  end.

(** ** What cmd reads *)

Section reads.
  Context (vars : text -> option text) (operators : Z -> bool).

(** [t] is read as [w], inside quotes at the end exactly where it was at the start. *)
Definition cmd_as (t w : text) : Prop :=
  forall rest, cmd_reads operators false (t ++ rest) = option_map (app w) (cmd_reads operators false rest).

Lemma cmd_as_nil : cmd_as [] [].
Proof. intros rest. cbn. by destruct (cmd_reads operators false rest). Qed.

Lemma cmd_as_app t1 w1 t2 w2 : cmd_as t1 w1 -> cmd_as t2 w2 -> cmd_as (t1 ++ t2) (w1 ++ w2).
Proof.
  intros H1 H2 rest. rewrite <- app_assoc, H1, H2. destruct (cmd_reads operators false rest); cbn; [|done].
  by rewrite app_assoc.
Qed.

Lemma cmd_as_plain c : c <> 34 -> c <> 94 -> operators c = false -> cmd_as [c] [c].
Proof.
  intros H1 H2 Ho rest. cbn. rewrite Ho. apply Z.eqb_neq in H1, H2. by rewrite H1, H2.
Qed.

Lemma cmd_as_caret c : cmd_as [94; c] [c].
Proof. intros rest. done. Qed.

Lemma cmd_as_plain_text t : Forall (fun c => c <> 34 /\ c <> 94 /\ operators c = false) t -> cmd_as t t.
Proof.
  induction 1 as [|c t (? & ? & ?) _ IH]; [apply cmd_as_nil|].
  apply (cmd_as_app [c] [c]); [by apply cmd_as_plain|done].
Qed.

Lemma inside_quotes t rest : 34 ∉ t ->
  cmd_reads operators true (t ++ 34 :: rest) = option_map (app (t ++ [34])) (cmd_reads operators false rest).
Proof.
  induction t as [|c t IH]; [done|]. intros [Hc Ht]%not_elem_of_cons. cbn [app cmd_reads].
  rewrite (proj2 (Z.eqb_neq c 34)) by congruence. rewrite IH by done. by destruct (cmd_reads operators false rest).
Qed.

(** Between quotes everything is literal. *)
Lemma cmd_as_quoted t : 34 ∉ t -> cmd_as ([34] ++ t ++ [34]) ([34] ++ t ++ [34]).
Proof.
  intros Ht rest. rewrite <- !app_assoc. cbn [app cmd_reads Z.eqb Pos.eqb negb].
  rewrite inside_quotes by done. by destruct (cmd_reads operators false rest).
Qed.

(** No variable's name starts with a caret, and every [%] of the line has one after it. *)
Context (no_caret : forall name, vars ([94] ++ name) = None).

Fixpoint guarded (t : text) : Prop :=
  match t with [] => True | c :: t => (c = 37 -> head t = Some 94) /\ guarded t end.

Lemma guarded_app a b : guarded a -> guarded b -> guarded (a ++ b).
Proof.
  induction a as [|c a IH]; [done|]. cbn. intros [Hc Ha] Hb. split; [|by apply IH].
  intros E. by destruct a; [specialize (Hc E)|apply Hc].
Qed.

Lemma unguarded_free t : 37 ∉ t -> guarded t.
Proof.
  induction t as [|c t IH]; [done|]. intros [Hc Ht]%not_elem_of_cons. split; [by intros ->|by apply IH].
Qed.

Lemma expand_guarded f t : guarded t -> (length t <= f)%nat -> expand vars f t = t.
Proof.
  revert f. induction t as [|c t IH]; intros f Hg Hf; [by destruct f|]. destruct f as [|f]; [cbn in Hf; lia|].
  destruct Hg as [Hc Hg]. cbn [expand]. destruct (c =? 37) eqn:E; [|f_equal; apply IH; [done|cbn in Hf; lia]].
  apply Z.eqb_eq in E. destruct t as [|d t]; [by specialize (Hc E)|]. injection (Hc E) as ->.
  destruct (index_where (Z.eqb 37) (94 :: t)) as [j|] eqn:Ej; [|f_equal; apply IH; [done|cbn in Hf |- *; lia]].
  destruct j as [|j]; [apply index_beyond in Ej; [lia|done]|].
  assert (exists n, before_colon (take (S j) (94 :: t)) = [94] ++ n) as [n ->].
  { unfold before_colon. cbn. destruct (split_on 58 (take j t)) as [|w ws] eqn:Es; cbn; by eexists. }
  rewrite bool_decide_false by done. rewrite no_caret. f_equal. apply IH; [done|cbn in Hf |- *; lia].
Qed.

Lemma cmdReads_as t w : guarded t -> cmd_as t w -> cmdReads vars operators t = Some w.
Proof.
  intros Hg Hr. unfold cmdReads. rewrite expand_guarded by (done || lia).
  specialize (Hr []). rewrite app_nil_r in Hr. rewrite Hr. cbn. by rewrite app_nil_r.
Qed.

End reads.

(** ** What the argument split reads *)

Lemma in_front_app a b r : in_front a (in_front b r) = in_front (a ++ b) r.
Proof. destruct r as [[x rest]|]; cbn; [|done]. by rewrite app_assoc. Qed.

Lemma in_front_nil r : in_front [] r = r.
Proof. by destruct r as [[x rest]|]. Qed.

Lemma arg_slashes n k q t : arg_part k q (replicate n 92 ++ t) = arg_part (k + n) q t.
Proof.
  revert k. induction n as [|n IH]; intros k; [by rewrite Nat.add_0_r|]. cbn. rewrite IH. f_equal; lia.
Qed.

Lemma slash_inside n (a : text) : 92 :: replicate n 92 ++ a = replicate n 92 ++ 92 :: a.
Proof. induction n as [|n IH]; cbn; [done|]. by rewrite IH. Qed.

(** The end of an argument: the line's, or a blank. *)
Definition arg_end (t : text) : Prop := match t with [] => True | c :: _ => blank c = true end.

Lemma arg_part_end n t : arg_end t -> arg_part n false t = Some (replicate n 92, t).
Proof.
  destruct t as [|c t]; [done|]. intros Hb. cbn in Hb |- *.
  assert (c = 32 \/ c = 9) as [-> | ->] by (unfold blank in Hb; rewrite orb_true_iff, !Z.eqb_eq in Hb; done); done.
Qed.

(** What is escaped for the split is read back, up to its closing quote. *)
Lemma arg_part_body n a t : arg_end t ->
  arg_part 0 true (msvcrt_body n a ++ 34 :: t) = Some (replicate n 92 ++ a, t).
Proof.
  intros Ht. revert n. induction a as [|c a IH]; intros n; cbn [msvcrt_body].
  - rewrite arg_slashes. cbn [arg_part Z.eqb Pos.eqb]. rewrite Nat.add_0_l.
    replace (n + n)%nat with (2 * n)%nat by lia. rewrite <- Nat.negb_even, Nat.even_mul, orb_true_l.
    replace (next_is 34 t) with false by (symmetry; apply bool_decide_eq_false; destruct t; [done|intros [= ->]; done]).
    by rewrite Nat.div2_double, arg_part_end.
  - destruct (c =? 92) eqn:E1; [apply Z.eqb_eq in E1 as ->|destruct (c =? 34) eqn:E2; [apply Z.eqb_eq in E2 as ->|]].
    + rewrite IH. cbn. by rewrite slash_inside.
    + rewrite <- !app_assoc, arg_slashes. cbn [app arg_part Z.eqb Pos.eqb].
      replace (S (0 + (n + n)))%nat with (2 * n + 1)%nat by lia.
      rewrite Nat.odd_odd, Nat.add_1_r, Nat.div2_succ_double, IH. cbn. by rewrite <- app_assoc.
    + rewrite <- !app_assoc, arg_slashes. cbn [app arg_part]. rewrite E1, E2, IH. cbn. by rewrite <- app_assoc.
Qed.

Lemma quoted_read a t : arg_end t -> arg_part 0 false (quoteMsvcrtArg a ++ t) = Some (a, t).
Proof.
  intros Ht. unfold quoteMsvcrtArg. rewrite <- !app_assoc. cbn [app arg_part Z.eqb Pos.eqb Nat.odd Nat.even Nat.div2 negb andb].
  by rewrite arg_part_body, in_front_nil.
Qed.

(** What holds no blank and no quote needs none. *)
Lemma bare_read a t n : Forall (fun c => blank c = false /\ c <> 34) a -> arg_end t ->
  arg_part n false (a ++ t) = Some (replicate n 92 ++ a, t).
Proof.
  intros Ha Ht. revert n. induction Ha as [|c a [Hb Hq] _ IH]; intros n; [by rewrite app_nil_r, arg_part_end|].
  cbn [app arg_part]. apply Z.eqb_neq in Hq. rewrite Hb, Hq.
  destruct (c =? 92) eqn:E; [apply Z.eqb_eq in E as ->; rewrite IH; cbn; by rewrite slash_inside|].
  cbn [orb negb]. rewrite IH. cbn. by rewrite <- app_assoc.
Qed.

(** A line of a program and arguments, each read back whatever ends it. *)
Definition arg_reads (w a : text) : Prop :=
  (exists c w', w = c :: w' /\ blank c = false) /\ forall t, arg_end t -> arg_part 0 false (w ++ t) = Some (a, t).

Lemma args_read ws args f : Forall2 arg_reads ws args -> (length (concat (map (cons 32%Z) ws)) <= f)%nat ->
  args_part f (concat (map (cons 32) ws)) = Some args.
Proof.
  intros H. revert f. induction H as [|w a ws args [(c & w' & -> & Hb) Hw] _ IH]; intros f Hf; [by destruct f|].
  destruct f as [|f]; [cbn in Hf; lia|]. cbn [concat map app args_part skip_blank blank Z.eqb Pos.eqb orb].
  rewrite Hb. cbn [map concat app] in Hf, Hw |- *.
  rewrite Hw by (destruct ws; done). rewrite IH; [done|]. cbn [length] in Hf. rewrite length_app in Hf. lia.
Qed.

Lemma join_head w ws : join_spaces (w :: ws) = w ++ concat (map (cons 32) ws).
Proof.
  revert w. induction ws as [|w' ws IH]; intros w; [cbn; by rewrite app_nil_r|].
  change (join_spaces (w :: w' :: ws)) with (w ++ [32] ++ join_spaces (w' :: ws)). by rewrite IH.
Qed.

(** The program part of a line, bare or between quotes. *)
Lemma program_bare p t : Forall (fun c => blank c = false /\ c <> 34) p -> arg_end t -> program_part false (p ++ t) = (p, t).
Proof.
  intros Hp Ht. induction Hp as [|c p [Hb Hq] _ IH]; cbn.
  - destruct t as [|c t]; [done|]. cbn in Ht |- *. by rewrite Ht.
  - apply Z.eqb_neq in Hq. by rewrite Hb, Hq, IH.
Qed.

Lemma program_quoted p t : 34 ∉ p -> arg_end t -> program_part false (([34] ++ p ++ [34]) ++ t) = (p, t).
Proof.
  intros Hp Ht. rewrite <- !app_assoc. cbn.
  assert (H : program_part true (p ++ 34 :: t) = (p, t)); [|done].
  induction p as [|c p IH]; cbn.
  - by apply (program_bare [] t).
  - apply not_elem_of_cons in Hp as [Hc Hp]. rewrite (proj2 (Z.eqb_neq c 34)) by congruence. by rewrite IH.
Qed.

Lemma argv_read p w ws args : (forall t, arg_end t -> program_part false (w ++ t) = (p, t)) -> Forall2 arg_reads ws args ->
  msvcrtArgv (join_spaces (w :: ws)) = Some (p :: args).
Proof.
  intros Hp Hw. unfold msvcrtArgv. rewrite join_head, Hp by (destruct ws; done). by rewrite (args_read ws args).
Qed.
