(* ===== verification/WindowsRoundTrip.v ===== *)
(** * cmd and PowerShell quoting read back

    An argument vector quoted for cmd goes through cmd and then the program's
    argument split, one quoted for PowerShell through either native binding, and
    comes out as it went in. *)
From Stdlib Require Import ZArith Lia.
From S2P Require Import Prelude TermText TermDecode TermCwd ShellWords ShellQuote ShellRoundTrip ShellReaders.
#[local] Open Scope Z_scope.
#[local] Open Scope list_scope.
#[local] Set Warnings "-clear-no-such-hyp,-level-tolerance".

(** ** Code points *)

(** A unit, or a pair of surrogates. *)
Definition point (p : text) : Prop := (exists c, p = [c]) \/ exists c d, p = [c; d] /\ 55296 <= c /\ 55296 <= d.

Lemma points_spec t : concat (points t) = t /\ Forall point (points t).
Proof.
  induction t as [t IH] using (induction_ltof1 _ (@length Z)); unfold ltof in IH.
  destruct t as [|c [|d t]]; [done|split; [done|]|]; [constructor; [left; by eexists|done]|].
  rewrite points_cons. destruct (_ && _) eqn:E.
  - destruct (IH t) as [Hc Hf]; [cbn; lia|]. cbn. rewrite Hc. split; [done|]. constructor; [|done].
    right. exists c, d. rewrite !andb_true_iff, !Z.leb_le in E. repeat split; lia.
  - destruct (IH (d :: t)) as [Hc Hf]; [cbn; lia|]. cbn [concat app]. rewrite Hc. split; [done|].
    constructor; [left; by eexists|done].
Qed.

(** A text that ends in an ASCII unit ends in it as a point. *)
Lemma points_last t c : c < 55296 -> last (points (t ++ [c])) = Some [c].
Proof.
  intros Hc. destruct (points_spec (t ++ [c])) as [Hcat Hf].
  destruct (last (points (t ++ [c]))) as [p|] eqn:E.
  - apply last_Some in E as [ps E]. rewrite E in Hcat, Hf. rewrite concat_app in Hcat. cbn in Hcat. rewrite app_nil_r in Hcat.
    apply Forall_app in Hf as [_ [Hp _]%Forall_cons]. destruct Hp as [[d ->]|(d & e & -> & ? & ?)].
    + apply app_inj_tail in Hcat as [_ ->]. done.
    + rewrite (assoc_L (++) (concat ps) [d] [e] : concat ps ++ [d; e] = (concat ps ++ [d]) ++ [e]) in Hcat. apply app_inj_tail in Hcat as [_ ->]. lia.
  - apply last_None in E. rewrite E in Hcat. by destruct t.
Qed.

(** ** cmd *)

Lemma operator_special c : c <> 34 -> c <> 94 -> cmd_special c = false -> cmd_operator c = false.
Proof.
  unfold cmd_special, cmd_operator. intros H1 H2 [_ H]%orb_false_iff. apply bool_decide_eq_false in H. apply bool_decide_eq_false. lit_units. tauto.
Qed.

Lemma special_false c : cmd_special c = false -> c <> 34 /\ c <> 94.
Proof.
  unfold cmd_special. intros [H1%Z.eqb_neq H2]%orb_false_iff. apply bool_decide_eq_false in H2.
  split; [done|]. lit_units. tauto.
Qed.

Lemma high_ordinary c : 55296 <= c -> c <> 34 /\ c <> 94 /\ cmd_operator c = false.
Proof.
  intros Hc. repeat split; try lia. apply bool_decide_eq_false. lit_units. lia.
Qed.

(** Outside quotes, cmd takes the carets away and nothing else. *)
Lemma caret_read b ps : Forall point ps -> cmd_as cmd_operator (caret_loop b ps) (concat ps).
Proof.
  intros H. revert b. induction H as [|p ps Hp _ IH]; intros b; [apply cmd_as_nil|]. cbn [caret_loop concat].
  apply cmd_as_app; [|apply IH]. destruct Hp as [[c ->]|(c & d & -> & Hc & Hd)].
  - destruct (b || cmd_special c) eqn:E; [apply cmd_as_caret|].
    apply orb_false_iff in E as [_ E]. destruct (special_false c E). by apply cmd_as_plain, operator_special.
  - apply high_ordinary in Hc, Hd. rewrite orb_false_r.
    assert (H : cmd_as cmd_operator [d] [d]) by (apply cmd_as_plain; tauto).
    destruct b; [apply (cmd_as_app _ [94; c] [c]); [apply cmd_as_caret|done]|].
    apply (cmd_as_app _ [c] [c]); [apply cmd_as_plain; tauto|done].
Qed.

(** Every [%] it writes has a caret after it, unless it is the last unit. *)
Lemma caret_guarded b ps : Forall point ps -> last ps <> Some [37] -> guarded (caret_loop b ps).
Proof.
  intros H. revert b. induction H as [|p ps Hp _ IH]; intros b Hl; [done|]. cbn [caret_loop].
  assert (Hg : guarded (caret_loop (bool_decide (p = [37])) ps)) by (apply IH; intros E; apply Hl; cbn; by destruct ps).
  assert (guarded (p ++ caret_loop (bool_decide (p = [37])) ps)); [|by destruct (_ || _)].
  destruct Hp as [[c ->]|(c & d & -> & Hc & Hd)]; cbn [app guarded].
  - split; [|done]. intros ->. destruct ps as [|q ps]; [by cbn in Hl|]. done.
  - repeat split; try done; intros ->; lia.
Qed.

Lemma windows_safe_ordinary c : windows_safe c = true ->
  blank c = false /\ c <> 34 /\ c <> 94 /\ cmd_operator c = false /\ c <> 37 /\ c <> 32 /\ js_ws c = false /\ powershell_quote c = false.
Proof.
  intros H. assert (Hc : 48 <= c <= 57 \/ 65 <= c <= 90 \/ 97 <= c <= 122 \/ c ∈ lit "_+=:./\-").
  { unfold windows_safe, alphanumeric_unit, is_letter, is_digit_unit in H.
    rewrite !orb_true_iff, !andb_true_iff, !Z.leb_le, bool_decide_eq_true in H. tauto. }
  lit_units. clear H.
  unfold blank, cmd_operator, js_ws, powershell_quote.
  repeat split; try lia. apply bool_decide_eq_false; lit_units; lia.
Qed.

Lemma safe_arg_units a : WINDOWS_SAFE_ARG a = true -> a <> [] /\ Forall (fun c => windows_safe c = true) a.
Proof.
  unfold WINDOWS_SAFE_ARG. rewrite andb_true_iff, negb_true_iff, bool_decide_eq_false, forallb_forall, Forall_forall.
  intros [? H]. split; [done|]. intros c Hc%list_elem_of_In. by apply H.
Qed.

(** What the escaping for the split adds is backslashes and the escapes of quotes. *)
Lemma msvcrt_body_units (P : Z -> Prop) n a : P 92 -> (34 ∈ a -> P 34) -> Forall P a -> Forall P (msvcrt_body n a).
Proof.
  intros Hs Hq Ha. revert n. induction Ha as [|c a Hc Ha IH]; intros n; cbn [msvcrt_body].
  { by apply Forall_replicate. }
  assert (Hq' : 34 ∈ a -> P 34) by (intros ?; apply Hq; by right).
  destruct (c =? 92); [by apply IH|]. destruct (Z.eqb_spec c 34) as [-> |].
  all: repeat (apply Forall_app; split); try by apply Forall_replicate.
  all: try by apply IH.
  all: repeat constructor; try done.
Qed.

Lemma quote_starts a : exists c w, quoteMsvcrtArg a = c :: w /\ blank c = false.
Proof. by exists 34, (msvcrt_body 0 a ++ [34]). Qed.

Lemma quoted_arg_reads a : arg_reads (quoteMsvcrtArg a) a.
Proof. split; [apply quote_starts|]. intros t. apply quoted_read. Qed.

Lemma bare_arg_reads a : a <> [] -> Forall (fun c => blank c = false /\ c <> 34) a -> arg_reads a a.
Proof.
  intros Hn Ha. split; [|intros t Ht; by apply (bare_read a t 0)]. destruct Ha as [|c a [Hc _] _]; [done|by exists c, a].
Qed.

Lemma safe_arg_reads a : WINDOWS_SAFE_ARG a = true -> arg_reads a a.
Proof.
  intros [Hn Ha]%safe_arg_units. apply bare_arg_reads; [done|]. eapply Forall_impl; [exact Ha|].
  intros c Hc%windows_safe_ordinary. tauto.
Qed.

Lemma safe_arg_cmd a : WINDOWS_SAFE_ARG a = true -> cmd_as cmd_operator a a /\ guarded a.
Proof.
  intros [_ Ha]%safe_arg_units. split.
  - apply cmd_as_plain_text. eapply Forall_impl; [exact Ha|]. intros c Hc%windows_safe_ordinary. tauto.
  - apply unguarded_free. intros H. rewrite Forall_forall in Ha. apply Ha, windows_safe_ordinary in H. tauto.
Qed.

(** One argument: what cmd hands on, and what the split makes of that. *)
Lemma cmd_arg a : guarded (quoteCmdArg a) /\ exists w, cmd_as cmd_operator (quoteCmdArg a) w /\ arg_reads w a.
Proof.
  unfold quoteCmdArg. case_bool_decide as Hn; [subst|destruct (WINDOWS_SAFE_ARG a) eqn:Hs; [|destruct (existsb _ a) eqn:He]].
  - split; [by repeat split|]. exists [34; 34]. split; [apply (cmd_as_quoted cmd_operator []), not_elem_of_nil|apply (quoted_arg_reads [])].
  - destruct (safe_arg_cmd a Hs). split; [done|]. exists a. split; [done|by apply safe_arg_reads].
  - unfold caretEscapeCmd. destruct (points_spec (quoteMsvcrtArg a)) as [Hc Hf]. split.
    + apply caret_guarded; [done|]. unfold quoteMsvcrtArg. rewrite app_assoc, points_last by lia. congruence.
    + exists (quoteMsvcrtArg a). split; [|apply quoted_arg_reads]. rewrite <- Hc at 2. by apply caret_read.
  - assert (Ha : Forall (fun c => c <> 34 /\ c <> 37) a).
    { rewrite Forall_forall. intros c Hc%list_elem_of_In.
      apply not_true_iff_false in He. rewrite existsb_exists in He.
      split; intros ->; apply He; by eexists. }
    assert (Hb : Forall (fun c => c <> 34 /\ c <> 37) (msvcrt_body 0 a)).
    { apply msvcrt_body_units; [done| |done]. intros H. rewrite Forall_forall in Ha. exact (Ha _ H). }
    rewrite Forall_forall in Hb. split.
    + apply guarded_app; [done|]. apply guarded_app; [|done]. apply unguarded_free. intros H. by destruct (Hb _ H).
    + exists (quoteMsvcrtArg a). split; [|apply quoted_arg_reads]. apply cmd_as_quoted. intros H. by destruct (Hb _ H).
Qed.

Lemma cmd_args args :
  guarded (concat (map (cons 32) (map quoteCmdArg args))) /\
  exists ws, cmd_as cmd_operator (concat (map (cons 32) (map quoteCmdArg args))) (concat (map (cons 32) ws)) /\ Forall2 arg_reads ws args.
Proof.
  induction args as [|a args (Hg & ws & Hr & Hw)]; [split; [done|]; exists []; split; [apply cmd_as_nil|done]|].
  destruct (cmd_arg a) as (Hga & w & Hra & Hwa). cbn [map concat]. split; [by apply guarded_app; [split|]|].
  exists (w :: ws). split; [|by constructor]. cbn [map concat]. apply cmd_as_app; [|done].
  apply (cmd_as_app _ [32] [32]); [by apply cmd_as_plain|done].
Qed.

Lemma cmd_program p : 34 ∉ p -> 37 ∉ p ->
  guarded (quoteCmdProgram p) /\ cmd_as cmd_operator (quoteCmdProgram p) (quoteCmdProgram p) /\
  forall t, arg_end t -> program_part false (quoteCmdProgram p ++ t) = (p, t).
Proof.
  intros H34 H37. unfold quoteCmdProgram. case_bool_decide as Hn; [subst|destruct (WINDOWS_SAFE_ARG p) eqn:Hs].
  - split; [by repeat split|]. split; [apply (cmd_as_quoted cmd_operator []), not_elem_of_nil|]. intros t. apply (program_quoted []), not_elem_of_nil.
  - destruct (safe_arg_cmd p Hs). do 2 (split; [done|]). intros t. apply program_bare.
    apply safe_arg_units in Hs as [_ Hs]. eapply Forall_impl; [exact Hs|]. intros c Hc%windows_safe_ordinary. tauto.
  - split; [|split; [by apply cmd_as_quoted|intros t; by apply program_quoted]].
    apply guarded_app; [done|]. apply guarded_app; [|done]. by apply unguarded_free.
Qed.

(** C8. A command line quoted for cmd is read back as the arguments it was made of,
    by cmd and then the program's argument split, whatever the arguments hold and
    whatever the variables are, as long as none is named with a leading caret and
    the program's name has no double quote or percent sign: nothing expands and
    nothing runs as an operator. *)
Theorem cmd_round_trip vars program args :
  (forall name, vars ([94] ++ name) = None) -> 34 ∉ program -> 37 ∉ program ->
  (cmdReads vars cmd_operator (buildShellCommandForKind cmd (program :: args)) ≫= msvcrtArgv) = Some (program :: args).
Proof.
  intros Hv H34 H37. destruct (cmd_program program H34 H37) as (Hg & Hr & Hp).
  destruct (cmd_args args) as (Hga & ws & Hra & Hw). cbn [buildShellCommandForKind]. rewrite join_head.
  rewrite (cmdReads_as vars cmd_operator Hv _ (quoteCmdProgram program ++ concat (map (cons 32) ws))).
  - cbn. rewrite <- join_head. by apply argv_read.
  - by apply guarded_app.
  - by apply cmd_as_app.
Qed.

(** ** PowerShell *)

(** The end of a value: the line's, or a space. *)
Definition value_end (t : text) : Prop := match t with [] => True | c :: _ => c = 32 end.

(** The quoter knows the quotes and the bare words of the reader. *)
Lemma powershell_quotes c : ps_single_quote c = powershell_quote c.
Proof.
  unfold ps_single_quote, powershell_quote. case_bool_decide as H; rewrite !elem_of_cons, elem_of_nil in H; symmetry; [lia|].
  apply orb_false_iff. rewrite andb_false_iff. lia.
Qed.

Lemma powershell_words w : ps_word w = WINDOWS_SAFE_ARG w.
Proof. done. Qed.

Lemma ps_string_read a t : value_end t -> ps_string (double_quotes a ++ 39 :: t) = Some (a, t).
Proof.
  intros Ht. induction a as [|c a IH]; cbn [double_quotes app].
  - destruct t as [|d t]; [done|]. cbn in Ht. by subst.
  - destruct (powershell_quote c) eqn:E; cbn [app ps_string]; rewrite !powershell_quotes, E; by rewrite ?powershell_quotes, ?E, IH.
Qed.

Lemma before_first_free (p : Z -> bool) a t : Forall (fun c => p c = false) a -> match t with [] => True | c :: _ => p c = true end ->
  before_first p (a ++ t) = a.
Proof.
  intros Ha Ht. induction Ha as [|c a Hc _ IH]; cbn; [by destruct t as [|d t]; cbn; [|rewrite Ht]|]. by rewrite Hc, IH.
Qed.

Lemma ps_value_read a t f : value_end t -> ps_values (S f) (quotePowerShellArg a ++ t) = option_map (cons a) (ps_values f t).
Proof.
  intros Ht. unfold quotePowerShellArg. case_bool_decide as Hn; [subst|destruct (WINDOWS_SAFE_ARG a) eqn:Hs].
  - destruct t as [|d t]; [done|]. cbn in Ht. by subst.
  - pose proof (safe_arg_units a Hs) as [_ Ha].
    assert (Hw : until_space (a ++ t) = a).
    { apply before_first_free; [|destruct t; cbn in Ht; by subst]. eapply Forall_impl; [exact Ha|].
      intros c Hc%windows_safe_ordinary. apply Z.eqb_neq. intros <-. tauto. }
    destruct a as [|c a]; [done|]. apply Forall_cons in Ha as [Hc _]. apply windows_safe_ordinary in Hc.
    cbn [app ps_values]. rewrite (proj2 (Z.eqb_neq c 32)) by tauto.
    rewrite powershell_quotes. replace (powershell_quote c) with false by (symmetry; tauto). change (c :: a ++ t) with ((c :: a) ++ t).
    by rewrite Hw, powershell_words, Hs, drop_app_length.
  - rewrite <- !app_assoc. cbn [app ps_values]. rewrite powershell_quotes. cbn [Z.eqb Pos.eqb powershell_quote orb]. by rewrite ps_string_read.
Qed.

Lemma ps_values_read args f : (2 * length args <= f)%nat ->
  ps_values f (concat (map (cons 32) (map quotePowerShellArg args))) = Some args.
Proof.
  revert f. induction args as [|a args IH]; intros f Hf; [by destruct f|].
  destruct f as [|[|f]]; [cbn in Hf; lia..|]. cbn [map concat app].
  change (ps_values (S (S f)) (32 :: ?t)) with (ps_values (S f) t).
  rewrite ps_value_read, IH; [done|cbn in Hf; lia|by destruct args].
Qed.

Lemma quoted_not_empty a : quotePowerShellArg a <> [].
Proof. unfold quotePowerShellArg. repeat case_match; try done. by apply safe_arg_units. Qed.

Lemma joined_length args : (2 * length args <= length (concat (map (cons 32%Z) (map quotePowerShellArg args))))%nat.
Proof.
  induction args as [|a args IH]; [done|]. cbn [map concat length]. rewrite length_app. cbn [length].
  pose proof (quoted_not_empty a). destruct (quotePowerShellArg a); [done|]. cbn. lia.
Qed.

(** The line without what pins legacy binding. *)
Definition ps_line (program : text) (args : list text) : text :=
  (if starts_with [39] (quotePowerShellArg program) then lit "& " else []) ++
  join_spaces (quotePowerShellArg program :: map quotePowerShellArg args).

Lemma quoted_head a : exists c w, quotePowerShellArg a = c :: w /\ (c = 39 \/ windows_safe c = true).
Proof.
  unfold quotePowerShellArg. case_bool_decide; [by exists 39, [39]; split; [|left]|].
  destruct (WINDOWS_SAFE_ARG a) eqn:Hs; [|by eexists 39, _; split; [done|left]].
  apply safe_arg_units in Hs as [? Ha]. destruct Ha as [|c w Hc _]; [done|]. exists c, w. split; [done|by right].
Qed.

Lemma values_of_line program args :
  let line := ps_line program args in
  let rest := if starts_with (lit "& ") line then drop 2 line else line in
  ps_values (length rest) rest = Some (program :: args).
Proof.
  unfold ps_line. destruct (quoted_head program) as (c & w & E & Hc).
  assert (Hr : forall f, (1 + 2 * length args <= f)%nat ->
    ps_values f (join_spaces (quotePowerShellArg program :: map quotePowerShellArg args)) = Some (program :: args)).
  { intros f Hf. destruct f as [|f]; [lia|]. rewrite join_head, ps_value_read by (by destruct args).
    rewrite ps_values_read; [done|lia]. }
  assert (Hl : (1 + 2 * length args <= length (join_spaces (quotePowerShellArg program :: map quotePowerShellArg args)))%nat).
  { rewrite join_head, E, length_app. pose proof (joined_length args). cbn [length]. lia. }
  destruct (starts_with [39] (quotePowerShellArg program)) eqn:Hq.
  - by apply (Hr _ Hl).
  - cbn [app]. replace (starts_with (lit "& ") _) with false; [by apply (Hr _ Hl)|].
    symmetry. apply bool_decide_eq_false. rewrite join_head, E. cbn. intros [= ->]. by destruct Hc.
Qed.

Lemma starts_with_whole (a b : text) : starts_with a (a ++ b) = true.
Proof. apply bool_decide_eq_true. by rewrite take_app_length. Qed.

Lemma legacy_slice line : let whole := LEGACY_PREFIX ++ line ++ lit " }" in
  is_legacy whole = true /\ slice (length LEGACY_PREFIX) (length whole - 2) whole = line.
Proof.
  cbn zeta. unfold is_legacy, ends_with, slice. rewrite starts_with_whole. split.
  - apply bool_decide_eq_true. rewrite app_assoc, length_app.
    replace (_ + length (lit " }") - length (lit " }"))%nat with (length (LEGACY_PREFIX ++ line)) by lia. by rewrite drop_app_length.
  - rewrite drop_app_length, !length_app. change (length (lit " }")) with 2%nat.
    replace (_ - 2 - _)%nat with (length line) by lia. by rewrite take_app_length.
Qed.

Lemma line_not_legacy program args : is_legacy (ps_line program args) = false.
Proof.
  unfold is_legacy. apply andb_false_iff. left. apply bool_decide_eq_false. unfold ps_line. rewrite join_head.
  destruct (quoted_head program) as (c & w & -> & Hc). destruct (starts_with [39] (c :: w)) eqn:E; intros Hp.
  - apply bool_decide_eq_true in E. cbn in E. injection E as ->. by apply (f_equal (fun t => t !! 2%nat)) in Hp.
  - apply (f_equal head) in Hp. injection Hp as ->. by destruct Hc.
Qed.

(** What PowerShell takes from the line: the program, and each argument as its
    native binding is to get it. *)
Lemma powerShellValues_of program args :
  let legacy := existsb legacyBinderLoses args in
  powerShellValues (quotePowerShellCommand (program :: args)) =
    (legacy, Some (program :: map (fun a => if legacy && legacyBinderLoses a then quoteMsvcrtArg a else a) args)).
Proof.
  cbn zeta. unfold quotePowerShellCommand. set (legacy := existsb legacyBinderLoses args).
  set (vals := map (fun a => if legacy && legacyBinderLoses a then quoteMsvcrtArg a else a) args).
  replace (map _ args) with (map quotePowerShellArg vals) by (unfold vals; by rewrite map_map).
  change (_ ++ join_spaces _) with (ps_line program vals). unfold powerShellValues. destruct legacy.
  - destruct (legacy_slice (ps_line program vals)) as [-> ->]. f_equal. apply values_of_line.
  - rewrite line_not_legacy. f_equal. apply values_of_line.
Qed.

(** ** The native bindings *)

(** An operator a batch target reads outside quotes. *)
Definition batch_operator (c : Z) : bool := bool_decide (c ∈ lit "&|<>").

Lemma needs_slashes b n t : needs_quotes b true (replicate n 92 ++ t) = needs_quotes (if (n =? 0)%nat then b else 92) true t.
Proof. revert b. induction n as [|n IH]; intros b; [done|]. cbn. rewrite IH. by destruct n. Qed.

(** What is escaped for the split looks quoted to the legacy binder, to its end. *)
Lemma escaped_needs_none b n a : needs_quotes b true (msvcrt_body n a ++ [34]) = false.
Proof.
  revert b n. induction a as [|c a IH]; intros b n; cbn [msvcrt_body].
  - rewrite needs_slashes. cbn. by destruct (negb _).
  - destruct (c =? 92); [apply IH|destruct (c =? 34) eqn:E].
    + rewrite <- !app_assoc, needs_slashes. cbn. apply IH.
    + rewrite <- !app_assoc, needs_slashes. cbn [app needs_quotes]. rewrite E, andb_false_r. apply IH.
Qed.

Lemma plain_needs b a : Forall (fun c => c <> 34) a -> needs_quotes b false a = existsb js_ws a.
Proof.
  intros Ha. revert b. induction Ha as [|c a Hc _ IH]; intros b; [done|]. cbn.
  rewrite (proj2 (Z.eqb_neq c 34)) by done. rewrite andb_true_r. cbn. destruct (js_ws c); [done|apply IH].
Qed.

(** An argument that ends in no backslash and holds no quote needs no escape. *)
Lemma msvcrt_body_plain n a : Forall (fun c => c <> 34) a -> a <> [] -> last a <> Some 92 -> msvcrt_body n a = replicate n 92 ++ a.
Proof.
  intros Ha. revert n. induction Ha as [|c a Hc _ IH]; intros n Hn Hl; [done|]. cbn [msvcrt_body].
  rewrite (proj2 (Z.eqb_neq c 34)) by done. destruct (Z.eqb_spec c 92) as [-> |].
  - destruct a as [|d a]; [done|]. rewrite IH by done. cbn. by rewrite slash_inside.
  - destruct a as [|d a]; [done|]. by rewrite IH.
Qed.

(** What the binder does not lose. *)
Lemma kept_argument a : legacyBinderLoses a = false ->
  a <> [] /\ Forall (fun c => c <> 34 /\ c <> 94 /\ batch_operator c = false) a /\ (existsb js_ws a = true -> last a <> Some 92).
Proof.
  unfold legacyBinderLoses. intros [[Hn Ho]%orb_false_iff Hw]%orb_false_iff. apply bool_decide_eq_false in Hn.
  split; [done|]. split.
  - rewrite Forall_forall. intros c Hc%list_elem_of_In. apply not_true_iff_false in Ho. rewrite existsb_exists in Ho.
    assert (H : (c =? 34) || bool_decide (c ∈ lit "&|<>^") = false) by (apply not_true_iff_false; intros ?; apply Ho; by exists c).
    apply orb_false_iff in H as [H1%Z.eqb_neq H2%bool_decide_eq_false]. unfold batch_operator. rewrite bool_decide_eq_false.
    lit_units. tauto.
  - intros (c & Hc & Hs)%existsb_exists Hl. apply andb_false_iff in Hw as [Hw|Hw].
    + apply not_true_iff_false in Hw. apply Hw, existsb_exists. exists c. by rewrite Hs.
    + unfold ends_in in Hw. by rewrite bool_decide_eq_false in Hw.
Qed.

(** The word of one value on the legacy binder's line. *)
Definition legacy_word (v : text) : text := if needs_quotes 0 false v then [34] ++ v ++ [34] else v.

Lemma kept_word a : legacyBinderLoses a = false -> legacy_word a = a /\ existsb js_ws a = false \/ legacy_word a = quoteMsvcrtArg a.
Proof.
  intros (Hn & Ha & Hl)%kept_argument. unfold legacy_word.
  assert (Hq : Forall (fun c => c <> 34) a) by (eapply Forall_impl; [exact Ha|]; naive_solver).
  rewrite plain_needs by done. destruct (existsb js_ws a) eqn:E; [right|by left].
  unfold quoteMsvcrtArg. by rewrite msvcrt_body_plain by auto.
Qed.

Lemma escaped_word a : legacy_word (quoteMsvcrtArg a) = quoteMsvcrtArg a.
Proof.
  unfold legacy_word. replace (needs_quotes 0 false (quoteMsvcrtArg a)) with false; [done|].
  symmetry. apply (escaped_needs_none 34 0 a).
Qed.

Lemma blank_is_ws c : js_ws c = false -> blank c = false.
Proof. unfold js_ws, blank. lia. Qed.

Lemma kept_reads a : legacyBinderLoses a = false -> arg_reads (legacy_word a) a.
Proof.
  intros Hk. destruct (kept_argument a Hk) as (Hn & Ha & _). destruct (kept_word a Hk) as [[-> Hw]| ->]; [|apply quoted_arg_reads].
  apply bare_arg_reads; [done|]. rewrite Forall_forall in Ha |- *. intros c Hc. split; [|by apply Ha].
  apply blank_is_ws, not_true_iff_false. intros Hs. apply not_true_iff_false in Hw. apply Hw, existsb_exists.
  exists c. by rewrite <- list_elem_of_In.
Qed.

(** cmd takes an argument without quotes for no more than its text. *)
Lemma quoted_text_cmd a ops : 34 ∉ a -> cmd_as ops (quoteMsvcrtArg a) (quoteMsvcrtArg a).
Proof.
  intros Ha. apply cmd_as_quoted. intros H.
  assert (Hb : Forall (fun c => c <> 34) (msvcrt_body 0 a)).
  { apply msvcrt_body_units; [done|done|]. rewrite Forall_forall. by intros c Hc ->. }
  rewrite Forall_forall in Hb. exact (Hb _ H eq_refl).
Qed.

Lemma kept_cmd a : legacyBinderLoses a = false -> cmd_as batch_operator (legacy_word a) (legacy_word a).
Proof.
  intros Hk. destruct (kept_argument a Hk) as (_ & Ha & _). destruct (kept_word a Hk) as [[-> _]| ->]; [by apply cmd_as_plain_text|].
  apply quoted_text_cmd. intros H. rewrite Forall_forall in Ha. by destruct (Ha _ H).
Qed.

Lemma words_cmd ops (word : text -> text) l : ops 32 = false ->
  (forall a, a ∈ l -> cmd_as ops (word a) (word a)) -> cmd_as ops (concat (map (cons 32) (map word l))) (concat (map (cons 32) (map word l))).
Proof.
  intros Ho H. induction l as [|a l IH]; [apply cmd_as_nil|]. cbn [map concat].
  apply cmd_as_app; [|apply IH; intros b Hb; apply H; by right].
  apply (cmd_as_app _ [32] [32]); [by apply cmd_as_plain|apply H; by left].
Qed.

Lemma expand_nothing f t : (length t <= f)%nat -> expand (fun _ => None) f t = t.
Proof.
  revert f. induction t as [|c t IH]; intros f Hf; [by destruct f|]. destruct f as [|f]; [cbn in Hf; lia|].
  cbn [length expand] in *. repeat case_match; simplify_eq; f_equal; apply IH; lia.
Qed.

Section powershell.
  Context (program : text) (args : list text).
  (** The program's name needs nothing of the binder or of cmd. *)
  Context (Hp : Forall (fun c => blank c = false /\ c <> 34 /\ c <> 94 /\ batch_operator c = false) program).

Let loses (a : text) : bool := existsb legacyBinderLoses args && legacyBinderLoses a.
Let value (a : text) : text := if loses a then quoteMsvcrtArg a else a.

Lemma value_cases a : a ∈ args -> loses a = true \/ loses a = false /\ legacyBinderLoses a = false.
Proof.
  intros Ha. unfold loses. destruct (existsb legacyBinderLoses args) eqn:E; [destruct (legacyBinderLoses a); auto|].
  right. split; [done|]. apply not_true_iff_false in E. apply not_true_iff_false. intros H. apply E, existsb_exists.
  exists a. by rewrite <- list_elem_of_In.
Qed.

Lemma values_nonempty : List.filter nonempty (map value args) = map value args.
Proof.
  apply forallb_filter_id, forallb_forall. intros v (a & <- & Ha%list_elem_of_In)%in_map_iff. unfold nonempty.
  apply negb_true_iff, bool_decide_eq_false. unfold value. destruct (value_cases a Ha) as [->|[-> Hk]]; [done|]. by apply kept_argument.
Qed.

Lemma legacy_line_words : legacyNativeLine (program :: map value args) = join_spaces (program :: map (fun a => legacy_word (value a)) args).
Proof. unfold legacyNativeLine. rewrite values_nonempty. f_equal. f_equal. by rewrite map_map. Qed.

Lemma words_read : Forall2 arg_reads (map (fun a => legacy_word (value a)) args) args.
Proof.
  apply Forall2_fmap_l, Forall_Forall2_diag, Forall_forall. intros a Ha. cbn. unfold value.
  destruct (value_cases a Ha) as [->|[-> Hk]]; [rewrite escaped_word; apply quoted_arg_reads|by apply kept_reads].
Qed.

Lemma program_reads t : arg_end t -> program_part false (program ++ t) = (program, t).
Proof. apply program_bare. eapply Forall_impl; [exact Hp|]. naive_solver. Qed.

Lemma legacy_line_cmd : Forall (fun a => 34 ∉ a) args ->
  cmd_as batch_operator (legacyNativeLine (program :: map value args)) (legacyNativeLine (program :: map value args)).
Proof.
  intros Hq. rewrite legacy_line_words, join_head. apply cmd_as_app.
  { apply cmd_as_plain_text. eapply Forall_impl; [exact Hp|]. naive_solver. }
  assert (H : forall a, a ∈ args -> cmd_as batch_operator (legacy_word (value a)) (legacy_word (value a))).
  { intros a Ha. unfold value. destruct (value_cases a Ha) as [->|[-> Hk]]; [|by apply kept_cmd].
    rewrite escaped_word. apply quoted_text_cmd. rewrite Forall_forall in Hq. by apply Hq. }
  by apply words_cmd.
Qed.

(** What PowerShell hands a program, the argument split gives back. *)
Lemma powershell_reads :
  exists values, (powerShellValues (quotePowerShellCommand (program :: args))).2 = Some values /\
    msvcrtArgv (legacyNativeLine values) = Some (program :: args) /\
    ((powerShellValues (quotePowerShellCommand (program :: args))).1 = false -> msvcrtArgv (standardNativeLine values) = Some (program :: args)) /\
    (Forall (fun a => 34 ∉ a) args -> (cmdReads (fun _ => None) batch_operator (legacyNativeLine values) ≫= msvcrtArgv) = Some (program :: args)).
Proof.
  exists (program :: map value args). rewrite powerShellValues_of. cbn [fst snd].
  assert (Hr : msvcrtArgv (legacyNativeLine (program :: map value args)) = Some (program :: args)).
  { rewrite legacy_line_words. apply argv_read; [apply program_reads|apply words_read]. }
  repeat split; [done|intros Hl|intros Hq].
  - unfold value, loses. rewrite Hl. cbn [andb]. rewrite map_id. cbn [standardNativeLine].
    apply argv_read; [apply program_reads|]. apply Forall2_fmap_l, Forall_Forall2_diag, Forall_true, quoted_arg_reads.
  - unfold cmdReads. rewrite expand_nothing by lia.
    pose proof (legacy_line_cmd Hq []) as Hc. rewrite app_nil_r in Hc. rewrite Hc. cbn. by rewrite app_nil_r.
Qed.

End powershell.

(** A command line quoted for PowerShell carries every argument to the program:
    the program gets the vector it was quoted from through the legacy native
    binding, which the line pins where an argument needs it, and otherwise
    through the standard one as well; and a batch target, whose line cmd reads
    again, gets it too when no argument holds a double quote. *)
Theorem powershell_round_trip program args :
  Forall (fun c => blank c = false /\ c <> 34 /\ c <> 94 /\ batch_operator c = false) program ->
  exists values, (powerShellValues (buildShellCommandForKind powershell (program :: args))).2 = Some values /\
    msvcrtArgv (legacyNativeLine values) = Some (program :: args) /\
    ((powerShellValues (buildShellCommandForKind powershell (program :: args))).1 = false ->
      msvcrtArgv (standardNativeLine values) = Some (program :: args)) /\
    (Forall (fun a => 34 ∉ a) args ->
      (cmdReads (fun _ => None) batch_operator (legacyNativeLine values) ≫= msvcrtArgv) = Some (program :: args)).
Proof. apply powershell_reads. Qed.

(** ** The form all of them read *)

Lemma expand_free vars f t : 37 ∉ t -> (length t <= f)%nat -> expand vars f t = t.
Proof.
  revert f. induction t as [|c t IH]; intros f Ht Hf; [by destruct f|]. destruct f as [|f]; [cbn in Hf; lia|].
  apply not_elem_of_cons in Ht as [Hc Ht]. cbn [length expand] in *. rewrite (proj2 (Z.eqb_neq c 37)) by congruence.
  f_equal. apply IH; [done|lia].
Qed.

Lemma portable_units a : portable_unsafe a = false -> Forall (fun c => c <> 34 /\ c <> 37) a.
Proof.
  induction a as [|c a IH]; [done|]. cbn [portable_unsafe]. rewrite !orb_false_iff. intros ((((H34 & _) & Hl) & _) & Hr).
  constructor; [|by apply IH]. apply Z.eqb_neq in H34. apply bool_decide_eq_false in Hl. lit_units. tauto.
Qed.

(** A portable argument is bare, or is the form the split needs between quotes. *)
Lemma portable_arg a q : quoteWindowsPortableArg a = Some q ->
  q = a /\ WINDOWS_SAFE_ARG a = true \/ q = quoteMsvcrtArg a /\ Forall (fun c => c <> 34 /\ c <> 37) a.
Proof.
  unfold quoteWindowsPortableArg. case_bool_decide as Hn; [done|]. destruct (WINDOWS_SAFE_ARG a); [intros [= <-]; by left|].
  destruct (portable_unsafe a || _) eqn:Hu; [done|]. destruct (_ || ends_in 92 a) eqn:He; [done|]. intros [= <-]. right.
  apply orb_false_iff in Hu as [Hu _], He as [_ He]. apply portable_units in Hu. split; [|done].
  unfold quoteMsvcrtArg. rewrite msvcrt_body_plain; [done| |done|].
  - eapply Forall_impl; [exact Hu|]. naive_solver.
  - unfold ends_in in He. by apply bool_decide_eq_false in He.
Qed.

Lemma portable_arg_reads a q : quoteWindowsPortableArg a = Some q -> 37 ∉ q /\ cmd_as cmd_operator q q /\ arg_reads q a.
Proof.
  intros [[-> Hs]|[-> Ha]]%portable_arg.
  - split; [|split; [by apply safe_arg_cmd|by apply safe_arg_reads]].
    apply safe_arg_units in Hs as [_ Hs]. intros H. rewrite Forall_forall in Hs. apply Hs, windows_safe_ordinary in H. tauto.
  - rewrite Forall_forall in Ha. split; [|split; [apply quoted_text_cmd; intros H; by destruct (Ha _ H)|apply quoted_arg_reads]].
    assert (Hb : Forall (fun c => c <> 37) (msvcrt_body 0 a)).
    { apply msvcrt_body_units; [done|done|]. rewrite Forall_forall. intros c Hc. by apply Ha. }
    rewrite Forall_forall in Hb. unfold quoteMsvcrtArg. rewrite !elem_of_app, !elem_of_cons, !elem_of_nil.
    intros [[?|?]|[H|[?|?]]]; try done. exact (Hb _ H eq_refl).
Qed.

Lemma portable_args args quoted : mapM quoteWindowsPortableArg args = Some quoted ->
  37 ∉ concat (map (cons 32) quoted) /\
  cmd_as cmd_operator (concat (map (cons 32) quoted)) (concat (map (cons 32) quoted)) /\ Forall2 arg_reads quoted args.
Proof.
  revert quoted. induction args as [|a args IH]; intros quoted Hq.
  - injection Hq as <-. split; [apply not_elem_of_nil|]. split; [apply cmd_as_nil|done].
  - apply mapM_Some in Hq. apply Forall2_cons_inv_l in Hq as (q & qs & Ha & Hqs & ->).
    apply mapM_Some in Hqs. destruct (IH qs Hqs) as (H1 & H2 & H3). destruct (portable_arg_reads a q Ha) as (Ha1 & Ha2 & Ha3).
    split; [|split; [|by constructor]]; cbn [map concat].
    + rewrite elem_of_app, elem_of_cons. naive_solver.
    + apply cmd_as_app; [|done]. by apply (cmd_as_app _ [32] [32]); [apply cmd_as_plain|].
Qed.

(** The portable form is read by cmd as the vector, whatever the variables. *)
Lemma portable_command_reads vars args line : buildWindowsPortableCommand args = Some line ->
  (cmdReads vars cmd_operator line ≫= msvcrtArgv) = Some args.
Proof.
  destruct args as [|program args]; [done|]. cbn [buildWindowsPortableCommand].
  destruct (WINDOWS_SAFE_ARG program) eqn:Hs; [|done]. destruct (mapM _ args) as [quoted|] eqn:Hq; [|done]. intros [= <-].
  destruct (portable_args args quoted Hq) as (H37 & Hr & Hw).
  destruct (portable_arg_reads program program) as (Hp37 & Hp & _).
  { unfold quoteWindowsPortableArg. rewrite Hs. by rewrite bool_decide_false by (by apply safe_arg_units). }
  assert (Hf : 37 ∉ join_spaces (program :: quoted)) by (rewrite join_head, elem_of_app; naive_solver).
  unfold cmdReads. rewrite expand_free by (done || lia).
  assert (Ha : cmd_as cmd_operator (join_spaces (program :: quoted)) (join_spaces (program :: quoted))).
  { rewrite join_head. by apply cmd_as_app. }
  change (match quoted with [] => program | _ :: _ => _ end) with (join_spaces (program :: quoted)).
  specialize (Ha []). rewrite app_nil_r in Ha. rewrite Ha. cbn [cmd_reads option_map mbind option_bind]. rewrite app_nil_r.
  apply argv_read; [|done]. intros t. apply program_bare. apply safe_arg_units in Hs as [_ Hs].
  eapply Forall_impl; [exact Hs|]. intros c Hc%windows_safe_ordinary. tauto.
Qed.

(** A program path of spaces and operators, an argument that would run a
    command, one that would expand and one that ends in a backslash. *)
Lemma cmd_round_trip_witness :
  let vars := fun name => if bool_decide (name = lit "PATH") then Some (lit "C:\Windows") else None in
  let program := lit "C:\x (86)\a&b.exe" in
  let args := [[97; 34] ++ lit "&calc&" ++ [34; 98]; lit "%PATH%"; lit "a b\"; []] in
  (cmdReads vars cmd_operator (buildShellCommandForKind cmd (program :: args)) ≫= msvcrtArgv) = Some (program :: args).
Proof.
  intros vars program args. apply (cmd_round_trip vars program args); [done|by vm_compute; set_solver..].
Defined.

Lemma powershell_round_trip_witness :
  let args := [[97; 34] ++ lit "&calc&" ++ [34; 98]; lit "$HOME"; lit "it's"; lit "a b\"; []] in
  exists values, (powerShellValues (buildShellCommandForKind powershell (lit "node" :: args))).2 = Some values /\
    msvcrtArgv (legacyNativeLine values) = Some (lit "node" :: args).
Proof.
  intros args. destruct (powershell_round_trip (lit "node") args) as (values & H & Hl & _); [|by exists values].
  repeat constructor; vm_compute; congruence.
Defined.
