(* ===== verification/TermProtocol.v ===== *)
(** * The terminal protocol parser (lib/src/lib/terminal-protocol.ts)

    [TerminalProtocolParser.process]: a read of a program's output becomes the
    bytes xterm.js is given, the text a prompt detector reads and the events
    the host acts on.  A sequence split across reads is held, streamed through
    or discarded.  An event handler that throws aborts the read. *)
From Stdlib Require Import ZArith Lia.
From S2P Require Import Prelude JsValue TermText TermControls TermCwd ToolOsc OscParse.
#[local] Open Scope Z_scope.
#[local] Open Scope list_scope.
#[local] Set Warnings "-abstract-large-number".

Definition OSC_INCOMPLETE_LIMIT : nat := 16384.

Definition ITERM2_COMPAT_VERSION : text := lit "3.6.6".
Definition ITERM2_DEVICE_ATTRIBUTES_RESPONSE : text := [ESC] ++ lit "P>|iTerm2 " ++ ITERM2_COMPAT_VERSION ++ [ESC; 92].
Definition TERMINAL_BELL_NOTIFICATION : Notification := mkNote src_BEL (Some (lit "Terminal bell")) None.

(** [private] fields of the parser; a held text is a lone escape or nothing. *)
Record Parser := mkParser {
  pending : text;
  forwarding : option (StringControlKind * text);
  discarding : option text;
  osc99Pending : Osc99Map
}.

Definition new_parser : Parser := mkParser [] None None [].

Definition isForwardingString (p : Parser) : bool := bool_decide (is_Some (forwarding p)).

Definition set_pending (t : text) (p : Parser) : Parser := mkParser t (forwarding p) (discarding p) (osc99Pending p).
Definition set_forwarding (f : option (StringControlKind * text)) (p : Parser) : Parser :=
  mkParser (pending p) f (discarding p) (osc99Pending p).
Definition set_discarding (d : option text) (p : Parser) : Parser := mkParser (pending p) (forwarding p) d (osc99Pending p).
Definition set_osc99 (m : Osc99Map) (p : Parser) : Parser := mkParser (pending p) (forwarding p) (discarding p) m.

Record ParseResult := mkResult {
  visibleData : text;
  textData : text;
  events : list TerminalProtocolEvent;
  resumedStringEnd : option nat
}.

(** [NEEDS_PARSE_RE]. *)
Definition needs_parse (t : text) : bool :=
  existsb (fun c => (c =? BEL) || (c =? ESC) || (c =? C1_CSI)) t || bool_decide (is_Some (find_introducer t)).

(** ** Ground text *)

(** [stripStandaloneBells]: the text without bells, and the bell it reports. *)
Definition stripStandaloneBells (segment : text) : text * list TerminalProtocolEvent :=
  if existsb (Z.eqb BEL) segment
  then (List.filter (fun c => negb (c =? BEL)) segment, [notification TERMINAL_BELL_NOTIFICATION])
  else (segment, []).

(** [DEVICE_ATTRIBUTE_QUERY] at the head of a text: what follows it. *)
Definition query_at (t : text) : option text :=
  match t with
  | c :: t' =>
      if c =? ESC then if starts_with (lit "[>q") t' then Some (drop 3 t') else None
      else if c =? C1_CSI then if starts_with (lit ">q") t' then Some (drop 2 t') else None
      else None
  | [] => None
  end.

(** [answerDeviceAttributeQueries]: the text without the queries, and how many there were;
    [skip] is what is left of the query being removed. *)
Fixpoint remove_queries (skip : nat) (t : text) : text * nat :=
  match t with
  | [] => ([], 0%nat)
  | c :: t' =>
      match skip with
      | S skip => remove_queries skip t'
      | O =>
          match query_at t with
          | Some rest => let r := remove_queries (length t' - length rest) t' in (r.1, S r.2)
          | None => let r := remove_queries 0 t' in (c :: r.1, r.2)
          end
      end
  end.

Definition answerDeviceAttributeQueries (ground : text) : text * list TerminalProtocolEvent :=
  let r := remove_queries 0 ground in (r.1, repeat (response ITERM2_DEVICE_ATTRIBUTES_RESPONSE) r.2).

Definition DEVICE_ATTRIBUTE_PENDING_SUFFIXES : list text := [[ESC; 91; 62]; [ESC; 91]; [ESC]; [C1_CSI; 62]; [C1_CSI]].

Definition takeDeviceAttributePendingSuffix (t : text) : text :=
  default [] (List.find (fun suffix => ends_with suffix t) DEVICE_ATTRIBUTE_PENDING_SUFFIXES).

(** ** Where a string control ends *)

Record StringControlEnd := mkEnd { e_index : nat; e_end : nat; cancelled : bool }.

(** [findStringControlEnd] from the head of a text. *)
Definition findStringControlEnd (k : StringControlKind) (t : text) : option StringControlEnd :=
  match index_where (ends_string k) t with
  | None => None
  | Some i =>
      match t !! i with
      | Some c =>
          if negb (c =? ESC) then Some (mkEnd i (S i) ((c =? CAN) || (c =? SUB)))
          else
            match t !! S i with
            | None => None
            | Some d => if d =? 92 then Some (mkEnd i (S (S i)) false) else Some (mkEnd i i true)
            end
      | None => None
      end
  end.

(** The escape held back from the end of a text, and the text without it. *)
Definition held_esc (t : text) : text := if ends_in ESC t then [ESC] else [].
Definition without_esc (t : text) : text := if ends_in ESC t then take (length t - 1) t else t.

(** ** The bells of a read *)

Definition is_bell (e : TerminalProtocolEvent) : bool :=
  match e with notification n => bool_decide (n_source n = src_BEL) | _ => false end.

Definition is_richer (e : TerminalProtocolEvent) : bool :=
  match e with notification n => negb (bool_decide (n_source n = src_BEL)) | _ => false end.

(** Every bell but the first goes. *)
Fixpoint keep_one_bell (kept : bool) (evs : list TerminalProtocolEvent) : list TerminalProtocolEvent :=
  match evs with
  | [] => []
  | e :: evs =>
      if is_bell e then if kept then keep_one_bell kept evs else e :: keep_one_bell true evs
      else e :: keep_one_bell kept evs
  end.

Definition filterTerminalBellEvents (evs : list TerminalProtocolEvent) : list TerminalProtocolEvent :=
  let bellCount := length (List.filter is_bell evs) in
  let hasRicher := existsb is_richer evs in
  if (bellCount =? 0)%nat then evs
  else if negb hasRicher && (bellCount =? 1)%nat then evs
  else if hasRicher then List.filter (fun e => negb (is_bell e)) evs
  else keep_one_bell false evs.

(** ** process *)

Section process.
  Context {U : UrlHost} {J : JsonHost}.
  Variable colorProvider : option (TerminalColorTarget -> option text).
  Variable now : Z.

(** What a read has emitted so far. *)
Record Emitted := mkEmitted { em_visible : text; em_text : text; em_events : list TerminalProtocolEvent }.

Definition emit_ground (ground : text) (evs : list TerminalProtocolEvent) (e : Emitted) : Emitted :=
  mkEmitted (em_visible e ++ ground) (em_text e ++ ground) (em_events e ++ evs).
Definition emit_visible (v : text) (e : Emitted) : Emitted := mkEmitted (em_visible e ++ v) (em_text e) (em_events e).
Definition emit_events (evs : list TerminalProtocolEvent) (e : Emitted) : Emitted :=
  mkEmitted (em_visible e) (em_text e) (em_events e ++ evs).

(** The last run of ground text of a read: a partial query at its end is held. *)
Definition ground_tail (t : text) (p : Parser) (e : Emitted) : Parser * Emitted :=
  let stripped := stripStandaloneBells t in
  let held := takeDeviceAttributePendingSuffix stripped.1 in
  let ground := answerDeviceAttributeQueries (take (length stripped.1 - length held) stripped.1) in
  (set_pending held p, emit_ground ground.1 (stripped.2 ++ ground.2) e).

(** A run of ground text an introducer ends. *)
Definition ground_gap (t : text) (e : Emitted) : Emitted :=
  let stripped := stripStandaloneBells t in
  let ground := answerDeviceAttributeQueries stripped.1 in
  emit_ground ground.1 (stripped.2 ++ ground.2) e.

(** [beginForwarding]: the state, and what is emitted now. *)
Definition beginForwarding (k : StringControlKind) (t : text) (p : Parser) : Parser * text :=
  (set_forwarding (Some (k, held_esc t)) p, without_esc t).

(** A string control the read does not finish: [incomplete] from its introducer on, [rest] past it. *)
Definition incomplete_control (k : StringControlKind) (incomplete rest : text) (p : Parser) (e : Emitted) : Parser * Emitted :=
  let disposition := match k with osc => oscDispositionAt rest | other => Some forward end in
  if bool_decide (disposition = Some forward) then
    let f := beginForwarding k incomplete p in (f.1, emit_visible f.2 e)
  else if (length incomplete <=? OSC_INCOMPLETE_LIMIT)%nat then (set_pending incomplete p, e)
  else (set_discarding (Some (held_esc incomplete)) p, e).

(** A finished string control: [sequence] with its introducer, [rest] the text past the introducer. *)
Definition complete_control (k : StringControlKind) (sequence rest : text) (end_ : StringControlEnd) (p : Parser) (e : Emitted)
    : Parser * outcome Emitted :=
  match k with
  | other => (p, Ok (emit_visible sequence e))
  | osc =>
      if cancelled end_ then
        (p, Ok (if bool_decide (oscDispositionAt rest = Some forward) then emit_visible sequence e else e))
      else
        let r := parseOsc colorProvider now (osc99Pending p) (take (e_index end_) rest) in
        (set_osc99 r.1 p,
         let! parsed := r.2 in
         Ok (match parsed with None => emit_visible sequence e | Some evs => emit_events evs e end))
  end.

(** The [while] loop, from the text still unread. *)
Fixpoint scan (fuel : nat) (t : text) (p : Parser) (e : Emitted) : Parser * outcome Emitted :=
  match fuel, t with
  | S fuel, _ :: _ =>
      match find_introducer t with
      | None => let r := ground_tail t p e in (r.1, Ok r.2)
      | Some (i, n, k) =>
          let e := ground_gap (take i t) e in
          let rest := drop (i + n) t in
          match findStringControlEnd k rest with
          | None => let r := incomplete_control k (drop i t) rest p e in (r.1, Ok r.2)
          | Some end_ =>
              let r := complete_control k (take (n + e_end end_) (drop i t)) rest end_ p e in
              match r.2 with
              | Ok e => scan fuel (drop (e_end end_) rest) r.1 e
              | Throw x => (r.1, Throw x)
              end
          end
      end
  | _, _ => (p, Ok e)
  end.

(** [process] outside a forwarded or discarded string. *)
Definition process_ground (data : text) (p : Parser) : Parser * outcome ParseResult :=
  if bool_decide (pending p = []) && negb (needs_parse data) then (p, Ok (mkResult data data [] (Some 0%nat)))
  else
    let t := pending p ++ data in
    let r := scan (length t) t (set_pending [] p) (mkEmitted [] [] []) in
    (r.1, let! e := r.2 in Ok (mkResult (em_visible e) (em_text e) (filterTerminalBellEvents (em_events e)) (Some 0%nat))).

(** [processForwarded]. *)
Definition processForwarded (k : StringControlKind) (heldEsc data : text) (p : Parser) : Parser * outcome ParseResult :=
  let t := heldEsc ++ data in
  match findStringControlEnd k t with
  | None => let f := beginForwarding k t p in (f.1, Ok (mkResult f.2 [] [] None))
  | Some end_ =>
      let r := process_ground (drop (e_end end_) t) (set_forwarding None p) in
      (r.1, let! rest := r.2 in
            Ok (mkResult (take (e_end end_) t ++ visibleData rest) (textData rest) (events rest) (Some (e_end end_))))
  end.

Definition process_live (data : text) (p : Parser) : Parser * outcome ParseResult :=
  match forwarding p with
  | Some (k, heldEsc) => processForwarded k heldEsc data p
  | None => process_ground data p
  end.

Definition process (data : text) (p : Parser) : Parser * outcome ParseResult :=
  match discarding p with
  | Some heldEsc =>
      let t := heldEsc ++ data in
      match findStringControlEnd osc t with
      | None => (set_discarding (Some (held_esc t)) p, Ok (mkResult [] [] [] (Some 0%nat)))
      | Some end_ => process_live (drop (e_end end_) t) (set_discarding None p)
      end
  | None => process_live data p
  end.

(** The reads of a stream in order; a read that throws ends them. *)
Fixpoint process_reads (reads : list text) (p : Parser) : Parser * outcome (list ParseResult) :=
  match reads with
  | [] => (p, Ok [])
  | data :: reads =>
      let r := process data p in
      match r.2 with
      | Ok res => let rs := process_reads reads r.1 in (rs.1, let! ress := rs.2 in Ok (res :: ress))
      | Throw x => (r.1, Throw x)
      end
  end.

End process.
