(* ===== verification/TermScan.v ===== *)
(** * Where sequences begin and end, under extension

    How the scans of the terminal parser answer on a text of which only a
    prefix has been read: introducers, string ends, escapes held back; and the
    removal of bells and of device-attribute queries from ground text read in
    two pieces, where a query split between them is held back whole. *)
From Stdlib Require Import ZArith Lia.
From S2P Require Import Prelude JsValue TermText TermControls TermCwd TermDecode ToolOsc OscParse TermProtocol.
#[local] Open Scope Z_scope.
#[local] Open Scope list_scope.
#[local] Set Warnings "-abstract-large-number".

(** ** The end of a text *)

Lemma ends_in_snoc c t d : ends_in c (t ++ [d]) = (d =? c).
Proof. unfold ends_in. rewrite last_snoc. destruct (Z.eqb_spec d c); [by subst; apply bool_decide_true|apply bool_decide_false; congruence]. Qed.

Lemma ends_in_spec c t : ends_in c t = true -> exists t', t = t' ++ [c].
Proof.
  destruct t as [|d t _] using rev_ind; [done|]. rewrite ends_in_snoc. intros ->%Z.eqb_eq. by exists t.
Qed.

Lemma esc_split t : t = without_esc t ++ held_esc t.
Proof.
  unfold without_esc, held_esc. destruct (ends_in ESC t) eqn:E; [|by rewrite app_nil_r].
  destruct (ends_in_spec _ _ E) as [t' ->]. rewrite length_app. cbn [length].
  rewrite Nat.add_sub. by rewrite take_app_length.
Qed.

Lemma ends_in_app c x y : y <> [] -> ends_in c (x ++ y) = ends_in c y.
Proof. destruct y as [|d y _] using rev_ind; [done|]. intros _. by rewrite app_assoc, !ends_in_snoc. Qed.

Lemma held_app x y : held_esc (x ++ y) = held_esc (held_esc x ++ y).
Proof.
  destruct y as [|d y].
  - rewrite !app_nil_r. unfold held_esc. by destruct (ends_in ESC x).
  - unfold held_esc at 1 2. by rewrite !(ends_in_app ESC _ (d :: y)).
Qed.

Lemma without_app x y : without_esc (x ++ y) = without_esc x ++ without_esc (held_esc x ++ y).
Proof.
  apply (app_inv_tail (held_esc (x ++ y))). rewrite <- esc_split. rewrite <- app_assoc, (held_app x y), <- esc_split.
  by rewrite app_assoc, <- esc_split.
Qed.

Lemma held_esc_cases t : held_esc t = [] /\ ends_in ESC t = false \/ held_esc t = [ESC] /\ exists t', t = t' ++ [ESC].
Proof.
  unfold held_esc. destruct (ends_in ESC t) eqn:E; [right|by left]. split; [done|]. by apply ends_in_spec.
Qed.

(** ** Introducers *)

Definition shift_intro (j : nat) (x : option (nat * nat * StringControlKind)) : option (nat * nat * StringControlKind) :=
  match x with Some (i, n, k) => Some ((j + i)%nat, n, k) | None => None end.

Lemma shift_intro_0 x : shift_intro 0 x = x.
Proof. by destruct x as [[[]]|]. Qed.

Lemma shift_intro_S j x : shift_intro 1 (shift_intro j x) = shift_intro (S j) x.
Proof. by destruct x as [[[]]|]. Qed.

Lemma find_introducer_cons c t :
  find_introducer (c :: t) =
    match introducer_at (c :: t) with Some (n, k) => Some (0%nat, n, k) | None => shift_intro 1 (find_introducer t) end.
Proof. cbn [find_introducer]. destruct (introducer_at (c :: t)) as [[]|]; [done|]. by destruct (find_introducer t) as [[[]]|]. Qed.

Lemma introducer_at_app t b x : introducer_at t = Some x -> introducer_at (t ++ b) = Some x.
Proof. destruct t as [|c t]; [done|]. cbn. destruct (c =? ESC); [by destruct t|done]. Qed.

Lemma find_introducer_app t b x : find_introducer t = Some x -> find_introducer (t ++ b) = Some x.
Proof.
  revert x. induction t as [|c t IH]; intros x; [done|]. rewrite <- app_comm_cons, !find_introducer_cons, app_comm_cons.
  destruct (introducer_at (c :: t)) as [y|] eqn:E; [by rewrite (introducer_at_app _ b _ E)|].
  destruct (find_introducer t) as [[[i n] k]|] eqn:Ef; [|done]. intros [= <-].
  destruct (introducer_at ((c :: t) ++ b)) as [[n' k']|] eqn:E'; [|by rewrite (IH _ eq_refl)].
  cbn [introducer_at app] in E, E'. destruct (c =? ESC); [|congruence]. destruct t as [|d t]; [done|]. cbn in E'. congruence.
Qed.

(** No introducer begins before the cut, and none straddles it. *)
Lemma find_introducer_shift t b :
  find_introducer t = None ->
  (ends_in ESC t = false \/ match b with [] => True | d :: _ => esc_opener d = None end) ->
  find_introducer (t ++ b) = shift_intro (length t) (find_introducer b).
Proof.
  induction t as [|c t IH]; intros Hf He; [by rewrite shift_intro_0|].
  rewrite find_introducer_cons in Hf. rewrite <- app_comm_cons, find_introducer_cons, app_comm_cons.
  destruct (introducer_at (c :: t)) as [[n k]|] eqn:E; [done|]. destruct (find_introducer t) as [[[]]|]; [done|].
  assert (He' : ends_in ESC t = false \/ match b with [] => True | d :: _ => esc_opener d = None end).
  { destruct He as [He|He]; [|by right]. destruct t; [by left|]. by left. }
  assert (introducer_at ((c :: t) ++ b) = None) as ->; [|by rewrite IH, shift_intro_S].
  cbn [introducer_at app] in *. destruct (Z.eqb_spec c ESC) as [->|]; [|done].
  destruct t as [|d t]; [|done]. destruct b as [|d b]; [done|]. cbn. destruct He as [He|He]; [done|]. by rewrite He.
Qed.

(** The text before the first introducer has none, and the rest begins with it. *)
Lemma find_introducer_split t i n k :
  find_introducer t = Some (i, n, k) -> introducer_at (drop i t) = Some (n, k) /\ (0 < n)%nat /\ (i + n <= length t)%nat.
Proof.
  intros H. destruct (ground_some t i n k H) as (_ & Hn & Hl). split; [|done]. clear Hn Hl.
  revert i H. induction t as [|c t IH]; intros i; [done|]. rewrite find_introducer_cons.
  destruct (introducer_at (c :: t)) as [[n' k']|] eqn:E; [by intros [= <- <- <-]|].
  destruct (find_introducer t) as [[[j n'] k']|]; [|done]. intros [= <- <- <-]. by apply IH.
Qed.

Lemma find_introducer_at t n k : introducer_at t = Some (n, k) -> find_introducer t = Some (0%nat, n, k).
Proof. destruct t as [|c t]; [done|]. intros H. by rewrite find_introducer_cons, H. Qed.

(** An introducer is its units: it ends in no escape. *)
Lemma introducer_last t n k :
  introducer_at t = Some (n, k) -> exists x c, take n t = x ++ [c] /\ c <> ESC /\ (k = osc -> c = 93 \/ c = 157).
Proof.
  destruct t as [|c t]; [done|]. cbn [introducer_at]. destruct (Z.eqb_spec c ESC) as [->|Hc].
  - destruct t as [|d t]; [done|]. unfold esc_opener. intros H. exists [ESC], d.
    destruct (Z.eqb_spec d 93) as [->|]; [by injection H as <- <-; split_and!; try done; left|].
    destruct ((d =? 80) || (d =? 88) || (d =? 94) || (d =? 95)) eqn:E; [|done]. injection H as <- <-.
    split_and!; [done| |done]. intros ->. done.
  - intros H. exists [], c. destruct (c1_opener c) as [k'|] eqn:E; [|done]. injection H as <- <-. split_and!; try done.
    intros ->. right. unfold c1_opener in E. destruct (Z.eqb_spec c 157); [done|].
    by destruct ((c =? 144) || (c =? 152) || (c =? 158) || (c =? 159)).
Qed.

(** ** String ends *)

Definition shift_end (j : nat) (x : option StringControlEnd) : option StringControlEnd :=
  option_map (fun e => mkEnd (j + e_index e) (j + e_end e) (cancelled e)) x.

Lemma index_where_app p t b :
  index_where p (t ++ b) = match index_where p t with Some i => Some i | None => option_map (Nat.add (length t)) (index_where p b) end.
Proof.
  unfold index_where. induction t as [|c t IH]; [cbn; by destruct (find_index p b)|]. cbn [find_index app length]. destruct (p c); [done|].
  rewrite IH. destruct (find_index p t); [done|]. by destruct (find_index p b).
Qed.

Lemma index_where_None p t : index_where p t = None <-> Forall (fun c => p c = false) t.
Proof.
  unfold index_where. induction t as [|c t IH]; [done|]. cbn [find_index]. rewrite Forall_cons, <- IH.
  destruct (p c), (find_index p t); cbn; (split; [try done; by split|by intros [? ?]]).
Qed.

(** Where the first unit of a class stands: before it there is none. *)
Lemma index_where_Some p t i :
  index_where p t = Some i -> exists t1 c t2, t = t1 ++ c :: t2 /\ length t1 = i /\ p c = true /\ index_where p t1 = None.
Proof.
  revert i. induction t as [|c t IH]; intros i; [done|]. unfold index_where in *. cbn [find_index]. destruct (p c) eqn:E.
  - intros [= <-]. by exists [], c, t.
  - destruct (find_index p t) as [j|]; [|done]. intros [= <-]. destruct (IH j eq_refl) as (t1 & d & t2 & -> & <- & Hd & H1).
    exists (c :: t1), d, t2. split_and!; try done. cbn. by rewrite E, H1.
Qed.

Lemma ends_string_ESC k : ends_string k ESC = true.
Proof. by destruct k. Qed.

Lemma find_end_here k c t :
  ends_string k c = true ->
  findStringControlEnd k (c :: t) =
    if negb (c =? ESC) then Some (mkEnd 0 1 ((c =? CAN) || (c =? SUB)))
    else match t with [] => None | d :: _ => if d =? 92 then Some (mkEnd 0 2 false) else Some (mkEnd 0 0 true) end.
Proof. intros Hc. unfold findStringControlEnd, index_where. cbn [find_index]. rewrite Hc. cbn. destruct (c =? ESC); [|done]. by destruct t. Qed.

(** Past a text with no end in it, the scan is that of what follows. *)
Lemma find_end_shift k t b :
  index_where (ends_string k) t = None -> findStringControlEnd k (t ++ b) = shift_end (length t) (findStringControlEnd k b).
Proof.
  intros Ht. unfold findStringControlEnd. rewrite index_where_app, Ht.
  destruct (index_where (ends_string k) b) as [i|]; [|done]. cbn [option_map].
  rewrite lookup_app_r, Nat.add_sub' by lia. destruct (b !! i) as [c|]; [|done]. destruct (c =? ESC); cbn [negb].
  - rewrite <- Nat.add_succ_r, lookup_app_r, Nat.add_sub' by lia. destruct (b !! S i) as [d|]; [|done].
    destruct (d =? 92); cbn; by rewrite ?Nat.add_succ_r.
  - cbn. by rewrite Nat.add_succ_r.
Qed.

Lemma find_end_spec k t e :
  findStringControlEnd k t = Some e ->
  exists t1 c t2, t = t1 ++ c :: t2 /\ index_where (ends_string k) t1 = None /\ ends_string k c = true /\
    e_index e = length t1 /\ (length t1 <= e_end e <= length t)%nat /\ findStringControlEnd k (c :: t2) = Some (mkEnd 0 (e_end e - length t1) (cancelled e)).
Proof.
  intros He. destruct (index_where (ends_string k) t) as [i|] eqn:Ei; [|unfold findStringControlEnd in He; by rewrite Ei in He].
  destruct (index_where_Some _ _ _ Ei) as (t1 & c & t2 & -> & <- & Hc & H1). exists t1, c, t2.
  rewrite find_end_shift in He by done.
  destruct (findStringControlEnd k (c :: t2)) as [e'|] eqn:E'; [|done]. injection He as <-. cbn [e_index e_end cancelled].
  rewrite find_end_here in E' by done. rewrite length_app. cbn [length].
  destruct (negb (c =? ESC)); [|destruct t2 as [|d t2]; [done|destruct (d =? 92)]]; injection E' as <-;
    cbn [e_index e_end cancelled length]; rewrite ?Nat.add_0_r, ?Nat.add_sub', ?Nat.sub_diag; split_and!; try done; lia.
Qed.

Lemma find_end_app k t b e : findStringControlEnd k t = Some e -> findStringControlEnd k (t ++ b) = Some e.
Proof.
  intros He. destruct (find_end_spec _ _ _ He) as (t1 & c & t2 & -> & H1 & Hc & Hi & _ & E).
  rewrite find_end_shift in He by done. rewrite <- app_assoc, find_end_shift, <- He by done. f_equal.
  rewrite E, <- app_comm_cons. rewrite find_end_here in * by done. destruct (negb (c =? ESC)); [done|]. by destruct t2.
Qed.

(** A text with no finished end: no unit of it ends the string but an escape it ends in. *)
Lemma find_end_None k t :
  findStringControlEnd k t = None -> index_where (ends_string k) (without_esc t) = None.
Proof.
  intros He. destruct (index_where (ends_string k) t) as [i|] eqn:Ei.
  - destruct (index_where_Some _ _ _ Ei) as (t1 & c & t2 & -> & <- & Hc & H1). rewrite find_end_shift, find_end_here in He by done.
    destruct (Z.eqb_spec c ESC) as [->|]; [|done]. destruct t2 as [|d t2]; [|by destruct (d =? 92)].
    unfold without_esc. rewrite ends_in_snoc, Z.eqb_refl, length_app. cbn [length]. by rewrite Nat.add_sub, take_app_length.
  - rewrite (esc_split t), index_where_app in Ei. by destruct (index_where (ends_string k) (without_esc t)).
Qed.

Lemma find_end_resume k t b :
  findStringControlEnd k t = None ->
  findStringControlEnd k (t ++ b) = shift_end (length (without_esc t)) (findStringControlEnd k (held_esc t ++ b)).
Proof. intros He. rewrite (esc_split t) at 1. rewrite <- app_assoc. apply find_end_shift. by apply find_end_None. Qed.

(** ** Dispositions *)

Lemma span_of_app p t b : (span_of p t).2 <> [] -> span_of p (t ++ b) = ((span_of p t).1, (span_of p t).2 ++ b).
Proof.
  induction t as [|c t IH]; cbn; [done|]. destruct (p c); [|done]. cbn. intros H. by rewrite IH.
Qed.

Lemma span_of_spec p t : t = (span_of p t).1 ++ (span_of p t).2 /\ Forall (fun c => p c = true) (span_of p t).1.
Proof.
  induction t as [|c t IH]; [done|]. cbn [span_of]. destruct (p c) eqn:E; [|done].
  destruct IH as [IH1 IH2]. cbn [fst snd app]. split; [by f_equal|by constructor].
Qed.

Lemma span_of_stop p ds c t : Forall (fun c => p c = true) ds -> p c = false -> span_of p (ds ++ c :: t) = (ds, c :: t).
Proof. induction 1 as [|d ds Hd _ IH]; intros Hc; cbn; [by rewrite Hc|]. by rewrite Hd, IH. Qed.

Lemma starts_with_spec u t : starts_with u t = true <-> exists r, t = u ++ r.
Proof.
  unfold starts_with. rewrite bool_decide_eq_true. split.
  - intros H. exists (drop (length u) t). by rewrite <- H at 1; rewrite take_drop.
  - intros [r ->]. by rewrite take_app_length.
Qed.

Lemma starts_with_app u t b : starts_with u t = true -> starts_with u (t ++ b) = true.
Proof. rewrite !starts_with_spec. intros [r ->]. exists (r ++ b). by rewrite app_assoc. Qed.

(** Once forwarded, forwarded however the text goes on. *)
Lemma disposition_app t b : oscDispositionAt t = Some forward -> oscDispositionAt (t ++ b) = Some forward.
Proof.
  unfold oscDispositionAt. destruct (span_of is_digit_unit t).2 as [|c r] eqn:E; [done|].
  rewrite span_of_app by (by rewrite E). cbn [fst snd]. rewrite E. cbn [app].
  destruct (bool_decide _ || negb (c =? 59)); [done|]. case_bool_decide; [|done]. unfold osc1337DispositionAt.
  destruct (existsb (fun command => starts_with (lit command) r) OSC1337_FORWARDED) eqn:Ef.
  - intros _. apply existsb_exists in Ef as (w & Hw & Hs). assert (existsb (fun command => starts_with (lit command) (r ++ b)) OSC1337_FORWARDED = true) as ->; [|done].
    apply existsb_exists. exists w. split; [done|]. by apply starts_with_app.
  - by destruct (existsb (partial_command r) OSC1337_FORWARDED).
Qed.

(** No command name holds a unit that ends a string. *)
Lemma command_no_end w c : In w OSC1337_FORWARDED -> c ∈ lit w -> ends_string osc c = false.
Proof.
  intros Hw Hc. cut (forallb (fun c => negb (ends_string osc c)) (lit w) = true).
  - rewrite forallb_forall. intros H. apply negb_true_iff, H, list_elem_of_In, Hc.
  - revert Hw. cut (forallb (fun w => forallb (fun c => negb (ends_string osc c)) (lit w)) OSC1337_FORWARDED = true); [|done].
    rewrite forallb_forall. auto.
Qed.

Lemma command_before_end t b e :
  e ∈ t -> ends_string osc e = true -> osc1337DispositionAt (t ++ b) = Some forward -> osc1337DispositionAt t = Some forward.
Proof.
  intros He Hs. unfold osc1337DispositionAt.
  destruct (existsb (fun command => starts_with (lit command) (t ++ b)) OSC1337_FORWARDED) eqn:Ef;
    [|by destruct (existsb (partial_command (t ++ b)) OSC1337_FORWARDED)].
  intros _. assert (existsb (fun command => starts_with (lit command) t) OSC1337_FORWARDED = true) as ->; [|done].
  apply existsb_exists in Ef as (w & Hw & [u Hu]%starts_with_spec). apply existsb_exists. exists w. split; [done|].
  apply starts_with_spec. destruct (app_eq_inv _ _ _ _ Hu) as [(k & Hk & _)|(k & Hk & _)]; [by exists k|].
  exfalso. assert (e ∈ lit w) as Hin by (rewrite Hk; apply elem_of_app; by left).
  by rewrite (command_no_end w e Hw Hin) in Hs.
Qed.

Lemma ends_not_digit k c : ends_string k c = true -> is_digit_unit c = false /\ c <> 59.
Proof. unfold ends_string, is_digit_unit, CAN, SUB, ESC, C1_ST, BEL. destruct k; lia. Qed.

(** The units of a text that are not digits stand past its leading digits. *)
Lemma span_of_rest p t e : e ∈ t -> p e = false -> e ∈ (span_of p t).2.
Proof.
  intros He Hp. destruct (span_of_spec p t) as [E F]. rewrite E in He. apply elem_of_app in He as [He|He]; [|done].
  rewrite Forall_forall in F. by rewrite (F e He) in Hp.
Qed.

(** A string end inside a text stops its command name too: what follows it changes nothing. *)
Lemma disposition_before_end t b e :
  e ∈ t -> ends_string osc e = true -> oscDispositionAt (t ++ b) = Some forward -> oscDispositionAt t = Some forward.
Proof.
  intros He Hs. destruct (ends_not_digit _ _ Hs) as [Hd H59]. unfold oscDispositionAt.
  pose proof (span_of_rest _ _ _ He Hd) as Hr. destruct (span_of is_digit_unit t) as [ds [|c r]] eqn:Et; [by apply elem_of_nil in Hr|].
  rewrite span_of_app by (by rewrite Et). rewrite Et. cbn [fst snd app] in *.
  destruct (bool_decide (ds = []) || negb (c =? 59)) eqn:Hc; [done|]. destruct (bool_decide (ds = lit "1337")); [|done].
  apply orb_false_iff in Hc as [_ ->%negb_false_iff%Z.eqb_eq]. apply elem_of_cons in Hr as [->|Hr]; [done|].
  by apply (command_before_end r b e).
Qed.

(** What an OSC leaves to xterm.js is decided by its id alone. *)
Lemma span_of_all p ds : Forall (fun c => p c = true) ds -> span_of p ds = (ds, []).
Proof. induction 1 as [|d ds Hd _ IH]; cbn; [done|]. by rewrite Hd, IH. Qed.

Lemma claims_disposition id content ds c r :
  forallb is_digit_unit (lit id) = true -> span_of is_digit_unit content = (ds, c :: r) ->
  (ds = lit id -> c <> 59) -> claims id content = false.
Proof.
  intros Hd Hs Hne. assert (F : Forall (fun c => is_digit_unit c = true) (lit id)).
  { apply Forall_forall. intros x Hx. rewrite forallb_forall in Hd. apply Hd. by apply list_elem_of_In. }
  unfold claims. apply orb_false_iff. split.
  - apply bool_decide_eq_false. intros ->. by rewrite span_of_all in Hs.
  - apply not_true_is_false. intros [u ->]%starts_with_spec. rewrite <- app_assoc in Hs. cbn [app] in Hs.
    rewrite span_of_stop in Hs by done. injection Hs as <- <- _. by apply Hne.
Qed.

Section parse.
  Context {U : UrlHost} {J : JsonHost}.
  Variable colorProvider : option (TerminalColorTarget -> option text).

Lemma parseOsc_forward now m content :
  oscDispositionAt content = Some forward -> parseOsc colorProvider now m content = (m, Ok None).
Proof.
  intros Hf. unfold oscDispositionAt in Hf. destruct (span_of is_digit_unit content) as [ds [|c r]] eqn:Es; [done|]. cbn [fst snd] in Hf.
  assert (Hno : forall id, In id OSC_CONSUMED_IDS -> claims id content = false).
  { intros id Hid. apply (claims_disposition id content ds c r); [|done|].
    - revert id Hid. apply forallb_forall. reflexivity.
    - intros -> ->. repeat (destruct Hid as [<-|Hid]; [discriminate Hf|]). done. }
  assert (H1337 : claims "1337" content = true -> parseOsc1337 now content = None).
  { intros _. unfold parseOsc1337. by rewrite bool_decide_true by (unfold oscDispositionAt; by rewrite Es). }
  assert (Hq : forall code, In code ["10"; "11"; "12"]%string -> bool_decide (content = lit code ++ lit ";?") = false).
  { intros code Hc. apply bool_decide_eq_false. intros ->. assert (claims code (lit code ++ lit ";?") = false) as Hf'.
    - apply Hno. cbn in Hc |- *. tauto.
    - unfold claims in Hf'. apply orb_false_iff in Hf' as [_ Hf']. apply not_true_iff_false in Hf'. apply Hf'.
      apply starts_with_spec. exists (lit "?"). by rewrite <- app_assoc. }
  unfold parseOsc. destruct (claims "1337" content); [rewrite !(Hno _) by (cbn; tauto); by rewrite H1337|]. rewrite !Hno by (cbn; tauto). pose proof (Hno "367"%string ltac:(cbn; tauto)) as H367.
  unfold claims in H367. apply orb_false_iff in H367 as [-> H367].
  change (starts_with (lit "367;") content) with (starts_with (lit "367" ++ [59]) content). rewrite H367.
  unfold parseColorQuery. by rewrite !Hq by (cbn; tauto).
Qed.

End parse.

(** ** Bells *)

Definition no_bells (t : text) : text := List.filter (fun c => negb (c =? BEL)) t.

Lemma no_bells_app x y : no_bells (x ++ y) = no_bells x ++ no_bells y.
Proof. apply List.filter_app. Qed.

Lemma strip_text t : (stripStandaloneBells t).1 = no_bells t.
Proof.
  unfold stripStandaloneBells. destruct (existsb (Z.eqb BEL) t) eqn:E; [done|]. cbn. symmetry. unfold no_bells.
  induction t as [|c t IH]; [done|]. cbn [existsb List.filter] in *. apply orb_false_iff in E as [Ec E].
  rewrite Z.eqb_sym, Ec. cbn [negb]. by rewrite IH.
Qed.

Lemma no_bells_split t u h v :
  no_bells t = u ++ h :: v -> exists t1 t2, t = t1 ++ h :: t2 /\ no_bells t1 = u /\ no_bells t2 = v.
Proof.
  unfold no_bells. revert u. induction t as [|c t IH]; intros u; [by destruct u|]. cbn [List.filter]. destruct (negb (c =? BEL)) eqn:E.
  - destruct u as [|d u]; cbn [app]; [intros [= -> <-]; by exists [], t|]. intros [= -> Ht]. destruct (IH u Ht) as (t1 & t2 & -> & <- & <-).
    exists (d :: t1), t2. split_and!; try done. cbn [List.filter app]. by rewrite E.
  - intros Ht. destruct (IH u Ht) as (t1 & t2 & -> & <- & <-). exists (c :: t1), t2. split_and!; try done. cbn [List.filter app]. by rewrite E.
Qed.

Lemma no_bells_nil t : no_bells t = [] -> Forall (eq BEL) t.
Proof.
  unfold no_bells. induction t as [|c t IH]; [by constructor|]. cbn [List.filter]. destruct (Z.eqb_spec c BEL) as [->|]; cbn; [|done].
  intros Ht. constructor; [done|]. by apply IH.
Qed.

(** ** Device-attribute queries *)

Definition queries : list text := [[ESC; 91; 62; 113]; [C1_CSI; 62; 113]].

Lemma query_at_spec t rest : query_at t = Some rest <-> exists q, In q queries /\ t = q ++ rest.
Proof.
  split.
  - destruct t as [|c t]; [done|]. cbn [query_at]. destruct (Z.eqb_spec c ESC) as [->|].
    + destruct (starts_with (lit "[>q") t) eqn:E; [|done]. apply starts_with_spec in E as [r ->]. intros [= <-].
      exists [ESC; 91; 62; 113]. split; [by left|done].
    + destruct (Z.eqb_spec c C1_CSI) as [->|]; [|done]. destruct (starts_with (lit ">q") t) eqn:E; [|done].
      apply starts_with_spec in E as [r ->]. intros [= <-]. exists [C1_CSI; 62; 113]. split; [by right; left|done].
  - intros (q & [<-|[<-|[]]] & ->); reflexivity.
Qed.

Lemma remove_skip n t : remove_queries n t = remove_queries 0 (drop n t).
Proof. revert n. induction t as [|c t IH]; intros [|n]; cbn; try done. Qed.

(** One turn of the removal. *)
Definition kept_unit (c : Z) (r : text * nat) : text * nat := (c :: r.1, r.2).
Definition query_gone (r : text * nat) : text * nat := (r.1, S r.2).
Definition removed_app (r1 r2 : text * nat) : text * nat := (r1.1 ++ r2.1, (r1.2 + r2.2)%nat).

Lemma remove_query t rest : query_at t = Some rest -> remove_queries 0 t = query_gone (remove_queries 0 rest).
Proof.
  intros H. assert (exists q, t = q ++ rest /\ q <> []) as (q & E & Hq).
  { apply query_at_spec in H as (q & Hq & ->). exists q. split; [done|]. by destruct Hq as [<-|[<-|[]]]. }
  destruct t as [|c t]; [done|]. cbn [remove_queries]. rewrite H, remove_skip. unfold query_gone. cbn [fst snd].
  destruct q as [|d q]; [done|]. injection E as <- ->. rewrite length_app, Nat.add_sub. by rewrite drop_app_length.
Qed.

Lemma remove_unit c t : query_at (c :: t) = None -> remove_queries 0 (c :: t) = kept_unit c (remove_queries 0 t).
Proof. intros H. cbn [remove_queries]. by rewrite H. Qed.

(** A query whose first units end [u] and whose others begin [v]. *)
Definition straddles (u v : text) : Prop :=
  exists s1 s2, s1 <> [] /\ s2 <> [] /\ In (s1 ++ s2) queries /\ (exists x, u = x ++ s1) /\ exists y, v = s2 ++ y.

Lemma straddles_suffix x u v : straddles u v -> straddles (x ++ u) v.
Proof. intros (s1 & s2 & H1 & H2 & Hq & [z ->] & Hy). exists s1, s2. split_and!; try done. exists (x ++ z). by rewrite app_assoc. Qed.

Lemma remove_queries_app u v :
  ~ straddles u v -> remove_queries 0 (u ++ v) = removed_app (remove_queries 0 u) (remove_queries 0 v).
Proof.
  induction u as [u IH] using (induction_ltof1 _ (@length Z)). unfold ltof in IH. intros Hs.
  destruct u as [|c u]; [unfold removed_app; cbn; by destruct (remove_queries 0 v)|].
  destruct (query_at ((c :: u) ++ v)) as [rest|] eqn:Eq.
  - pose proof Eq as (q & Hq & E)%query_at_spec. destruct (app_eq_inv _ _ _ _ E) as [(k & Ek & ->)|(k & -> & Ev)].
    + rewrite (remove_query _ _ Eq), (remove_query (c :: u) k) by (apply query_at_spec; by exists q).
      rewrite IH; [done| |].
      * rewrite Ek, length_app. destruct Hq as [<-|[<-|[]]]; cbn; lia.
      * intros H. apply Hs. rewrite Ek. by apply straddles_suffix.
    + destruct k as [|d k]; [|exfalso; apply Hs; exists (c :: u), (d :: k); split_and!; [done|done|done|by exists []|by exists rest]].
      rewrite app_nil_r in Hq. cbn in Ev. subst rest. rewrite (remove_query _ _ Eq).
      rewrite (remove_query (c :: u) []) by (apply query_at_spec; exists (c :: u); by rewrite app_nil_r). done.
  - rewrite <- app_comm_cons in *. rewrite remove_unit by done. assert (Eu : query_at (c :: u) = None).
    { destruct (query_at (c :: u)) as [r|] eqn:E; [|done]. apply query_at_spec in E as (q & Hq & E).
      assert (query_at (c :: u ++ v) = Some (r ++ v)) as H; [|by rewrite H in Eq].
      apply query_at_spec. exists q. split; [done|]. by rewrite app_comm_cons, E, app_assoc. }
    rewrite remove_unit by done. rewrite IH; [done|cbn; lia|]. intros H. apply Hs. by apply (straddles_suffix [c]).
Qed.

(** ** The suffix held back *)

Lemma ends_with_spec s t : ends_with s t = true <-> exists x, t = x ++ s.
Proof.
  unfold ends_with. rewrite bool_decide_eq_true. split.
  - intros H. exists (take (length t - length s) t). by rewrite <- H at 2; rewrite take_drop.
  - intros [x ->]. by rewrite length_app, Nat.add_sub, drop_app_length.
Qed.

Lemma ends_with_shorter s x y : (length s <= length y)%nat -> ends_with s (x ++ y) = ends_with s y.
Proof.
  intros Hl. apply eq_bool_prop_intro. rewrite !Is_true_true, !ends_with_spec. split.
  - intros [z E]. destruct (app_eq_inv _ _ _ _ E) as [(k & -> & ->)|(k & -> & ->)]; [|by exists k].
    rewrite length_app in Hl. destruct k; [by exists []|cbn in Hl; lia].
  - intros [z ->]. exists (x ++ z). by rewrite app_assoc.
Qed.

(** The first units of a query are the suffixes held back, and none of its other
    units begins one. *)
Lemma query_prefix s1 s2 :
  s1 <> [] -> s2 <> [] -> In (s1 ++ s2) queries -> In s1 DEVICE_ATTRIBUTE_PENDING_SUFFIXES.
Proof.
  intros H1 H2 [E|[E|[]]]; repeat (destruct s1 as [|? s1]; [try done|injection E as <- E || discriminate E || idtac]; cbn in E);
    cbn; try tauto; destruct s2; congruence.
Qed.

Abbreviation held := takeDeviceAttributePendingSuffix.

Lemma held_cases t :
  (held t = [] /\ forall s, In s DEVICE_ATTRIBUTE_PENDING_SUFFIXES -> ends_with s t = false) \/
  (In (held t) DEVICE_ATTRIBUTE_PENDING_SUFFIXES /\ exists x, t = x ++ held t).
Proof.
  unfold held. destruct (List.find (fun s => ends_with s t) DEVICE_ATTRIBUTE_PENDING_SUFFIXES) as [s|] eqn:E.
  - right. apply List.find_some in E as [Hs He%ends_with_spec]. done.
  - left. split; [done|]. intros s Hs. by apply (List.find_none _ _ E).
Qed.

Lemma held_not_nil : ~ In [] DEVICE_ATTRIBUTE_PENDING_SUFFIXES.
Proof. by intros [H|[H|[H|[H|[H|[]]]]]]. Qed.

(** No query and no held suffix reaches over the cut. *)
Definition cut_clean (u v : text) : Prop := held u = [] \/ exists c v', v = c :: v' /\ (c = ESC \/ c = C1_CSI).

Lemma suffix_tail k c v s :
  In s DEVICE_ATTRIBUTE_PENDING_SUFFIXES \/ In s queries -> s = k ++ c :: v -> k <> [] -> c <> ESC /\ c <> C1_CSI.
Proof.
  intros Hs -> Hk. unfold ESC, C1_CSI. destruct k as [|d k]; [done|].
  assert (F : Forall (fun c => c <> ESC /\ c <> C1_CSI) (k ++ c :: v)).
  { cbn in Hs. repeat destruct Hs as [Hs|Hs]; try done; injection Hs as _ <-; repeat constructor; done. }
  apply Forall_app in F as [_ F]. by apply Forall_cons in F as [F _].
Qed.

Lemma cut_no_straddle u v : cut_clean u v -> ~ straddles u v.
Proof.
  intros Hc (s1 & s2 & H1 & H2 & Hq & [x ->] & y & ->). destruct Hc as [Hc|(c & v & Hv & Hc)].
  - destruct (held_cases (x ++ s1)) as [[_ Hn]|[Hin _]]; [|by rewrite Hc in Hin; destruct held_not_nil].
    specialize (Hn s1 (query_prefix s1 s2 H1 H2 Hq)). apply not_true_iff_false in Hn. apply Hn, ends_with_spec. by exists x.
  - destruct s2 as [|d s2]; [done|]. injection Hv as -> _.
    destruct (suffix_tail s1 c s2 _ (or_intror Hq) eq_refl H1) as [? ?]. by destruct Hc.
Qed.

Lemma suffix_prefix k w s : In s DEVICE_ATTRIBUTE_PENDING_SUFFIXES -> s = k ++ w -> k <> [] -> In k DEVICE_ATTRIBUTE_PENDING_SUFFIXES.
Proof.
  intros Hs -> Hk. cbn in Hs. repeat destruct Hs as [Hs|Hs]; try done;
    repeat (destruct k as [|? k]; [try done|injection Hs as <- Hs || discriminate Hs || idtac]; cbn in Hs); cbn; tauto.
Qed.

Lemma ends_with_clean u w s : cut_clean u w -> In s DEVICE_ATTRIBUTE_PENDING_SUFFIXES -> ends_with s (u ++ w) = ends_with s w.
Proof.
  intros Hc Hs. destruct (decide (length s <= length w)%nat) as [Hl|Hl]; [by apply ends_with_shorter|].
  trans false.
  - apply not_true_is_false. intros [z E]%ends_with_spec.
    assert (exists k, s = k ++ w /\ k <> [] /\ u = z ++ k) as (k & -> & Hk & ->).
    { destruct (app_eq_inv _ _ _ _ E) as [(k & -> & ->)|(k & -> & ->)].
      - exists k. split_and!; [done| |done]. intros ->. by apply Hl.
      - rewrite length_app in Hl. lia. }
    destruct Hc as [Hc|(c & v & -> & Hc)].
    + destruct (held_cases (z ++ k)) as [[_ Hn]|[Hin _]]; [|by rewrite Hc in Hin; destruct held_not_nil].
      specialize (Hn k (suffix_prefix k w _ Hs eq_refl Hk)). apply not_true_iff_false in Hn. apply Hn, ends_with_spec. by exists z.
    + destruct (suffix_tail k c v _ (or_introl Hs) eq_refl Hk). by destruct Hc.
  - symmetry. apply not_true_is_false. intros [z E]%ends_with_spec. apply Hl. rewrite E, length_app. lia.
Qed.

Lemma held_clean u w : cut_clean u w -> held (u ++ w) = held w.
Proof.
  intros Hc. unfold held. f_equal. cut (forall l, (forall s, In s l -> In s DEVICE_ATTRIBUTE_PENDING_SUFFIXES) ->
    List.find (fun s => ends_with s (u ++ w)) l = List.find (fun s => ends_with s w) l); [auto|].
  induction l as [|s l IH]; intros Hl; [done|]. cbn [List.find]. rewrite (ends_with_clean u w s Hc) by (apply Hl; by left).
  destruct (ends_with s w); [done|]. apply IH. intros s' Hs'. apply Hl. by right.
Qed.

(** ** A program's output in two reads

    The loop of the terminal parser as equations: what it emits for a text is
    what it emits for the text before its first control, then for the control,
    then for the rest.  Then ground text cut by the end of a read: the three
    places a read may not stop at are conditions on the cut, and anywhere else
    the two pieces are read as one, terminal bells apart. *)

(** ** What is emitted, as a monoid *)

Definition em0 : Emitted := mkEmitted [] [] [].

Definition em_app (a b : Emitted) : Emitted :=
  mkEmitted (em_visible a ++ em_visible b) (em_text a ++ em_text b) (em_events a ++ em_events b).

Lemma em_app_nil a : em_app a em0 = a.
Proof. destruct a. unfold em_app. cbn. by rewrite !app_nil_r. Qed.

Lemma em_nil_app a : em_app em0 a = a.
Proof. by destruct a. Qed.

Lemma em_app_assoc a b c : em_app (em_app a b) c = em_app a (em_app b c).
Proof. unfold em_app. cbn. by rewrite !app_assoc. Qed.

Abbreviation Run := (Parser * outcome Emitted)%type.

(** What was emitted before a run that goes on. *)
Definition after (a : Emitted) (r : Run) : Run := (r.1, let! b := r.2 in Ok (em_app a b)).

Lemma after_nil r : after em0 r = r.
Proof. destruct r as [p [x|x]]; unfold after; cbn; [by rewrite em_nil_app|done]. Qed.

Lemma after_after a b r : after a (after b r) = after (em_app a b) r.
Proof. destruct r as [p [x|x]]; unfold after; cbn; [by rewrite em_app_assoc|done]. Qed.

Section run.
  Context {U : UrlHost} {J : JsonHost}.
  Variable colorProvider : option (TerminalColorTarget -> option text).
  Variable now : Z.

Abbreviation scan := (scan colorProvider now).
Abbreviation complete_control := (complete_control colorProvider now).

Lemma emit_ground_em g evs e : emit_ground g evs e = em_app e (emit_ground g evs em0).
Proof. done. Qed.

Lemma ground_gap_em t e : ground_gap t e = em_app e (ground_gap t em0).
Proof. done. Qed.

Lemma incomplete_em k inc rest p e :
  incomplete_control k inc rest p e = ((incomplete_control k inc rest p em0).1, em_app e (incomplete_control k inc rest p em0).2).
Proof.
  unfold incomplete_control. destruct (bool_decide _); [unfold em_app, emit_visible; cbn; by rewrite !app_nil_r|].
  destruct (_ <=? _)%nat; cbn; by rewrite em_app_nil.
Qed.

Lemma emit_visible_em v e : emit_visible v e = em_app e (emit_visible v em0).
Proof. unfold emit_visible, em_app. cbn. by rewrite !app_nil_r. Qed.

Lemma emit_events_em evs e : emit_events evs e = em_app e (emit_events evs em0).
Proof. unfold emit_events, em_app. cbn. by rewrite !app_nil_r. Qed.

Lemma complete_em k s rest end_ p e : complete_control k s rest end_ p e = after e (complete_control k s rest end_ p em0).
Proof.
  unfold complete_control, after. destruct k; cbn [fst snd obind]; [|by rewrite emit_visible_em].
  destruct (cancelled end_); cbn [fst snd obind].
  - destruct (bool_decide _); [by rewrite emit_visible_em|by rewrite em_app_nil].
  - destruct (parseOsc _ _ _ _) as [m [[evs|]|x]]; cbn; [by rewrite emit_events_em|by rewrite emit_visible_em|done].
Qed.

(** One turn of the loop. *)
Lemma scan_after fuel t p e : scan fuel t p e = after e (scan fuel t p em0).
Proof.
  revert t p e. induction fuel as [|fuel IH]; intros t p e; [unfold after; cbn; by rewrite em_app_nil|].
  destruct t as [|c t]; [unfold after; cbn; by rewrite em_app_nil|]. cbn [scan].
  destruct (find_introducer (c :: t)) as [[[i n] k]|]; [|done].
  destruct (findStringControlEnd k (drop (i + n) (c :: t))) as [end_|].
  - rewrite ground_gap_em, complete_em. rewrite (complete_em _ _ _ _ _ (ground_gap _ em0)), <- after_after.
    destruct (complete_control _ _ _ _ _ em0) as [p' [x|x]]; cbn [after fst snd obind]; [|done].
    rewrite IH, (IH _ _ (em_app (ground_gap _ em0) x)), after_after. done.
  - rewrite ground_gap_em, incomplete_em. rewrite (incomplete_em _ _ _ _ (ground_gap _ em0)). unfold after. cbn. by rewrite em_app_assoc.
Qed.

(** The fuel does not matter once there is enough. *)
Lemma scan_fuel f1 f2 t p e : (length t <= f1)%nat -> (length t <= f2)%nat -> scan f1 t p e = scan f2 t p e.
Proof.
  revert f2 t p e. induction f1 as [|f1 IH]; intros f2 t p e H1 H2.
  { destruct t; [|cbn in H1; lia]. by destruct f2. }
  destruct t as [|c t]; [by destruct f2|]. destruct f2 as [|f2]; [cbn in H2; lia|]. cbn [scan].
  destruct (find_introducer (c :: t)) as [[[i n] k]|] eqn:Ei; [|done].
  destruct (findStringControlEnd _ _) as [end_|]; [|done].
  destruct (complete_control _ _ _ _ _ _) as [p' [x|x]]; [|done]. cbn [fst snd].
  destruct (find_introducer_split _ _ _ _ Ei) as (_ & Hn & Hl). apply IH; rewrite !length_drop; cbn in *; lia.
Qed.

Definition run (t : text) (p : Parser) : Run := scan (length t) t p em0.

Lemma run_nil p : run [] p = (p, Ok em0).
Proof. done. Qed.

Lemma run_ground t p : t <> [] -> find_introducer t = None -> run t p = ((ground_tail t p em0).1, Ok (ground_tail t p em0).2).
Proof. intros Ht Hf. destruct t as [|c t]; [done|]. unfold run. cbn [length scan]. by rewrite Hf. Qed.

(** The control a text begins with. *)
Definition run_control (n : nat) (k : StringControlKind) (t : text) (p : Parser) : Run :=
  match findStringControlEnd k (drop n t) with
  | None => ((incomplete_control k t (drop n t) p em0).1, Ok (incomplete_control k t (drop n t) p em0).2)
  | Some end_ =>
      match complete_control k (take (n + e_end end_) t) (drop n t) end_ p em0 with
      | (p', Ok x) => after x (run (drop (e_end end_) (drop n t)) p')
      | r => r
      end
  end.

Lemma run_intro t i n k p :
  find_introducer t = Some (i, n, k) -> run t p = after (ground_gap (take i t) em0) (run_control n k (drop i t) p).
Proof.
  intros Hf. destruct (find_introducer_split _ _ _ _ Hf) as (_ & Hn & Hl). destruct t as [|c t]; [done|].
  unfold run at 1. cbn [length scan]. rewrite Hf. unfold run_control. rewrite drop_drop.
  destruct (findStringControlEnd k (drop (i + n) (c :: t))) as [end_|].
  - rewrite complete_em. destruct (complete_control _ _ _ _ _ em0) as [p' [x|x]]; cbn [after fst snd obind]; [|done].
    rewrite scan_after, after_after. f_equal. unfold run. apply scan_fuel; rewrite ?length_drop; cbn in *; lia.
  - rewrite incomplete_em. done.
Qed.

Lemma run_at t n k p : introducer_at t = Some (n, k) -> run t p = run_control n k t p.
Proof. intros H%find_introducer_at. rewrite (run_intro _ _ _ _ _ H). cbn [take drop]. apply after_nil. Qed.

(** A text up to its first control, and from it on. *)
Lemma run_gap t i n k p :
  find_introducer t = Some (i, n, k) -> run t p = after (ground_gap (take i t) em0) (run (drop i t) p).
Proof. intros H. rewrite (run_intro _ _ _ _ _ H), (run_at _ n k); [done|]. by apply find_introducer_split in H as [? _]. Qed.

End run.

(** ** Bells aside *)

Definition no_bell_events (evs : list TerminalProtocolEvent) : list TerminalProtocolEvent :=
  List.filter (fun e => negb (is_bell e)) evs.

Definition quiet (e : Emitted) : Emitted := mkEmitted (em_visible e) (em_text e) (no_bell_events (em_events e)).

Definition quiet_run (r : Run) : Run := (r.1, let! e := r.2 in Ok (quiet e)).

Lemma no_bell_app a b : no_bell_events (a ++ b) = no_bell_events a ++ no_bell_events b.
Proof. apply List.filter_app. Qed.

Lemma quiet_app a b : quiet (em_app a b) = em_app (quiet a) (quiet b).
Proof. unfold quiet, em_app. cbn. by rewrite no_bell_app. Qed.

Lemma quiet_after a r : quiet_run (after a r) = after (quiet a) (quiet_run r).
Proof. destruct r as [p [x|x]]; unfold quiet_run, after; cbn [fst snd obind]; [by rewrite quiet_app|done]. Qed.

Lemma filter_idem evs : no_bell_events (no_bell_events evs) = no_bell_events evs.
Proof.
  unfold no_bell_events. induction evs as [|e evs IH]; [done|]. cbn [List.filter]. destruct (negb (is_bell e)) eqn:E; [|done].
  cbn [List.filter]. by rewrite E, IH.
Qed.

Lemma keep_one_bell_quiet kept evs : no_bell_events (keep_one_bell kept evs) = no_bell_events evs.
Proof.
  unfold no_bell_events. revert kept. induction evs as [|e evs IH]; intros kept; [done|]. cbn [keep_one_bell List.filter].
  destruct (is_bell e) eqn:E; cbn [negb]; [|cbn [List.filter]; rewrite E; cbn [negb]; by rewrite IH].
  destruct kept; [apply IH|]. cbn [List.filter]. rewrite E. apply IH.
Qed.

(** The filter of a read touches bells only. *)
Lemma filter_bells_quiet evs : no_bell_events (filterTerminalBellEvents evs) = no_bell_events evs.
Proof.
  unfold filterTerminalBellEvents. destruct (_ =? 0)%nat; [done|]. destruct (negb _ && _); [done|].
  destruct (existsb _ _); [apply filter_idem|apply keep_one_bell_quiet].
Qed.

(** What a read reports, bells aside. *)
Definition seen (res : ParseResult) : Emitted := mkEmitted (visibleData res) (textData res) (no_bell_events (events res)).

Definition seen_read (r : Parser * outcome ParseResult) : Run := (r.1, let! res := r.2 in Ok (seen res)).

(** ** Ground text in two pieces *)

Lemma strip_quiet t : no_bell_events (stripStandaloneBells t).2 = [].
Proof. unfold stripStandaloneBells. by destruct (existsb _ _). Qed.

(** Ground text without its bells: emitted, and the responses it asks for. *)
Definition ground_em (t : text) : Emitted := let g := answerDeviceAttributeQueries t in mkEmitted g.1 g.1 g.2.

Lemma responses_quiet t : no_bell_events (answerDeviceAttributeQueries t).2 = (answerDeviceAttributeQueries t).2.
Proof. unfold answerDeviceAttributeQueries. cbn. induction (remove_queries 0 t).2 as [|n IH]; [done|]. cbn. unfold no_bell_events in IH. by rewrite IH. Qed.

Lemma gap_quiet t : quiet (ground_gap t em0) = ground_em (no_bells t).
Proof.
  unfold ground_gap, ground_em, quiet, emit_ground. rewrite strip_text. cbn [em0 em_visible em_text em_events app].
  by rewrite no_bell_app, strip_quiet, responses_quiet.
Qed.

Definition held_of (t : text) : text := held (no_bells t).
Definition shown_of (t : text) : text := take (length (no_bells t) - length (held_of t)) (no_bells t).

Lemma held_shown t : no_bells t = shown_of t ++ held_of t.
Proof.
  unfold shown_of, held_of. destruct (held_cases (no_bells t)) as [[-> _]|[_ [x E]]].
  - by rewrite Nat.sub_0_r, firstn_all, app_nil_r.
  - cut (forall h w : text, w = x ++ h -> w = take (length w - length h) w ++ h); [auto|].
    intros h w ->. by rewrite length_app, Nat.add_sub, take_app_length.
Qed.

Lemma tail_quiet t p : (ground_tail t p em0).1 = set_pending (held_of t) p /\ quiet (ground_tail t p em0).2 = ground_em (shown_of t).
Proof.
  unfold ground_tail, ground_em, quiet, emit_ground, shown_of, held_of. rewrite strip_text.
  cbn [em0 em_visible em_text em_events app fst snd]. by rewrite no_bell_app, strip_quiet, responses_quiet.
Qed.

Lemma ground_em_app x y : ~ straddles x y -> ground_em (x ++ y) = em_app (ground_em x) (ground_em y).
Proof.
  intros Hs. unfold ground_em, answerDeviceAttributeQueries, em_app. cbn [fst snd]. rewrite remove_queries_app by done.
  unfold removed_app. cbn [fst snd em_visible em_text em_events]. by rewrite repeat_app.
Qed.

(** ** Where a read may stop *)

(** The text ends in an escape and then bells: what follows may make a sequence
    with the escape that the parser, which has dropped the bells, would find. *)
Definition bell_cut (t : text) : bool :=
  let p := span_of (Z.eqb BEL) (reverse t) in negb (bool_decide (p.1 = [])) && bool_decide (head p.2 = Some ESC).

(** The text ends between the number of an OSC and the rest of its terminator. *)
Definition bare_cut (t : text) : bool :=
  match reverse t with
  | e :: r => (e =? ESC) && match (span_of is_digit_unit r).2 with c :: _ => (c =? 93) || (c =? 157) | [] => false end
  | [] => false
  end.

Definition good_cut (t : text) : bool := negb (bell_cut t) && negb (bare_cut t).

Lemma reverse_eq (x y : text) : reverse x = y -> x = reverse y.
Proof. intros <-. by rewrite reverse_involutive. Qed.

Lemma bell_cut_spec t :
  bell_cut t = true <-> exists x bs, t = x ++ ESC :: bs /\ bs <> [] /\ Forall (fun c => (BEL =? c) = true) bs.
Proof.
  unfold bell_cut. split.
  - destruct (span_of_spec (Z.eqb BEL) (reverse t)) as [E F]. destruct (span_of (Z.eqb BEL) (reverse t)) as [bs r]. cbn [fst snd] in *.
    intros [Hb%negb_true_iff%bool_decide_eq_false Hr%bool_decide_eq_true]%andb_prop. destruct r as [|c r]; [done|]. injection Hr as ->.
    apply reverse_eq in E. rewrite reverse_app, reverse_cons, <- app_assoc in E. exists (reverse r), (reverse bs). split_and!.
    + done.
    + intros H. apply Hb. apply reverse_eq in H. done.
    + by apply Forall_reverse.
  - intros (x & bs & -> & Hb & F). rewrite reverse_app, reverse_cons, <- app_assoc. cbn [app].
    rewrite (span_of_stop _ (reverse bs)) by (done || by apply Forall_reverse). cbn [fst snd head].
    rewrite bool_decide_false by (intros H%reverse_eq; done). by rewrite bool_decide_true.
Qed.

Lemma bare_cut_spec t :
  bare_cut t = true <->
  exists x c ds, t = x ++ c :: ds ++ [ESC] /\ Forall (fun c => is_digit_unit c = true) ds /\ (c = 93 \/ c = 157).
Proof.
  unfold bare_cut. split.
  - destruct (reverse t) as [|e r] eqn:Et; [done|]. intros [->%Z.eqb_eq Hc]%andb_prop.
    destruct (span_of_spec is_digit_unit r) as [E F]. destruct (span_of is_digit_unit r) as [ds [|c q]]; [done|]. cbn [fst snd] in *.
    apply reverse_eq in Et. rewrite reverse_cons, E, reverse_app, reverse_cons, <- !app_assoc in Et.
    exists (reverse q), c, (reverse ds). split_and!; [done|by apply Forall_reverse|lia].
  - intros (x & c & ds & -> & F & Hc). rewrite reverse_app, reverse_cons, reverse_app, <- !app_assoc. cbn [app reverse rev_append].
    rewrite (span_of_stop _ (reverse ds)); [cbn [snd]; destruct Hc as [->| ->]; done|by apply Forall_reverse|by destruct Hc as [->| ->]].
Qed.

Lemma good_cut_suffix x t : good_cut (x ++ t) = true -> good_cut t = true.
Proof.
  unfold good_cut. intros [Hb%negb_true_iff Hd%negb_true_iff]%andb_prop. apply andb_true_intro.
  split; apply negb_true_iff, not_true_is_false.
  - intros (y & bs & -> & H)%bell_cut_spec. apply not_true_iff_false in Hb. apply Hb, bell_cut_spec. exists (x ++ y), bs.
    by rewrite <- app_assoc.
  - intros (y & c & ds & -> & H)%bare_cut_spec. apply not_true_iff_false in Hd. apply Hd, bare_cut_spec. exists (x ++ y), c, ds.
    by rewrite <- app_assoc.
Qed.

Section chunks.
  Context {U : UrlHost} {J : JsonHost}.
  Variable colorProvider : option (TerminalColorTarget -> option text).
  Variable now : Z.

Abbreviation run := (run colorProvider now).
Abbreviation process_ground := (process_ground colorProvider now).
Abbreviation processForwarded := (processForwarded colorProvider now).
Abbreviation process := (process colorProvider now).

(** A parser in ground text, holding nothing. *)
Definition at_ground (p : Parser) : Prop := pending p = [] /\ forwarding p = None /\ discarding p = None.

Lemma set_pending_ground p : pending p = [] -> set_pending [] p = p.
Proof. destruct p. cbn. by intros ->. Qed.

(** The shortest texts included, a text with no control in it is one run of ground text. *)
Lemma quiet_ground t p :
  pending p = [] -> find_introducer t = None -> quiet_run (run t p) = (set_pending (held_of t) p, Ok (ground_em (shown_of t))).
Proof.
  intros Hp Hf. destruct t as [|c t]; [cbn; unfold quiet_run; cbn; by rewrite set_pending_ground|].
  rewrite run_ground by done. unfold quiet_run. cbn [fst snd obind]. by destruct (tail_quiet (c :: t) p) as [-> ->].
Qed.

Lemma find_introducer_drop t i n k : find_introducer t = Some (i, n, k) -> find_introducer (drop i t) = Some (0%nat, n, k).
Proof. intros (H & _)%find_introducer_split. by apply find_introducer_at. Qed.

Lemma quiet_gap t i n k p :
  find_introducer t = Some (i, n, k) -> quiet_run (run t p) = after (ground_em (no_bells (take i t))) (quiet_run (run (drop i t) p)).
Proof. intros H. rewrite (run_gap _ _ _ _ _ _ _ H), quiet_after. by rewrite gap_quiet. Qed.

(** Texts that differ in bells before the same rest are read alike. *)
Lemma same_bells a a' b p :
  pending p = [] -> no_bells a = no_bells a' ->
  find_introducer a = None -> find_introducer a' = None -> ends_in ESC a = false -> ends_in ESC a' = false ->
  quiet_run (run (a ++ b) p) = quiet_run (run (a' ++ b) p).
Proof.
  intros Hp Hb Ha Ha' He He'.
  pose proof (find_introducer_shift a b Ha (or_introl He)) as Fa. pose proof (find_introducer_shift a' b Ha' (or_introl He')) as Fa'.
  destruct (find_introducer b) as [[[i n] k]|]; cbn [shift_intro] in *.
  - rewrite (quiet_gap _ _ _ _ _ Fa), (quiet_gap _ _ _ _ _ Fa'). 
    rewrite !take_app_add, !drop_app_add, !no_bells_app. by rewrite Hb.
  - rewrite !quiet_ground by done. unfold shown_of, held_of. by rewrite !no_bells_app, Hb.
Qed.

(** A place ground text may be cut at: nothing is held before it, or an escape or
    a C1 CSI comes after it. *)
Definition splits (x y : text) : Prop := held_of x = [] \/ exists c y', y = c :: y' /\ (c = ESC \/ c = C1_CSI).

Lemma straddles_nil u : ~ straddles u [].
Proof. intros (s1 & s2 & _ & H & _ & _ & z & Hz). by destruct s2. Qed.

Lemma special_kept c t : c = ESC \/ c = C1_CSI -> no_bells (c :: t) = c :: no_bells t.
Proof. by intros [->| ->]. Qed.

(** Any prefix of the text after the cut leaves the cut as it is. *)
Lemma splits_straddle x y z w : splits x y -> no_bells y = z ++ w -> ~ straddles (no_bells x) z.
Proof.
  intros [Hx|(c & y' & -> & Hc)] Hz; [apply cut_no_straddle; by left|]. destruct z as [|d z]; [apply straddles_nil|].
  apply cut_no_straddle. right. exists d, z. split; [done|]. rewrite special_kept in Hz by done. by injection Hz as -> _.
Qed.

Lemma splits_held x y : splits x y -> held_of (x ++ y) = held_of y.
Proof.
  intros Hs. unfold held_of. rewrite no_bells_app. apply held_clean.
  destruct Hs as [Hx|(c & y' & -> & Hc)]; [by left|right]. exists c, (no_bells y'). split; [|done]. by apply special_kept.
Qed.

Lemma held_of_ESC x : held_of x = [] -> ends_in ESC x = false.
Proof.
  intros Hx. apply not_true_is_false. intros [x' ->]%ends_in_spec. unfold held_of in Hx. rewrite no_bells_app in Hx.
  destruct (held_cases (no_bells x' ++ [ESC])) as [[_ Hn]|[Hin _]].
  - specialize (Hn [ESC] ltac:(cbn; tauto)). apply not_true_iff_false in Hn. apply Hn, ends_with_spec. by exists (no_bells x').
  - change (no_bells [ESC]) with [ESC] in Hx. rewrite Hx in Hin. by destruct held_not_nil.
Qed.

Lemma splits_intro x y : splits x y -> ends_in ESC x = false \/ match y with [] => True | d :: _ => esc_opener d = None end.
Proof. intros [Hx|(c & y' & -> & Hc)]; [left; by apply held_of_ESC|right]. by destruct Hc as [->| ->]. Qed.

Lemma splits_shown x y : splits x y -> shown_of (x ++ y) = no_bells x ++ shown_of y.
Proof.
  intros Hs. apply (app_inv_tail (held_of (x ++ y))). rewrite <- held_shown, (splits_held _ _ Hs), <- app_assoc, <- held_shown.
  apply no_bells_app.
Qed.

Lemma cut_ground x y p :
  pending p = [] -> find_introducer x = None -> splits x y ->
  quiet_run (run (x ++ y) p) = after (ground_em (no_bells x)) (quiet_run (run y p)).
Proof.
  intros Hp Hx Hs. pose proof (find_introducer_shift x y Hx (splits_intro _ _ Hs)) as Hf.
  destruct (find_introducer y) as [[[i n] k]|] eqn:Ey; cbn [shift_intro] in Hf.
  - rewrite (quiet_gap _ _ _ _ _ Hf), (quiet_gap _ _ _ _ _ Ey), after_after, take_app_add, drop_app_add, no_bells_app.
    rewrite ground_em_app; [done|]. apply (splits_straddle x y _ (no_bells (drop i y)) Hs). by rewrite <- no_bells_app, take_drop.
  - rewrite !quiet_ground by done. unfold after. cbn [fst snd obind].
    rewrite splits_held, splits_shown, ground_em_app by (done || apply (splits_straddle x y _ (held_of y) Hs), held_shown). done.
Qed.

(** ** Ground text at the end of a read *)

Lemma find_introducer_prefix x y : find_introducer (x ++ y) = None -> find_introducer x = None.
Proof. intros H. destruct (find_introducer x) as [z|] eqn:E; [|done]. by rewrite (find_introducer_app _ y _ E) in H. Qed.

Lemma ends_in_no_bells x : ends_in ESC x = true -> ends_in ESC (no_bells x) = true.
Proof. intros [y ->]%ends_in_spec. rewrite no_bells_app. apply ends_in_snoc. Qed.

Lemma held_suffix s :
  In s DEVICE_ATTRIBUTE_PENDING_SUFFIXES -> find_introducer s = None /\ (s <> [ESC] -> ends_in ESC s = false).
Proof. intros [<-|[<-|[<-|[<-|[<-|[]]]]]]; split; done. Qed.

(** A suffix held back, with its bells and without. *)
Lemma held_bells h a b p :
  pending p = [] -> In (no_bells (h :: a)) DEVICE_ATTRIBUTE_PENDING_SUFFIXES -> (h = ESC \/ h = C1_CSI) ->
  find_introducer (h :: a) = None -> bell_cut (h :: a) = false ->
  quiet_run (run ((h :: a) ++ b) p) = quiet_run (run (no_bells (h :: a) ++ b) p).
Proof.
  intros Hp Hin Hh Hf Hb. destruct (decide (no_bells (h :: a) = [ESC])) as [E|E].
  - rewrite special_kept in E by done. injection E as -> Ha. destruct a as [|c a]; [done|]. exfalso.
    apply not_true_iff_false in Hb. apply Hb, bell_cut_spec. exists [], (c :: a). split_and!; [done|done|].
    apply no_bells_nil in Ha. eapply Forall_impl; [apply Ha|]. by intros ? <-.
  - apply same_bells; [done| |done| | |].
    + unfold no_bells. clear. induction (h :: a) as [|c t IH]; [done|]. cbn [List.filter]. destruct (negb (c =? BEL)) eqn:Ec; [|done].
      cbn [List.filter]. by rewrite Ec, <- IH.
    + by apply held_suffix in Hin as [Hin _].
    + apply not_true_is_false. intros H%ends_in_no_bells. apply held_suffix in Hin as [_ Hin]. by rewrite Hin in H.
    + apply held_suffix in Hin as [_ Hin]. by apply Hin.
Qed.

Lemma hold_ground a b p :
  pending p = [] -> find_introducer a = None -> bell_cut a = false ->
  quiet_run (run (a ++ b) p) = after (ground_em (shown_of a)) (quiet_run (run (held_of a ++ b) p)).
Proof.
  intros Hp Hf Hb. pose proof (held_shown a) as E. destruct (held_cases (no_bells a)) as [[Hn _]|[Hin _]].
  { fold (held_of a) in Hn. rewrite Hn, app_nil_r in *. rewrite <- E. apply cut_ground; [done|done|by left]. }
  fold (held_of a) in Hin. destruct (held_of a) as [|h v]; [by destruct held_not_nil|].
  destruct (no_bells_split _ _ _ _ E) as (a1 & a2 & -> & Hsh & <-).
  assert (Hh : h = ESC \/ h = C1_CSI).
  { destruct Hin as [Hin|[Hin|[Hin|[Hin|[Hin|[]]]]]]; injection Hin as <- _; tauto. }
  rewrite <- special_kept in * by done. pose proof (find_introducer_prefix _ _ Hf) as H1.
  assert (Hs : splits a1 (h :: a2)) by (right; by exists h, a2).
  rewrite (find_introducer_shift a1 (h :: a2) H1 (splits_intro _ _ Hs)) in Hf.
  rewrite <- app_assoc, cut_ground; [|done|done|right; exists h, (a2 ++ b); done].
  rewrite Hsh. f_equal. apply held_bells; [done|done|done| |].
  - by destruct (find_introducer (h :: a2)) as [[[]]|].
  - apply not_true_is_false. intros (x & bs & Hx & H)%bell_cut_spec. apply not_true_iff_false in Hb. apply Hb, bell_cut_spec.
    exists (a1 ++ x), bs. by rewrite <- app_assoc, <- Hx.
Qed.

End chunks.

(** ** Two reads are one

    A string control split between two reads: held, streamed through, and read
    again.  [two_reads] joins any two reads of a parser; the theorem about all
    the reads of a stream follows by induction. *)
#[local] Set Warnings "-abstract-large-number".

(** ** Dispositions at a held escape *)

Lemma command_strip r c b :
  ends_string osc c = true -> osc1337DispositionAt (r ++ c :: b) = Some forward -> osc1337DispositionAt r = Some forward.
Proof.
  intros Hc. unfold osc1337DispositionAt.
  destruct (existsb (fun command => starts_with (lit command) (r ++ c :: b)) OSC1337_FORWARDED) eqn:Ef;
    [|by destruct (existsb (partial_command (r ++ c :: b)) OSC1337_FORWARDED)].
  intros _. assert (existsb (fun command => starts_with (lit command) r) OSC1337_FORWARDED = true) as ->; [|done].
  apply existsb_exists in Ef as (w & Hw & [u Hu]%starts_with_spec). apply existsb_exists. exists w. split; [done|].
  apply starts_with_spec. destruct (app_eq_inv _ _ _ _ Hu) as [(k & Hk & _)|(k & Hk & E)]; [by exists k|].
  destruct k as [|d k]; [exists []; by rewrite Hk, !app_nil_r|]. injection E as <- _.
  exfalso. assert (c ∈ lit w) as Hin by (rewrite Hk; apply elem_of_app; right; left).
  by rewrite (command_no_end w c Hw Hin) in Hc.
Qed.

Lemma disposition_strip r c b :
  ends_string osc c = true -> oscDispositionAt (r ++ c :: b) = Some forward ->
  oscDispositionAt r = Some forward \/ Forall (fun d => is_digit_unit d = true) r.
Proof.
  intros Hc. destruct (span_of_spec is_digit_unit r) as [E F]. unfold oscDispositionAt.
  destruct (span_of is_digit_unit r) as [ds [|d q]] eqn:Es; cbn [fst snd] in *; [right; by rewrite E, app_nil_r|].
  rewrite span_of_app by (by rewrite Es). rewrite Es. cbn [fst snd app]. intros H. left.
  destruct (bool_decide (ds = []) || negb (d =? 59)); [done|]. destruct (bool_decide (ds = lit "1337")); [|done].
  by apply (command_strip q c b).
Qed.

Lemma resume_text rest b : rest ++ b = without_esc rest ++ (held_esc rest ++ b).
Proof. by rewrite app_assoc, <- esc_split. Qed.

(** A finished sequence that was being streamed is not one the parser consumes. *)
Lemma forward_content rest b e x c0 :
  oscDispositionAt rest = Some forward -> findStringControlEnd osc rest = None ->
  findStringControlEnd osc (rest ++ b) = Some e -> cancelled e = false ->
  (c0 = 93 \/ c0 = 157) -> bare_cut (x ++ c0 :: rest) = false ->
  oscDispositionAt (take (e_index e) (rest ++ b)) = Some forward.
Proof.
  intros Hd Hn He Hc H0 Hb. rewrite (find_end_resume _ _ _ Hn) in He.
  destruct (findStringControlEnd osc (held_esc rest ++ b)) as [e'|] eqn:E'; [|done]. injection He as <-. cbn [e_index cancelled] in *.
  rewrite resume_text, take_app_add.
  destruct (held_esc_cases rest) as [[Eh _]|[Eh [r Er]]]; rewrite Eh in *; cbn [app] in *.
  - pose proof (esc_split rest) as Es. rewrite Eh, app_nil_r in Es. rewrite <- Es. by apply disposition_app.
  - pose proof (esc_split rest) as Es. rewrite Eh in Es. rewrite Es in Hd. rewrite find_end_here in E' by done. cbn [negb Z.eqb] in E'.
    assert (e_index e' = 0%nat) as ->.
    { destruct b as [|d b]; [done|]. destruct (d =? 92); by injection E' as <-. }
    cbn [take]. rewrite app_nil_r. destruct (disposition_strip _ ESC [] eq_refl Hd) as [H|H]; [done|]. exfalso.
    apply not_true_iff_false in Hb. apply Hb, bare_cut_spec. exists x, c0, (without_esc rest). split_and!; [by rewrite <- Es|done|done].
Qed.

Section reads.
  Context {U : UrlHost} {J : JsonHost}.
  Variable colorProvider : option (TerminalColorTarget -> option text).
  Variable now : Z.

Abbreviation run := (run colorProvider now).
Abbreviation process_ground := (process_ground colorProvider now).
Abbreviation processForwarded := (processForwarded colorProvider now).
Abbreviation process := (process colorProvider now).
Abbreviation complete_control := (complete_control colorProvider now).

(** ** The fast path *)

Lemma plain_ground t : existsb (fun c => (c =? BEL) || (c =? ESC) || (c =? C1_CSI)) t = false ->
  no_bells t = t /\ remove_queries 0 t = (t, 0%nat).
Proof.
  induction t as [|c t IH]; [done|]. cbn [existsb]. intros [[[Hb He]%orb_false_iff Hc]%orb_false_iff Ht]%orb_false_iff.
  destruct (IH Ht) as [IH1 IH2]. unfold no_bells in *. cbn [List.filter]. rewrite Hb. cbn [negb]. rewrite IH1. split; [done|].
  rewrite remove_unit by (cbn [query_at]; by rewrite He, Hc). by rewrite IH2.
Qed.

Lemma plain_held t : existsb (fun c => (c =? BEL) || (c =? ESC) || (c =? C1_CSI)) t = false -> held t = [].
Proof.
  intros Ht. destruct (held_cases t) as [[H _]|[Hin [x E]]]; [done|]. exfalso. rewrite E, existsb_app in Ht.
  apply orb_false_iff in Ht as [_ Ht]. by destruct Hin as [Hin|[Hin|[Hin|[Hin|[Hin|[]]]]]]; rewrite <- Hin in Ht.
Qed.

Lemma set_pending_twice t u p : set_pending t (set_pending u p) = set_pending t p.
Proof. done. Qed.

Lemma ground_read data p : seen_read (process_ground data p) = quiet_run (run (pending p ++ data) (set_pending [] p)).
Proof.
  unfold TermProtocol.process_ground. destruct (bool_decide (pending p = []) && negb (needs_parse data)) eqn:E.
  - apply andb_prop in E as [Hp%bool_decide_eq_true [Hx Hi]%negb_true_iff%orb_false_iff]. rewrite Hp.
    destruct (plain_ground _ Hx) as [Hb Hq]. rewrite set_pending_ground by done. cbn [app]. rewrite quiet_ground.
    + unfold held_of, shown_of, held_of. rewrite Hb, plain_held by done. cbn [length]. rewrite Nat.sub_0_r, firstn_all.
      unfold ground_em, answerDeviceAttributeQueries. rewrite Hq, set_pending_ground by done. done.
    + done.
    + by destruct (find_introducer data).
  - unfold seen_read, quiet_run, TermScan.run. cbn [fst snd]. f_equal.
    destruct (TermProtocol.scan _ _ _ _ _ _) as [p' [e|x]]; [|done]. cbn. unfold seen, quiet. cbn. by rewrite filter_bells_quiet.
Qed.

(** ** A finished control *)

Lemma complete_app k n t b end_ p :
  findStringControlEnd k (drop n t) = Some end_ -> (n <= length t)%nat ->
  complete_control k (take (n + e_end end_) (t ++ b)) (drop n t ++ b) end_ p em0 =
  complete_control k (take (n + e_end end_) t) (drop n t) end_ p em0.
Proof.
  intros He Hn. destruct (find_end_spec _ _ _ He) as (t1 & c & t2 & E & _ & Hc & Hi & Hl & _). rewrite length_drop in Hl.
  rewrite (take_app_le t b) by lia. unfold TermProtocol.complete_control. destruct k; [|done].
  assert (e_index end_ <= length (drop n t))%nat as Hl' by (rewrite E, length_app, Hi; lia).
  rewrite (take_app_le (drop n t) b) by done. destruct (cancelled end_); [|done].
  rewrite (bool_decide_ext (oscDispositionAt (drop n t ++ b) = Some forward) (oscDispositionAt (drop n t) = Some forward)); [done|].
  split; [|apply disposition_app]. apply (disposition_before_end _ _ c); [|done]. rewrite E. apply elem_of_app. right. left.
Qed.

Lemma complete_ground k s rest end_ p p' x : at_ground p -> complete_control k s rest end_ p em0 = (p', Ok x) -> at_ground p'.
Proof.
  intros Hp. unfold TermProtocol.complete_control. destruct k; [|by intros [= <- _]].
  destruct (cancelled end_); [by intros [= <- _]|]. intros H.
  assert (p' = set_osc99 (parseOsc colorProvider now (osc99Pending p) (take (e_index end_) rest)).1 p) as ->; [by injection H|]. done.
Qed.

(** A finished control that was being streamed is emitted as it is. *)
Lemma complete_forwarded k n t b end_ p :
  introducer_at t = Some (n, k) -> bare_cut t = false -> findStringControlEnd k (drop n t) = None ->
  match k with osc => oscDispositionAt (drop n t) | other => Some forward end = Some forward ->
  findStringControlEnd k (drop n t ++ b) = Some end_ -> forall s,
  complete_control k s (drop n t ++ b) end_ p em0 = (p, Ok (emit_visible s em0)).
Proof.
  intros Ht Hb Hn Hd He s. unfold TermProtocol.complete_control. destruct k; [|done]. destruct (cancelled end_) eqn:Ec.
  - rewrite bool_decide_true; [done|]. by apply disposition_app.
  - destruct (introducer_last _ _ _ Ht) as (x & c0 & Ex & _ & H0). specialize (H0 eq_refl).
    rewrite (parseOsc_forward colorProvider now (osc99Pending p) (take (e_index end_) (drop n t ++ b))); [by destruct p|].
    apply (forward_content _ _ _ x c0 Hd Hn He Ec H0).
    by rewrite <- (take_drop n t), Ex, <- app_assoc in Hb.
Qed.

(** ** An unfinished control *)

Lemma held_control t n k : introducer_at t = Some (n, k) -> held_esc (drop n t) = held_esc t.
Proof.
  intros Ht. destruct (introducer_last _ _ _ Ht) as (x & c & Ex & Hc & _). rewrite <- (take_drop n t) at 2. rewrite Ex.
  rewrite held_app. by assert (held_esc (x ++ [c]) = []) as -> by (unfold held_esc; rewrite ends_in_snoc; by destruct (Z.eqb_spec c ESC)).
Qed.

Lemma without_control t n k : introducer_at t = Some (n, k) -> without_esc t = take n t ++ without_esc (drop n t).
Proof.
  intros Ht. apply (app_inv_tail (held_esc t)). rewrite <- esc_split, <- app_assoc, <- (held_control t n k Ht), <- esc_split.
  by rewrite take_drop.
Qed.

Lemma set_forwarding_ground f p : at_ground p -> set_pending [] (set_forwarding None (set_forwarding f p)) = p.
Proof. destruct p. intros (Hp & Hf & _). cbn in *. by subst. Qed.

Lemma resume_forwarded t n k b p :
  at_ground p -> introducer_at t = Some (n, k) -> bare_cut t = false -> findStringControlEnd k (drop n t) = None ->
  match k with osc => oscDispositionAt (drop n t) | other => Some forward end = Some forward ->
  quiet_run (run (t ++ b) p) =
  after (emit_visible (without_esc t) em0) (seen_read (processForwarded k (held_esc t) b (set_forwarding (Some (k, held_esc t)) p))).
Proof.
  intros Hp Ht Hb Hn Hd. rewrite (run_at _ _ _ n k) by by apply introducer_at_app. unfold run_control.
  destruct (find_introducer_split _ _ _ _ (find_introducer_at _ _ _ Ht)) as (_ & _ & Hl). cbn [plus] in Hl.
  rewrite (drop_app_le t b) by done. unfold TermProtocol.processForwarded.
  pose proof (find_end_resume _ _ b Hn) as Hr. rewrite (held_control _ _ _ Ht) in Hr.
  destruct (findStringControlEnd k (held_esc t ++ b)) as [e|]; cbn [shift_end option_map] in Hr; rewrite Hr.
  - rewrite (complete_forwarded k n t b _ p Ht Hb Hn Hd Hr). cbn [e_end]. 
    assert (Et : t ++ b = without_esc t ++ (held_esc t ++ b)) by apply resume_text.
    assert (Er : drop n t ++ b = without_esc (drop n t) ++ (held_esc t ++ b)) by (rewrite <- (held_control _ _ _ Ht); apply resume_text).
    rewrite Er, drop_app_add, quiet_after. rewrite Et. rewrite (Nat.add_assoc n).
    assert (En : (n + length (without_esc (drop n t)) = length (without_esc t))%nat).
    { rewrite (without_control _ _ _ Ht), length_app, length_take. lia. }
    rewrite En, take_app_add. pose proof (ground_read (drop (e_end e) (held_esc t ++ b)) (set_forwarding None (set_forwarding (Some (k, held_esc t)) p))) as G.
    cbn [pending set_forwarding] in G. destruct Hp as (Hp1 & Hp2 & Hp3). rewrite Hp1 in G. cbn [app] in G.
    rewrite set_forwarding_ground in G by done. rewrite <- G. clear G.
    destruct (process_ground _ _) as [p' [res|x]]; unfold seen_read, after; cbn [fst snd obind]; [|done].
    unfold em_app, seen, quiet, emit_visible. cbn. by rewrite app_assoc.
  - unfold incomplete_control. rewrite bool_decide_true by (destruct k; [by apply disposition_app|done]).
    unfold beginForwarding, seen_read, after, quiet_run. cbn [fst snd obind]. rewrite held_app. f_equal.
    unfold quiet, em_app, emit_visible. cbn. by rewrite <- without_app.
Qed.

(** ** Any two reads *)

Lemma process_at_ground b p : forwarding p = None -> discarding p = None -> process b p = process_ground b p.
Proof. intros Hf Hd. unfold TermProtocol.process, process_live. by rewrite Hd, Hf. Qed.

Lemma process_forwarding b p k h : forwarding p = Some (k, h) -> discarding p = None -> process b p = processForwarded k h b p.
Proof. intros Hf Hd. unfold TermProtocol.process, process_live. by rewrite Hd, Hf. Qed.

(** A read that stops in a control, and the next one. *)
Lemma stop_in_control t n k b p p1 s1 :
  at_ground p -> introducer_at t = Some (n, k) -> bare_cut t = false -> findStringControlEnd k (drop n t) = None ->
  quiet_run (run t p) = (p1, Ok s1) -> discarding p1 = None ->
  quiet_run (run (t ++ b) p) = after s1 (seen_read (process b p1)).
Proof.
  intros Hp Ht Hb Hn Hr Hd. rewrite (run_at _ _ _ n k p Ht) in Hr. unfold run_control in Hr. rewrite Hn in Hr.
  unfold quiet_run, incomplete_control in Hr. cbn [fst snd obind] in Hr.
  destruct (bool_decide_reflect (match k with osc => oscDispositionAt (drop n t) | other => Some forward end = Some forward)) as [Hf|_].
  - injection Hr as <- <-. rewrite (resume_forwarded _ _ _ _ _ Hp Ht Hb Hn Hf). unfold TermProtocol.process, process_live.
    destruct Hp as (_ & _ & Hp3). cbn. by rewrite Hp3.
  - destruct (_ <=? _)%nat; injection Hr as <- <-; [|done]. destruct Hp as (Hp1 & Hp2 & Hp3).
    rewrite process_at_ground, ground_read by done. cbn [pending set_pending].
    change (set_pending [] (set_pending t p)) with (set_pending [] p). rewrite set_pending_ground by done.
    change (quiet em0) with em0. by rewrite after_nil.
Qed.

(** From ground text: the first read stops anywhere a read may stop. *)
Lemma two_reads_ground a b p p1 s1 :
  at_ground p -> good_cut a = true -> quiet_run (run a p) = (p1, Ok s1) -> discarding p1 = None ->
  quiet_run (run (a ++ b) p) = after s1 (seen_read (process b p1)).
Proof.
  revert p p1 s1. induction a as [a IH] using (induction_ltof1 _ (@length Z)). unfold ltof in IH. intros p p1 s1 Hp Hc Hr Hd.
  destruct (find_introducer a) as [[[i n] k]|] eqn:Ei.
  - rewrite (quiet_gap _ _ _ _ _ _ _ Ei) in Hr. rewrite (quiet_gap _ _ _ _ _ _ _ (find_introducer_app _ b _ Ei)).
    destruct (find_introducer_split _ _ _ _ Ei) as (Hi & Hn & Hl). rewrite take_app_le, drop_app_le by lia.
    rewrite <- (take_drop i a) in Hc. apply good_cut_suffix in Hc.
    destruct (quiet_run (run (drop i a) p)) as [p1' [s|x]] eqn:Et; [|done]. injection Hr as <- <-. rewrite <- after_after. f_equal.
    destruct (findStringControlEnd k (drop n (drop i a))) as [e|] eqn:En.
    + rewrite (run_at _ _ _ n k _ (introducer_at_app _ b _ Hi)). rewrite (run_at _ _ _ n k _ Hi) in Et. unfold run_control in *.
      rewrite (drop_app_le _ b) by (rewrite length_drop; lia). rewrite (find_end_app _ _ b _ En). rewrite En in Et.
      rewrite complete_app by (done || rewrite length_drop; lia).
      destruct (complete_control _ _ _ _ _ _) as [p' [x|x]] eqn:Ec; [|done]. rewrite quiet_after in Et. rewrite quiet_after.
      destruct (find_end_spec _ _ _ En) as (t1 & c & t2 & _ & _ & _ & _ & Hle & _). rewrite (drop_app_le _ b) by lia.
      destruct (quiet_run (run (drop (e_end e) (drop n (drop i a))) p')) as [p2 [s2|y]] eqn:E2; [|done]. injection Et as <- <-.
      rewrite <- after_after. f_equal. apply (IH (drop (e_end e) (drop n (drop i a)))); [|by eapply complete_ground| |done|done].
      * rewrite !length_drop. lia.
      * apply (good_cut_suffix (take (n + e_end e) (drop i a))). by rewrite drop_drop, take_drop.
    + apply (stop_in_control _ n k); try done. unfold good_cut in Hc. by apply andb_prop in Hc as [_ ?%negb_true_iff].
  - destruct Hp as (Hp1 & Hp2 & Hp3). rewrite quiet_ground in Hr by done. injection Hr as <- <-.
    rewrite process_at_ground, ground_read by done. cbn [pending set_pending].
    change (set_pending [] (set_pending (held_of a) p)) with (set_pending [] p). rewrite set_pending_ground by done.
    apply hold_ground; [done|done|]. unfold good_cut in Hc. by apply andb_prop in Hc as [?%negb_true_iff _].
Qed.

(** What the parser re-reads at the head of the next read. *)
Definition unread (p : Parser) : text :=
  match forwarding p with Some (_, heldEsc) => heldEsc | None => pending p end.

(** Nothing is pending while a string streams through. *)
Definition parser_ok (p : Parser) : Prop := forwarding p <> None -> pending p = [].

Lemma two_reads_forwarded a b k heldEsc p p1 s1 :
  forwarding p = Some (k, heldEsc) -> pending p = [] -> discarding p = None -> good_cut (heldEsc ++ a) = true ->
  seen_read (processForwarded k heldEsc a p) = (p1, Ok s1) -> discarding p1 = None ->
  seen_read (processForwarded k heldEsc (a ++ b) p) = after s1 (seen_read (process b p1)).
Proof.
  intros Hf Hp Hd Hc Hr Hd1. unfold TermProtocol.processForwarded in Hr |- *.
  destruct (findStringControlEnd k (heldEsc ++ a)) as [e|] eqn:En.
  - rewrite app_assoc, (find_end_app _ _ b _ En).
    destruct (find_end_spec _ _ _ En) as (t1 & c & t2 & _ & _ & _ & _ & Hle & _). rewrite (drop_app_le _ b), (take_app_le _ b) by lia.
    pose proof (ground_read (drop (e_end e) (heldEsc ++ a)) (set_forwarding None p)) as G.
    pose proof (ground_read (drop (e_end e) (heldEsc ++ a) ++ b) (set_forwarding None p)) as G2. cbn [pending set_forwarding] in G, G2.
    rewrite Hp in G, G2. cbn [app] in G, G2.
    destruct (process_ground (drop (e_end e) (heldEsc ++ a)) (set_forwarding None p)) as [p' [res|x]]; [|done].
    unfold seen_read in Hr, G. cbn [fst snd obind] in Hr, G. injection Hr as <- <-. symmetry in G.
    apply (two_reads_ground _ b) in G; [|done| |done].
    + rewrite G in G2. destruct (process_ground (drop (e_end e) (heldEsc ++ a) ++ b) (set_forwarding None p)) as [p2 [res2|x]];
        destruct (process b p') as [p3 [res3|y]]; unfold seen_read, after in *; cbn [fst snd obind] in *; try done.
      injection G2 as -> Ev Et Ee. unfold seen, em_app. cbn [em_visible em_text em_events visibleData textData events] in *.
      by rewrite Ev, Et, Ee, app_assoc.
    + rewrite <- (take_drop (e_end e) (heldEsc ++ a)) in Hc. by apply good_cut_suffix in Hc.
  - unfold beginForwarding in Hr. injection Hr as <- <-. rewrite app_assoc, (find_end_resume _ _ b En).
    unfold TermProtocol.process, process_live. cbn [discarding set_forwarding forwarding]. rewrite Hd. unfold TermProtocol.processForwarded.
    destruct (findStringControlEnd k (held_esc (heldEsc ++ a) ++ b)) as [e|]; cbn [shift_end option_map].
    + cbn [e_end]. rewrite !(resume_text (heldEsc ++ a) b), take_app_add, drop_app_add.
      change (set_forwarding None (set_forwarding ?f p)) with (set_forwarding None p).
      destruct (process_ground _ _) as [p2 [res2|x]]; unfold seen_read, after; cbn [fst snd obind]; [|done].
      unfold em_app, seen. cbn. by rewrite app_assoc.
    + unfold beginForwarding, seen_read, after. cbn [fst snd obind]. rewrite held_app. unfold seen, em_app. cbn. by rewrite <- without_app.
Qed.

Lemma two_reads a b p p1 s1 :
  parser_ok p -> discarding p = None -> good_cut (unread p ++ a) = true ->
  seen_read (process a p) = (p1, Ok s1) -> discarding p1 = None ->
  seen_read (process (a ++ b) p) = after s1 (seen_read (process b p1)).
Proof.
  intros Hok Hd Hc Hr Hd1. unfold unread in Hc. destruct (forwarding p) as [[k h]|] eqn:Ef.
  - rewrite (process_forwarding _ _ _ _ Ef Hd) in Hr. rewrite (process_forwarding _ _ _ _ Ef Hd).
    apply (two_reads_forwarded _ _ _ _ _ _ _ Ef); try done. by apply Hok; rewrite Ef.
  - rewrite process_at_ground, ground_read in Hr by done. rewrite process_at_ground, ground_read, app_assoc by done.
    apply two_reads_ground; [|done|done|done]. by destruct p.
Qed.

End reads.
