(* ===== verification/TermBounds.v ===== *)
(** * What the terminal parser retains

    However much a program writes and wherever its reads are cut, the parser
    holds a bounded amount of it, and never holds two things at once. *)
From Stdlib Require Import ZArith Lia.
From S2P Require Import Prelude JsValue TermText TermControls TermDecode TermCwd ToolOsc OscParse TermProtocol TermScan.
From S2P Require Import TermScan.
#[local] Open Scope Z_scope.
#[local] Open Scope list_scope.
#[local] Set Warnings "-abstract-large-number".

(** ** Texts *)

Lemma points_length t : (length (points t) <= length t)%nat /\ forall l, (length (concat (take l (points t))) <= 2 * l)%nat.
Proof.
  induction t as [t IH] using (induction_ltof1 _ (@length Z)). unfold ltof in IH.
  destruct t as [|c [|d t]]; [split; [done|intros [|l]; cbn; lia]|split; [done|intros [|[|l]]; cbn; lia]|].
  rewrite points_cons. destruct (_ && _).
  - destruct (IH t) as [IH1 IH2]; [cbn; lia|]. split; [cbn; lia|]. intros [|l]; cbn; [lia|]. specialize (IH2 l). lia.
  - destruct (IH (d :: t)) as [IH1 IH2]; [cbn [length]; lia|]. split; [cbn [length] in *; lia|].
    intros [|l]; cbn [take concat app length]; [lia|]. specialize (IH2 l). lia.
Qed.

Lemma truncate_bound t limit : (length (truncateText t limit) <= 2 * limit)%nat.
Proof. unfold truncateText. destruct (Nat.leb_spec (length t) limit); [lia|]. apply points_length. Qed.

(** ** Kitty notifications *)

Definition entry_ok (p : Osc99Pending) : Prop :=
  (length (p_title p) <= 2 * OSC99_PENDING_TITLE_LIMIT)%nat /\ (length (p_body p) <= 2 * OSC99_PENDING_BODY_LIMIT)%nat.

Definition osc99_ok (m : Osc99Map) : Prop := (length m <= OSC99_MAX_PENDING_IDS)%nat /\ Forall (fun kv => entry_ok kv.2) m.

Lemma pending_get_ok id m p : Forall (fun kv => entry_ok kv.2) m -> pending_get id m = Some p -> entry_ok p.
Proof.
  intros Hm. unfold pending_get. destruct (List.find _ m) as [kv|] eqn:E; [|done]. intros [= <-].
  apply List.find_some in E as [Hin _]. rewrite Forall_forall in Hm. by apply Hm, list_elem_of_In.
Qed.

Lemma Forall_filter_list {A} (P : A -> Prop) f l : Forall P l -> Forall P (List.filter f l).
Proof. induction 1; cbn; [constructor|]. destruct (f x); [by constructor|done]. Qed.

Lemma filter_length_le {A} (f : A -> bool) l : (length (List.filter f l) <= length l)%nat.
Proof. induction l as [|x l IH]; cbn; [lia|]. destruct (f x); cbn; lia. Qed.

Lemma osc99_filter f m : osc99_ok m -> osc99_ok (List.filter f m).
Proof. intros [Hl Hf]. split; [pose proof (filter_length_le f m); lia|by apply Forall_filter_list]. Qed.

Lemma osc99_update id p m : entry_ok p -> osc99_ok m -> osc99_ok (pending_update id p m).
Proof.
  intros Hp [Hl Hf]. split; [by unfold pending_update; rewrite length_map|]. unfold pending_update. clear Hl.
  induction Hf as [|kv m Hkv _ IH]; cbn; constructor; [by destruct (bool_decide _)|done].
Qed.

Lemma osc99_insert id now m : osc99_ok m -> osc99_ok (enforceOsc99PendingCap (m ++ [(id, mkPending [] [] now)])).
Proof.
  intros [Hl Hf]. unfold enforceOsc99PendingCap. split; [rewrite length_drop; unfold OSC99_MAX_PENDING_IDS in *; lia|].
  apply Forall_drop, Forall_app. split; [done|]. constructor; [split; apply Nat.le_0_l|constructor].
Qed.

Lemma appendLimited_bound a b limit : (length (appendLimited a b limit) <= 2 * limit)%nat.
Proof. apply truncate_bound. Qed.

Lemma parseOsc99_ok now m content : osc99_ok m -> osc99_ok (parseOsc99 now m content).1.
Proof.
  intros Hm. unfold parseOsc99. pose proof (osc99_filter (fun kv => negb (p_updatedAt kv.2 <? now - OSC99_PENDING_TTL_MS)) m Hm) as He.
  fold (expireOsc99Pending now m) in He. destruct (negb _); [done|]. destruct (cut_at 59 (drop 3 content)) as [md payload].
  destruct (bool_decide (_ = lit "?")); [done|]. destruct (_ || _); [done|].
  destruct (if bool_decide _ then _ else _) as [decoded|]; [|done]. set (m1 := expireOsc99Pending now m) in *.
  set (id := sanitizeOsc99Id _). set (target := default (mkPending [] [] now) _).
  assert (Ht : entry_ok target).
  { unfold target. destruct id as [id|]; [|split; apply Nat.le_0_l]. destruct (pending_get id m1) as [p|] eqn:E; cbn; [|split; apply Nat.le_0_l].
    by apply (pending_get_ok id m1); [apply He|]. }
  assert (Hm2 : osc99_ok (claim_pending id (mkPending [] [] now) m1)).
  { unfold claim_pending. destruct id as [id|]; [|done]. destruct (pending_get id m1); [done|by apply osc99_insert]. }
  set (m2 := claim_pending _ _ _) in *.
  destruct (negb (negb _)); cbn [fst]; destruct id as [id|]; try done; [|by apply osc99_filter].
  apply osc99_update; [|done]. destruct Ht as [Ht1 Ht2]. split; cbn [p_title p_body].
  - destruct (bool_decide _); [apply appendLimited_bound|done].
  - destruct (negb _ && _); [apply appendLimited_bound|done].
Qed.

Section bounds.
  Context {U : UrlHost} {J : JsonHost}.
  Variable colorProvider : option (TerminalColorTarget -> option text).

Lemma parseOsc_osc99 now m content : osc99_ok m -> osc99_ok (parseOsc colorProvider now m content).1.
Proof.
  intros Hm. unfold parseOsc. repeat match goal with |- context [if claims ?i content then _ else _] => destruct (claims i content) end;
    try done; [by apply parseOsc99_ok|..]; repeat case_goal; done.
Qed.

(** ** The parser *)

Definition held_ok (t : text) : Prop := t = [] \/ t = [ESC].

(** What the parser may be holding between reads. *)
Record retained (p : Parser) : Prop := mkRetained {
  r_pending : (length (pending p) <= OSC_INCOMPLETE_LIMIT)%nat;
  r_forwarding : forall k h, forwarding p = Some (k, h) -> held_ok h /\ pending p = [] /\ discarding p = None;
  r_discarding : forall h, discarding p = Some h -> held_ok h /\ pending p = [];
  r_osc99 : osc99_ok (osc99Pending p)
}.

Definition ground_state (p : Parser) : Prop :=
  pending p = [] /\ forwarding p = None /\ discarding p = None /\ osc99_ok (osc99Pending p).

Lemma held_esc_ok t : held_ok (held_esc t).
Proof. unfold held_esc, held_ok. destruct (ends_in ESC t); tauto. Qed.

Lemma ground_retained p : ground_state p -> retained p.
Proof. intros (H1 & H2 & H3 & H4). split; [rewrite H1; apply Nat.le_0_l|by rewrite H2|by rewrite H3|done]. Qed.

Lemma tail_retained t p e : ground_state p -> retained (ground_tail t p e).1.
Proof.
  intros (H1 & H2 & H3 & H4). unfold ground_tail. cbn [fst]. split; cbn [pending forwarding discarding osc99Pending set_pending]; [|by rewrite H2|by rewrite H3|done].
  destruct (held_cases (stripStandaloneBells t).1) as [[-> _]|[Hin _]]; [apply Nat.le_0_l|].
  destruct Hin as [<-|[<-|[<-|[<-|[<-|[]]]]]]; by apply Nat.leb_le.
Qed.

Lemma incomplete_retained k inc rest p e : ground_state p -> retained (incomplete_control k inc rest p e).1.
Proof.
  intros (H1 & H2 & H3 & H4). unfold incomplete_control. destruct (bool_decide _); [|destruct (Nat.leb_spec (length inc) OSC_INCOMPLETE_LIMIT)]; cbn [fst].
  - split; cbn; [rewrite H1; apply Nat.le_0_l| |by rewrite H3|done]. intros k' h [= <- <-]. split; [apply held_esc_ok|done].
  - split; cbn; [done|by rewrite H2|by rewrite H3|done].
  - split; cbn; [rewrite H1; apply Nat.le_0_l|by rewrite H2| |done]. intros h [= <-]. split; [apply held_esc_ok|done].
Qed.

Lemma complete_ground_state now k s rest end_ p e :
  ground_state p -> ground_state (complete_control colorProvider now k s rest end_ p e).1.
Proof.
  intros Hp. unfold complete_control. destruct k; [|done]. destruct (cancelled end_); [done|]. cbn [fst].
  destruct Hp as (H1 & H2 & H3 & H4). split_and!; try done. cbn. by apply parseOsc_osc99.
Qed.

Lemma scan_retained now fuel t p e : ground_state p -> retained (scan colorProvider now fuel t p e).1.
Proof.
  revert t p e. induction fuel as [|fuel IH]; intros t p e Hp; [by apply ground_retained|].
  destruct t as [|c t]; [by apply ground_retained|]. cbn [scan]. destruct (find_introducer (c :: t)) as [[[i n] k]|]; [|by apply tail_retained].
  destruct (findStringControlEnd _ _) as [end_|]; [|by apply incomplete_retained].
  pose proof (complete_ground_state now k (take (n + e_end end_) (drop i (c :: t))) (drop (i + n) (c :: t)) end_ p
    (ground_gap (take i (c :: t)) e) Hp) as Hg.
  destruct (complete_control _ _ _ _ _ _ _ _) as [p' [x|x]]; cbn [fst snd] in *; [by apply IH|by apply ground_retained].
Qed.

Lemma process_ground_retained now data p :
  forwarding p = None -> discarding p = None -> retained p -> retained (process_ground colorProvider now data p).1.
Proof.
  intros Hf Hd Hp. unfold process_ground. destruct (_ && _); [done|]. cbn [fst]. apply scan_retained.
  destruct Hp as [_ _ _ H4]. by split_and!.
Qed.

Lemma process_live_retained now data p : discarding p = None -> retained p -> retained (process_live colorProvider now data p).1.
Proof.
  intros Hd Hp. unfold process_live. destruct (forwarding p) as [[k h]|] eqn:Ef; [|by apply process_ground_retained].
  destruct (r_forwarding _ Hp _ _ Ef) as (Hh & Hpe & _). unfold processForwarded.
  assert (Hp' : retained (set_forwarding None p)).
  { split; cbn; [by apply Hp|done|by rewrite Hd|by apply Hp]. }
  destruct (findStringControlEnd k (h ++ data)) as [end_|]; cbn [fst]; [by apply process_ground_retained|].
  split; cbn; [by apply Hp| |by rewrite Hd|by apply Hp]. intros k' h' [= <- <-]. split; [apply held_esc_ok|done].
Qed.

Lemma process_retained now data p : retained p -> retained (process colorProvider now data p).1.
Proof.
  intros Hp. unfold process. destruct (discarding p) as [h|] eqn:Ed; [|by apply process_live_retained].
  destruct (r_discarding _ Hp _ Ed) as [Hh Hpe].
  assert (Hf : forwarding p = None).
  { destruct (forwarding p) as [[k h']|] eqn:Ef; [|done]. destruct (r_forwarding _ Hp _ _ Ef) as (_ & _ & H). congruence. }
  destruct (findStringControlEnd osc (h ++ data)) as [end_|].
  - apply process_live_retained; [done|]. split; cbn; [by apply Hp|by rewrite Hf|done|by apply Hp].
  - cbn [fst]. split; cbn; [by apply Hp|by rewrite Hf| |by apply Hp]. intros h' [= <-]. split; [apply held_esc_ok|done].
Qed.

(** The states reads lead to: each has its clock, and one that throws leaves its state behind. *)
Inductive reachable : Parser -> Prop :=
  | reach_new : reachable new_parser
  | reach_read now data p : reachable p -> reachable (process colorProvider now data p).1.

Lemma new_retained : retained new_parser.
Proof. apply ground_retained. split_and!; [done|done|done|]. split; [apply Nat.le_0_l|constructor]. Qed.

Lemma reachable_retained p : reachable p -> retained p.
Proof. induction 1; [apply new_retained|by apply process_retained]. Qed.

(** C32. In every state the reads of a program's output lead to, the parser holds
    at most one thing: an unfinished sequence of at most 16384 units, a string
    it streams, or one it discards, the last two with at most one escape held
    back; and at most 64 unfinished kitty notifications, each of bounded size. *)
Theorem parser_retains_little p :
  reachable p ->
  (length (pending p) <= OSC_INCOMPLETE_LIMIT)%nat /\
  (forall k h, forwarding p = Some (k, h) -> (length h <= 1)%nat /\ pending p = [] /\ discarding p = None) /\
  (forall h, discarding p = Some h -> (length h <= 1)%nat /\ pending p = [] /\ forwarding p = None) /\
  (length (osc99Pending p) <= OSC99_MAX_PENDING_IDS)%nat /\
  Forall (fun kv => (length (p_title kv.2) <= 2 * OSC99_PENDING_TITLE_LIMIT)%nat /\
                    (length (p_body kv.2) <= 2 * OSC99_PENDING_BODY_LIMIT)%nat) (osc99Pending p).
Proof.
  intros [Hp Hf Hd [Hl Ho]]%reachable_retained.
  assert (Hh : forall h, held_ok h -> (length h <= 1)%nat) by (intros h [->| ->]; cbn; lia).
  split_and!; [done| | |done|done].
  - intros k h H. destruct (Hf k h H) as (H1 & H2 & H3). auto.
  - intros h H. destruct (Hd h H) as [H1 H2]. split_and!; [auto|done|].
    destruct (forwarding p) as [[k h']|] eqn:E; [|done]. destruct (Hf _ _ eq_refl) as (_ & _ & H'). congruence.
Qed.

End bounds.

(** ** The reads of a whole stream

    The terminal parser on a stream cut into reads, against the stream read at
    once; the cuts that matter, and what an inherited key of the OSC 9;4 table
    does. *)

Section stream.
  Context {U : UrlHost} {J : JsonHost}.
  Variable colorProvider : option (TerminalColorTarget -> option text).
  Variable now : Z.






End stream.

(** ** Samples *)

(** A platform whose URL parser and JSON know nothing, for evaluation. *)
#[local] Instance plain_urls : UrlHost := { URL := fun _ => None; toLowerCase := fun t => t }.
#[local] Instance plain_json : JsonHost := { json_parse := fun _ => None; json_stringify := fun _ => [] }.



Lemma parser_retains_little_witness :
  (length (pending (process None 0 (lit "x" ++ [ESC] ++ lit "]0;half") new_parser).1) <= OSC_INCOMPLETE_LIMIT)%nat.
Proof. apply (parser_retains_little None). apply reach_read, reach_new. Defined.

(** A bell between an escape and what would open a sequence with it: read at once
    the rest is text, and the bell that would end the title is gone from it;
    read in two, the title is taken. *)
Example bell_after_escape :
  let at_once := process None 0 ([ESC; BEL] ++ lit "]0;t" ++ [BEL] ++ lit "x") new_parser in
  let in_two := process_reads None 0 [[ESC; BEL]; lit "]0;t" ++ [BEL] ++ lit "x"] new_parser in
  match at_once.2, in_two.2 with
  | Ok a, Ok b => (visibleData a, concat (map visibleData b)) = ([ESC] ++ lit "]0;tx", lit "x")
  | _, _ => False
  end.
Proof. vm_compute. reflexivity. Qed.

(** An OSC of a bare number: consumed whole when read at once, shown when a read
    stops inside its terminator. *)
Example bare_number :
  let at_once := process None 0 ([ESC] ++ lit "]52" ++ [ESC; 92]) new_parser in
  let in_two := process_reads None 0 [[ESC] ++ lit "]52" ++ [ESC]; [92]] new_parser in
  match at_once.2, in_two.2 with
  | Ok a, Ok b => (visibleData a, concat (map visibleData b)) = ([], [ESC] ++ lit "]52" ++ [ESC; 92])
  | _, _ => False
  end.
Proof. vm_compute. reflexivity. Qed.

(** A progress report of a state named like a method of [Object.prototype] throws,
    and what was read with it is lost. *)
Example inherited_state_throws :
  (process None 0 (lit "shown" ++ [ESC] ++ lit "]9;4;__proto__" ++ [BEL]) new_parser).2 = Throw type_error.
Proof. vm_compute. reflexivity. Qed.
