(* ===== verification/TermEvents.v ===== *)
(** * Handing on what the parser reports (lib/src/lib/terminal-protocol.ts)

    The consumers of a read: the batch is applied to the alert sink in stream
    order, with its semantic events timestamped by a clock that never goes
    back; the collectors pick out what other parts of the program act on. *)
From Stdlib Require Import ZArith QArith Qround Lqa Lia Sorting.Sorted.
From S2P Require Import Prelude JsNum TerminalState TermText TermCwd ToolOsc OscParse TermProtocol.
#[local] Open Scope list_scope.

(** ** The ordered clock *)

(** [createOrderedEventTimestamp]: the last timestamp given ([None] is
    [-Infinity]) and the readings of the clock so far. *)
Record ClockState := mkClock { lastTimestamp : option Q; readings : nat }.

Section events.
  Variable now : nat -> Q.   (** what the clock answers at each reading *)

Definition nextTimestamp (s : ClockState) : Q * ClockState :=
  let candidate := now (readings s) in
  let timestamp := match lastTimestamp s with
                   | None => candidate
                   | Some last => if Qltb last candidate then candidate else (last + (1 # 1000))%Q
                   end in
  (timestamp, mkClock (Some timestamp) (S (readings s))).

(** [text?.trim()], unless it is empty. *)
Definition trimmed (t : option text) : option text :=
  match t with Some t => let t := trim t in if bool_decide (t = []) then None else Some t | None => None end.

(** [notificationDisplayTitle]. *)
Definition notificationDisplayTitle (n : Notification) : option text :=
  match n_source n with src_OSC9 => trimmed (n_body n) | _ => None end.

Definition terminalTitleFromNotification (n : Notification) (updatedAt : Q) : option SemanticEvent :=
  match n_source n with
  | src_BEL => None
  | src_OSC9 => option_map (fun t => sem_title t osc9 updatedAt) (notificationDisplayTitle n)
  | src_OSC99 => option_map (fun t => sem_title t osc99 updatedAt) (trimmed (n_title n))
  | src_OSC777 => option_map (fun t => sem_title t osc777 updatedAt) (trimmed (n_title n))
  end.

Definition timestampSemanticEvent (e : SemanticEvent) (s : ClockState) : SemanticEvent * ClockState :=
  match e with
  | sem_cwd c =>
      let t := nextTimestamp s in
      (sem_cwd (mkCwdText (uri c) (cwdPath c) (host c) (scheme c) (pathKind c) (isRemote c) (cwdSource c) t.1), t.2)
  | sem_commandStart source _ => let t := nextTimestamp s in (sem_commandStart source (Some t.1), t.2)
  | sem_commandFinish exitCode _ => let t := nextTimestamp s in (sem_commandFinish exitCode (Some t.1), t.2)
  | sem_title title source _ => let t := nextTimestamp s in (sem_title title source t.1, t.2)
  | e => (e, s)
  end.

Definition semanticEventOf (e : TerminalProtocolEvent) (s : ClockState) : option SemanticEvent * ClockState :=
  match e with
  | semantic e => let r := timestampSemanticEvent e s in (Some r.1, r.2)
  | notification n => let t := nextTimestamp s in (terminalTitleFromNotification n t.1, t.2)
  | _ => (None, s)
  end.

(** [collectTerminalSemanticEvents]. *)
Fixpoint collectTerminalSemanticEvents (evs : list TerminalProtocolEvent) (s : ClockState) : list SemanticEvent * ClockState :=
  match evs with
  | [] => ([], s)
  | e :: evs =>
      let r := semanticEventOf e s in
      let rs := collectTerminalSemanticEvents evs r.2 in
      (match r.1 with Some x => x :: rs.1 | None => rs.1 end, rs.2)
  end.

(** ** applyTerminalEvents *)

(** The calls of a [TerminalEventSink]. *)
Inductive SinkCall :=
  | applySemanticEvents (evs : list SemanticEvent)
  | notifyFromProtocol (n : Notification)
  | updateProtocolProgress (p : ProgressReport).

(** The locals of [applyTerminalEvents], and the calls it has made. *)
Record Applying := mkApplying { semanticEvents : list SemanticEvent; applied : nat; calls : list SinkCall; clock : ClockState }.

(** [applySemantic]. *)
Definition applySemantic (a : Applying) : Applying :=
  if (applied a =? length (semanticEvents a))%nat then a
  else mkApplying (semanticEvents a) (length (semanticEvents a))
         (calls a ++ [applySemanticEvents (drop (applied a) (semanticEvents a))]) (clock a).

(** [applyTerminalReport]. *)
Definition applyTerminalReport (e : TerminalProtocolEvent) (a : Applying) : Applying :=
  match e with
  | notification n => mkApplying (semanticEvents a) (applied a) (calls a ++ [notifyFromProtocol n]) (clock a)
  | progress p => mkApplying (semanticEvents a) (applied a) (calls a ++ [updateProtocolProgress p]) (clock a)
  | _ => a
  end.

Definition is_report (e : TerminalProtocolEvent) : bool :=
  match e with notification _ | progress _ => true | _ => false end.

Definition apply_event (a : Applying) (e : TerminalProtocolEvent) : Applying :=
  let r := semanticEventOf e (clock a) in
  let a := mkApplying (match r.1 with Some x => semanticEvents a ++ [x] | None => semanticEvents a end)
             (applied a) (calls a) r.2 in
  if is_report e then applyTerminalReport e (applySemantic a) else a.

(** The semantic events returned, the calls made and the clock after them. *)
Definition applyTerminalEvents (evs : list TerminalProtocolEvent) (s : ClockState) : list SemanticEvent * list SinkCall * ClockState :=
  if bool_decide (length evs = 0%nat) then ([], [], s)
  else let a := applySemantic (foldl apply_event (mkApplying [] 0 [] s) evs) in (semanticEvents a, calls a, clock a).

(** ** Collectors *)

(** [isProtocolCommandStart] of lib/src/lib/tool-events.ts. *)
Definition isProtocolCommandStart (e : TerminalProtocolEvent) : bool :=
  match e with semantic (sem_commandStart _ _) => true | _ => false end.

Definition collectTerminalToolEvents (evs : list TerminalProtocolEvent) : list TerminalProtocolEvent :=
  List.filter (fun e => match e with
                        | toolAnnounce _ | toolState _ | toolOpen _ | toolDehydrate _ => true
                        | e => isProtocolCommandStart e
                        end) evs.

Definition collectTerminalProtocolResponses (evs : list TerminalProtocolEvent) : list text :=
  omap (fun e => match e with response data => Some data | _ => None end) evs.

Definition collectTerminalClipboardOffers (evs : list TerminalProtocolEvent) : list text :=
  omap (fun e => match e with clipboardOffer t => Some t | _ => None end) evs.

Definition textProjectionOf (parsed : ParseResult) : option text :=
  if bool_decide (textData parsed = visibleData parsed) then None else Some (textData parsed).

(** ** Order *)

(** What a list of calls hands over, one thing at a time. *)
Inductive Item := item_semantic (e : SemanticEvent) | item_notification (n : Notification) | item_progress (p : ProgressReport).

Definition items_of_call (c : SinkCall) : list Item :=
  match c with
  | applySemanticEvents evs => map item_semantic evs
  | notifyFromProtocol n => [item_notification n]
  | updateProtocolProgress p => [item_progress p]
  end.

Definition items_of_calls (cs : list SinkCall) : list Item := concat (map items_of_call cs).

(** The items of a batch in stream order: the title a notification carries goes before it. *)
Fixpoint items_of_events (evs : list TerminalProtocolEvent) (s : ClockState) : list Item :=
  match evs with
  | [] => []
  | e :: evs =>
      let r := semanticEventOf e s in
      match r.1 with Some x => [item_semantic x] | None => [] end ++
      match e with notification n => [item_notification n] | progress p => [item_progress p] | _ => [] end ++
      items_of_events evs r.2
  end.

(** What is handed over and what waits to be. *)
Definition items_of (a : Applying) : list Item :=
  items_of_calls (calls a) ++ map item_semantic (drop (applied a) (semanticEvents a)).

Lemma applySemantic_items a :
  (applied a <= length (semanticEvents a))%nat ->
  items_of_calls (calls (applySemantic a)) = items_of a /\ applied (applySemantic a) = length (semanticEvents a) /\
  semanticEvents (applySemantic a) = semanticEvents a /\ clock (applySemantic a) = clock a.
Proof.
  intros Ha. unfold applySemantic, items_of. destruct (Nat.eqb_spec (applied a) (length (semanticEvents a))) as [E|E].
  - rewrite E, drop_ge by lia. cbn. by rewrite app_nil_r.
  - cbn [calls applied semanticEvents clock]. unfold items_of_calls. rewrite map_app, concat_app. cbn. by rewrite app_nil_r.
Qed.

Definition opt_list {A} (x : option A) : list A := match x with Some a => [a] | None => [] end.

Lemma apply_event_items a e :
  (applied a <= length (semanticEvents a))%nat ->
  let r := semanticEventOf e (clock a) in
  items_of (apply_event a e) = items_of a ++ map item_semantic (opt_list r.1) ++
    match e with notification n => [item_notification n] | progress p => [item_progress p] | _ => [] end /\
  semanticEvents (apply_event a e) = semanticEvents a ++ opt_list r.1 /\
  (applied (apply_event a e) <= length (semanticEvents (apply_event a e)))%nat /\ clock (apply_event a e) = r.2.
Proof.
  intros Ha r. unfold apply_event. fold r.
  set (a1 := mkApplying _ _ _ _). assert (Es : semanticEvents a1 = semanticEvents a ++ opt_list r.1).
  { unfold a1. cbn. destruct r.1; cbn; by rewrite ?app_nil_r. }
  assert (Ha1 : (applied a1 <= length (semanticEvents a1))%nat) by (rewrite Es, length_app; cbn; lia).
  assert (Ei : items_of a1 = items_of a ++ map item_semantic (opt_list r.1)).
  { unfold items_of. rewrite Es. cbn [calls applied a1]. rewrite drop_app_le by done. by rewrite map_app, app_assoc. }
  destruct (applySemantic_items a1 Ha1) as (E1 & E2 & E3 & E4).
  destruct e; cbn [is_report applyTerminalReport]; rewrite ?app_nil_r, ?app_assoc; try (split_and!; done).
  all: unfold items_of at 1; cbn [calls applied semanticEvents clock]; unfold items_of_calls; rewrite map_app, concat_app;
    fold (items_of_calls (calls (applySemantic a1))); rewrite E1, E2, E3, E4, drop_all, Ei, Es; cbn; rewrite ?app_nil_r; split_and!; done.
Qed.

Lemma fold_items evs a :
  (applied a <= length (semanticEvents a))%nat ->
  let b := foldl apply_event a evs in
  items_of b = items_of a ++ items_of_events evs (clock a) /\
  semanticEvents b = semanticEvents a ++ (collectTerminalSemanticEvents evs (clock a)).1 /\
  clock b = (collectTerminalSemanticEvents evs (clock a)).2 /\ (applied b <= length (semanticEvents b))%nat.
Proof.
  revert a. induction evs as [|e evs IH]; intros a Ha; [cbn; by rewrite !app_nil_r|].
  destruct (apply_event_items a e Ha) as (E1 & E2 & E3 & E4). destruct (IH (apply_event a e) E3) as (F1 & F2 & F3 & F4).
  cbn [foldl]. rewrite F1, F2, F3, E1, E2, E4. cbn [items_of_events collectTerminalSemanticEvents fst snd].
  split_and!; [|rewrite <- app_assoc; f_equal; by destruct (semanticEventOf e (clock a)).1|done|by rewrite F2, E2, E4 in F4].
  rewrite <- !app_assoc. f_equal. by destruct (semanticEventOf e (clock a)).1.
Qed.

Definition nonempty_call (c : SinkCall) : Prop := match c with applySemanticEvents evs => evs <> [] | _ => True end.

Lemma applySemantic_nonempty a :
  (applied a <= length (semanticEvents a))%nat -> Forall nonempty_call (calls a) -> Forall nonempty_call (calls (applySemantic a)).
Proof.
  intros Ha Hc. unfold applySemantic. destruct (Nat.eqb_spec (applied a) (length (semanticEvents a))) as [|Hn]; [done|].
  cbn. apply Forall_app. split; [done|]. constructor; [|constructor]. cbn. intros H%(f_equal length). rewrite length_drop in H. cbn in H. lia.
Qed.

Lemma fold_nonempty evs a :
  (applied a <= length (semanticEvents a))%nat -> Forall nonempty_call (calls a) -> Forall nonempty_call (calls (foldl apply_event a evs)).
Proof.
  revert a. induction evs as [|e evs IH]; intros a Ha Hc; [done|]. cbn [foldl]. destruct (apply_event_items a e Ha) as (_ & _ & H & _).
  apply IH; [done|]. unfold apply_event. set (a1 := mkApplying _ _ _ _).
  assert (Ha1 : (applied a1 <= length (semanticEvents a1))%nat).
  { unfold a1. cbn. destruct (semanticEventOf e (clock a)).1; [rewrite length_app; cbn; lia|done]. }
  pose proof (applySemantic_nonempty a1 Ha1 Hc) as Hn. destruct e; cbn [is_report applyTerminalReport]; try exact Hc.
  all: cbn [calls]; apply Forall_app; by repeat constructor.
Qed.

(** A batch is handed over in stream order: the calls of the sink, one after
    the other, are the semantic events and the reports of the batch as they
    came, a notification after the title it carries; no call is empty; and the
    events returned are the semantic events alone. *)
Theorem applied_in_stream_order evs s :
  let r := applyTerminalEvents evs s in
  items_of_calls r.1.2 = items_of_events evs s /\ Forall nonempty_call r.1.2 /\
  (r.1.1, r.2) = collectTerminalSemanticEvents evs s.
Proof.
  unfold applyTerminalEvents. case_bool_decide as He; [by destruct evs|]. cbn [fst snd].
  destruct (fold_items evs (mkApplying [] 0 [] s) ltac:(cbn; lia)) as (E1 & E2 & E3 & E4).
  set (a := foldl _ _ _) in *. destruct (applySemantic_items a E4) as (F1 & F2 & F3 & F4). rewrite F1, F3, F4, E1, E2, E3.
  split_and!; [done| |cbn [semanticEvents clock app]; by destruct (collectTerminalSemanticEvents evs s)].
  apply applySemantic_nonempty; [done|]. apply fold_nonempty; [cbn; lia|constructor].
Qed.

(** ** Times *)

Definition time_of (e : SemanticEvent) : option Q :=
  match e with
  | sem_cwd c => Some (cwdUpdatedAt c)
  | sem_commandStart _ t | sem_commandFinish _ t => t
  | sem_title _ _ t => Some t
  | _ => None
  end.

(** A time past the last one the clock gave. *)
Definition later (s : ClockState) (t : Q) : Prop := match lastTimestamp s with Some last => (last < t)%Q | None => True end.

Lemma next_later s : later s (nextTimestamp s).1 /\ lastTimestamp (nextTimestamp s).2 = Some (nextTimestamp s).1.
Proof.
  unfold nextTimestamp, later. cbn. split; [|done]. destruct (lastTimestamp s) as [last|]; [|done].
  unfold Qltb. destruct (Qle_bool (now (readings s)) last) eqn:E; cbn; [lra|].
  apply not_true_iff_false in E. rewrite Qle_bool_iff in E. lra.
Qed.

Lemma later_next s t : later (nextTimestamp s).2 t -> later s t.
Proof.
  destruct (next_later s) as [H1 H2]. unfold later in *. rewrite H2. destruct (lastTimestamp s) as [last|]; [|done].
  intros H. lra.
Qed.

Lemma event_time e s x s' :
  semanticEventOf e s = (x, s') ->
  match x with
  | Some x => match time_of x with Some t => later s t /\ lastTimestamp s' = Some t | None => s' = s end
  | None => s' = s \/ s' = (nextTimestamp s).2
  end.
Proof.
  pose proof (next_later s) as [H1 H2]. destruct e as [n| | | | | | | |e]; cbn [semanticEventOf]; try (intros [= <- <-]; by left).
  - intros [= <- <-]. unfold terminalTitleFromNotification. destruct (n_source n); [by right|..].
    + destruct (notificationDisplayTitle n); cbn; [done|by right].
    + destruct (trimmed _); cbn; [done|by right].
    + destruct (trimmed _); cbn; [done|by right].
  - destruct e; intros [= <- <-]; cbn; done.
Qed.

(** The times a batch is given strictly increase, past every time given
    before it, however the wall clock is adjusted between its readings. *)
Theorem times_strictly_increase evs s :
  Forall (later s) (omap time_of (collectTerminalSemanticEvents evs s).1) /\
  StronglySorted Qlt (omap time_of (collectTerminalSemanticEvents evs s).1).
Proof.
  revert s. induction evs as [|e evs IH]; intros s; [cbn; split; constructor|]. cbn [collectTerminalSemanticEvents].
  pose proof (event_time e s (semanticEventOf e s).1 (semanticEventOf e s).2 ltac:(by destruct (semanticEventOf e s))) as H.
  destruct (semanticEventOf e s) as [x s']. cbn [fst snd] in *. destruct (IH s') as [IH1 IH2].
  assert (Hmono : (forall t, later s' t -> later s t) -> Forall (later s) (omap time_of (collectTerminalSemanticEvents evs s').1)).
  { intros Hm. eapply Forall_impl; [apply IH1|done]. }
  destruct x as [x|]; cbn [fst].
  - cbn [omap list_omap]. destruct (time_of x) as [t|]; [|subst; by split].
    destruct H as [Ht Hs]. assert (Hl : forall u, later s' u -> (t < u)%Q) by (unfold later; by rewrite Hs).
    split; constructor; try done.
    + apply Hmono. intros u Hu%Hl. unfold later in *. destruct (lastTimestamp s); [lra|done].
    + eapply Forall_impl; [apply IH1|done].
  - split; [|done]. apply Hmono. destruct H as [->| ->]; [done|apply later_next].
Qed.

End events.
