(* ===== verification/ToolRoundTrip.v ===== *)
(** * What a Tool writes is what its host reads

    The writers of dor-tools-lib/src/osc.ts against the terminal protocol
    parser: a sequence a writer produces, read by the parser of the host, is the
    one event it asks for, and shows nothing. *)
From Stdlib Require Import ZArith SpecFloat Lia.
From S2P Require Import Prelude JsValue JsNum TermText TermControls TermDecode TermCwd ToolOsc OscParse TermProtocol TermScan.
#[local] Open Scope Z_scope.
#[local] Open Scope list_scope.

(** ** JSON *)

Section json_ind.
  Variable P : Json -> Prop.
  Hypotheses (Hnull : P TNull) (Hbool : forall b, P (TBool b)) (Hnum : forall f, P (TNum f)) (Hstr : forall t, P (TStr t))
    (Harr : forall vs, Forall P vs -> P (TArr vs)) (Hobj : forall fs, Forall (fun kv => P kv.2) fs -> P (TObj fs)).

Fixpoint Json_ind' (v : Json) : P v :=
  match v with
  | TNull => Hnull
  | TBool b => Hbool b
  | TNum f => Hnum f
  | TStr t => Hstr t
  | TArr vs => Harr vs ((fix go vs : Forall P vs :=
        match vs with [] => @List.Forall_nil _ P | v :: vs => @List.Forall_cons _ P _ _ (Json_ind' v) (go vs) end) vs)
  | TObj fs =>
      Hobj fs ((fix go fs : Forall (fun kv => P kv.2) fs :=
        match fs with [] => @List.Forall_nil _ _ | kv :: fs => @List.Forall_cons _ (fun kv => P kv.2) _ _ (Json_ind' kv.2) (go fs) end) fs)
  end.

End json_ind.

(** A value that survives the text form: its numbers are integers of 53 bits,
    its keys distinct. *)
Fixpoint json_ok (v : Json) : Prop :=
  match v with
  | TNum f => exists z, Z.abs z < 2 ^ 53 /\ f = Binary64.of_Z z
  | TArr vs => (fix go vs := match vs with [] => True | v :: vs => json_ok v /\ go vs end) vs
  | TObj fs => NoDup (map fst fs) /\ (fix go fs := match fs with [] => True | kv :: fs => json_ok kv.2 /\ go fs end) fs
  | _ => True
  end.

(** The units of the strings and keys of a value. *)
Fixpoint string_units (v : Json) : text :=
  match v with
  | TStr t => t
  | TArr vs => (fix go vs := match vs with [] => [] | v :: vs => string_units v ++ go vs end) vs
  | TObj fs => (fix go fs := match fs with [] => [] | kv :: fs => kv.1 ++ string_units kv.2 ++ go fs end) fs
  | _ => []
  end.

Definition controls_free (t : text) : bool := forallb (fun c => negb (is_control c)) t.

(** [JSON.parse] and [JSON.stringify] as ECMA-262 has them: a text reads back as
    the value, with its C1 controls escaped or not; a control below a space is
    always escaped, one above only stands where a string has it. *)
Class JsonLaws `{J : JsonHost} : Prop := {
  parse_stringify v : json_ok v -> json_parse (json_stringify v) = Some v;
  parse_escaped v : json_ok v -> json_parse (escapeC1 (json_stringify v)) = Some v;
  parse_empty : json_parse [] = None;
  stringify_units v c : c ∈ json_stringify v -> 32 <= c /\ (127 <= c <= 159 -> c ∈ string_units v)
}.

(** ** One sequence read whole *)

Section read.
  Context {U : UrlHost} {J : JsonHost}.
  Variable colorProvider : option (TerminalColorTarget -> option text).
  Variable now : Z.

(** An OSC the parser consumes, alone in a read. *)
Lemma read_osc content evs :
  index_where (ends_string osc) content = None ->
  parseOsc colorProvider now [] content = ([], Ok (Some evs)) ->
  process colorProvider now ([ESC; 93] ++ content ++ [BEL]) new_parser =
    (new_parser, Ok (mkResult [] [] (filterTerminalBellEvents evs) (Some 0%nat))).
Proof.
  intros Hc Hp. unfold process, process_live, process_ground. cbn [discarding forwarding pending new_parser bool_decide].
  assert (needs_parse ([ESC; 93] ++ content ++ [BEL]) = true) as -> by done.
  rewrite andb_false_r. change (set_pending [] new_parser) with new_parser. cbn [app].
  set (t := ESC :: 93 :: content ++ [BEL]).
  assert (Hr : run colorProvider now t new_parser = (new_parser, Ok (mkEmitted [] [] evs))).
  { rewrite (run_at _ _ t 2 osc) by done. unfold run_control. change (drop 2 t) with (content ++ [BEL]).
    rewrite find_end_shift, find_end_here by done. change (negb (BEL =? ESC)) with true.
    change ((BEL =? CAN) || (BEL =? SUB)) with false. unfold complete_control. cbn [shift_end option_map cancelled e_index e_end].
    cbn [osc99Pending new_parser].
    rewrite Nat.add_0_r, take_app_length, Hp. cbn [fst snd obind].
    rewrite (drop_ge (content ++ [BEL])) by (rewrite length_app; cbn; lia).
    rewrite run_nil. unfold after. cbn [fst snd obind]. by rewrite em_app_nil. }
  unfold run in Hr. unfold em0 in Hr. rewrite Hr. done.
Qed.


(** ** A Tool's sequence *)

Lemma sequence_ok verb payload encode s :
  sequence verb payload encode = Ok s ->
  let raw := encode (json_stringify (TObj payload)) in
  s = [ESC; 93] ++ (lit "367;" ++ lit verb ++ 59 :: raw) ++ [BEL] /\ (length raw <= TOOL_PAYLOAD_LIMIT)%nat.
Proof.
  unfold sequence. rewrite obind_ok. intros (u & Hu%throw_if_ok & [= <-]). split; [|by apply Nat.ltb_ge].
  rewrite <- !app_assoc. done.
Qed.

Lemma payload_read `{!JsonLaws} verb raw payload :
  json_parse raw = Some (TObj payload) -> (length raw <= TOOL_PAYLOAD_LIMIT)%nat ->
  parseToolPayload (lit verb ++ 59 :: raw) verb = Some payload.
Proof.
  intros Hp Hl. unfold parseToolPayload. assert (starts_with (lit verb ++ [59]) (lit verb ++ 59 :: raw) = true) as ->.
  { apply starts_with_spec. exists raw. by rewrite <- app_assoc. }
  assert (drop (S (length (lit verb))) (lit verb ++ 59 :: raw) = raw) as ->.
  { rewrite <- Nat.add_1_r, drop_app_add. done. }
  assert ((length raw =? 0)%nat = false) as ->.
  { apply Nat.eqb_neq. destruct raw; [by rewrite parse_empty in Hp|done]. }
  assert ((TOOL_PAYLOAD_LIMIT <? length raw)%nat = false) as -> by by apply Nat.ltb_ge. by rewrite Hp.
Qed.

Lemma no_ends_app k x y :
  index_where (ends_string k) x = None -> index_where (ends_string k) y = None -> index_where (ends_string k) (x ++ y) = None.
Proof. rewrite !index_where_None. intros Hx Hy. by apply Forall_app. Qed.

Lemma stringify_no_ends `{!JsonLaws} v :
  controls_free (string_units v) = true -> index_where (ends_string osc) (json_stringify v) = None.
Proof.
  intros Hv. rewrite index_where_None, Forall_forall. intros c [H32 HC1]%stringify_units.
  unfold ends_string, CAN, SUB, ESC, C1_ST, BEL. destruct (decide (127 <= c <= 159)) as [Hc|]; [|lia].
  unfold controls_free in Hv. rewrite forallb_forall in Hv. specialize (Hv c ltac:(by apply list_elem_of_In, HC1)).
  unfold is_control in Hv. lia.
Qed.

Lemma parseOsc_367 payload : parseOsc colorProvider now [] (lit "367;" ++ payload) = ([], Ok (Some (parseOsc367 payload))).
Proof. reflexivity. Qed.

(** A sequence whose text ends no string early is read as its verb says. *)
Lemma read_sequence verb payload encode s :
  sequence verb payload encode = Ok s ->
  let raw := encode (json_stringify (TObj payload)) in
  index_where (ends_string osc) (lit verb) = None -> index_where (ends_string osc) raw = None ->
  process colorProvider now s new_parser =
    (new_parser, Ok (mkResult [] [] (filterTerminalBellEvents (parseOsc367 (lit verb ++ 59 :: raw))) (Some 0%nat))).
Proof.
  intros [-> _]%sequence_ok raw Hv Hr. apply read_osc; [|apply parseOsc_367].
  apply no_ends_app; [done|]. apply no_ends_app; [done|]. apply (no_ends_app _ [59]); done.
Qed.

Lemma controls_free_app x y : controls_free (x ++ y) = controls_free x && controls_free y.
Proof. apply forallb_app. Qed.

Lemma controls_free_spec t : has_controls t = false -> controls_free t = true.
Proof.
  unfold has_controls, controls_free. induction t as [|c t IH]; [done|]. cbn [existsb forallb]. intros [-> Ht]%orb_false_iff. by rewrite IH.
Qed.

Lemma one_ok : json_ok (TNum one).
Proof. exists 1. split; [lia|done]. Qed.

(** ** open *)

Definition open_payload (o : ToolOpen) : list (text * Json) :=
  [(lit "v", TNum one); (lit "path", TStr (to_path o)); (lit "preview", TBool (to_preview o))] ++
  opt_field "disposition" (fun d => d) (option_map (fun d => TStr (disposition_text d)) (to_disposition o)) ++
  opt_field "fragment" TStr (to_fragment o).

Lemma open_payload_ok o : json_ok (TObj (open_payload o)).
Proof.
  destruct o as [path preview [d|] [f|]]; cbn; (split; [|repeat split; exact one_ok]).
  all: repeat (apply NoDup_cons; split; [by intros H; repeat (apply elem_of_cons in H as [H|H]; [discriminate H|]); apply elem_of_nil in H|]).
  all: apply NoDup_nil_2.
Qed.

Lemma open_valid o s : openSequence o = Ok s ->
  validToolOpenPath (to_path o) = true /\
  validOpenNavigation (Some (TBool (to_preview o))) (option_map (fun d => TStr (disposition_text d)) (to_disposition o))
    (option_map TStr (to_fragment o)) = true /\
  sequence "open" (open_payload o) (fun raw => raw) = Ok s.
Proof.
  unfold openSequence. rewrite obind_ok. intros (u & Hu%throw_if_ok%negb_false_iff & H). rewrite obind_ok in H.
  destruct H as (u' & Hu'%throw_if_ok%negb_false_iff & H). done.
Qed.

Lemma open_strings o :
  validToolOpenPath (to_path o) = true ->
  validOpenNavigation (Some (TBool (to_preview o))) (option_map (fun d => TStr (disposition_text d)) (to_disposition o))
    (option_map TStr (to_fragment o)) = true ->
  controls_free (string_units (TObj (open_payload o))) = true.
Proof.
  intros Hp Hn. destruct o as [path preview d f]. cbn [to_path to_preview to_disposition to_fragment] in *.
  assert (Hpath : controls_free path = true).
  { unfold validToolOpenPath in Hp. apply andb_prop in Hp as [_ ?%negb_true_iff]. by apply controls_free_spec. }
  assert (Hfrag : forall t, f = Some t -> controls_free t = true).
  { intros t ->. unfold validOpenNavigation in Hn. apply andb_prop in Hn as [_ [_ Hn]%andb_prop].
    apply andb_prop in Hn as [_ ?%negb_true_iff]. by apply controls_free_spec. }
  destruct f as [t|]; [specialize (Hfrag t eq_refl)|clear Hfrag]; destruct d as [[]|];
    cbn [open_payload opt_field option_map app string_units to_path to_preview to_disposition to_fragment fst snd];
    rewrite ?controls_free_app, ?Hpath, ?Hfrag; reflexivity.
Qed.

Lemma disposition_reads d : disposition_of (TStr (disposition_text d)) = Some d.
Proof. by destruct d. Qed.

(** What the parser of the verb makes of the payload the writer sends. *)
Lemma open_reads o raw `{!JsonLaws} :
  validToolOpenPath (to_path o) = true ->
  validOpenNavigation (Some (TBool (to_preview o))) (option_map (fun d => TStr (disposition_text d)) (to_disposition o))
    (option_map TStr (to_fragment o)) = true ->
  parseToolPayload (lit "open" ++ 59 :: raw) "open" = Some (open_payload o) ->
  parseOsc367 (lit "open" ++ 59 :: raw) = [toolOpen o].
Proof.
  intros Hp Hn Hr. unfold parseOsc367.
  assert (parseToolAnnounce (lit "open" ++ 59 :: raw) = None) as -> by reflexivity.
  assert (parseToolState (lit "open" ++ 59 :: raw) = None) as -> by reflexivity.
  unfold parseToolOpen. rewrite Hr. destruct o as [path preview d f].
  assert (Ev : field "v" (open_payload (mkOpen path preview d f)) = Some (TNum one)) by reflexivity.
  assert (Epath : field "path" (open_payload (mkOpen path preview d f)) = Some (TStr path)) by reflexivity.
  assert (Epre : field "preview" (open_payload (mkOpen path preview d f)) = Some (TBool preview)) by reflexivity.
  assert (Ed : field "disposition" (open_payload (mkOpen path preview d f)) = option_map (fun d => TStr (disposition_text d)) d).
  { by destruct d, f. }
  assert (Ef : field "fragment" (open_payload (mkOpen path preview d f)) = option_map TStr f).
  { by destruct d, f. }
  cbn [to_path to_preview to_disposition to_fragment] in *. rewrite Ev, Epath, Epre, Ed, Ef. cbn [is_one str_of].
  change (SFeqb one one) with true. rewrite Hp, Hn. cbn [negb]. destruct d as [d|], f as [t|]; cbn [option_map str_of];
    rewrite ?disposition_reads; done.
Qed.

(** C20. A Tool's request to open a path comes out of its host's terminal as that
    request, and nothing of it is shown: whatever the writer does not refuse,
    the parser reads back whole, the preview, the disposition and the fragment
    included. *)
Theorem open_round_trip `{!JsonLaws} o s :
  openSequence o = Ok s ->
  process colorProvider now s new_parser = (new_parser, Ok (mkResult [] [] [toolOpen o] (Some 0%nat))).
Proof.
  intros (Hp & Hn & Hs)%open_valid. rewrite (read_sequence "open" _ _ _ Hs); [|done|by apply stringify_no_ends, open_strings].
  destruct (sequence_ok _ _ _ _ Hs) as [_ Hl].
  rewrite (open_reads o); [done|done|done|done|]. apply payload_read; [apply parse_stringify, open_payload_ok|done].
Qed.

(** ** dehydrate *)

Lemma escapeC1_units raw c :
  c ∈ escapeC1 raw -> (forall d, d ∈ raw -> 32 <= d) -> 32 <= c /\ ~ 127 <= c <= 159.
Proof.
  intros Hc Hr. unfold escapeC1 in Hc. apply list_elem_of_In, in_concat in Hc as (u & Hin & Hu).
  apply list_elem_of_In in Hu. apply in_map_iff in Hin as (d & <- & Hd%list_elem_of_In). specialize (Hr d Hd).
  destruct ((127 <=? d) && (d <=? 159)) eqn:E.
  - apply elem_of_app in Hu as [Hu|Hu].
    + change (lit "\u00") with [92; 117; 48; 48] in Hu. repeat (apply elem_of_cons in Hu as [->|Hu]; [lia|]). by apply elem_of_nil in Hu.
    + assert (7 <= d / 16 <= 9) by (split; [apply Z.div_le_lower_bound|apply Z.lt_succ_r, Z.div_lt_upper_bound]; lia).
      pose proof (Z.mod_pos_bound d 16 ltac:(lia)).
      repeat (apply elem_of_cons in Hu as [->|Hu]; [destruct (_ <? 10) eqn:?; lia|]). by apply elem_of_nil in Hu.
  - apply elem_of_cons in Hu as [->|Hu]; [lia|]. by apply elem_of_nil in Hu.
Qed.

(** A stopping Tool gets back the state it wrote: the payload its host keeps,
    handed to it when it is restarted, reads as the value it passed to the
    writer, C1 controls and all; and nothing of it is shown. *)
Theorem dehydrate_round_trip `{!JsonLaws} v s :
  json_ok v -> dehydrateSequence v = Ok s ->
  exists payload, process colorProvider now s new_parser = (new_parser, Ok (mkResult [] [] [toolDehydrate payload] (Some 0%nat))) /\
    readDehydrated (Some payload) = Some v.
Proof.
  intros Hv. unfold dehydrateSequence. rewrite obind_ok. intros (u & Hu%throw_if_ok & Hs).
  set (payload := [(lit "v", TNum one); (lit "state", v)]) in *. set (raw := escapeC1 (json_stringify (TObj payload))).
  destruct (sequence_ok _ _ _ _ Hs) as [_ Hl]. fold raw in Hl.
  assert (Hok : json_ok (TObj payload)).
  { cbn. split; [|split_and!; [exact one_ok|done|done]]. apply NoDup_cons. split; [|apply NoDup_singleton].
    intros E. apply elem_of_cons in E as [E|E]; [discriminate E|by apply elem_of_nil in E]. }
  assert (Hne : index_where (ends_string osc) raw = None).
  { rewrite index_where_None, Forall_forall. intros c Hc%escapeC1_units; [|intros d Hd; by destruct (stringify_units _ _ Hd)].
    unfold ends_string, CAN, SUB, ESC, C1_ST, BEL. lia. }
  assert (Hr : parseToolPayload (lit "dehydrate" ++ 59 :: raw) "dehydrate" = Some payload) by (apply payload_read; [by apply parse_escaped|done]).
  assert (Hd : dehydratedState (lit "dehydrate" ++ 59 :: raw) = Some v).
  { unfold dehydratedState. rewrite Hr. change (is_one (field "v" payload)) with true. change (field "state" payload) with (Some v).
    by destruct v. }
  exists raw. rewrite (read_sequence "dehydrate" _ _ _ Hs) by done. fold raw. split; [|exact Hd]. do 4 f_equal.
  unfold parseOsc367. assert (parseToolAnnounce (lit "dehydrate" ++ 59 :: raw) = None) as -> by reflexivity.
  assert (parseToolState (lit "dehydrate" ++ 59 :: raw) = None) as -> by reflexivity.
  assert (parseToolOpen (lit "dehydrate" ++ 59 :: raw) = None) as -> by reflexivity.
  unfold parseToolDehydrate. by rewrite Hd.
Qed.

End read.

(** ** A platform with the laws, for evaluation *)

(** A text form of JSON values that is not JSON's own but meets its laws: the
    tokens of the value in Polish notation, each as a unit past the controls. *)
Definition unit_of (c : Z) : Z := if 0 <=? c then 200 + 2 * c else 199 - 2 * c.
Definition of_unit (u : Z) : Z := if Z.even (u - 200) then (u - 200) / 2 else - ((u - 199) / 2).

Definition bit (b : bool) : Z := if b then 1 else 0.

Fixpoint tokens (v : Json) : list Z :=
  match v with
  | TNull => [0]
  | TBool b => [1; bit b]
  | TNum (S754_zero s) => [2; bit s]
  | TNum (S754_infinity s) => [3; bit s]
  | TNum S754_nan => [4]
  | TNum (S754_finite s m e) => [5; bit s; Zpos m; e]
  | TStr t => 6 :: Z.of_nat (length t) :: t
  | TArr vs => 7 :: Z.of_nat (length vs) :: concat (map tokens vs)
  | TObj fs => 8 :: Z.of_nat (length fs) :: concat (map (fun kv => Z.of_nat (length kv.1) :: kv.1 ++ tokens kv.2) fs)
  end.

Section values.
  Variable value : list Z -> option (Json * list Z).

Fixpoint values (n : nat) (ts : list Z) : option (list Json * list Z) :=
  match n with
  | O => Some ([], ts)
  | S n => match value ts with
           | Some (v, ts) => match values n ts with Some (vs, ts) => Some (v :: vs, ts) | None => None end
           | None => None
           end
  end.

Fixpoint members (n : nat) (ts : list Z) : option (list (text * Json) * list Z) :=
  match n, ts with
  | O, _ => Some ([], ts)
  | S n, k :: ts =>
      match value (drop (Z.to_nat k) ts) with
      | Some (v, ts') => match members n ts' with Some (fs, r) => Some ((take (Z.to_nat k) ts, v) :: fs, r) | None => None end
      | None => None
      end
  | _, _ => None
  end.

End values.

Fixpoint value (fuel : nat) (ts : list Z) : option (Json * list Z) :=
  match fuel, ts with
  | S fuel, 0 :: ts => Some (TNull, ts)
  | S fuel, 1 :: b :: ts => Some (TBool (b =? 1), ts)
  | S fuel, 2 :: s :: ts => Some (TNum (S754_zero (s =? 1)), ts)
  | S fuel, 3 :: s :: ts => Some (TNum (S754_infinity (s =? 1)), ts)
  | S fuel, 4 :: ts => Some (TNum S754_nan, ts)
  | S fuel, 5 :: s :: m :: e :: ts => Some (TNum (S754_finite (s =? 1) (Z.to_pos m) e), ts)
  | S fuel, 6 :: n :: ts => Some (TStr (take (Z.to_nat n) ts), drop (Z.to_nat n) ts)
  | S fuel, 7 :: n :: ts => match values (value fuel) (Z.to_nat n) ts with Some (vs, r) => Some (TArr vs, r) | None => None end
  | S fuel, 8 :: n :: ts => match members (value fuel) (Z.to_nat n) ts with Some (fs, r) => Some (TObj fs, r) | None => None end
  | _, _ => None
  end.

Definition token_json : JsonHost := {|
  json_parse t := match value (length t) (map of_unit t) with Some (v, []) => Some v | _ => None end;
  json_stringify v := map unit_of (tokens v)
|}.

Lemma bit_eqb b : (bit b =? 1) = b.
Proof. by destruct b. Qed.

Lemma value_tokens v fuel r : (length (tokens v) <= fuel)%nat -> value fuel (tokens v ++ r) = Some (v, r).
Proof.
  revert fuel r. induction v as [|b|f|t|vs IH|fs IH] using Json_ind'; intros [|fuel] r Hf; try (cbn in Hf; lia).
  - done.
  - cbn. by rewrite bit_eqb.
  - cbn in Hf. destruct f; cbn in Hf; lia.
  - destruct f as [s|s| |s m e]; cbn; by rewrite ?bit_eqb.
  - cbn [tokens app value]. by rewrite Nat2Z.id, take_app_length, drop_app_length.
  - cbn [tokens app value]. rewrite Nat2Z.id. cbn [tokens length] in Hf. apply le_S_n in Hf.
    assert (values (value fuel) (length vs) (concat (map tokens vs) ++ r) = Some (vs, r)) as ->; [|done].
    revert Hf. induction IH as [|v vs Hv _ IHvs]; intros Hf; [done|]. cbn [length values map concat] in *. rewrite length_app in Hf.
    rewrite <- app_assoc, Hv by lia. by rewrite IHvs by lia.
  - cbn [tokens app value]. rewrite Nat2Z.id. cbn [tokens length] in Hf. apply le_S_n in Hf.
    assert (members (value fuel) (length fs) (concat (map (fun kv => Z.of_nat (length kv.1) :: kv.1 ++ tokens kv.2) fs) ++ r) = Some (fs, r)) as ->; [|done].
    revert Hf. induction IH as [|[k v] fs Hv _ IHfs]; intros Hf; [done|]. cbn [length members app fst snd map concat] in *.
    rewrite !length_app in Hf. cbn [length] in Hf.
    rewrite Nat2Z.id, <- !app_assoc, drop_app_length, take_app_length. rewrite Hv by lia. by rewrite IHfs by lia.
Qed.

Lemma of_unit_of c : of_unit (unit_of c) = c.
Proof.
  unfold of_unit, unit_of. destruct (Z.leb_spec 0 c).
  - replace (200 + 2 * c - 200) with (2 * c) by lia. rewrite Z.even_mul. cbn. rewrite Z.mul_comm, Z.div_mul by lia. done.
  - replace (199 - 2 * c - 200) with (2 * (- c - 1) + 1) by lia. rewrite Z.even_add, Z.even_mul. cbn [Z.even orb Bool.eqb].
    replace (199 - 2 * c - 199) with (- c * 2) by lia. rewrite Z.div_mul by lia. lia.
Qed.

Lemma unit_of_large c : 200 <= unit_of c.
Proof. unfold unit_of. destruct (Z.leb_spec 0 c); lia. Qed.

Lemma escape_tokens ts : escapeC1 (map unit_of ts) = map unit_of ts.
Proof.
  unfold escapeC1. induction ts as [|c ts IH]; [done|]. cbn [map concat]. rewrite IH. pose proof (unit_of_large c).
  assert ((127 <=? unit_of c) && (unit_of c <=? 159) = false) as -> by lia. done.
Qed.

Lemma token_json_parses v : @json_parse token_json (@json_stringify token_json v) = Some v.
Proof.
  cbn. rewrite map_map. assert (map (fun c => of_unit (unit_of c)) (tokens v) = tokens v) as ->.
  { induction (tokens v) as [|c ts IH]; [done|]. cbn. by rewrite of_unit_of, IH. }
  rewrite length_map. pose proof (value_tokens v (length (tokens v)) [] ltac:(lia)) as H. rewrite app_nil_r in H. by rewrite H.
Qed.

#[local] Instance token_json_laws : @JsonLaws token_json.
Proof.
  split.
  - intros v _. apply token_json_parses.
  - intros v _. cbn [json_stringify token_json]. rewrite escape_tokens. apply token_json_parses.
  - done.
  - intros v c Hc. cbn in Hc. apply list_elem_of_In, in_map_iff in Hc as (d & <- & _). pose proof (unit_of_large d). split; lia.
Qed.

#[local] Instance no_urls : UrlHost := { URL := fun _ => None; toLowerCase := fun t => t }.

Definition sample_open : ToolOpen := mkOpen (lit "/docs/a.md") false (Some other_surface) (Some (lit "Heading 2")).

Lemma open_round_trip_witness :
  exists s, @openSequence token_json sample_open = Ok s /\
    @process no_urls token_json None 0 s new_parser = (new_parser, Ok (mkResult [] [] [toolOpen sample_open] (Some 0%nat))).
Proof.
  destruct (@openSequence token_json sample_open) as [s|x] eqn:E; [|vm_compute in E; discriminate E].
  exists s. split; [reflexivity|]. exact (open_round_trip None 0 sample_open s E).
Defined.

Definition sample_state : Json := TArr [TStr (lit "tab" ++ [156]); TNum (Binary64.of_Z 3)].

Lemma dehydrate_round_trip_witness :
  exists s payload, @process no_urls token_json None 0 s new_parser = (new_parser, Ok (mkResult [] [] [toolDehydrate payload] (Some 0%nat))) /\
    @readDehydrated token_json (Some payload) = Some sample_state.
Proof.
  destruct (@dehydrateSequence token_json sample_state) as [s|x] eqn:E; [|vm_compute in E; discriminate E].
  exists s. apply (dehydrate_round_trip None 0 sample_state s); [|exact E]. cbn. split_and!; [exact Logic.I| |exact Logic.I]. exists 3. split; [lia|reflexivity].
Defined.
