(* ===== verification/TermPaint.v ===== *)
(** * Reading output as text, and whether it paints (lib/src/lib/terminal-controls.ts)

    The stripper of presentation controls and the test for whether a chunk
    changes what the screen shows; the two agree that what does not paint is no
    text. *)
From Stdlib Require Import ZArith Lia.
From S2P Require Import Prelude TermText TermControls TermCwd TermDecode ToolOsc OscParse TermProtocol TermScan.
#[local] Open Scope Z_scope.
#[local] Open Scope list_scope.

(** ** Classes *)

Definition is_param (c : Z) : bool := (48 <=? c) && (c <=? 63).          (** [[0-?]] *)
Definition is_intermediate (c : Z) : bool := (32 <=? c) && (c <=? 47).   (** [[ -/]] *)
Definition is_final (c : Z) : bool := (64 <=? c) && (c <=? 126).         (** [[@-~]] *)
Definition is_designator (c : Z) : bool := (40 <=? c) && (c <=? 43).     (** [[()*+]] *)

(** [\x1b\[|\x9b] at the head of a text: what follows it. *)
Definition csi_intro (t : text) : option text :=
  match t with
  | c :: t' =>
      if c =? ESC then match t' with d :: t'' => if d =? 91 then Some t'' else None | [] => None end
      else if c =? C1_CSI then Some t' else None
  | [] => None
  end.

(** ** The stripper *)

(** A CSI at the head of a text: what follows it, and its final unit. *)
Definition csi_at (t : text) : option (text * Z) :=
  match csi_intro t with
  | Some body =>
      match (span_of is_intermediate (span_of is_param body).2).2 with
      | f :: rest => if is_final f then Some (rest, f) else None
      | [] => None
      end
  | None => None
  end.

(** An unfinished CSI or ESC sequence that runs to the end. *)
Definition unfinished_at (t : text) : bool :=
  match csi_intro t with
  | Some body => bool_decide ((span_of is_intermediate (span_of is_param body).2).2 = [])
  | None => false
  end ||
  match t with c :: t' => (c =? ESC) && bool_decide ((span_of is_intermediate t').2 = []) | [] => false end.

Fixpoint drop_unfinished (t : text) : text :=
  if unfinished_at t then [] else match t with c :: t => c :: drop_unfinished t | [] => [] end.

(** [text.replace(/pattern/g, f)]: [at_head] answers what follows a match and
    its replacement; [skip] is what is left of the match being replaced. *)
Fixpoint replace_all (at_head : text -> option (text * text)) (skip : nat) (t : text) : text :=
  match t with
  | [] => []
  | c :: t' =>
      match skip with
      | S skip => replace_all at_head skip t'
      | O =>
          match at_head t with
          | Some (rest, by_) => by_ ++ replace_all at_head (length t' - length rest) t'
          | None => c :: replace_all at_head 0 t'
          end
      end
  end.

Definition csi_match (boundaries : bool) (t : text) : option (text * text) :=
  match csi_at t with
  | Some (rest, f) => Some (rest, if boundaries && negb (f =? 109) then [10] else [])
  | None => None
  end.

Definition alphanumeric (c : Z) : bool := is_letter c || is_digit_unit c.

(** [\x1b[()*+][A-Za-z0-9]]. *)
Definition charset_match (t : text) : option (text * text) :=
  match t with
  | c :: d :: e :: rest => if (c =? ESC) && is_designator d && alphanumeric e then Some (rest, []) else None
  | _ => None
  end.

(** [\x1b[ -/]*[0-~]]. *)
Definition esc_match (by_ : text) (t : text) : option (text * text) :=
  match t with
  | c :: t' =>
      if c =? ESC then
        match (span_of is_intermediate t').2 with
        | f :: rest => if (48 <=? f) && (f <=? 126) then Some (rest, by_) else None
        | [] => None
        end
      else None
  | [] => None
  end.

(** [[\x08\x0b\x0c\x80-\x9f]] and [[\x00-\x08\x0e-\x1f\x7f]]. *)
Definition moves (c : Z) : bool := (c =? 8) || (c =? 11) || (c =? 12) || (128 <=? c) && (c <=? 159).
Definition silent (c : Z) : bool := (0 <=? c) && (c <=? 8) || (14 <=? c) && (c <=? 31) || (c =? 127).

Definition stripPresentationControls (stringsRemoved : text) (boundaries : bool) : text :=
  let boundary := if boundaries then [10] else [] in
  let t := drop_unfinished stringsRemoved in
  let t := replace_all (csi_match boundaries) 0 t in
  let t := replace_all charset_match 0 t in
  let t := replace_all (esc_match boundary) 0 t in
  let t := concat (map (fun c => if moves c then boundary else [c]) t) in
  List.filter (fun c => negb (silent c)) t.

Definition stripTerminalControls (input : text) (boundaries : bool) : text :=
  stripPresentationControls (filter_process Ground input).1 boundaries.

(** Both readings, from one pass of the filter. *)
Definition stripTerminalControlsBothWays (input : text) : text * text :=
  let stringsRemoved := (filter_process Ground input).1 in
  (stripPresentationControls stringsRemoved true, stripPresentationControls stringsRemoved false).

(** ** The painting test *)

Definition PAINTING_MODES : list text := [lit "5"; lit "47"; lit "1047"; lit "1049"].
Definition INERT_CSI : list text := map (fun c => [c]) (lit "ABCDEFGHIZ`adefrs") ++ [lit ">q"; lit "?S"; lit "?r"; lit "?s"].

Definition csiPaints (prefix params intermediates : text) (final : Z) : bool :=
  if negb (bool_decide (intermediates = [])) then
    negb (bool_decide (intermediates = [32]) && (final =? 113) || bool_decide (intermediates = [36]) && (final =? 112))
  else if existsb (Z.eqb final) (lit "mnctu") then false
  else if (final =? 104) || (final =? 108) then
    bool_decide (prefix = lit "?") && existsb (fun mode => bool_decide (mode ∈ PAINTING_MODES)) (split_on 59 params)
  else negb (bool_decide (prefix ++ [final] ∈ INERT_CSI)).

(** The control class of [INERT_TOKEN]. *)
Definition inert_control (c : Z) : bool :=
  (0 <=? c) && (c <=? 9) || (13 <=? c) && (c <=? 26) || (28 <=? c) && (c <=? 31) || (127 <=? c) && (c <=? 131) || (134 <=? c) && (c <=? 159).

Record Token := mkToken { tok_length : nat; tok_csi : option (text * text * text * Z) }.

(** The CSI alternative of [INERT_TOKEN]. *)
Definition csi_token (t : text) : option Token :=
  match csi_intro t with
  | Some body =>
      let prefix := match body with c :: _ => if (60 <=? c) && (c <=? 63) then [c] else [] | [] => [] end in
      let p := span_of (fun c => is_digit_unit c || (c =? 58) || (c =? 59)) (drop (length prefix) body) in
      let q := span_of is_intermediate p.2 in
      match q.2 with
      | f :: rest => if is_final f then Some (mkToken (length t - length rest) (Some (prefix, p.1, q.1, f))) else None
      | [] => None
      end
  | None => None
  end.

Definition esc_token (t : text) : option Token :=
  match t with
  | c :: d :: rest =>
      if c =? ESC then
        if is_designator d && match rest with e :: _ => (48 <=? e) && (e <=? 126) | [] => false end then Some (mkToken 3 None)
        else if (d =? 55) || (d =? 56) || (d =? 61) || (d =? 62) then Some (mkToken 2 None)
        else None
      else None
  | _ => None
  end.

(** [INERT_TOKEN] at the head of a text. *)
Definition inert_token (t : text) : option Token :=
  match csi_token t with
  | Some k => Some k
  | None =>
      match esc_token t with
      | Some k => Some k
      | None => match t with c :: _ => if inert_control c then Some (mkToken 1 None) else None | [] => None end
      end
  end.

(** [groundPaints], from the text left and how much of it is ground. *)
Fixpoint ground_paints (fuel : nat) (t : text) (ground : nat) : bool :=
  match fuel, ground with
  | S fuel, S _ =>
      match inert_token t with
      | None => true
      | Some k =>
          if match tok_csi k with Some (prefix, params, inter, f) => csiPaints prefix params inter f | None => false end then true
          else ground_paints fuel (drop (tok_length k) t) (ground - tok_length k)
      end
  | _, _ => false
  end.

Definition isDcsQuery (introducer rest : text) : bool :=
  (bool_decide (introducer = [ESC; 80]) || bool_decide (introducer = [144])) &&
  match rest with c :: d :: _ => ((c =? 36) || (c =? 43)) && (d =? 113) | _ => false end.

Definition isOscImage (rest : text) : bool :=
  existsb (fun command => starts_with (lit "1337;" ++ lit command) rest) ["File="; "MultipartFile="; "FilePart="; "FileEnd"]%string.

(** The loop of [outputPaints]. *)
Fixpoint paints (fuel : nat) (t : text) : bool :=
  match fuel, t with
  | S fuel, _ :: _ =>
      match find_introducer t with
      | None => ground_paints (length t) t (length t)
      | Some (i, n, k) =>
          let rest := drop (i + n) t in
          if ground_paints i t i then true
          else if match k with osc => isOscImage rest | other => negb (isDcsQuery (take n (drop i t)) rest) end then true
          else
            match index_where (ends_string k) rest with
            | None => true
            | Some j =>
                if negb (bool_decide (rest !! j = Some ESC)) then paints fuel (drop (S j) rest)
                else if bool_decide (rest !! S j = Some 92) then paints fuel (drop (S (S j)) rest)
                else paints fuel (drop j rest)
            end
      end
  | _, _ => false
  end.

Definition outputPaints (data : text) : bool := paints (length data) data.

Example strips : map (fun b => stripTerminalControls (lit "a" ++ [ESC] ++ lit "[31mb" ++ [ESC] ++ lit "[2Jc" ++ [ESC] ++ lit "(Bd" ++ [ESC]) b) [true; false]
  = [lit "ab" ++ [10] ++ lit "cd"; lit "abcd"].
Proof. vm_compute. reflexivity. Qed.

Example paint_samples :
  map outputPaints [[ESC] ++ lit "[6n"; [ESC] ++ lit "[?25h" ++ [ESC] ++ lit "]0;t" ++ [BEL]; [ESC] ++ lit "[?1049h"; lit "x"; [ESC] ++ lit "[2J"]
  = [false; false; true; true; true].
Proof. vm_compute. reflexivity. Qed.

(** ** What does not paint is no text *)

(** A run of tokens that cannot paint; without CSIs if [csi] is false. *)
Inductive inert (csi : bool) : text -> Prop :=
  | inert_nil : inert csi []
  | inert_unit c t : inert_control c = true -> inert csi t -> inert csi (c :: t)
  | inert_esc2 d t : d = 55 \/ d = 56 \/ d = 61 \/ d = 62 -> inert csi t -> inert csi (ESC :: d :: t)
  | inert_esc3 d e t : is_designator d = true -> 48 <= e <= 126 -> inert csi t -> inert csi (ESC :: d :: e :: t)
  | inert_csi i ps qs f t :
      csi = true -> i = [ESC; 91] \/ i = [C1_CSI] -> Forall (fun c => is_param c = true) ps ->
      Forall (fun c => is_intermediate c = true) qs -> is_final f = true -> inert csi t -> inert csi (i ++ ps ++ qs ++ f :: t).

Lemma inert_app csi x y : inert csi x -> inert csi y -> inert csi (x ++ y).
Proof.
  intros Hx Hy. induction Hx; cbn [app]; try (by constructor); [done|].
  rewrite <- !app_assoc. cbn [app]. by constructor.
Qed.

(** A token run begins with a control, which continues no sequence before it. *)
Lemma inert_head csi t : inert csi t -> match t with [] => True | c :: _ => c < 32 \/ 127 <= c <= 159 end.
Proof.
  destruct 1 as [|c t H| | |i ps qs f t _ [->| ->]]; try done; [unfold inert_control in H; lia|left; done|left; done|left; done|right; done].
Qed.

Lemma inert_no_span csi p t : (forall c, p c = true -> 32 <= c <= 126) -> inert csi t -> span_of p t = ([], t).
Proof.
  intros Hp Ht%inert_head. destruct t as [|c t]; [done|]. cbn. destruct (p c) eqn:E; [|done]. specialize (Hp c E). lia.
Qed.

Ltac unit_class := unfold is_param, is_intermediate, is_final, is_designator, inert_control, ESC, C1_CSI in *; try lia.

(** The body of a CSI up to its final unit. *)
Lemma csi_body ps qs f t :
  Forall (fun c => is_param c = true) ps -> Forall (fun c => is_intermediate c = true) qs -> is_final f = true ->
  (span_of is_intermediate (span_of is_param (ps ++ qs ++ f :: t)).2).2 = f :: t.
Proof.
  intros Hp Hq Hf. assert (E : (span_of is_param (ps ++ qs ++ f :: t)).2 = qs ++ f :: t).
  { destruct Hq as [|q qs Hq Hqs]; cbn [app]; rewrite span_of_stop; try done; unit_class. }
  rewrite E, span_of_stop; [done|done|]. unit_class.
Qed.

(** *** The passes of the stripper *)

Lemma replace_skip m n t : replace_all m n t = replace_all m 0 (drop n t).
Proof. revert n. induction t as [|c t IH]; intros [|n]; cbn [replace_all drop]; try done. Qed.

Lemma replace_match m u rest by_ : u <> [] -> m (u ++ rest) = Some (rest, by_) -> replace_all m 0 (u ++ rest) = by_ ++ replace_all m 0 rest.
Proof.
  destruct u as [|c u]; [done|]. intros _ H. cbn [app replace_all] in *. rewrite H, replace_skip, length_app, Nat.add_sub.
  by rewrite drop_app_length.
Qed.

Lemma replace_none m c t : m (c :: t) = None -> replace_all m 0 (c :: t) = c :: replace_all m 0 t.
Proof. intros H. cbn [replace_all]. by rewrite H. Qed.

(** Units that begin no control sequence. *)
Definition plain_unit (c : Z) : Prop := c <> ESC /\ c <> C1_CSI.

Lemma csi_intro_plain c t : plain_unit c -> csi_intro (c :: t) = None.
Proof. intros [H1 H2]. unfold csi_intro. destruct (Z.eqb_spec c ESC); [done|]. by destruct (Z.eqb_spec c C1_CSI). Qed.

Lemma drop_unfinished_plain u t : Forall plain_unit u -> drop_unfinished (u ++ t) = u ++ drop_unfinished t.
Proof.
  induction 1 as [|c u Hc _ IH]; [done|]. cbn [app drop_unfinished]. unfold unfinished_at. rewrite csi_intro_plain by done.
  destruct (Z.eqb_spec c ESC) as [->|]; [by destruct Hc|]. cbn. by rewrite IH.
Qed.

Lemma csi_plain ps qs f :
  Forall (fun c => is_param c = true) ps -> Forall (fun c => is_intermediate c = true) qs -> is_final f = true ->
  Forall plain_unit (ps ++ qs ++ [f]).
Proof.
  intros Hp Hq Hf. repeat (apply Forall_app; split); [eapply Forall_impl; [apply Hp|]|eapply Forall_impl; [apply Hq|]|constructor; [|constructor]];
    try intros c Hc; unfold plain_unit; split; intros ->; done.
Qed.

Lemma csi_text (i ps qs : text) f (t : text) : i ++ ps ++ qs ++ f :: t = (i ++ ps ++ qs ++ [f]) ++ t.
Proof. by rewrite <- !app_assoc. Qed.

Lemma drop_cons c t : drop_unfinished (c :: t) = if unfinished_at (c :: t) then [] else c :: drop_unfinished t.
Proof. done. Qed.

Lemma drop_unfinished_inert t : inert true t -> inert true (drop_unfinished t).
Proof.
  induction 1 as [|c t Hc Ht IH|d t Hd Ht IH|d e t Hd He Ht IH|i ps qs f t _ Hi Hp Hq Hf Ht IH]; [constructor|..].
  - rewrite drop_cons. destruct (unfinished_at (c :: t)); by constructor.
  - rewrite drop_cons.
    assert (unfinished_at (ESC :: d :: t) = false) as -> by (destruct Hd as [->|[->|[->| ->]]]; done).
    change (d :: t) with ([d] ++ t). rewrite drop_unfinished_plain by (repeat constructor; unit_class).
    by constructor.
  - rewrite drop_cons. assert (unfinished_at (ESC :: d :: e :: t) = false) as ->.
    { unfold unfinished_at, csi_intro. rewrite Z.eqb_refl. destruct (Z.eqb_spec d 91); [unit_class|]. cbn [orb andb].
      change (d :: e :: t) with ([d] ++ e :: t). rewrite span_of_stop; [done|repeat constructor; unit_class|unit_class]. }
    change (d :: e :: t) with ([d; e] ++ t).
    rewrite drop_unfinished_plain by (repeat constructor; unit_class). by apply (inert_esc3 _ d e).
  - assert (E : drop_unfinished (i ++ ps ++ qs ++ f :: t) = (i ++ ps ++ qs ++ [f]) ++ drop_unfinished t).
    { destruct Hi as [->| ->].
      - cbn [app]. rewrite drop_cons. assert (unfinished_at (ESC :: 91 :: ps ++ qs ++ f :: t) = false) as ->.
        { unfold unfinished_at, csi_intro. cbn [Z.eqb ESC Pos.eqb]. by rewrite csi_body. }
        f_equal.
        rewrite (csi_text [] ps qs f t : ps ++ qs ++ f :: t = (ps ++ qs ++ [f]) ++ t). apply (drop_unfinished_plain (91 :: ps ++ qs ++ [f]) t). constructor; [done|by apply csi_plain].
      - cbn [app]. rewrite drop_cons. assert (unfinished_at (C1_CSI :: ps ++ qs ++ f :: t) = false) as ->.
        { unfold unfinished_at, csi_intro. change (C1_CSI =? ESC) with false. cbn [Z.eqb C1_CSI Pos.eqb]. by rewrite csi_body. }
        f_equal. rewrite (csi_text [] ps qs f t : ps ++ qs ++ f :: t = (ps ++ qs ++ [f]) ++ t). apply (drop_unfinished_plain (ps ++ qs ++ [f]) t). by apply csi_plain. }
    rewrite E, <- csi_text. by constructor.
Qed.

Lemma csi_at_none csi c t : inert csi t -> c <> ESC -> csi_at (c :: t) = None.
Proof.
  intros Ht Hc. unfold csi_at, csi_intro. destruct (Z.eqb_spec c ESC); [done|]. destruct (c =? C1_CSI); [|done].
  assert (span_of is_param t = ([], t)) as -> by (apply (inert_no_span csi); [unfold is_param; lia|done]). cbn [snd].
  assert (span_of is_intermediate t = ([], t)) as -> by (apply (inert_no_span csi); [unfold is_intermediate; lia|done]). cbn [snd].
  apply inert_head in Ht. destruct t as [|f t]; [done|]. assert (is_final f = false) as -> by unit_class. done.
Qed.

Lemma csi_match_plain b c t : plain_unit c -> csi_match b (c :: t) = None.
Proof. intros Hc. unfold csi_match, csi_at. by rewrite csi_intro_plain. Qed.

Lemma remove_csi_inert t : inert true t -> inert false (replace_all (csi_match false) 0 t).
Proof.
  induction 1 as [|c t Hc Ht IH|d t Hd Ht IH|d e t Hd He Ht IH|i ps qs f t _ Hi Hp Hq Hf Ht IH]; [constructor|..].
  - rewrite replace_none; [by constructor|]. unfold csi_match. rewrite (csi_at_none true); [done|done|unit_class].
  - rewrite replace_none by (destruct Hd as [->|[->|[->| ->]]]; done).
    rewrite replace_none by (apply csi_match_plain; unfold plain_unit; unit_class). by constructor.
  - rewrite replace_none.
    + rewrite !replace_none by (apply csi_match_plain; unfold plain_unit; unit_class). by constructor.
    + unfold csi_match, csi_at, csi_intro. rewrite Z.eqb_refl. by destruct (Z.eqb_spec d 91); [unit_class|].
  - rewrite csi_text. rewrite (replace_match _ (i ++ ps ++ qs ++ [f]) t []).
    + done.
    + by destruct Hi as [->| ->].
    + rewrite <- csi_text. unfold csi_match, csi_at.
      assert (csi_intro (i ++ ps ++ qs ++ f :: t) = Some (ps ++ qs ++ f :: t)) as -> by (by destruct Hi as [->| ->]).
      by rewrite csi_body, Hf.
Qed.

Lemma charset_plain c t : c <> ESC -> charset_match (c :: t) = None.
Proof. intros Hc. destruct t as [|d [|e t]]; [done|done|]. cbn [charset_match]. by destruct (Z.eqb_spec c ESC). Qed.

Lemma remove_charsets_inert t : inert false t -> inert false (replace_all charset_match 0 t).
Proof.
  induction 1 as [|c t Hc Ht IH|d t Hd Ht IH|d e t Hd He Ht IH|]; [constructor|..|done].
  - rewrite replace_none; [by constructor|]. apply charset_plain. unit_class.
  - rewrite replace_none; [rewrite replace_none by (apply charset_plain; unit_class); by constructor|].
    destruct t as [|e t]; [done|]. cbn [charset_match]. by destruct Hd as [->|[->|[->| ->]]].
  - destruct (charset_match (ESC :: d :: e :: t)) as [[rest by_]|] eqn:E.
    + cbn [charset_match] in E. destruct (_ && _); [|done]. injection E as <- <-.
      change (ESC :: d :: e :: t) with ([ESC; d; e] ++ t). destruct (charset_match ([ESC; d; e] ++ t)) as [[rest by_]|] eqn:E2.
      * rewrite (replace_match _ [ESC; d; e] t []); [done|done|]. cbn [charset_match app] in *. by destruct (_ && _).
      * cbn [app] in *. rewrite !replace_none by (done || apply charset_plain; unit_class). by constructor.
    + rewrite !replace_none by (done || apply charset_plain; unit_class). by constructor.
Qed.

Lemma remove_escapes_inert t : inert false t -> Forall (fun c => inert_control c = true) (replace_all (esc_match []) 0 t).
Proof.
  induction 1 as [|c t Hc Ht IH|d t Hd Ht IH|d e t Hd He Ht IH|]; [constructor|..|done].
  - rewrite replace_none; [by constructor|]. cbn [esc_match]. destruct (Z.eqb_spec c ESC); [unit_class|done].
  - change (ESC :: d :: t) with ([ESC; d] ++ t). rewrite (replace_match _ [ESC; d] t []); [done|done|].
    cbn [app esc_match]. rewrite Z.eqb_refl. by destruct Hd as [->|[->|[->| ->]]].
  - change (ESC :: d :: e :: t) with ([ESC; d; e] ++ t). rewrite (replace_match _ [ESC; d; e] t []); [done|done|].
    cbn [app esc_match]. rewrite Z.eqb_refl. change (d :: e :: t) with ([d] ++ e :: t).
    rewrite span_of_stop; [|repeat constructor; unit_class|unit_class]. cbn [snd].
    assert ((48 <=? e) && (e <=? 126) = true) as -> by lia. done.
Qed.

(** A token run strips to tabs and carriage returns. *)
Lemma strip_inert t : inert true t -> Forall (fun c => c = 9 \/ c = 13) (stripPresentationControls t false).
Proof.
  intros H%drop_unfinished_inert%remove_csi_inert%remove_charsets_inert%remove_escapes_inert. unfold stripPresentationControls.
  induction H as [|c u Hc _ IH]; [constructor|]. cbn [map concat]. rewrite List.filter_app. apply Forall_app. split; [|done].
  destruct (moves c) eqn:Em; [constructor|]. cbn [List.filter]. destruct (silent c) eqn:Es; cbn [negb]; [constructor|].
  constructor; [|constructor]. unfold moves, silent in *. unit_class.
Qed.

(** *** The tokens of the painting test *)

Definition printable (c : Z) : Prop := 32 <= c <= 126.

(** What a token is: its first unit apart, its units print nothing by themselves,
    and it may stand before any token run. *)
Definition is_token (t : text) (k : Token) : Prop :=
  exists u rest, t = u ++ rest /\ length u = tok_length k /\ u <> [] /\ (forall s, inert true s -> inert true (u ++ s)) /\
    Forall printable (tail u).

Lemma csi_intro_spec t body : csi_intro t = Some body -> exists i, t = i ++ body /\ (i = [ESC; 91] \/ i = [C1_CSI]).
Proof.
  unfold csi_intro. destruct t as [|c t]; [done|]. destruct (Z.eqb_spec c ESC) as [->|].
  - destruct t as [|d t]; [done|]. destruct (Z.eqb_spec d 91) as [->|]; [|done]. intros [= <-]. exists [ESC; 91]. auto.
  - destruct (Z.eqb_spec c C1_CSI) as [->|]; [|done]. intros [= <-]. exists [C1_CSI]. auto.
Qed.

Lemma params_printable l : Forall (fun c => is_param c = true) l -> Forall printable l.
Proof. intros H. eapply Forall_impl; [apply H|]. unfold printable. intros c Hc. unit_class. Qed.

Lemma csi_token_shape t k : csi_token t = Some k -> is_token t k.
Proof.
  unfold csi_token. destruct (csi_intro t) as [body|] eqn:Eb; [|done]. destruct (csi_intro_spec _ _ Eb) as (i & -> & Hi).
  set (prefix := match body with c :: _ => if (60 <=? c) && (c <=? 63) then [c] else [] | [] => [] end) in *.
  assert (body = prefix ++ drop (length prefix) body /\ Forall (fun c => is_param c = true) prefix) as [Hpre Hpf].
  { unfold prefix. destruct body as [|c body]; [done|]. destruct ((60 <=? c) && (c <=? 63)) eqn:E; [|done].
    split; [done|]. repeat constructor. unit_class. }
  destruct (span_of_spec (fun c => is_digit_unit c || (c =? 58) || (c =? 59)) (drop (length prefix) body)) as [E1 F1].
  destruct (span_of (fun c => is_digit_unit c || (c =? 58) || (c =? 59)) (drop (length prefix) body)) as [ps t1]. cbn [fst snd] in *.
  destruct (span_of_spec is_intermediate t1) as [E2 F2]. destruct (span_of is_intermediate t1) as [qs [|f rest]]; [done|]. cbn [fst snd] in *.
  destruct (is_final f) eqn:Hf; [|done]. intros [= <-]. exists (i ++ (prefix ++ ps) ++ qs ++ [f]), rest. cbn [tok_length].
  assert (Et : i ++ body = (i ++ (prefix ++ ps) ++ qs ++ [f]) ++ rest) by (rewrite Hpre at 1; rewrite E1, E2, <- !app_assoc; done).
  assert (Hps : Forall (fun c => is_param c = true) (prefix ++ ps)).
  { apply Forall_app. split; [done|]. eapply Forall_impl; [apply F1|]. cbn. intros c Hc. unfold is_digit_unit in Hc. unit_class. }
  split_and!; [done|rewrite Et, !length_app; lia|by destruct Hi as [->| ->]|intros s Hs; rewrite <- csi_text; by constructor|].
  assert (Forall printable ((prefix ++ ps) ++ qs ++ [f])).
  { apply Forall_app. split; [by apply params_printable|]. apply Forall_app. split.
    - eapply Forall_impl; [apply F2|]. unfold printable. intros c Hc. unit_class.
    - constructor; [|constructor]. unfold printable. unit_class. }
  destruct Hi as [->| ->]; cbn [app tail]; [constructor; [unfold printable; lia|]|]; done.
Qed.

Lemma token_shape t k : inert_token t = Some k -> is_token t k.
Proof.
  unfold inert_token. destruct (csi_token t) as [k1|] eqn:Ec; [intros [= <-]; by apply csi_token_shape|].
  destruct (esc_token t) as [k2|] eqn:Ee; [intros [= <-]|].
  - unfold esc_token in Ee. destruct t as [|c [|d rest]]; [done|done|]. destruct (Z.eqb_spec c ESC) as [->|]; [|done].
    destruct (is_designator d && _) eqn:E3.
    + apply andb_prop in E3 as [Hd He]. destruct rest as [|e rest]; [done|]. injection Ee as <-. exists [ESC; d; e], rest.
      split_and!; [done|done|done| |repeat constructor; unfold printable; unit_class]. intros s Hs. cbn [app]. constructor; [done|lia|done].
    + destruct ((d =? 55) || (d =? 56) || (d =? 61) || (d =? 62)) eqn:E2; [|done]. injection Ee as <-. exists [ESC; d], rest.
      split_and!; [done|done|done| |repeat constructor; unfold printable; lia]. intros s Hs. cbn [app]. constructor; [lia|done].
  - destruct t as [|c t]; [done|]. destruct (inert_control c) eqn:E; [|done]. intros [= <-]. exists [c], t. split_and!; try done.
    intros s Hs. by constructor.
Qed.

(** Ground text that does not paint, up to a control that prints nothing. *)
Lemma ground_inert fuel t g :
  ground_paints fuel t g = false -> (g <= fuel)%nat -> (g <= length t)%nat ->
  (forall c, t !! g = Some c -> ~ printable c) -> inert true (take g t).
Proof.
  revert t g. induction fuel as [|fuel IH]; intros t g Hp Hf Hl Hc; [replace g with 0%nat by lia; constructor|].
  destruct g as [|g]; [constructor|]. cbn [ground_paints] in Hp. destruct (inert_token t) as [k|] eqn:Ek; [|done].
  destruct (match tok_csi k with Some _ => _ | None => _ end); [done|].
  destruct (token_shape _ _ Ek) as (u & rest & -> & Hu & Hne & Hin & Hpr). rewrite <- Hu in Hp. rewrite drop_app_length in Hp.
  assert (Hlu : (length u <= S g)%nat).
  { destruct (decide (length u <= S g)%nat) as [|Hn]; [done|]. destruct u as [|c u]; [done|]. cbn [length tail] in *.
    destruct (lookup_lt_is_Some_2 u g ltac:(lia)) as [d Hd]. exfalso. apply (Hc d).
    - rewrite lookup_app_l by (cbn [length]; lia). exact Hd.
    - rewrite Forall_forall in Hpr. apply Hpr. by apply list_elem_of_lookup_2 in Hd. }
  rewrite take_app_ge by done. apply Hin. rewrite length_app in Hl. destruct u as [|c u]; [done|]. cbn [length] in *. apply IH; [done|lia|lia|].
  intros d Hd. apply Hc. rewrite lookup_app_r by (cbn [length]; lia). exact Hd.
Qed.

Lemma introducer_unprintable t n k c : introducer_at t = Some (n, k) -> t !! 0%nat = Some c -> ~ printable c.
Proof.
  destruct t as [|d t]; [done|]. cbn [introducer_at]. intros Hi [= <-]. unfold printable. destruct (Z.eqb_spec d ESC) as [->|]; [unfold ESC; lia|].
  unfold c1_opener in Hi. destruct (Z.eqb_spec d 157); [lia|].
  destruct ((d =? 144) || (d =? 152) || (d =? 158) || (d =? 159)) eqn:E; [lia|done].
Qed.

Lemma inert_no_esc csi t : inert csi t -> ends_in ESC t = false.
Proof.
  assert (Hl : forall u c t, c <> ESC -> ends_in ESC t = false -> ends_in ESC (u ++ c :: t) = false).
  { intros u c t' Hc Ht. rewrite ends_in_app by done. destruct t' as [|d t']; [|done].
    change [c] with ([] ++ [c]). rewrite ends_in_snoc. by apply Z.eqb_neq. }
  induction 1 as [|c t Hc Ht IH|d t Hd Ht IH|d e t Hd He Ht IH|i ps qs f t _ Hi Hp Hq Hf Ht IH]; [done|..].
  - apply (Hl []); [unit_class|done].
  - apply (Hl [ESC]); [unit_class|done].
  - apply (Hl [ESC; d]); [unit_class|done].
  - rewrite csi_text. replace ((i ++ ps ++ qs ++ [f]) ++ t) with ((i ++ ps ++ qs) ++ f :: t) by (by rewrite <- !app_assoc).
    apply Hl; [unit_class|done].
Qed.

(** Past the unit that ends a string the test goes on as the filter does. *)
Lemma after_string fuel x e y :
  (forall t, paints fuel t = false -> (length t <= fuel)%nat -> inert true (units_run Ground t).1) -> (length (e :: y) <= fuel)%nat ->
  (if negb (bool_decide ((x ++ e :: y) !! length x = Some ESC)) then paints fuel (drop (S (length x)) (x ++ e :: y))
   else if bool_decide ((x ++ e :: y) !! S (length x) = Some 92) then paints fuel (drop (S (S (length x))) (x ++ e :: y))
   else paints fuel (drop (length x) (x ++ e :: y))) = false ->
  inert true (units_run (if bool_decide ((x ++ e :: y) !! length x = Some ESC) then StringEscape else Ground) (drop (S (length x)) (x ++ e :: y))).1.
Proof.
  intros IH Hl. assert (E0 : (x ++ e :: y) !! length x = Some e) by (by rewrite lookup_app_r, Nat.sub_diag by lia).
  assert (E1 : (x ++ e :: y) !! S (length x) = y !! 0%nat).
  { rewrite lookup_app_r by lia. replace (S (length x) - length x)%nat with 1%nat by lia. done. }
  assert (Ed : drop (S (length x)) (x ++ e :: y) = y) by (rewrite <- Nat.add_1_r, drop_app_add; done).
  assert (Ed2 : drop (S (S (length x))) (x ++ e :: y) = drop 1 y).
  { replace (S (S (length x))) with (length x + 2)%nat by lia. by rewrite drop_app_add. }
  rewrite E0, E1, Ed, Ed2, drop_app_length. cbn [length] in Hl.
  destruct (bool_decide_reflect (Some e = Some ESC)) as [[= ->]|]; cbn [negb]; [|intros H; apply IH; [done|lia]].
  destruct y as [|d y]; [intros; constructor|]. cbn [lookup list_lookup drop length] in *. rewrite units_run_cons. cbn [unit_step].
  destruct (bool_decide_reflect (Some d = Some 92)) as [[= ->]|Hd]; intros H.
  - rewrite Z.eqb_refl. cbn [fst snd]. rewrite emits_nil. apply IH; [done|lia].
  - specialize (IH _ H ltac:(cbn [length]; lia)). rewrite units_run_cons in IH. cbn [unit_step] in IH. rewrite Z.eqb_refl in IH.
    cbn [fst snd] in IH. rewrite emits_nil, units_run_cons in IH. destruct (Z.eqb_spec d 92) as [->|]; [by destruct Hd|]. exact IH.
Qed.

(** What the filter keeps of output that does not paint is a token run. *)
Lemma paints_inert fuel t : paints fuel t = false -> (length t <= fuel)%nat -> inert true (units_run Ground t).1.
Proof.
  revert t. induction fuel as [|fuel IH]; intros t Hp Hf; [destruct t; [constructor|cbn in Hf; lia]|].
  destruct t as [|c0 t0]; [constructor|]. set (t := c0 :: t0) in *. assert (Hlen : length t = S (length t0)) by done.
  cbn [paints] in Hp. fold t in Hp. destruct (find_introducer t) as [[[i n] k]|] eqn:Ei.
  - destruct (find_introducer_split _ _ _ _ Ei) as (Hat & Hn & Hl). destruct (ground_paints i t i) eqn:Eg; [done|].
    destruct (match k with osc => _ | other => _ end); [done|]. destruct (ground_some t i n k Ei) as [-> _]. unfold emits. cbn [fst].
    apply inert_app.
    { apply (ground_inert i); [done|lia|lia|]. intros c Hc. apply (introducer_unprintable _ _ _ _ Hat). by rewrite lookup_drop, Nat.add_0_r. }
    rewrite in_string. destruct (index_where (ends_string k) (drop (i + n) t)) as [j|] eqn:Ej; [|done].
    destruct (index_where_Some _ _ _ Ej) as (x & e & y & Exy & <- & _ & _). rewrite Exy in Hp |- *.
    apply (after_string fuel); [done| |done]. apply (f_equal length) in Exy. rewrite length_drop, length_app in Exy. lia.
  - assert (Hin : inert true t).
    { rewrite <- (firstn_all t). apply (ground_inert (length t)); [done|lia|lia|]. intros c Hc%lookup_lt_Some. lia. }
    rewrite (ground_none t Ei), (inert_no_esc _ _ Hin). done.
Qed.

(** Output judged not to change the screen holds no text: stripped of its
    controls, it is tabs and carriage returns at most.  The painting test and
    the stripper read the same grammar, so a pane counted idle says nothing a
    reader of its text could see. *)
Theorem unpainted_is_no_text data :
  outputPaints data = false -> Forall (fun c => c = 9 \/ c = 13) (stripTerminalControls data false).
Proof.
  intros H. unfold stripTerminalControls. rewrite filter_process_spec. apply strip_inert. by apply (paints_inert (length data)).
Qed.

Lemma unpainted_is_no_text_witness :
  let data := [ESC] ++ lit "[?25h" ++ [ESC] ++ lit "]0;t" ++ [BEL; 13; ESC] ++ lit "(B" in
  outputPaints data = false /\ Forall (fun c => c = 9 \/ c = 13) (stripTerminalControls data false).
Proof. split; [vm_compute; reflexivity|]. apply unpainted_is_no_text. vm_compute. reflexivity. Defined.
