(* ===== verification/PromptInput.v ===== *)
(** * Keystrokes and prompts (lib/src/lib/terminal-command-input.ts,
    terminal-prompt-shape.ts, terminal-state-store.ts)

    What stands in for a shell that reports nothing: telling a submitted line
    from a pasted one, learning the shape of a prompt and cutting the command off
    it, leaving out what an alternate screen shows, and finding a returned
    prompt in recent output. *)
From Stdlib Require Import ZArith Lia.
From S2P Require Import Prelude TermText TermDecode TermCwd ShellWords WatchKey TermControls TermPaint.
#[local] Open Scope Z_scope.
#[local] Open Scope list_scope.
#[local] Set Warnings "-level-tolerance".

(** ** Submitting a line *)

Record PromptSubmitState := mkSubmit { inPaste : bool; pendingMarker : option text }.

Definition createPromptSubmitState : PromptSubmitState := mkSubmit false None.

Definition BRACKETED_PASTE_START : text := [27] ++ lit "[200~".
Definition BRACKETED_PASTE_END : text := [27] ++ lit "[201~".

Definition is_newline (c : Z) : bool := (c =? 13) || (c =? 10).

(** The loop; [skip] units of a marker are still to be passed over. *)
Fixpoint detect (skip : nat) (paste submitted : bool) (t : text) : PromptSubmitState * bool :=
  match t with
  | [] => (mkSubmit paste None, submitted)
  | c :: t' =>
      match skip with
      | S skip => detect skip paste submitted t'
      | O =>
          if starts_with BRACKETED_PASTE_START t then detect 5 true submitted t'
          else if starts_with BRACKETED_PASTE_END t then detect 5 false submitted t'
          else if starts_with t BRACKETED_PASTE_START || starts_with t BRACKETED_PASTE_END then (mkSubmit paste (Some t), submitted)
          else detect 0 paste (submitted || negb paste && is_newline c) t'
      end
  end.

Definition detectPromptSubmit (s : PromptSubmitState) (input : text) : PromptSubmitState * bool :=
  detect 0 (inPaste s) false (default [] (pendingMarker s) ++ input).

(** ** The shape of a prompt *)

Definition PROMPT_TERMINATORS : list Z := [37; 36; 35; 62; 10095; 10140; 955].

Record PromptShape := mkShape { terminator : Z; countBefore : nat }.

Definition count_unit (c : Z) (t : text) : nat := length (List.filter (Z.eqb c) t).

Definition derivePromptShape (promptLine : text) : option PromptShape :=
  let trimmed := trim_end promptLine in
  match last trimmed with
  | None => None
  | Some term =>
      if bool_decide (term ∈ PROMPT_TERMINATORS) then Some (mkShape term (count_unit term (take (length trimmed - 1) trimmed))) else None
  end.

(** What follows the terminator after [n] earlier ones. *)
Fixpoint after_terminator (n : nat) (term : Z) (line : text) : option text :=
  match index_where (Z.eqb term) line with
  | None => None
  | Some i => match n with O => Some (drop (S i) line) | S n => after_terminator n term (drop (S i) line) end
  end.

Definition extractCommand (renderedLine : text) (shape : PromptShape) : option text :=
  match after_terminator (countBefore shape) (terminator shape) renderedLine with
  | Some rest => null_if_empty (trim rest)
  | None => None
  end.

(** ** The alternate screen *)

Inductive AltState := alt_ground | alt_escape | alt_csiStart | alt_parameters | alt_ignore.

#[export] Instance AltState_eq_dec : EqDecision AltState.
Proof. solve_decision. Defined.

Record AltFilter := mkAlt { inAlt : bool; altState : AltState; parameter : Z; hasAltParameter : bool }.

Definition new_alt_filter : AltFilter := mkAlt false alt_ground 0 false.

Definition alt_introducer (c : Z) : bool := (c =? 27) || (c =? 155).

Definition to_state (s : AltState) (f : AltFilter) : AltFilter := mkAlt (inAlt f) s (parameter f) (hasAltParameter f).

(** What one unit of a control does to the filter, and whether it switches the
    screen, or may. *)
Definition alt_control (c : Z) (f : AltFilter) : AltFilter * bool :=
  if c =? 27 then (to_state alt_escape f, false)
  else if (c =? 155) || bool_decide (altState f = alt_escape) && (c =? 91) then (mkAlt (inAlt f) alt_csiStart 0 false, false)
  else if bool_decide (altState f = alt_csiStart) && (c =? 63) then (to_state alt_parameters f, false)
  else if bool_decide (altState f = alt_parameters) && is_digit_unit c then
    (mkAlt (inAlt f) (altState f) (Z.min 1050 (parameter f * 10 + (c - 48))) (hasAltParameter f), false)
  else if bool_decide (altState f = alt_parameters) && ((c =? 59) || (c =? 104) || (c =? 108)) then
    let has := hasAltParameter f || (parameter f =? 47) || (parameter f =? 1047) || (parameter f =? 1049) in
    if c =? 59 then (mkAlt (inAlt f) (altState f) 0 has, false)
    else (mkAlt (if has then c =? 104 else inAlt f) alt_ground 0 has, has)
  else if bool_decide (altState f = alt_escape) && (c =? 99) then (mkAlt false alt_ground (parameter f) (hasAltParameter f), true)
  else if bool_decide (altState f = alt_escape) || (64 <=? c) && (c <=? 126) || (c =? 24) || (c =? 26) then (to_state alt_ground f, false)
  else (to_state alt_ignore f, false).

(** The loop: the output so far and the run not yet flushed to it, if one is open. *)
Definition flush_run (out : text) (run : option text) : text := match run with Some r => out ++ r | None => out end.
Definition extend_run (run : option text) (t : text) : option text := option_map (fun r => r ++ t) run.

Fixpoint alt_loop (fuel : nat) (f : AltFilter) (t out : text) (run : option text) : text * AltFilter :=
  match fuel, t with
  | S fuel, _ :: _ =>
      let ground := bool_decide (altState f = alt_ground) in
      let n := if ground then default (length t) (index_where alt_introducer t) else O in
      let run := if ground && negb (inAlt f) && negb (bool_decide (is_Some run)) then Some [] else run in
      let run := extend_run run (take n t) in
      match drop n t with
      | [] => (flush_run out run, f)
      | c :: t =>
          let '(out, run) := if inAlt f then (flush_run out run, None) else (out, Some (default [] run)) in
          let run := extend_run run [c] in
          let '(f, switched) := alt_control c f in
          if switched then alt_loop fuel f t (flush_run out run ++ [10]) None else alt_loop fuel f t out run
      end
  | _, _ => (flush_run out run, f)
  end.

Definition alt_process (f : AltFilter) (input : text) : text * AltFilter := alt_loop (length input) f input [] None.

(** ** A returned prompt *)

(** [value.replace(/\r\n/g, '\n').replace(/\r/g, '\n')]. *)
Definition normalizeBreaks (t : text) : text := normalize_newlines t.

Fixpoint drop_breaks (t : text) : text := match t with 10 :: t => drop_breaks t | _ => t end.

(** [.*>\s?$], of what has no line break. *)
Definition angle_end (m : text) : bool :=
  let body := if bool_decide (last m = Some 62) then Some (take (length m - 1) m)
    else match last m with
      | Some w => if js_ws w && bool_decide (last (take (length m - 1) m) = Some 62) then Some (take (length m - 2) m) else None
      | None => None
      end in
  match body with Some x => negb (existsb line_terminator x) | None => false end.

(** [/^PS\s+\S.*>\s?$/]. *)
Definition powershell_prompt (t : text) : bool :=
  starts_with (lit "PS") t &&
  match drop 2 t with
  | w :: rest => js_ws w && match drop_ws rest with _ :: m => angle_end m | [] => false end
  | [] => false
  end.

(** [/^[A-Za-z]:\\.*>\s?$/]. *)
Definition cmd_prompt (t : text) : bool :=
  match t with a :: b :: c :: m => is_letter a && (b =? 58) && (c =? 92) && angle_end m | _ => false end.

(** [/^[➜❯λ]\s+\S/]. *)
Definition arrow_prompt (t : text) : bool :=
  match t with
  | a :: w :: rest => bool_decide (a ∈ [10140; 10095; 955]) && js_ws w && negb (bool_decide (drop_ws rest = []))
  | _ => false
  end.

Definition prompt_context (t : text) : bool := existsb (fun c => bool_decide (c ∈ lit "/~@:")) t.

(** The lines of [head] before its last one, from the last: the first that is
    not blank decides. *)
Definition precedingLineHasPromptContext (earlier : list text) : bool :=
  match List.find (fun l => negb (bool_decide (trim l = []))) (reverse earlier) with
  | Some l => prompt_context (trim l)
  | None => false
  end.

(** [/^[$#%]\s*$/]. *)
Definition bare_terminator (t : text) : bool :=
  match t with c :: rest => bool_decide (c ∈ lit "$#%") && bool_decide (drop_ws rest = []) | [] => false end.

(** [/[$#%>]\s$/]. *)
Definition terminator_end (t : text) : bool :=
  match reverse t with w :: c :: _ => js_ws w && bool_decide (c ∈ lit "$#%>") | _ => false end.

Definition detectReturnedShellPrompt (visible : text) : option text :=
  let '(boundaries, plain) := stripTerminalControlsBothWays visible in
  let t := normalizeBreaks boundaries in
  let endsOnRealNewline := ends_in 10 (normalizeBreaks plain) in
  let head_ := if endsOnRealNewline then t else reverse (drop_breaks (reverse t)) in
  let lines := split_on 10 head_ in
  let lastLine := drop_ws (default [] (last lines)) in
  if (200 <? length lastLine)%nat then None
  else if powershell_prompt lastLine then Some lastLine
  else if cmd_prompt lastLine then Some lastLine
  else if arrow_prompt lastLine && ends_in 32 lastLine then Some lastLine
  else if bare_terminator lastLine then
    if precedingLineHasPromptContext (take (length lines - 1) lines) then Some lastLine else None
  else if (length lastLine <? 3)%nat then None
  else if negb (prompt_context lastLine) then None
  else if terminator_end lastLine then Some lastLine else None.

(** ** Keystrokes in chunks *)

Lemma detect_skip n p s t : (n <= length t)%nat -> detect n p s t = detect 0 p s (drop n t).
Proof. revert t. induction n as [|n IH]; intros t Hn; [done|]. destruct t as [|c t]; [cbn in Hn; lia|]. apply IH. cbn in Hn. lia. Qed.

(** Whether the text is, or may become, a marker. *)
Definition may_be_marker (m t : text) : bool := starts_with m t || starts_with t m.

Lemma starts_with_split m t : starts_with m t = true <-> exists r, t = m ++ r.
Proof.
  unfold starts_with. rewrite bool_decide_eq_true. split.
  - intros H. exists (drop (length m) t). rewrite <- H at 1. by rewrite take_drop.
  - intros [r ->]. by rewrite take_app_length.
Qed.

(** More text decides nothing that was decided. *)
Lemma decided_app m t b : may_be_marker m t = false -> starts_with m (t ++ b) = false /\ starts_with (t ++ b) m = false.
Proof.
  unfold may_be_marker. intros [H1 H2]%orb_false_iff. split; apply not_true_iff_false; intros (r & E)%starts_with_split.
  - apply app_eq_app in E as (k & [[-> _]|[-> _]]).
    + apply not_true_iff_false in H1. apply H1, starts_with_split. by eexists.
    + apply not_true_iff_false in H2. apply H2, starts_with_split. by eexists.
  - apply not_true_iff_false in H2. apply H2, starts_with_split. exists (b ++ r). by rewrite app_assoc.
Qed.

Lemma starts_with_more m t b : starts_with m t = true -> starts_with m (t ++ b) = true.
Proof. intros (r & ->)%starts_with_split. apply starts_with_split. exists (r ++ b). by rewrite app_assoc. Qed.

(** One unit of the loop, where no marker is being passed over. *)
Lemma detect_unit p s c t : detect 0 p s (c :: t) =
  if starts_with BRACKETED_PASTE_START (c :: t) then detect 5 true s t
  else if starts_with BRACKETED_PASTE_END (c :: t) then detect 5 false s t
  else if starts_with (c :: t) BRACKETED_PASTE_START || starts_with (c :: t) BRACKETED_PASTE_END then (mkSubmit p (Some (c :: t)), s)
  else detect 0 p (s || negb p && is_newline c) t.
Proof. done. Qed.

Lemma marker_length m c t : starts_with m (c :: t) = true -> length m = 6%nat -> (5 <= length t)%nat.
Proof. intros (r & E)%starts_with_split Hl. apply (f_equal length) in E. rewrite length_app in E. cbn in E. lia. Qed.

Lemma end_is_no_start r : starts_with BRACKETED_PASTE_START (BRACKETED_PASTE_END ++ r) = false.
Proof.
  apply not_true_iff_false. intros (t & E)%starts_with_split. apply (f_equal (lookup 4%nat)) in E.
  by rewrite !lookup_app_l in E by (apply Nat.ltb_lt; vm_compute; reflexivity).
Qed.

Lemma detect_app p s u b :
  detect 0 p s (u ++ b) = let '(st, s') := detect 0 p s u in detect 0 (inPaste st) s' (default [] (pendingMarker st) ++ b).
Proof.
  revert p s. induction u as [u IH] using (induction_ltof1 _ (@length Z)); unfold ltof in IH. intros p s.
  destruct u as [|c u]; [done|]. cbn [app]. rewrite !detect_unit.
  assert (Hjump : forall m q, length m = 6%nat -> starts_with m (c :: u) = true ->
    detect 5 q s (u ++ b) = let '(st, s') := detect 5 q s u in detect 0 (inPaste st) s' (default [] (pendingMarker st) ++ b)).
  { intros m q Hm Hs. pose proof (marker_length m c u Hs Hm). rewrite (detect_skip 5 q s u), (detect_skip 5 q s (u ++ b)) by (rewrite ?length_app; lia).
    rewrite drop_app_le by lia. apply IH. rewrite length_drop. cbn. lia. }
  destruct (starts_with BRACKETED_PASTE_START (c :: u)) eqn:E1.
  { change (c :: u ++ b) with ((c :: u) ++ b). rewrite starts_with_more by done. by apply (Hjump BRACKETED_PASTE_START). }
  destruct (starts_with BRACKETED_PASTE_END (c :: u)) eqn:E2.
  { assert (Hno : starts_with BRACKETED_PASTE_START (c :: u ++ b) = false).
    { apply starts_with_split in E2 as (r & E2). change (c :: u ++ b) with ((c :: u) ++ b). rewrite E2, <- app_assoc. apply end_is_no_start. }
    rewrite Hno. change (c :: u ++ b) with ((c :: u) ++ b). rewrite (starts_with_more _ _ b E2). by apply (Hjump BRACKETED_PASTE_END). }
  destruct (starts_with (c :: u) BRACKETED_PASTE_START || starts_with (c :: u) BRACKETED_PASTE_END) eqn:E3.
  { cbn [inPaste pendingMarker default]. by rewrite <- detect_unit. }
  apply orb_false_iff in E3 as [E3 E4].
  destruct (decided_app BRACKETED_PASTE_START (c :: u) b) as [F1 F3]; [by unfold may_be_marker; rewrite E1, E3|].
  destruct (decided_app BRACKETED_PASTE_END (c :: u) b) as [F2 F4]; [by unfold may_be_marker; rewrite E2, E4|].
  cbn [app] in F1, F2, F3, F4. rewrite F1, F2, F3, F4. cbn [orb]. apply IH. cbn. lia.
Qed.

Lemma detect_submitted n p s t : detect n p s t = let '(st, s') := detect n p false t in (st, s || s').
Proof.
  revert n p s. induction t as [|c t IH]; intros n p s; [cbn; by rewrite orb_false_r|].
  destruct n as [|n]; [|apply (IH n)]. rewrite !detect_unit.
  destruct (starts_with BRACKETED_PASTE_START _); [apply IH|]. destruct (starts_with BRACKETED_PASTE_END _); [apply IH|].
  destruct (_ || _); [by rewrite orb_false_r|]. rewrite IH. rewrite (IH 0%nat p (false || _)).
  destruct (detect 0 p false t) as [st s']. by rewrite orb_false_l, orb_assoc.
Qed.

(** Where input is cut does not matter to what was submitted: a paste marker
    split over reads is still one, and a line is submitted by one of the reads
    exactly if it is by their text read at once. *)
Theorem submits_in_chunks s a b :
  detectPromptSubmit s (a ++ b) =
  let '(s1, submitted1) := detectPromptSubmit s a in
  let '(s2, submitted2) := detectPromptSubmit s1 b in (s2, submitted1 || submitted2).
Proof.
  unfold detectPromptSubmit. rewrite app_assoc, detect_app. destruct (detect 0 (inPaste s) false _) as [s1 submitted1].
  apply detect_submitted.
Qed.

(** ** The command after a prompt *)

Lemma after_terminator_pass n term c t : term <> c -> after_terminator n term (c :: t) = after_terminator n term t.
Proof.
  intros Hc%Z.eqb_neq. assert (E : index_where (Z.eqb term) (c :: t) = option_map S (index_where (Z.eqb term) t)) by (unfold index_where; cbn; by rewrite Hc).
  destruct n as [|n]; cbn [after_terminator]; rewrite E; by destruct (index_where (Z.eqb term) t).
Qed.

Lemma after_terminator_spec term init rest :
  after_terminator (count_unit term init) term (init ++ term :: rest) = Some rest.
Proof.
  unfold count_unit. induction init as [|c init IH].
  - cbn. by rewrite Z.eqb_refl.
  - cbn [List.filter app]. destruct (Z.eqb_spec term c) as [<-|Hc].
    + cbn. rewrite Z.eqb_refl. cbn. exact IH.
    + by rewrite after_terminator_pass.
Qed.

(** A shape learned from a prompt cuts the command off a line that shows it:
    what follows the prompt, trimmed, whatever terminators the command holds. *)
Lemma command_after_prompt promptLine shape rest :
  derivePromptShape promptLine = Some shape -> extractCommand (trim_end promptLine ++ rest) shape = null_if_empty (trim rest).
Proof.
  unfold derivePromptShape, extractCommand. destruct (last (trim_end promptLine)) as [term|] eqn:El; [|done].
  case_bool_decide; [|done]. intros [= <-]. cbn [countBefore terminator].
  apply last_Some in El as [init ->]. rewrite length_app. cbn [length]. rewrite Nat.add_sub.
  rewrite take_app_length, <- app_assoc. cbn [app]. by rewrite after_terminator_spec.
Qed.

(** ** The alternate screen, unit by unit *)

Definition alt_unit (f : AltFilter) (c : Z) : text * AltFilter :=
  let shown := if inAlt f then [] else [c] in
  if bool_decide (altState f = alt_ground) && negb (alt_introducer c) then (shown, f)
  else let '(f', switched) := alt_control c f in (shown ++ (if switched then [10] else []), f').

Fixpoint alt_units (f : AltFilter) (t : text) : text * AltFilter :=
  match t with
  | [] => ([], f)
  | c :: t => let '(out, f) := alt_unit f c in let '(outs, f) := alt_units f t in (out ++ outs, f)
  end.

Lemma alt_units_app f a b :
  alt_units f (a ++ b) = let '(o1, f1) := alt_units f a in let '(o2, f2) := alt_units f1 b in (o1 ++ o2, f2).
Proof.
  revert f. induction a as [|c a IH]; intros f; cbn [app alt_units]; [by destruct (alt_units f b)|].
  destruct (alt_unit f c) as [o1 f1]. rewrite IH. destruct (alt_units f1 a) as [o2 f2]. destruct (alt_units f2 b) as [o3 f3].
  by rewrite app_assoc.
Qed.

Lemma alt_ground_run f a : altState f = alt_ground -> Forall (fun c => alt_introducer c = false) a ->
  alt_units f a = (if inAlt f then [] else a, f).
Proof.
  intros Hf. induction 1 as [|c a Hc _ IH]; cbn [alt_units]; [by destruct (inAlt f)|].
  unfold alt_unit. rewrite bool_decide_true, Hc by done. cbn [negb andb]. rewrite IH. by destruct (inAlt f).
Qed.

Lemma alt_control_stays c f f' : alt_control c f = (f', false) -> inAlt f' = inAlt f.
Proof.
  unfold alt_control. repeat case_match; intros [= <-]; done.
Qed.

Lemma take_index p (t : text) : Forall (fun c => p c = false) (take (default (length t) (index_where p t)) t) /\
  match drop (default (length t) (index_where p t)) t with [] => True | c :: _ => p c = true end.
Proof.
  unfold index_where. induction t as [|c t [IH1 IH2]]; cbn; [done|]. destruct (p c) eqn:E; [done|].
  destruct (find_index p t) as [i|]; cbn in *; (split; [by constructor|done]).
Qed.

(** The scan over the ground: what it passes is shown or not, and the run it
    leaves holds what is. *)
Lemma alt_scan f t out run : (inAlt f = true -> run = None) ->
  let ground := bool_decide (altState f = alt_ground) in
  let n := if ground then default (length t) (index_where alt_introducer t) else O in
  let run1 := extend_run (if ground && negb (inAlt f) && negb (bool_decide (is_Some run)) then Some [] else run) (take n t) in
  flush_run out run1 = flush_run out run ++ (alt_units f (take n t)).1 /\ (alt_units f (take n t)).2 = f /\
  (inAlt f = true -> run1 = None) /\
  match drop n t with [] => True | c :: _ => bool_decide (altState f = alt_ground) && negb (alt_introducer c) = false end.
Proof.
  intros Hr. cbn zeta. case_bool_decide as Hg; cbn [andb].
  - pose proof (take_index alt_introducer t) as [Hf Hd]. rewrite (alt_ground_run f _ Hg Hf). cbn [fst snd].
    destruct (inAlt f) eqn:Ea; cbn [negb andb].
    + rewrite Hr by done. cbn. rewrite app_nil_r. split_and!; try done. destruct (drop _ t); [done|by rewrite Hd].
    + split_and!; [|done|done|destruct (drop _ t); [done|by rewrite Hd]]. destruct run as [r|]; cbn; [by rewrite app_assoc|done].
  - cbn. rewrite app_nil_r. split_and!; try done; [by destruct run; cbn; rewrite ?app_nil_r|intros Ha; by rewrite (Hr Ha)|by destruct t].
Qed.

Lemma alt_loop_units n f t out run : (length t <= n)%nat -> (inAlt f = true -> run = None) ->
  alt_loop n f t out run = let '(o, f') := alt_units f t in (flush_run out run ++ o, f').
Proof.
  revert f t out run. induction n as [|n IH]; intros f t out run Hn Hr.
  { destruct t; [|cbn in Hn; lia]. cbn. by rewrite app_nil_r. }
  destruct (decide (t = [])) as [->|Ht]; [cbn; by rewrite app_nil_r|].
  pose proof (alt_scan f t out run Hr) as Hs. cbn zeta in Hs.
  assert (E : forall A (x y : A), match t with [] => x | _ :: _ => y end = y) by (intros; by destruct t).
  cbn [alt_loop]. rewrite E. clear E.
  set (k := if bool_decide (altState f = alt_ground) then _ else O) in *.
  set (run1 := extend_run _ (take k t)) in *. destruct Hs as (Hf & H2 & Hr1 & Hc).
  rewrite <- (take_drop k t) at 2. rewrite alt_units_app. destruct (alt_units f (take k t)) as [o1 f1]. cbn [fst snd] in *. subst f1.
  destruct (drop k t) as [|c t'] eqn:Ed; [cbn; by rewrite Hf, app_nil_r|]. cbn [alt_units]. unfold alt_unit. rewrite Hc.
  assert (Hl : (length t' <= n)%nat) by (apply (f_equal length) in Ed; rewrite length_drop in Ed; cbn in Ed; lia).
  assert (Hshow : flush_run (if inAlt f then flush_run out run1 else out) (extend_run (if inAlt f then None else Some (default [] run1)) [c])
    = flush_run out run1 ++ (if inAlt f then [] else [c])).
  { destruct (inAlt f); [cbn; by rewrite app_nil_r|]. destruct run1; cbn; by rewrite ?app_nil_r, ?app_assoc. }
  assert (Hpair : (if inAlt f then (flush_run out run1, None) else (out, Some (default [] run1)))
    = (if inAlt f then flush_run out run1 else out, if inAlt f then None else Some (default [] run1))) by (by destruct (inAlt f)).
  rewrite Hpair. destruct (alt_control c f) as [f' switched] eqn:Ec. destruct switched; rewrite IH; try done.
  - destruct (alt_units f' t') as [o2 f2]. cbn [flush_run]. rewrite Hshow, Hf. by rewrite <- !app_assoc.
  - destruct (alt_units f' t') as [o2 f2]. rewrite Hshow, Hf. rewrite app_nil_r. by rewrite <- !app_assoc.
  - intros Ha. apply alt_control_stays in Ec. rewrite <- Ec, Ha. done.
Qed.

(** What an alternate screen shows is left out unit by unit: the filter's scan
    and its runs amount to the automaton that reads one unit at a time, so
    output is filtered alike however it is cut. *)
Theorem alternate_screen_automaton f input :
  alt_process f input = alt_units f input /\
  forall a b, input = a ++ b -> alt_process f input =
    let '(o1, f1) := alt_process f a in let '(o2, f2) := alt_process f1 b in (o1 ++ o2, f2).
Proof.
  assert (H : forall f t, alt_process f t = alt_units f t).
  { intros g t. unfold alt_process. rewrite alt_loop_units by done. cbn. by destruct (alt_units g t). }
  split; [apply H|]. intros a b ->. rewrite !H, alt_units_app. destruct (alt_units f a) as [o1 f1]. by rewrite H.
Qed.

(** ** Instances *)

Example split_paste :
  let '(s, first) := detectPromptSubmit createPromptSubmitState (lit "a" ++ [27] ++ lit "[20") in
  let '(s2, second) := detectPromptSubmit s (lit "0~x" ++ [13] ++ lit "y") in (first, second, inPaste s2) = (false, false, true).
Proof. by vm_compute. Qed.

Example prompts :
  map (fun s => bool_decide (is_Some (detectReturnedShellPrompt (lit s)))) ["me@host:~$ "; "PS C:\Users> "; "C:\work>"; "step 1: done"; "loading 95% complete"]%string
  = [true; true; true; false; false].
Proof. by vm_compute. Qed.
