(* ===== verification/TerminalStore.v ===== *)
(** * The store of terminal panes (lib/src/lib/terminal-state-store.ts, tool-dirty-store.ts)

    Every pane's state under its Session's id, and the scratch state of the
    heuristic that stands in for a shell that reports nothing.  The maps of the
    module are one record; a listener's call is an entry of a log.  An operation
    that reads the clock or makes a run's id is given both. *)
From Stdlib Require Import ZArith QArith Lia.
From stdpp Require Import gmap.
From S2P Require Import Prelude JsNum TerminalState TermText TermDecode TermCwd OscParse ShellWords WatchKey TermControls TermPaint PaneState PaneFacts PromptInput.
#[local] Open Scope Z_scope.
#[local] Open Scope list_scope.
#[local] Set Warnings "-level-tolerance".

(** A Session's id. *)
Definition Sid : Type := text.

(** What a store tells its listeners: the pane that moved, or that the report of
    a Tool's unsaved changes did. *)
Inductive Told := pane_changed (i : Sid) | dirty_changed.

#[export] Instance Told_eq_dec : EqDecision Told.
Proof. solve_decision. Defined.

Record Store := mkStore {
  paneStates : gmap Sid Pane;
  promptSubmitStates : gmap Sid PromptSubmitState;
  promptShapes : gmap Sid PromptShape;
  promptOutputBuffers : gmap Sid text;
  promptAltScreenFilters : gmap Sid AltFilter;
  oscDrivenPanes : gset Sid;
  cachedSnapshot : option (gmap Sid Pane);
  dirty : gmap Sid bool;
  told : list Told
}.

Definition new_store : Store := mkStore ∅ ∅ ∅ ∅ ∅ ∅ None ∅ [].

Definition set_submit (m : gmap Sid PromptSubmitState) (s : Store) : Store :=
  mkStore (paneStates s) m (promptShapes s) (promptOutputBuffers s) (promptAltScreenFilters s) (oscDrivenPanes s) (cachedSnapshot s) (dirty s) (told s).
Definition set_shapes (m : gmap Sid PromptShape) (s : Store) : Store :=
  mkStore (paneStates s) (promptSubmitStates s) m (promptOutputBuffers s) (promptAltScreenFilters s) (oscDrivenPanes s) (cachedSnapshot s) (dirty s) (told s).
Definition set_buffers (m : gmap Sid text) (s : Store) : Store :=
  mkStore (paneStates s) (promptSubmitStates s) (promptShapes s) m (promptAltScreenFilters s) (oscDrivenPanes s) (cachedSnapshot s) (dirty s) (told s).
Definition set_filters (m : gmap Sid AltFilter) (s : Store) : Store :=
  mkStore (paneStates s) (promptSubmitStates s) (promptShapes s) (promptOutputBuffers s) m (oscDrivenPanes s) (cachedSnapshot s) (dirty s) (told s).
Definition set_driven (d : gset Sid) (s : Store) : Store :=
  mkStore (paneStates s) (promptSubmitStates s) (promptShapes s) (promptOutputBuffers s) (promptAltScreenFilters s) d (cachedSnapshot s) (dirty s) (told s).
Definition set_snapshot (c : option (gmap Sid Pane)) (s : Store) : Store :=
  mkStore (paneStates s) (promptSubmitStates s) (promptShapes s) (promptOutputBuffers s) (promptAltScreenFilters s) (oscDrivenPanes s) c (dirty s) (told s).

(** [paneStates.set] or [.delete], and [notifyTerminalPaneStateListeners]. *)
Definition put_panes (m : gmap Sid Pane) (i : Sid) (s : Store) : Store :=
  mkStore m (promptSubmitStates s) (promptShapes s) (promptOutputBuffers s) (promptAltScreenFilters s) (oscDrivenPanes s) None (dirty s)
    (told s ++ [pane_changed i]).

Definition put_pane (i : Sid) (p : Pane) (s : Store) : Store := put_panes (<[i := p]> (paneStates s)) i s.

(** ** Unsaved changes *)

Definition getToolDirty (i : Sid) (s : Store) : option bool := dirty s !! i.

Definition recordToolDirty (i : Sid) (value : option bool) (s : Store) : Store :=
  if bool_decide (getToolDirty i s = value) then s
  else mkStore (paneStates s) (promptSubmitStates s) (promptShapes s) (promptOutputBuffers s) (promptAltScreenFilters s) (oscDrivenPanes s)
    (cachedSnapshot s) (match value with None => delete i (dirty s) | Some v => <[i := v]> (dirty s) end) (told s ++ [dirty_changed]).

(** ** Reading *)

Definition getTerminalPaneStateSnapshot (s : Store) : gmap Sid Pane * Store :=
  match cachedSnapshot s with
  | Some m => (m, s)
  | None => (paneStates s, set_snapshot (Some (paneStates s)) s)
  end.

Definition getTerminalPaneState (i : Sid) (s : Store) : Pane := default createTerminalPaneState (paneStates s !! i).

Definition getInheritableCwd (i : Sid) (s : Store) : option text :=
  match paneStates s !! i with
  | Some p => match cwd p with Some c => if TermCwd.isRemote c then None else Some (TermCwd.cwdPath c) | None => None end
  | None => None
  end.

Definition getRunningCommandWatchKey (i : Sid) (s : Store) : option text :=
  match paneStates s !! i with
  | Some p => match currentCommand p with Some c => match nonempty_line (rawCommandLine c) with Some raw => commandWatchKey raw | None => None end | None => None end
  | None => None
  end.

Definition isPaneOscDriven (i : Sid) (s : Store) : bool := bool_decide (i ∈ oscDrivenPanes s).

(** What the registry of Sessions holds of one (terminal-store.ts). *)
Record TerminalEntry := mkEntry { helper : bool; exited : bool; helperBusy : option bool }.

Definition helperMayBeBusy (e : TerminalEntry) : bool := negb (exited e) && negb (bool_decide (helperBusy e = Some false)).

Definition counts_running (registry : gmap Sid TerminalEntry) (i : Sid) (p : Pane) : bool :=
  bool_decide (activity p = running) || match registry !! i with Some e => helper e && helperMayBeBusy e | None => false end.

(** The loop over [paneStates]: [scope] restricts it, [except] is left out. *)
Definition countRunning (registry : gmap Sid TerminalEntry) (scope : option (gset Sid)) (except : option Sid) (s : Store) : nat :=
  length (List.filter (fun e : Sid * Pane =>
      negb (match scope with Some ids => negb (bool_decide (e.1 ∈ ids)) | None => false end || bool_decide (except = Some e.1)) && counts_running registry e.1 e.2)
    (map_to_list (paneStates s))).

(** ** Setting a pane's state *)

Definition ensureTerminalPaneState (i : Sid) (initial : Pane) (s : Store) : Store :=
  match paneStates s !! i with Some _ => s | None => put_pane i initial s end.

Definition clearPaneScratch (i : Sid) (s : Store) : Store :=
  mkStore (paneStates s) (delete i (promptSubmitStates s)) (delete i (promptShapes s)) (delete i (promptOutputBuffers s))
    (delete i (promptAltScreenFilters s)) (oscDrivenPanes s ∖ {[i]}) (cachedSnapshot s) (dirty s) (told s).

Definition resetTerminalPaneState (i : Sid) (initial : Pane) (s : Store) : Store := put_pane i initial (clearPaneScratch i s).

Record TransferredTerminalState := mkTransferred { pane : Pane; oscDriven : bool }.

Definition snapshotTerminalState (i : Sid) (s : Store) : TransferredTerminalState :=
  mkTransferred (getTerminalPaneState i s) (isPaneOscDriven i s).

Definition restoreTransferredTerminalState (i : Sid) (t : TransferredTerminalState) (s : Store) : Store :=
  let s := resetTerminalPaneState i (pane t) s in
  if oscDriven t then set_driven (oscDrivenPanes s ∪ {[i]}) s else s.

Definition removeTerminalPaneState (i : Sid) (s : Store) : Store :=
  let s := clearPaneScratch i s in
  match paneStates s !! i with None => s | Some _ => put_panes (delete i (paneStates s)) i s end.

(** ** Events *)

(** An event, with the time and the id its reduction would use. *)
Definition Stamped : Type := Q * text * PaneEvent.

Definition isOscDrivenBoundary (e : PaneEvent) : bool :=
  match e with
  | ev sem_promptStart | ev sem_promptEnd | ev (sem_commandFinish _ _) => true
  | ev (sem_commandStart src _) => bool_decide (src = osc633_boundaries \/ src = osc133_boundaries)
  | ev_start src _ => bool_decide (src = Some osc633_boundaries \/ src = Some osc133_boundaries)
  | _ => false
  end.

Definition ends_typing (e : PaneEvent) : bool :=
  match e with ev sem_promptStart | ev sem_promptEnd | ev (sem_commandStart _ _) | ev_start _ _ => true | _ => false end.

(** The reductions in turn, and whether the state is another object than the first. *)
Fixpoint reduce_all (p : Pane) (changed : bool) (evs : list Stamped) : Pane * bool :=
  match evs with
  | [] => (p, changed)
  | (now, newId, e) :: evs =>
      match reduce now newId p e with Some q => reduce_all q true evs | None => reduce_all p changed evs end
  end.

(** Authentic boundaries put the pane in its shell's hands. *)
Definition promote (i : Sid) (evs : list Stamped) (keystrokeHeuristic : bool) (s : Store) : Store :=
  if negb keystrokeHeuristic && negb (isPaneOscDriven i s) && existsb (fun e => isOscDrivenBoundary e.2) evs
  then set_driven (oscDrivenPanes s ∪ {[i]}) s else s.

(** What was typed, or shown, before a boundary is over. *)
Definition end_typing (i : Sid) (evs : list Stamped) (s : Store) : Store :=
  if existsb (fun e => ends_typing e.2) evs
  then set_buffers (delete i (promptOutputBuffers s)) (set_submit (delete i (promptSubmitStates s)) s) else s.

Definition applyTerminalSemanticEvents (i : Sid) (evs : list Stamped) (keystrokeHeuristic : bool) (s : Store) : Store :=
  match evs with
  | [] => s
  | _ =>
      let s := end_typing i evs (promote i evs keystrokeHeuristic s) in
      let '(next, changed) := reduce_all (getTerminalPaneState i s) false evs in
      if negb changed && bool_decide (is_Some (paneStates s !! i)) then s else put_pane i next s
  end.

Definition recordTerminalUserInput (now : Q) (newId : text) (i : Sid) (input : text) (readLine : option text) (s : Store) : Store :=
  if bool_decide (input = []) then s
  else if isPaneOscDriven i s then s
  else match currentCommand (getTerminalPaneState i s) with
  | Some _ => s
  | None =>
      let '(next, submitted) := detectPromptSubmit (default createPromptSubmitState (promptSubmitStates s !! i)) input in
      let s := set_submit (<[i := next]> (promptSubmitStates s)) s in
      if negb submitted then s
      else match nonempty_line readLine, promptShapes s !! i with
      | Some line, Some shape =>
          match extractCommand line shape with
          | Some command => applyTerminalSemanticEvents i [(now, newId, ev (sem_commandLine command)); (now, newId, ev_start (Some user_input) None)] false
                              (recordToolDirty i None s)
          | None => s
          end
      | _, _ => s
      end
  end.

Definition cwdFromManualPath (path : text) (now : Z) : option Cwd := cwdFromDecodedPath path cwd_manual now.
Definition cwdFromProcessPath (path : text) (now : Z) : option Cwd := cwdFromDecodedPath path cwd_process now.

(** [path ? cwdFrom…(path) : null]. *)
Definition cwd_of (path : option text) (read : text -> option Cwd) : option Cwd :=
  match nonempty_line path with Some path => read path | None => None end.

Definition seedLaunchedCommand (now : Z) (newId : text) (i : Sid) (command : text) (cwdPath : option text) (s : Store) : Store :=
  let at_ e := (inject_Z now, newId, e) in
  let seed := match cwd_of cwdPath (fun path => cwdFromManualPath path now) with Some c => [at_ (ev (sem_cwd c))] | None => [] end in
  applyTerminalSemanticEvents i (seed ++ [at_ (ev (sem_commandLine command)); at_ (ev_start (Some user_input) None)]) false
    (recordToolDirty i None s).

(** ** Output *)

(** [text.slice(-n)]. *)
Definition last_units (n : nat) (t : text) : text := drop (length t - n) t.

Definition PROMPT_WINDOW : nat := 1024.

(** [if (shape) promptShapes.set(id, shape)]. *)
Definition learn_shape (i : Sid) (promptLine : text) (s : Store) : Store :=
  match derivePromptShape promptLine with Some shape => set_shapes (<[i := shape]> (promptShapes s)) s | None => s end.

Definition typed_command (i : Sid) (s : Store) : bool :=
  match paneStates s !! i with
  | Some p => match currentCommand p with Some c => bool_decide (source c = user_input) | None => false end
  | None => false
  end.

Definition recordTerminalOutput (now : Q) (newId : text) (i : Sid) (output : text) (s : Store) : Store :=
  if bool_decide (output = []) then s
  else
    let '(visible, filter) := alt_process (default new_alt_filter (promptAltScreenFilters s !! i)) output in
    let s := set_filters (<[i := filter]> (promptAltScreenFilters s)) s in
    if bool_decide (visible = []) then s
    else
      let buffer := last_units PROMPT_WINDOW (default [] (promptOutputBuffers s !! i) ++ visible) in
      let s := set_buffers (<[i := buffer]> (promptOutputBuffers s)) s in
      match detectReturnedShellPrompt buffer with
      | None => s
      | Some promptLine =>
          if bool_decide (promptLine = []) then s
          else
            let s := learn_shape i promptLine (set_buffers (delete i (promptOutputBuffers s)) s) in
            if typed_command i s
            then applyTerminalSemanticEvents i [(now, newId, ev sem_promptStart); (now, newId, ev sem_promptEnd)] true s
            else s
      end.

Definition seedPromptShapeFromScrollback (i : Sid) (scrollback : text) (s : Store) : Store :=
  if bool_decide (scrollback = []) then s
  else
    let shown := (filter_process Ground (last_units (Z.to_nat 65536) scrollback)).1 in
    let '(visible, filter) := alt_process new_alt_filter shown in
    let s := set_filters (<[i := filter]> (promptAltScreenFilters s)) s in
    match detectReturnedShellPrompt (last_units PROMPT_WINDOW visible) with
    | None => s
    | Some promptLine => if bool_decide (promptLine = []) then s else learn_shape i promptLine s
    end.

(** ** Titles and directories *)

Inductive SetTerminalUserTitleResult := accepted | refused_empty | refused_reserved.

Definition isReservedUserTitle (trimmed : text) : bool := bool_decide (trimmed = DEFAULT_IDLE_TITLE) || starts_with DEFAULT_IDLE_TITLE trimmed.

Definition setTerminalUserTitle (now : Q) (newId : text) (i : Sid) (t : text) (s : Store) : SetTerminalUserTitleResult * Store :=
  let trimmed := trim t in
  if bool_decide (trimmed = []) then (refused_empty, s)
  else if isReservedUserTitle trimmed then (refused_reserved, s)
  else (accepted, applyTerminalSemanticEvents i [(now, newId, ev (sem_title trimmed title_user now))] false s).

Definition seedTerminalManualCwd (now : Z) (i : Sid) (path : option text) (s : Store) : Store :=
  match cwd_of path (fun path => cwdFromManualPath path now) with
  | None => ensureTerminalPaneState i createTerminalPaneState s
  | Some c =>
      match paneStates s !! i with
      | None => ensureTerminalPaneState i (with_cwd (Some c) createTerminalPaneState) s
      | Some current => match cwd current with Some _ => s | None => put_pane i (with_cwd (Some c) current) s end
      end
  end.

Definition updateCwdIfAllowed (i : Sid) (c : Cwd) (s : Store) : Store :=
  match paneStates s !! i with
  | None => s
  | Some current => if processCwdMayReplace (option_map cwdSource (cwd current)) then put_pane i (with_cwd (Some c) current) s else s
  end.

Definition fillTerminalProcessCwd (now : Z) (i : Sid) (path : option text) (s : Store) : Store :=
  match cwd_of path (fun path => cwdFromProcessPath path now) with Some c => updateCwdIfAllowed i c s | None => s end.

(** ** The operations, as one step *)

Inductive Op :=
  | op_snapshot
  | op_ensure (initial : Pane)
  | op_reset (initial : Pane)
  | op_restore (t : TransferredTerminalState)
  | op_remove
  | op_events (evs : list Stamped) (keystrokeHeuristic : bool)
  | op_input (now : Q) (newId input : text) (readLine : option text)
  | op_seedCommand (now : Z) (newId command : text) (cwdPath : option text)
  | op_output (now : Q) (newId output : text)
  | op_scrollback (scrollback : text)
  | op_userTitle (now : Q) (newId t : text)
  | op_manualCwd (now : Z) (path : option text)
  | op_processCwd (now : Z) (path : option text)
  | op_dirty (value : option bool).

Definition step (i : Sid) (o : Op) (s : Store) : Store :=
  match o with
  | op_snapshot => (getTerminalPaneStateSnapshot s).2
  | op_ensure initial => ensureTerminalPaneState i initial s
  | op_reset initial => resetTerminalPaneState i initial s
  | op_restore t => restoreTransferredTerminalState i t s
  | op_remove => removeTerminalPaneState i s
  | op_events evs heuristic => applyTerminalSemanticEvents i evs heuristic s
  | op_input now newId input readLine => recordTerminalUserInput now newId i input readLine s
  | op_seedCommand now newId command cwdPath => seedLaunchedCommand now newId i command cwdPath s
  | op_output now newId output => recordTerminalOutput now newId i output s
  | op_scrollback scrollback => seedPromptShapeFromScrollback i scrollback s
  | op_userTitle now newId t => (setTerminalUserTitle now newId i t s).2
  | op_manualCwd now path => seedTerminalManualCwd now i path s
  | op_processCwd now path => fillTerminalProcessCwd now i path s
  | op_dirty value => recordToolDirty i value s
  end.

Definition run_ops (ops : list (Sid * Op)) (s : Store) : Store := fold_left (fun s o => step o.1 o.2 s) ops s.

(** ** Which parts of the store an operation moves *)

Definition submit_ok (p : PromptSubmitState) : Prop := (length (default [] (pendingMarker p)) <= 5)%nat.
Definition filter_ok (f : AltFilter) : Prop := 0 <= parameter f <= 1050.

Lemma short_of_marker m t : length m = 6%nat -> starts_with t m = true -> starts_with m t = false -> (length t <= 5)%nat.
Proof.
  intros Hm (r & E)%starts_with_split Hn. pose proof (f_equal length E) as El. rewrite length_app in El.
  destruct r as [|c r]; [|cbn in El; lia]. rewrite app_nil_r in E. subst m.
  apply not_true_iff_false in Hn. destruct Hn. apply starts_with_split. exists []. by rewrite app_nil_r.
Qed.

Lemma detect_pending_short n p b t : submit_ok (detect n p b t).1.
Proof.
  revert n p b. induction t as [|c t IH]; intros n p b; [unfold submit_ok; cbn; lia|].
  destruct n as [|n]; [|apply (IH n)]. rewrite detect_unit.
  destruct (starts_with BRACKETED_PASTE_START (c :: t)) eqn:E1; [apply IH|]. destruct (starts_with BRACKETED_PASTE_END (c :: t)) eqn:E2; [apply IH|].
  destruct (_ || _) eqn:E3; [|apply IH]. unfold submit_ok. cbn [fst pendingMarker default].
  apply orb_true_iff in E3 as [E3|E3]; [by apply (short_of_marker BRACKETED_PASTE_START)|by apply (short_of_marker BRACKETED_PASTE_END)].
Qed.

Lemma detect_pending s input : submit_ok (detectPromptSubmit s input).1.
Proof. apply detect_pending_short. Qed.

Section moves.
  Context (good : Pane -> Prop) (i : Sid).

(** Each operation is a run of small moves on its own id, so what the moves keep
    every operation keeps; [good] is what is asked of the states they set. *)
Inductive move : Store -> Store -> Prop :=
  | move_snapshot s : move s (getTerminalPaneStateSnapshot s).2
  | move_dirty v s : move s (recordToolDirty i v s)
  | move_submit p s : submit_ok p -> move s (set_submit (<[i := p]> (promptSubmitStates s)) s)
  | move_shape shape s : move s (set_shapes (<[i := shape]> (promptShapes s)) s)
  | move_buffer t s : (length t <= PROMPT_WINDOW)%nat -> move s (set_buffers (<[i := t]> (promptOutputBuffers s)) s)
  | move_filter f t s : f = new_alt_filter \/ promptAltScreenFilters s !! i = Some f ->
      move s (set_filters (<[i := (alt_process f t).2]> (promptAltScreenFilters s)) s)
  | move_typing s : move s (set_buffers (delete i (promptOutputBuffers s)) (set_submit (delete i (promptSubmitStates s)) s))
  | move_prompted s : move s (set_buffers (delete i (promptOutputBuffers s)) s)
  | move_scratch s : move s (clearPaneScratch i s)
  | move_driven s : move s (set_driven (oscDrivenPanes s ∪ {[i]}) s)
  | move_pane p s : good p -> move s (put_pane i p s)
  | move_gone s : move s (put_panes (delete i (paneStates s)) i s).

(** What is asked of the states an operation is given. *)
Definition op_good (o : Op) : Prop :=
  match o with op_ensure p | op_reset p => good p | op_restore t => good (pane t) | _ => True end.

Definition panes_good (s : Store) : Prop := map_Forall (fun _ p => good p) (paneStates s).

Context (good_initial : good createTerminalPaneState) (good_reduce : forall now newId p e q, reduce now newId p e = Some q -> good p -> good q)
  (good_cwd : forall c p, good p -> good (with_cwd c p)).

Lemma reduce_all_good evs p b : good p -> good (reduce_all p b evs).1.
Proof.
  revert p b. induction evs as [|[[now newId] e] evs IH]; intros p b Hp; [done|]. cbn [reduce_all].
  destruct (reduce now newId p e) eqn:E; [by eapply IH, good_reduce|by apply IH].
Qed.

Lemma state_good s : panes_good s -> good (getTerminalPaneState i s).
Proof. intros H. unfold getTerminalPaneState. destruct (paneStates s !! i) eqn:E; [by apply (H i)|done]. Qed.

Lemma promote_moves evs h s : rtc move s (promote i evs h s).
Proof. unfold promote. destruct (_ && _ && _); [apply rtc_once, move_driven|done]. Qed.

Lemma end_typing_moves evs s : rtc move s (end_typing i evs s).
Proof. unfold end_typing. destruct (existsb _ _); [apply rtc_once, move_typing|done]. Qed.

Lemma set_pane_moves evs s : panes_good s ->
  rtc move s (let '(next, changed) := reduce_all (getTerminalPaneState i s) false evs in
    if negb changed && bool_decide (is_Some (paneStates s !! i)) then s else put_pane i next s).
Proof.
  intros Hs. pose proof (reduce_all_good evs _ false (state_good s Hs)) as Hg. destruct (reduce_all _ _ _) as [next changed].
  destruct (_ && _); [done|]. by apply rtc_once, move_pane.
Qed.

Lemma events_moves evs h s : panes_good s -> rtc move s (applyTerminalSemanticEvents i evs h s).
Proof.
  intros Hs. unfold applyTerminalSemanticEvents. destruct evs as [|e evs]; [done|].
  etransitivity; [apply promote_moves|]. etransitivity; [apply end_typing_moves|]. apply set_pane_moves.
  unfold end_typing, promote. by destruct (existsb (fun e => ends_typing e.2) _), (_ && _ && _).
Qed.

Lemma reset_moves p s : good p -> rtc move s (resetTerminalPaneState i p s).
Proof. intros Hp. eapply rtc_l; [apply move_scratch|]. by apply rtc_once, move_pane. Qed.

Lemma ensure_moves p s : good p -> rtc move s (ensureTerminalPaneState i p s).
Proof. intros Hp. unfold ensureTerminalPaneState. destruct (paneStates s !! i); [done|]. by apply rtc_once, move_pane. Qed.

Lemma learn_moves t s : rtc move s (learn_shape i t s).
Proof. unfold learn_shape. destruct (derivePromptShape t); [apply rtc_once, move_shape|done]. Qed.

Lemma last_units_length n t : (length (last_units n t) <= n)%nat.
Proof. unfold last_units. rewrite length_drop. lia. Qed.

Lemma input_moves now newId input line s : panes_good s -> rtc move s (recordTerminalUserInput now newId i input line s).
Proof.
  intros Hs. unfold recordTerminalUserInput. case_bool_decide; [done|]. destruct (isPaneOscDriven i s); [done|].
  destruct (currentCommand (getTerminalPaneState i s)); [done|].
  pose proof (detect_pending (default createPromptSubmitState (promptSubmitStates s !! i)) input) as Hp.
  destruct (detectPromptSubmit _ _) as [next submitted]. eapply rtc_l; [by apply (move_submit next)|].
  destruct submitted; [|done]. cbn [negb]. destruct (nonempty_line line); [|done]. match goal with |- context [promptShapes ?x !! i] => destruct (promptShapes x !! i) end; [|done].
  destruct (extractCommand _ _); [|done]. eapply rtc_l; [apply (move_dirty None)|]. apply events_moves.
  unfold panes_good, recordToolDirty. by case_bool_decide.
Qed.

Lemma output_moves now newId output s : panes_good s -> rtc move s (recordTerminalOutput now newId i output s).
Proof.
  intros Hs. unfold recordTerminalOutput. case_bool_decide; [done|].
  pose proof (move_filter (default new_alt_filter (promptAltScreenFilters s !! i)) output s) as Hf.
  destruct (alt_process _ _) as [visible f]. eapply rtc_l; [apply Hf; destruct (promptAltScreenFilters s !! i); auto|]. clear Hf.
  case_bool_decide; [done|]. eapply rtc_l; [eapply move_buffer, last_units_length|].
  destruct (detectReturnedShellPrompt _) as [line|]; [|done]. case_bool_decide; [done|].
  etransitivity; [|etransitivity; [apply (learn_moves line)|]]; [apply rtc_once, (move_prompted)|].
  destruct (typed_command _ _); [|done]. apply events_moves. unfold panes_good, learn_shape. by destruct (derivePromptShape line).
Qed.

Lemma scrollback_moves scrollback s : rtc move s (seedPromptShapeFromScrollback i scrollback s).
Proof.
  unfold seedPromptShapeFromScrollback. case_bool_decide; [done|].
  pose proof (move_filter new_alt_filter (filter_process Ground (last_units (Z.to_nat 65536) scrollback)).1 s) as Hf.
  destruct (alt_process _ _) as [visible f]. eapply rtc_l; [apply Hf; auto|].
  destruct (detectReturnedShellPrompt _) as [line|]; [|done]. case_bool_decide; [done|]. apply learn_moves.
Qed.

Lemma manual_moves now path s : panes_good s -> rtc move s (seedTerminalManualCwd now i path s).
Proof.
  intros Hs. unfold seedTerminalManualCwd. destruct (cwd_of _ _) as [c|]; [|by apply ensure_moves].
  destruct (paneStates s !! i) as [p|] eqn:E; [|by apply ensure_moves, good_cwd].
  destruct (cwd p); [done|]. apply rtc_once, move_pane, good_cwd. by apply (Hs i).
Qed.

Lemma process_moves now path s : panes_good s -> rtc move s (fillTerminalProcessCwd now i path s).
Proof.
  intros Hs. unfold fillTerminalProcessCwd, updateCwdIfAllowed. destruct (cwd_of _ _) as [c|]; [|done].
  destruct (paneStates s !! i) as [p|] eqn:E; [|done].
  destruct (processCwdMayReplace _); [|done]. apply rtc_once, move_pane, good_cwd. by apply (Hs i).
Qed.

Lemma step_moves o s : panes_good s -> op_good o -> rtc move s (step i o s).
Proof.
  intros Hs Ho. destruct o; cbn [step op_good] in *; try by eauto using ensure_moves, reset_moves, events_moves, input_moves, output_moves, scrollback_moves, manual_moves, process_moves.
  - apply rtc_once, move_snapshot.
  - unfold restoreTransferredTerminalState. etransitivity; [by apply reset_moves|]. destruct (oscDriven t); [apply rtc_once, move_driven|done].
  - eapply rtc_l; [apply move_scratch|]. unfold removeTerminalPaneState. destruct (paneStates _ !! i); [apply rtc_once, move_gone|done].
  - eapply rtc_l; [apply (move_dirty None)|]. apply events_moves. unfold panes_good, recordToolDirty. by case_bool_decide.
  - unfold setTerminalUserTitle. case_bool_decide; [done|]. destruct (isReservedUserTitle _); [done|]. by apply events_moves.
  - apply rtc_once, move_dirty.
Qed.

End moves.

(** ** What every operation keeps *)

Lemma with_cwd_ok c p : pane_ok p -> pane_ok (with_cwd c p).
Proof. intros Hp. by destruct Hp; split. Qed.

Lemma reduce_some_ok now newId p e q : reduce now newId p e = Some q -> pane_ok p -> pane_ok q.
Proof. intros E Hp. pose proof (reduce_ok now newId p e Hp) as H. unfold reduceTerminalState in H. by rewrite E in H. Qed.

(** The store as its own code relies on it: consistent panes, a cached snapshot
    that is current, and little retained of what was typed or shown. *)
Record store_ok (s : Store) : Prop := {
  ok_panes : map_Forall (fun _ p => pane_ok p) (paneStates s);
  ok_snapshot : forall m, cachedSnapshot s = Some m -> m = paneStates s;
  ok_submits : map_Forall (fun _ p => submit_ok p) (promptSubmitStates s);
  ok_buffers : map_Forall (fun _ t => (length t <= PROMPT_WINDOW)%nat) (promptOutputBuffers s);
  ok_filters : map_Forall (fun _ f => filter_ok f) (promptAltScreenFilters s)
}.

Lemma new_store_ok : store_ok new_store.
Proof. by split; try apply map_Forall_empty. Qed.

Lemma alt_control_ok c f : filter_ok f -> filter_ok (alt_control c f).1.
Proof. unfold filter_ok, alt_control, is_digit_unit. intros Hf. repeat case_match; cbn; lia. Qed.

Lemma alt_units_ok f t : filter_ok f -> filter_ok (alt_units f t).2.
Proof.
  revert f. induction t as [|c t IH]; intros f Hf; [done|]. cbn [alt_units].
  assert (H1 : filter_ok (alt_unit f c).2).
  { unfold alt_unit. destruct (_ && _); [done|]. pose proof (alt_control_ok c f Hf) as H. by destruct (alt_control c f). }
  destruct (alt_unit f c) as [out f']. specialize (IH f' H1). by destruct (alt_units f' t).
Qed.

Lemma alt_process_ok f t : filter_ok f -> filter_ok (alt_process f t).2.
Proof.
  intros Hf. unfold alt_process. rewrite alt_loop_units by done. pose proof (alt_units_ok f t Hf) as H. by destruct (alt_units f t).
Qed.

Lemma dirty_keeps v i s : exists d l, recordToolDirty i v s =
  mkStore (paneStates s) (promptSubmitStates s) (promptShapes s) (promptOutputBuffers s) (promptAltScreenFilters s) (oscDrivenPanes s) (cachedSnapshot s) d l.
Proof. unfold recordToolDirty. case_bool_decide; [|by do 2 eexists]. exists (dirty s), (told s). by destruct s. Qed.

Lemma move_ok i s s' : move pane_ok i s s' -> store_ok s -> store_ok s'.
Proof.
  intros Hm Hs. pose proof Hs as [H1 H2 H3 H4 H5].
  destruct Hm as [s|v s|p s Hp|shape s|t s Ht|f t s Hf|s|s|s|s|p s Hp|s].
  - unfold getTerminalPaneStateSnapshot. destruct (cachedSnapshot s) as [m|] eqn:E; [done|].
    split; [done| |done..]. cbn. intros m [= ->]. done.
  - destruct (dirty_keeps v i s) as (d & l & ->). by split.
  - split; try done. by apply map_Forall_insert_2.
  - by split.
  - split; try done. by apply map_Forall_insert_2.
  - split; try done. apply map_Forall_insert_2; [|done]. apply alt_process_ok. destruct Hf as [->|Hf]; [unfold filter_ok; cbn; lia|by apply (H5 i)].
  - split; try done; by apply map_Forall_delete.
  - split; try done; by apply map_Forall_delete.
  - split; try done; by apply map_Forall_delete.
  - by split.
  - split; [by apply map_Forall_insert_2|done..].
  - split; [by apply map_Forall_delete|done..].
Qed.

Lemma step_ok i o s : store_ok s -> op_good pane_ok o -> store_ok (step i o s).
Proof.
  intros Hs Ho. assert (Hm : rtc (move pane_ok i) s (step i o s)) by (apply step_moves; eauto using initial_ok, reduce_some_ok, with_cwd_ok; apply Hs).
  clear Ho. induction Hm as [|s s1 s2 H1 _ IH]; [done|]. by eapply IH, move_ok.
Qed.

(** C19. Whatever operations a store has been through, every pane is consistent, a
    cached snapshot is the current state, and what the heuristic retains of each
    pane is bounded: five units of a paste marker, a window of output, and a
    parameter that stops growing. *)
Theorem stores_consistent ops : Forall (fun o => op_good pane_ok o.2) ops -> store_ok (run_ops ops new_store).
Proof.
  intros Ho. unfold run_ops. pose proof new_store_ok as Hs. revert Hs. generalize new_store.
  induction Ho as [|o ops Hg _ IH]; intros s Hs; [done|]. by apply IH, step_ok.
Qed.

(** ** What an operation leaves alone *)

Definition told_of (i : Sid) (t : Told) : Prop := t = pane_changed i \/ t = dirty_changed.

(** From [s] to [s'] the store moved at [i] only, and told of what it moved. *)
Record local_to (i : Sid) (s s' : Store) : Prop := {
  same_panes : forall j, j <> i -> paneStates s' !! j = paneStates s !! j;
  same_scratch : forall j, j <> i -> promptSubmitStates s' !! j = promptSubmitStates s !! j /\ promptShapes s' !! j = promptShapes s !! j /\
    promptOutputBuffers s' !! j = promptOutputBuffers s !! j /\ promptAltScreenFilters s' !! j = promptAltScreenFilters s !! j /\
    (j ∈ oscDrivenPanes s' <-> j ∈ oscDrivenPanes s) /\ dirty s' !! j = dirty s !! j;
  told_more : exists l, told s' = told s ++ l /\ Forall (told_of i) l /\
    (pane_changed i ∉ l -> paneStates s' = paneStates s /\ forall m, cachedSnapshot s = Some m -> cachedSnapshot s' = Some m) /\
    (dirty_changed ∉ l -> dirty s' = dirty s)
}.

Lemma local_refl i s : local_to i s s.
Proof. split; [done|done|]. exists []. rewrite app_nil_r. split_and!; by try constructor. Qed.

Lemma local_trans i s1 s2 s3 : local_to i s1 s2 -> local_to i s2 s3 -> local_to i s1 s3.
Proof.
  intros [P1 Q1 (l1 & T1 & F1 & C1 & D1)] [P2 Q2 (l2 & T2 & F2 & C2 & D2)]. split.
  - intros j Hj. by rewrite P2, P1.
  - intros j Hj. destruct (Q1 j Hj) as (A1 & A2 & A3 & A4 & A5 & A6), (Q2 j Hj) as (B1 & B2 & B3 & B4 & B5 & B6).
    split_and!; [congruence..|tauto|congruence].
  - exists (l1 ++ l2). rewrite T2, T1, app_assoc. split_and!; [done|by apply Forall_app|..].
    + rewrite elem_of_app. intros Hn. destruct C1 as [E1 M1]; [tauto|]. destruct C2 as [E2 M2]; [tauto|]. split; [congruence|eauto].
    + rewrite elem_of_app. intros Hn. rewrite D2, D1; tauto.
Qed.

Lemma local_quiet i s s' : paneStates s' = paneStates s -> cachedSnapshot s' = cachedSnapshot s -> dirty s' = dirty s -> told s' = told s ->
  (forall j, j <> i -> promptSubmitStates s' !! j = promptSubmitStates s !! j /\ promptShapes s' !! j = promptShapes s !! j /\
    promptOutputBuffers s' !! j = promptOutputBuffers s !! j /\ promptAltScreenFilters s' !! j = promptAltScreenFilters s !! j /\
    (j ∈ oscDrivenPanes s' <-> j ∈ oscDrivenPanes s)) -> local_to i s s'.
Proof.
  intros E1 E2 E3 E4 H. split; [by rewrite E1|intros j Hj; destruct (H j Hj) as (?&?&?&?&?); by rewrite E3|].
  exists []. rewrite app_nil_r. split_and!; [done|by constructor|by rewrite E2|done].
Qed.

Lemma local_put i m s : (forall j, j <> i -> m !! j = paneStates s !! j) -> local_to i s (put_panes m i s).
Proof.
  intros Hm. split; [done|done|]. exists [pane_changed i]. split_and!; [done|by repeat constructor|intros Hn; destruct Hn; by left|done].
Qed.

Lemma local_dirty i v s : local_to i s (recordToolDirty i v s).
Proof.
  unfold recordToolDirty. case_bool_decide; [apply local_refl|]. split; cbn; [done| |].
  - intros j Hj. split_and!; try done. destruct v; by rewrite ?lookup_insert_ne, ?lookup_delete_ne.
  - exists [dirty_changed]. split_and!; [done|constructor; [by right|constructor]|done|intros Hn; destruct Hn; by left].
Qed.

Lemma move_local good i s s' : move good i s s' -> local_to i s s'.
Proof.
  intros Hm. destruct Hm as [s|v s|p s Hp|shape s|t s Ht|f t s Hf|s|s|s|s|p s Hp|s].
  - unfold getTerminalPaneStateSnapshot. destruct (cachedSnapshot s) as [m|] eqn:E; [apply local_refl|].
    split; [done|done|]. exists []. rewrite app_nil_r. cbn. rewrite E. split_and!; [done|by constructor|done|done].
  - apply local_dirty.
  - apply local_quiet; try done. intros j Hj. cbn. by rewrite lookup_insert_ne.
  - apply local_quiet; try done. intros j Hj. cbn. by rewrite lookup_insert_ne.
  - apply local_quiet; try done. intros j Hj. cbn. by rewrite lookup_insert_ne.
  - apply local_quiet; try done. intros j Hj. cbn. by rewrite lookup_insert_ne.
  - apply local_quiet; try done. intros j Hj. cbn. by rewrite !lookup_delete_ne.
  - apply local_quiet; try done. intros j Hj. cbn. by rewrite lookup_delete_ne.
  - apply local_quiet; try done. intros j Hj. cbn. rewrite !lookup_delete_ne by done. set_solver.
  - apply local_quiet; try done. intros j Hj. cbn. set_solver.
  - apply local_put. intros j Hj. by rewrite lookup_insert_ne.
  - apply local_put. intros j Hj. by rewrite lookup_delete_ne.
Qed.

Lemma step_local i o s : local_to i s (step i o s).
Proof.
  assert (Hm : rtc (move (fun _ => True) i) s (step i o s)) by (apply step_moves; [done..|by intros ? ? ?|by destruct o]).
  induction Hm as [|s1 s2 s3 H1 _ IH]; [apply local_refl|]. eapply local_trans; [by eapply move_local|done].
Qed.

(** An operation on a pane moves nothing of another's; and unless it tells its
    listeners that its pane moved, every state and the cached snapshot are the
    very ones they were. *)
Theorem operations_local i o s : local_to i s (step i o s).
Proof. apply step_local. Qed.

(** ** Who speaks for a pane *)

(** Which panes are in their shell's hands after an operation on [i]. *)
Definition driven_after (i : Sid) (o : Op) (j : Sid) (s : Store) : Prop :=
  match o with
  | op_events evs heuristic => j ∈ oscDrivenPanes s \/ j = i /\ heuristic = false /\ existsb (fun e => isOscDrivenBoundary e.2) evs = true
  | op_reset _ | op_remove => j ∈ oscDrivenPanes s /\ j <> i
  | op_restore t => if oscDriven t then j = i \/ j ∈ oscDrivenPanes s else j ∈ oscDrivenPanes s /\ j <> i
  | _ => j ∈ oscDrivenPanes s
  end.

Lemma events_driven i evs h j s :
  j ∈ oscDrivenPanes (applyTerminalSemanticEvents i evs h s) <-> driven_after i (op_events evs h) j s.
Proof.
  unfold applyTerminalSemanticEvents, driven_after. destruct evs as [|e evs]; [cbn; naive_solver|]. set (l := e :: evs).
  transitivity (j ∈ oscDrivenPanes (promote i l h s)).
  { assert (E : oscDrivenPanes (end_typing i l (promote i l h s)) = oscDrivenPanes (promote i l h s)) by (unfold end_typing; by destruct (existsb _ _)).
    rewrite <- E. destruct (reduce_all _ _ _) as [next changed]. by destruct (_ && _). }
  unfold promote, isPaneOscDriven. destruct h; cbn [negb andb]; [naive_solver|]. case_bool_decide as Hd; cbn [negb andb]; [naive_solver|].
  match goal with |- context [existsb ?f l] => destruct (existsb f l) end; [cbn; set_solver|naive_solver].
Qed.

Lemma dirty_driven i v s : oscDrivenPanes (recordToolDirty i v s) = oscDrivenPanes s.
Proof. by destruct (dirty_keeps v i s) as (d & l & ->). Qed.

Lemma learn_driven i t s : oscDrivenPanes (learn_shape i t s) = oscDrivenPanes s.
Proof. unfold learn_shape. by destruct (derivePromptShape t). Qed.

Lemma input_driven i now newId input line j s :
  j ∈ oscDrivenPanes (recordTerminalUserInput now newId i input line s) <-> j ∈ oscDrivenPanes s.
Proof.
  unfold recordTerminalUserInput. case_bool_decide; [done|]. destruct (isPaneOscDriven i s); [done|].
  destruct (currentCommand _); [done|]. destruct (detectPromptSubmit _ _) as [next []]; cbn [negb]; [|done].
  destruct (nonempty_line line); [|done]. cbn [promptShapes set_submit]. destruct (promptShapes s !! i); [|done].
  destruct (extractCommand _ _); [|done]. rewrite events_driven. cbn. rewrite dirty_driven. cbn. naive_solver.
Qed.

Lemma output_driven i now newId output j s :
  j ∈ oscDrivenPanes (recordTerminalOutput now newId i output s) <-> j ∈ oscDrivenPanes s.
Proof.
  unfold recordTerminalOutput. case_bool_decide; [done|]. destruct (alt_process _ _) as [visible f]. case_bool_decide; [done|].
  destruct (detectReturnedShellPrompt _); [|done]. case_bool_decide; [done|].
  destruct (typed_command _ _); [rewrite events_driven; cbn [driven_after]|]; rewrite learn_driven; cbn; naive_solver.
Qed.

(** A pane is in its shell's hands from the first authentic boundary to its
    reset or removal, or as a transferred state says: nothing the heuristic
    synthesizes puts it there.  While it is, typing changes nothing of the
    store. *)
Theorem shell_speaks_for_itself i o j s :
  (j ∈ oscDrivenPanes (step i o s) <-> driven_after i o j s) /\
  (forall now newId input line, i ∈ oscDrivenPanes s -> step i (op_input now newId input line) s = s).
Proof.
  split.
  - destruct o; cbn [step driven_after].
    + unfold getTerminalPaneStateSnapshot. by destruct (cachedSnapshot s).
    + unfold ensureTerminalPaneState. by destruct (_ !! i).
    + cbn. set_solver.
    + unfold restoreTransferredTerminalState. destruct (oscDriven t); cbn; [destruct (decide (j = i)); set_solver|set_solver].
    + unfold removeTerminalPaneState. destruct (paneStates _ !! i); cbn; set_solver.
    + apply events_driven.
    + apply input_driven.
    + unfold seedLaunchedCommand. rewrite events_driven. cbn [driven_after]. rewrite dirty_driven. destruct (cwd_of _ _); cbn; naive_solver.
    + apply output_driven.
    + unfold seedPromptShapeFromScrollback. case_bool_decide; [done|]. destruct (alt_process _ _).
      destruct (detectReturnedShellPrompt _); [|done]. case_bool_decide; [done|]. by rewrite learn_driven.
    + unfold setTerminalUserTitle. case_bool_decide; [done|]. destruct (isReservedUserTitle _); [done|]. cbn [snd]. rewrite events_driven. cbn. naive_solver.
    + unfold seedTerminalManualCwd, ensureTerminalPaneState. repeat case_match; done.
    + unfold fillTerminalProcessCwd, updateCwdIfAllowed. repeat case_match; done.
    + by rewrite dirty_driven.
  - intros now newId input line Hi. cbn [step]. unfold recordTerminalUserInput, isPaneOscDriven.
    rewrite (bool_decide_true (i ∈ _)) by done. by case_bool_decide.
Qed.

(** ** A title the user sets *)

Lemma reduce_all_changed evs p : (reduce_all p true evs).2 = true.
Proof. revert p. induction evs as [|[[now newId] e] evs IH]; intros p; [done|]. cbn. destruct (reduce now newId p e); apply IH. Qed.

Lemma reduce_all_run evs p b : (reduce_all p b evs).1 = run_events p evs /\ ((reduce_all p b evs).2 = false -> run_events p evs = p).
Proof.
  revert p b. induction evs as [|[[now newId] e] evs IH]; intros p b; [done|]. cbn [reduce_all run_events]. unfold reduceTerminalState.
  destruct (reduce now newId p e) as [q|] eqn:E; cbn; [|apply IH]. destruct (IH q true) as [H1 _]. split; [done|]. by rewrite reduce_all_changed.
Qed.

Lemma get_put i p s : getTerminalPaneState i (put_pane i p s) = p.
Proof. unfold getTerminalPaneState. cbn. by rewrite lookup_insert_eq. Qed.

(** A batch takes the pane through its events, in order. *)
Lemma events_pane i evs h s : getTerminalPaneState i (applyTerminalSemanticEvents i evs h s) = run_events (getTerminalPaneState i s) evs.
Proof.
  unfold applyTerminalSemanticEvents. destruct evs as [|e evs]; [done|]. set (l := e :: evs).
  assert (E : getTerminalPaneState i (end_typing i l (promote i l h s)) = getTerminalPaneState i s)
    by (unfold end_typing, promote; by destruct (existsb (fun e => ends_typing e.2) l), (_ && _ && _)).
  destruct (reduce_all_run l (getTerminalPaneState i s) false) as [H1 H2]. rewrite E.
  destruct (reduce_all _ _ _) as [next changed]. cbn [fst snd] in H1, H2. subst next.
  destruct changed; cbn [negb andb]; [apply get_put|]. case_bool_decide; [by rewrite E, H2|apply get_put].
Qed.

(** What may change a title the user set. *)
Definition keeps_title (e : PaneEvent) : bool := match e with ev (sem_title _ title_user _) => false | _ => true end.

Lemma reduce_user_title now newId p e : keeps_title e = true -> userTitle (reduceTerminalState now newId p e) = userTitle p.
Proof.
  unfold reduceTerminalState, userTitle. intros He.
  destruct e as [[c| | |line|src st|exit at_|t src at_]|src st]; cbn [reduce]; unfold at_prompt, start_command.
  - by destruct (match cwd p with Some _ => _ | None => _ end).
  - by destruct (_ && _).
  - by destruct (_ && _).
  - by case_bool_decide.
  - by destruct (resolveCommandStart _ _ _ _ _) as [[[]]].
  - destruct (currentCommand p); [done|]. by destruct (sameActivity _ _).
  - destruct (match candidate_get _ _ with Some _ => _ | None => _ end); [done|]. cbn. rewrite candidate_get_set. by destruct src.
  - by destruct (resolveCommandStart _ _ _ _ _) as [[[]]].
Qed.

Lemma run_user_title evs p : Forall (fun e => keeps_title e.2 = true) evs -> userTitle (run_events p evs) = userTitle p.
Proof.
  intros He. revert p. induction He as [|[[now newId] e] evs He _ IH]; intros p; [done|]. cbn [run_events]. rewrite IH. by apply reduce_user_title.
Qed.

(** The operations that leave a title alone, on its own pane. *)
Definition leaves_title (o : Op) : Prop :=
  match o with
  | op_reset _ | op_restore _ | op_remove | op_userTitle _ _ _ => False
  | op_events evs _ => Forall (fun e => keeps_title e.2 = true) evs
  | _ => True
  end.

Lemma events_title i evs h s : Forall (fun e => keeps_title e.2 = true) evs ->
  userTitle (getTerminalPaneState i (applyTerminalSemanticEvents i evs h s)) = userTitle (getTerminalPaneState i s).
Proof. intros He. rewrite events_pane. by apply run_user_title. Qed.

Lemma same_pane i s s' : paneStates s' = paneStates s -> getTerminalPaneState i s' = getTerminalPaneState i s.
Proof. unfold getTerminalPaneState. by intros ->. Qed.

Lemma dirty_pane i j v s : getTerminalPaneState i (recordToolDirty j v s) = getTerminalPaneState i s.
Proof. by destruct (dirty_keeps v j s) as (d & l & ->). Qed.

Lemma learn_pane i j t s : getTerminalPaneState i (learn_shape j t s) = getTerminalPaneState i s.
Proof. unfold learn_shape. by destruct (derivePromptShape t). Qed.

(** Typing is nothing to a pane, or a command line and its start. *)
Lemma input_pane i now newId input line s :
  getTerminalPaneState i (recordTerminalUserInput now newId i input line s) = getTerminalPaneState i s \/
  exists command, getTerminalPaneState i (recordTerminalUserInput now newId i input line s) =
    run_events (getTerminalPaneState i s) [(now, newId, ev (sem_commandLine command)); (now, newId, ev_start (Some user_input) None)].
Proof.
  unfold recordTerminalUserInput. case_bool_decide; [by left|]. destruct (isPaneOscDriven i s); [by left|].
  destruct (currentCommand _); [by left|]. destruct (detectPromptSubmit _ _) as [next []]; cbn [negb]; [|by left].
  destruct (nonempty_line line); [|by left]. cbn [promptShapes set_submit]. destruct (promptShapes s !! i); [|by left].
  destruct (extractCommand _ _) as [command|]; [right|by left]. exists command. by rewrite events_pane, dirty_pane.
Qed.

(** Output is nothing to a pane, or a prompt. *)
Lemma output_pane i now newId output s :
  getTerminalPaneState i (recordTerminalOutput now newId i output s) = getTerminalPaneState i s \/
  getTerminalPaneState i (recordTerminalOutput now newId i output s) =
    run_events (getTerminalPaneState i s) [(now, newId, ev sem_promptStart); (now, newId, ev sem_promptEnd)].
Proof.
  unfold recordTerminalOutput. case_bool_decide; [by left|]. destruct (alt_process _ _) as [visible f]. case_bool_decide; [by left|].
  destruct (detectReturnedShellPrompt _) as [line|]; [|by left]. case_bool_decide; [by left|].
  destruct (typed_command _ _); [right; by rewrite events_pane, learn_pane|left; by rewrite learn_pane].
Qed.

Lemma put_cwd_pane i c p s : paneStates s !! i = Some p ->
  userTitle (getTerminalPaneState i (put_pane i (with_cwd c p) s)) = userTitle (getTerminalPaneState i s).
Proof. intros E. rewrite get_put. unfold getTerminalPaneState. by rewrite E. Qed.

Lemma ensure_title i u p s : userTitle (getTerminalPaneState i s) = Some u ->
  userTitle (getTerminalPaneState i (ensureTerminalPaneState i p s)) = Some u.
Proof.
  unfold ensureTerminalPaneState. destruct (paneStates s !! i) eqn:E; [done|]. unfold getTerminalPaneState. by rewrite E.
Qed.

Lemma step_title i u o s : leaves_title o -> userTitle (getTerminalPaneState i s) = Some u -> userTitle (getTerminalPaneState i (step i o s)) = Some u.
Proof.
  intros Ho Hu. destruct o; cbn [step leaves_title] in *; try done.
  - unfold getTerminalPaneStateSnapshot. by destruct (cachedSnapshot s).
  - by apply ensure_title.
  - by rewrite events_title.
  - destruct (input_pane i now newId input readLine s) as [->|(command & ->)]; [done|]. rewrite run_user_title; [done|]. by repeat constructor.
  - unfold seedLaunchedCommand. rewrite events_title, dirty_pane; [done|]. destruct (cwd_of _ _); by repeat constructor.
  - destruct (output_pane i now newId output s) as [->| ->]; [done|]. rewrite run_user_title; [done|]. by repeat constructor.
  - unfold seedPromptShapeFromScrollback. case_bool_decide; [done|]. destruct (alt_process _ _).
    destruct (detectReturnedShellPrompt _); [|done]. case_bool_decide; [done|]. by rewrite learn_pane.
  - unfold seedTerminalManualCwd. destruct (cwd_of _ _); [|by apply ensure_title].
    destruct (paneStates s !! i) as [p|] eqn:E; [|by apply ensure_title]. destruct (cwd p); [done|]. by rewrite put_cwd_pane.
  - unfold fillTerminalProcessCwd, updateCwdIfAllowed. destruct (cwd_of _ _); [|done].
    destruct (paneStates s !! i) as [p|] eqn:E; [|done]. destruct (processCwdMayReplace _); [|done]. by rewrite put_cwd_pane.
  - by rewrite dirty_pane.
Qed.

Lemma run_title i u ops s : Forall (fun o => o.1 = i -> leaves_title o.2) ops -> userTitle (getTerminalPaneState i s) = Some u ->
  userTitle (getTerminalPaneState i (run_ops ops s)) = Some u.
Proof.
  intros Ho. unfold run_ops. revert s. induction Ho as [|[j o] ops Hj _ IH]; intros s Hs; [done|]. cbn [fold_left fst snd] in *. apply IH.
  destruct (decide (j = i)) as [->|Hn]; [by apply step_title; [apply Hj|]|].
  unfold getTerminalPaneState. by rewrite (same_panes _ _ _ (step_local j o s) i) by done.
Qed.

Lemma user_title_of p x : candidate_get title_user (titleCandidates p) = Some x -> trim (title x) <> [] -> userTitle p = Some (trim (title x)).
Proof. intros E Hx. unfold userTitle. rewrite E. unfold option_map, trimmed_text, nonempty_text. by rewrite bool_decide_false. Qed.

Lemma set_user_title now newId t p : trim t <> [] ->
  userTitle (reduceTerminalState now newId p (ev (sem_title (trim t) title_user now))) = Some (trim t).
Proof.
  intros Ht. rewrite <- (trim_idem t) at 2. unfold reduceTerminalState, reduce.
  destruct (match candidate_get title_user _ with Some _ => _ | None => _ end) eqn:E.
  - destruct (candidate_get title_user (titleCandidates p)) as [old|] eqn:Eo; [|done].
    unfold sameTitle in E. apply andb_true_iff in E as [[Et%bool_decide_eq_true _]%andb_true_iff _]. cbn [title] in Et. rewrite <- Et.
    apply user_title_of; [done|]. by rewrite Et, trim_idem.
  - apply (user_title_of _ (mkPaneTitle (trim t) title_user now)); [|cbn [title]; by rewrite trim_idem].
    change (candidate_get title_user (candidate_set (mkPaneTitle (trim t) title_user now) (titleCandidates p)) = Some (mkPaneTitle (trim t) title_user now)).
    by rewrite candidate_get_set.
Qed.

(** A title is refused where it is blank or begins as an idle header does, and
    nothing changes; one that is accepted is the pane's header, trimmed, and
    stays it through whatever is reported, typed or shown, until the user sets
    another or the pane is reset or removed. *)
Theorem user_title_pinned `{UrlHost} app now newId i t s ops :
  Forall (fun o => o.1 = i -> leaves_title o.2) ops ->
  let '(result, s') := setTerminalUserTitle now newId i t s in
  match result with
  | refused_empty => trim t = [] /\ s' = s
  | refused_reserved => starts_with DEFAULT_IDLE_TITLE (trim t) = true /\ s' = s
  | accepted => trim t <> [] /\ starts_with DEFAULT_IDLE_TITLE (trim t) = false /\
      headerPrimary app (getTerminalPaneState i (run_ops ops s')) = (trim t, false)
  end.
Proof.
  intros Ho. unfold setTerminalUserTitle. case_bool_decide as He; [done|]. unfold isReservedUserTitle.
  destruct (bool_decide (trim t = DEFAULT_IDLE_TITLE)) eqn:E1; cbn [orb].
  { apply bool_decide_eq_true in E1. split; [|done]. rewrite E1. by vm_compute. }
  destruct (starts_with DEFAULT_IDLE_TITLE (trim t)) eqn:E2; [done|]. split_and!; [done..|].
  unfold headerPrimary. rewrite (run_title i (trim t)); [done|done|].
  rewrite events_pane. by apply set_user_title.
Qed.

(** ** A command no shell reported *)

(** The prompt that output, added to what is retained of a pane's, ends with. *)
Definition prompt_shown (i : Sid) (output : text) (s : Store) : option text :=
  let visible := (alt_process (default new_alt_filter (promptAltScreenFilters s !! i)) output).1 in
  if bool_decide (visible = []) then None
  else match detectReturnedShellPrompt (last_units PROMPT_WINDOW (default [] (promptOutputBuffers s !! i) ++ visible)) with
  | Some promptLine => nonempty_text promptLine
  | None => None
  end.

Lemma alt_process_nil f : alt_process f [] = ([], f).
Proof. done. Qed.

Lemma output_prompt i now newId output promptLine s : prompt_shown i output s = Some promptLine ->
  exists s1, paneStates s1 = paneStates s /\ oscDrivenPanes s1 = oscDrivenPanes s /\ promptSubmitStates s1 = promptSubmitStates s /\
    promptShapes s1 = promptShapes (learn_shape i promptLine s) /\
    recordTerminalOutput now newId i output s =
      if typed_command i s1 then applyTerminalSemanticEvents i [(now, newId, ev sem_promptStart); (now, newId, ev sem_promptEnd)] true s1 else s1.
Proof.
  unfold prompt_shown, recordTerminalOutput. destruct (bool_decide (output = [])) eqn:Eo.
  { apply bool_decide_eq_true in Eo as ->. rewrite alt_process_nil. cbn [fst]. rewrite bool_decide_true by done. done. }
  destruct (alt_process _ output) as [visible f]. cbn [fst]. destruct (bool_decide (visible = [])); [done|].
  cbn [promptOutputBuffers set_filters]. destruct (detectReturnedShellPrompt _) as [line|]; [|done].
  unfold nonempty_text. destruct (bool_decide (line = [])); [done|]. intros [= <-].
  match goal with |- context [learn_shape i line (set_buffers ?m ?x)] => exists (learn_shape i line (set_buffers m x)) end.
  unfold learn_shape. by destruct (derivePromptShape line).
Qed.

Lemma typed_same i s s1 : paneStates s1 = paneStates s -> typed_command i s1 = typed_command i s.
Proof. unfold typed_command. by intros ->. Qed.

Lemma trim_end_nonempty promptLine shape : derivePromptShape promptLine = Some shape -> trim_end promptLine <> [].
Proof. unfold derivePromptShape. by destruct (trim_end promptLine). Qed.

Lemma nonempty_line_some t : t <> [] -> nonempty_line (Some t) = Some t.
Proof. intros Ht. cbn. by rewrite bool_decide_false. Qed.

Lemma typed_run now newId command p : command <> [] ->
  exists c, currentCommand (run_events p [(now, newId, ev (sem_commandLine command)); (now, newId, ev_start (Some user_input) None)]) = Some c /\
    rawCommandLine c = Some command /\ displayCommand c = summarizeCommandLine command /\ source c = user_input.
Proof.
  intros Hc. assert (E : pendingCommandLine (reduceTerminalState now newId p (ev (sem_commandLine command))) = Some command)
    by (unfold reduceTerminalState; cbn [reduce]; by case_bool_decide).
  cbn [run_events]. unfold reduceTerminalState at 1. cbn [reduce]. unfold start_command, resolveCommandStart. rewrite E, nonempty_line_some by done.
  by eexists.
Qed.

Lemma typed_by_user i s c : currentCommand (getTerminalPaneState i s) = Some c -> source c = user_input -> typed_command i s = true.
Proof.
  unfold getTerminalPaneState, typed_command. destruct (paneStates s !! i) as [p|]; [|done]. cbn. intros -> Hs. by apply bool_decide_eq_true.
Qed.

Lemma at_prompt_spec a p : activity (default p (at_prompt a p)) = a /\ currentCommand (default p (at_prompt a p)) = None.
Proof.
  unfold at_prompt. destruct (bool_decide (activity p = a) && _ && _) eqn:E; [|done]. cbn.
  apply andb_true_iff in E as [[Ha%bool_decide_eq_true _]%andb_true_iff Hc]. split; [done|]. by destruct (currentCommand p).
Qed.

Lemma prompt_ends now newId p :
  let q := run_events p [(now, newId, ev sem_promptStart); (now, newId, ev sem_promptEnd)] in activity q = editing /\ currentCommand q = None.
Proof. apply at_prompt_spec. Qed.

(** A shell that reports nothing is still followed: once output has shown a
    prompt, the line submitted at it runs the command after that prompt, whatever
    was typed to get it there, as a command of the user's; and when output shows
    a prompt again the command is over. *)
Theorem typed_command_runs now newId i out input promptLine shape rest s :
  let s' := run_ops [(i, op_output now newId out); (i, op_input now newId input (Some (trim_end promptLine ++ rest)))] s in
  prompt_shown i out s = Some promptLine -> derivePromptShape promptLine = Some shape ->
  i ∉ oscDrivenPanes s -> currentCommand (getTerminalPaneState i s) = None ->
  input <> [] -> (detectPromptSubmit (default createPromptSubmitState (promptSubmitStates s !! i)) input).2 = true -> trim rest <> [] ->
  i ∉ oscDrivenPanes s' /\
  (exists c, currentCommand (getTerminalPaneState i s') = Some c /\ rawCommandLine c = Some (trim rest) /\
    displayCommand c = summarizeCommandLine (trim rest) /\ source c = user_input) /\
  forall now' newId' out', is_Some (prompt_shown i out' s') ->
    let p := getTerminalPaneState i (step i (op_output now' newId' out') s') in activity p = editing /\ currentCommand p = None.
Proof.
  intros s' Hp Hd Hi Hc Hin Hs Hr. destruct (output_prompt i now newId out promptLine s Hp) as (s1 & E1 & E2 & E3 & E4 & E).
  assert (Ht : typed_command i s = false).
  { unfold typed_command. unfold getTerminalPaneState in Hc. destruct (paneStates s !! i) as [p|]; [|done]. cbn in Hc. by rewrite Hc. }
  assert (Es : s' = applyTerminalSemanticEvents i [(now, newId, ev (sem_commandLine (trim rest))); (now, newId, ev_start (Some user_input) None)] false
      (recordToolDirty i None (set_submit (<[i := (detectPromptSubmit (default createPromptSubmitState (promptSubmitStates s !! i)) input).1]> (promptSubmitStates s1)) s1))).
  { unfold s', run_ops. cbn [fold_left fst snd step]. rewrite E, (typed_same i s s1 E1), Ht. unfold recordTerminalUserInput.
    rewrite bool_decide_false by done. unfold isPaneOscDriven. rewrite E2, bool_decide_false by done.
    rewrite (same_pane i s s1 E1), Hc, E3. destruct (detectPromptSubmit _ input) as [next submitted]. cbn [snd fst] in *. rewrite Hs. cbn [negb].
    cbn [promptShapes set_submit]. rewrite E4. unfold learn_shape. rewrite Hd. cbn [promptShapes set_shapes]. rewrite lookup_insert_eq.
    rewrite nonempty_line_some by (intros [Hn _]%app_eq_nil; by destruct (trim_end_nonempty _ _ Hd)).
    rewrite (command_after_prompt _ _ rest Hd). unfold null_if_empty. by rewrite bool_decide_false. }
  assert (Ep : getTerminalPaneState i s' = run_events (getTerminalPaneState i s) [(now, newId, ev (sem_commandLine (trim rest))); (now, newId, ev_start (Some user_input) None)]).
  { rewrite Es, events_pane, dirty_pane. by rewrite <- (same_pane i s s1 E1). }
  split; [rewrite Es; intros [Hd'|(_ & _ & Hb)]%events_driven; [by rewrite dirty_driven in Hd'; cbn [oscDrivenPanes set_submit] in Hd'; rewrite E2 in Hd'|done]|].
  destruct (typed_run now newId (trim rest) (getTerminalPaneState i s) Hr) as (c & Hcur & Hraw & Hdisp & Hsrc). rewrite <- Ep in Hcur.
  split; [by exists c|]. intros now' newId' out' [line' Hl']. cbn [step].
  destruct (output_prompt i now' newId' out' line' s' Hl') as (s2 & F1 & _ & _ & _ & F). rewrite F, (typed_same i s' s2 F1).
  rewrite (typed_by_user i s' c Hcur Hsrc), events_pane. apply prompt_ends.
Qed.

(** ** Instances *)

#[local] Instance plain_host : UrlHost := { URL := fun _ => None; toLowerCase := map ascii_lower }.

Definition sample_ops : list (Sid * Op) := [
  (lit "a", op_output 0%Q (lit "cmd-0") (lit "me@host:~$ "));
  (lit "a", op_input 1%Q (lit "cmd-1") (lit "make" ++ [13]) (Some (lit "me@host:~$ make -j")));
  (lit "b", op_manualCwd 1 (Some (lit "/srv")));
  (lit "a", op_snapshot);
  (lit "a", op_output 2%Q (lit "cmd-2") (lit "ok" ++ [10] ++ lit "me@host:~$ "));
  (lit "b", op_events [(3%Q, lit "cmd-3", ev sem_promptStart)] false);
  (lit "b", op_remove)].

Lemma stores_consistent_witness : Forall (fun o => op_good pane_ok o.2) sample_ops /\ store_ok (run_ops sample_ops new_store).
Proof. assert (H : Forall (fun o => op_good pane_ok o.2) sample_ops) by (by repeat constructor). split; [exact H|by apply (stores_consistent sample_ops)]. Defined.

Lemma user_title_pinned_witness :
  headerPrimary (fun _ => None) (getTerminalPaneState (lit "a") (run_ops sample_ops (setTerminalUserTitle 0%Q (lit "cmd-t") (lit "a") (lit " build ") new_store).2))
  = (lit "build", false).
Proof.
  pose proof (user_title_pinned (fun _ => None) 0%Q (lit "cmd-t") (lit "a") (lit " build ") new_store sample_ops) as H.
  assert (Ho : Forall (fun o => o.1 = lit "a" -> leaves_title o.2) sample_ops) by (by repeat constructor).
  specialize (H Ho). vm_compute in H. vm_compute. apply H.
Defined.

Lemma typed_command_runs_witness :
  exists c, currentCommand (getTerminalPaneState (lit "a") (run_ops [(lit "a", op_output 0%Q (lit "cmd-0") (lit "me@host:~$ "));
    (lit "a", op_input 0%Q (lit "cmd-0") (lit "x" ++ [13]) (Some (trim_end (lit "me@host:~$ ") ++ lit " git log")))] new_store)) = Some c /\
    rawCommandLine c = Some (lit "git log").
Proof.
  destruct (typed_command_runs 0%Q (lit "cmd-0") (lit "a") (lit "me@host:~$ ") (lit "x" ++ [13]) (lit "me@host:~$ ") (mkShape 36 0) (lit " git log") new_store)
    as (_ & (c & Hc & Hr & _) & _); [by vm_compute|by vm_compute|by vm_compute|by vm_compute|by vm_compute|by vm_compute|by vm_compute|].
  exists c. split; [exact Hc|]. rewrite Hr. by vm_compute.
Defined.
