(* ===== verification/PendingKills.v ===== *)
(** * Pending kills (lib/src/lib/pending-kills.ts)

    A kill that waits: a countdown that a pointer may hold, one timer for the
    soonest, and an end by restore or by finalize.  The code an entry's owner
    supplies may call the store again; the theorems allow it everything the
    store lets it do. *)
From Stdlib Require Import ZArith QArith Qminmax Lia.
From S2P Require Import Prelude JsNum TermText.
#[local] Open Scope Z_scope.
#[local] Open Scope list_scope.

(** ** The store *)

Definition PENDING_KILL_MS : Z := 10000.

Inductive PendingKillKind := kill_surface | kill_workspace | kill_helper.

#[export] Instance PendingKillKind_eq_dec : EqDecision PendingKillKind.
Proof. solve_decision. Defined.

Record PendingKill := mkKill {
  kill_kind : PendingKillKind;
  kill_id : text;
  kill_workspaceId : text;
  kill_surfaceId : option text;
  kill_title : text;
  kill_label : text;
  startedAt : Z;
  remainingMs : Z;
  resumedAt : option Z
}.

(** An entry of the map: [entry_no] stands for the object itself and the
    actions it carries. *)
Record KillEntry := mkKillEntry { entry_no : nat; kill : PendingKill }.

(** How an entry left the map. *)
Inductive KillEnd := end_restored | end_finalized (teardown : bool) | end_replaced.

(** The module's variables: the map in insertion order, the snapshot, the timer
    as the time it was set at and its delay, the snapshots listeners were told
    of, and the entries that are gone with the way they went. *)
Record Kills := mkKills {
  kill_entries : list KillEntry;
  kill_snapshot : list PendingKill;
  kill_timer : option (Z * Z);
  kill_told : list (list PendingKill);
  kill_gone : list (nat * KillEnd);
  kill_next : nat
}.

Definition no_kills : Kills := mkKills [] [] None [] [] 0.

Definition kind_name (kind : PendingKillKind) : text :=
  match kind with kill_surface => lit "surface" | kill_workspace => lit "workspace" | kill_helper => lit "helper" end.

Definition pendingKillKey (kind : PendingKillKind) (id : text) : text := kind_name kind ++ 58 :: id.

Definition key_of (e : KillEntry) : text := pendingKillKey (kill_kind (kill e)) (kill_id (kill e)).

Definition kill_get (key : text) (s : Kills) : option KillEntry := head (filter (fun e => key_of e = key) (kill_entries s)).

(** [entries.set]: a known key keeps its place. *)
Fixpoint entries_set (e : KillEntry) (es : list KillEntry) : list KillEntry :=
  match es with
  | [] => [e]
  | e' :: es => if decide (key_of e' = key_of e) then e :: es else e' :: entries_set e es
  end.

(** ** Publishing *)

Fixpoint insert_kill (k : PendingKill) (ks : list PendingKill) : list PendingKill :=
  match ks with
  | [] => [k]
  | k' :: ks' => if startedAt k' <=? startedAt k then k :: ks else k' :: insert_kill k ks'
  end.

(** The stable sort by [b.startedAt - a.startedAt]. *)
Definition newest_first (ks : list PendingKill) : list PendingKill := foldr insert_kill [] ks.

Definition timeLeft (k : PendingKill) (now : Z) : Z :=
  match resumedAt k with None => remainingMs k | Some at_ => remainingMs k - (now - at_) end.

(** The least time left of the running countdowns; none stands for [Infinity]. *)
Definition soonest (now : Z) (es : list KillEntry) : option Z :=
  foldl (fun best e =>
    match resumedAt (kill e) with
    | None => best
    | Some _ => Some (match best with Some b => Z.min b (timeLeft (kill e) now) | None => timeLeft (kill e) now end)
    end) None es.

Definition arm (now : Z) (s : Kills) : Kills :=
  mkKills (kill_entries s) (kill_snapshot s) (option_map (fun d => (now, Z.max 0 d)) (soonest now (kill_entries s)))
    (kill_told s) (kill_gone s) (kill_next s).

Definition publish (now : Z) (s : Kills) : Kills :=
  let snap := newest_first (map kill (kill_entries s)) in
  arm now (mkKills (kill_entries s) snap (kill_timer s) (kill_told s ++ [snap]) (kill_gone s) (kill_next s)).

(** ** Operations *)

(** [addPendingKill]: an entry of the same key is replaced, its actions with it. *)
Definition addPendingKill (now : Z) (kind : PendingKillKind) (id workspaceId : text) (surfaceId : option text) (title label : text) (s : Kills) : Kills :=
  let e := mkKillEntry (kill_next s) (mkKill kind id workspaceId surfaceId title label now PENDING_KILL_MS (Some now)) in
  let gone := match kill_get (key_of e) s with Some old => [(entry_no old, end_replaced)] | None => [] end in
  publish now (mkKills (entries_set e (kill_entries s)) (kill_snapshot s) (kill_timer s) (kill_told s) (kill_gone s ++ gone) (S (kill_next s))).

(** [entries.delete] of some keys, each gone the same way. *)
Definition delete_kills (keys : list text) (how : KillEnd) (s : Kills) : Kills :=
  mkKills (filter (fun e => key_of e ∉ keys) (kill_entries s)) (kill_snapshot s) (kill_timer s) (kill_told s)
    (kill_gone s ++ map (fun e => (entry_no e, how)) (filter (fun e => key_of e ∈ keys) (kill_entries s))) (kill_next s).

Definition held_kill (now : Z) (held : bool) (k : PendingKill) : PendingKill :=
  mkKill (kill_kind k) (kill_id k) (kill_workspaceId k) (kill_surfaceId k) (kill_title k) (kill_label k) (startedAt k)
    (if held then Z.max 0 (timeLeft k now) else remainingMs k) (if held then None else Some now).

Definition holdPendingKill (now : Z) (key : text) (held : bool) (s : Kills) : Kills :=
  match kill_get key s with
  | None => s
  | Some e =>
      if bool_decide (resumedAt (kill e) = None) && held || negb (bool_decide (resumedAt (kill e) = None)) && negb held then s
      else
        publish now (mkKills
          (map (fun e' => if decide (key_of e' = key) then mkKillEntry (entry_no e') (held_kill now held (kill e')) else e') (kill_entries s))
          (kill_snapshot s) (kill_timer s) (kill_told s) (kill_gone s) (kill_next s))
  end.

Section Actions.

(** What the owners supply, by entry: whether a restore did not refuse, and what
    each does to this store. *)
Variable restore_action : nat -> bool -> Kills -> bool * Kills.
Variable finalize_action : nat -> bool -> Kills -> Kills.

Definition restorePendingKill (now : Z) (key : text) (focus : bool) (s : Kills) : bool * Kills :=
  match kill_get key s with
  | None => (false, s)
  | Some e =>
      let r := restore_action (entry_no e) focus s in
      if r.1 then
        match kill_get key r.2 with
        | Some e' =>
            if (entry_no e' =? entry_no e)%nat then (true, publish now (delete_kills [key] end_restored r.2)) else (true, r.2)
        | None => (true, r.2)
        end
      else (false, r.2)
  end.

(** [settle] with the finalize of [runFinalize]. *)
Definition finalizePendingKill (now : Z) (key : text) (s : Kills) : bool * Kills :=
  match kill_get key s with
  | None => (false, s)
  | Some e => (true, finalize_action (entry_no e) false (publish now (delete_kills [key] (end_finalized false) s)))
  end.

Definition finalizePendingKills (now : Z) (which : PendingKill -> bool) (teardown : bool) (s : Kills) : Kills :=
  let due := filter (fun e => which (kill e) = true) (kill_entries s) in
  let s1 := delete_kills (map key_of due) (end_finalized teardown) s in
  foldl (fun s e => finalize_action (entry_no e) teardown s) (match due with [] => s1 | _ => publish now s1 end) due.

Definition is_due (now : Z) (e : KillEntry) : bool :=
  match resumedAt (kill e) with Some _ => timeLeft (kill e) now <=? 0 | None => false end.

(** [expire]: the timer has fired. *)
Definition expire (now : Z) (s : Kills) : Kills :=
  let s0 := mkKills (kill_entries s) (kill_snapshot s) None (kill_told s) (kill_gone s) (kill_next s) in
  let due := filter (fun e => is_due now e = true) (kill_entries s) in
  match due with
  | [] => arm now s0
  | _ => foldl (fun s e => (finalizePendingKill now (key_of e) s).2) s0 due
  end.

End Actions.

(** ** Readers *)

Definition getPendingKill (kind : PendingKillKind) (id : text) (s : Kills) : option PendingKill :=
  option_map kill (kill_get (pendingKillKey kind id) s).

(** The Sessions of a kill: a Workspace's surfaces, or the kill's own. *)
Definition kill_sessions (membership : text -> list text) (k : PendingKill) : list text :=
  match kill_kind k with kill_workspace => membership (kill_id k) | _ => [kill_id k] end.

(** [Set.prototype.add]. *)
Definition set_add (ids : list text) (id : text) : list text := if decide (id ∈ ids) then ids else ids ++ [id].

(** [registry] as its ids and the parent of each that is a helper. *)
Definition pendingKillSessionIds (membership : text -> list text) (registry : list (text * option text)) (s : Kills) : list text :=
  match kill_entries s with
  | [] => []
  | _ =>
      foldl (fun ids r => match r.2 with Some parent => if decide (parent ∈ ids) then set_add ids r.1 else ids | None => ids end)
        (foldl set_add [] (concat (map (kill_sessions membership) (kill_snapshot s)))) registry
  end.

Definition isPendingKillSession (membership : text -> list text) (registry : list (text * option text)) (id : text) (s : Kills) : bool :=
  bool_decide (id ∈ pendingKillSessionIds membership registry s).

Definition isOwnPendingKill (k : PendingKill) (workspaceId : text) : bool :=
  negb (bool_decide (kill_kind k = kill_workspace)) && bool_decide (kill_workspaceId k = workspaceId).

Definition pendingSurfaceRefusal (id : text) (s : Kills) : option text :=
  match getPendingKill kill_surface id s with
  | Some _ => Some (lit "surface '" ++ id ++ lit "' is a pending kill")
  | None => None
  end.

Definition pendingKillProgress {W} `{JSNum W} (k : PendingKill) (now : Z) : W :=
  nmin n1 (nmax n0 (nsub n1 (ndiv (nlit (timeLeft k now) 1) (nlit PENDING_KILL_MS 1)))).

(** ** What the store does, step by step *)

(** One change of the store: every operation is a run of these. *)
Inductive kills_step : Kills -> Kills -> Prop :=
  | ks_add now kind id workspaceId surfaceId title label s :
      kills_step s (addPendingKill now kind id workspaceId surfaceId title label s)
  | ks_end now keys how s : kills_step s (publish now (delete_kills keys how s))
  | ks_hold now key held s : kills_step s (holdPendingKill now key held s)
  | ks_arm now s : kills_step s (arm now s).

(** The actions use the store only through its operations. *)
Definition acts_on_store (restore_action : nat -> bool -> Kills -> bool * Kills) (finalize_action : nat -> bool -> Kills -> Kills) : Prop :=
  (forall no focus s, rtc kills_step s (restore_action no focus s).2) /\
  (forall no teardown s, rtc kills_step s (finalize_action no teardown s)).

Lemma kill_get_Some key s e : kill_get key s = Some e -> e ∈ kill_entries s /\ key_of e = key.
Proof.
  unfold kill_get. intros E. assert (Hin : e ∈ filter (fun e => key_of e = key) (kill_entries s)).
  { destruct (filter _ _) as [|e' l]; [done|]. injection E as ->. by left. }
  apply list_elem_of_filter in Hin. tauto.
Qed.

Lemma kill_get_elem e s : e ∈ kill_entries s -> is_Some (kill_get (key_of e) s).
Proof.
  intros Hin. unfold kill_get. destruct (filter _ _) as [|e' l] eqn:E; [|by eexists].
  exfalso. apply (not_elem_of_nil e). rewrite <- E. by apply list_elem_of_filter.
Qed.

Lemma delete_none how s : delete_kills [] how s = s.
Proof.
  destruct s as [es snap tm told gone next]. unfold delete_kills. cbn [kill_entries kill_snapshot kill_timer kill_told kill_gone kill_next].
  rewrite filter_all, list_filter_nil_of, app_nil_r; [done|intros e _; apply not_elem_of_nil..].
Qed.

Section Steps.
  Context (restore_action : nat -> bool -> Kills -> bool * Kills) (finalize_action : nat -> bool -> Kills -> Kills).
  Hypothesis Hacts : acts_on_store restore_action finalize_action.

Lemma finalize_steps now key s : rtc kills_step s (finalizePendingKill finalize_action now key s).2.
Proof.
  unfold finalizePendingKill. destruct (kill_get key s) as [e|]; [|done]. simpl.
  eapply rtc_l; [apply ks_end|apply Hacts].
Qed.

Lemma restore_steps now key focus s : rtc kills_step s (restorePendingKill restore_action now key focus s).2.
Proof.
  unfold restorePendingKill. destruct (kill_get key s) as [e|]; [|done].
  pose proof (proj1 Hacts (entry_no e) focus s) as Hr. destruct (restore_action _ _ _) as [[] s']; [|done].
  cbn [fst snd] in *. destruct (kill_get key s') as [e'|]; [|done]. destruct (_ =? _)%nat; [|done].
  eapply rtc_r; [done|apply ks_end].
Qed.

Lemma finalize_all_steps now which teardown s : rtc kills_step s (finalizePendingKills finalize_action now which teardown s).
Proof.
  unfold finalizePendingKills. set (due := filter _ _).
  assert (G : forall l s1, rtc kills_step s s1 ->
    rtc kills_step s (foldl (fun s e => finalize_action (entry_no e) teardown s) s1 l)).
  { induction l as [|e l IH]; intros s1 H1; simpl; [done|]. apply IH. etrans; [done|apply Hacts]. }
  clearbody due. destruct due as [|e due]; [|apply G, rtc_once, ks_end]. simpl. by rewrite delete_none.
Qed.

Lemma expire_steps now s : rtc kills_step s (expire finalize_action now s).
Proof.
  unfold expire. set (s0 := mkKills _ _ None _ _ _).
  destruct (filter _ _) as [|e due] eqn:E; [by apply rtc_once, (ks_arm now s)|].
  assert (He : e ∈ kill_entries s).
  { assert (Hin : e ∈ filter (fun e => is_due now e = true) (kill_entries s)) by (rewrite E; by left).
    apply list_elem_of_filter in Hin. tauto. }
  cbn [foldl].
  assert (H1 : rtc kills_step s (finalizePendingKill finalize_action now (key_of e) s0).2).
  { unfold finalizePendingKill. destruct (kill_get_elem e s0 He) as [e' ->]. cbn [snd].
    eapply rtc_l; [|apply Hacts]. apply (ks_end now [key_of e] (end_finalized false) s). }
  revert H1. generalize (finalizePendingKill finalize_action now (key_of e) s0).2. clear E.
  induction due as [|e2 due IH]; intros s1 H1; simpl; [done|]. apply IH. etrans; [done|apply finalize_steps].
Qed.

End Steps.

(** ** The invariant *)

(** Every kill ever added is pending or gone, once. *)
Definition accounted (s : Kills) : Prop :=
  map entry_no (kill_entries s) ++ map fst (kill_gone s) ≡ₚ seq 0 (kill_next s).

Definition kills_core (s : Kills) : Prop :=
  NoDup (map key_of (kill_entries s)) /\ accounted s /\ Forall (fun e => 0 <= remainingMs (kill e)) (kill_entries s).

(** The timer is the one [arm] sets for the entries, at some time. *)
Definition timer_armed (s : Kills) : Prop :=
  exists now, kill_timer s = option_map (fun d => (now, Z.max 0 d)) (soonest now (kill_entries s)).

Definition kills_ok (s : Kills) : Prop :=
  kills_core s /\ kill_snapshot s = newest_first (map kill (kill_entries s)) /\
  last (kill_told s) = (if decide (kill_told s = []) then None else Some (kill_snapshot s)) /\ timer_armed s.

Lemma publish_ok now s : kills_core s -> kills_ok (publish now s).
Proof.
  intros Hc. unfold kills_ok. split_all; [done|done| |by exists now]. simpl. rewrite last_snoc. by destruct (kill_told s).
Qed.

Lemma entries_set_spec e es :
  NoDup (map key_of es) ->
  (key_of e ∉ map key_of es /\ entries_set e es = es ++ [e]) \/
  exists l1 old l2, es = l1 ++ old :: l2 /\ key_of old = key_of e /\ entries_set e es = l1 ++ e :: l2.
Proof.
  induction es as [|e' es IH]; intros Hnd; [left; split; [apply not_elem_of_nil|done]|].
  simpl in Hnd. apply NoDup_cons in Hnd as [H1 H2]. simpl. destruct (decide (key_of e' = key_of e)) as [He|He].
  - right. by exists [], e', es.
  - destruct (IH H2) as [(Hn & ->)|(l1 & old & l2 & -> & Ho & ->)].
    + left. split; [|done]. rewrite not_elem_of_cons. split; [congruence|done].
    + right. by exists (e' :: l1), old, l2.
Qed.

Lemma kill_get_middle s l1 old l2 :
  NoDup (map key_of (kill_entries s)) -> kill_entries s = l1 ++ old :: l2 -> kill_get (key_of old) s = Some old.
Proof.
  intros Hnd E. unfold kill_get. rewrite E in *. rewrite map_app in Hnd. simpl in Hnd.
  apply NoDup_app in Hnd as (_ & H2 & _).
  rewrite filter_app, filter_cons_True, (list_filter_nil_of _ l1); [done| |done].
  intros x Hx Hk. apply (H2 (key_of x)); [by apply list_elem_of_fmap_2|]. rewrite Hk. by left.
Qed.

Lemma add_core now kind id workspaceId surfaceId title label s :
  kills_core s -> kills_ok (addPendingKill now kind id workspaceId surfaceId title label s).
Proof.
  intros (Hnd & Hacc & Hr). unfold addPendingKill. set (e := mkKillEntry _ _). apply publish_ok.
  assert (Hre : 0 <= remainingMs (kill e)) by done. assert (Hno : entry_no e = kill_next s) by done. clearbody e.
  unfold kills_core, accounted in *. cbn [kill_entries kill_gone kill_next]. rewrite seq_S, <- Hacc. simpl.
  destruct (entries_set_spec e _ Hnd) as [(Hn & ->)|(l1 & old & l2 & E & Ho & ->)].
  - assert (kill_get (key_of e) s = None) as ->.
    { destruct (kill_get (key_of e) s) as [x|] eqn:Ex; [|done]. apply kill_get_Some in Ex as [Hx Hk]. exfalso.
      apply Hn. rewrite <- Hk. by apply list_elem_of_fmap_2. }
    rewrite app_nil_r. split_all.
    + rewrite map_app. apply NoDup_app. split_all; [done| |apply NoDup_singleton].
      intros k Hk Hk2. apply list_elem_of_singleton in Hk2. by subst.
    + rewrite map_app. simpl. rewrite Hno. solve_Permutation.
    + apply Forall_app. by split; [|constructor].
  - rewrite <- Ho, (kill_get_middle _ _ _ _ Hnd E). rewrite E in *. rewrite !map_app in *. simpl in *.
    apply Forall_app in Hr as [Hr1 Hr2]. inversion Hr2; subst. split_all.
    + by rewrite <- Ho.
    + rewrite Hno. simpl. solve_Permutation.
    + apply Forall_app. by split; [|constructor].
Qed.

Lemma filter_keys_NoDup (P : KillEntry -> Prop) `{!forall e, Decision (P e)} es : NoDup (map key_of es) -> NoDup (map key_of (filter P es)).
Proof.
  induction es as [|e es IH]; intros Hnd; [done|]. simpl in Hnd. apply NoDup_cons in Hnd as [H1 H2].
  rewrite filter_cons. case_decide; [|by apply IH]. simpl. constructor; [|by apply IH].
  intros Hin. apply H1. apply list_elem_of_fmap in Hin as (x & -> & Hx). apply list_elem_of_filter in Hx as [_ Hx].
  by apply list_elem_of_fmap_2.
Qed.

Lemma filter_nos (P : KillEntry -> Prop) `{!forall e, Decision (P e)} es :
  map entry_no es ≡ₚ map entry_no (filter (fun e => ~ P e) es) ++ map entry_no (filter P es).
Proof.
  induction es as [|e es IH]; [done|]. rewrite !filter_cons.
  destruct (decide (P e)) as [Hp|Hp]; [rewrite decide_False by tauto|rewrite decide_True by tauto]; simpl; rewrite IH; solve_Permutation.
Qed.

Lemma delete_core keys how s : kills_core s -> kills_core (delete_kills keys how s).
Proof.
  intros (Hnd & Hacc & Hr). unfold kills_core, accounted, delete_kills in *. cbn [kill_entries kill_gone kill_next]. split_all.
  - by apply filter_keys_NoDup.
  - rewrite <- Hacc, (filter_nos (fun e => key_of e ∈ keys) (kill_entries s)), map_app, map_map. simpl. solve_Permutation.
  - apply Forall_forall. intros e He. apply list_elem_of_filter in He as [_ He]. rewrite Forall_forall in Hr. by apply Hr.
Qed.

Lemma hold_core now key held s :
  kills_core s -> holdPendingKill now key held s = s \/ kills_ok (holdPendingKill now key held s).
Proof.
  intros (Hnd & Hacc & Hr). unfold holdPendingKill. destruct (kill_get key s) as [e|]; [|by left].
  destruct (_ || _); [by left|]. right. apply publish_ok.
  set (f := fun e' => if decide _ then _ else _). unfold kills_core, accounted. cbn [kill_entries kill_gone kill_next].
  assert (Ek : map key_of (map f (kill_entries s)) = map key_of (kill_entries s)).
  { rewrite map_map. apply map_ext. intros x. unfold f. by case_decide. }
  assert (En : map entry_no (map f (kill_entries s)) = map entry_no (kill_entries s)).
  { rewrite map_map. apply map_ext. intros x. unfold f. by case_decide. }
  rewrite Ek, En. split_all; [done|done|]. apply Forall_fmap. eapply Forall_impl; [exact Hr|].
  intros x Hx. simpl. unfold f. case_decide; [|done]. simpl. destruct held; [lia|done].
Qed.

Lemma kill_step_ok s s' : kills_step s s' -> kills_ok s -> kills_ok s'.
Proof.
  intros Hs Hok. destruct Hs.
  - apply add_core, Hok.
  - apply publish_ok, delete_core, Hok.
  - destruct (hold_core now key held s (proj1 Hok)) as [->|H]; done.
  - destruct Hok as (Hc & Hs & Ht & _). unfold kills_ok. split_all; [done|done|done|by exists now].
Qed.

Lemma step_core s s' : kills_step s s' -> kills_core s -> kills_core s'.
Proof.
  intros Hs Hc. destruct Hs; [by apply add_core|by apply delete_core| |done].
  by destruct (hold_core now key held s Hc) as [->|[H _]].
Qed.

Lemma steps_core s s' : rtc kills_step s s' -> kills_core s -> kills_core s'.
Proof. intros Hs. induction Hs; [done|]. eauto using step_core. Qed.

Lemma steps_ok s s' : rtc kills_step s s' -> kills_ok s -> kills_ok s'.
Proof. intros Hs. induction Hs; [done|]. eauto using kill_step_ok. Qed.

Lemma no_kills_ok : kills_ok no_kills.
Proof. unfold kills_ok, kills_core. split_all; [apply NoDup_nil_2|apply perm_nil|constructor|done|done|by exists 0]. Qed.

(** What is gone stays gone. *)
Lemma step_gone s s' : kills_step s s' -> exists l, kill_gone s' = kill_gone s ++ l.
Proof.
  destruct 1; simpl; try (eexists; done); [|exists []; by rewrite app_nil_r].
  exists []. unfold holdPendingKill. rewrite app_nil_r. destruct (kill_get key s); [|done]. by destruct (_ || _).
Qed.

Lemma steps_gone s s' no : rtc kills_step s s' -> no ∈ map fst (kill_gone s) -> no ∈ map fst (kill_gone s').
Proof.
  intros Hs. induction Hs as [|s s1 s2 H1 _ IH]; [done|]. intros Hin. apply IH.
  destruct (step_gone _ _ H1) as [l ->]. rewrite map_app. apply elem_of_app. by left.
Qed.

(** ** The snapshot *)

Lemma insert_kill_Permutation k ks : insert_kill k ks ≡ₚ k :: ks.
Proof. induction ks as [|k' ks IH]; simpl; [done|]. destruct (_ <=? _); [done|]. rewrite IH. constructor. Qed.

Lemma newest_first_Permutation ks : newest_first ks ≡ₚ ks.
Proof. induction ks as [|k ks IH]; [done|]. change (insert_kill k (newest_first ks) ≡ₚ k :: ks). by rewrite insert_kill_Permutation, IH. Qed.

Definition not_older (a b : PendingKill) : Prop := startedAt b <= startedAt a.

Lemma insert_kill_sorted k ks : StronglySorted not_older ks -> StronglySorted not_older (insert_kill k ks).
Proof.
  induction 1 as [|k' ks Hs IH Hk]; simpl; [by repeat constructor|].
  destruct (startedAt k' <=? startedAt k) eqn:E.
  - constructor; [by constructor|]. constructor; [unfold not_older; lia|].
    eapply Forall_impl; [exact Hk|]. unfold not_older. intros x Hx. lia.
  - constructor; [done|]. rewrite insert_kill_Permutation. constructor; [unfold not_older; lia|done].
Qed.

Lemma newest_first_sorted ks : StronglySorted not_older (newest_first ks).
Proof. induction ks as [|k ks IH]; [constructor|]. by apply insert_kill_sorted. Qed.

(** ** The timer *)

Definition running (e : KillEntry) : Prop := resumedAt (kill e) <> None.

Lemma soonest_spec now es :
  match soonest now es with
  | None => forall e, e ∈ es -> ~ running e
  | Some d => (exists e, e ∈ es /\ running e /\ timeLeft (kill e) now = d) /\ forall e, e ∈ es -> running e -> d <= timeLeft (kill e) now
  end.
Proof.
  unfold soonest. induction es as [|e es IH] using rev_ind; [intros e He; by apply elem_of_nil in He|].
  rewrite foldl_app. simpl. set (best := foldl _ None es) in *. unfold running in *.
  destruct (resumedAt (kill e)) as [at_|] eqn:Ea.
  - split.
    + destruct best as [b|]; [|by exists e; split_all; [apply elem_of_app; right; left|rewrite Ea|]].
      destruct IH as [(e' & He' & Hr & <-) _]. destruct (Z.min_spec (timeLeft (kill e') now) (timeLeft (kill e) now)) as [[_ ->]|[_ ->]].
      * exists e'. split_all; [apply elem_of_app; by left|done|done].
      * exists e. split_all; [apply elem_of_app; right; by left|by rewrite Ea|done].
    + intros x Hx Hrx. apply elem_of_app in Hx as [Hx|Hx].
      * destruct best as [b|]; [|by apply IH in Hx]. destruct IH as [_ IH]. specialize (IH x Hx Hrx). lia.
      * apply list_elem_of_singleton in Hx as ->. destruct best; lia.
  - destruct best as [b|].
    + destruct IH as [(e' & He' & Hr) IH]. split; [exists e'; split; [apply elem_of_app; by left|done]|].
      intros x Hx Hrx. apply elem_of_app in Hx as [Hx|Hx]; [by apply IH|]. apply list_elem_of_singleton in Hx as ->. done.
    + intros x Hx. apply elem_of_app in Hx as [Hx|Hx]; [by apply IH|]. apply list_elem_of_singleton in Hx as ->. tauto.
Qed.

(** Time passing shortens what a running countdown has left by as much. *)
Lemma timeLeft_later e t now : running e -> timeLeft (kill e) now = timeLeft (kill e) t - (now - t).
Proof. unfold running, timeLeft. destruct (resumedAt (kill e)); [lia|done]. Qed.

Lemma timer_soonest s e :
  timer_armed s -> e ∈ kill_entries s -> running e ->
  exists t d, kill_timer s = Some (t, d) /\ 0 <= d <= Z.max 0 (timeLeft (kill e) t).
Proof.
  intros [t Ht] He Hr. pose proof (soonest_spec t (kill_entries s)) as H. rewrite Ht.
  destruct (soonest t (kill_entries s)) as [d|]; [|by apply H in He]. destruct H as [_ H]. specialize (H e He Hr).
  exists t, (Z.max 0 d). split; [done|lia].
Qed.

Lemma timer_finds_due s t d now :
  timer_armed s -> kill_timer s = Some (t, d) -> t + d <= now -> exists e, e ∈ kill_entries s /\ is_due now e = true.
Proof.
  intros [t' Ht] E Hle. pose proof (soonest_spec t' (kill_entries s)) as H. rewrite Ht in E.
  destruct (soonest t' (kill_entries s)) as [d'|]; [|done]. simpl in E. simplify_eq.
  destruct H as [(e & He & Hr & <-) _]. exists e. split; [done|]. unfold is_due.
  rewrite (timeLeft_later e t) by done. unfold running in Hr. destruct (resumedAt (kill e)); [lia|done].
Qed.

(** A countdown held from [t1] to [t2] has as much left as if it had run on, and
    the time it was held. *)
Lemma hold_pauses k t1 t2 now :
  resumedAt k <> None -> 0 <= timeLeft k t1 ->
  timeLeft (held_kill t2 false (held_kill t1 true k)) now = timeLeft k now + (t2 - t1).
Proof. unfold timeLeft, held_kill. simpl. unfold timeLeft. destruct (resumedAt k); [lia|done]. Qed.

(** ** The firing of the timer *)

(** A kill is still there under its key, or gone. *)
Definition there_or_gone (no : nat) (key : text) (s : Kills) : Prop :=
  (exists e, e ∈ kill_entries s /\ entry_no e = no /\ key_of e = key) \/ no ∈ map fst (kill_gone s).

Lemma step_there no key s s' : kills_core s -> kills_step s s' -> there_or_gone no key s -> there_or_gone no key s'.
Proof.
  intros (Hnd & _) Hs [(e & He & Hno & Hk)|Hg].
  2: { right. apply (steps_gone s); [by apply rtc_once|done]. }
  destruct Hs as [now kind id workspaceId surfaceId title label s|now keys how s|now key' held s|now s].
  - unfold addPendingKill. set (e2 := mkKillEntry _ _). clearbody e2. unfold there_or_gone. simpl.
    destruct (entries_set_spec e2 _ Hnd) as [(Hn & ->)|(l1 & old & l2 & E & Ho & ->)].
    + left. exists e. split; [apply elem_of_app; by left|done].
    + rewrite <- Ho, (kill_get_middle _ _ _ _ Hnd E), E in *. apply elem_of_app in He as [He|He]; [left; exists e; split; [apply elem_of_app; by left|done]|].
      apply elem_of_cons in He as [->|He].
      * right. rewrite map_app. apply elem_of_app. right. rewrite Hno. by left.
      * left. exists e. split; [apply elem_of_app; right; by right|done].
  - destruct (decide (key_of e ∈ keys)) as [Hin|Hn].
    + right. simpl. rewrite map_app, map_map. apply elem_of_app. right. apply list_elem_of_fmap. exists e.
      split; [done|]. by apply list_elem_of_filter.
    + left. exists e. split; [|done]. simpl. by apply list_elem_of_filter.
  - left. unfold holdPendingKill. destruct (kill_get key' s); [|by exists e]. destruct (_ || _); [by exists e|]. simpl.
    set (f := fun e' => if decide _ then _ else _). exists (f e). split; [by apply list_elem_of_fmap_2|].
    unfold f. by case_decide.
  - left. by exists e.
Qed.

Lemma steps_there no key s s' : rtc kills_step s s' -> kills_core s -> there_or_gone no key s -> there_or_gone no key s'.
Proof. intros Hs. induction Hs as [|s s1 s2 H1 _ IH]; [done|]. intros Hok Ht. apply IH; [by eapply step_core|by eapply step_there]. Qed.

Lemma same_key_same_entry s e e' :
  NoDup (map key_of (kill_entries s)) -> e ∈ kill_entries s -> e' ∈ kill_entries s -> key_of e = key_of e' -> e = e'.
Proof.
  intros Hnd He He' Hk. apply list_elem_of_lookup in He as [i Hi], He' as [j Hj].
  assert (i = j) as <-; [|congruence]. apply (NoDup_lookup _ _ _ (key_of e) Hnd); rewrite (list_lookup_fmap key_of).
  - by rewrite Hi.
  - by rewrite Hj, Hk.
Qed.

Section Expiry.
  Context (restore_action : nat -> bool -> Kills -> bool * Kills) (finalize_action : nat -> bool -> Kills -> Kills).
  Hypothesis Hacts : acts_on_store restore_action finalize_action.

Lemma finalize_ends now no key s :
  kills_core s -> there_or_gone no key s -> no ∈ map fst (kill_gone (finalizePendingKill finalize_action now key s).2).
Proof.
  intros Hok [(e & He & Hno & Hk)|Hg].
  2: { eapply steps_gone; [by eapply finalize_steps|done]. }
  unfold finalizePendingKill. subst key. destruct (kill_get_elem e s He) as [e' Ee]. rewrite Ee. cbn [snd].
  eapply steps_gone; [apply Hacts|]. simpl. rewrite map_app, map_map. apply elem_of_app. right.
  apply list_elem_of_fmap. exists e. split; [done|]. apply list_elem_of_filter. split; [by apply list_elem_of_singleton|done].
Qed.

Lemma fold_finalize_ends now due s e :
  kills_core s -> e ∈ due -> there_or_gone (entry_no e) (key_of e) s ->
  entry_no e ∈ map fst (kill_gone (foldl (fun s e => (finalizePendingKill finalize_action now (key_of e) s).2) s due)).
Proof.
  assert (Hstep : forall l s1, rtc kills_step s1 (foldl (fun s e => (finalizePendingKill finalize_action now (key_of e) s).2) s1 l)).
  { induction l as [|x l IH]; intros s1; [done|]. simpl. etrans; [by eapply finalize_steps|apply IH]. }
  revert s. induction due as [|x due IH]; intros s Hok He Ht; [by apply elem_of_nil in He|]. simpl.
  apply elem_of_cons in He as [->|He]; [eapply steps_gone; [apply Hstep|by apply finalize_ends]|].
  pose proof (finalize_steps _ _ Hacts now (key_of x) s) as Hs.
  apply IH; [by eapply steps_core|done|by eapply steps_there].
Qed.

Lemma expire_ends_due now s e :
  kills_core s -> e ∈ kill_entries s -> is_due now e = true ->
  entry_no e ∈ map fst (kill_gone (expire finalize_action now s)).
Proof.
  intros Hok He Hd. unfold expire. set (s0 := mkKills _ _ None _ _ _).
  assert (Hin : e ∈ filter (fun e => is_due now e = true) (kill_entries s)) by by apply list_elem_of_filter.
  destruct (filter _ _) as [|x due]; [by apply elem_of_nil in Hin|].
  apply fold_finalize_ends; [done|done|]. left. by exists e.
Qed.

End Expiry.

(** What is not due stays, where the owners' code leaves the store alone. *)
Lemma expire_keeps finalize_action now s e :
  (forall no teardown s, finalize_action no teardown s = s) -> NoDup (map key_of (kill_entries s)) ->
  e ∈ kill_entries s -> is_due now e = false -> e ∈ kill_entries (expire finalize_action now s).
Proof.
  intros Hid Hnd He Hd. unfold expire. set (s0 := mkKills _ _ None _ _ _).
  assert (Hk : forall x, x ∈ filter (fun e => is_due now e = true) (kill_entries s) -> key_of e <> key_of x).
  { intros x Hx E. apply list_elem_of_filter in Hx as [Hx1 Hx2].
    rewrite (same_key_same_entry s e x Hnd He Hx2 E) in Hd. congruence. }
  destruct (filter _ _) as [|x due]; [done|]. change (e ∈ kill_entries s0) in He. revert Hk He. generalize (x :: due) as l.
  generalize s0 as s1. intros s1 l. revert s1. induction l as [|y l IH]; intros s1 Hk He; [done|]. simpl. apply IH.
  - intros z Hz. apply Hk. by right.
  - unfold finalizePendingKill. destruct (kill_get (key_of y) s1); [|done]. cbn [snd]. rewrite Hid. simpl.
    apply list_elem_of_filter. split; [|done]. rewrite list_elem_of_singleton. apply Hk. by left.
Qed.

(** ** The theorems *)

Inductive KillOp :=
  | op_add (now : Z) (kind : PendingKillKind) (id workspaceId : text) (surfaceId : option text) (title label : text)
  | op_restore (now : Z) (key : text) (focus : bool)
  | op_finalize (now : Z) (key : text)
  | op_finalize_all (now : Z) (which : PendingKill -> bool) (teardown : bool)
  | op_hold (now : Z) (key : text) (held : bool)
  | op_expire (now : Z).

Section Runs.
  Context (restore_action : nat -> bool -> Kills -> bool * Kills) (finalize_action : nat -> bool -> Kills -> Kills).

Definition apply_kill_op (op : KillOp) (s : Kills) : Kills :=
  match op with
  | op_add now kind id workspaceId surfaceId title label => addPendingKill now kind id workspaceId surfaceId title label s
  | op_restore now key focus => (restorePendingKill restore_action now key focus s).2
  | op_finalize now key => (finalizePendingKill finalize_action now key s).2
  | op_finalize_all now which teardown => finalizePendingKills finalize_action now which teardown s
  | op_hold now key held => holdPendingKill now key held s
  | op_expire now => expire finalize_action now s
  end.

Definition kills_after (ops : list KillOp) : Kills := foldl (fun s op => apply_kill_op op s) no_kills ops.

(** When the countdown of a pending kill is over; none runs while it is held. *)
Definition countdown_end (e : KillEntry) : option Z := (fun at_ => at_ + remainingMs (kill e)) <$> resumedAt (kill e).

Lemma timeLeft_end e end_ t : countdown_end e = Some end_ -> timeLeft (kill e) t = end_ - t.
Proof. unfold countdown_end, timeLeft. destruct (resumedAt (kill e)); [|done]. intros [= <-]. lia. Qed.

Lemma is_due_end now e : is_due now e = true <-> exists end_, countdown_end e = Some end_ /\ end_ <= now.
Proof.
  unfold is_due, countdown_end, timeLeft. destruct (resumedAt (kill e)) as [at_|]; cbn.
  - rewrite Z.leb_le. split; [intros H; eexists; split; [done|lia]|intros (? & [= <-] & ?); lia].
  - split; [done|by intros (? & ? & _)].
Qed.

Lemma kills_after_ok ops : acts_on_store restore_action finalize_action -> kills_ok (kills_after ops).
Proof.
  intros Hacts. unfold kills_after. apply (steps_ok no_kills); [|exact no_kills_ok].
  induction ops as [|op ops IH] using rev_ind; [done|]. rewrite foldl_app. simpl. etrans; [exact IH|].
  destruct op; simpl.
  - apply rtc_once, ks_add.
  - by eapply restore_steps.
  - by eapply finalize_steps.
  - by eapply finalize_all_steps.
  - apply rtc_once, ks_hold.
  - by eapply expire_steps.
Qed.

(** C15. Whatever is asked of the store, and whatever the owners' code asks of it
    from within, every kill added so far is pending or has gone exactly once:
    restored, finalized, or replaced under its own key.  Keys are never shared,
    and the snapshot, which is the one listeners were last told of, holds the
    pending kills, newest first. *)
Theorem kills_accounted ops :
  acts_on_store restore_action finalize_action ->
  let s := kills_after ops in
  map entry_no (kill_entries s) ++ map fst (kill_gone s) ≡ₚ seq 0 (kill_next s) /\
  NoDup (map key_of (kill_entries s)) /\
  kill_snapshot s ≡ₚ map kill (kill_entries s) /\ StronglySorted not_older (kill_snapshot s) /\
  (kill_told s <> [] -> last (kill_told s) = Some (kill_snapshot s)).
Proof.
  intros Hacts s. destruct (kills_after_ok ops Hacts) as ((Hnd & Hacc & _) & Es & Et & _). fold s in Hnd, Hacc, Es, Et.
  split_all; [done|done|rewrite Es; apply newest_first_Permutation|rewrite Es; apply newest_first_sorted|].
  intros Hne. by rewrite Et, decide_False.
Qed.

(** C14. No countdown is forgotten.  While one runs the timer is set, for no
    later than its end, or at once where that has passed; a timer that fires at
    its time finds a countdown that is over; and its firing ends every kill whose
    countdown is over, and, where the owners' code leaves the store alone, no
    other: a kill that is held stays. *)
Theorem kills_end_on_time ops :
  acts_on_store restore_action finalize_action ->
  let s := kills_after ops in
  (forall e end_, e ∈ kill_entries s -> countdown_end e = Some end_ ->
     exists t d, kill_timer s = Some (t, d) /\ 0 <= d /\ t + d <= Z.max t end_) /\
  (forall t d now, kill_timer s = Some (t, d) -> t + d <= now ->
     exists e end_, e ∈ kill_entries s /\ countdown_end e = Some end_ /\ end_ <= now) /\
  (forall now e end_, e ∈ kill_entries s -> countdown_end e = Some end_ -> end_ <= now ->
     entry_no e ∈ map fst (kill_gone (expire finalize_action now s))) /\
  ((forall no teardown s', finalize_action no teardown s' = s') ->
     forall now e, e ∈ kill_entries s -> (forall end_, countdown_end e = Some end_ -> now < end_) ->
     e ∈ kill_entries (expire finalize_action now s)).
Proof.
  intros Hacts s. pose proof (kills_after_ok ops Hacts) as (Hcore & _ & _ & Ht). fold s in Hcore, Ht. split_all.
  - intros e end_ He Hr. destruct (timer_soonest s e Ht He) as (t & d & E & Hd).
    { unfold countdown_end in Hr. intros Hn. by rewrite Hn in Hr. }
    exists t, d. rewrite (timeLeft_end e end_ t Hr) in Hd. split; [exact E|lia].
  - intros t d now E Hn. destruct (timer_finds_due s t d now Ht E Hn) as (e & He & (end_ & Hd)%is_due_end). by exists e, end_.
  - intros now e end_ He Hr Hn. eapply expire_ends_due; [done|done|done|]. apply is_due_end. by exists end_.
  - intros Hid now e He Hd. apply expire_keeps; [done|apply Hcore|done|]. apply not_true_iff_false. intros (end_ & Hr & Hn)%is_due_end.
    specialize (Hd end_ Hr). lia.
Qed.

End Runs.

(** Owners that bring a kill back, or end it, without a further call. *)
Definition quiet_restore : nat -> bool -> Kills -> bool * Kills := fun _ _ s => (true, s).
Definition quiet_finalize : nat -> bool -> Kills -> Kills := fun _ _ s => s.

Lemma quiet_acts : acts_on_store quiet_restore quiet_finalize.
Proof. split; by intros. Qed.

(** Two kills, the older held for a while. *)
Definition two_kills : list KillOp :=
  [op_add 0 kill_surface (lit "s1") (lit "workspace:1") None (lit "vim") (lit "pane");
   op_add 4000 kill_workspace (lit "workspace:2") (lit "workspace:2") None (lit "api") (lit "workspace");
   op_hold 5000 (pendingKillKey kill_surface (lit "s1")) true].

Example held_outlives :
  let s := expire quiet_finalize 14000 (kills_after quiet_restore quiet_finalize two_kills) in
  map entry_no (kill_entries s) = [0%nat] /\ kill_gone s = [(1%nat, end_finalized false)] /\ kill_timer s = None.
Proof. vm_compute. done. Qed.

Lemma kills_accounted_witness :
  length (kill_snapshot (kills_after quiet_restore quiet_finalize two_kills)) = 2%nat.
Proof.
  rewrite (proj1 (proj2 (proj2 (kills_accounted quiet_restore quiet_finalize two_kills quiet_acts)))). vm_compute. reflexivity.
Defined.

Lemma kills_end_on_time_witness :
  exists e end_, e ∈ kill_entries (kills_after quiet_restore quiet_finalize two_kills) /\
    countdown_end e = Some end_ /\ end_ <= 14000.
Proof.
  apply (proj1 (proj2 (kills_end_on_time quiet_restore quiet_finalize two_kills quiet_acts)) 5000 9000); [vm_compute; reflexivity|lia].
Defined.
