(* ===== verification/Workspaces.v ===== *)
(** * The Window's Workspaces (lib/src/lib/workspace-store.ts, id-pool.ts, dor/src/protocol.ts)

    The ordered list of Workspaces with its pinned group, the ids a page mints
    for them, and the targets that name one.  Every operation is a function on
    one state; a snapshot handed to listeners is an entry of a log. *)
From Stdlib Require Import ZArith QArith Qround Lia.
From S2P Require Import Prelude TermText PendingKills.
#[local] Open Scope Z_scope.
#[local] Open Scope list_scope.

(** ** Numbers as text *)

Fixpoint dec_digits (fuel : nat) (z : Z) : text :=
  match fuel with
  | O => []
  | S fuel => if z <? 10 then [48 + z] else dec_digits fuel (z / 10) ++ [48 + z mod 10]
  end.

(** A whole number, not negative, as a template literal prints it. *)
Definition dec_text (z : Z) : text := dec_digits (S (Z.to_nat (Z.log2 z))) z.

(** [Number] of a run of digits, exact up to [2 ^ 53]. *)
Definition dec_value (t : text) : Z := foldl (fun n c => 10 * n + (c - 48)) 0 t.

(** [/^\d+$/]. *)
Definition all_digits (t : text) : bool := negb (bool_decide (t = [])) && forallb is_digit_unit t.

(** ** Ids and targets (dor/src/protocol.ts) *)

Definition SURFACE_PREFIX : text := lit "surface:".
Definition WORKSPACE_PREFIX : text := lit "workspace:".
Definition MAX_SAFE_INTEGER : Z := 9007199254740991.

(** [/^[1-9]\d*$/]. *)
Definition NUMERIC_WORKSPACE_REF (t : text) : bool :=
  match t with c :: rest => (49 <=? c) && (c <=? 57) && forallb is_digit_unit rest | [] => false end.

Record ParsedWorkspaceRef := mkParsedRef { ref_target : text; ref_id : text; ref_name : text }.

Definition parseWorkspaceRef (ref : text) : ParsedWorkspaceRef :=
  let target := trim ref in
  let bare := trim (if starts_with WORKSPACE_PREFIX target then drop (length WORKSPACE_PREFIX) target else target) in
  mkParsedRef target (WORKSPACE_PREFIX ++ bare) (if NUMERIC_WORKSPACE_REF bare then [] else bare).

Definition idNumber (prefix id : text) : option Z :=
  let digits := if starts_with prefix id then drop (length prefix) id else [] in
  if all_digits digits && (dec_value digits <=? MAX_SAFE_INTEGER) then Some (dec_value digits) else None.

(** The id of a number's digits, or of a uuid. *)
Definition workspaceIdFor (n : text) : text := WORKSPACE_PREFIX ++ n.
Definition surfaceIdFor (n : text) : text := SURFACE_PREFIX ++ n.

Definition surfaceIdNumber (id : text) : option Z := idNumber SURFACE_PREFIX id.
Definition workspaceIdNumber (id : text) : option Z := idNumber WORKSPACE_PREFIX id.

Definition maxSurfaceIdNumber (ids : list text) : Z := foldl (fun m id => Z.max m (default 0 (surfaceIdNumber id))) 0 ids.

(** ** The id pool (id-pool.ts) *)

(** The closure's variables: [pool_host] is the identity of the installed
    [reserve], [pool_refilling] the promise awaited, [pool_pending] every promise
    not settled with the host it was asked of and the count asked for, and
    [pool_uuid] how many uuids were drawn. *)
Record IdPool := mkIdPool {
  pool_ids : list text;
  pool_host : option nat;
  pool_refilling : option nat;
  pool_local : Z;
  pool_pending : list (nat * nat * nat);
  pool_next : nat;
  pool_uuid : nat
}.

Section IdPool.
  Context (size low : nat) (idFor : text -> text) (localStart : Z) (uuid : nat -> text).
  Implicit Types (p : IdPool) (inUse : text -> bool).

Definition createIdPool : IdPool := mkIdPool [] None None localStart [] 0 0.

(** [fill]: the promise of a block of [count] ids becomes the one awaited. *)
Definition fill (host count : nat) p : IdPool :=
  mkIdPool (pool_ids p) (pool_host p) (Some (pool_next p)) (pool_local p) (pool_pending p ++ [(pool_next p, host, count)]) (S (pool_next p)) (pool_uuid p).

Definition refill p : IdPool :=
  match pool_host p, pool_refilling p with
  | Some host, None => fill host (Nat.max 1 (size - length (pool_ids p))) p
  | _, _ => p
  end.

(** A promise of [fill] resolves with its block, or rejects with none. *)
Definition block_lands (no : nat) (block : list text) p : IdPool :=
  match find (fun e => e.1.1 =? no)%nat (pool_pending p) with
  | Some (_, host, _) =>
      let ids := if bool_decide (pool_host p = Some host) then pool_ids p ++ block else pool_ids p in
      mkIdPool ids (pool_host p) (pool_refilling p) (pool_local p) (filter (fun e => e.1.1 <> no) (pool_pending p)) (pool_next p) (pool_uuid p)
  | None => p
  end.

(** Its [finally], which runs after. *)
Definition block_settled (no : nat) p : IdPool :=
  mkIdPool (pool_ids p) (pool_host p) (if bool_decide (pool_refilling p = Some no) then None else pool_refilling p)
    (pool_local p) (pool_pending p) (pool_next p) (pool_uuid p).

Definition take_id p : option text * IdPool :=
  let id := head (pool_ids p) in
  let p1 := mkIdPool (tail (pool_ids p)) (pool_host p) (pool_refilling p) (pool_local p) (pool_pending p) (pool_next p) (pool_uuid p) in
  (id, if (length (pool_ids p1) <? low)%nat then refill p1 else p1).

Definition next_id p : text * IdPool :=
  match pool_host p with
  | None =>
      let n := pool_local p + 1 in
      (idFor (dec_text n), mkIdPool (pool_ids p) (pool_host p) (pool_refilling p) n (pool_pending p) (pool_next p) (pool_uuid p))
  | Some _ =>
      let '(id, p1) := take_id p in
      match id with
      | Some id => (id, p1)
      | None => (idFor (uuid (pool_uuid p1)),
          mkIdPool (pool_ids p1) (pool_host p1) (pool_refilling p1) (pool_local p1) (pool_pending p1) (pool_next p1) (S (pool_uuid p1)))
      end
  end.

(** [unused] over [next], at most [fuel] times; [None] when they do not suffice. *)
Fixpoint unused (fuel : nat) inUse p : option (text * IdPool) :=
  match fuel with
  | O => None
  | S fuel => let '(id, p1) := next_id p in if inUse id then unused fuel inUse p1 else Some (id, p1)
  end.

(** [install]: [first] is the size of the block its caller asked for. *)
Definition install (host : nat) (first : option nat) p : IdPool :=
  let p1 := mkIdPool [] (Some host) None (pool_local p) (pool_pending p) (pool_next p) (pool_uuid p) in
  match first with Some count => fill host count p1 | None => refill p1 end.

Definition reset_pool p : IdPool := mkIdPool [] None None localStart (pool_pending p) (pool_next p) (pool_uuid p).

Definition seed (n : Z) p : IdPool :=
  mkIdPool (pool_ids p) (pool_host p) (pool_refilling p) (Z.max (pool_local p) n) (pool_pending p) (pool_next p) (pool_uuid p).

(** [minter]: while the burst is not covered it asks its host for the rest; a
    block that comes from a host no longer installed, or is empty, ends that. *)
Record Minter := mkMinter { minter_count : nat; minter_host : option nat; minter_reserved : list text }.

Definition minter_start (count : nat) p : Minter := mkMinter count (pool_host p) [].

Definition minter_asks (m : Minter) p : option nat :=
  match minter_host m with
  | Some host =>
      if bool_decide (pool_host p = Some host) && (length (pool_ids p) <? minter_count m - length (minter_reserved m))%nat
      then Some (minter_count m - length (minter_reserved m) - length (pool_ids p))%nat else None
  | None => None
  end.

(** The answer to its question; [None] ends the loop. *)
Definition minter_gets (m : Minter) (block : list text) p : option Minter :=
  if bool_decide (pool_host p = minter_host m) && negb (bool_decide (block = []))
  then Some (mkMinter (minter_count m) (minter_host m) (minter_reserved m ++ block)) else None.

(** [pooled]: what the pool holds serves the burst first. *)
Fixpoint minter_pooled (fuel : nat) p : list text * IdPool :=
  match fuel with
  | O => ([], p)
  | S fuel =>
      match take_id p with
      | (Some id, p1) => let '(ids, p2) := minter_pooled fuel p1 in (id :: ids, p2)
      | (None, _) => ([], p)
      end
  end.

Definition minter_burst (m : Minter) p : list text * IdPool :=
  let '(pooled, p1) := minter_pooled (minter_count m - length (minter_reserved m)) p in (pooled ++ minter_reserved m, p1).

(** One call of the burst's minter. *)
Fixpoint burst_unused (fuel : nat) inUse (burst : list text) p : option (text * list text * IdPool) :=
  match fuel with
  | O => None
  | S fuel =>
      match burst with
      | id :: burst => if inUse id then burst_unused fuel inUse burst p else Some (id, burst, p)
      | [] => let '(id, p1) := next_id p in if inUse id then burst_unused fuel inUse [] p1 else Some (id, [], p1)
      end
  end.

End IdPool.

(** ** Alert delivery of a Workspace (alert-delivery-model.ts) *)

(** A field of another type, or a number that is not finite, is absent; [null]
    for a voice is the inner [None]. *)
Record AlertDeliveryOverrides := mkDelivery {
  speakEnabled : option bool;
  pushEnabled : option bool;
  speakDelayMs : option Q;
  pushDelayMs : option Q;
  speakVoice : option (option text)
}.

Definition no_overrides : AlertDeliveryOverrides := mkDelivery None None None None None.

Definition MIN_DELAY_MS : Z := 1000.
Definition MAX_DELAY_MS : Z := 600000.

Definition clampAlertDelayMs (ms : Q) : Q := inject_Z (Z.min MAX_DELAY_MS (Z.max MIN_DELAY_MS (Qfloor (ms + (1 # 2))))).

Definition normalizeAlertDeliveryOverrides (raw : AlertDeliveryOverrides) : AlertDeliveryOverrides :=
  mkDelivery (speakEnabled raw) (pushEnabled raw) (option_map clampAlertDelayMs (speakDelayMs raw)) (option_map clampAlertDelayMs (pushDelayMs raw))
    (match speakVoice raw with
     | Some (Some voice) => if (0 <? length voice)%nat && (length voice <=? 1024)%nat then Some (Some voice) else None
     | voice => voice
     end).

(** [a[key] !== b[key]] of two delays. *)
Definition same_delay (a b : option Q) : bool :=
  match a, b with Some a, Some b => Qeq_bool a b | None, None => true | _, _ => false end.

Definition sameAlertDeliveryOverrides (a b : AlertDeliveryOverrides) : bool :=
  bool_decide (speakEnabled a = speakEnabled b) && bool_decide (pushEnabled a = pushEnabled b) &&
  same_delay (speakDelayMs a) (speakDelayMs b) && same_delay (pushDelayMs a) (pushDelayMs b) && bool_decide (speakVoice a = speakVoice b).

(** [Object.keys(alertDelivery).length] is not 0. *)
Definition has_overrides (o : AlertDeliveryOverrides) : bool :=
  negb (bool_decide (speakEnabled o = None) && bool_decide (pushEnabled o = None) &&
    match speakDelayMs o, pushDelayMs o with None, None => true | _, _ => false end && bool_decide (speakVoice o = None)).

(** ** The store *)

Record WorkspaceMeta := mkMeta {
  ws_id : text;
  ws_name : text;
  nameIsAuto : bool;
  pinned : bool;
  alertDelivery : option AlertDeliveryOverrides
}.

Record WorkspacesState := mkState { workspaces : list WorkspaceMeta; activeId : text }.

(** The module's variables: the state, the page's id pool, the snapshots
    listeners were told of, and the name the Window goes by. *)
Record WindowStore := mkWindow {
  win_state : WorkspacesState;
  win_pool : IdPool;
  win_told : list WorkspacesState;
  windowRef : text
}.

Definition DEFAULT_WORKSPACE_ID : text := lit "workspace:1".
Definition DEFAULT_WORKSPACE_NAME : text := lit "Workspace 1".
Definition DEFAULT_WINDOW_REF : text := lit "window:1".
Definition WORKSPACE_ID_POOL_SIZE : nat := 4.
Definition WORKSPACE_ID_POOL_LOW : nat := 3.

Definition defaultState : WorkspacesState := mkState [mkMeta DEFAULT_WORKSPACE_ID DEFAULT_WORKSPACE_NAME true false None] DEFAULT_WORKSPACE_ID.

Definition new_window : WindowStore := mkWindow defaultState (createIdPool 1) [] DEFAULT_WINDOW_REF.

Definition emit (next : WorkspacesState) (s : WindowStore) : WindowStore :=
  mkWindow next (win_pool s) (win_told s ++ [next]) (windowRef s).

Definition set_pool (p : IdPool) (s : WindowStore) : WindowStore := mkWindow (win_state s) p (win_told s) (windowRef s).

Implicit Types (s : WindowStore) (ws : WorkspaceMeta) (l : list WorkspaceMeta) (id name : text).

Definition getActiveWorkspaceId s : text := activeId (win_state s).

Definition find_workspace id l : option WorkspaceMeta := find (fun ws => bool_decide (ws_id ws = id)) l.
Definition hasWorkspace id s : bool := existsb (fun ws => bool_decide (ws_id ws = id)) (workspaces (win_state s)).
Definition getWorkspace id s : option WorkspaceMeta := find_workspace id (workspaces (win_state s)).
Definition isWorkspacePinned id s : bool := match getWorkspace id s with Some ws => pinned ws | None => false end.

(** The number of a [Workspace <n>] name. *)
Definition assigned_number name : option Z :=
  if starts_with (lit "Workspace ") name && all_digits (drop 10 name) then Some (dec_value (drop 10 name)) else None.

Definition higher (m : Z) ws : Z := match assigned_number (ws_name ws) with Some n => Z.max m n | None => m end.

Definition highest_number l : Z := foldl higher 0 l.

(** Past [2 ^ 53] a number is rounded and its printing is not modelled: the name
    that follows is a parameter. *)
Class BigNumberText := { text_after : Z -> text }.

(** A list's length when none is pinned. *)
Definition pinnedBoundary l : nat := default (length l) (find_index pinned l).

Definition partitionPinned l : list WorkspaceMeta :=
  match filter (fun ws => pinned ws = true) l with
  | [] => l
  | group => filter (fun ws => pinned ws = false) l ++ group
  end.

(** [splice(at, 0, ws)]. *)
Definition insert_workspace (at_ : nat) ws l : list WorkspaceMeta := take at_ l ++ ws :: drop at_ l.

Section Store.
  Context `{BigNumberText} (uuid : nat -> text).

Definition nextDefaultName s : text :=
  let max := highest_number (workspaces (win_state s)) in
  lit "Workspace " ++ (if max <=? MAX_SAFE_INTEGER then dec_text (max + 1) else text_after max).

(** [generateWorkspaceId]: the pool skips the ids the Window holds. *)
Definition generateWorkspaceId s : option (text * WindowStore) :=
  match unused WORKSPACE_ID_POOL_SIZE WORKSPACE_ID_POOL_LOW workspaceIdFor uuid
      (S (length (pool_ids (win_pool s)) + length (workspaces (win_state s)))) (fun id => hasWorkspace id s) (win_pool s) with
  | Some (id, p) => Some (id, set_pool p s)
  | None => None
  end.

(** [None] is the throw of a duplicate id. *)
Definition setWorkspaces (next : WorkspacesState) s : option WindowStore :=
  if negb (bool_decide (NoDup (map ws_id (workspaces next)))) then None
  else match workspaces next with
  | [] => Some (emit defaultState s)
  | first :: _ =>
      let active := if existsb (fun ws => bool_decide (ws_id ws = activeId next)) (workspaces next) then activeId next else ws_id first in
      Some (emit (mkState (partitionPinned (workspaces next)) active) s)
  end.

Definition setActiveWorkspace id s : WindowStore :=
  if bool_decide (id = activeId (win_state s)) then s
  else if negb (hasWorkspace id s) then s
  else emit (mkState (workspaces (win_state s)) id) s.

Definition activateWorkspaceAt (index : nat) s : WindowStore :=
  match workspaces (win_state s) !! index with Some target => setActiveWorkspace (ws_id target) s | None => s end.

(** The [opts] of [createWorkspace]; an absent flag is false, [activate] apart. *)
Record CreateOpts := mkCreate {
  new_id : option text; new_name : option text; new_nameIsAuto : bool; new_pinned : bool; new_activate : bool;
  new_alertDelivery : option AlertDeliveryOverrides }.

(** [None] is the throw of a duplicate id. *)
Definition createWorkspace (opts : CreateOpts) s : option (WorkspaceMeta * WindowStore) :=
  if match new_id opts with Some id => hasWorkspace id s | None => false end then None
  else
    match (match new_id opts with Some id => Some (id, s) | None => generateWorkspaceId s end) with
    | None => None
    | Some (id, s1) =>
        let meta := mkMeta id (default (nextDefaultName s) (new_name opts)) (bool_decide (new_name opts = None) || new_nameIsAuto opts)
          (new_pinned opts) (option_map normalizeAlertDeliveryOverrides (new_alertDelivery opts)) in
        let l := workspaces (win_state s1) in
        Some (meta, emit (mkState (insert_workspace (pinnedBoundary l) meta l) (if new_activate opts then id else activeId (win_state s1))) s1)
    end.

Definition replaceWorkspace id (next : WorkspaceMeta) s : WindowStore :=
  emit (mkState (map (fun ws => if decide (ws_id ws = id) then next else ws) (workspaces (win_state s))) (activeId (win_state s))) s.

Definition renameWorkspace id name s : WindowStore :=
  match getWorkspace id s with
  | None => s
  | Some current =>
      if bool_decide (trim name = []) then s
      else replaceWorkspace id (mkMeta (ws_id current) (trim name) false (pinned current) (alertDelivery current)) s
  end.

Definition resumeAutoWorkspaceName id s : WindowStore :=
  match getWorkspace id s with
  | None => s
  | Some current =>
      if nameIsAuto current then s
      else replaceWorkspace id (mkMeta (ws_id current) (ws_name current) true (pinned current) (alertDelivery current)) s
  end.

Definition setAutoWorkspaceName id name s : WindowStore :=
  match getWorkspace id s with
  | None => s
  | Some current =>
      if negb (nameIsAuto current) || bool_decide (ws_name current = name) then s
      else replaceWorkspace id (mkMeta (ws_id current) name (nameIsAuto current) (pinned current) (alertDelivery current)) s
  end.

(** [None] when no id could be minted for the Workspace that replaces the last. *)
Definition closeWorkspace id s : option (bool * WindowStore) :=
  match find_index (fun ws => bool_decide (ws_id ws = id)) (workspaces (win_state s)) with
  | None => Some (false, s)
  | Some index =>
      let rest := filter (fun ws => ws_id ws <> id) (workspaces (win_state s)) in
      let minted := match rest with
        | [] => match generateWorkspaceId s with
                | Some (fresh, s1) => Some ([mkMeta fresh (nextDefaultName s) true false None], s1)
                | None => None
                end
        | _ => Some (rest, s)
        end in
      match minted with
      | None => None
      | Some (l, s1) =>
          let active := if decide (activeId (win_state s) = id)
            then match l !! Nat.min index (length l - 1) with Some ws => ws_id ws | None => [] end
            else activeId (win_state s) in
          Some (true, emit (mkState l active) s1)
      end
  end.

(** The slot a Workspace pinned or not may move to.  Every caller passes an
    integer, which [Math.trunc] leaves as it is. *)
Definition clamp_slot (is_pinned : bool) (toIndex : Z) l : Z :=
  let boundary := Z.of_nat (pinnedBoundary l) in
  let '(min, max) := if is_pinned then (boundary, Z.of_nat (length l) - 1) else (0, boundary - 1) in
  Z.max min (Z.min max toIndex).

Definition moveWorkspace id (toIndex : Z) s : bool * WindowStore :=
  let l := workspaces (win_state s) in
  match find_index (fun ws => bool_decide (ws_id ws = id)) l with
  | None => (false, s)
  | Some from =>
      match l !! from with
      | None => (false, s)
      | Some moved =>
          let to := clamp_slot (pinned moved) toIndex l in
          if Z.of_nat from =? to then (false, s)
          else (true, emit (mkState (insert_workspace (Z.to_nat to) moved (delete from l)) (activeId (win_state s))) s)
      end
  end.

Definition setWorkspacePinned id (pin : bool) s : bool * WindowStore :=
  match getWorkspace id s with
  | None => (false, s)
  | Some current =>
      if bool_decide (pinned current = pin) then (false, s)
      else
        let rest := filter (fun ws => ws_id ws <> id) (workspaces (win_state s)) in
        let next := mkMeta (ws_id current) (ws_name current) (nameIsAuto current) pin (alertDelivery current) in
        (true, emit (mkState (insert_workspace (pinnedBoundary rest) next rest) (activeId (win_state s))) s)
  end.

Definition setWorkspaceAlertDelivery id (value : AlertDeliveryOverrides) s : WindowStore :=
  let delivery := normalizeAlertDeliveryOverrides value in
  match getWorkspace id s with
  | None => s
  | Some current =>
      if sameAlertDeliveryOverrides (default no_overrides (alertDelivery current)) delivery then s
      else emit (mkState (map (fun ws => if decide (ws_id ws = id)
          then mkMeta (ws_id ws) (ws_name ws) (nameIsAuto ws) (pinned ws) (if has_overrides delivery then Some delivery else None)
          else ws) (workspaces (win_state s))) (activeId (win_state s))) s
  end.

Definition resetWorkspaces s : WindowStore := emit defaultState s.

Definition setWindowLabel (label : text) s : WindowStore := mkWindow (win_state s) (win_pool s) (win_told s) (lit "window:" ++ label).

Definition isWindowRef (ref : text) s : bool :=
  bool_decide (trim ref = windowRef s) || bool_decide (lit "window:" ++ trim ref = windowRef s).

End Store.

(** ** Resolving a target *)

Definition hex_digit (d : Z) : Z := if d <? 10 then 48 + d else 87 + d.
Definition unicode_escape (c : Z) : text :=
  lit "\u" ++ [hex_digit (c / 4096 mod 16); hex_digit (c / 256 mod 16); hex_digit (c / 16 mod 16); hex_digit (c mod 16)].

Definition is_lead (c : Z) : bool := (55296 <=? c) && (c <=? 56319).
Definition is_trail (c : Z) : bool := (56320 <=? c) && (c <=? 57343).

(** The characters of [JSON.stringify] of a string: a surrogate without its
    partner is escaped. *)
Fixpoint json_chars (t : text) : text :=
  match t with
  | [] => []
  | c :: rest =>
      if c =? 34 then [92; 34] ++ json_chars rest
      else if c =? 92 then [92; 92] ++ json_chars rest
      else if c =? 8 then lit "\b" ++ json_chars rest
      else if c =? 9 then lit "\t" ++ json_chars rest
      else if c =? 10 then lit "\n" ++ json_chars rest
      else if c =? 12 then lit "\f" ++ json_chars rest
      else if c =? 13 then lit "\r" ++ json_chars rest
      else if (c <? 32) || is_trail c then unicode_escape c ++ json_chars rest
      else if is_lead c then
        match rest with
        | d :: rest' => if is_trail d then c :: d :: json_chars rest' else unicode_escape c ++ json_chars rest
        | [] => unicode_escape c
        end
      else c :: json_chars rest
  end.

Definition json_text (t : text) : text := 34 :: json_chars t ++ [34].

Inductive WorkspaceRefResolution := ref_ok (ws : WorkspaceMeta) | ref_error (message : text).

(** [parts.join(', ')]. *)
Fixpoint join_comma (parts : list text) : text :=
  match parts with [] => [] | [part] => part | part :: parts => part ++ lit ", " ++ join_comma parts end.

(** [pending] is [getPendingKills()]. *)
Definition resolveWorkspaceRef (pending : list PendingKill) (ref : text) s : WorkspaceRefResolution :=
  let r := parseWorkspaceRef ref in
  let l := workspaces (win_state s) in
  match find_workspace (ref_id r) l with
  | Some ws => ref_ok ws
  | None =>
      let matches := if bool_decide (ref_name r = []) then [] else filter (fun ws => ws_name ws = ref_name r) l in
      match matches with
      | [ws] => ref_ok ws
      | _ :: _ =>
          ref_error (lit "workspace target '" ++ ref_target r ++ lit "' matched multiple Workspaces: " ++
            join_comma (map (fun ws => ws_id ws ++ lit " " ++ json_text (ws_name ws)) matches))
      | [] =>
          if existsb (fun k => bool_decide (kill_kind k = kill_workspace) &&
               (bool_decide (kill_id k = ref_id r) || (negb (bool_decide (ref_name r = [])) && bool_decide (kill_title k = ref_name r)))) pending
          then ref_error (lit "workspace '" ++ ref_target r ++ lit "' is a pending kill")
          else ref_error (lit "unknown workspace target '" ++ ref_target r ++ lit "'")
      end
  end.

(** ** Numbers *)

Lemma dec_value_app t c : dec_value (t ++ [c]) = 10 * dec_value t + (c - 48).
Proof. unfold dec_value. by rewrite foldl_app. Qed.

Lemma dec_digits_spec fuel z :
  0 <= z < 2 ^ Z.of_nat (S fuel) ->
  dec_digits (S fuel) z <> [] /\ forallb is_digit_unit (dec_digits (S fuel) z) = true /\ dec_value (dec_digits (S fuel) z) = z.
Proof.
  assert (Hd : forall d, 0 <= d < 10 -> is_digit_unit (48 + d) = true) by (intros d Hd; unfold is_digit_unit; lia).
  revert z. induction fuel as [|fuel IH]; intros z Hz.
  - assert (E : dec_digits 1 z = [48 + z]) by (cbn [dec_digits]; by replace (z <? 10) with true by lia).
    rewrite E. split_all; [done|cbn [forallb]; rewrite Hd by lia; done|unfold dec_value; cbn [foldl]; lia].
  - cbn [dec_digits]. destruct (z <? 10) eqn:E.
    + split_all; [done|cbn [forallb]; rewrite Hd by lia; done|unfold dec_value; cbn [foldl]; lia].
    + destruct (IH (z / 10)) as (H1 & H2 & H3).
      { split; [apply Z.div_pos; lia|]. apply Z.div_lt_upper_bound; [lia|]. rewrite Nat2Z.inj_succ, Z.pow_succ_r in Hz by lia. lia. }
      change (if z / 10 <? 10 then [48 + z / 10] else dec_digits fuel (z / 10 / 10) ++ [48 + z / 10 mod 10])
        with (dec_digits (S fuel) (z / 10)).
      pose proof (Z.mod_pos_bound z 10). split_all.
      * by destruct (dec_digits (S fuel) (z / 10)).
      * rewrite forallb_app, H2. cbn [forallb]. by rewrite Hd by lia.
      * rewrite dec_value_app, H3. pose proof (Z.div_mod z 10). lia.
Qed.

Lemma dec_text_spec z : 0 <= z -> all_digits (dec_text z) = true /\ dec_value (dec_text z) = z.
Proof.
  intros Hz. unfold dec_text. destruct (dec_digits_spec (Z.to_nat (Z.log2 z)) z) as (H1 & H2 & H3).
  { split; [done|]. rewrite Nat2Z.inj_succ, Z2Nat.id by apply Z.log2_nonneg.
    destruct (decide (z = 0)) as [->|Hne]; [done|]. apply Z.log2_spec. lia. }
  split; [|done]. unfold all_digits. by rewrite bool_decide_false, H2 by done.
Qed.

Lemma dec_text_inj a b : 0 <= a -> 0 <= b -> dec_text a = dec_text b -> a = b.
Proof. intros Ha Hb E. by rewrite <- (proj2 (dec_text_spec a Ha)), <- (proj2 (dec_text_spec b Hb)), E. Qed.

Lemma starts_with_prefix (prefix t : text) : starts_with prefix (prefix ++ t) = true.
Proof. unfold starts_with. rewrite take_app_length. by apply bool_decide_true. Qed.

(** The number of an id is the one it was made of. *)
Lemma id_number_round_trip prefix n : 0 <= n <= MAX_SAFE_INTEGER -> idNumber prefix (prefix ++ dec_text n) = Some n.
Proof.
  intros Hn. unfold idNumber. rewrite starts_with_prefix, drop_app_length. destruct (dec_text_spec n) as [-> ->]; [lia|].
  by replace (n <=? MAX_SAFE_INTEGER) with true by lia.
Qed.

Lemma higher_grows l m : m <= foldl higher m l.
Proof.
  revert m. induction l as [|x l IH]; intros m; [done|]. cbn [foldl]. etrans; [|apply IH].
  unfold higher. destruct (assigned_number _); lia.
Qed.

Lemma highest_number_bound l ws n m : ws ∈ l -> assigned_number (ws_name ws) = Some n -> n <= foldl higher m l.
Proof.
  revert m. induction l as [|x l IH]; intros m Hin Hn; [by apply elem_of_nil in Hin|]. cbn [foldl].
  apply elem_of_cons in Hin as [->|Hin]; [|by apply IH]. etrans; [|apply higher_grows]. unfold higher. rewrite Hn. lia.
Qed.

(** The default name is no Workspace's. *)
Lemma nextDefaultName_fresh `{BigNumberText} s ws :
  highest_number (workspaces (win_state s)) <= MAX_SAFE_INTEGER -> ws ∈ workspaces (win_state s) -> ws_name ws <> nextDefaultName s.
Proof.
  intros Hmax Hin E. unfold nextDefaultName in E. set (max := highest_number _) in *.
  replace (max <=? MAX_SAFE_INTEGER) with true in E by lia.
  assert (H0 : 0 <= max) by apply higher_grows.
  destruct (dec_text_spec (max + 1)) as [Hd Hv]; [lia|].
  pose proof (highest_number_bound _ ws (max + 1) 0 Hin) as Hb. fold (highest_number (workspaces (win_state s))) in Hb. fold max in Hb.
  enough (max + 1 <= max) by lia. apply Hb. rewrite E. unfold assigned_number. rewrite starts_with_prefix.
  change (drop 10 (lit "Workspace " ++ dec_text (max + 1))) with (dec_text (max + 1)). by rewrite Hd, Hv.
Qed.

(** ** Minting *)

Section Minting.
  Context (size low : nat) (idFor : text -> text) (uuid : nat -> text).
  Hypothesis idFor_inj : forall a b, idFor a = idFor b -> a = b.
  Hypothesis uuid_inj : forall i j, uuid i = uuid j -> i = j.

(** An id the pool may still make up: one past the page's own counter, or of a
    uuid not drawn yet. *)
Definition may_make (p : IdPool) (id : text) : Prop :=
  match pool_host p with
  | None => exists n, pool_local p < n /\ id = idFor (dec_text n)
  | Some _ => exists k, (pool_uuid p <= k)%nat /\ id = idFor (uuid k)
  end.

Lemma refill_same p : pool_ids (refill size p) = pool_ids p /\ pool_host (refill size p) = pool_host p /\
  pool_local (refill size p) = pool_local p /\ pool_uuid (refill size p) = pool_uuid p.
Proof. unfold refill. destruct (pool_host p) eqn:E, (pool_refilling p); simpl; by rewrite ?E. Qed.

Lemma take_same p : let '(id, p1) := take_id size low p in
  id = head (pool_ids p) /\ pool_ids p1 = tail (pool_ids p) /\ pool_host p1 = pool_host p /\ pool_local p1 = pool_local p /\ pool_uuid p1 = pool_uuid p.
Proof.
  unfold take_id. simpl. destruct (_ <? low)%nat; [|done].
  destruct (refill_same (mkIdPool (tail (pool_ids p)) (pool_host p) (pool_refilling p) (pool_local p) (pool_pending p) (pool_next p) (pool_uuid p)))
    as (-> & -> & -> & ->). done.
Qed.

(** A try uses up an id in hand, or one the pool will not make up again. *)
Lemma next_id_spec p : 0 <= pool_local p -> let '(id, p1) := next_id size low idFor uuid p in
  pool_host p1 = pool_host p /\ pool_local p <= pool_local p1 /\ (forall x, may_make p1 x -> may_make p x) /\
  (length (pool_ids p1) < length (pool_ids p) \/ pool_ids p1 = pool_ids p /\ may_make p id /\ ~ may_make p1 id)%nat.
Proof.
  intros H0. unfold next_id, may_make. destruct (pool_host p) as [host|] eqn:Eh.
  - pose proof (take_same p) as Ht. destruct (take_id size low p) as [o p1]. destruct Ht as (-> & Ei & E1 & E2 & E3).
    destruct (pool_ids p) as [|id ids] eqn:Ep; simpl in *; rewrite E1, ?E2, ?E3, Eh.
    + split_all; [done|done|intros x (k & Hk & ->); exists k; split; [lia|done]|]. right. split_all; [done|by exists (pool_uuid p)|].
      intros (k & Hk & E). apply idFor_inj, uuid_inj in E. lia.
    + split_all; [done|done|done|]. left. rewrite Ei. lia.
  - simpl. split_all; [done|lia|intros x (n & Hn & ->); exists n; split; [lia|done]|]. right.
    split_all; [done|exists (pool_local p + 1); split; [lia|done]|].
    intros (n & Hn & E). apply idFor_inj, dec_text_inj in E; lia.
Qed.

Lemma without_length (id : text) (l : list text) : id ∈ l -> (length (filter (fun x => x <> id) l) < length l)%nat.
Proof.
  intros Hin. apply list_elem_of_split in Hin as (l1 & l2 & ->). rewrite filter_app, filter_cons_False, !length_app by tauto. simpl.
  pose proof (length_filter (fun x => x <> id) l1). pose proof (length_filter (fun x => x <> id) l2). lia.
Qed.

Lemma unused_spec fuel inUse p used :
  0 <= pool_local p -> (forall id, inUse id = true -> may_make p id -> id ∈ used) ->
  (length (pool_ids p) + length used < fuel)%nat ->
  exists id p1, unused size low idFor uuid fuel inUse p = Some (id, p1) /\ inUse id = false /\ pool_local p <= pool_local p1.
Proof.
  revert p used. induction fuel as [|fuel IH]; intros p used H0 Hu Hf; [lia|]. cbn [unused].
  pose proof (next_id_spec p H0) as Hn. destruct (next_id size low idFor uuid p) as [id p1].
  destruct Hn as (_ & Hl & Hm & Hc). destruct (inUse id) eqn:Ei; [|by exists id, p1].
  assert (G : exists used', (forall x, inUse x = true -> may_make p1 x -> x ∈ used') /\ (length (pool_ids p1) + length used' < fuel)%nat).
  { destruct Hc as [Hc|(Hc & Hmk & Hnot)]; [exists used; split; [eauto|lia]|].
    exists (filter (fun x => x <> id) used). split.
    - intros x Hx Hmx. apply list_elem_of_filter. split; [by intros ->|eauto].
    - pose proof (without_length id used (Hu id Ei Hmk)). rewrite Hc. lia. }
  destruct G as (used' & Hu' & Hf'). destruct (IH p1 used') as (id' & p2 & E & E1 & E2); [lia|done|done|].
  exists id', p2. split_all; [done|done|lia].
Qed.

End Minting.

(** ** The two groups *)

(** Unpinned Workspaces, then pinned ones. *)
Definition partitioned l : Prop :=
  exists l1 l2, l = l1 ++ l2 /\ Forall (fun ws => pinned ws = false) l1 /\ Forall (fun ws => pinned ws = true) l2.

Lemma find_index_absent {A} (p : A -> bool) (l : list A) : Forall (fun x => p x = false) l -> find_index p l = None.
Proof. induction 1 as [|x l Hx _ IH]; [done|]. simpl. by rewrite Hx, IH. Qed.

Lemma boundary_of l1 l2 :
  Forall (fun ws => pinned ws = false) l1 -> Forall (fun ws => pinned ws = true) l2 -> pinnedBoundary (l1 ++ l2) = length l1.
Proof.
  intros H1 H2. unfold pinnedBoundary. destruct l2 as [|x l2].
  - rewrite app_nil_r, find_index_absent by done. done.
  - apply Forall_cons in H2 as [Hx _]. by rewrite find_index_intro.
Qed.

Lemma boundary_unpinned l : partitioned l -> pinnedBoundary l = length (filter (fun ws => pinned ws = false) l).
Proof.
  intros (l1 & l2 & -> & H1 & H2). rewrite boundary_of, filter_app, length_app by done.
  rewrite (filter_all _ l1) by (by apply Forall_forall).
  assert (filter (fun ws => pinned ws = false) l2 = []) as ->; [|by rewrite Nat.add_0_r].
  induction H2 as [|ws l2 Hws _ IH]; [done|]. rewrite filter_cons, decide_False by congruence. exact IH.
Qed.

Lemma insert_at_boundary l1 ws l2 : insert_workspace (length l1) ws (l1 ++ l2) = l1 ++ ws :: l2.
Proof. unfold insert_workspace. by rewrite take_app_length, drop_app_length. Qed.

Lemma insert_partitioned ws l : partitioned l -> partitioned (insert_workspace (pinnedBoundary l) ws l).
Proof.
  intros (l1 & l2 & -> & H1 & H2). rewrite boundary_of, insert_at_boundary by done. destruct (pinned ws) eqn:E.
  - exists l1, (ws :: l2). split_all; [done|done|by constructor].
  - exists (l1 ++ [ws]), l2. split_all; [by rewrite <- (assoc_L (++))|apply Forall_app; by repeat constructor|done].
Qed.

Lemma Forall_filter_sub {A} (P Q : A -> Prop) `{!forall x, Decision (Q x)} (l : list A) : Forall P l -> Forall P (filter Q l).
Proof. rewrite !Forall_forall. intros Hl x Hx. apply list_elem_of_filter in Hx as [_ Hx]. by apply Hl. Qed.

Lemma filter_partitioned (P : WorkspaceMeta -> Prop) `{!forall ws, Decision (P ws)} l : partitioned l -> partitioned (filter P l).
Proof.
  intros (l1 & l2 & -> & H1 & H2). exists (filter P l1), (filter P l2). split_all; [apply filter_app|by apply Forall_filter_sub..].
Qed.

Lemma map_partitioned (f : WorkspaceMeta -> WorkspaceMeta) l :
  (forall ws, ws ∈ l -> pinned (f ws) = pinned ws) -> partitioned l -> partitioned (map f l).
Proof.
  intros Hf (l1 & l2 & -> & H1 & H2). exists (map f l1), (map f l2). split_all; [apply map_app| |].
  - apply Forall_forall. intros y Hy. apply list_elem_of_fmap in Hy as (x & -> & Hx). rewrite Forall_forall in H1.
    rewrite Hf; [by apply H1|apply elem_of_app; by left].
  - apply Forall_forall. intros y Hy. apply list_elem_of_fmap in Hy as (x & -> & Hx). rewrite Forall_forall in H2.
    rewrite Hf; [by apply H2|apply elem_of_app; by right].
Qed.

Lemma partitionPinned_Permutation l : partitionPinned l ≡ₚ l.
Proof.
  unfold partitionPinned. destruct (filter (fun ws => pinned ws = true) l) eqn:E; [done|]. rewrite <- E. clear.
  induction l as [|x l IH]; [done|]. rewrite !filter_cons. destruct (pinned x); simpl.
  - rewrite <- Permutation_middle. by rewrite IH.
  - by rewrite IH.
Qed.

Lemma partitionPinned_partitioned l : partitioned (partitionPinned l).
Proof.
  unfold partitionPinned. destruct (filter (fun ws => pinned ws = true) l) eqn:E.
  - exists l, []. split_all; [by rewrite app_nil_r| |done]. apply Forall_forall. intros x Hx. destruct (pinned x) eqn:Ex; [|done].
    exfalso. apply (not_elem_of_nil x). rewrite <- E. by apply list_elem_of_filter.
  - rewrite <- E. eexists _, _. split_all; [done| |]; apply Forall_forall; intros x Hx; by apply list_elem_of_filter in Hx as [? _].
Qed.

(** ** The invariant *)

Definition window_ok s : Prop :=
  workspaces (win_state s) <> [] /\ NoDup (map ws_id (workspaces (win_state s))) /\
  activeId (win_state s) ∈ map ws_id (workspaces (win_state s)) /\ partitioned (workspaces (win_state s)) /\
  0 <= pool_local (win_pool s) /\ (win_told s <> [] -> last (win_told s) = Some (win_state s)).

Lemma emit_ok next s :
  workspaces next <> [] -> NoDup (map ws_id (workspaces next)) -> activeId next ∈ map ws_id (workspaces next) ->
  partitioned (workspaces next) -> 0 <= pool_local (win_pool s) -> window_ok (emit next s).
Proof. intros H1 H2 H3 H4 H5. unfold window_ok. split_all; [done..|]. intros _. simpl. by rewrite last_snoc. Qed.

Lemma default_ok s : 0 <= pool_local (win_pool s) -> window_ok (emit defaultState s).
Proof.
  intros Hp. apply emit_ok; [done|apply NoDup_singleton|by left| |done].
  exists [mkMeta DEFAULT_WORKSPACE_ID DEFAULT_WORKSPACE_NAME true false None], []. by repeat constructor.
Qed.

Lemma hasWorkspace_spec id s : hasWorkspace id s = true <-> id ∈ map ws_id (workspaces (win_state s)).
Proof.
  unfold hasWorkspace. rewrite existsb_exists. split.
  - intros (ws & Hin & E). apply bool_decide_eq_true in E as <-. apply list_elem_of_fmap_2. by apply list_elem_of_In.
  - intros Hin. apply list_elem_of_fmap in Hin as (ws & -> & Hin). exists ws. split; [by apply list_elem_of_In|by apply bool_decide_true].
Qed.

Lemma find_workspace_Some id l ws : find_workspace id l = Some ws -> ws ∈ l /\ ws_id ws = id.
Proof.
  unfold find_workspace. intros E. apply find_some in E as [Hin E]. apply bool_decide_eq_true in E.
  split; [by apply list_elem_of_In|done].
Qed.

Section Consistency.
  Context `{BigNumberText} (uuid : nat -> text).
  Hypothesis uuid_inj : forall i j, uuid i = uuid j -> i = j.

(** The Window can always mint an id it does not hold. *)
Lemma generate_fresh s :
  0 <= pool_local (win_pool s) ->
  exists id s1, generateWorkspaceId uuid s = Some (id, s1) /\ id ∉ map ws_id (workspaces (win_state s)) /\
    win_state s1 = win_state s /\ 0 <= pool_local (win_pool s1).
Proof.
  intros H0. unfold generateWorkspaceId.
  destruct (unused_spec WORKSPACE_ID_POOL_SIZE WORKSPACE_ID_POOL_LOW workspaceIdFor uuid (fun a b => app_inv_head _ a b) uuid_inj
    (S (length (pool_ids (win_pool s)) + length (workspaces (win_state s)))) (fun id => hasWorkspace id s) (win_pool s)
    (map ws_id (workspaces (win_state s)))) as (id & p1 & E & Ei & Hl); [done|by intros id Hid _; apply hasWorkspace_spec|rewrite length_map; lia|].
  rewrite E. exists id, (set_pool p1 s). split_all; [done| |done|simpl; lia].
  intros Hin. apply hasWorkspace_spec in Hin. congruence.
Qed.

Lemma insert_ids at_ ws l : map ws_id (insert_workspace at_ ws l) ≡ₚ ws_id ws :: map ws_id l.
Proof.
  unfold insert_workspace. rewrite map_app. simpl. rewrite <- Permutation_middle, <- map_app, take_drop. done.
Qed.

Lemma create_ok opts s : window_ok s -> match createWorkspace uuid opts s with Some (_, s') => window_ok s' | None => True end.
Proof.
  intros (Hne & Hnd & Ha & Hp & H0 & _). unfold createWorkspace.
  destruct (match new_id opts with Some id => hasWorkspace id s | None => false end) eqn:Ed; [done|].
  assert (G : exists id s1, match new_id opts with Some id => Some (id, s) | None => generateWorkspaceId uuid s end = Some (id, s1) /\
    id ∉ map ws_id (workspaces (win_state s)) /\ win_state s1 = win_state s /\ 0 <= pool_local (win_pool s1)).
  { destruct (new_id opts) as [id|]; [|by apply generate_fresh]. exists id, s. split_all; [done| |done|done].
    intros Hin. apply hasWorkspace_spec in Hin. congruence. }
  destruct G as (id & s1 & -> & Hid & E1 & H1). rewrite E1. set (meta := mkMeta _ _ _ _ _). apply emit_ok; simpl.
  - unfold insert_workspace. by destruct (take _ _).
  - rewrite insert_ids. by constructor.
  - rewrite insert_ids. destruct (new_activate opts); [by left|]. by right.
  - by apply insert_partitioned.
  - done.
Qed.

Lemma replace_tab_ok id next s :
  window_ok s -> ws_id next = id -> (forall ws, ws ∈ workspaces (win_state s) -> ws_id ws = id -> pinned next = pinned ws) ->
  window_ok (replaceWorkspace id next s).
Proof.
  intros (Hne & Hnd & Ha & Hp & H0 & _) Hi Hpin. unfold replaceWorkspace. set (f := fun ws => if decide _ then _ else _).
  assert (E : map ws_id (map f (workspaces (win_state s))) = map ws_id (workspaces (win_state s))).
  { rewrite map_map. apply map_ext. intros ws. unfold f. case_decide; congruence. }
  apply emit_ok; simpl; rewrite ?E; [|done|done| |done].
  - by destruct (workspaces (win_state s)).
  - apply map_partitioned; [|done]. intros ws Hws. unfold f. case_decide; [by apply Hpin|done].
Qed.

(** Two entries of one id are one. *)
Lemma same_id_same s ws ws' :
  NoDup (map ws_id (workspaces (win_state s))) -> ws ∈ workspaces (win_state s) -> ws' ∈ workspaces (win_state s) -> ws_id ws = ws_id ws' -> ws = ws'.
Proof.
  intros Hnd H1 H2 E. apply list_elem_of_lookup in H1 as [i Hi], H2 as [j Hj].
  assert (i = j) as <-; [|congruence]. apply (NoDup_lookup _ _ _ (ws_id ws) Hnd); rewrite (list_lookup_fmap ws_id).
  - by rewrite Hi.
  - by rewrite Hj, E.
Qed.

(** A replacement of one found Workspace that keeps its id and pin. *)
Lemma replace_found_ok id current next s :
  window_ok s -> getWorkspace id s = Some current -> ws_id next = ws_id current -> pinned next = pinned current ->
  window_ok (replaceWorkspace id next s).
Proof.
  intros Hok Hg Hi Hpin. apply find_workspace_Some in Hg as [Hin Hid]. apply replace_tab_ok; [done|congruence|].
  intros ws Hws E. rewrite Hpin. f_equal. apply (same_id_same s); [apply Hok|done|done|congruence].
Qed.

Lemma close_ok id s : window_ok s -> match closeWorkspace uuid id s with Some (_, s') => window_ok s' | None => False end.
Proof.
  intros Hok. pose proof Hok as (Hne & Hnd & Ha & Hp & H0 & _). unfold closeWorkspace.
  destruct (find_index _ _) as [index|] eqn:Ef; [|done].
  set (rest := filter (fun ws => ws_id ws <> id) (workspaces (win_state s))).
  assert (G : exists l s1, match rest with [] => match generateWorkspaceId uuid s with
       | Some (fresh, s1) => Some ([mkMeta fresh (nextDefaultName s) true false None], s1) | None => None end
     | _ => Some (rest, s) end = Some (l, s1) /\ l <> [] /\ NoDup (map ws_id l) /\ partitioned l /\ 0 <= pool_local (win_pool s1) /\
     (activeId (win_state s) <> id -> activeId (win_state s) ∈ map ws_id l)).
  { destruct rest as [|ws rest'] eqn:Er.
    - destruct (generate_fresh s H0) as (fresh & s1 & -> & _ & _ & H1). eexists _, s1. split_all; [done|done|apply NoDup_singleton| |done|].
      + eexists [_], []. split_all; [done|by repeat constructor|done].
      + intros Hact. exfalso. apply list_elem_of_fmap in Ha as (x & Ex & Hx). apply (not_elem_of_nil x). rewrite <- Er.
        apply list_elem_of_filter. split; [congruence|done].
    - rewrite <- Er. exists rest, s. split_all; [done|by rewrite Er| |by apply filter_partitioned|done|].
      + unfold rest. clear -Hnd. induction (workspaces (win_state s)) as [|x l IH]; [done|]. simpl in Hnd. apply NoDup_cons in Hnd as [H1 H2].
        rewrite filter_cons. case_decide; [|by apply IH]. simpl. constructor; [|by apply IH].
        intros Hin. apply H1. apply list_elem_of_fmap in Hin as (y & -> & Hy). apply list_elem_of_filter in Hy as [_ Hy]. by apply list_elem_of_fmap_2.
      + intros Hact. apply list_elem_of_fmap in Ha as (x & Ex & Hx). apply list_elem_of_fmap. exists x.
        split; [done|]. apply list_elem_of_filter. split; [congruence|done]. }
  destruct G as (l & s1 & -> & Hl & Hnd' & Hp' & H1 & Hact). apply emit_ok; simpl; [done|done| |done|done].
  case_decide as Hc; [|by apply Hact].
  assert (Hlt : (Nat.min index (length l - 1) < length l)%nat) by (destruct l; [done|simpl; lia]).
  apply lookup_lt_is_Some in Hlt as [ws Hws]. rewrite Hws. apply list_elem_of_fmap_2. by eapply list_elem_of_lookup_2.
Qed.

End Consistency.

(** ** Moving and pinning *)

Lemma Forall_insert (P : WorkspaceMeta -> Prop) at_ ws l : P ws -> Forall P l -> Forall P (insert_workspace at_ ws l).
Proof. intros Hw Hl. unfold insert_workspace. apply Forall_app. split; [by apply Forall_take|]. constructor; [done|by apply Forall_drop]. Qed.

Lemma insert_left at_ ws l l' : (at_ <= length l)%nat -> insert_workspace at_ ws (l ++ l') = insert_workspace at_ ws l ++ l'.
Proof. intros Hle. unfold insert_workspace. by rewrite take_app_le, drop_app_le, <- (assoc_L (++)) by done. Qed.

Lemma insert_right at_ ws l l' : (length l <= at_)%nat -> insert_workspace at_ ws (l ++ l') = l ++ insert_workspace (at_ - length l) ws l'.
Proof. intros Hle. unfold insert_workspace. by rewrite take_app_ge, drop_app_ge, <- (assoc_L (++)) by done. Qed.

(** Where a Workspace of each group sits, and what removing it leaves. *)
Lemma taken_out l from moved :
  partitioned l -> l !! from = Some moved ->
  exists l1 l2, l = l1 ++ l2 /\ Forall (fun ws => pinned ws = false) l1 /\ Forall (fun ws => pinned ws = true) l2 /\
    ((pinned moved = false /\ exists a b, l1 = a ++ moved :: b /\ delete from l = (a ++ b) ++ l2 /\ from = length a) \/
     (pinned moved = true /\ exists a b, l2 = a ++ moved :: b /\ delete from l = l1 ++ a ++ b /\ from = length l1 + length a))%nat.
Proof.
  intros (l1 & l2 & -> & H1 & H2) Hf. exists l1, l2. split_all; [done..|]. rewrite Forall_forall in H1, H2.
  destruct (decide (from < length l1)%nat) as [Hlt|Hge].
  - left. rewrite lookup_app_l in Hf by done. split; [apply H1; by eapply list_elem_of_lookup_2|].
    destruct (list_elem_of_split_length l1 from moved Hf) as (a & b & E & El). exists a, b. split_all; [done| |done].
    rewrite E, El, <- (assoc_L (++)). simpl. rewrite delete_middle. by rewrite (assoc_L (++)).
  - right. rewrite lookup_app_r in Hf by lia. split; [apply H2; by eapply list_elem_of_lookup_2|].
    destruct (list_elem_of_split_length l2 _ moved Hf) as (a & b & E & El). exists a, b. split_all; [done| |lia].
    rewrite E. replace from with (length (l1 ++ a)) by (rewrite length_app; lia). rewrite (assoc_L (++)), delete_middle.
    by rewrite <- (assoc_L (++)).
Qed.

Lemma moved_partitioned l from moved toIndex :
  partitioned l -> l !! from = Some moved ->
  let to := Z.to_nat (clamp_slot (pinned moved) toIndex l) in
  partitioned (insert_workspace to moved (delete from l)) /\
  insert_workspace to moved (delete from l) !! to = Some moved /\ (to < length l)%nat /\ 0 <= clamp_slot (pinned moved) toIndex l.
Proof.
  intros Hp Hf to. destruct (taken_out l from moved Hp Hf) as (l1 & l2 & -> & H1 & H2 & Hc).
  assert (Hat : forall at_ x, (at_ <= length x)%nat -> insert_workspace at_ moved x !! at_ = Some moved).
  { intros at_ x Hle. unfold insert_workspace. rewrite lookup_app_r by (rewrite length_take; lia).
    rewrite length_take, Nat.min_l, Nat.sub_diag by done. done. }
  assert (Ec : clamp_slot (pinned moved) toIndex (l1 ++ l2) =
    let '(min, max) := if pinned moved then (Z.of_nat (length l1), Z.of_nat (length l1 + length l2) - 1) else (0, Z.of_nat (length l1) - 1) in
    Z.max min (Z.min max toIndex)) by (unfold clamp_slot; by rewrite boundary_of, length_app by done).
  subst to. rewrite Ec. clear Ec. rewrite length_app.
  destruct Hc as [(Ep & a & b & E & Ed & _)|(Ep & a & b & E & Ed & _)]; rewrite Ep, Ed; cbv zeta beta iota; set (to := Z.to_nat _).
  - assert (Hl : length l1 = S (length (a ++ b))) by (rewrite E, !length_app; simpl; lia).
    assert (Hto : (to <= length (a ++ b))%nat) by (unfold to; lia). split_all; [|apply Hat; rewrite length_app; lia|lia|lia].
    rewrite insert_left by done. exists (insert_workspace to moved (a ++ b)), l2. split_all; [done| |done].
    apply Forall_insert; [done|]. rewrite E in H1. apply Forall_app in H1 as [Ha Hb]. apply Forall_cons in Hb as [_ Hb]. by apply Forall_app.
  - assert (Hl : length l2 = S (length (a ++ b))) by (rewrite E, !length_app; simpl; lia).
    assert (Hto : (length l1 <= to <= length l1 + length (a ++ b))%nat) by (unfold to; lia).
    split_all; [|apply Hat; rewrite length_app; lia|lia|lia].
    rewrite insert_right by lia. exists l1, (insert_workspace (to - length l1) moved (a ++ b)). split_all; [done|done|].
    apply Forall_insert; [done|]. rewrite E in H2. apply Forall_app in H2 as [Ha Hb]. apply Forall_cons in Hb as [_ Hb]. by apply Forall_app.
Qed.

Lemma ids_keep_NoDup (P : WorkspaceMeta -> Prop) `{!forall ws, Decision (P ws)} l : NoDup (map ws_id l) -> NoDup (map ws_id (filter P l)).
Proof.
  intros Hnd. induction l as [|x l IH]; [done|]. simpl in Hnd. apply NoDup_cons in Hnd as [H1 H2].
  rewrite filter_cons. case_decide; [|by apply IH]. simpl. constructor; [|by apply IH].
  intros Hin. apply H1. apply list_elem_of_fmap in Hin as (y & -> & Hy). apply list_elem_of_filter in Hy as [_ Hy]. by apply list_elem_of_fmap_2.
Qed.

Lemma find_index_of id l from : find_index (fun ws => bool_decide (ws_id ws = id)) l = Some from ->
  exists moved, l !! from = Some moved /\ ws_id moved = id.
Proof. intros E. apply find_index_Some in E as (x & Hx & Ei & _). apply bool_decide_eq_true in Ei. by exists x. Qed.

Lemma insert_delete_Permutation to from moved l :
  l !! from = Some moved -> insert_workspace to moved (delete from l) ≡ₚ l.
Proof.
  intros Hf. unfold insert_workspace. rewrite <- Permutation_middle, take_drop.
  destruct (list_elem_of_split_length l from moved Hf) as (a & b & -> & ->). rewrite delete_middle. by rewrite Permutation_middle.
Qed.

Lemma move_tab_ok id toIndex s : window_ok s -> window_ok (moveWorkspace id toIndex s).2.
Proof.
  intros Hok. pose proof Hok as (Hne & Hnd & Ha & Hp & H0 & _). unfold moveWorkspace.
  destruct (find_index _ _) as [from|] eqn:Ef; [|done]. destruct (find_index_of _ _ _ Ef) as (moved & Hm & _). rewrite Hm.
  destruct (_ =? _); [done|]. cbn [snd].
  pose proof (insert_delete_Permutation (Z.to_nat (clamp_slot (pinned moved) toIndex (workspaces (win_state s)))) from moved _ Hm) as HP.
  destruct (moved_partitioned _ _ _ toIndex Hp Hm) as (Hp' & _). apply emit_ok; simpl; [| | |done|done].
  - intros E. rewrite E in HP. by apply Permutation_nil_l in HP.
  - by rewrite HP.
  - by rewrite HP.
Qed.

Lemma found_Permutation id current s : window_ok s -> getWorkspace id s = Some current ->
  map ws_id (workspaces (win_state s)) ≡ₚ id :: map ws_id (filter (fun ws => ws_id ws <> id) (workspaces (win_state s))).
Proof.
  intros (_ & Hnd & _) Hg. apply find_workspace_Some in Hg as [Hin <-]. revert Hnd Hin. generalize (workspaces (win_state s)) as l.
  induction l as [|x l IH]; intros Hnd Hin; [by apply elem_of_nil in Hin|]. simpl in Hnd. apply NoDup_cons in Hnd as [H1 H2].
  rewrite filter_cons. apply elem_of_cons in Hin as [<-|Hin].
  - rewrite decide_False by tauto. simpl. rewrite filter_all; [done|]. intros y Hy E. apply H1. rewrite <- E. by apply list_elem_of_fmap_2.
  - rewrite decide_True. { simpl. rewrite (IH H2 Hin) at 1. by constructor. }
    intros E. apply H1. rewrite E. by apply list_elem_of_fmap_2.
Qed.

Lemma pin_ok id pin s : window_ok s -> window_ok (setWorkspacePinned id pin s).2.
Proof.
  intros Hok. pose proof Hok as (Hne & Hnd & Ha & Hp & H0 & _). unfold setWorkspacePinned.
  destruct (getWorkspace id s) as [current|] eqn:Eg; [|done]. destruct (bool_decide (pinned current = pin)); [done|]. cbn [snd].
  pose proof (found_Permutation id current s Hok Eg) as HP. apply find_workspace_Some in Eg as [_ Eid].
  set (next := mkMeta _ _ _ _ _). assert (En : ws_id next = id) by done. apply emit_ok; simpl; [| | | |done].
  - unfold insert_workspace. by destruct (take _ _).
  - rewrite insert_ids, En. by rewrite <- HP.
  - rewrite insert_ids, En. by rewrite <- HP.
  - by apply insert_partitioned, filter_partitioned.
Qed.

Lemma delivery_ok id value s : window_ok s -> window_ok (setWorkspaceAlertDelivery id value s).
Proof.
  intros Hok. pose proof Hok as (Hne & Hnd & Ha & Hp & H0 & _). unfold setWorkspaceAlertDelivery.
  destruct (getWorkspace id s) as [current|]; [|done]. destruct (sameAlertDeliveryOverrides _ _); [done|].
  set (f := fun ws => if decide _ then _ else _).
  assert (E : map ws_id (map f (workspaces (win_state s))) = map ws_id (workspaces (win_state s))).
  { rewrite map_map. apply map_ext. intros ws. unfold f. by case_decide. }
  apply emit_ok; simpl; rewrite ?E; [|done|done| |done].
  - by destruct (workspaces (win_state s)).
  - apply map_partitioned; [|done]. intros ws _. unfold f. by case_decide.
Qed.

Lemma set_ok next s : window_ok s -> match setWorkspaces next s with Some s' => window_ok s' | None => True end.
Proof.
  intros (_ & _ & _ & _ & H0 & _). unfold setWorkspaces. destruct (bool_decide (NoDup _)) eqn:Ed; [|done]. cbn [negb].
  apply bool_decide_eq_true in Ed. destruct (workspaces next) as [|first l] eqn:El; [by apply default_ok|].
  apply emit_ok; cbn [workspaces activeId]; [| | |by apply partitionPinned_partitioned|done].
  - intros E. pose proof (partitionPinned_Permutation (first :: l)) as HP. rewrite E in HP. by apply Permutation_nil_l in HP.
  - by rewrite partitionPinned_Permutation.
  - rewrite partitionPinned_Permutation. destruct (existsb (fun ws => bool_decide (ws_id ws = activeId next)) (first :: l)) eqn:Ex; [|by left].
    apply (hasWorkspace_spec (activeId next) (mkWindow (mkState (first :: l) []) (createIdPool 1) [] [])). exact Ex.
Qed.

(** What the others see of an insertion, and of a removal. *)
Lemma others_insert id at_ ws l : ws_id ws = id ->
  filter (fun ws => ws_id ws <> id) (insert_workspace at_ ws l) = filter (fun ws => ws_id ws <> id) l.
Proof.
  intros E. unfold insert_workspace. rewrite filter_app, filter_cons_False by tauto. by rewrite <- filter_app, take_drop.
Qed.

Lemma others_delete id from ws l : l !! from = Some ws -> ws_id ws = id ->
  filter (fun ws => ws_id ws <> id) (delete from l) = filter (fun ws => ws_id ws <> id) l.
Proof.
  intros Hf E. destruct (list_elem_of_split_length l from ws Hf) as (a & b & -> & ->). rewrite delete_middle.
  by rewrite !filter_app, filter_cons_False by tauto.
Qed.

Lemma getWorkspace_at id ws s : getWorkspace id s = Some ws ->
  exists from, find_index (fun ws => bool_decide (ws_id ws = id)) (workspaces (win_state s)) = Some from /\
    workspaces (win_state s) !! from = Some ws /\ ws_id ws = id.
Proof.
  unfold getWorkspace, find_workspace. generalize (workspaces (win_state s)) as l. induction l as [|x l IH]; [done|]. simpl.
  destruct (bool_decide (ws_id x = id)) eqn:E.
  - intros [= ->]. exists 0%nat. split_all; [done|done|by apply bool_decide_eq_true in E].
  - intros Hf. destruct (IH Hf) as (i & -> & Hi & Hid). exists (S i). done.
Qed.

Lemma move_spec id ws toIndex s :
  window_ok s -> getWorkspace id s = Some ws ->
  let l := workspaces (win_state s) in
  let '(changed, s') := moveWorkspace id toIndex s in
  workspaces (win_state s') !! Z.to_nat (clamp_slot (pinned ws) toIndex l) = Some ws /\
  filter (fun ws => ws_id ws <> id) (workspaces (win_state s')) = filter (fun ws => ws_id ws <> id) l /\
  partitioned (workspaces (win_state s')) /\ activeId (win_state s') = activeId (win_state s) /\
  (changed = true <-> workspaces (win_state s') <> l).
Proof.
  intros (_ & Hnd & _ & Hp & _) Hg. destruct (getWorkspace_at _ _ _ Hg) as (from & Ef & Hf & Hid). cbv zeta.
  unfold moveWorkspace. rewrite Ef, Hf. destruct (moved_partitioned _ _ _ toIndex Hp Hf) as (H1 & H2 & H3 & H4).
  destruct (Z.of_nat from =? clamp_slot (pinned ws) toIndex (workspaces (win_state s))) eqn:E.
  - apply Z.eqb_eq in E. rewrite <- E, Nat2Z.id. split_all; [done..|]. split; [done|tauto].
  - cbn [win_state workspaces activeId emit]. split_all; [done| |done|done|split; [|done]].
    + by rewrite others_insert, (others_delete id from ws) by done.
    + intros _ El. apply Z.eqb_neq in E. apply E. rewrite El in H2.
      assert (from = Z.to_nat (clamp_slot (pinned ws) toIndex (workspaces (win_state s)))) as Hfrom.
      { apply (NoDup_lookup _ _ _ (ws_id ws) Hnd); rewrite (list_lookup_fmap ws_id); by rewrite ?Hf, ?H2. }
      rewrite Hfrom. lia.
Qed.

Lemma find_inserted id at_ next l : ws_id next = id -> (forall x, x ∈ l -> ws_id x <> id) -> (at_ <= length l)%nat ->
  find_workspace id (insert_workspace at_ next l) = Some next /\ insert_workspace at_ next l !! at_ = Some next.
Proof.
  intros Hn Hl Hat. split.
  - unfold find_workspace, insert_workspace. destruct (find _ (take at_ l ++ next :: drop at_ l)) as [x|] eqn:E.
    + apply find_some in E as [Hin Hx]. apply bool_decide_eq_true in Hx. apply list_elem_of_In, elem_of_app in Hin as [Hin|Hin].
      * exfalso. apply (Hl x); [|done]. rewrite <- (take_drop at_ l). apply elem_of_app. by left.
      * apply elem_of_cons in Hin as [->|Hin]; [done|]. exfalso. apply (Hl x); [|done]. rewrite <- (take_drop at_ l). apply elem_of_app. by right.
    + exfalso. assert (Hin : In next (take at_ l ++ next :: drop at_ l)) by (apply in_or_app; right; by left).
      pose proof (find_none _ _ E next Hin) as Hf. simpl in Hf. apply bool_decide_eq_false in Hf. done.
  - unfold insert_workspace. rewrite lookup_app_r by (rewrite length_take; lia). by rewrite length_take, Nat.min_l, Nat.sub_diag.
Qed.

Lemma pin_spec id ws pin s :
  window_ok s -> getWorkspace id s = Some ws ->
  let others := filter (fun ws => ws_id ws <> id) in
  let '(changed, s') := setWorkspacePinned id pin s in
  others (workspaces (win_state s')) = others (workspaces (win_state s)) /\ partitioned (workspaces (win_state s')) /\
  isWorkspacePinned id s' = pin /\ activeId (win_state s') = activeId (win_state s) /\
  (changed = true -> pinned ws = negb pin /\
     workspaces (win_state s') !! pinnedBoundary (others (workspaces (win_state s))) =
       Some (mkMeta id (ws_name ws) (nameIsAuto ws) pin (alertDelivery ws))) /\
  (changed = false -> s' = s).
Proof.
  intros Hok Hg. cbv zeta. pose proof (pin_ok id pin s Hok) as Hok'. destruct (find_workspace_Some _ _ _ Hg) as [_ Hid].
  unfold isWorkspacePinned. unfold setWorkspacePinned in *. rewrite Hg in *.
  destruct (bool_decide (pinned ws = pin)) eqn:Eb.
  - apply bool_decide_eq_true in Eb. rewrite Hg. split_all; [done|apply Hok|done|done|done|done].
  - apply bool_decide_eq_false in Eb. cbn [snd] in Hok'. rewrite Hid in *. set (next := mkMeta _ _ _ _ _) in *.
    set (rest := filter _ _) in *. assert (Hin : forall x, x ∈ rest -> ws_id x <> id) by (intros x Hx; by apply list_elem_of_filter in Hx as [? _]).
    assert (Hb : (pinnedBoundary rest <= length rest)%nat).
    { unfold pinnedBoundary. destruct (find_index pinned rest) eqn:Ei; [|done]. apply find_index_Some in Ei as (x & Hx & _).
      apply lookup_lt_Some in Hx. simpl. lia. }
    destruct (find_inserted id (pinnedBoundary rest) next rest eq_refl Hin Hb) as [F1 F2].
    cbn [win_state workspaces activeId emit]. split_all; [|apply Hok'| |done| |done].
    + rewrite others_insert by done. unfold rest. by rewrite filter_all by (intros x Hx; by apply list_elem_of_filter in Hx as [? _]).
    + unfold getWorkspace. cbn [win_state workspaces emit]. by rewrite F1.
    + intros _. split; [|exact F2]. clear -Eb. by revert Eb; destruct (pinned ws), pin.
Qed.

(** ** Targets *)

Lemma trim_fixed t : trim t = t -> drop_ws t = t /\ drop_ws (reverse t) = reverse t.
Proof.
  intros E. unfold trim in E. destruct (drop_ws_spec t) as (p1 & E1 & _). remember (drop_ws t) as u eqn:Eu.
  destruct (drop_ws_spec (reverse u)) as (p2 & E2 & _). remember (drop_ws (reverse u)) as v eqn:Ev.
  apply (f_equal length) in E1 as L1, E2 as L2, E as L3. rewrite length_app in L1. rewrite length_reverse, length_app in L2. rewrite length_reverse in L3.
  assert (p1 = []) as -> by (apply length_zero_iff_nil; lia). assert (p2 = []) as -> by (apply length_zero_iff_nil; lia).
  simpl in E1, E2. split; [congruence|]. rewrite E1, <- Ev. congruence.
Qed.

Lemma trim_prefixed bare : trim bare = bare -> trim (WORKSPACE_PREFIX ++ bare) = WORKSPACE_PREFIX ++ bare.
Proof.
  intros E. destruct (trim_fixed bare E) as [_ E2]. unfold trim. rewrite (drop_ws_fixed (WORKSPACE_PREFIX ++ bare)) by done.
  rewrite drop_ws_fixed, reverse_involutive; [done|]. rewrite reverse_app.
  destruct (reverse bare) as [|c rest]; [done|]. simpl in *. destruct (js_ws c) eqn:Ec; [|done].
  exfalso. destruct (drop_ws_spec rest) as (p & Ep & _). apply (f_equal length) in Ep. rewrite E2, length_app in Ep. simpl in Ep. lia.
Qed.

Lemma resolve_id pending ref s ws :
  window_ok s -> ws ∈ workspaces (win_state s) -> ref_id (parseWorkspaceRef ref) = ws_id ws -> resolveWorkspaceRef pending ref s = ref_ok ws.
Proof.
  intros (_ & Hnd & _) Hin E. unfold resolveWorkspaceRef. rewrite E.
  destruct (find_workspace (ws_id ws) (workspaces (win_state s))) as [ws'|] eqn:Ef.
  - apply find_workspace_Some in Ef as [Hin' Hid]. f_equal. by apply (same_id_same s).
  - exfalso. unfold find_workspace in Ef. apply list_elem_of_In in Hin. pose proof (find_none _ _ Ef ws Hin) as Hf.
    simpl in Hf. by apply bool_decide_eq_false in Hf.
Qed.

Lemma resolve_sound pending ref s ws :
  resolveWorkspaceRef pending ref s = ref_ok ws ->
  let r := parseWorkspaceRef ref in
  ws ∈ workspaces (win_state s) /\
  (ws_id ws = ref_id r \/
   ref_name r <> [] /\ ws_name ws = ref_name r /\ NUMERIC_WORKSPACE_REF (ref_name r) = false /\
   forall ws', ws' ∈ workspaces (win_state s) -> ws_id ws' <> ref_id r /\ (ws_name ws' = ref_name r -> ws' = ws)).
Proof.
  unfold resolveWorkspaceRef. set (r := parseWorkspaceRef ref). cbv zeta.
  destruct (find_workspace (ref_id r) (workspaces (win_state s))) as [x|] eqn:Ef.
  { intros [= ->]. apply find_workspace_Some in Ef as [Hin Hid]. split; [done|by left]. }
  destruct (bool_decide (ref_name r = [])) eqn:En; [by destruct (existsb _ pending)|].
  apply bool_decide_eq_false in En.
  destruct (filter (fun ws => ws_name ws = ref_name r) (workspaces (win_state s))) as [|x [|y l]] eqn:Em; [by destruct (existsb _ pending)| |done].
  intros [= ->].
  assert (Hall : forall ws', ws' ∈ workspaces (win_state s) -> ws_name ws' = ref_name r -> ws' = ws).
  { intros ws' Hin Hn. apply list_elem_of_singleton. rewrite <- Em. by apply list_elem_of_filter. }
  assert (Hws : ws ∈ filter (fun ws => ws_name ws = ref_name r) (workspaces (win_state s))) by (rewrite Em; by left).
  apply list_elem_of_filter in Hws as [Hn Hin]. split; [done|]. right. split_all; [done|done| |].
  - revert En. unfold r, parseWorkspaceRef. simpl. destruct (NUMERIC_WORKSPACE_REF _) eqn:E; [done|]. by intros _.
  - intros ws' Hin'. split; [|by apply Hall]. apply list_elem_of_In in Hin'. pose proof (find_none _ _ Ef ws' Hin') as Hf.
    simpl in Hf. by apply bool_decide_eq_false in Hf.
Qed.

(** ** The theorems *)

Inductive WindowOp :=
  | win_set (next : WorkspacesState)
  | win_activate (id : text)
  | win_activate_at (index : nat)
  | win_create (opts : CreateOpts)
  | win_rename (id name : text)
  | win_resume_auto (id : text)
  | win_auto_name (id name : text)
  | win_close (id : text)
  | win_move (id : text) (toIndex : Z)
  | win_pin (id : text) (pin : bool)
  | win_delivery (id : text) (value : AlertDeliveryOverrides)
  | win_reset
  | win_label (label : text)
  | win_pool_install (host : nat) (first : option nat)
  | win_pool_lands (no : nat) (block : list text)
  | win_pool_settled (no : nat)
  | win_pool_reset
  | win_pool_seed (n : Z).

Section Theorems.
  Context `{BigNumberText} (uuid : nat -> text).

(** One operation; one that throws has changed nothing. *)
Definition apply_window_op (op : WindowOp) s : WindowStore :=
  match op with
  | win_set next => default s (setWorkspaces next s)
  | win_activate id => setActiveWorkspace id s
  | win_activate_at index => activateWorkspaceAt index s
  | win_create opts => match createWorkspace uuid opts s with Some (_, s') => s' | None => s end
  | win_rename id name => renameWorkspace id name s
  | win_resume_auto id => resumeAutoWorkspaceName id s
  | win_auto_name id name => setAutoWorkspaceName id name s
  | win_close id => match closeWorkspace uuid id s with Some (_, s') => s' | None => s end
  | win_move id toIndex => (moveWorkspace id toIndex s).2
  | win_pin id pin => (setWorkspacePinned id pin s).2
  | win_delivery id value => setWorkspaceAlertDelivery id value s
  | win_reset => resetWorkspaces s
  | win_label label => setWindowLabel label s
  | win_pool_install host first => set_pool (install WORKSPACE_ID_POOL_SIZE host first (win_pool s)) s
  | win_pool_lands no block => set_pool (block_lands no block (win_pool s)) s
  | win_pool_settled no => set_pool (block_settled no (win_pool s)) s
  | win_pool_reset => set_pool (reset_pool 1 (win_pool s)) s
  | win_pool_seed n => set_pool (seed n (win_pool s)) s
  end.

Definition window_after (ops : list WindowOp) : WindowStore := foldl (fun s op => apply_window_op op s) new_window ops.

Lemma activate_ok id s : window_ok s -> window_ok (setActiveWorkspace id s).
Proof.
  intros Hok. pose proof Hok as (Hne & Hnd & Ha & Hp & H0 & _). unfold setActiveWorkspace.
  case_bool_decide; [done|]. destruct (hasWorkspace id s) eqn:Eh; [|done]. cbn [negb].
  apply emit_ok; [done|done|by apply hasWorkspace_spec|done|done].
Qed.

Lemma pool_ok p s : window_ok s -> 0 <= pool_local p -> window_ok (set_pool p s).
Proof. by intros (? & ? & ? & ? & _ & ?) Hp. Qed.

Lemma pool_refill_local p : pool_local (refill WORKSPACE_ID_POOL_SIZE p) = pool_local p.
Proof. apply refill_same. Qed.

Lemma apply_window_ok op s :
  (forall i j, uuid i = uuid j -> i = j) -> window_ok s -> window_ok (apply_window_op op s).
Proof.
  intros Hu Hok. pose proof Hok as (_ & _ & _ & _ & H0 & _). destruct op; simpl.
  - pose proof (set_ok next s Hok) as G. by destruct (setWorkspaces next s).
  - by apply activate_ok.
  - unfold activateWorkspaceAt. destruct (_ !! index); [by apply activate_ok|done].
  - pose proof (create_ok uuid Hu opts s Hok) as G. by destruct (createWorkspace uuid opts s) as [[]|].
  - unfold renameWorkspace. destruct (getWorkspace id s) eqn:Eg; [|done]. case_bool_decide; [done|]. by eapply replace_found_ok.
  - unfold resumeAutoWorkspaceName. destruct (getWorkspace id s) as [c|] eqn:Eg; [|done]. destruct (nameIsAuto c); [done|]. by eapply replace_found_ok.
  - unfold setAutoWorkspaceName. destruct (getWorkspace id s) as [c|] eqn:Eg; [|done]. destruct (_ || _); [done|]. by eapply replace_found_ok.
  - pose proof (close_ok uuid Hu id s Hok) as G. by destruct (closeWorkspace uuid id s) as [[]|].
  - by apply move_tab_ok.
  - by apply pin_ok.
  - by apply delivery_ok.
  - by apply default_ok.
  - done.
  - apply pool_ok; [done|]. unfold install. destruct first; [done|]. by rewrite pool_refill_local.
  - apply pool_ok; [done|]. unfold block_lands. by destruct (find _ _) as [[[? ?] ?]|].
  - by apply pool_ok.
  - by apply pool_ok.
  - apply pool_ok; [done|]. simpl. lia.
Qed.

Lemma window_after_ok ops : (forall i j, uuid i = uuid j -> i = j) -> window_ok (window_after ops).
Proof.
  intros Hu. unfold window_after. induction ops as [|op ops IH] using rev_ind; [|rewrite foldl_app; by apply apply_window_ok].
  unfold window_ok. split_all; [done|apply NoDup_singleton|by left| |done|done].
  eexists [_], []. split_all; [done|by repeat constructor|done].
Qed.

(** C16. Whatever is done to a Window's Workspaces, and whenever the blocks of its
    id pool arrive, there is at least one Workspace, no two share an id, the
    active one is among them, every unpinned one comes before every pinned one,
    and listeners were last told of exactly this state.  A Workspace can always
    be created or closed: an id the Window does not hold is always minted. *)
Theorem workspaces_consistent ops :
  (forall i j, uuid i = uuid j -> i = j) ->
  let s := window_after ops in
  workspaces (win_state s) <> [] /\ NoDup (map ws_id (workspaces (win_state s))) /\
  activeId (win_state s) ∈ map ws_id (workspaces (win_state s)) /\ partitioned (workspaces (win_state s)) /\
  (win_told s <> [] -> last (win_told s) = Some (win_state s)) /\
  (exists id s', generateWorkspaceId uuid s = Some (id, s') /\ hasWorkspace id s = false) /\
  forall id, is_Some (closeWorkspace uuid id s).
Proof.
  intros Hu s. pose proof (window_after_ok ops Hu) as Hok. fold s in Hok. destruct Hok as (H1 & H2 & H3 & H4 & H5 & H6).
  split_all; [done..| |].
  - destruct (generate_fresh uuid Hu s H5) as (id & s' & E & Hn & _). exists id, s'. split; [done|].
    destruct (hasWorkspace id s) eqn:Eh; [|done]. by apply hasWorkspace_spec in Eh.
  - intros id. pose proof (close_ok uuid Hu id s ltac:(done)) as G. destruct (closeWorkspace uuid id s); [by eexists|done].
Qed.

(** C17. A tab moved or pinned moves alone.  A move puts the Workspace at the slot
    asked for, or the nearest of its own group, a pin or an unpin where the
    groups meet; the others keep their order, the groups stay apart, the active
    Workspace stays, and the answer is whether the list changed. *)
Theorem tabs_move_alone ops id ws toIndex pin :
  (forall i j, uuid i = uuid j -> i = j) ->
  let s := window_after ops in
  let l := workspaces (win_state s) in
  let others := filter (fun ws => ws_id ws <> id) in
  let unpinned := fun l => length (filter (fun ws => pinned ws = false) l) in
  let first := if pinned ws then Z.of_nat (unpinned l) else 0 in
  let past := if pinned ws then Z.of_nat (length l) else Z.of_nat (unpinned l) in
  getWorkspace id s = Some ws ->
  (let '(changed, s') := moveWorkspace id toIndex s in
   workspaces (win_state s') !! Z.to_nat (Z.max first (Z.min (past - 1) toIndex)) = Some ws /\
   others (workspaces (win_state s')) = others l /\ partitioned (workspaces (win_state s')) /\
   activeId (win_state s') = activeId (win_state s) /\ (changed = true <-> workspaces (win_state s') <> l)) /\
  (let '(changed, s') := setWorkspacePinned id pin s in
   others (workspaces (win_state s')) = others l /\ partitioned (workspaces (win_state s')) /\ isWorkspacePinned id s' = pin /\
   activeId (win_state s') = activeId (win_state s) /\
   (changed = true -> pinned ws = negb pin /\
      workspaces (win_state s') !! unpinned (others l) = Some (mkMeta id (ws_name ws) (nameIsAuto ws) pin (alertDelivery ws))) /\
   (changed = false -> s' = s)).
Proof.
  intros Hu s l others unpinned first past Hg. pose proof (window_after_ok ops Hu) as Hok. fold s in Hok.
  assert (Hp : partitioned l) by by destruct Hok as (_ & _ & _ & Hp & _). split.
  - pose proof (move_spec id ws toIndex s Hok Hg) as Hm. unfold clamp_slot in Hm. fold l in Hm. rewrite (boundary_unpinned l Hp) in Hm.
    subst first past. destruct (pinned ws); exact Hm.
  - unfold unpinned. rewrite <- boundary_unpinned by (by apply filter_partitioned). by apply pin_spec.
Qed.

(** A target names at most one Workspace, and every Workspace can be named.
    What a target resolves to has its very id, or, where no id is meant, is the
    only one of its name; a number is read as an id alone.  A Workspace with an id
    of the minted form is found under its id and, prefix aside, under the rest
    of it. *)
Theorem targets_resolve ops pending ref ws :
  (forall i j, uuid i = uuid j -> i = j) ->
  let s := window_after ops in
  let r := parseWorkspaceRef ref in
  (resolveWorkspaceRef pending ref s = ref_ok ws ->
     ws ∈ workspaces (win_state s) /\
     (ws_id ws = ref_id r \/
      ref_name r <> [] /\ ws_name ws = ref_name r /\ NUMERIC_WORKSPACE_REF (ref_name r) = false /\
      forall ws', ws' ∈ workspaces (win_state s) -> ws_id ws' <> ref_id r /\ (ws_name ws' = ref_name r -> ws' = ws))) /\
  (forall bare, ws ∈ workspaces (win_state s) -> ws_id ws = WORKSPACE_PREFIX ++ bare -> trim bare = bare ->
     resolveWorkspaceRef pending (ws_id ws) s = ref_ok ws /\
     (starts_with WORKSPACE_PREFIX bare = false -> resolveWorkspaceRef pending bare s = ref_ok ws)).
Proof.
  intros Hu s r. pose proof (window_after_ok ops Hu) as Hok. fold s in Hok. split.
  - intros E. by eapply resolve_sound.
  - intros bare Hin Hid Htrim. split.
    + apply resolve_id; [done|done|]. rewrite Hid. unfold parseWorkspaceRef. rewrite trim_prefixed by done.
      by rewrite starts_with_prefix, drop_app_length, Htrim.
    + intros Hp. apply resolve_id; [done|done|]. unfold parseWorkspaceRef. by rewrite Htrim, Hp, Htrim.
Qed.

End Theorems.

(** ** Examples *)

#[local] Instance toy_numbers : BigNumberText := {| text_after := fun _ => lit "9007199254740992" |}.

Definition toy_uuid (n : nat) : text := lit "u" ++ dec_text (Z.of_nat n).

Lemma toy_uuid_inj i j : toy_uuid i = toy_uuid j -> i = j.
Proof. unfold toy_uuid. intros E. apply app_inv_head, dec_text_inj in E; lia. Qed.

Definition plain : CreateOpts := mkCreate None None false false true None.

(** Three Workspaces, the first pinned, of which one is named. *)
Definition three : list WindowOp :=
  [win_create plain; win_create plain; win_pin (lit "workspace:1") true; win_rename (lit "workspace:3") (lit " api ")].

Example three_tabs :
  map (fun ws => (ws_id ws, ws_name ws, pinned ws)) (workspaces (win_state (window_after toy_uuid three))) =
    [(lit "workspace:2", lit "Workspace 2", false); (lit "workspace:3", lit "api", false); (lit "workspace:1", lit "Workspace 1", true)].
Proof. vm_compute. done. Qed.

Lemma workspaces_consistent_witness : partitioned (workspaces (win_state (window_after toy_uuid three))).
Proof. exact (proj1 (proj2 (proj2 (proj2 (workspaces_consistent toy_uuid three toy_uuid_inj))))). Defined.

Lemma tabs_move_alone_witness :
  exists ws, getWorkspace (lit "workspace:2") (window_after toy_uuid three) = Some ws /\
    workspaces (win_state (moveWorkspace (lit "workspace:2") 9 (window_after toy_uuid three)).2) !! 1%nat = Some ws.
Proof.
  destruct (getWorkspace (lit "workspace:2") (window_after toy_uuid three)) as [ws|] eqn:E; [|vm_compute in E; discriminate E].
  exists ws. split; [reflexivity|].
  pose proof (tabs_move_alone toy_uuid three (lit "workspace:2") ws 9 true toy_uuid_inj E) as [G _].
  vm_compute in E. injection E as <-. exact (proj1 G).
Defined.

Lemma targets_resolve_witness :
  exists ws, ws ∈ workspaces (win_state (window_after toy_uuid three)) /\
    resolveWorkspaceRef [] (lit "3") (window_after toy_uuid three) = ref_ok ws.
Proof.
  destruct (getWorkspace (lit "workspace:3") (window_after toy_uuid three)) as [ws|] eqn:E; [|vm_compute in E; discriminate E].
  exists ws. destruct (find_workspace_Some _ _ _ E) as [Hin Hid]. split; [exact Hin|].
  refine (proj2 (proj2 (targets_resolve toy_uuid three [] (lit "3") ws toy_uuid_inj) (lit "3") Hin Hid _) _); vm_compute; reflexivity.
Defined.
