(* ===== verification/AlertDelivery.v ===== *)
(** * Delivering a ring (lib/src/lib/alert-delivery-scheduler.ts, speech-queue.ts)

    When a ring is spoken or pushed, decided beside the alert manager, and the
    queue that speaks one alarm at a time.  A timer is the time it is due, a
    callback of the engine an event, and what the manager answers is given with
    the call that asks. *)
From Stdlib Require Import ZArith QArith Qminmax Lqa Lia.
From stdpp Require Import gmap.
From S2P Require Import Prelude TermText PendingKills Workspaces.
#[local] Open Scope Z_scope.
#[local] Open Scope list_scope.

(** ** The scheduler *)

Inductive AlertSink := speech | push.

#[export] Instance AlertSink_eq_dec : EqDecision AlertSink.
Proof. solve_decision. Defined.

Record AlertSettings := mkSettings {
  set_speakEnabled : bool; set_speakDelayMs : Q; set_pushEnabled : bool; set_pushDelayMs : Q }.

Definition DEFAULT_ALERT_SETTINGS : AlertSettings := mkSettings false 10000 false 20000.

(** [AlertDeliveryPolicy]. *)
Record AlertDeliveryPolicy := mkPolicy {
  pol_speakEnabled : bool; pol_speakDelayMs : Q; pol_speakVoice : option text; pol_pushEnabled : bool; pol_pushDelayMs : Q }.

Definition resolveAlertDeliveryPolicy (defaults : AlertSettings) (overrides : AlertDeliveryOverrides) : AlertDeliveryPolicy :=
  mkPolicy (default (set_speakEnabled defaults) (speakEnabled overrides)) (default (set_speakDelayMs defaults) (speakDelayMs overrides))
    (default None (speakVoice overrides)) (default (set_pushEnabled defaults) (pushEnabled overrides))
    (default (set_pushDelayMs defaults) (pushDelayMs overrides)).

Definition LABEL_LIMIT : nat := 1024.

Record Published := mkPublished { pub_realm : text; pub_label : text; pub_overrides : AlertDeliveryOverrides }.

(** A sink armed for an episode: its timer, which is due at [arm_due]. *)
Record Armed := mkArmed { arm_no : nat; arm_sink : AlertSink; arm_due : Q }.

Record Episode := mkEpisode { ep_id : text; ep_startedAt : Q; ep_pending : list Armed }.

(** What [speak] or [push] was called with, and when. *)
Record Delivery := mkDelivered { dl_session : text; dl_armed : Armed; dl_episode : text; dl_title : text; dl_at : Q }.

Record Scheduler := mkScheduler {
  sch_defaults : AlertSettings;
  sch_episodes : gmap text Episode;
  sch_published : gmap text Published;
  sch_delivered : list Delivery;
  sch_next : nat
}.

Definition createAlertDeliveryScheduler : Scheduler := mkScheduler DEFAULT_ALERT_SETTINGS ∅ ∅ [] 0.

Implicit Types (s : Scheduler) (id : text) (sink : AlertSink) (policy : AlertDeliveryPolicy) (now : Q).

Definition sink_enabled sink policy : bool := match sink with speech => pol_speakEnabled policy | push => pol_pushEnabled policy end.
Definition sink_delay sink policy : Q := match sink with speech => pol_speakDelayMs policy | push => pol_pushDelayMs policy end.

(** [blocked], by what the manager answers: whether the Session is engaged, and
    whether there is any viewer. *)
Definition sink_blocked sink (engaged viewed : bool) : bool := match sink with speech => engaged | push => viewed end.

Definition policy_of id s : AlertDeliveryPolicy :=
  resolveAlertDeliveryPolicy (sch_defaults s) (match sch_published s !! id with Some p => pub_overrides p | None => no_overrides end).

Definition recheck_episode policy (e : Episode) : Episode :=
  mkEpisode (ep_id e) (ep_startedAt e) (filter (fun a => sink_enabled (arm_sink a) policy = true) (ep_pending e)).

Definition with_episodes (m : gmap text Episode) s : Scheduler := mkScheduler (sch_defaults s) m (sch_published s) (sch_delivered s) (sch_next s).
Definition with_published (m : gmap text Published) s : Scheduler := mkScheduler (sch_defaults s) (sch_episodes s) m (sch_delivered s) (sch_next s).

Definition recheck id s : Scheduler := with_episodes (alter (recheck_episode (policy_of id s)) id (sch_episodes s)) s.

(** [Math.max(0, episode.startedAt + delay - Date.now())] from now. *)
Definition deadline now (startedAt delay : Q) : Q := (now + Qmax 0 (startedAt + delay - now))%Q.

(** The loop over the sinks: each enabled one is armed. *)
Fixpoint arm_sinks now (startedAt : Q) policy (sinks : list AlertSink) (no : nat) : list Armed :=
  match sinks with
  | [] => []
  | sink :: sinks =>
      if sink_enabled sink policy
      then mkArmed no sink (deadline now startedAt (sink_delay sink policy)) :: arm_sinks now startedAt policy sinks (S no)
      else arm_sinks now startedAt policy sinks (S no)
  end.

(** [onState], of the episode's id and start. *)
Definition onState now id (episode : option (text * Q)) s : Scheduler :=
  if bool_decide (option_map ep_id (sch_episodes s !! id) = option_map fst episode) then s
  else
    match episode with
    | None => with_episodes (delete id (sch_episodes s)) s
    | Some (eid, startedAt) =>
        mkScheduler (sch_defaults s)
          (<[id := mkEpisode eid startedAt (arm_sinks now startedAt (policy_of id s) [speech; push] (sch_next s))]> (sch_episodes s))
          (sch_published s) (sch_delivered s) (S (S (sch_next s)))
    end.

(** A timer fires. *)
Definition fire now id (no : nat) (engaged viewed : bool) s : Scheduler :=
  match sch_episodes s !! id with
  | None => s
  | Some e =>
      match find (fun a => arm_no a =? no)%nat (ep_pending e) with
      | None => s
      | Some a =>
          let rest := mkEpisode (ep_id e) (ep_startedAt e) (filter (fun a' => arm_no a' <> no) (ep_pending e)) in
          let label := match sch_published s !! id with Some p => pub_label p | None => [] end in
          let title := if bool_decide (label = []) then lit "terminal" else label in
          mkScheduler (sch_defaults s) (<[id := rest]> (sch_episodes s)) (sch_published s)
            (sch_delivered s ++ (if sink_blocked (arm_sink a) engaged viewed then [] else [mkDelivered id a (ep_id e) title now])) (sch_next s)
      end
  end.

(** [onRemove]: a Session gone for good. *)
Definition onRemove id s : Scheduler := with_published (delete id (sch_published s)) s.

(** One entry of what a realm publishes: its label where that is a string, and
    its overrides; [None] stands for a value that is not an object. *)
Definition publish_one (realmId : text) s (entry : text * option (option text * AlertDeliveryOverrides)) : Scheduler :=
  match entry with
  | (id, Some (label, raw)) =>
      if bool_decide (id = []) then s
      else
        let overrides := normalizeAlertDeliveryOverrides raw in
        let prior := match sch_published s !! id with Some p => pub_overrides p | None => no_overrides end in
        let s1 := with_published (<[id := mkPublished realmId (take LABEL_LIMIT (default [] label)) overrides]> (sch_published s)) s in
        if sameAlertDeliveryOverrides prior overrides then s1 else recheck id s1
  | (_, None) => s
  end.

Definition named_ids (sessions : list (text * option (option text * AlertDeliveryOverrides))) : list text :=
  omap (fun e => if bool_decide (e.1 = []) then None else option_map (fun _ => e.1) e.2) sessions.

(** [publish]; [has] is the manager's. *)
Definition publish_sessions (realmId : text) (sessions : list (text * option (option text * AlertDeliveryOverrides))) (has : text -> bool) s : Scheduler :=
  let s1 := foldl (publish_one realmId) s sessions in
  with_published (filter (fun e => ~ (pub_realm e.2 = realmId /\ e.1 ∉ named_ids sessions /\ has e.1 = false)) (sch_published s1)) s1.

Definition setDefaults (settings : AlertSettings) s : Scheduler :=
  let s1 := mkScheduler settings (sch_episodes s) (sch_published s) (sch_delivered s) (sch_next s) in
  with_episodes (map_imap (fun id e => Some (recheck_episode (policy_of id s1) e)) (sch_episodes s1)) s1.

Definition dispose s : Scheduler := mkScheduler (sch_defaults s) ∅ ∅ (sch_delivered s) (sch_next s).

(** ** What the manager and the timers promise *)

Inductive SchedulerOp :=
  | sch_state now id (episode : option (text * Q))
  | sch_fire now id (no : nat) (engaged viewed : bool)
  | sch_remove id
  | sch_publish (realmId : text) (sessions : list (text * option (option text * AlertDeliveryOverrides))) (has : text -> bool)
  | sch_settings (settings : AlertSettings)
  | sch_dispose.

Definition apply_sch_op (op : SchedulerOp) s : Scheduler :=
  match op with
  | sch_state now id episode => onState now id episode s
  | sch_fire now id no engaged viewed => fire now id no engaged viewed s
  | sch_remove id => onRemove id s
  | sch_publish realmId sessions has => publish_sessions realmId sessions has s
  | sch_settings settings => setDefaults settings s
  | sch_dispose => dispose s
  end.

(** A call that can come: a timer fires no sooner than it is due, a Session the
    manager removed, or has no state of, was reported without an episode, and an
    object a realm publishes has each key once. *)
Definition may_come (op : SchedulerOp) s : Prop :=
  match op with
  | sch_fire now id no _ _ =>
      forall e a, sch_episodes s !! id = Some e -> a ∈ ep_pending e -> arm_no a = no -> (arm_due a <= now)%Q
  | sch_remove id => sch_episodes s !! id = None
  | sch_publish _ sessions has => NoDup (map fst sessions) /\ forall id, has id = false -> sch_episodes s !! id = None
  | _ => True
  end.

Fixpoint all_may_come (ops : list SchedulerOp) s : Prop :=
  match ops with [] => True | op :: ops => may_come op s /\ all_may_come ops (apply_sch_op op s) end.

Definition scheduler_after (ops : list SchedulerOp) s : Scheduler := foldl (fun s op => apply_sch_op op s) s ops.

(** ** The invariant *)

Definition pending_at s id (a : Armed) : Prop := exists e, sch_episodes s !! id = Some e /\ a ∈ ep_pending e.

Record scheduler_ok s : Prop := {
  ok_fresh : forall id a, pending_at s id a -> (arm_no a < sch_next s)%nat /\ arm_no a ∉ map (fun d => arm_no (dl_armed d)) (sch_delivered s);
  ok_one : forall id id' a a', pending_at s id a -> pending_at s id' a' -> arm_no a = arm_no a' -> id = id' /\ a = a';
  ok_sinks : forall id e, sch_episodes s !! id = Some e -> NoDup (map arm_sink (ep_pending e));
  ok_enabled : forall id a, pending_at s id a -> sink_enabled (arm_sink a) (policy_of id s) = true;
  ok_delivered : NoDup (map (fun d => arm_no (dl_armed d)) (sch_delivered s)) /\
    Forall (fun d => (arm_no (dl_armed d) < sch_next s)%nat /\ (arm_due (dl_armed d) <= dl_at d)%Q) (sch_delivered s)
}.

Lemma sublist_map {A B} (f : A -> B) (l k : list A) : l `sublist_of` k -> map f l `sublist_of` map f k.
Proof. induction 1; simpl; by constructor. Qed.

(** A state with fewer pending deadlines, each enabled, is in order. *)
Lemma fewer_ok s s' :
  scheduler_ok s -> sch_next s' = sch_next s -> sch_delivered s' = sch_delivered s ->
  (forall id e', sch_episodes s' !! id = Some e' -> exists e, sch_episodes s !! id = Some e /\ ep_pending e' `sublist_of` ep_pending e) ->
  (forall id a, pending_at s' id a -> pending_at s id a -> sink_enabled (arm_sink a) (policy_of id s') = true) ->
  scheduler_ok s'.
Proof.
  intros Hok En Ed Hsub Hen.
  assert (Hp : forall id a, pending_at s' id a -> pending_at s id a).
  { intros id a (e' & He' & Ha). destruct (Hsub id e' He') as (e & He & Hl). exists e. split; [done|]. by apply (elem_of_sublist _ _ _ Ha Hl). }
  constructor.
  - intros id a Ha. rewrite En, Ed. by apply (ok_fresh s Hok id), Hp.
  - intros id id' a a' Ha Ha'. apply (ok_one s Hok); by apply Hp.
  - intros id e' He'. destruct (Hsub id e' He') as (e & He & Hl). eapply sublist_NoDup; [by apply (ok_sinks s Hok id)|].
    by apply sublist_map.
  - intros id a Ha. apply Hen; [done|by apply Hp].
  - rewrite En, Ed. apply (ok_delivered s Hok).
Qed.

Lemma settings_ok settings s : scheduler_ok s -> scheduler_ok (setDefaults settings s).
Proof.
  intros Hok. apply (fewer_ok s); [done|done|done| |].
  - intros id e' He'. unfold setDefaults, with_episodes in He'. simpl in He'. rewrite map_lookup_imap in He'.
    destruct (sch_episodes s !! id) as [e|]; [|done]. simpl in He'. injection He' as <-. exists e.
    split; [done|]. apply sublist_filter.
  - intros id a (e' & He' & Ha) _. unfold setDefaults, with_episodes in He'. simpl in He'. rewrite map_lookup_imap in He'.
    destruct (sch_episodes s !! id) as [e|]; [|done]. simpl in He'. injection He' as <-.
    apply list_elem_of_filter in Ha as [Ha _]. exact Ha.
Qed.

Lemma enabled_same sink settings a b :
  sameAlertDeliveryOverrides a b = true ->
  sink_enabled sink (resolveAlertDeliveryPolicy settings a) = sink_enabled sink (resolveAlertDeliveryPolicy settings b).
Proof.
  unfold sameAlertDeliveryOverrides. intros E. repeat (apply andb_true_iff in E as [E ?]).
  apply bool_decide_eq_true in E. match goal with H : bool_decide (pushEnabled a = pushEnabled b) = true |- _ => apply bool_decide_eq_true in H end.
  destruct sink; simpl; congruence.
Qed.

Lemma publish_one_ok realmId s entry : scheduler_ok s -> scheduler_ok (publish_one realmId s entry).
Proof.
  intros Hok. destruct entry as [id [[label raw]|]]; [|done]. unfold publish_one. destruct (bool_decide (id = [])); [done|].
  set (over := normalizeAlertDeliveryOverrides raw). set (entry := mkPublished _ _ over).
  assert (Hpol : forall id' m, id' <> id -> policy_of id' (with_episodes m (with_published (<[id := entry]> (sch_published s)) s)) = policy_of id' s).
  { intros id' m Hne. unfold policy_of. simpl. by rewrite lookup_insert_ne. }
  destruct (sameAlertDeliveryOverrides _ over) eqn:Es.
  - apply (fewer_ok s); [done|done|done|intros id' e He; by exists e|]. intros id' a _ Ha.
    pose proof (ok_enabled s Hok id' a Ha) as He. destruct (decide (id' = id)) as [->|Hne].
    + unfold policy_of in *. simpl. rewrite lookup_insert_eq. simpl. by rewrite <- (enabled_same _ _ _ _ Es).
    + by rewrite <- (Hpol id' (sch_episodes s) Hne) in He.
  - apply (fewer_ok s); [done|done|done| |]; unfold recheck; set (s1 := with_published _ s).
    + intros id' e' He'. simpl in He'. rewrite lookup_alter in He'. case_decide as Hd; [|by exists e'].
      destruct (sch_episodes s !! id) as [e|] eqn:Ee; [|done]. simpl in He'. injection He' as <-. subst. exists e. split; [done|]. apply sublist_filter.
    + intros id' a (e' & He' & Ha) Hp. simpl in He'. destruct (decide (id' = id)) as [->|Hne].
      * rewrite lookup_alter_eq in He'. destruct (sch_episodes s !! id) as [e|]; [|done]. simpl in He'. injection He' as <-.
        by apply list_elem_of_filter in Ha as [Ha _].
      * pose proof (ok_enabled s Hok id' a Hp) as He. by rewrite <- (Hpol id' (alter (recheck_episode (policy_of id s1)) id (sch_episodes s1)) Hne) in He.
Qed.

Lemma publish_fold_ok realmId sessions s : scheduler_ok s -> scheduler_ok (foldl (publish_one realmId) s sessions).
Proof. revert s. induction sessions as [|e l IH]; intros s Hok; [done|]. simpl. by apply IH, publish_one_ok. Qed.

(** Forgetting what a Session without an episode published. *)
Lemma forget_ok m s :
  scheduler_ok s -> (forall id, is_Some (sch_episodes s !! id) -> m !! id = sch_published s !! id) -> scheduler_ok (with_published m s).
Proof.
  intros Hok Hm. apply (fewer_ok s); [done|done|done|intros id e He; by exists e|]. intros id a (e & He & _) Hp.
  unfold policy_of. simpl. rewrite Hm by by eexists. by apply (ok_enabled s Hok).
Qed.

Lemma publish_fold_episodes realmId sessions s id :
  is_Some (sch_episodes (foldl (publish_one realmId) s sessions) !! id) <-> is_Some (sch_episodes s !! id).
Proof.
  revert s. induction sessions as [|[k [[label raw]|]] l IH]; intros s; [done| |by apply IH]. simpl. rewrite IH. clear.
  destruct (bool_decide (k = [])); [done|]. destruct (sameAlertDeliveryOverrides _ _); [done|]. simpl.
  rewrite lookup_alter. case_decide; [|done]. subst. by rewrite fmap_is_Some.
Qed.

Lemma publish_ok_all realmId sessions has s :
  scheduler_ok s -> (forall id, has id = false -> sch_episodes s !! id = None) -> scheduler_ok (publish_sessions realmId sessions has s).
Proof.
  intros Hok Hhas. unfold publish_sessions. apply forget_ok; [by apply publish_fold_ok|].
  intros id Hid. apply publish_fold_episodes in Hid. set (m := sch_published _).
  destruct (m !! id) as [p|] eqn:Em.
  - apply map_lookup_filter_Some. split; [done|]. intros (_ & _ & Hh). rewrite (Hhas id Hh) in Hid. by destruct Hid.
  - apply map_lookup_filter_None. by left.
Qed.

(** The pending deadlines once one Session's episode is replaced. *)
Lemma pending_insert s m d p n id e id' a :
  pending_at (mkScheduler d (<[id := e]> m) p (sch_delivered s) n) id' a <->
  (id' = id /\ a ∈ ep_pending e) \/ (id' <> id /\ exists e', m !! id' = Some e' /\ a ∈ ep_pending e').
Proof.
  unfold pending_at. simpl. split.
  - intros (e' & He' & Ha). destruct (decide (id' = id)) as [->|Hne].
    + rewrite lookup_insert_eq in He'. simplify_eq. by left.
    + rewrite lookup_insert_ne in He' by done. right. split; [done|]. by exists e'.
  - intros [[-> Ha]|(Hne & e' & He' & Ha)]; [exists e|exists e']; split; try done; [by rewrite lookup_insert_eq|by rewrite lookup_insert_ne].
Qed.

Lemma find_armed no (l : list Armed) a : find (fun a => arm_no a =? no)%nat l = Some a -> a ∈ l /\ arm_no a = no.
Proof. intros E. apply find_some in E as [Hin E]. split; [by apply list_elem_of_In|by apply Nat.eqb_eq]. Qed.

Lemma fire_ok now id no engaged viewed s :
  scheduler_ok s -> may_come (sch_fire now id no engaged viewed) s -> scheduler_ok (fire now id no engaged viewed s).
Proof.
  intros Hok Hmay. simpl in Hmay. unfold fire. destruct (sch_episodes s !! id) as [e|] eqn:Ee; [|done].
  destruct (find _ (ep_pending e)) as [a|] eqn:Ef; [|done]. apply find_armed in Ef as [Ha Hno].
  set (rest := mkEpisode _ _ _). set (dl := mkDelivered id a _ _ now).
  assert (Hpa : pending_at s id a) by by exists e.
  destruct (ok_fresh s Hok id a Hpa) as [Hlt Hnd]. destruct (ok_delivered s Hok) as [Hdn Hdf].
  (* first the deadline leaves *)
  assert (Hok1 : scheduler_ok (with_episodes (<[id := rest]> (sch_episodes s)) s)).
  { apply (fewer_ok s); [done|done|done| |].
    - intros id' e' He'. simpl in He'. destruct (decide (id' = id)) as [->|Hne].
      + rewrite lookup_insert_eq in He'. simplify_eq. exists e. split; [done|]. apply sublist_filter.
      + rewrite lookup_insert_ne in He' by done. by exists e'.
    - intros id' a' _ Hp. by apply (ok_enabled s Hok id' a'). }
  destruct (sink_blocked (arm_sink a) engaged viewed); [rewrite app_nil_r; exact Hok1|].
  destruct Hok1 as [F1 F2 F3 F4 _]. constructor; [|exact F2|exact F3|exact F4|].
  - intros id' a' Hp'. destruct (F1 id' a' Hp') as [H1 H2]. split; [exact H1|]. simpl. rewrite map_app, not_elem_of_app. split; [exact H2|].
    simpl. rewrite list_elem_of_singleton, Hno. intros E.
    destruct Hp' as (e' & He' & Ha'). simpl in He'. destruct (decide (id' = id)) as [->|Hne].
    + rewrite lookup_insert_eq in He'. simplify_eq. apply list_elem_of_filter in Ha' as [Hne _]. done.
    + rewrite lookup_insert_ne in He' by done. destruct (ok_one s Hok id' id a' a) as [? _]; [by exists e'|done|congruence|done].
  - simpl. rewrite map_app. split.
    + apply NoDup_app. split_all; [done| |apply NoDup_singleton]. intros x Hx Hx2. apply list_elem_of_singleton in Hx2. by subst.
    + apply Forall_app. split; [done|]. constructor; [|done]. split; [done|]. simpl. by apply (Hmay e a).
Qed.

Lemma arm_sinks_spec now startedAt policy sinks no a :
  a ∈ arm_sinks now startedAt policy sinks no ->
  (no <= arm_no a < no + length sinks)%nat /\ arm_sink a ∈ sinks /\ sink_enabled (arm_sink a) policy = true /\
  arm_due a = deadline now startedAt (sink_delay (arm_sink a) policy).
Proof.
  revert no. induction sinks as [|sink sinks IH]; intros no Ha; simpl in Ha; [by apply elem_of_nil in Ha|].
  assert (G : a ∈ arm_sinks now startedAt policy sinks (S no) ->
    (no <= arm_no a < no + length (sink :: sinks))%nat /\ arm_sink a ∈ sink :: sinks /\ sink_enabled (arm_sink a) policy = true /\
    arm_due a = deadline now startedAt (sink_delay (arm_sink a) policy)).
  { intros H. destruct (IH (S no) H) as (H1 & H2 & H3 & H4). split_all; [simpl; lia|simpl; lia|by right|done|done]. }
  destruct (sink_enabled sink policy) eqn:E; [|by apply G]. apply elem_of_cons in Ha as [->|Ha]; [|by apply G].
  simpl. split_all; [lia|lia|by left|done|done].
Qed.

Lemma arm_sinks_distinct now startedAt policy sinks no :
  NoDup sinks -> NoDup (map arm_sink (arm_sinks now startedAt policy sinks no)) /\ NoDup (map arm_no (arm_sinks now startedAt policy sinks no)).
Proof.
  intros Hnd. revert no. induction Hnd as [|sink sinks Hn _ IH]; intros no; [split; constructor|]. simpl.
  destruct (IH (S no)) as [H1 H2]. destruct (sink_enabled sink policy); [|done]. simpl. split; constructor; try done.
  - intros Hin. apply list_elem_of_fmap in Hin as (a & Ea & Ha). apply arm_sinks_spec in Ha as (_ & Hs & _). congruence.
  - intros Hin. apply list_elem_of_fmap in Hin as (a & Ea & Ha). apply arm_sinks_spec in Ha as (Hr & _). lia.
Qed.

Lemma state_ok now id episode s : scheduler_ok s -> scheduler_ok (onState now id episode s).
Proof.
  intros Hok. unfold onState. destruct (bool_decide _); [done|]. destruct episode as [[eid startedAt]|].
  2: { apply (fewer_ok s); [done|done|done| |].
    - intros id' e' He'. simpl in He'. apply lookup_delete_Some in He' as [_ He']. by exists e'.
    - intros id' a _ Hp. by apply (ok_enabled s Hok). }
  assert (Hnd : NoDup [speech; push]) by (apply (bool_decide_unpack _); vm_compute; exact I).
  set (e := mkEpisode _ _ _). set (n := S (S (sch_next s))).
  assert (Hcase : forall id' a, pending_at (mkScheduler (sch_defaults s) (<[id := e]> (sch_episodes s)) (sch_published s) (sch_delivered s) n) id' a ->
    (id' = id /\ a ∈ ep_pending e /\ (sch_next s <= arm_no a < n)%nat) \/ (id' <> id /\ pending_at s id' a)).
  { intros id' a Hp. apply (pending_insert s) in Hp as [[-> Ha]|(Hne & e' & He' & Ha)]; [left|right; split; [done|by exists e']].
    split_all; [done|done|..]; apply arm_sinks_spec in Ha as (Hr & _); unfold n; simpl in Hr; lia. }
  destruct (ok_delivered s Hok) as [Hdn Hdf]. constructor.
  - intros id' a Hp. simpl. apply Hcase in Hp as [(-> & _ & Hr)|(_ & Hp)].
    + split; [lia|]. intros Hin. apply list_elem_of_fmap in Hin as (d & Ed & Hd). rewrite Forall_forall in Hdf. destruct (Hdf d Hd) as [Hlt _]. lia.
    + destruct (ok_fresh s Hok id' a Hp) as [H1 H2]. unfold n. split; [lia|done].
  - intros id1 id2 a1 a2 H1 H2 E. apply Hcase in H1 as [(-> & Ha1 & Hr1)|(Hn1 & H1)], H2 as [(-> & Ha2 & Hr2)|(Hn2 & H2)].
    + split; [done|]. apply list_elem_of_lookup in Ha1 as [i Hi], Ha2 as [j Hj].
      assert (i = j) as <-; [|congruence]. destruct (arm_sinks_distinct now startedAt (policy_of id s) [speech; push] (sch_next s) Hnd) as [_ Hno].
      change (arm_sinks _ _ _ _ _) with (ep_pending e) in Hno. apply (NoDup_lookup _ _ _ (arm_no a1) Hno).
      * change (map arm_no) with (fmap (M:=list) arm_no). rewrite list_lookup_fmap. by rewrite Hi.
      * change (map arm_no) with (fmap (M:=list) arm_no). rewrite list_lookup_fmap. by rewrite Hj, E.
    + destruct (ok_fresh s Hok id2 a2 H2) as [Hlt _]. lia.
    + destruct (ok_fresh s Hok id1 a1 H1) as [Hlt _]. lia.
    + by apply (ok_one s Hok).
  - intros id' e' He'. simpl in He'. destruct (decide (id' = id)) as [->|Hne].
    + rewrite lookup_insert_eq in He'. simplify_eq. by apply arm_sinks_distinct.
    + rewrite lookup_insert_ne in He' by done. by apply (ok_sinks s Hok id').
  - intros id' a Hp. apply Hcase in Hp as [(-> & Ha & _)|(_ & Hp)]; [by apply arm_sinks_spec in Ha as (_ & _ & He & _)|].
    by apply (ok_enabled s Hok).
  - split; [exact Hdn|]. eapply Forall_impl; [exact Hdf|]. intros d [Hd1 Hd2]. simpl. unfold n. split; [lia|done].
Qed.

Lemma sch_op_ok op s : scheduler_ok s -> may_come op s -> scheduler_ok (apply_sch_op op s).
Proof.
  intros Hok Hmay. destruct op; simpl.
  - by apply state_ok.
  - by apply fire_ok.
  - apply forget_ok; [done|]. intros id' [e He]. simpl in Hmay. rewrite lookup_delete_ne; [done|]. intros ->. congruence.
  - destruct Hmay. by apply publish_ok_all.
  - by apply settings_ok.
  - apply (fewer_ok s); [done|done|done|intros id e He; simpl in He; by rewrite lookup_empty in He|].
    intros id a (e & He & _). simpl in He. by rewrite lookup_empty in He.
Qed.

Lemma new_scheduler_ok : scheduler_ok createAlertDeliveryScheduler.
Proof.
  constructor; [intros id a (e & He & _)|intros id id' a a' (e & He & _)|intros id e He|intros id a (e & He & _)|split; constructor];
    simpl in He; by rewrite lookup_empty in He.
Qed.

Lemma scheduler_after_ok ops s : scheduler_ok s -> all_may_come ops s -> scheduler_ok (scheduler_after ops s).
Proof.
  revert s. induction ops as [|op ops IH]; intros s Hok Hmay; [done|]. destruct Hmay as [Hm Hmay]. simpl.
  apply IH; [by apply sch_op_ok|done].
Qed.

(** ** A deadline is kept *)

(** Still pending, in the episode it was armed for. *)
Definition kept id (eid : text) (a : Armed) s : Prop :=
  exists e, sch_episodes s !! id = Some e /\ ep_id e = eid /\ a ∈ ep_pending e.

Definition turned_off id (a : Armed) s : Prop := sink_enabled (arm_sink a) (policy_of id s) = false.

(** Why a deadline may go, of the call and the states around it. *)
Definition let_go id (eid : text) (a : Armed) (op : SchedulerOp) s : Prop :=
  match op with
  | sch_state _ id' episode => id' = id /\ option_map fst episode <> Some eid
  | sch_fire now id' no engaged viewed =>
      id' = id /\ no = arm_no a /\
      map (fun d => (dl_session d, dl_armed d, dl_episode d, dl_at d)) (sch_delivered (apply_sch_op op s)) =
        map (fun d => (dl_session d, dl_armed d, dl_episode d, dl_at d)) (sch_delivered s) ++
        (if sink_blocked (arm_sink a) engaged viewed then [] else [(id, a, eid, now)])
  | sch_remove _ => False
  | sch_publish _ sessions _ => id ∈ map fst sessions /\ turned_off id a (apply_sch_op op s)
  | sch_settings _ => turned_off id a (apply_sch_op op s)
  | sch_dispose => True
  end.

Lemma recheck_kept policy id eid a s s' :
  sch_episodes s' !! id = recheck_episode policy <$> sch_episodes s !! id -> kept id eid a s -> policy_of id s' = policy ->
  kept id eid a s' \/ turned_off id a s'.
Proof.
  intros El (e & He & Hid & Ha) Hp. unfold turned_off. rewrite Hp. destruct (sink_enabled (arm_sink a) policy) eqn:E; [left|by right].
  exists (recheck_episode policy e). rewrite El, He. split_all; [done|done|]. by apply list_elem_of_filter.
Qed.

(** An entry of another Session changes nothing of this one. *)
Lemma publish_other realmId id s entry :
  entry.1 <> id ->
  sch_episodes (publish_one realmId s entry) !! id = sch_episodes s !! id /\
  policy_of id (publish_one realmId s entry) = policy_of id s.
Proof.
  intros Hne. destruct entry as [k [[label raw]|]]; [|done]. simpl in Hne. unfold publish_one. destruct (bool_decide (k = [])); [done|].
  unfold policy_of. destruct (sameAlertDeliveryOverrides _ _); simpl; rewrite lookup_insert_ne by done; [done|].
  by rewrite lookup_alter_ne.
Qed.

Lemma publish_others realmId id sessions s :
  id ∉ map fst sessions ->
  sch_episodes (foldl (publish_one realmId) s sessions) !! id = sch_episodes s !! id /\
  policy_of id (foldl (publish_one realmId) s sessions) = policy_of id s.
Proof.
  revert s. induction sessions as [|entry l IH]; intros s Hn; [done|]. simpl in *. apply not_elem_of_cons in Hn as [Hne Hn].
  destruct (IH (publish_one realmId s entry) Hn) as [-> ->]. by apply publish_other.
Qed.

Lemma publish_one_keeps realmId id eid a s entry :
  kept id eid a s -> kept id eid a (publish_one realmId s entry) \/ turned_off id a (publish_one realmId s entry).
Proof.
  intros Hk. destruct (decide (entry.1 = id)) as [<-|Hne].
  2: { left. destruct (publish_other realmId id s entry Hne) as [He _]. unfold kept. by rewrite He. }
  destruct entry as [k [[label raw]|]]; [|by left]. simpl in *. destruct (bool_decide (k = [])); [by left|].
  destruct (sameAlertDeliveryOverrides _ _); [by left|]. eapply recheck_kept; [|exact Hk|reflexivity].
  simpl. by rewrite lookup_alter_eq.
Qed.

Lemma publish_fold_keeps realmId id eid a sessions s :
  NoDup (map fst sessions) -> kept id eid a s ->
  kept id eid a (foldl (publish_one realmId) s sessions) \/ turned_off id a (foldl (publish_one realmId) s sessions).
Proof.
  revert s. induction sessions as [|entry l IH]; intros s Hnd Hk; [by left|]. simpl in *. apply NoDup_cons in Hnd as [Hn Hnd].
  destruct (publish_one_keeps realmId id eid a s entry Hk) as [Hk1|Hoff]; [by apply IH|].
  destruct (decide (entry.1 = id)) as [E|Hne].
  - rewrite E in Hn. destruct (publish_others realmId id l (publish_one realmId s entry) Hn) as [_ Hp]. right. unfold turned_off. by rewrite Hp.
  - apply IH; [done|]. destruct (publish_other realmId id s entry Hne) as [He _]. unfold kept. by rewrite He.
Qed.

Lemma publish_keeps realmId sessions has id eid a s :
  NoDup (map fst sessions) -> (forall id, has id = false -> sch_episodes s !! id = None) -> kept id eid a s ->
  kept id eid a (publish_sessions realmId sessions has s) \/
  id ∈ map fst sessions /\ turned_off id a (publish_sessions realmId sessions has s).
Proof.
  intros Hnd Hhas Hk. pose proof (publish_fold_keeps realmId id eid a sessions s Hnd Hk) as [Hk1|Hoff]; [by left|].
  destruct (decide (id ∈ map fst sessions)) as [Hin|Hin].
  2: { left. destruct (publish_others realmId id sessions s Hin) as [He _]. unfold kept, publish_sessions in *. simpl. by rewrite He. }
  right. split; [done|].
  unfold turned_off, policy_of, publish_sessions in *. set (s1 := foldl _ _ _) in *. simpl.
  destruct (has id) eqn:Eh; [|destruct Hk as (e & He & _); rewrite (Hhas id Eh) in He; done].
  destruct (sch_published s1 !! id) as [p|] eqn:Ep.
  - rewrite (proj2 (map_lookup_filter_Some _ _ _ p)); [done|]. split; [done|]. simpl. intros (_ & _ & Hh). congruence.
  - rewrite (proj2 (map_lookup_filter_None _ _ _)); [done|]. by left.
Qed.

Lemma fire_keeps now id' no engaged viewed id eid a s :
  scheduler_ok s -> kept id eid a s ->
  kept id eid a (fire now id' no engaged viewed s) \/ let_go id eid a (sch_fire now id' no engaged viewed) s.
Proof.
  intros Hok Hk. destruct Hk as (e & He & Hid & Ha). assert (Hk : kept id eid a s) by by exists e. unfold let_go. simpl. unfold fire.
  destruct (sch_episodes s !! id') as [e'|] eqn:Ee; [|by left]. destruct (find _ (ep_pending e')) as [b|] eqn:Ef; [|by left].
  pose proof (find_armed _ _ _ Ef) as [Hb Hno]. destruct (decide (arm_no a = no)) as [E|Hne].
  - right. destruct (ok_one s Hok id id' a b) as [<- <-]; [by exists e|by exists e'|congruence|]. split_all; [done|done|].
    rewrite He in Ee. simplify_eq. simpl. rewrite map_app. by destruct (sink_blocked _ _ _).
  - left. destruct (decide (id' = id)) as [->|Hi].
    + rewrite He in Ee. simplify_eq. eexists. simpl. rewrite lookup_insert_eq. split_all; [done|done|]. by apply list_elem_of_filter.
    + exists e. simpl. by rewrite lookup_insert_ne.
Qed.

Lemma op_keeps op id eid a s :
  scheduler_ok s -> may_come op s -> kept id eid a s -> kept id eid a (apply_sch_op op s) \/ let_go id eid a op s.
Proof.
  intros Hok Hmay Hk. destruct op as [now id' episode|now id' no engaged viewed|id'|realmId sessions has|settings|]; simpl.
  - unfold onState. destruct Hk as (e & He & Hid & Ha). destruct (bool_decide _) eqn:Ed; [left; by exists e|].
    apply bool_decide_eq_false in Ed. destruct (decide (id' = id)) as [->|Hne].
    + right. split; [done|]. intros E. apply Ed. rewrite He. simpl. congruence.
    + left. exists e. destruct episode as [[x t]|]; simpl; [by rewrite lookup_insert_ne|by rewrite lookup_delete_ne].
  - by apply fire_keeps.
  - by left.
  - destruct Hmay. by apply publish_keeps.
  - apply (recheck_kept (policy_of id (setDefaults settings s)) id eid a s); [|done|done]. simpl. rewrite map_lookup_imap.
    by destruct (sch_episodes s !! id).
  - by right.
Qed.

Lemma ops_keep ops id eid a s :
  scheduler_ok s -> all_may_come ops s -> kept id eid a s ->
  kept id eid a (scheduler_after ops s) \/
  exists before op after, ops = before ++ op :: after /\ kept id eid a (scheduler_after before s) /\ let_go id eid a op (scheduler_after before s).
Proof.
  revert s. induction ops as [|op ops IH]; intros s Hok Hmay Hk; [by left|]. destruct Hmay as [Hm Hmay].
  destruct (op_keeps op id eid a s Hok Hm Hk) as [Hk1|Hgo]; [|right; by exists [], op, ops].
  destruct (IH (apply_sch_op op s)) as [H|(before & op' & after & -> & H1 & H2)]; [by apply sch_op_ok|done|done|by left|].
  right. by exists (op :: before), op', after.
Qed.

Lemma arm_sinks_has now startedAt policy sinks no sink :
  sink ∈ sinks -> sink_enabled sink policy = true ->
  exists a, a ∈ arm_sinks now startedAt policy sinks no /\ arm_sink a = sink.
Proof.
  intros Hin He. revert no. induction sinks as [|x sinks IH]; intros no; [by apply elem_of_nil in Hin|]. simpl.
  apply elem_of_cons in Hin as [->|Hin].
  - rewrite He. eexists. split; [by left|done].
  - destruct (IH Hin (S no)) as (a & Ha & Es). exists a. split; [|done]. destruct (sink_enabled x policy); [by right|done].
Qed.

Lemma state_arms now id eid startedAt sink s :
  option_map ep_id (sch_episodes s !! id) <> Some eid -> sink_enabled sink (policy_of id s) = true ->
  exists a, kept id eid a (onState now id (Some (eid, startedAt)) s) /\ arm_sink a = sink /\
    arm_due a = deadline now startedAt (sink_delay sink (policy_of id s)).
Proof.
  intros Hne He. destruct (arm_sinks_has now startedAt (policy_of id s) [speech; push] (sch_next s) sink) as (a & Ha & Es);
    [destruct sink; [by left|right; by left]|done|]. exists a. split_all; [|done|].
  - unfold onState. rewrite bool_decide_eq_false_2 by done. eexists. simpl. rewrite lookup_insert_eq. by split_all.
  - apply arm_sinks_spec in Ha as (_ & _ & _ & ->). by rewrite Es.
Qed.

Lemma deadline_max now startedAt delay : (deadline now startedAt delay == Qmax now (startedAt + delay))%Q.
Proof.
  unfold deadline. destruct (Q.max_spec 0 (startedAt + delay - now)) as [[H ->]|[H ->]], (Q.max_spec now (startedAt + delay)) as [[H' ->]|[H' ->]]; lra.
Qed.

Lemma all_may_come_app ops1 ops2 s : all_may_come (ops1 ++ ops2) s <-> all_may_come ops1 s /\ all_may_come ops2 (scheduler_after ops1 s).
Proof. revert s. induction ops1 as [|op ops1 IH]; intros s; simpl; [tauto|]. rewrite (IH (apply_sch_op op s)). tauto. Qed.

(** ** What an alarm is promised *)


(** C29. An alarm that is on is kept: when an episode opens, each sink then enabled
    is armed for its delay after the episode started, or for now if that has
    passed, and whatever comes after, either it is still pending for that
    episode, or it was taken by its own timer, which delivers it unless the user
    was there, by the end of the episode, by a setting that turned the sink off
    or by the end of the host; a realm that leaves a ringing Session out of what
    it publishes loses nothing. *)
Theorem alarm_kept ops now id eid startedAt sink later
    (Hmay : all_may_come (ops ++ sch_state now id (Some (eid, startedAt)) :: later) createAlertDeliveryScheduler) :
  let s := scheduler_after ops createAlertDeliveryScheduler in
  let opened := onState now id (Some (eid, startedAt)) s in
  option_map ep_id (sch_episodes s !! id) <> Some eid -> sink_enabled sink (policy_of id s) = true ->
  exists a, kept id eid a opened /\ arm_sink a = sink /\
    (arm_due a == Qmax now (startedAt + sink_delay sink (policy_of id s)))%Q /\
    (kept id eid a (scheduler_after later opened) \/
     exists before op after, later = before ++ op :: after /\
       kept id eid a (scheduler_after before opened) /\ let_go id eid a op (scheduler_after before opened)).
Proof.
  intros s opened Hne He. apply all_may_come_app in Hmay as [Hm1 [Hm2 Hm3]].
  assert (Hok : scheduler_ok s) by by apply scheduler_after_ok; [apply new_scheduler_ok|].
  destruct (state_arms now id eid startedAt sink s Hne He) as (a & Hk & Es & Ed). exists a. split_all; [done|done| |].
  - rewrite Ed. apply deadline_max.
  - by apply ops_keep; [apply state_ok|..].
Qed.

(** ** Samples *)

Definition ring_settings : AlertSettings := mkSettings true 10000 true 20000.

Definition ring_ops : list SchedulerOp :=
  [sch_settings ring_settings; sch_publish (lit "realm") [(lit "pty-1", Some (Some (lit "build"), no_overrides))] (fun _ => false)].

Definition ring_later : list SchedulerOp :=
  [sch_publish (lit "realm") [] (fun _ => true);
   sch_fire 15000 (lit "pty-1") 0 true false;
   sch_fire 26000 (lit "pty-1") 1 false false].

Lemma ring_may_come : all_may_come (ring_ops ++ sch_state 5000 (lit "pty-1") (Some (lit "e1", 5000%Q)) :: ring_later) createAlertDeliveryScheduler.
Proof.
  assert (fires : forall now id no s, match sch_episodes s !! id with
    | Some e => forallb (fun a => negb (arm_no a =? no)%nat || Qle_bool (arm_due a) now) (ep_pending e) | None => true end = true ->
    forall e a, sch_episodes s !! id = Some e -> a ∈ ep_pending e -> arm_no a = no -> (arm_due a <= now)%Q).
  { intros now id no s H e a He Ha Hn. rewrite He in H. apply (proj1 (forallb_forall _ _)) with (x := a) in H; [|by apply list_elem_of_In].
    apply orb_true_iff in H as [H|H]; [apply negb_true_iff, Nat.eqb_neq in H; done|by apply Qle_bool_iff]. }
  split; [exact I|]. split; [split; [apply (bool_decide_unpack _); vm_compute; exact I|intros id _; vm_compute; reflexivity]|].
  split; [exact I|]. split; [split; [constructor|done]|].
  split; [cbv [may_come]; apply fires; vm_compute; reflexivity|]. split; [cbv [may_come]; apply fires; vm_compute; reflexivity|exact I].
Qed.

Example ring_delivered :
  map (fun d => (dl_armed d, dl_title d, dl_at d)) (sch_delivered (scheduler_after (ring_ops ++ sch_state 5000 (lit "pty-1") (Some (lit "e1", 5000%Q)) :: ring_later) createAlertDeliveryScheduler))
    = [(mkArmed 1 push 25000, lit "build", 26000%Q)].
Proof. vm_compute. reflexivity. Qed.


Lemma alarm_kept_witness :
  let s := scheduler_after ring_ops createAlertDeliveryScheduler in
  let opened := onState 5000 (lit "pty-1") (Some (lit "e1", 5000%Q)) s in
  exists a, kept (lit "pty-1") (lit "e1") a opened /\ arm_sink a = push /\
    (arm_due a == Qmax 5000 (5000 + sink_delay push (policy_of (lit "pty-1") s)))%Q /\
    (kept (lit "pty-1") (lit "e1") a (scheduler_after ring_later opened) \/
     exists before op after, ring_later = before ++ op :: after /\
       kept (lit "pty-1") (lit "e1") a (scheduler_after before opened) /\ let_go (lit "pty-1") (lit "e1") a op (scheduler_after before opened)).
Proof.
  apply (alarm_kept ring_ops 5000 (lit "pty-1") (lit "e1") 5000 push ring_later ring_may_come);
    [vm_compute; discriminate|vm_compute; reflexivity].
Defined.

(** ** The queue of spoken alarms

    What a job's [eligible] answers and what the engine does while it is called
    are given with the call that asks, for a job by what has happened so far; a
    job's [onStart] and [onFinish] are entries of a log, as no caller's calls the
    queue again. *)

Definition MAX_PENDING : nat := 64.
Definition SPEECH_ENGINE_TIMEOUT_MS : Q := 60000.

(** A [SpeechJob], with its place among those the queue took. *)
Record SpeechJob := mkJob { job_no : nat; job_key : text }.

#[export] Instance SpeechJob_eq_dec : EqDecision SpeechJob.
Proof. solve_decision. Defined.

Record Attempt := mkAttempt { att_no : nat; att_job : SpeechJob; att_handle : bool; att_started : bool; att_due : Q }.

Inductive SpeechEvent :=
  | ev_attempt (no : nat) (j : SpeechJob)
  | ev_dispatch (no : nat)
  | ev_dispose (no : nat) (cancel : bool)
  | ev_start (j : SpeechJob)
  | ev_finish (j : SpeechJob) (started : bool)
  | ev_drop (j : SpeechJob).

#[export] Instance SpeechEvent_eq_dec : EqDecision SpeechEvent.
Proof. solve_decision. Defined.

Inductive EngineSignal := onStart | onEnd | onFail.

(** The world around one call: whether an engine is there, which jobs are still
    eligible, and the callbacks each attempt's [prepare] and [start] make before
    they return, or throw. *)
Record SpeechWorld := mkWorld {
  w_now : Q;
  w_available : bool;
  w_eligible : list SpeechEvent -> SpeechJob -> bool;
  w_prepare : nat -> list (nat * EngineSignal) * bool;
  w_start : nat -> list (nat * EngineSignal) * bool
}.

Record SpeechQueue := mkQueue { q_pending : list SpeechJob; q_active : option Attempt; q_log : list SpeechEvent; q_jobs : nat; q_attempts : nat }.

Definition new_speech_queue : SpeechQueue := mkQueue [] None [] 0 0.

Implicit Types (w : SpeechWorld) (q : SpeechQueue).

Definition with_pending (l : list SpeechJob) q : SpeechQueue := mkQueue l (q_active q) (q_log q) (q_jobs q) (q_attempts q).
Definition with_attempt (a : option Attempt) q : SpeechQueue := mkQueue (q_pending q) a (q_log q) (q_jobs q) (q_attempts q).
Definition logged (evs : list SpeechEvent) q : SpeechQueue := mkQueue (q_pending q) (q_active q) (q_log q ++ evs) (q_jobs q) (q_attempts q).

(** [finish] of the active attempt, up to the pump. *)
Definition settle (a : Attempt) (cancel : bool) q : SpeechQueue :=
  logged ((if att_handle a then [ev_dispose (att_no a) cancel] else []) ++ [ev_finish (att_job a) (att_started a)]) (with_attempt None q).

Definition finish_active (no : nat) (cancel : bool) q : SpeechQueue :=
  match q_active q with
  | Some a => if (att_no a =? no)%nat then settle a cancel q else q
  | None => q
  end.

(** A callback of the engine for an attempt, up to the pump. *)
Definition engine_calls w q (call : nat * EngineSignal) : SpeechQueue :=
  match call.2, q_active q with
  | onStart, Some a =>
      if negb (att_no a =? call.1)%nat || att_started a then q
      else if negb (w_eligible w (q_log q) (att_job a)) then settle a true q
      else logged [ev_start (att_job a)] (with_attempt (Some (mkAttempt (att_no a) (att_job a) (att_handle a) true (att_due a))) q)
  | onStart, None => q
  | (onEnd | onFail), _ => finish_active call.1 false q
  end.

(** [takeNext]. *)
Fixpoint take_next w (pending : list SpeechJob) (log : list SpeechEvent) : option SpeechJob * list SpeechJob * list SpeechEvent :=
  match pending with
  | [] => (None, [], log)
  | j :: rest => if w_eligible w log j then (Some j, rest, log) else take_next w rest (log ++ [ev_drop j])
  end.

Definition set_handle (no : nat) q : SpeechQueue :=
  match q_active q with
  | Some a => if (att_no a =? no)%nat then with_attempt (Some (mkAttempt no (att_job a) true (att_started a) (att_due a))) q else q
  | None => q
  end.

(** One attempt at a job, from [prepare] to what [start] called back. *)
Definition attempt_job w (j : SpeechJob) q : SpeechQueue :=
  let no := q_attempts q in
  let q1 := mkQueue (q_pending q) (Some (mkAttempt no j false false (w_now w + SPEECH_ENGINE_TIMEOUT_MS)))
              (q_log q ++ [ev_attempt no j]) (q_jobs q) (S no) in
  let (calls, returns) := w_prepare w no in
  let q2 := foldl (engine_calls w) q1 calls in
  if negb returns then finish_active no false q2
  else
    let (calls', returns') := w_start w no in
    let q3 := foldl (engine_calls w) (logged [ev_dispatch no] (set_handle no q2)) calls' in
    if returns' then q3 else finish_active no false q3.

(** [pump], a turn of its loop for each unit of fuel. *)
Fixpoint pump (fuel : nat) w q : SpeechQueue :=
  match fuel, q_active q with
  | S fuel, None =>
      match take_next w (q_pending q) (q_log q) with
      | (None, rest, log) => mkQueue rest None log (q_jobs q) (q_attempts q)
      | (Some j, rest, log) => pump fuel w (attempt_job w j (mkQueue rest None log (q_jobs q) (q_attempts q)))
      end
  | _, _ => q
  end.

Definition pumped w q : SpeechQueue := pump (S (length (q_pending q))) w q.

Definition key_held (key : text) q : bool :=
  bool_decide (option_map (fun a => job_key (att_job a)) (q_active q) = Some key) || existsb (fun j => bool_decide (job_key j = key)) (q_pending q).

Definition enqueue w (key : text) q : bool * SpeechQueue :=
  if negb (w_available w) then (false, q)
  else if key_held key q then (true, q)
  else if (MAX_PENDING <=? length (q_pending q))%nat then (false, q)
  else (true, pumped w (mkQueue (q_pending q ++ [mkJob (q_jobs q) key]) (q_active q) (q_log q) (S (q_jobs q)) (q_attempts q))).

(** What [refresh] keeps of the pending jobs, which its filter asks in turn. *)
Fixpoint keep_eligible w (pending : list SpeechJob) (log : list SpeechEvent) : list SpeechJob * list SpeechEvent :=
  match pending with
  | [] => ([], log)
  | j :: rest =>
      if w_eligible w log j
      then let (kept, log') := keep_eligible w rest log in (j :: kept, log')
      else keep_eligible w rest (log ++ [ev_drop j])
  end.

Definition refresh w q : SpeechQueue :=
  if bool_decide (q_active q = None) && bool_decide (q_pending q = []) then q
  else
    let (kept, log) := keep_eligible w (q_pending q) (q_log q) in
    let q1 := mkQueue kept (q_active q) log (q_jobs q) (q_attempts q) in
    let q2 := match q_active q1 with
              | Some a => if w_eligible w (q_log q1) (att_job a) then q1 else pumped w (settle a true q1)
              | None => q1
              end in
    pumped w q2.

Definition clear w q : SpeechQueue :=
  let q1 := logged (map ev_drop (q_pending q)) (with_pending [] q) in
  match q_active q1 with Some a => pumped w (settle a true q1) | None => q1 end.

(** The pump at the end of a [finish], where there was one. *)
Definition resumed w q q' : SpeechQueue :=
  match q_active q, q_active q' with Some _, None => pumped w q' | _, _ => q' end.

Inductive SpeechOp := op_enqueue (key : text) | op_refresh | op_clear | op_call (no : nat) (sig : EngineSignal) | op_timer (no : nat).

Definition apply_speech (op : SpeechOp) w q : SpeechQueue :=
  match op with
  | op_enqueue key => (enqueue w key q).2
  | op_refresh => refresh w q
  | op_clear => clear w q
  | op_call no sig => resumed w q (engine_calls w q (no, sig))
  | op_timer no => resumed w q (finish_active no true q)
  end.

Definition speech_after (ops : list (SpeechOp * SpeechWorld)) q : SpeechQueue := foldl (fun q op => apply_speech op.1 op.2 q) q ops.

(** ** What holds of the queue *)

Definition tried_of (ev : SpeechEvent) : option nat := match ev with ev_attempt _ j => Some (job_no j) | _ => None end.
Definition gone_of (ev : SpeechEvent) : option nat := match ev with ev_finish j _ | ev_drop j => Some (job_no j) | _ => None end.

(** The jobs the queue has in hand, the active one first. *)
Definition held q : list SpeechJob := option_list (att_job <$> q_active q) ++ q_pending q.

Record speech_ok q : Prop := {
  so_bound : (length (q_pending q) <= MAX_PENDING)%nat;
  so_keys : NoDup (map job_key (held q));
  so_account : map job_no (held q) ++ omap gone_of (q_log q) ≡ₚ seq 0 (q_jobs q);
  so_order : StronglySorted lt (omap tried_of (q_log q) ++ map job_no (q_pending q));
  so_tried : forall n, n ∈ omap tried_of (q_log q) -> (n < q_jobs q)%nat;
  so_active : forall a, q_active q = Some a -> (att_no a < q_attempts q)%nat /\ (att_started a = true <-> ev_start (att_job a) ∈ q_log q);
  so_heard : forall j, ev_start j ∈ q_log q -> j ∉ q_pending q /\ (job_no j < q_jobs q)%nat;
  so_finish : forall j started, ev_finish j started ∈ q_log q -> (started = true <-> ev_start j ∈ q_log q)
}.

Lemma new_speech_ok : speech_ok new_speech_queue.
Proof. constructor; simpl; try done; try (by intros; set_solver); [lia|constructor|constructor]. Qed.

(** A held job is not gone, and each is held once. *)
Lemma held_once q j :
  speech_ok q -> j ∈ held q -> job_no j ∉ omap gone_of (q_log q) /\ (job_no j < q_jobs q)%nat.
Proof.
  intros Hok Hj. pose proof (so_account q Hok) as Hp.
  assert (Hnd : NoDup (map job_no (held q) ++ omap gone_of (q_log q))) by (rewrite Hp; apply NoDup_seq).
  apply NoDup_app in Hnd as (_ & Hd & _). split; [by apply Hd, list_elem_of_fmap_2|].
  assert (job_no j ∈ seq 0 (q_jobs q)) as Hs; [|apply elem_of_seq in Hs; lia]. rewrite <- Hp. apply elem_of_app. left. by apply list_elem_of_fmap_2.
Qed.

Lemma settle_ok a cancel q : speech_ok q -> q_active q = Some a -> speech_ok (settle a cancel q).
Proof.
  intros Hok Ea. destruct (so_active q Hok a Ea) as [_ Hst]. destruct q as [pending active log jobs atts]. simpl in *. subst active.
  set (evs := (if att_handle a then [ev_dispose (att_no a) cancel] else []) ++ [ev_finish (att_job a) (att_started a)]).
  assert (Ht : omap tried_of evs = []) by by unfold evs; destruct (att_handle a).
  assert (Hg : omap gone_of evs = [job_no (att_job a)]) by by unfold evs; destruct (att_handle a).
  assert (Hs : forall j, ev_start j ∈ log ++ evs <-> ev_start j ∈ log).
  { intros j. rewrite elem_of_app. split; [|by left]. intros [H|H]; [done|]. exfalso. revert H. unfold evs.
    destruct (att_handle a); simpl; rewrite ?elem_of_cons; set_solver. }
  constructor; unfold settle, logged, with_attempt, held; simpl; fold evs; rewrite ?omap_app, ?Ht, ?Hg, ?app_nil_r.
  - apply (so_bound _ Hok).
  - pose proof (so_keys _ Hok) as H. simpl in H. by apply NoDup_cons in H as [_ H].
  - pose proof (so_account _ Hok) as H. simpl in H. rewrite <- H. rewrite (Permutation_app_comm _ [_]). simpl. by rewrite <- Permutation_middle.
  - apply (so_order _ Hok).
  - apply (so_tried _ Hok).
  - done.
  - intros j Hj. apply Hs in Hj. by apply (so_heard _ Hok).
  - intros j started Hj. rewrite Hs. apply elem_of_app in Hj as [Hj|Hj]; [by apply (so_finish _ Hok)|].
    assert (j = att_job a /\ started = att_started a) as [-> ->].
    { revert Hj. unfold evs. destruct (att_handle a); simpl; rewrite ?elem_of_cons; intros; set_solver. }
    exact Hst.
Qed.

(** An event that is neither an attempt nor an end changes no account. *)
Lemma quiet_ok ev q :
  tried_of ev = None -> gone_of ev = None -> (forall j, ev <> ev_start j) -> (forall j b, ev <> ev_finish j b) -> speech_ok q -> speech_ok (logged [ev] q).
Proof.
  intros Ht Hg Hs Hf Hok. assert (Hin : forall e, e ∈ q_log q ++ [ev] -> e ∈ q_log q \/ e = ev).
  { intros e He. apply elem_of_app in He as [He|He]; [by left|right]. by apply list_elem_of_singleton in He. }
  constructor; unfold logged, held; simpl; rewrite ?omap_app; simpl; rewrite ?Ht, ?Hg, ?app_nil_r; try apply Hok.
  - intros a Ea. destruct (so_active q Hok a Ea) as [H1 H2]. split; [done|]. rewrite H2, elem_of_app. split; [by left|].
    intros [H|H]; [done|]. apply list_elem_of_singleton in H. by apply eq_sym, Hs in H.
  - intros j Hj. apply Hin in Hj as [Hj|Hj]; [by apply (so_heard q Hok)|by apply eq_sym, Hs in Hj].
  - intros j b Hj. apply Hin in Hj as [Hj|Hj]; [|by apply eq_sym, Hf in Hj]. rewrite (so_finish q Hok j b Hj), elem_of_app. split; [by left|].
    intros [H|H]; [done|]. apply list_elem_of_singleton in H. by apply eq_sym, Hs in H.
Qed.

Lemma quiet_dispatch no q : speech_ok q -> speech_ok (logged [ev_dispatch no] q).
Proof. by apply quiet_ok. Qed.

Lemma hear_ok a q :
  speech_ok q -> q_active q = Some a ->
  speech_ok (logged [ev_start (att_job a)] (with_attempt (Some (mkAttempt (att_no a) (att_job a) (att_handle a) true (att_due a))) q)).
Proof.
  intros Hok Ea. assert (Hheld : att_job a ∈ held q) by (unfold held; rewrite Ea; by left).
  destruct (held_once q _ Hok Hheld) as [Hng Hlt].
  assert (Hh : held q = att_job a :: q_pending q) by (unfold held; by rewrite Ea).
  constructor; unfold logged, with_attempt; cbn [q_pending q_active q_log q_jobs q_attempts]; rewrite ?omap_app; cbn [omap list_omap tried_of gone_of]; rewrite ?app_nil_r.
  - apply (so_bound q Hok).
  - pose proof (so_keys q Hok) as H. by rewrite Hh in H.
  - pose proof (so_account q Hok) as H. by rewrite Hh in H.
  - apply (so_order q Hok).
  - apply (so_tried q Hok).
  - intros b [= <-]. cbn [att_no att_job att_started]. split; [by apply (so_active q Hok a Ea)|]. split; [|done]. intros _. apply elem_of_app. right. by left.
  - intros j Hj. apply elem_of_app in Hj as [Hj|Hj]; [by apply (so_heard q Hok)|]. apply list_elem_of_singleton in Hj as [= ->].
    split; [|done]. intros Hp. pose proof (so_keys q Hok) as H. rewrite Hh in H. simpl in H. apply NoDup_cons in H as [H _].
    by apply H, list_elem_of_fmap_2.
  - intros j b Hj. apply elem_of_app in Hj as [Hj|Hj]; [|by apply list_elem_of_singleton in Hj].
    rewrite (so_finish q Hok j b Hj), elem_of_app. split; [by left|]. intros [H|H]; [done|]. apply list_elem_of_singleton in H as [= ->].
    exfalso. apply Hng, list_elem_of_omap. by exists (ev_finish (att_job a) b).
Qed.

Lemma finish_active_ok no cancel q : speech_ok q -> speech_ok (finish_active no cancel q).
Proof.
  intros Hok. unfold finish_active. destruct (q_active q) as [a|] eqn:Ea; [|done]. destruct (att_no a =? no)%nat; [|done]. by apply settle_ok.
Qed.

Lemma engine_calls_ok w q call : speech_ok q -> speech_ok (engine_calls w q call).
Proof.
  intros Hok. unfold engine_calls. destruct call as [no sig]. destruct sig; simpl; [|by apply finish_active_ok..].
  destruct (q_active q) as [a|] eqn:Ea; [|done]. destruct (negb (att_no a =? no)%nat || att_started a); [done|].
  destruct (w_eligible w (q_log q) (att_job a)); [by apply hear_ok|by apply settle_ok].
Qed.

Lemma engine_calls_all_ok w calls q : speech_ok q -> speech_ok (foldl (engine_calls w) q calls).
Proof. revert q. induction calls as [|c l IH]; intros q Hok; [done|]. by apply IH, engine_calls_ok. Qed.

Lemma set_handle_ok no q : speech_ok q -> speech_ok (set_handle no q).
Proof.
  intros Hok. unfold set_handle. destruct (q_active q) as [a|] eqn:Ea; [|done]. destruct (att_no a =? no)%nat eqn:En; [|done].
  apply Nat.eqb_eq in En as <-. destruct q as [pending active log jobs atts]. simpl in Ea. subst active.
  constructor; try apply Hok. intros b [= <-]. exact (so_active _ Hok a eq_refl).
Qed.

Lemma sorted_sublist (l k : list nat) : l `sublist_of` k -> StronglySorted lt k -> StronglySorted lt l.
Proof.
  intros Hl. induction Hl as [|x l k Hl IH|x l k Hl IH]; intros Hs; [done|apply StronglySorted_inv in Hs as [Hs Hx]..]; [|by apply IH].
  constructor; [by apply IH|]. rewrite Forall_forall in *. intros y Hy. by apply Hx, (elem_of_sublist _ _ _ Hy Hl).
Qed.

(** A pending job is let go. *)
Lemma drop_ok pre j rest active log jobs atts :
  speech_ok (mkQueue (pre ++ j :: rest) active log jobs atts) -> speech_ok (mkQueue (pre ++ rest) active (log ++ [ev_drop j]) jobs atts).
Proof.
  intros Hok. assert (Hs : forall e, e <> ev_drop j -> e ∈ log ++ [ev_drop j] <-> e ∈ log).
  { intros e Hne. rewrite elem_of_app. split; [|by left]. intros [He|He]; [done|]. by apply list_elem_of_singleton in He. }
  assert (Hsub : pre ++ rest `sublist_of` pre ++ j :: rest) by by apply sublist_app; [|apply sublist_cons].
  assert (Hheld : held (mkQueue (pre ++ j :: rest) active log jobs atts) ≡ₚ j :: held (mkQueue (pre ++ rest) active (log ++ [ev_drop j]) jobs atts)).
  { unfold held. simpl. by rewrite <- !Permutation_middle. }
  constructor; cbn [q_pending q_active q_log q_jobs q_attempts]; rewrite ?omap_app; simpl; rewrite ?app_nil_r.
  - pose proof (so_bound _ Hok) as H. simpl in H. rewrite length_app in *. simpl in H. lia.
  - pose proof (so_keys _ Hok) as H. rewrite Hheld in H. by apply NoDup_cons in H as [_ H].
  - pose proof (so_account _ Hok) as H. rewrite Hheld in H. simpl in H. rewrite <- H. rewrite app_assoc. by rewrite (Permutation_app_comm _ [_]).
  - pose proof (so_order _ Hok) as H. refine (sorted_sublist _ _ _ H). simpl. apply sublist_app; [done|]. by apply sublist_map.
  - apply (so_tried _ Hok).
  - intros a Ea. rewrite Hs by done. by apply (so_active _ Hok).
  - intros i Hi. apply Hs in Hi; [|done]. destruct (so_heard _ Hok i Hi) as [H1 H2]. split; [|done]. intros Hin. apply H1. by apply (elem_of_sublist _ _ _ Hin Hsub).
  - intros i b Hi. apply Hs in Hi; [|done]. rewrite (so_finish _ Hok i b Hi). by rewrite Hs.
Qed.

Lemma keep_ok w pre pending active log jobs atts :
  speech_ok (mkQueue (pre ++ pending) active log jobs atts) ->
  speech_ok (mkQueue (pre ++ (keep_eligible w pending log).1) active (keep_eligible w pending log).2 jobs atts).
Proof.
  revert pre log. induction pending as [|j rest IH]; intros pre log Hok; [done|]. simpl. destruct (w_eligible w log j).
  - specialize (IH (pre ++ [j]) log). rewrite <- !app_assoc in IH. simpl in IH. destruct (keep_eligible w rest log). by apply IH.
  - by apply IH, drop_ok.
Qed.

Lemma drop_all_ok pending active log jobs atts :
  speech_ok (mkQueue pending active log jobs atts) -> speech_ok (mkQueue [] active (log ++ map ev_drop pending) jobs atts).
Proof.
  revert log. induction pending as [|j rest IH]; intros log Hok; simpl; [by rewrite app_nil_r|].
  rewrite cons_middle, app_assoc. by apply IH, (drop_ok []).
Qed.

Lemma take_next_ok w pending log jobs atts :
  speech_ok (mkQueue pending None log jobs atts) ->
  match take_next w pending log with
  | (Some j, rest, log') => speech_ok (mkQueue (j :: rest) None log' jobs atts) /\ (length rest < length pending)%nat
  | (None, rest, log') => rest = [] /\ speech_ok (mkQueue [] None log' jobs atts)
  end.
Proof.
  revert log. induction pending as [|j rest IH]; intros log Hok; simpl; [done|]. destruct (w_eligible w log j); [split; [done|lia]|].
  specialize (IH (log ++ [ev_drop j])). destruct (take_next w rest _) as [[[i|] r] l].
  - destruct IH as [H1 H2]; [by apply (drop_ok [])|]. split; [done|lia].
  - by apply IH, (drop_ok []).
Qed.

Lemma begin_ok now j rest log jobs atts :
  speech_ok (mkQueue (j :: rest) None log jobs atts) ->
  speech_ok (mkQueue rest (Some (mkAttempt atts j false false now)) (log ++ [ev_attempt atts j]) jobs (S atts)).
Proof.
  intros Hok. assert (Hs : forall e, e <> ev_attempt atts j -> e ∈ log ++ [ev_attempt atts j] <-> e ∈ log).
  { intros e Hne. rewrite elem_of_app. split; [|by left]. intros [He|He]; [done|]. by apply list_elem_of_singleton in He. }
  constructor; cbn [q_pending q_active q_log q_jobs q_attempts held]; unfold held; cbn [q_pending q_active q_log]; rewrite ?omap_app; simpl; rewrite ?app_nil_r.
  - pose proof (so_bound _ Hok) as H. simpl in H. lia.
  - apply (so_keys _ Hok).
  - apply (so_account _ Hok).
  - rewrite <- app_assoc. apply (so_order _ Hok).
  - intros n Hn. apply elem_of_app in Hn as [Hn|Hn]; [by apply (so_tried _ Hok)|]. apply list_elem_of_singleton in Hn as ->.
    by apply (held_once _ j Hok); left.
  - intros a [= <-]. simpl. split; [lia|]. rewrite Hs by done. split; [done|]. intros H. apply (so_heard _ Hok) in H as [H _]. exfalso. apply H. by left.
  - intros i Hi. apply Hs in Hi; [|done]. destruct (so_heard _ Hok i Hi) as [H1 H2]. split; [|done]. intros Hin. apply H1. by right.
  - intros i b Hi. apply Hs in Hi; [|done]. rewrite (so_finish _ Hok i b Hi). by rewrite Hs.
Qed.

Lemma attempt_ok w j rest log jobs atts :
  speech_ok (mkQueue (j :: rest) None log jobs atts) -> speech_ok (attempt_job w j (mkQueue rest None log jobs atts)).
Proof.
  intros Hok. apply (begin_ok (w_now w + SPEECH_ENGINE_TIMEOUT_MS)) in Hok. unfold attempt_job. simpl. destruct (w_prepare w atts) as [calls returns].
  destruct returns; simpl; [|by apply finish_active_ok, engine_calls_all_ok]. destruct (w_start w atts) as [calls' returns'].
  assert (H : speech_ok (foldl (engine_calls w) (logged [ev_dispatch atts] (set_handle atts (foldl (engine_calls w)
    (mkQueue rest (Some (mkAttempt atts j false false (w_now w + SPEECH_ENGINE_TIMEOUT_MS))) (log ++ [ev_attempt atts j]) jobs (S atts)) calls))) calls'))
    by by apply engine_calls_all_ok, quiet_dispatch, set_handle_ok, engine_calls_all_ok.
  destruct returns'; [done|by apply finish_active_ok].
Qed.

(** The engine's callbacks touch no pending job. *)
Lemma finish_active_pending no cancel q : q_pending (finish_active no cancel q) = q_pending q.
Proof. unfold finish_active. destruct (q_active q) as [a|]; [|done]. by destruct (att_no a =? no)%nat. Qed.

Lemma engine_calls_pending w calls q : q_pending (foldl (engine_calls w) q calls) = q_pending q.
Proof.
  revert q. induction calls as [|[no sig] l IH]; intros q; [done|]. simpl. rewrite IH. unfold engine_calls.
  destruct sig; simpl; [|by apply finish_active_pending..]. destruct (q_active q) as [a|]; [|done].
  destruct (negb _ || _); [done|]. by destruct (w_eligible _ _ _).
Qed.

Lemma set_handle_pending no q : q_pending (set_handle no q) = q_pending q.
Proof. unfold set_handle. destruct (q_active q) as [a|]; [|done]. by destruct (_ =? _)%nat. Qed.

Lemma attempt_pending w j q : q_pending (attempt_job w j q) = q_pending q.
Proof.
  unfold attempt_job. destruct (w_prepare w _) as [calls returns]. destruct returns; simpl; [|by rewrite finish_active_pending, engine_calls_pending].
  destruct (w_start w _) as [calls' returns']. destruct returns'; rewrite ?finish_active_pending, engine_calls_pending; simpl;
    by rewrite set_handle_pending, engine_calls_pending.
Qed.

(** Nothing waits while nothing is spoken. *)
Definition busy_or_empty q : Prop := q_active q = None -> q_pending q = [].

Lemma pump_ok fuel w q : speech_ok q -> speech_ok (pump fuel w q) /\ ((length (q_pending q) < fuel)%nat -> busy_or_empty (pump fuel w q)).
Proof.
  revert q. induction fuel as [|fuel IH]; intros q Hok; simpl; [split; [done|lia]|].
  destruct q as [pending [a|] log jobs atts]; simpl; [done|]. pose proof (take_next_ok w pending log jobs atts Hok) as Ht.
  destruct (take_next w pending log) as [[[j|] rest] log']; simpl.
  - destruct Ht as [Ht Hl]. destruct (IH _ (attempt_ok w j rest log' jobs atts Ht)) as [H1 H2]. split; [done|]. intros Hf. apply H2.
    rewrite attempt_pending. simpl. lia.
  - destruct Ht as [-> Ht]. done.
Qed.

Lemma pumped_ok w q : speech_ok q -> speech_ok (pumped w q) /\ busy_or_empty (pumped w q).
Proof. intros Hok. destruct (pump_ok (S (length (q_pending q))) w q Hok) as [H1 H2]. split; [done|apply H2; lia]. Qed.

Lemma resumed_ok w q q' :
  busy_or_empty q -> q_pending q' = q_pending q -> (q_active q = None -> q_active q' = None) -> speech_ok q' ->
  speech_ok (resumed w q q') /\ busy_or_empty (resumed w q q').
Proof.
  intros Hb Hp Ha Hok. unfold resumed. destruct (q_active q) as [a|] eqn:Ea, (q_active q') as [b|] eqn:Eb.
  - split; [done|]. intros H. congruence.
  - by apply pumped_ok.
  - by specialize (Ha eq_refl).
  - split; [done|]. intros _. rewrite Hp. by apply Hb.
Qed.

Lemma push_ok key pending active log jobs atts :
  speech_ok (mkQueue pending active log jobs atts) -> key_held key (mkQueue pending active log jobs atts) = false -> (length pending < MAX_PENDING)%nat ->
  speech_ok (mkQueue (pending ++ [mkJob jobs key]) active log (S jobs) atts).
Proof.
  intros Hok Hk Hlen. unfold key_held in Hk. apply orb_false_iff in Hk as [Hka Hkp]. apply bool_decide_eq_false in Hka.
  assert (Hh : held (mkQueue (pending ++ [mkJob jobs key]) active log (S jobs) atts) = held (mkQueue pending active log jobs atts) ++ [mkJob jobs key])
    by (unfold held; simpl; by rewrite app_assoc).
  constructor; rewrite ?Hh; cbn [q_pending q_active q_log q_jobs q_attempts].
  - rewrite length_app. simpl. lia.
  - rewrite map_app. apply NoDup_app. split_all; [apply (so_keys _ Hok)| |apply NoDup_singleton]. intros k Hk Hk2. apply list_elem_of_singleton in Hk2 as ->.
    apply list_elem_of_fmap in Hk as (j & Ej & Hj). unfold held in Hj. simpl in Ej, Hj. apply elem_of_app in Hj as [Hj|Hj].
    + apply Hka. destruct active as [a|]; simpl in *; [|by apply elem_of_nil in Hj]. apply list_elem_of_singleton in Hj as ->. by rewrite Ej.
    + apply not_true_iff_false in Hkp. apply Hkp, existsb_exists. exists j. split; [by apply list_elem_of_In|]. by apply bool_decide_eq_true.
  - pose proof (so_account _ Hok) as H. cbn [q_log q_jobs] in H. rewrite map_app, seq_S, <- app_assoc, (Permutation_app_comm _ (omap gone_of log)).
    cbn [Nat.add map job_no]. by rewrite app_assoc, H.
  - rewrite map_app, app_assoc. apply StronglySorted_app. split_all; [|apply (so_order _ Hok)|repeat constructor].
    intros x y Hx Hy. apply list_elem_of_singleton in Hy as ->. simpl. apply elem_of_app in Hx as [Hx|Hx]; [by apply (so_tried _ Hok)|].
    apply list_elem_of_fmap in Hx as (j & -> & Hj). apply (held_once _ j Hok). unfold held. apply elem_of_app. by right.
  - intros n Hn. pose proof (so_tried _ Hok n Hn) as H. simpl in H. lia.
  - apply (so_active _ Hok).
  - intros j Hj. destruct (so_heard _ Hok j Hj) as [H1 H2]. simpl in H1, H2. split; [|lia]. rewrite elem_of_app. intros [H|H]; [done|].
    apply list_elem_of_singleton in H as ->. simpl in H2. lia.
  - apply (so_finish _ Hok).
Qed.

Lemma finish_active_none no cancel q : q_active q = None -> q_active (finish_active no cancel q) = None.
Proof. intros E. unfold finish_active. by rewrite E. Qed.

Lemma engine_calls_none w q call : q_active q = None -> q_active (engine_calls w q call) = None.
Proof. intros E. unfold engine_calls. destruct call as [no sig]. destruct sig; simpl; [by rewrite E|by apply finish_active_none..]. Qed.

Lemma speech_op_ok op w q : speech_ok q -> busy_or_empty q -> speech_ok (apply_speech op w q) /\ busy_or_empty (apply_speech op w q).
Proof.
  intros Hok Hb. destruct op as [key| | |no sig|no]; simpl.
  - unfold enqueue. destruct (w_available w); [|done]. cbn [negb]. destruct (key_held key q) eqn:Ek; [done|].
    destruct (MAX_PENDING <=? length (q_pending q))%nat eqn:El; [done|]. apply Nat.leb_gt in El.
    cbn [snd]. apply pumped_ok. destruct q. by apply push_ok.
  - unfold refresh. destruct (bool_decide _ && bool_decide _); [done|]. destruct q as [pending active log jobs atts]. simpl.
    pose proof (keep_ok w [] pending active log jobs atts Hok) as Hk. simpl in Hk. destruct (keep_eligible w pending log) as [kept log'].
    apply pumped_ok. simpl in *. destruct active as [a|]; [|done]. destruct (w_eligible w log' (att_job a)); [done|]. by apply pumped_ok, settle_ok.
  - unfold clear. destruct q as [pending active log jobs atts]. simpl. pose proof (drop_all_ok pending active log jobs atts Hok) as Hd.
    destruct active as [a|]; [|done]. apply pumped_ok. by apply (settle_ok a true _ Hd).
  - apply resumed_ok; [done|apply (engine_calls_pending w [_])|apply engine_calls_none|by apply engine_calls_ok].
  - apply resumed_ok; [done|apply finish_active_pending|apply finish_active_none|by apply finish_active_ok].
Qed.

Lemma speech_after_ok ops q : speech_ok q -> busy_or_empty q -> speech_ok (speech_after ops q) /\ busy_or_empty (speech_after ops q).
Proof.
  revert q. induction ops as [|[op w] ops IH]; intros q Hok Hb; [done|]. simpl. destruct (speech_op_ok op w q Hok Hb). by apply IH.
Qed.

(** The log only grows, and an attempt is followed by one with a higher number. *)
Definition goes_on q q' : Prop :=
  q_log q `prefix_of` q_log q' /\ (q_attempts q <= q_attempts q')%nat /\
  (forall b, q_active q' = Some b -> (q_attempts q <= att_no b)%nat \/ exists a, q_active q = Some a /\ att_no a = att_no b).

#[export] Instance goes_on_refl : Reflexive goes_on.
Proof. intros q. unfold goes_on. split_all; [done|lia|]. intros b Hb. right. by exists b. Qed.

#[export] Instance goes_on_trans : Transitive goes_on.
Proof.
  intros q1 q2 q3 (P1 & L1 & A1) (P2 & L2 & A2). unfold goes_on. split_all; [by etrans|lia|]. intros b Hb.
  destruct (A2 b Hb) as [H|(a & Ha & E)]; [left; lia|]. destruct (A1 a Ha) as [H|(c & Hc & E')]; [left; lia|]. right. exists c. by split; [|congruence].
Qed.

Lemma settle_goes a cancel q : goes_on q (settle a cancel q).
Proof. unfold goes_on. split_all; [by eexists|done|done]. Qed.

Lemma logged_goes evs q : goes_on q (logged evs q).
Proof. unfold goes_on. split_all; [by eexists|done|]. intros b Hb. right. by exists b. Qed.

Lemma finish_active_goes no cancel q : goes_on q (finish_active no cancel q).
Proof.
  unfold finish_active. destruct (q_active q) as [a|]; [|done]. destruct (att_no a =? no)%nat; [apply settle_goes|done].
Qed.

Lemma engine_call_goes w q call : goes_on q (engine_calls w q call).
Proof.
  unfold engine_calls. destruct call as [no sig]. destruct sig; simpl; [|apply finish_active_goes..].
  destruct (q_active q) as [a|] eqn:Ea; [|done]. destruct (negb _ || _); [done|]. destruct (w_eligible _ _ _); simpl; [|apply settle_goes].
  unfold goes_on. split_all; [by eexists|done|]. intros b [= <-]. right. by exists a.
Qed.

Lemma engine_calls_goes w calls q : goes_on q (foldl (engine_calls w) q calls).
Proof. revert q. induction calls as [|c l IH]; intros q; [done|]. simpl. etrans; [apply engine_call_goes|apply IH]. Qed.

Lemma set_handle_goes no q : goes_on q (set_handle no q).
Proof.
  unfold set_handle. destruct (q_active q) as [a|] eqn:Ea; [|done]. destruct (att_no a =? no)%nat eqn:E; [|done]. apply Nat.eqb_eq in E.
  unfold goes_on. split_all; [done|done|]. intros b [= <-]. right. by exists a.
Qed.

Lemma attempt_goes w j q : goes_on q (attempt_job w j q).
Proof.
  unfold attempt_job. set (q1 := mkQueue _ _ _ _ _).
  assert (G1 : goes_on q q1) by (unfold goes_on; split_all; [by eexists|simpl; lia|intros b [= <-]; left; simpl; lia]).
  destruct (w_prepare w _) as [calls returns]. assert (G2 : goes_on q (foldl (engine_calls w) q1 calls)) by (etrans; [exact G1|apply engine_calls_goes]).
  destruct returns; simpl; [|etrans; [exact G2|apply finish_active_goes]].
  destruct (w_start w _) as [calls' returns'].
  assert (G3 : goes_on q (foldl (engine_calls w) (logged [ev_dispatch (q_attempts q)] (set_handle (q_attempts q) (foldl (engine_calls w) q1 calls))) calls')).
  { etrans; [exact G2|]. etrans; [apply set_handle_goes|]. etrans; [apply logged_goes|]. apply engine_calls_goes. }
  destruct returns'; [done|]. etrans; [exact G3|apply finish_active_goes].
Qed.

Lemma take_next_log w pending log : log `prefix_of` (take_next w pending log).2.
Proof.
  revert log. induction pending as [|j rest IH]; intros log; [done|]. simpl. destruct (w_eligible w log j); [done|].
  etrans; [|apply IH]. by eexists.
Qed.

Lemma pump_goes fuel w q : goes_on q (pump fuel w q).
Proof.
  revert q. induction fuel as [|fuel IH]; intros q; [done|]. simpl. destruct (q_active q) as [a|] eqn:Ea; [done|].
  pose proof (take_next_log w (q_pending q) (q_log q)) as Hl. destruct (take_next w _ _) as [[[j|] rest] log]; simpl in Hl.
  - etrans; [|apply IH]. etrans; [|apply attempt_goes]. by unfold goes_on; split_all.
  - by unfold goes_on; split_all.
Qed.

Lemma settled_next w a cancel q :
  speech_ok q -> q_active q = Some a ->
  let q' := pumped w (settle a cancel q) in
  ev_finish (att_job a) (att_started a) ∈ q_log q' /\ (forall b, q_active q' = Some b -> (att_no a < att_no b)%nat).
Proof.
  intros Hok Ea q'. destruct (pump_goes (S (length (q_pending (settle a cancel q)))) w (settle a cancel q)) as (Hp & _ & Ha). split.
  - refine (elem_of_prefix _ _ _ _ Hp). simpl. apply elem_of_app. right. apply elem_of_app. right. by left.
  - intros b Hb. destruct (Ha b Hb) as [H|(c & Hc & _)]; [|done]. simpl in H. destruct (so_active q Hok a Ea). lia.
Qed.

(** C31. Spoken alarms are spoken in turn: whatever jobs come, however the engine
    calls back or throws and whenever jobs lose their reason, at most 64 wait, no
    alarm is in hand twice, every job taken is in hand or has ended exactly once,
    jobs reach the engine in the order they were taken, a job is told whether it
    was heard, and none waits while nothing is spoken. *)
Theorem alarms_spoken_in_turn ops :
  let q := speech_after ops new_speech_queue in
  (length (q_pending q) <= MAX_PENDING)%nat /\ NoDup (map job_key (held q)) /\
  map job_no (held q) ++ omap gone_of (q_log q) ≡ₚ seq 0 (q_jobs q) /\
  StronglySorted lt (omap tried_of (q_log q) ++ map job_no (q_pending q)) /\
  (forall j started, ev_finish j started ∈ q_log q -> (started = true <-> ev_start j ∈ q_log q)) /\
  busy_or_empty q.
Proof.
  intros q. destruct (speech_after_ok ops new_speech_queue new_speech_ok) as [Hok Hb]; [done|].
  split_all; [apply Hok..|exact Hb].
Qed.

(** A silent engine holds nothing up: the timer of an attempt, like the
    engine's word that it is over, ends that job and hands the queue to a later
    attempt or leaves it empty; a callback or a timer of any other attempt
    changes nothing; and clearing leaves nothing in hand. *)
Theorem engine_holds_nothing_up ops w :
  let q := speech_after ops new_speech_queue in
  (forall a op, q_active q = Some a -> op = op_timer (att_no a) \/ op = op_call (att_no a) onEnd \/ op = op_call (att_no a) onFail ->
     let q' := apply_speech op w q in
     ev_finish (att_job a) (att_started a) ∈ q_log q' /\ (forall b, q_active q' = Some b -> (att_no a < att_no b)%nat) /\ busy_or_empty q') /\
  (forall no sig, (forall a, q_active q = Some a -> att_no a <> no) ->
     apply_speech (op_call no sig) w q = q /\ apply_speech (op_timer no) w q = q) /\
  held (apply_speech op_clear w q) = [].
Proof.
  intros q. destruct (speech_after_ok ops new_speech_queue new_speech_ok) as [Hok Hb]; [done|]. fold q in Hok, Hb. split_all.
  - intros a op Ea Hop q'. assert (exists cancel, q' = pumped w (settle a cancel q)) as [cancel ->].
    { destruct Hop as [-> |[-> | ->]]; [exists true|exists false..]; unfold q'; simpl; unfold engine_calls, finish_active, resumed; simpl;
        rewrite Ea, Nat.eqb_refl; done. }
    destruct (settled_next w a cancel q Hok Ea) as [H1 H2]. split_all; [done|done|]. by apply pumped_ok, settle_ok.
  - intros no sig Hno. simpl. unfold engine_calls, finish_active, resumed. simpl. destruct (q_active q) as [a|] eqn:Ea.
    + specialize (Hno a eq_refl). apply Nat.eqb_neq in Hno. destruct sig; simpl; by rewrite ?Ea, Hno; simpl; rewrite ?Ea.
    + destruct sig; simpl; by rewrite ?Ea.
  - simpl. unfold clear. simpl. destruct (q_active q) as [a|] eqn:Ea; [done|]. unfold held. simpl. by rewrite Ea.
Qed.

(** ** Samples *)

(** An engine that starts at once and ends when told, and one that throws. *)
Definition calm_world : SpeechWorld := mkWorld 0 true (fun _ _ => true) (fun _ => ([], true)) (fun no => ([(no, onStart)], true)).
Definition broken_world : SpeechWorld := mkWorld 0 true (fun _ _ => true) (fun _ => ([], false)) (fun _ => ([], false)).

Example spoken_in_turn :
  q_log (speech_after [(op_enqueue (lit "a"), calm_world); (op_enqueue (lit "b"), calm_world); (op_enqueue (lit "b"), calm_world);
                       (op_call 1 onEnd, calm_world); (op_timer 0, broken_world)] new_speech_queue)
    = [ev_attempt 0 (mkJob 0 (lit "a")); ev_dispatch 0; ev_start (mkJob 0 (lit "a")); ev_dispose 0 true; ev_finish (mkJob 0 (lit "a")) true;
       ev_attempt 1 (mkJob 1 (lit "b")); ev_finish (mkJob 1 (lit "b")) false].
Proof. vm_compute. reflexivity. Qed.

Example engine_holds_nothing_up_sample :
  let q := speech_after [(op_enqueue (lit "a"), calm_world); (op_enqueue (lit "b"), calm_world)] new_speech_queue in
  option_map att_no (q_active q) = Some 0%nat /\ option_map att_no (q_active (apply_speech (op_timer 0) calm_world q)) = Some 1%nat.
Proof. split; vm_compute; reflexivity. Qed.
