(* ===== verification/FrameTunnel.v ===== *)
(** * The frame tunnel of a Burrow (lib/src/remote/burrow/frame-tunnel.ts)

    The Burrow's half of one remote session that carries embedded pages
    (remote-lib-common/src/remote/frame-wire.ts): frames, their HTTP exchanges and
    sockets, and the flow window over all of them.  What the tunnel answers,
    sends and asks of the upstream is a log; a promise it waits for is pending
    until the world settles it, and a callback of the upstream is an event. *)
From Stdlib Require Import ZArith Lia Ascii Permutation.
From stdpp Require Import gmap pretty.
From coqutil Require Import Byte.
From S2P Require Import Prelude JsValue Bytes Transport TransportSpec.
#[local] Open Scope Z_scope.
#[local] Open Scope list_scope.

(** ** The wire *)

Definition FRAME_CHUNK_BYTES : Z := 192 * 1024.
Definition FRAME_FLOW_WINDOW_BYTES : Z := 1024 * 1024.
Definition FRAME_FLOW_MESSAGE_COST : Z := 256.
Definition MAX_FRAMES_PER_SESSION : nat := 4.
Definition MAX_HTTP_EXCHANGES_PER_SESSION : nat := 32.
Definition MAX_WEBSOCKETS_PER_SESSION : nat := 8.
Definition MAX_HTTP_HEADERS : nat := 128.
Definition MAX_HTTP_HEADER_CHARS : Z := 32 * 1024.
Definition MAX_HTTP_PATH_LENGTH : Z := 8 * 1024.
Definition MAX_WS_MESSAGE_BYTES : Z := 16 * 1024 * 1024.
Definition MAX_WS_PROTOCOLS : nat := 16.

Definition RECHECK_DEBOUNCE_MS : Z := 150.
Definition OWNER_SILENCE_LIMIT_MS : Z := 30000.
Definition MAX_METHOD_LENGTH : Z := 32.
Definition MAX_SURFACE_ID_LENGTH : Z := 256.
Definition MAX_WS_REASON_BYTES : Z := 123.

(** The loop of [frameChunks]: the slices from [offset] on. *)
Fixpoint chunks_from (fuel : nat) (offset : Z) (b : bytes) : list bytes :=
  match fuel with
  | O => []
  | S fuel =>
      if offset <? blen b
      then subarray offset (offset + FRAME_CHUNK_BYTES) b :: chunks_from fuel (offset + FRAME_CHUNK_BYTES) b
      else []
  end.

Definition frameChunks (b : bytes) : list bytes :=
  subarray 0 FRAME_CHUNK_BYTES b :: chunks_from (length b) FRAME_CHUNK_BYTES b.

(** ** What a request may say *)

Definition slen (s : string) : Z := Z.of_nat (String.length s).
Definition unit_in (chars : string) (u : Z) : bool := existsb (Z.eqb u) (units chars).
Definition alnum (u : Z) : bool := (48 <=? u) && (u <=? 57) || (65 <=? u) && (u <=? 90) || (97 <=? u) && (u <=? 122).

Definition TOKEN_RE (s : string) : bool :=
  negb (bool_decide (s = ""%string)) && forallb (fun u => alnum u || unit_in "!#$%&'*+.^_`|~-" u) (units s).
Definition HEADER_VALUE_RE (s : string) : bool := forallb (fun u => negb ((u =? 13) || (u =? 10) || (u =? 0))) (units s).
Definition PATH_RE (s : string) : bool :=
  match units s with
  | u :: us => (u =? 47) && forallb (fun u => negb ((u <=? 32) || (u =? 127) || (u =? 160))) us
  | [] => false
  end.
Definition DESTINATION_RE (s : string) : bool := (slen s <=? 32) && forallb (fun u => (97 <=? u) && (u <=? 122)) (units s).

(** [toUpperCase] of a token, whose characters are ASCII. *)
Definition upper_unit (u : Z) : Z := if (97 <=? u) && (u <=? 122) then u - 32 else u.

Definition validMethod (method : JsValue) : option string :=
  match method with
  | JString m =>
      if (MAX_METHOD_LENGTH <? slen m) || negb (TOKEN_RE m) then Some "method"%string
      else if bool_decide (map upper_unit (units m) = units "CONNECT") then Some "method"%string else None
  | _ => Some "method"%string
  end.

Definition validPath (path : JsValue) : option string :=
  match path with
  | JString p => if (slen p <=? MAX_HTTP_PATH_LENGTH) && PATH_RE p then None else Some "path"%string
  | _ => Some "path"%string
  end.

(** One header field, and the loop over them with the characters so far. *)
Definition header_field (h : JsValue) : option (string * string) :=
  match h with
  | JArray [JString name; JString value] => if TOKEN_RE name && HEADER_VALUE_RE value then Some (name, value) else None
  | _ => None
  end.

Fixpoint header_fields (hs : list JsValue) : option (list (string * string)) :=
  match hs with
  | [] => Some []
  | h :: hs => match header_field h, header_fields hs with Some f, Some fs => Some (f :: fs) | _, _ => None end
  end.

Definition header_chars (fs : list (string * string)) : Z := foldr (fun f n => slen f.1 + slen f.2 + n) 0 fs.

Definition validHeaders (headers : JsValue) : option string :=
  match headers with
  | JArray hs =>
      if (MAX_HTTP_HEADERS <? length hs)%nat then Some "headers"%string
      else match header_fields hs with
           | Some fs => if header_chars fs <=? MAX_HTTP_HEADER_CHARS then None else Some "headers"%string
           | None => Some "headers"%string
           end
  | _ => Some "headers"%string
  end.

Definition validDestination (destination : JsValue) : option string :=
  match destination with
  | JUndefined => None
  | JString d => if DESTINATION_RE d then None else Some "destination"%string
  | _ => Some "destination"%string
  end.

Definition validEnd (v : JsValue) : option string := match v with JBool _ => None | _ => Some "end"%string end.

Definition validProtocols (v : JsValue) : option string :=
  match v with
  | JArray ps =>
      if (length ps <=? MAX_WS_PROTOCOLS)%nat && forallb (fun p => match p with JString s => (slen s <=? 256) && TOKEN_RE s | _ => false end) ps
      then None else Some "protocols"%string
  | _ => Some "protocols"%string
  end.

(** [a ?? b] of two complaints. *)
Definition first_of (a b : option string) : option string := match a with Some _ => a | None => b end.

(** One body chunk off the wire, or [None]. *)
Definition decodeChunk (encoded : string) : option bytes :=
  if base64UrlLength FRAME_CHUNK_BYTES <? slen encoded then None
  else match fromBase64Url encoded with
       | Ok b => if blen b <=? FRAME_CHUNK_BYTES then Some b else None
       | Throw _ => None
       end.

(** ** The state *)

(** A request, with its place among those handled, which stands for the object. *)
Record Request := mkRequest { rq_no : nat; rq_id : string; rq_params : JsValue }.

Inductive FrameMethod :=
  | frameOpen | frameClose | httpRequest | httpWrite | httpCancel | wsOpen | wsSend | wsClose | flowAck | flowPause.

(** [silentSince] is kept apart, as the object outlives its place in the map. *)
Record Frame := mkFrame { f_no : nat; f_id : string; f_surfaceId : string; f_pageOrigin : string }.

Record Exchange := mkExchange { ex_frameId : string; ex_request : Request; ex_answered : bool; ex_ended : bool; ex_held : bool }.

Record Socket := mkSocket {
  so_frameId : string; so_request : Request; so_open : bool; so_held : bool;
  so_fragments : list bytes; so_fragmentBytes : Z; so_fragmentBinary : bool }.

(** [QueuedPayload], with the shapes [wrap] makes. *)
Inductive QueuedPayload :=
  | pl_data (data : JsValue)
  | pl_body (b : bytes)
  | pl_message (b : bytes) (binary fin : bool).

Record Queued := mkQueued { qd_owner : string; qd_frameId : string; qd_event : string; qd_payload : QueuedPayload }.

(** What the tunnel asks of an exchange or socket of the upstream. *)
Inductive UpCall :=
  | c_request (method path : string) (headers destination : JsValue)
  | c_write (b : bytes) (stop : bool)
  | c_pause | c_resume | c_abort
  | c_openSocket (path : string) (protocols : JsValue)
  | c_send (b : bytes) (binary : bool)
  | c_close (code reason : JsValue)
  | c_terminate.

(** What the tunnel answers, sends and asks; an event goes as [wire_data] of its payload. *)
Inductive Out :=
  | o_ok (rq : Request) (result : JsValue)
  | o_fail (rq : Request) (error : string)
  | o_event (sub event : string) (data : QueuedPayload)
  | o_resolve (surfaceId : string)
  | o_open (pageUrl : string) (frameOrigin embedderOrigins : JsValue) (lease : nat)
  | o_close_grant (no : nat)
  | o_call (id : string) (c : UpCall).

(** What is awaited.  The three stages of an open: the page, the grant, the answer. *)
Inductive Pending :=
  | p_resolve (rq : Request) (surfaceId expected : string) (frameOrigin embedderOrigins : JsValue)
  | p_grant (rq : Request) (surfaceId pageOrigin : string)
  | p_answer (rq : Request) (result : string + JsValue)
  | p_settle (rq : Request) (failure : string)
  | p_end (id : string)
  | p_recheck (f : Frame).

(** How the world settles a promise. *)
Inductive Answer := a_page (url : option string) | a_grant (path : string) | a_refused (why : string) | a_done | a_error (message : string).

Record Tunnel := mkTunnel {
  t_frames : list (string * Frame);
  t_opening : list string;
  t_exchanges : list (string * Exchange);
  t_sockets : list (string * Socket);
  t_queue : list Queued;
  t_outstanding : Z;
  t_paused : bool;
  t_watching : bool;
  t_recheckTimer : option Z;
  t_lease : nat;
  t_disposed : bool;
  t_silent : gmap nat Z;
  t_pending : list (nat * Pending);
  t_requests : list string;
  t_promises : nat;
  t_log : list Out
}.

Definition new_tunnel : Tunnel := mkTunnel [] [] [] [] [] 0 false false None 0 false ∅ [] [] 0 [].

Implicit Types (t : Tunnel) (rq : Request) (id : string).

Definition set_frames x t := mkTunnel x (t_opening t) (t_exchanges t) (t_sockets t) (t_queue t) (t_outstanding t) (t_paused t) (t_watching t) (t_recheckTimer t) (t_lease t) (t_disposed t) (t_silent t) (t_pending t) (t_requests t) (t_promises t) (t_log t).
Definition set_opening x t := mkTunnel (t_frames t) x (t_exchanges t) (t_sockets t) (t_queue t) (t_outstanding t) (t_paused t) (t_watching t) (t_recheckTimer t) (t_lease t) (t_disposed t) (t_silent t) (t_pending t) (t_requests t) (t_promises t) (t_log t).
Definition set_exchanges x t := mkTunnel (t_frames t) (t_opening t) x (t_sockets t) (t_queue t) (t_outstanding t) (t_paused t) (t_watching t) (t_recheckTimer t) (t_lease t) (t_disposed t) (t_silent t) (t_pending t) (t_requests t) (t_promises t) (t_log t).
Definition set_sockets x t := mkTunnel (t_frames t) (t_opening t) (t_exchanges t) x (t_queue t) (t_outstanding t) (t_paused t) (t_watching t) (t_recheckTimer t) (t_lease t) (t_disposed t) (t_silent t) (t_pending t) (t_requests t) (t_promises t) (t_log t).
Definition set_queue x t := mkTunnel (t_frames t) (t_opening t) (t_exchanges t) (t_sockets t) x (t_outstanding t) (t_paused t) (t_watching t) (t_recheckTimer t) (t_lease t) (t_disposed t) (t_silent t) (t_pending t) (t_requests t) (t_promises t) (t_log t).
Definition set_window queue outstanding t := mkTunnel (t_frames t) (t_opening t) (t_exchanges t) (t_sockets t) queue outstanding (t_paused t) (t_watching t) (t_recheckTimer t) (t_lease t) (t_disposed t) (t_silent t) (t_pending t) (t_requests t) (t_promises t) (t_log t).
Definition set_flow x t := mkTunnel (t_frames t) (t_opening t) (t_exchanges t) (t_sockets t) (t_queue t) (t_outstanding t) x (t_watching t) (t_recheckTimer t) (t_lease t) (t_disposed t) (t_silent t) (t_pending t) (t_requests t) (t_promises t) (t_log t).
Definition set_watch watching timer t := mkTunnel (t_frames t) (t_opening t) (t_exchanges t) (t_sockets t) (t_queue t) (t_outstanding t) (t_paused t) watching timer (t_lease t) (t_disposed t) (t_silent t) (t_pending t) (t_requests t) (t_promises t) (t_log t).
Definition set_lease x t := mkTunnel (t_frames t) (t_opening t) (t_exchanges t) (t_sockets t) (t_queue t) (t_outstanding t) (t_paused t) (t_watching t) (t_recheckTimer t) x (t_disposed t) (t_silent t) (t_pending t) (t_requests t) (t_promises t) (t_log t).
Definition set_disposed t := mkTunnel (t_frames t) (t_opening t) (t_exchanges t) (t_sockets t) (t_queue t) (t_outstanding t) (t_paused t) (t_watching t) (t_recheckTimer t) (t_lease t) true (t_silent t) (t_pending t) (t_requests t) (t_promises t) (t_log t).
Definition set_silent x t := mkTunnel (t_frames t) (t_opening t) (t_exchanges t) (t_sockets t) (t_queue t) (t_outstanding t) (t_paused t) (t_watching t) (t_recheckTimer t) (t_lease t) (t_disposed t) x (t_pending t) (t_requests t) (t_promises t) (t_log t).
Definition set_pending x n t := mkTunnel (t_frames t) (t_opening t) (t_exchanges t) (t_sockets t) (t_queue t) (t_outstanding t) (t_paused t) (t_watching t) (t_recheckTimer t) (t_lease t) (t_disposed t) (t_silent t) x (t_requests t) n (t_log t).
Definition count_request id t := mkTunnel (t_frames t) (t_opening t) (t_exchanges t) (t_sockets t) (t_queue t) (t_outstanding t) (t_paused t) (t_watching t) (t_recheckTimer t) (t_lease t) (t_disposed t) (t_silent t) (t_pending t) (t_requests t ++ [id]) (t_promises t) (t_log t).
Definition say (outs : list Out) t := mkTunnel (t_frames t) (t_opening t) (t_exchanges t) (t_sockets t) (t_queue t) (t_outstanding t) (t_paused t) (t_watching t) (t_recheckTimer t) (t_lease t) (t_disposed t) (t_silent t) (t_pending t) (t_requests t) (t_promises t) (t_log t ++ outs).

Definition await (p : Pending) t : Tunnel := set_pending (t_pending t ++ [(t_promises t, p)]) (S (t_promises t)) t.
Definition ok rq (result : JsValue) t : Tunnel := say [o_ok rq result] t.
Definition fail rq (error : string) t : Tunnel := say [o_fail rq error] t.
Definition call id (c : UpCall) t : Tunnel := say [o_call id c] t.

(** ** The flow window *)

Definition cost (p : QueuedPayload) : Z :=
  match p with pl_data _ => 0 | pl_body b | pl_message b _ _ => blen b + FRAME_FLOW_MESSAGE_COST end.

(** What an event carries on the wire: [wrap] of its bytes, encoded when it is sent. *)
Definition wire_data (p : QueuedPayload) : JsValue :=
  match p with
  | pl_data data => data
  | pl_body b => JObject [("bytes"%string, JString (toBase64Url b))]
  | pl_message b binary fin => JObject [("data", JString (toBase64Url b)); ("binary", JBool binary); ("fin", JBool fin)]%string
  end.

(** The loop of [drain]: what is left queued, what is outstanding, what goes. *)
Fixpoint drain_queue (queue : list Queued) (outstanding : Z) : list Queued * Z * list Out :=
  match queue with
  | [] => ([], outstanding, [])
  | q :: rest =>
      let n := cost (qd_payload q) in
      if (0 <? n) && (0 <? outstanding) && (FRAME_FLOW_WINDOW_BYTES <? outstanding + n) then (queue, outstanding, [])
      else let '(rest', outstanding', outs) := drain_queue rest (outstanding + n) in
           (rest', outstanding', o_event (qd_owner q) (qd_event q) (qd_payload q) :: outs)
  end.

Definition flow_call (paused held : bool) : list UpCall := if paused then [c_pause] else if held then [] else [c_resume].

Definition setPaused (paused : bool) t : Tunnel :=
  if bool_decide (paused = t_paused t) then t
  else
    say (flat_map (fun e => map (o_call e.1) (flow_call paused (ex_held e.2))) (t_exchanges t) ++
         flat_map (fun e => map (o_call e.1) (flow_call paused (so_held e.2))) (t_sockets t)) (set_flow paused t).

Definition drain t : Tunnel :=
  let '(queue, outstanding, outs) := drain_queue (t_queue t) (t_outstanding t) in
  let full := if t_paused t then FRAME_FLOW_WINDOW_BYTES / 2 else FRAME_FLOW_WINDOW_BYTES in
  setPaused (negb (bool_decide (queue = [])) || (full <=? outstanding)) (say outs (set_window queue outstanding t)).

Definition enqueue (owner frameId event : string) (p : QueuedPayload) t : Tunnel :=
  if t_disposed t then t else drain (set_queue (t_queue t ++ [mkQueued owner frameId event p]) t).

Definition dropQueued (dropped : Queued -> bool) t : Tunnel := set_queue (filter (fun q => dropped q = false) (t_queue t)) t.

(** ** Ending things *)

Definition dropExchange id t : Tunnel :=
  match omap_get id (t_exchanges t) with
  | None => t
  | Some e =>
      let t1 := call id c_abort (set_exchanges (omap_delete id (t_exchanges t)) t) in
      if negb (ex_answered e) && negb (t_disposed t1) then fail (ex_request e) "request cancelled" t1 else t1
  end.

Definition dropSocket id t : Tunnel :=
  match omap_get id (t_sockets t) with
  | None => t
  | Some e =>
      let t1 := call id c_terminate (set_sockets (omap_delete id (t_sockets t)) t) in
      if negb (so_open e) && negb (t_disposed t1) then fail (so_request e) "socket cancelled" t1 else t1
  end.

Definition stopWatching t : Tunnel := set_watch false None t.

Definition surface_gone : JsValue := JObject [("reason"%string, JString "surface-gone")].

Definition closeFrame id (told : bool) t : Tunnel :=
  match omap_get id (t_frames t) with
  | None => t
  | Some f =>
      let t1 := set_frames (omap_delete id (t_frames t)) t in
      let t2 := foldl (fun t e => if bool_decide (ex_frameId e.2 = id) then dropExchange e.1 t else t) t1 (t_exchanges t1) in
      let t3 := foldl (fun t e => if bool_decide (so_frameId e.2 = id) then dropSocket e.1 t else t) t2 (t_sockets t2) in
      let t4 := say [o_close_grant (f_no f)] (dropQueued (fun q => bool_decide (qd_frameId q = id)) t3) in
      let t5 := if told then say [o_event id "frame.closed" (pl_data surface_gone)] t4 else t4 in
      if bool_decide (t_frames t5 = []) then stopWatching t5 else t5
  end.

Definition dispose t : Tunnel :=
  if t_disposed t then t
  else
    let t1 := set_disposed t in
    let t2 := foldl (fun t id => closeFrame id false t) t1 (map fst (t_frames t1)) in
    stopWatching (set_queue [] (set_opening [] t2)).

Definition scheduleRecheck (now : Z) t : Tunnel :=
  if t_disposed t then t else match t_recheckTimer t with Some _ => t | None => set_watch (t_watching t) (Some (now + RECHECK_DEBOUNCE_MS)) t end.

(** [recheck], up to the page it asks for. *)
Definition recheck (f : Frame) t : Tunnel := await (p_recheck f) (say [o_resolve (f_surfaceId f)] t).

Definition idInUse id t : bool :=
  bool_decide (is_Some (omap_get id (t_frames t))) || bool_decide (id ∈ t_opening t)
  || bool_decide (is_Some (omap_get id (t_exchanges t))) || bool_decide (is_Some (omap_get id (t_sockets t))).

(** ** Requests *)

(** The origin of [new URL(value)], [None] where it throws. *)
Class OriginHost := { URL_origin : string -> option string }.

Section tunnel.
  Context `{O : OriginHost} `{T : HostText}.

(** [normalizeOrigin] (remote-lib-common/src/remote/origin.ts). *)
Definition normalizeOrigin (value : option string) : option string :=
  match value with
  | None => None
  | Some v => match URL_origin v with
              | Some origin => if bool_decide (origin = "null"%string) then None else Some origin
              | None => None
              end
  end.

Definition empty_object : JsValue := JObject [].

Definition js_strings (v : JsValue) : bool :=
  match v with JArray xs => forallb (fun x => match x with JString _ => true | _ => false end) xs | _ => false end.

Definition handle_frameOpen (isDirect : bool) rq t : Tunnel :=
  let p := rq_params rq in
  match js_field "surfaceId" p with
  | JString surfaceId =>
      if bool_decide (surfaceId = ""%string) || (MAX_SURFACE_ID_LENGTH <? slen surfaceId)
      then fail rq "invalid frame.open: surfaceId" t
      else
        match js_field "pageOrigin" p, js_field "frameOrigin" p with
        | JString expected, JString frameOrigin =>
            if negb (js_strings (js_field "embedderOrigins" p)) then fail rq "invalid frame.open: origins" t
            else if negb isDirect then fail rq "a frame needs a direct connection" t
            else if idInUse (rq_id rq) t then fail rq "request id already in use" t
            else if (MAX_FRAMES_PER_SESSION <=? length (t_frames t) + length (t_opening t))%nat then fail rq "too many frames are open" t
            else
              await (p_resolve rq surfaceId expected (JString frameOrigin) (js_field "embedderOrigins" p))
                (say [o_resolve surfaceId] (set_opening (t_opening t ++ [rq_id rq]) t))
        | _, _ => fail rq "invalid frame.open: origins" t
        end
  | _ => fail rq "invalid frame.open: surfaceId" t
  end.

Definition handle_frameClose rq t : Tunnel :=
  let t1 := match js_field "frameId" (rq_params rq) with
            | JString frameId => closeFrame frameId false (set_opening (filter (fun x => x <> frameId) (t_opening t)) t)
            | _ => t
            end in
  ok rq empty_object t1.

(** The frame an [http.request] or [ws.open] names. *)
Definition frame_of rq t : option Frame :=
  match js_field "frameId" (rq_params rq) with JString frameId => omap_get frameId (t_frames t) | _ => None end.

Definition handle_httpRequest rq t : Tunnel :=
  let p := rq_params rq in
  let id := rq_id rq in
  match frame_of rq t with
  | None => fail rq "no such frame" t
  | Some f =>
      if idInUse id t then fail rq "request id already in use" t
      else if (MAX_HTTP_EXCHANGES_PER_SESSION <=? length (t_exchanges t))%nat then fail rq "too many requests are open" t
      else
        match first_of (validMethod (js_field "method" p)) (first_of (validPath (js_field "path" p))
                (first_of (validHeaders (js_field "headers" p))
                   (first_of (validDestination (js_field "destination" p)) (validEnd (js_field "end" p))))) with
        | Some invalid => fail rq ("invalid http.request: " +:+ invalid) t
        | None =>
            let stop := js_is_true (js_field "end" p) in
            let method := default ""%string (js_string (js_field "method" p)) in
            let path := default ""%string (js_string (js_field "path" p)) in
            let t1 := call id (c_request method path (js_field "headers" p) (js_field "destination" p)) t in
            let t2 := set_exchanges (omap_set id (mkExchange (f_id f) rq false stop false) (t_exchanges t1)) t1 in
            let t3 := if t_paused t2 then call id c_pause t2 else t2 in
            if stop then await (p_end id) (call id (c_write [] true) t3) else t3
        end
  end.

(** [failExchange]. *)
Definition failExchange id (message : string) t : Tunnel :=
  match omap_get id (t_exchanges t) with
  | None => t
  | Some e =>
      let t1 := if ex_answered e then enqueue id (ex_frameId e) "http.error" (pl_data (JObject [("message"%string, JString message)])) t
                else fail (ex_request e) message t in
      set_exchanges (omap_delete id (t_exchanges t1)) t1
  end.

Definition handle_httpWrite rq t : Tunnel :=
  let p := rq_params rq in
  match js_field "exchangeId" p with
  | JString id =>
      match omap_get id (t_exchanges t) with
      | None => fail rq "no such request body" t
      | Some e =>
          if ex_ended e then fail rq "no such request body" t
          else
            match js_field "end" p with
            | JBool stop =>
                match js_field "bytes" p with
                | JString encoded =>
                    match decodeChunk encoded with
                    | None => fail rq "invalid http.write: bytes" t
                    | Some chunk =>
                        let e' := mkExchange (ex_frameId e) (ex_request e) (ex_answered e) stop (ex_held e) in
                        await (p_settle rq "upstream failed")
                          (call id (c_write chunk stop) (set_exchanges (omap_set id e' (t_exchanges t)) t))
                    end
                | _ => fail rq "invalid http.write: bytes" t
                end
            | _ => fail rq "invalid http.write: end" t
            end
      end
  | _ => fail rq "no such request body" t
  end.

Definition handle_httpCancel rq t : Tunnel :=
  let t1 := match js_field "exchangeId" (rq_params rq) with
            | JString id => dropQueued (fun q => bool_decide (qd_owner q = id)) (dropExchange id t)
            | _ => t
            end in
  ok rq empty_object t1.

Definition handle_wsOpen rq t : Tunnel :=
  let p := rq_params rq in
  let id := rq_id rq in
  match frame_of rq t with
  | None => fail rq "no such frame" t
  | Some f =>
      if idInUse id t then fail rq "request id already in use" t
      else if (MAX_WEBSOCKETS_PER_SESSION <=? length (t_sockets t))%nat then fail rq "too many sockets are open" t
      else
        let protocols := match js_field "protocols" p with JUndefined | JNull => JArray [] | v => v end in
        match first_of (validPath (js_field "path" p)) (validProtocols protocols) with
        | Some invalid => fail rq ("invalid ws.open: " +:+ invalid) t
        | None =>
            let path := default ""%string (js_string (js_field "path" p)) in
            let t1 := call id (c_openSocket path protocols) t in
            let t2 := set_sockets (omap_set id (mkSocket (f_id f) rq false false [] 0 false) (t_sockets t1)) t1 in
            if t_paused t2 then call id c_pause t2 else t2
        end
  end.

Definition set_fragments (l : list bytes) (n : Z) (binary : bool) (e : Socket) : Socket :=
  mkSocket (so_frameId e) (so_request e) (so_open e) (so_held e) l n binary.

Definition handle_wsSend rq t : Tunnel :=
  let p := rq_params rq in
  match js_field "socketId" p with
  | JString id =>
      match omap_get id (t_sockets t) with
      | None => fail rq "no such socket" t
      | Some e =>
          if negb (so_open e) then fail rq "no such socket" t
          else
            match js_field "binary" p, js_field "fin" p with
            | JBool binary, JBool fin =>
                match (match js_field "data" p with JString encoded => decodeChunk encoded | _ => None end) with
                | None => fail rq "invalid ws.send: data" t
                | Some chunk =>
                    let binary' := if bool_decide (so_fragments e = []) then binary else so_fragmentBinary e in
                    let fragments := so_fragments e ++ [chunk] in
                    let n := so_fragmentBytes e + blen chunk in
                    let put e' t := set_sockets (omap_set id e' (t_sockets t)) t in
                    if MAX_WS_MESSAGE_BYTES <? n
                    then fail rq "message too big" (put (set_fragments [] 0 binary' e) (call id (c_close (JNumber 1009) (JString "message too big")) t))
                    else if negb fin then ok rq empty_object (put (set_fragments fragments n binary' e) t)
                    else
                      await (p_settle rq "socket send failed")
                        (call id (c_send (concatBytes fragments) binary') (put (set_fragments [] 0 binary' e) t))
                end
            | _, _ => fail rq "invalid ws.send" t
            end
      end
  | _ => fail rq "no such socket" t
  end.

Definition valid_code (code : JsValue) : bool :=
  match code with
  | JUndefined => true
  | JNumber z => (z =? 1000) || (3000 <=? z) && (z <=? 4999)
  | _ => false
  end.

Definition valid_reason (reason : JsValue) : bool :=
  match reason with
  | JUndefined => true
  | JString s => blen (utf8Encode s) <=? MAX_WS_REASON_BYTES
  | _ => false
  end.

Definition handle_wsClose rq t : Tunnel :=
  let p := rq_params rq in
  let code := js_field "code" p in
  let reason := js_field "reason" p in
  if negb (valid_code code) then fail rq "invalid ws.close: code" t
  else if negb (valid_reason reason) then fail rq "invalid ws.close: reason" t
  else
    let t1 := match js_field "socketId" p with
              | JString id =>
                  match omap_get id (t_sockets t) with
                  | Some e => if so_open e then call id (c_close code reason) t else dropSocket id t
                  | None => t
                  end
              | _ => t
              end in
    ok rq empty_object t1.

Definition handle_flowAck rq t : Tunnel :=
  match js_field "bytes" (rq_params rq) with
  | JNumber n =>
      if (0 <=? n) && (n <? 2 ^ 53)
      then drain (ok rq empty_object (set_window (t_queue t) (Z.max 0 (t_outstanding t - n)) t))
      else fail rq "invalid flow.ack" t
  | _ => fail rq "invalid flow.ack" t
  end.

Definition hold_call (paused flow : bool) id t : Tunnel :=
  if paused then call id c_pause t else if negb flow then call id c_resume t else t.

Definition handle_flowPause rq t : Tunnel :=
  let p := rq_params rq in
  match js_field "id" p, js_field "paused" p with
  | JString id, JBool paused =>
      let t1 :=
        match omap_get id (t_exchanges t), omap_get id (t_sockets t) with
        | Some e, _ =>
            hold_call paused (t_paused t) id
              (set_exchanges (omap_set id (mkExchange (ex_frameId e) (ex_request e) (ex_answered e) (ex_ended e) paused) (t_exchanges t)) t)
        | None, Some e =>
            hold_call paused (t_paused t) id
              (set_sockets (omap_set id (mkSocket (so_frameId e) (so_request e) (so_open e) paused (so_fragments e) (so_fragmentBytes e) (so_fragmentBinary e)) (t_sockets t)) t)
        | None, None => t
        end in
      ok rq empty_object t1
  | _, _ => fail rq "invalid flow.pause" t
  end.

(** [handle]. *)
Definition handle (isDirect : bool) (method : FrameMethod) id (params : JsValue) t : Tunnel :=
  if t_disposed t then t
  else
    let rq := mkRequest (length (t_requests t)) id params in
    let t := count_request id t in
    match method with
    | frameOpen => handle_frameOpen isDirect rq t
    | frameClose => handle_frameClose rq t
    | httpRequest => handle_httpRequest rq t
    | httpWrite => handle_httpWrite rq t
    | httpCancel => handle_httpCancel rq t
    | wsOpen => handle_wsOpen rq t
    | wsSend => handle_wsSend rq t
    | wsClose => handle_wsClose rq t
    | flowAck => handle_flowAck rq t
    | flowPause => handle_flowPause rq t
    end.

(** ** Callbacks of the upstream

    A sink hears nothing more once its exchange or socket is dropped or over. *)

Definition onHead id (status : Z) (statusText : string) (headers : JsValue) t : Tunnel :=
  match omap_get id (t_exchanges t) with
  | None => t
  | Some e =>
      if ex_answered e then t
      else
        ok (ex_request e) (JObject [("status", JNumber status); ("statusText", JString statusText); ("headers", headers)]%string)
          (set_exchanges (omap_set id (mkExchange (ex_frameId e) (ex_request e) true (ex_ended e) (ex_held e)) (t_exchanges t)) t)
  end.

Definition onBody id (chunk : bytes) t : Tunnel :=
  match omap_get id (t_exchanges t) with
  | None => t
  | Some e =>
      if negb (ex_answered e) then t
      else foldl (fun t b => enqueue id (ex_frameId e) "http.body" (pl_body b) t) t (frameChunks chunk)
  end.

Definition onEnd id t : Tunnel :=
  match omap_get id (t_exchanges t) with
  | None => t
  | Some e =>
      if negb (ex_answered e) then t
      else
        let t1 := enqueue id (ex_frameId e) "http.end" (pl_data empty_object) t in
        set_exchanges (omap_delete id (t_exchanges t1)) t1
  end.

Definition onError id (message : string) t : Tunnel := failExchange id ("upstream failed: " +:+ message) t.

Definition onOpen id (protocol extensions : string) t : Tunnel :=
  match omap_get id (t_sockets t) with
  | None => t
  | Some e =>
      if so_open e then t
      else
        ok (so_request e) (JObject [("protocol", JString protocol); ("extensions", JString extensions)]%string)
          (set_sockets (omap_set id (mkSocket (so_frameId e) (so_request e) true (so_held e) (so_fragments e) (so_fragmentBytes e) (so_fragmentBinary e)) (t_sockets t)) t)
  end.

(** The fragments of a message, the last marked. *)
Fixpoint message_payloads (fragments : list bytes) (binary : bool) : list QueuedPayload :=
  match fragments with
  | [] => []
  | [b] => [pl_message b binary true]
  | b :: rest => pl_message b binary false :: message_payloads rest binary
  end.

Definition onMessage id (data : bytes) (binary : bool) t : Tunnel :=
  match omap_get id (t_sockets t) with
  | None => t
  | Some e =>
      if negb (so_open e) then t
      else foldl (fun t p => enqueue id (so_frameId e) "ws.message" p t) t (message_payloads (frameChunks data) binary)
  end.

Definition onClose id (code : Z) (reason : string) t : Tunnel :=
  match omap_get id (t_sockets t) with
  | None => t
  | Some e =>
      let t1 := if so_open e
                then enqueue id (so_frameId e) "ws.closed" (pl_data (JObject [("code", JNumber code); ("reason", JString reason)]%string)) t
                else fail (so_request e) ("upstream refused the socket: " +:+ pretty code) t in
      set_sockets (omap_delete id (t_sockets t1)) t1
  end.

(** ** Promises *)

Definition installs rq (surfaceId pageOrigin path : string) t : Tunnel :=
  let f := mkFrame (rq_no rq) (rq_id rq) surfaceId pageOrigin in
  let t1 := set_frames (omap_set (rq_id rq) f (t_frames t)) t in
  let t2 := set_watch true (t_recheckTimer t1) t1 in
  await (p_answer rq (inr (JObject [("path"%string, JString path)]))) (recheck f t2).

(** What [resolveAndOpen] does with the page. *)
Definition page_resolved rq (surfaceId expected : string) (frameOrigin embedderOrigins : JsValue) (url : option string) t : Tunnel :=
  if negb (bool_decide (rq_id rq ∈ t_opening t)) then await (p_answer rq (inl "frame.open superseded"%string)) t
  else
    match url, normalizeOrigin url with
    | Some pageUrl, Some pageOrigin =>
        if bool_decide (pageUrl = ""%string) then await (p_answer rq (inl ("no embedded page: " +:+ surfaceId))) t
        else if negb (bool_decide (pageOrigin = expected)) then await (p_answer rq (inl ("the page moved: " +:+ surfaceId))) t
        else await (p_grant rq surfaceId pageOrigin)
               (say [o_open pageUrl frameOrigin embedderOrigins (S (t_lease t))] (set_lease (S (t_lease t)) t))
    | _, _ => await (p_answer rq (inl ("no embedded page: " +:+ surfaceId))) t
    end.

Definition granted rq (surfaceId pageOrigin path : string) t : Tunnel :=
  if bool_decide (rq_id rq ∈ t_opening t) then installs rq surfaceId pageOrigin path t
  else await (p_answer rq (inl "frame.open superseded"%string)) (say [o_close_grant (rq_no rq)] t).

(** The end of a recheck. *)
Definition close_unless (f : Frame) (url : option string) t : Tunnel :=
  if bool_decide (normalizeOrigin url = Some (f_pageOrigin f)) then t else closeFrame (f_id f) true t.

Definition rechecked (now : Z) (f : Frame) (answer : option (option string)) t : Tunnel :=
  match answer with
  | Some url => close_unless f url (set_silent (delete (f_no f) (t_silent t)) t)
  | None =>
      let since := default now (t_silent t !! f_no f) in
      let t1 := set_silent (<[f_no f := since]> (t_silent t)) t in
      if now - since <? OWNER_SILENCE_LIMIT_MS then scheduleRecheck now t1 else close_unless f None t1
  end.

(** One promise settles; an answer of the wrong shape is none. *)
Definition settled (now : Z) (p : Pending) (answer : Answer) t : option Tunnel :=
  match p, answer with
  | p_resolve rq surfaceId expected frameOrigin embedderOrigins, a_page url =>
      Some (page_resolved rq surfaceId expected frameOrigin embedderOrigins url t)
  | (p_resolve rq _ _ _ _ | p_grant rq _ _), a_error m => Some (await (p_answer rq (inl ("frame.open failed: " +:+ m))) t)
  | p_grant rq surfaceId pageOrigin, a_grant path => Some (granted rq surfaceId pageOrigin path t)
  | p_grant rq _ _, a_refused why => Some (await (p_answer rq (inl ("frame refused: " +:+ why))) t)
  | p_answer rq result, a_done =>
      let t1 := set_opening (filter (fun x => x <> rq_id rq) (t_opening t)) t in
      Some (if t_disposed t1 then t1 else match result with inl why => fail rq why t1 | inr v => ok rq v t1 end)
  | p_settle rq failure, a_done => Some (if t_disposed t then t else ok rq empty_object t)
  | p_settle rq failure, a_error m => Some (if t_disposed t then t else fail rq (failure +:+ ": " +:+ m) t)
  | p_end id, a_done => Some t
  | p_end id, a_error m => Some (call id c_abort (failExchange id ("upstream failed: " +:+ m) t))
  | p_recheck f, a_page url => Some (rechecked now f (Some url) t)
  | p_recheck f, a_error _ => Some (rechecked now f None t)
  | _, _ => None
  end.

Definition settle (now : Z) (no : nat) (answer : Answer) t : Tunnel :=
  match find (fun p => p.1 =? no)%nat (t_pending t) with
  | Some (_, p) =>
      default t (settled now p answer (set_pending (filter (fun p => p.1 <> no) (t_pending t)) (t_promises t) t))
  | None => t
  end.

Definition directoryChanged (now : Z) t : Tunnel := if t_watching t then scheduleRecheck now t else t.

Definition recheckTimer t : Tunnel :=
  match t_recheckTimer t with
  | None => t
  | Some _ => foldl (fun t e => recheck e.2 t) (set_watch (t_watching t) None t) (t_frames t)
  end.

(** ** Everything that can happen to a tunnel *)

Inductive TunnelOp :=
  | op_handle (isDirect : bool) (method : FrameMethod) id (params : JsValue)
  | op_head id (status : Z) (statusText : string) (headers : JsValue)
  | op_body id (chunk : bytes)
  | op_end id
  | op_error id (message : string)
  | op_open id (protocol extensions : string)
  | op_message id (data : bytes) (binary : bool)
  | op_close id (code : Z) (reason : string)
  | op_settle (now : Z) (no : nat) (answer : Answer)
  | op_directory (now : Z)
  | op_recheck
  | op_dispose.

Definition apply_tunnel (op : TunnelOp) t : Tunnel :=
  match op with
  | op_handle isDirect method id params => handle isDirect method id params t
  | op_head id status statusText headers => onHead id status statusText headers t
  | op_body id chunk => onBody id chunk t
  | op_end id => onEnd id t
  | op_error id message => onError id message t
  | op_open id protocol extensions => onOpen id protocol extensions t
  | op_message id data binary => onMessage id data binary t
  | op_close id code reason => onClose id code reason t
  | op_settle now no answer => settle now no answer t
  | op_directory now => directoryChanged now t
  | op_recheck => recheckTimer t
  | op_dispose => dispose t
  end.

Definition tunnel_after (ops : list TunnelOp) t : Tunnel := foldl (fun t op => apply_tunnel op t) t ops.

(** ** The tunnel as small steps

    Every operation is a sequence of these, beside the request in hand, which is
    being handled or answered. *)

Definition quiet (o : Out) : bool :=
  match o with
  | o_resolve _ | o_open _ _ _ _ => true
  | o_call _ (c_write _ _ | c_abort | c_send _ _ | c_close _ _) => true
  | _ => false
  end.

Definition pending_rq (p : Pending) : option Request :=
  match p with
  | p_resolve rq _ _ _ _ | p_grant rq _ _ | p_answer rq _ | p_settle rq _ => Some rq
  | p_end _ | p_recheck _ => None
  end.

Definition final (event : string) : bool :=
  bool_decide (event = "http.end"%string) || bool_decide (event = "http.error"%string) || bool_decide (event = "ws.closed"%string).

Definition live id t : Prop := is_Some (omap_get id (t_exchanges t)) \/ is_Some (omap_get id (t_sockets t)).

Definition unreferenced id t : Prop :=
  Forall (fun e => ex_frameId e.2 <> id) (t_exchanges t) /\ Forall (fun e => so_frameId e.2 <> id) (t_sockets t) /\
  Forall (fun q => qd_frameId q <> id) (t_queue t).

Abbreviation Hand := (Tunnel * option Request)%type.

Inductive micro : Hand -> Hand -> Prop :=
  (* the request in hand *)
  | m_take t id params : t_disposed t = false -> micro (t, None) (count_request id t, Some (mkRequest (length (t_requests t)) id params))
  | m_ok t rq v : t_disposed t = false -> micro (t, Some rq) (ok rq v t, None)
  | m_fail t rq e : t_disposed t = false -> micro (t, Some rq) (fail rq e t, None)
  | m_lose t rq : t_disposed t = true -> micro (t, Some rq) (t, None)
  | m_keep t rq p : pending_rq p = Some rq -> micro (t, Some rq) (await p t, None)
  | m_pick t no p : (no, p) ∈ t_pending t ->
      micro (t, None) (set_pending (filter (fun p => p.1 <> no) (t_pending t)) (t_promises t) t, pending_rq p)
  | m_ack t rq n : t_disposed t = false -> 0 <= n ->
      micro (t, Some rq) (drain (ok rq empty_object (set_window (t_queue t) (Z.max 0 (t_outstanding t - n)) t)), None)
  (* exchanges and sockets *)
  | m_exchange t rq fid method path h d stop :
      t_disposed t = false -> is_Some (omap_get fid (t_frames t)) -> idInUse (rq_id rq) t = false -> (length (t_exchanges t) < MAX_HTTP_EXCHANGES_PER_SESSION)%nat ->
      let t2 := set_exchanges (omap_set (rq_id rq) (mkExchange fid rq false stop false) (t_exchanges t)) (call (rq_id rq) (c_request method path h d) t) in
      micro (t, Some rq) (if t_paused t2 then call (rq_id rq) c_pause t2 else t2, None)
  | m_socket t rq fid path protocols :
      t_disposed t = false -> is_Some (omap_get fid (t_frames t)) -> idInUse (rq_id rq) t = false -> (length (t_sockets t) < MAX_WEBSOCKETS_PER_SESSION)%nat ->
      let t2 := set_sockets (omap_set (rq_id rq) (mkSocket fid rq false false [] 0 false) (t_sockets t)) (call (rq_id rq) (c_openSocket path protocols) t) in
      micro (t, Some rq) (if t_paused t2 then call (rq_id rq) c_pause t2 else t2, None)
  | m_ended t h id e stop : omap_get id (t_exchanges t) = Some e ->
      micro (t, h) (set_exchanges (omap_set id (mkExchange (ex_frameId e) (ex_request e) (ex_answered e) stop (ex_held e)) (t_exchanges t)) t, h)
  | m_fragments t h id e l n binary : omap_get id (t_sockets t) = Some e ->
      micro (t, h) (set_sockets (omap_set id (set_fragments l n binary e) (t_sockets t)) t, h)
  | m_head t h id e v : omap_get id (t_exchanges t) = Some e -> ex_answered e = false -> t_disposed t = false ->
      micro (t, h) (ok (ex_request e) v (set_exchanges (omap_set id (mkExchange (ex_frameId e) (ex_request e) true (ex_ended e) (ex_held e)) (t_exchanges t)) t), h)
  | m_opened t h id e v : omap_get id (t_sockets t) = Some e -> so_open e = false -> t_disposed t = false ->
      micro (t, h) (ok (so_request e) v (set_sockets (omap_set id (mkSocket (so_frameId e) (so_request e) true (so_held e) (so_fragments e) (so_fragmentBytes e) (so_fragmentBinary e)) (t_sockets t)) t), h)
  | m_hold t h id e paused : omap_get id (t_exchanges t) = Some e ->
      micro (t, h) (hold_call paused (t_paused t) id (set_exchanges (omap_set id (mkExchange (ex_frameId e) (ex_request e) (ex_answered e) (ex_ended e) paused) (t_exchanges t)) t), h)
  | m_hold_socket t h id e paused : omap_get id (t_sockets t) = Some e ->
      micro (t, h) (hold_call paused (t_paused t) id (set_sockets (omap_set id (mkSocket (so_frameId e) (so_request e) (so_open e) paused (so_fragments e) (so_fragmentBytes e) (so_fragmentBinary e)) (t_sockets t)) t), h)
  | m_drop t h id : micro (t, h) (dropExchange id t, h)
  | m_drop_socket t h id : micro (t, h) (dropSocket id t, h)
  | m_finish t h id e event data : omap_get id (t_exchanges t) = Some e -> ex_answered e = true -> t_disposed t = false -> final event = true ->
      let t1 := enqueue id (ex_frameId e) event (pl_data data) t in
      micro (t, h) (set_exchanges (omap_delete id (t_exchanges t1)) t1, h)
  | m_refuse t h id e message : omap_get id (t_exchanges t) = Some e -> ex_answered e = false -> t_disposed t = false ->
      micro (t, h) (set_exchanges (omap_delete id (t_exchanges t)) (fail (ex_request e) message t), h)
  | m_closed t h id e event data : omap_get id (t_sockets t) = Some e -> so_open e = true -> t_disposed t = false -> final event = true ->
      let t1 := enqueue id (so_frameId e) event (pl_data data) t in
      micro (t, h) (set_sockets (omap_delete id (t_sockets t1)) t1, h)
  | m_refuse_socket t h id e message : omap_get id (t_sockets t) = Some e -> so_open e = false -> t_disposed t = false ->
      micro (t, h) (set_sockets (omap_delete id (t_sockets t)) (fail (so_request e) message t), h)
  | m_body t h id e b : omap_get id (t_exchanges t) = Some e -> ex_answered e = true -> t_disposed t = false -> blen b <= FRAME_CHUNK_BYTES ->
      micro (t, h) (enqueue id (ex_frameId e) "http.body" (pl_body b) t, h)
  | m_message t h id e b binary fin : omap_get id (t_sockets t) = Some e -> so_open e = true -> t_disposed t = false -> blen b <= FRAME_CHUNK_BYTES ->
      micro (t, h) (enqueue id (so_frameId e) "ws.message" (pl_message b binary fin) t, h)
  | m_dropQueued t h P : micro (t, h) (dropQueued P t, h)
  (* frames *)
  | m_opening t rq : t_disposed t = false -> idInUse (rq_id rq) t = false -> (length (t_frames t) + length (t_opening t) < MAX_FRAMES_PER_SESSION)%nat ->
      micro (t, Some rq) (set_opening (t_opening t ++ [rq_id rq]) t, Some rq)
  | m_unopen t h id : micro (t, h) (set_opening (filter (fun x => x <> id) (t_opening t)) t, h)
  | m_install t rq surfaceId pageOrigin : rq_id rq ∈ t_opening t ->
      micro (t, Some rq) (set_frames (omap_set (rq_id rq) (mkFrame (rq_no rq) (rq_id rq) surfaceId pageOrigin) (t_frames t)) t, Some rq)
  | m_spare t rq : micro (t, Some rq) (say [o_close_grant (rq_no rq)] t, Some rq)
  | m_unframe t h id f : omap_get id (t_frames t) = Some f -> unreferenced id t ->
      micro (t, h) (say [o_close_grant (f_no f)] (set_frames (omap_delete id (t_frames t)) t), h)
  | m_told t h id : t_disposed t = false -> omap_get id (t_frames t) = None -> micro (t, h) (say [o_event id "frame.closed" (pl_data surface_gone)] t, h)
  (* what shows in none of the invariants *)
  | m_quiet t h outs : forallb quiet outs = true -> micro (t, h) (say outs t, h)
  | m_await t h p : pending_rq p = None -> micro (t, h) (await p t, h)
  | m_watch t h w timer : micro (t, h) (set_watch w timer t, h)
  | m_lease t h n : micro (t, h) (set_lease n t, h)
  | m_silent t h m : micro (t, h) (set_silent m t, h).

Abbreviation micros := (rtc micro).

(** *** What the larger steps leave alone *)

Lemma drain_queue_spec queue outstanding :
  let '(rest, out, outs) := drain_queue queue outstanding in
  exists sent, queue = sent ++ rest /\ outs = map (fun q => o_event (qd_owner q) (qd_event q) (qd_payload q)) sent /\
    out = outstanding + foldr (fun q n => cost (qd_payload q) + n) 0 sent.
Proof.
  revert outstanding. induction queue as [|q queue IH]; intros outstanding; simpl; [exists []; split_all; [done|done|simpl; lia]|].
  destruct ((0 <? cost (qd_payload q)) && (0 <? outstanding) && _); [exists []; split_all; [done|done|simpl; lia]|].
  specialize (IH (outstanding + cost (qd_payload q))). destruct (drain_queue queue _) as [[rest out] outs].
  destruct IH as (sent & -> & -> & ->). exists (q :: sent). split_all; [done|done|simpl; lia].
Qed.

Definition flow_calls (paused : bool) t : list Out :=
  flat_map (fun e => map (o_call e.1) (flow_call paused (ex_held e.2))) (t_exchanges t) ++
  flat_map (fun e => map (o_call e.1) (flow_call paused (so_held e.2))) (t_sockets t).

(** [drain], as what it sends, what it leaves and whether it turns the sources. *)
Lemma drain_window_spec t :
  exists sent rest out,
    drain_queue (t_queue t) (t_outstanding t) = (rest, out, map (fun q => o_event (qd_owner q) (qd_event q) (qd_payload q)) sent) /\
    t_queue t = sent ++ rest /\ out = t_outstanding t + foldr (fun q n => cost (qd_payload q) + n) 0 sent /\
    let full := if t_paused t then FRAME_FLOW_WINDOW_BYTES / 2 else FRAME_FLOW_WINDOW_BYTES in
    let paused := negb (bool_decide (rest = [])) || (full <=? out) in
    drain t = say (map (fun q => o_event (qd_owner q) (qd_event q) (qd_payload q)) sent ++ (if bool_decide (paused = t_paused t) then [] else flow_calls paused t))
                (set_flow paused (set_window rest out t)).
Proof.
  pose proof (drain_queue_spec (t_queue t) (t_outstanding t)) as H. unfold drain. destruct (drain_queue _ _) as [[rest out] outs].
  destruct H as (sent & Hq & -> & Ho). exists sent, rest, out. split_all; [done|done|done|]. cbn zeta.
  set (paused := negb _ || _). unfold setPaused. change (t_paused (say _ (set_window rest out t))) with (t_paused t).
  destruct (bool_decide (paused = t_paused t)) eqn:E; [|unfold say, set_flow; cbn [t_log]; by rewrite <- app_assoc].
  apply bool_decide_eq_true in E. rewrite E, app_nil_r. by destruct t.
Qed.

Definition same_but_window t t' : Prop :=
  t_frames t' = t_frames t /\ t_opening t' = t_opening t /\ t_exchanges t' = t_exchanges t /\ t_sockets t' = t_sockets t /\
  t_disposed t' = t_disposed t /\ t_pending t' = t_pending t /\ t_requests t' = t_requests t /\ t_promises t' = t_promises t.

Lemma drain_same t : same_but_window t (drain t).
Proof. destruct (drain_window_spec t) as (sent & rest & out & _ & _ & _ & ->). by unfold same_but_window. Qed.

Lemma enqueue_same owner fid event p t : same_but_window t (enqueue owner fid event p t).
Proof.
  unfold enqueue. destruct (t_disposed t) eqn:E; [by unfold same_but_window|].
  destruct (drain_same (set_queue (t_queue t ++ [mkQueued owner fid event p]) t)) as (A & B & C & D & F & G & H & I). by unfold same_but_window.
Qed.

Lemma drain_log t : exists outs, t_log (drain t) = t_log t ++ outs.
Proof. destruct (drain_window_spec t) as (sent & rest & out & _ & _ & _ & ->). by eexists. Qed.

(** *** The well-formedness of the state *)

Record shape t : Prop := {
  sh_frames : forall id f, omap_get id (t_frames t) = Some f -> f_id f = id;
  sh_nodup_frames : NoDup (map fst (t_frames t));
  sh_nodup_exchanges : NoDup (map fst (t_exchanges t));
  sh_nodup_sockets : NoDup (map fst (t_sockets t));
  sh_apart : forall id, id ∈ map fst (t_exchanges t) -> id ∉ map fst (t_sockets t);
  sh_exchanges : Forall (fun e => ex_frameId e.2 ∈ map fst (t_frames t)) (t_exchanges t);
  sh_sockets : Forall (fun e => so_frameId e.2 ∈ map fst (t_frames t)) (t_sockets t);
  sh_queue : Forall (fun q => qd_frameId q ∈ map fst (t_frames t)) (t_queue t);
  sh_cap_exchanges : (length (t_exchanges t) <= MAX_HTTP_EXCHANGES_PER_SESSION)%nat;
  sh_cap_sockets : (length (t_sockets t) <= MAX_WEBSOCKETS_PER_SESSION)%nat;
  sh_cap_frames : (size (list_to_set (map fst (t_frames t) ++ t_opening t) : gset string) <= MAX_FRAMES_PER_SESSION)%nat
}.

(** *** Updating a map *)

Lemma omap_set_Forall {V} (P : string * V -> Prop) k v m : Forall P m -> P (k, v) -> Forall P (omap_set k v m).
Proof.
  intros Hm Hv. induction Hm as [|[k' v'] m Hx Hm IH]; simpl; [by constructor|]. case_decide; by constructor.
Qed.

Lemma omap_delete_Forall {V} (P : string * V -> Prop) k m : Forall P m -> Forall P (omap_delete k m).
Proof. rewrite !Forall_forall. intros H x Hx. apply list_elem_of_filter in Hx as [_ Hx]. by apply H. Qed.

Lemma omap_set_length {V} k (v : V) m : (length (omap_set k v m) <= S (length m))%nat /\ (is_Some (omap_get k m) -> length (omap_set k v m) = length m).
Proof.
  induction m as [|[k' v'] m [IH1 IH2]]; simpl; [split; [lia|by intros []]|]. case_decide; simpl; [split; [lia|done]|].
  split; [lia|]. intros Hi. by rewrite IH2.
Qed.

Lemma omap_delete_length {V} k (m : list (string * V)) : (length (omap_delete k m) <= length m)%nat.
Proof. apply length_filter. Qed.

Lemma omap_Forall_get {V} (P : string * V -> Prop) k v m : Forall P m -> omap_get k m = Some v -> P (k, v).
Proof. intros Hm Hk. rewrite Forall_forall in Hm. by apply Hm, omap_get_elem_of. Qed.

Lemma omap_get_elem_fst {V} k (v : V) m : omap_get k m = Some v -> k ∈ map fst m.
Proof. intros E. apply omap_get_is_Some. by exists v. Qed.

Lemma omap_set_keys_old {V} k (v v' : V) m : omap_get k m = Some v -> map fst (omap_set k v' m) = map fst m.
Proof. intros E. rewrite omap_set_keys, decide_True; [done|by apply (omap_get_elem_fst k v)]. Qed.

Lemma omap_set_length_old {V} k (v v' : V) m : omap_get k m = Some v -> length (omap_set k v' m) = length m.
Proof. intros E. apply omap_set_length. by eexists. Qed.

Lemma idInUse_false id t :
  idInUse id t = false -> id ∉ map fst (t_frames t) /\ id ∉ t_opening t /\ id ∉ map fst (t_exchanges t) /\ id ∉ map fst (t_sockets t).
Proof.
  unfold idInUse. rewrite !orb_false_iff, !bool_decide_eq_false, !omap_get_is_Some. tauto.
Qed.

(** *** The shape is kept *)

(** The parts the shape speaks of. *)
Definition parts t := (t_frames t, t_opening t, t_exchanges t, t_sockets t).

Lemma shape_parts t t' : parts t' = parts t -> Forall (fun q => qd_frameId q ∈ map fst (t_frames t)) (t_queue t') -> shape t -> shape t'.
Proof. intros [= E1 E2 E3 E4] Hq []. constructor; rewrite ?E1, ?E2, ?E3, ?E4; done. Qed.

Lemma shape_drain t : shape t -> shape (drain t).
Proof.
  intros Hs. destruct (drain_window_spec t) as (sent & rest & out & _ & Hq & _ & E). cbn zeta in E. rewrite E. apply (shape_parts t); [done| |done].
  pose proof (sh_queue t Hs) as H. rewrite Hq in H. apply Forall_app in H as [_ H]. exact H.
Qed.

Lemma shape_enqueue owner fid event p t : shape t -> fid ∈ map fst (t_frames t) -> shape (enqueue owner fid event p t).
Proof.
  intros Hs Hf. unfold enqueue. destruct (t_disposed t); [done|]. apply shape_drain, (shape_parts t); [done| |done].
  apply Forall_app. split; [apply Hs|by constructor].
Qed.

Lemma shape_delete_exchange id t : shape t -> shape (set_exchanges (omap_delete id (t_exchanges t)) t).
Proof.
  intros []. constructor; cbn [t_frames t_exchanges t_sockets t_queue t_opening set_exchanges]; try done.
  - by apply omap_delete_NoDup.
  - intros i Hi. rewrite omap_delete_keys in Hi. apply list_elem_of_filter in Hi as [_ Hi]. by apply sh_apart0.
  - by apply omap_delete_Forall.
  - etrans; [apply omap_delete_length|done].
Qed.

Lemma shape_delete_socket id t : shape t -> shape (set_sockets (omap_delete id (t_sockets t)) t).
Proof.
  intros []. constructor; cbn [t_frames t_exchanges t_sockets t_queue t_opening set_sockets]; try done.
  - by apply omap_delete_NoDup.
  - intros i Hi Hs. rewrite omap_delete_keys in Hs. apply list_elem_of_filter in Hs as [_ Hs]. by apply (sh_apart0 i).
  - by apply omap_delete_Forall.
  - etrans; [apply omap_delete_length|done].
Qed.

Lemma shape_update_exchange id e e' t :
  shape t -> omap_get id (t_exchanges t) = Some e -> ex_frameId e' = ex_frameId e -> shape (set_exchanges (omap_set id e' (t_exchanges t)) t).
Proof.
  intros [] E Ef. constructor; cbn [t_frames t_exchanges t_sockets t_queue t_opening set_exchanges]; try done.
  - by rewrite (omap_set_keys_old _ _ _ _ E).
  - by rewrite (omap_set_keys_old _ _ _ _ E).
  - apply omap_set_Forall; [done|]. simpl. rewrite Ef. by apply (omap_Forall_get _ _ _ _ sh_exchanges0 E).
  - by rewrite (omap_set_length_old _ _ _ _ E).
Qed.

Lemma shape_update_socket id e e' t :
  shape t -> omap_get id (t_sockets t) = Some e -> so_frameId e' = so_frameId e -> shape (set_sockets (omap_set id e' (t_sockets t)) t).
Proof.
  intros [] E Ef. constructor; cbn [t_frames t_exchanges t_sockets t_queue t_opening set_sockets]; try done.
  - by rewrite (omap_set_keys_old _ _ _ _ E).
  - by rewrite (omap_set_keys_old _ _ _ _ E).
  - apply omap_set_Forall; [done|]. simpl. rewrite Ef. by apply (omap_Forall_get _ _ _ _ sh_sockets0 E).
  - by rewrite (omap_set_length_old _ _ _ _ E).
Qed.

Lemma shape_new_exchange id e t :
  shape t -> idInUse id t = false -> ex_frameId e ∈ map fst (t_frames t) -> (length (t_exchanges t) < MAX_HTTP_EXCHANGES_PER_SESSION)%nat ->
  shape (set_exchanges (omap_set id e (t_exchanges t)) t).
Proof.
  intros [] Hu Hf Hl. apply idInUse_false in Hu as (_ & _ & He & Hso). constructor; cbn [t_frames t_exchanges t_sockets t_queue t_opening set_exchanges]; try done.
  - by apply omap_set_NoDup.
  - intros i Hi. rewrite omap_set_keys, decide_False in Hi by done. apply elem_of_app in Hi as [Hi|Hi]; [by apply sh_apart0|].
    by apply list_elem_of_singleton in Hi as ->.
  - by apply omap_set_Forall.
  - pose proof (proj1 (omap_set_length id e (t_exchanges t))). lia.
Qed.

Lemma shape_new_socket id e t :
  shape t -> idInUse id t = false -> so_frameId e ∈ map fst (t_frames t) -> (length (t_sockets t) < MAX_WEBSOCKETS_PER_SESSION)%nat ->
  shape (set_sockets (omap_set id e (t_sockets t)) t).
Proof.
  intros [] Hu Hf Hl. apply idInUse_false in Hu as (_ & _ & He & Hso). constructor; cbn [t_frames t_exchanges t_sockets t_queue t_opening set_sockets]; try done.
  - by apply omap_set_NoDup.
  - intros i Hi Hs. rewrite omap_set_keys, decide_False in Hs by done. apply elem_of_app in Hs as [Hs|Hs]; [by apply (sh_apart0 i)|].
    by apply list_elem_of_singleton in Hs as ->.
  - by apply omap_set_Forall.
  - pose proof (proj1 (omap_set_length id e (t_sockets t))). lia.
Qed.

(** A step that touches no map and queues nothing. *)
Lemma shape_same t t' : parts t' = parts t -> t_queue t' = t_queue t -> shape t -> shape t'.
Proof. intros E Eq Hs. apply (shape_parts t); [done|rewrite Eq; apply Hs|done]. Qed.

Lemma drop_parts id t :
  t_frames (dropExchange id t) = t_frames t /\ t_opening (dropExchange id t) = t_opening t /\ t_queue (dropExchange id t) = t_queue t /\
  t_sockets (dropExchange id t) = t_sockets t /\ t_exchanges (dropExchange id t) = omap_delete id (t_exchanges t) /\ t_disposed (dropExchange id t) = t_disposed t.
Proof.
  unfold dropExchange. destruct (omap_get id (t_exchanges t)) as [e|] eqn:E.
  - by destruct (negb (ex_answered e) && _).
  - split_all; try done. symmetry. apply omap_delete_none. rewrite <- omap_get_is_Some, E. by intros [].
Qed.

Lemma drop_socket_parts id t :
  t_frames (dropSocket id t) = t_frames t /\ t_opening (dropSocket id t) = t_opening t /\ t_queue (dropSocket id t) = t_queue t /\
  t_exchanges (dropSocket id t) = t_exchanges t /\ t_sockets (dropSocket id t) = omap_delete id (t_sockets t) /\ t_disposed (dropSocket id t) = t_disposed t.
Proof.
  unfold dropSocket. destruct (omap_get id (t_sockets t)) as [e|] eqn:E.
  - by destruct (negb (so_open e) && _).
  - split_all; try done. symmetry. apply omap_delete_none. rewrite <- omap_get_is_Some, E. by intros [].
Qed.

Lemma shape_drop id t : shape t -> shape (dropExchange id t).
Proof.
  intros Hs. destruct (drop_parts id t) as (A & B & C & D & E & _). apply (shape_same (set_exchanges (omap_delete id (t_exchanges t)) t));
    [unfold parts; cbn; by rewrite A, B, D, E|done|by apply shape_delete_exchange].
Qed.

Lemma shape_drop_socket id t : shape t -> shape (dropSocket id t).
Proof.
  intros Hs. destruct (drop_socket_parts id t) as (A & B & C & D & E & _). apply (shape_same (set_sockets (omap_delete id (t_sockets t)) t));
    [unfold parts; cbn; by rewrite A, B, D, E|done|by apply shape_delete_socket].
Qed.

Lemma shape_fewer_frames id t :
  shape t -> unreferenced id t -> shape (set_frames (omap_delete id (t_frames t)) t).
Proof.
  intros Hs (U1 & U2 & U3). destruct Hs.
  assert (Hkeep : forall x, x <> id -> x ∈ map fst (t_frames t) -> x ∈ map fst (omap_delete id (t_frames t))).
  { intros x Hne Hx. rewrite omap_delete_keys. by apply list_elem_of_filter. }
  constructor; cbn [t_frames t_exchanges t_sockets t_queue t_opening set_frames]; try done.
  - intros i f Hf. apply sh_frames0. destruct (decide (id = i)) as [<-|Hne]; [by rewrite omap_get_delete_eq in Hf|].
    by rewrite omap_get_delete_ne in Hf.
  - by apply omap_delete_NoDup.
  - rewrite Forall_forall in *. intros x Hx. apply Hkeep; auto.
  - rewrite Forall_forall in *. intros x Hx. apply Hkeep; auto.
  - rewrite Forall_forall in *. intros x Hx. apply Hkeep; auto.
  - etrans; [|exact sh_cap_frames0]. apply subseteq_size. intros x. rewrite !elem_of_list_to_set, !elem_of_app, omap_delete_keys, list_elem_of_filter. tauto.
Qed.

Lemma shape_install rq surfaceId pageOrigin t :
  shape t -> rq_id rq ∈ t_opening t ->
  shape (set_frames (omap_set (rq_id rq) (mkFrame (rq_no rq) (rq_id rq) surfaceId pageOrigin) (t_frames t)) t).
Proof.
  intros Hs Ho. destruct Hs. set (f := mkFrame _ _ _ _).
  assert (Hkeep : forall x, x ∈ map fst (t_frames t) -> x ∈ map fst (omap_set (rq_id rq) f (t_frames t))).
  { intros x Hx. rewrite omap_set_keys. case_decide; [done|]. apply elem_of_app. by left. }
  constructor; cbn [t_frames t_exchanges t_sockets t_queue t_opening set_frames]; try done.
  - intros i g Hg. destruct (decide (rq_id rq = i)) as [<-|Hne]; [rewrite omap_get_set_eq in Hg; by simplify_eq|].
    rewrite omap_get_set_ne in Hg by done. by apply sh_frames0.
  - by apply omap_set_NoDup.
  - rewrite Forall_forall in *. auto.
  - rewrite Forall_forall in *. auto.
  - rewrite Forall_forall in *. auto.
  - etrans; [|exact sh_cap_frames0]. apply subseteq_size. intros x. rewrite !elem_of_list_to_set, !elem_of_app, omap_set_keys.
    case_decide; [tauto|]. rewrite elem_of_app, list_elem_of_singleton. intros [[Hx| ->]|Hx]; tauto.
Qed.

Lemma shape_opening rq t :
  shape t -> (length (t_frames t) + length (t_opening t) < MAX_FRAMES_PER_SESSION)%nat -> shape (set_opening (t_opening t ++ [rq_id rq]) t).
Proof.
  intros Hs Hl. destruct Hs. constructor; cbn [t_frames t_exchanges t_sockets t_queue t_opening set_opening]; try done.
  assert (H : forall l : list string, (size (list_to_set l : gset string) <= length l)%nat).
  { induction l as [|x l IH]; [done|]. rewrite list_to_set_cons, size_union_alt, size_singleton. pose proof (subseteq_size (list_to_set l ∖ {[x]} : gset string) (list_to_set l)). simpl. set_solver by lia. }
  etrans; [apply H|]. rewrite !length_app, length_map. simpl. lia.
Qed.

Lemma shape_fewer_opening P `{!forall x, Decision (P x)} t : shape t -> shape (set_opening (filter P (t_opening t)) t).
Proof.
  intros Hs. destruct Hs. constructor; cbn [t_frames t_exchanges t_sockets t_queue t_opening set_opening]; try done.
  etrans; [|exact sh_cap_frames0]. apply subseteq_size. intros x. rewrite !elem_of_list_to_set, !elem_of_app, list_elem_of_filter. tauto.
Qed.

Lemma hold_call_parts paused flow id t : parts (hold_call paused flow id t) = parts t /\ t_queue (hold_call paused flow id t) = t_queue t.
Proof. unfold hold_call. destruct paused; [done|]. by destruct flow. Qed.

Lemma shape_micro x y : micro x y -> shape x.1 -> shape y.1.
Proof.
  intros H. destruct H; cbn [fst]; intros Hs; try exact Hs; try (by apply (shape_same t)).
  - apply shape_drain. by apply (shape_same t).
  - subst t2. set (t1 := call _ _ t). assert (Hs1 : shape t1) by by apply (shape_same t).
    assert (Hs2 : shape (set_exchanges (omap_set (rq_id rq) (mkExchange fid rq false stop false) (t_exchanges t1)) t1))
      by (apply (shape_new_exchange _ _ t1); [done|done|by apply omap_get_is_Some|done]).
    destruct (t_paused _); [by eapply shape_same; [| |exact Hs2]|done].
  - subst t2. set (t1 := call _ _ t). assert (Hs1 : shape t1) by by apply (shape_same t).
    assert (Hs2 : shape (set_sockets (omap_set (rq_id rq) (mkSocket fid rq false false [] 0 false) (t_sockets t1)) t1))
      by (apply (shape_new_socket _ _ t1); [done|done|by apply omap_get_is_Some|done]).
    destruct (t_paused _); [by eapply shape_same; [| |exact Hs2]|done].
  - by eapply shape_update_exchange.
  - by eapply shape_update_socket.
  - by refine (shape_same _ _ _ _ (shape_update_exchange _ _ _ t Hs H _)).
  - by refine (shape_same _ _ _ _ (shape_update_socket _ _ _ t Hs H _)).
  - refine (shape_same _ _ (proj1 (hold_call_parts _ _ _ _)) (proj2 (hold_call_parts _ _ _ _)) (shape_update_exchange _ _ _ t Hs H _)); done.
  - refine (shape_same _ _ (proj1 (hold_call_parts _ _ _ _)) (proj2 (hold_call_parts _ _ _ _)) (shape_update_socket _ _ _ t Hs H _)); done.
  - by apply shape_drop.
  - by apply shape_drop_socket.
  - apply shape_delete_exchange, shape_enqueue; [done|]. by apply (omap_Forall_get _ _ _ _ (sh_exchanges t Hs) H).
  - by apply (shape_delete_exchange _ (fail _ _ t)), (shape_same t).
  - apply shape_delete_socket, shape_enqueue; [done|]. by apply (omap_Forall_get _ _ _ _ (sh_sockets t Hs) H).
  - by apply (shape_delete_socket _ (fail _ _ t)), (shape_same t).
  - apply shape_enqueue; [done|]. by apply (omap_Forall_get _ _ _ _ (sh_exchanges t Hs) H).
  - apply shape_enqueue; [done|]. by apply (omap_Forall_get _ _ _ _ (sh_sockets t Hs) H).
  - apply (shape_parts t); [done| |done]. pose proof (sh_queue t Hs) as Hq. rewrite Forall_forall in *. intros q Hin.
    apply list_elem_of_filter in Hin as [_ Hin]. by apply Hq.
  - by apply shape_opening.
  - by apply shape_fewer_opening.
  - by apply shape_install.
  - by refine (shape_same _ _ _ _ (shape_fewer_frames id t Hs _)).
Qed.

(** *** Every operation is a sequence of small steps *)

Lemma step x y : micro x y -> micros x y.
Proof. apply rtc_once. Qed.

(** Ending a frame, with the frame taken off last. *)
Definition drop_in_frame id t : Tunnel := foldl (fun t e => if bool_decide (ex_frameId e.2 = id) then dropExchange e.1 t else t) t (t_exchanges t).
Definition drop_sockets_in_frame id t : Tunnel := foldl (fun t e => if bool_decide (so_frameId e.2 = id) then dropSocket e.1 t else t) t (t_sockets t).

Lemma dropExchange_frames id x t : dropExchange id (set_frames x t) = set_frames x (dropExchange id t).
Proof. unfold dropExchange. simpl. destruct (omap_get id (t_exchanges t)); [|done]. by destruct (negb _ && _). Qed.

Lemma dropSocket_frames id x t : dropSocket id (set_frames x t) = set_frames x (dropSocket id t).
Proof. unfold dropSocket. simpl. destruct (omap_get id (t_sockets t)); [|done]. by destruct (negb _ && _). Qed.

Lemma foldl_commute {A} (f : Tunnel -> A -> Tunnel) (g : Tunnel -> Tunnel) (l : list A) t :
  (forall t x, f (g t) x = g (f t x)) -> foldl f (g t) l = g (foldl f t l).
Proof. intros Hc. revert t. induction l as [|x l IH]; intros t; [done|]. simpl. by rewrite Hc, IH. Qed.

Lemma closeFrame_last id told f t :
  omap_get id (t_frames t) = Some f ->
  closeFrame id told t =
    let t3 := dropQueued (fun q => bool_decide (qd_frameId q = id)) (drop_sockets_in_frame id (drop_in_frame id t)) in
    let t4 := say [o_close_grant (f_no f)] (set_frames (omap_delete id (t_frames t)) t3) in
    let t5 := if told then say [o_event id "frame.closed" (pl_data surface_gone)] t4 else t4 in
    if bool_decide (t_frames t5 = []) then stopWatching t5 else t5.
Proof.
  intros Hf. unfold closeFrame, drop_sockets_in_frame. rewrite Hf. set (g := set_frames _). cbn zeta. unfold drop_in_frame.
  rewrite (foldl_commute _ g); [|intros t' x; case_bool_decide; [apply dropExchange_frames|done]].
  rewrite (foldl_commute _ g (t_sockets _)); [|intros t' x; case_bool_decide; [apply dropSocket_frames|done]]. done.
Qed.

Lemma drop_in_frame_micros (l : list (string * Exchange)) id t h :
  micros (t, h) (foldl (fun t e => if bool_decide (ex_frameId e.2 = id) then dropExchange e.1 t else t) t l, h).
Proof.
  revert t. induction l as [|e l IH]; intros t; [done|]. simpl. etrans; [|apply IH]. case_bool_decide; [by apply step; constructor|done].
Qed.

Lemma drop_sockets_micros (l : list (string * Socket)) id t h :
  micros (t, h) (foldl (fun t e => if bool_decide (so_frameId e.2 = id) then dropSocket e.1 t else t) t l, h).
Proof.
  revert t. induction l as [|e l IH]; intros t; [done|]. simpl. etrans; [|apply IH]. case_bool_decide; [by apply step; constructor|done].
Qed.

Lemma drop_in_frame_spec (l : list (string * Exchange)) id t :
  let t' := foldl (fun t e => if bool_decide (ex_frameId e.2 = id) then dropExchange e.1 t else t) t l in
  t_frames t' = t_frames t /\ t_opening t' = t_opening t /\ t_queue t' = t_queue t /\ t_sockets t' = t_sockets t /\ t_disposed t' = t_disposed t /\
  (forall e, e ∈ t_exchanges t' -> e ∈ t_exchanges t /\ forall x, x ∈ l -> ex_frameId x.2 = id -> x.1 <> e.1).
Proof.
  cbn zeta. revert t. induction l as [|x l IH]; intros t; [by split_all; try done; intros e He; split; [done|intros ? ?%elem_of_nil]|]. simpl.
  set (t1 := if bool_decide _ then _ else t). destruct (IH t1) as (A & B & C & D & E & F). rewrite A, B, C, D, E.
  assert (H1 : t_frames t1 = t_frames t /\ t_opening t1 = t_opening t /\ t_queue t1 = t_queue t /\ t_sockets t1 = t_sockets t /\ t_disposed t1 = t_disposed t).
  { unfold t1. case_bool_decide; [|done]. destruct (drop_parts x.1 t) as (? & ? & ? & ? & ? & ?). by split_all. }
  destruct H1 as (? & ? & ? & ? & ?). split_all; try done. intros e He. apply F in He as [He Hl].
  assert (G : e ∈ t_exchanges t /\ (ex_frameId x.2 = id -> x.1 <> e.1)).
  { unfold t1 in He. case_bool_decide as Hx; [|by split].
    destruct (drop_parts x.1 t) as (_ & _ & _ & _ & E' & _). rewrite E' in He. apply list_elem_of_filter in He as [Hn He]. by split. }
  destruct G as [G1 G2]. split; [done|]. intros y Hy. apply elem_of_cons in Hy as [-> |Hy]; [done|by apply Hl].
Qed.

Lemma drop_sockets_spec (l : list (string * Socket)) id t :
  let t' := foldl (fun t e => if bool_decide (so_frameId e.2 = id) then dropSocket e.1 t else t) t l in
  t_frames t' = t_frames t /\ t_opening t' = t_opening t /\ t_queue t' = t_queue t /\ t_exchanges t' = t_exchanges t /\ t_disposed t' = t_disposed t /\
  (forall e, e ∈ t_sockets t' -> e ∈ t_sockets t /\ forall x, x ∈ l -> so_frameId x.2 = id -> x.1 <> e.1).
Proof.
  cbn zeta. revert t. induction l as [|x l IH]; intros t; [by split_all; try done; intros e He; split; [done|intros ? ?%elem_of_nil]|]. simpl.
  set (t1 := if bool_decide _ then _ else t). destruct (IH t1) as (A & B & C & D & E & F). rewrite A, B, C, D, E.
  assert (H1 : t_frames t1 = t_frames t /\ t_opening t1 = t_opening t /\ t_queue t1 = t_queue t /\ t_exchanges t1 = t_exchanges t /\ t_disposed t1 = t_disposed t).
  { unfold t1. case_bool_decide; [|done]. destruct (drop_socket_parts x.1 t) as (? & ? & ? & ? & ? & ?). by split_all. }
  destruct H1 as (? & ? & ? & ? & ?). split_all; try done. intros e He. apply F in He as [He Hl].
  assert (G : e ∈ t_sockets t /\ (so_frameId x.2 = id -> x.1 <> e.1)).
  { unfold t1 in He. case_bool_decide as Hx; [|by split].
    destruct (drop_socket_parts x.1 t) as (_ & _ & _ & _ & E' & _). rewrite E' in He. apply list_elem_of_filter in He as [Hn He]. by split. }
  destruct G as [G1 G2]. split; [done|]. intros y Hy. apply elem_of_cons in Hy as [-> |Hy]; [done|by apply Hl].
Qed.

(** What is left of a frame once its exchanges, sockets and queued events are dropped. *)
Definition frame_emptied id t : Tunnel := dropQueued (fun q => bool_decide (qd_frameId q = id)) (drop_sockets_in_frame id (drop_in_frame id t)).

Lemma frame_emptied_spec id t :
  t_frames (frame_emptied id t) = t_frames t /\ t_opening (frame_emptied id t) = t_opening t /\ t_disposed (frame_emptied id t) = t_disposed t /\
  unreferenced id (frame_emptied id t).
Proof.
  unfold frame_emptied, drop_sockets_in_frame.
  destruct (drop_in_frame_spec (t_exchanges t) id t) as (A1 & B1 & C1 & D1 & E1 & F1). fold (drop_in_frame id t) in A1, B1, C1, D1, E1, F1.
  destruct (drop_sockets_spec (t_sockets (drop_in_frame id t)) id (drop_in_frame id t)) as (A2 & B2 & C2 & D2 & E2 & F2).
  set (t2 := foldl _ _ _) in *. unfold unreferenced. simpl. split_all; try congruence; rewrite Forall_forall.
  - intros e He. rewrite D2 in He. intros Ef. destruct (F1 e He) as [H1 H2]. by apply (H2 e H1).
  - intros e He Ef. destruct (F2 e He) as [H1 H2]. by apply (H2 e H1).
  - intros q Hq. apply list_elem_of_filter in Hq as [Hq _]. by apply bool_decide_eq_false in Hq.
Qed.

Lemma closeFrame_micros id told t h : (told = true -> t_disposed t = false) -> micros (t, h) (closeFrame id told t, h).
Proof.
  intros Hd. destruct (omap_get id (t_frames t)) as [f|] eqn:Ef; [|by unfold closeFrame; rewrite Ef].
  rewrite (closeFrame_last id told f t Ef). cbn zeta. fold (frame_emptied id t). destruct (frame_emptied_spec id t) as (A & _ & C & D).
  etrans; [apply drop_in_frame_micros|]. etrans; [apply drop_sockets_micros|]. etrans; [apply step, m_dropQueued|]. fold (frame_emptied id t).
  rewrite <- A in *. etrans; [apply step, (m_unframe _ _ id f); [exact Ef|exact D]|].
  assert (G : forall x y, micros x y -> micros x (if bool_decide (t_frames y.1 = []) then stopWatching y.1 else y.1, y.2)).
  { intros x y Hxy. etrans; [exact Hxy|]. destruct y. case_bool_decide; [apply step; constructor|done]. }
  destruct told; [|by apply (G _ (_, _))]. apply (G _ (say _ _, _)). apply step, m_told; [|apply omap_get_delete_eq].
  change (t_disposed (frame_emptied id t) = false). rewrite C. by apply Hd.
Qed.

(** Nothing is left of a disposed tunnel. *)
Definition dead t : Prop :=
  t_disposed t = true -> t_frames t = [] /\ t_opening t = [] /\ t_exchanges t = [] /\ t_sockets t = [] /\ t_queue t = [].

Lemma live_exchange id e t : dead t -> omap_get id (t_exchanges t) = Some e -> t_disposed t = false.
Proof. intros Hd E. destruct (t_disposed t) eqn:Ed; [|done]. destruct (Hd Ed) as (_ & _ & Hx & _). by rewrite Hx in E. Qed.

Lemma live_socket id e t : dead t -> omap_get id (t_sockets t) = Some e -> t_disposed t = false.
Proof. intros Hd E. destruct (t_disposed t) eqn:Ed; [|done]. destruct (Hd Ed) as (_ & _ & _ & Hx & _). by rewrite Hx in E. Qed.

Lemma fail_micros t rq e : t_disposed t = false -> micros (t, Some rq) (fail rq e t, None).
Proof. intros H. by apply step, m_fail. Qed.

Lemma ok_micros t rq v : t_disposed t = false -> micros (t, Some rq) (ok rq v t, None).
Proof. intros H. by apply step, m_ok. Qed.

Ltac refuse := apply fail_micros; assumption.

Lemma frameOpen_micros isDirect rq t : t_disposed t = false -> micros (t, Some rq) (handle_frameOpen isDirect rq t, None).
Proof.
  intros Hd. unfold handle_frameOpen. destruct (js_field "surfaceId" (rq_params rq)); try refuse.
  destruct (bool_decide _ || _); [refuse|]. destruct (js_field "pageOrigin" (rq_params rq)); try refuse.
  destruct (js_field "frameOrigin" (rq_params rq)); try refuse. destruct (negb (js_strings _)); [refuse|].
  destruct (negb isDirect); [refuse|]. destruct (idInUse (rq_id rq) t) eqn:Eu; [refuse|].
  destruct (MAX_FRAMES_PER_SESSION <=? length (t_frames t) + length (t_opening t))%nat eqn:El; [refuse|]. apply Nat.leb_gt in El.
  etrans; [apply step, m_opening; done|]. etrans; [apply step, (m_quiet _ _ [o_resolve s]); done|]. by apply step, m_keep.
Qed.

Lemma frameClose_micros rq t : t_disposed t = false -> micros (t, Some rq) (handle_frameClose rq t, None).
Proof.
  intros Hd. unfold handle_frameClose. destruct (js_field "frameId" (rq_params rq)) as [| | | |id| |]; try by apply ok_micros.
  etrans; [apply step, (m_unopen _ _ id)|]. set (t1 := set_opening _ t). etrans; [by apply (closeFrame_micros id false t1)|].
  apply ok_micros. destruct (omap_get id (t_frames t1)) as [f|] eqn:Ef; [|unfold closeFrame; by rewrite Ef].
  rewrite (closeFrame_last id false f t1 Ef). cbn zeta. fold (frame_emptied id t1). destruct (frame_emptied_spec id t1) as (_ & _ & C & _).
  by case_bool_decide; exact (eq_trans C Hd).
Qed.

Lemma frame_of_Some rq f t : shape t -> frame_of rq t = Some f -> is_Some (omap_get (f_id f) (t_frames t)).
Proof.
  intros Hs. unfold frame_of. destruct (js_field "frameId" (rq_params rq)) as [| | | |id| |]; try done. intros E.
  rewrite (sh_frames t Hs id f E). by eexists.
Qed.

Lemma httpRequest_micros rq t : shape t -> t_disposed t = false -> micros (t, Some rq) (handle_httpRequest rq t, None).
Proof.
  intros Hs Hd. unfold handle_httpRequest. destruct (frame_of rq t) as [f|] eqn:Ef; [|refuse]. apply frame_of_Some in Ef; [|done].
  destruct (idInUse (rq_id rq) t) eqn:Eu; [refuse|].
  destruct (MAX_HTTP_EXCHANGES_PER_SESSION <=? length (t_exchanges t))%nat eqn:El; [refuse|]. apply Nat.leb_gt in El.
  destruct (first_of _ _); [refuse|]. cbn zeta. set (stop := js_is_true _).
  set (method := default _ (js_string (js_field "method" _))). set (path := default _ _). set (h := js_field "headers" _). set (d := js_field "destination" _).
  etrans; [by apply step, (m_exchange t rq (f_id f) method path h d stop)|]. cbn zeta.
  destruct stop; [|done]. etrans; [apply step, (m_quiet _ _ [o_call (rq_id rq) (c_write [] true)]); done|]. by apply step, m_await.
Qed.

Lemma httpWrite_micros rq t : t_disposed t = false -> micros (t, Some rq) (handle_httpWrite rq t, None).
Proof.
  intros Hd. unfold handle_httpWrite. destruct (js_field "exchangeId" (rq_params rq)) as [| | | |id| |]; try refuse.
  destruct (omap_get id (t_exchanges t)) as [e|] eqn:Ee; [|refuse]. destruct (ex_ended e); [refuse|].
  destruct (js_field "end" (rq_params rq)) as [| |stop| | | |]; try refuse. destruct (js_field "bytes" (rq_params rq)); try refuse.
  destruct (decodeChunk s) as [chunk|]; [|refuse]. cbn zeta. etrans; [by apply step, (m_ended t _ id e stop)|].
  etrans; [apply step, (m_quiet _ _ [o_call id (c_write chunk stop)]); done|]. by apply step, m_keep.
Qed.

Lemma httpCancel_micros rq t : t_disposed t = false -> micros (t, Some rq) (handle_httpCancel rq t, None).
Proof.
  intros Hd. unfold handle_httpCancel. destruct (js_field "exchangeId" (rq_params rq)) as [| | | |id| |]; try by apply ok_micros.
  etrans; [apply step, (m_drop _ _ id)|]. etrans; [apply step, m_dropQueued|]. apply ok_micros. simpl.
  destruct (drop_parts id t) as (_ & _ & _ & _ & _ & E). by rewrite E.
Qed.

Lemma wsOpen_micros rq t : shape t -> t_disposed t = false -> micros (t, Some rq) (handle_wsOpen rq t, None).
Proof.
  intros Hs Hd. unfold handle_wsOpen. destruct (frame_of rq t) as [f|] eqn:Ef; [|refuse]. apply frame_of_Some in Ef; [|done].
  destruct (idInUse (rq_id rq) t) eqn:Eu; [refuse|].
  destruct (MAX_WEBSOCKETS_PER_SESSION <=? length (t_sockets t))%nat eqn:El; [refuse|]. apply Nat.leb_gt in El.
  cbn zeta. destruct (first_of _ _); [refuse|]. by apply step, (m_socket t rq (f_id f)).
Qed.

Lemma wsSend_micros rq t : t_disposed t = false -> micros (t, Some rq) (handle_wsSend rq t, None).
Proof.
  intros Hd. unfold handle_wsSend. destruct (js_field "socketId" (rq_params rq)) as [| | | |id| |]; try refuse.
  destruct (omap_get id (t_sockets t)) as [e|] eqn:Ee; [|refuse]. destruct (negb (so_open e)); [refuse|].
  destruct (js_field "binary" (rq_params rq)) as [| |binary| | | |]; try refuse. destruct (js_field "fin" (rq_params rq)) as [| |fin| | | |]; try refuse.
  destruct (match js_field "data" (rq_params rq) with JString _ => _ | _ => _ end) as [chunk|]; [|refuse]. cbn zeta.
  set (binary' := if bool_decide _ then _ else _). destruct (MAX_WS_MESSAGE_BYTES <? _).
  - etrans; [apply step, (m_quiet _ _ [o_call id (c_close (JNumber 1009) (JString "message too big"))]); done|].
    etrans; [by apply step, (m_fragments _ _ id e)|]. by apply fail_micros.
  - destruct fin; simpl; (etrans; [by apply step, (m_fragments _ _ id e)|]); [|by apply ok_micros].
    etrans; [apply step, (m_quiet _ _ [o_call id (c_send (concatBytes (so_fragments e ++ [chunk])) binary')]); done|]. by apply step, m_keep.
Qed.

Lemma wsClose_micros rq t : t_disposed t = false -> micros (t, Some rq) (handle_wsClose rq t, None).
Proof.
  intros Hd. unfold handle_wsClose. cbn zeta. set (code := js_field "code" _). set (reason := js_field "reason" _).
  destruct (negb (valid_code code)); [refuse|]. destruct (negb (valid_reason reason)); [refuse|].
  destruct (js_field "socketId" (rq_params rq)) as [| | | |id| |]; try by apply ok_micros.
  destruct (omap_get id (t_sockets t)) as [e|] eqn:Ee; [|by apply ok_micros]. destruct (so_open e).
  - etrans; [apply step, (m_quiet _ _ [o_call id (c_close code reason)]); done|]. by apply ok_micros.
  - etrans; [apply step, (m_drop_socket _ _ id)|]. apply ok_micros. destruct (drop_socket_parts id t) as (_ & _ & _ & _ & _ & E). by rewrite E.
Qed.

Lemma flow_micros rq t : t_disposed t = false ->
  micros (t, Some rq) (handle_flowAck rq t, None) /\ micros (t, Some rq) (handle_flowPause rq t, None).
Proof.
  intros Hd. split.
  - unfold handle_flowAck. destruct (js_field "bytes" (rq_params rq)) as [| | |n| | |]; try refuse.
    destruct ((0 <=? n) && (n <? 2 ^ 53)) eqn:E; [|refuse]. apply andb_true_iff in E as [E _]. apply step, m_ack; [done|lia].
  - unfold handle_flowPause. destruct (js_field "id" (rq_params rq)) as [| | | |id| |]; try refuse.
    destruct (js_field "paused" (rq_params rq)) as [| |paused| | | |]; try refuse.
    assert (G : forall t', t_disposed t' = false -> t_disposed (hold_call paused (t_paused t) id t') = false)
      by (intros t' Ht; unfold hold_call; destruct paused; [done|by destruct (negb _)]).
    destruct (omap_get id (t_exchanges t)) as [e|] eqn:Ee; [|destruct (omap_get id (t_sockets t)) as [e|] eqn:Es; [|by apply ok_micros]].
    + etrans; [by apply step, (m_hold t _ id e paused)|]. apply ok_micros. by apply G.
    + etrans; [by apply step, (m_hold_socket t _ id e paused)|]. apply ok_micros. by apply G.
Qed.

Lemma handle_micros isDirect method id params t : shape t -> micros (t, None) (handle isDirect method id params t, None).
Proof.
  intros Hs. unfold handle. destruct (t_disposed t) eqn:Hd; [done|]. etrans; [by apply step, (m_take t id params)|].
  set (t1 := count_request id t). assert (Hs1 : shape t1) by by apply (shape_same t). assert (Hd1 : t_disposed t1 = false) by done.
  destruct method; [by apply frameOpen_micros|by apply frameClose_micros|by apply httpRequest_micros|by apply httpWrite_micros|by apply httpCancel_micros|
    by apply wsOpen_micros|by apply wsSend_micros|by apply wsClose_micros|by apply flow_micros|by apply flow_micros].
Qed.

Lemma failExchange_micros id message t h : dead t -> micros (t, h) (failExchange id message t, h).
Proof.
  intros Hd. unfold failExchange. destruct (omap_get id (t_exchanges t)) as [e|] eqn:Ee; [|done]. pose proof (live_exchange id e t Hd Ee).
  destruct (ex_answered e) eqn:Ea; apply step; [by apply (m_finish t h id e)|exact (m_refuse t h id e message Ee Ea H)].
Qed.

Lemma enqueue_keeps owner fid event p t :
  t_exchanges (enqueue owner fid event p t) = t_exchanges t /\ t_sockets (enqueue owner fid event p t) = t_sockets t /\
  t_disposed (enqueue owner fid event p t) = t_disposed t.
Proof. by destruct (enqueue_same owner fid event p t) as (_ & _ & ? & ? & ? & _). Qed.

Lemma blen_slice a n b : 0 <= a -> 0 <= n -> blen (subarray a (a + n) b) <= n.
Proof. intros Ha Hn. unfold blen, subarray, slice. rewrite length_take, length_drop. lia. Qed.

Lemma chunks_from_small fuel offset b : 0 <= offset -> Forall (fun c => blen c <= FRAME_CHUNK_BYTES) (chunks_from fuel offset b).
Proof.
  revert offset. induction fuel as [|fuel IH]; intros offset Ho; simpl; [done|]. destruct (offset <? blen b); [|done].
  constructor; [by apply blen_slice|]. apply IH. unfold FRAME_CHUNK_BYTES. lia.
Qed.

Lemma frameChunks_small b : Forall (fun c => blen c <= FRAME_CHUNK_BYTES) (frameChunks b).
Proof. constructor; [by apply (blen_slice 0)|]. by apply chunks_from_small. Qed.

Lemma bodies_micros id e (l : list bytes) t h :
  omap_get id (t_exchanges t) = Some e -> ex_answered e = true -> t_disposed t = false -> Forall (fun c => blen c <= FRAME_CHUNK_BYTES) l ->
  micros (t, h) (foldl (fun t b => enqueue id (ex_frameId e) "http.body" (pl_body b) t) t l, h).
Proof.
  intros He Ha Hd Hl. revert t He Hd. induction Hl as [|b l Hb Hl IH]; intros t He Hd; [done|]. simpl.
  etrans; [by apply step, (m_body t h id e b)|]. destruct (enqueue_keeps id (ex_frameId e) "http.body" (pl_body b) t) as (Ex & _ & Ed).
  apply IH; [by rewrite Ex|by rewrite Ed].
Qed.

Definition small_message (p : QueuedPayload) : Prop :=
  match p with pl_message b _ _ => blen b <= FRAME_CHUNK_BYTES | _ => False end.

Lemma message_payloads_small l binary : Forall (fun c => blen c <= FRAME_CHUNK_BYTES) l -> Forall small_message (message_payloads l binary).
Proof.
  intros Hl. induction Hl as [|b l Hb Hl IH]; [constructor|]. destruct l; [by repeat constructor|]. by constructor.
Qed.

Lemma messages_micros id e (l : list QueuedPayload) t h :
  omap_get id (t_sockets t) = Some e -> so_open e = true -> t_disposed t = false -> Forall small_message l ->
  micros (t, h) (foldl (fun t p => enqueue id (so_frameId e) "ws.message" p t) t l, h).
Proof.
  intros He Ha Hd Hl. revert t He Hd. induction Hl as [|p l Hb Hl IH]; intros t He Hd; [done|]. destruct p as [|b|b binary fin]; try done. simpl.
  etrans; [by apply step, (m_message t h id e b binary fin)|]. destruct (enqueue_keeps id (so_frameId e) "ws.message" (pl_message b binary fin) t) as (_ & Es & Ed).
  apply IH; [by rewrite Es|by rewrite Ed].
Qed.

Lemma callbacks_micros op t :
  dead t -> match op with op_handle _ _ _ _ | op_settle _ _ _ | op_directory _ | op_recheck | op_dispose => True | _ => micros (t, None) (apply_tunnel op t, None) end.
Proof.
  intros Hd. destruct op as [| id status statusText headers|id chunk|id|id message|id protocol extensions|id data binary|id code reason| | | |]; simpl; try exact I.
  - unfold onHead. destruct (omap_get id (t_exchanges t)) as [e|] eqn:Ee; [|done]. destruct (ex_answered e) eqn:Ea; [done|].
    apply step, m_head; try done. by apply (live_exchange id e).
  - unfold onBody. destruct (omap_get id (t_exchanges t)) as [e|] eqn:Ee; [|done]. destruct (ex_answered e) eqn:Ea; [|done].
    apply bodies_micros; try done; [by apply (live_exchange id e)|apply frameChunks_small].
  - unfold onEnd. destruct (omap_get id (t_exchanges t)) as [e|] eqn:Ee; [|done]. destruct (ex_answered e) eqn:Ea; [|done].
    apply step, m_finish; try done. by apply (live_exchange id e).
  - by apply failExchange_micros.
  - unfold onOpen. destruct (omap_get id (t_sockets t)) as [e|] eqn:Ee; [|done]. destruct (so_open e) eqn:Ea; [done|].
    apply step, m_opened; try done. by apply (live_socket id e).
  - unfold onMessage. destruct (omap_get id (t_sockets t)) as [e|] eqn:Ee; [|done]. destruct (so_open e) eqn:Ea; [|done].
    apply messages_micros; try done; [by apply (live_socket id e)|apply message_payloads_small, frameChunks_small].
  - unfold onClose. destruct (omap_get id (t_sockets t)) as [e|] eqn:Ee; [|done]. pose proof (live_socket id e t Hd Ee). cbn zeta.
    destruct (so_open e) eqn:Ea; apply step; [by apply (m_closed t None id e)|exact (m_refuse_socket t None id e _ Ee Ea H)].
Qed.

Lemma recheck_micros f t h : micros (t, h) (recheck f t, h).
Proof. etrans; [apply step, (m_quiet _ _ [o_resolve (f_surfaceId f)]); done|]. by apply step, m_await. Qed.

Lemma scheduleRecheck_micros now t h : micros (t, h) (scheduleRecheck now t, h).
Proof. unfold scheduleRecheck. destruct (t_disposed t); [done|]. destruct (t_recheckTimer t); [done|]. apply step, m_watch. Qed.

Lemma settled_micros now p answer t t' :
  dead t -> settled now p answer t = Some t' -> micros (t, pending_rq p) (t', None).
Proof.
  intros Hd Hset. assert (Hkeep : forall rq p t, pending_rq p = Some rq -> micros (t, Some rq) (await p t, None)) by (intros; by apply step, m_keep).
  destruct p as [rq surfaceId expected fo eo|rq surfaceId pageOrigin|rq result|rq failure|id|f], answer as [url|path|why| |m]; try done; simpl in *; simplify_eq.
  - unfold page_resolved. destruct (negb _); [by apply Hkeep|]. destruct url as [pageUrl|]; [|by apply Hkeep].
    destruct (normalizeOrigin (Some pageUrl)) as [pageOrigin|]; [|by apply Hkeep]. destruct (bool_decide _); [by apply Hkeep|].
    destruct (negb _); [by apply Hkeep|]. etrans; [apply step, (m_lease _ _ (S (t_lease t)))|].
    etrans; [apply step, (m_quiet _ _ [o_open pageUrl fo eo (S (t_lease t))]); done|]. by apply Hkeep.
  - by apply Hkeep.
  - unfold granted. case_bool_decide as Ho.
    + unfold installs. cbn zeta. etrans; [by apply step, m_install|]. etrans; [apply step, m_watch|]. etrans; [apply recheck_micros|]. by apply Hkeep.
    + etrans; [apply step, m_spare|]. by apply Hkeep.
  - by apply Hkeep.
  - by apply Hkeep.
  - etrans; [apply step, (m_unopen _ _ (rq_id rq))|]. set (t1 := set_opening _ t). change (t_disposed t1) with (t_disposed t).
    destruct (t_disposed t) eqn:E; [by apply step, m_lose|]. destruct result; [by apply fail_micros|by apply ok_micros].
  - destruct (t_disposed t) eqn:E; [by apply step, m_lose|by apply ok_micros].
  - destruct (t_disposed t) eqn:E; [by apply step, m_lose|by apply fail_micros].
  - done.
  - etrans; [by apply (failExchange_micros id ("upstream failed: " +:+ m))|]. by apply step, (m_quiet _ _ [o_call id c_abort]).
  - unfold close_unless. etrans; [apply step, (m_silent _ _ (delete (f_no f) (t_silent t)))|]. set (t1 := set_silent _ t).
    case_bool_decide; [done|]. destruct (t_disposed t) eqn:E; [|by apply closeFrame_micros].
    destruct (Hd E) as (Hf & _). unfold closeFrame. change (t_frames t1) with (t_frames t). by rewrite Hf.
  - etrans; [apply step, (m_silent _ _ (<[f_no f := default now (t_silent t !! f_no f)]> (t_silent t)))|]. set (t1 := set_silent _ t).
    destruct (_ <? OWNER_SILENCE_LIMIT_MS); [apply scheduleRecheck_micros|]. unfold close_unless.
    case_bool_decide; [done|]. destruct (t_disposed t) eqn:E; [|by apply closeFrame_micros].
    destruct (Hd E) as (Hf & _). unfold closeFrame. change (t_frames t1) with (t_frames t). by rewrite Hf.
Qed.

Lemma op_micros op t : shape t -> dead t -> op <> op_dispose -> micros (t, None) (apply_tunnel op t, None).
Proof.
  intros Hs Hd Hop. pose proof (callbacks_micros op t Hd) as Hc. destruct op as [isDirect method id params| | | | | | | |now no answer|now| |]; try exact Hc; simpl.
  - by apply handle_micros.
  - unfold settle. destruct (find _ (t_pending t)) as [[k p]|] eqn:Ef; [|done]. apply find_some in Ef as [Hin Ek]. simpl in Ek. apply Nat.eqb_eq in Ek as ->.
    set (t1 := set_pending _ _ t). destruct (settled now p answer t1) as [t'|] eqn:Et; simpl; [|done].
    etrans; [apply step, (m_pick t no p); by apply list_elem_of_In|]. by apply (settled_micros now p answer).
  - unfold directoryChanged. destruct (t_watching t); [apply scheduleRecheck_micros|done].
  - unfold recheckTimer. destruct (t_recheckTimer t); [|done]. etrans; [apply step, (m_watch _ _ (t_watching t) None)|].
    generalize (set_watch (t_watching t) None t). induction (t_frames t) as [|f l IH]; intros t1; [done|]. simpl. etrans; [apply recheck_micros|]. apply IH.
  - done.
Qed.

Definition close_all (l : list string) t : Tunnel := foldl (fun t id => closeFrame id false t) t l.

Lemma close_all_micros l t : micros (t, None) (close_all l t, None).
Proof.
  unfold close_all. revert t. induction l as [|id l IH]; intros t; [done|]. simpl. etrans; [by apply (closeFrame_micros id false)|apply IH].
Qed.

(** The flag is set by [dispose] alone, and a tunnel that is empty stays so. *)
Definition empty t : Prop := t_frames t = [] /\ t_opening t = [] /\ t_exchanges t = [] /\ t_sockets t = [] /\ t_queue t = [].

Lemma hold_call_same paused flow id t : t_disposed (hold_call paused flow id t) = t_disposed t /\ t_requests (hold_call paused flow id t) = t_requests t.
Proof. unfold hold_call. destruct paused; [done|]. by destruct flow. Qed.

Lemma drop_requests id t : t_requests (dropExchange id t) = t_requests t /\ t_requests (dropSocket id t) = t_requests t.
Proof.
  unfold dropExchange, dropSocket. destruct (omap_get id (t_exchanges t)), (omap_get id (t_sockets t)); split; try done;
    by destruct (negb _ && _).
Qed.

Lemma flag_micro x y : micro x y -> t_disposed y.1 = t_disposed x.1.
Proof.
  intros H. destruct H; try done; cbn [fst].
  - by destruct (drain_same (ok rq empty_object (set_window (t_queue t) (Z.max 0 (t_outstanding t - n)) t))) as (_ & _ & _ & _ & -> & _).
  - subst t2. by destruct (t_paused _).
  - subst t2. by destruct (t_paused _).
  - by rewrite (proj1 (hold_call_same _ _ _ _)).
  - by rewrite (proj1 (hold_call_same _ _ _ _)).
  - apply (drop_parts id t).
  - apply (drop_socket_parts id t).
  - apply enqueue_keeps.
  - apply enqueue_keeps.
  - apply enqueue_keeps.
  - apply enqueue_keeps.
Qed.

Lemma flag_micros x y : micros x y -> t_disposed y.1 = t_disposed x.1.
Proof. intros H. induction H as [|x y z H _ IH]; [done|]. by rewrite IH, (flag_micro x y). Qed.

Lemma empty_micro x y : micro x y -> t_disposed x.1 = true -> empty x.1 -> empty y.1.
Proof.
  intros H Hd (E1 & E2 & E3 & E4 & E5). destruct H; cbn [fst] in *; try congruence; try (by unfold empty);
    try (by rewrite E3 in H); try (by rewrite E4 in H); try (by rewrite E1 in H; destruct H); try (by rewrite E2 in H; apply elem_of_nil in H).
  - destruct (drop_parts id t) as (A & B & C & D & E & _). unfold empty. rewrite A, B, C, D, E, E3. done.
  - destruct (drop_socket_parts id t) as (A & B & C & D & E & _). unfold empty. rewrite A, B, C, D, E, E4. done.
  - unfold empty. simpl. by rewrite E5.
  - unfold empty. simpl. by rewrite E2.
  - by rewrite E1 in H.
Qed.

Lemma empty_micros x y : micros x y -> t_disposed x.1 = true -> empty x.1 -> empty y.1.
Proof.
  intros H. induction H as [|x y z H _ IH]; [done|]. intros Hd He. apply IH; [by rewrite (flag_micro x y)|by apply (empty_micro x y)].
Qed.

Lemma shape_micros x y : micros x y -> shape x.1 -> shape y.1.
Proof. intros H. induction H as [|x y z H _ IH]; [done|]. intros Hs. by apply IH, (shape_micro x y). Qed.

Lemma omap_get_delete_all {V} (k : string) (m : list (string * V)) l :
  k ∉ l -> omap_get k (foldl (fun m k => omap_delete k m) m l) = omap_get k m.
Proof.
  revert m. induction l as [|x l IH]; intros m Hk; [done|]. simpl. apply not_elem_of_cons in Hk as [Hne Hk].
  rewrite IH by done. by rewrite omap_get_delete_ne.
Qed.

Lemma closeFrame_frames id t : t_frames (closeFrame id false t) = omap_delete id (t_frames t).
Proof.
  destruct (omap_get id (t_frames t)) as [f|] eqn:Ef.
  - rewrite (closeFrame_last id false f t Ef). cbn zeta. by case_bool_decide.
  - unfold closeFrame. rewrite Ef. symmetry. apply omap_delete_none. rewrite <- omap_get_is_Some, Ef. by intros [].
Qed.

Lemma close_all_frames l t : (forall id, id ∈ map fst (t_frames t) -> id ∈ l) -> t_frames (close_all l t) = [].
Proof.
  unfold close_all. revert t. induction l as [|id l IH]; intros t Hl.
  - simpl. destruct (t_frames t) as [|e m]; [done|]. specialize (Hl e.1). simpl in Hl. by set_solver.
  - simpl. apply IH. intros x Hx. rewrite closeFrame_frames, omap_delete_keys in Hx. apply list_elem_of_filter in Hx as [Hne Hx].
    apply Hl in Hx. by apply elem_of_cons in Hx as [? |].
Qed.

Lemma dispose_steps t : t_disposed t = false ->
  exists t2, micros (set_disposed t, None) (t2, None) /\ t_frames t2 = [] /\ dispose t = stopWatching (set_queue [] (set_opening [] t2)).
Proof.
  intros Hd. unfold dispose. rewrite Hd. eexists. split_all; [apply close_all_micros|by apply close_all_frames|done].
Qed.

Lemma shape_empty t : empty t -> shape t.
Proof.
  intros (A & B & C & D & E). constructor; rewrite ?A, ?B, ?C, ?D, ?E; try done; try (by constructor); try (simpl; lia); try (by intros ? ?%elem_of_nil).
  cbn [map app list_to_set]. rewrite size_empty. unfold MAX_FRAMES_PER_SESSION. lia.
Qed.

(** An invariant of the small steps, of the flag and of the last clearing holds
    after any operations. *)
Lemma tunnel_invariant (I : Hand -> Prop) ops :
  I (new_tunnel, None) ->
  (forall x y, micro x y -> shape x.1 -> I x -> I y) ->
  (forall t, t_disposed t = false -> I (t, None) -> I (set_disposed t, None)) ->
  (forall t, t_disposed t = true -> empty (set_queue [] (set_opening [] t)) -> I (t, None) -> I (set_queue [] (set_opening [] t), None)) ->
  let t := tunnel_after ops new_tunnel in shape t /\ dead t /\ I (t, None).
Proof.
  intros I0 Imicro Iflag Iclear. cbn zeta. unfold tunnel_after.
  assert (Imicros : forall x y, micros x y -> shape x.1 -> I x -> I y).
  { intros x y H. induction H as [|x y z H _ IH]; [done|]. intros Hs Hi. apply IH; [by apply (shape_micro x y)|by apply (Imicro x y)]. }
  assert (Hs0 : shape new_tunnel) by by apply shape_empty.
  assert (Hd0 : dead new_tunnel) by done. revert I0 Hs0 Hd0. generalize new_tunnel.
  induction ops as [|op ops IH]; intros t Hi Hs Hd; [done|]. simpl. assert (op = op_dispose \/ op <> op_dispose) as [->|Hop] by (destruct op; (by left) || (by right)).
  - simpl. destruct (t_disposed t) eqn:Ed; [unfold dispose; rewrite Ed; by apply IH|].
    destruct (dispose_steps t Ed) as (t2 & Hm & Hf & ->). assert (Hs1 : shape (set_disposed t)) by by apply (shape_same t).
    assert (Hs2 : shape t2) by by apply (shape_micros _ _ Hm). pose proof (flag_micros _ _ Hm) as Hd2. simpl in Hd2.
    assert (He : empty (set_queue [] (set_opening [] t2))).
    { pose proof (sh_exchanges t2 Hs2) as Hx. pose proof (sh_sockets t2 Hs2) as Hy. rewrite Hf in Hx, Hy. unfold empty. simpl. split_all; try done.
      - destruct (t_exchanges t2) as [|e m]; [done|]. apply Forall_cons in Hx as [Hx _]. by apply elem_of_nil in Hx.
      - destruct (t_sockets t2) as [|e m]; [done|]. apply Forall_cons in Hy as [Hy _]. by apply elem_of_nil in Hy. }
    apply IH.
    + refine (Imicros (_, None) (_, None) (step _ _ (m_watch _ _ false None)) _ _).
      * by apply shape_empty.
      * apply Iclear; [done|done|]. apply (Imicros _ _ Hm Hs1). by apply Iflag.
    + by apply shape_empty.
    + by intros _.
  - pose proof (op_micros op t Hs Hd Hop) as Hm. apply IH.
    + by apply (Imicros _ _ Hm).
    + by apply (shape_micros _ _ Hm).
    + intros E. pose proof (flag_micros _ _ Hm) as Ef. simpl in Ef. rewrite E in Ef. by apply (empty_micros _ _ Hm); [|apply Hd].
Qed.

(** *** The window *)

Definition WINDOW : Z := FRAME_FLOW_WINDOW_BYTES.
Definition MAX_COST : Z := FRAME_CHUNK_BYTES + FRAME_FLOW_MESSAGE_COST.
Definition affordable (q : Queued) : Prop := 0 <= cost (qd_payload q) <= MAX_COST.

Lemma drain_queue_bounds queue out :
  Forall affordable queue -> 0 <= out <= WINDOW ->
  let '(rest, out', _) := drain_queue queue out in
  out <= out' <= WINDOW /\ Forall affordable rest /\ (rest <> [] -> WINDOW / 2 <= out') /\
  (queue <> [] -> out = 0 -> (length rest < length queue)%nat).
Proof.
  unfold WINDOW. intros Hq. revert out. induction Hq as [|q queue Hq Hqs IH]; intros out Ho; simpl; [split_all; try done; lia|].
  unfold affordable, MAX_COST in Hq. destruct ((0 <? cost (qd_payload q)) && (0 <? out) && (FRAME_FLOW_WINDOW_BYTES <? out + cost (qd_payload q))) eqn:E.
  - rewrite !andb_true_iff, !Z.ltb_lt in E. destruct E as [[E1 E2] E3]. unfold FRAME_FLOW_WINDOW_BYTES, FRAME_CHUNK_BYTES, FRAME_FLOW_MESSAGE_COST in *.
    split_all; [lia|lia|by constructor|intros _; change (1024 * 1024 / 2) with 524288; lia|intros _ ?; lia].
  - assert (Ho' : 0 <= out + cost (qd_payload q) <= FRAME_FLOW_WINDOW_BYTES).
    { rewrite !andb_false_iff, !Z.ltb_ge in E. unfold FRAME_FLOW_WINDOW_BYTES, FRAME_CHUNK_BYTES, FRAME_FLOW_MESSAGE_COST in *. lia. }
    specialize (IH (out + cost (qd_payload q)) Ho'). destruct (drain_queue queue _) as [[rest out'] outs] eqn:Ed. destruct IH as (H1 & H2 & H3 & H4).
    pose proof (drain_queue_spec queue (out + cost (qd_payload q))) as Hsp. rewrite Ed in Hsp. destruct Hsp as (sent & -> & _).
    split_all; [lia|lia|done|done|]. intros _ _. rewrite length_app. lia.
Qed.

Record window_ok t : Prop := {
  wo_bound : 0 <= t_outstanding t <= WINDOW;
  wo_queue : t_queue t <> [] -> t_paused t = true;
  wo_paused : t_paused t = true -> WINDOW / 2 <= t_outstanding t;
  wo_full : WINDOW <= t_outstanding t -> t_paused t = true;
  wo_costs : Forall affordable (t_queue t)
}.

Lemma drain_window t :
  0 <= t_outstanding t <= WINDOW -> Forall affordable (t_queue t) -> window_ok (drain t).
Proof.
  intros Ho Hq. destruct (drain_window_spec t) as (sent & rest & out & E & _ & _ & Ed). cbn zeta in Ed. rewrite Ed.
  pose proof (drain_queue_bounds (t_queue t) (t_outstanding t) Hq Ho) as Hb. rewrite E in Hb. destruct Hb as (H1 & H2 & H3 & _).
  constructor; cbn [t_outstanding t_queue t_paused say set_flow set_window]; [unfold WINDOW in *; lia| | | |done].
  - intros Hr. by rewrite bool_decide_eq_false_2.
  - intros Hp. apply orb_true_iff in Hp as [Hp|Hp]; [apply negb_true_iff, bool_decide_eq_false in Hp; by apply H3|].
    apply Z.leb_le in Hp. unfold WINDOW in *. destruct (t_paused t); [done|]. change (FRAME_FLOW_WINDOW_BYTES / 2) with 524288. unfold FRAME_FLOW_WINDOW_BYTES in *. lia.
  - intros Hw. apply orb_true_iff. right. apply Z.leb_le. unfold WINDOW in *. change (FRAME_FLOW_WINDOW_BYTES / 2) with 524288. unfold FRAME_FLOW_WINDOW_BYTES in *. destruct (t_paused t); lia.
Qed.

Lemma enqueue_window owner fid event p t :
  window_ok t -> 0 <= cost p <= MAX_COST -> window_ok (enqueue owner fid event p t).
Proof.
  intros [] Hp. unfold enqueue. destruct (t_disposed t); [done|]. apply drain_window; [done|]. simpl. apply Forall_app. split; [done|by constructor].
Qed.

Definition flow_fields t := (t_queue t, t_outstanding t, t_paused t).

Lemma window_same t t' : flow_fields t' = flow_fields t -> window_ok t -> window_ok t'.
Proof. intros [= E1 E2 E3] []. constructor; rewrite ?E1, ?E2, ?E3; done. Qed.

Lemma drop_flow id t : flow_fields (dropExchange id t) = flow_fields t /\ flow_fields (dropSocket id t) = flow_fields t.
Proof.
  unfold dropExchange, dropSocket. destruct (omap_get id (t_exchanges t)), (omap_get id (t_sockets t)); split; try done;
    by destruct (negb _ && _).
Qed.

Lemma hold_flow paused flow id t : flow_fields (hold_call paused flow id t) = flow_fields t.
Proof. unfold hold_call. destruct paused; [done|]. by destruct flow. Qed.

Lemma body_cost b : blen b <= FRAME_CHUNK_BYTES -> 0 <= blen b + FRAME_FLOW_MESSAGE_COST <= MAX_COST.
Proof. unfold MAX_COST, FRAME_FLOW_MESSAGE_COST, blen. lia. Qed.

Lemma data_cost data : 0 <= cost (pl_data data) <= MAX_COST.
Proof. done. Qed.

Lemma window_micro x y : micro x y -> window_ok x.1 -> window_ok y.1.
Proof.
  intros H. destruct H; cbn [fst]; intros Hw; try exact Hw; try (by apply (window_same t)).
  - apply drain_window; simpl; [pose proof (wo_bound t Hw); lia|apply Hw].
  - subst t2. by destruct (t_paused _); apply (window_same t).
  - subst t2. by destruct (t_paused _); apply (window_same t).
  - refine (window_same _ _ (hold_flow _ _ _ _) _). by apply (window_same t).
  - refine (window_same _ _ (hold_flow _ _ _ _) _). by apply (window_same t).
  - by apply (window_same t); [apply drop_flow|].
  - by apply (window_same t); [apply drop_flow|].
  - apply (window_same t1); [done|]. apply enqueue_window; [done|apply (data_cost data)].
  - apply (window_same t1); [done|]. apply enqueue_window; [done|apply (data_cost data)].
  - apply enqueue_window; [done|by apply body_cost].
  - apply enqueue_window; [done|by apply body_cost].
  - destruct Hw. constructor; simpl; try done.
    + intros Hq. apply wo_queue0. intros E. by rewrite E in Hq.
    + rewrite Forall_forall in *. intros q Hq. apply list_elem_of_filter in Hq as [_ Hq]. by apply wo_costs0.
Qed.

(** *** What each source was last told *)

Definition flow_step id (flow : bool) (o : Out) : bool :=
  match o with
  | o_call id' c =>
      if bool_decide (id' = id)
      then match c with c_request _ _ _ _ | c_openSocket _ _ | c_resume => false | c_pause => true | _ => flow end
      else flow
  | _ => flow
  end.

(** Whether the source [id] was last told to pause, since it was opened. *)
Definition flow_now id (log : list Out) : bool := foldl (flow_step id) false log.

Definition sources t : list (string * bool) :=
  map (fun e => (e.1, ex_held e.2)) (t_exchanges t) ++ map (fun e => (e.1, so_held e.2)) (t_sockets t).

Definition told_right t : Prop := forall id held, (id, held) ∈ sources t -> flow_now id (t_log t) = t_paused t || held.

Definition calm (o : Out) : bool :=
  match o with o_call _ (c_request _ _ _ _ | c_openSocket _ _ | c_resume | c_pause) => false | _ => true end.

Lemma calm_flow id log outs : forallb calm outs = true -> flow_now id (log ++ outs) = flow_now id log.
Proof.
  unfold flow_now. rewrite foldl_app. generalize (foldl (flow_step id) false log). induction outs as [|o outs IH]; intros f H; [done|]. simpl in *.
  apply andb_true_iff in H as [Ho H]. rewrite IH by done. destruct o; try done. simpl. case_bool_decide; [|done]. by destruct c.
Qed.

Lemma flow_other id log id' c : id' <> id -> flow_now id (log ++ [o_call id' c]) = flow_now id log.
Proof. intros H. unfold flow_now. rewrite foldl_app. simpl. by rewrite bool_decide_eq_false_2. Qed.

Lemma flow_self id log c : flow_now id (log ++ [o_call id c]) =
  match c with c_request _ _ _ _ | c_openSocket _ _ | c_resume => false | c_pause => true | _ => flow_now id log end.
Proof. unfold flow_now. rewrite foldl_app. simpl. by rewrite bool_decide_eq_true_2. Qed.

Definition turn_calls (paused : bool) (l : list (string * bool)) : list Out := flat_map (fun e => map (o_call e.1) (flow_call paused e.2)) l.

Lemma flow_calls_turn paused t : flow_calls paused t = turn_calls paused (sources t).
Proof.
  unfold flow_calls, turn_calls, sources. rewrite flat_map_app. by rewrite !flat_map_concat_map, !map_map.
Qed.

Lemma turn_other paused l id log : id ∉ map fst l -> flow_now id (log ++ turn_calls paused l) = flow_now id log.
Proof.
  revert log. induction l as [|[k held] l IH]; intros log Hn; [by rewrite app_nil_r|]. simpl in *. apply not_elem_of_cons in Hn as [Hk Hn].
  rewrite app_assoc, IH by done. destruct paused; simpl; [by apply flow_other|]. destruct held; simpl; [by rewrite app_nil_r|by apply flow_other].
Qed.

Lemma turn_self paused l id held log :
  NoDup (map fst l) -> (id, held) ∈ l -> flow_now id log = negb paused || held -> flow_now id (log ++ turn_calls paused l) = paused || held.
Proof.
  revert log. induction l as [|[k h] l IH]; intros log Hnd Hin Hf; [by apply elem_of_nil in Hin|]. simpl in *. apply NoDup_cons in Hnd as [Hn Hnd].
  rewrite app_assoc. apply elem_of_cons in Hin as [[= <- <-]|Hin].
  - rewrite turn_other by done. destruct paused; simpl; [by rewrite flow_self|]. destruct held; simpl; [by rewrite app_nil_r|by rewrite flow_self].
  - apply IH; [done|done|]. assert (k <> id) by (intros ->; apply Hn; apply list_elem_of_fmap; by exists (id, held)).
    destruct paused; simpl; [by rewrite flow_other|]. destruct h; simpl; [by rewrite app_nil_r|by rewrite flow_other].
Qed.

Lemma sources_NoDup t : shape t -> NoDup (map fst (sources t)).
Proof.
  intros []. unfold sources. rewrite map_app, !map_map. simpl. apply NoDup_app. split_all; try done.
Qed.

Lemma told_drain t : NoDup (map fst (sources t)) -> told_right t -> told_right (drain t).
Proof.
  intros Hnd Ht. destruct (drain_window_spec t) as (sent & rest & out & _ & _ & _ & E). cbn zeta in E. rewrite E. clear E. generalize (negb (bool_decide (rest = [])) || ((if t_paused t then FRAME_FLOW_WINDOW_BYTES / 2 else FRAME_FLOW_WINDOW_BYTES) <=? out)).
  intros paused id held Hin. change (sources _) with (sources t) in Hin. specialize (Ht id held Hin). cbn [t_log t_paused say set_flow set_window].
  assert (Hc : forallb calm (map (fun q => o_event (qd_owner q) (qd_event q) (qd_payload q)) sent) = true) by (by apply forallb_forall; intros o Ho; apply in_map_iff in Ho as (? & <- & _)).
  rewrite app_assoc. case_bool_decide as Ep; [rewrite app_nil_r, calm_flow, Ep by done; done|].
  rewrite flow_calls_turn. apply turn_self; [done|done|]. rewrite calm_flow by done. rewrite Ht. f_equal. by destruct (t_paused t), paused.
Qed.

Lemma told_same t t' outs :
  (forall x, x ∈ sources t' -> x ∈ sources t) -> t_paused t' = t_paused t -> t_log t' = t_log t ++ outs -> forallb calm outs = true -> told_right t -> told_right t'.
Proof. intros Hs Hp Hl Hc Ht id held Hin. rewrite Hl, Hp, calm_flow by done. by apply Ht, Hs. Qed.

Lemma told_enqueue owner fid event p t : NoDup (map fst (sources t)) -> told_right t -> told_right (enqueue owner fid event p t).
Proof. intros Hnd Ht. unfold enqueue. destruct (t_disposed t); [done|]. by apply told_drain. Qed.

Lemma omap_set_elem {V} k (v : V) m x : NoDup (map fst m) -> x ∈ omap_set k v m -> x = (k, v) \/ x.1 <> k /\ x ∈ m.
Proof.
  intros Hnd Hx. rewrite (omap_set_Permutation k v m Hnd) in Hx. apply elem_of_cons in Hx as [->|Hx]; [by left|right].
  by apply list_elem_of_filter in Hx.
Qed.

Lemma sources_set_exchange t id e x :
  shape t -> x ∈ sources (set_exchanges (omap_set id e (t_exchanges t)) t) -> id ∉ map fst (t_sockets t) -> x = (id, ex_held e) \/ x.1 <> id /\ x ∈ sources t.
Proof.
  intros Hs Hx Hn. unfold sources in *. simpl in Hx. apply elem_of_app in Hx as [Hx|Hx]; apply list_elem_of_fmap in Hx as (y & -> & Hy).
  - apply omap_set_elem in Hy as [->|[Hne Hy]]; [by left|right|apply Hs]. split; [done|]. apply elem_of_app. left. by apply list_elem_of_fmap; exists y.
  - right. split; [simpl; intros <-; apply Hn, list_elem_of_fmap; by exists y|]. apply elem_of_app. right. by apply list_elem_of_fmap; exists y.
Qed.

Lemma sources_set_socket t id e x :
  shape t -> x ∈ sources (set_sockets (omap_set id e (t_sockets t)) t) -> id ∉ map fst (t_exchanges t) -> x = (id, so_held e) \/ x.1 <> id /\ x ∈ sources t.
Proof.
  intros Hs Hx Hn. unfold sources in *. simpl in Hx. apply elem_of_app in Hx as [Hx|Hx]; apply list_elem_of_fmap in Hx as (y & -> & Hy).
  - right. split; [simpl; intros <-; apply Hn, list_elem_of_fmap; by exists y|]. apply elem_of_app. left. by apply list_elem_of_fmap; exists y.
  - apply omap_set_elem in Hy as [->|[Hne Hy]]; [by left|right|apply Hs]. split; [done|]. apply elem_of_app. right. by apply list_elem_of_fmap; exists y.
Qed.

Lemma sources_delete t id x : x ∈ sources (set_exchanges (omap_delete id (t_exchanges t)) t) \/ x ∈ sources (set_sockets (omap_delete id (t_sockets t)) t) -> x ∈ sources t.
Proof.
  unfold sources. simpl. rewrite !elem_of_app. intros [[Hx|Hx]|[Hx|Hx]]; try tauto; apply list_elem_of_fmap in Hx as (y & -> & Hy);
    apply list_elem_of_filter in Hy as [_ Hy]; [left|right]; by apply list_elem_of_fmap; exists y.
Qed.

Lemma held_source t id e : omap_get id (t_exchanges t) = Some e -> (id, ex_held e) ∈ sources t.
Proof. intros E. apply elem_of_app. left. apply list_elem_of_fmap. exists (id, e). split; [done|]. by apply omap_get_elem_of. Qed.

Lemma held_socket_source t id e : omap_get id (t_sockets t) = Some e -> (id, so_held e) ∈ sources t.
Proof. intros E. apply elem_of_app. right. apply list_elem_of_fmap. exists (id, e). split; [done|]. by apply omap_get_elem_of. Qed.

(** One source changes, the log ends with calls to it alone, and those leave it as they should. *)
Lemma told_one t t' id held calls :
  (forall x, x ∈ sources t' -> x = (id, held) \/ x.1 <> id /\ x ∈ sources t) -> t_paused t' = t_paused t -> t_log t' = t_log t ++ map (o_call id) calls ->
  flow_now id (t_log t') = t_paused t || held -> told_right t -> told_right t'.
Proof.
  intros Hs Hp Hl Hf Ht id' held' Hin. rewrite Hp. apply Hs in Hin as [[= -> ->]|[Hne Hin]]; [done|]. simpl in Hne. rewrite Hl.
  clear Hl Hf. specialize (Ht id' held' Hin). induction calls as [|c calls IH] using rev_ind; [by rewrite app_nil_r|].
  rewrite map_app, app_assoc. simpl. by rewrite flow_other.
Qed.

Lemma drop_log id t :
  exists outs outs', t_log (dropExchange id t) = t_log t ++ outs /\ forallb calm outs = true /\ t_log (dropSocket id t) = t_log t ++ outs' /\ forallb calm outs' = true.
Proof.
  exists (match omap_get id (t_exchanges t) with None => [] | Some e => o_call id c_abort :: (if negb (ex_answered e) && negb (t_disposed t) then [o_fail (ex_request e) "request cancelled"] else []) end),
    (match omap_get id (t_sockets t) with None => [] | Some e => o_call id c_terminate :: (if negb (so_open e) && negb (t_disposed t) then [o_fail (so_request e) "socket cancelled"] else []) end).
  unfold dropExchange, dropSocket. cbn [t_disposed call say set_exchanges set_sockets]. split_all.
  - destruct (omap_get id (t_exchanges t)) as [e|]; [|by rewrite app_nil_r]. destruct (negb (ex_answered e) && _); simpl; [by rewrite <- app_assoc|done].
  - destruct (omap_get id (t_exchanges t)) as [e|]; [|done]. by destruct (negb (ex_answered e) && _).
  - destruct (omap_get id (t_sockets t)) as [e|]; [|by rewrite app_nil_r]. destruct (negb (so_open e) && _); simpl; [by rewrite <- app_assoc|done].
  - destruct (omap_get id (t_sockets t)) as [e|]; [|done]. by destruct (negb (so_open e) && _).
Qed.

Lemma quiet_calm outs : forallb quiet outs = true -> forallb calm outs = true.
Proof.
  rewrite !forallb_forall. intros H o Ho. specialize (H o Ho). destruct o; try done. by destruct c.
Qed.

Lemma told_new t id e kind :
  shape t -> idInUse id t = false -> ex_held e = false -> (forall log, flow_now id (log ++ [o_call id kind]) = false) -> told_right t ->
  let t2 := set_exchanges (omap_set id e (t_exchanges t)) (call id kind t) in
  told_right (if t_paused t2 then call id c_pause t2 else t2).
Proof.
  intros Hs Hu He Hk Ht t2. apply idInUse_false in Hu as (_ & _ & _ & Hso). change (t_paused t2) with (t_paused t).
  apply (told_one t _ id (ex_held e) (if t_paused t then [kind; c_pause] else [kind])).
  - intros x Hx. apply (sources_set_exchange t id e x Hs); [by destruct (t_paused t)|done].
  - destruct (t_paused t) eqn:E; exact E.
  - destruct (t_paused t); [|done]. simpl. by rewrite <- app_assoc.
  - destruct (t_paused t) eqn:Ep; [unfold call at 1; cbn [t_log say]; by rewrite flow_self|]. rewrite He. simpl. apply Hk.
  - done.
Qed.

Lemma told_new_socket t id e kind :
  shape t -> idInUse id t = false -> so_held e = false -> (forall log, flow_now id (log ++ [o_call id kind]) = false) -> told_right t ->
  let t2 := set_sockets (omap_set id e (t_sockets t)) (call id kind t) in
  told_right (if t_paused t2 then call id c_pause t2 else t2).
Proof.
  intros Hs Hu He Hk Ht t2. apply idInUse_false in Hu as (_ & _ & Hso & _). change (t_paused t2) with (t_paused t).
  apply (told_one t _ id (so_held e) (if t_paused t then [kind; c_pause] else [kind])).
  - intros x Hx. apply (sources_set_socket t id e x Hs); [by destruct (t_paused t)|done].
  - destruct (t_paused t) eqn:E; exact E.
  - destruct (t_paused t); [|done]. simpl. by rewrite <- app_assoc.
  - destruct (t_paused t) eqn:Ep; [unfold call at 1; cbn [t_log say]; by rewrite flow_self|]. rewrite He. simpl. apply Hk.
  - done.
Qed.

Lemma told_hold t t1 id was paused :
  (forall x, x ∈ sources t1 -> x = (id, paused) \/ x.1 <> id /\ x ∈ sources t) -> t_paused t1 = t_paused t -> t_log t1 = t_log t ->
  (id, was) ∈ sources t -> told_right t -> told_right (hold_call paused (t_paused t) id t1).
Proof.
  intros Hs Hp Hl Hin Ht. apply (told_one t _ id paused (if paused then [c_pause] else if t_paused t then [] else [c_resume])).
  - intros x Hx. apply Hs. revert Hx. unfold hold_call. destruct paused; [done|]. by destruct (t_paused t).
  - unfold hold_call. destruct paused; [done|]. destruct (t_paused t); exact Hp.
  - unfold hold_call. destruct paused; [by simpl; rewrite Hl|]. destruct (t_paused t); simpl; rewrite Hl; by rewrite ?app_nil_r.
  - unfold hold_call. destruct paused; simpl; [rewrite flow_self; by destruct (t_paused t)|]. specialize (Ht id was Hin).
    destruct (t_paused t) eqn:E; simpl; [rewrite Hl, Ht; done|by rewrite flow_self].
  - done.
Qed.

Lemma get_apart t id e : shape t -> omap_get id (t_exchanges t) = Some e -> id ∉ map fst (t_sockets t).
Proof. intros Hs E. apply (sh_apart t Hs). by apply (omap_get_elem_fst id e). Qed.

Lemma get_apart_socket t id e : shape t -> omap_get id (t_sockets t) = Some e -> id ∉ map fst (t_exchanges t).
Proof. intros Hs E Hin. apply (sh_apart t Hs id Hin). by apply (omap_get_elem_fst id e). Qed.

Lemma told_calm t t' outs :
  sources t' = sources t -> t_paused t' = t_paused t -> t_log t' = t_log t ++ outs -> forallb calm outs = true -> told_right t -> told_right t'.
Proof. intros Hs. apply told_same. by rewrite Hs. Qed.

(** A change of what is not the hold. *)
Lemma told_update t id e e' outs :
  shape t -> omap_get id (t_exchanges t) = Some e -> ex_held e' = ex_held e -> told_right t -> forallb calm outs = true ->
  told_right (say outs (set_exchanges (omap_set id e' (t_exchanges t)) t)).
Proof.
  intros Hs E Eh Ht Hc. apply (told_same t _ outs); try done. intros x Hx.
  apply (sources_set_exchange t id e' x Hs) in Hx as [->|[_ Hx]]; [|done|by apply (get_apart t id e)]. rewrite Eh. by apply held_source.
Qed.

Lemma told_update_socket t id e e' outs :
  shape t -> omap_get id (t_sockets t) = Some e -> so_held e' = so_held e -> told_right t -> forallb calm outs = true ->
  told_right (say outs (set_sockets (omap_set id e' (t_sockets t)) t)).
Proof.
  intros Hs E Eh Ht Hc. apply (told_same t _ outs); try done. intros x Hx.
  apply (sources_set_socket t id e' x Hs) in Hx as [->|[_ Hx]]; [|done|by apply (get_apart_socket t id e)]. rewrite Eh. by apply held_socket_source.
Qed.

Lemma say_nil t : say [] t = t.
Proof. unfold say. rewrite app_nil_r. by destruct t. Qed.

Lemma told_delete t id outs :
  told_right t -> forallb calm outs = true ->
  told_right (set_exchanges (omap_delete id (t_exchanges t)) (say outs t)) /\ told_right (set_sockets (omap_delete id (t_sockets t)) (say outs t)).
Proof.
  intros Ht Hc. split; apply (told_same t _ outs); try done; intros x Hx; apply (sources_delete t id); [by left|by right].
Qed.

Lemma told_micro x y : micro x y -> shape x.1 -> told_right x.1 -> told_right y.1.
Proof.
  intros H. destruct H; cbn [fst]; intros Hs Ht; try exact Ht;
    try (apply (told_calm t _ []); [done|done|by rewrite app_nil_r|done|exact Ht]);
    try (eapply (told_calm t); [reflexivity|reflexivity|reflexivity|reflexivity|exact Ht]).
  - apply told_drain; [exact (sources_NoDup t Hs)|]. by apply (told_calm t _ [o_ok rq empty_object]).
  - apply (told_new t (rq_id rq) (mkExchange fid rq false stop false)); try done. intros log. by rewrite flow_self.
  - apply (told_new_socket t (rq_id rq) (mkSocket fid rq false false [] 0 false)); try done. intros log. by rewrite flow_self.
  - rewrite <- (say_nil (set_exchanges _ t)). by apply (told_update t id e).
  - rewrite <- (say_nil (set_sockets _ t)). by apply (told_update_socket t id e).
  - by apply (told_update t id e).
  - by apply (told_update_socket t id e).
  - apply (told_hold t _ id (ex_held e)); try done; [|by apply held_source]. intros x Hx.
    apply (sources_set_exchange t id _ x Hs) in Hx; [done|by apply (get_apart t id e)].
  - apply (told_hold t _ id (so_held e)); try done; [|by apply held_socket_source]. intros x Hx.
    apply (sources_set_socket t id _ x Hs) in Hx; [done|by apply (get_apart_socket t id e)].
  - destruct (drop_log id t) as (outs & _ & El & Hc & _). apply (told_same t _ outs); try done.
    + intros x Hx. apply (sources_delete t id). left. destruct (drop_parts id t) as (_ & _ & _ & Es & Ex & _). unfold sources in *. by rewrite Es, Ex in Hx.
    + by destruct (drop_flow id t) as [[= _ _ ->] _].
  - destruct (drop_log id t) as (_ & outs & _ & _ & El & Hc). apply (told_same t _ outs); try done.
    + intros x Hx. apply (sources_delete t id). right. destruct (drop_socket_parts id t) as (_ & _ & _ & Ex & Es & _). unfold sources in *. by rewrite Es, Ex in Hx.
    + by destruct (drop_flow id t) as [_ [= _ _ ->]].
  - rewrite <- (say_nil t1) at 2. apply told_delete; [|done]. apply told_enqueue; [by apply sources_NoDup|done].
  - by apply (told_delete t id [o_fail (ex_request e) message]).
  - rewrite <- (say_nil t1) at 2. apply told_delete; [|done]. apply told_enqueue; [by apply sources_NoDup|done].
  - by apply (told_delete t id [o_fail (so_request e) message]).
  - apply told_enqueue; [by apply sources_NoDup|done].
  - apply told_enqueue; [by apply sources_NoDup|done].
  - apply (told_calm t _ outs); try done. by apply quiet_calm.
Qed.

(** *** Every request is answered once *)

Definition answered_of (o : Out) : option nat := match o with o_ok rq _ | o_fail rq _ => Some (rq_no rq) | _ => None end.
Definition exchange_waits (e : string * Exchange) : option nat := if ex_answered e.2 then None else Some (rq_no (ex_request e.2)).
Definition socket_waits (e : string * Socket) : option nat := if so_open e.2 then None else Some (rq_no (so_request e.2)).
Definition pending_waits (p : nat * Pending) : option nat := rq_no <$> pending_rq p.2.

(** The requests answered, and those that something still stands for. *)
Definition answered t : list nat := omap answered_of (t_log t).
Definition waiting t : list nat := omap exchange_waits (t_exchanges t) ++ omap socket_waits (t_sockets t) ++ omap pending_waits (t_pending t).

Definition in_hand (h : option Request) : list nat := option_list (rq_no <$> h).

Definition all_of (x : Hand) : list nat := answered x.1 ++ waiting x.1 ++ in_hand x.2.

Record accounted (x : Hand) : Prop := {
  ac_all : t_disposed x.1 = false -> all_of x ≡ₚ seq 0 (length (t_requests x.1));
  ac_pending : NoDup (map fst (t_pending x.1)) /\ Forall (fun p => (p.1 < t_promises x.1)%nat) (t_pending x.1)
}.

Lemma omap_perm {A B} (f : A -> option B) l k : l ≡ₚ k -> omap f l ≡ₚ omap f k.
Proof. intros H. by rewrite H. Qed.

Lemma swap_ends {A} (a b : A) D : (a :: D) ++ [b] ≡ₚ (b :: D) ++ [a].
Proof. rewrite (Permutation_app_comm (a :: D)), (Permutation_app_comm (b :: D)). simpl. apply Permutation_swap. Qed.

(** What a change of one entry does to those that wait. *)
Lemma waits_set {V} (f : string * V -> option nat) k (v v' : V) m :
  NoDup (map fst m) -> omap_get k m = Some v ->
  omap f (omap_set k v' m) ++ option_list (f (k, v)) ≡ₚ omap f m ++ option_list (f (k, v')).
Proof.
  intros Hnd Hk. rewrite (omap_perm f _ _ (omap_set_Permutation k v' m Hnd)), (omap_perm f m _ (omap_get_Permutation k v m Hnd Hk)). simpl.
  destruct (f (k, v')), (f (k, v)); simpl; rewrite ?app_nil_r; try done; try apply Permutation_cons_append.
  - apply swap_ends.
  - symmetry. apply Permutation_cons_append.
Qed.

Lemma waits_delete {V} (f : string * V -> option nat) k (v : V) m :
  NoDup (map fst m) -> omap_get k m = Some v -> omap f (omap_delete k m) ++ option_list (f (k, v)) ≡ₚ omap f m.
Proof.
  intros Hnd Hk. rewrite (omap_perm f m _ (omap_get_Permutation k v m Hnd Hk)). simpl. destruct (f (k, v)); simpl; rewrite ?app_nil_r; [|done].
  by rewrite <- Permutation_cons_append.
Qed.

Lemma waits_new {V} (f : string * V -> option nat) k (v : V) m :
  NoDup (map fst m) -> k ∉ map fst m -> omap f (omap_set k v m) ≡ₚ omap f m ++ option_list (f (k, v)).
Proof.
  intros Hnd Hk. rewrite (omap_perm f _ _ (omap_set_Permutation k v m Hnd)), (omap_delete_none k m Hk). simpl.
  destruct (f (k, v)); simpl; [by rewrite <- Permutation_cons_append|by rewrite app_nil_r].
Qed.

(** Counting, so that accounts are sums. *)
Definition cnt (n : nat) (l : list nat) : nat := count_occ Nat.eq_dec l n.

Lemma cnt_app n l k : cnt n (l ++ k) = (cnt n l + cnt n k)%nat.
Proof. apply count_occ_app. Qed.

Lemma cnt_perm l k : (forall n, cnt n l = cnt n k) <-> l ≡ₚ k.
Proof. symmetry. apply (Permutation_count_occ Nat.eq_dec). Qed.

Definition sum_of n (x : Hand) : nat :=
  (cnt n (answered x.1) + (cnt n (omap exchange_waits (t_exchanges x.1)) + (cnt n (omap socket_waits (t_sockets x.1)) +
   cnt n (omap pending_waits (t_pending x.1)))) + cnt n (in_hand x.2))%nat.

Lemma sum_all n x : cnt n (all_of x) = sum_of n x.
Proof. unfold all_of, waiting, sum_of. rewrite !cnt_app. lia. Qed.

Definition pending_fields t := (t_pending t, t_promises t).

Lemma accounted_step x y :
  accounted x -> t_requests y.1 = t_requests x.1 -> t_disposed y.1 = t_disposed x.1 ->
  (t_disposed x.1 = false -> forall n, sum_of n y = sum_of n x) ->
  NoDup (map fst (t_pending y.1)) /\ Forall (fun p => (p.1 < t_promises y.1)%nat) (t_pending y.1) -> accounted y.
Proof.
  intros [Ha Hp] Er Ed Hs Hp'. constructor; [|done]. intros Hd. rewrite Ed in Hd. rewrite Er, <- (Ha Hd). apply cnt_perm. intros n.
  rewrite !sum_all. by apply Hs.
Qed.

Lemma accounted_same x y :
  accounted x -> t_requests y.1 = t_requests x.1 -> t_disposed y.1 = t_disposed x.1 -> pending_fields y.1 = pending_fields x.1 ->
  (t_disposed x.1 = false -> forall n, sum_of n y = sum_of n x) -> accounted y.
Proof. intros Ha Er Ed [= E1 E2] Hs. apply (accounted_step x); try done. rewrite E1, E2. apply Ha. Qed.

(** The log grows by answers to those of [da]. *)
Lemma answered_log t t' outs : t_log t' = t_log t ++ outs -> answered t' = answered t ++ omap answered_of outs.
Proof. intros E. unfold answered. by rewrite E, omap_app. Qed.

Lemma turn_answers paused l : omap answered_of (turn_calls paused l) = [].
Proof.
  induction l as [|[k held] l IH]; [done|]. unfold turn_calls in *. simpl. rewrite omap_app, IH. destruct paused; [done|]. by destruct held.
Qed.

Lemma event_answers (l : list Queued) : omap answered_of (map (fun q => o_event (qd_owner q) (qd_event q) (qd_payload q)) l) = [].
Proof. by induction l. Qed.

Lemma drain_answers t : answered (drain t) = answered t.
Proof.
  destruct (drain_window_spec t) as (sent & rest & out & _ & _ & _ & E). cbn zeta in E. rewrite E. erewrite answered_log by reflexivity. rewrite omap_app, event_answers.
  destruct (bool_decide _); simpl; [by rewrite app_nil_r|]. by rewrite flow_calls_turn, turn_answers, app_nil_r.
Qed.

Lemma drain_sum n t h : sum_of n (drain t, h) = sum_of n (t, h).
Proof.
  unfold sum_of. simpl. rewrite drain_answers. by destruct (drain_same t) as (_ & _ & -> & -> & _ & -> & _).
Qed.

Lemma enqueue_sum n owner fid event p t h : sum_of n (enqueue owner fid event p t, h) = sum_of n (t, h).
Proof. unfold enqueue. destruct (t_disposed t); [done|]. by rewrite drain_sum. Qed.

Lemma say_sum n outs t h : sum_of n (say outs t, h) = (sum_of n (t, h) + cnt n (omap answered_of outs))%nat.
Proof. unfold sum_of. simpl. rewrite (answered_log t (say outs t) outs), cnt_app by done. simpl. lia. Qed.

Lemma delete_exchange_sum n id e t h :
  shape t -> omap_get id (t_exchanges t) = Some e ->
  (sum_of n (set_exchanges (omap_delete id (t_exchanges t)) t, h) + cnt n (option_list (exchange_waits (id, e))) = sum_of n (t, h))%nat.
Proof.
  intros Hs E. pose proof (proj2 (cnt_perm _ _) (waits_delete exchange_waits id e (t_exchanges t) (sh_nodup_exchanges t Hs) E) n) as H.
  rewrite cnt_app in H. unfold sum_of, answered. simpl in *. lia.
Qed.

Lemma delete_socket_sum n id e t h :
  shape t -> omap_get id (t_sockets t) = Some e ->
  (sum_of n (set_sockets (omap_delete id (t_sockets t)) t, h) + cnt n (option_list (socket_waits (id, e))) = sum_of n (t, h))%nat.
Proof.
  intros Hs E. pose proof (proj2 (cnt_perm _ _) (waits_delete socket_waits id e (t_sockets t) (sh_nodup_sockets t Hs) E) n) as H.
  rewrite cnt_app in H. unfold sum_of, answered. simpl in *. lia.
Qed.

Lemma set_exchange_sum n id e e' t h :
  shape t -> omap_get id (t_exchanges t) = Some e ->
  (sum_of n (set_exchanges (omap_set id e' (t_exchanges t)) t, h) + cnt n (option_list (exchange_waits (id, e))) =
   sum_of n (t, h) + cnt n (option_list (exchange_waits (id, e'))))%nat.
Proof.
  intros Hs E. pose proof (proj2 (cnt_perm _ _) (waits_set exchange_waits id e e' (t_exchanges t) (sh_nodup_exchanges t Hs) E) n) as H.
  rewrite !cnt_app in H. unfold sum_of, answered. simpl in *. lia.
Qed.

Lemma set_socket_sum n id e e' t h :
  shape t -> omap_get id (t_sockets t) = Some e ->
  (sum_of n (set_sockets (omap_set id e' (t_sockets t)) t, h) + cnt n (option_list (socket_waits (id, e))) =
   sum_of n (t, h) + cnt n (option_list (socket_waits (id, e'))))%nat.
Proof.
  intros Hs E. pose proof (proj2 (cnt_perm _ _) (waits_set socket_waits id e e' (t_sockets t) (sh_nodup_sockets t Hs) E) n) as H.
  rewrite !cnt_app in H. unfold sum_of, answered. simpl in *. lia.
Qed.

Lemma new_exchange_sum n id e t h :
  shape t -> idInUse id t = false ->
  (sum_of n (set_exchanges (omap_set id e (t_exchanges t)) t, h) = sum_of n (t, h) + cnt n (option_list (exchange_waits (id, e))))%nat.
Proof.
  intros Hs Hu. apply idInUse_false in Hu as (_ & _ & Hu & _).
  pose proof (proj2 (cnt_perm _ _) (waits_new exchange_waits id e (t_exchanges t) (sh_nodup_exchanges t Hs) Hu) n) as H.
  rewrite cnt_app in H. unfold sum_of, answered. simpl in *. lia.
Qed.

Lemma new_socket_sum n id e t h :
  shape t -> idInUse id t = false ->
  (sum_of n (set_sockets (omap_set id e (t_sockets t)) t, h) = sum_of n (t, h) + cnt n (option_list (socket_waits (id, e))))%nat.
Proof.
  intros Hs Hu. apply idInUse_false in Hu as (_ & _ & _ & Hu).
  pose proof (proj2 (cnt_perm _ _) (waits_new socket_waits id e (t_sockets t) (sh_nodup_sockets t Hs) Hu) n) as H.
  rewrite cnt_app in H. unfold sum_of, answered. simpl in *. lia.
Qed.

Lemma hand_sum n t rq : sum_of n (t, Some rq) = (sum_of n (t, None) + cnt n [rq_no rq])%nat.
Proof. unfold sum_of. cbn [fst snd]. change (in_hand (Some rq)) with [rq_no rq]. change (in_hand None) with (@nil nat). change (cnt n []) with 0%nat. lia. Qed.

Lemma exchange_waits_list id e : option_list (exchange_waits (id, e)) = if ex_answered e then [] else [rq_no (ex_request e)].
Proof. unfold exchange_waits. simpl. by destruct (ex_answered e). Qed.

Lemma socket_waits_list id e : option_list (socket_waits (id, e)) = if so_open e then [] else [rq_no (so_request e)].
Proof. unfold socket_waits. simpl. by destruct (so_open e). Qed.

Lemma call_sum n id c t h : sum_of n (call id c t, h) = sum_of n (t, h).
Proof. unfold call. rewrite say_sum. change (cnt n (omap answered_of [o_call id c])) with 0%nat. lia. Qed.

Lemma fail_sum n rq e t h : sum_of n (fail rq e t, h) = (sum_of n (t, h) + cnt n [rq_no rq])%nat.
Proof. unfold fail. by rewrite say_sum. Qed.

Lemma ok_sum n rq v t h : sum_of n (ok rq v t, h) = (sum_of n (t, h) + cnt n [rq_no rq])%nat.
Proof. unfold ok. by rewrite say_sum. Qed.

Lemma cnt_nil n : cnt n [] = 0%nat.
Proof. done. Qed.

Lemma drop_exchange_sum n id t h : shape t -> t_disposed t = false -> sum_of n (dropExchange id t, h) = sum_of n (t, h).
Proof.
  intros Hs Hd. unfold dropExchange. destruct (omap_get id (t_exchanges t)) as [e|] eqn:E; [|done]. cbn zeta.
  change (t_disposed (call _ _ _)) with (t_disposed t). rewrite Hd. pose proof (delete_exchange_sum n id e t h Hs E) as H.
  rewrite exchange_waits_list in H. destruct (ex_answered e); cbn [negb andb]; rewrite ?fail_sum, call_sum; rewrite ?cnt_nil in H; lia.
Qed.

Lemma drop_socket_sum n id t h : shape t -> t_disposed t = false -> sum_of n (dropSocket id t, h) = sum_of n (t, h).
Proof.
  intros Hs Hd. unfold dropSocket. destruct (omap_get id (t_sockets t)) as [e|] eqn:E; [|done]. cbn zeta.
  change (t_disposed (call _ _ _)) with (t_disposed t). rewrite Hd. pose proof (delete_socket_sum n id e t h Hs E) as H.
  rewrite socket_waits_list in H. destruct (so_open e); cbn [negb andb]; rewrite ?fail_sum, call_sum; rewrite ?cnt_nil in H; lia.
Qed.

Lemma drop_bookkeeping id t :
  t_requests (dropExchange id t) = t_requests t /\ pending_fields (dropExchange id t) = pending_fields t /\
  t_requests (dropSocket id t) = t_requests t /\ pending_fields (dropSocket id t) = pending_fields t.
Proof.
  unfold dropExchange, dropSocket. destruct (omap_get id (t_exchanges t)), (omap_get id (t_sockets t)); split_all; try done;
    by destruct (negb _ && _).
Qed.

Lemma quiet_answers outs : forallb quiet outs = true -> omap answered_of outs = [].
Proof.
  induction outs as [|o outs IH]; [done|]. intros [Ho H]%andb_true_iff. change (omap answered_of ([o] ++ outs) = []).
  rewrite omap_app, (IH H). by destruct o.
Qed.

Lemma await_sum n p t h : sum_of n (await p t, h) = (sum_of n (t, h) + cnt n (option_list (rq_no <$> pending_rq p)))%nat.
Proof.
  unfold sum_of, await, answered. cbn [fst snd t_log t_exchanges t_sockets t_pending set_pending]. rewrite omap_app, cnt_app.
  cbn [omap list_omap pending_waits snd]. unfold pending_waits. simpl snd. destruct (rq_no <$> pending_rq p); simpl option_list; lia.
Qed.

Lemma omap_cons_list {A B} (f : A -> option B) x l : omap f (x :: l) = option_list (f x) ++ omap f l.
Proof. simpl. by destruct (f x). Qed.

Lemma pick_sum n t no p :
  NoDup (map fst (t_pending t)) -> (no, p) ∈ t_pending t ->
  sum_of n (set_pending (filter (fun p => p.1 <> no) (t_pending t)) (t_promises t) t, pending_rq p) = sum_of n (t, None).
Proof.
  intros Hnd Hin. unfold sum_of, answered. cbn [fst snd t_log t_exchanges t_sockets t_pending set_pending].
  assert (Hp : t_pending t ≡ₚ (no, p) :: filter (fun p => p.1 <> no) (t_pending t)).
  { clear -Hnd Hin. induction (t_pending t) as [|[k q] l IH]; [by apply elem_of_nil in Hin|]. simpl in Hnd. apply NoDup_cons in Hnd as [Hn Hnd].
    rewrite filter_cons. simpl. apply elem_of_cons in Hin as [[= <- <-]|Hin].
    - rewrite decide_False by tauto. f_equiv. rewrite filter_all; [done|]. intros x Hx E. apply Hn. rewrite <- E. by apply (list_elem_of_fmap_2 fst).
    - rewrite decide_True; [rewrite (IH Hnd Hin) at 1; apply Permutation_swap|]. intros ->. apply Hn. by apply (list_elem_of_fmap_2 fst l (no, p)). }
  pose proof (proj2 (cnt_perm _ _) (omap_perm pending_waits _ _ Hp) n) as H. rewrite omap_cons_list, cnt_app in H.
  change (pending_waits (no, p)) with (rq_no <$> pending_rq p) in H. unfold in_hand. change (cnt n (option_list (rq_no <$> None))) with 0%nat. lia.
Qed.

Lemma pending_ok_await p t :
  NoDup (map fst (t_pending t)) /\ Forall (fun p => (p.1 < t_promises t)%nat) (t_pending t) ->
  NoDup (map fst (t_pending (await p t))) /\ Forall (fun p' => (p'.1 < t_promises (await p t))%nat) (t_pending (await p t)).
Proof.
  intros [Hn Hf]. unfold await. simpl. rewrite map_app. split.
  - apply NoDup_app. split_all; [done| |apply NoDup_singleton]. intros x Hx Hx2. apply list_elem_of_singleton in Hx2 as ->.
    apply list_elem_of_fmap in Hx as (q & Eq & Hq). rewrite Forall_forall in Hf. specialize (Hf q Hq). simpl in Eq. lia.
  - apply Forall_app. split; [|by repeat constructor]. eapply Forall_impl; [exact Hf|]. simpl. lia.
Qed.

Lemma accounted_loose t t' h :
  accounted (t, h) -> t_requests t' = t_requests t -> t_disposed t' = t_disposed t -> pending_fields t' = pending_fields t ->
  t_exchanges t' = t_exchanges t -> t_sockets t' = t_sockets t -> answered t' = answered t -> accounted (t', h).
Proof.
  intros Ha Er Ed Ep Ex Es El. apply (accounted_same (t, h)); try done. intros _ n. unfold sum_of. cbn [fst snd].
  injection Ep as Ep _. by rewrite Ex, Es, El, Ep.
Qed.

Lemma drain_accounted t h : accounted (t, h) -> accounted (drain t, h).
Proof.
  intros Ha. destruct (drain_same t) as (_ & _ & Ex & Es & Ed & Ep & Er & En). apply (accounted_loose t); try done; [|apply drain_answers].
  unfold pending_fields. by rewrite Ep, En.
Qed.

Lemma enqueue_accounted owner fid event p t h : accounted (t, h) -> accounted (enqueue owner fid event p t, h).
Proof. intros Ha. unfold enqueue. destruct (t_disposed t); [done|]. apply drain_accounted. by apply (accounted_loose t). Qed.

Lemma enqueue_bookkeeping owner fid event p t :
  t_requests (enqueue owner fid event p t) = t_requests t /\ pending_fields (enqueue owner fid event p t) = pending_fields t.
Proof. destruct (enqueue_same owner fid event p t) as (_ & _ & _ & _ & _ & E & -> & E'). unfold pending_fields. by rewrite E, E'. Qed.

Lemma accounted_micro x y : micro x y -> shape x.1 -> accounted x -> accounted y.
Proof.
  intros H. destruct H; cbn [fst]; intros Hs Ha;
    try (by apply (accounted_loose t)).
  - (* take *) destruct Ha as [Ha Hp]. constructor; [|exact Hp]. intros Hd. cbn [fst] in *. simpl. rewrite length_app. simpl.
    rewrite Nat.add_1_r, seq_S, <- (Ha Hd). apply cnt_perm. intros n. rewrite cnt_app, !sum_all. simpl. exact (hand_sum n (count_request id t) _).
  - apply (accounted_same (t, Some rq)); try done. intros _ n. by rewrite ok_sum, hand_sum.
  - apply (accounted_same (t, Some rq)); try done. intros _ n. by rewrite fail_sum, hand_sum.
  - destruct Ha as [_ Hp]. constructor; [|exact Hp]. cbn. congruence.
  - apply (accounted_step (t, Some rq)); try done; [|by apply pending_ok_await, Ha]. intros _ n. rewrite await_sum, H. by rewrite hand_sum.
  - apply (accounted_step (t, None)); try done; [intros _ n; apply pick_sum; [apply Ha|done]|]. destruct Ha as [_ [Hn Hf]]. cbn in *. split.
    + eapply sublist_NoDup; [exact Hn|]. apply fmap_sublist, sublist_filter.
    + rewrite Forall_forall in *. intros q Hq. apply list_elem_of_filter in Hq as [_ Hq]. by apply Hf.
  - apply drain_accounted, (accounted_same (t, Some rq)); try done. intros _ k. by rewrite ok_sum, hand_sum.
  - assert (G : accounted (t2, None)).
    { apply (accounted_same (t, Some rq)); try done. intros _ n. subst t2. rewrite (new_exchange_sum n _ _ (call _ _ t)), exchange_waits_list, call_sum, hand_sum; [done|by apply (shape_same t)|done]. }
    destruct (t_paused t2); [|done]. apply (accounted_same (t2, None)); try done. intros _ n. by rewrite call_sum.
  - assert (G : accounted (t2, None)).
    { apply (accounted_same (t, Some rq)); try done. intros _ n. subst t2. rewrite (new_socket_sum n _ _ (call _ _ t)), socket_waits_list, call_sum, hand_sum; [done|by apply (shape_same t)|done]. }
    destruct (t_paused t2); [|done]. apply (accounted_same (t2, None)); try done. intros _ n. by rewrite call_sum.
  - apply (accounted_same (t, h)); try done. intros _ n. pose proof (set_exchange_sum n id e (mkExchange (ex_frameId e) (ex_request e) (ex_answered e) stop (ex_held e)) t h Hs H) as E.
    rewrite !exchange_waits_list in E. simpl in *. lia.
  - apply (accounted_same (t, h)); try done. intros _ k. pose proof (set_socket_sum k id e (set_fragments l n binary e) t h Hs H) as E.
    rewrite !socket_waits_list in E. simpl in *. lia.
  - apply (accounted_same (t, h)); try done. intros _ n. pose proof (set_exchange_sum n id e (mkExchange (ex_frameId e) (ex_request e) true (ex_ended e) (ex_held e)) t h Hs H) as E.
    rewrite !exchange_waits_list, H0 in E. cbn [ex_answered] in E. rewrite cnt_nil in E. rewrite ok_sum. lia.
  - apply (accounted_same (t, h)); try done. intros _ n.
    pose proof (set_socket_sum n id e (mkSocket (so_frameId e) (so_request e) true (so_held e) (so_fragments e) (so_fragmentBytes e) (so_fragmentBinary e)) t h Hs H) as E.
    rewrite !socket_waits_list, H0 in E. cbn [so_open] in E. rewrite cnt_nil in E. rewrite ok_sum. lia.
  - apply (accounted_same (t, h)); try done; try (cbn [fst]; unfold hold_call; destruct paused; [done|by destruct (negb (t_paused t))]). intros _ n.
    pose proof (set_exchange_sum n id e (mkExchange (ex_frameId e) (ex_request e) (ex_answered e) (ex_ended e) paused) t h Hs H) as E.
    rewrite !exchange_waits_list in E. cbn [ex_answered ex_request] in E. unfold hold_call. destruct paused; [rewrite call_sum; lia|].
    destruct (negb (t_paused t)); rewrite ?call_sum; lia.
  - apply (accounted_same (t, h)); try done; try (cbn [fst]; unfold hold_call; destruct paused; [done|by destruct (negb (t_paused t))]). intros _ n.
    pose proof (set_socket_sum n id e (mkSocket (so_frameId e) (so_request e) (so_open e) paused (so_fragments e) (so_fragmentBytes e) (so_fragmentBinary e)) t h Hs H) as E.
    rewrite !socket_waits_list in E. cbn [so_open so_request] in E. unfold hold_call. destruct paused; [rewrite call_sum; lia|].
    destruct (negb (t_paused t)); rewrite ?call_sum; lia.
  - destruct (drop_bookkeeping id t) as (Er & Ep & _). apply (accounted_same (t, h)); try done; [by apply drop_parts|].
    intros Hd n. by apply drop_exchange_sum.
  - destruct (drop_bookkeeping id t) as (_ & _ & Er & Ep). apply (accounted_same (t, h)); try done; [by apply drop_socket_parts|].
    intros Hd n. by apply drop_socket_sum.
  - assert (Hs1 : shape t1) by (apply shape_enqueue; [done|]; by apply (omap_Forall_get _ _ _ _ (sh_exchanges t Hs) H)).
    assert (Ha1 : accounted (t1, h)) by by apply enqueue_accounted. apply (accounted_same (t1, h)); try done. intros _ n.
    assert (E : omap_get id (t_exchanges t1) = Some e) by (subst t1; by rewrite (proj1 (enqueue_keeps _ _ _ _ _))).
    pose proof (delete_exchange_sum n id e t1 h Hs1 E) as G. rewrite exchange_waits_list, H0, cnt_nil in G. lia.
  - apply (accounted_same (t, h)); try done. intros _ n. pose proof (delete_exchange_sum n id e (fail (ex_request e) message t) h) as G.
    rewrite exchange_waits_list, H0, fail_sum in G. simpl in G. specialize (G ltac:(by apply (shape_same t)) H). unfold fail in *. lia.
  - assert (Hs1 : shape t1) by (apply shape_enqueue; [done|]; by apply (omap_Forall_get _ _ _ _ (sh_sockets t Hs) H)).
    assert (Ha1 : accounted (t1, h)) by by apply enqueue_accounted. apply (accounted_same (t1, h)); try done. intros _ n.
    assert (E : omap_get id (t_sockets t1) = Some e) by (subst t1; by rewrite (proj1 (proj2 (enqueue_keeps _ _ _ _ _)))).
    pose proof (delete_socket_sum n id e t1 h Hs1 E) as G. rewrite socket_waits_list, H0, cnt_nil in G. lia.
  - apply (accounted_same (t, h)); try done. intros _ n. pose proof (delete_socket_sum n id e (fail (so_request e) message t) h) as G.
    rewrite socket_waits_list, H0, fail_sum in G. simpl in G. specialize (G ltac:(by apply (shape_same t)) H). unfold fail in *. lia.
  - by apply enqueue_accounted.
  - by apply enqueue_accounted.
  - apply (accounted_loose t); try done. rewrite (answered_log t _ [o_close_grant (rq_no rq)]); [by rewrite app_nil_r|done].
  - apply (accounted_loose t); try done. rewrite (answered_log t _ [o_close_grant (f_no f)]); [by rewrite app_nil_r|done].
  - apply (accounted_loose t); try done. rewrite (answered_log t _ [o_event id "frame.closed" (pl_data surface_gone)]); [by rewrite app_nil_r|done].
  - apply (accounted_loose t); try done. rewrite (answered_log t _ outs); [by rewrite quiet_answers, app_nil_r|done].
  - apply (accounted_step (t, h)); try done; [|by apply pending_ok_await, Ha]. intros _ n. rewrite await_sum, H. simpl. lia.
Qed.

(** *** After the end nothing more is said *)

Definition loud (o : Out) : bool := match o with o_ok _ _ | o_fail _ _ | o_event _ _ _ => true | _ => false end.

Definition said t : list Out := filter (fun o => loud o = true) (t_log t).

Lemma mute_log t t' outs : t_log t' = t_log t ++ outs -> forallb (fun o => negb (loud o)) outs = true -> said t' = said t.
Proof.
  intros El Hq. unfold said. rewrite El, filter_app. rewrite (list_filter_nil_of _ outs); [by rewrite app_nil_r|]. intros o Ho Hl.
  apply (proj1 (forallb_forall _ _)) with (x := o) in Hq; [|by apply list_elem_of_In]. by rewrite Hl in Hq.
Qed.

Lemma mute_micro x y : micro x y -> t_disposed x.1 = true -> empty x.1 -> said y.1 = said x.1.
Proof.
  intros H Hd (E1 & E2 & E3 & E4 & E5). destruct H; cbn [fst] in *; try congruence; try done;
    try (by rewrite E3 in H); try (by rewrite E4 in H); try (by rewrite E1 in H; destruct H).
  - unfold dropExchange. by rewrite E3.
  - unfold dropSocket. by rewrite E4.
  - by apply (mute_log t _ [o_close_grant (rq_no rq)]).
  - by apply (mute_log t _ [o_close_grant (f_no f)]).
  - apply (mute_log t _ outs); [done|]. apply forallb_forall. intros o Ho. rewrite forallb_forall in H. specialize (H o Ho). by destruct o.
Qed.

Lemma mute_micros x y : micros x y -> t_disposed x.1 = true -> empty x.1 -> said y.1 = said x.1.
Proof.
  intros H. induction H as [|x y z H _ IH]; [done|]. intros Hd He. rewrite IH; [by apply mute_micro|by rewrite (flag_micro x y)|by apply (empty_micro x y)].
Qed.

(** *** Streams in order *)

Definition stream_of (o : Out) : option (string * string * QueuedPayload) :=
  match o with
  | o_event sub event p => if bool_decide (event = "frame.closed"%string) then None else Some (sub, event, p)
  | _ => None
  end.

Definition queued_item (q : Queued) : string * string * QueuedPayload := (qd_owner q, qd_event q, qd_payload q).

(** What the Client was and will be sent for its exchanges and sockets. *)
Definition stream t : list (string * string * QueuedPayload) := omap stream_of (t_log t) ++ map queued_item (t_queue t).

Definition follows (x y : string * string * QueuedPayload) : Prop := final x.1.2 = true -> y.1.1 <> x.1.1.

Definition numbered t rq : Prop := t_requests t !! rq_no rq = Some (rq_id rq).

Record ordered (x : Hand) : Prop := {
  or_hand : forall rq, x.2 = Some rq -> numbered x.1 rq;
  or_pending : forall no p rq, (no, p) ∈ t_pending x.1 -> pending_rq p = Some rq -> numbered x.1 rq;
  or_exchanges : forall id e, (id, e) ∈ t_exchanges x.1 -> rq_id (ex_request e) = id /\ numbered x.1 (ex_request e) /\ (ex_answered e = true -> rq_no (ex_request e) ∈ answered x.1);
  or_sockets : forall id e, (id, e) ∈ t_sockets x.1 -> rq_id (so_request e) = id /\ numbered x.1 (so_request e) /\ (so_open e = true -> rq_no (so_request e) ∈ answered x.1);
  or_stream : forall y, y ∈ stream x.1 -> exists n, n ∈ answered x.1 /\ t_requests x.1 !! n = Some y.1.1;
  or_sorted : StronglySorted follows (stream x.1);
  or_live : forall y, y ∈ stream x.1 -> final y.1.2 = true -> y.1.1 ∉ map fst (t_exchanges x.1) /\ y.1.1 ∉ map fst (t_sockets x.1);
  or_queue : Forall (fun q => qd_event q <> "frame.closed"%string) (t_queue x.1)
}.

Lemma stream_events (l : list Queued) :
  Forall (fun q => qd_event q <> "frame.closed"%string) l ->
  omap stream_of (map (fun q => o_event (qd_owner q) (qd_event q) (qd_payload q)) l) = map queued_item l.
Proof. intros Hl. induction Hl as [|q l Hq Hl IH]; [done|]. simpl. rewrite bool_decide_eq_false_2 by done. f_equal. exact IH. Qed.

Lemma turn_stream paused l : omap stream_of (turn_calls paused l) = [].
Proof.
  induction l as [|[k held] l IH]; [done|]. unfold turn_calls in *. simpl. rewrite omap_app, IH. destruct paused; [done|]. by destruct held.
Qed.

Lemma drain_stream t :
  Forall (fun q => qd_event q <> "frame.closed"%string) (t_queue t) ->
  stream (drain t) = stream t /\ Forall (fun q => qd_event q <> "frame.closed"%string) (t_queue (drain t)).
Proof.
  intros Hq. destruct (drain_window_spec t) as (sent & rest & out & _ & Eq & _ & E). cbn zeta in E. rewrite E. clear E. rewrite Eq in Hq.
  apply Forall_app in Hq as [Hs Hr]. split; [|exact Hr]. unfold stream. cbn [t_log t_queue say set_flow set_window]. rewrite Eq, !omap_app, map_app, stream_events by done.
  rewrite <- !app_assoc. f_equal. f_equal. destruct (bool_decide _); [done|]. by rewrite flow_calls_turn, turn_stream.
Qed.

Lemma enqueue_stream owner fid event p t :
  Forall (fun q => qd_event q <> "frame.closed"%string) (t_queue t) -> event <> "frame.closed"%string -> t_disposed t = false ->
  stream (enqueue owner fid event p t) = stream t ++ [(owner, event, p)] /\
  Forall (fun q => qd_event q <> "frame.closed"%string) (t_queue (enqueue owner fid event p t)).
Proof.
  intros Hq He Hd. unfold enqueue. rewrite Hd. set (t1 := set_queue _ t).
  destruct (drain_stream t1) as [-> H]; [simpl; apply Forall_app; split; [done|by constructor]|]. split; [|done].
  unfold stream. simpl. by rewrite map_app, app_assoc.
Qed.

Lemma stream_say t outs : omap stream_of outs = [] -> stream (say outs t) = stream t.
Proof. intros H. unfold stream. simpl. by rewrite omap_app, H, app_nil_r. Qed.

(** Fewer things to say, and nothing new to say them of. *)
Lemma ordered_mono (x y : Hand) :
  ordered x -> t_requests x.1 `prefix_of` t_requests y.1 -> (forall n, n ∈ answered x.1 -> n ∈ answered y.1) ->
  (forall rq, y.2 = Some rq -> numbered y.1 rq) ->
  (forall no p rq, (no, p) ∈ t_pending y.1 -> pending_rq p = Some rq -> numbered y.1 rq) ->
  (forall id e', (id, e') ∈ t_exchanges y.1 -> exists e, (id, e) ∈ t_exchanges x.1 /\ ex_request e' = ex_request e /\
     (ex_answered e' = true -> ex_answered e = true \/ rq_no (ex_request e) ∈ answered y.1)) ->
  (forall id e', (id, e') ∈ t_sockets y.1 -> exists e, (id, e) ∈ t_sockets x.1 /\ so_request e' = so_request e /\
     (so_open e' = true -> so_open e = true \/ rq_no (so_request e) ∈ answered y.1)) ->
  stream y.1 `sublist_of` stream x.1 -> Forall (fun q => qd_event q <> "frame.closed"%string) (t_queue y.1) -> ordered y.
Proof.
  intros Ho [l El] Ha Hh Hp Hx Hs Hst Hq.
  assert (Hnum : forall rq, numbered x.1 rq -> numbered y.1 rq) by (intros rq Hr; unfold numbered in *; rewrite El; by apply lookup_app_l_Some).
  constructor; [done|done| | | | | |done].
  - intros id e' He. destruct (Hx id e' He) as (e & Hin & -> & Hans). destruct (or_exchanges x Ho id e Hin) as (E1 & E2 & E3).
    split_all; [done|by apply Hnum|]. intros H. destruct (Hans H) as [H'|H']; [by apply Ha, E3|done].
  - intros id e' He. destruct (Hs id e' He) as (e & Hin & -> & Hans). destruct (or_sockets x Ho id e Hin) as (E1 & E2 & E3).
    split_all; [done|by apply Hnum|]. intros H. destruct (Hans H) as [H'|H']; [by apply Ha, E3|done].
  - intros z Hz. destruct (or_stream x Ho z) as (n & Hn & Hl); [by apply (elem_of_sublist _ _ _ Hz)|]. exists n. split; [by apply Ha|]. rewrite El. by apply lookup_app_l_Some.
  - refine (_ (or_sorted x Ho)). clear -Hst. induction Hst as [|z l k Hl IH|z l k Hl IH]; intros Hsrt; [done|apply StronglySorted_inv in Hsrt as [Hsrt Hz]..]; [|by apply IH].
    constructor; [by apply IH|]. rewrite Forall_forall in *. intros w Hw. by apply Hz, (elem_of_sublist _ _ _ Hw).
  - intros z Hz Hf. destruct (or_live x Ho z) as [L1 L2]; [by apply (elem_of_sublist _ _ _ Hz)|done|]. split; intros Hin; apply list_elem_of_fmap in Hin as ([k e'] & Ek & He).
    + apply L1. destruct (Hx k e' He) as (e & Hin & _). apply list_elem_of_fmap. exists (k, e). by split.
    + apply L2. destruct (Hs k e' He) as (e & Hin & _). apply list_elem_of_fmap. exists (k, e). by split.
Qed.

(** The same maps. *)
Lemma ordered_loose t t' h h' :
  ordered (t, h) -> t_requests t' = t_requests t -> (forall n, n ∈ answered t -> n ∈ answered t') ->
  (forall rq, h' = Some rq -> numbered t rq) -> (forall no p rq, (no, p) ∈ t_pending t' -> pending_rq p = Some rq -> numbered t rq) ->
  t_exchanges t' = t_exchanges t -> t_sockets t' = t_sockets t -> stream t' = stream t -> Forall (fun q => qd_event q <> "frame.closed"%string) (t_queue t') ->
  ordered (t', h').
Proof.
  intros Ho Er Ha Hh Hp Ex Es Est Hq. assert (Hn : forall rq, numbered t rq -> numbered t' rq) by (intros rq; unfold numbered; by rewrite Er).
  apply (ordered_mono (t, h)); cbn [fst snd]; try done; rewrite ?Er, ?Ex, ?Es, ?Est; try done; eauto.
Qed.

Lemma answered_more t t' outs : t_log t' = t_log t ++ outs -> forall n, n ∈ answered t -> n ∈ answered t'.
Proof. intros E n Hn. rewrite (answered_log t t' outs E). apply elem_of_app. by left. Qed.

Lemma ordered_drain t h : ordered (t, h) -> ordered (drain t, h).
Proof.
  intros Ho. destruct (drain_stream t (or_queue _ Ho)) as [Es Hq]. destruct (drain_same t) as (_ & _ & Ex & Eso & _ & Ep & Er & _).
  apply (ordered_loose t _ h); try done; [by rewrite drain_answers|apply (or_hand _ Ho)|]. rewrite Ep. apply (or_pending _ Ho).
Qed.

(** One more event of a live exchange or socket. *)
Lemma ordered_enqueue owner fid event p t h :
  ordered (t, h) -> event <> "frame.closed"%string -> t_disposed t = false ->
  (owner ∈ map fst (t_exchanges t) \/ owner ∈ map fst (t_sockets t)) -> (exists n, n ∈ answered t /\ t_requests t !! n = Some owner) ->
  let t1 := enqueue owner fid event p t in
  (forall rq, h = Some rq -> numbered t1 rq) /\ (forall no p rq, (no, p) ∈ t_pending t1 -> pending_rq p = Some rq -> numbered t1 rq) /\
  answered t1 = answered t /\ t_requests t1 = t_requests t /\ stream t1 = stream t ++ [(owner, event, p)] /\ StronglySorted follows (stream t1) /\
  Forall (fun q => qd_event q <> "frame.closed"%string) (t_queue t1).
Proof.
  intros Ho He Hd Hlive Hn t1. destruct (enqueue_stream owner fid event p t (or_queue _ Ho) He Hd) as [Es Hq]. fold t1 in Es, Hq.
  destruct (enqueue_same owner fid event p t) as (_ & _ & _ & _ & _ & Ep & Er & _). fold t1 in Ep, Er.
  assert (Ea : answered t1 = answered t) by (unfold t1, enqueue; rewrite Hd; by rewrite drain_answers).
  split_all; try done.
  - intros rq Hh. unfold numbered. rewrite Er. by apply (or_hand _ Ho).
  - intros no q rq Hin Hr. unfold numbered. rewrite Er. rewrite Ep in Hin. by apply (or_pending _ Ho no q).
  - rewrite Es. apply StronglySorted_app. split_all; [|apply (or_sorted _ Ho)|by repeat constructor]. intros z w Hz Hw.
    apply list_elem_of_singleton in Hw as ->. intros Hf. cbn. intros ->. destruct (or_live _ Ho z Hz Hf) as [L1 L2]. cbn in L1, L2. by destruct Hlive.
Qed.

Lemma ordered_more owner fid event p t h :
  ordered (t, h) -> event <> "frame.closed"%string -> t_disposed t = false -> final event = false ->
  (owner ∈ map fst (t_exchanges t) \/ owner ∈ map fst (t_sockets t)) -> (exists n, n ∈ answered t /\ t_requests t !! n = Some owner) ->
  ordered (enqueue owner fid event p t, h).
Proof.
  intros Ho He Hd Hf Hl Hn. destruct (ordered_enqueue owner fid event p t h Ho He Hd Hl Hn) as (H1 & H2 & Ea & Er & Es & Hsrt & Hq).
  destruct (enqueue_keeps owner fid event p t) as (Ex & Eso & _). constructor; cbn [fst snd]; try done; unfold numbered in *; rewrite ?Ex, ?Eso, ?Ea, ?Er.
  - apply (or_exchanges _ Ho).
  - apply (or_sockets _ Ho).
  - intros y Hy. rewrite Es in Hy. apply elem_of_app in Hy as [Hy|Hy]; [by apply (or_stream _ Ho)|]. by apply list_elem_of_singleton in Hy as ->.
  - intros y Hy Hfy. rewrite Es in Hy. apply elem_of_app in Hy as [Hy|Hy]; [by apply (or_live _ Ho)|]. apply list_elem_of_singleton in Hy as ->. cbn in Hfy. congruence.
Qed.

Lemma deleted_key {V} k (m : list (string * V)) x : x ∈ map fst (omap_delete k m) -> x <> k /\ x ∈ map fst m.
Proof. rewrite omap_delete_keys. intros H. by apply list_elem_of_filter in H. Qed.

Lemma ordered_finish t h id e event data :
  shape t -> ordered (t, h) -> omap_get id (t_exchanges t) = Some e -> ex_answered e = true -> t_disposed t = false -> event <> "frame.closed"%string ->
  let t1 := enqueue id (ex_frameId e) event (pl_data data) t in ordered (set_exchanges (omap_delete id (t_exchanges t1)) t1, h).
Proof.
  intros Hs Ho E Ha Hd He t1. destruct (or_exchanges _ Ho id e (omap_get_elem_of _ _ _ E)) as (Ei & En & Eans).
  assert (Hn : exists n, n ∈ answered t /\ t_requests t !! n = Some id) by (exists (rq_no (ex_request e)); split; [by apply Eans|by rewrite <- Ei]).
  destruct (ordered_enqueue id (ex_frameId e) event (pl_data data) t h Ho He Hd) as (H1 & H2 & Ea & Er & Es & Hsrt & Hq); [left; by apply (omap_get_elem_fst id e)|done|].
  fold t1 in H1, H2, Ea, Er, Es, Hsrt, Hq. destruct (enqueue_keeps id (ex_frameId e) event (pl_data data) t) as (Ex & Eso & _). fold t1 in Ex, Eso.
  constructor; cbn [fst snd t_exchanges t_sockets t_requests set_exchanges]; try done; rewrite ?Ex, ?Eso; unfold numbered in *; cbn [t_requests set_exchanges]; rewrite ?Er.
  - intros k e' Hk. apply list_elem_of_filter in Hk as [_ Hk]. destruct (or_exchanges _ Ho k e' Hk) as (G1 & G2 & G3). split_all; [done|done|].
    intros G. change (rq_no (ex_request e') ∈ answered t1). rewrite Ea. by apply G3.
  - intros k e' Hk. destruct (or_sockets _ Ho k e' Hk) as (G1 & G2 & G3). split_all; [done|done|].
    intros G. change (rq_no (so_request e') ∈ answered t1). rewrite Ea. by apply G3.
  - intros y Hy. change (y ∈ stream t1) in Hy. rewrite Es in Hy. change (exists n, n ∈ answered t1 /\ t_requests t !! n = Some y.1.1). rewrite Ea.
    apply elem_of_app in Hy as [Hy|Hy]; [by apply (or_stream _ Ho)|]. by apply list_elem_of_singleton in Hy as ->.
  - intros y Hy Hfy. change (y ∈ stream t1) in Hy. rewrite Es in Hy. apply elem_of_app in Hy as [Hy|Hy].
    + destruct (or_live _ Ho y Hy Hfy) as [L1 L2]. split; [|done]. by intros [_ Hin]%deleted_key.
    + apply list_elem_of_singleton in Hy as ->. cbn. split; [by intros [? _]%deleted_key|]. by apply (get_apart t id e).
Qed.

Lemma ordered_closed t h id e event data :
  shape t -> ordered (t, h) -> omap_get id (t_sockets t) = Some e -> so_open e = true -> t_disposed t = false -> event <> "frame.closed"%string ->
  let t1 := enqueue id (so_frameId e) event (pl_data data) t in ordered (set_sockets (omap_delete id (t_sockets t1)) t1, h).
Proof.
  intros Hs Ho E Ha Hd He t1. destruct (or_sockets _ Ho id e (omap_get_elem_of _ _ _ E)) as (Ei & En & Eans).
  assert (Hn : exists n, n ∈ answered t /\ t_requests t !! n = Some id) by (exists (rq_no (so_request e)); split; [by apply Eans|by rewrite <- Ei]).
  destruct (ordered_enqueue id (so_frameId e) event (pl_data data) t h Ho He Hd) as (H1 & H2 & Ea & Er & Es & Hsrt & Hq); [right; by apply (omap_get_elem_fst id e)|done|].
  fold t1 in H1, H2, Ea, Er, Es, Hsrt, Hq. destruct (enqueue_keeps id (so_frameId e) event (pl_data data) t) as (Ex & Eso & _). fold t1 in Ex, Eso.
  constructor; cbn [fst snd t_exchanges t_sockets t_requests set_sockets]; try done; rewrite ?Ex, ?Eso; unfold numbered in *; cbn [t_requests set_sockets]; rewrite ?Er.
  - intros k e' Hk. destruct (or_exchanges _ Ho k e' Hk) as (G1 & G2 & G3). split_all; [done|done|].
    intros G. change (rq_no (ex_request e') ∈ answered t1). rewrite Ea. by apply G3.
  - intros k e' Hk. apply list_elem_of_filter in Hk as [_ Hk]. destruct (or_sockets _ Ho k e' Hk) as (G1 & G2 & G3). split_all; [done|done|].
    intros G. change (rq_no (so_request e') ∈ answered t1). rewrite Ea. by apply G3.
  - intros y Hy. change (y ∈ stream t1) in Hy. rewrite Es in Hy. change (exists n, n ∈ answered t1 /\ t_requests t !! n = Some y.1.1). rewrite Ea.
    apply elem_of_app in Hy as [Hy|Hy]; [by apply (or_stream _ Ho)|]. by apply list_elem_of_singleton in Hy as ->.
  - intros y Hy Hfy. change (y ∈ stream t1) in Hy. rewrite Es in Hy. apply elem_of_app in Hy as [Hy|Hy].
    + destruct (or_live _ Ho y Hy Hfy) as [L1 L2]. split; [done|]. by intros [_ Hin]%deleted_key.
    + apply list_elem_of_singleton in Hy as ->. cbn. split; [by apply (get_apart_socket t id e)|by intros [? _]%deleted_key].
Qed.

(** A request in hand is new to the stream: its number is still unanswered. *)
Lemma hand_is_new t rq :
  NoDup (t_requests t) -> accounted (t, Some rq) -> ordered (t, Some rq) -> t_disposed t = false -> forall y, y ∈ stream t -> y.1.1 <> rq_id rq.
Proof.
  intros Hnd Ha Ho Hd y Hy E. destruct (or_stream _ Ho y Hy) as (n & Hn & Hl). pose proof (or_hand _ Ho rq eq_refl) as Hr. unfold numbered in Hr. cbn [fst] in *.
  rewrite E in Hl. assert (n = rq_no rq) as -> by by apply (NoDup_lookup _ _ _ _ Hnd Hl Hr).
  assert (Hnd2 : NoDup (all_of (t, Some rq))) by (rewrite (ac_all _ Ha Hd); apply NoDup_seq).
  unfold all_of in Hnd2. apply NoDup_app in Hnd2 as (_ & Hx & _). apply (Hx _ Hn). apply elem_of_app. right. by left.
Qed.

Lemma delete_elem {V} k (m : list (string * V)) x : x ∈ omap_delete k m -> x ∈ m.
Proof. intros H. by apply list_elem_of_filter in H as [_ H]. Qed.

Lemma drop_stream id t : stream (dropExchange id t) = stream t /\ stream (dropSocket id t) = stream t.
Proof.
  unfold dropExchange, dropSocket. split.
  - destruct (omap_get id (t_exchanges t)) as [e|]; [|done]. cbn zeta. destruct (negb (ex_answered e) && _); unfold fail, call; by rewrite !stream_say.
  - destruct (omap_get id (t_sockets t)) as [e|]; [|done]. cbn zeta. destruct (negb (so_open e) && _); unfold fail, call; by rewrite !stream_say.
Qed.

Lemma hold_stream paused flow id t : stream (hold_call paused flow id t) = stream t /\ answered (hold_call paused flow id t) = answered t /\
  t_pending (hold_call paused flow id t) = t_pending t /\ t_exchanges (hold_call paused flow id t) = t_exchanges t /\ t_sockets (hold_call paused flow id t) = t_sockets t /\
  t_queue (hold_call paused flow id t) = t_queue t.
Proof.
  unfold hold_call. assert (G : forall c, answered (call id c t) = answered t) by (intros c; rewrite (answered_log t _ [o_call id c]); [by rewrite app_nil_r|done]).
  destruct paused; [unfold call at 1; rewrite stream_say; [rewrite G; done|done]|]. destruct (negb flow); [unfold call at 1; rewrite stream_say; [rewrite G; done|done]|done].
Qed.

(** One exchange, or socket, changed. *)
Lemma ordered_set_exchange t t' h id e e' :
  shape t -> ordered (t, h) -> omap_get id (t_exchanges t) = Some e -> ex_request e' = ex_request e -> (ex_answered e' = true -> ex_answered e = true \/ rq_no (ex_request e) ∈ answered t') ->
  t_exchanges t' = omap_set id e' (t_exchanges t) -> t_sockets t' = t_sockets t -> t_requests t' = t_requests t -> t_pending t' = t_pending t ->
  (forall n, n ∈ answered t -> n ∈ answered t') -> stream t' = stream t -> t_queue t' = t_queue t -> ordered (t', h).
Proof.
  intros Hs Ho E Eq Hans Ex Es Er Ep Ha Est Eqq. assert (Hn : forall rq, numbered t rq -> numbered t' rq) by (intros rq; unfold numbered; by rewrite Er).
  apply (ordered_mono (t, h)); cbn [fst snd]; rewrite ?Er, ?Ex, ?Es, ?Est, ?Ep, ?Eqq; try done.
  - intros rq Hh. by apply Hn, (or_hand _ Ho).
  - intros no p rq Hin Hr. by apply Hn, (or_pending _ Ho no p).
  - intros k x Hx. apply omap_set_elem in Hx as [[= -> ->]|[_ Hx]]; [|by exists x; eauto|apply Hs]. exists e. split_all; [by apply omap_get_elem_of|done|done].
  - intros k x Hx. exists x. eauto.
  - apply (or_queue _ Ho).
Qed.

Lemma ordered_set_socket t t' h id e e' :
  shape t -> ordered (t, h) -> omap_get id (t_sockets t) = Some e -> so_request e' = so_request e -> (so_open e' = true -> so_open e = true \/ rq_no (so_request e) ∈ answered t') ->
  t_sockets t' = omap_set id e' (t_sockets t) -> t_exchanges t' = t_exchanges t -> t_requests t' = t_requests t -> t_pending t' = t_pending t ->
  (forall n, n ∈ answered t -> n ∈ answered t') -> stream t' = stream t -> t_queue t' = t_queue t -> ordered (t', h).
Proof.
  intros Hs Ho E Eq Hans Es Ex Er Ep Ha Est Eqq. assert (Hn : forall rq, numbered t rq -> numbered t' rq) by (intros rq; unfold numbered; by rewrite Er).
  apply (ordered_mono (t, h)); cbn [fst snd]; rewrite ?Er, ?Ex, ?Es, ?Est, ?Ep, ?Eqq; try done.
  - intros rq Hh. by apply Hn, (or_hand _ Ho).
  - intros no p rq Hin Hr. by apply Hn, (or_pending _ Ho no p).
  - intros k x Hx. exists x. eauto.
  - intros k x Hx. apply omap_set_elem in Hx as [[= -> ->]|[_ Hx]]; [|by exists x; eauto|apply Hs]. exists e. split_all; [by apply omap_get_elem_of|done|done].
  - apply (or_queue _ Ho).
Qed.

(** Entries taken away. *)
Lemma ordered_fewer t t' h :
  ordered (t, h) -> (forall x, x ∈ t_exchanges t' -> x ∈ t_exchanges t) -> (forall x, x ∈ t_sockets t' -> x ∈ t_sockets t) ->
  t_requests t' = t_requests t -> t_pending t' = t_pending t -> (forall n, n ∈ answered t -> n ∈ answered t') ->
  stream t' `sublist_of` stream t -> (forall q, q ∈ t_queue t' -> q ∈ t_queue t) -> ordered (t', h).
Proof.
  intros Ho Hx Hso Er Ep Ha Est Hq. assert (Hn : forall rq, numbered t rq -> numbered t' rq) by (intros rq; unfold numbered; by rewrite Er).
  apply (ordered_mono (t, h)); cbn [fst snd]; rewrite ?Er, ?Ep; try done.
  - intros rq Hh. by apply Hn, (or_hand _ Ho).
  - intros no p rq Hin Hr. by apply Hn, (or_pending _ Ho no p).
  - intros k x Hk. exists x. eauto.
  - intros k x Hk. exists x. eauto.
  - pose proof (or_queue _ Ho) as Hf. rewrite Forall_forall in *. intros q Hin. by apply Hf, Hq.
Qed.

(** A new exchange or socket. *)
Lemma ordered_new t rq e kind :
  shape t -> ordered (t, Some rq) -> (forall y, y ∈ stream t -> y.1.1 <> rq_id rq) -> ex_request e = rq -> ex_answered e = false ->
  ordered (set_exchanges (omap_set (rq_id rq) e (t_exchanges t)) (call (rq_id rq) kind t), None).
Proof.
  intros Hs Ho Hnew Er Ea. set (t2 := set_exchanges _ _). assert (Est : stream t2 = stream t) by (unfold t2, call; exact (stream_say t [o_call (rq_id rq) kind] eq_refl)).
  assert (Eans : answered t2 = answered t) by (change (answered t2) with (answered (call (rq_id rq) kind t)); unfold call; erewrite answered_log by reflexivity; by rewrite app_nil_r).
  constructor; cbn [fst snd]; rewrite ?Est, ?Eans; try apply Ho; try done.
  - intros k x Hx. apply omap_set_elem in Hx as [[= -> ->]|[_ Hx]]; [|by apply (or_exchanges _ Ho)|apply Hs].
    split_all; [by rewrite Er|rewrite Er; by apply (or_hand _ Ho)|congruence].
  - intros y Hy Hf. destruct (or_live _ Ho y Hy Hf) as [L1 L2]. split; [|done]. intros Hin. simpl in Hin. rewrite omap_set_keys in Hin. case_decide; [done|].
    apply elem_of_app in Hin as [Hin|Hin]; [done|]. apply list_elem_of_singleton in Hin. by apply (Hnew y Hy).
Qed.

Lemma ordered_new_socket t rq e kind :
  shape t -> ordered (t, Some rq) -> (forall y, y ∈ stream t -> y.1.1 <> rq_id rq) -> so_request e = rq -> so_open e = false ->
  ordered (set_sockets (omap_set (rq_id rq) e (t_sockets t)) (call (rq_id rq) kind t), None).
Proof.
  intros Hs Ho Hnew Er Ea. set (t2 := set_sockets _ _). assert (Est : stream t2 = stream t) by (unfold t2, call; exact (stream_say t [o_call (rq_id rq) kind] eq_refl)).
  assert (Eans : answered t2 = answered t) by (change (answered t2) with (answered (call (rq_id rq) kind t)); unfold call; erewrite answered_log by reflexivity; by rewrite app_nil_r).
  constructor; cbn [fst snd]; rewrite ?Est, ?Eans; try apply Ho; try done.
  - intros k x Hx. apply omap_set_elem in Hx as [[= -> ->]|[_ Hx]]; [|by apply (or_sockets _ Ho)|apply Hs].
    split_all; [by rewrite Er|rewrite Er; by apply (or_hand _ Ho)|congruence].
  - intros y Hy Hf. destruct (or_live _ Ho y Hy Hf) as [L1 L2]. split; [done|]. intros Hin. simpl in Hin. rewrite omap_set_keys in Hin. case_decide; [done|].
    apply elem_of_app in Hin as [Hin|Hin]; [done|]. apply list_elem_of_singleton in Hin. by apply (Hnew y Hy).
Qed.

Lemma ordered_log t t' outs h h' :
  ordered (t, h) -> t_log t' = t_log t ++ outs -> omap stream_of outs = [] -> t_requests t' = t_requests t ->
  t_exchanges t' = t_exchanges t -> t_sockets t' = t_sockets t -> t_queue t' = t_queue t ->
  (forall rq, h' = Some rq -> numbered t rq) -> (forall no p rq, (no, p) ∈ t_pending t' -> pending_rq p = Some rq -> numbered t rq) -> ordered (t', h').
Proof.
  intros Ho El Eo Er Ex Es Eq Hh Hp. apply (ordered_loose t _ h); try done; [by apply (answered_more _ _ outs)| |rewrite Eq; apply (or_queue _ Ho)].
  unfold stream. by rewrite El, Eq, omap_app, Eo, app_nil_r.
Qed.

Lemma quiet_stream outs : forallb quiet outs = true -> omap stream_of outs = [].
Proof.
  induction outs as [|o outs IH]; [done|]. intros [Ho H]%andb_true_iff. change (omap stream_of ([o] ++ outs) = []).
  rewrite omap_app, (IH H). by destruct o.
Qed.

Lemma final_named event : final event = true -> event <> "frame.closed"%string.
Proof. by intros H ->. Qed.

Lemma ordered_micro x y :
  micro x y -> shape x.1 -> accounted x -> NoDup (t_requests x.1) -> ordered x -> ordered y.
Proof.
  intros H Hs Ha Hnd Ho. pose proof (or_hand _ Ho) as Hh. pose proof (or_pending _ Ho) as Hp.
  destruct H; cbn [fst snd] in *;
    try (by apply (ordered_log t _ [] h h); [done|by rewrite app_nil_r|done..]);
    try (by apply (ordered_log t _ [] (Some rq) (Some rq)); [done|by rewrite app_nil_r|done..]).
  - apply (ordered_mono (t, None)); cbn [fst snd]; try done; try (by eauto).
    + by eexists.
    + intros rq [= <-]. unfold numbered. simpl. apply list_lookup_middle. done.
    + intros no p rq Hin Hr. unfold numbered. simpl. apply lookup_app_l_Some. by apply (Hp no p).
    + apply (or_queue _ Ho).
  - by apply (ordered_log t _ [o_ok rq v] (Some rq)).
  - by apply (ordered_log t _ [o_fail rq e] (Some rq)).
  - by apply (ordered_log t _ [] (Some rq)); [done|by rewrite app_nil_r|done..].
  - apply (ordered_log t _ [] (Some rq)); try done; [by rewrite app_nil_r|]. intros no q r Hin Hr. simpl in Hin. apply elem_of_app in Hin as [Hin|Hin]; [by apply (Hp no q)|].
    apply list_elem_of_singleton in Hin as [= -> ->]. apply Hh. congruence.
  - apply (ordered_log t _ [] None); try done; [by rewrite app_nil_r| |].
    + intros rq Hr. by apply (Hp no p).
    + intros k q r Hin Hr. simpl in Hin. apply list_elem_of_filter in Hin as [_ Hin]. by apply (Hp k q).
  - apply ordered_drain. by apply (ordered_log t _ [o_ok rq empty_object] (Some rq)).
  - assert (G : ordered (t2, None)) by (apply (ordered_new t rq (mkExchange fid rq false stop false)); try done; by apply hand_is_new).
    destruct (t_paused t2); [|done]. apply (ordered_log t2 _ [o_call (rq_id rq) c_pause] None); try done; apply (or_pending _ G).
  - assert (G : ordered (t2, None)) by (apply (ordered_new_socket t rq (mkSocket fid rq false false [] 0 false)); try done; by apply hand_is_new).
    destruct (t_paused t2); [|done]. apply (ordered_log t2 _ [o_call (rq_id rq) c_pause] None); try done; apply (or_pending _ G).
  - by apply (ordered_set_exchange t _ h id e (mkExchange (ex_frameId e) (ex_request e) (ex_answered e) stop (ex_held e))); try done; left.
  - by apply (ordered_set_socket t _ h id e (set_fragments l n binary e)); try done; left.
  - apply (ordered_set_exchange t _ h id e (mkExchange (ex_frameId e) (ex_request e) true (ex_ended e) (ex_held e))); try done.
    + intros _. right. rewrite (answered_log t _ [o_ok (ex_request e) v]) by done. apply elem_of_app. right. by left.
    + by apply (answered_more _ _ [o_ok (ex_request e) v]).
    + exact (stream_say t [o_ok (ex_request e) v] eq_refl).
  - apply (ordered_set_socket t _ h id e (mkSocket (so_frameId e) (so_request e) true (so_held e) (so_fragments e) (so_fragmentBytes e) (so_fragmentBinary e))); try done.
    + intros _. right. rewrite (answered_log t _ [o_ok (so_request e) v]) by done. apply elem_of_app. right. by left.
    + by apply (answered_more _ _ [o_ok (so_request e) v]).
    + exact (stream_say t [o_ok (so_request e) v] eq_refl).
  - set (t1 := set_exchanges _ t). destruct (hold_stream paused (t_paused t) id t1) as (A & B & C & D & E & F).
    apply (ordered_set_exchange t _ h id e (mkExchange (ex_frameId e) (ex_request e) (ex_answered e) (ex_ended e) paused)); try done; [by left|exact (proj2 (hold_call_same paused (t_paused t) id t1))|by rewrite B].
  - set (t1 := set_sockets _ t). destruct (hold_stream paused (t_paused t) id t1) as (A & B & C & D & E & F).
    apply (ordered_set_socket t _ h id e (mkSocket (so_frameId e) (so_request e) (so_open e) paused (so_fragments e) (so_fragmentBytes e) (so_fragmentBinary e))); try done; [by left|exact (proj2 (hold_call_same paused (t_paused t) id t1))|by rewrite B].
  - destruct (drop_parts id t) as (_ & _ & Eq & Es & Ex & _). destruct (drop_bookkeeping id t) as (Er & [= Ep _] & _). destruct (drop_log id t) as (outs & _ & El & _).
    apply (ordered_fewer t); try done; [by intros x; rewrite Ex; apply delete_elem|by rewrite Es|by apply (answered_more _ _ outs)|by rewrite (proj1 (drop_stream id t))|by rewrite Eq].
  - destruct (drop_socket_parts id t) as (_ & _ & Eq & Ex & Es & _). destruct (drop_bookkeeping id t) as (_ & _ & Er & [= Ep _]). destruct (drop_log id t) as (_ & outs & _ & _ & El & _).
    apply (ordered_fewer t); try done; [by rewrite Ex|by intros x; rewrite Es; apply delete_elem|by apply (answered_more _ _ outs)|by rewrite (proj2 (drop_stream id t))|by rewrite Eq].
  - apply (ordered_finish t h id e event data); try done. by apply final_named.
  - apply (ordered_fewer t); try done; [intros x; apply delete_elem|by apply (answered_more _ _ [o_fail (ex_request e) message])|].
    by rewrite <- (stream_say t [o_fail (ex_request e) message] eq_refl).
  - apply (ordered_closed t h id e event data); try done. by apply final_named.
  - apply (ordered_fewer t); try done; [intros x; apply delete_elem|by apply (answered_more _ _ [o_fail (so_request e) message])|].
    by rewrite <- (stream_say t [o_fail (so_request e) message] eq_refl).
  - destruct (or_exchanges _ Ho id e (omap_get_elem_of _ _ _ H)) as (Ei & En & Eans). apply ordered_more; try done; [left; by apply (omap_get_elem_fst id e)|].
    exists (rq_no (ex_request e)). split; [by apply Eans|]. rewrite <- Ei. exact En.
  - destruct (or_sockets _ Ho id e (omap_get_elem_of _ _ _ H)) as (Ei & En & Eans). apply ordered_more; try done; [right; by apply (omap_get_elem_fst id e)|].
    exists (rq_no (so_request e)). split; [by apply Eans|]. rewrite <- Ei. exact En.
  - apply (ordered_fewer t); try done; [|intros q Hq; by apply list_elem_of_filter in Hq as [_ Hq]]. unfold stream. simpl. apply sublist_app; [done|]. apply fmap_sublist, sublist_filter.
  - by apply (ordered_log t _ [o_close_grant (rq_no rq)] (Some rq)).
  - by apply (ordered_log t _ [o_close_grant (f_no f)] h).
  - by apply (ordered_log t _ [o_event id "frame.closed" (pl_data surface_gone)] h).
  - apply (ordered_log t _ outs h); try done. by apply quiet_stream.
  - apply (ordered_log t _ [] h); try done; [by rewrite app_nil_r|]. intros no q r Hin Hr. simpl in Hin. apply elem_of_app in Hin as [Hin|Hin]; [by apply (Hp no q)|].
    apply list_elem_of_singleton in Hin as [= -> ->]. congruence.
Qed.

(** *** Chunks *)

Lemma chunks_from_concat fuel offset b :
  0 <= offset -> (length b <= fuel + Z.to_nat offset)%nat -> concat (chunks_from fuel offset b) = drop (Z.to_nat offset) b.
Proof.
  revert offset. induction fuel as [|fuel IH]; intros offset Ho Hl; simpl; [by rewrite drop_ge by lia|].
  destruct (offset <? blen b) eqn:E.
  - assert (Hc : 0 < FRAME_CHUNK_BYTES) by done. rewrite concat_cons, IH by lia. unfold subarray, slice. rewrite Z2Nat.inj_add by lia.
    replace (Z.to_nat offset + Z.to_nat FRAME_CHUNK_BYTES - Z.to_nat offset)%nat with (Z.to_nat FRAME_CHUNK_BYTES) by lia.
    rewrite <- (take_drop (Z.to_nat FRAME_CHUNK_BYTES) (drop (Z.to_nat offset) b)) at 2. by rewrite drop_drop.
  - apply Z.ltb_ge in E. unfold blen in E. by rewrite drop_ge by lia.
Qed.

Lemma frameChunks_concat b : concat (frameChunks b) = b.
Proof.
  unfold frameChunks. assert (Hc : 0 < FRAME_CHUNK_BYTES) by done. rewrite concat_cons, chunks_from_concat by lia. unfold subarray, slice.
  rewrite Z2Nat.inj_0, drop_0, Nat.sub_0_r. apply take_drop.
Qed.

Lemma onBody_stream id e chunk t :
  ordered (t, None) -> omap_get id (t_exchanges t) = Some e -> ex_answered e = true -> t_disposed t = false ->
  stream (onBody id chunk t) = stream t ++ map (fun b => (id, "http.body"%string, pl_body b)) (frameChunks chunk).
Proof.
  intros Ho E Ha Hd. unfold onBody. rewrite E, Ha. cbn [negb]. pose proof (or_queue _ Ho) as Hq. cbn [fst] in Hq. clear Ho E.
  revert t Hd Hq. induction (frameChunks chunk) as [|b l IH]; intros t Hd Hq; simpl; [by rewrite app_nil_r|].
  destruct (enqueue_stream id (ex_frameId e) "http.body" (pl_body b) t Hq) as [Es Hq']; [done|done|].
  rewrite IH; [|by rewrite (proj2 (proj2 (enqueue_keeps _ _ _ _ _)))|done]. by rewrite Es, <- app_assoc.
Qed.

Lemma onMessage_stream id e data binary t :
  ordered (t, None) -> omap_get id (t_sockets t) = Some e -> so_open e = true -> t_disposed t = false ->
  stream (onMessage id data binary t) = stream t ++ map (fun p => (id, "ws.message"%string, p)) (message_payloads (frameChunks data) binary).
Proof.
  intros Ho E Ha Hd. unfold onMessage. rewrite E, Ha. cbn [negb]. pose proof (or_queue _ Ho) as Hq. cbn [fst] in Hq. clear Ho E.
  revert t Hd Hq. induction (message_payloads (frameChunks data) binary) as [|p l IH]; intros t Hd Hq; simpl; [by rewrite app_nil_r|].
  destruct (enqueue_stream id (so_frameId e) "ws.message" p t Hq) as [Es Hq']; [done|done|].
  rewrite IH; [|by rewrite (proj2 (proj2 (enqueue_keeps _ _ _ _ _)))|done]. by rewrite Es, <- app_assoc.
Qed.

(** A message is put together again from its fragments, of which the last alone is marked. *)
Fixpoint reassembled (ps : list QueuedPayload) (parts : list bytes) : option (bytes * bool) :=
  match ps with
  | pl_message b binary fin :: ps => if fin then Some (concatBytes (parts ++ [b]), binary) else reassembled ps (parts ++ [b])
  | _ => None
  end.

Lemma message_reassembled l binary parts :
  l <> [] -> reassembled (message_payloads l binary) parts = Some (concatBytes (parts ++ l), binary).
Proof.
  revert parts. induction l as [|b l IH]; intros parts Hl; [done|]. destruct l as [|c l]; [done|].
  change (reassembled (message_payloads (c :: l) binary) (parts ++ [b]) = Some (concatBytes (parts ++ b :: c :: l), binary)).
  rewrite IH by done. by rewrite <- app_assoc.
Qed.

(** *** The whole invariant *)

Lemma requests_grow x y : micro x y -> exists l, t_requests y.1 = t_requests x.1 ++ l.
Proof.
  intros H. destruct H; cbn [fst]; try (by exists []; rewrite app_nil_r); [by eexists|exists []; rewrite app_nil_r..].
  - by destruct (drain_same (ok rq empty_object (set_window (t_queue t) (Z.max 0 (t_outstanding t - n)) t))) as (_ & _ & _ & _ & _ & _ & -> & _).
  - subst t2. by destruct (t_paused _).
  - subst t2. by destruct (t_paused _).
  - by rewrite (proj2 (hold_call_same _ _ _ _)).
  - by rewrite (proj2 (hold_call_same _ _ _ _)).
  - apply drop_requests.
  - apply drop_requests.
  - apply (proj1 (enqueue_bookkeeping id (ex_frameId e) event (pl_data data) t)).
  - apply (proj1 (enqueue_bookkeeping id (so_frameId e) event (pl_data data) t)).
  - apply enqueue_bookkeeping.
  - apply enqueue_bookkeeping.
Qed.

Lemma tunnel_ok ops :
  let t := tunnel_after ops new_tunnel in
  shape t /\ dead t /\ window_ok t /\ told_right t /\ accounted (t, None) /\ (NoDup (t_requests t) -> ordered (t, None)).
Proof.
  pose proof (tunnel_invariant (fun x => window_ok x.1 /\ told_right x.1 /\ accounted x /\ (NoDup (t_requests x.1) -> ordered x)) ops) as H.
  cbn zeta in *. cbn [fst] in H. destruct H as (H1 & H2 & H3 & H4 & H5 & H6); [| | | |by split_all].
  - split_all.
    + by constructor.
    + intros id held Hin. by apply elem_of_nil in Hin.
    + constructor; simpl; [done|]. split; constructor.
    + intros _. constructor; simpl; try done; try (by intros; set_solver); try constructor.
  - intros x y Hm Hs (Hw & Ht & Ha & Ho). split_all.
    + by apply (window_micro x y).
    + by apply (told_micro x y).
    + by apply (accounted_micro x y).
    + intros Hnd. assert (Hx : NoDup (t_requests x.1)).
      { destruct (requests_grow x y Hm) as [l El]. rewrite El in Hnd. by apply NoDup_app in Hnd as [? _]. }
      by apply (ordered_micro x y); auto.
  - intros t Hd (Hw & Ht & Ha & Ho). split_all; [by apply (window_same t)|exact Ht| |].
    + destruct Ha as [_ Hp]. by constructor.
    + intros Hnd. specialize (Ho Hnd). by apply (ordered_log t _ [] None); [done|by rewrite app_nil_r|done..|apply (or_pending _ Ho)].
  - intros t Hd He (Hw & Ht & Ha & Ho). split_all.
    + destruct Hw as [W1 W2 W3 W4 W5]. constructor; [exact W1|by intros []|exact W3|exact W4|constructor].
    + exact Ht.
    + destruct Ha as [_ Hp]. constructor; [simpl; congruence|done].
    + intros Hnd. specialize (Ho Hnd). apply (ordered_fewer t); try done; [|by intros q Hq%elem_of_nil].
      unfold stream. simpl. apply sublist_app; [done|apply sublist_nil_l].
Qed.

(** ** What the tunnel promises *)

(** C22. Every request of a Client is answered once: until the session ends, the
    requests handled are those answered, each once, and those that an exchange,
    a socket or a promise still stands for, so none is left pending by a frame or
    an upstream that goes; once it has ended nothing is held and nothing more is
    said; and never are there more than four frames, thirty-two exchanges or
    eight sockets. *)
Theorem requests_answered_once ops :
  let t := tunnel_after ops new_tunnel in
  (t_disposed t = false -> answered t ++ waiting t ≡ₚ seq 0 (length (t_requests t))) /\
  (t_disposed t = true -> empty t /\ forall op, said (apply_tunnel op t) = said t) /\
  (length (t_frames t) <= MAX_FRAMES_PER_SESSION)%nat /\ (length (t_exchanges t) <= MAX_HTTP_EXCHANGES_PER_SESSION)%nat /\
  (length (t_sockets t) <= MAX_WEBSOCKETS_PER_SESSION)%nat.
Proof.
  intros t. destruct (tunnel_ok ops) as (Hs & Hd & _ & _ & Ha & _). fold t in Hs, Hd, Ha. split_all.
  - intros E. pose proof (ac_all _ Ha E) as H. unfold all_of in H. cbn [fst snd] in H. change (in_hand None) with (@nil nat) in H. by rewrite app_nil_r in H.
  - intros E. split; [by apply Hd|]. intros op.
    assert (op = op_dispose \/ op <> op_dispose) as [->|Hop] by (destruct op; (by left) || (by right)); [simpl; unfold dispose; by rewrite E|].
    exact (mute_micros _ _ (op_micros op t Hs Hd Hop) E (Hd E)).
  - etrans; [|apply (sh_cap_frames t Hs)]. rewrite <- (length_map fst), <- (size_list_to_set (C:=gset string)) by apply Hs. apply subseteq_size. rewrite list_to_set_app. set_solver.
  - apply Hs.
  - apply Hs.
Qed.

(** C21. The flow window never wedges: what is in flight stays within the window,
    something waits or a source is held back only while at least half of it is
    unacknowledged, so that an ack is due, and an ack of all that is in flight
    sends the head of what waits; and each live source was last told exactly what
    it should be, to pause where the window or its own reader holds it back and
    to flow where neither does. *)
Theorem window_never_wedges ops :
  let t := tunnel_after ops new_tunnel in
  0 <= t_outstanding t <= FRAME_FLOW_WINDOW_BYTES /\
  (t_queue t <> [] -> t_paused t = true) /\ (t_paused t = true -> FRAME_FLOW_WINDOW_BYTES / 2 <= t_outstanding t) /\
  (forall id held, (id, held) ∈ sources t -> flow_now id (t_log t) = t_paused t || held) /\
  (forall isDirect id n, t_disposed t = false -> t_queue t <> [] -> t_outstanding t <= n < 2 ^ 53 ->
     (length (t_queue (apply_tunnel (op_handle isDirect flowAck id (JObject [("bytes"%string, JNumber n)])) t)) < length (t_queue t))%nat).
Proof.
  intros t. destruct (tunnel_ok ops) as (_ & _ & Hw & Ht & _ & _). fold t in Hw, Ht. split_all; try apply Hw; [exact Ht|].
  intros isDirect id n Hd Hq Hn. pose proof (wo_bound t Hw) as Hb. simpl. unfold handle. rewrite Hd. unfold handle_flowAck. simpl.
  rewrite (proj2 (Z.leb_le 0 n)), (proj2 (Z.ltb_lt n _)) by lia. simpl. set (t1 := ok _ _ _).
  assert (E1 : t_outstanding t1 = 0) by (simpl; lia). destruct (drain_window_spec t1) as (sent & rest & out & E & _ & _ & Ed). cbn zeta in Ed. rewrite Ed.
  pose proof (drain_queue_bounds (t_queue t1) (t_outstanding t1) (wo_costs t Hw) ltac:(rewrite E1; unfold WINDOW; done)) as H. rewrite E in H.
  destruct H as (_ & _ & _ & H). exact (H Hq E1).
Qed.

(** C23. What a framed page is sent arrives in order and whole: after an exchange's
    end or error, or a socket's close, nothing more is sent for it; a chunk of a
    body or a message of a socket goes behind all that is sent or waits, in
    pieces within the wire's bound that put together again are what came. *)
Theorem streams_in_order ops (Hfresh : NoDup (t_requests (tunnel_after ops new_tunnel))) :
  let t := tunnel_after ops new_tunnel in
  (forall before x after y, stream t = before ++ x :: after -> final x.1.2 = true -> y ∈ after -> y.1.1 <> x.1.1) /\
  (forall id e chunk, omap_get id (t_exchanges t) = Some e -> ex_answered e = true ->
     let l := frameChunks chunk in
     stream (apply_tunnel (op_body id chunk) t) = stream t ++ map (fun b => (id, "http.body"%string, pl_body b)) l /\ concat l = chunk /\
     Forall (fun b => blen b <= FRAME_CHUNK_BYTES) l) /\
  (forall id e data binary, omap_get id (t_sockets t) = Some e -> so_open e = true ->
     let l := message_payloads (frameChunks data) binary in
     stream (apply_tunnel (op_message id data binary) t) = stream t ++ map (fun p => (id, "ws.message"%string, p)) l /\
     reassembled l [] = Some (data, binary) /\ Forall small_message l).
Proof.
  intros t. destruct (tunnel_ok ops) as (_ & Hd & _ & _ & _ & Ho). specialize (Ho Hfresh). fold t in Hd, Ho. split_all.
  - intros before x after y E Hf Hy. pose proof (or_sorted _ Ho) as H. cbn [fst] in H. rewrite E in H. apply StronglySorted_app in H as (_ & _ & H).
    apply StronglySorted_inv in H as [_ H]. rewrite Forall_forall in H. by apply (H y Hy).
  - intros id e chunk E Ha l. split_all; [|apply frameChunks_concat|apply frameChunks_small]. by apply (onBody_stream id e); [| | |apply (live_exchange id e)].
  - intros id e data binary E Ha l. split_all; [| |by apply message_payloads_small, frameChunks_small].
    + by apply (onMessage_stream id e); [| | |apply (live_socket id e)].
    + unfold l. rewrite message_reassembled by done. rewrite app_nil_l. unfold concatBytes. by rewrite frameChunks_concat.
Qed.

(** The promise a recheck waits for. *)
Lemma settle_recheck now no f answer t :
  NoDup (map fst (t_pending t)) -> (no, p_recheck f) ∈ t_pending t ->
  settle now no answer t =
    default t (settled now (p_recheck f) answer (set_pending (filter (fun p => p.1 <> no) (t_pending t)) (t_promises t) t)).
Proof.
  intros Hnd Hin. unfold settle. destruct (find (fun p => p.1 =? no)%nat (t_pending t)) as [[k p]|] eqn:E.
  - apply find_some in E as [Hp Ek]. simpl in Ek. apply Nat.eqb_eq in Ek as ->. apply list_elem_of_In in Hp.
    apply list_elem_of_lookup in Hin as [i Hi], Hp as [j Hj]. assert (i = j) as <-; [|congruence].
    apply (NoDup_lookup _ _ _ no Hnd); change (map fst) with (fmap (M:=list) (A:=nat * Pending) fst); rewrite list_lookup_fmap; [by rewrite Hi|by rewrite Hj].
  - apply list_elem_of_In in Hin. apply (find_none _ _ E) in Hin. simpl in Hin. by rewrite Nat.eqb_refl in Hin.
Qed.

(** What a recheck does to the frame it asked about. *)
Definition page_gone (now : Z) (f : Frame) (answer : Answer) t : Prop :=
  match answer with
  | a_page url => normalizeOrigin url <> Some (f_pageOrigin f)
  | a_error _ => OWNER_SILENCE_LIMIT_MS <= now - default now (t_silent t !! f_no f)
  | _ => False
  end.

Lemma close_told id f t :
  omap_get id (t_frames t) = Some f ->
  let t' := closeFrame id true t in
  omap_get id (t_frames t') = None /\ unreferenced id t' /\
  o_close_grant (f_no f) ∈ t_log t' /\ o_event id "frame.closed" (pl_data surface_gone) ∈ t_log t'.
Proof.
  intros E. cbn zeta. rewrite (closeFrame_last id true f t E). cbn zeta. fold (frame_emptied id t). destruct (frame_emptied_spec id t) as (_ & _ & _ & U).
  match goal with |- context [if ?b then _ else _] => destruct b end; (split_all; [apply omap_get_delete_eq|exact U|..]; simpl; rewrite !elem_of_app; [left; right; by left|right; by left]).
Qed.

(** C24. A frame lives no longer than its page: once a recheck hears that the
    surface is gone or shows another origin, or has heard nothing from its owner
    for half a minute, the frame is closed, its grant is given back, nothing of
    it is left, and the Client is told; while the page stays, or the silence is
    shorter, every frame stays as it was. *)
Theorem frame_follows_page ops now no f answer
    (Hopen : omap_get (f_id f) (t_frames (tunnel_after ops new_tunnel)) = Some f)
    (Hasked : (no, p_recheck f) ∈ t_pending (tunnel_after ops new_tunnel)) :
  let t := tunnel_after ops new_tunnel in
  let t' := apply_tunnel (op_settle now no answer) t in
  (page_gone now f answer t ->
     omap_get (f_id f) (t_frames t') = None /\ unreferenced (f_id f) t' /\ o_close_grant (f_no f) ∈ t_log t' /\
     o_event (f_id f) "frame.closed" (pl_data surface_gone) ∈ t_log t') /\
  (~ page_gone now f answer t -> t_frames t' = t_frames t /\ t_exchanges t' = t_exchanges t /\ t_sockets t' = t_sockets t).
Proof.
  intros t t'. destruct (tunnel_ok ops) as (_ & _ & _ & _ & Ha & _). fold t in Ha, Hopen, Hasked. unfold t'. simpl.
  rewrite (settle_recheck now no f answer t (proj1 (ac_pending _ Ha)) Hasked). set (t1 := set_pending _ _ t).
  destruct answer as [url|path|why| |m]; simpl; try (by split; [|]).
  - set (t2 := set_silent _ t1). unfold close_unless. case_bool_decide as E.
    + split; [intros H; by destruct (H E)|done].
    + split; [intros _; by apply (close_told (f_id f) f t2)|intros H; by destruct H].
  - set (t2 := set_silent _ t1). destruct (now - default now (t_silent t !! f_no f) <? OWNER_SILENCE_LIMIT_MS) eqn:El.
    + apply Z.ltb_lt in El. split; [lia|]. intros _. unfold scheduleRecheck.
      destruct (t_disposed t2); [by split_all|]. destruct (t_recheckTimer t2); by split_all.
    + apply Z.ltb_ge in El. split; [|by intros []]. intros _. unfold close_unless. rewrite bool_decide_eq_false_2 by done.
      by apply (close_told (f_id f) f t2).
Qed.
End tunnel.

(** ** Samples *)

(** Origins as the text before the first slash past the scheme, of URLs here. *)
#[export] Instance toy_origins : OriginHost := {| URL_origin s := String.substring 0 10 <$> (if bool_decide (s = ""%string) then None else Some s) |}.

Definition open_params : JsValue :=
  JObject [("surfaceId", JString "s1"); ("pageOrigin", JString "http://a:1"); ("frameOrigin", JString "http://f:1"); ("embedderOrigins", JArray [JString "http://e:1"])]%string.

Definition get_params : JsValue :=
  JObject [("frameId", JString "A"); ("method", JString "GET"); ("path", JString "/index"); ("headers", JArray []); ("end", JBool true)]%string.

Example page_wire : map wire_data [pl_body (map byte.of_Z [104; 105]); pl_message [byte.of_Z 0] true true] =
  [JObject [("bytes", JString "aGk")]; JObject [("data", JString "AA"); ("binary", JBool true); ("fin", JBool true)]]%string /\
  decodeChunk "aGk" = Some (map byte.of_Z [104; 105]).
Proof. split; vm_compute; reflexivity. Qed.

(** A frame opens and its page asks for a document. *)
Definition page_ops : list TunnelOp :=
  [op_handle true frameOpen "A" open_params; op_settle 0 0 (a_page (Some "http://a:1/x"%string)); op_settle 0 1 (a_grant "/p");
   op_settle 0 3 a_done; op_handle true httpRequest "B" get_params; op_head "B" 200 "OK" (JArray []);
   op_body "B" (map byte.of_Z [104; 105]); op_end "B"].

Example page_served :
  let t := tunnel_after (O:=toy_origins) (T:=toy_text) page_ops new_tunnel in
  answered t = [0; 1]%nat /\ map fst (t_frames t) = ["A"%string] /\ t_exchanges t = [] /\ t_outstanding t = 258 /\
  stream t = [("B", "http.body", pl_body (map byte.of_Z [104; 105])); ("B", "http.end", pl_data empty_object)]%string.
Proof. cbv zeta. split_all; vm_compute; reflexivity. Qed.

(** The same, up to the head of the answer. *)
#[local] Abbreviation answering := (tunnel_after (O:=toy_origins) (T:=toy_text) (take 6 page_ops) new_tunnel).

Definition asked : Exchange :=
  default (mkExchange "" (mkRequest 0 "" JNull) false false false) (omap_get "B"%string (t_exchanges answering)).

Lemma answering_ids_fresh : NoDup (t_requests answering).
Proof. apply (bool_decide_unpack _). vm_compute. exact I. Qed.

Lemma asked_is_open : omap_get "B"%string (t_exchanges answering) = Some asked.
Proof. vm_compute. reflexivity. Qed.

Lemma asked_is_answered : ex_answered asked = true.
Proof. vm_compute. reflexivity. Qed.

Lemma streams_in_order_witness :
  stream (apply_tunnel (O:=toy_origins) (T:=toy_text) (op_body "B" (map byte.of_Z [104; 105])) answering) =
    stream answering ++ map (fun b => ("B", "http.body", pl_body b)%string) (frameChunks (map byte.of_Z [104; 105])).
Proof.
  destruct (streams_in_order (O:=toy_origins) (T:=toy_text) (take 6 page_ops) answering_ids_fresh) as (_ & Hbody & _).
  exact (proj1 (Hbody "B"%string asked (map byte.of_Z [104; 105]) asked_is_open asked_is_answered)).
Defined.

Lemma frame_follows_page_witness :
  let t := tunnel_after (O:=toy_origins) (T:=toy_text) page_ops new_tunnel in
  let t' := apply_tunnel (O:=toy_origins) (T:=toy_text) (op_settle 0 2 (a_page None)) t in
  omap_get "A"%string (t_frames t') = None.
Proof.
  apply (frame_follows_page (O:=toy_origins) (T:=toy_text) page_ops 0 2 (mkFrame 0 "A" "s1" "http://a:1") (a_page None));
    [vm_compute; reflexivity|apply (list_elem_of_lookup_2 _ 0); vm_compute; reflexivity|vm_compute; discriminate].
Defined.

(** Where a Client reuses the id of an open it closed before it was answered, the
    first open goes on, both install a frame of that id, and the grant of the one
    replaced is never given back. *)
Example reused_id_leaks_grant :
  let t := tunnel_after (O:=toy_origins) (T:=toy_text)
    [op_handle true frameOpen "A" open_params;
     op_handle true frameClose "C" (JObject [("frameId", JString "A")]%string);
     op_handle true frameOpen "A" open_params;
     op_settle 0 0 (a_page (Some "http://a:1/x"%string)); op_settle 0 1 (a_page (Some "http://a:1/x"%string));
     op_settle 0 2 (a_grant "/p"); op_settle 0 3 (a_grant "/q"); op_settle 0 5 a_done; op_settle 0 7 a_done; op_dispose] new_tunnel in
  answered t = [1; 0; 2]%nat /\ filter (fun o => match o with o_close_grant _ => true | _ => false end = true) (t_log t) = [o_close_grant 2].
Proof. cbv zeta. split; vm_compute; reflexivity. Qed.
